(* ===== verification/_CoqProject ===== *)
-Q . S2P
Prelude.v
Dll.v
OrderedDict.v
ZendHash.v
ZendHashInv.v
ZendHashOps.v
ZendHashDict.v
ZendHashExt.v
ZendHashLife.v
ZendHashCopy.v
ZendHashIter.v
ZendHashSort.v
Symtable.v
SymtableSpec.v
ZendQsort.v
HashExamples.v
HashProps.v
ZendInterned.v
ZendInternedSpec.v
InternedProps.v
ZendLlist.v
ZendLlistSpec.v
ZendStack.v
ZendStackSpec.v
ContainerProps.v
Base64.v
SplHeap.v
SplHeapSpec.v
SplHeapProps.v
SplIterators.v
SplDllist.v
SplDllistSpec.v
SplDllistProps.v
ZendArith.v
ArithProps.v
ZendStrings.v
StringProps.v
ZendNumeric.v
ZendNumericSpec.v
ZendCompare.v
CompareProps.v
TrialDeletion.v
TrialScan.v
TrialCollect.v
TrialGarbage.v
ZendGcHeap.v
ZendGc.v
ZendGcSim.v
ZendGcMark.v
ZendGcCollect.v
ZendGcRoots.v
ZendGcBuffer.v
ZendGcRun.v
ZendObjectsStore.v
ZendGcCycles.v
ZendGcSpec.v
ZendObjectsStoreSpec.v
ZendGcPossible.v
GcExamples.v
GcProps.v
Cyc.v
ZendMmTypes.v
MmBits.v
ZendMmFree.v
MmTrie.v
MmTrieDel.v
MmLists.v
MmSearch.v
MmGeo.v
ZendAlloc.v
MmWf.v
MmSegs.v
MmInv.v
MmRelease.v
MmFree.v
MmAlloc.v
MmRealloc.v
MmLife.v
MmSpec.v
MmProps.v
