(* ===== verification/Prelude.v ===== *)
(** A verification of core data structures and algorithms of PHP 5.6.17.

    * The program

    The Zend engine (Zend/) keeps every PHP array, symbol table, class and
    configuration table in one data structure, the ordered hash table of
    Zend/zend_hash.c; its memory comes from the heap of Zend/zend_alloc.c, and
    the cycle collector of Zend/zend_gc.c frees what reference counting
    leaves behind.  Around them stand the sort, the linked list and the two
    stacks the compiler and executor use, the operators on values, and the
    extensions (ext/), of which ext/standard and ext/spl hold algorithms of
    their own.  The files here model these parts as Rocq functions, written
    the way the C code is, and prove what makes them correct.

    * Conventions

    The platform is LP64, without thread safety and without ZEND_DEBUG; [char]
    is signed.  Unsigned machine integers are [Z] with their wrap-around
    written out ([uint_wrap], [ulong_wrap]); memory is a finite map from
    addresses to records ([gmap positive]), arrays are lists with checked
    access.  A C function that can go wrong returns an [outcome]: [OK] with
    its results, [Bailout] for a fatal error that unwinds the request, [UB]
    for a step C leaves undefined (a NULL or dangling dereference, an access
    out of bounds, overflow of an [int]).  Loops over linked structures are
    [Fixpoint]s with fuel; running out of fuel is [UB] too, so every theorem
    that concludes [= OK ...] also proves that the loop ends within its fuel
    (the number of live nodes, of array cells or of bytes) and that all
    accesses are in bounds.  Addresses handed out by the allocator come from
    the interface [PEMalloc] below, whose only law is freshness; sort
    functions passed to the engine come from [SortFunc].  Callbacks are pure
    functions with a state of their own; they do not touch the structure they
    are called from.

    * The files

    - Prelude: machine integers, outcomes, heaps of records, the interfaces
      [PEMalloc] and [SortFunc].
    - Dll: doubly linked lists threaded through a heap, with generic link
      fields (both lists of the hash table and zend_llist are instances), and circular
      lists with a sentinel.
    - OrderedDict: the abstract specification of a hash table, an ordered
      association list with integer and string keys and the next free index,
      and the comparison of two of them.
    - ZendHash, ZendHashExt: the functions of Zend/zend_hash.c and the inline
      parts of zend_hash.h, one definition per function or macro: a bucket heap, the
      bucket array, the collision chains and the global list.
    - ZendHashInv, ZendHashOps, ZendHashDict: the representation invariant
      (chains and global list are well formed and agree with the array), that
      linking, unlinking, resizing and rehashing preserve it, and the
      simulation of the look-ups, insertions and removals by OrderedDict.
    - ZendHashLife, ZendHashCopy, ZendHashIter, ZendHashSort: creation and
      destruction, callbacks, copy and merge, the internal pointer and
      comparison, sorting and reindexing.
    - Symtable, SymtableSpec: ZEND_HANDLE_NUMERIC_EX and the symbol-table
      functions (string keys that spell integers).
    - HashProps, HashExamples: the theorems about hash tables and the concrete
      tables of their witnesses, with the runs that leave the dictionary.
    - ZendInterned, ZendInternedSpec, InternedProps: interned strings,
      Zend/zend_string.c: an arena of buckets and a hash table over it, with
      snapshot and restore.
    - ZendQsort: Zend/zend_qsort.c, the iterative quicksort with its explicit
      stack of 64 segments, the bytewise swap, and their correctness.
    - ZendLlist, ZendLlistSpec: Zend/zend_llist.c.
    - ZendStack, ZendStackSpec: Zend/zend_stack.c, zend_ptr_stack.c and .h.
    - ContainerProps: the theorems about sort, lists and stacks.
    - Base64: ext/standard/base64.c.
    - SplHeap, SplHeapSpec, SplHeapProps: ext/spl/spl_heap.c, the heaps and
      the priority queue with the reference counts of their elements.
    - SplIterators: the interface zend_object_iterator_funcs as a class, what an
      iterator promises as a class of laws, and the traversals of
      ext/spl/spl_iterators.c proved against it.
    - SplDllist, SplDllistSpec, SplDllistProps: ext/spl/spl_dllist.c, the doubly
      linked list with counted elements, its methods and iterators; the
      sequence with cursors it implements; the theorems.
    - TrialDeletion, TrialScan, TrialCollect, TrialGarbage: trial deletion, the
      algorithm of the cycle collector, as relations on an arbitrary graph with
      reference counts, and what a whole run of it finds.
    - ZendGcHeap: the store the collector and the object store work on: zvals
      with their collector word, tables, object buckets, the root buffer and
      the collector's globals; zend_std_get_gc.
    - ZendGc, ZendGcRoots, ZendGcCycles: the functions of Zend/zend_gc.c and
      the macros of zend_gc.h: the traversals; the root buffer and the three
      passes over it; gc_collect_cycles and the entering of possible roots.
    - ZendObjectsStore, ZendObjectsStoreSpec: Zend/zend_objects_API.c, and the
      map from handles to objects it implements.
    - ZendGcSim, ZendGcMark, ZendGcCollect: the traversals are the
      relations of TrialDeletion, on the graph of zvals and objects, and end.
    - ZendGcBuffer, ZendGcRun, ZendGcSpec: the root buffer's invariant, the
      passes, and what a collection finds.
    - ZendGcPossible: entering possible roots and freeing zvals; the
      destruction of the garbage.
    - GcExamples, GcProps: the theorems about collector and object store and
      the worlds of their witnesses.
    - Cyc: the permutations by which circular lists are followed.
    - ZendMmTypes, ZendMmFree, ZendAlloc: the memory manager, Zend/zend_alloc.c:
      block headers, tags and segments, with the class [MMStorage] of the
      storage handlers; the free lists; the heap and its functions.
    - MmBits, MmTrie, MmTrieDel, MmLists, MmSearch: sizes and
      bit searches; the bitwise tries of large blocks as trees; the free lists
      as a map from blocks to sizes, and what the searches find in them.
    - MmGeo, MmWf, MmSegs, MmInv: blocks that tile the segments, tags
      at both ends, the list of segments, the invariant of the heap and the
      small steps that keep it.
    - MmRelease, MmFree, MmAlloc, MmRealloc, MmLife: one file per group of
      functions.
    - MmSpec, MmProps: the specification as disjoint arrays and
      its refinement; concrete storage layers and heaps; the theorems.
    - ZendArith, ArithProps: integer arithmetic of Zend/zend_operators.c, .h
      and zend_multiply.h, on a store of zvals in which result and operands
      may be the same.
    - ZendStrings, StringProps: byte-string comparison, search, lower case
      and the string increment of Zend/zend_operators.c and .h.
    - ZendNumeric, ZendNumericSpec: is_numeric_string_ex of
      Zend/zend_operators.h with the scans of Zend/zend_strtod.c as a machine
      of labels, and the grammar of numbers it accepts.
    - ZendCompare, CompareProps: comparison and identity of values and the
      conversions they need, from Zend/zend_operators.c and .h; the theorems.

    * What the theorems show

    Hash tables (C1-C10).  A table in memory represents a dictionary; every
    operation terminates without undefined behaviour and takes a
    representation of [d] to a representation of the abstract operation on
    [d], with every branch: insertion and update (also with HASH_ADD), look-up,
    deletion by key, by index and while traversing, the next free index and
    its overflow, growth and rehash, construction, destruction (each element
    destroyed exactly once), copy and merge, symbol-table keys.  (Traversal by
    callbacks in both directions, positions, sort and reindexing are theorems
    of HashProps without a number.)  The hash function computed eight bytes at a
    time is the plain fold (C10).  [stale_keys] in HashExamples shows three
    ways in which a table stops representing a dictionary: keys that are still
    matched by their address after the bucket has become an integer key, and
    zend_hash_merge_ex on integer keys.

    Memory manager (C11-C18).  For any storage layer, whatever a client does
    with its blocks is a step of a specification of disjoint arrays of bytes
    (C11); the invariant holds from start-up on and a full shutdown gives back
    all memory (C12); allocation, resizing and freeing, with the memory limit,
    the two errors and the reserve, on every branch but one of the resizing
    (C13-C15); the free lists
    are a map (C16), in which the search finds a block if there is one (C17);
    no size wraps around unnoticed (C18).  C11, C12 and C14 have one condition
    on the storage layer ([can_grow]): when a block that begins a segment is
    resized, the layer can enlarge that segment.  The branch of
    _zend_mm_realloc_int where ZEND_MM_STORAGE_REALLOC fails corrupts the heap;
    [allocator_defects] in MmProps runs it, and four further defects: a free
    block that is no longer found, a search that does not return the smallest
    block, usage figures that grow when the cache is emptied, and a memory
    limit that wraps.

    Cycle collector and object store (C19-C23).  The three passes of
    gc_collect_cycles, on any graph, end and put exactly the garbage that hangs
    on a purple root on the list to free, and restore everything else (C19);
    the whole of gc_collect_cycles frees all of it, given destructors that
    leave the list alone (C20); nothing reachable is touched and the entering
    of possible roots and the freeing of zvals keep the invariants (theorems
    of GcProps without a number).  The invariant of the root buffer under any
    sequence of operations (C21).  The object store is a finite map with fresh
    handles (C22); what giving up the last reference does: when the destructor
    is called and with what, destructors that store new references, the root
    buffer, bail-outs, and a storage function that makes the store grow, after
    which the function writes through a stale pointer (C23, outside a
    collection and for callbacks that leave the store in order).

    The graph's hypotheses ([gc_ready]) are what the engine maintains between
    collections: nothing dangles, every reference from a zval or object is
    counted, no colour is left over, the root buffer is consistent.  The
    collection theorem re-establishes them except for what the destructors do.

    Interned strings (C24, C25).  Equal strings get one address, on every
    branch; restoring undoes whatever has been interned since the snapshot.
    This needs that each chain has its newest bucket first, also after the
    table has grown.

    Containers (C26, C27).  The quicksort sorts for every total preorder, and
    for any comparison at all it terminates, stays in the array and within
    its 64 stack entries, and permutes.  Linked lists and the two stacks
    refine lists (without a number).

    Base64 (C28).  Round trip for every string whose encoded length is an
    [int]; beyond, the length reported is negative.  Memory safety of the
    decoder on every input is a theorem without a number.

    SPL heaps (C29, C30).  Refinement to a bag with a greatest element;
    behaviour under arbitrary and throwing comparisons.

    SPL lists (C31-C33).  Every method of SplDoublyLinkedList, SplQueue and
    SplStack is an operation on a sequence of values with a cursor, and the
    counts of elements and values stay exact, so that elements live as long as
    a cursor stands on them (C31).  Excepted are next and prev on a cursor
    whose element has been removed; and the specification of add is the code's
    in LIFO mode, not its comment's.  iterator_to_array and iterator_count are
    proved against the laws of an iterator, which the list's iterator obeys in
    its four modes (C32).  Cloning and destruction (C33).  [dllist_defects] in
    SplDllistProps shows a cursor that follows a dangling pointer, a mode that
    forgets that it is fixed, and an insertion on a stack that goes to the
    wrong side.

    Operators (C34-C36).  Exact integer arithmetic under aliasing (C34) and the
    failure of fast_sub_function under aliasing (C35); the string increment as a
    successor function (C36).  Lexicographic comparison and substring search
    are theorems of StringProps without a number.

    Numeric strings and comparison (C37-C40).  is_numeric_string_ex accepts
    exactly the numbers of a grammar ([classify]), without and with [dval].
    When errors are allowed it reads, with [dval], the longest numeric prefix,
    but for two kinds of strings with 19 digits (C37): an e with a sign but no
    digits behind the digits, and 9223372036854775808 with text behind it.
    compare_function succeeds on any two values, is antisymmetric where no NaN
    is involved, not both are arrays and strings are shorter than 2^31 bytes,
    exact on integers in strings when one of them fits a long, and the inline
    comparisons agree with it where no NaN is involved (C38).  On arrays it is
    zend_hash_compare on the tables the arrays stand for (C39);
    is_identical_function decides an inductive identity (C40).
    [numeric_defects] in CompareProps shows comparisons of integers beyond the
    range of a long that come out wrong and a check that looks one character
    too far.

    * Fuel of the memory manager

    A path of a trie is no longer than the 64 bits of a size.  The walk along
    the segments has as fuel the number of regions, the walks along the rest
    list the number of link fields, the emptying of a cache bucket the number
    of block headers, strlen the number of bytes stored.

    * Fuel of the collector

    The recursion of the traversals has as fuel one more than the number of
    zvals: every level colours a zval that was not of that colour before.  The
    loops over the roots have the size of the buffer, the walks along the list
    to free the number of zvals.  The theorems show that this is enough.

    * Fuel of the lists and of the numeric strings

    The loops of spl_dllist.c have one more than the number of live elements.
    The scans of a string have one more than its bytes with the NUL; the
    machine of is_numeric_string_ex has 2 * length + 16, two steps for every
    character and a constant for its jumps.  The theorems show that this is
    enough.

    * What is not modelled

    Outside the memory manager, the contents of memory blocks beyond the
    fields used; allocation failure inside perealloc; signals (HANDLE_BLOCK_INTERRUPTIONS).  In the hash table
    callbacks do not re-enter the table they are called from; in the object
    store they may do anything to the world.  The collector sees a hash table
    as the list of its zvals; what get_gc handlers and destructors do is a
    parameter.  An erealloc of the object buckets is taken to move the block.
    Of the memory manager: the heap with use_zend_alloc = 0, the reading of
    environment variables, heaps that live in themselves (internal = 1), the
    storage handlers, the checks of debug builds, the log files.
    Of SplDoublyLinkedList: serialize and unserialize, methods overridden in
    PHP, the reference count of the object itself, the overflow of a cursor's
    position.  Of zend_operators the conversions in place and of objects,
    concatenation, the case that [result] is an operand of a comparison and
    the increment of a string of INT_MAX characters are absent; double
    arithmetic and the value zend_strtod computes are parameters ([Double],
    [DoubleCmp], with the laws [DoubleOrder]), and so is what the arithmetic
    operators do with operands that are no numbers.  The buffers of base64.c
    are taken to be had from safe_emalloc.  The fatal error on the comparison
    of arrays that contain themselves cannot occur, as the values are trees.
    The proxy objects of zend_objects_API.c, the lexer, parser, compiler,
    virtual machine, streams, server interfaces and the other extensions are
    not modelled.

    * Further work

    The remaining codecs of ext/standard; SplFixedArray and SplObjectStorage;
    objects in comparisons, through their handlers as a class of operations. *)

From Stdlib Require Export ZArith Lia.
From stdpp Require Export base numbers option fin_maps gmap list.

#[export] Set Default Goal Selector "!".
Open Scope Z_scope.
Declare Scope php_scope.
Delimit Scope php_scope with php.

(** * Machine integers (LP64: [int]/[uint] 32 bits, [long]/[ulong] 64 bits) *)

Definition uint_wrap (z : Z) : Z := z mod 2 ^ 32.
Definition ulong_wrap (z : Z) : Z := z mod 2 ^ 64.
Definition ULONG_MAX : Z := 2 ^ 64 - 1.
Definition LONG_MAX : Z := 2 ^ 63 - 1.
Definition LONG_MIN : Z := - 2 ^ 63.
(** The cast [(long) x] of a 64-bit unsigned value. *)
Definition to_long (z : Z) : Z := if z <? 2 ^ 63 then z else z - 2 ^ 64.
(** The cast [(ulong) x] of a 64-bit signed value. *)
Definition to_ulong (z : Z) : Z := ulong_wrap z.
Definition INT_MAX : Z := 2 ^ 31 - 1.
(** The conversion of an integer to a 32-bit [int]. *)
Definition to_int (z : Z) : Z := let z := uint_wrap z in if z <? 2 ^ 31 then z else z - 2 ^ 32.
(** The promotion of a [char] (signed on the modelled platforms) held in a
    byte 0..255. *)
Definition schar (b : Z) : Z := if b <? 128 then b else b - 256.

Abbreviation is_byte b := (0 <= b < 256).
Abbreviation is_uint z := (0 <= z < 2 ^ 32).
Abbreviation is_ulong z := (0 <= z < 2 ^ 64).

Lemma uint_wrap_range z : is_uint (uint_wrap z).
Proof. apply Z.mod_pos_bound. lia. Qed.

Lemma ulong_wrap_range z : is_ulong (ulong_wrap z).
Proof. apply Z.mod_pos_bound. lia. Qed.

Lemma uint_wrap_id z : is_uint z → uint_wrap z = z.
Proof. apply Z.mod_small. Qed.

Lemma ulong_wrap_id z : is_ulong z → ulong_wrap z = z.
Proof. apply Z.mod_small. Qed.

(** An [int] keeps the values it has; the upper half of the [uint] range
    becomes negative. *)
Lemma to_int_id z : - 2 ^ 31 <= z < 2 ^ 31 → to_int z = z.
Proof.
  intros Hz. unfold to_int, uint_wrap. destruct (Z.lt_ge_cases z 0) as [Hn|Hn].
  - rewrite <- (Z.mod_add z 1), Z.mod_small by lia. rewrite (proj2 (Z.ltb_ge _ _)); lia.
  - rewrite Z.mod_small by lia. rewrite (proj2 (Z.ltb_lt _ _)); lia.
Qed.
Lemma to_int_upper z : 2 ^ 31 <= z < 2 ^ 32 → to_int z = z - 2 ^ 32.
Proof. intros Hz. unfold to_int. rewrite uint_wrap_id, (proj2 (Z.ltb_ge _ _)) by lia. done. Qed.

(** Masking with [2^k - 1], the way every table index is computed. *)
Lemma land_mask h k : 0 <= k → Z.land h (2 ^ k - 1) = h mod 2 ^ k.
Proof.
  intros Hk. rewrite <- Z.land_ones by done. f_equal. rewrite Z.ones_equiv. lia.
Qed.

Lemma land_mask_range h k : 0 <= k → 0 <= Z.land h (2 ^ k - 1) < 2 ^ k.
Proof.
  intros Hk. rewrite land_mask by done. apply Z.mod_pos_bound.
  apply Z.pow_pos_nonneg; lia.
Qed.

Definition is_pow2 (z : Z) : Prop := ∃ k, 0 <= k ∧ z = 2 ^ k.

(** * Outcomes

    Code that can go wrong returns an [outcome]: [OK] with its results,
    [Bailout] for [zend_error(E_ERROR, ...)] (which unwinds the request and
    does not return), [UB] for a step C leaves undefined: a dereference of
    [NULL] or of freed memory, an access outside an array, a loop that runs
    past the fuel its list can need. *)

Inductive outcome (A : Type) : Type :=
  | OK (a : A)
  | Bailout
  | UB.
Arguments OK {_} _.
Arguments Bailout {_}.
Arguments UB {_}.

Definition obind {A B} (o : outcome A) (f : A → outcome B) : outcome B :=
  match o with OK a => f a | Bailout => Bailout | UB => UB end.
Arguments obind {_ _} !_ _ /.

(** A memory read: [None] is an address that is not live. *)
Definition rd {A} (o : option A) : outcome A :=
  match o with Some a => OK a | None => UB end.

Notation "'let*' x := e 'in' k" := (obind e (λ x, k))
  (at level 10, x pattern, e at level 200, k at level 200,
   format "'let*'  x  :=  e  'in' '//' k") : php_scope.
Open Scope php_scope.

Lemma obind_OK {A B} (o : outcome A) (f : A → outcome B) b :
  obind o f = OK b ↔ ∃ a, o = OK a ∧ f a = OK b.
Proof.
  destruct o; simpl; split; [intros ?; eauto|intros (? & [= ->] & ?); done| | | |]; naive_solver.
Qed.

#[export] Instance OK_inj A : Inj (=) (=) (@OK A).
Proof. by intros ?? [= ->]. Qed.

Lemma rd_OK {A} (o : option A) a : rd o = OK a ↔ o = Some a.
Proof. destruct o; simpl; naive_solver. Qed.

(** Runs the binds whose first computation is known. *)
Ltac ob := cbn [obind rd].

(** [SUCCESS] and [FAILURE], the return codes of the engine's API. *)
Inductive zresult := SUCCESS | FAILURE.
#[export] Instance zresult_eq_dec : EqDecision zresult.
Proof. solve_decision. Defined.

(** * Heaps of records *)

Section heap.
Context {B : Type}.
Implicit Types (m : gmap positive B) (p : positive) (f : B → B).

(** [p->field = ...]: undefined when [p] is not live. *)
Definition store m p f : outcome (gmap positive B) :=
  match m !! p with Some b => OK (<[p := f b]> m) | None => UB end.

Lemma store_alter m p f : is_Some (m !! p) → store m p f = OK (alter f p m).
Proof.
  intros [b Hb]. unfold store. rewrite Hb. f_equal.
  apply map_eq. intros i. rewrite lookup_alter.
  destruct (decide (p = i)) as [->|]; simplify_map_eq; by rewrite ?Hb.
Qed.

Lemma is_Some_alter m p f q : is_Some (alter f p m !! q) ↔ is_Some (m !! q).
Proof. rewrite lookup_alter. case_decide; subst; by rewrite ?fmap_is_Some. Qed.

(** Every NoDup list of live nodes is no longer than the heap. *)
Lemma live_length m (l : list positive) :
  NoDup l → (∀ x, x ∈ l → is_Some (m !! x)) → (length l ≤ size m)%nat.
Proof.
  intros Hnd Hl. rewrite <- (size_list_to_set (C:=gset positive) l Hnd), <- size_dom.
  apply subseteq_size. intros x Hx%elem_of_list_to_set. apply elem_of_dom. auto.
Qed.
End heap.

(** * Lists *)

Lemma zip_split {A B} (l : list A) (k : list B) x y : (x, y) ∈ zip l k →
  ∃ l1 l2 k1 k2, l = l1 ++ x :: l2 ∧ k = k1 ++ y :: k2 ∧ length l1 = length k1.
Proof.
  revert k. induction l as [|a l IH]; intros [|b k] Hin; simpl in Hin; try (by apply elem_of_nil in Hin).
  apply elem_of_cons in Hin as [[= -> ->]|Hin]; [by exists [], l, [], k|].
  destruct (IH k Hin) as (l1 & l2 & k1 & k2 & -> & -> & Hlen). exists (a :: l1), l2, (b :: k1), k2. simpl. by rewrite Hlen.
Qed.

(** * Memory allocation

    What the clients of [pemalloc] rely on (Zend/zend_alloc.c): the block is
    not one that is already live; its contents are not specified.  An
    exhausted heap ends the request inside the allocator. *)
Class PEMalloc := {
  pemalloc : gset positive → positive;
  pemalloc_fresh : ∀ X, pemalloc X ∉ X;
  (** what an uninitialised pointer field of a new block happens to hold *)
  garbage : option positive;
}.

(** The allocator the examples run with: the address above every live one. *)
Definition bump_alloc (X : gset positive) : positive :=
  Pos.succ (set_fold Pos.max 1%positive X).

Lemma bump_alloc_fresh X : bump_alloc X ∉ X.
Proof.
  intros Hin. unfold bump_alloc in Hin.
  assert (∀ x, x ∈ X → (x ≤ set_fold Pos.max 1%positive X)%positive) as Hmax.
  { apply (set_fold_ind_L (λ r Y, ∀ x, x ∈ Y → (x ≤ r)%positive)); [set_solver|].
    intros x Y r _ IH y [->%elem_of_singleton|Hy]%elem_of_union; [lia|].
    specialize (IH y Hy). lia. }
  apply Hmax in Hin. lia.
Qed.

Definition bump_malloc : PEMalloc :=
  {| pemalloc := bump_alloc; pemalloc_fresh := bump_alloc_fresh; garbage := None |}.

(** * Sort functions *)

(** A [sort_func_t]: it permutes an array with the help of a comparison. *)
Class SortFunc := {
  sort_func : ∀ {A : Type}, (A → A → Z) → list A → list A;
  sort_func_perm : ∀ {A : Type} (cmp : A → A → Z) l, sort_func cmp l ≡ₚ l;
}.
