(* ===== verification/Dll.v ===== *)
(** Doubly linked lists threaded through a heap, with generic link fields; circular
    lists with a sentinel on top of them.  The engine threads its buckets on several
    intrusive lists (the global order and the collision chain of a HashTable, the
    elements of a [zend_llist], the roots of the collector).  A list is described
    through a _view_, the function that reads the (prev, next) pair of a node out
    of a heap, so one theory covers every pair of link fields. *)

From S2P Require Import Prelude.

(** * Doubly linked lists over a shared heap *)

Abbreviation ptr := positive.
(** A C pointer that may be [NULL]. *)
Abbreviation nptr := (option positive).
Abbreviation view := (ptr → option (nptr * nptr)).

(** [hd_or l n]: the node a segment [l] starts with, [n] when it is empty. *)
Definition hd_or (l : list ptr) (n : nptr) : nptr :=
  match l with [] => n | x :: _ => Some x end.
(** [last_or p l]: the node a segment ends with, [p] when it is empty. *)
Definition last_or (p : nptr) (l : list ptr) : nptr :=
  match last l with Some x => Some x | None => p end.

(** [dseg lk p l n]: the nodes [l] are linked in order, between [p] and [n]. *)
Fixpoint dseg (lk : view) (p : nptr) (l : list ptr) (n : nptr) : Prop :=
  match l with
  | [] => True
  | x :: l' => lk x = Some (p, hd_or l' n) ∧ dseg lk (Some x) l' n
  end.

Definition dll (lk : view) (l : list ptr) : Prop := dseg lk None l None.

Section dseg.
Implicit Types (lk : view) (l : list ptr) (p n : nptr).

Lemma hd_or_app l1 l2 n : hd_or (l1 ++ l2) n = hd_or l1 (hd_or l2 n).
Proof. by destruct l1. Qed.

Lemma last_or_snoc p l x : last_or p (l ++ [x]) = Some x.
Proof. unfold last_or. by rewrite last_snoc. Qed.

Lemma last_or_cons p x l : last_or p (x :: l) = last_or (Some x) l.
Proof. unfold last_or. rewrite last_cons. by destruct (last l). Qed.

Lemma dseg_app lk p l1 l2 n :
  dseg lk p (l1 ++ l2) n ↔
  dseg lk p l1 (hd_or l2 n) ∧ dseg lk (last_or p l1) l2 n.
Proof.
  revert p. induction l1 as [|x l1 IH]; intros p; simpl; [tauto|].
  rewrite IH, hd_or_app, last_or_cons. tauto.
Qed.

Lemma dseg_ext lk lk' p l n :
  (∀ x, x ∈ l → lk' x = lk x) → dseg lk p l n → dseg lk' p l n.
Proof.
  revert p. induction l as [|x l IH]; intros p Hext; simpl; [done|].
  intros [Hx Hl]. split.
  - rewrite Hext by set_solver. done.
  - apply IH; [|done]. intros y Hy. apply Hext. set_solver.
Qed.

Lemma dseg_lookup lk p l1 x l2 n :
  dseg lk p (l1 ++ x :: l2) n → lk x = Some (last_or p l1, hd_or l2 n).
Proof. rewrite dseg_app. simpl. tauto. Qed.

Lemma dseg_live lk p l n x : dseg lk p l n → x ∈ l → is_Some (lk x).
Proof.
  intros Hd (l1 & l2 & ->)%list_elem_of_split.
  rewrite (dseg_lookup _ _ _ _ _ _ Hd). eauto.
Qed.

(** Re-targeting the two ends of a segment. *)
Definition set_next (o : nptr) (n : nptr) lk : view := λ q,
  if decide (o = Some q) then (λ pn, (pn.1, n)) <$> lk q else lk q.
Definition set_prev (o : nptr) (p : nptr) lk : view := λ q,
  if decide (o = Some q) then (λ pn, (p, pn.2)) <$> lk q else lk q.

Lemma set_next_None n lk q : set_next None n lk q = lk q.
Proof. unfold set_next. by case_decide. Qed.
Lemma set_prev_None p lk q : set_prev None p lk q = lk q.
Proof. unfold set_prev. by case_decide. Qed.

Lemma set_next_ne o n lk q : o ≠ Some q → set_next o n lk q = lk q.
Proof. unfold set_next. by case_decide. Qed.
Lemma set_prev_ne o p lk q : o ≠ Some q → set_prev o p lk q = lk q.
Proof. unfold set_prev. by case_decide. Qed.

Lemma hd_or_elem l x : hd_or l None = Some x → x ∈ l.
Proof. destruct l; [done|]. intros [= ->]. set_solver. Qed.
Lemma last_or_elem l x : last_or None l = Some x → x ∈ l.
Proof.
  unfold last_or. destruct (last l) eqn:E; [|done].
  intros [= ->]. apply last_Some in E as [l' ->]. set_solver.
Qed.

(** Changing the [next] field of the last node of a segment. *)
Lemma dseg_set_next lk l n n' :
  NoDup l → dseg lk None l n → dseg (set_next (last_or None l) n' lk) None l n'.
Proof.
  intros Hnd Hd. destruct l as [|y l _] using rev_ind; [done|].
  rewrite last_or_snoc. apply dseg_app in Hd as [Hl Hy]. apply dseg_app. split.
  - eapply dseg_ext; [|exact Hl]. intros x Hx. apply set_next_ne.
    intros [= ->]. apply NoDup_app in Hnd as (_ & Hdis & _). set_solver.
  - simpl in *. destruct Hy as [Hy _]. split; [|done].
    unfold set_next. rewrite decide_True, Hy by done. done.
Qed.

(** Changing the [prev] field of the first node of a segment. *)
Lemma dseg_set_prev lk p p' l :
  NoDup l → dseg lk p l None → dseg (set_prev (hd_or l None) p' lk) p' l None.
Proof.
  intros Hnd Hd. destruct l as [|y l]; [done|]. simpl in *.
  destruct Hd as [Hy Hl]. split.
  - unfold set_prev. rewrite decide_True, Hy by done. done.
  - eapply dseg_ext; [|exact Hl]. intros x Hx. apply set_prev_ne.
    intros [= ->]. apply NoDup_cons in Hnd as [? _]. set_solver.
Qed.

(** Unlinking a node. *)
Lemma dll_unlink lk lk' l1 x l2 :
  NoDup (l1 ++ x :: l2) → dll lk (l1 ++ x :: l2) →
  (∀ q, q ≠ x →
    lk' q = set_prev (hd_or l2 None) (last_or None l1)
              (set_next (last_or None l1) (hd_or l2 None) lk) q) →
  dll lk' (l1 ++ l2).
Proof.
  intros Hnd Hd Hext. unfold dll in *.
  apply NoDup_app in Hnd as (Hnd1 & Hdis & [Hx Hnd2]%NoDup_cons).
  apply dseg_app in Hd as [Hd1 [_ Hd2]]. apply dseg_app. split.
  - eapply dseg_ext; [|eapply dseg_set_next; [done|exact Hd1]].
    intros q Hq. rewrite Hext by set_solver. apply set_prev_ne.
    intros ?%hd_or_elem. set_solver.
  - eapply dseg_ext; [|eapply dseg_set_prev; [done|exact Hd2]].
    intros q Hq. rewrite Hext by set_solver.
    unfold set_prev. case_decide.
    + rewrite set_next_ne; [done|]. intros ?%last_or_elem. set_solver.
    + apply set_next_ne. intros ?%last_or_elem. set_solver.
Qed.

(** Linking a node between [l1] and [l2]. *)
Lemma dll_link lk lk' l1 x l2 :
  NoDup (l1 ++ l2) → x ∉ l1 ++ l2 → dll lk (l1 ++ l2) →
  lk' x = Some (last_or None l1, hd_or l2 None) →
  (∀ q, q ≠ x →
    lk' q = set_prev (hd_or l2 None) (Some x) (set_next (last_or None l1) (Some x) lk) q) →
  dll lk' (l1 ++ x :: l2).
Proof.
  intros Hnd Hx Hd Hlkx Hext. unfold dll in *.
  apply NoDup_app in Hnd as (Hnd1 & Hdis & Hnd2).
  apply dseg_app in Hd as [Hd1 Hd2]. apply dseg_app. split; [|split; [done|]].
  - eapply dseg_ext; [|eapply dseg_set_next; [done|exact Hd1]].
    intros q Hq. rewrite Hext by set_solver. apply set_prev_ne.
    intros ?%hd_or_elem. set_solver.
  - eapply dseg_ext; [|eapply dseg_set_prev; [done|exact Hd2]].
    intros q Hq. rewrite Hext by set_solver.
    unfold set_prev. case_decide.
    + rewrite set_next_ne; [done|]. intros ?%last_or_elem. set_solver.
    + apply set_next_ne. intros ?%last_or_elem. set_solver.
Qed.

(** A node of a list determines its position. *)
Lemma dll_NoDup_next lk l x : dll lk l → x ∈ l →
  ∃ l1 l2, l = l1 ++ x :: l2 ∧ lk x = Some (last_or None l1, hd_or l2 None).
Proof.
  intros Hd (l1 & l2 & ->)%list_elem_of_split. exists l1, l2. split; [done|].
  eapply dseg_lookup, Hd.
Qed.
Lemma last_or_None_nil (l : list ptr) : last_or None l = None ↔ l = [].
Proof. unfold last_or. destruct (last l) eqn:E; [|by apply last_None in E]. split; [done|]. by intros ->. Qed.

Lemma last_or_is_nil {A} (l : list ptr) (x y : A) :
  (if last_or None l is Some _ then x else y) = (if l is [] then y else x).
Proof.
  destruct l as [|z l]; [done|]. destruct (last_or None (z :: l)) eqn:E; [done|].
  by apply last_or_None_nil in E.
Qed.

Lemma last_or_app p l1 l2 : last_or p (l1 ++ l2) = last_or (last_or p l1) l2.
Proof. unfold last_or. rewrite last_app. by destruct (last l2), (last l1). Qed.
End dseg.

(** * Circular doubly linked lists through a sentinel, such as the root buffer of the cycle collector *)

Section ring.
Context (s : ptr).
Implicit Types (lk : view) (l : list ptr) (x q : ptr) (o : nptr).

(** A pointer to the sentinel is the end of the list. *)
Definition cut_ptr o : nptr := if decide (o = Some s) then None else o.
Definition cut lk : view := λ q,
  if decide (q = s) then None else (λ pn, (cut_ptr pn.1, cut_ptr pn.2)) <$> lk q.

(** [l] are the nodes of the ring, in order, without the sentinel. *)
Record ring lk l : Prop := {
  rg_nodup : NoDup (s :: l);
  rg_dll : dll (cut lk) l;
  rg_sentinel : lk s = Some (last_or (Some s) l, hd_or l (Some s));
  rg_some : ∀ x, x ∈ l → ∃ p n, lk x = Some (Some p, Some n);
}.

Lemma cut_last l1 : s ∉ l1 → cut_ptr (last_or (Some s) l1) = last_or None l1.
Proof.
  intros Hs. destruct l1 as [|y l _] using rev_ind; [unfold last_or, cut_ptr; simpl; by rewrite decide_True|].
  rewrite !last_or_snoc. unfold cut_ptr. rewrite decide_False; [done|]. intros [= ->]. set_solver.
Qed.
Lemma cut_hd l2 : s ∉ l2 → cut_ptr (hd_or l2 (Some s)) = hd_or l2 None.
Proof.
  intros Hs. destruct l2 as [|y l2]; unfold cut_ptr; simpl; [by rewrite decide_True|].
  rewrite decide_False; [done|]. intros [= ->]. set_solver.
Qed.
Lemma uncut_last p l1 : cut_ptr (Some p) = last_or None l1 → Some p = last_or (Some s) l1.
Proof.
  destruct l1 as [|y l _] using rev_ind; unfold cut_ptr; case_decide; rewrite ?last_or_snoc; intros Hc; by simplify_eq/=.
Qed.
Lemma uncut_hd n l2 : cut_ptr (Some n) = hd_or l2 None → Some n = hd_or l2 (Some s).
Proof. unfold cut_ptr. destruct l2; simpl; case_decide; intros Hc; by simplify_eq/=. Qed.

Lemma ring_lookup lk l1 x l2 : ring lk (l1 ++ x :: l2) → lk x = Some (last_or (Some s) l1, hd_or l2 (Some s)).
Proof.
  intros [H1 H2 _ H4]. destruct (H4 x) as (p & n & Hx); [set_solver|].
  apply dseg_lookup in H2. unfold cut in H2. rewrite Hx in H2.
  rewrite decide_False in H2 by (apply NoDup_cons in H1 as [? _]; set_solver). simpl in H2. injection H2 as Hp Hn.
  rewrite Hx. by rewrite (uncut_last _ _ Hp), (uncut_hd _ _ Hn).
Qed.

Lemma last_or_Some l : ∃ y, last_or (Some s) l = Some y.
Proof. destruct l as [|y l _] using rev_ind; [by exists s|]. exists y. apply last_or_snoc. Qed.
Lemma hd_or_Some l : ∃ y, hd_or l (Some s) = Some y.
Proof. destruct l; simpl; eauto. Qed.

(** Setting fields commutes with cutting. *)
Lemma cut_links o p o' n lk q :
  cut (set_prev o p (set_next o' n lk)) q = set_prev (cut_ptr o) (cut_ptr p) (set_next (cut_ptr o') (cut_ptr n) (cut lk)) q.
Proof.
  unfold cut, set_prev, set_next. destruct (decide (q = s)) as [->|Hq]; [by repeat case_decide|].
  assert (∀ o, cut_ptr o = Some q ↔ o = Some q) as Hcut.
  { intros o1. unfold cut_ptr. case_decide; [subst|done]. split; [done|]. by intros [= ->]. }
  rewrite (decide_ext _ _ _ _ (Hcut o)), (decide_ext _ _ _ _ (Hcut o')).
  repeat case_decide; by destruct (lk q).
Qed.

Lemma links_some o p o' n lk x : (∃ a b, lk x = Some (Some a, Some b)) →
  ∃ a b, set_prev o (Some p) (set_next o' (Some n) lk) x = Some (Some a, Some b).
Proof. intros (a & b & Hx). unfold set_prev, set_next. rewrite Hx. repeat case_decide; simpl; eauto. Qed.

Lemma ring_unlink lk lk' l1 x l2 :
  ring lk (l1 ++ x :: l2) →
  (∀ q, q ≠ x →
    lk' q = set_prev (hd_or l2 (Some s)) (last_or (Some s) l1)
              (set_next (last_or (Some s) l1) (hd_or l2 (Some s)) lk) q) →
  ring lk' (l1 ++ l2).
Proof.
  intros [H1 H2 H3 H4] Hlk. apply NoDup_cons in H1 as [Hs Hnd].
  assert (NoDup (s :: l1 ++ l2)) as Hnd'.
  { apply NoDup_cons. split; [set_solver|]. apply NoDup_app in Hnd as (? & ? & [? ?]%NoDup_cons). apply NoDup_app. set_solver. }
  assert (∀ q, q ≠ x → cut lk' q = cut (set_prev (hd_or l2 (Some s)) (last_or (Some s) l1)
    (set_next (last_or (Some s) l1) (hd_or l2 (Some s)) lk)) q) as Hcut. { intros q Hq. unfold cut. by rewrite Hlk. }
  split; [done|..].
  - eapply dll_unlink; [exact Hnd|exact H2|]. intros q Hq. rewrite Hcut, cut_links by done.
    by rewrite cut_last, cut_hd by set_solver.
  - rewrite Hlk by set_solver. unfold set_prev, set_next. rewrite H3, !last_or_app, !hd_or_app, last_or_cons.
    assert (∀ y, y ∈ l1 ++ l2 → Some y ≠ Some s) as Hne. { intros y Hy [= ->]. set_solver. }
    destruct l1 as [|y l1 _] using rev_ind; rewrite ?last_or_snoc.
    + rewrite (decide_True (P := last_or (Some s) [] = Some s)) by done. simpl.
      destruct l2 as [|z l2]; simpl; [by rewrite decide_True|].
      rewrite decide_False by (apply Hne; set_solver). by rewrite !last_or_cons.
    + rewrite (decide_False (P := Some y = Some s)) by (apply Hne; set_solver).
      destruct l2 as [|z l2]; simpl.
      * rewrite decide_True by done. simpl. by destruct l1.
      * rewrite decide_False by (apply Hne; set_solver). rewrite !last_or_cons. by destruct l1.
  - intros q Hq. apply NoDup_app in Hnd as (_ & Hd & [Hx _]%NoDup_cons). rewrite Hlk by set_solver.
    destruct (last_or_Some l1) as [p Hp], (hd_or_Some l2) as [n Hn]. rewrite Hp, Hn. apply links_some, H4. set_solver.
Qed.

(** A new node right behind the sentinel. *)
Lemma ring_push lk lk' x l :
  ring lk l → x ∉ s :: l → lk' x = Some (Some s, hd_or l (Some s)) →
  (∀ q, q ≠ x → lk' q = set_prev (hd_or l (Some s)) (Some x) (set_next (Some s) (Some x) lk) q) →
  ring lk' (x :: l).
Proof.
  intros [H1 H2 H3 H4] Hx Hlkx Hlk. pose proof H1 as [Hs Hnd]%NoDup_cons.
  assert (∀ q, q ≠ x → cut lk' q = cut (set_prev (hd_or l (Some s)) (Some x) (set_next (Some s) (Some x) lk)) q) as Hcut.
  { intros q Hq. unfold cut. by rewrite Hlk. }
  split.
  - constructor; [set_solver|]. constructor; [set_solver|done].
  - apply (dll_link (cut lk) _ [] x l); [done|set_solver|done| |].
    + unfold cut. rewrite decide_False, Hlkx by set_solver. simpl. rewrite cut_hd by done. unfold cut_ptr. by rewrite decide_True.
    + intros q Hq. rewrite Hcut, cut_links by done. rewrite cut_hd by done. unfold cut_ptr.
      rewrite (decide_True (P := Some s = Some s)), (decide_False (P := Some x = Some s)) by set_solver. done.
  - rewrite Hlk by set_solver. unfold set_prev, set_next. rewrite H3, last_or_cons.
    rewrite (decide_True (P := Some s = Some s)) by done.
    destruct l as [|y l]; simpl; [by rewrite decide_True|].
    rewrite decide_False by (intros [= ->]; set_solver). simpl. by rewrite !last_or_cons.
  - intros q [->|Hq]%elem_of_cons; [destruct (hd_or_Some l) as [n ->] in Hlkx; eauto|].
    rewrite Hlk by set_solver. apply links_some. auto.
Qed.
End ring.
