(* ===== verification/OrderedDict.v ===== *)
(** What a PHP array is: a dictionary from integer and string keys to values
    that remembers the order of insertion.  This is the abstract
    specification the HashTable of the engine is proved to implement. *)

From S2P Require Import Prelude.

(** An integer key is kept as the [ulong] the engine stores; a string key is
    its bytes, the terminating NUL included (the engine counts it). *)
Inductive akey :=
  | KIdx (h : Z)
  | KStr (s : list Z).
#[export] Instance akey_eq_dec : EqDecision akey.
Proof. solve_decision. Defined.

Section dict.
Context {V : Type}.
Abbreviation dict := (list (akey * V)).
Implicit Types (d : dict) (k : akey) (v : V).

Fixpoint dlookup k d : option V :=
  match d with
  | [] => None
  | (k', v) :: d => if decide (k' = k) then Some v else dlookup k d
  end.

(** An existing key keeps its place, a new one goes to the end. *)
Fixpoint dupdate k v d : dict :=
  match d with
  | [] => [(k, v)]
  | (k', v') :: d => if decide (k' = k) then (k', v) :: d else (k', v') :: dupdate k v d
  end.

Fixpoint dremove k d : dict :=
  match d with
  | [] => []
  | (k', v') :: d => if decide (k' = k) then d else (k', v') :: dremove k d
  end.

Lemma dlookup_None k d : dlookup k d = None ↔ k ∉ d.*1.
Proof.
  induction d as [|[k' v'] d IH]; simpl; [set_solver|].
  case_decide; [|rewrite IH]; set_solver.
Qed.

Lemma dlookup_mid k v d1 d2 : k ∉ d1.*1 → dlookup k (d1 ++ (k, v) :: d2) = Some v.
Proof.
  induction d1 as [|[k' v'] d1 IH]; simpl; [by rewrite decide_True|].
  intros. rewrite decide_False; set_solver.
Qed.

Lemma dupdate_new k v d : k ∉ d.*1 → dupdate k v d = d ++ [(k, v)].
Proof.
  induction d as [|[k' v'] d IH]; simpl; [done|]. intros.
  rewrite decide_False by set_solver. rewrite IH; set_solver.
Qed.

Lemma dupdate_mid k v v' d1 d2 :
  k ∉ d1.*1 → dupdate k v (d1 ++ (k, v') :: d2) = d1 ++ (k, v) :: d2.
Proof.
  induction d1 as [|[k' w] d1 IH]; simpl; [by rewrite decide_True|].
  intros. rewrite decide_False by set_solver. rewrite IH; set_solver.
Qed.

Lemma dremove_mid k v d1 d2 : k ∉ d1.*1 → dremove k (d1 ++ (k, v) :: d2) = d1 ++ d2.
Proof.
  induction d1 as [|[k' w] d1 IH]; simpl; [by rewrite decide_True|].
  intros. rewrite decide_False by set_solver. rewrite IH; set_solver.
Qed.

Lemma dremove_absent k d : k ∉ d.*1 → dremove k d = d.
Proof.
  induction d as [|[k' w] d IH]; simpl; [done|]. intros.
  rewrite decide_False by set_solver. rewrite IH; set_solver.
Qed.

Lemma dupdate_keys k v d : k ∈ d.*1 → (dupdate k v d).*1 = d.*1.
Proof.
  induction d as [|[k' w] d IH]; simpl; [set_solver|]. intros.
  case_decide; csimpl; [done|]. f_equal. apply IH. set_solver.
Qed.

(** Look-up after an update, the algebra of a dictionary. *)
Lemma dlookup_update k k' v d :
  dlookup k (dupdate k' v d) = if decide (k' = k) then Some v else dlookup k d.
Proof.
  induction d as [|[k0 w] d IH]; simpl; [done|].
  destruct (decide (k0 = k')) as [->|]; simpl; repeat case_decide; simplify_eq; done.
Qed.

Lemma dlookup_remove k k' d :
  NoDup d.*1 → dlookup k (dremove k' d) = if decide (k' = k) then None else dlookup k d.
Proof.
  induction d as [|[k0 w] d IH]; simpl; [by case_decide|]. intros [Hk Hnd]%NoDup_cons.
  destruct (decide (k0 = k')) as [->|]; simpl; repeat case_decide; simplify_eq; auto.
  by apply dlookup_None.
Qed.

End dict.

(** ** Comparison of two dictionaries

    The order of two keys in an ordered comparison: two integers; else the
    shorter before the longer (an integer has no bytes), the difference taken
    in [int]; else bytewise. *)
Fixpoint bytes_cmp (a b : list Z) : Z :=
  match a, b with
  | x :: a, y :: b => if x <? y then -1 else if y <? x then 1 else bytes_cmp a b
  | _, _ => 0
  end.
Definition key_bytes (k : akey) : list Z := match k with KIdx _ => [] | KStr s => s end.
Definition key_order (k1 k2 : akey) : Z :=
  match k1, k2 with
  | KIdx h1, KIdx h2 => if h1 =? h2 then 0 else if h2 <? h1 then 1 else -1
  | _, _ =>
      let r := to_int (Z.of_nat (length (key_bytes k1)) - Z.of_nat (length (key_bytes k2))) in
      if r =? 0 then bytes_cmp (key_bytes k1) (key_bytes k2) else r
  end.

Section compare.
Context {V W : Type} (compar : V → W → outcome Z).

(** Element by element: with the one at the same place, keys compared first,
    or with the one under the same key. *)
Fixpoint delems_compare (ordered : bool) (d1 : list (akey * V)) (d2 : list (akey * W)) : outcome Z :=
  match d1 with
  | [] => OK 0
  | (k, v) :: d1 =>
      let* r :=
        (if ordered then
           match d2 with
           | [] => OK 1
           | (k2, w) :: _ => let r := key_order k k2 in if r =? 0 then compar v w else OK r
           end
         else match dlookup k d2 with None => OK 1 | Some w => compar v w end) in
      if r =? 0 then delems_compare ordered d1 (if ordered then tl d2 else d2) else OK r
  end.
(** The number of elements comes first. *)
Definition dcompare (ordered : bool) (d1 : list (akey * V)) (d2 : list (akey * W)) : outcome Z :=
  let r := to_int (Z.of_nat (length d1) - Z.of_nat (length d2)) in
  if r =? 0 then delems_compare ordered d1 d2 else OK r.
End compare.

(** Only equal keys compare equal, when a string key has a byte at least and
    fewer than 2^32. *)
Lemma to_int_zero z : to_int z = 0 → - 2 ^ 32 < z < 2 ^ 32 → z = 0.
Proof.
  unfold to_int, uint_wrap. intros Hz Hr. assert (z mod 2 ^ 32 = 0) as Hm by (destruct (Z.ltb_spec (z mod 2 ^ 32) (2 ^ 31)); [done|pose proof (Z.mod_pos_bound z (2 ^ 32)); lia]).
  apply Z.mod_divide in Hm as [k ->]; [|lia]. nia.
Qed.
Definition key_sized (k : akey) : Prop := match k with KIdx _ => True | KStr s => 0 < Z.of_nat (length s) < 2 ^ 32 end.
Lemma bytes_cmp_zero a b : length a = length b → bytes_cmp a b = 0 ↔ a = b.
Proof.
  revert b. induction a as [|x a IH]; intros [|y b] Hl; try done. injection Hl as Hl. simpl.
  destruct (Z.ltb_spec x y), (Z.ltb_spec y x); [lia|split; intros; simplify_eq; lia..|]. assert (x = y) as -> by lia. rewrite IH by done. naive_solver.
Qed.
Lemma key_order_zero k1 k2 : key_sized k1 → key_sized k2 → key_order k1 k2 = 0 ↔ k1 = k2.
Proof.
  intros H1 H2. unfold key_order.
  assert (∀ a b, Z.of_nat (length a) < 2 ^ 32 → Z.of_nat (length b) < 2 ^ 32 →
    (let r := to_int (Z.of_nat (length a) - Z.of_nat (length b)) in if r =? 0 then bytes_cmp a b else r) = 0 ↔ a = b) as Hs.
  { intros a b Ha Hb. cbv zeta. destruct (Z.eqb_spec (to_int (Z.of_nat (length a) - Z.of_nat (length b))) 0) as [E|E].
    - apply to_int_zero in E; [|lia]. apply bytes_cmp_zero. lia.
    - split; [done|]. intros ->. by rewrite Z.sub_diag in E. }
  destruct k1 as [h1|s1], k2 as [h2|s2]; simpl in H1, H2.
  - destruct (Z.eqb_spec h1 h2) as [->|Hne]; [done|]. split; [by destruct (h2 <? h1)|naive_solver].
  - cbn [key_bytes]. rewrite (Hs [] s2) by (simpl; lia). split; [|done]. intros <-. simpl in H2. lia.
  - cbn [key_bytes]. rewrite (Hs s1 []) by (simpl; lia). split; [|done]. intros ->. simpl in H1. lia.
  - cbn [key_bytes]. rewrite Hs by lia. naive_solver.
Qed.
