(* ===== verification/ZendHash.v ===== *)
(** The HashTable of the engine, Zend/zend_hash.c and Zend/zend_hash.h: data
    and operations, at the level of the buckets and their pointers.

    A [Bucket] is a heap record with the four link fields of the C struct;
    a [HashTable] is the C struct, with [arBuckets] as the array of chain
    heads.  Every operation passes the heap explicitly, reads and writes
    fields in the order of the C code and returns an [outcome]. *)

From S2P Require Import Prelude Dll.

(** * Strings *)

(** Where a [const char *] points: into the interned strings, right behind a
    bucket ([(const char * )(p + 1)]), or to memory of the caller. *)
Inductive saddr :=
  | Interned (n : positive)
  | Inline (b : ptr)
  | Foreign (n : positive).
#[export] Instance saddr_eq_dec : EqDecision saddr.
Proof. solve_decision. Defined.

(** A [const char *]: the address and the bytes that can be read from it. *)
Record zstr := ZStr { zs_addr : saddr; zs_val : list Z }.
#[export] Instance zstr_eq_dec : EqDecision zstr.
Proof. solve_decision. Defined.

(** Pointer comparison [a == b]. *)
Definition str_ptr_eq (a b : option zstr) : bool :=
  match a, b with
  | Some a, Some b => bool_decide (zs_addr a = zs_addr b)
  | None, None => true
  | _, _ => false
  end.

Definition IS_INTERNED (s : option zstr) : bool :=
  match s with Some (ZStr (Interned _) _) => true | _ => false end.

(** [memcmp(a, b, n) == 0]. *)
Definition memcmp_eq (a b : option zstr) (n : Z) : bool :=
  match a, b with
  | Some a, Some b => bool_decide (take (Z.to_nat n) (zs_val a) = take (Z.to_nat n) (zs_val b))
  | _, _ => n =? 0
  end.

(** * The hash function (DJBX33A, unrolled eight times) *)

Definition hash_step (hash c : Z) : Z :=
  ulong_wrap (Z.shiftl hash 5 + hash + schar c).

Section unrolled.
(** One [hash = ((hash << 5) + hash) + *arKey++]. *)
Variable step : Z → Z → Z.

(** The [switch] on the last 0..7 bytes, with its fall-through cases. *)
Definition hash_switch (s : list Z) (hash : Z) : Z :=
  match s with
  | [c1; c2; c3; c4; c5; c6; c7] =>
      step (step (step (step (step (step (step
        hash c1) c2) c3) c4) c5) c6) c7
  | [c1; c2; c3; c4; c5; c6] =>
      step (step (step (step (step (step
        hash c1) c2) c3) c4) c5) c6
  | [c1; c2; c3; c4; c5] =>
      step (step (step (step (step hash c1) c2) c3) c4) c5
  | [c1; c2; c3; c4] => step (step (step (step hash c1) c2) c3) c4
  | [c1; c2; c3] => step (step (step hash c1) c2) c3
  | [c1; c2] => step (step hash c1) c2
  | [c1] => step hash c1
  | _ => hash
  end.

Fixpoint hash_loop (s : list Z) (hash : Z) : Z :=
  match s with
  | c1 :: c2 :: c3 :: c4 :: c5 :: c6 :: c7 :: c8 :: s' =>
      hash_loop s'
        (step (step (step (step (step (step (step
          (step hash c1) c2) c3) c4) c5) c6) c7) c8)
  | _ => hash_switch s hash
  end.

End unrolled.

Definition zend_inline_hash_func (arKey : list Z) (nKeyLength : Z) : Z :=
  hash_loop hash_step (take (Z.to_nat nKeyLength) arKey) 5381.

(** [zend_hash_func] of zend_hash.c calls the inline one. *)
Definition zend_hash_func (arKey : list Z) (nKeyLength : Z) : Z :=
  zend_inline_hash_func arKey nKeyLength.

(** [INTERNED_HASH(s)]: the hash stored in front of an interned string, which
    [zend_new_interned_string_int] computes with [zend_inline_hash_func]. *)
Definition INTERNED_HASH (s : zstr) : Z :=
  zend_inline_hash_func (zs_val s) (Z.of_nat (length (zs_val s))).

(** * Flags *)

Definition HASH_UPDATE : Z := 1.
Definition HASH_ADD : Z := 2.
Definition HASH_NEXT_INSERT : Z := 4.

Definition HASH_DEL_KEY : Z := 0.
Definition HASH_DEL_INDEX : Z := 1.
Definition HASH_DEL_KEY_QUICK : Z := 2.

Definition HASH_UPDATE_KEY_IF_NONE : Z := 0.
Definition HASH_UPDATE_KEY_IF_BEFORE : Z := 1.
Definition HASH_UPDATE_KEY_IF_AFTER : Z := 2.
Definition HASH_UPDATE_KEY_ANYWAY : Z := 3.

Definition HASH_KEY_IS_STRING : Z := 1.
Definition HASH_KEY_IS_LONG : Z := 2.
Definition HASH_KEY_NON_EXISTENT : Z := 3.

Definition ZEND_HASH_APPLY_KEEP : Z := 0.
Definition ZEND_HASH_APPLY_REMOVE : Z := 1.
Definition ZEND_HASH_APPLY_STOP : Z := 2.

(** [flag & bit] as a condition. *)
Definition has_flag (flag bit : Z) : bool := negb (Z.land flag bit =? 0).

(** [sizeof(void * )]. *)
Definition SIZEOF_PTR : Z := 8.

(** * Buckets and tables *)

Section data.
Context {V : Type}.

(** The value of a bucket: kept in [pDataPtr] itself ([pData == &pDataPtr])
    when it has the size of a pointer, in a block of its own otherwise. *)
Inductive pdata :=
  | InPtr (v : V)
  | InBlock (v : V).

Definition data_of (d : pdata) : V := match d with InPtr v | InBlock v => v end.

Record Bucket := mkBucket {
  bh : Z;
  nKeyLength : Z;
  pData : pdata;
  pListNext : nptr;
  pListLast : nptr;
  pNext : nptr;
  pLast : nptr;
  arKey : option zstr;
}.

Definition set_pListNext n b := mkBucket (bh b) (nKeyLength b) (pData b) n (pListLast b) (pNext b) (pLast b) (arKey b).
Definition set_pListLast n b := mkBucket (bh b) (nKeyLength b) (pData b) (pListNext b) n (pNext b) (pLast b) (arKey b).
Definition set_pNext n b := mkBucket (bh b) (nKeyLength b) (pData b) (pListNext b) (pListLast b) n (pLast b) (arKey b).
Definition set_pLast n b := mkBucket (bh b) (nKeyLength b) (pData b) (pListNext b) (pListLast b) (pNext b) n (arKey b).
Definition set_pData d b := mkBucket (bh b) (nKeyLength b) d (pListNext b) (pListLast b) (pNext b) (pLast b) (arKey b).
Definition set_h x b := mkBucket x (nKeyLength b) (pData b) (pListNext b) (pListLast b) (pNext b) (pLast b) (arKey b).
Definition set_nKeyLength n b := mkBucket (bh b) n (pData b) (pListNext b) (pListLast b) (pNext b) (pLast b) (arKey b).
Definition set_arKey k b := mkBucket (bh b) (nKeyLength b) (pData b) (pListNext b) (pListLast b) (pNext b) (pLast b) k.

(** Calls the table makes to code it does not own: [pDestructor] on a value,
    a copy constructor on a value. *)
Inductive event :=
  | EvDtor (v : V)
  | EvCopy (v : V).

Record mem := mkMem {
  heap : gmap ptr Bucket;
  evs : list event;
}.

Record HashTable := mkHT {
  nTableSize : Z;
  nTableMask : Z;
  nNumOfElements : Z;
  nNextFreeElement : Z;
  pInternalPointer : nptr;
  pListHead : nptr;
  pListTail : nptr;
  arBuckets : list nptr;
  pDestructor : bool;
  persistent : bool;
  nApplyCount : Z;
  bApplyProtection : bool;
}.

Definition set_nTable size mask ab ht := mkHT size mask (nNumOfElements ht) (nNextFreeElement ht) (pInternalPointer ht) (pListHead ht) (pListTail ht) ab (pDestructor ht) (persistent ht) (nApplyCount ht) (bApplyProtection ht).
Definition set_arBuckets ab ht := set_nTable (nTableSize ht) (nTableMask ht) ab ht.
Definition set_nNumOfElements n ht := mkHT (nTableSize ht) (nTableMask ht) n (nNextFreeElement ht) (pInternalPointer ht) (pListHead ht) (pListTail ht) (arBuckets ht) (pDestructor ht) (persistent ht) (nApplyCount ht) (bApplyProtection ht).
Definition set_nNextFreeElement n ht := mkHT (nTableSize ht) (nTableMask ht) (nNumOfElements ht) n (pInternalPointer ht) (pListHead ht) (pListTail ht) (arBuckets ht) (pDestructor ht) (persistent ht) (nApplyCount ht) (bApplyProtection ht).
Definition set_pInternalPointer p ht := mkHT (nTableSize ht) (nTableMask ht) (nNumOfElements ht) (nNextFreeElement ht) p (pListHead ht) (pListTail ht) (arBuckets ht) (pDestructor ht) (persistent ht) (nApplyCount ht) (bApplyProtection ht).
Definition set_pListHead p ht := mkHT (nTableSize ht) (nTableMask ht) (nNumOfElements ht) (nNextFreeElement ht) (pInternalPointer ht) p (pListTail ht) (arBuckets ht) (pDestructor ht) (persistent ht) (nApplyCount ht) (bApplyProtection ht).
Definition set_pListTail p ht := mkHT (nTableSize ht) (nTableMask ht) (nNumOfElements ht) (nNextFreeElement ht) (pInternalPointer ht) (pListHead ht) p (arBuckets ht) (pDestructor ht) (persistent ht) (nApplyCount ht) (bApplyProtection ht).
Definition set_nApplyCount n ht := mkHT (nTableSize ht) (nTableMask ht) (nNumOfElements ht) (nNextFreeElement ht) (pInternalPointer ht) (pListHead ht) (pListTail ht) (arBuckets ht) (pDestructor ht) (persistent ht) n (bApplyProtection ht).
Definition set_bApplyProtection b ht := mkHT (nTableSize ht) (nTableMask ht) (nNumOfElements ht) (nNextFreeElement ht) (pInternalPointer ht) (pListHead ht) (pListTail ht) (arBuckets ht) (pDestructor ht) (persistent ht) (nApplyCount ht) b.

(** [p->field = ...], [free(p)] and the calls out, on the shared memory. *)
Definition mstore (m : mem) (p : ptr) (f : Bucket → Bucket) : outcome mem :=
  let* hp := store (heap m) p f in OK (mkMem hp (evs m)).
Definition mfree (m : mem) (p : ptr) : outcome mem :=
  match heap m !! p with
  | Some _ => OK (mkMem (delete p (heap m)) (evs m))
  | None => UB
  end.
Definition call (m : mem) (e : event) : mem := mkMem (heap m) (evs m ++ [e]).
Definition deref (m : mem) (p : ptr) : outcome Bucket := rd (heap m !! p).

(** [if (q) { q->field = ...; }] *)
Definition mstore_opt (m : mem) (q : nptr) (f : Bucket → Bucket) : outcome mem :=
  match q with Some q => mstore m q f | None => OK m end.

(** [arBuckets[i]], read and written. *)
Definition slot (ht : HashTable) (i : Z) : outcome nptr :=
  rd (arBuckets ht !! Z.to_nat i).
Definition set_slot (ht : HashTable) (i : Z) (p : nptr) : outcome HashTable :=
  if decide (Z.to_nat i < length (arBuckets ht))%nat
  then OK (set_arBuckets (<[Z.to_nat i := p]> (arBuckets ht)) ht) else UB.

End data.
Arguments pdata : clear implicits.
Arguments Bucket : clear implicits.
Arguments event : clear implicits.
Arguments mem : clear implicits.

Section ops.
Context {V : Type} `{PEMalloc}.
Implicit Types (m : mem V) (ht : HashTable) (p q : ptr).

(** ** Macros of zend_hash.c *)

Definition CONNECT_TO_BUCKET_DLLIST m (element : ptr) (list_head : nptr) : outcome (mem V) :=
  let* m := mstore m element (set_pNext list_head) in
  let* m := mstore m element (set_pLast None) in
  let* e := deref m element in
  mstore_opt m (pNext e) (set_pLast (Some element)).

Definition CONNECT_TO_GLOBAL_DLLIST_EX m ht (element : ptr) (last next : nptr)
    : outcome (mem V * HashTable) :=
  let* m := mstore m element (set_pListLast last) in
  let* m := mstore m element (set_pListNext next) in
  let* (m, ht) :=
    match last with
    | Some l => let* m := mstore m l (set_pListNext (Some element)) in OK (m, ht)
    | None => OK (m, set_pListHead (Some element) ht)
    end in
  match next with
  | Some n => let* m := mstore m n (set_pListLast (Some element)) in OK (m, ht)
  | None => OK (m, set_pListTail (Some element) ht)
  end.

Definition CONNECT_TO_GLOBAL_DLLIST m ht (element : ptr) : outcome (mem V * HashTable) :=
  let* (m, ht) := CONNECT_TO_GLOBAL_DLLIST_EX m ht element (pListTail ht) None in
  OK (m, match pInternalPointer ht with
         | None => set_pInternalPointer (Some element) ht
         | Some _ => ht
         end).

(** The value a block of [nDataSize] bytes at [pData] holds, as a bucket
    stores it; the old block, if any, is freed or reallocated. *)
Definition INIT_DATA (v : V) (nDataSize : Z) : pdata V :=
  if nDataSize =? SIZEOF_PTR then InPtr v else InBlock v.
Definition UPDATE_DATA m p (v : V) (nDataSize : Z) : outcome (mem V) :=
  mstore m p (set_pData (if nDataSize =? SIZEOF_PTR then InPtr v else InBlock v)).

Definition CHECK_INIT ht : HashTable :=
  if nTableMask ht =? 0
  then set_nTable (nTableSize ht) (nTableSize ht - 1)
         (replicate (Z.to_nat (nTableSize ht)) None) ht
  else ht.

(** [HASH_PROTECT_RECURSION]: the counter is an [unsigned char]. *)
Definition HASH_PROTECT_RECURSION ht : outcome HashTable :=
  if bApplyProtection ht then
    if 3 <=? nApplyCount ht then Bailout
    else OK (set_nApplyCount ((nApplyCount ht + 1) mod 256) ht)
  else OK ht.
Definition HASH_UNPROTECT_RECURSION ht : HashTable :=
  if bApplyProtection ht then set_nApplyCount ((nApplyCount ht - 1) mod 256) ht else ht.

(** A new bucket, its link fields not yet written. *)
Definition new_bucket m (hv len : Z) (d : pdata V) (k : ptr → option zstr) : mem V * ptr :=
  let p := pemalloc (dom (heap m)) in
  (mkMem (<[p := mkBucket hv len d garbage garbage garbage garbage (k p)]> (heap m)) (evs m), p).

(** [p->arKey]: an interned key is shared, any other is copied behind [p]. *)
Definition copy_key (k : option zstr) (nKeyLength : Z) (p : ptr) : option zstr :=
  if IS_INTERNED k then k
  else Some (ZStr (Inline p) (take (Z.to_nat nKeyLength) (from_option zs_val [] k))).

(** ** Start-up *)

Fixpoint init_size_loop (fuel : nat) (i nSize : Z) : Z :=
  match fuel with
  | O => i
  | S fuel => if uint_wrap (Z.shiftl 1 i) <? nSize then init_size_loop fuel (i + 1) nSize else i
  end.

Definition zend_hash_init (nSize : Z) (dtor persist : bool) : HashTable :=
  mkHT (if 0x80000000 <=? nSize then 0x80000000
        else uint_wrap (Z.shiftl 1 (init_size_loop 32 3 nSize)))
       0 0 0 None None None [None] dtor persist 0 true.

Definition zend_hash_init_ex (nSize : Z) (dtor persist protection : bool) : HashTable :=
  set_bApplyProtection protection (zend_hash_init nSize dtor persist).

Definition zend_hash_set_apply_protection ht (protection : bool) : HashTable :=
  set_bApplyProtection protection ht.

(** ** Chains *)

Definition fuel_of m : nat := S (size (heap m)).

(** [while (p != NULL) { if (test) ...; p = p->pNext; }]: the first bucket of
    the chain that passes the test. *)
Fixpoint chain_search (fuel : nat) (test : Bucket V → bool) m (p : nptr) : outcome nptr :=
  match p with
  | None => OK None
  | Some q =>
      match fuel with
      | O => UB
      | S fuel =>
          let* b := deref m q in
          if test b then OK (Some q) else chain_search fuel test m (pNext b)
      end
  end.

(** [p->arKey == arKey || (p->h == h && p->nKeyLength == nKeyLength &&
     !memcmp(p->arKey, arKey, nKeyLength))] *)
Definition key_test (k : option zstr) (len hv : Z) (b : Bucket V) : bool :=
  str_ptr_eq (arKey b) k ||
  ((bh b =? hv) && (nKeyLength b =? len) && memcmp_eq (arKey b) k len).
(** [(p->nKeyLength == 0) && (p->h == h)] *)
Definition index_test (hv : Z) (b : Bucket V) : bool :=
  (nKeyLength b =? 0) && (bh b =? hv).
(** The test of [zend_hash_del_key_or_index]. *)
Definition del_test (k : option zstr) (len hv : Z) (b : Bucket V) : bool :=
  (bh b =? hv) && (nKeyLength b =? len) &&
  ((nKeyLength b =? 0) || memcmp_eq (arKey b) k len).

(** ** Rehashing *)

Fixpoint rehash_loop (fuel : nat) m ht (p : nptr) : outcome (mem V * HashTable) :=
  match p with
  | None => OK (m, ht)
  | Some q =>
      match fuel with
      | O => UB
      | S fuel =>
          let* b := deref m q in
          let nIndex := Z.land (bh b) (nTableMask ht) in
          let* head := slot ht nIndex in
          let* m := CONNECT_TO_BUCKET_DLLIST m q head in
          let* ht := set_slot ht nIndex (Some q) in
          let* b := deref m q in
          rehash_loop fuel m ht (pListNext b)
      end
  end.

(** [memset(ht->arBuckets, 0, ht->nTableSize * sizeof(Bucket * ))] *)
Definition clear_slots ht : HashTable :=
  set_arBuckets (replicate (Z.to_nat (nTableSize ht)) None) ht.

Definition zend_hash_rehash m ht : outcome (mem V * HashTable) :=
  if nNumOfElements ht =? 0 then OK (m, ht)
  else rehash_loop (fuel_of m) m (clear_slots ht) (pListHead ht).

Definition zend_hash_do_resize m ht : outcome (mem V * HashTable) :=
  let size2 := uint_wrap (Z.shiftl (nTableSize ht) 1) in
  if 0 <? size2 then
    let t := arBuckets ht ++ replicate (Z.to_nat size2 - length (arBuckets ht))%nat garbage in
    zend_hash_rehash m (set_nTable size2 (size2 - 1) t ht)
  else OK (m, ht).

Definition ZEND_HASH_IF_FULL_DO_RESIZE m ht : outcome (mem V * HashTable) :=
  if nTableSize ht <? nNumOfElements ht then zend_hash_do_resize m ht else OK (m, ht).

(** ** Insertion and update

    The result: the return code, the bucket whose [pData] went to [*pDest],
    the memory and the table. *)

Abbreviation ins_result := (outcome (zresult * nptr * mem V * HashTable)).

(** What the three insertion functions do with a bucket that has the key. *)
Definition update_bucket m ht p (v : V) (nDataSize : Z) : ins_result :=
  let* b := deref m p in
  let m := if pDestructor ht then call m (EvDtor (data_of (pData b))) else m in
  let* m := UPDATE_DATA m p v nDataSize in
  OK (SUCCESS, Some p, m, ht).

Definition _zend_hash_add_or_update m ht (k : zstr) (nKeyLength : Z) (v : V)
    (nDataSize flag : Z) : ins_result :=
  let ht := CHECK_INIT ht in
  let hv := zend_inline_hash_func (zs_val k) nKeyLength in
  let nIndex := Z.land hv (nTableMask ht) in
  let* head := slot ht nIndex in
  let* found := chain_search (fuel_of m) (key_test (Some k) nKeyLength hv) m head in
  match found with
  | Some p =>
      if has_flag flag HASH_ADD then OK (FAILURE, None, m, ht)
      else update_bucket m ht p v nDataSize
  | None =>
      let (m, p) := new_bucket m hv nKeyLength (INIT_DATA v nDataSize) (copy_key (Some k) nKeyLength) in
      let* head := slot ht nIndex in
      let* m := CONNECT_TO_BUCKET_DLLIST m p head in
      let* (m, ht) := CONNECT_TO_GLOBAL_DLLIST m ht p in
      let* ht := set_slot ht nIndex (Some p) in
      let ht := set_nNumOfElements (uint_wrap (nNumOfElements ht + 1)) ht in
      let* (m, ht) := ZEND_HASH_IF_FULL_DO_RESIZE m ht in
      OK (SUCCESS, Some p, m, ht)
  end.

Definition _zend_hash_quick_add_or_update m ht (k : option zstr) (nKeyLength hv : Z) (v : V)
    (nDataSize flag : Z) : ins_result :=
  let ht := CHECK_INIT ht in
  let nIndex := Z.land hv (nTableMask ht) in
  let* head := slot ht nIndex in
  let* found := chain_search (fuel_of m) (key_test k nKeyLength hv) m head in
  match found with
  | Some p =>
      if has_flag flag HASH_ADD then OK (FAILURE, None, m, ht)
      else update_bucket m ht p v nDataSize
  | None =>
      let (m, p) := new_bucket m hv nKeyLength (INIT_DATA v nDataSize) (copy_key k nKeyLength) in
      let* head := slot ht nIndex in
      let* m := CONNECT_TO_BUCKET_DLLIST m p head in
      let* ht := set_slot ht nIndex (Some p) in
      let* (m, ht) := CONNECT_TO_GLOBAL_DLLIST m ht p in
      let ht := set_nNumOfElements (uint_wrap (nNumOfElements ht + 1)) ht in
      let* (m, ht) := ZEND_HASH_IF_FULL_DO_RESIZE m ht in
      OK (SUCCESS, Some p, m, ht)
  end.

(** [if ((long)h >= (long)ht->nNextFreeElement) ht->nNextFreeElement =
     h < LONG_MAX ? h + 1 : LONG_MAX;] *)
Definition bump_next_free (hv : Z) ht : HashTable :=
  if to_long (nNextFreeElement ht) <=? to_long hv
  then set_nNextFreeElement (if hv <? LONG_MAX then hv + 1 else LONG_MAX) ht
  else ht.

Definition _zend_hash_index_update_or_next_insert m ht (hv : Z) (v : V)
    (nDataSize flag : Z) : ins_result :=
  let ht := CHECK_INIT ht in
  let hv := if has_flag flag HASH_NEXT_INSERT then nNextFreeElement ht else hv in
  let nIndex := Z.land hv (nTableMask ht) in
  let* head := slot ht nIndex in
  let* found := chain_search (fuel_of m) (index_test hv) m head in
  match found with
  | Some p =>
      if has_flag flag HASH_NEXT_INSERT || has_flag flag HASH_ADD
      then OK (FAILURE, None, m, ht)
      else update_bucket m ht p v nDataSize
  | None =>
      let (m, p) := new_bucket m hv 0 (INIT_DATA v nDataSize) (λ _, None) in
      let* head := slot ht nIndex in
      let* m := CONNECT_TO_BUCKET_DLLIST m p head in
      let* ht := set_slot ht nIndex (Some p) in
      let* (m, ht) := CONNECT_TO_GLOBAL_DLLIST m ht p in
      let ht := bump_next_free hv ht in
      let ht := set_nNumOfElements (uint_wrap (nNumOfElements ht + 1)) ht in
      let* (m, ht) := ZEND_HASH_IF_FULL_DO_RESIZE m ht in
      OK (SUCCESS, Some p, m, ht)
  end.

(** [zend_hash_add_empty_element]: the value is the pointer [(void * )1]. *)
Definition zend_hash_add_empty_element m ht (k : zstr) (nKeyLength : Z) (dummy : V)
    : ins_result :=
  _zend_hash_add_or_update m ht k nKeyLength dummy SIZEOF_PTR HASH_ADD.

(** ** Removal *)

Definition i_zend_hash_bucket_delete m ht p : outcome (mem V * HashTable) :=
  let* b := deref m p in
  let* (m, ht) :=
    match pLast b with
    | Some q => let* m := mstore m q (set_pNext (pNext b)) in OK (m, ht)
    | None => let* ht := set_slot ht (Z.land (bh b) (nTableMask ht)) (pNext b) in OK (m, ht)
    end in
  let* b := deref m p in
  let* m := mstore_opt m (pNext b) (set_pLast (pLast b)) in
  let* b := deref m p in
  let* (m, ht) :=
    match pListLast b with
    | Some q => let* m := mstore m q (set_pListNext (pListNext b)) in OK (m, ht)
    | None => OK (m, set_pListHead (pListNext b) ht)
    end in
  let* b := deref m p in
  let* (m, ht) :=
    match pListNext b with
    | Some q => let* m := mstore m q (set_pListLast (pListLast b)) in OK (m, ht)
    | None => OK (m, set_pListTail (pListLast b) ht)
    end in
  let* b := deref m p in
  let ht := if decide (pInternalPointer ht = Some p)
            then set_pInternalPointer (pListNext b) ht else ht in
  let ht := set_nNumOfElements (uint_wrap (nNumOfElements ht - 1)) ht in
  let m := if pDestructor ht then call m (EvDtor (data_of (pData b))) else m in
  let* m := mfree m p in
  OK (m, ht).

Definition zend_hash_bucket_delete m ht p : outcome (mem V * HashTable) :=
  i_zend_hash_bucket_delete m ht p.

Definition zend_hash_del_key_or_index m ht (k : option zstr) (nKeyLength hv flag : Z)
    : outcome (zresult * mem V * HashTable) :=
  let hv := if flag =? HASH_DEL_KEY
            then zend_inline_hash_func (from_option zs_val [] k) nKeyLength else hv in
  let nIndex := Z.land hv (nTableMask ht) in
  let* head := slot ht nIndex in
  let* found := chain_search (fuel_of m) (del_test k nKeyLength hv) m head in
  match found with
  | Some p =>
      let* (m, ht) := i_zend_hash_bucket_delete m ht p in
      OK (SUCCESS, m, ht)
  | None => OK (FAILURE, m, ht)
  end.

(** The loop of [zend_hash_destroy] and [zend_hash_clean]. *)
Fixpoint destroy_loop (fuel : nat) m (dtor : bool) (p : nptr) : outcome (mem V) :=
  match p with
  | None => OK m
  | Some q =>
      match fuel with
      | O => UB
      | S fuel =>
          let* b := deref m q in
          let m := if dtor then call m (EvDtor (data_of (pData b))) else m in
          let* m := mfree m q in
          destroy_loop fuel m dtor (pListNext b)
      end
  end.

Definition zend_hash_destroy m ht : outcome (mem V) :=
  destroy_loop (fuel_of m) m (pDestructor ht) (pListHead ht).

Definition zend_hash_clean m ht : outcome (mem V * HashTable) :=
  let p := pListHead ht in
  let ht := if nTableMask ht =? 0 then ht else clear_slots ht in
  let ht := set_pInternalPointer None (set_nNextFreeElement 0 (set_nNumOfElements 0
              (set_pListTail None (set_pListHead None ht)))) in
  let* m := destroy_loop (fuel_of m) m (pDestructor ht) p in
  OK (m, ht).

Fixpoint graceful_loop (fuel : nat) (first : HashTable → nptr) m ht
    : outcome (mem V * HashTable) :=
  match first ht with
  | None => OK (m, ht)
  | Some p =>
      match fuel with
      | O => UB
      | S fuel =>
          let* (m, ht) := zend_hash_bucket_delete m ht p in
          graceful_loop fuel first m ht
      end
  end.

Definition zend_hash_graceful_destroy m ht : outcome (mem V * HashTable) :=
  graceful_loop (fuel_of m) pListHead m ht.
Definition zend_hash_graceful_reverse_destroy m ht : outcome (mem V * HashTable) :=
  graceful_loop (fuel_of m) pListTail m ht.

(** ** Renumbering *)

Fixpoint reindex_loop (fuel : nat) (only_integer_keys : bool) m ht (offset : Z) (p : nptr)
    : outcome (mem V * HashTable * Z) :=
  match p with
  | None => OK (m, ht, offset)
  | Some q =>
      match fuel with
      | O => UB
      | S fuel =>
          let* b := deref m q in
          let* (m, offset) :=
            if negb only_integer_keys || (nKeyLength b =? 0) then
              let* m := mstore m q (set_h offset) in
              let* m := mstore m q (set_nKeyLength 0) in
              OK (m, ulong_wrap (offset + 1))
            else OK (m, offset) in
          let* b := deref m q in
          let nIndex := Z.land (bh b) (nTableMask ht) in
          let* head := slot ht nIndex in
          let* m := CONNECT_TO_BUCKET_DLLIST m q head in
          let* ht := set_slot ht nIndex (Some q) in
          let* b := deref m q in
          reindex_loop fuel only_integer_keys m ht offset (pListNext b)
      end
  end.

Definition zend_hash_reindex m ht (only_integer_keys : bool) : outcome (mem V * HashTable) :=
  if nNumOfElements ht =? 0 then OK (m, set_nNextFreeElement 0 ht)
  else
    let* (m, ht, offset) :=
      reindex_loop (fuel_of m) only_integer_keys m (clear_slots ht) 0 (pListHead ht) in
    OK (m, set_nNextFreeElement offset ht).

(** ** Look-up *)

Definition zend_hash_find m ht (k : zstr) (nKeyLength : Z) : outcome (option V) :=
  let hv := zend_inline_hash_func (zs_val k) nKeyLength in
  let* head := slot ht (Z.land hv (nTableMask ht)) in
  let* found := chain_search (fuel_of m) (key_test (Some k) nKeyLength hv) m head in
  match found with
  | Some p => let* b := deref m p in OK (Some (data_of (pData b)))
  | None => OK None
  end.

Definition zend_hash_quick_find m ht (k : option zstr) (nKeyLength hv : Z) : outcome (option V) :=
  let* head := slot ht (Z.land hv (nTableMask ht)) in
  let* found := chain_search (fuel_of m) (key_test k nKeyLength hv) m head in
  match found with
  | Some p => let* b := deref m p in OK (Some (data_of (pData b)))
  | None => OK None
  end.

Definition zend_hash_exists m ht (k : zstr) (nKeyLength : Z) : outcome bool :=
  let hv := zend_inline_hash_func (zs_val k) nKeyLength in
  let* head := slot ht (Z.land hv (nTableMask ht)) in
  let* found := chain_search (fuel_of m) (key_test (Some k) nKeyLength hv) m head in
  match found with Some _ => OK true | None => OK false end.

Definition zend_hash_quick_exists m ht (k : zstr) (nKeyLength hv : Z) : outcome bool :=
  let* head := slot ht (Z.land hv (nTableMask ht)) in
  let* found := chain_search (fuel_of m) (key_test (Some k) nKeyLength hv) m head in
  match found with Some _ => OK true | None => OK false end.

Definition zend_hash_index_find m ht (hv : Z) : outcome (option V) :=
  let* head := slot ht (Z.land hv (nTableMask ht)) in
  let* found := chain_search (fuel_of m) (index_test hv) m head in
  match found with
  | Some p => let* b := deref m p in OK (Some (data_of (pData b)))
  | None => OK None
  end.

Definition zend_hash_index_exists m ht (hv : Z) : outcome bool :=
  let* head := slot ht (Z.land hv (nTableMask ht)) in
  let* found := chain_search (fuel_of m) (index_test hv) m head in
  match found with Some _ => OK true | None => OK false end.

Definition zend_hash_num_elements ht : Z := nNumOfElements ht.
Definition zend_hash_next_free_element ht : Z := nNextFreeElement ht.

End ops.

Arguments zend_inline_hash_func : simpl never.
Arguments uint_wrap : simpl never.
Arguments ulong_wrap : simpl never.
