(* ===== verification/ZendHashInv.v ===== *)
(** Representation invariant of a HashTable and the effect of its pointer
    operations (linking, unlinking, rehashing) on it.

    A heap is read through three functions, which together determine it: the
    links of the global list ([lview]), the links of the collision chains
    ([cview]) and the rest of the bucket ([core]).  Each C assignment changes
    one of them, so the proofs below never look at the heap itself. *)

From S2P Require Import Prelude Dll ZendHash.

Section views.
Context {V : Type}.
Implicit Types (m : mem V) (p q : ptr).

Definition lview m : view := λ p, (λ b, (pListLast b, pListNext b)) <$> heap m !! p.
Definition cview m : view := λ p, (λ b, (pLast b, pNext b)) <$> heap m !! p.

Record bcore := mkCore { c_h : Z; c_len : Z; c_data : pdata V; c_key : option zstr }.
Definition core_of (b : Bucket V) : bcore := mkCore (bh b) (nKeyLength b) (pData b) (arKey b).
Definition core m p : option bcore := core_of <$> heap m !! p.

Definition malter (f : Bucket V → Bucket V) p m : mem V := mkMem (alter f p (heap m)) (evs m).

Lemma evs_malter f p m : evs (malter f p m) = evs m.
Proof. done. Qed.

Lemma deref_views m p c ll ln cl cn :
  core m p = Some c → lview m p = Some (ll, ln) → cview m p = Some (cl, cn) →
  deref m p = OK (mkBucket (c_h c) (c_len c) (c_data c) ln ll cn cl (c_key c)).
Proof.
  unfold core, lview, cview, deref. destruct (heap m !! p) as [b|]; [|done].
  destruct b. simpl. naive_solver.
Qed.

Lemma mstore_live m p f : is_Some (core m p) → mstore m p f = OK (malter f p m).
Proof.
  unfold core. rewrite fmap_is_Some. intros Hp.
  unfold mstore. by rewrite store_alter.
Qed.

Lemma mfree_live m p :
  is_Some (core m p) → mfree m p = OK (mkMem (delete p (heap m)) (evs m)).
Proof. unfold core, mfree. by destruct (heap m !! p) as [b|] eqn:E; [|intros [? ?]]. Qed.

Lemma live_views m p : is_Some (core m p) → is_Some (lview m p) ∧ is_Some (cview m p).
Proof. unfold core, lview, cview. by rewrite !fmap_is_Some. Qed.
Lemma lview_live m p x : lview m p = Some x → is_Some (core m p).
Proof. unfold core, lview. destruct (heap m !! p); naive_solver. Qed.
Lemma cview_live m p x : cview m p = Some x → is_Some (core m p).
Proof. unfold core, cview. destruct (heap m !! p); naive_solver. Qed.

(** Two heaps with the same views of a node agree on it. *)
Lemma views_ext m m' p :
  core m' p = core m p → lview m' p = lview m p → cview m' p = cview m p →
  heap m' !! p = heap m !! p.
Proof.
  unfold core, lview, cview.
  destruct (heap m' !! p) as [[]|], (heap m !! p) as [[]|]; simpl; naive_solver.
Qed.

(** ** Effect of the assignments *)

Ltac view_tac :=
  intros; unfold core, lview, cview, malter, set_next, set_prev; simpl;
  rewrite lookup_alter; repeat case_decide; simplify_eq;
  try match goal with |- context [heap ?m !! ?q] => destruct (heap m !! q) as [[]|] end;
  by simpl.

Lemma lview_pListNext m p n q : lview (malter (set_pListNext n) p m) q = set_next (Some p) n (lview m) q.
Proof. view_tac. Qed.
Lemma lview_pListLast m p n q : lview (malter (set_pListLast n) p m) q = set_prev (Some p) n (lview m) q.
Proof. view_tac. Qed.
Lemma lview_pNext m p n q : lview (malter (set_pNext n) p m) q = lview m q.
Proof. view_tac. Qed.
Lemma lview_pLast m p n q : lview (malter (set_pLast n) p m) q = lview m q.
Proof. view_tac. Qed.
Lemma lview_pData m p d q : lview (malter (set_pData d) p m) q = lview m q.
Proof. view_tac. Qed.
Lemma lview_set_h m p x q : lview (malter (set_h x) p m) q = lview m q.
Proof. view_tac. Qed.
Lemma lview_set_len m p x q : lview (malter (set_nKeyLength x) p m) q = lview m q.
Proof. view_tac. Qed.
Lemma lview_set_key m p x q : lview (malter (set_arKey x) p m) q = lview m q.
Proof. view_tac. Qed.

Lemma cview_pNext m p n q : cview (malter (set_pNext n) p m) q = set_next (Some p) n (cview m) q.
Proof. view_tac. Qed.
Lemma cview_pLast m p n q : cview (malter (set_pLast n) p m) q = set_prev (Some p) n (cview m) q.
Proof. view_tac. Qed.
Lemma cview_pListNext m p n q : cview (malter (set_pListNext n) p m) q = cview m q.
Proof. view_tac. Qed.
Lemma cview_pListLast m p n q : cview (malter (set_pListLast n) p m) q = cview m q.
Proof. view_tac. Qed.
Lemma cview_pData m p d q : cview (malter (set_pData d) p m) q = cview m q.
Proof. view_tac. Qed.
Lemma cview_set_h m p x q : cview (malter (set_h x) p m) q = cview m q.
Proof. view_tac. Qed.
Lemma cview_set_len m p x q : cview (malter (set_nKeyLength x) p m) q = cview m q.
Proof. view_tac. Qed.
Lemma cview_set_key m p x q : cview (malter (set_arKey x) p m) q = cview m q.
Proof. view_tac. Qed.

Lemma core_pNext m p n q : core (malter (set_pNext n) p m) q = core m q.
Proof. view_tac. Qed.
Lemma core_pLast m p n q : core (malter (set_pLast n) p m) q = core m q.
Proof. view_tac. Qed.
Lemma core_pListNext m p n q : core (malter (set_pListNext n) p m) q = core m q.
Proof. view_tac. Qed.
Lemma core_pListLast m p n q : core (malter (set_pListLast n) p m) q = core m q.
Proof. view_tac. Qed.

(** Assignments to a field of the core. *)
Lemma core_malter m p f g q :
  (∀ b, core_of (f b) = g (core_of b)) →
  core (malter f p m) q = if decide (p = q) then g <$> core m q else core m q.
Proof.
  intros Hfg. unfold core, malter. simpl. rewrite lookup_alter.
  case_decide; [subst|done]. destruct (heap m !! q); simpl; by rewrite ?Hfg.
Qed.

(** Deallocation and calls. *)
Lemma lview_delete m p e q :
  lview (mkMem (delete p (heap m)) e) q = if decide (q = p) then None else lview m q.
Proof. unfold lview. simpl. case_decide; by simplify_map_eq. Qed.
Lemma cview_delete m p e q :
  cview (mkMem (delete p (heap m)) e) q = if decide (q = p) then None else cview m q.
Proof. unfold cview. simpl. case_decide; by simplify_map_eq. Qed.
Lemma core_delete m p e q :
  core (mkMem (delete p (heap m)) e) q = if decide (q = p) then None else core m q.
Proof. unfold core. simpl. case_decide; by simplify_map_eq. Qed.

Lemma lview_call m e q : lview (call m e) q = lview m q.
Proof. done. Qed.
Lemma cview_call m e q : cview (call m e) q = cview m q.
Proof. done. Qed.
Lemma core_call m e q : core (call m e) q = core m q.
Proof. done. Qed.

(** [if (q) q->field = ...], in a list where a non-NULL [q] is live. *)
Definition malter_opt (o : nptr) (f : Bucket V → Bucket V) m : mem V :=
  match o with Some q => malter f q m | None => m end.

Lemma mstore_opt_live m (o : nptr) f :
  (∀ x, o = Some x → is_Some (core m x)) → mstore_opt m o f = OK (malter_opt o f m).
Proof. destruct o; simpl; [|done]. intros Hq. apply mstore_live. auto. Qed.

Lemma evs_malter_opt f (o : nptr) m : evs (malter_opt o f m) = evs m.
Proof. by destruct o. Qed.

Lemma lview_opt_pListNext m o n q : lview (malter_opt o (set_pListNext n) m) q = set_next o n (lview m) q.
Proof. destruct o; simpl; [apply lview_pListNext|]. by rewrite set_next_None. Qed.
Lemma lview_opt_pListLast m o n q : lview (malter_opt o (set_pListLast n) m) q = set_prev o n (lview m) q.
Proof. destruct o; simpl; [apply lview_pListLast|]. by rewrite set_prev_None. Qed.
Lemma cview_opt_pNext m o n q : cview (malter_opt o (set_pNext n) m) q = set_next o n (cview m) q.
Proof. destruct o; simpl; [apply cview_pNext|]. by rewrite set_next_None. Qed.
Lemma cview_opt_pLast m o n q : cview (malter_opt o (set_pLast n) m) q = set_prev o n (cview m) q.
Proof. destruct o; simpl; [apply cview_pLast|]. by rewrite set_prev_None. Qed.
Lemma lview_opt_pNext m o n q : lview (malter_opt o (set_pNext n) m) q = lview m q.
Proof. destruct o; simpl; [apply lview_pNext|done]. Qed.
Lemma lview_opt_pLast m o n q : lview (malter_opt o (set_pLast n) m) q = lview m q.
Proof. destruct o; simpl; [apply lview_pLast|done]. Qed.
Lemma cview_opt_pListNext m o n q : cview (malter_opt o (set_pListNext n) m) q = cview m q.
Proof. destruct o; simpl; [apply cview_pListNext|done]. Qed.
Lemma cview_opt_pListLast m o n q : cview (malter_opt o (set_pListLast n) m) q = cview m q.
Proof. destruct o; simpl; [apply cview_pListLast|done]. Qed.
Lemma core_opt_pNext m o n q : core (malter_opt o (set_pNext n) m) q = core m q.
Proof. destruct o; simpl; [apply core_pNext|done]. Qed.
Lemma core_opt_pLast m o n q : core (malter_opt o (set_pLast n) m) q = core m q.
Proof. destruct o; simpl; [apply core_pLast|done]. Qed.
Lemma core_opt_pListNext m o n q : core (malter_opt o (set_pListNext n) m) q = core m q.
Proof. destruct o; simpl; [apply core_pListNext|done]. Qed.
Lemma core_opt_pListLast m o n q : core (malter_opt o (set_pListLast n) m) q = core m q.
Proof. destruct o; simpl; [apply core_pListLast|done]. Qed.

End views.
Arguments bcore : clear implicits.

Create Rewrite HintDb views.
#[export] Hint Rewrite @lview_pListNext @lview_pListLast @lview_pNext @lview_pLast @lview_pData
  @lview_set_h @lview_set_len @lview_set_key
  @cview_pNext @cview_pLast @cview_pListNext @cview_pListLast @cview_pData
  @cview_set_h @cview_set_len @cview_set_key
  @core_pNext @core_pLast @core_pListNext @core_pListLast
  @lview_call @cview_call @core_call
  @lview_opt_pListNext @lview_opt_pListLast @cview_opt_pNext @cview_opt_pLast
  @lview_opt_pNext @lview_opt_pLast @cview_opt_pListNext @cview_opt_pListLast
  @core_opt_pNext @core_opt_pLast @core_opt_pListNext @core_opt_pListLast
  @evs_malter @evs_malter_opt : views.
(** Pushes the views through a sequence of assignments. *)
Ltac views := repeat (progress (autorewrite with views; unfold set_next, set_prev)).

(** * The invariant *)

Section inv.
Context {V : Type}.
Implicit Types (m : mem V) (ht : HashTable) (p q : ptr) (l : list ptr).

(** The chain a bucket belongs to. *)
Definition idx m (mask : Z) p : option Z := (λ c, Z.land (c_h c) mask) <$> core m p.

(** Slot [i] heads a chain of exactly the buckets of [l] that hash to it. *)
Definition chain_ok m (mask : Z) (slots : list nptr) l (i : Z) : Prop :=
  ∃ c, slots !! Z.to_nat i = Some (hd_or c None) ∧ dll (cview m) c ∧ NoDup c ∧
       ∀ q, q ∈ c ↔ q ∈ l ∧ idx m mask q = Some i.

(** The shape of the table: its size is a power of two between 8 and 2^31;
    a zero mask marks a table whose slots are not allocated yet. *)
Definition table_ok ht l : Prop :=
  ∃ k, 3 <= k <= 31 ∧ nTableSize ht = 2 ^ k ∧
    ((nTableMask ht = 0 ∧ arBuckets ht = [None] ∧ l = []) ∨
     (nTableMask ht = 2 ^ k - 1 ∧ Z.of_nat (length (arBuckets ht)) = 2 ^ k)).

(** The global list. *)
Record list_ok m ht l : Prop := {
  lo_dll : dll (lview m) l;
  lo_nodup : NoDup l;
  lo_head : pListHead ht = hd_or l None;
  lo_tail : pListTail ht = last_or None l;
  lo_num : nNumOfElements ht = Z.of_nat (length l);
  lo_max : Z.of_nat (length l) < 2 ^ 32;
  lo_ip : ∀ p, pInternalPointer ht = Some p → p ∈ l;
}.

Record links_ok m ht l : Prop := {
  lk_list : list_ok m ht l;
  lk_table : table_ok ht l;
  lk_chain : ∀ i, 0 <= i <= nTableMask ht → chain_ok m (nTableMask ht) (arBuckets ht) l i;
}.

(** The fields an operation on the buckets leaves alone. *)
Definition same_conf ht ht' : Prop :=
  nTableSize ht' = nTableSize ht ∧ nTableMask ht' = nTableMask ht ∧
  length (arBuckets ht') = length (arBuckets ht) ∧
  pDestructor ht' = pDestructor ht ∧ persistent ht' = persistent ht ∧
  nApplyCount ht' = nApplyCount ht ∧ bApplyProtection ht' = bApplyProtection ht.

Lemma list_live m ht l p : list_ok m ht l → p ∈ l → is_Some (core m p).
Proof.
  intros Hl Hp. destruct (dseg_live _ _ _ _ _ (lo_dll _ _ _ Hl) Hp) as [x Hx].
  eapply lview_live, Hx.
Qed.

Lemma list_length_fuel m ht l : list_ok m ht l → (length l < fuel_of m)%nat.
Proof.
  intros Hl. unfold fuel_of. apply Nat.lt_succ_r, live_length; [apply Hl|].
  intros x Hx. destruct (list_live _ _ _ _ Hl Hx) as [c Hc].
  unfold core in Hc. destruct (heap m !! x); naive_solver.
Qed.

Lemma mask_range ht l hv : table_ok ht l →
  0 <= Z.land hv (nTableMask ht) <= nTableMask ht.
Proof.
  intros (k & Hk & _ & [(-> & _)|(-> & _)]).
  - rewrite Z.land_0_r. lia.
  - pose proof (land_mask_range hv k ltac:(lia)). lia.
Qed.

Lemma mask_slot ht l i : table_ok ht l → 0 <= i <= nTableMask ht →
  (Z.to_nat i < length (arBuckets ht))%nat.
Proof.
  intros (k & Hk & _ & [(Hm & -> & _)|(Hm & Hlen)]) Hi; rewrite Hm in Hi; simpl; lia.
Qed.

Lemma idx_inj m mask p i j : idx m mask p = Some i → idx m mask p = Some j → i = j.
Proof. congruence. Qed.

(** A bucket of the table and the two lists it is on. *)
Lemma links_split m ht l p : links_ok m ht l → p ∈ l →
  ∃ cr l1 l2 c1 c2,
    core m p = Some cr ∧ l = l1 ++ p :: l2 ∧
    lview m p = Some (last_or None l1, hd_or l2 None) ∧
    cview m p = Some (last_or None c1, hd_or c2 None) ∧
    NoDup (c1 ++ p :: c2) ∧ dll (cview m) (c1 ++ p :: c2) ∧
    arBuckets ht !! Z.to_nat (Z.land (c_h cr) (nTableMask ht)) = Some (hd_or (c1 ++ p :: c2) None) ∧
    (∀ q, q ∈ c1 ++ p :: c2 ↔
          q ∈ l ∧ idx m (nTableMask ht) q = Some (Z.land (c_h cr) (nTableMask ht))).
Proof.
  intros Hok Hp. destruct (list_live _ _ _ _ (lk_list _ _ _ Hok) Hp) as [cr Hcr].
  destruct (dll_NoDup_next _ _ _ (lo_dll _ _ _ (lk_list _ _ _ Hok)) Hp) as (l1 & l2 & -> & Hlv).
  destruct (lk_chain _ _ _ Hok (Z.land (c_h cr) (nTableMask ht))) as (c & Hs & Hd & Hnd & Hc).
  { eapply mask_range, Hok. }
  assert (p ∈ c) as Hpc. { apply Hc. split; [done|]. unfold idx. by rewrite Hcr. }
  destruct (dll_NoDup_next _ _ _ Hd Hpc) as (c1 & c2 & -> & Hcv).
  exists cr, l1, l2, c1, c2. auto 10.
Qed.

(** Removing a bucket from its chain leaves a family of chains. *)
Lemma chains_unlink m m' mask slots l l' c1 p c2 i :
  0 <= i →
  (∀ j, 0 <= j <= mask → chain_ok m mask slots l j) →
  NoDup (c1 ++ p :: c2) → dll (cview m) (c1 ++ p :: c2) →
  slots !! Z.to_nat i = Some (hd_or (c1 ++ p :: c2) None) →
  (∀ q, q ∈ c1 ++ p :: c2 ↔ q ∈ l ∧ idx m mask q = Some i) →
  (∀ q, q ∈ l' ↔ q ∈ l ∧ q ≠ p) →
  (∀ q, q ≠ p → core m' q = core m q) →
  (∀ q, q ≠ p → cview m' q = set_prev (hd_or c2 None) (last_or None c1)
                      (set_next (last_or None c1) (hd_or c2 None) (cview m)) q) →
  ∀ j, 0 <= j <= mask →
    chain_ok m' mask (if c1 is [] then <[Z.to_nat i := hd_or c2 None]> slots else slots) l' j.
Proof.
  intros Hi Hch Hnd Hd Hs Hc Hl' Hcore Hcv j Hj.
  assert (∀ q x, q ≠ p → idx m' mask q = Some x ↔ idx m mask q = Some x) as Hidx.
  { intros q x Hq. unfold idx. by rewrite Hcore. }
  destruct (decide (j = i)) as [->|Hne].
  - exists (c1 ++ c2). split_and!.
    + destruct c1; simpl in *; [|done]. apply list_lookup_insert_eq. by eapply lookup_lt_Some.
    + eapply dll_unlink; eauto.
    + apply NoDup_app in Hnd as (? & ? & [? ?]%NoDup_cons). apply NoDup_app. set_solver.
    + intros q. rewrite Hl'. specialize (Hc q).
      apply NoDup_app in Hnd as (? & Hdis & [? ?]%NoDup_cons).
      destruct (decide (q = p)) as [->|]; [set_solver|]. rewrite Hidx by done. set_solver.
  - destruct (Hch j Hj) as (c & Hsj & Hdj & Hndj & Hcj). exists c. split_and!.
    + destruct c1; [|done]. rewrite list_lookup_insert_ne; [done|lia].
    + eapply dseg_ext; [|exact Hdj]. intros q Hq.
      assert (q ∉ c1 ++ p :: c2) as Hq'.
      { rewrite Hc. apply Hcj in Hq as [? ?]. intros [_ ?]. congruence. }
      rewrite Hcv by set_solver. rewrite set_prev_ne, set_next_ne; [done| |].
      * intros ?%last_or_elem. set_solver.
      * intros ?%hd_or_elem. set_solver.
    + done.
    + intros q. rewrite Hl', Hcj. split.
      * intros [Hq Hi']. assert (q ≠ p) as Hqp.
        { intros ->. assert (p ∈ c1 ++ p :: c2) as [_ ?]%Hc by set_solver. congruence. }
        by rewrite Hidx.
      * intros [[Hq Hqp] Hi']. by rewrite <- Hidx.
Qed.

(** * Removing a bucket *)

(** What [i_zend_hash_bucket_delete] leaves behind: [p] unlinked from both of
    its lists and freed, its value destructed, the rest as it was. *)
Record deleted m ht (l1 : list ptr) p (l2 : list ptr) m' ht' : Prop := {
  del_links : links_ok m' ht' (l1 ++ l2);
  del_core : ∀ q, q ≠ p → core m' q = core m q;
  del_gone : heap m' !! p = None;
  del_frame : ∀ q, q ∉ l1 ++ p :: l2 → heap m' !! q = heap m !! q;
  del_conf : same_conf ht ht';
  del_next : nNextFreeElement ht' = nNextFreeElement ht;
  del_ip : pInternalPointer ht' =
    if decide (pInternalPointer ht = Some p) then hd_or l2 None else pInternalPointer ht;
  del_evs : evs m' = evs m ++
    (if pDestructor ht then (λ c, EvDtor (data_of (c_data c))) <$> option_list (core m p) else []);
}.

(** [if (o) o->field = ...; else ht->field = ...;] *)
Lemma store_else (o : nptr) m f (ht1 ht2 : HashTable) :
  (∀ x, o = Some x → is_Some (core m x)) →
  match o with
  | Some q => let* m := mstore m q f in OK (m, ht1)
  | None => OK (m, ht2)
  end = OK (malter_opt o f m, match o with Some _ => ht1 | None => ht2 end).
Proof. destruct o; simpl; [|done]. intros Ho. rewrite mstore_live by auto. done. Qed.

Lemma set_slot_in ht l i n : table_ok ht l → 0 <= i <= nTableMask ht →
  set_slot ht i n = OK (set_arBuckets (<[Z.to_nat i := n]> (arBuckets ht)) ht).
Proof. intros Ht Hi. unfold set_slot. rewrite decide_True; [done|]. by eapply mask_slot. Qed.

Lemma seg_ends_ne (c1 : list ptr) p c2 :
  NoDup (c1 ++ p :: c2) → last_or None c1 ≠ Some p ∧ hd_or c2 None ≠ Some p.
Proof.
  intros (? & Hdis & [? ?]%NoDup_cons)%NoDup_app. split.
  - intros ?%last_or_elem. set_solver.
  - intros ?%hd_or_elem. set_solver.
Qed.

(** The memory and the table after the deletion, as the code computes them. *)
Definition del_mem m (l1 l2 c1 c2 : list ptr) : mem V :=
  malter_opt (hd_or l2 None) (set_pListLast (last_or None l1))
    (malter_opt (last_or None l1) (set_pListNext (hd_or l2 None))
      (malter_opt (hd_or c2 None) (set_pLast (last_or None c1))
        (malter_opt (last_or None c1) (set_pNext (hd_or c2 None)) m))).
Definition del_ht ht i p (l1 l2 c1 c2 : list ptr) : HashTable :=
  let ht := if last_or None c1 is Some _ then ht
            else set_arBuckets (<[Z.to_nat i := hd_or c2 None]> (arBuckets ht)) ht in
  let ht := if last_or None l1 is Some _ then ht else set_pListHead (hd_or l2 None) ht in
  let ht := if hd_or l2 None is Some _ then ht else set_pListTail (last_or None l1) ht in
  let ht := if decide (pInternalPointer ht = Some p)
            then set_pInternalPointer (hd_or l2 None) ht else ht in
  set_nNumOfElements (uint_wrap (nNumOfElements ht - 1)) ht.

Lemma bucket_delete_run m ht l1 p l2 c1 c2 cr :
  table_ok ht (l1 ++ p :: l2) → core m p = Some cr →
  NoDup (l1 ++ p :: l2) → NoDup (c1 ++ p :: c2) →
  dll (lview m) (l1 ++ p :: l2) → dll (cview m) (c1 ++ p :: c2) →
  i_zend_hash_bucket_delete m ht p =
    OK (mkMem (delete p (heap (del_mem m l1 l2 c1 c2)))
              (evs m ++ if pDestructor ht then [EvDtor (data_of (c_data cr))] else []),
        del_ht ht (Z.land (c_h cr) (nTableMask ht)) p l1 l2 c1 c2).
Proof.
  intros Ht Hcr Hndl Hndc Hdl Hdc.
  pose proof (dseg_lookup _ _ _ _ _ _ Hdl) as Hlv.
  pose proof (dseg_lookup _ _ _ _ _ _ Hdc) as Hcv.
  destruct (seg_ends_ne _ _ _ Hndl) as [Hl1 Hl2]. destruct (seg_ends_ne _ _ _ Hndc) as [Hc1 Hc2].
  assert (∀ x, last_or None c1 = Some x → is_Some (core m x)) as Lc1.
  { intros x Hx%last_or_elem. destruct (dseg_live _ _ _ _ x Hdc) as [? ?%cview_live]; set_solver. }
  assert (∀ x, hd_or c2 None = Some x → is_Some (core m x)) as Lc2.
  { intros x Hx%hd_or_elem. destruct (dseg_live _ _ _ _ x Hdc) as [? ?%cview_live]; set_solver. }
  assert (∀ x, last_or None l1 = Some x → is_Some (core m x)) as Ll1.
  { intros x Hx%last_or_elem. destruct (dseg_live _ _ _ _ x Hdl) as [? ?%lview_live]; set_solver. }
  assert (∀ x, hd_or l2 None = Some x → is_Some (core m x)) as Ll2.
  { intros x Hx%hd_or_elem. destruct (dseg_live _ _ _ _ x Hdl) as [? ?%lview_live]; set_solver. }
  pose proof (λ m', deref_views m' p cr (last_or None l1) (hd_or l2 None)
                      (last_or None c1) (hd_or c2 None)) as Hderef.
  unfold i_zend_hash_bucket_delete.
  rewrite (Hderef m) by done. simpl.
  rewrite (set_slot_in _ _ _ _ Ht) by (by eapply mask_range). simpl.
  rewrite store_else by done. simpl.
  rewrite Hderef by (views; by rewrite ?decide_False). simpl.
  rewrite mstore_opt_live by (intros; views; auto). simpl.
  rewrite Hderef by (views; by rewrite ?decide_False). simpl.
  rewrite store_else by (intros; views; auto). simpl.
  rewrite Hderef by (views; by rewrite ?decide_False). simpl.
  rewrite store_else by (intros; views; auto). simpl.
  rewrite Hderef by (views; by rewrite ?decide_False). simpl.
  fold (del_mem m l1 l2 c1 c2).
  assert (is_Some (core (del_mem m l1 l2 c1 c2) p)) as Lp.
  { unfold del_mem. views. rewrite Hcr. eauto. }
  assert (evs (del_mem m l1 l2 c1 c2) = evs m) as Hev by (unfold del_mem; by views).
  set (H3 := pDestructor _).
  assert (H3 = pDestructor ht) as ->.
  { subst H3. by destruct (last_or None c1), (last_or None l1), (hd_or l2 None); case_decide. }
  unfold del_ht.
  destruct (pDestructor ht); rewrite mfree_live by (by views); simpl; rewrite Hev, ?app_nil_r; done.
Qed.

Lemma del_ht_fields ht i p l1 l2 c1 c2 :
  let ht' := del_ht ht i p l1 l2 c1 c2 in
  same_conf ht ht' ∧ nNextFreeElement ht' = nNextFreeElement ht ∧
  nNumOfElements ht' = uint_wrap (nNumOfElements ht - 1) ∧
  pInternalPointer ht' = (if decide (pInternalPointer ht = Some p) then hd_or l2 None
                          else pInternalPointer ht) ∧
  pListHead ht' = (if last_or None l1 is Some _ then pListHead ht else hd_or l2 None) ∧
  pListTail ht' = (if hd_or l2 None is Some _ then pListTail ht else last_or None l1) ∧
  arBuckets ht' = (if last_or None c1 is Some _ then arBuckets ht
                   else <[Z.to_nat i := hd_or c2 None]> (arBuckets ht)).
Proof.
  unfold del_ht, same_conf.
  destruct (last_or None c1), (last_or None l1), (hd_or l2 None); simpl; case_decide; simpl;
    rewrite ?length_insert; by split_and!.
Qed.

Lemma table_ok_conf ht ht' l l' : same_conf ht ht' → l ≠ [] → table_ok ht l → table_ok ht' l'.
Proof.
  intros (Hs & Hm & Hl & _) Hne (k & Hk & Hs' & [(_ & _ & ?)|[Hm' Hl']]); [done|].
  exists k. split; [done|]. split; [congruence|]. right. rewrite Hm, Hl. done.
Qed.

Lemma bucket_delete_ok m ht l1 p l2 :
  links_ok m ht (l1 ++ p :: l2) →
  ∃ m' ht', i_zend_hash_bucket_delete m ht p = OK (m', ht') ∧ deleted m ht l1 p l2 m' ht'.
Proof.
  intros Hok. pose proof (lk_list _ _ _ Hok) as Hl. pose proof (lk_table _ _ _ Hok) as Ht.
  pose proof (lo_nodup _ _ _ Hl) as Hnd.
  destruct (links_split _ _ _ p Hok ltac:(set_solver))
    as (cr & l1' & l2' & c1 & c2 & Hcr & _ & _ & _ & Hndc & Hdc & Hs & Hc).
  eexists _, _. split.
  { by apply (bucket_delete_run m ht l1 p l2 c1 c2 cr); try apply Hl. }
  set (i := Z.land (c_h cr) (nTableMask ht)) in *.
  destruct (del_ht_fields ht i p l1 l2 c1 c2) as (Hconf & Hnx & Hnum & Hip & Hhd & Htl & Hab).
  set (ht' := del_ht ht i p l1 l2 c1 c2) in *. simpl in Hconf.
  set (m' := mkMem _ _).
  assert (∀ q, q ≠ p → core m' q = core m q) as Hcore.
  { intros q Hq. unfold m'. rewrite core_delete, decide_False by done. unfold del_mem. by views. }
  assert (∀ q, q ≠ p → lview m' q = set_prev (hd_or l2 None) (last_or None l1)
                 (set_next (last_or None l1) (hd_or l2 None) (lview m)) q) as Hlv.
  { intros q Hq. unfold m'. rewrite lview_delete, decide_False by done. unfold del_mem. by views. }
  assert (∀ q, q ≠ p → cview m' q = set_prev (hd_or c2 None) (last_or None c1)
                 (set_next (last_or None c1) (hd_or c2 None) (cview m)) q) as Hcv.
  { intros q Hq. unfold m'. rewrite cview_delete, decide_False by done. unfold del_mem. by views. }
  pose proof (NoDup_app (l1) (p :: l2)) as [(Hnd1 & Hdis & [Hpl2 Hnd2]%NoDup_cons) _]; [done|].
  assert (∀ q, q ∈ l1 ++ l2 ↔ q ∈ l1 ++ p :: l2 ∧ q ≠ p) as Hmem by set_solver.
  split; try done.
  - split.
    + split.
      * eapply dll_unlink; [done|apply Hl|done].
      * apply NoDup_app. set_solver.
      * rewrite Hhd, (lo_head _ _ _ Hl), last_or_is_nil. by destruct l1.
      * rewrite Htl, (lo_tail _ _ _ Hl), !last_or_app, last_or_cons.
        destruct l2; [done|]. by rewrite !last_or_cons.
      * rewrite Hnum, (lo_num _ _ _ Hl), uint_wrap_id; pose proof (lo_max _ _ _ Hl);
          rewrite !length_app in *; simpl in *; lia.
      * pose proof (lo_max _ _ _ Hl). rewrite !length_app in *; simpl in *; lia.
      * intros x. rewrite Hip. case_decide as E.
        { intros ?%hd_or_elem. set_solver. }
        intros Hx. apply Hmem. split; [by eapply lo_ip|congruence].
    + eapply table_ok_conf; [done| |done]. by destruct l1.
    + destruct Hconf as (_ & -> & _). rewrite Hab, last_or_is_nil.
      eapply chains_unlink; try done; [by eapply mask_range|apply Hok].
  - simpl. by simplify_map_eq.
  - intros q Hq. apply views_ext.
    + apply Hcore. set_solver.
    + rewrite Hlv by set_solver. rewrite set_prev_ne, set_next_ne; [done| |].
      * intros ?%last_or_elem. set_solver.
      * intros ?%hd_or_elem. set_solver.
    + rewrite Hcv by set_solver. rewrite set_prev_ne, set_next_ne; [done| |].
      * intros ?%last_or_elem. apply Hq, (Hc q). set_solver.
      * intros ?%hd_or_elem. apply Hq, (Hc q). set_solver.
  - simpl. rewrite Hcr. done.
Qed.

(** * Linking a bucket *)

Definition connect_mem m (e : ptr) (head : nptr) : mem V :=
  malter_opt head (set_pLast (Some e)) (malter (set_pLast None) e (malter (set_pNext head) e m)).

Lemma connect_bucket_run m e head :
  is_Some (core m e) → (∀ x, head = Some x → is_Some (core m x)) →
  CONNECT_TO_BUCKET_DLLIST m e head = OK (connect_mem m e head).
Proof.
  intros He Hhd. destruct (live_views m e He) as [[[ll ln] Hl] [[cl cn] Hc]].
  destruct He as [c He]. unfold CONNECT_TO_BUCKET_DLLIST.
  rewrite mstore_live by eauto. simpl. rewrite mstore_live by (views; eauto). simpl.
  rewrite (deref_views _ e c ll ln None head).
  - simpl. rewrite mstore_opt_live; [done|]. intros; views; auto.
  - by views.
  - by views.
  - views. rewrite !decide_True, Hc by done. done.
Qed.

Lemma connect_cview m e head q :
  is_Some (core m e) → head ≠ Some e →
  cview (connect_mem m e head) q =
    if decide (q = e) then Some (None, head) else set_prev head (Some e) (cview m) q.
Proof.
  intros He Hhd. destruct (live_views m e He) as [_ [[cl cn] Hc]].
  unfold connect_mem. views. destruct (decide (q = e)) as [->|Hne].
  - rewrite (decide_False (P:=head = Some e)), !decide_True, Hc by done. done.
  - rewrite !(decide_False (P:=Some e = Some q)) by congruence. done.
Qed.
Lemma connect_lview m e head q : lview (connect_mem m e head) q = lview m q.
Proof. unfold connect_mem. by views. Qed.
Lemma connect_core m e head q : core (connect_mem m e head) q = core m q.
Proof. unfold connect_mem. by views. Qed.
Lemma connect_evs m e head : evs (connect_mem m e head) = evs m.
Proof. unfold connect_mem. by views. Qed.

(** Putting a bucket at the head of its chain. *)
Lemma chains_link m mask slots l l' e i head :
  (∀ j, 0 <= j <= mask → chain_ok m mask slots l j) →
  e ∉ l → idx m mask e = Some i → 0 <= i <= mask → slots !! Z.to_nat i = Some head →
  (∀ q, q ∈ l' ↔ q ∈ l ∨ q = e) →
  head ≠ Some e ∧ (∀ x, head = Some x → x ∈ l) ∧
  ∀ j, 0 <= j <= mask → chain_ok (connect_mem m e head) mask (<[Z.to_nat i := Some e]> slots) l' j.
Proof.
  intros Hch He Hi Hi' Hs Hl'.
  destruct (Hch i Hi') as (c & Hsc & Hdc & Hndc & Hc). rewrite Hs in Hsc. injection Hsc as ->.
  assert (∀ x, hd_or c None = Some x → x ∈ l) as Hhl. { intros x ?%hd_or_elem. by apply Hc. }
  assert (e ∉ c) as Hec. { rewrite Hc. naive_solver. }
  assert (hd_or c None ≠ Some e) as Hne. { intros ?%Hhl. done. }
  assert (is_Some (core m e)) as Le. { unfold idx in Hi. destruct (core m e); [eauto|done]. }
  assert (∀ q x, idx (connect_mem m e (hd_or c None)) mask q = Some x ↔ idx m mask q = Some x) as Hidx.
  { intros q x. unfold idx. by rewrite connect_core. }
  split_and!; try done. intros j Hj. destruct (decide (j = i)) as [->|Hji].
  - exists (e :: c). split_and!.
    + apply list_lookup_insert_eq. by eapply lookup_lt_Some.
    + apply (dll_link (cview m) _ [] e c); try done.
      * rewrite connect_cview, decide_True by done. done.
      * intros q Hq. rewrite connect_cview, decide_False by done.
        unfold set_prev. rewrite set_next_None. done.
    + by constructor.
    + intros q. rewrite elem_of_cons, Hc, Hl', Hidx. naive_solver.
  - destruct (Hch j Hj) as (cj & Hsj & Hdj & Hndj & Hcj). exists cj. split_and!.
    + rewrite list_lookup_insert_ne; [done|lia].
    + eapply dseg_ext; [|exact Hdj]. intros q [Hql Hqi]%Hcj.
      rewrite connect_cview by done. rewrite decide_False by congruence.
      apply set_prev_ne. intros [_ ?]%hd_or_elem%Hc. congruence.
    + done.
    + intros q. rewrite Hcj, Hl', Hidx. naive_solver congruence.
Qed.

(** * Rehashing *)

(** Heaps that differ in the links of the chains of [l] only. *)
Definition same_but_chains m m' l : Prop :=
  (∀ q, lview m' q = lview m q) ∧ (∀ q, core m' q = core m q) ∧ evs m' = evs m ∧
  (∀ q, q ∉ l → cview m' q = cview m q).

Lemma same_but_chains_frame m m' l q :
  same_but_chains m m' l → q ∉ l → heap m' !! q = heap m !! q.
Proof. intros (Hl & Hc & _ & Hcv) Hq. apply views_ext; auto. Qed.

Lemma same_but_chains_trans m1 m2 m3 l :
  same_but_chains m1 m2 l → same_but_chains m2 m3 l → same_but_chains m1 m3 l.
Proof.
  intros (Hl & Hc & He & Hv) (Hl' & Hc' & He' & Hv'). split_and!; intros; try congruence.
  rewrite Hv', Hv by done. done.
Qed.

Lemma connect_same_but_chains m e head l :
  e ∈ l → (∀ x, head = Some x → x ∈ l) → head ≠ Some e → is_Some (core m e) →
  same_but_chains m (connect_mem m e head) l.
Proof.
  intros He Hhd Hne Le. split_and!.
  - intros q. apply connect_lview.
  - intros q. apply connect_core.
  - apply connect_evs.
  - intros q Hq. rewrite connect_cview by done. rewrite decide_False by set_solver.
    apply set_prev_ne. intros ?%Hhd. done.
Qed.

(** In the chains of [l], a bucket comes before those that [l] has before it. *)
Definition newest_first m l : Prop := ∀ p pr nx,
  p ∈ l → cview m p = Some (pr, Some nx) → ∃ l1 l2, l = l1 ++ p :: l2 ∧ nx ∈ l1.

Lemma connect_newest_first m e head l :
  e ∉ l → is_Some (core m e) → head ≠ Some e → (∀ x, head = Some x → x ∈ l) →
  newest_first m l → newest_first (connect_mem m e head) (l ++ [e]).
Proof.
  intros He Le Hne Hhd Hl p pr nx Hp. rewrite connect_cview by done. case_decide as Hpe.
  - intros [= <- Hnx]. subst. exists l, []. auto.
  - apply elem_of_app in Hp as [Hp|?%list_elem_of_singleton]; [|done]. intros Hcv.
    assert (∃ pr', cview m p = Some (pr', Some nx)) as [pr' Hcv'].
    { revert Hcv. unfold set_prev. case_decide; [|eauto]. destruct (cview m p) as [[a b]|]; [|done]. intros [= ? ->]. eauto. }
    destruct (Hl p pr' nx Hp Hcv') as (l1 & l2 & -> & Hn). exists l1, (l2 ++ [e]). by rewrite <- app_assoc.
Qed.

Lemma rehash_loop_ok fuel m ht l1 l2 :
  list_ok m ht (l1 ++ l2) → (length l2 < fuel)%nat →
  (∀ i, 0 <= i <= nTableMask ht → (Z.to_nat i < length (arBuckets ht))%nat) →
  (∀ hv, 0 <= Z.land hv (nTableMask ht) <= nTableMask ht) →
  (∀ i, 0 <= i <= nTableMask ht → chain_ok m (nTableMask ht) (arBuckets ht) l1 i) →
  ∃ m' slots', rehash_loop fuel m ht (hd_or l2 None) = OK (m', set_arBuckets slots' ht) ∧
    same_but_chains m m' (l1 ++ l2) ∧ length slots' = length (arBuckets ht) ∧
    (newest_first m l1 → newest_first m' (l1 ++ l2)) ∧
    ∀ i, 0 <= i <= nTableMask ht → chain_ok m' (nTableMask ht) slots' (l1 ++ l2) i.
Proof.
  revert fuel m ht l1. induction l2 as [|e l2 IH]; intros fuel m ht l1 Hl Hfuel Hlen Hmask Hch.
  - exists m, (arBuckets ht). rewrite app_nil_r. destruct fuel; simpl.
    all: split_and!; try done; by destruct ht.
  - destruct fuel as [|fuel]; simpl in Hfuel; [lia|].
    destruct (list_live _ _ _ e Hl ltac:(set_solver)) as [c Hc].
    pose proof (dseg_lookup _ _ _ _ _ _ (lo_dll _ _ _ Hl)) as Hlv.
    destruct (live_views m e (mk_is_Some _ _ Hc)) as [_ [[cl cn] Hcv]].
    simpl. rewrite (deref_views _ _ _ _ _ _ _ Hc Hlv Hcv). simpl.
    set (i := Z.land (c_h c) (nTableMask ht)).
    assert (0 <= i <= nTableMask ht) as Hi by apply Hmask.
    destruct (lookup_lt_is_Some_2 (arBuckets ht) (Z.to_nat i)) as [head Hhead]; [auto|].
    unfold slot. rewrite Hhead. simpl.
    assert (NoDup (l1 ++ e :: l2)) as Hnd by apply Hl.
    destruct (chains_link m (nTableMask ht) (arBuckets ht) l1 (l1 ++ [e]) e i head)
      as (Hne & Hhl & Hch'); try done.
    { apply NoDup_app in Hnd. set_solver. }
    { unfold idx. by rewrite Hc. }
    { set_solver. }
    rewrite connect_bucket_run; [|eauto|].
    2: { intros x Hx. eapply list_live; [exact Hl|]. apply Hhl in Hx. set_solver. }
    simpl. unfold set_slot. rewrite decide_True by auto. simpl.
    assert (same_but_chains m (connect_mem m e head) (l1 ++ e :: l2)) as Hsb.
    { apply connect_same_but_chains; try done; [set_solver|].
      intros x ?%Hhl. set_solver. }
    destruct Hsb as (Hsl & Hsc & Hse & Hsv).
    destruct (live_views (connect_mem m e head) e) as [_ [[cl' cn'] Hcv']].
    { rewrite Hsc. eauto. }
    rewrite (deref_views _ e c (last_or None l1) (hd_or l2 None) cl' cn');
      [|by rewrite Hsc|by rewrite Hsl|done]. simpl.
    destruct (IH fuel (connect_mem m e head)
                (set_arBuckets (<[Z.to_nat i := Some e]> (arBuckets ht)) ht) (l1 ++ [e]))
      as (m' & slots' & Hrun & Hsb' & Hlen' & Hnf & Hch''); rewrite <- ?app_assoc in *; simpl in *;
      try done.
    { destruct Hl. split; try done. eapply dseg_ext; [|done]. auto. }
    { lia. }
    { intros j Hj. rewrite length_insert. auto. }
    rewrite length_insert in Hlen'. exists m', slots'.
    split_and!; try done; [eapply same_but_chains_trans; [|done]; by split_and!|].
    intros Hl1. apply Hnf, connect_newest_first; eauto. apply NoDup_app in Hnd. set_solver.
Qed.

End inv.
