(* ===== verification/ZendHashOps.v ===== *)
(** Searching, growing and inserting: the operations of zend_hash.c on a
    table that satisfies its representation invariant.  The lemmas here are
    about pointers; what they mean for the keys and values of the table is in
    ZendHashDict. *)

From S2P Require Import Prelude Dll ZendHash ZendHashInv.

Section ops.
Context {V : Type} `{PEMalloc}.
Implicit Types (m : mem V) (ht : HashTable) (p q : ptr) (l : list ptr).

(** * Searching a chain *)

Definition passes m (test : Bucket V → bool) p : Prop :=
  ∃ b, heap m !! p = Some b ∧ test b = true.

Lemma chain_search_seg fuel test m (o : nptr) c :
  dseg (cview m) o c None → (length c < fuel)%nat →
  ∃ r, chain_search fuel test m (hd_or c None) = OK r ∧
    match r with
    | Some p => p ∈ c ∧ passes m test p
    | None => ∀ p, p ∈ c → ¬ passes m test p
    end.
Proof.
  revert fuel o. induction c as [|x c IH]; intros fuel o Hd Hf; simpl in *.
  - exists None. destruct fuel; split; set_solver.
  - destruct fuel as [|fuel]; [lia|]. destruct Hd as [Hx Hd].
    unfold cview in Hx. destruct (heap m !! x) as [b|] eqn:Hb; [|done]. simpl in Hx.
    simpl. unfold deref. rewrite Hb. simpl. destruct (test b) eqn:Ht.
    + exists (Some x). split; [done|]. split; [set_solver|]. by exists b.
    + injection Hx as _ ->.
      destruct (IH fuel (Some x) Hd ltac:(lia)) as (r & -> & Hr). exists r. split; [done|].
      destruct r as [p|].
      * destruct Hr. split; [set_solver|done].
      * intros p [->|Hp]%elem_of_cons; [|by apply Hr]. intros (b' & ? & ?). congruence.
Qed.

Lemma search_ok m ht l hv test :
  links_ok m ht l →
  ∃ head r, slot ht (Z.land hv (nTableMask ht)) = OK head ∧
    chain_search (fuel_of m) test m head = OK r ∧
    match r with
    | Some p => p ∈ l ∧ passes m test p
    | None => ∀ p, p ∈ l → idx m (nTableMask ht) p = Some (Z.land hv (nTableMask ht)) →
                   ¬ passes m test p
    end.
Proof.
  intros Hok. destruct (lk_chain _ _ _ Hok (Z.land hv (nTableMask ht))) as (c & Hs & Hd & Hnd & Hc).
  { eapply mask_range, Hok. }
  destruct (chain_search_seg (fuel_of m) test m None c Hd) as (r & Hr & Hres).
  { unfold fuel_of. apply Nat.lt_succ_r, live_length; [done|].
    intros x [Hx _]%Hc. destruct (list_live _ _ _ _ (lk_list _ _ _ Hok) Hx) as [y Hy].
    unfold core in Hy. destruct (heap m !! x); [eauto|done]. }
  exists (hd_or c None), r. split; [unfold slot; by rewrite Hs|]. split; [done|].
  destruct r as [p|].
  - destruct Hres as [[? ?]%Hc ?]. done.
  - intros p Hp Hi. apply Hres, Hc. done.
Qed.

(** * Growing the table *)

(** The fields of the table that concern its global list. *)
Definition same_list ht ht' : Prop :=
  nNumOfElements ht' = nNumOfElements ht ∧ nNextFreeElement ht' = nNextFreeElement ht ∧
  pInternalPointer ht' = pInternalPointer ht ∧ pListHead ht' = pListHead ht ∧
  pListTail ht' = pListTail ht ∧ pDestructor ht' = pDestructor ht ∧
  persistent ht' = persistent ht ∧ nApplyCount ht' = nApplyCount ht ∧
  bApplyProtection ht' = bApplyProtection ht.

Lemma list_ok_ext m m' ht ht' l :
  (∀ q, q ∈ l → lview m' q = lview m q) → same_list ht ht' → list_ok m ht l → list_ok m' ht' l.
Proof.
  intros Hlv (Hn & _ & Hip & Hh & Ht & _) []. split; try congruence.
  - by eapply dseg_ext.
  - intros p. rewrite Hip. auto.
Qed.

(** An allocated table, its chains left aside. *)
Definition slots_ok ht : Prop :=
  ∃ k, 3 <= k <= 31 ∧ nTableSize ht = 2 ^ k ∧ nTableMask ht = 2 ^ k - 1 ∧
       Z.of_nat (length (arBuckets ht)) = 2 ^ k.

Lemma slots_table ht l : slots_ok ht → table_ok ht l.
Proof. intros (k & ? & ? & ? & ?). exists k. auto. Qed.

Lemma slots_range ht i : slots_ok ht → 0 <= i <= nTableMask ht →
  (Z.to_nat i < length (arBuckets ht))%nat.
Proof. intros Hs. by apply (mask_slot ht []), slots_table. Qed.
Lemma slots_mask ht hv : slots_ok ht → 0 <= Z.land hv (nTableMask ht) <= nTableMask ht.
Proof. intros Hs. by apply (mask_range ht []), slots_table. Qed.

(** Empty slots are the chains of an empty list. *)
Lemma chains_nil m mask n i :
  (Z.to_nat i < n)%nat → chain_ok m mask (replicate n None) [] i.
Proof.
  intros Hi. exists []. split_and!; try done; [|constructor|set_solver].
  by apply lookup_replicate_2.
Qed.

Lemma rehash_ok m ht l :
  list_ok m ht l → slots_ok ht → l ≠ [] →
  ∃ m' ht', zend_hash_rehash m ht = OK (m', ht') ∧ same_but_chains m m' l ∧
    same_list ht ht' ∧ same_conf ht ht' ∧ slots_ok ht' ∧ links_ok m' ht' l ∧ newest_first m' l.
Proof.
  intros Hl (k & Hk & Hsz & Hm & Hlen) Hne. unfold zend_hash_rehash.
  rewrite (proj2 (Z.eqb_neq _ _)); [|rewrite (lo_num _ _ _ Hl); destruct l; [done|simpl; lia]].
  rewrite (lo_head _ _ _ Hl).
  assert (Z.to_nat (2 ^ k) = length (arBuckets ht)) as Hn by lia.
  destruct (rehash_loop_ok (fuel_of m) m (clear_slots ht) [] l)
    as (m' & slots & Hrun & Hsb & Hlen' & Hnf & Hch); simpl.
  - eapply (list_ok_ext m m ht); [done|by split_and!|done].
  - by eapply list_length_fuel.
  - intros i. rewrite Hm, length_replicate. lia.
  - intros hv. rewrite Hm. pose proof (land_mask_range hv k ltac:(lia)). lia.
  - intros i Hi. apply chains_nil. rewrite Hm in Hi. lia.
  - simpl in *. rewrite length_replicate in Hlen'.
    eexists _, _. split; [done|]. split; [done|].
    assert (same_list ht (set_arBuckets slots (clear_slots ht))) as Hsl by done.
    assert (slots_ok (set_arBuckets slots (clear_slots ht))) as Hso.
    { exists k. simpl. split_and!; try done; lia. }
    split_and!; try done.
    + split_and!; try done. simpl. rewrite Hlen', Hsz. done.
    + split.
      * eapply list_ok_ext; [|done|done]. intros q _. apply Hsb.
      * by apply slots_table.
      * done.
    + apply Hnf. intros p pr nx Hp. by apply elem_of_nil in Hp.
Qed.

Record resized m ht l m' ht' : Prop := {
  rs_mem : same_but_chains m m' l;
  rs_same : same_list ht ht';
  rs_slots : slots_ok ht';
  rs_list : list_ok m' ht' l;
  rs_links : links_ok m ht l → links_ok m' ht' l;
}.

Lemma same_but_chains_refl m l : same_but_chains m m l.
Proof. by split_and!. Qed.

Lemma do_resize_ok m ht l :
  list_ok m ht l → slots_ok ht → l ≠ [] →
  ∃ m' ht', zend_hash_do_resize m ht = OK (m', ht') ∧ resized m ht l m' ht'.
Proof.
  intros Hl Hs Hne. pose proof Hs as (k & Hk & Hsz & Hm & Hlen).
  unfold zend_hash_do_resize. rewrite Hsz, Z.shiftl_mul_pow2 by lia. rewrite Z.pow_1_r.
  destruct (decide (k = 31)) as [->|Hk31].
  - change (0 <? uint_wrap (2 ^ 31 * 2)) with false. exists m, ht. split; [done|].
    by split.
  - assert (2 ^ k * 2 = 2 ^ (k + 1)) as E by (rewrite Z.pow_add_r; lia).
    assert (2 ^ (k + 1) <= 2 ^ 31) as Hle by (apply Z.pow_le_mono_r; lia).
    assert (0 < 2 ^ (k + 1)) as Hpos by (apply Z.pow_pos_nonneg; lia).
    rewrite E, uint_wrap_id by lia. rewrite (proj2 (Z.ltb_lt _ _)) by lia.
    destruct (rehash_ok m (set_nTable (2 ^ (k + 1)) (2 ^ (k + 1) - 1)
        (arBuckets ht ++ replicate (Z.to_nat (2 ^ (k + 1)) - length (arBuckets ht))%nat garbage) ht) l)
      as (m' & ht' & Hrun & Hsb & Hsl & Hsc & Hso & Hok & _); try done.
    { eapply (list_ok_ext m m ht); [done|by split_and!|done]. }
    { exists (k + 1). simpl. split_and!; try lia. rewrite length_app, length_replicate. lia. }
    exists m', ht'. split; [done|]. split; try done. apply Hok.
Qed.

Lemma if_full_resize_ok m ht l :
  list_ok m ht l → slots_ok ht → l ≠ [] →
  ∃ m' ht', ZEND_HASH_IF_FULL_DO_RESIZE m ht = OK (m', ht') ∧ resized m ht l m' ht'.
Proof.
  intros Hl Hs Hne. unfold ZEND_HASH_IF_FULL_DO_RESIZE.
  destruct (_ <? _); [by apply do_resize_ok|].
  exists m, ht. split; [done|]. by split.
Qed.

(** * Linking into the global list *)

Definition gconnect_mem m e (last next : nptr) : mem V :=
  malter_opt next (set_pListLast (Some e))
    (malter_opt last (set_pListNext (Some e))
      (malter (set_pListNext next) e (malter (set_pListLast last) e m))).
Definition gconnect_ht ht e (last next : nptr) : HashTable :=
  let ht := if last is Some _ then ht else set_pListHead (Some e) ht in
  if next is Some _ then ht else set_pListTail (Some e) ht.

Lemma connect_global_run m ht e last next :
  is_Some (core m e) → (∀ x, last = Some x → is_Some (core m x)) →
  (∀ x, next = Some x → is_Some (core m x)) →
  CONNECT_TO_GLOBAL_DLLIST_EX m ht e last next =
    OK (gconnect_mem m e last next, gconnect_ht ht e last next).
Proof.
  intros He Hla Hn. unfold CONNECT_TO_GLOBAL_DLLIST_EX.
  rewrite mstore_live by done. simpl. rewrite mstore_live by (by views). simpl.
  rewrite store_else by (intros; views; auto). simpl.
  rewrite store_else by (intros; views; auto). done.
Qed.

Lemma gconnect_lview m e last next q :
  is_Some (core m e) → last ≠ Some e → next ≠ Some e →
  lview (gconnect_mem m e last next) q =
    if decide (q = e) then Some (last, next)
    else set_prev next (Some e) (set_next last (Some e) (lview m)) q.
Proof.
  intros He Hla Hn. destruct (live_views m e He) as [[[ll ln] Hl] _].
  unfold gconnect_mem. views. destruct (decide (q = e)) as [->|Hne].
  - rewrite (decide_False (P:=next = Some e)), (decide_False (P:=last = Some e)) by done.
    rewrite !decide_True, Hl by done. done.
  - rewrite !(decide_False (P:=Some e = Some q)) by congruence. done.
Qed.
Lemma gconnect_cview m e last next q : cview (gconnect_mem m e last next) q = cview m q.
Proof. unfold gconnect_mem. by views. Qed.
Lemma gconnect_core m e last next q : core (gconnect_mem m e last next) q = core m q.
Proof. unfold gconnect_mem. by views. Qed.
Lemma gconnect_evs m e last next : evs (gconnect_mem m e last next) = evs m.
Proof. unfold gconnect_mem. by views. Qed.

(** * A new bucket *)

Definition fresh_ptr m : ptr := pemalloc (dom (heap m)).
Definition new_mem m hv len d (k : ptr → option zstr) : mem V := (new_bucket m hv len d k).1.

Lemma fresh_ptr_dead m : heap m !! fresh_ptr m = None.
Proof. apply not_elem_of_dom, pemalloc_fresh. Qed.
Lemma fresh_ptr_core m : core m (fresh_ptr m) = None.
Proof. unfold core. by rewrite fresh_ptr_dead. Qed.

Lemma new_core m hv len d k q :
  core (new_mem m hv len d k) q =
    if decide (q = fresh_ptr m) then Some (mkCore hv len d (k (fresh_ptr m))) else core m q.
Proof. unfold core, new_mem. simpl. case_decide; subst; simplify_map_eq; done. Qed.
Lemma new_lview m hv len d k q :
  lview (new_mem m hv len d k) q =
    if decide (q = fresh_ptr m) then Some (garbage, garbage) else lview m q.
Proof. unfold lview, new_mem. simpl. case_decide; subst; simplify_map_eq; done. Qed.
Lemma new_cview m hv len d k q :
  cview (new_mem m hv len d k) q =
    if decide (q = fresh_ptr m) then Some (garbage, garbage) else cview m q.
Proof. unfold cview, new_mem. simpl. case_decide; subst; simplify_map_eq; done. Qed.

(** A bucket that is not live is on no list. *)
Lemma fresh_not_in m ht l : list_ok m ht l → fresh_ptr m ∉ l.
Proof.
  intros Hl Hin. destruct (list_live _ _ _ _ Hl Hin) as [c Hc].
  by rewrite fresh_ptr_core in Hc.
Qed.

Lemma idx_ext m m' mask q : core m' q = core m q → idx m' mask q = idx m mask q.
Proof. unfold idx. by intros ->. Qed.

Lemma chain_ok_ext m m' mask slots l i :
  (∀ q, q ∈ l → cview m' q = cview m q) → (∀ q, q ∈ l → core m' q = core m q) →
  chain_ok m mask slots l i → chain_ok m' mask slots l i.
Proof.
  intros Hcv Hc (c & Hs & Hd & Hnd & Hm). exists c. split_and!; try done.
  - eapply dseg_ext; [|done]. intros q [? _]%Hm. auto.
  - intros q. rewrite Hm. split; intros [? ?]; (split; [done|]).
    + rewrite (idx_ext m); auto.
    + rewrite <- (idx_ext m m'); auto.
Qed.

(** The table with a new bucket linked at the end of the list and at the head
    of its chain. *)
Definition link_mem m ht hv len d k (head : nptr) : mem V :=
  gconnect_mem (connect_mem (new_mem m hv len d k) (fresh_ptr m) head) (fresh_ptr m)
    (pListTail ht) None.
Definition link_ht ht p (i : Z) : HashTable :=
  let ht := set_arBuckets (<[Z.to_nat i := Some p]> (arBuckets ht)) (gconnect_ht ht p (pListTail ht) None) in
  if pInternalPointer ht is None then set_pInternalPointer (Some p) ht else ht.

Lemma link_new_run m ht l hv len d k :
  links_ok m ht l → slots_ok ht →
  let p := fresh_ptr m in let i := Z.land hv (nTableMask ht) in
  ∃ head, slot ht i = OK head ∧
    head ≠ Some p ∧ (∀ x, head = Some x → x ∈ l) ∧
    CONNECT_TO_BUCKET_DLLIST (new_mem m hv len d k) p head
      = OK (connect_mem (new_mem m hv len d k) p head) ∧
    (∃ ht1, CONNECT_TO_GLOBAL_DLLIST (connect_mem (new_mem m hv len d k) p head) ht p
       = OK (link_mem m ht hv len d k head, ht1) ∧ set_slot ht1 i (Some p) = OK (link_ht ht p i)) ∧
    (∃ ht1, set_slot ht i (Some p) = OK ht1 ∧
       CONNECT_TO_GLOBAL_DLLIST (connect_mem (new_mem m hv len d k) p head) ht1 p
       = OK (link_mem m ht hv len d k head, link_ht ht p i)) ∧
    (∀ j, 0 <= j <= nTableMask ht →
       chain_ok (connect_mem (new_mem m hv len d k) p head) (nTableMask ht)
         (<[Z.to_nat i := Some p]> (arBuckets ht)) (l ++ [p]) j).
Proof.
  intros Hok Hs p i. pose proof (lk_list _ _ _ Hok) as Hl.
  pose proof (fresh_not_in _ _ _ Hl) as Hfr. fold p in Hfr.
  assert (0 <= i <= nTableMask ht) as Hi by (by apply slots_mask).
  destruct (lookup_lt_is_Some_2 (arBuckets ht) (Z.to_nat i)) as [head Hhead];
    [by apply slots_range|].
  assert (∀ q, q ∈ l → core (new_mem m hv len d k) q = core m q) as Hcq.
  { intros q Hq. rewrite new_core, decide_False; [done|]. fold p. set_solver. }
  destruct (chains_link (new_mem m hv len d k) (nTableMask ht) (arBuckets ht) l (l ++ [p]) p i head)
    as (Hne & Hhl & Hch); try done.
  { intros j Hj. eapply chain_ok_ext; [|exact Hcq|by apply Hok].
    intros q Hq. rewrite new_cview, decide_False; [done|]. fold p. set_solver. }
  { unfold idx. rewrite new_core, decide_True by done. done. }
  { set_solver. }
  assert (is_Some (core (new_mem m hv len d k) p)) as Lp.
  { rewrite new_core, decide_True by done. eauto. }
  assert (∀ x, pListTail ht = Some x → is_Some (core (new_mem m hv len d k) x)) as Lt.
  { intros x. rewrite (lo_tail _ _ _ Hl). intros Hx%last_or_elem. rewrite Hcq by done.
    by eapply list_live. }
  exists head. split; [unfold slot; by rewrite Hhead|]. split_and!; try done.
  - apply connect_bucket_run; [done|]. intros x Hx. rewrite Hcq by auto.
    eapply list_live; [exact Hl|auto].
  - eexists. split.
    + unfold CONNECT_TO_GLOBAL_DLLIST.
      rewrite connect_global_run by (intros; rewrite ?connect_core; try done; auto). simpl. done.
    + assert ((Z.to_nat i < length (arBuckets ht))%nat) by (by apply slots_range).
      unfold set_slot, link_ht, gconnect_ht.
      destruct (pListTail ht); simpl; destruct (pInternalPointer ht); simpl; by rewrite decide_True.
  - eexists. split.
    + unfold set_slot. rewrite decide_True by (by apply slots_range). done.
    + unfold CONNECT_TO_GLOBAL_DLLIST.
      rewrite connect_global_run by (intros; rewrite ?connect_core; try done; auto). simpl.
      unfold link_mem, gconnect_mem, link_ht, gconnect_ht.
      by destruct (pListTail ht); simpl; destruct (pInternalPointer ht).
Qed.

(** What an insertion leaves behind: the new bucket [p], with contents [c], at
    the end of the list; the rest of the heap as it was. *)
Record inserted m ht l p (c : bcore V) (nf : Z) m' ht' : Prop := {
  ins_next : nNextFreeElement ht' = nf;
  ins_links : links_ok m' ht' (l ++ [p]);
  ins_slots : slots_ok ht';
  ins_dead : heap m !! p = None;
  ins_new : core m' p = Some c;
  ins_core : ∀ q, q ≠ p → core m' q = core m q;
  ins_frame : ∀ q, q ∉ l ++ [p] → heap m' !! q = heap m !! q;
  ins_evs : evs m' = evs m;
  ins_ip : pInternalPointer ht' =
    match pInternalPointer ht with Some x => Some x | None => Some p end;
  ins_dtor : pDestructor ht' = pDestructor ht;
  ins_conf : persistent ht' = persistent ht ∧ nApplyCount ht' = nApplyCount ht ∧
    bApplyProtection ht' = bApplyProtection ht;
}.

Lemma link_ht_fields ht p i :
  let ht' := link_ht ht p i in
  same_conf ht ht' ∧ nNextFreeElement ht' = nNextFreeElement ht ∧
  nNumOfElements ht' = nNumOfElements ht ∧
  pInternalPointer ht' = match pInternalPointer ht with Some x => Some x | None => Some p end ∧
  pListHead ht' = (if pListTail ht is Some _ then pListHead ht else Some p) ∧
  pListTail ht' = Some p ∧ arBuckets ht' = <[Z.to_nat i := Some p]> (arBuckets ht).
Proof.
  unfold link_ht, gconnect_ht, same_conf.
  destruct (pListTail ht); simpl; destruct (pInternalPointer ht) eqn:E; simpl;
    rewrite ?length_insert, ?E; by split_and!.
Qed.

Lemma link_new_ok m ht l hv len d k head nf :
  links_ok m ht l → slots_ok ht → Z.of_nat (length l) + 1 < 2 ^ 32 →
  let p := fresh_ptr m in let i := Z.land hv (nTableMask ht) in
  head ≠ Some p → (∀ x, head = Some x → x ∈ l) →
  (∀ j, 0 <= j <= nTableMask ht →
     chain_ok (connect_mem (new_mem m hv len d k) p head) (nTableMask ht)
       (<[Z.to_nat i := Some p]> (arBuckets ht)) (l ++ [p]) j) →
  let ht1 := link_ht ht p i in
  let ht2 := set_nNumOfElements (uint_wrap (nNumOfElements ht1 + 1)) (set_nNextFreeElement nf ht1) in
  inserted m ht l p (mkCore hv len d (k p)) nf (link_mem m ht hv len d k head) ht2.
Proof.
  intros Hok Hs Hmax p i Hne Hhl Hch ht1 ht2. pose proof (lk_list _ _ _ Hok) as Hl.
  pose proof (fresh_not_in _ _ _ Hl) as Hfr. fold p in Hfr.
  destruct (link_ht_fields ht p i) as (Hconf & Hnf & Hnum & Hip & Hhd & Htl & Hab).
  set (m' := link_mem m ht hv len d k head).
  assert (is_Some (core (new_mem m hv len d k) p)) as Lp.
  { rewrite new_core, decide_True by done. eauto. }
  assert (pListTail ht ≠ Some p) as Htp.
  { rewrite (lo_tail _ _ _ Hl). intros ?%last_or_elem. done. }
  assert (∀ q, core m' q = core (new_mem m hv len d k) q) as Hcore.
  { intros q. unfold m', link_mem. by rewrite gconnect_core, connect_core. }
  assert (∀ q, cview m' q = cview (connect_mem (new_mem m hv len d k) p head) q) as Hcv.
  { intros q. unfold m', link_mem. by rewrite gconnect_cview. }
  assert (∀ q, lview m' q = if decide (q = p) then Some (pListTail ht, None)
                            else set_next (pListTail ht) (Some p) (lview m) q) as Hlv.
  { intros q. unfold m', link_mem.
    rewrite gconnect_lview by (try done; by rewrite connect_core). fold p. case_decide; [done|].
    rewrite set_prev_None. unfold set_next. rewrite !connect_lview, new_lview. fold p.
    by rewrite (decide_False (P:=q = p)). }
  assert (slots_ok ht2) as Hs2.
  { destruct Hs as (kk & ? & ? & ? & ?), Hconf as (E1 & E2 & E3 & _). exists kk. simpl in *.
    unfold ht1. rewrite E1, E2, E3. done. }
  split; try done.
  - split.
    + split.
      * apply (dll_link (lview m) _ l p []).
        -- rewrite app_nil_r. apply Hl.
        -- by rewrite app_nil_r.
        -- rewrite app_nil_r. apply Hl.
        -- rewrite Hlv, decide_True by done. by rewrite (lo_tail _ _ _ Hl).
        -- intros q Hq. rewrite Hlv, decide_False by done. simpl. rewrite set_prev_None.
           by rewrite (lo_tail _ _ _ Hl).
      * apply NoDup_app. split; [apply Hl|]. split; [set_solver|]. apply NoDup_singleton.
      * simpl. unfold ht1. rewrite Hhd, (lo_head _ _ _ Hl), (lo_tail _ _ _ Hl), last_or_is_nil.
        by destruct l.
      * simpl. unfold ht1. by rewrite Htl, last_or_snoc.
      * simpl. unfold ht1. rewrite Hnum, (lo_num _ _ _ Hl), length_app. simpl.
        rewrite uint_wrap_id; lia.
      * rewrite length_app. simpl. lia.
      * intros x. simpl. unfold ht1. rewrite Hip. destruct (pInternalPointer ht) as [y|] eqn:E.
        -- intros [= ->]. apply (lo_ip _ _ _ Hl) in E. set_solver.
        -- intros [= ->]. set_solver.
    + by apply slots_table.
    + simpl. unfold ht1. destruct Hconf as (_ & -> & _). rewrite Hab.
      intros j Hj. eapply chain_ok_ext; [| |by apply Hch].
      * intros q _. apply Hcv.
      * intros q _. by rewrite connect_core, Hcore.
  - apply fresh_ptr_dead.
  - rewrite Hcore, new_core, decide_True by done. done.
  - intros q Hq. by rewrite Hcore, new_core, decide_False.
  - intros q Hq. apply views_ext.
    + rewrite Hcore, new_core, decide_False; [done|]. fold p. set_solver.
    + rewrite Hlv, decide_False by set_solver. apply set_next_ne.
      rewrite (lo_tail _ _ _ Hl). intros ?%last_or_elem. set_solver.
    + rewrite Hcv, connect_cview, decide_False by set_solver.
      unfold set_prev. rewrite decide_False by (intros ?%Hhl; set_solver).
      rewrite new_cview, decide_False; [done|]. fold p. set_solver.
  - unfold m', link_mem. by rewrite gconnect_evs, connect_evs.
  - simpl. unfold ht1. apply Hconf.
  - simpl. unfold ht1. destruct Hconf as (_ & _ & _ & _ & ? & ? & ?). done.
Qed.

(** An insertion is complete after the table had its chance to grow. *)
Lemma inserted_resized m ht l p c nf m1 ht1 m2 ht2 :
  inserted m ht l p c nf m1 ht1 → resized m1 ht1 (l ++ [p]) m2 ht2 → inserted m ht l p c nf m2 ht2.
Proof.
  intros [] []. destruct rs_mem0 as (Hlv & Hc & He & Hcv) eqn:E. clear E.
  destruct rs_same0 as (? & ? & Hip & ? & ? & ? & ? & ? & ?).
  split; auto; try congruence.
  - intros q Hq. rewrite Hc. auto.
  - intros q Hq. erewrite same_but_chains_frame; [auto| |done]. by split_and!.
Qed.

(** [CHECK_INIT] allocates the slots of an empty table. *)
Lemma check_init_ok m ht l :
  links_ok m ht l →
  links_ok m (CHECK_INIT ht) l ∧ slots_ok (CHECK_INIT ht) ∧ same_list ht (CHECK_INIT ht).
Proof.
  intros Hok. unfold CHECK_INIT. destruct (lk_table _ _ _ Hok) as (k & Hk & Hsz & Hcase).
  assert (0 < 2 ^ k) as Hp by (apply Z.pow_pos_nonneg; lia).
  assert (2 ^ 3 <= 2 ^ k) as Hp8 by (apply Z.pow_le_mono_r; lia).
  destruct Hcase as [(Hm & Hab & ->)|(Hm & Hlen)].
  - rewrite Hm, Z.eqb_refl.
    assert (slots_ok (set_nTable (nTableSize ht) (nTableSize ht - 1)
              (replicate (Z.to_nat (nTableSize ht)) None) ht)) as Hs.
    { exists k. simpl. rewrite length_replicate. split_and!; try done; lia. }
    split; [|split; [done|by split_and!]]. split.
    + eapply (list_ok_ext m m ht); [done|by split_and!|apply Hok].
    + by apply slots_table.
    + simpl. intros i Hi. apply chains_nil. lia.
  - rewrite (proj2 (Z.eqb_neq _ _)) by lia. split; [done|]. split; [|by split_and!].
    by exists k.
Qed.

End ops.
