(* ===== verification/ZendHashDict.v ===== *)
(** A HashTable implements an ordered dictionary.

    [Rep] relates the memory and the C struct to the list of its buckets and
    to the dictionary it stands for; the theorems say that the operations of
    zend_hash.c run without undefined behaviour and act on that dictionary
    as OrderedDict specifies, whatever the collisions and the growth of the
    table. *)

From S2P Require Import Prelude Dll OrderedDict ZendHash ZendHashInv ZendHashOps.

Section dict.
Context {V : Type} `{PEMalloc}.
(** The contents of the interned strings, by their address. *)
Context (pool : positive → list Z).
Implicit Types (m : mem V) (ht : HashTable) (p q : ptr) (l : list ptr) (d : list (akey * V)).

(** * Keys *)

Definition str_hash (s : list Z) : Z := zend_inline_hash_func s (Z.of_nat (length s)).

Definition bkey (c : bcore V) : akey :=
  if c_len c =? 0 then KIdx (c_h c) else KStr (from_option zs_val [] (c_key c)).
Definition entry (c : bcore V) : akey * V := (bkey c, data_of (c_data c)).
Definition abs m l : list (akey * V) := omap (λ p, entry <$> core m p) l.

(** The key of a bucket: an index, or a string the bucket shares with the
    interned strings or holds right behind itself. *)
Definition key_ok p (c : bcore V) : Prop :=
  is_ulong (c_h c) ∧
  ((c_len c = 0 ∧ c_key c = None) ∨
   (∃ k, c_key c = Some k ∧ c_len c = Z.of_nat (length (zs_val k)) ∧ 0 < c_len c < 2 ^ 32 ∧
      c_h c = str_hash (zs_val k) ∧
      match zs_addr k with Interned n => zs_val k = pool n | Inline q => q = p | Foreign _ => False end)).

(** A key a caller may pass: its length is the length of its bytes, and when
    it points to an interned string or into a bucket it reads what is there. *)
Definition key_valid m (k : zstr) (len : Z) : Prop :=
  len = Z.of_nat (length (zs_val k)) ∧ 0 < len < 2 ^ 32 ∧
  match zs_addr k with
  | Interned n => zs_val k = pool n
  | Inline q => ∀ c k', core m q = Some c → c_key c = Some k' → zs_addr k' = Inline q →
                        zs_val k' = zs_val k
  | Foreign _ => True
  end.

(** The next free index is beyond every index in use, until it saturates. *)
Definition next_ok (nf : Z) d : Prop :=
  0 <= nf <= LONG_MAX ∧ ∀ h, KIdx h ∈ d.*1 → to_long h < nf ∨ nf = LONG_MAX.

(** The next free index after the insertion of a new key. *)
Definition next_index (nf : Z) (K : akey) : Z :=
  match K with
  | KStr _ => nf
  | KIdx hv => if nf <=? to_long hv then (if hv <? LONG_MAX then hv + 1 else LONG_MAX) else nf
  end.

Record Rep m ht l d : Prop := {
  rep_links : links_ok m ht l;
  rep_keys : ∀ p c, p ∈ l → core m p = Some c → key_ok p c;
  rep_abs : abs m l = d;
  rep_uniq : NoDup d.*1;
  rep_next : next_ok (nNextFreeElement ht) d;
}.

(** ** Facts about the abstraction *)

Lemma abs_app m l1 l2 : abs m (l1 ++ l2) = abs m l1 ++ abs m l2.
Proof. apply omap_app. Qed.

Lemma abs_ext m m' l : (∀ q, q ∈ l → core m' q = core m q) → abs m' l = abs m l.
Proof.
  intros Hc. induction l as [|x l IH]; [done|]. simpl.
  rewrite Hc by set_solver. destruct (core m x); simpl; rewrite IH; set_solver.
Qed.

Lemma abs_cons m p l c : core m p = Some c → abs m (p :: l) = entry c :: abs m l.
Proof. intros Hc. simpl. by rewrite Hc. Qed.

Lemma abs_split m l1 p l2 c :
  core m p = Some c → abs m (l1 ++ p :: l2) = abs m l1 ++ entry c :: abs m l2.
Proof. intros Hc. by rewrite abs_app, (abs_cons _ _ _ _ Hc). Qed.

Lemma abs_key m l k :
  k ∈ (abs m l).*1 ↔ ∃ p c, p ∈ l ∧ core m p = Some c ∧ bkey c = k.
Proof.
  rewrite list_elem_of_fmap. split.
  - intros ([k' v] & -> & (p & Hp & Hc)%list_elem_of_omap).
    destruct (core m p) as [c|] eqn:E; [|done]. injection Hc as <- <-. eauto 10.
  - intros (p & c & Hp & Hc & <-). exists (entry c). split; [done|].
    apply list_elem_of_omap. exists p. by rewrite Hc.
Qed.

Lemma rep_live m ht l d p : Rep m ht l d → p ∈ l → ∃ c, core m p = Some c ∧ key_ok p c.
Proof.
  intros HR Hp. destruct (list_live _ _ _ _ (lk_list _ _ _ (rep_links _ _ _ _ HR)) Hp) as [c Hc].
  exists c. split; [done|]. by eapply rep_keys.
Qed.

Lemma abs_length m ht l d : Rep m ht l d → length d = length l.
Proof.
  intros HR. rewrite <- (rep_abs _ _ _ _ HR).
  assert (∀ p, p ∈ l → is_Some (core m p)) as Hlive.
  { intros p Hp. destruct (rep_live _ _ _ _ _ HR Hp) as (c & -> & _). eauto. }
  clear HR. induction l as [|x l IH]; [done|]. destruct (Hlive x) as [c Hc]; [set_solver|].
  rewrite (abs_cons _ _ _ _ Hc). simpl. rewrite IH; [done|]. intros p Hp. apply Hlive. set_solver.
Qed.

(** The number of elements the table reports. *)
Lemma rep_num m ht l d : Rep m ht l d → zend_hash_num_elements ht = Z.of_nat (length d).
Proof.
  intros HR. rewrite (abs_length _ _ _ _ HR). apply (rep_links _ _ _ _ HR).
Qed.

(** A bucket, its key and the keys before it. *)
Lemma rep_split m ht l d l1 p l2 c :
  Rep m ht l d → l = l1 ++ p :: l2 → core m p = Some c →
  d = abs m l1 ++ entry c :: abs m l2 ∧ bkey c ∉ (abs m l1).*1.
Proof.
  intros HR -> Hc. pose proof (rep_abs _ _ _ _ HR) as E. rewrite (abs_split _ _ _ _ _ Hc) in E.
  split; [done|]. pose proof (rep_uniq _ _ _ _ HR) as Hnd. rewrite <- E, fmap_app in Hnd.
  apply NoDup_app in Hnd as (_ & Hdis & _). intros Hin. apply (Hdis _ Hin). set_solver.
Qed.

(** * The search of the code finds the key of the dictionary *)

Lemma locate m ht l d K hv test :
  Rep m ht l d →
  (∀ p b, p ∈ l → heap m !! p = Some b → key_ok p (core_of b) →
          test b = true ↔ bkey (core_of b) = K) →
  (∀ p c, p ∈ l → key_ok p c → bkey c = K → c_h c = hv) →
  ∃ head r, slot ht (Z.land hv (nTableMask ht)) = OK head ∧
    chain_search (fuel_of m) test m head = OK r ∧
    match r with
    | Some p => ∃ l1 l2 c, l = l1 ++ p :: l2 ∧ core m p = Some c ∧ bkey c = K
    | None => K ∉ d.*1
    end.
Proof.
  intros HR Htest Hh.
  destruct (search_ok m ht l hv test (rep_links _ _ _ _ HR)) as (head & r & Hs & Hr & Hres).
  exists head, r. split; [done|]. split; [done|]. destruct r as [p|].
  - destruct Hres as [Hp (b & Hb & Ht)]. apply list_elem_of_split in Hp as Hp'.
    destruct Hp' as (l1 & l2 & ->).
    destruct (rep_live _ _ _ _ _ HR Hp) as (c & Hc & Hk).
    assert (c = core_of b) as -> by (unfold core in Hc; rewrite Hb in Hc; naive_solver).
    exists l1, l2, (core_of b). split_and!; try done. by eapply Htest.
  - rewrite <- (rep_abs _ _ _ _ HR), abs_key. intros (p & c & Hp & Hc & HK).
    destruct (rep_live _ _ _ _ _ HR Hp) as (c' & Hc' & Hk). simplify_eq.
    apply (Hres p Hp).
    + unfold idx. rewrite Hc. simpl. by erewrite Hh.
    + unfold core in Hc. destruct (heap m !! p) as [b|] eqn:Hb; [|done].
      simpl in Hc. injection Hc as <-. exists b. split; [done|]. by eapply Htest.
Qed.

Lemma key_test_spec m p b k len :
  heap m !! p = Some b → key_ok p (core_of b) → key_valid m k len →
  key_test (Some k) len (str_hash (zs_val k)) b = true ↔ bkey (core_of b) = KStr (zs_val k).
Proof.
  intros Hb [_ Hkey] (-> & Hlen & Haddr). unfold key_test, bkey. simpl.
  destruct Hkey as [[Hz Hn]|(k' & Hk' & Hl' & Hr' & Hh' & Ha')]; simpl in *.
  - rewrite Hz, Hn. simpl. split; [|done]. rewrite !andb_true_iff, !Z.eqb_eq. lia.
  - rewrite Hk', (proj2 (Z.eqb_neq (nKeyLength b) 0)) by lia. simpl. rewrite orb_true_iff. split.
    + intros [Hp|Hm].
      * apply bool_decide_eq_true in Hp. rewrite Hp in Ha'. f_equal.
        destruct (zs_addr k) eqn:Ek; [congruence| |done]. subst b0.
        apply (Haddr (core_of b) k'); [unfold core; by rewrite Hb|done|congruence].
      * apply andb_true_iff in Hm as [[_ Hl]%andb_true_iff Hv]. apply Z.eqb_eq in Hl.
        apply bool_decide_eq_true in Hv. rewrite !take_ge in Hv by lia. by f_equal.
    + intros [= Hv]. right. rewrite Hv, Hh', Hl', Hv, !Z.eqb_refl. simpl. by apply bool_decide_eq_true.
Qed.

Lemma key_hash p c s : key_ok p c → bkey c = KStr s → c_h c = str_hash s.
Proof.
  intros [_ [[Hz _]|(k & Hk & Hl & ? & Hh & _)]]; unfold bkey.
  - by rewrite Hz.
  - rewrite Hk, (proj2 (Z.eqb_neq _ _)) by lia. simpl. intros [= <-]. done.
Qed.

Lemma index_test_spec hv b : index_test hv b = true ↔ bkey (core_of b) = KIdx hv.
Proof.
  unfold index_test, bkey. simpl. rewrite andb_true_iff, !Z.eqb_eq.
  destruct (Z.eqb_spec (nKeyLength b) 0); naive_solver.
Qed.

Lemma index_hash p c hv : key_ok p c → bkey c = KIdx hv → c_h c = hv.
Proof. intros _. unfold bkey. destruct (_ =? _); naive_solver. Qed.

Lemma locate_str m ht l d k len :
  Rep m ht l d → key_valid m k len →
  let hv := zend_inline_hash_func (zs_val k) len in
  ∃ head r, slot ht (Z.land hv (nTableMask ht)) = OK head ∧
    chain_search (fuel_of m) (key_test (Some k) len hv) m head = OK r ∧
    match r with
    | Some p => ∃ l1 l2 c, l = l1 ++ p :: l2 ∧ core m p = Some c ∧ bkey c = KStr (zs_val k)
    | None => KStr (zs_val k) ∉ d.*1
    end.
Proof.
  intros HR Hk hv. assert (hv = str_hash (zs_val k)) as ->.
  { unfold hv, str_hash. by destruct Hk as (-> & _). }
  eapply locate; [done| |].
  - intros p b _ Hb Hok. by eapply key_test_spec.
  - intros p c _. apply key_hash.
Qed.

Lemma locate_idx m ht l d hv :
  Rep m ht l d →
  ∃ head r, slot ht (Z.land hv (nTableMask ht)) = OK head ∧
    chain_search (fuel_of m) (index_test hv) m head = OK r ∧
    match r with
    | Some p => ∃ l1 l2 c, l = l1 ++ p :: l2 ∧ core m p = Some c ∧ bkey c = KIdx hv
    | None => KIdx hv ∉ d.*1
    end.
Proof.
  intros HR. eapply locate; [done| |].
  - intros p b _ _ _. apply index_test_spec.
  - intros p c _. apply index_hash.
Qed.

(** * Look-ups *)

Lemma entry_lookup m ht l d l1 p l2 c :
  Rep m ht l d → l = l1 ++ p :: l2 → core m p = Some c →
  dlookup (bkey c) d = Some (data_of (c_data c)).
Proof.
  intros HR Hl Hc. destruct (rep_split _ _ _ _ _ _ _ _ HR Hl Hc) as [-> Hn].
  by apply dlookup_mid.
Qed.

Lemma core_deref m p c : core m p = Some c → ∃ b, deref m p = OK b ∧ core_of b = c.
Proof. unfold core, deref. destruct (heap m !! p) as [b|]; simpl; naive_solver. Qed.

Lemma find_spec m ht l d k len :
  Rep m ht l d → key_valid m k len →
  zend_hash_find m ht k len = OK (dlookup (KStr (zs_val k)) d).
Proof.
  intros HR Hk. destruct (locate_str _ _ _ _ _ _ HR Hk) as (head & r & Hs & Hr & Hres).
  unfold zend_hash_find. rewrite Hs. ob. rewrite Hr. ob. destruct r as [p|].
  - destruct Hres as (l1 & l2 & c & Hl & Hc & HK).
    rewrite <- HK, (entry_lookup _ _ _ _ _ _ _ _ HR Hl Hc).
    destruct (core_deref _ _ _ Hc) as (b & -> & <-). done.
  - by apply dlookup_None in Hres as ->.
Qed.

Lemma quick_find_spec m ht l d k len :
  Rep m ht l d → key_valid m k len →
  zend_hash_quick_find m ht (Some k) len (str_hash (zs_val k)) = OK (dlookup (KStr (zs_val k)) d).
Proof.
  intros HR Hk. rewrite <- (find_spec _ _ _ _ _ _ HR Hk). unfold str_hash.
  by destruct Hk as (-> & _).
Qed.

Lemma exists_spec m ht l d k len :
  Rep m ht l d → key_valid m k len →
  zend_hash_exists m ht k len = OK (bool_decide (KStr (zs_val k) ∈ d.*1)).
Proof.
  intros HR Hk. destruct (locate_str _ _ _ _ _ _ HR Hk) as (head & r & Hs & Hr & Hres).
  unfold zend_hash_exists. rewrite Hs. ob. rewrite Hr. ob. destruct r as [p|].
  - destruct Hres as (l1 & l2 & c & Hl & Hc & HK). rewrite bool_decide_true; [done|].
    rewrite <- (rep_abs _ _ _ _ HR), abs_key. exists p, c. set_solver.
  - by rewrite bool_decide_false.
Qed.

Lemma index_find_spec m ht l d hv :
  Rep m ht l d → zend_hash_index_find m ht hv = OK (dlookup (KIdx hv) d).
Proof.
  intros HR. destruct (locate_idx _ _ _ _ hv HR) as (head & r & Hs & Hr & Hres).
  unfold zend_hash_index_find. rewrite Hs. ob. rewrite Hr. ob. destruct r as [p|].
  - destruct Hres as (l1 & l2 & c & Hl & Hc & HK).
    rewrite <- HK, (entry_lookup _ _ _ _ _ _ _ _ HR Hl Hc).
    destruct (core_deref _ _ _ Hc) as (b & -> & <-). done.
  - by apply dlookup_None in Hres as ->.
Qed.

Lemma index_exists_spec m ht l d hv :
  Rep m ht l d → zend_hash_index_exists m ht hv = OK (bool_decide (KIdx hv ∈ d.*1)).
Proof.
  intros HR. destruct (locate_idx _ _ _ _ hv HR) as (head & r & Hs & Hr & Hres).
  unfold zend_hash_index_exists. rewrite Hs. ob. rewrite Hr. ob. destruct r as [p|].
  - destruct Hres as (l1 & l2 & c & Hl & Hc & HK). rewrite bool_decide_true; [done|].
    rewrite <- (rep_abs _ _ _ _ HR), abs_key. exists p, c. set_solver.
  - by rewrite bool_decide_false.
Qed.

(** * Updates and insertions *)

Lemma rep_check_init m ht l d :
  Rep m ht l d →
  Rep m (CHECK_INIT ht) l d ∧ slots_ok (CHECK_INIT ht) ∧ same_list ht (CHECK_INIT ht).
Proof.
  intros []. destruct (check_init_ok m ht l) as (Hok & Hs & Hsl); [done|].
  split; [|done]. split; try done. by destruct Hsl as (_ & -> & _).
Qed.

Lemma links_ok_ext m m' ht l :
  (∀ q, q ∈ l → lview m' q = lview m q) → (∀ q, q ∈ l → cview m' q = cview m q) →
  (∀ q, q ∈ l → c_h <$> core m' q = c_h <$> core m q) →
  links_ok m ht l → links_ok m' ht l.
Proof.
  intros Hl Hc Hh [Hli Hta Hch]. split; try done.
  - by eapply list_ok_ext; [|by split_and!|].
  - intros i Hi. destruct (Hch i Hi) as (c & Hs & Hd & Hnd & Hm).
    assert (∀ q, q ∈ l → idx m' (nTableMask ht) q = idx m (nTableMask ht) q) as Hidx.
    { intros q Hq. specialize (Hh q Hq). unfold idx.
      destruct (core m' q), (core m q); simpl in *; congruence. }
    exists c. split_and!; try done.
    + eapply dseg_ext; [|done]. intros q [? _]%Hm. auto.
    + intros q. rewrite Hm. split; intros [? ?]; (split; [done|]); [rewrite Hidx|rewrite <- Hidx]; done.
Qed.

(** The effect of an operation that gives key [K] the value [v]: the bucket
    [p] holds it, the old value of the key is destructed, buckets of other
    tables are not touched. *)
Record upd_post m ht l d (K : akey) (v : V) p m' ht' l' : Prop := {
  up_rep : Rep m' ht' l' (dupdate K v d);
  up_list : l' = (if decide (K ∈ d.*1) then l else l ++ [p]);
  up_slots : slots_ok ht';
  up_new : K ∉ d.*1 → heap m !! p = None;
  up_core : ∀ q, q ≠ p → core m' q = core m q;
  up_val : ∃ c, core m' p = Some c ∧ entry c = (K, v);
  up_frame : ∀ q, q ∉ l' → heap m' !! q = heap m !! q;
  up_evs : evs m' = evs m ++ (if pDestructor ht then EvDtor <$> option_list (dlookup K d) else []);
  up_dtor : pDestructor ht' = pDestructor ht;
  up_ip : pInternalPointer ht' =
    if decide (K ∈ d.*1) then pInternalPointer ht
    else match pInternalPointer ht with Some x => Some x | None => Some p end;
  up_next : nNextFreeElement ht' =
    if decide (K ∈ d.*1) then nNextFreeElement ht else next_index (nNextFreeElement ht) K;
}.

Lemma update_bucket_spec m ht l d l1 p l2 c v sz :
  Rep m ht l d → slots_ok ht → l = l1 ++ p :: l2 → core m p = Some c →
  ∃ m', update_bucket m ht p v sz = OK (SUCCESS, Some p, m', ht) ∧
        upd_post m ht l d (bkey c) v p m' ht l.
Proof.
  intros HR Hslots Hl Hc. destruct (rep_split _ _ _ _ _ _ _ _ HR Hl Hc) as [Hd Hn].
  pose proof (entry_lookup _ _ _ _ _ _ _ _ HR Hl Hc) as Hlk.
  assert (bkey c ∈ d.*1) as Hin.
  { rewrite <- (rep_abs _ _ _ _ HR), abs_key. exists p, c. set_solver. }
  unfold update_bucket, UPDATE_DATA.
  destruct (core_deref _ _ _ Hc) as (b & -> & Hb). simpl.
  set (m1 := if pDestructor ht then _ else _).
  assert (∀ q, core m1 q = core m q) as Hc1 by (intros; by unfold m1; destruct (pDestructor ht)).
  rewrite mstore_live by (rewrite Hc1, Hc; eauto). simpl. eexists. split; [done|].
  set (dat := if sz =? SIZEOF_PTR then InPtr v else InBlock v).
  assert (data_of dat = v) as Hdat by (by unfold dat; destruct (_ =? _)).
  set (m' := malter (set_pData dat) p m1).
  set (c' := mkCore (c_h c) (c_len c) dat (c_key c)).
  assert (core m' p = Some c') as Hp.
  { unfold m'. erewrite (core_malter _ _ _ (λ x, mkCore (c_h x) (c_len x) dat (c_key x))) by done.
    rewrite decide_True, Hc1, Hc by done. done. }
  assert (∀ q, q ≠ p → core m' q = core m q) as Hq.
  { intros q Hq. unfold m'. erewrite (core_malter _ _ _ (λ x, mkCore (c_h x) (c_len x) dat (c_key x))) by done.
    rewrite decide_False by done. apply Hc1. }
  assert (∀ q, lview m' q = lview m q) as Hlv.
  { intros q. unfold m'. views. unfold m1. by destruct (pDestructor ht). }
  assert (∀ q, cview m' q = cview m q) as Hcv.
  { intros q. unfold m'. views. unfold m1. by destruct (pDestructor ht). }
  assert (NoDup l) as Hndl by apply HR.
  assert (entry c' = (bkey c, v)) as He by (unfold entry; by rewrite <- Hdat).
  split; try done; [|by rewrite decide_True|eauto| | |by rewrite decide_True|by rewrite decide_True].
  - destruct HR as [Hlk' Hkeys Habs Huniq Hnext]. split.
    + eapply links_ok_ext; [auto..| |done]. intros q _.
      destruct (decide (q = p)) as [->|]; [by rewrite Hp, Hc|by rewrite Hq].
    + intros q cq Hql Hcq. destruct (decide (q = p)) as [->|Hne].
      * rewrite Hp in Hcq. injection Hcq as <-. apply (Hkeys p c Hql Hc).
      * rewrite Hq in Hcq by done. by apply Hkeys.
    + rewrite Hl, (abs_split _ _ _ _ _ Hp), He. rewrite Hl in Hndl.
      apply NoDup_app in Hndl as (? & Hdis & [? ?]%NoDup_cons).
      rewrite Hd, (abs_ext m m' l1), (abs_ext m m' l2).
      * symmetry. by apply dupdate_mid.
      * intros q Hql. apply Hq. set_solver.
      * intros q Hql. apply Hq. set_solver.
    + by rewrite dupdate_keys.
    + unfold next_ok in *. by rewrite dupdate_keys.
  - intros q Hql. apply views_ext; [|auto..]. apply Hq. set_solver.
  - unfold m'. views. rewrite Hlk. unfold m1. destruct (pDestructor ht); simpl; [|by rewrite app_nil_r].
    by rewrite <- Hb.
Qed.

Lemma next_ok_insert nf d K v :
  next_ok nf d → match K with KIdx h => is_ulong h | KStr _ => True end →
  next_ok (next_index nf K) (d ++ [(K, v)]).
Proof.
  intros [Hnf Hd] Hu. unfold next_ok, next_index, to_long, LONG_MAX in *.
  setoid_rewrite fmap_app. setoid_rewrite elem_of_app. destruct K as [h|s]; simpl in *.
  - destruct (Z.ltb_spec h (2 ^ 63)); [|rewrite (proj2 (Z.leb_gt _ _)) by lia].
    + destruct (Z.leb_spec nf h), (Z.ltb_spec h (2 ^ 63 - 1)); split; try lia.
      all: intros h' [Hin|Hin%list_elem_of_singleton];
        [apply Hd in Hin; destruct (Z.ltb_spec h' (2 ^ 63)); lia
        |injection Hin as ->; rewrite (proj2 (Z.ltb_lt _ _)); lia].
    + split; [lia|]. intros h' [Hin|Hin%list_elem_of_singleton]; [auto|].
      injection Hin as ->. rewrite (proj2 (Z.ltb_ge _ _)); lia.
  - split; [lia|]. intros h' [Hin|Hin%list_elem_of_singleton]; [auto|done].
Qed.

Lemma key_ok_ulong p c h : key_ok p c → bkey c = KIdx h → is_ulong h.
Proof. intros Hk Hb. rewrite <- (index_hash _ _ _ Hk Hb). apply Hk. Qed.

Lemma insert_spec m ht l d p c K v m' ht' :
  Rep m ht l d → inserted m ht l p c (next_index (nNextFreeElement ht) K) m' ht' →
  K ∉ d.*1 → entry c = (K, v) → key_ok p c →
  upd_post m ht l d K v p m' ht' (l ++ [p]).
Proof.
  intros HR Hins HK He Hkey.
  assert (next_ok (next_index (nNextFreeElement ht) K) (d ++ [(K, v)])) as Hnf.
  { apply next_ok_insert; [apply HR|]. destruct K; [|done]. eapply key_ok_ulong; [done|].
    unfold entry in He. congruence. }
  assert (p ∉ l) as Hpl.
  { intros Hp. destruct (rep_live _ _ _ _ _ HR Hp) as (c' & Hc' & _).
    unfold core in Hc'. by rewrite (ins_dead _ _ _ _ _ _ _ _ Hins) in Hc'. }
  assert (∀ q, q ∈ l → core m' q = core m q) as Hcore.
  { intros q Hq. apply Hins. set_solver. }
  split; try apply Hins; try (by rewrite decide_False).
  - rewrite dupdate_new by done. split.
    + apply Hins.
    + intros q cq [Hq|Hq%list_elem_of_singleton]%elem_of_app Hcq; [|subst q].
      * rewrite Hcore in Hcq by done. by eapply rep_keys.
      * rewrite (ins_new _ _ _ _ _ _ _ _ Hins) in Hcq. by injection Hcq as <-.
    + rewrite (abs_split _ _ _ _ _ (ins_new _ _ _ _ _ _ _ _ Hins)), He.
      rewrite (abs_ext m m' l) by done. by rewrite (rep_abs _ _ _ _ HR).
    + rewrite fmap_app. apply NoDup_app. split; [apply HR|]. split; [set_solver|]. apply NoDup_singleton.
    + by rewrite (ins_next _ _ _ _ _ _ _ _ Hins).
  - intros _. apply Hins.
  - exists c. split; [apply Hins|done].
  - rewrite (ins_evs _ _ _ _ _ _ _ _ Hins). rewrite (proj2 (dlookup_None K d)) by done.
    destruct (pDestructor ht); by rewrite ?app_nil_r.
  - rewrite decide_False by done. apply Hins.
  - rewrite decide_False by done. apply Hins.
Qed.

(** A new key is stored where a caller's key must be: shared when interned,
    behind its bucket otherwise. *)
Lemma copy_key_ok m k len p hv v :
  key_valid m k len → hv = str_hash (zs_val k) → is_ulong hv →
  let c := mkCore hv len v (copy_key (Some k) len p) in
  key_ok p c ∧ bkey c = KStr (zs_val k).
Proof.
  intros (-> & Hlen & Ha) -> Hh c. unfold key_ok, bkey, c, copy_key. simpl.
  rewrite (proj2 (Z.eqb_neq _ _)) by lia. destruct k as [[n|b|n] s]; simpl in *;
    rewrite ?take_ge by lia; (split; [|done]; split; [done|]); right; eexists; split_and!; try done; lia.
Qed.

Lemma hash_fold_ulong s h : is_ulong h → is_ulong (fold_left hash_step s h).
Proof.
  revert h. induction s as [|c s IH]; intros h Hh; simpl; [done|].
  apply IH,  ulong_wrap_range.
Qed.

Lemma hash_switch_fold f s h : (length s < 8)%nat → hash_switch f s h = fold_left f s h.
Proof.
  intros Hlen. do 8 (destruct s as [|? s]; [cbn [hash_switch fold_left]; reflexivity|]).
  simpl in Hlen. lia.
Qed.

(** The unrolled loop computes the plain left fold. *)
Lemma hash_loop_fold f s h : hash_loop f s h = fold_left f s h.
Proof.
  remember (length s) as n eqn:Hn. revert s h Hn.
  induction n as [n IH] using lt_wf_ind. intros s h Hn.
  destruct (decide (length s < 8)%nat) as [Hlt|Hge].
  - rewrite <- hash_switch_fold by done.
    do 8 (destruct s as [|? s]; [cbn [hash_loop]; reflexivity|]). simpl in Hlt. lia.
  - do 8 (destruct s as [|? s]; [simpl in Hge; lia|]). cbn [hash_loop fold_left].
    apply (IH (length s)); [|reflexivity]. simpl in Hn. lia.
Qed.

Lemma str_hash_ulong s : is_ulong (str_hash s).
Proof.
  unfold str_hash, zend_inline_hash_func. rewrite hash_loop_fold. apply hash_fold_ulong. lia.
Qed.

(** The part the insertion functions share, once the key was not found. *)
Lemma insert_run m ht l d hv len dat k K v :
  Rep m ht l d → slots_ok ht → Z.of_nat (length l) + 1 < 2 ^ 32 → K ∉ d.*1 →
  let p := fresh_ptr m in let c := mkCore hv len dat (k p) in
  let nf := next_index (nNextFreeElement ht) K in
  entry c = (K, v) → key_ok p c →
  ∃ head m2 m3 ht3 m4 ht4,
    slot ht (Z.land hv (nTableMask ht)) = OK head ∧
    CONNECT_TO_BUCKET_DLLIST (new_bucket m hv len dat k).1 p head = OK m2 ∧
    (∃ ht', CONNECT_TO_GLOBAL_DLLIST m2 ht p = OK (m3, ht') ∧
            set_slot ht' (Z.land hv (nTableMask ht)) (Some p) = OK ht3) ∧
    (∃ ht', set_slot ht (Z.land hv (nTableMask ht)) (Some p) = OK ht' ∧
            CONNECT_TO_GLOBAL_DLLIST m2 ht' p = OK (m3, ht3)) ∧
    nNextFreeElement ht3 = nNextFreeElement ht ∧
    ZEND_HASH_IF_FULL_DO_RESIZE m3
      (set_nNumOfElements (uint_wrap (nNumOfElements ht3 + 1)) (set_nNextFreeElement nf ht3))
      = OK (m4, ht4) ∧
    upd_post m ht l d K v p m4 ht4 (l ++ [p]).
Proof.
  intros HR Hs Hmax HK p c nf He Hkey.
  destruct (link_new_run m ht l hv len dat k (rep_links _ _ _ _ HR) Hs)
    as (head & Hslot & Hne & Hhl & Hcb & Hr1 & Hr2 & Hch).
  pose proof (link_new_ok m ht l hv len dat k head nf (rep_links _ _ _ _ HR) Hs Hmax Hne Hhl Hch) as Hins.
  cbv zeta in Hins.
  destruct (if_full_resize_ok _ _ _ (lk_list _ _ _ (ins_links _ _ _ _ _ _ _ _ Hins))
              (ins_slots _ _ _ _ _ _ _ _ Hins)) as (m4 & ht4 & Hrun & Hrs); [by destruct l|].
  exists head, (connect_mem (new_mem m hv len dat k) p head), (link_mem m ht hv len dat k head),
    (link_ht ht p (Z.land hv (nTableMask ht))), m4, ht4.
  split_and!; try done.
  - by destruct (link_ht_fields ht p (Z.land hv (nTableMask ht))) as (_ & ? & _).
  - eapply insert_spec; try done. by eapply inserted_resized.
Qed.

Lemma set_next_same ht : set_nNextFreeElement (nNextFreeElement ht) ht = ht.
Proof. by destruct ht. Qed.

Lemma entry_init_data K v sz (c : bcore V) :
  bkey c = K → c_data c = INIT_DATA v sz → entry c = (K, v).
Proof. intros HK Hd. unfold entry, INIT_DATA in *. rewrite HK, Hd. by destruct (_ =? _). Qed.

(** What the caller of an insertion sees. *)
Definition ins_spec m ht l d (K : akey) (v : V) (refuse : bool)
    (r : outcome (zresult * nptr * mem V * HashTable)) : Prop :=
  if refuse && bool_decide (K ∈ d.*1) then
    r = OK (FAILURE, None, m, CHECK_INIT ht)
  else ∃ p m' ht' l', r = OK (SUCCESS, Some p, m', ht') ∧ p ∈ l' ∧
    upd_post m (CHECK_INIT ht) l d K v p m' ht' l'.

Lemma add_or_update_spec m ht l d k len v sz flag :
  Rep m ht l d → key_valid m k len → Z.of_nat (length l) + 1 < 2 ^ 32 →
  ins_spec m ht l d (KStr (zs_val k)) v (has_flag flag HASH_ADD)
    (_zend_hash_add_or_update m ht k len v sz flag).
Proof.
  intros HR Hk Hmax. destruct (rep_check_init _ _ _ _ HR) as (HR' & Hs & _).
  unfold _zend_hash_add_or_update, ins_spec. set (ht1 := CHECK_INIT ht) in *.
  destruct (locate_str _ _ _ _ _ _ HR' Hk) as (head & r & Hsl & Hr & Hres).
  cbv zeta. rewrite Hsl. ob. rewrite Hr. ob. destruct r as [p|].
  - destruct Hres as (l1 & l2 & c & Hl & Hc & HK).
    rewrite bool_decide_true, andb_true_r.
    2: { rewrite <- (rep_abs _ _ _ _ HR), abs_key. exists p, c. set_solver. }
    destruct (has_flag flag HASH_ADD); [done|].
    destruct (update_bucket_spec _ _ _ _ _ _ _ _ v sz HR' Hs Hl Hc) as (m' & Hrun & Hp).
    exists p, m', ht1, l. rewrite HK in Hp. split_and!; try done. set_solver.
  - rewrite bool_decide_false, andb_false_r by done.
    assert (zend_inline_hash_func (zs_val k) len = str_hash (zs_val k)) as Hhv.
    { unfold str_hash. by destruct Hk as (-> & _). }
    destruct (copy_key_ok m k len (fresh_ptr m) _ (INIT_DATA v sz) Hk Hhv) as [Hkey HK].
    { rewrite Hhv. apply str_hash_ulong. }
    destruct (insert_run m ht1 l d (zend_inline_hash_func (zs_val k) len) len (INIT_DATA v sz) (copy_key (Some k) len)
        (KStr (zs_val k)) v HR' Hs Hmax Hres) 
      as (hd' & m2 & m3 & ht3 & m4 & ht4 & Hsl' & Hcb & (ht' & Hg & Hss) & _ & Hnf & Hfull & Hp).
    { by eapply entry_init_data. }
    { done. }
    unfold new_bucket in *. cbn [fst] in Hcb. fold (fresh_ptr m) in *.
    assert (hd' = head) as -> by congruence. rewrite Hcb. ob. rewrite Hg. ob. rewrite Hss. ob.
    cbn [next_index] in Hfull. rewrite <- Hnf, set_next_same in Hfull. rewrite Hfull. ob.
    exists (fresh_ptr m), m4, ht4, (l ++ [fresh_ptr m]). split_and!; try done. set_solver.
Qed.

(** The quick variant, given the hash the plain one computes. *)
Lemma quick_add_or_update_spec m ht l d k len v sz flag :
  Rep m ht l d → key_valid m k len → Z.of_nat (length l) + 1 < 2 ^ 32 →
  ins_spec m ht l d (KStr (zs_val k)) v (has_flag flag HASH_ADD)
    (_zend_hash_quick_add_or_update m ht (Some k) len (str_hash (zs_val k)) v sz flag).
Proof.
  intros HR Hk Hmax. destruct (rep_check_init _ _ _ _ HR) as (HR' & Hs & _).
  unfold _zend_hash_quick_add_or_update, ins_spec. set (ht1 := CHECK_INIT ht) in *.
  assert (zend_inline_hash_func (zs_val k) len = str_hash (zs_val k)) as Hhv.
  { unfold str_hash. by destruct Hk as (-> & _). }
  destruct (locate_str _ _ _ _ _ _ HR' Hk) as (head & r & Hsl & Hr & Hres). rewrite Hhv in *.
  cbv zeta. rewrite Hsl. ob. rewrite Hr. ob. destruct r as [p|].
  - destruct Hres as (l1 & l2 & c & Hl & Hc & HK).
    rewrite bool_decide_true, andb_true_r.
    2: { rewrite <- (rep_abs _ _ _ _ HR), abs_key. exists p, c. set_solver. }
    destruct (has_flag flag HASH_ADD); [done|].
    destruct (update_bucket_spec _ _ _ _ _ _ _ _ v sz HR' Hs Hl Hc) as (m' & Hrun & Hp).
    exists p, m', ht1, l. rewrite HK in Hp. split_and!; try done. set_solver.
  - rewrite bool_decide_false, andb_false_r by done.
    destruct (copy_key_ok m k len (fresh_ptr m) _ (INIT_DATA v sz) Hk eq_refl) as [Hkey HK].
    { apply str_hash_ulong. }
    destruct (insert_run m ht1 l d (str_hash (zs_val k)) len (INIT_DATA v sz) (copy_key (Some k) len)
        (KStr (zs_val k)) v HR' Hs Hmax Hres) 
      as (hd' & m2 & m3 & ht3 & m4 & ht4 & Hsl' & Hcb & _ & (ht' & Hss & Hg) & Hnf & Hfull & Hp).
    { by eapply entry_init_data. }
    { done. }
    unfold new_bucket in *. cbn [fst] in Hcb. fold (fresh_ptr m) in *.
    assert (hd' = head) as -> by congruence. rewrite Hcb. ob. rewrite Hss. ob. rewrite Hg. ob.
    cbn [next_index] in Hfull. rewrite <- Hnf, set_next_same in Hfull. rewrite Hfull. ob.
    exists (fresh_ptr m), m4, ht4, (l ++ [fresh_ptr m]). split_and!; try done. set_solver.
Qed.

Lemma set_next_bump ht hv :
  bump_next_free hv ht = set_nNextFreeElement (next_index (nNextFreeElement ht) (KIdx hv)) ht ∨
  ¬ 0 <= nNextFreeElement ht <= LONG_MAX.
Proof.
  unfold bump_next_free, next_index.
  destruct (decide (0 <= nNextFreeElement ht <= LONG_MAX)) as [Hr|]; [left|by right].
  assert (to_long (nNextFreeElement ht) = nNextFreeElement ht) as ->.
  { unfold to_long, LONG_MAX in *. rewrite (proj2 (Z.ltb_lt _ _)); lia. }
  destruct (_ <=? _); [done|by rewrite set_next_same].
Qed.

Lemma index_update_spec m ht l d hv0 v sz flag :
  Rep m ht l d → is_ulong hv0 → Z.of_nat (length l) + 1 < 2 ^ 32 →
  let hv := if has_flag flag HASH_NEXT_INSERT then nNextFreeElement ht else hv0 in
  ins_spec m ht l d (KIdx hv) v (has_flag flag HASH_NEXT_INSERT || has_flag flag HASH_ADD)
    (_zend_hash_index_update_or_next_insert m ht hv0 v sz flag).
Proof.
  intros HR Hu Hmax hv. destruct (rep_check_init _ _ _ _ HR) as (HR' & Hs & Hsame).
  unfold _zend_hash_index_update_or_next_insert, ins_spec. set (ht1 := CHECK_INIT ht) in *.
  assert ((if has_flag flag HASH_NEXT_INSERT then nNextFreeElement ht1 else hv0) = hv) as ->.
  { unfold hv. destruct Hsame as (_ & -> & _). done. }
  assert (is_ulong hv) as Hhv.
  { destruct (rep_next _ _ _ _ HR) as [? _]. unfold hv, LONG_MAX in *. destruct (has_flag _ _); lia. }
  clearbody hv. destruct (locate_idx _ _ _ _ hv HR') as (head & r & Hsl & Hr & Hres).
  cbv zeta. rewrite Hsl. ob. rewrite Hr. ob. destruct r as [p|].
  - destruct Hres as (l1 & l2 & c & Hl & Hc & HK).
    rewrite bool_decide_true, andb_true_r.
    2: { rewrite <- (rep_abs _ _ _ _ HR), abs_key. exists p, c. set_solver. }
    destruct (has_flag _ _ || _); [done|].
    destruct (update_bucket_spec _ _ _ _ _ _ _ _ v sz HR' Hs Hl Hc) as (m' & Hrun & Hp).
    exists p, m', ht1, l. rewrite HK in Hp. split_and!; try done. set_solver.
  - rewrite bool_decide_false, andb_false_r by done.
    destruct (insert_run m ht1 l d hv 0 (INIT_DATA v sz) (λ _, None) (KIdx hv) v HR' Hs Hmax Hres)
      as (hd' & m2 & m3 & ht3 & m4 & ht4 & Hsl' & Hcb & _ & (ht' & Hss & Hg) & Hnf & Hfull & Hp).
    { by eapply entry_init_data. }
    { split; [done|]. by left. }
    unfold new_bucket in *. cbn [fst] in Hcb. fold (fresh_ptr m) in *.
    assert (hd' = head) as -> by congruence. rewrite Hcb. ob. rewrite Hss. ob. rewrite Hg. ob.
    destruct (set_next_bump ht3 hv) as [->|Hbad].
    2: { destruct Hbad. rewrite Hnf. apply (rep_next _ _ _ _ HR'). }
    rewrite <- Hnf in Hfull. simpl nNumOfElements in Hfull |- *. rewrite Hfull. ob.
    exists (fresh_ptr m), m4, ht4, (l ++ [fresh_ptr m]). split_and!; try done. set_solver.
Qed.

(** * Removal *)

(** The effect of the removal of bucket [p], of key [K]. *)
Record del_post m ht l1 p l2 d (K : akey) m' ht' : Prop := {
  dp_rep : Rep m' ht' (l1 ++ l2) (dremove K d);
  dp_gone : heap m' !! p = None;
  dp_core : ∀ q, q ≠ p → core m' q = core m q;
  dp_frame : ∀ q, q ∉ l1 ++ p :: l2 → heap m' !! q = heap m !! q;
  dp_evs : evs m' = evs m ++ (if pDestructor ht then EvDtor <$> option_list (dlookup K d) else []);
  dp_ip : pInternalPointer ht' =
    if decide (pInternalPointer ht = Some p) then hd_or l2 None else pInternalPointer ht;
  dp_conf : same_conf ht ht';
  dp_next : nNextFreeElement ht' = nNextFreeElement ht;
}.

Lemma bucket_delete_spec m ht l1 p l2 d c :
  Rep m ht (l1 ++ p :: l2) d → core m p = Some c →
  d = abs m l1 ++ entry c :: abs m l2 ∧
  ∃ m' ht', i_zend_hash_bucket_delete m ht p = OK (m', ht') ∧
    del_post m ht l1 p l2 d (bkey c) m' ht' ∧ dremove (bkey c) d = abs m l1 ++ abs m l2.
Proof.
  intros HR Hc.
  destruct (rep_split _ _ _ _ _ _ _ _ HR eq_refl Hc) as [Hd Hn].
  pose proof (entry_lookup _ _ _ _ _ _ _ _ HR eq_refl Hc) as Hlk.
  destruct (bucket_delete_ok m ht l1 p l2 (rep_links _ _ _ _ HR)) as (m' & ht' & Hrun & []).
  split; [done|]. exists m', ht'. split; [done|].
  assert (dremove (bkey c) d = abs m l1 ++ abs m l2) as Hrem. { rewrite Hd. by apply dremove_mid. }
  split; [|done].
  assert (NoDup (l1 ++ p :: l2)) as Hnd by apply HR.
  apply NoDup_app in Hnd as (? & Hdis & [? ?]%NoDup_cons).
  split; try done; [|rewrite del_evs, Hc, Hlk; done]. rewrite Hrem.
  pose proof (rep_uniq _ _ _ _ HR) as Hu. rewrite Hd, fmap_app in Hu. csimpl in Hu.
  apply NoDup_app in Hu as (Hu1 & Hu2 & [Hu3 Hu4]%NoDup_cons).
  split; try done.
  - intros q cq Hq Hcq. rewrite del_core in Hcq by set_solver.
    eapply rep_keys; [exact HR|set_solver|done].
  - rewrite abs_app. f_equal; apply abs_ext; intros q Hq; apply del_core; set_solver.
  - rewrite fmap_app. apply NoDup_app. set_solver.
  - rewrite del_next. destruct (rep_next _ _ _ _ HR) as [? Hall]. split; [done|].
    intros h Hh. apply Hall. rewrite Hd, fmap_app in *. set_solver.
Qed.

Lemma del_test_str m p b k len :
  heap m !! p = Some b → key_ok p (core_of b) → key_valid m k len →
  del_test (Some k) len (str_hash (zs_val k)) b = true ↔ bkey (core_of b) = KStr (zs_val k).
Proof.
  intros Hb [_ Hkey] (-> & Hlen & Haddr). unfold del_test, bkey. simpl.
  rewrite !andb_true_iff, orb_true_iff, !Z.eqb_eq.
  destruct Hkey as [[Hz Hn]|(k' & Hk' & Hl' & Hr' & Hh' & Ha')]; simpl in *.
  - rewrite Hz. simpl. split; [lia|done].
  - rewrite Hk', (proj2 (Z.eqb_neq (nKeyLength b) 0)) by lia. simpl.
    rewrite bool_decide_eq_true. split.
    + intros [[_ Hl] [?|Hv]]; [lia|]. rewrite !take_ge in Hv by lia. by f_equal.
    + intros [= Hv]. rewrite Hh', Hl', Hv. auto.
Qed.

Lemma del_test_idx k hv b : del_test k 0 hv b = true ↔ bkey (core_of b) = KIdx hv.
Proof.
  unfold del_test, bkey. simpl. rewrite !andb_true_iff, orb_true_iff, !Z.eqb_eq.
  destruct (Z.eqb_spec (nKeyLength b) 0); naive_solver.
Qed.

(** What the caller of a deletion sees. *)
Definition del_spec m ht l d (K : akey) (r : outcome (zresult * mem V * HashTable)) : Prop :=
  ((K ∉ d.*1) ∧ r = OK (FAILURE, m, ht)) ∨
  (∃ l1 p l2 m' ht', l = l1 ++ p :: l2 ∧ r = OK (SUCCESS, m', ht') ∧
     K ∈ d.*1 ∧ del_post m ht l1 p l2 d K m' ht').

Lemma del_found m ht l d K r :
  Rep m ht l d →
  match r with
  | Some p => ∃ l1 l2 c, l = l1 ++ p :: l2 ∧ core m p = Some c ∧ bkey c = K
  | None => K ∉ d.*1
  end →
  del_spec m ht l d K
    match r with
    | Some p => let* (m, ht) := i_zend_hash_bucket_delete m ht p in OK (SUCCESS, m, ht)
    | None => OK (FAILURE, m, ht)
    end.
Proof.
  intros HR Hres. destruct r as [p|]; [right|by left].
  destruct Hres as (l1 & l2 & c & -> & Hc & <-).
  destruct (bucket_delete_spec _ _ _ _ _ _ _ HR Hc) as (Hd & m' & ht' & Hrun & Hp & _).
  exists l1, p, l2, m', ht'. rewrite Hrun. split_and!; try done.
  rewrite Hd, fmap_app. set_solver.
Qed.

Lemma del_key_spec m ht l d k len h0 :
  Rep m ht l d → key_valid m k len →
  del_spec m ht l d (KStr (zs_val k)) (zend_hash_del_key_or_index m ht (Some k) len h0 HASH_DEL_KEY) ∧
  del_spec m ht l d (KStr (zs_val k))
    (zend_hash_del_key_or_index m ht (Some k) len (str_hash (zs_val k)) HASH_DEL_KEY_QUICK).
Proof.
  intros HR Hk. assert (zend_inline_hash_func (zs_val k) len = str_hash (zs_val k)) as Hhv.
  { unfold str_hash. by destruct Hk as (-> & _). }
  destruct (locate m ht l d (KStr (zs_val k)) (str_hash (zs_val k))
              (del_test (Some k) len (str_hash (zs_val k))) HR) as (head & r & Hsl & Hr & Hres).
  { intros p b _ Hb Hok. by eapply del_test_str. }
  { intros p c _. apply key_hash. }
  unfold zend_hash_del_key_or_index. cbn [from_option]. rewrite Hhv.
  change (HASH_DEL_KEY =? HASH_DEL_KEY) with true.
  change (HASH_DEL_KEY_QUICK =? HASH_DEL_KEY) with false. cbv zeta iota.
  rewrite Hsl. ob. rewrite Hr. ob. split; by apply del_found.
Qed.

Lemma del_index_spec m ht l d hv :
  Rep m ht l d →
  del_spec m ht l d (KIdx hv) (zend_hash_del_key_or_index m ht None 0 hv HASH_DEL_INDEX).
Proof.
  intros HR.
  destruct (locate m ht l d (KIdx hv) hv (del_test None 0 hv) HR) as (head & r & Hsl & Hr & Hres).
  { intros p b _ _ _. apply del_test_idx. }
  { intros p c _. apply index_hash. }
  unfold zend_hash_del_key_or_index. change (HASH_DEL_INDEX =? HASH_DEL_KEY) with false.
  cbv zeta iota. rewrite Hsl. ob. rewrite Hr. ob. by apply del_found.
Qed.

End dict.



