(* ===== verification/ZendHashExt.v ===== *)
(** The rest of Zend/zend_hash.c and Zend/zend_hash.h: traversal with
    callbacks, copying and merging, the internal pointer, splicing, sorting,
    comparing, and the symbol-table variants that take numeric strings. *)

From S2P Require Import Prelude Dll OrderedDict ZendHash.

(** [memcmp] up to its sign. *)
Definition memcmp (a b : option zstr) (n : Z) : Z :=
  bytes_cmp (take (Z.to_nat n) (from_option zs_val [] a)) (take (Z.to_nat n) (from_option zs_val [] b)).

(** The [h] field of a bucket before it is written. *)
Definition garbage_h : Z := 0.

Section ext.
Context {V : Type} `{PEMalloc}.
Implicit Types (m : mem V) (ht : HashTable) (p q : ptr).

(** ** Traversal *)

(** The loop of [zend_hash_apply], [.._with_argument] and [.._with_arguments]
    (with [step := pListNext]) and [zend_hash_reverse_apply] (with
    [pListLast]).  The callback gets the value and the key of the bucket and
    a state of its own, and returns [ZEND_HASH_APPLY_*]; it does not change
    the table. *)
Fixpoint apply_loop {S : Type} (fuel : nat) (step : Bucket V → nptr)
    (func : V → option zstr * Z * Z → S → Z * S) m ht (s : S) (p : nptr)
    : outcome (mem V * HashTable * S) :=
  match p with
  | None => OK (m, ht, s)
  | Some q =>
      match fuel with
      | O => UB
      | Datatypes.S fuel =>
          let* b := deref m q in
          let (result, s) := func (data_of (pData b)) (arKey b, nKeyLength b, bh b) s in
          let p_next := step b in
          let* (m, ht) :=
            if has_flag result ZEND_HASH_APPLY_REMOVE
            then zend_hash_bucket_delete m ht q else OK (m, ht) in
          if has_flag result ZEND_HASH_APPLY_STOP then OK (m, ht, s)
          else apply_loop fuel step func m ht s p_next
      end
  end.

Definition zend_hash_apply {S : Type} m ht (apply_func : V → S → Z * S) (s : S)
    : outcome (mem V * HashTable * S) :=
  let* ht := HASH_PROTECT_RECURSION ht in
  let* (m, ht, s) := apply_loop (fuel_of m) pListNext (λ v _, apply_func v) m ht s (pListHead ht) in
  OK (m, HASH_UNPROTECT_RECURSION ht, s).

Definition zend_hash_apply_with_argument {S A : Type} m ht (apply_func : V → A → S → Z * S)
    (argument : A) (s : S) : outcome (mem V * HashTable * S) :=
  let* ht := HASH_PROTECT_RECURSION ht in
  let* (m, ht, s) :=
    apply_loop (fuel_of m) pListNext (λ v _, apply_func v argument) m ht s (pListHead ht) in
  OK (m, HASH_UNPROTECT_RECURSION ht, s).

Definition zend_hash_apply_with_arguments {S A : Type} m ht
    (apply_func : V → A → option zstr * Z * Z → S → Z * S) (args : A) (s : S)
    : outcome (mem V * HashTable * S) :=
  let* ht := HASH_PROTECT_RECURSION ht in
  let* (m, ht, s) :=
    apply_loop (fuel_of m) pListNext (λ v key, apply_func v args key) m ht s (pListHead ht) in
  OK (m, HASH_UNPROTECT_RECURSION ht, s).

Definition zend_hash_reverse_apply {S : Type} m ht (apply_func : V → S → Z * S) (s : S)
    : outcome (mem V * HashTable * S) :=
  let* ht := HASH_PROTECT_RECURSION ht in
  let* (m, ht, s) := apply_loop (fuel_of m) pListLast (λ v _, apply_func v) m ht s (pListTail ht) in
  OK (m, HASH_UNPROTECT_RECURSION ht, s).

(** ** Copying and merging: [target] receives the elements of [source] *)

Definition copy_ctor (ctor : bool) m (new_entry : nptr) : outcome (mem V) :=
  match ctor, new_entry with
  | true, Some p => let* b := deref m p in OK (call m (EvCopy (data_of (pData b))))
  | _, _ => OK m
  end.

Fixpoint copy_loop (fuel : nat) m (target source : HashTable) (ctor setTargetPointer : bool)
    (size : Z) (p : nptr) : outcome (mem V * HashTable) :=
  match p with
  | None => OK (m, target)
  | Some q =>
      match fuel with
      | O => UB
      | S fuel =>
          let target :=
            if setTargetPointer && bool_decide (pInternalPointer source = Some q)
            then set_pInternalPointer None target else target in
          let* b := deref m q in
          let* (_, new_entry, m, target) :=
            if negb (nKeyLength b =? 0)
            then _zend_hash_quick_add_or_update m target (arKey b) (nKeyLength b) (bh b)
                   (data_of (pData b)) size HASH_UPDATE
            else _zend_hash_index_update_or_next_insert m target (bh b)
                   (data_of (pData b)) size HASH_UPDATE in
          let* m := copy_ctor ctor m new_entry in
          let* b := deref m q in
          copy_loop fuel m target source ctor setTargetPointer size (pListNext b)
      end
  end.

Definition zend_hash_copy m (target source : HashTable) (ctor : bool) (size : Z)
    : outcome (mem V * HashTable) :=
  let setTargetPointer := bool_decide (pInternalPointer target = None) in
  let* (m, target) :=
    copy_loop (fuel_of m) m target source ctor setTargetPointer size (pListHead source) in
  OK (m, match pInternalPointer target with
         | None => set_pInternalPointer (pListHead target) target
         | Some _ => target
         end).

Fixpoint merge_loop (fuel : nat) m (target : HashTable) (ctor : bool) (size mode : Z) (p : nptr)
    : outcome (mem V * HashTable) :=
  match p with
  | None => OK (m, target)
  | Some q =>
      match fuel with
      | O => UB
      | S fuel =>
          let* b := deref m q in
          let* (m, target) :=
            if 0 <? nKeyLength b then
              let* (r, t, m, target) :=
                _zend_hash_quick_add_or_update m target (arKey b) (nKeyLength b) (bh b)
                  (data_of (pData b)) size mode in
              let* m := copy_ctor (ctor && bool_decide (r = SUCCESS)) m t in
              OK (m, target)
            else
              let* go :=
                if mode =? HASH_UPDATE then OK true
                else let* ex := zend_hash_index_exists m target (bh b) in OK (negb ex) in
              if go : bool then
                let* (r, t, m, target) :=
                  _zend_hash_index_update_or_next_insert m target (bh b)
                    (data_of (pData b)) size HASH_UPDATE in
                let* m := copy_ctor (ctor && bool_decide (r = SUCCESS)) m t in
                OK (m, target)
              else OK (m, target) in
          let* b := deref m q in
          merge_loop fuel m target ctor size mode (pListNext b)
      end
  end.

Definition _zend_hash_merge m (target source : HashTable) (ctor : bool) (size : Z)
    (overwrite : bool) : outcome (mem V * HashTable) :=
  let mode := if overwrite then HASH_UPDATE else HASH_ADD in
  let* (m, target) := merge_loop (fuel_of m) m target ctor size mode (pListHead source) in
  OK (m, set_pInternalPointer (pListHead target) target).

(** [zend_hash_replace_checker_wrapper] builds the key record it passes. *)
Definition zend_hash_replace_checker_wrapper (target : HashTable) (b : Bucket V)
    (merge_checker_func : HashTable → V → option zstr * Z * Z → bool) : bool :=
  merge_checker_func target (data_of (pData b)) (arKey b, nKeyLength b, bh b).

Fixpoint merge_ex_loop (fuel : nat) m (target : HashTable) (ctor : bool) (size : Z)
    (pMergeSource : HashTable → V → option zstr * Z * Z → bool) (p : nptr) : outcome (mem V * HashTable) :=
  match p with
  | None => OK (m, target)
  | Some q =>
      match fuel with
      | O => UB
      | S fuel =>
          let* b := deref m q in
          let* (m, target) :=
            if zend_hash_replace_checker_wrapper target b pMergeSource then
              let* (r, t, m, target) :=
                _zend_hash_quick_add_or_update m target (arKey b) (nKeyLength b) (bh b)
                  (data_of (pData b)) size HASH_UPDATE in
              let* m := copy_ctor (ctor && bool_decide (r = SUCCESS)) m t in
              OK (m, target)
            else OK (m, target) in
          let* b := deref m q in
          merge_ex_loop fuel m target ctor size pMergeSource (pListNext b)
      end
  end.

Definition zend_hash_merge_ex m (target source : HashTable) (ctor : bool) (size : Z)
    (pMergeSource : HashTable → V → option zstr * Z * Z → bool) : outcome (mem V * HashTable) :=
  let* (m, target) := merge_ex_loop (fuel_of m) m target ctor size pMergeSource (pListHead source) in
  OK (m, set_pInternalPointer (pListHead target) target).

(** ** The internal pointer and positions

    A [HashPosition * ] argument is [None] when it is [NULL]; then the
    operation works on [ht->pInternalPointer]. *)

Record HashPointer := mkHP { hp_pos : nptr; hp_h : Z }.

Definition zend_hash_get_pointer m ht : outcome (bool * HashPointer) :=
  match pInternalPointer ht with
  | Some p => let* b := deref m p in OK (true, mkHP (Some p) (bh b))
  | None => OK (false, mkHP None 0)
  end.

Fixpoint set_pointer_loop (fuel : nat) m (pos : ptr) (p : nptr) : outcome bool :=
  match p with
  | None => OK false
  | Some q =>
      match fuel with
      | O => UB
      | S fuel =>
          if bool_decide (q = pos) then OK true
          else let* b := deref m q in set_pointer_loop fuel m pos (pNext b)
      end
  end.

Definition zend_hash_set_pointer m ht (hp : HashPointer) : outcome (bool * HashTable) :=
  match hp_pos hp with
  | None => OK (true, set_pInternalPointer None ht)
  | Some pos =>
      if bool_decide (pInternalPointer ht ≠ Some pos) then
        let* head := slot ht (Z.land (hp_h hp) (nTableMask ht)) in
        let* found := set_pointer_loop (fuel_of m) m pos head in
        if found then OK (true, set_pInternalPointer (Some pos) ht) else OK (false, ht)
      else OK (true, ht)
  end.

(** [*current], read and written, with [current = pos ? pos : &ht->pInternalPointer]. *)
Definition current ht (pos : option nptr) : nptr :=
  match pos with Some c => c | None => pInternalPointer ht end.
Definition set_current ht (pos : option nptr) (c : nptr) : option nptr * HashTable :=
  match pos with
  | Some _ => (Some c, ht)
  | None => (None, set_pInternalPointer c ht)
  end.

Definition zend_hash_internal_pointer_reset_ex ht (pos : option nptr) : option nptr * HashTable :=
  set_current ht pos (pListHead ht).
Definition zend_hash_internal_pointer_end_ex ht (pos : option nptr) : option nptr * HashTable :=
  set_current ht pos (pListTail ht).

Definition zend_hash_move_forward_ex m ht (pos : option nptr)
    : outcome (zresult * option nptr * HashTable) :=
  match current ht pos with
  | Some p =>
      let* b := deref m p in
      let (pos, ht) := set_current ht pos (pListNext b) in OK (SUCCESS, pos, ht)
  | None => OK (FAILURE, pos, ht)
  end.

Definition zend_hash_move_backwards_ex m ht (pos : option nptr)
    : outcome (zresult * option nptr * HashTable) :=
  match current ht pos with
  | Some p =>
      let* b := deref m p in
      let (pos, ht) := set_current ht pos (pListLast b) in OK (SUCCESS, pos, ht)
  | None => OK (FAILURE, pos, ht)
  end.

(** The key at a position: the bytes handed out in [*str_index] (a copy with
    its own NUL when [duplicate]) with [*str_length], or [*num_index]. *)
Inductive cur_key :=
  | CurString (s : list Z) (str_length : Z)
  | CurLong (num_index : Z)
  | CurNone.

Definition cur_key_code (k : cur_key) : Z :=
  match k with
  | CurString _ _ => HASH_KEY_IS_STRING
  | CurLong _ => HASH_KEY_IS_LONG
  | CurNone => HASH_KEY_NON_EXISTENT
  end.

(** [estrndup(s, n)]: the first [n] bytes and a NUL. *)
Definition estrndup (s : list Z) (n : Z) : list Z := take (Z.to_nat n) s ++ [0].

Definition zend_hash_get_current_key_ex m ht (duplicate : bool) (pos : option nptr)
    : outcome cur_key :=
  match current ht pos with
  | Some p =>
      let* b := deref m p in
      if negb (nKeyLength b =? 0) then
        let* k := rd (arKey b) in
        OK (CurString (if duplicate then estrndup (zs_val k) (nKeyLength b - 1) else zs_val k)
              (nKeyLength b))
      else OK (CurLong (bh b))
  | None => OK CurNone
  end.

(** The zval [zend_hash_get_current_key_zval_ex] fills in. *)
Inductive zkey :=
  | ZkNull
  | ZkString (s : list Z) (len : Z)
  | ZkLong (lval : Z).

Definition zend_hash_get_current_key_zval_ex m ht (pos : option nptr) : outcome zkey :=
  match current ht pos with
  | None => OK ZkNull
  | Some p =>
      let* b := deref m p in
      if negb (nKeyLength b =? 0) then
        let* k := rd (arKey b) in
        OK (ZkString (if IS_INTERNED (Some k) then zs_val k
                      else estrndup (zs_val k) (nKeyLength b - 1)) (nKeyLength b - 1))
      else OK (ZkLong (to_long (bh b)))
  end.

Definition zend_hash_get_current_key_type_ex m ht (pos : option nptr) : outcome Z :=
  match current ht pos with
  | Some p =>
      let* b := deref m p in
      if negb (nKeyLength b =? 0) then OK HASH_KEY_IS_STRING else OK HASH_KEY_IS_LONG
  | None => OK HASH_KEY_NON_EXISTENT
  end.

Definition zend_hash_get_current_data_ex m ht (pos : option nptr) : outcome (option V) :=
  match current ht pos with
  | Some p => let* b := deref m p in OK (Some (data_of (pData b)))
  | None => OK None
  end.

(** ** Changing the key of the current element *)

(** Whether [q] comes before [p] in the list, walking back from [p]. *)
Fixpoint before_loop (fuel : nat) m q (r : nptr) : outcome bool :=
  match r with
  | None => OK false
  | Some x =>
      match fuel with
      | O => UB
      | S fuel =>
          if bool_decide (x = q) then OK true
          else let* b := deref m x in before_loop fuel m q (pListLast b)
      end
  end.

(** The bucket that replaces [p] when its key does not fit: a new block, its
    [arKey] not initialised ([junk]), in the place of [p] in the list. *)
Definition replace_bucket m ht p (str_length : Z) (junk : option zstr) (pos : option nptr)
    : outcome (mem V * HashTable * ptr * option nptr) :=
  let* b := deref m p in
  let (m, q) := new_bucket m garbage_h str_length (pData b) (λ _, junk) in
  let* (m, ht) := CONNECT_TO_GLOBAL_DLLIST_EX m ht q (pListLast b) (pListNext b) in
  let ht := if decide (pInternalPointer ht = Some p)
            then set_pInternalPointer (Some q) ht else ht in
  let pos := match pos with Some _ => Some (Some q) | None => None end in
  let* m := mfree m p in
  OK (m, ht, q, pos).

(** Unlinks [p] from its chain. *)
Definition unchain m ht p : outcome (mem V * HashTable) :=
  let* b := deref m p in
  let* m := mstore_opt m (pNext b) (set_pLast (pLast b)) in
  let* b := deref m p in
  match pLast b with
  | Some q => let* m := mstore m q (set_pNext (pNext b)) in OK (m, ht)
  | None => let* ht := set_slot ht (Z.land (bh b) (nTableMask ht)) (pNext b) in OK (m, ht)
  end.

(** The last part of [zend_hash_update_current_key_ex], once no other bucket
    has the key: [p] leaves its chain, gets the key and enters the new chain. *)
Definition rekey m ht p (key_type : Z) (str_index : option zstr) (str_length num_index hv : Z)
    (junk : option zstr) (pos : option nptr)
    : outcome (zresult * option nptr * mem V * HashTable) :=
  let* (m, ht) := unchain m ht p in
  let* b := deref m p in
  let* (m, ht, p, pos) :=
    if negb (Bool.eqb (IS_INTERNED (arKey b)) (IS_INTERNED str_index)) ||
       (negb (IS_INTERNED (arKey b)) && negb (nKeyLength b =? str_length))
    then replace_bucket m ht p str_length junk pos
    else OK (m, ht, p, pos) in
  let* (m, ht) :=
    if key_type =? HASH_KEY_IS_LONG then
      let* m := mstore m p (set_h num_index) in
      OK (m, bump_next_free num_index ht)
    else
      let* m := mstore m p (set_h hv) in
      let* m := mstore m p (set_nKeyLength str_length) in
      let* m := mstore m p (set_arKey (copy_key str_index str_length p)) in
      OK (m, ht) in
  let* b := deref m p in
  let nIndex := Z.land (bh b) (nTableMask ht) in
  let* head := slot ht nIndex in
  let* m := CONNECT_TO_BUCKET_DLLIST m p head in
  let* ht := set_slot ht nIndex (Some p) in
  OK (SUCCESS, pos, m, ht).

Definition zend_hash_update_current_key_ex m ht (key_type : Z) (str_index : option zstr)
    (str_length num_index mode : Z) (junk : option zstr) (pos : option nptr)
    : outcome (zresult * option nptr * mem V * HashTable) :=
  match current ht pos with
  | None => OK (FAILURE, pos, m, ht)
  | Some p =>
      let* b := deref m p in
      (* with an existing bucket [q] of the same key, if any *)
      let finish (str_length hv : Z) (other : nptr) :=
        match other with
        | Some q =>
            let* lose :=
              if negb (mode =? HASH_UPDATE_KEY_ANYWAY) then
                let* found := before_loop (fuel_of m) m q (pListLast b) in
                OK (has_flag mode (if found : bool then HASH_UPDATE_KEY_IF_AFTER
                                   else HASH_UPDATE_KEY_IF_BEFORE))
              else OK false in
            if lose : bool then
              let* (m, ht) := zend_hash_bucket_delete m ht p in
              OK (FAILURE, pos, m, ht)
            else
              let* (m, ht) := zend_hash_bucket_delete m ht q in
              rekey m ht p key_type str_index str_length num_index hv junk pos
        | None => rekey m ht p key_type str_index str_length num_index hv junk pos
        end in
      if key_type =? HASH_KEY_IS_LONG then
        if (nKeyLength b =? 0) && (bh b =? num_index) then OK (SUCCESS, pos, m, ht)
        else
          let* head := slot ht (Z.land num_index (nTableMask ht)) in
          let* other := chain_search (fuel_of m) (index_test num_index) m head in
          finish 0 num_index other
      else if key_type =? HASH_KEY_IS_STRING then
        let* k := rd str_index in
        let hv := if IS_INTERNED str_index then INTERNED_HASH k
                  else zend_inline_hash_func (zs_val k) str_length in
        if key_test (Some k) str_length hv b then OK (SUCCESS, pos, m, ht)
        else
          let* head := slot ht (Z.land hv (nTableMask ht)) in
          let* other := chain_search (fuel_of m) (key_test (Some k) str_length hv) m head in
          finish str_length hv other
      else OK (FAILURE, pos, m, ht)
  end.

(** ** Splicing *)

(** [for (pos = 0, p = ht->pListHead; pos < offset && p; pos++, p = p->pListNext);] *)
Fixpoint skip_loop (fuel : nat) m (pos offset : Z) (p : nptr) : outcome (Z * nptr) :=
  match p with
  | None => OK (pos, None)
  | Some q =>
      if pos <? offset then
        match fuel with
        | O => UB
        | S fuel => let* b := deref m q in skip_loop fuel m (pos + 1) offset (pListNext b)
        end
      else OK (pos, Some q)
  end.

(** The loop that removes, and copies to [removed], the elements up to [stop]. *)
Fixpoint splice_remove_loop (fuel : nat) m ht (removed : option HashTable) (ctor : bool)
    (pos stop : Z) (p : nptr) : outcome (mem V * HashTable * option HashTable * nptr) :=
  match p with
  | None => OK (m, ht, removed, None)
  | Some q =>
      if pos <? stop then
        match fuel with
        | O => UB
        | S fuel =>
            let* b := deref m q in
            let* (m, removed) :=
              match removed with
              | Some rm =>
                  let* (_, new_entry, m, rm) :=
                    if nKeyLength b =? 0
                    then _zend_hash_index_update_or_next_insert m rm 0 (data_of (pData b))
                           SIZEOF_PTR HASH_NEXT_INSERT
                    else _zend_hash_quick_add_or_update m rm (arKey b) (nKeyLength b) (bh b)
                           (data_of (pData b)) SIZEOF_PTR HASH_UPDATE in
                  let* m := copy_ctor ctor m new_entry in
                  OK (m, Some rm)
              | None => OK (m, None)
              end in
            let* b := deref m q in
            let p_next := pListNext b in
            let* (m, ht) := zend_hash_bucket_delete m ht q in
            splice_remove_loop fuel m ht removed ctor (pos + 1) stop p_next
        end
      else OK (m, ht, removed, Some q)
  end.

(** The loop that links the elements of [list] in front of [p]. *)
Fixpoint splice_insert_loop m ht (ctor : bool) (nDataSize : Z) (list : list V) (p : nptr)
    : outcome (mem V * HashTable) :=
  match list with
  | [] => OK (m, ht)
  | v :: list =>
      let (m, q) := new_bucket m 0 0 (INIT_DATA v nDataSize) (λ _, None) in
      let* last :=
        match p with
        | Some p => let* b := deref m p in OK (pListLast b)
        | None => OK (pListTail ht)
        end in
      let* (m, ht) := CONNECT_TO_GLOBAL_DLLIST_EX m ht q last p in
      let ht := set_nNumOfElements (uint_wrap (nNumOfElements ht + 1)) ht in
      let* m := copy_ctor ctor m (Some q) in
      splice_insert_loop m ht ctor nDataSize list p
  end.

Definition _zend_hash_splice m ht (nDataSize : Z) (ctor : bool) (offset length : Z)
    (list : option (list V)) (removed : option HashTable)
    : outcome (mem V * HashTable * option HashTable) :=
  let ht := CHECK_INIT ht in
  let* (pos, p) := skip_loop (fuel_of m) m 0 offset (pListHead ht) in
  let* (m, ht, removed, p) :=
    splice_remove_loop (fuel_of m) m ht removed ctor pos (uint_wrap (offset + length)) p in
  let* (m, ht) :=
    match list with
    | Some vs =>
        let* (m, ht) := splice_insert_loop m ht ctor nDataSize vs p in
        ZEND_HASH_IF_FULL_DO_RESIZE m ht
    | None => OK (m, ht)
    end in
  let* (m, ht) := zend_hash_reindex m ht true in
  OK (m, ht, removed).

(** ** Sorting, comparing, extrema *)

Fixpoint collect_loop (fuel : nat) m (p : nptr) : outcome (list (ptr * Bucket V)) :=
  match p with
  | None => OK []
  | Some q =>
      match fuel with
      | O => UB
      | S fuel =>
          let* b := deref m q in
          let* rest := collect_loop fuel m (pListNext b) in
          OK ((q, b) :: rest)
      end
  end.

(** Relinks the buckets in the order of the sorted array: [arTmp[j]->pListLast
    = arTmp[j-1]; arTmp[j]->pListNext = arTmp[j+1];]. *)
Fixpoint relink_loop m (last : nptr) (arTmp : list ptr) : outcome (mem V) :=
  match arTmp with
  | [] => OK m
  | p :: rest =>
      let* m := mstore m p (set_pListLast last) in
      let* m := mstore m p (set_pListNext (hd_or rest None)) in
      relink_loop m (Some p) rest
  end.

Definition zend_hash_sort `{SortFunc} m ht (compar : Bucket V → Bucket V → Z) (renumber : bool)
    : outcome (zresult * mem V * HashTable) :=
  if negb (1 <? nNumOfElements ht) && negb (renumber && (0 <? nNumOfElements ht))
  then OK (SUCCESS, m, ht)
  else
    let* arTmp := collect_loop (fuel_of m) m (pListHead ht) in
    let arTmp := (sort_func (λ a b, compar a.2 b.2) arTmp).*1 in
    let ht := set_pListHead (hd_or arTmp None) ht in
    let ht := set_pInternalPointer (pListHead ht) ht in
    let* m := relink_loop m None arTmp in
    let ht := set_pListTail (last_or None arTmp) ht in
    if renumber then
      let* (m, ht) := zend_hash_reindex m ht false in OK (SUCCESS, m, ht)
    else OK (SUCCESS, m, ht).

(** The loop of [zend_hash_compare]: the value it returns. *)
Fixpoint compare_loop (fuel : nat) m (ht2 : HashTable) (compar : V → V → Z) (ordered : bool)
    (p1 p2 : nptr) : outcome Z :=
  match p1 with
  | None => OK 0
  | Some q1 =>
      match fuel with
      | O => UB
      | S fuel =>
          let* b1 := deref m q1 in
          (* the value to compare with, or the result *)
          let* r :=
            if ordered then
              match p2 with
              | None => OK (inl 1)
              | Some q2 =>
                  let* b2 := deref m q2 in
                  if (nKeyLength b1 =? 0) && (nKeyLength b2 =? 0) then
                    if negb (bh b1 =? bh b2) then OK (inl (if bh b2 <? bh b1 then 1 else -1))
                    else OK (inr (data_of (pData b2), pListNext b2))
                  else
                    let r := to_int (nKeyLength b1 - nKeyLength b2) in
                    if negb (r =? 0) then OK (inl r)
                    else
                      let r := memcmp (arKey b1) (arKey b2) (nKeyLength b1) in
                      if negb (r =? 0) then OK (inl r)
                      else OK (inr (data_of (pData b2), pListNext b2))
              end
            else
              let* found :=
                if nKeyLength b1 =? 0 then zend_hash_index_find m ht2 (bh b1)
                else zend_hash_quick_find m ht2 (arKey b1) (nKeyLength b1) (bh b1) in
              match found with
              | None => OK (inl 1)
              | Some v2 => OK (inr (v2, None))
              end in
          match r with
          | inl result => OK result
          | inr (v2, p2) =>
              let result := compar (data_of (pData b1)) v2 in
              if negb (result =? 0) then OK result
              else compare_loop fuel m ht2 compar ordered (pListNext b1) p2
          end
      end
  end.

Definition zend_hash_compare m (ht1 ht2 : HashTable) (compar : V → V → Z) (ordered : bool)
    : outcome (Z * HashTable * HashTable) :=
  let* ht1 := HASH_PROTECT_RECURSION ht1 in
  let* ht2 := HASH_PROTECT_RECURSION ht2 in
  let result := to_int (nNumOfElements ht1 - nNumOfElements ht2) in
  let* result :=
    if negb (result =? 0) then OK result
    else compare_loop (fuel_of m) m ht2 compar ordered (pListHead ht1)
           (if ordered then pListHead ht2 else None) in
  OK (result, HASH_UNPROTECT_RECURSION ht1, HASH_UNPROTECT_RECURSION ht2).

Fixpoint minmax_loop (fuel : nat) m (compar : Bucket V → Bucket V → Z) (flag : bool) (res : ptr) (p : nptr)
    : outcome ptr :=
  match p with
  | None => OK res
  | Some q =>
      match fuel with
      | O => UB
      | S fuel =>
          let* r := deref m res in
          let* b := deref m q in
          let better := if flag then compar r b <? 0 else 0 <? compar r b in
          minmax_loop fuel m compar flag (if better then q else res) (pListNext b)
      end
  end.

Definition zend_hash_minmax m ht (compar : Bucket V → Bucket V → Z) (flag : bool)
    : outcome (option V) :=
  if nNumOfElements ht =? 0 then OK None
  else
    let* p := rd (pListHead ht) in
    let* b := deref m p in
    let* res := minmax_loop (fuel_of m) m compar flag p (pListNext b) in
    let* b := deref m res in
    OK (Some (data_of (pData b))).

End ext.

