(* ===== verification/ZendHashLife.v ===== *)
(** The life of a table: initialisation, destruction, cleaning, and the
    traversals with callbacks of Zend/zend_hash.c. *)

From S2P Require Import Prelude Dll OrderedDict ZendHash ZendHashInv ZendHashOps.
From S2P Require Import ZendHashDict ZendHashExt.

(** * Initialisation *)

Lemma init_size_loop_ok fuel i nSize :
  0 <= i → (i < 31 → nSize <= 2 ^ 31) → i + Z.of_nat fuel = 35 → i <= 31 → nSize <= 2 ^ 31 →
  let r := init_size_loop fuel i nSize in
  i <= r <= 31 ∧ nSize <= 2 ^ r ∧ (r = i ∨ 2 ^ (r - 1) < nSize).
Proof.
  revert i. induction fuel as [|fuel IH]; intros i Hi _ Hf H31 Hn; simpl; [lia|].
  rewrite Z.shiftl_1_l.
  assert (2 ^ i <= 2 ^ 31) by (apply Z.pow_le_mono_r; lia).
  assert (0 < 2 ^ i) by (apply Z.pow_pos_nonneg; lia).
  rewrite uint_wrap_id by lia. destruct (Z.ltb_spec (2 ^ i) nSize) as [Hlt|Hge].
  - assert (i ≠ 31) by (intros ->; lia).
    destruct (IH (i + 1)) as (Hr & Hge & Hor); try lia.
    split; [lia|]. split; [done|]. right. destruct Hor as [->|?]; [|done].
    by replace (i + 1 - 1) with i by lia.
  - split_and!; [lia|lia|lia|by left].
Qed.

(** The size is the least power of two that is at least 8 and [nSize], and
    [2^31] at most. *)
Lemma init_size nSize dtor persist :
  is_uint nSize →
  ∃ k, nTableSize (zend_hash_init nSize dtor persist) = 2 ^ k ∧ 3 <= k <= 31 ∧
    (nSize <= 2 ^ k ∨ k = 31) ∧ (k = 3 ∨ 2 ^ (k - 1) < nSize).
Proof.
  intros Hn. unfold zend_hash_init. cbn [nTableSize]. destruct (Z.leb_spec 0x80000000 nSize).
  - exists 31. split; [done|]. split; [lia|]. split; [by right|]. right. change (2 ^ (31 - 1)) with 0x40000000. lia.
  - destruct (init_size_loop_ok 32 3 nSize) as (Hr & Hge & Hor); [lia..|].
    set (r := init_size_loop 32 3 nSize) in *. exists r. rewrite Z.shiftl_1_l.
    assert (2 ^ r <= 2 ^ 31) by (apply Z.pow_le_mono_r; lia).
    assert (0 < 2 ^ r) by (apply Z.pow_pos_nonneg; lia).
    rewrite uint_wrap_id by lia. split; [done|]. split; [lia|]. split; [by left|done].
Qed.

Section life.
Context {V : Type} `{PEMalloc} (pool : positive → list Z).
Implicit Types (m : mem V) (ht : HashTable) (p q : ptr) (l : list ptr) (d : list (akey * V)).

(** What the table's destructor is called with. *)
Definition dtors ht (vs : list V) : list (event V) := if pDestructor ht then EvDtor <$> vs else [].

Lemma dtors_app ht vs ws : dtors ht (vs ++ ws) = dtors ht vs ++ dtors ht ws.
Proof. unfold dtors. destruct (pDestructor ht); [apply fmap_app|done]. Qed.

(** A table without elements represents the empty dictionary. *)
Lemma rep_nil m ht k :
  3 <= k <= 31 → nTableSize ht = 2 ^ k →
  (nTableMask ht = 0 ∧ arBuckets ht = [None] ∨
   nTableMask ht = 2 ^ k - 1 ∧ arBuckets ht = replicate (Z.to_nat (2 ^ k)) None) →
  nNumOfElements ht = 0 → pListHead ht = None → pListTail ht = None → pInternalPointer ht = None →
  0 <= nNextFreeElement ht <= LONG_MAX →
  Rep pool m ht [] [].
Proof.
  intros Hk Hs Hslots Hn Hh Ht Hip Hnf. assert (8 <= 2 ^ k) by (change 8 with (2 ^ 3); apply Z.pow_le_mono_r; lia).
  assert (∃ n, arBuckets ht = replicate n None ∧ 0 <= nTableMask ht < Z.of_nat n) as (n & Hn' & Hmask).
  { destruct Hslots as [[-> ->]|[-> ->]]; [exists 1%nat; done|].
    exists (Z.to_nat (2 ^ k)). split; [done|lia]. }
  split; [split|..]; try done.
  - split; rewrite ?Hh, ?Ht, ?Hn, ?Hip; try done; apply NoDup_nil_2.
  - exists k. split; [done|]. split; [done|].
    destruct Hslots as [[-> ->]|[-> ->]]; [by left|right]. rewrite length_replicate. split; [done|lia].
  - intros i Hi. rewrite Hn'. apply chains_nil. lia.
  - intros q c Hq. by apply elem_of_nil in Hq.
  - apply NoDup_nil_2.
  - split; [done|]. intros h Hh'. by apply elem_of_nil in Hh'.
Qed.

Lemma init_spec m nSize dtor persist :
  is_uint nSize → Rep pool m (zend_hash_init nSize dtor persist) [] [].
Proof.
  intros Hn. destruct (init_size nSize dtor persist Hn) as (k & Hk & Hr & _).
  apply (rep_nil _ _ k); try done. by left.
Qed.

(** Only the protection flag and the nesting depth: nothing the dictionary
    depends on. *)
Lemma rep_protection m ht l d b : Rep pool m ht l d → Rep pool m (set_bApplyProtection b ht) l d.
Proof. intros [[[] ? ?] ? ? ? ?]. by split. Qed.

Lemma rep_count m ht l d n : Rep pool m ht l d → Rep pool m (set_nApplyCount n ht) l d.
Proof. intros [[[] ? ?] ? ? ? ?]. by split. Qed.

Lemma rep_ip m ht l d (o : nptr) :
  Rep pool m ht l d → (∀ p, o = Some p → p ∈ l) → Rep pool m (set_pInternalPointer o ht) l d.
Proof. intros [[[] ? ?] ? ? ? ?] Ho. by split. Qed.

(** * Destruction *)

Definition freed m (l : list ptr) m' : Prop :=
  ∀ q, heap m' !! q = if decide (q ∈ l) then None else heap m !! q.

Lemma destroy_loop_ok fuel m ht o l :
  dseg (lview m) o l None → NoDup l → (length l < fuel)%nat →
  ∃ m', destroy_loop fuel m (pDestructor ht) (hd_or l None) = OK m' ∧ freed m l m' ∧
    evs m' = evs m ++ dtors ht ((abs m l).*2).
Proof.
  revert m o fuel. induction l as [|x l IH]; intros m o fuel Hd Hnd Hf;
    (destruct fuel as [|fuel]; [simpl in Hf; lia|]); simpl.
  - exists m. split; [done|]. split; [done|]. unfold dtors. destruct (pDestructor ht); by rewrite app_nil_r.
  - destruct Hd as [Hx Hd]. apply NoDup_cons in Hnd as [Hxl Hnd].
    unfold lview in Hx. destruct (heap m !! x) as [b|] eqn:Hb; [|done]. injection Hx as Hlast Hnext.
    unfold deref. rewrite Hb. ob.
    set (m1 := if pDestructor ht then call m (EvDtor (data_of (pData b))) else m).
    assert (heap m1 = heap m) as Hm1 by (unfold m1; by destruct (pDestructor ht)).
    unfold mfree. rewrite Hm1, Hb. ob. rewrite Hnext.
    destruct (IH (mkMem (delete x (heap m)) (evs m1)) (Some x) fuel) as (m' & Hrun & Hfree & Hev);
      [|done|simpl in Hf; lia|].
    { revert Hd. apply dseg_ext. intros q Hq. rewrite lview_delete. by rewrite decide_False by set_solver. }
    exists m'. split; [done|]. split.
    + intros q. rewrite Hfree. simpl. destruct (decide (q = x)) as [->|Hne].
      * rewrite (decide_True (P := x ∈ x :: l)) by set_solver. case_decide; [done|]. by simplify_map_eq.
      * rewrite lookup_delete_ne by done. apply decide_ext. set_solver.
    + rewrite Hev. simpl. rewrite (abs_ext pool m _ l).
      2: { intros q Hq. rewrite core_delete. by rewrite decide_False by set_solver. }
      unfold core at 1. rewrite Hb. simpl. unfold m1, dtors.
      destruct (pDestructor ht); simpl; by rewrite <- ?app_assoc.
Qed.

Lemma destroy_spec m ht l d :
  Rep pool m ht l d →
  ∃ m', zend_hash_destroy m ht = OK m' ∧ freed m l m' ∧ evs m' = evs m ++ dtors ht d.*2.
Proof.
  intros HR. pose proof (lk_list _ _ _ (rep_links _ _ _ _ _ HR)) as Hl. unfold zend_hash_destroy.
  rewrite (lo_head _ _ _ Hl), <- (rep_abs _ _ _ _ _ HR).
  eapply destroy_loop_ok; [apply Hl|apply Hl|by eapply list_length_fuel].
Qed.

Lemma table_size ht l : table_ok ht l → ∃ k, 3 <= k <= 31 ∧ nTableSize ht = 2 ^ k ∧
  (nTableMask ht = 0 ∧ arBuckets ht = [None] ∨ nTableMask ht = 2 ^ k - 1).
Proof. intros (k & Hk & Hs & [(? & ? & _)|(? & _)]); exists k; auto. Qed.

Lemma clean_spec m ht l d :
  Rep pool m ht l d →
  ∃ m' ht', zend_hash_clean m ht = OK (m', ht') ∧ Rep pool m' ht' [] [] ∧ freed m l m' ∧
    evs m' = evs m ++ dtors ht d.*2 ∧ nTableSize ht' = nTableSize ht ∧ nNextFreeElement ht' = 0.
Proof.
  intros HR. pose proof (rep_links _ _ _ _ _ HR) as HL. pose proof (lk_list _ _ _ HL) as Hl.
  unfold zend_hash_clean. cbv zeta.
  set (ht1 := if nTableMask ht =? 0 then ht else clear_slots ht).
  assert (pDestructor ht1 = pDestructor ht) as Hd1 by (unfold ht1; by case_match).
  destruct (destroy_loop_ok (fuel_of m) m ht None l) as (m' & Hrun & Hfree & Hev);
    [apply Hl|apply Hl|by eapply list_length_fuel|].
  cbn [pDestructor set_pInternalPointer set_nNextFreeElement set_nNumOfElements set_pListTail set_pListHead].
  rewrite Hd1, (lo_head _ _ _ Hl), Hrun. ob. eexists _, _. split; [reflexivity|].
  rewrite <- (rep_abs _ _ _ _ _ HR). split_and!; try done.
  - destruct (table_size _ _ (lk_table _ _ _ HL)) as (k & Hk & Hs & Hslots).
    assert (8 <= 2 ^ k) by (change 8 with (2 ^ 3); apply Z.pow_le_mono_r; lia).
    apply (rep_nil _ _ k); try done; unfold ht1; destruct (Z.eqb_spec (nTableMask ht) 0) as [Hz|Hz]; try done.
    + destruct Hslots as [?|E]; [by left|]. lia.
    + destruct Hslots as [[? _]|E]; [done|]. right. split; [done|]. unfold clear_slots. simpl. by rewrite Hs.
  - unfold ht1. by case_match.
Qed.

(** One deletion inside a loop: the rest of the list, its dictionary and the
    call of the destructor. *)
Lemma delete_step m ht l1 p l2 d c :
  Rep pool m ht (l1 ++ p :: l2) d → core m p = Some c →
  ∃ m' ht', zend_hash_bucket_delete m ht p = OK (m', ht') ∧
    Rep pool m' ht' (l1 ++ l2) (abs m l1 ++ abs m l2) ∧
    evs m' = evs m ++ dtors ht [data_of (c_data c)] ∧ same_conf ht ht' ∧
    nNextFreeElement ht' = nNextFreeElement ht ∧ heap m' !! p = None ∧
    (∀ q, q ∉ l1 ++ p :: l2 → heap m' !! q = heap m !! q) ∧ (∀ q, q ≠ p → core m' q = core m q).
Proof.
  intros HR Hc. pose proof (entry_lookup _ _ _ _ _ _ _ _ _ HR eq_refl Hc) as Hlk.
  destruct (bucket_delete_spec _ _ _ _ _ _ _ _ HR Hc) as (_ & m' & ht' & Hrun & [] & Hrem).
  exists m', ht'. rewrite Hrem in *. rewrite Hlk in dp_evs. by split_and!.
Qed.

Lemma same_conf_trans ht1 ht2 ht3 : same_conf ht1 ht2 → same_conf ht2 ht3 → same_conf ht1 ht3.
Proof. unfold same_conf. intuition congruence. Qed.

Lemma dtors_conf ht ht' vs : same_conf ht ht' → dtors ht' vs = dtors ht vs.
Proof. intros (_ & _ & _ & E & _). unfold dtors. by rewrite E. Qed.

(** * Loops over the list, in either direction

    [arrange rv kept todo] is the list when the elements of [todo] are still
    to be visited, in this order, and [kept] are those already passed. *)
Definition arrange {A} (rv : bool) (kept todo : list A) : list A :=
  if rv then reverse todo ++ kept else kept ++ todo.
Definition push {A} (rv : bool) (kept : list A) (x : A) : list A :=
  if rv then x :: kept else kept ++ [x].

Lemma arrange_cons {A} rv (kept todo : list A) x :
  ∃ (a b : list A), arrange rv kept (x :: todo) = a ++ x :: b ∧ arrange rv kept todo = a ++ b ∧
    arrange rv (push rv kept x) todo = a ++ x :: b ∧
    (if rv then a = reverse todo else b = todo).
Proof.
  destruct rv; simpl.
  - exists (reverse todo), kept. by rewrite reverse_cons, <- app_assoc.
  - exists kept, todo. by rewrite <- app_assoc.
Qed.

Lemma abs_reverse m l : abs m (reverse l) = reverse (abs m l).
Proof.
  induction l as [|x l IH]; [done|]. rewrite reverse_cons, abs_app, IH. simpl.
  destruct (core m x); simpl; [by rewrite reverse_cons|by rewrite app_nil_r].
Qed.

Lemma abs_arrange m rv kept todo : abs m (arrange rv kept todo) = arrange rv (abs m kept) (abs m todo).
Proof. destruct rv; simpl; by rewrite abs_app, ?abs_reverse. Qed.

Lemma abs_push m rv kept p c :
  core m p = Some c → abs m (push rv kept p) = push rv (abs m kept) (entry c).
Proof. intros Hc. destruct rv; simpl; [by rewrite Hc|]. by rewrite abs_app; simpl; rewrite Hc. Qed.

Lemma last_or_reverse l : last_or None (reverse l) = hd_or l None.
Proof. unfold last_or. rewrite last_reverse. by destruct l. Qed.

(** The next element to visit. *)
Lemma arrange_next m ht rv kept p todo d :
  Rep pool m ht (arrange rv kept (p :: todo)) d →
  ∃ b, deref m p = OK b ∧ core m p = Some (core_of b) ∧
    (if rv then pListLast b else pListNext b) = hd_or todo None.
Proof.
  intros HR. destruct (arrange_cons rv kept todo p) as (l1 & l2 & E & _ & _ & Hrv). rewrite E in HR.
  assert (lview m p = Some (last_or None l1, hd_or l2 None)) as Hv.
  { pose proof (lo_dll _ _ _ (lk_list _ _ _ (rep_links _ _ _ _ _ HR))) as Hd.
    by apply dseg_app in Hd as [_ [? _]]. }
  unfold lview in Hv. unfold deref, core. destruct (heap m !! p) as [b|]; [|done].
  injection Hv as Hl Hn. exists b. split; [done|]. split; [done|].
  destruct rv; subst; [|done]. by rewrite Hl, last_or_reverse.
Qed.

Lemma graceful_loop_ok rv fuel m ht todo d :
  Rep pool m ht (arrange rv [] todo) d → (length todo < fuel)%nat →
  ∃ m' ht', graceful_loop fuel (if rv then pListTail else pListHead) m ht = OK (m', ht') ∧
    Rep pool m' ht' [] [] ∧ freed m todo m' ∧ evs m' = evs m ++ dtors ht (abs m todo).*2 ∧
    same_conf ht ht'.
Proof.
  revert fuel m ht d. induction todo as [|p todo IH]; intros fuel m ht d HR Hf;
    (destruct fuel as [|fuel]; [simpl in Hf; lia|]).
  - pose proof (rep_links _ _ _ _ _ HR) as HL. pose proof (lk_list _ _ _ HL) as Hl.
    assert ((if rv then pListTail else pListHead) ht = None) as E.
    { destruct rv; [apply (lo_tail _ _ _ Hl)|apply (lo_head _ _ _ Hl)]. }
    assert (d = []) as -> by (rewrite <- (rep_abs _ _ _ _ _ HR); by destruct rv).
    simpl. rewrite E. exists m, ht. split_and!; try done; [by destruct rv|].
    unfold dtors. by destruct (pDestructor ht); rewrite app_nil_r.
  - destruct (arrange_next _ _ _ _ _ _ _ HR) as (b & Hb & Hc & _).
    destruct (arrange_cons rv [] todo p) as (l1 & l2 & E & Ed & _ & Hrv). rewrite E in HR.
    assert ((if rv then pListTail else pListHead) ht = Some p) as Ef.
    { pose proof (lk_list _ _ _ (rep_links _ _ _ _ _ HR)) as Hl. destruct rv; subst; simpl in *.
      - apply app_inv_head in Ed as <-. rewrite (lo_tail _ _ _ Hl). apply last_or_snoc.
      - rewrite (lo_head _ _ _ Hl). apply (f_equal length) in Ed. rewrite length_app in Ed.
        destruct l1; [done|simpl in Ed; lia]. }
    cbn [graceful_loop]. rewrite Ef.
    destruct (delete_step _ _ _ _ _ _ _ HR Hc)
      as (m1 & ht1 & Hrun & HR1 & Hev & Hconf & _ & Hgone & Hframe & Hcore).
    rewrite Hrun. ob. rewrite <- Ed in HR1.
    assert (p ∉ todo) as Hp.
    { pose proof (lo_nodup _ _ _ (lk_list _ _ _ (rep_links _ _ _ _ _ HR))) as Hnd. rewrite <- E in Hnd.
      destruct rv; simpl in Hnd; rewrite ?app_nil_r in Hnd.
      - rewrite reverse_Permutation in Hnd. by apply NoDup_cons in Hnd as [? _].
      - by apply NoDup_cons in Hnd as [? _]. }
    destruct (IH fuel m1 ht1 _ HR1 ltac:(simpl in Hf; lia)) as (m' & ht' & Hrun' & HR' & Hfree & Hev' & Hconf').
    exists m', ht'. split; [done|]. split; [done|]. split; [|split].
    + intros q. rewrite Hfree. destruct (decide (q = p)) as [->|Hne].
      { rewrite (decide_False (P := p ∈ todo)), (decide_True (P := p ∈ p :: todo)) by set_solver. done. }
      assert (q ∈ p :: todo ↔ q ∈ todo) as Hiff by set_solver. rewrite (decide_ext _ _ _ _ Hiff).
      case_decide as Hq; [done|]. apply Hframe. rewrite <- E. destruct rv; simpl; set_solver.
    + rewrite Hev', Hev, (dtors_conf _ _ _ Hconf), <- app_assoc. simpl. rewrite Hc. simpl.
      rewrite (abs_ext pool m m1) by (intros q Hq; apply Hcore; set_solver).
      by rewrite <- dtors_app.
    + by eapply same_conf_trans.
Qed.

Lemma graceful_spec m ht l d :
  Rep pool m ht l d →
  (∃ m' ht', zend_hash_graceful_destroy m ht = OK (m', ht') ∧ freed m l m' ∧
     evs m' = evs m ++ dtors ht d.*2) ∧
  (∃ m' ht', zend_hash_graceful_reverse_destroy m ht = OK (m', ht') ∧ freed m l m' ∧
     evs m' = evs m ++ dtors ht (reverse d.*2)).
Proof.
  intros HR. pose proof (list_length_fuel _ _ _ (lk_list _ _ _ (rep_links _ _ _ _ _ HR))) as Hf.
  pose proof (rep_abs _ _ _ _ _ HR) as Ha. split.
  - destruct (graceful_loop_ok false (fuel_of m) m ht l d HR Hf) as (m' & ht' & Hrun & _ & Hfree & Hev & _).
    exists m', ht'. rewrite Ha in Hev. done.
  - destruct (graceful_loop_ok true (fuel_of m) m ht (reverse l) d) as (m' & ht' & Hrun & _ & Hfree & Hev & _).
    { simpl. by rewrite reverse_involutive, app_nil_r. }
    { by rewrite length_reverse. }
    exists m', ht'. split; [done|]. split.
    + intros q. rewrite Hfree. apply decide_ext. apply elem_of_reverse.
    + by rewrite Hev, abs_reverse, Ha, fmap_reverse.
Qed.

(** * Traversal with a callback *)

(** What a traversal means for the dictionary: the elements kept, the values
    removed and the state of the callback. *)
Fixpoint dapply {S} (f : akey → V → S → Z * S) (s : S) d : list (akey * V) * list V * S :=
  match d with
  | [] => ([], [], s)
  | (k, v) :: d =>
      let (r, s) := f k v s in
      let '(kept, removed, s) := if has_flag r ZEND_HASH_APPLY_STOP then (d, [], s) else dapply f s d in
      if has_flag r ZEND_HASH_APPLY_REMOVE then (kept, v :: removed, s) else ((k, v) :: kept, removed, s)
  end.

(** A callback that looks at the key only through what it means. *)
Definition respects {S} (func : V → option zstr * Z * Z → S → Z * S) (f : akey → V → S → Z * S) : Prop :=
  ∀ (c : bcore V) s, func (data_of (c_data c)) (c_key c, c_len c, c_h c) s = f (bkey c) (data_of (c_data c)) s.

Lemma arrange_push {A} rv (kept todo : list A) x :
  arrange rv (push rv kept x) todo = arrange rv kept (x :: todo).
Proof. destruct rv; simpl; [by rewrite reverse_cons, <- app_assoc|by rewrite <- app_assoc]. Qed.

Lemma dtors_nil ht : dtors ht [] = [].
Proof. unfold dtors. by destruct (pDestructor ht). Qed.

Lemma same_conf_refl ht : same_conf ht ht.
Proof. by split_and!. Qed.

Lemma apply_loop_ok {S} rv func (f : akey → V → S → Z * S) fuel m ht kept todo d s :
  respects func f → Rep pool m ht (arrange rv kept todo) d → (length todo < fuel)%nat →
  let '(dk, removed, s') := (dapply f s (abs m todo)) in
  ∃ m' ht' l', apply_loop fuel (if rv then pListLast else pListNext) func m ht s (hd_or todo None)
      = OK (m', ht', s') ∧
    Rep pool m' ht' l' (arrange rv (abs m kept) dk) ∧ evs m' = evs m ++ dtors ht removed ∧
    same_conf ht ht' ∧ nNextFreeElement ht' = nNextFreeElement ht ∧ sublist l' (arrange rv kept todo).
Proof.
  intros Hresp. revert fuel m ht kept d s.
  induction todo as [|p todo IH]; intros fuel m ht kept d s HR Hf;
    (destruct fuel as [|fuel]; [simpl in Hf; lia|]).
  { simpl. exists m, ht, (arrange rv kept []). rewrite dtors_nil, app_nil_r.
    assert (arrange rv (abs m kept) [] = d) as -> by (by rewrite <- (rep_abs _ _ _ _ _ HR), abs_arrange).
    by split_and!. }
  destruct (arrange_next _ _ _ _ _ _ _ HR) as (b & Hb & Hc & Hstep).
  rewrite (abs_cons _ _ _ _ Hc). cbn [apply_loop hd_or dapply entry]. rewrite Hb. ob.
  assert (func (data_of (pData b)) (arKey b, nKeyLength b, bh b) s =
          f (bkey (core_of b)) (data_of (pData b)) s) as -> by apply (Hresp (core_of b) s).
  cbn [core_of c_data]. destruct (f _ _ s) as [r s1].
  assert ((if rv then pListLast else pListNext) b = hd_or todo None) as -> by (by destruct rv).
  assert (Rep pool m ht (arrange rv (push rv kept p) todo) d) as HRp by (by rewrite arrange_push).
  destruct (arrange_cons rv kept todo p) as (l1 & l2 & E & Ed & _ & _).
  destruct (has_flag r ZEND_HASH_APPLY_REMOVE).
  - rewrite E in HR. destruct (delete_step _ _ _ _ _ _ _ HR Hc)
      as (m1 & ht1 & -> & HR1 & Hev & Hconf & Hnf & _ & _ & Hcore). ob.
    rewrite <- abs_app, <- Ed, abs_arrange in HR1.
    assert ((p ∉ kept) ∧ (p ∉ todo)) as [Hpk Hpt].
    { pose proof (lo_nodup _ _ _ (lk_list _ _ _ (rep_links _ _ _ _ _ HR))) as Hnd. rewrite <- E in Hnd.
      destruct rv; simpl in Hnd; apply NoDup_app in Hnd as (Hnd & Hdis & Hnd').
      - rewrite reverse_Permutation in Hnd. apply NoDup_cons in Hnd as [? _]. set_solver.
      - apply NoDup_cons in Hnd' as [? _]. set_solver. }
    assert (∀ l0, p ∉ l0 → abs m1 l0 = abs m l0) as Habs.
    { intros l0 Hl0. apply (abs_ext pool). intros q Hq. apply Hcore. set_solver. }
    assert (sublist (l1 ++ l2) (l1 ++ p :: l2)) as Hsub.
    { apply sublist_app; [done|]. by apply sublist_cons. }
    destruct (has_flag r ZEND_HASH_APPLY_STOP).
    + exists m1, ht1, (arrange rv kept todo). rewrite E, Ed in *. by split_and!.
    + specialize (IH fuel m1 ht1 kept _ s1 HR1 ltac:(simpl in Hf; lia)).
      rewrite !Habs in IH by done. destruct (dapply f s1 (abs m todo)) as [[dk removed] s'].
      destruct IH as (m' & ht' & l' & Hrun & HR' & Hev' & Hconf' & Hnf' & Hl').
      exists m', ht', l'. split; [done|]. split; [done|].
      rewrite Hev', Hev, (dtors_conf _ _ _ Hconf), <- app_assoc, <- dtors_app. split; [done|].
      split; [by eapply same_conf_trans|]. split; [congruence|]. rewrite E. rewrite Ed in Hl'. by etrans.
  - ob. destruct (has_flag r ZEND_HASH_APPLY_STOP).
    + exists m, ht, (arrange rv kept (p :: todo)). rewrite dtors_nil, app_nil_r.
      assert (arrange rv (abs m kept) ((bkey (core_of b), data_of (pData b)) :: abs m todo) = d) as ->.
      { rewrite <- (rep_abs _ _ _ _ _ HR), abs_arrange, (abs_cons _ _ _ _ Hc). done. }
      by split_and!.
    + specialize (IH fuel m ht (push rv kept p) _ s1 HRp ltac:(simpl in Hf; lia)).
      destruct (dapply f s1 (abs m todo)) as [[dk removed] s'].
      destruct IH as (m' & ht' & l' & Hrun & HR' & Hrest).
      exists m', ht', l'. rewrite (abs_push _ _ _ _ _ Hc), arrange_push in HR'.
      rewrite arrange_push in Hrest. done.
Qed.

(** The nesting of traversals: a fourth level is a fatal error. *)
Definition too_deep ht : bool := bApplyProtection ht && (3 <=? nApplyCount ht).

Definition protected ht : HashTable :=
  if bApplyProtection ht then set_nApplyCount ((nApplyCount ht + 1) mod 256) ht else ht.

Lemma protect_run ht : HASH_PROTECT_RECURSION ht = if too_deep ht then Bailout else OK (protected ht).
Proof.
  unfold HASH_PROTECT_RECURSION, too_deep, protected.
  destruct (bApplyProtection ht); [|done]. by destruct (3 <=? nApplyCount ht).
Qed.

Lemma rep_protected m ht l d : Rep pool m ht l d → Rep pool m (protected ht) l d.
Proof. intros HR. unfold protected. case_match; [by apply rep_count|done]. Qed.

(** The counter is back where it was. *)
Lemma unprotect_count ht ht' :
  0 <= nApplyCount ht < 256 → same_conf (protected ht) ht' →
  nApplyCount (HASH_UNPROTECT_RECURSION ht') = nApplyCount ht ∧
  bApplyProtection (HASH_UNPROTECT_RECURSION ht') = bApplyProtection ht.
Proof.
  intros Hn (_ & _ & _ & _ & _ & Hc & Hb). unfold HASH_UNPROTECT_RECURSION. unfold protected in *.
  destruct (bApplyProtection ht) eqn:E; simpl in Hb; rewrite ?E in Hb; rewrite Hb; simpl; [|by rewrite Hc].
  simpl in Hc. rewrite Hc. split; [|done]. rewrite Zminus_mod_idemp_l.
  replace (nApplyCount ht + 1 - 1) with (nApplyCount ht) by lia. by apply Z.mod_small.
Qed.

Lemma rep_unprotect m ht l d : Rep pool m ht l d → Rep pool m (HASH_UNPROTECT_RECURSION ht) l d.
Proof. intros HR. unfold HASH_UNPROTECT_RECURSION. case_match; [by apply rep_count|done]. Qed.

(** What a traversal in either direction does. *)
Definition apply_post {S} (rv : bool) (f : akey → V → S → Z * S) m ht (s : S) l d
    (r : outcome (mem V * HashTable * S)) : Prop :=
  if too_deep ht then r = Bailout
  else let '(dk, removed, s') := dapply f s (if rv then reverse d else d) in
    ∃ m' ht' l', r = OK (m', ht', s') ∧ Rep pool m' ht' l' (if rv then reverse dk else dk) ∧
      evs m' = evs m ++ dtors ht removed ∧ nApplyCount ht' = nApplyCount ht ∧
      nNextFreeElement ht' = nNextFreeElement ht ∧ sublist l' l.

Lemma apply_run {S} rv func (f : akey → V → S → Z * S) m ht l d s :
  respects func f → Rep pool m ht l d → 0 <= nApplyCount ht < 256 →
  apply_post rv f m ht s l d
    (let* ht := HASH_PROTECT_RECURSION ht in
     let* (m, ht, s) := apply_loop (fuel_of m) (if rv then pListLast else pListNext) func m ht s
                          ((if rv then pListTail else pListHead) ht) in
     OK (m, HASH_UNPROTECT_RECURSION ht, s)).
Proof.
  intros Hresp HR Hn. unfold apply_post. rewrite protect_run. destruct (too_deep ht); [done|]. ob.
  apply rep_protected in HR. pose proof (lk_list _ _ _ (rep_links _ _ _ _ _ HR)) as Hl.
  set (todo := if rv then reverse l else l).
  assert ((if rv then pListTail else pListHead) (protected ht) = hd_or todo None) as ->.
  { unfold todo. destruct rv; [|apply Hl]. by rewrite (lo_tail _ _ _ Hl), <- last_or_reverse, reverse_involutive. }
  assert (arrange rv [] todo = l) as El.
  { unfold todo. destruct rv; simpl; [by rewrite reverse_involutive, app_nil_r|done]. }
  pose proof (apply_loop_ok rv func f (fuel_of m) m (protected ht) [] todo d s Hresp) as Hloop.
  rewrite El in Hloop. specialize (Hloop HR).
  assert (abs m todo = if rv then reverse d else d) as Ha.
  { unfold todo. rewrite <- (rep_abs _ _ _ _ _ HR). destruct rv; [apply abs_reverse|done]. }
  rewrite Ha in Hloop. destruct (dapply f s _) as [[dk removed] s'].
  destruct Hloop as (m' & ht' & l' & Hrun & HR' & Hev & Hconf & Hnf & Hsub).
  { unfold todo. pose proof (list_length_fuel _ _ _ Hl). destruct rv; by rewrite ?length_reverse. }
  rewrite Hrun. ob. exists m', (HASH_UNPROTECT_RECURSION ht'), l'. split; [done|].
  split. { apply rep_unprotect. destruct rv; simpl in HR'; by rewrite ?app_nil_r in HR'. }
  assert (∀ h, nNextFreeElement (HASH_UNPROTECT_RECURSION h) = nNextFreeElement h ∧
               nNextFreeElement (protected h) = nNextFreeElement h ∧
               pDestructor (protected h) = pDestructor h) as Hflds.
  { intros h. unfold HASH_UNPROTECT_RECURSION, protected. by destruct (bApplyProtection h). }
  destruct (Hflds ht') as (-> & _ & _). destruct (Hflds ht) as (_ & E1 & E2).
  split; [rewrite Hev; unfold dtors; by rewrite E2|].
  split; [by apply unprotect_count|]. split; [congruence|done].
Qed.

Lemma apply_spec {S} m ht l d (f : V → S → Z * S) s :
  Rep pool m ht l d → 0 <= nApplyCount ht < 256 →
  apply_post false (λ _, f) m ht s l d (zend_hash_apply m ht f s) ∧
  apply_post true (λ _, f) m ht s l d (zend_hash_reverse_apply m ht f s).
Proof.
  intros HR Hn. split.
  - by apply (apply_run false (λ v _, f v)).
  - by apply (apply_run true (λ v _, f v)).
Qed.

Lemma apply_args_spec {S A} m ht l d (func : V → A → option zstr * Z * Z → S → Z * S) (a : A)
    (f : akey → V → S → Z * S) s :
  respects (λ v key, func v a key) f → Rep pool m ht l d → 0 <= nApplyCount ht < 256 →
  apply_post false f m ht s l d (zend_hash_apply_with_arguments m ht func a s).
Proof. intros Hresp HR Hn. by apply (apply_run false (λ v key, func v a key)). Qed.

End life.
