(* ===== verification/ZendHashCopy.v ===== *)
(** Copying and merging tables, and the internal pointer. *)

From S2P Require Import Prelude Dll OrderedDict ZendHash ZendHashInv ZendHashOps.
From S2P Require Import ZendHashDict ZendHashExt ZendHashLife.

Section copy.
Context {V : Type} `{PEMalloc} (pool : positive → list Z).
Implicit Types (m : mem V) (ht : HashTable) (p q : ptr) (l : list ptr) (d : list (akey * V)).

(** * Frames: a table only depends on its own buckets *)

Lemma rep_frame m m' ht l d :
  (∀ q, q ∈ l → heap m' !! q = heap m !! q) → Rep pool m ht l d → Rep pool m' ht l d.
Proof.
  intros Hq HR. destruct HR as [HL Hk Ha Hu Hn].
  assert (∀ q, q ∈ l → core m' q = core m q) as Hc by (intros q Hin; unfold core; by rewrite Hq).
  split; try done.
  - eapply links_ok_ext; [..|done]; intros q Hin; unfold lview, cview, core; by rewrite Hq.
  - intros q c Hin. rewrite Hc by done. by apply Hk.
  - by rewrite <- Ha; apply (abs_ext pool).
Qed.

Lemma rep_call m ht l d e : Rep pool m ht l d → Rep pool (call m e) ht l d.
Proof. by apply rep_frame. Qed.

(** * What a copy means for the dictionary *)

(** The value reaches the target under the key, unless the key is there and
    [over] says to keep it. *)
Definition dput (over : bool) d (kv : akey * V) : list (akey * V) :=
  if negb over && bool_decide (kv.1 ∈ d.*1) then d else dupdate kv.1 kv.2 d.
Definition dmerge (over : bool) (dt ds : list (akey * V)) : list (akey * V) := foldl (dput over) dt ds.

(** The calls of the target's destructor and of the copy constructor. *)
Fixpoint merge_events (dtor ctor over : bool) (dt ds : list (akey * V)) : list (event V) :=
  match ds with
  | [] => []
  | (k, v) :: ds =>
      (if negb over && bool_decide (k ∈ dt.*1) then []
       else (if dtor then EvDtor <$> option_list (dlookup k dt) else []) ++
            (if ctor then [EvCopy v] else [])) ++
      merge_events dtor ctor over (dput over dt (k, v)) ds
  end.

(** ** One element *)

(** The key of a bucket is a key its owner may pass on. *)
Lemma bucket_key_valid m p b :
  heap m !! p = Some b → key_ok pool p (core_of b) → nKeyLength b ≠ 0 →
  ∃ k, arKey b = Some k ∧ bh b = str_hash (zs_val k) ∧ key_valid pool m k (nKeyLength b) ∧
    bkey (core_of b) = KStr (zs_val k).
Proof.
  intros Hb [_ [[Hz _]|(k & Hk & Hl & Hr & Hh & Ha)]] Hne; simpl in *; [done|].
  exists k. split_and!; try done.
  - split; [done|]. split; [done|]. destruct (zs_addr k) as [n|q|n] eqn:Eq; [done| |done]. subst q.
    intros c k' Hc Hk' _. unfold core in Hc. rewrite Hb in Hc. injection Hc as <-. simpl in Hk'. congruence.
  - unfold bkey. simpl. rewrite (proj2 (Z.eqb_neq _ _)) by done. by rewrite Hk.
Qed.

Lemma bucket_key_idx p (b : Bucket V) :
  key_ok pool p (core_of b) → nKeyLength b = 0 → bkey (core_of b) = KIdx (bh b) ∧ is_ulong (bh b).
Proof. intros [Hu _] Hz. unfold bkey. simpl. by rewrite Hz. Qed.

Lemma put_bucket_spec m target lt dt p b v sz :
  Rep pool m target lt dt → Z.of_nat (length lt) + 1 < 2 ^ 32 →
  heap m !! p = Some b → key_ok pool p (core_of b) →
  ins_spec pool m target lt dt (bkey (core_of b)) v false
    (if negb (nKeyLength b =? 0)
     then _zend_hash_quick_add_or_update m target (arKey b) (nKeyLength b) (bh b) v sz HASH_UPDATE
     else _zend_hash_index_update_or_next_insert m target (bh b) v sz HASH_UPDATE).
Proof.
  intros HR Hl Hb Hk. destruct (Z.eqb_spec (nKeyLength b) 0) as [Hz|Hz]; simpl.
  - destruct (bucket_key_idx _ _ Hk Hz) as [-> Hu].
    exact (index_update_spec pool m target lt dt (bh b) v sz HASH_UPDATE HR Hu Hl).
  - destruct (bucket_key_valid _ _ _ Hb Hk Hz) as (k & -> & -> & Hv & ->).
    exact (quick_add_or_update_spec pool m target lt dt k _ v sz HASH_UPDATE HR Hv Hl).
Qed.

(** After the insertion of an element and the call of the copy constructor:
    the target has it, the source is as it was. *)
Record put_post m (target source : HashTable) lt dt ls ds (K : akey) (v : V) (over ctor : bool)
    m' (target' : HashTable) (lt' : list ptr) : Prop := {
  pp_target : Rep pool m' target' lt' (dput over dt (K, v));
  pp_source : Rep pool m' source ls ds;
  pp_heap : ∀ q, q ∈ ls → heap m' !! q = heap m !! q;
  pp_frame : ∀ q, q ∉ lt' → heap m' !! q = heap m !! q;
  pp_disj : lt' ## ls;
  pp_len : (length lt' ≤ length lt + 1)%nat;
  pp_evs : evs m' = evs m ++ merge_events (pDestructor target) ctor over dt [(K, v)];
  pp_dtor : pDestructor target' = pDestructor target;
  pp_old : ∀ q, q ∈ lt → q ∈ lt';
}.

Lemma check_init_dtor ht : pDestructor (CHECK_INIT ht) = pDestructor ht.
Proof. unfold CHECK_INIT. by case_match. Qed.

Lemma put_done m target source lt dt ls ds K v (over ctor : bool) (r : outcome (zresult * nptr * mem V * HashTable)) :
  Rep pool m source ls ds → lt ## ls → (over = false → K ∉ dt.*1) →
  ins_spec pool m target lt dt K v false r →
  ∃ p m1 target', r = OK (SUCCESS, Some p, m1, target') ∧
    ∃ m' lt', copy_ctor ctor m1 (Some p) = OK m' ∧
      put_post m target source lt dt ls ds K v over ctor m' target' lt'.
Proof.
  intros HS Hdis Hov (p & m1 & target' & lt' & -> & Hp & Hup). exists p, m1, target'. split; [done|].
  destruct Hup as [HR Hlt' _ Hnew _ Hval Hframe Hev Hdt _ _].
  assert (lt' ## ls) as Hdis'.
  { intros q Hq Hqs. subst lt'. case_decide as HK; [by apply (Hdis q)|].
    apply elem_of_app in Hq as [Hq| ->%list_elem_of_singleton]; [by apply (Hdis q)|].
    destruct (rep_live _ _ _ _ _ _ HS Hqs) as (c & Hc & _). unfold core in Hc. by rewrite Hnew in Hc. }
  assert (dput over dt (K, v) = dupdate K v dt) as Hput.
  { unfold dput. simpl. destruct over; [done|]. simpl. rewrite bool_decide_false; auto. }
  assert (∃ m', copy_ctor ctor m1 (Some p) = OK m' ∧ heap m' = heap m1 ∧
                evs m' = evs m1 ++ if ctor then [EvCopy v] else []) as (m' & Hrun & Hheap & Hevs).
  { destruct ctor; simpl; [|exists m1; by rewrite app_nil_r].
    destruct Hval as (c & Hc & Hent). destruct (core_deref pool _ _ _ Hc) as (b & -> & <-). ob.
    injection Hent as _ <-. eexists. split; [done|]. done. }
  exists m', lt'. split; [done|].
  assert (∀ q, q ∈ ls → heap m' !! q = heap m !! q) as Hls.
  { intros q Hq. rewrite Hheap. apply Hframe. intros ?. by apply (Hdis' q). }
  split; try done.
  - rewrite Hput. by eapply rep_frame; [|exact HR]; rewrite Hheap.
  - by eapply rep_frame.
  - intros q Hq. rewrite Hheap. auto.
  - subst lt'. case_decide; rewrite ?length_app; simpl; lia.
  - rewrite Hevs, Hev, check_init_dtor. simpl. rewrite app_nil_r.
    destruct (negb over && bool_decide (K ∈ dt.*1)) eqn:E; [|by rewrite app_assoc].
    apply andb_true_iff in E as [Eo%negb_true_iff ?%bool_decide_eq_true]. by destruct (Hov Eo).
  - by rewrite Hdt, check_init_dtor.
  - intros q Hq. subst lt'. case_decide; set_solver.
Qed.

(** An element whose key is kept changes nothing. *)
Lemma put_kept m target target' source lt dt ls ds K v ctor :
  Rep pool m target' lt dt → pDestructor target' = pDestructor target → Rep pool m source ls ds →
  lt ## ls → K ∈ dt.*1 →
  put_post m target source lt dt ls ds K v false ctor m target' lt.
Proof.
  intros HR Hd HS Hdis HK. assert (bool_decide (K ∈ dt.*1) = true) as E by (by apply bool_decide_eq_true).
  split; try done; [|lia|].
  - unfold dput. simpl. by rewrite E.
  - simpl. by rewrite E, app_nil_r.
Qed.

Lemma put_post_trans m target source lt dt ls ds K v over ctor m1 target1 (lt1 : list ptr) (m2 : mem V) dt2 ds' target2 lt2 :
  put_post m target source lt dt ls ds K v over ctor m1 target1 lt1 →
  Rep pool m2 target2 lt2 dt2 ∧ Rep pool m2 source ls ds ∧ (∀ q, q ∉ lt2 → heap m2 !! q = heap m1 !! q) ∧
  lt2 ## ls ∧ evs m2 = evs m1 ++ merge_events (pDestructor target1) ctor over (dput over dt (K, v)) ds' ∧
  pDestructor target2 = pDestructor target1 ∧ (∀ q, q ∈ lt1 → q ∈ lt2) →
  Rep pool m2 target2 lt2 dt2 ∧ Rep pool m2 source ls ds ∧ (∀ q, q ∉ lt2 → heap m2 !! q = heap m !! q) ∧
  lt2 ## ls ∧ evs m2 = evs m ++ merge_events (pDestructor target) ctor over dt ((K, v) :: ds') ∧
  pDestructor target2 = pDestructor target ∧ (∀ q, q ∈ lt → q ∈ lt2).
Proof.
  intros [] (HR & HS & Hfr & Hdis & Hev & Hd & Hold). split_and!; try done.
  - intros q Hq. rewrite Hfr by done. apply pp_frame0. auto.
  - rewrite Hev, pp_evs0, pp_dtor0, <- app_assoc. simpl. by rewrite app_nil_r.
  - congruence.
  - auto.
Qed.

(** The result of a whole copy. *)
Definition merged m (target source : HashTable) (lt : list ptr) dt ls ds over ctor (todo : list (akey * V))
    m' target' : Prop :=
  ∃ lt', Rep pool m' target' lt' (dmerge over dt todo) ∧ Rep pool m' source ls ds ∧
    (∀ q, q ∉ lt' → heap m' !! q = heap m !! q) ∧ lt' ## ls ∧
    evs m' = evs m ++ merge_events (pDestructor target) ctor over dt todo ∧
    pDestructor target' = pDestructor target ∧ (∀ q, q ∈ lt → q ∈ lt').

Lemma merged_nil m target source lt dt ls ds over ctor :
  Rep pool m target lt dt → Rep pool m source ls ds → lt ## ls →
  merged m target source lt dt ls ds over ctor [] m target.
Proof. intros. exists lt. simpl. rewrite app_nil_r. by split_and!. Qed.

Lemma merged_cons m target source lt dt ls ds K v over ctor todo m1 target1 lt1 m2 target2 :
  put_post m target source lt dt ls ds K v over ctor m1 target1 lt1 →
  merged m1 target1 source lt1 (dput over dt (K, v)) ls ds over ctor todo m2 target2 →
  merged m target source lt dt ls ds over ctor ((K, v) :: todo) m2 target2.
Proof. intros Hp (lt2 & Hrest). exists lt2. by eapply put_post_trans. Qed.

(** The bucket at the head of the rest of the source. *)
Lemma source_next m source l1 p l2 ds :
  Rep pool m source (l1 ++ p :: l2) ds →
  ∃ b, heap m !! p = Some b ∧ key_ok pool p (core_of b) ∧ pListNext b = hd_or l2 None ∧
    abs m (p :: l2) = (bkey (core_of b), data_of (pData b)) :: abs m l2.
Proof.
  intros HR. destruct (arrange_next pool m source false l1 p l2 ds HR) as (b & Hb & Hc & Hn).
  apply rd_OK in Hb. exists b. split; [done|].
  split; [eapply rep_keys; [exact HR|set_solver|done]|]. split; [done|]. by rewrite (abs_cons _ _ _ _ Hc).
Qed.

Lemma copy_loop_ok fuel m target source ctor (stp : bool) sz lt dt ls ds l1 l2 :
  Rep pool m target lt dt → Rep pool m source ls ds → lt ## ls → ls = l1 ++ l2 →
  Z.of_nat (length lt) + Z.of_nat (length l2) < 2 ^ 32 → (length l2 < fuel)%nat →
  ∃ m' target', copy_loop fuel m target source ctor stp sz (hd_or l2 None) = OK (m', target') ∧
    merged m target source lt dt ls ds true ctor (abs m l2) m' target'.
Proof.
  revert fuel m target lt dt l1. induction l2 as [|p l2 IH]; intros fuel m target lt dt l1 HT HS Hdis Hls Hmax Hf;
    (destruct fuel as [|fuel]; [simpl in Hf; lia|]); simpl hd_or.
  { exists m, target. split; [done|]. by apply merged_nil. }
  pose proof HS as HS'. rewrite Hls in HS'. destruct (source_next _ _ _ _ _ _ HS') as (b & Hb & Hk & Hn & Ha).
  cbn [copy_loop]. cbv zeta.
  set (t1 := if stp && bool_decide (pInternalPointer source = Some p) then set_pInternalPointer None target else target).
  assert (Rep pool m t1 lt dt ∧ pDestructor t1 = pDestructor target) as [HT1 Ht1].
  { unfold t1. case_match; [|done]. split; [by apply rep_ip|done]. }
  unfold deref at 1. rewrite Hb. ob.
  destruct (put_done m t1 source lt dt ls ds _ (data_of (pData b)) true ctor _ HS Hdis ltac:(done)
              (put_bucket_spec m t1 lt dt p b (data_of (pData b)) sz HT1 ltac:(simpl in Hmax; lia) Hb Hk))
    as (np & m1 & t2 & Hrun & m2 & lt' & Hctor & Hput).
  rewrite Hrun. ob. rewrite Hctor. ob. unfold deref. rewrite (pp_heap _ _ _ _ _ _ _ _ _ _ _ _ _ _ Hput), Hb by set_solver.
  ob. rewrite Hn. pose proof (pp_len _ _ _ _ _ _ _ _ _ _ _ _ _ _ Hput).
  destruct (IH fuel m2 t2 lt' (dput true dt (bkey (core_of b), data_of (pData b))) (l1 ++ [p]))
    as (m' & t' & Hloop & Hm); [apply Hput|apply Hput|apply Hput|by rewrite <- app_assoc|simpl in *; lia|simpl in Hf; lia|].
  exists m', t'. split; [done|]. rewrite Ha.
  assert (abs m2 l2 = abs m l2) as E.
  { apply (abs_ext pool). intros q Hq. unfold core. by rewrite (pp_heap _ _ _ _ _ _ _ _ _ _ _ _ _ _ Hput) by set_solver. }
  rewrite E in Hm. eapply (merged_cons m target); [|exact Hm].
  destruct Hput. split; try done; by rewrite <- Ht1.
Qed.

Lemma head_in m ht l d q : Rep pool m ht l d → pListHead ht = Some q → q ∈ l.
Proof.
  intros HR Hq. rewrite (lo_head _ _ _ (lk_list _ _ _ (rep_links _ _ _ _ _ HR))) in Hq.
  destruct l; [done|]. injection Hq as ->. set_solver.
Qed.

Lemma copy_spec m target source ctor sz lt dt ls ds :
  Rep pool m target lt dt → Rep pool m source ls ds → lt ## ls →
  Z.of_nat (length lt) + Z.of_nat (length ls) < 2 ^ 32 →
  ∃ m' target', zend_hash_copy m target source ctor sz = OK (m', target') ∧
    merged m target source lt dt ls ds true ctor ds m' target'.
Proof.
  intros HT HS Hdis Hmax. pose proof (lk_list _ _ _ (rep_links _ _ _ _ _ HS)) as Hl. unfold zend_hash_copy.
  rewrite (lo_head _ _ _ Hl).
  destruct (copy_loop_ok (fuel_of m) m target source ctor (bool_decide (pInternalPointer target = None)) sz
              lt dt ls ds [] ls) as (m' & t' & Hrun & Hm); try done; [by eapply list_length_fuel|].
  rewrite Hrun. ob. eexists _, _. split; [done|]. rewrite (rep_abs _ _ _ _ _ HS) in Hm.
  destruct Hm as (lt' & HR & Hrest). exists lt'.
  destruct (pInternalPointer t') eqn:E; [done|]. split; [|done]. apply rep_ip; [done|].
  intros q. by eapply head_in.
Qed.

(** ** Merging *)

Definition merge_mode (overwrite : bool) : Z := if overwrite then HASH_UPDATE else HASH_ADD.

(** The body of the loop of [_zend_hash_merge]. *)
Definition merge_body m (target : HashTable) (b : Bucket V) (ctor : bool) (sz mode : Z) : outcome (mem V * HashTable) :=
  if 0 <? nKeyLength b then
    let* (r, t, m, target) :=
      _zend_hash_quick_add_or_update m target (arKey b) (nKeyLength b) (bh b) (data_of (pData b)) sz mode in
    let* m := copy_ctor (ctor && bool_decide (r = SUCCESS)) m t in
    OK (m, target)
  else
    let* go :=
      if mode =? HASH_UPDATE then OK true
      else let* ex := zend_hash_index_exists m target (bh b) in OK (negb ex) in
    if go : bool then
      let* (r, t, m, target) :=
        _zend_hash_index_update_or_next_insert m target (bh b) (data_of (pData b)) sz HASH_UPDATE in
      let* m := copy_ctor (ctor && bool_decide (r = SUCCESS)) m t in
      OK (m, target)
    else OK (m, target).

(** A refused or performed insertion, as the loop continues. *)
Lemma put_or_keep m target source lt dt ls ds K v over ctor (r : outcome (zresult * nptr * mem V * HashTable)) :
  Rep pool m target lt dt → Rep pool m source ls ds → lt ## ls →
  ins_spec pool m target lt dt K v (negb over) r →
  ∃ m' target' lt',
    (let* (r, t, m, target) := r in
     let* m := copy_ctor (ctor && bool_decide (r = SUCCESS)) m t in OK (m, target)) = OK (m', target') ∧
    put_post m target source lt dt ls ds K v over ctor m' target' lt'.
Proof.
  intros HT HS Hdis. unfold ins_spec. destruct (negb over && bool_decide (K ∈ dt.*1)) eqn:E.
  - intros ->. ob. rewrite bool_decide_false, andb_false_r by done. ob.
    apply andb_true_iff in E as [->%negb_true_iff HK%bool_decide_eq_true].
    exists m, (CHECK_INIT target), lt. split; [done|].
    apply put_kept; try done; [|apply check_init_dtor]. by apply rep_check_init.
  - intros Hins. destruct (put_done m target source lt dt ls ds K v over ctor r HS Hdis)
      as (p & m1 & target' & -> & m' & lt' & Hctor & Hput); [|done|].
    { intros ->. simpl in E. by apply bool_decide_eq_false in E. }
    ob. rewrite bool_decide_true, andb_true_r by done. rewrite Hctor. ob. eauto.
Qed.

Lemma merge_body_ok m target source over ctor sz lt dt ls ds p b :
  Rep pool m target lt dt → Rep pool m source ls ds → lt ## ls →
  Z.of_nat (length lt) + 1 < 2 ^ 32 → heap m !! p = Some b → key_ok pool p (core_of b) →
  ∃ m' target' lt', merge_body m target b ctor sz (merge_mode over) = OK (m', target') ∧
    put_post m target source lt dt ls ds (bkey (core_of b)) (data_of (pData b)) over ctor m' target' lt'.
Proof.
  intros HT HS Hdis Hmax Hb Hk. unfold merge_body.
  destruct (decide (nKeyLength b = 0)) as [Hz|Hz].
  - rewrite Hz. change (0 <? 0) with false. cbv iota.
    destruct (bucket_key_idx _ _ Hk Hz) as [-> Hu].
    pose proof (index_update_spec pool m target lt dt (bh b) (data_of (pData b)) sz HASH_UPDATE HT Hu Hmax) as Hins.
    destruct over; [ob; exact (put_or_keep _ _ _ _ _ _ _ _ _ true ctor _ HT HS Hdis Hins)|].
    change (merge_mode false =? HASH_UPDATE) with false. cbv iota.
    rewrite (index_exists_spec _ _ _ _ _ _ HT). ob.
    destruct (bool_decide _) eqn:E; simpl negb; cbv iota.
    + apply bool_decide_eq_true in E. exists m, target, lt. split; [done|]. by apply put_kept.
    + apply (put_or_keep m target source lt dt ls ds _ _ false); try done.
      unfold ins_spec in *. simpl negb. rewrite E. exact Hins.
  - assert (0 < nKeyLength b) as Hpos.
    { destruct Hk as [_ [[? _]|(k & _ & _ & ? & _)]]; simpl in *; lia. }
    rewrite (proj2 (Z.ltb_lt _ _) Hpos).
    destruct (bucket_key_valid _ _ _ Hb Hk Hz) as (k & -> & -> & Hv & ->).
    apply put_or_keep; try done.
    pose proof (quick_add_or_update_spec pool m target lt dt k _ (data_of (pData b)) sz (merge_mode over) HT Hv Hmax) as Hins.
    by destruct over.
Qed.

Lemma merge_loop_ok fuel m target source over ctor sz lt dt ls ds l1 l2 :
  Rep pool m target lt dt → Rep pool m source ls ds → lt ## ls → ls = l1 ++ l2 →
  Z.of_nat (length lt) + Z.of_nat (length l2) < 2 ^ 32 → (length l2 < fuel)%nat →
  ∃ m' target', merge_loop fuel m target ctor sz (merge_mode over) (hd_or l2 None) = OK (m', target') ∧
    merged m target source lt dt ls ds over ctor (abs m l2) m' target'.
Proof.
  revert fuel m target lt dt l1. induction l2 as [|p l2 IH]; intros fuel m target lt dt l1 HT HS Hdis Hls Hmax Hf;
    (destruct fuel as [|fuel]; [simpl in Hf; lia|]); simpl hd_or.
  { exists m, target. split; [done|]. by apply merged_nil. }
  pose proof HS as HS'. rewrite Hls in HS'. destruct (source_next _ _ _ _ _ _ HS') as (b & Hb & Hk & Hn & Ha).
  cbn [merge_loop]. unfold deref at 1. rewrite Hb. ob.
  destruct (merge_body_ok m target source over ctor sz lt dt ls ds p b) as (m2 & t2 & lt' & Hrun & Hput);
    try done; [simpl in Hmax; lia|].
  unfold merge_body in Hrun. rewrite Hrun. ob.
  unfold deref. rewrite (pp_heap _ _ _ _ _ _ _ _ _ _ _ _ _ _ Hput), Hb by set_solver. ob. rewrite Hn.
  pose proof (pp_len _ _ _ _ _ _ _ _ _ _ _ _ _ _ Hput).
  destruct (IH fuel m2 t2 lt' (dput over dt (bkey (core_of b), data_of (pData b))) (l1 ++ [p]))
    as (m' & t' & Hloop & Hm); [apply Hput|apply Hput|apply Hput|by rewrite <- app_assoc|simpl in *; lia|simpl in Hf; lia|].
  exists m', t'. split; [done|]. rewrite Ha.
  assert (abs m2 l2 = abs m l2) as E.
  { apply (abs_ext pool). intros q Hq. unfold core. by rewrite (pp_heap _ _ _ _ _ _ _ _ _ _ _ _ _ _ Hput) by set_solver. }
  rewrite E in Hm. by eapply (merged_cons m target).
Qed.

Lemma merge_spec m target source over ctor sz lt dt ls ds :
  Rep pool m target lt dt → Rep pool m source ls ds → lt ## ls →
  Z.of_nat (length lt) + Z.of_nat (length ls) < 2 ^ 32 →
  ∃ m' target', _zend_hash_merge m target source ctor sz over = OK (m', target') ∧
    merged m target source lt dt ls ds over ctor ds m' target' ∧ pInternalPointer target' = pListHead target'.
Proof.
  intros HT HS Hdis Hmax. pose proof (lk_list _ _ _ (rep_links _ _ _ _ _ HS)) as Hl. unfold _zend_hash_merge.
  rewrite (lo_head _ _ _ Hl).
  destruct (merge_loop_ok (fuel_of m) m target source over ctor sz lt dt ls ds [] ls)
    as (m' & t' & Hrun & Hm); try done; [by eapply list_length_fuel|].
  unfold merge_mode in Hrun. rewrite Hrun. ob. eexists _, _. split; [done|]. rewrite (rep_abs _ _ _ _ _ HS) in Hm.
  split; [|done]. destruct Hm as (lt' & HR & Hrest). exists lt'. split; [|done].
  apply rep_ip; [done|]. intros q. by eapply head_in.
Qed.

End copy.
