(* ===== verification/ZendHashIter.v ===== *)
(** Iteration with the internal pointer or with an external position, and
    the search for the smallest and the greatest element. *)

From S2P Require Import Prelude Dll OrderedDict ZendHash ZendHashInv ZendHashOps.
From S2P Require Import ZendHashDict ZendHashExt ZendHashLife ZendHashCopy.

Section iter.
Context {V : Type} `{PEMalloc} (pool : positive → list Z).
Implicit Types (m : mem V) (ht : HashTable) (p q : ptr) (l : list ptr) (d : list (akey * V)).

(** The position [pos] stands at index [i] of the list (the length: past the end). *)
Definition at_index ht l (pos : option nptr) (i : nat) : Prop := current ht pos = l !! i.

Lemma set_current_spec ht pos c pos' ht' :
  set_current ht pos c = (pos', ht') → current ht' pos' = c ∧ pListHead ht' = pListHead ht.
Proof. destruct pos; simpl; intros [= <- <-]; done. Qed.

Lemma set_current_rep m ht l d pos c pos' ht' :
  Rep pool m ht l d → (∀ p, c = Some p → p ∈ l) → set_current ht pos c = (pos', ht') → Rep pool m ht' l d.
Proof. intros HR Hc. destruct pos; simpl; intros [= <- <-]; [done|]. by apply rep_ip. Qed.

Lemma hd_or_lookup l : hd_or l None = l !! 0%nat.
Proof. by destruct l. Qed.

(** What a live position reads. *)
Lemma at_index_bucket m ht l d i p :
  Rep pool m ht l d → l !! i = Some p →
  ∃ b, heap m !! p = Some b ∧ key_ok pool p (core_of b) ∧ d !! i = Some (entry (core_of b)) ∧
    pListNext b = l !! S i ∧ pListLast b = (match i with O => None | S j => l !! j end).
Proof.
  intros HR Hp. pose proof (list_elem_of_split_length _ _ _ Hp) as (l1 & l2 & -> & Hlen).
  assert (lview m p = Some (last_or None l1, hd_or l2 None)) as Hv.
  { pose proof (lo_dll _ _ _ (lk_list _ _ _ (rep_links _ _ _ _ _ HR))) as Hd.
    by apply dseg_app in Hd as [_ [? _]]. }
  destruct (source_next _ _ _ _ _ _ _ HR) as (b & Hb & Hk & Hn & Ha).
  exists b. split; [done|]. split; [done|]. split; [|split].
  - rewrite <- (rep_abs _ _ _ _ _ HR), abs_app, Ha.
    assert (length (abs m l1) = i) as Hl1.
    { subst i. assert (∀ q, q ∈ l1 → is_Some (core m q)) as Hlive.
      { intros q Hq. destruct (rep_live pool m ht _ d q HR) as (c & -> & _); [set_solver|eauto]. }
      clear -Hlive. induction l1 as [|x l1 IH]; [done|]. destruct (Hlive x) as [c Hc]; [set_solver|].
      rewrite (abs_cons _ _ _ _ Hc). simpl. rewrite IH; [done|]. intros q Hq. apply Hlive. set_solver. }
    rewrite lookup_app_r by lia. by rewrite Hl1, Nat.sub_diag.
  - rewrite Hn, lookup_app_r by lia. replace (S i - length l1)%nat with 1%nat by lia.
    simpl. apply hd_or_lookup.
  - unfold lview in Hv. rewrite Hb in Hv. injection Hv as -> _. subst i.
    destruct l1 as [|x l1 _] using rev_ind; [done|]. rewrite last_or_snoc, length_app. simpl.
    rewrite Nat.add_1_r, <- app_assoc, lookup_app_r, Nat.sub_diag by lia. done.
Qed.

Lemma reset_spec m ht l d pos pos' ht' :
  Rep pool m ht l d → zend_hash_internal_pointer_reset_ex ht pos = (pos', ht') →
  Rep pool m ht' l d ∧ at_index ht' l pos' 0.
Proof.
  intros HR Hset. unfold zend_hash_internal_pointer_reset_ex in Hset. split.
  - eapply set_current_rep; [done| |exact Hset]. intros q. by eapply head_in.
  - apply set_current_spec in Hset as [E _]. unfold at_index. rewrite E.
    rewrite (lo_head _ _ _ (lk_list _ _ _ (rep_links _ _ _ _ _ HR))). apply hd_or_lookup.
Qed.

Lemma end_spec m ht l d pos pos' ht' :
  Rep pool m ht l d → zend_hash_internal_pointer_end_ex ht pos = (pos', ht') →
  Rep pool m ht' l d ∧ at_index ht' l pos' (pred (length l)).
Proof.
  intros HR Hset. unfold zend_hash_internal_pointer_end_ex in Hset.
  assert (pListTail ht = l !! pred (length l)) as Ht.
  { rewrite (lo_tail _ _ _ (lk_list _ _ _ (rep_links _ _ _ _ _ HR))). unfold last_or.
    rewrite last_lookup. by destruct (l !! _). }
  split.
  - eapply set_current_rep; [done| |exact Hset]. intros q. rewrite Ht. by intros ?%list_elem_of_lookup_2.
  - apply set_current_spec in Hset as [E _]. unfold at_index. congruence.
Qed.

(** One step forward: SUCCESS and the next index, or FAILURE past the end. *)
Lemma forward_spec m ht l d pos i :
  Rep pool m ht l d → at_index ht l pos i →
  ∃ pos' ht', Rep pool m ht' l d ∧
    zend_hash_move_forward_ex m ht pos =
      OK (if decide (i < length l)%nat then SUCCESS else FAILURE, pos', ht') ∧
    at_index ht' l pos' (if decide (i < length l)%nat then S i else i).
Proof.
  intros HR Hi. unfold zend_hash_move_forward_ex. unfold at_index in Hi. rewrite Hi.
  destruct (l !! i) as [p|] eqn:Hp.
  - destruct (at_index_bucket _ _ _ _ _ _ HR Hp) as (b & Hb & _ & _ & Hn & _).
    unfold deref. rewrite Hb. ob. destruct (set_current ht pos (pListNext b)) as [pos' ht'] eqn:Hset.
    apply lookup_lt_Some in Hp. rewrite !decide_True by done. exists pos', ht'. split; [|split; [done|]].
    + eapply set_current_rep; [done| |exact Hset]. rewrite Hn. by intros q ?%list_elem_of_lookup_2.
    + apply set_current_spec in Hset as [E _]. unfold at_index. congruence.
  - apply lookup_ge_None in Hp as Hge. rewrite !decide_False by lia. exists pos, ht. split_and!; try done.
    unfold at_index. congruence.
Qed.

(** One step back: from the first element past the beginning. *)
Lemma backwards_spec m ht l d pos i :
  Rep pool m ht l d → at_index ht l pos i → (i < length l)%nat →
  ∃ pos' ht', Rep pool m ht' l d ∧ zend_hash_move_backwards_ex m ht pos = OK (SUCCESS, pos', ht') ∧
    match i with O => current ht' pos' = None | S j => at_index ht' l pos' j end.
Proof.
  intros HR Hi Hlt. unfold zend_hash_move_backwards_ex. unfold at_index in *. rewrite Hi.
  destruct (lookup_lt_is_Some_2 l i Hlt) as [p Hp]. rewrite Hp.
  destruct (at_index_bucket _ _ _ _ _ _ HR Hp) as (b & Hb & _ & _ & _ & Hl).
  unfold deref. rewrite Hb. ob. destruct (set_current ht pos (pListLast b)) as [pos' ht'] eqn:Hset.
  exists pos', ht'. split; [|split; [done|]].
  - eapply set_current_rep; [done| |exact Hset]. rewrite Hl. destruct i; [done|].
    by intros q ?%list_elem_of_lookup_2.
  - apply set_current_spec in Hset as [E _]. rewrite E, Hl. by destruct i.
Qed.

(** The key and the value at a position are those of the dictionary. *)
Definition cur_of (kv : option (akey * V)) : cur_key :=
  match kv with
  | Some (KStr s, _) => CurString s (Z.of_nat (length s))
  | Some (KIdx h, _) => CurLong h
  | None => CurNone
  end.

Lemma current_spec m ht l d pos i :
  Rep pool m ht l d → at_index ht l pos i →
  zend_hash_get_current_data_ex m ht pos = OK (snd <$> d !! i) ∧
  zend_hash_get_current_key_ex m ht false pos = OK (cur_of (d !! i)) ∧
  zend_hash_get_current_key_type_ex m ht pos = OK (cur_key_code (cur_of (d !! i))).
Proof.
  intros HR Hi. unfold zend_hash_get_current_data_ex, zend_hash_get_current_key_ex,
    zend_hash_get_current_key_type_ex. unfold at_index in Hi. rewrite Hi.
  destruct (l !! i) as [p|] eqn:Hp.
  - destruct (at_index_bucket _ _ _ _ _ _ HR Hp) as (b & Hb & Hk & Hd & _).
    unfold deref. rewrite Hb, Hd. ob. unfold entry. simpl.
    destruct (Z.eqb_spec (nKeyLength b) 0) as [Hz|Hz]; simpl.
    + destruct (bucket_key_idx _ _ _ Hk Hz) as [-> _]. done.
    + destruct (bucket_key_valid _ _ _ _ Hb Hk Hz) as (k & Hk' & _ & Hv & E). rewrite E, Hk'. simpl.
      destruct Hv as (-> & _). done.
  - assert (d !! i = None) as ->.
    { apply lookup_ge_None. apply lookup_ge_None in Hp. rewrite (abs_length _ _ _ _ _ HR). lia. }
    done.
Qed.

(** [n] steps forward from the start. *)
Fixpoint forward_n (n : nat) m ht (pos : option nptr) : outcome (option nptr * HashTable) :=
  match n with
  | O => OK (pos, ht)
  | S n => let* (r, pos, ht) := zend_hash_move_forward_ex m ht pos in forward_n n m ht pos
  end.

Lemma forward_n_ok n m ht l d pos i :
  Rep pool m ht l d → at_index ht l pos i → (i + n ≤ length l)%nat →
  ∃ pos' ht', forward_n n m ht pos = OK (pos', ht') ∧ Rep pool m ht' l d ∧ at_index ht' l pos' (i + n).
Proof.
  revert ht pos i. induction n as [|n IH]; intros ht pos i HR Hi Hn; simpl.
  - exists pos, ht. by rewrite Nat.add_0_r.
  - destruct (forward_spec _ _ _ _ _ _ HR Hi) as (pos1 & ht1 & HR1 & -> & Hi1). ob.
    rewrite decide_True in Hi1 by lia. destruct (IH ht1 pos1 (S i) HR1 Hi1) as (pos' & ht' & ? & ? & ?); [lia|].
    exists pos', ht'. by rewrite Nat.add_succ_r.
Qed.

(** * Comparison *)

(** The keys of two live buckets, compared the way the loop does. *)
Lemma key_order_spec p1 p2 (b1 b2 : Bucket V) :
  key_ok pool p1 (core_of b1) → key_ok pool p2 (core_of b2) →
  key_order (bkey (core_of b1)) (bkey (core_of b2)) =
    if (nKeyLength b1 =? 0) && (nKeyLength b2 =? 0) then (if bh b1 =? bh b2 then 0 else if bh b2 <? bh b1 then 1 else -1)
    else let r := to_int (nKeyLength b1 - nKeyLength b2) in if r =? 0 then memcmp (arKey b1) (arKey b2) (nKeyLength b1) else r.
Proof.
  assert (∀ p (b : Bucket V), key_ok pool p (core_of b) → nKeyLength b = Z.of_nat (length (from_option zs_val [] (arKey b))) ∧ nKeyLength b < 2 ^ 32 ∧
    bkey (core_of b) = (if nKeyLength b =? 0 then KIdx (bh b) else KStr (from_option zs_val [] (arKey b)))) as Hkey.
  { intros p b [_ Hb]. unfold bkey. simpl in *. destruct Hb as [[-> ->]|(k & -> & -> & ? & _)]; [done|]. simpl. split; [done|]. split; [lia|]. done. }
  intros (Hl1 & Hr1 & ->)%Hkey (Hl2 & Hr2 & ->)%Hkey. unfold key_order, memcmp. set (s1 := from_option zs_val [] (arKey b1)) in *. set (s2 := from_option zs_val [] (arKey b2)) in *.
  assert (to_int (nKeyLength b1 - nKeyLength b2) = 0 → length s1 = length s2) as Hlen by (intros Hz%to_int_zero; lia).
  assert (∀ a b, length a = length s1 → length b = length s2 → let r := to_int (nKeyLength b1 - nKeyLength b2) in
    (if r =? 0 then bytes_cmp a b else r) = (if r =? 0 then bytes_cmp (take (Z.to_nat (nKeyLength b1)) a) (take (Z.to_nat (nKeyLength b1)) b) else r)) as Htake.
  { intros a b Ha Hb r. destruct (Z.eqb_spec r 0) as [E|]; [|done]. specialize (Hlen E). rewrite !take_ge by lia. done. }
  destruct (Z.eqb_spec (nKeyLength b1) 0) as [E1|E1], (Z.eqb_spec (nKeyLength b2) 0) as [E2|E2]; cbn [andb key_bytes length]; [done|..].
  - assert (s1 = []) as -> by (apply nil_length_inv; lia). rewrite Hl1, Hl2 in *. by apply Htake.
  - assert (s2 = []) as -> by (apply nil_length_inv; lia). rewrite Hl1, Hl2 in *. by apply Htake.
  - rewrite Hl1, Hl2 in *. by apply Htake.
Qed.

Lemma compare_loop_spec (compar : V → V → Z) ordered fuel m ht1 ht2 l1 d1 l2 d2 la lb lc ld :
  Rep pool m ht1 l1 d1 → Rep pool m ht2 l2 d2 → l1 = la ++ lb → l2 = lc ++ ld → (length lb < fuel)%nat →
  compare_loop fuel m ht2 compar ordered (hd_or lb None) (if ordered then hd_or ld None else None) =
  delems_compare (λ a b, OK (compar a b)) ordered (abs m lb) (if ordered then abs m ld else d2).
Proof.
  intros H1 H2. revert la lb lc ld. induction fuel as [|fuel IH]; intros la lb lc ld Ha Hc Hf; [lia|]. destruct lb as [|p1 lb]; [done|].
  pose proof H1 as H1'. rewrite Ha in H1'. destruct (source_next _ _ _ _ _ _ _ H1') as (b1 & Hb1 & Hk1 & Hn1 & Habs1). rewrite Habs1.
  cbn [compare_loop delems_compare hd_or]. unfold deref at 1. rewrite Hb1. ob. destruct ordered.
  - destruct ld as [|p2 ld]; [done|]. pose proof H2 as H2'. rewrite Hc in H2'. destruct (source_next _ _ _ _ _ _ _ H2') as (b2 & Hb2 & Hk2 & Hn2 & Habs2). rewrite Habs2.
    cbn [hd_or tl]. unfold deref. rewrite Hb2. ob. rewrite (key_order_spec _ _ _ _ Hk1 Hk2), Hn1, Hn2.
    assert (compare_loop fuel m ht2 compar true (hd_or lb None) (hd_or ld None) = delems_compare (λ a b, OK (compar a b)) true (abs m lb) (abs m ld)) as <-.
    { apply (IH (la ++ [p1]) lb (lc ++ [p2]) ld); [by rewrite <- app_assoc|by rewrite <- app_assoc|simpl in Hf; lia]. }
    cbv zeta. destruct ((nKeyLength b1 =? 0) && (nKeyLength b2 =? 0)).
    + destruct (bh b1 =? bh b2); cbn [obind negb Z.eqb]; [by destruct (compar _ _ =? 0)|]. by destruct (bh b2 <? bh b1).
    + destruct (to_int (nKeyLength b1 - nKeyLength b2) =? 0) eqn:E; cbn [negb]; [|cbn [obind]; rewrite E; cbn [obind]; by rewrite E].
      destruct (memcmp (arKey b1) (arKey b2) (nKeyLength b1) =? 0) eqn:E2; cbn [negb obind]; [by destruct (compar _ _ =? 0)|by rewrite E2].
  - assert ((if nKeyLength b1 =? 0 then zend_hash_index_find m ht2 (bh b1) else zend_hash_quick_find m ht2 (arKey b1) (nKeyLength b1) (bh b1)) =
      OK (dlookup (bkey (core_of b1)) d2)) as ->.
    { destruct Hk1 as [_ Hk1]. unfold bkey. simpl in *. destruct Hk1 as [[-> _]|(k & Ek & El & Hlen & -> & Hk)]; rewrite ?Ek, ?El in *.
      - by apply (index_find_spec pool _ _ _ _ _ H2).
      - rewrite (proj2 (Z.eqb_neq _ _)) by lia. apply (quick_find_spec pool _ _ _ _ _ _ H2). split; [done|]. split; [done|].
        destruct (zs_addr k); try done. subst. intros c k' Hc Hk' _. unfold core in Hc. rewrite Hb1 in Hc. injection Hc as <-. simpl in Hk'. rewrite Ek in Hk'. by injection Hk' as ->. }
    ob. destruct (dlookup _ d2) as [v2|]; ob; [|done]. rewrite Hn1. destruct (compar _ v2 =? 0); [|done]. cbn [negb].
    apply (IH (la ++ [p1]) lb lc ld); [by rewrite <- app_assoc|done|simpl in Hf; lia].
Qed.

Lemma unprotect_protected ht : 0 <= nApplyCount ht < 256 → HASH_UNPROTECT_RECURSION (protected ht) = ht.
Proof.
  intros Hn. unfold HASH_UNPROTECT_RECURSION, protected. destruct (bApplyProtection ht) eqn:E; [|by rewrite E]. destruct ht; simpl in *. rewrite E. unfold set_nApplyCount. simpl.
  f_equal. rewrite Zminus_mod_idemp_l, Z.add_simpl_r. by apply Z.mod_small.
Qed.

(** [zend_hash_compare] compares the dictionaries; nesting too deep is a fatal
    error. *)
Lemma hash_compare_spec (compar : V → V → Z) ordered m ht1 ht2 l1 d1 l2 d2 :
  Rep pool m ht1 l1 d1 → Rep pool m ht2 l2 d2 → 0 <= nApplyCount ht1 < 256 → 0 <= nApplyCount ht2 < 256 →
  zend_hash_compare m ht1 ht2 compar ordered =
    if too_deep ht1 || too_deep ht2 then Bailout else let* r := dcompare (λ a b, OK (compar a b)) ordered d1 d2 in OK (r, ht1, ht2).
Proof.
  intros H1 H2 Hn1 Hn2. unfold zend_hash_compare. rewrite !protect_run. destruct (too_deep ht1); [done|]. ob. destruct (too_deep ht2); [done|]. ob. cbn [orb].
  assert (∀ ht, nNumOfElements (protected ht) = nNumOfElements ht ∧ pListHead (protected ht) = pListHead ht) as Hp by (intros ht; unfold protected; by case_match).
  rewrite !(proj1 (Hp _)), !(proj2 (Hp _)), !unprotect_protected by done. unfold dcompare.
  pose proof (rep_num _ _ _ _ _ H1) as E1. pose proof (rep_num _ _ _ _ _ H2) as E2. unfold zend_hash_num_elements in E1, E2. rewrite E1, E2.
  destruct (to_int _ =? 0); cbn [negb]; [|done]. pose proof (lk_list _ _ _ (rep_links _ _ _ _ _ H1)) as HL1. pose proof (lk_list _ _ _ (rep_links _ _ _ _ _ H2)) as HL2.
  rewrite (lo_head _ _ _ HL1), (lo_head _ _ _ HL2). assert (compare_loop (fuel_of m) m (protected ht2) compar ordered (hd_or l1 None) (if ordered then hd_or l2 None else None) =
    delems_compare (λ a b, OK (compar a b)) ordered (abs m l1) (if ordered then abs m l2 else d2)) as ->.
  { apply (compare_loop_spec compar ordered _ m ht1 (protected ht2) l1 d1 l2 d2 [] l1 [] l2); [done|by apply rep_protected|done..|by apply (list_length_fuel _ _ _ HL1)]. }
  rewrite (rep_abs _ _ _ _ _ H1), (rep_abs _ _ _ _ _ H2). by destruct ordered.
Qed.

(** * Saving and restoring the position ([foreach]) *)

Lemma set_pointer_loop_ok fuel m (o : nptr) c pos :
  dseg (cview m) o c None → (length c < fuel)%nat →
  set_pointer_loop fuel m pos (hd_or c None) = OK (bool_decide (pos ∈ c)).
Proof.
  revert fuel o. induction c as [|x c IH]; intros fuel o Hd Hf; (destruct fuel as [|fuel]; [simpl in Hf; lia|]); simpl.
  { done. }
  destruct Hd as [Hx Hd]. destruct (decide (x = pos)) as [->|Hne].
  - rewrite (bool_decide_true (pos = pos)) by done. rewrite bool_decide_true; [done|set_solver].
  - rewrite (bool_decide_false (x = pos)) by done.
    unfold cview in Hx. unfold deref. destruct (heap m !! x) as [b|]; [|done]. injection Hx as _ Hn. ob.
    rewrite Hn, (IH fuel _ Hd) by (simpl in Hf; lia). f_equal. apply bool_decide_ext. set_solver.
Qed.

(** A position that was saved is restored when its bucket is still in the
    table, and recognised as gone, without looking at it, when it is not. *)
Lemma set_pointer_spec m ht l d p hv :
  Rep pool m ht l d → (∀ c, p ∈ l → core m p = Some c → c_h c = hv) →
  zend_hash_set_pointer m ht (mkHP (Some p) hv) =
    OK (if decide (p ∈ l) then (true, set_pInternalPointer (Some p) ht) else (false, ht)).
Proof.
  intros HR Hh. unfold zend_hash_set_pointer. cbn [hp_pos hp_h]. pose proof (rep_links _ _ _ _ _ HR) as HL.
  pose proof (lk_list _ _ _ HL) as Hl. destruct (decide (pInternalPointer ht = Some p)) as [Hip|Hip].
  - rewrite bool_decide_false by (by intros []). rewrite decide_True by (by apply (lo_ip _ _ _ Hl)).
    f_equal. f_equal. destruct ht; simpl in *. by subst.
  - rewrite bool_decide_true by done. pose proof (mask_range _ _ hv (lk_table _ _ _ HL)) as Hr.
    destruct (lk_chain _ _ _ HL _ Hr) as (c & Hs & Hd & Hnd & Hmem). unfold slot. rewrite Hs. ob.
    rewrite (set_pointer_loop_ok _ _ _ _ _ Hd). 2: { pose proof (live_length (heap m) c Hnd) as Hle.
      unfold fuel_of. apply Nat.lt_succ_r, Hle. intros x [Hx _]%Hmem.
      destruct (list_live _ _ _ _ Hl Hx) as [? Hc]. unfold core in Hc. by destruct (heap m !! x). }
    ob. assert (p ∈ c ↔ p ∈ l) as Hiff.
    { rewrite Hmem. split; [by intros []|]. intros Hp. split; [done|].
      destruct (list_live _ _ _ _ Hl Hp) as [cr Hc]. unfold idx. rewrite Hc. simpl. by rewrite (Hh cr). }
    rewrite (bool_decide_ext _ _ Hiff). by case_decide as Hp; [rewrite bool_decide_true|rewrite bool_decide_false].
Qed.

End iter.
