(* ===== verification/ZendHashSort.v ===== *)
(** Renumbering and sorting. *)

From S2P Require Import Prelude Dll OrderedDict ZendHash ZendHashInv ZendHashOps.
From S2P Require Import ZendHashDict ZendHashExt ZendHashLife ZendHashCopy.

Section sort.
Context {V : Type} `{PEMalloc} (pool : positive → list Z).
Implicit Types (m : mem V) (ht : HashTable) (p q : ptr) (l : list ptr) (d : list (akey * V)).

(** * Renumbering *)

Definition cores m l : list (bcore V) := omap (core m) l.

Lemma abs_cores m l : abs m l = entry <$> cores m l.
Proof. induction l as [|x l IH]; [done|]. simpl. destruct (core m x); simpl; by rewrite IH. Qed.

Lemma cores_ext m m' l : (∀ q, q ∈ l → core m' q = core m q) → cores m' l = cores m l.
Proof.
  intros Hc. induction l as [|x l IH]; [done|]. simpl.
  rewrite Hc by set_solver. destruct (core m x); simpl; rewrite IH; set_solver.
Qed.

(** What the loop writes into the buckets. *)
Definition renum_core (only : bool) (off : Z) (c : bcore V) : bcore V * Z :=
  if negb only || (c_len c =? 0) then (mkCore off 0 (c_data c) (c_key c), off + 1) else (c, off).
Fixpoint renum_cores (only : bool) (off : Z) (cs : list (bcore V)) : list (bcore V) * Z :=
  match cs with
  | [] => ([], off)
  | c :: cs =>
      let (c, off) := renum_core only off c in
      let (cs, off) := renum_cores only off cs in (c :: cs, off)
  end.

Lemma renum_core_off only off c c1 off1 : renum_core only off c = (c1, off1) → off <= off1 <= off + 1.
Proof. unfold renum_core. destruct (negb only || _); intros [= <- <-]; lia. Qed.

(** The memory after the fields of one bucket are written. *)
Lemma renum_write only m e c off (Hc : core m e = Some c) (b : Bucket V) :
  deref m e = OK b → is_ulong off → off + 1 < 2 ^ 64 →
  ∃ m1, (if negb only || (nKeyLength b =? 0) then
           let* m := mstore m e (set_h off) in
           let* m := mstore m e (set_nKeyLength 0) in
           OK (m, ulong_wrap (off + 1))
         else OK (m, off)) = OK (m1, (renum_core only off c).2) ∧
    core m1 e = Some (renum_core only off c).1 ∧ (∀ q, q ≠ e → core m1 q = core m q) ∧
    (∀ q, lview m1 q = lview m q) ∧ (∀ q, cview m1 q = cview m q) ∧ evs m1 = evs m.
Proof.
  intros Hb Hu Hoff. assert (nKeyLength b = c_len c) as ->.
  { destruct (core_deref pool _ _ _ Hc) as (b' & Hb' & <-). rewrite Hb in Hb'. by injection Hb' as ->. }
  unfold renum_core. destruct (negb only || (c_len c =? 0)); [|by exists m].
  rewrite mstore_live by (rewrite Hc; eauto). ob.
  assert (∀ q, core (malter (set_h off) e m) q =
            if decide (e = q) then (λ c, mkCore off (c_len c) (c_data c) (c_key c)) <$> core m q else core m q) as E1.
  { intros q. by apply core_malter. }
  rewrite mstore_live. 2: { rewrite E1, decide_True, Hc by done. eauto. }
  ob. rewrite ulong_wrap_id by lia. eexists. split; [done|].
  assert (∀ q, core (malter (set_nKeyLength 0) e (malter (set_h off) e m)) q =
            if decide (e = q) then (λ c, mkCore off 0 (c_data c) (c_key c)) <$> core m q else core m q) as E2.
  { intros q. rewrite (core_malter _ _ _ (λ c, mkCore (c_h c) 0 (c_data c) (c_key c))) by done. rewrite E1. case_decide; [|done]. by destruct (core m q). }
  split; [by rewrite E2, decide_True, Hc|]. split; [intros q Hq; by rewrite E2, decide_False|].
  split; [intros q; by views|]. split; [intros q; by views|]. done.
Qed.

(** One bucket enters its chain. *)
Lemma rehash_step m ht l1 e l2 c :
  list_ok m ht (l1 ++ e :: l2) → core m e = Some c →
  (∀ i, 0 <= i <= nTableMask ht → (Z.to_nat i < length (arBuckets ht))%nat) →
  (∀ hv, 0 <= Z.land hv (nTableMask ht) <= nTableMask ht) →
  (∀ i, 0 <= i <= nTableMask ht → chain_ok m (nTableMask ht) (arBuckets ht) l1 i) →
  let i := Z.land (c_h c) (nTableMask ht) in
  ∃ head, slot ht i = OK head ∧
    CONNECT_TO_BUCKET_DLLIST m e head = OK (connect_mem m e head) ∧
    set_slot ht i (Some e) = OK (set_arBuckets (<[Z.to_nat i := Some e]> (arBuckets ht)) ht) ∧
    same_but_chains m (connect_mem m e head) (l1 ++ e :: l2) ∧
    (∀ j, 0 <= j <= nTableMask ht → chain_ok (connect_mem m e head) (nTableMask ht)
            (<[Z.to_nat i := Some e]> (arBuckets ht)) (l1 ++ [e]) j).
Proof.
  intros Hl Hc Hlen Hmask Hch i. assert (0 <= i <= nTableMask ht) as Hi by apply Hmask.
  destruct (lookup_lt_is_Some_2 (arBuckets ht) (Z.to_nat i)) as [head Hhead]; [auto|].
  assert (NoDup (l1 ++ e :: l2)) as Hnd by apply Hl.
  destruct (chains_link m (nTableMask ht) (arBuckets ht) l1 (l1 ++ [e]) e i head)
    as (Hne & Hhl & Hch'); try done.
  { apply NoDup_app in Hnd. set_solver. }
  { unfold idx. by rewrite Hc. }
  { set_solver. }
  exists head. unfold slot, set_slot. rewrite Hhead, decide_True by auto. split; [done|]. split; [|split; [done|split; [|done]]].
  - apply connect_bucket_run; [eauto|]. intros x Hx. eapply list_live; [exact Hl|]. apply Hhl in Hx. set_solver.
  - apply connect_same_but_chains; [set_solver| |done|eauto]. intros x ?%Hhl. set_solver.
Qed.

Lemma reindex_loop_ok fuel only m ht off l1 l2 :
  list_ok m ht (l1 ++ l2) → (length l2 < fuel)%nat → 0 <= off → off + Z.of_nat (length l2) < 2 ^ 63 →
  (∀ i, 0 <= i <= nTableMask ht → (Z.to_nat i < length (arBuckets ht))%nat) →
  (∀ hv, 0 <= Z.land hv (nTableMask ht) <= nTableMask ht) →
  (∀ i, 0 <= i <= nTableMask ht → chain_ok m (nTableMask ht) (arBuckets ht) l1 i) →
  let (cs, off') := renum_cores only off (cores m l2) in
  ∃ m' slots', reindex_loop fuel only m ht off (hd_or l2 None) = OK (m', set_arBuckets slots' ht, off') ∧
    cores m' l2 = cs ∧ (∀ q, q ∉ l2 → core m' q = core m q) ∧
    (∀ q, lview m' q = lview m q) ∧ evs m' = evs m ∧ length slots' = length (arBuckets ht) ∧
    (∀ q, q ∉ l1 ++ l2 → cview m' q = cview m q) ∧
    ∀ i, 0 <= i <= nTableMask ht → chain_ok m' (nTableMask ht) slots' (l1 ++ l2) i.
Proof.
  revert fuel m ht off l1. induction l2 as [|e l2 IH]; intros fuel m ht off l1 Hl Hfuel Ho Hoff Hlen Hmask Hch.
  { simpl. exists m, (arBuckets ht). rewrite app_nil_r. destruct fuel; simpl.
    all: split_and!; try done; by destruct ht. }
  destruct fuel as [|fuel]; simpl in Hfuel; [lia|].
  destruct (list_live _ _ _ e Hl ltac:(set_solver)) as [c Hc].
  assert (NoDup (l1 ++ e :: l2)) as Hnd by apply Hl.
  assert ((e ∉ l1) ∧ (e ∉ l2)) as [He1 He2].
  { apply NoDup_app in Hnd as (_ & Hdis & [? _]%NoDup_cons). split; [|done]. intros ?. by apply (Hdis e); [|left]. }
  simpl cores. rewrite Hc. cbn [renum_cores].
  destruct (core_deref pool _ _ _ Hc) as (b & Hb & Hbc). cbn [reindex_loop hd_or]. rewrite Hb. ob.
  destruct (renum_write only m e c off Hc b Hb) as (m1 & -> & Hc1 & Hco1 & Hlv1 & Hcv1 & Hev1); [simpl in *; lia..|].
  ob. destruct (renum_core only off c) as [c1 off1] eqn:Hren. cbn [fst snd] in *.
  assert (off <= off1 <= off + 1) as Ho1 by (by apply renum_core_off in Hren).
  assert (list_ok m1 ht (l1 ++ e :: l2)) as Hl1.
  { eapply list_ok_ext; [|by split_and!|exact Hl]. auto. }
  destruct (rehash_step m1 ht l1 e l2 c1 Hl1 Hc1 Hlen Hmask) as (head & Hslot & Hconn & Hset & Hsb & Hch1).
  { intros i Hi. eapply chain_ok_ext; [| |by apply Hch]; [auto|]. intros q Hq. apply Hco1. set_solver. }
  destruct (core_deref pool _ _ _ Hc1) as (b1 & Hb1 & Hbc1). rewrite Hb1. ob.
  assert (bh b1 = c_h c1) as -> by (by rewrite <- Hbc1). rewrite Hslot. ob. rewrite Hconn. ob. rewrite Hset. ob.
  destruct Hsb as (Hsl & Hsc & Hse & Hsv).
  destruct (core_deref pool (connect_mem m1 e head) e c1) as (b2 & Hb2 & _); [by rewrite Hsc|]. rewrite Hb2. ob.
  assert (pListNext b2 = hd_or l2 None) as ->.
  { pose proof (dseg_lookup _ _ _ _ _ _ (lo_dll _ _ _ Hl)) as Hlv. rewrite <- Hlv1, <- Hsl in Hlv.
    unfold lview in Hlv. apply rd_OK in Hb2. rewrite Hb2 in Hlv. by injection Hlv. }
  assert (cores m l2 = cores (connect_mem m1 e head) l2) as ->.
  { symmetry. apply cores_ext. intros q Hq. rewrite Hsc. apply Hco1. set_solver. }
  specialize (IH fuel (connect_mem m1 e head) (set_arBuckets (<[Z.to_nat (Z.land (c_h c1) (nTableMask ht)) := Some e]> (arBuckets ht)) ht)
                off1 (l1 ++ [e])).
  rewrite <- app_assoc in IH. simpl app in IH.
  assert (list_ok (connect_mem m1 e head)
            (set_arBuckets (<[Z.to_nat (Z.land (c_h c1) (nTableMask ht)) := Some e]> (arBuckets ht)) ht) (l1 ++ e :: l2)) as Hl2.
  { apply (list_ok_ext m1 _ ht); [auto|by split_and!|exact Hl1]. }
  specialize (IH Hl2 ltac:(simpl in *; lia) ltac:(lia) ltac:(simpl in *; lia)). simpl nTableMask in IH. simpl arBuckets in IH.
  rewrite length_insert in IH. specialize (IH Hlen Hmask Hch1).
  destruct (renum_cores only off1 _) as [cs off'].
  destruct IH as (m' & slots' & Hrun & Hcs & Hco & Hlv & Hev & Hlen' & Hcv & Hch').
  exists m', slots'. split; [done|]. split.
  { simpl. rewrite Hco, Hsc, Hc1 by done. simpl. by rewrite Hcs. }
  split. { intros q Hq. rewrite Hco, Hsc, Hco1; set_solver. }
  split. { intros q. by rewrite Hlv, Hsl, Hlv1. }
  split. { by rewrite Hev, Hse, Hev1. }
  split; [done|]. split; [|done].
  intros q Hq. rewrite Hcv, Hsv, Hcv1 by done. done.
Qed.

(** Renumbering on the dictionary: the integer keys, or all keys, become
    [off], [off + 1], ... in the order of the elements. *)
Fixpoint drenum (only : bool) (off : Z) d : list (akey * V) * Z :=
  match d with
  | [] => ([], off)
  | (k, v) :: d =>
      if only && (if k is KStr _ then true else false)
      then let (d, off) := drenum only off d in ((k, v) :: d, off)
      else let (d, off') := drenum only (off + 1) d in ((KIdx off, v) :: d, off')
  end.

Lemma renum_abs only off (cs : list (bcore V)) :
  drenum only off (entry <$> cs) =
    (entry <$> (renum_cores only off cs).1, (renum_cores only off cs).2).
Proof.
  revert off. induction cs as [|c cs IH]; intros off; [done|]. csimpl. unfold entry at 1. unfold renum_core, bkey.
  destruct (Z.eqb_spec (c_len c) 0) as [Hz|Hz]; simpl.
  - rewrite andb_false_r, orb_true_r, IH. destruct (renum_cores only (off + 1) cs); done.
  - rewrite andb_true_r, orb_false_r. destruct only; simpl.
    + rewrite IH. destruct (renum_cores true off cs). simpl. unfold entry at 2, bkey.
      by rewrite (proj2 (Z.eqb_neq _ _) Hz).
    + rewrite IH. destruct (renum_cores false (off + 1) cs). done.
Qed.

Lemma drenum_off only off d : off <= (drenum only off d).2 <= off + Z.of_nat (length d).
Proof.
  revert off. induction d as [|[k v] d IH]; intros off; simpl; [lia|].
  destruct (only && _); [specialize (IH off)|specialize (IH (off + 1))];
    destruct (drenum only _ d); simpl in *; lia.
Qed.

Lemma drenum_keys only off d k :
  k ∈ (drenum only off d).1.*1 →
  (∃ i, k = KIdx i ∧ off <= i < (drenum only off d).2) ∨ (∃ s, k = KStr s ∧ k ∈ d.*1).
Proof.
  revert off. induction d as [|[k' v] d IH]; intros off; simpl; [by intros ?%elem_of_nil|].
  destruct (only && _) eqn:E.
  - specialize (IH off). destruct (drenum only off d) as [d' off']. csimpl.
    intros [->|Hin]%elem_of_cons; [|destruct (IH Hin) as [?|(s & -> & ?)]; [by left|right; set_solver]].
    right. apply andb_true_iff in E as [_ E]. destruct k' as [|s]; [done|]. exists s. set_solver.
  - specialize (IH (off + 1)). pose proof (drenum_off only (off + 1) d) as Ho.
    destruct (drenum only (off + 1) d) as [d' off']. csimpl. simpl in *.
    intros [->|Hin]%elem_of_cons; [left; exists off; split; [done|lia]|].
    destruct (IH Hin) as [(i & -> & ?)|(s & -> & ?)]; [left; exists i; split; [done|lia]|right; set_solver].
Qed.

Lemma drenum_nodup only off d : NoDup d.*1 → NoDup (drenum only off d).1.*1.
Proof.
  revert off. induction d as [|[k v] d IH]; intros off; [by intros; apply NoDup_nil_2|].
  csimpl. intros [Hk Hnd]%NoDup_cons. destruct (only && _) eqn:E.
  - specialize (IH off Hnd). pose proof (drenum_keys only off d k) as Hkeys.
    destruct (drenum only off d) as [d' off']. csimpl. apply NoDup_cons. split; [|done].
    intros Hin. destruct (Hkeys Hin) as [(i & -> & _)|(s & -> & ?)]; [|done].
    by apply andb_true_iff in E as [_ E].
  - specialize (IH (off + 1) Hnd). pose proof (drenum_keys only (off + 1) d (KIdx off)) as Hkeys.
    destruct (drenum only (off + 1) d) as [d' off']. csimpl. apply NoDup_cons. split; [|done].
    intros Hin. destruct (Hkeys Hin) as [(i & [= <-] & ?)|(s & ? & _)]; [lia|done].
Qed.

(** Each bucket by itself. *)
Lemma renum_pointwise only m m' l off :
  0 <= off → cores m' l = (renum_cores only off (cores m l)).1 →
  (∀ q, q ∈ l → is_Some (core m q)) → (∀ q, q ∈ l → is_Some (core m' q)) →
  ∀ q, q ∈ l → ∃ c off0, core m q = Some c ∧ core m' q = Some (renum_core only off0 c).1 ∧
    0 <= off0 <= off + Z.of_nat (length l).
Proof.
  revert off. induction l as [|x l IH]; intros off Ho Hcs Hm Hm' q Hq; [set_solver|].
  destruct (Hm x ltac:(set_solver)) as [c Hc]. destruct (Hm' x ltac:(set_solver)) as [c' Hc'].
  simpl in Hcs. rewrite Hc, Hc' in Hcs. simpl in Hcs.
  destruct (renum_core only off c) as [c1 off1] eqn:E.
  assert (off <= off1 <= off + 1) as Ho1 by (by apply renum_core_off in E).
  specialize (IH off1 ltac:(lia)). destruct (renum_cores only off1 (cores m l)) as [cs off'].
  injection Hcs as -> Hcs. apply elem_of_cons in Hq as [->|Hq].
  - exists c, off. rewrite E. split_and!; try done; simpl; lia.
  - destruct (IH Hcs) with (q := q) as (c0 & off0 & ? & ? & ?); [set_solver..|].
    exists c0, off0. split_and!; try done; simpl; lia.
Qed.

Lemma rep_slots m ht l d : Rep pool m ht l d → l ≠ [] → slots_ok ht.
Proof.
  intros HR Hne. destruct (lk_table _ _ _ (rep_links _ _ _ _ _ HR)) as (k & Hk & Hs & [(_ & _ & ?)|[? ?]]); [done|].
  by exists k.
Qed.

(** The links and the contents of the buckets after renumbering. *)
Record reindexed (only : bool) m ht l d m' ht' : Prop := {
  ri_links : links_ok m' ht' l;
  ri_abs : abs m' l = (drenum only 0 d).1;
  ri_next : nNextFreeElement ht' = (drenum only 0 d).2;
  ri_core : ∀ q, q ∈ l → ∃ c off, core m q = Some c ∧ core m' q = Some (renum_core only off c).1 ∧ is_ulong off;
  ri_evs : evs m' = evs m;
  ri_frame : ∀ q, q ∉ l → heap m' !! q = heap m !! q;
}.

Lemma reindex_ok only m ht l d :
  links_ok m ht l → abs m l = d →
  ∃ m' ht', zend_hash_reindex m ht only = OK (m', ht') ∧ reindexed only m ht l d m' ht'.
Proof.
  intros HL Ha. pose proof (lk_list _ _ _ HL) as Hl. unfold zend_hash_reindex.
  rewrite (lo_num _ _ _ Hl). destruct l as [|x l'] eqn:El.
  { simpl in *. subst d. exists m, (set_nNextFreeElement 0 ht). split; [done|]. split; try done; [|set_solver].
    destruct HL as [[] ? ?]. by split. }
  rewrite <- El in *. rewrite (proj2 (Z.eqb_neq _ _)) by (rewrite El; simpl; lia).
  destruct (lk_table _ _ _ HL) as (k & Hk & Hsz & [(_ & _ & ?)|[Hm Hlen]]); [congruence|].
  rewrite (lo_head _ _ _ Hl). pose proof (lo_max _ _ _ Hl) as Hmax.
  pose proof (reindex_loop_ok (fuel_of m) only m (clear_slots ht) 0 [] l) as Hloop.
  specialize (Hloop ltac:(by apply (list_ok_ext m m ht); [|by split_and!|]) ltac:(by eapply list_length_fuel)
                ltac:(lia) ltac:(simpl; lia)).
  simpl nTableMask in Hloop. simpl arBuckets in Hloop. rewrite length_replicate, Hm, Hsz in Hloop.
  specialize (Hloop ltac:(lia)
                ltac:(intros hv; pose proof (land_mask_range hv k ltac:(lia)); lia)
                ltac:(intros i Hi; apply chains_nil; lia)).
  pose proof (renum_abs only 0 (cores m l)) as Habs. rewrite <- abs_cores, Ha in Habs.
  destruct (renum_cores only 0 (cores m l)) as [cs off'] eqn:Ecs.
  destruct Hloop as (m' & slots' & Hrun & Hcs & Hco & Hlv & Hev & Hlen' & Hcv & Hch).
  rewrite Hrun. ob. eexists _, _. split; [done|]. simpl in Habs, Hch, Hcv.
  assert (∀ q, is_Some (core m q) → is_Some (core m' q)) as Hlive.
  { intros q [[[? ?] Hv] _]%live_views. eapply lview_live. by rewrite Hlv. }
  split; try done.
  - split; [|exists k; simpl; split; [done|split; [done|right; split; [done|lia]]]|simpl; by rewrite Hm].
    destruct Hl. split; try done. by eapply dseg_ext; [|done].
  - by rewrite abs_cores, Hcs, Habs.
  - by rewrite Habs.
  - intros q Hq. destruct (renum_pointwise only m m' l 0 ltac:(lia)) with (q := q)
      as (c & off0 & ? & ? & ?); try done.
    + by rewrite Ecs.
    + intros x0 Hx0. by eapply list_live.
    + intros x0 Hx0. apply Hlive. by eapply list_live.
    + exists c, off0. split_and!; try done; lia.
  - intros q Hq. apply views_ext; [by apply Hco|by apply Hlv|by apply Hcv].
Qed.

(** When no string key is dropped, the table represents the renumbered
    dictionary. *)
Lemma reindex_spec only m ht l d :
  Rep pool m ht l d → (only = false → ∀ k, k ∈ d.*1 → ∃ h, k = KIdx h) →
  ∃ m' ht', zend_hash_reindex m ht only = OK (m', ht') ∧ Rep pool m' ht' l (drenum only 0 d).1 ∧
    nNextFreeElement ht' = (drenum only 0 d).2 ∧ evs m' = evs m.
Proof.
  intros HR Hint. destruct (reindex_ok only m ht l d) as (m' & ht' & Hrun & []); [apply HR|apply HR|].
  exists m', ht'. split; [done|]. split; [|done]. split; try done.
  - intros q c' Hq Hc'. destruct (ri_core0 q Hq) as (c & off & Hc & E & Hoff).
    rewrite E in Hc'. injection Hc' as <-. pose proof (rep_keys _ _ _ _ _ HR q c Hq Hc) as Hk.
    unfold renum_core. destruct (negb only || (c_len c =? 0)) eqn:Eo; [|done].
    assert (c_key c = None) as Hnone.
    { apply orb_true_iff in Eo. destruct Hk as [_ [[_ ?]|(k & Hk & _ & Hpos & _)]]; [done|exfalso].
      destruct Eo as [->%negb_true_iff|Hz%Z.eqb_eq]; [|lia].
      destruct (Hint eq_refl (bkey c)) as [h Hh].
      - rewrite <- (rep_abs _ _ _ _ _ HR), abs_key by done. eauto.
      - unfold bkey in Hh. rewrite (proj2 (Z.eqb_neq _ _)) in Hh by lia. done. }
    split; [done|]. left. simpl. by rewrite Hnone.
  - apply drenum_nodup, HR.
  - rewrite ri_next0. pose proof (drenum_off only 0 d) as Ho.
    pose proof (lo_max _ _ _ (lk_list _ _ _ (rep_links _ _ _ _ _ HR))) as Hmax.
    rewrite <- (abs_length _ _ _ _ _ HR) in Hmax. unfold next_ok, LONG_MAX. split; [lia|].
    intros h Hh. apply drenum_keys in Hh as [(i & [= ->] & Hi)|(s & ? & _)]; [|done].
    left. unfold to_long. destruct (Z.ltb_spec i (2 ^ 63)); lia.
Qed.

(** * Sorting *)

Lemma collect_loop_ok fuel m o l :
  dseg (lview m) o l None → (length l < fuel)%nat →
  ∃ bs, collect_loop fuel m (hd_or l None) = OK bs ∧ bs.*1 = l ∧ Forall (λ e, heap m !! e.1 = Some e.2) bs.
Proof.
  revert fuel o. induction l as [|x l IH]; intros fuel o Hd Hf; (destruct fuel as [|fuel]; [simpl in Hf; lia|]).
  { by exists []. }
  destruct Hd as [Hx Hd]. unfold lview in Hx. destruct (heap m !! x) as [b|] eqn:Hb; [|done]. injection Hx as _ Hn.
  cbn [collect_loop hd_or]. unfold deref. rewrite Hb. ob. rewrite Hn.
  destruct (IH fuel _ Hd ltac:(simpl in Hf; lia)) as (bs & -> & <- & Hall). ob.
  exists ((x, b) :: bs). split; [done|]. split; [done|]. by constructor.
Qed.

Lemma relink_loop_ok m o l :
  NoDup l → (∀ q, q ∈ l → is_Some (core m q)) →
  ∃ m', relink_loop m o l = OK m' ∧ dseg (lview m') o l None ∧ (∀ q, q ∉ l → lview m' q = lview m q) ∧
    (∀ q, core m' q = core m q) ∧ (∀ q, cview m' q = cview m q) ∧ evs m' = evs m.
Proof.
  revert m o. induction l as [|x l IH]; intros m o Hnd Hlive; [by exists m|].
  apply NoDup_cons in Hnd as [Hx Hnd]. cbn [relink_loop].
  assert (is_Some (core m x)) as Hlx by (apply Hlive; set_solver).
  rewrite mstore_live by done. ob. rewrite mstore_live by (by views). ob.
  set (m1 := malter (set_pListNext (hd_or l None)) x (malter (set_pListLast o) x m)).
  destruct (IH m1 (Some x) Hnd) as (m' & Hrun & Hd & Hlv & Hco & Hcv & Hev).
  { intros q Hq. unfold m1. views. apply Hlive. set_solver. }
  exists m'. split; [done|]. split; [|split_and!].
  - split; [|done]. rewrite Hlv by done. unfold m1. views.
    destruct (live_views m x Hlx) as [[[a b] Hv] _]. unfold set_next, set_prev.
    rewrite !decide_True by done. by rewrite Hv.
  - intros q Hq. rewrite Hlv by set_solver. unfold m1. views. unfold set_next, set_prev.
    rewrite !decide_False by set_solver. done.
  - intros q. rewrite Hco. unfold m1. by views.
  - intros q. rewrite Hcv. unfold m1. by views.
  - rewrite Hev. done.
Qed.

Lemma last_in (l : list ptr) q : last_or None l = Some q → q ∈ l.
Proof. unfold last_or. destruct (last l) eqn:E; [|done]. intros [= ->]. apply last_Some in E as [l' ->]. set_solver. Qed.

Lemma links_perm m m' ht l l' :
  links_ok m ht l → l' ≡ₚ l → dll (lview m') l' →
  (∀ q, core m' q = core m q) → (∀ q, cview m' q = cview m q) → l' ≠ [] →
  links_ok m' (set_pListTail (last_or None l') (set_pInternalPointer (hd_or l' None) (set_pListHead (hd_or l' None) ht))) l'.
Proof.
  intros [[Hd Hnd Hh Ht Hnum Hmax Hip] Hta Hch] Hp Hd' Hc Hcv Hne. split.
  - split; try done; simpl.
    + by rewrite Hp.
    + by rewrite Hp.
    + by rewrite Hp.
    + intros p. destruct l'; [done|]. intros [= ->]. set_solver.
  - destruct Hta as (k & Hk & Hs & [(_ & _ & ->)|Hslots]).
    + by apply Permutation_nil_r in Hp.
    + exists k. simpl. auto.
  - intros i Hi. destruct (Hch i Hi) as (c & Hs & Hdc & Hndc & Hmem). exists c. split_and!; try done.
    + eapply dseg_ext; [|done]. auto.
    + intros q. cbn [nTableMask set_pListTail set_pInternalPointer set_pListHead].
      rewrite Hmem, (idx_ext _ _ _ _ (Hc q)). by rewrite Hp.
Qed.

Context `{SortFunc}.

(** The array [zend_hash_sort] hands to the sort function, sorted. *)
Definition sorted_buckets m l (compar : Bucket V → Bucket V → Z) (bs : list (ptr * Bucket V)) : Prop :=
  ∃ bs0, bs0.*1 = l ∧ Forall (λ e, heap m !! e.1 = Some e.2) bs0 ∧
    bs = sort_func (λ a b, compar a.2 b.2) bs0.

Definition entries (bs : list (ptr * Bucket V)) : list (akey * V) := (λ e, entry (core_of e.2)) <$> bs.

Lemma abs_buckets m bs : Forall (λ e, heap m !! e.1 = Some e.2) bs → abs m bs.*1 = entries bs.
Proof.
  induction 1 as [|[p b] bs Hb _ IH]; [done|]. change (((p, b) :: bs).*1) with (p :: bs.*1).
  rewrite (abs_cons m p bs.*1 (core_of b)), IH; [done|]. unfold core. simpl in Hb. by rewrite Hb.
Qed.

Lemma next_ok_perm nf d d' : d' ≡ₚ d → next_ok nf d → next_ok nf d'.
Proof. intros Hp [? Hall]. split; [done|]. intros h. rewrite Hp. auto. Qed.

(** Sorting permutes the elements into the order the sort function gives,
    with the pointer at the first one; with [renumber] all keys are numbered
    again. *)
Lemma sort_spec m ht l d compar (renumber : bool) :
  Rep pool m ht l d → (renumber = true → ∀ k, k ∈ d.*1 → ∃ h, k = KIdx h) → l ≠ [] →
  (nNumOfElements ht = 1 → renumber = true) →
  ∃ bs m' ht' l', sorted_buckets m l compar bs ∧
    zend_hash_sort m ht compar renumber = OK (SUCCESS, m', ht') ∧ l' ≡ₚ l ∧ entries bs ≡ₚ d ∧
    Rep pool m' ht' l' (if renumber then (drenum false 0 (entries bs)).1 else entries bs) ∧
    evs m' = evs m.
Proof.
  intros HR Hint Hne Hone. pose proof (rep_links _ _ _ _ _ HR) as HL. pose proof (lk_list _ _ _ HL) as Hl.
  unfold zend_hash_sort.
  assert (1 <= nNumOfElements ht) as Hn1 by (rewrite (lo_num _ _ _ Hl); destruct l; [done|simpl; lia]).
  assert (negb (1 <? nNumOfElements ht) && negb (renumber && (0 <? nNumOfElements ht)) = false) as ->.
  { destruct (Z.ltb_spec 1 (nNumOfElements ht)); [done|]. rewrite Hone by lia. simpl.
    destruct (Z.ltb_spec 0 (nNumOfElements ht)); [done|lia]. }
  rewrite (lo_head _ _ _ Hl).
  destruct (collect_loop_ok (fuel_of m) m None l) as (bs0 & -> & Hbs & Hall);
    [apply Hl|by eapply list_length_fuel|]. ob. cbv zeta.
  set (bs := sort_func (λ a b, compar a.2 b.2) bs0).
  assert (bs ≡ₚ bs0) as Hperm by apply sort_func_perm.
  assert (bs.*1 ≡ₚ l) as Hpl by (by rewrite Hperm, Hbs).
  assert (Forall (λ e, heap m !! e.1 = Some e.2) bs) as Hall' by (by rewrite Hperm).
  assert (entries bs ≡ₚ d) as Hpd.
  { rewrite <- (rep_abs _ _ _ _ _ HR), <- Hbs, (abs_buckets _ _ Hall). unfold entries. by rewrite Hperm. }
  destruct (relink_loop_ok m None bs.*1) as (m1 & -> & Hd & _ & Hco & Hcv & Hev).
  { rewrite Hpl. apply Hl. }
  { intros q. rewrite Hpl. by apply list_live with (ht := ht). }
  ob. cbn [pListHead set_pListHead].
  assert (bs.*1 ≠ []) as Hne'. { intros E. rewrite E in Hpl. by apply Permutation_nil_l in Hpl. }
  pose proof (links_perm m m1 ht l bs.*1 HL Hpl Hd Hco Hcv Hne') as HL1.
  set (ht1 := set_pListTail _ _) in *.
  assert (Rep pool m1 ht1 bs.*1 (entries bs)) as HR1.
  { split; try done.
    - intros q c Hq. rewrite Hco, Hpl in *. by apply (rep_keys _ _ _ _ _ HR).
    - rewrite <- (abs_buckets _ _ Hall'). apply (abs_ext pool). auto.
    - rewrite Hpd. apply HR.
    - eapply next_ok_perm; [done|]. apply HR. }
  exists bs. destruct renumber.
  - destruct (reindex_spec false m1 ht1 bs.*1 (entries bs) HR1) as (m' & ht' & -> & HR' & _ & Hev').
    { intros _ k. rewrite Hpd. by apply Hint. }
    ob. exists m', ht', bs.*1. split; [by exists bs0|]. split; [done|]. split; [done|]. split; [done|]. split; [done|congruence].
  - exists m1, ht1, bs.*1. split; [by exists bs0|]. split_and!; done.
Qed.

End sort.
