(* ===== verification/Symtable.v ===== *)
(** Symbol tables, the end of Zend/zend_hash.h: string keys that spell an
    integer in canonical decimal form are integer keys. *)

From S2P Require Import Prelude Dll ZendHash ZendHashExt.

(** ** [ZEND_HANDLE_NUMERIC_EX] *)

Definition chr_0 : Z := 48.
Definition chr_9 : Z := 57.
Definition chr_minus : Z := 45.
Definition MAX_LENGTH_OF_LONG : Z := 20.

Definition is_digit (c : Z) : bool := (chr_0 <=? c) && (c <=? chr_9).

(** [while (++tmp != end && *tmp >= '0' && *tmp <= '9') idx = idx * 10 + ( *tmp - '0');]
    from the position [tmp]; where it stops, and the number. *)
Fixpoint digits_loop (fuel : nat) (key : list Z) (tmp end_ : Z) (idx : Z) : outcome (Z * Z) :=
  match fuel with
  | O => UB
  | S fuel =>
      let tmp := tmp + 1 in
      if tmp =? end_ then OK (tmp, idx)
      else
        let* c := rd (key !! Z.to_nat tmp) in
        if is_digit c then digits_loop fuel key tmp end_ (ulong_wrap (idx * 10 + (c - chr_0)))
        else OK (tmp, idx)
  end.

(** The index the key stands for, [None] when the macro falls through.
    [length] counts the terminating NUL. *)
Definition ZEND_HANDLE_NUMERIC_EX (key : list Z) (length : Z) : outcome (option Z) :=
  let* c0 := rd (key !! 0%nat) in
  let tmp := if c0 =? chr_minus then 1 else 0 in
  let* c := rd (key !! Z.to_nat tmp) in
  if is_digit c then
    let end_ := length - 1 in
    let* ce := rd (key !! Z.to_nat end_) in
    if negb (ce =? 0) || ((c =? chr_0) && (2 <? length)) || (MAX_LENGTH_OF_LONG - 1 <? end_ - tmp)
    then OK None
    else
      let* (tmp, idx) := digits_loop (Z.to_nat length) key tmp end_ (c - chr_0) in
      if tmp =? end_ then
        if c0 =? chr_minus then
          if LONG_MAX <? ulong_wrap (idx - 1) then OK None else OK (Some (ulong_wrap (0 - idx)))
        else if LONG_MAX <? idx then OK None else OK (Some idx)
      else OK None
  else OK None.

Section symtable.
Context {V : Type} `{PEMalloc}.
Implicit Types (m : mem V) (ht : HashTable).

Definition zend_symtable_update m ht (k : zstr) (nKeyLength : Z) (v : V) (nDataSize : Z)
    : outcome (zresult * nptr * mem V * HashTable) :=
  let* n := ZEND_HANDLE_NUMERIC_EX (zs_val k) nKeyLength in
  match n with
  | Some idx => _zend_hash_index_update_or_next_insert m ht idx v nDataSize HASH_UPDATE
  | None => _zend_hash_add_or_update m ht k nKeyLength v nDataSize HASH_UPDATE
  end.

Definition zend_symtable_del m ht (k : zstr) (nKeyLength : Z)
    : outcome (zresult * mem V * HashTable) :=
  let* n := ZEND_HANDLE_NUMERIC_EX (zs_val k) nKeyLength in
  match n with
  | Some idx => zend_hash_del_key_or_index m ht None 0 idx HASH_DEL_INDEX
  | None => zend_hash_del_key_or_index m ht (Some k) nKeyLength 0 HASH_DEL_KEY
  end.

Definition zend_symtable_find m ht (k : zstr) (nKeyLength : Z) : outcome (option V) :=
  let* n := ZEND_HANDLE_NUMERIC_EX (zs_val k) nKeyLength in
  match n with
  | Some idx => zend_hash_index_find m ht idx
  | None => zend_hash_find m ht k nKeyLength
  end.

Definition zend_symtable_exists m ht (k : zstr) (nKeyLength : Z) : outcome bool :=
  let* n := ZEND_HANDLE_NUMERIC_EX (zs_val k) nKeyLength in
  match n with
  | Some idx => zend_hash_index_exists m ht idx
  | None => zend_hash_exists m ht k nKeyLength
  end.

Definition zend_symtable_update_current_key_ex m ht (k : zstr) (nKeyLength mode : Z)
    (junk : option zstr) (pos : option nptr) : outcome (zresult * option nptr * mem V * HashTable) :=
  let* n := ZEND_HANDLE_NUMERIC_EX (zs_val k) nKeyLength in
  match n with
  | Some idx => zend_hash_update_current_key_ex m ht HASH_KEY_IS_LONG None 0 idx mode junk pos
  | None => zend_hash_update_current_key_ex m ht HASH_KEY_IS_STRING (Some k) nKeyLength 0 mode junk pos
  end.

End symtable.
