(* ===== verification/SymtableSpec.v ===== *)
(** Which strings a symbol table takes for integers, and what its operations
    do to the dictionary the table stands for. *)

From S2P Require Import Prelude Dll OrderedDict ZendHash ZendHashInv ZendHashOps.
From S2P Require Import ZendHashDict ZendHashExt Symtable.

(** * Canonical decimal strings *)

Definition dec_value (acc : Z) (ds : list Z) : Z := fold_left (λ a c, a * 10 + (c - chr_0)) ds acc.

(** Digits without a superfluous zero in front. *)
Definition dec_digits (ds : list Z) : Prop :=
  ds ≠ [] ∧ Forall (λ c, is_digit c = true) ds ∧ (head ds = Some chr_0 → ds = [chr_0]).

(** [s] is the canonical decimal form of [z], with its terminating NUL. *)
Definition canonical_dec (s : list Z) (z : Z) : Prop :=
  ∃ ds, dec_digits ds ∧
    ((s = ds ++ [0] ∧ z = dec_value 0 ds) ∨
     (s = chr_minus :: ds ++ [0] ∧ ds ≠ [chr_0] ∧ z = - dec_value 0 ds)).

Lemma is_digit_spec c : is_digit c = true ↔ 48 <= c <= 57.
Proof. unfold is_digit, chr_0, chr_9. rewrite andb_true_iff, !Z.leb_le. done. Qed.

Lemma dec_value_bound ds : ∀ acc, 0 <= acc → Forall (λ c, is_digit c = true) ds →
  acc * 10 ^ Z.of_nat (length ds) <= dec_value acc ds < (acc + 1) * 10 ^ Z.of_nat (length ds).
Proof.
  induction ds as [|c ds IH]; intros acc Ha Hd; simpl.
  - unfold dec_value. simpl. lia.
  - apply Forall_cons in Hd as [Hc%is_digit_spec Hd].
    replace (Z.of_nat (S (length ds))) with (Z.of_nat (length ds) + 1) by lia.
    rewrite Z.pow_add_r, Z.pow_1_r by lia. unfold dec_value in *. simpl. unfold chr_0 in *.
    specialize (IH (acc * 10 + (c - 48)) ltac:(lia) Hd).
    assert (0 < 10 ^ Z.of_nat (length ds)) by (apply Z.pow_pos_nonneg; lia). nia.
Qed.

(** With at most 19 digits the accumulator never wraps. *)
Lemma dec_value_nowrap ds acc :
  0 <= acc → Forall (λ c, is_digit c = true) ds →
  (acc + 1) * 10 ^ Z.of_nat (length ds) <= 2 ^ 64 →
  fold_left (λ a c, ulong_wrap (a * 10 + (c - chr_0))) ds acc = dec_value acc ds.
Proof.
  revert acc. induction ds as [|c ds IH]; intros acc Ha Hd Hb; [done|].
  apply Forall_cons in Hd as [Hc Hd]. pose proof Hc as Hc'%is_digit_spec.
  simpl length in Hb. replace (Z.of_nat (S (length ds))) with (Z.of_nat (length ds) + 1) in Hb by lia.
  rewrite Z.pow_add_r, Z.pow_1_r in Hb by lia.
  assert (0 < 10 ^ Z.of_nat (length ds)) by (apply Z.pow_pos_nonneg; lia).
  unfold chr_0 in *. unfold dec_value. simpl. unfold chr_0.
  rewrite ulong_wrap_id by nia. apply IH; [lia|done|nia].
Qed.

(** * The macro *)

Lemma digits_loop_ok fuel key tmp ds idx :
  0 <= tmp → drop (Z.to_nat (tmp + 1)) key = ds ++ [0] → (length ds < fuel)%nat →
  let end_ := tmp + 1 + Z.of_nat (length ds) in
  ∃ tmp' idx', digits_loop fuel key tmp end_ idx = OK (tmp', idx') ∧
    (tmp' = end_ ↔ Forall (λ c, is_digit c = true) ds) ∧
    (tmp' = end_ → idx' = fold_left (λ a c, ulong_wrap (a * 10 + (c - chr_0))) ds idx).
Proof.
  revert fuel tmp idx. induction ds as [|c ds IH]; intros fuel tmp idx Ht Hd Hf end_;
    (destruct fuel as [|fuel]; [simpl in Hf; lia|]); simpl.
  - rewrite (proj2 (Z.eqb_eq _ _)) by (unfold end_; simpl; lia).
    eexists _, _. split; [done|]. split; [|done]. split; [by constructor|]. unfold end_. simpl. lia.
  - rewrite (proj2 (Z.eqb_neq _ _)) by (unfold end_; simpl; lia).
    assert (key !! Z.to_nat (tmp + 1) = Some c) as ->.
    { rewrite <- (Nat.add_0_r (Z.to_nat (tmp + 1))), <- lookup_drop, Hd. done. }
    simpl. destruct (is_digit c) eqn:Hc.
    + destruct (IH fuel (tmp + 1) (ulong_wrap (idx * 10 + (c - chr_0))))
        as (tmp' & idx' & Hrun & Hiff & Hval); [lia| |simpl in Hf; lia|].
      { replace (Z.to_nat (tmp + 1 + 1)) with (Z.to_nat (tmp + 1) + 1)%nat by lia.
        rewrite <- drop_drop, Hd. done. }
      replace (tmp + 1 + 1 + Z.of_nat (length ds)) with end_ in * by (unfold end_; simpl; lia).
      exists tmp', idx'. split; [done|]. rewrite Forall_cons, Hc. naive_solver.
    + eexists _, _. split; [done|]. split; [|unfold end_; simpl; lia].
      split; [unfold end_; simpl; lia|]. rewrite Forall_cons, Hc. naive_solver.
Qed.

(** The part of the macro after the sign: [c :: ds] is what follows it. *)
Lemma numeric_tail s tmp c ds len :
  0 <= tmp → drop (Z.to_nat tmp) s = c :: ds ++ [0] → len = Z.of_nat (length s) → is_digit c = true →
  Z.of_nat (length ds) + 1 <= 19 →
  ∃ tmp' idx, digits_loop (Z.to_nat len) s tmp (len - 1) (c - chr_0) = OK (tmp', idx) ∧
    (tmp' = len - 1 ↔ Forall (λ c, is_digit c = true) (c :: ds)) ∧
    (tmp' = len - 1 → idx = dec_value 0 (c :: ds)).
Proof.
  intros Ht Hd -> Hc Hlen.
  assert (length s = Z.to_nat tmp + S (S (length ds)))%nat as Hl.
  { apply (f_equal length) in Hd. rewrite length_drop in Hd. simpl in Hd.
    rewrite length_app in Hd. simpl in Hd. lia. }
  replace (Z.of_nat (length s) - 1) with (tmp + 1 + Z.of_nat (length ds)) by lia.
  destruct (digits_loop_ok (Z.to_nat (Z.of_nat (length s))) s tmp ds (c - chr_0))
    as (tmp' & idx & Hrun & Hiff & Hval); [done| |lia|].
  { replace (Z.to_nat (tmp + 1)) with (Z.to_nat tmp + 1)%nat by lia. rewrite <- drop_drop, Hd. done. }
  exists tmp', idx. split; [done|]. split.
  - rewrite Hiff, Forall_cons. naive_solver.
  - intros E. rewrite (Hval E). apply Hiff in E. apply is_digit_spec in Hc as Hc'.
    unfold chr_0 in *. rewrite dec_value_nowrap; [done|lia|done|].
    assert (0 <= 10 ^ Z.of_nat (length ds) <= 10 ^ 18) as Hp.
    { split; [apply Z.pow_nonneg; lia|apply Z.pow_le_mono_r; lia]. }
    assert ((c - 48 + 1) * 10 ^ Z.of_nat (length ds) <= 10 * 10 ^ 18).
    { apply Z.mul_le_mono_nonneg; lia. }
    change (10 * 10 ^ 18) with 10000000000000000000 in *. lia.
Qed.

Definition in_long (z : Z) : Prop := LONG_MIN <= z <= LONG_MAX.

Lemma dec_value_lower c ds :
  is_digit c = true → c ≠ chr_0 → Forall (λ c, is_digit c = true) ds →
  10 ^ Z.of_nat (length ds) <= dec_value 0 (c :: ds).
Proof.
  intros Hc Hne Hd. apply is_digit_spec in Hc as Hc'. unfold chr_0 in *.
  destruct (dec_value_bound ds (c - 48) ltac:(lia) Hd) as [Hlo _].
  unfold dec_value in *. cbn [fold_left]. unfold chr_0 in *.
  replace (0 * 10 + (c - 48)) with (c - 48) by lia.
  assert (0 < 10 ^ Z.of_nat (length ds)) by (apply Z.pow_pos_nonneg; lia). nia.
Qed.

(** Canonical forms, given the sign. *)
Lemma canonical_neg t z :
  canonical_dec (chr_minus :: t ++ [0]) z ↔ dec_digits t ∧ t ≠ [chr_0] ∧ z = - dec_value 0 t.
Proof.
  split.
  - intros (ds & Hds & [[E ->]|(E & Hne & ->)]).
    + destruct ds as [|c ds]; [done|]. injection E as <- E.
      destruct Hds as (_ & [Hc _]%Forall_cons & _). done.
    + injection E as E. apply app_inj_2 in E as [-> _]; [|done]. done.
  - intros (Hd & Hne & ->). exists t. auto.
Qed.

Lemma canonical_pos t z :
  head (t ++ [0]) ≠ Some chr_minus →
  canonical_dec (t ++ [0]) z ↔ dec_digits t ∧ z = dec_value 0 t.
Proof.
  intros Hs. split.
  - intros (ds & Hds & [[E ->]|(E & _ & _)]).
    + apply app_inj_2 in E as [-> _]; [|done]. done.
    + by rewrite E in Hs.
  - intros (Hd & ->). exists t. auto.
Qed.

(** What the macro decides about the part [t] behind the sign. *)
Definition numeric_of (neg : bool) (t : list Z) (r : option Z) : Prop :=
  ∀ idx, r = Some idx ↔ ∃ z, dec_digits t ∧ (neg = true → t ≠ [chr_0]) ∧
    z = (if neg then - dec_value 0 t else dec_value 0 t) ∧ in_long z ∧ idx = to_ulong z.

Lemma numeric_none neg t :
  (dec_digits t → (neg = true → t ≠ [chr_0]) → 2 ^ 63 < dec_value 0 t) → numeric_of neg t None.
Proof.
  intros Hbad idx. split; [done|]. intros (z & Hd & Hn & -> & Hr & _).
  specialize (Hbad Hd Hn). unfold in_long, LONG_MIN, LONG_MAX in Hr. destruct neg; lia.
Qed.

Lemma numeric_core (neg : bool) c ds s len tmp :
  tmp = (if neg then 1 else 0) → drop (Z.to_nat tmp) s = c :: ds ++ [0] →
  len = Z.of_nat (length s) → is_digit c = true → s !! Z.to_nat (len - 1) = Some 0 →
  ∃ r,
    (let end_ := len - 1 in
     let* ce := rd (s !! Z.to_nat end_) in
     if negb (ce =? 0) || ((c =? chr_0) && (2 <? len)) || (MAX_LENGTH_OF_LONG - 1 <? end_ - tmp)
     then OK None
     else
       let* (tmp, idx) := digits_loop (Z.to_nat len) s tmp end_ (c - chr_0) in
       if tmp =? end_ then
         if neg then
           if LONG_MAX <? ulong_wrap (idx - 1) then OK None else OK (Some (ulong_wrap (0 - idx)))
         else if LONG_MAX <? idx then OK None else OK (Some idx)
       else OK None) = OK r ∧ numeric_of neg (c :: ds) r.
Proof.
  intros Htmp Hd Hlen Hc Hz. cbv zeta. rewrite Hz. ob.
  assert (len = tmp + Z.of_nat (length ds) + 2) as Hl.
  { apply (f_equal length) in Hd. rewrite length_drop in Hd. cbn [length] in Hd.
    rewrite length_app in Hd. cbn [length] in Hd. destruct neg; lia. }
  change (0 =? 0) with true. cbn [negb orb].
  destruct ((c =? chr_0) && (2 <? len)) eqn:Elz; cbn [orb].
  { exists None. split; [done|]. apply numeric_none. intros (_ & _ & H0) Hn.
    apply andb_true_iff in Elz as [->%Z.eqb_eq H2%Z.ltb_lt].
    specialize (H0 eq_refl). injection H0 as ->. destruct neg; [by destruct Hn|]. simpl in *; lia. }
  destruct (MAX_LENGTH_OF_LONG - 1 <? len - 1 - tmp) eqn:Elong.
  { exists None. split; [done|]. apply numeric_none. intros (_ & Hall & H0) _.
    apply Z.ltb_lt in Elong. unfold MAX_LENGTH_OF_LONG in Elong.
    apply Forall_cons in Hall as [_ Hall]. assert (c ≠ chr_0) as Hne.
    { intros ->. specialize (H0 eq_refl). injection H0 as ->. simpl in *. lia. }
    pose proof (dec_value_lower c ds Hc Hne Hall).
    assert (10 ^ 19 <= 10 ^ Z.of_nat (length ds)) by (apply Z.pow_le_mono_r; lia). lia. }
  apply Z.ltb_ge in Elong. unfold MAX_LENGTH_OF_LONG in Elong.
  destruct (numeric_tail s tmp c ds len) as (tmp' & idx & Hrun & Hiff & Hval);
    [destruct neg; lia|done|done|done|lia|].
  rewrite Hrun. ob. destruct (Z.eqb_spec tmp' (len - 1)) as [Heq|Hneq].
  2: { exists None. split; [done|]. apply numeric_none. intros (_ & Hall & _) _. naive_solver. }
  rewrite (Hval Heq). apply Hiff in Heq as Hall.
  assert (0 <= dec_value 0 (c :: ds) < 10 ^ 19) as Hb.
  { pose proof (dec_value_bound (c :: ds) 0 ltac:(lia) Hall) as [? Hub]. split; [lia|].
    eapply Z.lt_le_trans; [exact Hub|]. cbn [length].
    rewrite Z.mul_1_l. apply Z.pow_le_mono_r; lia. }
  set (v := dec_value 0 (c :: ds)) in *.
  assert (dec_digits (c :: ds)) as Hdd.
  { split; [done|]. split; [done|]. simpl. intros [= ->]. f_equal.
    apply andb_false_iff in Elz as [E|E%Z.ltb_ge]; [by rewrite Z.eqb_refl in E|].
    destruct ds; [done|simpl in *; destruct neg; lia]. }
  assert (neg = true → c ≠ chr_0) as Hnz.
  { intros -> ->. apply andb_false_iff in Elz as [E|E%Z.ltb_ge]; [by rewrite Z.eqb_refl in E|lia]. }
  destruct neg.
  - assert (1 <= v) as Hv1.
    { pose proof (dec_value_lower c ds Hc (Hnz eq_refl)) as Hlow.
      apply Forall_cons in Hall as [_ Hall]. specialize (Hlow Hall).
      assert (0 < 10 ^ Z.of_nat (length ds)) by (apply Z.pow_pos_nonneg; lia). unfold v. lia. }
    rewrite ulong_wrap_id by lia. destruct (Z.ltb_spec LONG_MAX (v - 1)) as [Hov|Hok].
    + exists None. split; [done|]. apply numeric_none. intros _ _. unfold LONG_MAX in Hov. fold v. lia.
    + eexists. split; [done|]. intros i. unfold LONG_MAX in Hok.
      assert (in_long (- v)) by (unfold in_long, LONG_MIN, LONG_MAX; lia).
      assert (c :: ds ≠ [chr_0]) by (specialize (Hnz eq_refl); congruence).
      unfold to_ulong. fold v. replace (0 - v) with (- v) by lia. naive_solver.
  - destruct (Z.ltb_spec LONG_MAX v) as [Hov|Hok].
    + exists None. split; [done|]. intros i. split; [done|].
      intros (z & _ & _ & -> & Hr & _). unfold in_long in Hr. fold v in Hr. lia.
    + eexists. split; [done|]. intros i. unfold LONG_MAX in Hok.
      assert (in_long v) by (unfold in_long, LONG_MIN, LONG_MAX; lia).
      assert (to_ulong v = v) as E by (unfold to_ulong; apply ulong_wrap_id; lia). split.
      * intros [= <-]. exists v. split; [exact Hdd|]. split; [done|]. split; [done|]. split; [done|]. by rewrite E.
      * intros (z & _ & _ & Hz' & _ & ->). subst z. fold v. by rewrite E.
Qed.

(** The macro recognises exactly the canonical decimal forms of the integers
    that fit a [long]. *)
Lemma handle_numeric_spec s :
  last s = Some 0 →
  ∃ r, ZEND_HANDLE_NUMERIC_EX s (Z.of_nat (length s)) = OK r ∧
    ∀ idx, r = Some idx ↔ ∃ z, canonical_dec s z ∧ in_long z ∧ idx = to_ulong z.
Proof.
  intros (body & ->)%last_Some. unfold ZEND_HANDLE_NUMERIC_EX.
  assert ((body ++ [0]) !! Z.to_nat (Z.of_nat (length (body ++ [0])) - 1) = Some 0) as Hlast.
  { rewrite lookup_app_r; rewrite length_app; simpl; [|lia].
    replace (_ - _)%nat with 0%nat by lia. done. }
  destruct (decide (head (body ++ [0]) = Some chr_minus)) as [Hneg|Hpos].
  - destruct body as [|b t]; [done|]. injection Hneg as ->.
    change (((chr_minus :: t) ++ [0]) !! 0%nat) with (Some chr_minus). ob.
    change (chr_minus =? chr_minus) with true. cbv iota.
    setoid_rewrite canonical_neg.
    destruct t as [|c ds].
    + exists None. split; [done|]. intros idx. split; [done|]. intros (z & (Hd & _) & _). by destruct Hd.
    + change (((chr_minus :: c :: ds) ++ [0]) !! Z.to_nat 1) with (Some c). ob.
      destruct (is_digit c) eqn:Hc.
      * destruct (numeric_core true c ds ((chr_minus :: c :: ds) ++ [0]) _ 1 eq_refl eq_refl eq_refl Hc Hlast)
          as (r & Hr & Hn). exists r. split; [exact Hr|]. intros idx. rewrite (Hn idx). naive_solver.
      * exists None. split; [done|]. intros idx. split; [done|].
        intros (z & ((_ & [Hc' _]%Forall_cons & _) & _) & _). congruence.
  - setoid_rewrite canonical_pos; [|done].
    destruct body as [|c ds].
    + exists None. split; [done|]. intros idx. split; [done|]. intros (z & (Hd & _) & _). by destruct Hd.
    + change (((c :: ds) ++ [0]) !! 0%nat) with (Some c). ob.
      rewrite (proj2 (Z.eqb_neq c chr_minus)) by (intros ->; by destruct Hpos).
      change (((c :: ds) ++ [0]) !! Z.to_nat 0) with (Some c). ob. destruct (is_digit c) eqn:Hc.
      * destruct (numeric_core false c ds ((c :: ds) ++ [0]) _ 0 eq_refl eq_refl eq_refl Hc Hlast)
          as (r & Hr & Hn). exists r. split; [exact Hr|]. intros idx. rewrite (Hn idx). naive_solver.
      * exists None. split; [done|]. intros idx. split; [done|].
        intros (z & ((_ & [Hc' _]%Forall_cons & _) & _) & _). congruence.
Qed.

(** * The operations on the dictionary *)

(** The key a string stands for in a symbol table. *)
Definition sym_key (s : list Z) (K : akey) : Prop :=
  (∃ z, canonical_dec s z ∧ in_long z ∧ K = KIdx (to_ulong z)) ∨
  ((∀ z, canonical_dec s z → ¬ in_long z) ∧ K = KStr s).

Lemma handle_numeric_key s :
  last s = Some 0 →
  ∃ r, ZEND_HANDLE_NUMERIC_EX s (Z.of_nat (length s)) = OK r ∧
    sym_key s match r with Some idx => KIdx idx | None => KStr s end ∧
    (∀ idx, r = Some idx → is_ulong idx).
Proof.
  intros Hs. destruct (handle_numeric_spec s Hs) as (r & Hr & Hspec). exists r. split; [done|].
  destruct r as [idx|].
  - destruct (proj1 (Hspec idx) eq_refl) as (z & Hc & Hz & ->). split.
    + left. eauto.
    + intros idx [= <-]. apply ulong_wrap_range.
  - split; [|done]. right. split; [|done]. intros z Hc Hz.
    by specialize (proj2 (Hspec (to_ulong z)) ltac:(eauto)).
Qed.

Section symtable_spec.
Context {V : Type} `{PEMalloc} (pool : positive → list Z).
Implicit Types (m : mem V) (ht : HashTable) (l : list ptr) (d : list (akey * V)).

Lemma symtable_find_spec m ht l d k len :
  Rep pool m ht l d → key_valid pool m k len → last (zs_val k) = Some 0 →
  ∃ K, sym_key (zs_val k) K ∧
    zend_symtable_find m ht k len = OK (dlookup K d) ∧
    zend_symtable_exists m ht k len = OK (bool_decide (K ∈ d.*1)).
Proof.
  intros HR Hk Hs. destruct (handle_numeric_key _ Hs) as (r & Hr & HK & _).
  unfold zend_symtable_find, zend_symtable_exists. pose proof Hk as (-> & _). rewrite Hr. ob.
  destruct r as [idx|]; (eexists; split; [exact HK|]); split;
    eauto using index_find_spec, index_exists_spec, find_spec, exists_spec.
Qed.

Lemma symtable_update_spec m ht l d k len v sz :
  Rep pool m ht l d → key_valid pool m k len → last (zs_val k) = Some 0 →
  Z.of_nat (length l) + 1 < 2 ^ 32 →
  ∃ K, sym_key (zs_val k) K ∧
    ins_spec pool m ht l d K v false (zend_symtable_update m ht k len v sz).
Proof.
  intros HR Hk Hs Hl. destruct (handle_numeric_key _ Hs) as (r & Hr & HK & Hu).
  unfold zend_symtable_update. pose proof Hk as (-> & _). rewrite Hr. ob.
  destruct r as [idx|]; (eexists; split; [exact HK|]).
  - exact (index_update_spec pool m ht l d idx v sz HASH_UPDATE HR (Hu _ eq_refl) Hl).
  - exact (add_or_update_spec pool m ht l d k _ v sz HASH_UPDATE HR Hk Hl).
Qed.

Lemma symtable_del_spec m ht l d k len :
  Rep pool m ht l d → key_valid pool m k len → last (zs_val k) = Some 0 →
  ∃ K, sym_key (zs_val k) K ∧ del_spec pool m ht l d K (zend_symtable_del m ht k len).
Proof.
  intros HR Hk Hs. destruct (handle_numeric_key _ Hs) as (r & Hr & HK & Hu).
  unfold zend_symtable_del. pose proof Hk as (-> & _). rewrite Hr. ob.
  destruct r as [idx|]; (eexists; split; [exact HK|]).
  - by apply del_index_spec.
  - by apply (del_key_spec pool m ht l d k _ 0).
Qed.

End symtable_spec.
