(* ===== verification/ZendQsort.v ===== *)
(** Zend/zend_qsort.c: the iterative quicksort, and that it sorts and stays in
    bounds. *)

From Stdlib Require Import Sorting.Sorted.
From S2P Require Import Prelude.

(** * The sort of the engine, Zend/zend_qsort *)

(** ** [_zend_qsort_swap], on the bytes of two elements *)

(** The loop over [int]s: four bytes at a time. *)
Fixpoint swap_ints (n : nat) (a b : list Z) : list Z * list Z :=
  match n with
  | O => (a, b)
  | S n =>
      let (a', b') := swap_ints n (drop 4 a) (drop 4 b) in
      (take 4 b ++ a', take 4 a ++ b')
  end.

(** The loop over the remaining bytes. *)
Fixpoint swap_chars (n : nat) (a b : list Z) : list Z * list Z :=
  match n, a, b with
  | S n, x :: a, y :: b => let (a', b') := swap_chars n a b in (y :: a', x :: b')
  | _, _, _ => (a, b)
  end.

Definition _zend_qsort_swap (a b : list Z) (siz : nat) : list Z * list Z :=
  let n := (siz / 4)%nat in
  let (a1, b1) := swap_ints n a b in
  let (a2, b2) := swap_chars (siz - 4 * n) (drop (4 * n) a1) (drop (4 * n) b1) in
  (take (4 * n) a1 ++ a2, take (4 * n) b1 ++ b2).

Definition QSORT_STACK_SIZE : nat := 64.

Section qsort.
Context {A : Type} (compare : A → A → Z).
Implicit Types a : list A.

Definition elt a (i : Z) : outcome A := if 0 <=? i then rd (a !! Z.to_nat i) else UB.

(** [_zend_qsort_swap] of two elements of the array. *)
Definition swap a (i j : Z) : outcome (list A) :=
  let* x := elt a i in
  let* y := elt a j in
  OK (<[Z.to_nat j := x]> (<[Z.to_nat i := y]> a)).

(** [for (; seg1 < seg2 && compare(begin, seg1) > 0; seg1 += siz);] *)
Fixpoint scan1 (fuel : nat) a (begin_ seg1 seg2 : Z) : outcome Z :=
  if seg1 <? seg2 then
    let* x := elt a begin_ in
    let* y := elt a seg1 in
    if 0 <? compare x y
    then match fuel with O => UB | S fuel => scan1 fuel a begin_ (seg1 + 1) seg2 end
    else OK seg1
  else OK seg1.

(** [for (; seg2 >= seg1 && compare(seg2, begin) > 0; seg2 -= siz);] *)
Fixpoint scan2 (fuel : nat) a (begin_ seg1 seg2 : Z) : outcome Z :=
  if seg1 <=? seg2 then
    let* y := elt a seg2 in
    let* x := elt a begin_ in
    if 0 <? compare y x
    then match fuel with O => UB | S fuel => scan2 fuel a begin_ seg1 (seg2 - 1) end
    else OK seg2
  else OK seg2.

(** The [while (1)] loop. *)
Fixpoint part_loop (fuel : nat) a (begin_ seg1 seg2 : Z) : outcome (list A * Z) :=
  let* seg1 := scan1 (length a) a begin_ seg1 seg2 in
  let* seg2 := scan2 (length a) a begin_ seg1 seg2 in
  if seg2 <=? seg1 then OK (a, seg2)
  else
    let* a := swap a seg1 seg2 in
    match fuel with O => UB | S fuel => part_loop fuel a begin_ (seg1 + 1) (seg2 - 1) end.

(** [offset = (end - begin) >> 1], a [uint] of bytes, rounded down to an
    element. *)
Definition pivot_offset (siz begin_ end_ : Z) : Z :=
  let offset := uint_wrap (Z.shiftr ((end_ - begin_) * siz) 1) in
  (offset - offset mod siz) / siz.

Definition partition (siz : Z) a (begin_ end_ : Z) : outcome (list A * Z) :=
  let* a := swap a begin_ (begin_ + pivot_offset siz begin_ end_) in
  let* (a, seg2) := part_loop (length a) a begin_ (begin_ + 1) end_ in
  let* a := swap a begin_ seg2 in
  OK (a, seg2).

(** [begin_stack[loop] = b; end_stack[loop++] = e;] *)
Definition push_seg (stack : list (Z * Z)) (b e : Z) : outcome (list (Z * Z)) :=
  if (length stack <? QSORT_STACK_SIZE)%nat then OK ((b, e) :: stack) else UB.

(** The two outer loops: [stack] holds the entries below [loop], the top
    one first. *)
Fixpoint qsort_loop (fuel : nat) (siz : Z) a (stack : list (Z * Z)) (begin_ end_ : Z) : outcome (list A) :=
  match fuel with
  | O => UB
  | S fuel =>
      if begin_ <? end_ then
        let* (a, seg2) := partition siz a begin_ end_ in
        if (seg2 - begin_) <=? (end_ - seg2) then
          let* stack := if seg2 + 1 <? end_ then push_seg stack (seg2 + 1) end_ else OK stack in
          qsort_loop fuel siz a stack begin_ (seg2 - 1)
        else
          let* stack := if begin_ <? seg2 - 1 then push_seg stack begin_ (seg2 - 1) else OK stack in
          qsort_loop fuel siz a stack (seg2 + 1) end_
      else
        match stack with
        | [] => OK a
        | (b, e) :: stack => qsort_loop fuel siz a stack b e
        end
  end.

Definition zend_qsort_r (siz : Z) a : outcome (list A) :=
  qsort_loop (2 * length a + 2) siz a [] 0 (Z.of_nat (length a) - 1).

Definition zend_qsort (siz : Z) a : outcome (list A) := zend_qsort_r siz a.

End qsort.

Example qsort_ex : zend_qsort Z.sub 8 [5; 3; 9; 1; 3; 7; 0; 2] = OK [0; 1; 2; 3; 3; 5; 7; 9].
Proof. reflexivity. Qed.

(** * [zend_qsort] sorts *)

(** * The byte-wise swap *)

Lemma swap_ints_spec n a b :
  length a = length b → (4 * n ≤ length a)%nat →
  swap_ints n a b = (take (4 * n) b ++ drop (4 * n) a, take (4 * n) a ++ drop (4 * n) b).
Proof.
  revert a b. induction n as [|n IH]; intros a b Hl Hn; [done|]. cbn [swap_ints].
  rewrite IH by (rewrite !length_drop; lia). rewrite !drop_drop.
  replace (4 * S n)%nat with (4 + 4 * n)%nat by lia. rewrite <- !take_take_drop, <- !app_assoc. done.
Qed.

Lemma swap_chars_spec a b : length a = length b → swap_chars (length a) a b = (b, a).
Proof.
  revert b. induction a as [|x a IH]; intros [|y b] Hl; simpl in *; try done. by rewrite IH by lia.
Qed.

Lemma qsort_swap_ok a b siz : length a = siz → length b = siz → _zend_qsort_swap a b siz = (b, a).
Proof.
  intros Ha Hb. unfold _zend_qsort_swap. set (n := (siz / 4)%nat).
  assert (4 * n ≤ siz)%nat as Hn by (unfold n; pose proof (Nat.Div0.mul_div_le siz 4); lia).
  rewrite swap_ints_spec by lia.
  rewrite !drop_app_length', !take_app_length' by (rewrite length_take; lia).
  assert (siz - 4 * n = length (drop (4 * n) a))%nat as -> by (rewrite length_drop; lia).
  rewrite swap_chars_spec by (rewrite !length_drop; lia). by rewrite !take_drop.
Qed.

Section spec.
Context {A : Type} (compare : A → A → Z).
Implicit Types (a : list A) (x y : A).

Abbreviation at_ a k := (a !! Z.to_nat k).

Definition inb a (k : Z) : Prop := 0 <= k < Z.of_nat (length a).

Lemma elt_ok a k : inb a k → ∃ x, elt a k = OK x ∧ at_ a k = Some x.
Proof.
  intros [H0 Hk]. unfold elt. rewrite (proj2 (Z.leb_le _ _)) by done.
  destruct (lookup_lt_is_Some_2 a (Z.to_nat k)) as [x Hx]; [lia|]. exists x. by rewrite Hx.
Qed.

(** [a'] differs from [a] by a permutation of the positions [b..e]: every
    property of all elements of the segment carries over. *)
Record seg_perm a a' (b e : Z) : Prop := {
  sp_perm : a' ≡ₚ a;
  sp_out : ∀ k, 0 <= k → k < b ∨ e < k → at_ a' k = at_ a k;
  sp_in : ∀ Q : A → Prop, (∀ k x, b <= k <= e → at_ a k = Some x → Q x) →
                          ∀ k x, b <= k <= e → at_ a' k = Some x → Q x;
}.

Lemma seg_perm_refl a b e : seg_perm a a b e.
Proof. by split. Qed.

Lemma seg_perm_trans a1 a2 a3 b e : seg_perm a1 a2 b e → seg_perm a2 a3 b e → seg_perm a1 a3 b e.
Proof.
  intros [P1 O1 I1] [P2 O2 I2]. split.
  - by rewrite P2.
  - intros k Hk Ho. by rewrite O2, O1.
  - intros Q HQ. apply I2, I1, HQ.
Qed.

Lemma seg_perm_wider a a' b e b' e' : seg_perm a a' b e → 0 <= b' <= b → e <= e' → seg_perm a a' b' e'.
Proof.
  intros [P O I] Hb He. split; [done|intros k Hk Ho; apply O; lia|].
  intros Q HQ k x Hk Hx. destruct (decide (b <= k <= e)) as [Hin|Hout].
  - apply (I Q) with (k := k); [|done|done]. intros k' x' Hk'. apply HQ. lia.
  - rewrite O in Hx by lia. by apply (HQ k).
Qed.

Lemma seg_perm_length a a' b e : seg_perm a a' b e → length a' = length a.
Proof. intros [P _ _]. by rewrite P. Qed.

Lemma inb_perm a a' b e k : seg_perm a a' b e → inb a k → inb a' k.
Proof. intros HP. unfold inb. by rewrite (seg_perm_length _ _ _ _ HP). Qed.

Lemma swap_ok a i j b e :
  inb a i → inb a j → b <= i <= e → b <= j <= e →
  ∃ a', swap a i j = OK a' ∧ seg_perm a a' b e ∧ at_ a' i = at_ a j ∧ at_ a' j = at_ a i ∧
    (∀ k, 0 <= k → k ≠ i → k ≠ j → at_ a' k = at_ a k).
Proof.
  intros Hi Hj Hib Hjb. destruct (elt_ok a i Hi) as (x & Ex & Hx). destruct (elt_ok a j Hj) as (y & Ey & Hy).
  unfold swap. rewrite Ex, Ey. ob. eexists. split; [done|]. destruct Hi as [Hi0 Hin], Hj as [Hj0 Hjn].
  set (a' := <[Z.to_nat j:=x]> (<[Z.to_nat i:=y]> a)).
  assert (∀ k, 0 <= k → at_ a' k = if decide (k = j) then Some x else if decide (k = i) then Some y else at_ a k) as Hat.
  { intros k Hk. unfold a'. destruct (decide (k = j)) as [->|Hkj].
    - rewrite list_lookup_insert_eq; [done|]. rewrite length_insert. lia.
    - rewrite list_lookup_insert_ne by lia. destruct (decide (k = i)) as [->|Hki].
      + apply list_lookup_insert_eq. lia.
      + by rewrite list_lookup_insert_ne by lia. }
  split; [split|split_and!].
  - by apply Permutation_insert_swap.
  - intros k Hk Ho. rewrite Hat by done. rewrite !decide_False by lia. done.
  - intros Q HQ k z Hk. destruct (decide (0 <= k)) as [H0|Hneg].
    + rewrite Hat by done. case_decide; [intros [= <-]; by apply (HQ i)|].
      case_decide; [intros [= <-]; by apply (HQ j)|]. by apply HQ.
    + replace (Z.to_nat k) with (Z.to_nat 0) by lia. assert (b <= 0 <= e) as H00 by lia.
      rewrite Hat by done. case_decide; [intros [= <-]; by apply (HQ i)|].
      case_decide; [intros [= <-]; by apply (HQ j)|]. by apply HQ.
  - rewrite Hat by done. rewrite Hy. case_decide; [|by rewrite decide_True]. subst. congruence.
  - rewrite Hat by done. by rewrite decide_True, Hx.
  - intros k Hk Hki Hkj. rewrite Hat by done. by rewrite !decide_False.
Qed.

(** ** Partition *)

(** Where an element may end up, relative to the pivot [p]. *)
Definition Lft p x : Prop := 0 < compare p x ∨ ¬ 0 < compare x p.
Definition Rgt p x : Prop := 0 < compare x p ∨ ¬ 0 < compare p x.

Lemma scan1_ok fuel a b s1 s2 p :
  inb a b → at_ a b = Some p → 0 <= s1 → s2 < Z.of_nat (length a) → s2 - s1 <= Z.of_nat fuel →
  ∃ s1', scan1 compare fuel a b s1 s2 = OK s1' ∧ s1 <= s1' ∧ (s1' <= s2 ∨ s1' = s1) ∧
    (∀ k x, s1 <= k < s1' → at_ a k = Some x → Lft p x) ∧
    (s1' < s2 → ∀ x, at_ a s1' = Some x → Rgt p x).
Proof.
  intros Hb Hp. destruct (elt_ok a b Hb) as (p' & Ep & Hp'). assert (p' = p) as -> by congruence. clear Hp'.
  revert s1. induction fuel as [|fuel IH]; intros s1 H1 H2 Hf; cbn [scan1];
    (destruct (Z.ltb_spec s1 s2) as [Hlt|Hge]; [|exists s1; split; [done|]; split_and!; [lia|by right|lia|lia]]); [lia|].
  rewrite Ep. ob. destruct (elt_ok a s1) as (y & Ey & Hy); [unfold inb; lia|]. rewrite Ey. ob.
  destruct (Z.ltb_spec 0 (compare p y)) as [Hc|Hc].
  - destruct (IH (s1 + 1)) as (s1' & Hrun & Hle & Hor & HL & HR); [lia..|]. exists s1'.
    split; [done|]. split; [lia|]. split; [lia|]. split; [|done]. intros k x Hk Hx.
    destruct (decide (k = s1)) as [->|]; [|apply (HL k); [lia|done]].
    left. congruence.
  - exists s1. split; [done|]. split; [lia|]. split; [by right|]. split; [lia|].
    intros _ x Hx. right. assert (x = y) as -> by congruence. lia.
Qed.

Lemma scan2_ok fuel a b s1 s2 p :
  inb a b → at_ a b = Some p → 0 <= s1 → s2 < Z.of_nat (length a) → s2 - s1 < Z.of_nat fuel →
  ∃ s2', scan2 compare fuel a b s1 s2 = OK s2' ∧ s2' <= s2 ∧ (s1 - 1 <= s2' ∨ s2' = s2) ∧
    (∀ k x, s2' < k <= s2 → at_ a k = Some x → Rgt p x) ∧
    (s1 <= s2' → ∀ x, at_ a s2' = Some x → Lft p x).
Proof.
  intros Hb Hp. destruct (elt_ok a b Hb) as (p' & Ep & Hp'). assert (p' = p) as -> by congruence. clear Hp'.
  revert s2. induction fuel as [|fuel IH]; intros s2 H1 H2 Hf; cbn [scan2];
    (destruct (Z.leb_spec s1 s2) as [Hlt|Hge]; [|exists s2; split; [done|]; split_and!; [lia|by right|lia|lia]]); [lia|].
  destruct (elt_ok a s2) as (y & Ey & Hy); [unfold inb; lia|]. rewrite Ey. ob. rewrite Ep. ob.
  destruct (Z.ltb_spec 0 (compare y p)) as [Hc|Hc].
  - destruct (IH (s2 - 1)) as (s2' & Hrun & Hle & Hor & HR & HL); [lia..|]. exists s2'.
    split; [done|]. split; [lia|]. split; [lia|]. split; [|done]. intros k x Hk Hx.
    destruct (decide (k = s2)) as [->|]; [|apply (HR k); [lia|done]].
    left. congruence.
  - exists s2. split; [done|]. split; [lia|]. split; [by right|]. split; [lia|].
    intros _ x Hx. right. assert (x = y) as -> by congruence. lia.
Qed.

Lemma part_loop_ok fuel a b s1 s2 e p :
  inb a b → inb a e → at_ a b = Some p → b < s1 → s1 <= s2 + 1 → s2 <= e → s2 - s1 < Z.of_nat fuel →
  (∀ k x, b < k < s1 → at_ a k = Some x → Lft p x) →
  (∀ k x, s2 < k <= e → at_ a k = Some x → Rgt p x) →
  ∃ a' s', part_loop compare fuel a b s1 s2 = OK (a', s') ∧ seg_perm a a' (b + 1) e ∧ b <= s' <= e ∧
    (∀ k x, b < k <= s' → at_ a' k = Some x → Lft p x) ∧
    (∀ k x, s' < k <= e → at_ a' k = Some x → Rgt p x).
Proof.
  revert a s1 s2. induction fuel as [|fuel IH]; intros a s1 s2 Hb He Hp H1 H12 H2 Hf HL HR.
  all: pose proof Hb as [Hb0 Hbn]; pose proof He as [He0 Hen]; cbn [part_loop].
  all: destruct (scan1_ok (length a) a b s1 s2 p) as (t1 & -> & Ht1 & Ht1' & HL1 & HR1); [done|done|lia|lia|lia|]; ob.
  all: destruct (scan2_ok (length a) a b t1 s2 p) as (t2 & -> & Ht2 & Ht2' & HR2 & HL2); [done|done|lia|lia|lia|]; ob.
  all: assert (∀ k x, b < k < t1 → at_ a k = Some x → Lft p x) as HL'
    by (intros k x Hk Hx; destruct (decide (k < s1)); [apply (HL k); [lia|done]|apply (HL1 k); [lia|done]]).
  all: assert (∀ k x, t2 < k <= e → at_ a k = Some x → Rgt p x) as HR'
    by (intros k x Hk Hx; destruct (decide (s2 < k)); [apply (HR k); [lia|done]|apply (HR2 k); [lia|done]]).
  all: destruct (Z.leb_spec t2 t1) as [Hbr|Hgo].
  1, 3: (exists a, t2; split; [done|]; split; [apply seg_perm_refl|]; split; [lia|]; split; [|done];
    intros k x Hk Hx; destruct (decide (k = t1)) as [->|]; [|apply (HL' k); [lia|done]];
    destruct (decide (t1 <= t2)); [|lia]; replace t1 with t2 in Hx by lia; by apply HL2).
  - lia.
  - destruct (swap_ok a t1 t2 (b + 1) e) as (a1 & -> & HP & E1 & E2 & Eo); [unfold inb; lia..|]. ob.
    destruct (IH a1 (t1 + 1) (t2 - 1)) as (a' & s' & Hrun & HP' & Hs & HLf & HRf).
    + by eapply inb_perm.
    + by eapply inb_perm.
    + rewrite (sp_out _ _ _ _ HP) by lia. done.
    + lia.
    + lia.
    + lia.
    + lia.
    + intros k x Hk Hx. destruct (decide (k = t1)) as [->|Hne].
      * rewrite E1 in Hx. apply HL2; [lia|done].
      * rewrite Eo in Hx by lia. apply (HL' k); [lia|done].
    + intros k x Hk Hx. destruct (decide (k = t2)) as [->|Hne].
      * rewrite E2 in Hx. apply HR1; [lia|done].
      * rewrite Eo in Hx by lia. apply (HR' k); [lia|done].
    + exists a', s'. split; [done|]. split; [by eapply seg_perm_trans|done].
Qed.

Lemma pivot_range siz b e : 0 < siz → b <= e → 0 <= pivot_offset siz b e <= e - b.
Proof.
  intros Hs Hbe. unfold pivot_offset. cbv zeta.
  assert (0 <= Z.shiftr ((e - b) * siz) 1 <= (e - b) * siz) as Hsh.
  { rewrite Z.shiftr_div_pow2 by lia. change (2 ^ 1) with 2.
    split; [apply Z.div_pos; nia|]. apply Z.div_le_upper_bound; nia. }
  set (o := uint_wrap _). assert (0 <= o <= (e - b) * siz) as Ho.
  { unfold o, uint_wrap. split; [apply Z.mod_pos_bound; lia|]. etrans; [apply Z.mod_le; lia|lia]. }
  pose proof (Z.mod_pos_bound o siz Hs). pose proof (Z.mod_le o siz ltac:(lia) Hs).
  split; [apply Z.div_pos; lia|]. apply Z.div_le_upper_bound; nia.
Qed.

Lemma partition_ok siz a b e :
  0 < siz → inb a b → inb a e → b < e →
  ∃ a' s p, partition compare siz a b e = OK (a', s) ∧ seg_perm a a' b e ∧ b <= s <= e ∧
    at_ a' s = Some p ∧
    (∀ k x, b <= k < s → at_ a' k = Some x → Lft p x) ∧
    (∀ k x, s < k <= e → at_ a' k = Some x → Rgt p x).
Proof.
  intros Hs Hb He Hbe. unfold partition. pose proof (pivot_range siz b e Hs ltac:(lia)) as Hpv.
  pose proof Hb as [Hb0 Hbn]. pose proof He as [He0 Hen].
  destruct (swap_ok a b (b + pivot_offset siz b e) b e) as (a1 & -> & HP1 & _); [unfold inb; lia..|]. ob.
  assert (inb a1 b) as Hb1 by (by eapply inb_perm). assert (inb a1 e) as He1 by (by eapply inb_perm).
  destruct (elt_ok a1 b Hb1) as (p & _ & Hp).
  destruct (part_loop_ok (length a1) a1 b (b + 1) e e p) as (a2 & s & -> & HP2 & Hsr & HL & HR);
    try done; try lia. { rewrite (seg_perm_length _ _ _ _ HP1). lia. }
  ob. assert (inb a2 b) as Hb2 by (by eapply inb_perm).
  assert (inb a2 s) as Hs2. { unfold inb in *. rewrite (seg_perm_length _ _ _ _ HP2). lia. }
  destruct (swap_ok a2 b s b e) as (a3 & -> & HP3 & E1 & E2 & Eo); [done|done|lia|lia|]. ob.
  assert (at_ a2 b = Some p) as Hp2 by (by rewrite (sp_out _ _ _ _ HP2) by lia).
  exists a3, s, p. split; [done|]. split.
  { eapply seg_perm_trans; [exact HP1|]. eapply seg_perm_trans; [|exact HP3].
    eapply seg_perm_wider; [exact HP2|lia|lia]. }
  split; [done|]. split; [congruence|]. split.
  - intros k x Hk Hx. destruct (decide (k = b)) as [->|Hne].
    + rewrite E1 in Hx. apply (HL s); [lia|done].
    + rewrite Eo in Hx by lia. apply (HL k); [lia|done].
  - intros k x Hk Hx. rewrite Eo in Hx by lia. apply (HR k); [lia|done].
Qed.

(** ** The loop over the pending segments *)

Abbreviation seg := (Z * Z)%type.
Definition in_seg (s : seg) (k : Z) : Prop := s.1 <= k <= s.2.
Definition seg_len (s : seg) : Z := Z.max 0 (s.2 - s.1 + 1).
Definition apart (s t : seg) : Prop := ∀ k, in_seg s k → ¬ in_seg t k.

Lemma apart_sym s t : apart s t → apart t s.
Proof. unfold apart. naive_solver. Qed.

(** Steps still to come: every segment costs at most twice its length, and one. *)
Fixpoint weight (segs : list seg) : Z :=
  match segs with [] => 0 | s :: segs => 2 * seg_len s + 1 + weight segs end.

(** A segment with [d] segments below it has at most [n / 2^d] elements. *)
Fixpoint fits (n : Z) (segs : list seg) : Prop :=
  match segs with [] => True | s :: segs => seg_len s * 2 ^ Z.of_nat (length segs) <= n ∧ fits n segs end.

Section sorted.
Variable le : A → A → Prop.
Hypothesis le_L : ∀ p x, Lft p x → le x p.
Hypothesis le_R : ∀ p x, Rgt p x → le p x.
Hypothesis le_trans : ∀ x y z, le x y → le y z → le x z.

(** Two elements are in order unless they wait in the same segment. *)
Definition settled a (segs : list seg) : Prop :=
  ∀ i j x y, 0 <= i < j → at_ a i = Some x → at_ a j = Some y →
    le x y ∨ ∃ s, s ∈ segs ∧ in_seg s i ∧ in_seg s j.

Record pending a (n : Z) (segs : list seg) : Prop := {
  pd_len : Z.of_nat (length a) = n;
  pd_in : ∀ s k, s ∈ segs → in_seg s k → inb a k;
  pd_apart : ForallOrdPairs apart segs;
  pd_settled : settled a segs;
}.

Lemma settled_partition a a' b e s p segs :
  settled a ((b, e) :: segs) → Forall (apart (b, e)) segs → seg_perm a a' b e → 0 <= b → b <= s <= e →
  at_ a' s = Some p →
  (∀ k x, b <= k < s → at_ a' k = Some x → Lft p x) →
  (∀ k x, s < k <= e → at_ a' k = Some x → Rgt p x) →
  settled a' ((b, s - 1) :: (s + 1, e) :: segs).
Proof.
  intros Hset Hap HP Hb Hs Hp HL HR i j x y Hij Hx Hy.
  assert (∀ k, ¬ (b <= k <= e) → 0 <= k → at_ a' k = at_ a k) as Hout.
  { intros k Hk Hk0. apply HP; lia. }
  destruct (decide (b <= i <= e)) as [Hi|Hi], (decide (b <= j <= e)) as [Hj|Hj].
  - (* both in the segment *)
    destruct (decide (j < s)) as [Hjs|Hjs]; [right; exists (b, s - 1); split; [left|unfold in_seg; simpl; lia]|].
    destruct (decide (s < i)) as [His|His]; [right; exists (s + 1, e); split; [right; left|unfold in_seg; simpl; lia]|].
    left. destruct (decide (i = s)) as [->|Hne].
    { assert (x = p) as -> by congruence. apply le_R, (HR j); [lia|done]. }
    assert (le x p) as Hxp by (apply le_L, (HL i); [lia|done]).
    destruct (decide (j = s)) as [->|Hnj]; [assert (y = p) as -> by congruence; done|].
    apply le_trans with p; [done|]. apply le_R, (HR j); [lia|done].
  - (* [j] behind the segment *)
    left. rewrite Hout in Hy by lia.
    apply (sp_in _ _ _ _ HP (λ x, le x y)) with (k := i); [|done|done]. intros k z Hk Hz.
    destruct (Hset k j z y) as [?|(t & [->|Ht]%elem_of_cons & Hk1 & Hj1)]; [lia|done|done|done|by destruct Hj|].
    rewrite Forall_forall in Hap. by destruct (Hap t Ht k).
  - left. rewrite Hout in Hx by lia.
    apply (sp_in _ _ _ _ HP (λ y, le x y)) with (k := j); [|done|done]. intros k z Hk Hz.
    destruct (Hset i k x z) as [?|(t & [->|Ht]%elem_of_cons & Hk1 & Hj1)]; [lia|done|done|done|by destruct Hi|].
    rewrite Forall_forall in Hap. by destruct (Hap t Ht k).
  - rewrite Hout in Hx, Hy by lia.
    destruct (Hset i j x y Hij Hx Hy) as [?|(t & [->|Ht]%elem_of_cons & Hk1 & Hj1)]; [by left|by destruct Hi|].
    right. exists t. split; [by do 2 right|done].
Qed.

(** A segment of at most one element is done. *)
Lemma settled_drop a s segs : settled a (s :: segs) → seg_len s <= 1 → settled a segs.
Proof.
  intros Hset Hlen i j x y Hij Hx Hy.
  destruct (Hset i j x y Hij Hx Hy) as [?|(t & [->|Ht]%elem_of_cons & Hi & Hj)]; [by left| |right; eauto].
  unfold in_seg, seg_len in *. lia.
Qed.

Lemma pending_drop a n s segs : pending a n (s :: segs) → seg_len s <= 1 → pending a n segs.
Proof.
  intros [Hn Hin Hap Hset] Hlen. split; [done| | |by eapply settled_drop].
  - intros t k Ht. apply Hin. by right.
  - by inversion Hap.
Qed.

Lemma settled_swap a s t segs : settled a (s :: t :: segs) → settled a (t :: s :: segs).
Proof. intros Hset i j x y Hij Hx Hy. destruct (Hset i j x y Hij Hx Hy) as [?|(u & Hu & ?)]; [by left|right]. exists u. set_solver. Qed.

Lemma pending_swap a n s t segs : pending a n (s :: t :: segs) → pending a n (t :: s :: segs).
Proof.
  intros [Hn Hin Hap Hset]. split; [done| | |by apply settled_swap].
  - intros u k Hu. apply Hin. set_solver.
  - inversion Hap as [|? ? Hs Hrest]; subst. inversion Hrest as [|? ? Ht Hrest']; subst.
    inversion Hs; subst. constructor; [constructor; [by apply apart_sym|done]|]. by constructor.
Qed.

Lemma pending_partition siz a n b e segs :
  0 < siz → pending a n ((b, e) :: segs) → b < e →
  ∃ a' s, partition compare siz a b e = OK (a', s) ∧ a' ≡ₚ a ∧ b <= s <= e ∧
    pending a' n ((b, s - 1) :: (s + 1, e) :: segs).
Proof.
  intros Hsiz [Hn Hin Hap Hset] Hbe.
  assert (inb a b ∧ inb a e) as [Hb He].
  { split; eapply (Hin (b, e)); try left; unfold in_seg; simpl; lia. }
  destruct (partition_ok siz a b e Hsiz Hb He Hbe) as (a' & s & p & Hrun & HP & Hs & Hp & HL & HR).
  inversion Hap as [|? ? Hcur Hrest]; subst. exists a', s. split; [done|]. split; [apply HP|]. split; [done|].
  split.
  - by rewrite (seg_perm_length _ _ _ _ HP).
  - intros t k Ht Hk. apply (inb_perm _ _ _ _ _ HP).
    apply elem_of_cons in Ht as [->|[->|Ht]%elem_of_cons].
    + apply (Hin (b, e) k); [left|]. unfold in_seg in *. simpl in *. lia.
    + apply (Hin (b, e) k); [left|]. unfold in_seg in *. simpl in *. lia.
    + apply (Hin t k); [by right|done].
  - constructor; [constructor|].
    + intros k. unfold in_seg. simpl. lia.
    + eapply Forall_impl; [exact Hcur|]. intros t Ht k Hk. apply Ht. unfold in_seg in *. simpl in *. lia.
    + constructor; [|done]. eapply Forall_impl; [exact Hcur|]. intros t Ht k Hk. apply Ht.
      unfold in_seg in *. simpl in *. lia.
  - destruct Hb as [Hb0 _]. by eapply settled_partition.
Qed.

Lemma push_ok (n : Z) (stack : list seg) b e :
  n < 2 ^ 64 → seg_len (b, e) * 2 ^ Z.of_nat (length stack) <= n → 1 <= seg_len (b, e) →
  push_seg stack b e = OK ((b, e) :: stack).
Proof.
  intros Hn Hfit Hlen. unfold push_seg, QSORT_STACK_SIZE.
  assert (length stack < 64)%nat as Hd.
  { destruct (decide (length stack < 64)%nat) as [|Hge]; [done|].
    assert (2 ^ 64 <= 2 ^ Z.of_nat (length stack)) by (apply Z.pow_le_mono_r; lia). nia. }
  by rewrite (proj2 (Nat.ltb_lt _ _) Hd).
Qed.

Lemma qsort_loop_ok fuel siz a n stack b e :
  0 < siz → n < 2 ^ 64 → pending a n ((b, e) :: stack) → fits n ((b, e) :: stack) →
  weight ((b, e) :: stack) <= Z.of_nat fuel →
  ∃ a', qsort_loop compare fuel siz a stack b e = OK a' ∧ a' ≡ₚ a ∧ settled a' [].
Proof.
  intros Hsiz Hn. revert a stack b e. induction fuel as [|fuel IH]; intros a stack b e HP Hfit Hw.
  { exfalso. simpl in Hw. unfold seg_len in Hw.
    assert (0 <= weight stack). { clear. induction stack as [|s st IHs]; simpl; unfold seg_len in *; lia. }
    simpl in Hw. lia. }
  cbn [qsort_loop]. destruct (Z.ltb_spec b e) as [Hbe|Hge].
  2: { pose proof (pending_drop _ _ _ _ HP ltac:(unfold seg_len; simpl; lia)) as HP'.
       destruct stack as [|[b' e'] stack].
       - exists a. split; [done|]. split; [done|]. apply HP'.
       - apply IH; [done|apply Hfit|]. simpl in *. unfold seg_len in *. simpl in *. lia. }
  destruct (pending_partition siz a n b e stack Hsiz HP Hbe) as (a1 & s & -> & Hperm & Hs & HP1). ob.
  destruct Hfit as [Hf0 Hfit]. simpl in Hw.
  assert (0 < 2 ^ Z.of_nat (length stack)) as Hpow by (apply Z.pow_pos_nonneg; lia).
  assert (2 ^ Z.of_nat (S (length stack)) = 2 * 2 ^ Z.of_nat (length stack)) as Hpow2.
  { rewrite Nat2Z.inj_succ, Z.pow_succ_r by lia. done. }
  (* the part that waits, the part that goes on *)
  assert (∀ (big small : seg),
            seg_len small <= seg_len big → seg_len small + seg_len big + 1 <= seg_len (b, e) →
            pending a1 n (small :: big :: stack) →
            ∃ a', (let* stack := if big.1 <? big.2 then push_seg stack big.1 big.2 else OK stack in
                   qsort_loop compare fuel siz a1 stack small.1 small.2) = OK a' ∧ a' ≡ₚ a ∧ settled a' []) as Hgo.
  { intros [b1 e1] [b2 e2] Hle Hsum HP2. simpl fst in *. simpl snd in *.
    destruct (Z.ltb_spec b1 e1) as [Hlt|Hnlt].
    - rewrite (push_ok n) by (done || unfold seg_len in *; simpl in *; nia). ob.
      destruct (IH a1 ((b1, e1) :: stack) b2 e2 HP2) as (a' & Hrun & Hp' & Hset').
      + cbn [fits length]. rewrite Hpow2. split; [unfold seg_len in *; simpl in *; nia|].
        split; [unfold seg_len in *; simpl in *; nia|done].
      + simpl in *. unfold seg_len in *. simpl in *. lia.
      + exists a'. split; [done|]. split; [by rewrite Hp'|done].
    - ob. destruct (IH a1 stack b2 e2) as (a' & Hrun & Hp' & Hset').
      + eapply (pending_drop _ _ (b1, e1)); [by apply pending_swap|]. unfold seg_len. simpl. lia.
      + cbn [fits]. split; [unfold seg_len in *; simpl in *; nia|done].
      + simpl in *. unfold seg_len in *. simpl in *. lia.
      + exists a'. split; [done|]. split; [by rewrite Hp'|done]. }
  destruct (Z.leb_spec (s - b) (e - s)) as [Hle|Hgt].
  - apply (Hgo (s + 1, e) (b, s - 1)); [unfold seg_len; simpl; lia..|done].
  - apply (Hgo (b, s - 1) (s + 1, e)); [unfold seg_len; simpl; lia..|by apply pending_swap].
Qed.

Lemma qsort_ok siz a :
  0 < siz → Z.of_nat (length a) < 2 ^ 64 →
  ∃ a', zend_qsort compare siz a = OK a' ∧ a' ≡ₚ a ∧ settled a' [].
Proof.
  intros Hsiz Hn. unfold zend_qsort, zend_qsort_r.
  apply (qsort_loop_ok _ siz a (Z.of_nat (length a)) [] 0 (Z.of_nat (length a) - 1)); [done|done| | |].
  - split; [done| | |].
    + intros s k [->|Hs]%elem_of_cons Hk; [|by apply elem_of_nil in Hs]. unfold in_seg, inb in *. simpl in *. lia.
    + constructor; [constructor|constructor].
    + intros i j x y Hij Hx Hy. right. exists (0, Z.of_nat (length a) - 1). split; [left|].
      apply lookup_lt_Some in Hx, Hy. unfold in_seg. simpl. lia.
  - simpl. unfold seg_len. simpl. split; [lia|done].
  - simpl weight. unfold seg_len. simpl fst. simpl snd. lia.
Qed.

Lemma settled_sorted a : settled a [] → StronglySorted le a.
Proof.
  induction a as [|x a IH]; intros Hset; [constructor|]. constructor.
  - apply IH. intros i j u v Hij Hu Hv. left.
    destruct (Hset (i + 1) (j + 1) u v) as [?|(? & ?%elem_of_nil & _)]; [lia| | |done|done].
    + by replace (Z.to_nat (i + 1)) with (S (Z.to_nat i)) by lia.
    + by replace (Z.to_nat (j + 1)) with (S (Z.to_nat j)) by lia.
  - apply Forall_lookup. intros i y Hy.
    destruct (Hset 0 (Z.of_nat i + 1) x y) as [?|(? & ?%elem_of_nil & _)]; [lia|done| |done|done].
    by replace (Z.to_nat (Z.of_nat i + 1)) with (S i) by lia.
Qed.
End sorted.

(** For every comparison: termination, bounds and permutation. *)
Lemma qsort_perm siz a :
  0 < siz → Z.of_nat (length a) < 2 ^ 64 → ∃ a', zend_qsort compare siz a = OK a' ∧ a' ≡ₚ a.
Proof.
  intros Hs Hn. destruct (qsort_ok (λ _ _, True)) with (siz := siz) (a := a) as (a' & ? & ? & _); eauto.
Qed.

(** For a total preorder: the result is sorted. *)
Lemma qsort_sorted siz a :
  (∀ x y, 0 < compare x y ↔ compare y x < 0) →
  (∀ x y z, compare x y <= 0 → compare y z <= 0 → compare x z <= 0) →
  0 < siz → Z.of_nat (length a) < 2 ^ 64 →
  ∃ a', zend_qsort compare siz a = OK a' ∧ a' ≡ₚ a ∧ StronglySorted (λ x y, compare x y <= 0) a'.
Proof.
  intros Hanti Htrans Hs Hn.
  destruct (qsort_ok (λ x y, compare x y <= 0)) with (siz := siz) (a := a) as (a' & ? & ? & Hset); try done.
  - intros p x [Hl|Hl]; [|lia]. apply Hanti in Hl. lia.
  - intros p x [Hl|Hl]; [|lia]. apply Hanti in Hl. lia.
  - exists a'. split; [done|]. split; [done|]. by apply settled_sorted.
Qed.

End spec.

(** [zend_qsort] on arrays of pointers is a [sort_func_t]. *)
Definition qsort_list {A} (cmp : A → A → Z) (l : list A) : list A :=
  if Z.of_nat (length l) <? 2 ^ 64 then
    match zend_qsort cmp 8 l with OK l' => l' | _ => l end
  else l.

Lemma qsort_list_perm {A} (cmp : A → A → Z) l : qsort_list cmp l ≡ₚ l.
Proof.
  unfold qsort_list. destruct (Z.ltb_spec (Z.of_nat (length l)) (2 ^ 64)) as [Hlt|]; [|done].
  by destruct (qsort_perm cmp 8 l) as (a' & -> & Hp); [lia|done|].
Qed.

Definition qsort_func : SortFunc := {| sort_func := @qsort_list; sort_func_perm := @qsort_list_perm |}.

Lemma qsort_list_sorted {A} (cmp : A → A → Z) l :
  (∀ x y, 0 < cmp x y ↔ cmp y x < 0) →
  (∀ x y z, cmp x y <= 0 → cmp y z <= 0 → cmp x z <= 0) →
  Z.of_nat (length l) < 2 ^ 64 → StronglySorted (λ x y, cmp x y <= 0) (qsort_list cmp l).
Proof.
  intros Ha Ht Hn. unfold qsort_list. rewrite (proj2 (Z.ltb_lt _ _) Hn).
  by destruct (qsort_sorted cmp 8 l Ha Ht) as (a' & -> & _ & Hs); [lia|done|].
Qed.
