(* ===== verification/HashExamples.v ===== *)
(** Concrete hash tables for the witnesses, and the runs in which a table leaves
    the dictionary it stands for. *)

From S2P Require Import Prelude Dll OrderedDict ZendHash ZendHashInv ZendHashOps ZendHashDict ZendHashExt ZendHashLife ZendHashSort.

(** * A concrete table with an interned, an integer and a copied string key, built by the operations themselves; the examples of the hash table run on it *)

#[local] Existing Instance bump_malloc.

(** The interned string 1 is ["a"], 2 is ["12"]. *)
Definition ex_pool (n : positive) : list Z :=
  match n with 1%positive => [97; 0] | 2%positive => [49; 50; 0] | _ => [] end.

Definition key_a : zstr := ZStr (Interned 1) [97; 0].
Definition key_12 : zstr := ZStr (Interned 2) [49; 50; 0].
Definition key_bc : zstr := ZStr (Foreign 1) [98; 99; 0].
Definition key_zz : zstr := ZStr (Foreign 2) [122; 122; 0].

Definition m0 : mem Z := mkMem ∅ [].
Definition ht0 : HashTable := zend_hash_init 0 true false.

(** [a => 10, 5 => 20, bc => 30] *)
Definition ex_run (m : mem Z) : outcome (mem Z * HashTable) :=
  let* (_, _, m, ht) := _zend_hash_add_or_update m ht0 key_a 2 10 8 HASH_ADD in
  let* (_, _, m, ht) := _zend_hash_index_update_or_next_insert m ht 5 20 8 HASH_UPDATE in
  let* (_, _, m, ht) := _zend_hash_add_or_update m ht key_bc 3 30 16 HASH_UPDATE in
  OK (m, ht).

Definition ex_state (m : mem Z) : mem Z * HashTable :=
  match ex_run m with OK s => s | _ => (m, ht0) end.
Definition ex_m : mem Z := (ex_state m0).1.
Definition ex_ht : HashTable := (ex_state m0).2.
Definition ex_l : list ptr :=
  match collect_loop (fuel_of ex_m) ex_m (pListHead ex_ht) with OK bs => bs.*1 | _ => [] end.
Definition ex_d : list (akey * Z) := [(KStr [97; 0], 10); (KIdx 5, 20); (KStr [98; 99; 0], 30)].

Lemma valid_a m : key_valid (V := Z) ex_pool m key_a 2.
Proof. by split_and!. Qed.
Lemma valid_12 m : key_valid (V := Z) ex_pool m key_12 3.
Proof. by split_and!. Qed.
Lemma valid_bc m : key_valid (V := Z) ex_pool m key_bc 3.
Proof. by split_and!. Qed.
Lemma valid_zz m : key_valid (V := Z) ex_pool m key_zz 3.
Proof. by split_and!. Qed.

(** An insertion of a new key, as a step of a run. *)
Lemma ins_step (m : mem Z) ht l d K v refuse r :
  ins_spec ex_pool m ht l d K v refuse r → K ∉ d.*1 →
  ∃ p m' ht', r = OK (SUCCESS, Some p, m', ht') ∧ Rep ex_pool m' ht' (l ++ [p]) (d ++ [(K, v)]).
Proof.
  unfold ins_spec. intros Hins HK. rewrite (bool_decide_false _ HK), andb_false_r in Hins.
  destruct Hins as (p & m' & ht' & l' & Hr & _ & []). exists p, m', ht'. split; [done|].
  rewrite decide_False in up_list by done. subst l'. by rewrite <- dupdate_new.
Qed.

Lemma ex_run_rep m : ∃ m' ht' l,
  ex_run m = OK (m', ht') ∧ Rep ex_pool m' ht' l ex_d.
Proof.
  assert (Rep ex_pool m ht0 [] []) as HR by (by apply init_spec).
  unfold ex_run.
  destruct (ins_step _ _ _ _ _ _ _ _ (add_or_update_spec ex_pool m ht0 [] [] key_a 2 10 8 HASH_ADD HR (valid_a m) ltac:(simpl; lia)))
    as (p1 & m1 & ht1 & -> & HR1); [set_solver|]. ob.
  destruct (ins_step _ _ _ _ _ _ _ _ (index_update_spec ex_pool m1 ht1 _ _ 5 20 8 HASH_UPDATE HR1 ltac:(lia) ltac:(simpl; lia)))
    as (p2 & m2 & ht2 & -> & HR2); [set_solver|]. ob.
  destruct (ins_step _ _ _ _ _ _ _ _ (add_or_update_spec ex_pool m2 ht2 _ _ key_bc 3 30 16 HASH_UPDATE HR2 (valid_bc m2) ltac:(simpl; lia)))
    as (p3 & m3 & ht3 & -> & HR3); [set_solver|]. ob. eauto.
Qed.

Lemma ex_rep : Rep ex_pool ex_m ex_ht ex_l ex_d.
Proof.
  destruct (ex_run_rep m0) as (m' & ht' & l & Hrun & HR). unfold ex_l, ex_m, ex_ht, ex_state. rewrite Hrun. simpl fst. simpl snd.
  pose proof (lk_list _ _ _ (rep_links _ _ _ _ _ HR)) as Hl.
  destruct (collect_loop_ok (fuel_of m') m' None l) as (bs & Hbs & E & _); [apply Hl|by eapply list_length_fuel|].
  rewrite (lo_head _ _ _ Hl), Hbs, E. done.
Qed.

(** * Places where the tables of zend_hash *)

#[local] Existing Instance bump_malloc.

(** The interned string ["c"], whose hash falls into slot 0 of a table of 8. *)
Definition key_c : zstr := ZStr (Interned 3) [99; 0].

(** [sort] renumbers ["c" => 1] to [0 => 1]; afterwards both [0] and ["c"]
    are found. *)
Definition renumbered_find : outcome (option Z * option Z) :=
  let* (_, _, m, ht) := _zend_hash_add_or_update m0 ht0 key_c 2 1 8 HASH_ADD in
  let* (m, ht) := zend_hash_reindex m ht false in
  let* v0 := zend_hash_index_find m ht 0 in
  let* vc := zend_hash_find m ht key_c 2 in
  OK (v0, vc).

(** The integer keys 1 and 9 share a slot: [9 => 90] merged into [1 => 10]
    with [zend_hash_merge_ex], which passes the [NULL] key of an integer
    bucket to the look-up by string, overwrites the element under 1. *)
Definition merged_ex : outcome (Z * option Z * option Z) :=
  let* (_, _, m, dst) := _zend_hash_index_update_or_next_insert m0 ht0 1 10 8 HASH_UPDATE in
  let* (_, _, m, src) := _zend_hash_index_update_or_next_insert m ht0 9 90 8 HASH_UPDATE in
  let* (m, dst) := zend_hash_merge_ex m dst src false 8 (λ _ _ _, true) in
  let* v1 := zend_hash_index_find m dst 1 in
  let* v9 := zend_hash_index_find m dst 9 in
  OK (zend_hash_num_elements dst, v1, v9).

(** The current element ["a" => 10] of the example table gets the integer key
    6; the block of the new bucket still holds the pointer to ["a"]. *)
Definition rekeyed_find : outcome (option Z * option Z) :=
  let* (_, _, m, ht) := zend_hash_update_current_key_ex ex_m ex_ht HASH_KEY_IS_LONG None 0 6
                          HASH_UPDATE_KEY_ANYWAY (Some key_a) None in
  let* v6 := zend_hash_index_find m ht 6 in
  let* va := zend_hash_find m ht key_a 2 in
  OK (v6, va).

(** Three ways out of the dictionary.  After [zend_hash_reindex] of all
    keys, a look-up with the interned string that was the key before still
    finds the element, as does one after [zend_hash_update_current_key_ex]
    turned the string key into an integer and left [arKey] unwritten;
    [zend_hash_merge_ex] overwrites the element of another integer key. *)
Theorem stale_keys :
  renumbered_find = OK (Some 1, Some 1) ∧ rekeyed_find = OK (Some 10, Some 10) ∧
  merged_ex = OK (1, Some 90, None).
Proof. vm_compute. repeat split; reflexivity. Qed.
