(* ===== verification/HashProps.v ===== *)
(** The properties of the hash table, each with an example it applies to. *)

From S2P Require Import Prelude Dll OrderedDict ZendHash ZendHashInv ZendHashOps.
From S2P Require Import ZendHashDict ZendHashExt ZendHashLife ZendHashCopy ZendHashIter ZendHashSort.
From S2P Require Import Symtable SymtableSpec ZendQsort HashExamples.

#[local] Existing Instance bump_malloc.

Section props.
Context {V : Type} `{PEMalloc} (pool : positive → list Z).
Implicit Types (m : mem V) (ht : HashTable) (p q : ptr) (l : list ptr) (d : list (akey * V)).

(** C1: [_zend_hash_add_or_update] on a table that represents the dictionary
    [d] never runs into undefined behaviour.  With [HASH_ADD] and a key that
    is present it fails and changes nothing; otherwise the table represents
    [d] with the key set to the value (in place, or appended when new), the
    old value went to the destructor, no bucket of another table changed, and
    all invariants of the links and chains hold again, growth of the table
    included. *)
Theorem add_or_update_refines m ht l d k len v sz flag :
  Rep pool m ht l d → key_valid pool m k len → Z.of_nat (length l) + 1 < 2 ^ 32 →
  ins_spec pool m ht l d (KStr (zs_val k)) v (has_flag flag HASH_ADD)
    (_zend_hash_add_or_update m ht k len v sz flag).
Proof. apply add_or_update_spec. Qed.

(** C2: The look-ups by string find exactly what the dictionary holds:
    [zend_hash_find], [zend_hash_quick_find] with the hash of the key, and
    [zend_hash_exists], whatever collides with the key in its chain. *)
Theorem find_refines m ht l d k len :
  Rep pool m ht l d → key_valid pool m k len →
  zend_hash_find m ht k len = OK (dlookup (KStr (zs_val k)) d) ∧
  zend_hash_quick_find m ht (Some k) len (str_hash (zs_val k)) = OK (dlookup (KStr (zs_val k)) d) ∧
  zend_hash_exists m ht k len = OK (bool_decide (KStr (zs_val k) ∈ d.*1)).
Proof. intros. split_and!; eauto using find_spec, quick_find_spec, exists_spec. Qed.

(** C3: [zend_hash_del_key_or_index] removes the key, by string (with or
    without the hash) or by index, and reports FAILURE, changing nothing, when
    it is absent: the bucket is freed, its value destructed, the internal
    pointer moved on when it stood there, everything else kept. *)
Theorem del_refines m ht l d k len hv :
  Rep pool m ht l d → key_valid pool m k len →
  del_spec pool m ht l d (KStr (zs_val k)) (zend_hash_del_key_or_index m ht (Some k) len hv HASH_DEL_KEY) ∧
  del_spec pool m ht l d (KStr (zs_val k))
    (zend_hash_del_key_or_index m ht (Some k) len (str_hash (zs_val k)) HASH_DEL_KEY_QUICK) ∧
  del_spec pool m ht l d (KIdx hv) (zend_hash_del_key_or_index m ht None 0 hv HASH_DEL_INDEX).
Proof.
  intros HR Hk. destruct (del_key_spec pool m ht l d k len hv HR Hk).
  split_and!; [done..|]. by apply del_index_spec.
Qed.

(** C4: Integer keys: insertion and update at an index, and the look-ups,
    act on the dictionary the same way. *)
Theorem index_refines m ht l d hv v sz flag :
  Rep pool m ht l d → is_ulong hv → Z.of_nat (length l) + 1 < 2 ^ 32 → has_flag flag HASH_NEXT_INSERT = false →
  ins_spec pool m ht l d (KIdx hv) v (has_flag flag HASH_ADD)
    (_zend_hash_index_update_or_next_insert m ht hv v sz flag) ∧
  zend_hash_index_find m ht hv = OK (dlookup (KIdx hv) d) ∧
  zend_hash_index_exists m ht hv = OK (bool_decide (KIdx hv ∈ d.*1)).
Proof.
  intros HR Hu Hl Hf. split_and!; eauto using index_find_spec, index_exists_spec.
  pose proof (index_update_spec pool m ht l d hv v sz flag HR Hu Hl) as Hi. by rewrite Hf in Hi.
Qed.

(** C5: [$a[] = v]: the value goes to the end under the next free index,
    which is larger than every index in use; only when that index is
    [LONG_MAX] and taken, the insertion fails. *)
Theorem next_insert_spec m ht l d v sz :
  Rep pool m ht l d → Z.of_nat (length l) + 1 < 2 ^ 32 →
  let nf := zend_hash_next_free_element ht in
  let r := _zend_hash_index_update_or_next_insert m ht 0 v sz HASH_NEXT_INSERT in
  (KIdx nf ∉ d.*1 → ∃ p m' ht', r = OK (SUCCESS, Some p, m', ht') ∧
      Rep pool m' ht' (l ++ [p]) (d ++ [(KIdx nf, v)]) ∧
      zend_hash_next_free_element ht' = (if nf <? LONG_MAX then nf + 1 else LONG_MAX)) ∧
  (KIdx nf ∈ d.*1 → r = OK (FAILURE, None, m, CHECK_INIT ht) ∧ nf = LONG_MAX).
Proof.
  intros HR Hl nf r. assert (is_ulong 0) as H0 by lia.
  pose proof (index_update_spec pool m ht l d 0 v sz HASH_NEXT_INSERT HR H0 Hl) as Hi.
  change (has_flag HASH_NEXT_INSERT HASH_NEXT_INSERT) with true in Hi. cbv zeta iota in Hi.
  fold nf in Hi. destruct (rep_next _ _ _ _ _ HR) as [Hnf Hall]. unfold ins_spec in Hi. simpl in Hi.
  assert (to_long nf = nf) as Elong.
  { unfold to_long, nf, zend_hash_next_free_element, LONG_MAX in *. rewrite (proj2 (Z.ltb_lt _ _)); lia. }
  split; intros HK.
  - rewrite bool_decide_false in Hi by done. destruct Hi as (p & m' & ht' & l' & Hr & _ & Hup).
    exists p, m', ht'. split; [done|]. destruct Hup. rewrite decide_False in up_list by done. rewrite decide_False in up_next by done. subst l'.
    rewrite <- dupdate_new by done. split; [done|]. unfold zend_hash_next_free_element at 1. rewrite up_next.
    destruct (rep_check_init _ _ _ _ _ HR) as (_ & _ & (_ & -> & _)). unfold next_index.
    change (nNextFreeElement ht) with nf. rewrite Elong, Z.leb_refl. done.
  - rewrite bool_decide_true in Hi by done. split; [done|]. destruct (Hall nf HK) as [Hlt|]; [|done].
    rewrite Elong in Hlt. unfold nf, zend_hash_next_free_element in Hlt. lia.
Qed.

(** A value stored is the value found, and no other key is affected:
    look-ups in the table that [_zend_hash_add_or_update] returns. *)
Theorem find_after_update m ht l d k len k' len' v sz :
  Rep pool m ht l d → key_valid pool m k len → key_valid pool m k' len' →
  (∀ q, zs_addr k' ≠ Inline q) → Z.of_nat (length l) + 1 < 2 ^ 32 →
  ∃ p m' ht', _zend_hash_add_or_update m ht k len v sz HASH_UPDATE = OK (SUCCESS, Some p, m', ht') ∧
    zend_hash_find m' ht' k' len' =
      if decide (zs_val k' = zs_val k) then OK (Some v) else zend_hash_find m ht k' len'.
Proof.
  intros HR Hk Hk' Hin Hl. rewrite (find_spec _ _ _ _ _ _ _ HR Hk').
  destruct (add_or_update_spec pool m ht l d k len v sz HASH_UPDATE HR Hk Hl) as (p & m' & ht' & l' & Hr & _ & []).
  exists p, m', ht'. split; [done|]. rewrite (find_spec pool m' ht' l' _ k' len' up_rep).
  - rewrite dlookup_update. destruct (decide (zs_val k' = zs_val k)) as [E|E].
    + by rewrite decide_True by congruence.
    + by rewrite decide_False by congruence.
  - destruct Hk' as (? & ? & Ha). split; [done|]. split; [done|]. destruct (zs_addr k') eqn:E; try done. by destruct (Hin b).
Qed.

(** [_zend_hash_init] makes an empty table for every [nSize]; its size is
    the least power of two that is at least 8 and [nSize], capped at [2^31]. *)
Theorem init_ok m nSize dtor persist :
  is_uint nSize →
  Rep pool m (zend_hash_init nSize dtor persist) [] [] ∧
  ∃ k, nTableSize (zend_hash_init nSize dtor persist) = 2 ^ k ∧ 3 <= k <= 31 ∧
    (nSize <= 2 ^ k ∨ k = 31) ∧ (k = 3 ∨ 2 ^ (k - 1) < nSize).
Proof. intros. split; [by apply init_spec|by apply init_size]. Qed.

(** C6: The four ways to empty a table free exactly its buckets and give every
    value to the destructor once: in the order of the elements for
    [zend_hash_destroy], [zend_hash_clean] and [zend_hash_graceful_destroy],
    in the opposite order for [zend_hash_graceful_reverse_destroy]; after
    [zend_hash_clean] the table is an empty table again. *)
Theorem destroy_all m ht l d :
  Rep pool m ht l d →
  (∃ m', zend_hash_destroy m ht = OK m' ∧ freed m l m' ∧ evs m' = evs m ++ dtors ht d.*2) ∧
  (∃ m' ht', zend_hash_clean m ht = OK (m', ht') ∧ Rep pool m' ht' [] [] ∧ freed m l m' ∧
     evs m' = evs m ++ dtors ht d.*2) ∧
  (∃ m' ht', zend_hash_graceful_destroy m ht = OK (m', ht') ∧ freed m l m' ∧
     evs m' = evs m ++ dtors ht d.*2) ∧
  (∃ m' ht', zend_hash_graceful_reverse_destroy m ht = OK (m', ht') ∧ freed m l m' ∧
     evs m' = evs m ++ dtors ht (reverse d.*2)).
Proof.
  intros HR. split; [by eapply destroy_spec|]. split; [|by apply (graceful_spec pool)].
  destruct (clean_spec _ _ _ _ _ HR) as (m' & ht' & ? & ? & ? & ? & _). eauto 10.
Qed.

(** [zend_hash_apply] and [zend_hash_reverse_apply] call the callback on
    the elements in order until it returns STOP and remove those for which it
    returns REMOVE; the table is intact afterwards and the nesting counter
    restored; a fourth nested traversal is a fatal error. *)
Theorem apply_refines {S} m ht l d (f : V → S → Z * S) s :
  Rep pool m ht l d → 0 <= nApplyCount ht < 256 →
  apply_post pool false (λ _, f) m ht s l d (zend_hash_apply m ht f s) ∧
  apply_post pool true (λ _, f) m ht s l d (zend_hash_reverse_apply m ht f s).
Proof. apply apply_spec. Qed.

(** C7: [zend_hash_copy] and [_zend_hash_merge] insert the elements of the
    source into the target, in order: all of them ([copy], [merge] with
    overwrite) or only those whose key the target lacks; the source is not
    touched, destructor and copy constructor are called as they must be. *)
Theorem copy_merge_refine m target source ctor over sz lt dt ls ds :
  Rep pool m target lt dt → Rep pool m source ls ds → lt ## ls →
  Z.of_nat (length lt) + Z.of_nat (length ls) < 2 ^ 32 →
  (∃ m' target', zend_hash_copy m target source ctor sz = OK (m', target') ∧
     merged pool m target source lt dt ls ds true ctor ds m' target') ∧
  (∃ m' target', _zend_hash_merge m target source ctor sz over = OK (m', target') ∧
     merged pool m target source lt dt ls ds over ctor ds m' target' ∧
     pInternalPointer target' = pListHead target').
Proof. intros. split; [by apply copy_spec|by apply merge_spec]. Qed.

(** Iteration: from the start, [n] steps forward reach the [n]-th element
    of the dictionary, whose key and value are then reported; one step past
    the last element reports the end.  This holds for the internal pointer
    and for an external position. *)
Theorem iterate_all m ht l d pos n :
  Rep pool m ht l d → (n ≤ length d)%nat →
  let (pos0, ht0) := zend_hash_internal_pointer_reset_ex ht pos in
  ∃ pos' ht', forward_n n m ht0 pos0 = OK (pos', ht') ∧ Rep pool m ht' l d ∧
    zend_hash_get_current_data_ex m ht' pos' = OK (snd <$> d !! n) ∧
    zend_hash_get_current_key_ex m ht' false pos' = OK (cur_of (d !! n)) ∧
    zend_hash_get_current_key_type_ex m ht' pos' = OK (cur_key_code (cur_of (d !! n))).
Proof.
  intros HR Hn. destruct (zend_hash_internal_pointer_reset_ex ht pos) as [pos0 ht0] eqn:E.
  destruct (reset_spec _ _ _ _ _ _ _ _ HR E) as [HR0 H0].
  rewrite (abs_length _ _ _ _ _ HR) in Hn.
  destruct (forward_n_ok pool n m ht0 l d pos0 0 HR0 H0) as (pos' & ht' & ? & HR' & Hi); [lia|].
  exists pos', ht'. split; [done|]. split; [done|]. by apply (current_spec pool _ _ l).
Qed.

(** [zend_hash_set_pointer] restores a saved position whose bucket is
    still in the table, and reports a removed one without reading it. *)
Theorem set_pointer_restores m ht l d p hv :
  Rep pool m ht l d → (∀ c, p ∈ l → core m p = Some c → c_h c = hv) →
  zend_hash_set_pointer m ht (mkHP (Some p) hv) =
    OK (if decide (p ∈ l) then (true, set_pInternalPointer (Some p) ht) else (false, ht)).
Proof. apply set_pointer_spec. Qed.

(** [zend_hash_sort] reorders the elements as the sort function does,
    keeping keys with values, or numbering the keys again from 0. *)
Theorem sort_refines `{SortFunc} m ht l d compar (renumber : bool) :
  Rep pool m ht l d → (renumber = true → ∀ k, k ∈ d.*1 → ∃ h, k = KIdx h) → l ≠ [] →
  (nNumOfElements ht = 1 → renumber = true) →
  ∃ bs m' ht' l', sorted_buckets m l compar bs ∧
    zend_hash_sort m ht compar renumber = OK (SUCCESS, m', ht') ∧ l' ≡ₚ l ∧ entries bs ≡ₚ d ∧
    Rep pool m' ht' l' (if renumber then (drenum false 0 (entries bs)).1 else entries bs) ∧
    evs m' = evs m.
Proof. apply sort_spec. Qed.

(** [zend_hash_reindex] numbers the integer keys 0, 1, 2, ... in the order
    of the elements and sets the next free index behind them. *)
Theorem reindex_refines m ht l d :
  Rep pool m ht l d →
  ∃ m' ht', zend_hash_reindex m ht true = OK (m', ht') ∧ Rep pool m' ht' l (drenum true 0 d).1 ∧
    nNextFreeElement ht' = (drenum true 0 d).2 ∧ evs m' = evs m.
Proof. intros HR. by apply reindex_spec. Qed.

(** C8: In a symbol table a string key acts as the integer it spells when it
    is the canonical decimal form of a [long], and as itself otherwise, in
    look-up, update and removal alike. *)
Theorem symtable_refines m ht l d k len v sz :
  Rep pool m ht l d → key_valid pool m k len → last (zs_val k) = Some 0 →
  Z.of_nat (length l) + 1 < 2 ^ 32 →
  (∃ K, sym_key (zs_val k) K ∧ zend_symtable_find m ht k len = OK (dlookup K d) ∧
     zend_symtable_exists m ht k len = OK (bool_decide (K ∈ d.*1))) ∧
  (∃ K, sym_key (zs_val k) K ∧ ins_spec pool m ht l d K v false (zend_symtable_update m ht k len v sz)) ∧
  (∃ K, sym_key (zs_val k) K ∧ del_spec pool m ht l d K (zend_symtable_del m ht k len)).
Proof.
  intros. split; [by eapply symtable_find_spec|].
  split; [by apply symtable_update_spec|by apply symtable_del_spec].
Qed.

End props.

(** C9: [ZEND_HANDLE_NUMERIC_EX] terminates on every NUL-terminated key
    without reading outside it, and recognises exactly the canonical decimal
    forms (no leading zero, no [-0]) of the integers that fit a [long]. *)
Theorem handle_numeric_exact s :
  last s = Some 0 →
  ∃ r, ZEND_HANDLE_NUMERIC_EX s (Z.of_nat (length s)) = OK r ∧
    ∀ idx, r = Some idx ↔ ∃ z, canonical_dec s z ∧ in_long z ∧ idx = to_ulong z.
Proof. apply handle_numeric_spec. Qed.

(** C10: The hash function, unrolled eight times with a switch for the rest,
    is the DJBX33A fold [hash * 33 + c] over the bytes of the key, modulo
    [2^64]. *)
Theorem hash_unrolled s :
  zend_hash_func s (Z.of_nat (length s)) =
    fold_left (λ hash c, ulong_wrap (hash * 33 + schar c)) s 5381.
Proof.
  unfold zend_hash_func, zend_inline_hash_func. rewrite Nat2Z.id, firstn_all, hash_loop_fold.
  revert s. generalize 5381. intros h s. revert h. induction s as [|c s IH]; intros h; [done|].
  simpl. rewrite <- IH. f_equal. unfold hash_step. f_equal.
  rewrite Z.shiftl_mul_pow2 by lia. change (2 ^ 5) with 32. lia.
Qed.

(** * Examples *)

Lemma add_or_update_refines_witness :
  ins_spec ex_pool ex_m ex_ht ex_l ex_d (KStr [122; 122; 0]) 99 true
    (_zend_hash_add_or_update ex_m ex_ht key_zz 3 99 8 HASH_ADD).
Proof.
  apply (add_or_update_refines ex_pool ex_m ex_ht ex_l ex_d key_zz 3 99 8 HASH_ADD ex_rep (valid_zz _)).
  vm_compute. reflexivity.
Defined.

Lemma find_refines_witness :
  zend_hash_find ex_m ex_ht key_a 2 = OK (Some 10) ∧
  zend_hash_quick_find ex_m ex_ht (Some key_a) 2 (str_hash [97; 0]) = OK (Some 10) ∧
  zend_hash_exists ex_m ex_ht key_a 2 = OK true.
Proof. exact (find_refines ex_pool ex_m ex_ht ex_l ex_d key_a 2 ex_rep (valid_a _)). Defined.

Lemma del_refines_witness :
  del_spec ex_pool ex_m ex_ht ex_l ex_d (KStr [98; 99; 0])
    (zend_hash_del_key_or_index ex_m ex_ht (Some key_bc) 3 5 HASH_DEL_KEY) ∧
  del_spec ex_pool ex_m ex_ht ex_l ex_d (KStr [98; 99; 0])
    (zend_hash_del_key_or_index ex_m ex_ht (Some key_bc) 3 (str_hash [98; 99; 0]) HASH_DEL_KEY_QUICK) ∧
  del_spec ex_pool ex_m ex_ht ex_l ex_d (KIdx 5)
    (zend_hash_del_key_or_index ex_m ex_ht None 0 5 HASH_DEL_INDEX).
Proof. apply (del_refines ex_pool ex_m ex_ht ex_l ex_d key_bc 3 5 ex_rep (valid_bc _)). Defined.

Lemma index_refines_witness :
  ins_spec ex_pool ex_m ex_ht ex_l ex_d (KIdx 5) 21 false
    (_zend_hash_index_update_or_next_insert ex_m ex_ht 5 21 8 HASH_UPDATE) ∧
  zend_hash_index_find ex_m ex_ht 5 = OK (Some 20) ∧ zend_hash_index_exists ex_m ex_ht 5 = OK true.
Proof.
  apply (index_refines ex_pool ex_m ex_ht ex_l ex_d 5 21 8 HASH_UPDATE ex_rep); [lia| |reflexivity].
  vm_compute. reflexivity.
Defined.

Lemma next_insert_spec_witness :
  ∃ p m' ht', _zend_hash_index_update_or_next_insert ex_m ex_ht 0 40 8 HASH_NEXT_INSERT
      = OK (SUCCESS, Some p, m', ht') ∧
    Rep ex_pool m' ht' (ex_l ++ [p]) (ex_d ++ [(KIdx 6, 40)]) ∧ zend_hash_next_free_element ht' = 7.
Proof.
  assert (zend_hash_next_free_element ex_ht = 6) as E by (vm_compute; reflexivity).
  destruct (next_insert_spec ex_pool ex_m ex_ht ex_l ex_d 40 8 ex_rep) as [Hi _]; [vm_compute; reflexivity|].
  rewrite E in Hi. apply Hi. apply (bool_decide_unpack _). vm_compute. exact I.
Defined.

Lemma find_after_update_witness :
  ∃ p m' ht', _zend_hash_add_or_update ex_m ex_ht key_zz 3 99 8 HASH_UPDATE = OK (SUCCESS, Some p, m', ht') ∧
    zend_hash_find m' ht' key_a 2 = OK (Some 10).
Proof.
  destruct (find_after_update ex_pool ex_m ex_ht ex_l ex_d key_zz 3 key_a 2 99 8 ex_rep (valid_zz _) (valid_a _))
    as (p & m' & ht' & Hrun & Hfind); [discriminate|vm_compute; reflexivity|].
  exists p, m', ht'. split; [exact Hrun|]. rewrite Hfind. vm_compute. reflexivity.
Defined.

Lemma init_ok_witness : ∃ k, nTableSize (zend_hash_init 9 true false) = 2 ^ k ∧ 3 <= k <= 31 ∧
    (9 <= 2 ^ k ∨ k = 31) ∧ (k = 3 ∨ 2 ^ (k - 1) < 9).
Proof. apply (init_ok ex_pool m0 9 true false). lia. Defined.

Lemma destroy_all_witness :
  ∃ m', zend_hash_destroy ex_m ex_ht = OK m' ∧ freed ex_m ex_l m' ∧ evs m' = [EvDtor 10; EvDtor 20; EvDtor 30].
Proof.
  destruct (destroy_all ex_pool ex_m ex_ht ex_l ex_d ex_rep) as [(m' & Hrun & Hf & Hev) _].
  exists m'. split; [exact Hrun|]. split; [exact Hf|]. rewrite Hev. vm_compute. reflexivity.
Defined.

(** Remove the even multiples of ten, stop behind the second element. *)
Definition ex_callback (v : Z) (n : Z) : Z * Z :=
  ((if v =? 20 then ZEND_HASH_APPLY_REMOVE + ZEND_HASH_APPLY_STOP else ZEND_HASH_APPLY_KEEP), n + v).

Lemma apply_refines_witness :
  ∃ m' ht' l', zend_hash_apply ex_m ex_ht ex_callback 0 = OK (m', ht', 30) ∧
    Rep ex_pool m' ht' l' [(KStr [97; 0], 10); (KStr [98; 99; 0], 30)] ∧ evs m' = [EvDtor 20] ∧
    nApplyCount ht' = 0 ∧ nNextFreeElement ht' = 6 ∧ sublist l' ex_l.
Proof.
  destruct (apply_refines ex_pool ex_m ex_ht ex_l ex_d ex_callback 0 ex_rep) as [Hap _].
  { vm_compute. split; [discriminate|reflexivity]. }
  unfold apply_post in Hap.
  assert (too_deep ex_ht = false) as E by (vm_compute; reflexivity). rewrite E in Hap.
  destruct Hap as (m' & ht' & l' & Hrun & HR & Hev & Hn & Hnf & Hsub).
  exists m', ht', l'. split; [exact Hrun|]. split; [exact HR|]. split; [rewrite Hev; vm_compute; reflexivity|].
  split; [rewrite Hn; vm_compute; reflexivity|]. split; [rewrite Hnf; vm_compute; reflexivity|exact Hsub].
Defined.

Lemma copy_merge_refine_witness :
  ∃ m' target', zend_hash_copy ex_m ht0 ex_ht true 8 = OK (m', target') ∧
    merged ex_pool ex_m ht0 ex_ht [] [] ex_l ex_d true true ex_d m' target'.
Proof.
  destruct (copy_merge_refine ex_pool ex_m ht0 ex_ht true true 8 [] [] ex_l ex_d) as [Hc _]; [|exact ex_rep| | |exact Hc].
  - apply init_spec. lia.
  - intros q Hq. by apply elem_of_nil in Hq.
  - vm_compute. reflexivity.
Defined.

Lemma iterate_all_witness :
  ∃ pos' ht', forward_n 2 ex_m (zend_hash_internal_pointer_reset_ex ex_ht None).2 None = OK (pos', ht') ∧
    Rep ex_pool ex_m ht' ex_l ex_d ∧
    zend_hash_get_current_data_ex ex_m ht' pos' = OK (Some 30) ∧
    zend_hash_get_current_key_ex ex_m ht' false pos' = OK (CurString [98; 99; 0] 3) ∧
    zend_hash_get_current_key_type_ex ex_m ht' pos' = OK HASH_KEY_IS_STRING.
Proof.
  assert (2 ≤ length ex_d)%nat as Hn by (simpl; lia).
  exact (iterate_all ex_pool ex_m ex_ht ex_l ex_d None 2 ex_rep Hn).
Defined.

Lemma set_pointer_restores_witness :
  zend_hash_set_pointer ex_m ex_ht (mkHP (Some 3%positive) 5) = OK (true, set_pInternalPointer (Some 3%positive) ex_ht).
Proof.
  rewrite (set_pointer_restores ex_pool ex_m ex_ht ex_l ex_d 3 5 ex_rep).
  - rewrite decide_True; [reflexivity|]. vm_compute. right. left.
  - intros c _ Hc. vm_compute in Hc. by injection Hc as <-.
Defined.

(** By value, descending, with the sort of the engine. *)
Definition ex_compar (a b : Bucket Z) : Z := data_of (pData b) - data_of (pData a).

Lemma sort_refines_witness :
  ∃ bs m' ht' l', sorted_buckets (H0 := qsort_func) ex_m ex_l ex_compar bs ∧
    zend_hash_sort (H0 := qsort_func) ex_m ex_ht ex_compar false = OK (SUCCESS, m', ht') ∧
    l' ≡ₚ ex_l ∧ entries bs ≡ₚ ex_d ∧ Rep ex_pool m' ht' l' (entries bs) ∧ evs m' = evs ex_m.
Proof.
  refine (sort_refines (H0 := qsort_func) ex_pool ex_m ex_ht ex_l ex_d ex_compar false ex_rep _ _ _).
  - discriminate.
  - vm_compute. discriminate.
  - vm_compute. discriminate.
Defined.

Lemma reindex_refines_witness :
  ∃ m' ht', zend_hash_reindex ex_m ex_ht true = OK (m', ht') ∧
    Rep ex_pool m' ht' ex_l [(KStr [97; 0], 10); (KIdx 0, 20); (KStr [98; 99; 0], 30)] ∧
    nNextFreeElement ht' = 1 ∧ evs m' = [].
Proof.
  destruct (reindex_refines ex_pool ex_m ex_ht ex_l ex_d ex_rep) as (m' & ht' & Hrun & HR & Hnf & Hev).
  exists m', ht'. split; [exact Hrun|]. split; [exact HR|]. split; [exact Hnf|]. rewrite Hev. vm_compute. reflexivity.
Defined.

Lemma symtable_refines_witness :
  ∃ K, sym_key [49; 50; 0] K ∧ zend_symtable_find ex_m ex_ht key_12 3 = OK (dlookup K ex_d) ∧
     zend_symtable_exists ex_m ex_ht key_12 3 = OK (bool_decide (K ∈ ex_d.*1)).
Proof.
  destruct (symtable_refines ex_pool ex_m ex_ht ex_l ex_d key_12 3 7 8 ex_rep (valid_12 _)) as [Hs _];
    [vm_compute; reflexivity|vm_compute; reflexivity|exact Hs].
Defined.

Lemma handle_numeric_exact_witness :
  ∃ r, ZEND_HANDLE_NUMERIC_EX [45; 49; 50; 0] 4 = OK r ∧
    ∀ idx, r = Some idx ↔ ∃ z, canonical_dec [45; 49; 50; 0] z ∧ in_long z ∧ idx = to_ulong z.
Proof. apply (handle_numeric_exact [45; 49; 50; 0]). reflexivity. Defined.
