(* ===== verification/ZendInterned.v ===== *)
(** Interned strings, Zend/zend_string.c: an arena of buckets, each with its
    string right behind it, and a hash table over them.

    The table is a HashTable of ZendHash; its buckets are not allocated but cut
    from the arena, at increasing addresses.  A string behind the bucket at [p]
    has the address [Interned p]. *)

From S2P Require Import Prelude Dll ZendHash.

(** [sizeof(Bucket)] and [ZEND_MM_ALIGNED_SIZE]. *)
Definition SIZEOF_BUCKET : Z := 72.
Definition ZEND_MM_ALIGNED_SIZE (size : Z) : Z := Z.land (size + 8 - 1) (Z.lnot 7).

(** [CG(interned_strings)], [CG(interned_strings_start)] and so on. *)
Record interned := {
  in_table : HashTable;
  in_start : ptr;
  in_top : ptr;
  in_snapshot : ptr;
  in_end : ptr;
}.

Definition set_in_table ht s : interned :=
  {| in_table := ht; in_start := in_start s; in_top := in_top s; in_snapshot := in_snapshot s; in_end := in_end s |}.
Definition set_in_top p s : interned :=
  {| in_table := in_table s; in_start := in_start s; in_top := p; in_snapshot := in_snapshot s; in_end := in_end s |}.

(** Whether [perealloc_recoverable] finds a block of that size. *)
Class Recoverable := { recoverable : Z → bool }.

Section interned.
Context `{PEMalloc} `{Recoverable}.
Implicit Types (m : mem ptr) (ht : HashTable) (s : interned) (p q : ptr) (k : zstr).

(** The address of the first byte of an interned string. *)
Definition str_addr (k : option zstr) : outcome ptr :=
  match k with
  | Some (ZStr (Interned p) _) => OK (p + Z.to_pos SIZEOF_BUCKET)%positive
  | _ => UB
  end.

(** What a new string takes from the arena. *)
Definition entry_size (nKeyLength : Z) : positive := Z.to_pos (ZEND_MM_ALIGNED_SIZE (SIZEOF_BUCKET + nKeyLength)).

(** [(Bucket * ) CG(interned_strings_top)] and the assignments to it: what was
    in those [size] bytes is overwritten.  The links are written before they
    are read. *)
Definition arena_put m p (size : positive) (b : Bucket ptr) : mem ptr :=
  mkMem (<[p := b]> (filter (λ qb, ¬ (p ≤ qb.1 < p + size)%positive) (heap m))) (evs m).

Definition new_string k (nKeyLength h : Z) p : Bucket ptr :=
  mkBucket h nKeyLength (InPtr p) None None None None
    (Some (ZStr (Interned p) (take (Z.to_nat nKeyLength) (zs_val k)))).

(** [(p->h == h) && (p->nKeyLength == nKeyLength) && !memcmp(...)] *)
Definition intern_test k (nKeyLength h : Z) (b : Bucket ptr) : bool :=
  (bh b =? h) && (ZendHash.nKeyLength b =? nKeyLength) && memcmp_eq (arKey b) (Some k) nKeyLength.

(** The end of the global list. *)
Definition intern_append m ht p : outcome (mem ptr * HashTable) :=
  let last := pListTail ht in
  let* m := mstore m p (set_pListLast last) in
  let ht := set_pListTail (Some p) ht in
  let* m := mstore m p (set_pListNext None) in
  let* m := mstore_opt m last (set_pListNext (Some p)) in
  OK (m, match pListHead ht with None => set_pListHead (Some p) ht | Some _ => ht end).

Definition intern_grow m ht : outcome (mem ptr * HashTable) :=
  if nTableSize ht <? nNumOfElements ht then
    let size2 := uint_wrap (Z.shiftl (nTableSize ht) 1) in
    if (0 <? size2) && recoverable (size2 * SIZEOF_PTR) then
      let t := arBuckets ht ++ replicate (Z.to_nat size2 - length (arBuckets ht))%nat garbage in
      zend_hash_rehash m (set_nTable size2 (size2 - 1) t ht)
    else OK (m, ht)
  else OK (m, ht).

(** The string to use instead, and whether the argument has been freed. *)
Definition zend_new_interned_string_int k (nKeyLength : Z) (free_src : bool) m s
    : outcome (zstr * bool * mem ptr * interned) :=
  if IS_INTERNED (Some k) then OK (k, false, m, s)
  else
    let h := zend_inline_hash_func (zs_val k) nKeyLength in
    let nIndex := Z.land h (nTableMask (in_table s)) in
    let* head := slot (in_table s) nIndex in
    let* found := chain_search (fuel_of m) (intern_test k nKeyLength h) m head in
    match found with
    | Some p =>
        let* b := deref m p in
        let* k' := rd (arKey b) in
        OK (k', free_src, m, s)
    | None =>
        let size := entry_size nKeyLength in
        if decide (in_end s ≤ in_top s + size)%positive then OK (k, false, m, s)
        else
          let p := in_top s in
          let s := set_in_top (p + size)%positive s in
          let m := arena_put m p size (new_string k nKeyLength h p) in
          let* m := CONNECT_TO_BUCKET_DLLIST m p head in
          let* (m, ht) := intern_append m (in_table s) p in
          let* ht := set_slot ht nIndex (Some p) in
          let ht := set_nNumOfElements (uint_wrap (nNumOfElements ht + 1)) ht in
          let* (m, ht) := intern_grow m ht in
          OK (ZStr (Interned p) (take (Z.to_nat nKeyLength) (zs_val k)), free_src, m, set_in_table ht s)
    end.

(** The arena of 1MB, its table with all slots allocated, and the empty string;
    [empty] is the address of the literal. *)
Definition zend_interned_strings_init (start empty : positive) : outcome (zstr * mem ptr * interned) :=
  let ht := zend_hash_init 0 false true in
  let ht := set_nTable (nTableSize ht) (nTableSize ht - 1) (replicate (Z.to_nat (nTableSize ht)) None) ht in
  let s := {| in_table := ht; in_start := start; in_top := start; in_snapshot := start; in_end := (start + 2 ^ 20)%positive |} in
  let* (k, _, m, s) := zend_new_interned_string_int (ZStr (Foreign empty) [0]) 1 false (mkMem ∅ []) s in
  OK (k, m, s).

(** The slots and the arena are freed; all buckets are in the arena. *)
Definition zend_interned_strings_dtor m : mem ptr := mkMem ∅ (evs m).

Definition zend_interned_strings_snapshot_int s : interned :=
  {| in_table := in_table s; in_start := in_start s; in_top := in_top s; in_snapshot := in_top s; in_end := in_end s |}.

(** The bucket [p] leaves the global list. *)
Definition restore_unlink m ht p : outcome (mem ptr * HashTable) :=
  let ht := set_nNumOfElements (uint_wrap (nNumOfElements ht - 1)) ht in
  let* b := deref m p in
  let* (m, ht) :=
    match pListLast b with
    | Some l => let* m := mstore m l (set_pListNext (pListNext b)) in OK (m, ht)
    | None => OK (m, set_pListHead (pListNext b) ht)
    end in
  let* b := deref m p in
  match pListNext b with
  | Some n => let* m := mstore m n (set_pListLast (pListLast b)) in OK (m, ht)
  | None => OK (m, set_pListTail (pListLast b) ht)
  end.

(** [while (p && p->arKey > CG(interned_strings_top)) ...] *)
Fixpoint restore_chain (fuel : nat) (top : ptr) m ht (p : nptr) : outcome (nptr * mem ptr * HashTable) :=
  match p with
  | None => OK (None, m, ht)
  | Some q =>
      match fuel with
      | O => UB
      | S fuel =>
          let* b := deref m q in
          let* a := str_addr (arKey b) in
          if decide (top < a)%positive then
            let* (m, ht) := restore_unlink m ht q in
            let* b := deref m q in
            restore_chain fuel top m ht (pNext b)
          else OK (Some q, m, ht)
      end
  end.

Definition restore_slot (top : ptr) (i : Z) m ht : outcome (mem ptr * HashTable) :=
  let* head := slot ht i in
  let* (p, m, ht) := restore_chain (fuel_of m) top m ht head in
  let* m := mstore_opt m p (set_pLast None) in
  let* ht := set_slot ht i p in
  OK (m, ht).

(** [for (i = 0; i < nTableSize; i++)], [n] being what is left to do. *)
Fixpoint restore_slots (n : nat) (top : ptr) (i : Z) m ht : outcome (mem ptr * HashTable) :=
  match n with
  | O => OK (m, ht)
  | S n => let* (m, ht) := restore_slot top i m ht in restore_slots n top (i + 1) m ht
  end.

Definition zend_interned_strings_restore_int m s : outcome (mem ptr * interned) :=
  let s := set_in_top (in_snapshot s) s in
  let* (m, ht) := restore_slots (Z.to_nat (nTableSize (in_table s))) (in_top s) 0 m (in_table s) in
  OK (m, set_in_table ht s).
End interned.
