(* ===== verification/ZendInternedSpec.v ===== *)
(** What the interned strings promise: equal strings have one address, and
    restoring forgets the strings entered since the snapshot and no other. *)

From stdpp Require Import relations.
From S2P Require Import Prelude Dll ZendHash ZendHashInv ZendHashOps ZendInterned.

(** * The arena *)

Lemma aligned_size n : 0 <= n → n <= ZEND_MM_ALIGNED_SIZE n < n + 8.
Proof.
  intros Hn. unfold ZEND_MM_ALIGNED_SIZE. change (Z.lnot 7) with (Z.lnot (Z.ones 3)).
  rewrite <- Z.ldiff_land, Z.ldiff_ones_r, Z.shiftl_mul_pow2, Z.shiftr_div_pow2 by lia.
  change (2 ^ 3) with 8. pose proof (Z.div_mod (n + 8 - 1) 8 ltac:(lia)). pose proof (Z.mod_pos_bound (n + 8 - 1) 8 ltac:(lia)). lia.
Qed.

Lemma entry_size_ge n : 0 <= n → SIZEOF_BUCKET + n <= Z.pos (entry_size n).
Proof. intros Hn. unfold entry_size. pose proof (aligned_size (SIZEOF_BUCKET + n)). unfold SIZEOF_BUCKET in *. lia. Qed.

Implicit Types (d : list (ptr * list Z)) (p q a : ptr) (k : list Z).

Abbreviation len k := (Z.of_nat (length k)).

(** The strings [d] with their buckets fill the arena from [a] to [e]. *)
Fixpoint arena a d (e : ptr) : Prop :=
  match d with
  | [] => a = e
  | (p, k) :: d => p = a ∧ arena (a + entry_size (len k))%positive d e
  end.

Lemma arena_app a d1 d2 e : arena a (d1 ++ d2) e ↔ ∃ b, arena a d1 b ∧ arena b d2 e.
Proof.
  revert a. induction d1 as [|[p k] d1 IH]; intros a; simpl; [naive_solver|]. rewrite IH. naive_solver.
Qed.

Lemma arena_le a d e : arena a d e → (a ≤ e)%positive.
Proof. revert a. induction d as [|[p k] d IH]; simpl; intros a; [by intros ->|]. intros [_ He%IH]. lia. Qed.

Lemma arena_range a d e p k : arena a d e → (p, k) ∈ d → (a ≤ p ∧ p + entry_size (len k) ≤ e)%positive.
Proof.
  revert a. induction d as [|[q k'] d IH]; simpl; intros a; [by intros _ ?%elem_of_nil|].
  intros [-> He] [[= -> ->]|Hin]%elem_of_cons; [apply arena_le in He; lia|]. destruct (IH _ He Hin). lia.
Qed.

Lemma arena_nodup a d e : arena a d e → NoDup d.*1.
Proof.
  revert a. induction d as [|[q k'] d IH]; simpl; intros a; [constructor|]. intros [-> He]. constructor; [|by eapply IH].
  intros ([p k] & -> & Hin)%list_elem_of_fmap. destruct (arena_range _ _ _ _ _ He Hin). simpl in *. lia.
Qed.

Lemma arena_length a d e : arena a d e → 72 * Z.of_nat (length d) <= Z.pos e - Z.pos a.
Proof.
  revert a. induction d as [|[q k'] d IH]; simpl; intros a; [intros ->; lia|]. intros [-> He%IH].
  pose proof (entry_size_ge (len k') ltac:(lia)). unfold SIZEOF_BUCKET in *. lia.
Qed.

Section spec.
Context `{PEMalloc} `{Recoverable}.
Implicit Types (m : mem ptr) (ht : HashTable) (s : interned).

(** * The invariant *)

Definition entry_core p k : bcore ptr := mkCore (zend_inline_hash_func k (len k)) (len k) (InPtr p) (Some (ZStr (Interned p) k)).

Record interned_ok m s d : Prop := {
  io_links : links_ok m (in_table s) d.*1;
  io_slots : slots_ok (in_table s);
  io_ip : pInternalPointer (in_table s) = None;
  io_core : ∀ p k, (p, k) ∈ d → core m p = Some (entry_core p k);
  io_arena : arena (in_start s) d (in_top s);
  io_newest : newest_first m d.*1;
  io_keys : NoDup d.*2;
  io_end : Z.pos (in_end s) - Z.pos (in_start s) <= 2 ^ 32;
}.

(** The strings [d1] are those entered before the snapshot. *)
Definition snapshot_ok s d1 d2 d : Prop := d = d1 ++ d2 ∧ arena (in_start s) d1 (in_snapshot s).

Lemma elem_addrs d p : p ∈ d.*1 → ∃ k, (p, k) ∈ d.
Proof. intros ([q k] & -> & Hin)%list_elem_of_fmap. eauto. Qed.
Lemma elem_keys d k : k ∈ d.*2 → ∃ p, (p, k) ∈ d.
Proof. intros ([q k'] & -> & Hin)%list_elem_of_fmap. eauto. Qed.

Lemma heap_entry m p c : core m p = Some c → ∃ b, heap m !! p = Some b ∧ core_of b = c.
Proof. unfold core. destruct (heap m !! p) as [b|]; [|done]. intros [= <-]. eauto. Qed.

(** ** Searching *)

Lemma intern_search m s d k : interned_ok m s d → ∀ (w : saddr),
  let h := zend_inline_hash_func k (len k) in
  ∃ head r, slot (in_table s) (Z.land h (nTableMask (in_table s))) = OK head ∧
    chain_search (fuel_of m) (intern_test (ZStr w k) (len k) h) m head = OK r ∧
    match r with
    | Some p => (p, k) ∈ d
    | None => k ∉ d.*2
    end.
Proof.
  intros Hok w h. destruct (search_ok m (in_table s) d.*1 h (intern_test (ZStr w k) (len k) h) (io_links _ _ _ Hok))
    as (head & r & Hs & Hr & Hres).
  exists head, r. split_and!; [done..|]. destruct r as [p|].
  - destruct Hres as [[k' Hp]%elem_addrs (b & Hb & Ht)]. pose proof (io_core _ _ _ Hok p k' Hp) as Hc.
    destruct (heap_entry _ _ _ Hc) as (b' & Hb' & Hcore). rewrite Hb in Hb'. injection Hb' as <-.
    unfold intern_test in Ht. unfold core_of, entry_core in Hcore. injection Hcore as Hh Hn Hd Ha.
    rewrite Ha in Ht. apply andb_prop in Ht as [[_ Hlen%Z.eqb_eq]%andb_prop Heq]. simpl in Heq.
    apply bool_decide_eq_true in Heq. rewrite Hn in Hlen. rewrite !Nat2Z.id in Heq.
    rewrite take_ge, take_ge in Heq by lia. by subst.
  - intros [p Hp]%elem_keys. pose proof (io_core _ _ _ Hok p k Hp) as Hc.
    destruct (heap_entry _ _ _ Hc) as (b & Hb & Hcore). apply (Hres p).
    + apply list_elem_of_fmap. by exists (p, k).
    + unfold idx. by rewrite Hc.
    + exists b. split; [done|]. unfold core_of, entry_core in Hcore. injection Hcore as Hh Hn Hd Ha.
      unfold intern_test. rewrite Hh, Hn, Ha, !Z.eqb_refl. simpl. by rewrite bool_decide_true.
Qed.

(** ** Entering *)

Lemma arena_put_old m p size b q : (q < p)%positive →
  core (arena_put m p size b) q = core m q ∧ lview (arena_put m p size b) q = lview m q ∧ cview (arena_put m p size b) q = cview m q.
Proof.
  intros Hq. unfold core, lview, cview, arena_put. cbn [heap].
  assert (<[p := b]> (filter (λ qb, ¬ (p ≤ qb.1 < p + size)%positive) (heap m)) !! q = heap m !! q) as ->; [|done].
  rewrite lookup_insert_ne by lia. apply option_eq. intros x. rewrite map_lookup_filter_Some. simpl. split; [by intros []|].
  intros Hx. split; [done|]. lia.
Qed.
Lemma arena_put_new m p size b : heap (arena_put m p size b) !! p = Some b.
Proof. apply lookup_insert_eq. Qed.

(** The end of the list, as [CONNECT_TO_GLOBAL_DLLIST_EX] does it. *)
Lemma intern_append_run m ht l p : list_ok m ht l → p ∉ l → is_Some (core m p) →
  intern_append m ht p = OK (gconnect_mem m p (pListTail ht) None, gconnect_ht ht p (pListTail ht) None).
Proof.
  intros Hl Hp Hc. unfold intern_append. rewrite mstore_live by done. ob.
  rewrite mstore_live by (by views). ob.
  rewrite mstore_opt_live.
  2: { intros x Hx. views. eapply list_live; [done|]. rewrite (lo_tail _ _ _ Hl) in Hx. by apply last_or_elem in Hx. }
  ob. unfold gconnect_mem, gconnect_ht. simpl. do 2 f_equal.
  rewrite (lo_head _ _ _ Hl), (lo_tail _ _ _ Hl). destruct l as [|x l]; [done|]. simpl.
  destruct (last_or None (x :: l)) eqn:E; [done|]. by apply last_or_None_nil in E.
Qed.

Lemma list_snoc m ht l p : list_ok m ht l → p ∉ l → is_Some (core m p) → pInternalPointer ht = None →
  Z.of_nat (length l) + 1 < 2 ^ 32 →
  let ht' := gconnect_ht ht p (pListTail ht) None in
  list_ok (gconnect_mem m p (pListTail ht) None) (set_nNumOfElements (uint_wrap (nNumOfElements ht' + 1)) ht') (l ++ [p]).
Proof.
  intros Hl Hp Hc Hip Hlen ht'. pose proof Hl as [L1 L2 L3 L4 L5 L6 L7].
  assert (last_or None l ≠ Some p) as Hne by (intros ?%last_or_elem; done).
  assert (nNumOfElements ht' = nNumOfElements ht ∧ pInternalPointer ht' = None ∧ pListTail ht' = Some p ∧
    pListHead ht' = if last_or None l is Some _ then pListHead ht else Some p) as (Hn & Hi & Ht & Hh).
  { unfold ht', gconnect_ht. rewrite L4. by destruct (last_or None l). }
  split; cbn [set_nNumOfElements pListHead pListTail nNumOfElements pInternalPointer].
  - apply (dll_link (lview m) _ l p []); rewrite ?app_nil_r; try done.
    + rewrite gconnect_lview by (rewrite ?L4; done). by rewrite decide_True, L4.
    + intros q Hq. rewrite gconnect_lview by (rewrite ?L4; done). by rewrite decide_False, L4.
  - apply NoDup_app. split; [done|]. split; [set_solver|apply NoDup_singleton].
  - rewrite Hh, L3, last_or_is_nil. by destruct l.
  - by rewrite Ht, last_or_snoc.
  - rewrite Hn, L5, length_app, uint_wrap_id; simpl; lia.
  - rewrite length_app. simpl. lia.
  - by rewrite Hi.
Qed.

Lemma intern_grow_ok m ht l : links_ok m ht l → slots_ok ht → l ≠ [] → newest_first m l →
  ∃ m' ht', intern_grow m ht = OK (m', ht') ∧ (∀ q, core m' q = core m q) ∧
    links_ok m' ht' l ∧ slots_ok ht' ∧ newest_first m' l ∧ pInternalPointer ht' = pInternalPointer ht.
Proof.
  intros Hok Hs Hne Hnf. unfold intern_grow. destruct (_ <? _); [|exists m, ht; by split_and!].
  pose proof Hs as (k & Hk & Hsz & Hm & Hlen). rewrite Hsz, Z.shiftl_mul_pow2 by lia. rewrite Z.pow_1_r.
  destruct (decide (k = 31)) as [->|Hk31].
  { change (0 <? uint_wrap (2 ^ 31 * 2)) with false. simpl. exists m, ht. by split_and!. }
  assert (2 ^ k * 2 = 2 ^ (k + 1)) as E by (rewrite Z.pow_add_r; lia).
  assert (2 ^ (k + 1) <= 2 ^ 31) as Hle by (apply Z.pow_le_mono_r; lia).
  assert (0 < 2 ^ (k + 1)) as Hpos by (apply Z.pow_pos_nonneg; lia).
  rewrite E, uint_wrap_id by lia. rewrite (proj2 (Z.ltb_lt _ _)) by lia. cbn [andb].
  destruct (recoverable _); [|exists m, ht; by split_and!].
  destruct (rehash_ok m (set_nTable (2 ^ (k + 1)) (2 ^ (k + 1) - 1)
      (arBuckets ht ++ replicate (Z.to_nat (2 ^ (k + 1)) - length (arBuckets ht))%nat garbage) ht) l)
    as (m' & ht' & Hrun & Hsb & Hsl & Hsc & Hso & Hok' & Hnf'); try done.
  { eapply (list_ok_ext m m ht); [done|by split_and!|apply Hok]. }
  { exists (k + 1). simpl. split_and!; try lia. rewrite length_app, length_replicate. lia. }
  exists m', ht'. split_and!; [done|apply Hsb|done..|]. by destruct Hsl as (_ & _ & -> & _).
Qed.

Lemma newest_first_ext m m' l : (∀ q, q ∈ l → cview m' q = cview m q) → newest_first m l → newest_first m' l.
Proof. intros He Hl p pr nx Hp Hcv. rewrite He in Hcv by done. by eapply Hl. Qed.

(** A string that is not there yet, when there is room. *)
Lemma intern_new m s d k w free_src : interned_ok m s d → k ∉ d.*2 →
  (in_top s + entry_size (len k) < in_end s)%positive → IS_INTERNED (Some (ZStr w k)) = false →
  ∃ m' s', zend_new_interned_string_int (ZStr w k) (len k) free_src m s = OK (ZStr (Interned (in_top s)) k, free_src, m', s') ∧
    interned_ok m' s' (d ++ [(in_top s, k)]) ∧ in_start s' = in_start s ∧ in_snapshot s' = in_snapshot s ∧ in_end s' = in_end s.
Proof.
  intros Hok Hk Hroom Hin. pose proof Hok as [O1 O2 O3 O4 O5 O6 O7 O8]. unfold zend_new_interned_string_int. rewrite Hin.
  destruct (intern_search m s d k Hok w) as (head & r & Hs & Hr & Hres). cbn [zs_val]. rewrite Hs. ob. rewrite Hr. ob.
  destruct r as [p|]; [by destruct Hk; apply list_elem_of_fmap; exists (p, k)|]. clear Hres Hr.
  rewrite decide_False by lia. rewrite Nat2Z.id, firstn_all.
  set (p := in_top s) in *. set (h := zend_inline_hash_func k (len k)) in *. set (ht := in_table s) in *. set (l := d.*1) in *.
  assert (∀ q, q ∈ l → (q < p)%positive) as Hlt.
  { intros q [k' Hq]%elem_addrs. destruct (arena_range _ _ _ _ _ O5 Hq). lia. }
  assert (p ∉ l) as Hpl by (intros ?%Hlt; lia).
  set (m1 := arena_put m p (entry_size (len k)) (new_string (ZStr w k) (len k) h p)).
  assert (∀ q, q ∈ l → core m1 q = core m q ∧ lview m1 q = lview m q ∧ cview m1 q = cview m q) as Hold by (intros; apply arena_put_old; auto).
  assert (core m1 p = Some (entry_core p k)) as Hc1.
  { unfold core, m1. rewrite arena_put_new. simpl. unfold core_of. simpl. by rewrite Nat2Z.id, firstn_all. }
  set (i := Z.land h (nTableMask ht)) in *. unfold slot in Hs. apply rd_OK in Hs.
  pose proof (slots_table ht l O2) as Htab. assert (0 <= i <= nTableMask ht) as Hi by (by eapply mask_range).
  assert (∀ j, 0 <= j <= nTableMask ht → chain_ok m1 (nTableMask ht) (arBuckets ht) l j) as Hch1.
  { intros j Hj. apply (chain_ok_ext m); [intros; by apply Hold..|]. by apply O1. }
  destruct (chains_link m1 (nTableMask ht) (arBuckets ht) l (l ++ [p]) p i head Hch1 Hpl) as (Hne & Hhl & Hch2); try done.
  { unfold idx. by rewrite Hc1. } { set_solver. }
  rewrite (connect_bucket_run m1 p head).
  2: { eauto. }
  2: { intros x Hx%Hhl. rewrite (proj1 (Hold x Hx)). eapply list_live; [apply O1|done]. }
  ob. set (m2 := connect_mem m1 p head) in *.
  assert (∀ q, core m2 q = core m1 q) as Hc2 by (intros; apply connect_core).
  assert (list_ok m2 ht l) as Hl2.
  { eapply (list_ok_ext m m2 ht ht); [|by split_and!|apply O1]. intros q Hq. unfold m2. rewrite connect_lview. by apply Hold. }
  cbn [in_table set_in_top]. fold ht. rewrite (intern_append_run m2 ht l p) by (rewrite ?Hc2; eauto). ob.
  assert (Z.of_nat (length l) + 1 < 2 ^ 32) as Hlen.
  { pose proof (arena_length _ _ _ O5). unfold l. rewrite length_fmap. fold p in H1. lia. }
  pose proof (list_snoc m2 ht l p Hl2 Hpl ltac:(rewrite Hc2; eauto) O3 Hlen) as Hl3. cbn zeta in Hl3.
  set (m3 := gconnect_mem m2 p (pListTail ht) None) in *. set (ht3 := gconnect_ht ht p (pListTail ht) None) in *.
  assert (arBuckets ht3 = arBuckets ht ∧ nTableMask ht3 = nTableMask ht ∧ nTableSize ht3 = nTableSize ht ∧ pInternalPointer ht3 = pInternalPointer ht)
    as (Hab & Hmask & Hsize & Hip) by (unfold ht3, gconnect_ht; by destruct (pListTail ht)).
  clearbody ht3.
  unfold set_slot. rewrite Hab, decide_True by (by eapply lookup_lt_Some). ob.
  set (ht4 := set_nNumOfElements _ _).
  assert (links_ok m3 ht4 (l ++ [p])) as O1'.
  { split.
    - eapply (list_ok_ext m3); [done| |exact Hl3]. by split_and!.
    - apply slots_table. destruct O2 as (x & ? & ? & ? & ?). exists x. simpl. rewrite length_insert, Hmask, Hsize. auto.
    - intros j Hj. simpl. rewrite Hmask. apply (chain_ok_ext m2).
      + intros. apply gconnect_cview.
      + intros. apply gconnect_core.
      + apply Hch2. simpl in Hj. by rewrite Hmask in Hj. }
  destruct (intern_grow_ok m3 ht4 (l ++ [p])) as (m' & ht' & -> & Hc' & O1'' & O2'' & O6'' & O3'').
  { done. }
  { destruct O2 as (x & ? & ? & ? & ?). exists x. simpl. rewrite length_insert, Hmask, Hsize. auto. }
  { by destruct l. }
  { apply (newest_first_ext m2); [intros; apply gconnect_cview|]. apply connect_newest_first; eauto.
    eapply newest_first_ext; [|exact O6]. intros q Hq. by apply Hold. }
  ob. eexists _, _. split; [done|]. split; [|done]. split; simpl.
  - by rewrite fmap_app.
  - done.
  - rewrite O3''. simpl. by rewrite Hip.
  - intros q k' Hq. rewrite Hc'. unfold m3. rewrite gconnect_core, Hc2. apply elem_of_app in Hq as [Hq|Hq].
    + rewrite (proj1 (Hold q ltac:(by apply list_elem_of_fmap; exists (q, k')))). auto.
    + apply list_elem_of_singleton in Hq as [= -> ->]. done.
  - apply arena_app. exists p. split; [done|]. by simpl.
  - by rewrite fmap_app.
  - rewrite fmap_app. apply NoDup_app. split; [done|]. split; [set_solver|apply NoDup_singleton].
  - done.
Qed.

(** Interning, on every branch. *)
Lemma intern_ok m s d k w free_src : interned_ok m s d →
  let run := zend_new_interned_string_int (ZStr w k) (len k) free_src m s in
  (IS_INTERNED (Some (ZStr w k)) = true → run = OK (ZStr w k, false, m, s)) ∧
  (IS_INTERNED (Some (ZStr w k)) = false →
    (∀ p, (p, k) ∈ d → run = OK (ZStr (Interned p) k, free_src, m, s)) ∧
    (k ∉ d.*2 → (in_end s ≤ in_top s + entry_size (len k))%positive → run = OK (ZStr w k, false, m, s)) ∧
    (k ∉ d.*2 → (in_top s + entry_size (len k) < in_end s)%positive →
      ∃ m' s', run = OK (ZStr (Interned (in_top s)) k, free_src, m', s') ∧
        interned_ok m' s' (d ++ [(in_top s, k)]) ∧ in_start s' = in_start s ∧ in_snapshot s' = in_snapshot s ∧ in_end s' = in_end s)).
Proof.
  intros Hok. cbn zeta. split; [by unfold zend_new_interned_string_int; intros ->|]. intros Hin.
  destruct (intern_search m s d k Hok w) as (head & r & Hs & Hr & Hres). split_and!.
  - intros p Hp. unfold zend_new_interned_string_int. rewrite Hin. cbn [zs_val]. rewrite Hs. ob. rewrite Hr. ob.
    destruct r as [p'|]; [|by destruct Hres; apply list_elem_of_fmap; exists (p, k)].
    assert (p' = p) as ->.
    { apply list_elem_of_lookup in Hres as [j Hj], Hp as [j' Hj'].
      assert (j = j') as ->; [|congruence]. eapply NoDup_lookup; [apply (io_keys _ _ _ Hok)| |]; rewrite list_lookup_fmap, ?Hj, ?Hj'; done. }
    destruct (heap_entry _ _ _ (io_core _ _ _ Hok p k Hp)) as (b & Hb & Hc). unfold deref. rewrite Hb. ob.
    unfold core_of, entry_core in Hc. injection Hc as _ _ _ ->. done.
  - intros Hk Hroom. unfold zend_new_interned_string_int. rewrite Hin. cbn [zs_val]. rewrite Hs. ob. rewrite Hr. ob.
    destruct r as [p'|]; [by destruct Hk; apply list_elem_of_fmap; exists (p', k)|]. by rewrite decide_True.
  - intros Hk Hroom. by apply intern_new.
Qed.
End spec.

(** * Restoring *)

Lemma filter_ext_in {A} (P Q : A → Prop) `{∀ x, Decision (P x)} `{∀ x, Decision (Q x)} (l : list A) :
  (∀ x, x ∈ l → P x ↔ Q x) → filter P l = filter Q l.
Proof.
  induction l as [|x l IH]; intros He; [done|]. rewrite !filter_cons. rewrite IH by (intros; apply He; set_solver).
  specialize (He x ltac:(set_solver)). repeat case_decide; tauto.
Qed.

Lemma filter_id {A} (P : A → Prop) `{∀ x, Decision (P x)} (l : list A) : (∀ x, x ∈ l → P x) → filter P l = l.
Proof.
  induction l as [|x l IH]; intros He; [done|]. rewrite filter_cons, decide_True by (apply He; set_solver).
  f_equal. apply IH. set_solver.
Qed.

Lemma filter_none {A} (P : A → Prop) `{∀ x, Decision (P x)} (l : list A) : (∀ x, x ∈ l → ¬ P x) → filter P l = [].
Proof.
  induction l as [|x l IH]; intros He; [done|]. rewrite filter_cons, decide_False by (apply He; set_solver). apply IH. set_solver.
Qed.

Lemma nodup_pivot {A} (x : A) (u v u' v' : list A) : NoDup (u ++ x :: v) → u ++ x :: v = u' ++ x :: v' → u' = u.
Proof.
  revert u'. induction u as [|y u IH]; intros [|y' u'] Hnd He; simpl in *; simplify_eq; try done.
  - apply NoDup_cons in Hnd as [Hx _]. set_solver.
  - apply NoDup_cons in Hnd as [Hx _]. set_solver.
  - f_equal. apply NoDup_cons in Hnd as [_ Hnd]. by apply IH.
Qed.

Lemma filter_notin_cons q (cn l1 l2 : list ptr) : NoDup (l1 ++ q :: l2) →
  filter (λ x, x ∉ q :: cn) (l1 ++ q :: l2) = filter (λ x, x ∉ cn) (l1 ++ l2).
Proof.
  intros (H1 & Hd & [Hq H2]%NoDup_cons)%NoDup_app. rewrite !filter_app, filter_cons, decide_False by set_solver.
  f_equal; apply filter_ext_in; set_solver.
Qed.

Section restore.
Context `{PEMalloc} `{Recoverable}.
Implicit Types (m : mem ptr) (ht : HashTable) (s : interned) (l c : list ptr) (i j : Z).

(** The table but for its list. *)
Definition same_slots ht ht' : Prop :=
  nTableSize ht' = nTableSize ht ∧ nTableMask ht' = nTableMask ht ∧ arBuckets ht' = arBuckets ht ∧
  pInternalPointer ht' = pInternalPointer ht.

Lemma restore_unlink_ok m ht l1 q l2 : list_ok m ht (l1 ++ q :: l2) → pInternalPointer ht = None →
  ∃ m' ht', restore_unlink m ht q = OK (m', ht') ∧ list_ok m' ht' (l1 ++ l2) ∧ same_slots ht ht' ∧
    (∀ x, core m' x = core m x) ∧ (∀ x, cview m' x = cview m x).
Proof.
  intros Hl Hip. pose proof Hl as [L1 L2 L3 L4 L5 L6 L7]. unfold restore_unlink.
  destruct (list_live _ _ _ q Hl ltac:(set_solver)) as [cr Hcr]. pose proof (dseg_lookup _ _ _ _ _ _ L1) as Hlv.
  destruct (live_views m q ltac:(eauto)) as [_ [[cl cn] Hcv]]. destruct (seg_ends_ne _ _ _ L2) as [Hl1 Hl2].
  assert (∀ x, last_or None l1 = Some x → is_Some (core m x)) as Ll1.
  { intros x Hx%last_or_elem. eapply list_live; [done|set_solver]. }
  assert (∀ x, hd_or l2 None = Some x → is_Some (core m x)) as Ll2.
  { intros x Hx%hd_or_elem. eapply list_live; [done|set_solver]. }
  rewrite (deref_views m q cr _ _ _ _ Hcr Hlv Hcv). cbn [obind pListLast pListNext].
  rewrite store_else by done. ob.
  rewrite (deref_views _ q cr (last_or None l1) (hd_or l2 None) cl cn).
  2: { by views. }
  2: { views. by rewrite decide_False. }
  2: { by views. }
  cbn [obind pListLast pListNext]. rewrite store_else by (intros; views; auto).
  eexists _, _. split; [done|]. split_and!.
  - assert (∀ x, lview (malter_opt (hd_or l2 None) (set_pListLast (last_or None l1))
       (malter_opt (last_or None l1) (set_pListNext (hd_or l2 None)) m)) x =
       set_prev (hd_or l2 None) (last_or None l1) (set_next (last_or None l1) (hd_or l2 None) (lview m)) x) as Hlv' by (intros; by views).
    apply NoDup_app in L2 as L2'. destruct L2' as (N1 & Hd & [Hq N2]%NoDup_cons).
    rewrite length_app in L5, L6. cbn [length] in L5, L6.
    split.
    + eapply dll_unlink; [exact L2|exact L1|]. intros x Hx. apply Hlv'.
    + apply NoDup_app. set_solver.
    + transitivity (if last_or None l1 is Some _ then pListHead ht else hd_or l2 None);
        [by destruct (last_or None l1), (hd_or l2 None)|]. rewrite last_or_is_nil, L3. by destruct l1.
    + transitivity (if hd_or l2 None is Some _ then pListTail ht else last_or None l1);
        [by destruct (last_or None l1), (hd_or l2 None)|]. rewrite L4, !last_or_app, last_or_cons.
      destruct l2; [done|]. by rewrite !last_or_cons.
    + transitivity (uint_wrap (nNumOfElements ht - 1)); [by destruct (last_or None l1), (hd_or l2 None)|].
      rewrite L5, uint_wrap_id; rewrite ?length_app; lia.
    + rewrite length_app. lia.
    + match goal with |- ∀ x, pInternalPointer ?h = _ → _ => assert (pInternalPointer h = None) as -> end; [|done].
      transitivity (pInternalPointer ht); [by destruct (last_or None l1), (hd_or l2 None)|done].
  - unfold same_slots. by destruct (last_or None l1), (hd_or l2 None).
  - intros x. by views.
  - intros x. by views.
Qed.

Definition new_bucket_at (top : ptr) m q : Prop :=
  ∃ k, core m q = Some (entry_core q k) ∧ (top < q + Z.to_pos SIZEOF_BUCKET)%positive.
Definition old_bucket_at (top : ptr) m q : Prop :=
  ∃ k, core m q = Some (entry_core q k) ∧ (q + Z.to_pos SIZEOF_BUCKET ≤ top)%positive.

(** The loop along a chain whose new buckets come first. *)
Lemma restore_chain_ok top cn co : ∀ fuel m ht lc pr,
  dseg (cview m) pr (cn ++ co) None → list_ok m ht lc → pInternalPointer ht = None → NoDup cn →
  (∀ q, q ∈ cn → q ∈ lc ∧ new_bucket_at top m q) → (∀ q, q ∈ co → old_bucket_at top m q) →
  (length (cn ++ co) < fuel)%nat →
  ∃ m' ht', restore_chain fuel top m ht (hd_or (cn ++ co) None) = OK (hd_or co None, m', ht') ∧
    list_ok m' ht' (filter (λ q, q ∉ cn) lc) ∧ same_slots ht ht' ∧
    (∀ x, core m' x = core m x) ∧ (∀ x, cview m' x = cview m x).
Proof.
  induction cn as [|q cn IH]; intros fuel m ht lc pr Hd Hl Hip Hnd Hnew Hold Hf.
  - exists m, ht. rewrite (filter_id _ lc) by set_solver. split_and!; [|done..]. cbn [app].
    destruct co as [|q co]; [by destruct fuel|]. destruct fuel as [|fuel]; [simpl in Hf; lia|].
    destruct (Hold q ltac:(set_solver)) as (k & Hc & Hq). destruct (heap_entry _ _ _ Hc) as (b & Hb & Hcore).
    cbn [hd_or restore_chain]. unfold deref. rewrite Hb. ob. unfold core_of, entry_core in Hcore. injection Hcore as _ _ _ ->.
    cbn [str_addr]. ob. by rewrite decide_False by lia.
  - destruct fuel as [|fuel]; [simpl in Hf; lia|]. destruct (Hnew q ltac:(set_solver)) as (Hq & k & Hc & Hqt).
    destruct (heap_entry _ _ _ Hc) as (b & Hb & Hcore). cbn [app hd_or restore_chain]. unfold deref at 1. rewrite Hb. ob.
    unfold core_of, entry_core in Hcore. injection Hcore as _ _ _ ->. cbn [str_addr]. ob. rewrite decide_True by done.
    apply list_elem_of_split in Hq as (l1 & l2 & ->).
    destruct (restore_unlink_ok m ht l1 q l2 Hl Hip) as (m1 & ht1 & -> & Hl1 & Hs1 & Hc1 & Hcv1). ob.
    pose proof (lo_nodup _ _ _ Hl) as Hndl. destruct Hd as [Hcq Hd]. apply NoDup_cons in Hnd as [Hqcn Hnd].
    assert (cview m1 q = Some (pr, hd_or (cn ++ co) None)) as Hcq1 by by rewrite Hcv1.
    unfold cview in Hcq1. unfold deref. destruct (heap m1 !! q) as [b1|]; [|done]. injection Hcq1 as _ Hn. ob. rewrite Hn.
    destruct (IH fuel m1 ht1 (l1 ++ l2) (Some q)) as (m2 & ht2 & Hrun & Hl2 & Hs2 & Hc2 & Hcv2); try done.
    + eapply dseg_ext; [|exact Hd]. intros; apply Hcv1.
    + by destruct Hs1 as (_ & _ & _ & ->).
    + intros x Hx. destruct (Hnew x ltac:(set_solver)) as (Hxl & k' & ? & ?). split; [set_solver|]. exists k'. by rewrite Hc1.
    + intros x Hx. destruct (Hold x Hx) as (k' & ? & ?). exists k'. by rewrite Hc1.
    + simpl in Hf. lia.
    + exists m2, ht2. split; [done|]. rewrite filter_notin_cons by done. split_and!; [done| | |].
      * destruct Hs1 as (A1 & A2 & A3 & A4), Hs2 as (B1 & B2 & B3 & B4). unfold same_slots. split_and!; congruence.
      * intros x. by rewrite Hc2.
      * intros x. by rewrite Hcv2.
Qed.

(** In a chain of [l1 ++ l2] the buckets of [l2] come first. *)
Lemma chain_split m l1 l2 c pr : newest_first m (l1 ++ l2) → NoDup (l1 ++ l2) → (∀ q, q ∈ c → q ∈ l1 ++ l2) →
  dseg (cview m) pr c None → ∃ cn co, c = cn ++ co ∧ (∀ q, q ∈ cn → q ∉ l1) ∧ (∀ q, q ∈ co → q ∈ l1).
Proof.
  intros Hnf Hnd. revert pr. induction c as [|x c IH]; intros pr Hc Hd; [by exists [], []; set_solver|].
  destruct Hd as [Hx Hd]. destruct (IH (Some x) ltac:(set_solver) Hd) as (cn & co & -> & Hcn & Hco).
  destruct (decide (x ∈ l1)) as [Hx1|Hx1]; [|exists (x :: cn), co; set_solver].
  destruct cn as [|y cn]; [exists [], (x :: co); set_solver|]. exfalso. simpl in Hx.
  destruct (Hnf x pr y ltac:(set_solver) Hx) as (la & lb & He & Hy).
  apply (Hcn y ltac:(set_solver)).
  apply list_elem_of_split in Hx1 as (u & v & ->). rewrite <- app_assoc in He. simpl in He.
  assert (la = u) as ->; [|set_solver].
  rewrite <- app_assoc in Hnd. simpl in Hnd.
  by eapply nodup_pivot.
Qed.

(** ** All slots *)

Section slots.
Context (top : ptr) (l1 l2 : list ptr) (m0 : mem ptr) (ht0 : HashTable).
Context (Hnd : NoDup (l1 ++ l2)) (Hs0 : slots_ok ht0).
Context (Hold : ∀ q, q ∈ l1 → old_bucket_at top m0 q) (Hnew : ∀ q, q ∈ l2 → new_bucket_at top m0 q).

(** The slot of a bucket. *)
Definition slot_of q : Z := match core m0 q with Some c => Z.land (c_h c) (nTableMask ht0) | None => 0 end.

Lemma slot_of_idx m q : (∀ x, core m x = core m0 x) → q ∈ l1 ++ l2 → idx m (nTableMask ht0) q = Some (slot_of q).
Proof using Hold Hnew.
  intros Hc Hq. unfold idx, slot_of. rewrite Hc.
  assert (∃ k, core m0 q = Some (entry_core q k)) as [k ->]; [|done].
  apply elem_of_app in Hq as [(k & ? & _)%Hold|(k & ? & _)%Hnew]; eauto.
Qed.

(** Before slot [i]: the chains below it hold the old buckets, the others all,
    and the list the old ones and those not reached yet. *)
Record restoring i m ht : Prop := {
  rg_core : ∀ x, core m x = core m0 x;
  rg_list : list_ok m ht (filter (λ q, q ∈ l1 ∨ i <= slot_of q) (l1 ++ l2));
  rg_size : nTableSize ht = nTableSize ht0;
  rg_mask : nTableMask ht = nTableMask ht0;
  rg_len : length (arBuckets ht) = length (arBuckets ht0);
  rg_ip : pInternalPointer ht = None;
  rg_done : ∀ j, 0 <= j < i → j <= nTableMask ht0 → chain_ok m (nTableMask ht0) (arBuckets ht) l1 j;
  rg_todo : ∀ j, i <= j <= nTableMask ht0 → chain_ok m (nTableMask ht0) (arBuckets ht) (l1 ++ l2) j;
  rg_newest : newest_first m (l1 ++ l2);
}.

Lemma restore_slot_ok i m ht : 0 <= i <= nTableMask ht0 → restoring i m ht →
  ∃ m' ht', restore_slot top i m ht = OK (m', ht') ∧ restoring (i + 1) m' ht'.
Proof using Hnd Hs0 Hold Hnew.
  intros Hi [R1 R2 R3 R4 R5 R6 R7 R8 R9]. unfold restore_slot.
  destruct (R8 i) as (c & Hslot & Hdc & Hndc & Hc); [lia|]. unfold slot. rewrite Hslot. ob.
  assert (∀ q, q ∈ c ↔ q ∈ l1 ++ l2 ∧ slot_of q = i) as Hc'.
  { intros q. rewrite Hc. split; intros [Hq Hqi]; (split; [done|]).
    - rewrite slot_of_idx in Hqi by done. congruence.
    - rewrite slot_of_idx by done. congruence. }
  destruct (chain_split m l1 l2 c None R9 Hnd) as (cn & co & -> & Hcn & Hco); [intros q Hq; by apply Hc'|done|].
  destruct (restore_chain_ok top cn co (fuel_of m) m ht _ None Hdc R2 R6) as (m1 & ht1 & -> & Hl1 & (S1 & S2 & S3 & S4) & Hcore1 & Hcv1).
  { by apply NoDup_app in Hndc as [? _]. }
  { intros q Hq. assert (q ∈ l1 ++ l2 ∧ slot_of q = i) as [Hql Hqi] by (apply Hc'; set_solver). split.
    - apply list_elem_of_filter. split; [right; lia|done].
    - destruct (Hnew q) as (k & ? & ?); [|exists k; by rewrite R1]. specialize (Hcn q Hq). set_solver. }
  { intros q Hq. destruct (Hold q (Hco q Hq)) as (k & ? & ?). exists k. by rewrite R1. }
  { unfold fuel_of. apply Nat.lt_succ_r, live_length; [done|]. intros q Hq. assert (q ∈ l1 ++ l2) as Hql by by apply Hc'.
    pose proof (slot_of_idx m q R1 Hql) as Hi'. unfold idx, core in Hi'. destruct (heap m !! q); [eauto|done]. }
  ob. assert (∀ x, hd_or co None = Some x → x ∈ co) as Hhd by (intros x; apply hd_or_elem).
  rewrite mstore_opt_live.
  2: { intros x Hx%Hhd%Hco%Hold. destruct Hx as (k & Hk & _). rewrite Hcore1, R1. eauto. }
  ob. set (m2 := malter_opt (hd_or co None) (set_pLast None) m1).
  assert (Z.to_nat i < length (arBuckets ht1))%nat as Hlt.
  { rewrite S3, R5. by apply (slots_range ht0 i Hs0). }
  unfold set_slot. rewrite decide_True by done. ob.
  set (ht2 := set_arBuckets (<[Z.to_nat i:=hd_or co None]> (arBuckets ht1)) ht1).
  assert (∀ x, core m2 x = core m0 x) as Hcore2 by (intros x; unfold m2; views; by rewrite Hcore1, R1).
  assert (∀ x, cview m2 x = set_prev (hd_or co None) None (cview m) x) as Hcv2.
  { intros x. unfold m2. views. unfold set_prev. by rewrite Hcv1. }
  assert (∀ x, slot_of x ≠ i → cview m2 x = cview m x) as Hcv2'.
  { intros x Hx. rewrite Hcv2. apply set_prev_ne. intros Hh%Hhd. apply Hx, (Hc' x). set_solver. }
  exists m2, ht2. split; [done|]. split.
  - done.
  - eapply (list_ok_ext m1 m2 ht1 ht2); [intros q _; unfold m2; by views|by split_and!|].
    rewrite list_filter_filter in Hl1. erewrite filter_ext_in; [exact Hl1|]. intros q Hq. simpl.
    assert (q ∈ cn ↔ (q ∉ l1) ∧ slot_of q = i) as Hqcn.
    { split; [intros Hqc; split; [by apply Hcn|]; apply (Hc' q); set_solver|]. intros [Hq1 Hqi].
      assert (q ∈ cn ++ co) as [|Hqo]%elem_of_app by (by apply Hc'); [done|]. by apply Hco in Hqo. }
    rewrite Hqcn. destruct (decide (q ∈ l1)); [tauto|]. split; [intros [?|?]; [done|]|]; [|intros [? [?|?]]; [done|]; right].
    + split; [|right]; lia.
    + assert (slot_of q ≠ i) by tauto. lia.
  - simpl. congruence.
  - simpl. congruence.
  - simpl. rewrite length_insert. congruence.
  - simpl. congruence.
  - intros j Hj Hjm. change (arBuckets ht2) with (<[Z.to_nat i:=hd_or co None]> (arBuckets ht1)). destruct (decide (j = i)) as [->|Hji].
    + exists co. split_and!.
      * by apply list_lookup_insert_eq.
      * unfold dll in *. apply dseg_app in Hdc as [_ Hdc]. apply NoDup_app in Hndc as (_ & _ & Hndc).
        eapply dseg_ext; [|eapply (dseg_set_prev _ _ None); [exact Hndc|exact Hdc]]. intros; apply Hcv2.
      * by apply NoDup_app in Hndc as (_ & _ & ?).
      * intros q. split.
        -- intros Hq. split; [auto|]. rewrite slot_of_idx; [|done|set_solver]. f_equal. apply (Hc' q). set_solver.
        -- intros [Hq Hqi]. rewrite slot_of_idx in Hqi; [|done|set_solver]. injection Hqi as Hqi.
           assert (q ∈ cn ++ co) as [Hqc|]%elem_of_app by (apply Hc'; set_solver); [|done]. by apply Hcn in Hqc.
    + destruct (R7 j) as (cj & Hsj & Hdj & Hndj & Hcj); [lia|done|]. exists cj. split_and!; [|  |done|].
      * rewrite list_lookup_insert_ne by lia. by rewrite S3.
      * eapply dseg_ext; [|exact Hdj]. intros q [Hq Hqi]%Hcj. apply Hcv2'. rewrite slot_of_idx in Hqi; [|done|set_solver]. congruence.
      * intros q. rewrite Hcj. split; intros [Hq Hqi]; (split; [done|]); rewrite slot_of_idx in *; done || set_solver.
  - intros j Hj. change (arBuckets ht2) with (<[Z.to_nat i:=hd_or co None]> (arBuckets ht1)).
    destruct (R8 j) as (cj & Hsj & Hdj & Hndj & Hcj); [lia|]. exists cj. split_and!; [| |done|].
    + rewrite list_lookup_insert_ne by lia. by rewrite S3.
    + eapply dseg_ext; [|exact Hdj]. intros q [Hq Hqi]%Hcj. apply Hcv2'. rewrite slot_of_idx in Hqi by done. injection Hqi. lia.
    + intros q. rewrite Hcj. split; intros [Hq Hqi]; (split; [done|]); rewrite slot_of_idx in *; done.
  - intros p pr nx Hp Hcv. rewrite Hcv2 in Hcv. unfold set_prev in Hcv.
    assert (∃ pr', cview m p = Some (pr', Some nx)) as [pr' Hcv'].
    { case_decide; [|eauto]. destruct (cview m p) as [[a b]|]; [|done]. injection Hcv as _ ->. eauto. }
    by eapply R9.
Qed.

Lemma restore_slots_ok n : ∀ i m ht, 0 <= i → i + Z.of_nat n = nTableMask ht0 + 1 → restoring i m ht →
  ∃ m' ht', restore_slots n top i m ht = OK (m', ht') ∧ restoring (nTableMask ht0 + 1) m' ht'.
Proof using Hnd Hs0 Hold Hnew.
  induction n as [|n IH]; intros i m ht Hi Hn HR.
  - exists m, ht. split; [done|]. by replace (nTableMask ht0 + 1) with i by lia.
  - cbn [restore_slots]. destruct (restore_slot_ok i m ht) as (m1 & ht1 & -> & HR1); [lia|done|]. ob.
    apply IH; [lia|lia|done].
Qed.
End slots.

(** [zend_interned_strings_restore]: the strings of the snapshot are there, the
    others are not. *)
Lemma restore_ok m s d d1 d2 : interned_ok m s d → snapshot_ok s d1 d2 d →
  ∃ m' s', zend_interned_strings_restore_int m s = OK (m', s') ∧ interned_ok m' s' d1 ∧
    in_start s' = in_start s ∧ in_top s' = in_snapshot s ∧ in_snapshot s' = in_snapshot s ∧ in_end s' = in_end s.
Proof.
  intros [O1 O2 O3 O4 O5 O6 O7 O8] [-> Ha1]. unfold zend_interned_strings_restore_int. cbn [in_table set_in_top in_top].
  set (top := in_snapshot s) in *. set (ht := in_table s) in *.
  apply arena_app in O5 as (b & Hb1 & Hb2).
  assert (b = top) as ->. { clear -Hb1 Ha1. revert Hb1 Ha1. generalize (in_start s). induction d1 as [|[p k] d1 IH]; simpl; intros a; [by intros -> ->|]. intros [_ ?] [_ ?]. by eapply IH. }
  pose proof O2 as (x & Hx & Hsz & Hmask & Hlen). rewrite fmap_app in *.
  pose proof (lo_nodup _ _ _ (lk_list _ _ _ O1)) as Hnd.
  assert (∀ q, q ∈ d1.*1 → old_bucket_at top m q) as Hold.
  { intros q [k Hq]%elem_addrs. exists k. split; [apply O4; set_solver|]. destruct (arena_range _ _ _ _ _ Hb1 Hq) as [_ ?].
    pose proof (entry_size_ge (len k) ltac:(lia)). unfold SIZEOF_BUCKET in *. lia. }
  assert (∀ q, q ∈ d2.*1 → new_bucket_at top m q) as Hnew.
  { intros q [k Hq]%elem_addrs. exists k. split; [apply O4; set_solver|]. destruct (arena_range _ _ _ _ _ Hb2 Hq). unfold SIZEOF_BUCKET. lia. }
  assert (∀ q, 0 <= slot_of m ht q <= nTableMask ht) as Hslot.
  { intros q. unfold slot_of. destruct (core m q); [by apply slots_mask|]. split; [done|].
    rewrite Hmask. assert (0 < 2 ^ x) by (apply Z.pow_pos_nonneg; lia). lia. }
  destruct (restore_slots_ok top (d1.*1) (d2.*1) m ht Hnd O2 Hold Hnew (Z.to_nat (nTableSize ht)) 0 m ht) as (m' & ht' & -> & HR).
  { done. }
  { rewrite Hsz, Hmask. assert (0 < 2 ^ x) by (apply Z.pow_pos_nonneg; lia). lia. }
  { split; try done.
    - rewrite filter_id; [apply O1|]. intros q _. right. apply Hslot.
    - intros j Hj. lia.
    - intros j Hj. by apply O1. }
  ob. eexists _, _. split; [done|]. destruct HR as [R1 R2 R3 R4 R5 R6 R7 _ R9].
  assert (filter (λ q, q ∈ d1.*1 ∨ nTableMask ht + 1 <= slot_of m ht q) (d1.*1 ++ d2.*1) = d1.*1) as Hf.
  { rewrite filter_app, filter_id, filter_none, app_nil_r; [done| |intros; by left].
    intros q Hq [Hq1|Hq1]; [|specialize (Hslot q); lia]. apply NoDup_app in Hnd as (_ & Hd & _). by apply (Hd q). }
  rewrite Hf in R2. split; [|done]. split; cbn [set_in_table set_in_top in_table in_start in_top in_end]; try done.
  - split; [done| |].
    + apply slots_table. exists x. rewrite R3, R4, R5. done.
    + rewrite R4. intros j Hj. apply R7; lia.
  - exists x. rewrite R3, R4, R5. done.
  - intros p k Hp. rewrite R1. apply O4. set_solver.
  - intros p pr nx Hp Hcv. destruct (R9 p pr nx ltac:(set_solver) Hcv) as (la & lb & He & Hn).
    apply list_elem_of_split in Hp as (u & v & Hu). rewrite Hu in *. exists u, v. split; [done|].
    rewrite <- app_assoc in He, Hnd. simpl in He, Hnd. by rewrite <- (nodup_pivot _ _ _ _ _ Hnd He).
  - rewrite fmap_app in O7. by apply NoDup_app in O7 as [? _].
Qed.

Lemma snapshot_ok_now m s d : interned_ok m s d →
  interned_ok m (zend_interned_strings_snapshot_int s) d ∧ snapshot_ok (zend_interned_strings_snapshot_int s) d [] d.
Proof. intros [O1 O2 O3 O4 O5 O6 O7 O8]. split; [by split|]. split; [by rewrite app_nil_r|done]. Qed.

(** ** Runs *)

(** Interning any string, by any caller. *)
Inductive interned_step : mem ptr * interned → mem ptr * interned → Prop :=
  | step_intern m s w k free_src r freed m' s' :
      zend_new_interned_string_int (ZStr w k) (len k) free_src m s = OK (r, freed, m', s') → interned_step (m, s) (m', s').

Lemma interned_step_ok m s m' s' d : interned_step (m, s) (m', s') → interned_ok m s d →
  ∃ d2, interned_ok m' s' (d ++ d2) ∧ in_start s' = in_start s ∧ in_snapshot s' = in_snapshot s ∧ in_end s' = in_end s.
Proof.
  intros Hst Hok. inversion Hst as [? ? w k free_src r freed ? ? Hrun]; subst.
  destruct (intern_ok m s d k w free_src Hok) as [H1 H2].
  assert (∀ x, zend_new_interned_string_int (ZStr w k) (len k) free_src m s = OK (x, m, s) → m' = m ∧ s' = s) as Hsame.
  { intros x Hx. rewrite Hrun in Hx. by injection Hx as _ -> ->. }
  assert (m' = m ∧ s' = s → ∃ d2, interned_ok m' s' (d ++ d2) ∧ in_start s' = in_start s ∧ in_snapshot s' = in_snapshot s ∧ in_end s' = in_end s) as Hnone.
  { intros [-> ->]. exists []. by rewrite app_nil_r. }
  destruct (IS_INTERNED (Some (ZStr w k))); [by eapply Hnone, Hsame, H1|]. destruct (H2 eq_refl) as (H3 & H4 & H5).
  destruct (decide (k ∈ d.*2)) as [[p Hp]%elem_keys|Hk]; [by eapply Hnone, Hsame, H3|].
  destruct (decide (in_end s ≤ in_top s + entry_size (len k))%positive); [by eapply Hnone, Hsame, H4|].
  destruct (H5 Hk ltac:(lia)) as (m1 & s1 & Hrun' & Hok' & ? & ? & ?). rewrite Hrun in Hrun'. injection Hrun' as _ _ -> ->. eauto.
Qed.

Lemma interned_steps_ok x y d : rtc interned_step x y → interned_ok x.1 x.2 d →
  ∃ d2, interned_ok y.1 y.2 (d ++ d2) ∧ in_start y.2 = in_start x.2 ∧ in_snapshot y.2 = in_snapshot x.2 ∧ in_end y.2 = in_end x.2.
Proof.
  intros Hr. revert d. induction Hr as [x|[m s] [m1 s1] z Hst _ IH]; intros d Hok; [exists []; by rewrite app_nil_r|].
  destruct (interned_step_ok m s m1 s1 d Hst Hok) as (d2 & Hok1 & E1 & E2 & E3).
  destruct (IH _ Hok1) as (d3 & Hok2 & F1 & F2 & F3). exists (d2 ++ d3). rewrite app_assoc. simpl in *. split_and!; [done|congruence..].
Qed.

(** ** The start *)

Lemma empty_ok start : let ht := set_nTable 8 7 (replicate 8 None) (zend_hash_init 0 false true) in
  interned_ok (mkMem ∅ []) {| in_table := ht; in_start := start; in_top := start; in_snapshot := start; in_end := (start + 2 ^ 20)%positive |} [].
Proof.
  intros ht. assert (slots_ok ht) as Hs by (by exists 3). split; cbn [in_table in_start in_top in_end].
  - split; [by split; try done; constructor|by apply slots_table|]. intros i Hi. apply chains_nil. simpl in Hi. lia.
  - done.
  - done.
  - intros p k Hp. by apply elem_of_nil in Hp.
  - done.
  - intros p pr nx Hp. by apply elem_of_nil in Hp.
  - constructor.
  - lia.
Qed.

Lemma interned_init_ok start empty : ∃ m s, zend_interned_strings_init start empty = OK (ZStr (Interned start) [0], m, s) ∧
  interned_ok m s [(start, [0])] ∧ in_start s = start.
Proof.
  unfold zend_interned_strings_init.
  change (set_nTable _ _ _ _) with (set_nTable 8 7 (replicate 8 None) (zend_hash_init 0 false true)).
  pose proof (empty_ok start) as Hok. cbn zeta in Hok. set (s0 := {| in_table := _ |}) in *.
  destruct (intern_new (mkMem ∅ []) s0 [] [0] (Foreign empty) false Hok) as (m' & s' & Hrun & Hok' & Hst & _ & _).
  - set_solver.
  - change (entry_size (len [0])) with 80%positive. simpl. lia.
  - done.
  - change (len [0]) with 1 in Hrun. rewrite Hrun. ob. eauto.
Qed.
End restore.
