(* ===== verification/InternedProps.v ===== *)
(** The properties of the interned strings. *)

From stdpp Require Import relations.
From S2P Require Import Prelude Dll ZendHash ZendHashInv ZendHashOps ZendInterned ZendInternedSpec.

Section props.
Context `{PEMalloc} `{Recoverable}.
Implicit Types (m : mem ptr) (s : interned) (d : list (ptr * list Z)) (k : list Z).

(** C24: [zend_new_interned_string_int] gives equal strings one address: a
    string that is interned already is returned as it is; one whose bytes are
    there is replaced by the one there (and freed if asked); one that is new is
    copied to the top of the arena and entered, under whatever outcome of the
    table's growth, unless the arena is full, when it is returned as it is and
    not freed.  The arena of [zend_interned_strings_init] holds the empty
    string. *)
Theorem interned_strings_unique :
  (∀ start empty, ∃ m s, zend_interned_strings_init start empty = OK (ZStr (Interned start) [0], m, s) ∧
     interned_ok m s [(start, [0])] ∧ in_start s = start) ∧
  ∀ m s d k w free_src, interned_ok m s d →
    let run := zend_new_interned_string_int (ZStr w k) (len k) free_src m s in
    (IS_INTERNED (Some (ZStr w k)) = true → run = OK (ZStr w k, false, m, s)) ∧
    (IS_INTERNED (Some (ZStr w k)) = false →
      (∀ p, (p, k) ∈ d → run = OK (ZStr (Interned p) k, free_src, m, s)) ∧
      (k ∉ d.*2 → (in_end s ≤ in_top s + entry_size (len k))%positive → run = OK (ZStr w k, false, m, s)) ∧
      (k ∉ d.*2 → (in_top s + entry_size (len k) < in_end s)%positive →
        ∃ m' s', run = OK (ZStr (Interned (in_top s)) k, free_src, m', s') ∧
          interned_ok m' s' (d ++ [(in_top s, k)]) ∧ in_start s' = in_start s ∧ in_snapshot s' = in_snapshot s ∧ in_end s' = in_end s)).
Proof. split; [intros; apply interned_init_ok|intros m s d k w free_src; apply intern_ok]. Qed.

(** C25: [zend_interned_strings_restore] undoes everything since the snapshot:
    after any number of strings interned, with any growth of the table, the
    strings are those of the snapshot, at their addresses, the arena is as full
    as it was, and the table with its chains and its list is consistent. *)
Theorem interned_snapshot_restore m s d m1 s1 : interned_ok m s d →
  rtc interned_step (m, zend_interned_strings_snapshot_int s) (m1, s1) →
  ∃ m2 s2, zend_interned_strings_restore_int m1 s1 = OK (m2, s2) ∧ interned_ok m2 s2 d ∧
    in_start s2 = in_start s ∧ in_top s2 = in_top s ∧ in_end s2 = in_end s.
Proof.
  intros Hok Hrun. destruct (snapshot_ok_now m s d Hok) as [Hok0 [_ Hsnap]].
  destruct (interned_steps_ok _ _ d Hrun Hok0) as (d2 & Hok1 & E1 & E2 & E3). simpl in *.
  destruct (restore_ok m1 s1 (d ++ d2) d d2 Hok1) as (m2 & s2 & Hr & Hok2 & F1 & F2 & F3 & F4).
  { split; [done|]. rewrite E1, E2. exact Hsnap. }
  exists m2, s2. split_and!; [done|done|congruence|congruence|congruence].
Qed.
End props.

(** * Witnesses *)

#[local] Existing Instance bump_malloc.
#[local] Instance always : Recoverable := {| recoverable _ := true |}.

Lemma interned_strings_unique_witness : ∃ m s m1 s1, interned_ok m s [(1000%positive, [0])] ∧
  zend_new_interned_string_int (ZStr (Foreign 7%positive) [65; 0]) 2 true m s = OK (ZStr (Interned (in_top s)) [65; 0], true, m1, s1) ∧
  zend_new_interned_string_int (ZStr (Foreign 9%positive) [65; 0]) 2 false m1 s1 = OK (ZStr (Interned (in_top s)) [65; 0], false, m1, s1).
Proof.
  destruct interned_strings_unique as [Hinit Hintern]. destruct (Hinit 1000%positive 5%positive) as (m & s & Hi & Hok & Hst).
  assert ((in_top s + entry_size (len ([65; 0] : list Z)%Z) < in_end s)%positive) as Hroom.
  { vm_compute in Hi. injection Hi as _ <-. by vm_compute. }
  destruct (proj2 (Hintern m s _ [65; 0] (Foreign 7%positive) true Hok) eq_refl) as (_ & _ & Hnew).
  destruct (Hnew ltac:(set_solver) Hroom) as (m1 & s1 & Hrun & Hok1 & _).
  destruct (proj2 (Hintern m1 s1 _ [65; 0] (Foreign 9%positive) false Hok1) eq_refl) as (Hold & _).
  exists m, s, m1, s1. split; [exact Hok|]. split; [exact Hrun|]. apply Hold. set_solver.
Defined.

Lemma interned_snapshot_restore_witness : ∃ m s m1 s1 m2 s2,
  rtc interned_step (m, zend_interned_strings_snapshot_int s) (m1, s1) ∧ s1 ≠ zend_interned_strings_snapshot_int s ∧
  zend_interned_strings_restore_int m1 s1 = OK (m2, s2) ∧ interned_ok m2 s2 [(1000%positive, [0])].
Proof.
  destruct (interned_init_ok 1000%positive 5%positive) as (m & s & Hi & Hok & _).
  destruct (zend_new_interned_string_int (ZStr (Foreign 7%positive) [65; 0]) (len [65; 0]) true m (zend_interned_strings_snapshot_int s))
    as [[[[r f] m1] s1]| |] eqn:Hrun.
  2-3: vm_compute in Hi; injection Hi as <- <-; vm_compute in Hrun; discriminate Hrun.
  assert (rtc interned_step (m, zend_interned_strings_snapshot_int s) (m1, s1)) as Hst by (eapply rtc_once, step_intern, Hrun).
  destruct (interned_snapshot_restore m s [(1000%positive, [0])] m1 s1 Hok Hst) as (m2 & s2 & Hres & Hok2 & _).
  exists m, s, m1, s1, m2, s2. split; [exact Hst|]. split; [|split; [exact Hres|exact Hok2]].
  vm_compute in Hi. injection Hi as <- <-. vm_compute in Hrun. injection Hrun as _ _ _ <-. by vm_compute.
Defined.
