(* ===== verification/ZendLlist.v ===== *)
(** The linked lists of Zend/zend_llist.c: elements with [prev] and [next] on
    the shared heap, the list header, every operation, and the proof that they
    implement finite sequences. *)

From S2P Require Import Prelude Dll.

Section data.
Context {V : Type}.

(** [data] holds the [l->size] bytes of an element. *)
Record zend_llist_element := mkElem { el_next : nptr; el_prev : nptr; el_data : V }.

Definition set_enext n e := mkElem n (el_prev e) (el_data e).
Definition set_eprev p e := mkElem (el_next e) p (el_data e).

(** The heap and the values [l->dtor] was called with. *)
Record lmem := mkLmem { eheap : gmap ptr zend_llist_element; elog : list V }.

Record zend_llist := mkLlist {
  ll_head : nptr;
  ll_tail : nptr;
  ll_count : Z;
  ll_size : Z;
  ll_dtor : bool;
  ll_persistent : bool;
  traverse_ptr : nptr;
}.

Definition set_head p l := mkLlist p (ll_tail l) (ll_count l) (ll_size l) (ll_dtor l) (ll_persistent l) (traverse_ptr l).
Definition set_tail p l := mkLlist (ll_head l) p (ll_count l) (ll_size l) (ll_dtor l) (ll_persistent l) (traverse_ptr l).
Definition set_count n l := mkLlist (ll_head l) (ll_tail l) n (ll_size l) (ll_dtor l) (ll_persistent l) (traverse_ptr l).
Definition set_traverse p l := mkLlist (ll_head l) (ll_tail l) (ll_count l) (ll_size l) (ll_dtor l) (ll_persistent l) p.

Definition estore (m : lmem) (p : ptr) (f : zend_llist_element → zend_llist_element) : outcome lmem :=
  let* h := store (eheap m) p f in OK (mkLmem h (elog m)).
Definition efree (m : lmem) (p : ptr) : outcome lmem :=
  match eheap m !! p with Some _ => OK (mkLmem (delete p (eheap m)) (elog m)) | None => UB end.
Definition ederef (m : lmem) (p : ptr) : outcome zend_llist_element := rd (eheap m !! p).
Definition edtor (l : zend_llist) (v : V) (m : lmem) : lmem :=
  if ll_dtor l then mkLmem (eheap m) (elog m ++ [v]) else m.
End data.
Arguments zend_llist_element : clear implicits.
Arguments lmem : clear implicits.

Section ops.
Context {V : Type} `{PEMalloc}.
Implicit Types (m : lmem V) (l : zend_llist) (p q : ptr) (v : V).

(** The traverse pointer is not initialised. *)
Definition zend_llist_init l (sz : Z) (dtor persistent : bool) : zend_llist :=
  mkLlist None None 0 sz dtor persistent (traverse_ptr l).

(** [pemalloc] and the writes to the fields of the new element. *)
Definition new_element m (n p : nptr) v : lmem V * ptr :=
  let tmp := pemalloc (dom (eheap m)) in
  (mkLmem (<[tmp := mkElem n p v]> (eheap m)) (elog m), tmp).

Definition zend_llist_add_element m l v : outcome (lmem V * zend_llist) :=
  let (m, tmp) := new_element m None (ll_tail l) v in
  let* (m, l) :=
    match ll_tail l with
    | Some t => let* m := estore m t (set_enext (Some tmp)) in OK (m, l)
    | None => OK (m, set_head (Some tmp) l)
    end in
  let l := set_tail (Some tmp) l in
  OK (m, set_count (ulong_wrap (ll_count l + 1)) l).

Definition zend_llist_prepend_element m l v : outcome (lmem V * zend_llist) :=
  let (m, tmp) := new_element m (ll_head l) None v in
  let* (m, l) :=
    match ll_head l with
    | Some t => let* m := estore m t (set_eprev (Some tmp)) in OK (m, l)
    | None => OK (m, set_tail (Some tmp) l)
    end in
  let l := set_head (Some tmp) l in
  OK (m, set_count (ulong_wrap (ll_count l + 1)) l).

Definition DEL_LLIST_ELEMENT m l (current : ptr) : outcome (lmem V * zend_llist) :=
  let* e := ederef m current in
  let* (m, l) :=
    match el_prev e with
    | Some p => let* m := estore m p (set_enext (el_next e)) in OK (m, l)
    | None => OK (m, set_head (el_next e) l)
    end in
  let* e := ederef m current in
  let* (m, l) :=
    match el_next e with
    | Some n => let* m := estore m n (set_eprev (el_prev e)) in OK (m, l)
    | None => OK (m, set_tail (el_prev e) l)
    end in
  let* e := ederef m current in
  let m := edtor l (el_data e) m in
  let* m := efree m current in
  OK (m, set_count (ulong_wrap (ll_count l - 1)) l).

Definition lfuel m : nat := S (size (eheap m)).

Fixpoint del_loop (fuel : nat) m l (compare : V → bool) (current : nptr) : outcome (lmem V * zend_llist) :=
  match current with
  | None => OK (m, l)
  | Some c =>
      match fuel with
      | O => UB
      | S fuel =>
          let* e := ederef m c in
          if compare (el_data e) then DEL_LLIST_ELEMENT m l c
          else del_loop fuel m l compare (el_next e)
      end
  end.

(** [compare(current->data, element)], with the element passed along. *)
Definition zend_llist_del_element {E} m l (element : E) (compare : V → E → bool)
    : outcome (lmem V * zend_llist) :=
  del_loop (lfuel m) m l (λ v, compare v element) (ll_head l).

Fixpoint ldestroy_loop (fuel : nat) m l (current : nptr) : outcome (lmem V) :=
  match current with
  | None => OK m
  | Some c =>
      match fuel with
      | O => UB
      | S fuel =>
          let* e := ederef m c in
          let m := edtor l (el_data e) m in
          let* m := efree m c in
          ldestroy_loop fuel m l (el_next e)
      end
  end.

(** [head] and [tail] keep their values. *)
Definition zend_llist_destroy m l : outcome (lmem V * zend_llist) :=
  let* m := ldestroy_loop (lfuel m) m l (ll_head l) in OK (m, set_count 0 l).

Definition zend_llist_clean m l : outcome (lmem V * zend_llist) :=
  let* (m, l) := zend_llist_destroy m l in OK (m, set_head None (set_tail None l)).

(** The result is the address of the element whose data the caller gets. *)
Definition zend_llist_remove_tail m l : outcome (nptr * lmem V * zend_llist) :=
  match ll_tail l with
  | Some old_tail =>
      let* e := ederef m old_tail in
      let* (m, l) :=
        match el_prev e with
        | Some p => let* m := estore m p (set_enext None) in OK (m, l)
        | None => OK (m, set_head None l)
        end in
      let* e := ederef m old_tail in
      let l := set_tail (el_prev e) l in
      let m := edtor l (el_data e) m in
      let* m := efree m old_tail in
      OK (Some old_tail, m, set_count (ulong_wrap (ll_count l - 1)) l)
  | None => OK (None, m, l)
  end.

Fixpoint lcopy_loop (fuel : nat) m (dst : zend_llist) (p : nptr) : outcome (lmem V * zend_llist) :=
  match p with
  | None => OK (m, dst)
  | Some q =>
      match fuel with
      | O => UB
      | S fuel =>
          let* e := ederef m q in
          let* (m, dst) := zend_llist_add_element m dst (el_data e) in
          let* e := ederef m q in
          lcopy_loop fuel m dst (el_next e)
      end
  end.

Definition zend_llist_copy m (dst src : zend_llist) : outcome (lmem V * zend_llist) :=
  lcopy_loop (lfuel m) m (zend_llist_init dst (ll_size src) (ll_dtor src) (ll_persistent src)) (ll_head src).

(** The callback reads and changes a state of its own. *)
Fixpoint apply_del_loop {S : Type} (fuel : nat) m l (func : V → S → bool * S) (s : S) (element : nptr)
    : outcome (lmem V * zend_llist * S) :=
  match element with
  | None => OK (m, l, s)
  | Some c =>
      match fuel with
      | O => UB
      | Datatypes.S fuel =>
          let* e := ederef m c in
          let nxt := el_next e in
          let (del, s) := func (el_data e) s in
          let* (m, l) := if del : bool then DEL_LLIST_ELEMENT m l c else OK (m, l) in
          apply_del_loop fuel m l func s nxt
      end
  end.

Definition zend_llist_apply_with_del {S : Type} m l (func : V → S → bool * S) (s : S)
    : outcome (lmem V * zend_llist * S) :=
  apply_del_loop (lfuel m) m l func s (ll_head l).

Fixpoint lapply_loop {S : Type} (fuel : nat) m (func : V → S → S) (s : S) (element : nptr) : outcome S :=
  match element with
  | None => OK s
  | Some c =>
      match fuel with
      | O => UB
      | Datatypes.S fuel =>
          let* e := ederef m c in lapply_loop fuel m func (func (el_data e) s) (el_next e)
      end
  end.

Definition zend_llist_apply {S : Type} m l (func : V → S → S) (s : S) : outcome S :=
  lapply_loop (lfuel m) m func s (ll_head l).
Definition zend_llist_apply_with_argument {S A : Type} m l (func : V → A → S → S) (arg : A) (s : S) : outcome S :=
  lapply_loop (lfuel m) m (λ v, func v arg) s (ll_head l).
Definition zend_llist_apply_with_arguments {S A : Type} m l (func : V → list A → S → S) (args : list A) (s : S) : outcome S :=
  lapply_loop (lfuel m) m (λ v, func v args) s (ll_head l).

Fixpoint lcollect_loop (fuel : nat) m (p : nptr) : outcome (list (ptr * zend_llist_element V)) :=
  match p with
  | None => OK []
  | Some q =>
      match fuel with
      | O => UB
      | S fuel =>
          let* e := ederef m q in
          let* rest := lcollect_loop fuel m (el_next e) in OK ((q, e) :: rest)
      end
  end.

(** [elements[i]->prev = elements[i-1]; elements[i-1]->next = elements[i];] *)
Fixpoint lrelink_loop m (before : ptr) (elements : list ptr) : outcome (lmem V) :=
  match elements with
  | [] => estore m before (set_enext None)
  | p :: rest =>
      let* m := estore m p (set_eprev (Some before)) in
      let* m := estore m before (set_enext (Some p)) in
      lrelink_loop m p rest
  end.

Definition zend_llist_sort `{SortFunc} m l (comp_func : zend_llist_element V → zend_llist_element V → Z)
    : outcome (lmem V * zend_llist) :=
  if ll_count l <=? 0 then OK (m, l)
  else
    let* elements := lcollect_loop (lfuel m) m (ll_head l) in
    let elements := (sort_func (λ a b, comp_func a.2 b.2) elements).*1 in
    match elements with
    | [] => UB
    | e0 :: rest =>
        let l := set_head (Some e0) l in
        let* m := estore m e0 (set_eprev None) in
        let* m := lrelink_loop m e0 rest in
        OK (m, set_tail (last_or (Some e0) rest) l)
    end.

(** [int]: the low 32 bits of the [size_t]. *)
Definition zend_llist_count l : Z := let c := uint_wrap (ll_count l) in if c <? 2 ^ 31 then c else c - 2 ^ 32.

(** ** Traversal: [pos] is [None] for the traverse pointer of the list. *)

Definition lcurrent l (pos : option nptr) : nptr := match pos with Some c => c | None => traverse_ptr l end.
Definition set_lcurrent l (pos : option nptr) (c : nptr) : option nptr * zend_llist :=
  match pos with Some _ => (Some c, l) | None => (None, set_traverse c l) end.
Definition ldata m (c : nptr) : outcome (option V) :=
  match c with Some p => let* e := ederef m p in OK (Some (el_data e)) | None => OK None end.

Abbreviation lget := (outcome (option V * option nptr * zend_llist)).

Definition zend_llist_get_first_ex m l (pos : option nptr) : lget :=
  let (pos, l) := set_lcurrent l pos (ll_head l) in
  let* r := ldata m (lcurrent l pos) in OK (r, pos, l).
Definition zend_llist_get_last_ex m l (pos : option nptr) : lget :=
  let (pos, l) := set_lcurrent l pos (ll_tail l) in
  let* r := ldata m (lcurrent l pos) in OK (r, pos, l).
Definition zend_llist_get_next_ex m l (pos : option nptr) : lget :=
  match lcurrent l pos with
  | Some c =>
      let* e := ederef m c in
      let (pos, l) := set_lcurrent l pos (el_next e) in
      let* r := ldata m (lcurrent l pos) in OK (r, pos, l)
  | None => OK (None, pos, l)
  end.
Definition zend_llist_get_prev_ex m l (pos : option nptr) : lget :=
  match lcurrent l pos with
  | Some c =>
      let* e := ederef m c in
      let (pos, l) := set_lcurrent l pos (el_prev e) in
      let* r := ldata m (lcurrent l pos) in OK (r, pos, l)
  | None => OK (None, pos, l)
  end.

End ops.
