(* ===== verification/ZendLlistSpec.v ===== *)
(** The lists of Zend/zend_llist.c implement finite sequences of values. *)

From S2P Require Import Prelude Dll ZendLlist.

Section views.
Context {V : Type}.
Implicit Types (m : lmem V) (l : zend_llist) (p q : ptr) (xs : list ptr) (vs : list V).

Definition eview m : view := λ p, (λ e, (el_prev e, el_next e)) <$> eheap m !! p.
Definition evalue m p : option V := el_data <$> eheap m !! p.

Definition ealter (f : zend_llist_element V → zend_llist_element V) p m : lmem V :=
  mkLmem (alter f p (eheap m)) (elog m).
Definition ealter_opt (o : nptr) f m : lmem V := match o with Some p => ealter f p m | None => m end.

Lemma estore_live m p f : is_Some (evalue m p) → estore m p f = OK (ealter f p m).
Proof. intros Hp. unfold estore. by rewrite store_alter by (by apply fmap_is_Some in Hp). Qed.

Lemma eview_live m p x : eview m p = Some x → is_Some (evalue m p).
Proof. unfold eview, evalue. destruct (eheap m !! p); naive_solver. Qed.

Lemma evalue_alter m p f q : (∀ e, el_data (f e) = el_data e) → evalue (ealter f p m) q = evalue m q.
Proof.
  intros Hf. unfold evalue, ealter. simpl. rewrite lookup_alter. case_decide; [|done].
  subst. destruct (eheap m !! q); simpl; by rewrite ?Hf.
Qed.
Lemma evalue_opt o m f q : (∀ e, el_data (f e) = el_data e) → evalue (ealter_opt o f m) q = evalue m q.
Proof. destruct o; [apply evalue_alter|done]. Qed.
Lemma eview_next o m n q : eview (ealter_opt o (set_enext n) m) q = set_next o n (eview m) q.
Proof.
  unfold eview, ealter_opt, ealter, set_next. destruct o as [p|]; [|by case_decide]. simpl.
  rewrite lookup_alter. do 2 case_decide; simplify_eq; try done. by destruct (eheap m !! q).
Qed.
Lemma eview_prev o m n q : eview (ealter_opt o (set_eprev n) m) q = set_prev o n (eview m) q.
Proof.
  unfold eview, ealter_opt, ealter, set_prev. destruct o as [p|]; [|by case_decide]. simpl.
  rewrite lookup_alter. do 2 case_decide; simplify_eq; try done. by destruct (eheap m !! q).
Qed.
Lemma elog_opt o f m : elog (ealter_opt o f m) = elog m.
Proof. by destruct o. Qed.
Lemma heap_opt o f m q : o ≠ Some q → eheap (ealter_opt o f m) !! q = eheap m !! q.
Proof. destruct o; [|done]. intros Hne. simpl. rewrite lookup_alter_ne; congruence. Qed.

(** The branch on a link that may be [NULL]. *)
Lemma estore_else (o : nptr) m f (l1 l2 : zend_llist) :
  (∀ x, o = Some x → is_Some (evalue m x)) →
  match o with
  | Some q => let* m := estore m q f in OK (m, l1)
  | None => OK (m, l2)
  end = OK (ealter_opt o f m, match o with Some _ => l1 | None => l2 end).
Proof. destruct o; simpl; [|done]. intros Ho. by rewrite estore_live by auto. Qed.

Lemma ederef_view m p v pn : evalue m p = Some v → eview m p = Some pn → ederef m p = OK (mkElem pn.2 pn.1 v).
Proof.
  unfold evalue, eview, ederef. destruct (eheap m !! p) as [[]|]; simpl; [|done].
  intros [= <-] [= <-]. done.
Qed.

Lemma live_pair m p : is_Some (evalue m p) → ∃ a b, eview m p = Some (a, b).
Proof. unfold evalue, eview. destruct (eheap m !! p); simpl; [eauto|by intros []]. Qed.

(** [l] is the list of the elements [xs] with the values [vs]. *)
Record LRep m l xs vs : Prop := {
  lr_dll : dll (eview m) xs;
  lr_nodup : NoDup xs;
  lr_vals : Forall2 (λ p v, evalue m p = Some v) xs vs;
  lr_head : ll_head l = hd_or xs None;
  lr_tail : ll_tail l = last_or None xs;
  lr_count : ll_count l = Z.of_nat (length xs);
  lr_max : Z.of_nat (length xs) < 2 ^ 64;
}.

Lemma lr_live m l xs vs p : LRep m l xs vs → p ∈ xs → is_Some (evalue m p).
Proof. intros HR Hp. destruct (dseg_live _ _ _ _ p (lr_dll _ _ _ _ HR) Hp) as [x Hx]. by eapply eview_live. Qed.

Lemma lr_fuel m l xs vs : LRep m l xs vs → (length xs < lfuel m)%nat.
Proof.
  intros HR. unfold lfuel. apply Nat.lt_succ_r, live_length; [apply HR|].
  intros x Hx. destruct (lr_live _ _ _ _ _ HR Hx) as [v Hv]. unfold evalue in Hv. by destruct (eheap m !! x).
Qed.

Lemma lr_length m l xs vs : LRep m l xs vs → length vs = length xs.
Proof. intros HR. symmetry. eapply Forall2_length, HR. Qed.

Lemma vals_ext m m' xs vs :
  (∀ p, p ∈ xs → evalue m' p = evalue m p) → Forall2 (λ p v, evalue m p = Some v) xs vs →
  Forall2 (λ p v, evalue m' p = Some v) xs vs.
Proof. intros Hext. induction 1; constructor; [rewrite Hext; set_solver|]. apply IHForall2. set_solver. Qed.

Lemma lrep_ext m m' l xs vs :
  (∀ p, p ∈ xs → eheap m' !! p = eheap m !! p) → LRep m l xs vs → LRep m' l xs vs.
Proof.
  intros Hext []. split; try done.
  - eapply dseg_ext; [|done]. intros x Hx. unfold eview. by rewrite Hext.
  - eapply vals_ext; [|done]. intros x Hx. unfold evalue. by rewrite Hext.
Qed.

(** An element, its value and its neighbours. *)
Lemma lr_split m l x1 p x2 vs :
  LRep m l (x1 ++ p :: x2) vs →
  ∃ v1 v v2, vs = v1 ++ v :: v2 ∧ length v1 = length x1 ∧
    Forall2 (λ p v, evalue m p = Some v) x1 v1 ∧ Forall2 (λ p v, evalue m p = Some v) x2 v2 ∧
    evalue m p = Some v ∧ ederef m p = OK (mkElem (hd_or x2 None) (last_or None x1) v).
Proof.
  intros HR. destruct (proj1 (Forall2_app_inv_l _ _ _ _) (lr_vals _ _ _ _ HR)) as (v1 & v2' & H1 & H2 & ->).
  apply Forall2_cons_inv_l in H2 as (v & v2 & Hv & H2 & ->). exists v1, v, v2.
  split_and!; try done; [by symmetry; eapply Forall2_length|].
  by rewrite (ederef_view _ _ _ _ Hv (dseg_lookup _ _ _ _ _ _ (lr_dll _ _ _ _ HR))).
Qed.

Definition dlog l (vs : list V) : list V := if ll_dtor l then vs else [].

Lemma dlog_app l vs ws : dlog l (vs ++ ws) = dlog l vs ++ dlog l ws.
Proof. unfold dlog. by destruct (ll_dtor l). Qed.
End views.

Section spec.
Context {V : Type} `{PEMalloc}.
Implicit Types (m : lmem V) (l : zend_llist) (p q : ptr) (xs : list ptr) (vs : list V).

(** * Removal of an element *)

Lemma ends_ne (x1 : list ptr) p x2 :
  NoDup (x1 ++ p :: x2) → last_or None x1 ≠ Some p ∧ hd_or x2 None ≠ Some p.
Proof.
  intros (_ & Hdis & [Hp _]%NoDup_cons)%NoDup_app.
  split; [intros ?%last_or_elem; set_solver|by intros ?%hd_or_elem].
Qed.

Lemma del_run m l x1 p x2 vs v :
  LRep m l (x1 ++ p :: x2) vs → evalue m p = Some v →
  let m1 := ealter_opt (hd_or x2 None) (set_eprev (last_or None x1))
              (ealter_opt (last_or None x1) (set_enext (hd_or x2 None)) m) in
  let l1 := if last_or None x1 is Some _ then l else set_head (hd_or x2 None) l in
  let l2 := if hd_or x2 None is Some _ then l1 else set_tail (last_or None x1) l1 in
  DEL_LLIST_ELEMENT m l p =
    OK (mkLmem (delete p (eheap m1)) (elog m ++ dlog l [v]), set_count (ulong_wrap (ll_count l2 - 1)) l2).
Proof.
  intros HR Hv m1 l1 l2. destruct (ends_ne _ _ _ (lr_nodup _ _ _ _ HR)) as [Hn1 Hn2].
  pose proof (dseg_lookup _ _ _ _ _ _ (lr_dll _ _ _ _ HR)) as Hp.
  assert (∀ x, last_or None x1 = Some x → is_Some (evalue m x)) as Hl1.
  { intros x Hx%last_or_elem. eapply lr_live; [exact HR|set_solver]. }
  assert (∀ x, hd_or x2 None = Some x → is_Some (evalue m x)) as Hl2.
  { intros x Hx%hd_or_elem. eapply lr_live; [exact HR|set_solver]. }
  unfold DEL_LLIST_ELEMENT. rewrite (ederef_view _ _ _ _ Hv Hp). ob. cbn [el_prev el_next fst snd].
  rewrite estore_else by done. ob. fold l1. set (ma := ealter_opt (last_or None x1) _ m).
  assert (ederef ma p = OK (mkElem (hd_or x2 None) (last_or None x1) v)) as Ha.
  { apply (ederef_view ma p v (last_or None x1, hd_or x2 None)).
    - unfold ma. by rewrite evalue_opt.
    - unfold ma. rewrite eview_next, set_next_ne by done. done. }
  rewrite Ha. ob. cbn [el_prev el_next].
  rewrite estore_else. 2: { intros x Hx. unfold ma. rewrite evalue_opt by done. auto. }
  ob. fold l2. change (ealter_opt (hd_or x2 None) (set_eprev (last_or None x1)) ma) with m1.
  assert (ederef m1 p = OK (mkElem (hd_or x2 None) (last_or None x1) v)) as Hb.
  { apply (ederef_view m1 p v (last_or None x1, hd_or x2 None)).
    - unfold m1. by rewrite !evalue_opt.
    - unfold m1. rewrite eview_prev, set_prev_ne, eview_next, set_next_ne by done. done. }
  rewrite Hb. ob. cbn [el_data].
  assert (ll_dtor l2 = ll_dtor l) as Hdt by (unfold l2, l1; by repeat case_match).
  assert (eheap (edtor l2 v m1) = eheap m1 ∧ elog (edtor l2 v m1) = elog m ++ dlog l [v]) as [E1 E2].
  { unfold edtor, dlog. rewrite Hdt. unfold m1. destruct (ll_dtor l); simpl; by rewrite !elog_opt, ?app_nil_r. }
  unfold efree. rewrite E1, E2. apply rd_OK in Hb. by rewrite Hb.
Qed.

(** The list without the element; the element is freed, its value went to
    the destructor; the other elements of the heap are not touched. *)
Lemma del_node_spec m l x1 p x2 vs :
  LRep m l (x1 ++ p :: x2) vs →
  ∃ v1 v v2 m' l', vs = v1 ++ v :: v2 ∧ length v1 = length x1 ∧ evalue m p = Some v ∧
    DEL_LLIST_ELEMENT m l p = OK (m', l') ∧
    LRep m' l' (x1 ++ x2) (v1 ++ v2) ∧ elog m' = elog m ++ dlog l [v] ∧ ll_dtor l' = ll_dtor l ∧
    eheap m' !! p = None ∧ (∀ q, q ∉ x1 ++ p :: x2 → eheap m' !! q = eheap m !! q) ∧
    (∀ q, q ≠ p → evalue m' q = evalue m q) ∧ traverse_ptr l' = traverse_ptr l.
Proof.
  intros HR. destruct (lr_split _ _ _ _ _ _ HR) as (v1 & v & v2 & -> & Hlen & H1 & H2 & Hv & _).
  pose proof (del_run m l x1 p x2 _ v HR Hv) as Hrun. cbv zeta in Hrun.
  set (m1 := ealter_opt (hd_or x2 None) _ _) in Hrun.
  set (l1 := if last_or None x1 is Some _ then l else _) in Hrun.
  set (l2 := if hd_or x2 None is Some _ then l1 else _) in Hrun.
  exists v1, v, v2. eexists _, _. split; [done|]. split; [done|]. split; [done|]. split; [exact Hrun|].
  pose proof (lr_nodup _ _ _ _ HR) as Hnd. pose proof Hnd as (Hnd1 & Hdis & [Hp Hnd2]%NoDup_cons)%NoDup_app.
  assert (∀ q, q ≠ p → evalue (mkLmem (delete p (eheap m1)) (elog m ++ dlog l [v])) q = evalue m q) as Hval.
  { intros q Hq. unfold evalue at 1. simpl. rewrite lookup_delete_ne by done.
    change (evalue m1 q = evalue m q). unfold m1. by rewrite !evalue_opt. }
  split; [split|split_and!]; try done.
  - eapply (dll_unlink (eview m)); [exact Hnd|apply HR|]. intros q Hq. unfold eview at 1. simpl.
    rewrite lookup_delete_ne by done. etrans; [exact (eview_prev _ _ _ q)|]. unfold set_prev. case_decide; by rewrite eview_next.
  - apply NoDup_app. set_solver.
  - apply Forall2_app; (eapply vals_ext; [|done]); intros q Hq; apply Hval; set_solver.
  - unfold l2, l1. destruct x1 as [|y x1]; [|destruct (last_or None (y :: x1)) eqn:E; [|by apply last_or_None_nil in E]].
    + simpl. destruct (hd_or x2 None) eqn:E; by rewrite ?E.
    + destruct (hd_or x2 None); apply HR.
  - unfold l2. destruct x2 as [|y x2]; simpl.
    + by rewrite app_nil_r.
    + assert (ll_tail l1 = ll_tail l) as -> by (unfold l1; by destruct (last_or None x1)).
      rewrite (lr_tail _ _ _ _ HR), !last_or_app, !last_or_cons. done.
  - assert (ll_count l2 = ll_count l) as Ec by (unfold l2, l1; by destruct (hd_or x2 None), (last_or None x1)).
    pose proof (lr_max _ _ _ _ HR) as Hm. simpl. rewrite Ec, (lr_count _ _ _ _ HR).
    rewrite !length_app in *. simpl in *. rewrite ulong_wrap_id by lia. lia.
  - pose proof (lr_max _ _ _ _ HR) as Hm. rewrite !length_app in *. simpl in *. lia.
  - unfold l2, l1. by destruct (hd_or x2 None), (last_or None x1).
  - simpl. by rewrite lookup_delete_eq.
  - intros q Hq. simpl. rewrite lookup_delete_ne by set_solver. unfold m1.
    rewrite !heap_opt; [done|..]; [intros ?%last_or_elem; set_solver|intros ?%hd_or_elem; set_solver].
  - unfold l2, l1. by destruct (hd_or x2 None), (last_or None x1).
Qed.

(** * Insertion at either end *)

Definition fresh m : ptr := pemalloc (dom (eheap m)).

Lemma fresh_dead m : eheap m !! fresh m = None.
Proof. apply not_elem_of_dom, pemalloc_fresh. Qed.

Lemma fresh_notin m l xs vs : LRep m l xs vs → fresh m ∉ xs.
Proof.
  intros HR Hin. destruct (lr_live _ _ _ _ _ HR Hin) as [v Hv]. unfold evalue in Hv. by rewrite fresh_dead in Hv.
Qed.

(** The facts the two insertions share: [m1] has the new element, linked
    with its neighbour in [m2]. *)
Lemma link_facts m l x1 x2 vs v m2 :
  let t := fresh m in
  let m1 := (new_element m (hd_or x2 None) (last_or None x1) v).1 in
  LRep m l (x1 ++ x2) vs →
  (∀ q, eview m2 q = set_prev (hd_or x2 None) (Some t) (set_next (last_or None x1) (Some t) (eview m1)) q) →
  (∀ q, evalue m2 q = evalue m1 q) →
  dll (eview m2) (x1 ++ t :: x2) ∧ NoDup (x1 ++ t :: x2) ∧ evalue m2 t = Some v ∧
  (∀ q, q ≠ t → evalue m2 q = evalue m q).
Proof.
  intros t m1 HR Hview Hval. pose proof (fresh_notin _ _ _ _ HR) as Ht. fold t in Ht.
  assert (NoDup (x1 ++ x2)) as Hnd by apply HR.
  assert (∀ q, q ≠ t → eheap m1 !! q = eheap m !! q) as Hm1.
  { intros q Hq. simpl. by rewrite lookup_insert_ne. }
  assert (eheap m1 !! t = Some (mkElem (hd_or x2 None) (last_or None x1) v)) as Hmt by apply lookup_insert_eq.
  assert (last_or None x1 ≠ Some t) as Hn1 by (intros ?%last_or_elem; set_solver).
  assert (hd_or x2 None ≠ Some t) as Hn2 by (intros ?%hd_or_elem; set_solver).
  split_and!.
  - apply (dll_link (eview m)); try done; [apply HR| |].
    + rewrite Hview, set_prev_ne, set_next_ne by done. unfold eview. by rewrite Hmt.
    + intros q Hq. rewrite Hview. unfold set_prev, set_next, eview. by rewrite Hm1.
  - apply NoDup_app in Hnd as (? & ? & ?). apply NoDup_app. split; [done|]. split; [set_solver|].
    apply NoDup_cons. set_solver.
  - rewrite Hval. unfold evalue. by rewrite Hmt.
  - intros q Hq. rewrite Hval. unfold evalue. by rewrite Hm1.
Qed.

Lemma add_spec m l xs vs v :
  LRep m l xs vs → Z.of_nat (length xs) + 1 < 2 ^ 64 →
  ∃ p m' l', zend_llist_add_element m l v = OK (m', l') ∧ LRep m' l' (xs ++ [p]) (vs ++ [v]) ∧
    eheap m !! p = None ∧ (∀ q, q ∉ xs ++ [p] → eheap m' !! q = eheap m !! q) ∧
    elog m' = elog m ∧ ll_dtor l' = ll_dtor l ∧ traverse_ptr l' = traverse_ptr l.
Proof.
  intros HR Hmax. pose proof (fresh_notin _ _ _ _ HR) as Ht. exists (fresh m).
  unfold zend_llist_add_element. destruct (new_element m None (ll_tail l) v) as [m1 t] eqn:E.
  assert (t = fresh m) as -> by (by injection E).
  assert (m1 = (new_element m None (last_or None xs) v).1) as Hm1.
  { rewrite <- (lr_tail _ _ _ _ HR). by rewrite E. }
  assert (eheap m1 = <[fresh m := mkElem None (last_or None xs) v]> (eheap m)) as Hh by (by rewrite Hm1).
  assert (∀ q, q ≠ fresh m → eheap m1 !! q = eheap m !! q) as Hm1q by (intros q Hq; rewrite Hh; by rewrite lookup_insert_ne).
  rewrite estore_else.
  2: { intros x. rewrite (lr_tail _ _ _ _ HR). intros Hx%last_or_elem.
       unfold evalue. rewrite Hm1q by set_solver. by eapply lr_live. }
  ob. eexists _, _. split; [done|]. rewrite (lr_tail _ _ _ _ HR).
  set (m2 := ealter_opt (last_or None xs) _ m1).
  destruct (link_facts m l xs [] vs v m2) as (Hd & Hnd & Hvt & Hvq).
  { by rewrite app_nil_r. }
  { intros q. simpl hd_or. rewrite set_prev_None, <- Hm1. apply eview_next. }
  { intros q. simpl hd_or. rewrite <- Hm1. by apply evalue_opt. }
  split; [split|split_and!]; try done.
  - apply Forall2_app; [|by repeat constructor]. eapply vals_ext; [|apply HR]. intros q Hq. apply Hvq. set_solver.
  - simpl. destruct xs as [|y xs]; [done|]. destruct (last_or None (y :: xs)) eqn:El; [apply HR|].
    by apply last_or_None_nil in El.
  - simpl. by rewrite last_or_snoc.
  - simpl. assert (∀ (a : nptr), ll_count (match a with Some _ => l | None => set_head (Some (fresh m)) l end) = ll_count l) as ->
      by (by intros []).
    rewrite (lr_count _ _ _ _ HR), length_app. simpl. rewrite ulong_wrap_id by lia. lia.
  - rewrite length_app. simpl. lia.
  - apply fresh_dead.
  - intros q Hq. unfold m2. rewrite heap_opt by (intros ?%last_or_elem; set_solver). apply Hm1q. set_solver.
  - unfold m2. rewrite elog_opt. by rewrite Hm1.
  - simpl. by destruct (last_or None xs).
  - simpl. by destruct (last_or None xs).
Qed.

Lemma prepend_spec m l xs vs v :
  LRep m l xs vs → Z.of_nat (length xs) + 1 < 2 ^ 64 →
  ∃ p m' l', zend_llist_prepend_element m l v = OK (m', l') ∧ LRep m' l' (p :: xs) (v :: vs) ∧
    eheap m !! p = None ∧ (∀ q, q ∉ p :: xs → eheap m' !! q = eheap m !! q) ∧ elog m' = elog m.
Proof.
  intros HR Hmax. pose proof (fresh_notin _ _ _ _ HR) as Ht. exists (fresh m).
  unfold zend_llist_prepend_element. destruct (new_element m (ll_head l) None v) as [m1 t] eqn:E.
  assert (t = fresh m) as -> by (by injection E).
  assert (m1 = (new_element m (hd_or xs None) None v).1) as Hm1.
  { rewrite <- (lr_head _ _ _ _ HR). by rewrite E. }
  assert (eheap m1 = <[fresh m := mkElem (hd_or xs None) None v]> (eheap m)) as Hh by (by rewrite Hm1).
  assert (∀ q, q ≠ fresh m → eheap m1 !! q = eheap m !! q) as Hm1q by (intros q Hq; rewrite Hh; by rewrite lookup_insert_ne).
  rewrite estore_else.
  2: { intros x. rewrite (lr_head _ _ _ _ HR). intros Hx%hd_or_elem.
       unfold evalue. rewrite Hm1q by set_solver. by eapply lr_live. }
  ob. eexists _, _. split; [done|]. rewrite (lr_head _ _ _ _ HR).
  set (m2 := ealter_opt (hd_or xs None) _ m1).
  destruct (link_facts m l [] xs vs v m2 HR) as (Hd & Hnd & Hvt & Hvq).
  { intros q. etrans; [exact (eview_prev _ _ _ q)|]. unfold set_prev. case_decide;
      change (last_or None []) with (@None positive); by rewrite set_next_None, <- Hm1. }
  { intros q. change (last_or None []) with (@None positive). rewrite <- Hm1. by apply evalue_opt. }
  split; [split|split_and!]; try done.
  - constructor; [done|]. eapply vals_ext; [|apply HR]. intros q Hq. apply Hvq. set_solver.
  - simpl. destruct xs as [|y xs]; [done|]. simpl. rewrite (lr_tail _ _ _ _ HR), !last_or_cons. done.
  - simpl. assert (∀ (a : nptr), ll_count (match a with Some _ => l | None => set_tail (Some (fresh m)) l end) = ll_count l) as ->
      by (by intros []).
    rewrite (lr_count _ _ _ _ HR). rewrite ulong_wrap_id by lia. lia.
  - simpl. lia.
  - apply fresh_dead.
  - intros q Hq. unfold m2. rewrite heap_opt by (intros ?%hd_or_elem; set_solver). apply Hm1q. set_solver.
  - unfold m2. rewrite elog_opt. by rewrite Hm1.
Qed.

(** * Loops *)

Lemma lr_next m l x1 p x2 vs :
  LRep m l (x1 ++ p :: x2) vs →
  ∃ e, ederef m p = OK e ∧ el_next e = hd_or x2 None ∧ evalue m p = Some (el_data e).
Proof. intros HR. destruct (lr_split _ _ _ _ _ _ HR) as (v1 & v & v2 & _ & _ & _ & _ & Hv & ->). eauto. Qed.

(** The first element that satisfies the test leaves the list. *)
Fixpoint remove_first (f : V → bool) vs : list V :=
  match vs with [] => [] | v :: vs => if f v then vs else v :: remove_first f vs end.

Lemma remove_first_keep (f : V → bool) v1 vs :
  Forall (λ v, f v = false) v1 → remove_first f (v1 ++ vs) = v1 ++ remove_first f vs.
Proof. induction 1 as [|v v1 Hv _ IH]; [done|]. simpl. by rewrite Hv, IH. Qed.

Lemma del_loop_ok fuel m l f x1 x2 v1 v2 :
  LRep m l (x1 ++ x2) (v1 ++ v2) → length v1 = length x1 → Forall (λ v, f v = false) v1 →
  (length x2 < fuel)%nat →
  ∃ m' l' xs', del_loop fuel m l f (hd_or x2 None) = OK (m', l') ∧
    LRep m' l' xs' (remove_first f (v1 ++ v2)) ∧ sublist xs' (x1 ++ x2) ∧
    elog m' = elog m ++ dlog l (option_list (List.find f v2)).
Proof.
  revert fuel x1 v1 v2. induction x2 as [|p x2 IH]; intros fuel x1 v1 v2 HR Hlen Hf Hfuel;
    (destruct fuel as [|fuel]; [simpl in Hfuel; lia|]).
  { assert (v2 = []) as ->.
    { pose proof (lr_length _ _ _ _ HR) as E. rewrite !length_app in E. destruct v2; simpl in *; [done|lia]. }
    exists m, l, (x1 ++ []). split; [done|]. rewrite remove_first_keep by done. split; [done|]. split; [done|].
    unfold dlog. simpl. destruct (ll_dtor l); by rewrite app_nil_r. }
  destruct (lr_split _ _ _ _ _ _ HR) as (w1 & v & w2 & Evs & Hw & _ & _ & Hv & Hd).
  apply app_inj_1 in Evs as [<- ->]; [|lia]. cbn [del_loop hd_or]. rewrite Hd. ob. cbn [el_data el_next].
  destruct (f v) eqn:Efv.
  - destruct (del_node_spec _ _ _ _ _ _ HR) as (u1 & u & u2 & m' & l' & Eu & Hu & Hvu & Hrun & HR' & Hlog & _).
    apply app_inj_1 in Eu as [<- [= <- <-]]; [|lia].
    exists m', l', (x1 ++ x2). split; [done|]. rewrite remove_first_keep by done. simpl. rewrite Efv.
    split; [done|]. split; [|done]. apply sublist_app; [done|]. by apply sublist_cons.
  - destruct (IH fuel (x1 ++ [p]) (v1 ++ [v]) w2) as (m' & l' & xs' & Hrun & HR' & Hsub & Hlog).
    { by rewrite <- !app_assoc. }
    { rewrite !length_app. simpl. lia. }
    { apply Forall_app. by repeat constructor. }
    { simpl in Hfuel. lia. }
    rewrite <- app_assoc in HR', Hsub. exists m', l', xs'. simpl. rewrite Efv. done.
Qed.

Lemma del_element_spec {E} m l xs vs (x : E) compare :
  LRep m l xs vs →
  ∃ m' l' xs', zend_llist_del_element m l x compare = OK (m', l') ∧
    LRep m' l' xs' (remove_first (λ v, compare v x) vs) ∧ sublist xs' xs ∧
    elog m' = elog m ++ dlog l (option_list (List.find (λ v, compare v x) vs)).
Proof.
  intros HR. unfold zend_llist_del_element. rewrite (lr_head _ _ _ _ HR).
  apply (del_loop_ok _ m l _ [] xs [] vs); [done|done|done|]. by eapply lr_fuel.
Qed.

(** The values a callback keeps and the values it has removed. *)
Fixpoint lfilter {S} (f : V → S → bool * S) (s : S) vs : list V * list V * S :=
  match vs with
  | [] => ([], [], s)
  | v :: vs =>
      let (del, s) := f v s in
      let '(kept, removed, s) := lfilter f s vs in
      if del : bool then (kept, v :: removed, s) else (v :: kept, removed, s)
  end.

Lemma apply_del_loop_ok {S} fuel m l (f : V → S → bool * S) s x1 x2 v1 v2 :
  LRep m l (x1 ++ x2) (v1 ++ v2) → length v1 = length x1 → (length x2 < fuel)%nat →
  let '(kept, removed, s') := lfilter f s v2 in
  ∃ m' l' xs', apply_del_loop fuel m l f s (hd_or x2 None) = OK (m', l', s') ∧
    LRep m' l' xs' (v1 ++ kept) ∧ sublist xs' (x1 ++ x2) ∧ elog m' = elog m ++ dlog l removed.
Proof.
  revert fuel m l s x1 v1 v2. induction x2 as [|p x2 IH]; intros fuel m l s x1 v1 v2 HR Hlen Hfuel;
    (destruct fuel as [|fuel]; [simpl in Hfuel; lia|]).
  { assert (v2 = []) as ->.
    { pose proof (lr_length _ _ _ _ HR) as E. rewrite !length_app in E. destruct v2; simpl in *; [done|lia]. }
    exists m, l, (x1 ++ []). split; [done|]. split; [done|]. split; [done|].
    unfold dlog. simpl. destruct (ll_dtor l); by rewrite app_nil_r. }
  destruct (lr_split _ _ _ _ _ _ HR) as (w1 & v & w2 & Evs & Hw & _ & _ & Hv & Hd).
  apply app_inj_1 in Evs as [<- ->]; [|lia]. cbn [lfilter apply_del_loop hd_or]. rewrite Hd. ob. cbn [el_data el_next].
  destruct (f v s) as [del s1]. destruct del.
  - destruct (del_node_spec _ _ _ _ _ _ HR) as (u1 & u & u2 & m1 & l1 & Eu & Hu & Hvu & Hrun & HR1 & Hlog & Hdt & _).
    apply app_inj_1 in Eu as [<- [= <- <-]]; [|lia]. rewrite Hrun. ob.
    specialize (IH fuel m1 l1 s1 x1 v1 w2 HR1 Hlen ltac:(simpl in Hfuel; lia)).
    destruct (lfilter f s1 w2) as [[kept removed] s']. destruct IH as (m' & l' & xs' & Hrun' & HR' & Hsub & Hlog').
    exists m', l', xs'. split; [done|]. split; [done|]. split.
    + etrans; [done|]. apply sublist_app; [done|]. by apply sublist_cons.
    + rewrite Hlog', Hlog, <- app_assoc. f_equal. unfold dlog. rewrite Hdt. by destruct (ll_dtor l).
  - ob. specialize (IH fuel m l s1 (x1 ++ [p]) (v1 ++ [v]) w2).
    rewrite <- !app_assoc in IH. specialize (IH HR ltac:(rewrite !length_app; simpl; lia) ltac:(simpl in Hfuel; lia)).
    destruct (lfilter f s1 w2) as [[kept removed] s']. destruct IH as (m' & l' & xs' & Hrun' & HR' & Hrest).
    exists m', l', xs'. rewrite <- app_assoc in HR'. done.
Qed.

Lemma apply_with_del_spec {S} m l xs vs (f : V → S → bool * S) s :
  LRep m l xs vs →
  let '(kept, removed, s') := lfilter f s vs in
  ∃ m' l' xs', zend_llist_apply_with_del m l f s = OK (m', l', s') ∧ LRep m' l' xs' kept ∧
    sublist xs' xs ∧ elog m' = elog m ++ dlog l removed.
Proof.
  intros HR. unfold zend_llist_apply_with_del. rewrite (lr_head _ _ _ _ HR).
  apply (apply_del_loop_ok _ m l f s [] xs [] vs HR eq_refl). by eapply lr_fuel.
Qed.

Lemma ldestroy_loop_ok fuel m l o xs vs :
  dseg (eview m) o xs None → NoDup xs → Forall2 (λ p v, evalue m p = Some v) xs vs → (length xs < fuel)%nat →
  ∃ m', ldestroy_loop fuel m l (hd_or xs None) = OK m' ∧
    (∀ q, eheap m' !! q = if decide (q ∈ xs) then None else eheap m !! q) ∧
    elog m' = elog m ++ dlog l vs.
Proof.
  revert fuel m o vs. induction xs as [|x xs IH]; intros fuel m o vs Hd Hnd Hv Hf;
    (destruct fuel as [|fuel]; [simpl in Hf; lia|]).
  { apply Forall2_nil_inv_l in Hv as ->. exists m. split; [done|]. split; [done|]. unfold dlog.
    destruct (ll_dtor l); by rewrite app_nil_r. }
  apply Forall2_cons_inv_l in Hv as (v & vs' & Hx & Hv & ->). destruct Hd as [Hxv Hd].
  apply NoDup_cons in Hnd as [Hxn Hnd]. cbn [ldestroy_loop hd_or]. rewrite (ederef_view _ _ _ _ Hx Hxv). ob. cbn [el_data el_next snd].
  assert (eheap (edtor l v m) = eheap m ∧ elog (edtor l v m) = elog m ++ dlog l [v]) as [E1 E2].
  { unfold edtor, dlog. destruct (ll_dtor l); simpl; by rewrite ?app_nil_r. }
  unfold efree. rewrite E1. unfold evalue in Hx. destruct (eheap m !! x) eqn:Eh; [|done]. ob.
  set (m1 := mkLmem (delete x (eheap m)) (elog (edtor l v m))).
  assert (∀ q, q ∈ xs → eheap m1 !! q = eheap m !! q) as Hm1.
  { intros q Hq. simpl. rewrite lookup_delete_ne; [done|]. intros ->. done. }
  destruct (IH fuel m1 (Some x) vs') as (m' & Hrun & Hheap & Hlog); [| |..|simpl in Hf; lia|].
  { eapply dseg_ext; [|done]. intros q Hq. unfold eview. by rewrite Hm1. }
  { done. }
  { eapply vals_ext; [|done]. intros q Hq. unfold evalue. by rewrite Hm1. }
  exists m'. split; [done|]. split.
  - intros q. rewrite Hheap. destruct (decide (q = x)) as [->|Hne].
    + rewrite (decide_False (P := x ∈ xs)), (decide_True (P := x ∈ x :: xs)) by set_solver. simpl. apply lookup_delete_eq.
    + assert (q ∈ x :: xs ↔ q ∈ xs) as Hiff by set_solver. rewrite (decide_ext _ _ _ _ Hiff).
      case_decide; [done|]. simpl. by rewrite lookup_delete_ne.
  - rewrite Hlog. simpl. rewrite E2, <- app_assoc. f_equal. unfold dlog. by destruct (ll_dtor l).
Qed.

Lemma lclean_spec m l xs vs :
  LRep m l xs vs →
  ∃ m' l', zend_llist_clean m l = OK (m', l') ∧ LRep m' l' [] [] ∧
    (∀ q, eheap m' !! q = if decide (q ∈ xs) then None else eheap m !! q) ∧
    elog m' = elog m ++ dlog l vs.
Proof.
  intros HR. unfold zend_llist_clean, zend_llist_destroy. rewrite (lr_head _ _ _ _ HR).
  destruct (ldestroy_loop_ok (lfuel m) m l None xs vs) as (m' & -> & Hheap & Hlog);
    [apply HR..|by eapply lr_fuel|]. ob. eexists _, _. split; [done|]. split; [|done].
  split; try done. apply NoDup_nil_2.
Qed.

(** [zend_llist_destroy] frees the elements but leaves [head] and [tail]. *)
Lemma ldestroy_spec m l xs vs :
  LRep m l xs vs →
  ∃ m' l', zend_llist_destroy m l = OK (m', l') ∧
    (∀ q, eheap m' !! q = if decide (q ∈ xs) then None else eheap m !! q) ∧
    elog m' = elog m ++ dlog l vs ∧ ll_count l' = 0 ∧ ll_head l' = hd_or xs None ∧ ll_tail l' = last_or None xs.
Proof.
  intros HR. unfold zend_llist_destroy. rewrite (lr_head _ _ _ _ HR).
  destruct (ldestroy_loop_ok (lfuel m) m l None xs vs) as (m' & -> & Hheap & Hlog);
    [apply HR..|by eapply lr_fuel|]. ob. eexists _, _. split; [done|]. split_and!; try done; apply HR.
Qed.

(** [zend_llist_remove_tail] removes the last element, and gives the caller
    the address of memory that is no longer live. *)
Lemma remove_tail_spec m l xs p vs v :
  LRep m l (xs ++ [p]) (vs ++ [v]) →
  ∃ m' l', zend_llist_remove_tail m l = OK (Some p, m', l') ∧ LRep m' l' xs vs ∧
    elog m' = elog m ++ dlog l [v] ∧ eheap m' !! p = None.
Proof.
  intros HR. destruct (lr_split _ _ _ _ _ _ HR) as (w1 & w & w2 & Evs & Hw & _ & Hw2 & Hv & Hd).
  apply Forall2_nil_inv_l in Hw2 as ->. apply app_inj_2 in Evs as [<- [= <-]]; [|done].
  destruct (del_node_spec _ _ _ _ _ _ HR) as (u1 & u & u2 & m' & l' & Eu & Hu & Hvu & Hrun & HR' & Hlog & _ & Hgone & _).
  assert (u2 = []) as ->. { apply (f_equal length) in Eu. rewrite !length_app in Eu. simpl in Eu. destruct u2; [done|simpl in Eu; lia]. }
  apply app_inj_2 in Eu as [<- [= <-]]; [|done]. rewrite !app_nil_r in HR'.
  exists m', l'. split; [|done]. unfold zend_llist_remove_tail. rewrite (lr_tail _ _ _ _ HR), last_or_snoc, Hd. ob.
  unfold DEL_LLIST_ELEMENT in Hrun. rewrite Hd in Hrun. ob. cbn [obind rd el_prev el_next hd_or] in *.
  destruct (ends_ne _ _ _ (lr_nodup _ _ _ _ HR)) as [Hn1 _].
  rewrite estore_else in Hrun |- *; try (intros x Hx%last_or_elem; eapply lr_live; [exact HR|set_solver]).
  cbn [obind] in *. set (m1 := ealter_opt (last_or None xs) (set_enext None) m) in *.
  assert (ederef m1 p = OK (mkElem None (last_or None xs) v)) as Hb.
  { apply (ederef_view m1 p v (last_or None xs, None)).
    - unfold m1. by rewrite evalue_opt.
    - unfold m1. rewrite eview_next, set_next_ne by done. by apply (dseg_lookup _ _ _ _ _ _ (lr_dll _ _ _ _ HR)). }
  rewrite Hb in Hrun |- *. cbn [obind el_next el_prev el_data] in *. rewrite Hb in Hrun. cbn [obind el_data] in Hrun.
  destruct (efree _ p) as [m2| |]; simpl in *; try done. by injection Hrun as <- <-.
Qed.

(** * Traversal *)

(** [zend_llist_get_first_ex], then [n] times [zend_llist_get_next_ex]. *)
Fixpoint get_nth (n : nat) m l (pos : option nptr) : outcome (option V * option nptr * zend_llist) :=
  match n with
  | O => zend_llist_get_first_ex m l pos
  | S n => let* (_, pos, l) := get_nth n m l pos in zend_llist_get_next_ex m l pos
  end.

Lemma ldata_at m l xs vs i : LRep m l xs vs → ldata m (xs !! i) = OK (vs !! i).
Proof.
  intros HR. unfold ldata. destruct (xs !! i) as [p|] eqn:Hp.
  - destruct (Forall2_lookup_l _ _ _ _ _ (lr_vals _ _ _ _ HR) Hp) as (v & Hv & E). rewrite Hv.
    unfold ederef. unfold evalue in E. destruct (eheap m !! p); [|done]. by injection E as <-.
  - apply lookup_ge_None in Hp. rewrite <- (lr_length _ _ _ _ HR) in Hp. by apply lookup_ge_None in Hp as ->.
Qed.

Lemma set_lcurrent_ok m l xs vs pos c :
  LRep m l xs vs →
  let r := set_lcurrent l pos c in LRep m r.2 xs vs ∧ lcurrent r.2 r.1 = c.
Proof. intros []. destruct pos; simpl; [done|]. by split. Qed.

Lemma get_nth_ok n m l xs vs pos :
  LRep m l xs vs → (n ≤ length xs)%nat →
  ∃ pos' l', get_nth n m l pos = OK (vs !! n, pos', l') ∧ LRep m l' xs vs ∧ lcurrent l' pos' = xs !! n.
Proof.
  intros HR. induction n as [|n IH]; intros Hn.
  - simpl. unfold zend_llist_get_first_ex.
    destruct (set_lcurrent_ok m l xs vs pos (ll_head l) HR) as [HR1 Hc].
    destruct (set_lcurrent l pos (ll_head l)) as [pos' l']. simpl in *.
    assert (ll_head l = xs !! 0%nat) as E by (rewrite (lr_head _ _ _ _ HR); by destruct xs).
    rewrite Hc, E, (ldata_at _ _ _ _ _ HR). ob. exists pos', l'. split; [done|]. split; [done|congruence].
  - destruct IH as (pos1 & l1 & Hrun & HR1 & Hc); [lia|]. simpl. rewrite Hrun. ob.
    unfold zend_llist_get_next_ex. rewrite Hc.
    destruct (lookup_lt_is_Some_2 xs n) as [p Hp]; [lia|]. rewrite Hp.
    destruct (list_elem_of_split_length _ _ _ Hp) as (x1 & x2 & Exs & Hlen).
    pose proof HR1 as HR1'. rewrite Exs in HR1'. destruct (lr_next _ _ _ _ _ _ HR1') as (e & -> & Hnx & _). ob.
    assert (hd_or x2 None = xs !! S n) as E.
    { rewrite Exs, lookup_app_r by lia. replace (S n - length x1)%nat with 1%nat by lia. simpl. by destruct x2. }
    rewrite Hnx, E. destruct (set_lcurrent_ok m l1 xs vs pos1 (xs !! S n) HR1) as [HR2 Hc2].
    destruct (set_lcurrent l1 pos1 (xs !! S n)) as [pos2 l2]. simpl in *. rewrite Hc2.
    rewrite (ldata_at _ _ _ _ (S n) HR1). ob. exists pos2, l2. done.
Qed.

(** * Copy *)

Lemma lcopy_loop_ok fuel m src xs vs dst ys ws x1 x2 v1 v2 :
  LRep m src xs vs → LRep m dst ys ws → xs ## ys → xs = x1 ++ x2 → vs = v1 ++ v2 → length v1 = length x1 →
  Z.of_nat (length ys) + Z.of_nat (length x2) < 2 ^ 64 → (length x2 < fuel)%nat →
  ∃ m' dst' ys', lcopy_loop fuel m dst (hd_or x2 None) = OK (m', dst') ∧
    LRep m' src xs vs ∧ LRep m' dst' ys' (ws ++ v2) ∧ xs ## ys' ∧ elog m' = elog m.
Proof.
  revert fuel m dst ys ws x1 v1 v2. induction x2 as [|p x2 IH]; intros fuel m dst ys ws x1 v1 v2 HS HD Hdis Hxs Hvs Hlen Hmax Hf;
    (destruct fuel as [|fuel]; [simpl in Hf; lia|]).
  { assert (v2 = []) as ->.
    { pose proof (lr_length _ _ _ _ HS) as E. subst. rewrite !length_app in E. destruct v2; simpl in *; [done|lia]. }
    exists m, dst, ys. by rewrite app_nil_r. }
  pose proof HS as HS'. rewrite Hxs in HS'.
  destruct (lr_split _ _ _ _ _ _ HS') as (w1 & v & w2 & Evs & Hw & _ & _ & Hv & Hd).
  rewrite Hvs in Evs. apply app_inj_1 in Evs as [<- ->]; [|lia].
  cbn [lcopy_loop hd_or]. rewrite Hd. ob. cbn [el_data].
  destruct (add_spec m dst ys ws v HD) as (q & m1 & dst1 & -> & HD1 & Hq & Hframe & Hlog & _); [simpl in Hmax; lia|]. ob.
  assert (xs ## ys ++ [q]) as Hdis1.
  { intros x Hx. rewrite elem_of_app, list_elem_of_singleton. intros [?| ->]; [by apply (Hdis x)|].
    destruct (lr_live _ _ _ _ _ HS Hx) as [u Hu]. unfold evalue in Hu. by rewrite Hq in Hu. }
  assert (LRep m1 src xs vs) as HS1.
  { eapply lrep_ext; [|exact HS]. intros x Hx. apply Hframe. intros ?. by apply (Hdis1 x). }
  assert (ederef m1 p = ederef m p) as ->.
  { unfold ederef. rewrite Hframe; [done|]. intros ?. apply (Hdis1 p); [|done]. subst. set_solver. }
  rewrite Hd. ob. cbn [el_next].
  destruct (IH fuel m1 dst1 (ys ++ [q]) (ws ++ [v]) (x1 ++ [p]) (v1 ++ [v]) w2)
    as (m' & dst' & ys' & Hrun & HS2 & HD' & Hdis' & Hlog'); try done.
  { by rewrite <- app_assoc. }
  { by rewrite <- app_assoc. }
  { rewrite !length_app. simpl. lia. }
  { rewrite length_app. simpl in *. lia. }
  { simpl in Hf. lia. }
  exists m', dst', ys'. rewrite <- app_assoc in HD'. split_and!; try done. congruence.
Qed.

Lemma lcopy_spec m src dst xs vs :
  LRep m src xs vs →
  ∃ m' dst' ys, zend_llist_copy m dst src = OK (m', dst') ∧ LRep m' src xs vs ∧ LRep m' dst' ys vs ∧
    xs ## ys ∧ elog m' = elog m.
Proof.
  intros HS. unfold zend_llist_copy. rewrite (lr_head _ _ _ _ HS).
  destruct (lcopy_loop_ok (lfuel m) m src xs vs (zend_llist_init dst (ll_size src) (ll_dtor src) (ll_persistent src))
              [] [] [] xs [] vs) as (m' & dst' & ys & Hrun & HS' & HD' & Hdis & Hlog); try done.
  - split; try done. apply NoDup_nil_2.
  - set_solver.
  - apply (lr_max _ _ _ _ HS).
  - by eapply lr_fuel.
  - exists m', dst', ys. done.
Qed.

(** * Sorting *)

Lemma lcollect_ok fuel m o xs vs :
  dseg (eview m) o xs None → Forall2 (λ p v, evalue m p = Some v) xs vs → (length xs < fuel)%nat →
  ∃ es, lcollect_loop fuel m (hd_or xs None) = OK es ∧ es.*1 = xs ∧
    Forall (λ e, eheap m !! e.1 = Some e.2) es.
Proof.
  revert fuel o vs. induction xs as [|x xs IH]; intros fuel o vs Hd Hv Hf; (destruct fuel as [|fuel]; [simpl in Hf; lia|]).
  { by exists []. }
  apply Forall2_cons_inv_l in Hv as (v & vs' & Hx & Hv & ->). destruct Hd as [Hxv Hd].
  pose proof (ederef_view _ _ _ _ Hx Hxv) as He. cbn [lcollect_loop hd_or]. rewrite He. ob. cbn [el_next snd].
  destruct (IH fuel (Some x) vs' Hd Hv) as (es & -> & <- & Hall); [simpl in Hf; lia|]. ob.
  eexists. split; [done|]. split; [done|]. constructor; [|done]. by apply rd_OK in He.
Qed.

Lemma lrelink_ok m b xs (o : nptr) :
  NoDup (b :: xs) → (∀ q, q ∈ b :: xs → is_Some (evalue m q)) → (∃ n, eview m b = Some (o, n)) →
  ∃ m', lrelink_loop m b xs = OK m' ∧ dseg (eview m') o (b :: xs) None ∧
    (∀ q, evalue m' q = evalue m q) ∧ (∀ q, q ∉ b :: xs → eview m' q = eview m q) ∧ elog m' = elog m.
Proof.
  revert m b o. induction xs as [|x xs IH]; intros m b o Hnd Hlive [n Hb].
  { simpl. rewrite estore_live by (apply Hlive; set_solver).
    pose proof (eview_next (Some b) m None) as Hv. simpl in Hv.
    eexists. split; [done|]. split; [|split_and!].
    - split; [|done]. rewrite Hv. unfold set_next. rewrite decide_True, Hb by done. done.
    - intros q. by apply evalue_alter.
    - intros q Hq. rewrite Hv. apply set_next_ne. set_solver.
    - done. }
  apply NoDup_cons in Hnd as [Hbn Hnd]. cbn [lrelink_loop].
  rewrite estore_live by (apply Hlive; set_solver). ob.
  rewrite estore_live. 2: { rewrite evalue_alter by done. apply Hlive. set_solver. }
  ob. set (m1 := ealter (set_enext (Some x)) b (ealter (set_eprev (Some b)) x m)).
  assert (∀ q, evalue m1 q = evalue m q) as Hval by (intros q; unfold m1; by rewrite !evalue_alter).
  assert (∀ q, eview m1 q = set_next (Some b) (Some x) (set_prev (Some x) (Some b) (eview m)) q) as Hview.
  { intros q. etrans; [exact (eview_next (Some b) _ (Some x) q)|]. unfold set_next. case_decide; [f_equal|];
      exact (eview_prev (Some x) m (Some b) q). }
  assert (x ≠ b) as Hxb by set_solver.
  destruct (live_pair m x) as (px & nx & Hxv). { apply Hlive. set_solver. }
  destruct (IH m1 x (Some b) Hnd) as (m' & Hrun & Hd & Hv & Hout & Hlog).
  { intros q Hq. rewrite Hval. apply Hlive. set_solver. }
  { exists nx. rewrite Hview, set_next_ne by congruence. unfold set_prev. rewrite decide_True, Hxv by done. done. }
  exists m'. split; [done|]. split; [|split_and!].
  - split; [|done]. rewrite Hout, Hview by done. unfold set_next. rewrite decide_True by done.
    rewrite set_prev_ne, Hb by congruence. done.
  - intros q. by rewrite Hv, Hval.
  - intros q Hq. rewrite Hout, Hview by set_solver. rewrite set_next_ne, set_prev_ne by set_solver. done.
  - by rewrite Hlog.
Qed.

Context `{SortFunc}.

(** Sorting permutes the elements as the sort function does. *)
Lemma lsort_spec m l xs vs comp :
  LRep m l xs vs → xs ≠ [] →
  ∃ es0 m' l', es0.*1 = xs ∧ Forall (λ e, eheap m !! e.1 = Some e.2) es0 ∧
    zend_llist_sort m l comp = OK (m', l') ∧
    (let es := sort_func (λ a b, comp a.2 b.2) es0 in
     LRep m' l' es.*1 (el_data <$> es.*2) ∧ es.*1 ≡ₚ xs ∧ el_data <$> es.*2 ≡ₚ vs) ∧ elog m' = elog m.
Proof.
  intros HR Hne. unfold zend_llist_sort.
  assert ((ll_count l <=? 0) = false) as ->.
  { rewrite (lr_count _ _ _ _ HR). destruct xs; [done|]. apply Z.leb_gt. simpl. lia. }
  rewrite (lr_head _ _ _ _ HR).
  destruct (lcollect_ok (lfuel m) m None xs vs) as (es0 & -> & Hes0 & Hall); [apply HR..|by eapply lr_fuel|]. ob.
  set (es := sort_func (λ a b, comp a.2 b.2) es0).
  assert (es ≡ₚ es0) as Hp by apply sort_func_perm.
  assert (es.*1 ≡ₚ xs) as Hpx by (by rewrite Hp, Hes0).
  assert (Forall2 (λ p v, evalue m p = Some v) es.*1 (el_data <$> es.*2)) as Hval.
  { assert (Forall (λ e, eheap m !! e.1 = Some e.2) es) as Hall' by (by rewrite Hp).
    clear -Hall'. induction Hall' as [|[p e] es He _ IH]; [constructor|]. csimpl. constructor; [|done].
    simpl in He. unfold evalue. by rewrite He. }
  assert (el_data <$> es.*2 ≡ₚ vs) as Hpv.
  { rewrite Hp. pose proof (lr_vals _ _ _ _ HR) as Hv. rewrite <- Hes0 in Hv. clear -Hall Hv.
    revert vs Hv. induction Hall as [|[p e] es He _ IH]; intros vs Hv.
    - by apply Forall2_nil_inv_l in Hv as ->.
    - csimpl in Hv. apply Forall2_cons_inv_l in Hv as (v & vs' & Hx & Hv & ->). csimpl. simpl in He.
      unfold evalue in Hx. rewrite He in Hx. injection Hx as <-. by rewrite (IH vs'). }
  assert (NoDup es.*1) as Hnd by (rewrite Hpx; apply HR).
  assert (∀ q, q ∈ es.*1 → is_Some (evalue m q)) as Hlive by (intros q; rewrite Hpx; by apply lr_live with (l := l) (vs := vs)).
  exists es0. destruct (es.*1) as [|e0 rest] eqn:Ees; [by apply Permutation_nil_l in Hpx|].
  cbv zeta iota. rewrite estore_live by (apply Hlive; set_solver). ob.
  destruct (live_pair m e0) as (pe & ne & Hev); [apply Hlive; set_solver|].
  destruct (lrelink_ok (ealter (set_eprev None) e0 m) e0 rest None Hnd) as (m' & -> & Hd & Hv & _ & Hlog).
  { intros q Hq. rewrite evalue_alter by done. auto. }
  { exists ne. pose proof (eview_prev (Some e0) m None e0) as E. simpl in E. rewrite E. unfold set_prev.
    rewrite decide_True, Hev by done. done. }
  ob. eexists _, _. split; [done|]. split; [done|]. split; [done|]. fold es. rewrite Ees. split; [|done]. split; [|done].
  split; try done.
  - eapply vals_ext; [|exact Hval]. intros q Hq. rewrite Hv. by apply evalue_alter.
  - simpl. by rewrite last_or_cons.
  - simpl. rewrite (lr_count _ _ _ _ HR). by rewrite <- Hpx.
  - rewrite Hpx. apply HR.
Qed.

End spec.
