(* ===== verification/ZendStack.v ===== *)
(** The growing arrays Zend/zend_stack.c (a stack of copied blocks) and
    Zend/zend_ptr_stack.c/.h (a stack of pointers with a pointer to its top). *)

From S2P Require Import Prelude.

(** The sum of two [int]s, undefined when it overflows. *)
Definition int_add (a b : Z) : outcome Z := if a + b <=? INT_MAX then OK (a + b) else UB.

(** [a[i]] and [a[i] = x] on an array that may be [NULL]. *)
Definition aget {A} (a : option (list A)) (i : Z) : outcome A :=
  match a with
  | Some a => if 0 <=? i then rd (a !! Z.to_nat i) else UB
  | None => UB
  end.
Definition aset {A} (a : option (list A)) (i : Z) (x : A) : outcome (option (list A)) :=
  match a with
  | Some a => if (0 <=? i) && (i <? Z.of_nat (length a)) then OK (Some (<[Z.to_nat i := x]> a)) else UB
  | None => UB
  end.
(** [erealloc(a, n * sizeof( *a))]: what is new is not initialised. *)
Definition arealloc {A} (x : A) (a : option (list A)) (n : Z) : option (list A) :=
  let old := from_option id [] a in
  Some (take (Z.to_nat n) old ++ replicate (Z.to_nat n - length old)%nat x).

(** ** zend_stack *)

Definition STACK_BLOCK_SIZE : Z := 64.

Section stack.
Context {V : Type}.

(** An element is the block it points to, [None] when it was never written
    or its block is freed. *)
Record zend_stack := mkStack { st_top : Z; st_max : Z; st_elements : option (list (option V)) }.
Implicit Types (st : zend_stack) (v : V).

Definition zend_stack_init : zend_stack := mkStack 0 0 None.

(** The result is the index of the element, [int]. *)
Definition zend_stack_push st v : outcome (Z * zend_stack) :=
  let* st :=
    if st_max st <=? st_top st then
      let* max := int_add (st_max st) STACK_BLOCK_SIZE in
      OK (mkStack (st_top st) max (arealloc None (st_elements st) max))
    else OK st in
  let* a := aset (st_elements st) (st_top st) (Some v) in
  let* top := int_add (st_top st) 1 in
  OK (st_top st, mkStack top (st_max st) a).

Definition zend_stack_top st : outcome (zresult * option V) :=
  if 0 <? st_top st then
    let* e := aget (st_elements st) (st_top st - 1) in
    let* v := rd e in OK (SUCCESS, Some v)
  else OK (FAILURE, None).

Definition zend_stack_del_top st : outcome zend_stack :=
  if 0 <? st_top st then
    let* e := aget (st_elements st) (st_top st - 1) in
    let* _ := rd e in
    let* a := aset (st_elements st) (st_top st - 1) None in
    OK (mkStack (st_top st - 1) (st_max st) a)
  else OK st.

Definition zend_stack_is_empty st : bool := st_top st =? 0.
Definition zend_stack_base st : option (list (option V)) := st_elements st.
Definition zend_stack_count st : Z := st_top st.

(** [for (i = 0; i < top; i++) efree(elements[i]);] with the values freed. *)
Fixpoint free_loop (n : nat) (i : Z) (a : option (list (option V))) : outcome (list V) :=
  match n with
  | O => OK []
  | S n =>
      let* e := aget a i in
      let* v := rd e in
      let* vs := free_loop n (i + 1) a in OK (v :: vs)
  end.

Definition zend_stack_destroy st : outcome (list V * zend_stack) :=
  match st_elements st with
  | Some _ =>
      let* vs := free_loop (Z.to_nat (st_top st)) 0 (st_elements st) in
      OK (vs, mkStack (st_top st) (st_max st) None)
  | None => OK ([], st)
  end.

Definition ZEND_STACK_APPLY_TOPDOWN : Z := 1.
Definition ZEND_STACK_APPLY_BOTTOMUP : Z := 2.

(** [n] more elements from [i] in steps of [d], until the callback returns
    true. *)
Fixpoint stack_apply_loop {S} (n : nat) (i d : Z) (a : option (list (option V)))
    (f : V → S → bool * S) (s : S) : outcome S :=
  match n with
  | O => OK s
  | Datatypes.S n =>
      let* e := aget a i in
      let* v := rd e in
      let (stop, s) := f v s in
      if stop : bool then OK s else stack_apply_loop n (i + d) d a f s
  end.

Definition zend_stack_apply {S} st (type : Z) (f : V → S → bool * S) (s : S) : outcome S :=
  if type =? ZEND_STACK_APPLY_TOPDOWN
  then stack_apply_loop (Z.to_nat (st_top st)) (st_top st - 1) (-1) (st_elements st) f s
  else if type =? ZEND_STACK_APPLY_BOTTOMUP
  then stack_apply_loop (Z.to_nat (st_top st)) 0 1 (st_elements st) f s
  else OK s.

Definition zend_stack_apply_with_argument {S A} st (type : Z) (f : V → A → S → bool * S) (arg : A) (s : S)
    : outcome S :=
  zend_stack_apply st type (λ v, f v arg) s.
End stack.
Arguments zend_stack : clear implicits.

(** [FAILURE] is -1. *)
Definition zend_stack_int_top (st : zend_stack Z) : outcome Z :=
  let* (r, e) := zend_stack_top st in
  match r with
  | FAILURE => OK (-1)
  | SUCCESS => rd e
  end.

(** ** zend_ptr_stack *)

Definition PTR_STACK_BLOCK_SIZE : Z := 64.

Section ptr_stack.
Context {P : Type}.

(** [top_element] is the offset from [elements]. *)
Record zend_ptr_stack := mkPStack {
  ps_top : Z;
  ps_max : Z;
  ps_elements : option (list (option P));
  top_element : Z;
  ps_persistent : bool;
}.
Implicit Types (st : zend_ptr_stack) (x : P).

Definition zend_ptr_stack_init_ex (persistent : bool) : zend_ptr_stack := mkPStack 0 0 None 0 persistent.
Definition zend_ptr_stack_init : zend_ptr_stack := zend_ptr_stack_init_ex false.

Definition set_top t te st := mkPStack t (ps_max st) (ps_elements st) te (ps_persistent st).

(** [do max += 64; while (need > max);] *)
Fixpoint grow_loop (fuel : nat) (need max : Z) : outcome Z :=
  let* max := int_add max PTR_STACK_BLOCK_SIZE in
  if max <? need then match fuel with O => UB | S fuel => grow_loop fuel need max end
  else OK max.

Definition ZEND_PTR_STACK_RESIZE_IF_NEEDED st (count : Z) : outcome zend_ptr_stack :=
  let* need := int_add (ps_top st) count in
  if ps_max st <? need then
    let* max := grow_loop (Z.to_nat need) need (ps_max st) in
    OK (mkPStack (ps_top st) max (arealloc None (ps_elements st) max) (ps_top st) (ps_persistent st))
  else OK st.

(** [*(stack->top_element++) = x;] and [*(--stack->top_element)]. *)
Definition put st x : outcome zend_ptr_stack :=
  let* a := aset (ps_elements st) (top_element st) (Some x) in
  OK (mkPStack (ps_top st) (ps_max st) a (top_element st + 1) (ps_persistent st)).
Definition take_top st : outcome (P * zend_ptr_stack) :=
  let* e := aget (ps_elements st) (top_element st - 1) in
  let* x := rd e in OK (x, set_top (ps_top st) (top_element st - 1) st).

Definition zend_ptr_stack_push st x : outcome zend_ptr_stack :=
  let* st := ZEND_PTR_STACK_RESIZE_IF_NEEDED st 1 in
  put (set_top (ps_top st + 1) (top_element st) st) x.

Definition zend_ptr_stack_2_push st a b : outcome zend_ptr_stack :=
  let* st := ZEND_PTR_STACK_RESIZE_IF_NEEDED st 2 in
  let st := set_top (ps_top st + 2) (top_element st) st in
  let* st := put st a in put st b.

Definition zend_ptr_stack_3_push st a b c : outcome zend_ptr_stack :=
  let* st := ZEND_PTR_STACK_RESIZE_IF_NEEDED st 3 in
  let st := set_top (ps_top st + 3) (top_element st) st in
  let* st := put st a in let* st := put st b in put st c.

Fixpoint n_push_loop st (xs : list P) : outcome zend_ptr_stack :=
  match xs with
  | [] => OK st
  | x :: xs =>
      let st := set_top (ps_top st + 1) (top_element st) st in
      let* st := put st x in n_push_loop st xs
  end.

(** The variable arguments are a list of [count] pointers. *)
Definition zend_ptr_stack_n_push st (xs : list P) : outcome zend_ptr_stack :=
  let* st := ZEND_PTR_STACK_RESIZE_IF_NEEDED st (Z.of_nat (length xs)) in
  n_push_loop st xs.

Definition zend_ptr_stack_pop st : outcome (P * zend_ptr_stack) :=
  take_top (set_top (ps_top st - 1) (top_element st) st).

Definition zend_ptr_stack_2_pop st : outcome (P * P * zend_ptr_stack) :=
  let* (a, st) := take_top st in
  let* (b, st) := take_top st in
  OK (a, b, set_top (ps_top st - 2) (top_element st) st).

Definition zend_ptr_stack_3_pop st : outcome (P * P * P * zend_ptr_stack) :=
  let* (a, st) := take_top st in
  let* (b, st) := take_top st in
  let* (c, st) := take_top st in
  OK (a, b, c, set_top (ps_top st - 3) (top_element st) st).

(** The pointers in the order in which the arguments receive them. *)
Fixpoint zend_ptr_stack_n_pop st (count : nat) : outcome (list P * zend_ptr_stack) :=
  match count with
  | O => OK ([], st)
  | S count =>
      let* (x, st) := take_top st in
      let* (xs, st) := zend_ptr_stack_n_pop (set_top (ps_top st - 1) (top_element st) st) count in
      OK (x :: xs, st)
  end.

Definition zend_ptr_stack_top st : outcome P :=
  let* e := aget (ps_elements st) (ps_top st - 1) in rd e.

(** [while (--i >= 0) func(elements[i]);] *)
Fixpoint ptr_apply_loop {S} (i : nat) (a : option (list (option P))) (f : P → S → S) (s : S) : outcome S :=
  match i with
  | O => OK s
  | Datatypes.S i =>
      let* e := aget a (Z.of_nat i) in
      let* x := rd e in ptr_apply_loop i a f (f x s)
  end.

Definition zend_ptr_stack_apply {S} st (f : P → S → S) (s : S) : outcome S :=
  ptr_apply_loop (Z.to_nat (ps_top st)) (ps_elements st) f s.

(** With [free_elements], [pefree] is called on every element as well. *)
Definition zend_ptr_stack_clean {S} st (func pefree : P → S → S) (free_elements : bool) (s : S)
    : outcome (S * zend_ptr_stack) :=
  let* s := zend_ptr_stack_apply st func s in
  let* s := if free_elements then ptr_apply_loop (Z.to_nat (ps_top st)) (ps_elements st) pefree s else OK s in
  OK (s, set_top 0 0 st).

(** The elements array is freed, the struct keeps its fields. *)
Definition zend_ptr_stack_destroy st : bool :=
  match ps_elements st with Some _ => true | None => false end.

Definition zend_ptr_stack_num_elements st : Z := ps_top st.

End ptr_stack.
Arguments zend_ptr_stack : clear implicits.
