(* ===== verification/ZendStackSpec.v ===== *)
(** The stacks are stacks: what was pushed comes back in the opposite order,
    every access stays inside the array. *)

From S2P Require Import Prelude ZendStack.

(** * Arrays that hold values at their front *)

Section arrays.
Context {A : Type}.
Implicit Types (a : option (list (option A))) (vs : list A).

Definition holds a (max : Z) vs : Prop :=
  Z.of_nat (length vs) <= max ∧
  match a with
  | None => max = 0
  | Some arr => Z.of_nat (length arr) = max ∧ ∀ i, (i < length vs)%nat → arr !! i = Some (vs !! i)
  end.

Lemma holds_get a max vs i v : holds a max vs → vs !! i = Some v → aget a (Z.of_nat i) = OK (Some v).
Proof.
  intros [Hl Ha] Hv. pose proof (lookup_lt_Some _ _ _ Hv) as Hi. unfold aget. destruct a as [arr|]; [|lia].
  destruct Ha as [_ Ha]. rewrite (proj2 (Z.leb_le _ _)) by lia. by rewrite Nat2Z.id, (Ha i Hi), Hv.
Qed.

Lemma holds_push a max vs v :
  holds a max vs → Z.of_nat (length vs) < max →
  ∃ a', aset a (Z.of_nat (length vs)) (Some v) = OK a' ∧ holds a' max (vs ++ [v]).
Proof.
  intros [Hl Ha] Hlt. unfold aset. destruct a as [arr|]; [|lia]. destruct Ha as [Hn Ha].
  rewrite (proj2 (Z.leb_le _ _)), (proj2 (Z.ltb_lt _ _)) by lia. simpl. eexists. split; [done|].
  split; [rewrite length_app; simpl; lia|]. split; [by rewrite length_insert|].
  intros i. rewrite length_app. simpl. intros Hi. rewrite Nat2Z.id.
  destruct (decide (i = length vs)) as [->|Hne].
  - rewrite list_lookup_insert_eq by lia. by rewrite lookup_app_r, Nat.sub_diag by lia.
  - rewrite list_lookup_insert_ne by done. rewrite Ha by lia. by rewrite lookup_app_l by lia.
Qed.

Lemma holds_prefix a max vs ws : holds a max (vs ++ ws) → holds a max vs.
Proof.
  intros [Hl Ha]. rewrite length_app in Hl. split; [lia|]. destruct a as [arr|]; [|done].
  destruct Ha as [Hn Ha]. split; [done|]. intros i Hi. rewrite Ha by (rewrite length_app; lia).
  by rewrite lookup_app_l.
Qed.

(** Writing behind the values does not change them. *)
Lemma holds_clear a max vs i x :
  holds a max vs → Z.of_nat (length vs) <= i < max → ∃ a', aset a i x = OK a' ∧ holds a' max vs.
Proof.
  intros [Hl Ha] Hi. unfold aset. destruct a as [arr|]; [|lia]. destruct Ha as [Hn Ha].
  rewrite (proj2 (Z.leb_le _ _)), (proj2 (Z.ltb_lt _ _)) by lia. eexists. split; [done|].
  split; [done|]. split; [by rewrite length_insert|]. intros j Hj. rewrite list_lookup_insert_ne by lia. auto.
Qed.

Lemma holds_realloc a max vs n : holds a max vs → max <= n → holds (arealloc None a n) n vs.
Proof.
  intros [Hl Ha] Hn. unfold arealloc. split; [lia|]. destruct a as [arr|]; simpl.
  - destruct Ha as [Hlen Ha]. split; [rewrite length_app, length_take, length_replicate; lia|].
    intros i Hi. rewrite lookup_app_l by (rewrite length_take; lia). rewrite lookup_take_lt by lia. auto.
  - split; [rewrite length_app, length_take, length_replicate; simpl; lia|]. intros i Hi. lia.
Qed.

(** Values read one by one, in either direction, until the callback stops. *)
Fixpoint visit {S} (f : A → S → bool * S) (s : S) vs : S :=
  match vs with
  | [] => s
  | v :: vs => let (stop, s) := f v s in if stop : bool then s else visit f s vs
  end.
End arrays.

Section stack_spec.
Context {V : Type}.
Implicit Types (st : zend_stack V) (vs : list V) (v : V).

(** The values from the bottom to the top. *)
Definition SRep st vs : Prop :=
  st_top st = Z.of_nat (length vs) ∧ holds (st_elements st) (st_max st) vs ∧ st_max st <= INT_MAX.

Lemma stack_init_spec : SRep zend_stack_init [].
Proof. split; [done|]. split; [by split|]. unfold INT_MAX. simpl. lia. Qed.

Lemma stack_push_spec st vs v :
  SRep st vs → Z.of_nat (length vs) + STACK_BLOCK_SIZE <= INT_MAX →
  ∃ st', zend_stack_push st v = OK (Z.of_nat (length vs), st') ∧ SRep st' (vs ++ [v]).
Proof.
  intros (Ht & Ha & Hm) Hsz. unfold STACK_BLOCK_SIZE in *. unfold zend_stack_push. rewrite Ht.
  assert (∃ max a, (if st_max st <=? Z.of_nat (length vs) then
            let* max := int_add (st_max st) STACK_BLOCK_SIZE in
            OK (mkStack (Z.of_nat (length vs)) max (arealloc None (st_elements st) max))
          else OK st) = OK (mkStack (Z.of_nat (length vs)) max a) ∧
          holds a max vs ∧ Z.of_nat (length vs) < max <= INT_MAX) as (max & a & -> & Hh & Hmax).
  { destruct (Z.leb_spec (st_max st) (Z.of_nat (length vs))) as [Hle|Hlt].
    - unfold int_add, STACK_BLOCK_SIZE. destruct Ha as [Hl Ha]. rewrite (proj2 (Z.leb_le _ _)) by lia. ob.
      eexists _, _. split; [done|]. split; [apply (holds_realloc _ (st_max st)); [by split|lia]|lia].
    - exists (st_max st), (st_elements st). rewrite <- Ht. split; [by destruct st|]. split; [done|lia]. }
  ob. cbn [st_elements st_top st_max].
  destruct (holds_push a max vs v Hh) as (a' & -> & Ha'); [lia|]. ob.
  unfold int_add. rewrite (proj2 (Z.leb_le _ _)) by lia. ob.
  eexists. split; [done|]. split; [simpl; rewrite length_app; simpl; lia|]. split; [done|simpl; lia].
Qed.

Lemma stack_top_spec st vs v : SRep st (vs ++ [v]) → zend_stack_top st = OK (SUCCESS, Some v).
Proof.
  intros (Ht & Ha & _). unfold zend_stack_top. rewrite Ht, length_app. simpl.
  rewrite (proj2 (Z.ltb_lt _ _)) by lia. replace (Z.of_nat (length vs + 1) - 1) with (Z.of_nat (length vs)) by lia.
  rewrite (holds_get _ _ _ _ v Ha); [done|]. by rewrite lookup_app_r, Nat.sub_diag.
Qed.

Lemma stack_del_top_spec st vs v :
  SRep st (vs ++ [v]) → ∃ st', zend_stack_del_top st = OK st' ∧ SRep st' vs.
Proof.
  intros (Ht & Ha & Hm). unfold zend_stack_del_top. rewrite Ht, length_app. simpl.
  rewrite (proj2 (Z.ltb_lt _ _)) by lia. replace (Z.of_nat (length vs + 1) - 1) with (Z.of_nat (length vs)) by lia.
  rewrite (holds_get _ _ _ (length vs) v Ha) by (by rewrite lookup_app_r, Nat.sub_diag). ob.
  destruct (holds_clear (st_elements st) (st_max st) vs (Z.of_nat (length vs)) None) as (a' & -> & Ha').
  { by eapply holds_prefix. }
  { destruct Ha as [Hl _]. rewrite length_app in Hl. simpl in Hl. lia. }
  ob. eexists. split; [done|]. by split.
Qed.

Lemma stack_empty_spec st : SRep st [] → zend_stack_top st = OK (FAILURE, None) ∧ zend_stack_del_top st = OK st.
Proof. intros (Ht & _). unfold zend_stack_top, zend_stack_del_top. by rewrite Ht. Qed.

Lemma free_loop_ok a max us vs :
  holds a max (us ++ vs) → free_loop (length vs) (Z.of_nat (length us)) a = OK vs.
Proof.
  revert us. induction vs as [|v vs IH]; intros us Ha; [done|]. cbn [free_loop length].
  rewrite (holds_get _ _ _ (length us) v Ha) by (by rewrite lookup_app_r, Nat.sub_diag). ob.
  replace (Z.of_nat (length us) + 1) with (Z.of_nat (length (us ++ [v]))) by (rewrite length_app; simpl; lia).
  rewrite IH; [done|]. by rewrite <- app_assoc.
Qed.

Lemma stack_destroy_spec st vs : SRep st vs → ∃ st', zend_stack_destroy st = OK (vs, st').
Proof.
  intros (Ht & Ha & _). unfold zend_stack_destroy. destruct (st_elements st) as [arr|] eqn:E.
  - rewrite Ht, Nat2Z.id. pose proof (free_loop_ok (Some arr) (st_max st) [] vs Ha) as Hf.
    change (Z.of_nat (length [])) with 0 in Hf. rewrite Hf. ob. eauto.
  - destruct Ha as [Hl Hz]. destruct vs; [eauto|simpl in Hl; lia].
Qed.

Lemma apply_up {S} a max us vs (f : V → S → bool * S) s :
  holds a max (us ++ vs) →
  stack_apply_loop (length vs) (Z.of_nat (length us)) 1 a f s = OK (visit f s vs).
Proof.
  revert us s. induction vs as [|v vs IH]; intros us s Ha; [done|]. cbn [stack_apply_loop length visit].
  rewrite (holds_get _ _ _ (length us) v Ha) by (by rewrite lookup_app_r, Nat.sub_diag). ob.
  destruct (f v s) as [[] s']; [done|].
  replace (Z.of_nat (length us) + 1) with (Z.of_nat (length (us ++ [v]))) by (rewrite length_app; simpl; lia).
  apply IH. by rewrite <- app_assoc.
Qed.

Lemma apply_down {S} a max vs (f : V → S → bool * S) s :
  holds a max vs →
  stack_apply_loop (length vs) (Z.of_nat (length vs) - 1) (-1) a f s = OK (visit f s (reverse vs)).
Proof.
  revert s. induction vs as [|v vs IH] using rev_ind; intros s Ha; [done|].
  rewrite length_app, reverse_snoc. simpl length. rewrite Nat.add_1_r. cbn [stack_apply_loop visit].
  replace (Z.of_nat (Datatypes.S (length vs)) - 1) with (Z.of_nat (length vs)) by lia.
  rewrite (holds_get _ _ _ (length vs) v Ha) by (by rewrite lookup_app_r, Nat.sub_diag). ob.
  destruct (f v s) as [[] s']; [done|]. apply IH. by eapply holds_prefix.
Qed.

Lemma stack_apply_spec {S} st vs (f : V → S → bool * S) s :
  SRep st vs →
  zend_stack_apply st ZEND_STACK_APPLY_TOPDOWN f s = OK (visit f s (reverse vs)) ∧
  zend_stack_apply st ZEND_STACK_APPLY_BOTTOMUP f s = OK (visit f s vs).
Proof.
  intros (Ht & Ha & _). unfold zend_stack_apply.
  change (ZEND_STACK_APPLY_TOPDOWN =? ZEND_STACK_APPLY_TOPDOWN) with true.
  change (ZEND_STACK_APPLY_BOTTOMUP =? ZEND_STACK_APPLY_TOPDOWN) with false.
  change (ZEND_STACK_APPLY_BOTTOMUP =? ZEND_STACK_APPLY_BOTTOMUP) with true. cbv iota.
  rewrite Ht, Nat2Z.id. split; [by eapply apply_down|].
  exact (apply_up (st_elements st) (st_max st) [] vs f s Ha).
Qed.
End stack_spec.

Section ptr_spec.
Context {P : Type}.
Implicit Types (st : zend_ptr_stack P) (xs : list P) (x : P).

Definition PRep st xs : Prop :=
  ps_top st = Z.of_nat (length xs) ∧ top_element st = Z.of_nat (length xs) ∧
  holds (ps_elements st) (ps_max st) xs ∧ ps_max st <= INT_MAX.

Lemma grow_loop_ok fuel need max :
  0 <= max < need → need + 64 <= INT_MAX → need <= max + 64 * (Z.of_nat fuel + 1) →
  ∃ max', grow_loop fuel need max = OK max' ∧ need <= max' <= INT_MAX ∧ max < max' < need + 64.
Proof.
  revert max. induction fuel as [|fuel IH]; intros max Hm Hn Hf; cbn [grow_loop];
    unfold int_add, PTR_STACK_BLOCK_SIZE; rewrite (proj2 (Z.leb_le _ _)) by lia; ob;
    destruct (Z.ltb_spec (max + 64) need); try lia.
  - eexists. split; [done|lia].
  - destruct (IH (max + 64)) as (max' & -> & ? & ?); [lia..|]. eexists. split; [done|lia].
  - eexists. split; [done|lia].
Qed.

Lemma resize_spec st xs n :
  PRep st xs → 0 <= n → Z.of_nat (length xs) + n + PTR_STACK_BLOCK_SIZE <= INT_MAX →
  ∃ st', ZEND_PTR_STACK_RESIZE_IF_NEEDED st n = OK st' ∧ PRep st' xs ∧ Z.of_nat (length xs) + n <= ps_max st'.
Proof.
  intros (Ht & Hte & Ha & Hm) Hn Hsz. unfold PTR_STACK_BLOCK_SIZE in *.
  unfold ZEND_PTR_STACK_RESIZE_IF_NEEDED, int_add. rewrite Ht, (proj2 (Z.leb_le _ _)) by lia. ob.
  destruct (Z.ltb_spec (ps_max st) (Z.of_nat (length xs) + n)) as [Hlt|Hge].
  - assert (0 <= ps_max st) by (destruct Ha; lia).
    destruct (grow_loop_ok (Z.to_nat (Z.of_nat (length xs) + n)) (Z.of_nat (length xs) + n) (ps_max st))
      as (max & -> & Hmax & Hgt); [lia..|]. ob.
    eexists. split; [done|]. split; [|simpl; lia]. split_and!; try done; [|simpl; lia].
    simpl. apply (holds_realloc _ (ps_max st)); [done|lia].
  - exists st. split; [done|]. split; [by split_and!|done].
Qed.

(** [put] behind the values, with the counter already advanced by [k]. *)
Definition PRep_ahead st xs (k : Z) : Prop :=
  ps_top st = Z.of_nat (length xs) + k ∧ top_element st = Z.of_nat (length xs) ∧
  holds (ps_elements st) (ps_max st) xs ∧ ps_max st <= INT_MAX ∧ Z.of_nat (length xs) + k <= ps_max st.

Lemma put_spec st xs k x :
  PRep_ahead st xs k → 0 < k →
  ∃ st', put st x = OK st' ∧ PRep_ahead st' (xs ++ [x]) (k - 1).
Proof.
  intros (Ht & Hte & Ha & Hm & Hk) Hpos. unfold put. rewrite Hte.
  destruct (holds_push _ _ _ x Ha) as (a' & -> & Ha'); [lia|]. ob. eexists. split; [done|].
  split_and!; simpl; rewrite ?length_app; simpl; try lia. done.
Qed.

Lemma ahead_done st xs : PRep_ahead st xs 0 → PRep st xs.
Proof. intros (Ht & Hte & Ha & Hm & Hk). split_and!; try done. lia. Qed.

Lemma advance st xs k :
  PRep st xs → Z.of_nat (length xs) + k <= ps_max st → PRep_ahead (set_top (ps_top st + k) (top_element st) st) xs k.
Proof. intros (Ht & Hte & Ha & Hm) Hk. split_and!; simpl; try done. lia. Qed.

Lemma push_spec st xs x :
  PRep st xs → Z.of_nat (length xs) + 65 <= INT_MAX →
  ∃ st', zend_ptr_stack_push st x = OK st' ∧ PRep st' (xs ++ [x]).
Proof.
  intros HR Hsz. unfold zend_ptr_stack_push.
  destruct (resize_spec st xs 1 HR) as (st1 & -> & HR1 & Hmax); [lia|unfold PTR_STACK_BLOCK_SIZE; lia|]. ob.
  destruct (put_spec _ xs 1 x (advance _ _ _ HR1 Hmax)) as (st2 & -> & HR2); [lia|].
  exists st2. split; [done|]. by apply ahead_done.
Qed.

Lemma n_push_loop_ok st xs ys :
  PRep st xs → Z.of_nat (length xs) + Z.of_nat (length ys) <= ps_max st →
  ∃ st', n_push_loop st ys = OK st' ∧ PRep st' (xs ++ ys).
Proof.
  revert st xs. induction ys as [|y ys IH]; intros st xs HR Hmax; simpl.
  - exists st. by rewrite app_nil_r.
  - simpl in Hmax. destruct (put_spec _ xs 1 y (advance _ _ 1 HR ltac:(lia))) as (st2 & Hput & HR2); [lia|].
    rewrite Hput. ob. assert (ps_max st2 = ps_max st) as Em.
    { unfold put in Hput. apply obind_OK in Hput as (a & _ & [= <-]). done. }
    apply ahead_done in HR2. destruct (IH st2 (xs ++ [y]) HR2) as (st' & -> & HR').
    { rewrite Em, length_app. simpl. lia. }
    exists st'. rewrite <- app_assoc in HR'. done.
Qed.

Lemma n_push_spec st xs ys :
  PRep st xs → Z.of_nat (length xs) + Z.of_nat (length ys) + 64 <= INT_MAX →
  ∃ st', zend_ptr_stack_n_push st ys = OK st' ∧ PRep st' (xs ++ ys).
Proof.
  intros HR Hsz. unfold zend_ptr_stack_n_push.
  destruct (resize_spec st xs (Z.of_nat (length ys)) HR) as (st1 & -> & HR1 & Hmax); [lia|unfold PTR_STACK_BLOCK_SIZE; lia|].
  ob. by apply n_push_loop_ok.
Qed.

(** Several pushes at once are pushes one by one. *)
Lemma push23_spec st xs a b c :
  PRep st xs → Z.of_nat (length xs) + 67 <= INT_MAX →
  (∃ st', zend_ptr_stack_2_push st a b = OK st' ∧ PRep st' (xs ++ [a; b])) ∧
  (∃ st', zend_ptr_stack_3_push st a b c = OK st' ∧ PRep st' (xs ++ [a; b; c])).
Proof.
  intros HR Hsz. unfold zend_ptr_stack_2_push, zend_ptr_stack_3_push. split.
  - destruct (resize_spec st xs 2 HR) as (st1 & -> & HR1 & Hmax); [lia|unfold PTR_STACK_BLOCK_SIZE; lia|]. ob. cbv zeta.
    destruct (put_spec _ xs 2 a (advance _ _ _ HR1 Hmax)) as (st2 & -> & HR2); [lia|]. ob.
    destruct (put_spec _ _ 1 b HR2) as (st3 & -> & HR3); [lia|]. exists st3.
    rewrite <- app_assoc in HR3. split; [done|]. by apply ahead_done.
  - destruct (resize_spec st xs 3 HR) as (st1 & -> & HR1 & Hmax); [lia|unfold PTR_STACK_BLOCK_SIZE; lia|]. ob. cbv zeta.
    destruct (put_spec _ xs 3 a (advance _ _ _ HR1 Hmax)) as (st2 & -> & HR2); [lia|]. ob.
    destruct (put_spec _ _ 2 b HR2) as (st3 & -> & HR3); [lia|]. ob.
    destruct (put_spec _ _ 1 c HR3) as (st4 & -> & HR4); [lia|]. exists st4.
    rewrite <- !app_assoc in HR4. split; [done|]. by apply ahead_done.
Qed.

Lemma take_top_ok st xs x t :
  top_element st = Z.of_nat (length (xs ++ [x])) → holds (ps_elements st) (ps_max st) (xs ++ [x]) →
  ps_top st = t → take_top st = OK (x, mkPStack t (ps_max st) (ps_elements st) (Z.of_nat (length xs)) (ps_persistent st)).
Proof.
  intros Hte Ha <-. unfold take_top. rewrite Hte, length_app. simpl.
  replace (Z.of_nat (length xs + 1) - 1) with (Z.of_nat (length xs)) by lia.
  rewrite (holds_get _ _ _ (length xs) x Ha) by (by rewrite lookup_app_r, Nat.sub_diag). ob. done.
Qed.

Lemma pop_spec st xs x : PRep st (xs ++ [x]) → ∃ st', zend_ptr_stack_pop st = OK (x, st') ∧ PRep st' xs.
Proof.
  intros (Ht & Hte & Ha & Hm). unfold zend_ptr_stack_pop.
  rewrite (take_top_ok (set_top (ps_top st - 1) (top_element st) st) xs x (Z.of_nat (length xs))); simpl; try done.
  - eexists. split; [done|]. split_and!; try done. by eapply holds_prefix.
  - rewrite Ht, length_app. simpl. lia.
Qed.

Lemma n_pop_spec st xs ys :
  PRep st (xs ++ ys) →
  ∃ st', zend_ptr_stack_n_pop st (length ys) = OK (reverse ys, st') ∧ PRep st' xs.
Proof.
  revert st. induction ys as [|y ys IH] using rev_ind; intros st HR.
  - rewrite app_nil_r in HR. exists st. done.
  - rewrite app_assoc in HR. pose proof HR as (Ht & Hte & Ha & Hm).
    rewrite length_app, Nat.add_1_r. cbn [zend_ptr_stack_n_pop].
    rewrite (take_top_ok st (xs ++ ys) y (ps_top st)) by done. ob.
    set (st1 := set_top _ _ _). destruct (IH st1) as (st' & -> & HR').
    { split_and!; simpl; try done; [rewrite Ht, !length_app; simpl; lia|by eapply holds_prefix]. }
    ob. exists st'. by rewrite reverse_snoc.
Qed.

Lemma ptr_apply_loop_ok {S} a max xs (f : P → S → S) s :
  holds a max xs → ptr_apply_loop (length xs) a f s = OK (foldl (λ s x, f x s) s (reverse xs)).
Proof.
  revert s. induction xs as [|x xs IH] using rev_ind; intros s Ha; [done|].
  rewrite length_app, Nat.add_1_r, reverse_snoc. cbn [ptr_apply_loop foldl].
  rewrite (holds_get _ _ _ (length xs) x Ha) by (by rewrite lookup_app_r, Nat.sub_diag). ob.
  apply IH. by eapply holds_prefix.
Qed.

(** Every element is passed to the callback, from the top down, and (when
    asked) to [pefree]; the stack is empty afterwards. *)
Lemma ptr_clean_spec {S} st xs (func pefree : P → S → S) (fr : bool) s :
  PRep st xs →
  ∃ st', zend_ptr_stack_clean st func pefree fr s =
      OK ((let s := foldl (λ s x, func x s) s (reverse xs) in
           if fr then foldl (λ s x, pefree x s) s (reverse xs) else s), st') ∧ PRep st' [].
Proof.
  intros (Ht & Hte & Ha & Hm). unfold zend_ptr_stack_clean, zend_ptr_stack_apply. rewrite Ht, Nat2Z.id.
  rewrite (ptr_apply_loop_ok _ _ _ _ _ Ha). ob.
  assert (PRep (set_top 0 0 st) []) as HR.
  { split_and!; try done. by eapply (holds_prefix _ _ [] xs). }
  destruct fr; [rewrite (ptr_apply_loop_ok _ _ _ _ _ Ha)|]; ob; eauto.
Qed.

Lemma ptr_top_spec st xs x : PRep st (xs ++ [x]) → zend_ptr_stack_top st = OK x.
Proof.
  intros (Ht & _ & Ha & _). unfold zend_ptr_stack_top. rewrite Ht, length_app. simpl.
  replace (Z.of_nat (length xs + 1) - 1) with (Z.of_nat (length xs)) by lia.
  by rewrite (holds_get _ _ _ (length xs) x Ha) by (by rewrite lookup_app_r, Nat.sub_diag).
Qed.
End ptr_spec.
