(* ===== verification/ContainerProps.v ===== *)
(** The properties of the sort, the linked lists and the stacks. *)

From S2P Require Import Prelude Dll ZendQsort ZendLlist ZendLlistSpec.
From S2P Require Import ZendStack ZendStackSpec.
From Stdlib Require Import Sorting.Sorted.

(** C26: [zend_qsort] with a comparison that is a total preorder sorts: it
    returns a permutation of the array in non-descending order. *)
Theorem qsort_correct {A} (compare : A → A → Z) siz a :
  (∀ x y, 0 < compare x y ↔ compare y x < 0) →
  (∀ x y z, compare x y <= 0 → compare y z <= 0 → compare x z <= 0) →
  0 < siz → Z.of_nat (length a) < 2 ^ 64 →
  ∃ a', zend_qsort compare siz a = OK a' ∧ a' ≡ₚ a ∧ StronglySorted (λ x y, compare x y <= 0) a'.
Proof. apply qsort_sorted. Qed.

(** C27: Whatever a (user supplied, possibly inconsistent) comparison returns,
    [zend_qsort] terminates, never reads or writes outside the array, never
    needs more than the 64 entries of its stack, and permutes the elements. *)
Theorem qsort_robust {A} (compare : A → A → Z) siz a :
  0 < siz → Z.of_nat (length a) < 2 ^ 64 → ∃ a', zend_qsort compare siz a = OK a' ∧ a' ≡ₚ a.
Proof. apply qsort_perm. Qed.

(** [_zend_qsort_swap], which copies [int]s and then the remaining bytes,
    exchanges the two elements for every size. *)
Theorem qsort_swap_exchanges a b siz :
  length a = siz → length b = siz → _zend_qsort_swap a b siz = (b, a).
Proof. apply qsort_swap_ok. Qed.

Section llist.
Context {V : Type} `{PEMalloc}.
Implicit Types (m : lmem V) (l : zend_llist) (vs : list V).

(** [zend_llist_add_element] appends, [zend_llist_prepend_element] puts in
    front; the elements that were there keep their addresses. *)
Theorem llist_insert m l xs vs v :
  LRep m l xs vs → Z.of_nat (length xs) + 1 < 2 ^ 64 →
  (∃ p m' l', zend_llist_add_element m l v = OK (m', l') ∧ LRep m' l' (xs ++ [p]) (vs ++ [v])) ∧
  (∃ p m' l', zend_llist_prepend_element m l v = OK (m', l') ∧ LRep m' l' (p :: xs) (v :: vs)).
Proof.
  intros HR Hn. destruct (add_spec m l xs vs v HR Hn) as (p & m1 & l1 & ? & ? & _).
  destruct (prepend_spec m l xs vs v HR Hn) as (q & m2 & l2 & ? & ? & _). split; eauto 10.
Qed.

(** Removal: [zend_llist_del_element] removes the first element the
    comparison accepts, [zend_llist_apply_with_del] those for which the
    callback returns true, [zend_llist_remove_tail] the last one,
    [zend_llist_clean] all; each removed value goes to the destructor once,
    in order, and the rest stays a well-formed list. *)
Theorem llist_remove {E S} m l xs vs (x : E) compare (f : V → S → bool * S) s :
  LRep m l xs vs →
  (∃ m' l' xs', zend_llist_del_element m l x compare = OK (m', l') ∧
     LRep m' l' xs' (remove_first (λ v, compare v x) vs) ∧
     elog m' = elog m ++ dlog l (option_list (List.find (λ v, compare v x) vs))) ∧
  (let '(kept, removed, s') := lfilter f s vs in
   ∃ m' l' xs', zend_llist_apply_with_del m l f s = OK (m', l', s') ∧ LRep m' l' xs' kept ∧
     elog m' = elog m ++ dlog l removed) ∧
  (∀ xs0 p vs0 v, xs = xs0 ++ [p] → vs = vs0 ++ [v] →
     ∃ m' l', zend_llist_remove_tail m l = OK (Some p, m', l') ∧ LRep m' l' xs0 vs0 ∧
       elog m' = elog m ++ dlog l [v]) ∧
  (∃ m' l', zend_llist_clean m l = OK (m', l') ∧ LRep m' l' [] [] ∧
     (∀ q, q ∈ xs → eheap m' !! q = None) ∧ elog m' = elog m ++ dlog l vs).
Proof.
  intros HR. split_and!.
  - destruct (del_element_spec m l xs vs x compare HR) as (m' & l' & xs' & ? & ? & _ & ?). eauto 10.
  - pose proof (apply_with_del_spec m l xs vs f s HR) as Hap. destruct (lfilter f s vs) as [[kept removed] s'].
    destruct Hap as (m' & l' & xs' & ? & ? & _ & ?). eauto 10.
  - intros xs0 p vs0 v -> ->. destruct (remove_tail_spec m l xs0 p vs0 v HR) as (m' & l' & ? & ? & ? & _). eauto 10.
  - destruct (lclean_spec m l xs vs HR) as (m' & l' & ? & ? & Hh & ?). exists m', l'. split_and!; try done.
    intros q Hq. by rewrite Hh, decide_True.
Qed.

(** [zend_llist_copy] makes a list of its own with the same values and
    leaves the source alone; [n] steps of the traversal functions reach the
    [n]-th value. *)
Theorem llist_copy_traverse m src dst xs vs pos n :
  LRep m src xs vs → (n ≤ length xs)%nat →
  ∃ m' dst' ys, zend_llist_copy m dst src = OK (m', dst') ∧ LRep m' src xs vs ∧ LRep m' dst' ys vs ∧ xs ## ys ∧
    ∃ pos' dst1, get_nth n m' dst' pos = OK (vs !! n, pos', dst1).
Proof.
  intros HR Hn. destruct (lcopy_spec m src dst xs vs HR) as (m' & dst' & ys & ? & ? & HD & ? & _).
  exists m', dst', ys. split_and!; try done.
  destruct (get_nth_ok n m' dst' ys vs pos HD) as (pos' & dst1 & ? & _); [|eauto].
  rewrite <- (lr_length _ _ _ _ HD), (lr_length _ _ _ _ HR). done.
Qed.

(** [zend_llist_sort] relinks the same elements in the order in which the
    sort function puts the array of their addresses. *)
Theorem llist_sort_relinks `{SortFunc} m l xs vs comp :
  LRep m l xs vs → xs ≠ [] →
  ∃ es0 m' l', es0.*1 = xs ∧ Forall (λ e, eheap m !! e.1 = Some e.2) es0 ∧
    zend_llist_sort m l comp = OK (m', l') ∧
    (let es := sort_func (λ a b, comp a.2 b.2) es0 in
     LRep m' l' es.*1 (el_data <$> es.*2) ∧ es.*1 ≡ₚ xs ∧ el_data <$> es.*2 ≡ₚ vs) ∧ elog m' = elog m.
Proof. apply lsort_spec. Qed.
End llist.

(** [zend_stack] is a stack: a push returns the index of the element and
    puts it on top, [zend_stack_top] reads it, [zend_stack_del_top] removes
    it; the array grows as needed and every access is inside it;
    [zend_stack_destroy] frees every element; the traversals visit the
    elements top-down or bottom-up until the callback stops. *)
Theorem stack_lifo {V S} (st : zend_stack V) vs v (f : V → S → bool * S) s :
  SRep st vs → Z.of_nat (length vs) + STACK_BLOCK_SIZE <= INT_MAX →
  ∃ st1, zend_stack_push st v = OK (Z.of_nat (length vs), st1) ∧ SRep st1 (vs ++ [v]) ∧
    zend_stack_top st1 = OK (SUCCESS, Some v) ∧ zend_stack_count st1 = Z.of_nat (length vs) + 1 ∧
    (∃ st2, zend_stack_del_top st1 = OK st2 ∧ SRep st2 vs) ∧
    (∃ st3, zend_stack_destroy st1 = OK (vs ++ [v], st3)) ∧
    zend_stack_apply st1 ZEND_STACK_APPLY_TOPDOWN f s = OK (visit f s (v :: reverse vs)) ∧
    zend_stack_apply st1 ZEND_STACK_APPLY_BOTTOMUP f s = OK (visit f s (vs ++ [v])).
Proof.
  intros HR Hn. destruct (stack_push_spec st vs v HR Hn) as (st1 & Hp & HR1). exists st1.
  split_and!; try done.
  - by eapply stack_top_spec.
  - destruct HR1 as [Ht _]. unfold zend_stack_count. rewrite Ht, length_app. simpl. lia.
  - by eapply stack_del_top_spec.
  - by eapply stack_destroy_spec.
  - rewrite <- reverse_snoc. by apply stack_apply_spec.
  - by apply stack_apply_spec.
Qed.

(** [zend_ptr_stack]: several pointers pushed at once (by the loop or the
    unrolled variants) come back in the opposite order from as many pops. *)
Theorem ptr_stack_lifo {P} (st : zend_ptr_stack P) xs ys a b c :
  PRep st xs → Z.of_nat (length xs) + Z.of_nat (length ys) + 67 <= INT_MAX →
  (∃ st1 st2, zend_ptr_stack_n_push st ys = OK st1 ∧ PRep st1 (xs ++ ys) ∧
     zend_ptr_stack_n_pop st1 (length ys) = OK (reverse ys, st2) ∧ PRep st2 xs) ∧
  (∃ st1 st2, zend_ptr_stack_push st a = OK st1 ∧ zend_ptr_stack_top st1 = OK a ∧
     zend_ptr_stack_pop st1 = OK (a, st2) ∧ PRep st2 xs) ∧
  (∃ st1, zend_ptr_stack_2_push st a b = OK st1 ∧ PRep st1 (xs ++ [a; b])) ∧
  (∃ st1, zend_ptr_stack_3_push st a b c = OK st1 ∧ PRep st1 (xs ++ [a; b; c])).
Proof.
  intros HR Hn. destruct (push23_spec st xs a b c HR) as [H2 H3]; [lia|]. split_and!; [| |done|done].
  - destruct (n_push_spec st xs ys HR) as (st1 & Hp & HR1); [lia|].
    destruct (n_pop_spec st1 xs ys HR1) as (st2 & Hq & HR2). eauto 10.
  - destruct (push_spec st xs a HR) as (st1 & Hp & HR1); [lia|].
    destruct (pop_spec st1 xs a HR1) as (st2 & Hq & HR2).
    exists st1, st2. split_and!; try done. by eapply ptr_top_spec.
Qed.

(** * Examples *)

Lemma qsort_correct_witness :
  ∃ a', zend_qsort Z.sub 8 [3; 1; 2] = OK a' ∧ a' ≡ₚ [3; 1; 2] ∧ StronglySorted (λ x y, x - y <= 0) a'.
Proof. apply (qsort_correct Z.sub 8 [3; 1; 2]); [intros; lia|intros; lia|lia|simpl; lia]. Defined.

(** A comparison that claims every element is greater than every other. *)
Lemma qsort_robust_witness :
  ∃ a', zend_qsort (λ _ _, 1) 8 [3; 1; 2] = OK a' ∧ a' ≡ₚ [3; 1; 2].
Proof. apply (qsort_robust (λ _ _, 1) 8 [3; 1; 2]); [lia|simpl; lia]. Defined.

Lemma qsort_swap_exchanges_witness :
  _zend_qsort_swap [1; 2; 3; 4; 5; 6] [7; 8; 9; 10; 11; 12] 6 = ([7; 8; 9; 10; 11; 12], [1; 2; 3; 4; 5; 6]).
Proof. apply (qsort_swap_exchanges [1; 2; 3; 4; 5; 6] [7; 8; 9; 10; 11; 12] 6); reflexivity. Defined.

(** The list 10, 20, 30. *)
#[local] Existing Instance bump_malloc.
Definition lm0 : lmem Z := mkLmem ∅ [].
Definition ex_list0 : zend_llist := zend_llist_init (mkLlist None None 0 0 false false None) 8 true false.
Definition ex_list_run : outcome (lmem Z * zend_llist) :=
  let* (m, l) := zend_llist_add_element lm0 ex_list0 20 in
  let* (m, l) := zend_llist_add_element m l 30 in
  zend_llist_prepend_element m l 10.
Definition ex_lm : lmem Z := match ex_list_run with OK (m, _) => m | _ => lm0 end.
Definition ex_list : zend_llist := match ex_list_run with OK (_, l) => l | _ => ex_list0 end.

Lemma ex_list_rep : LRep ex_lm ex_list [4; 2; 3]%positive [10; 20; 30].
Proof.
  split; try reflexivity.
  - vm_compute. repeat split.
  - apply (bool_decide_unpack _). vm_compute. exact I.
  - repeat constructor.
Qed.

Lemma llist_insert_witness :
  ∃ p m' l', zend_llist_add_element ex_lm ex_list 40 = OK (m', l') ∧
    LRep m' l' ([4; 2; 3]%positive ++ [p]) [10; 20; 30; 40].
Proof. destruct (llist_insert ex_lm ex_list _ _ 40 ex_list_rep) as [Hi _]; [simpl; lia|exact Hi]. Defined.

Lemma llist_remove_witness :
  ∃ m' l' xs', zend_llist_del_element ex_lm ex_list 20 Z.eqb = OK (m', l') ∧ LRep m' l' xs' [10; 30] ∧
     elog m' = [20].
Proof.
  destruct (llist_remove ex_lm ex_list _ _ 20 Z.eqb (λ v (s : unit), (true, s)) tt ex_list_rep)
    as [(m' & l' & xs' & Hrun & HR & Hlog) _].
  exists m', l', xs'. split; [exact Hrun|]. split; [exact HR|]. rewrite Hlog. vm_compute. reflexivity.
Defined.

Lemma llist_copy_traverse_witness :
  ∃ m' dst' ys, zend_llist_copy ex_lm ex_list0 ex_list = OK (m', dst') ∧
    LRep m' ex_list [4; 2; 3]%positive [10; 20; 30] ∧ LRep m' dst' ys [10; 20; 30] ∧ [4; 2; 3]%positive ## ys ∧
    ∃ pos' dst1, get_nth 2 m' dst' None = OK (Some 30, pos', dst1).
Proof.
  assert (2 ≤ length [4; 2; 3]%positive)%nat as Hn by (simpl; lia).
  exact (llist_copy_traverse ex_lm ex_list ex_list0 _ _ None 2 ex_list_rep Hn).
Defined.

Lemma llist_sort_relinks_witness :
  ∃ (es0 : list (ptr * zend_llist_element Z)) m' l', es0.*1 = [4; 2; 3]%positive ∧
    Forall (λ e, eheap ex_lm !! e.1 = Some e.2) es0 ∧
    zend_llist_sort (H0 := qsort_func) ex_lm ex_list (λ a b, el_data b - el_data a) = OK (m', l') ∧
    (let es := qsort_list (λ a b, el_data b.2 - el_data a.2) es0 in
     LRep m' l' es.*1 (el_data <$> es.*2) ∧ es.*1 ≡ₚ [4; 2; 3]%positive ∧
     el_data <$> es.*2 ≡ₚ [10; 20; 30]) ∧ elog m' = elog ex_lm.
Proof.
  assert ([4; 2; 3]%positive ≠ []) as Hne by discriminate.
  exact (llist_sort_relinks (H0 := qsort_func) ex_lm ex_list _ _ (λ a b, el_data b - el_data a) ex_list_rep Hne).
Defined.

Lemma stack_lifo_witness :
  ∃ st1, zend_stack_push (zend_stack_init : zend_stack Z) 7 = OK (0, st1) ∧ SRep st1 [7] ∧
    zend_stack_top st1 = OK (SUCCESS, Some 7).
Proof.
  destruct (stack_lifo zend_stack_init [] 7 (λ v s, (false, s + v)) 0 stack_init_spec) as (st1 & H1 & H2 & H3 & _).
  { vm_compute. discriminate. }
  exists st1. split; [exact H1|]. split; [exact H2|exact H3].
Defined.

Lemma ptr_stack_lifo_witness :
  ∃ st1 st2, zend_ptr_stack_n_push zend_ptr_stack_init [1; 2; 3] = OK st1 ∧ PRep st1 [1; 2; 3] ∧
     zend_ptr_stack_n_pop st1 3 = OK ([3; 2; 1], st2) ∧ PRep st2 [].
Proof.
  destruct (ptr_stack_lifo zend_ptr_stack_init [] [1; 2; 3] 4 5 6) as [Hp _]; [| |exact Hp].
  - split; [reflexivity|]. split; [reflexivity|]. split; [split; [reflexivity|reflexivity]|vm_compute; discriminate].
  - vm_compute. discriminate.
Defined.
