(* ===== verification/Base64.v ===== *)
(** ext/standard/base64.c: encoding and decoding, with the theorems about them. *)

From S2P Require Import Prelude.

(** * MIME base64, ext/standard/base64 *)

(** [result[j] = v] on a buffer of [unsigned char]. *)
Definition bset (res : list Z) (j : Z) (v : Z) : outcome (list Z) :=
  if (0 <=? j) && (j <? Z.of_nat (length res)) then OK (<[Z.to_nat j := v mod 256]> res) else UB.
Definition bget (res : list Z) (j : Z) : outcome Z := if 0 <=? j then rd (res !! Z.to_nat j) else UB.

Definition base64_table : list Z :=
  [65; 66; 67; 68; 69; 70; 71; 72; 73; 74; 75; 76; 77;
   78; 79; 80; 81; 82; 83; 84; 85; 86; 87; 88; 89; 90;
   97; 98; 99; 100; 101; 102; 103; 104; 105; 106; 107; 108; 109;
   110; 111; 112; 113; 114; 115; 116; 117; 118; 119; 120; 121; 122;
   48; 49; 50; 51; 52; 53; 54; 55; 56; 57; 43; 47; 0].

Definition base64_pad : Z := 61.

Definition base64_reverse_table : list Z :=
  [-2; -2; -2; -2; -2; -2; -2; -2; -2; -1; -1; -2; -2; -1; -2; -2;
   -2; -2; -2; -2; -2; -2; -2; -2; -2; -2; -2; -2; -2; -2; -2; -2;
   -1; -2; -2; -2; -2; -2; -2; -2; -2; -2; -2; 62; -2; -2; -2; 63;
   52; 53; 54; 55; 56; 57; 58; 59; 60; 61; -2; -2; -2; -2; -2; -2;
   -2;  0;  1;  2;  3;  4;  5;  6;  7;  8;  9; 10; 11; 12; 13; 14;
   15; 16; 17; 18; 19; 20; 21; 22; 23; 24; 25; -2; -2; -2; -2; -2;
   -2; 26; 27; 28; 29; 30; 31; 32; 33; 34; 35; 36; 37; 38; 39; 40;
   41; 42; 43; 44; 45; 46; 47; 48; 49; 50; 51; -2; -2; -2; -2; -2] ++
  replicate 128 (-2).

(** An index into a table; the operands are bytes, so it is in range. *)
Definition enc (i : Z) : Z := default 0 (base64_table !! Z.to_nat i).
Definition rev_ (c : Z) : Z := default 0 (base64_reverse_table !! Z.to_nat c).

(** The loop over groups of three bytes and the tail of one or two. *)
Fixpoint encode_loop (s : list Z) : list Z :=
  match s with
  | c0 :: c1 :: c2 :: s =>
      enc (Z.shiftr c0 2) :: enc (Z.shiftl (Z.land c0 0x03) 4 + Z.shiftr c1 4) ::
      enc (Z.shiftl (Z.land c1 0x0f) 2 + Z.shiftr c2 6) :: enc (Z.land c2 0x3f) :: encode_loop s
  | [c0; c1] =>
      [enc (Z.shiftr c0 2); enc (Z.shiftl (Z.land c0 0x03) 4 + Z.shiftr c1 4);
       enc (Z.shiftl (Z.land c1 0x0f) 2); base64_pad]
  | [c0] => [enc (Z.shiftr c0 2); enc (Z.shiftl (Z.land c0 0x03) 4); base64_pad; base64_pad]
  | [] => []
  end.

(** The result with its terminating NUL, and [*ret_length], the distance
    [p - result] cut down to an [int]: negative or too small when the result
    has [2^31] characters or more.  The parameter is an [int];
    [(length + 2) / 3] overflows on its two largest values, and [str] has to
    have that many bytes. *)
Definition php_base64_encode (str : list Z) (length_ : Z) : outcome (option (list Z * Z)) :=
  let length_ := to_int length_ in
  if length_ <? 0 then OK None
  else if (INT_MAX <? length_ + 2) || (Z.of_nat (length str) <? length_) then UB
  else
    let result := encode_loop (take (Z.to_nat length_) str) in
    OK (Some (result ++ [0], to_int (Z.of_nat (length result)))).

(** [isspace] in the C locale. *)
Definition isspace (c : Z) : bool := (c =? 32) || ((9 <=? c) && (c <=? 13)).

(** [while (isspace( *(++current))) continue;] *)
Fixpoint space_loop (fuel : nat) (str : list Z) (current : Z) : outcome Z :=
  match fuel with
  | O => UB
  | S fuel =>
      let current := current + 1 in
      let* c := rd (str !! Z.to_nat current) in
      if isspace c then space_loop fuel str current else OK current
  end.

(** The switch on [i % 4]: what one character of the table does to the
    buffer. *)
Definition sextet_step (i j x : Z) (result : list Z) : outcome (Z * list Z) :=
  match i mod 4 with
  | 0 => let* r := bset result j (Z.shiftl x 2) in OK (j, r)
  | 1 =>
      let* y := bget result j in
      let* r := bset result j (Z.lor y (Z.shiftr x 4)) in
      let j := j + 1 in
      let* r := bset r j (Z.shiftl (Z.land x 0x0f) 4) in OK (j, r)
  | 2 =>
      let* y := bget result j in
      let* r := bset result j (Z.lor y (Z.shiftr x 2)) in
      let j := j + 1 in
      let* r := bset r j (Z.shiftl (Z.land x 0x03) 6) in OK (j, r)
  | _ =>
      let* y := bget result j in
      let* r := bset result j (Z.lor y x) in OK (j + 1, r)
  end.

(** The loop of [php_base64_decode_ex]: [None] when it returns [NULL],
    otherwise the values of [ch], [i], [j] and the buffer behind it. *)
Fixpoint decode_loop (fuel : nat) (str : list Z) (strict : bool) (current length_ i j : Z) (result : list Z)
    : outcome (option (Z * Z * Z * list Z)) :=
  match fuel with
  | O => UB
  | S fuel =>
      let* ch := rd (str !! Z.to_nat current) in
      let current := current + 1 in
      if ch =? 0 then OK (Some (ch, i, j, result))
      else if negb (0 <? length_) then OK (Some (ch, i, j, result))
      else
        let length_ := length_ - 1 in
        if ch =? base64_pad then
          let* c := rd (str !! Z.to_nat current) in
          if negb (c =? base64_pad) && ((i mod 4 =? 1) || (strict && (0 <? length_))) then
            if negb (i mod 4 =? 1) then
              let* current := space_loop (length str) str current in
              let* c := rd (str !! Z.to_nat current) in
              if c =? 0 then decode_loop fuel str strict current length_ i j result
              else OK None
            else OK None
          else decode_loop fuel str strict current length_ i j result
        else
          let ch := rev_ ch in
          if (negb strict && (ch <? 0)) || (ch =? -1) then decode_loop fuel str strict current length_ i j result
          else if ch =? -2 then OK None
          else
            let* (j, result) := sextet_step i j ch result in
            decode_loop fuel str strict current length_ (i + 1) j result
  end.

(** The bytes of the result, [*ret_length] of them (no more than [length], so
    the [int] holds their number); the buffer is not initialised ([junk]).
    The parameter is an [int]; [safe_emalloc] takes it as a [size_t], so a
    negative one is an allocation that overflows or cannot be had, which
    ends the request. *)
Definition php_base64_decode_ex (junk : Z) (str : list Z) (length_ : Z) (strict : bool) : outcome (option (list Z)) :=
  let length_ := to_int length_ in
  if length_ <? 0 then Bailout else
  let result := replicate (Z.to_nat length_ + 1) junk in
  let* r := decode_loop (length str + 1) str strict 0 length_ 0 0 result in
  match r with
  | None => OK None
  | Some (ch, i, j, result) =>
      let* result :=
        if ch =? base64_pad then
          match i mod 4 with
          | 1 => OK None
          | 2 => let* r := bset result (j + 1) 0 in OK (Some r)
          | 3 => let* r := bset result j 0 in OK (Some r)
          | _ => OK (Some result)
          end
        else OK (Some result) in
      match result with
      | None => OK None
      | Some result =>
          let* result := bset result j 0 in
          OK (Some (take (Z.to_nat j) result))
      end
  end.

Definition php_base64_decode (junk : Z) (str : list Z) (length_ : Z) : outcome (option (list Z)) :=
  php_base64_decode_ex junk str length_ false.

Example base64_ex : php_base64_encode [80; 72; 80; 33] 4 = OK (Some ([85; 69; 104; 81; 73; 81; 61; 61; 0], 8)).
Proof. reflexivity. Qed.
Example base64_ex2 : php_base64_decode_ex 7 [85; 69; 104; 81; 73; 81; 61; 61; 0] 8 true = OK (Some [80; 72; 80; 33]).
Proof. reflexivity. Qed.

(** * Bits *)

Lemma lor_add q n r : 0 <= n → 0 <= r < 2 ^ n → Z.lor (q * 2 ^ n) r = q * 2 ^ n + r.
Proof.
  intros Hn Hr. assert (Z.land (q * 2 ^ n) r = 0) as Hl.
  { apply Z.bits_inj'. intros k Hk. rewrite Z.land_spec, Z.bits_0. destruct (Z.lt_ge_cases k n).
    - by rewrite Z.mul_pow2_bits_low.
    - destruct (Z.eq_dec r 0) as [->|]; [by rewrite Z.testbit_0_l, andb_false_r|].
      rewrite (Z.bits_above_log2 r); [by rewrite andb_false_r|lia|]. apply Z.log2_lt_pow2; [lia|].
      eapply Z.lt_le_trans; [apply Hr|]. apply Z.pow_le_mono_r; lia. }
  rewrite <- Z.lxor_lor, <- Z.add_nocarry_lxor by done. done.
Qed.

Lemma land_mod c n : 0 <= n → Z.land c (2 ^ n - 1) = c mod 2 ^ n.
Proof. intros. by apply land_mask. Qed.

(** The four sextets of three bytes, as numbers. *)
Lemma sextets c0 c1 c2 :
  Z.shiftr c0 2 = c0 / 4 ∧ Z.shiftl (Z.land c0 0x03) 4 = c0 mod 4 * 16 ∧ Z.shiftr c1 4 = c1 / 16 ∧
  Z.shiftl (Z.land c1 0x0f) 2 = c1 mod 16 * 4 ∧ Z.shiftr c2 6 = c2 / 64 ∧ Z.land c2 0x3f = c2 mod 64.
Proof.
  rewrite !Z.shiftr_div_pow2, !Z.shiftl_mul_pow2 by lia.
  change 0x03 with (2 ^ 2 - 1). change 0x0f with (2 ^ 4 - 1). change 0x3f with (2 ^ 6 - 1).
  by rewrite !land_mod by lia.
Qed.

(** What the decoder makes of them. *)
Lemma desextets x :
  Z.shiftl x 2 = x * 4 ∧ Z.shiftr x 4 = x / 16 ∧ Z.shiftl (Z.land x 0x0f) 4 = x mod 16 * 16 ∧
  Z.shiftr x 2 = x / 4 ∧ Z.shiftl (Z.land x 0x03) 6 = x mod 4 * 64.
Proof.
  rewrite !Z.shiftr_div_pow2, !Z.shiftl_mul_pow2 by lia.
  change 0x03 with (2 ^ 2 - 1). change 0x0f with (2 ^ 4 - 1).
  by rewrite !land_mod by lia.
Qed.

(** The reverse table inverts the table, on characters that are neither NUL
    nor padding. *)
Lemma table_inverse x : 0 <= x < 64 → rev_ (enc x) = x ∧ enc x ≠ 0 ∧ enc x ≠ base64_pad.
Proof.
  intros Hx.
  assert (forallb (λ n, bool_decide (rev_ (enc (Z.of_nat n)) = Z.of_nat n ∧ enc (Z.of_nat n) ≠ 0 ∧ enc (Z.of_nat n) ≠ base64_pad)) (seq 0 64) = true) as Hall
    by (vm_compute; reflexivity).
  pose proof (proj1 (forallb_forall _ _) Hall (Z.to_nat x)) as Hx'. cbv beta in Hx'. rewrite Z2Nat.id in Hx' by lia.
  apply (bool_decide_eq_true_1 _), Hx', in_seq. lia.
Qed.

(** * Decoding what was encoded *)

Lemma bset_at pre x tl v j :
  j = Z.of_nat (length pre) → bset (pre ++ x :: tl) j v = OK (pre ++ v mod 256 :: tl).
Proof.
  intros ->. unfold bset. rewrite length_app. simpl.
  rewrite (proj2 (Z.leb_le _ _)), (proj2 (Z.ltb_lt _ _)) by lia. simpl.
  rewrite Nat2Z.id, insert_app_r_alt, Nat.sub_diag by lia. done.
Qed.

Lemma bget_at pre x tl j : j = Z.of_nat (length pre) → bget (pre ++ x :: tl) j = OK x.
Proof.
  intros ->. unfold bget. rewrite (proj2 (Z.leb_le _ _)) by lia.
  rewrite Nat2Z.id, lookup_app_r, Nat.sub_diag by lia. done.
Qed.

Lemma decode_char fuel str strict cur len i j res x :
  str !! Z.to_nat cur = Some (enc x) → 0 <= x < 64 → 0 < len →
  decode_loop (S fuel) str strict cur len i j res =
    (let* (j, res) := sextet_step i j x res in
     decode_loop fuel str strict (cur + 1) (len - 1) (i + 1) j res).
Proof.
  intros Hs Hx Hl. destruct (table_inverse x Hx) as (Hr & H0 & Hp). cbn [decode_loop]. rewrite Hs. ob.
  rewrite (proj2 (Z.eqb_neq (enc x) 0)), (proj2 (Z.ltb_lt 0 len)), (proj2 (Z.eqb_neq (enc x) base64_pad)) by done.
  cbn [negb]. rewrite Hr. rewrite (proj2 (Z.ltb_ge x 0)), (proj2 (Z.eqb_neq x (-1))), (proj2 (Z.eqb_neq x (-2))) by lia.
  rewrite andb_false_r. done.
Qed.

(** The bytes that come out of consecutive sextets. *)
Lemma byte0 c0 c1 : is_byte c0 → is_byte c1 →
  Z.lor (c0 / 4 * 4 mod 256) ((c0 mod 4 * 16 + c1 / 16) / 16) mod 256 = c0.
Proof.
  intros H0 H1. rewrite Z.div_add_l by lia. rewrite (Z.div_small (c1 / 16)) by (split; [apply Z.div_pos|apply Z.div_lt_upper_bound]; lia).
  rewrite (Z.mod_small (c0 / 4 * 4)) by (pose proof (Z.mul_div_le c0 4); pose proof (Z.div_pos c0 4); lia).
  change 4 with (2 ^ 2) at 2. rewrite lor_add by (try lia; rewrite Z.add_0_r; change (2 ^ 2) with 4; apply Z.mod_pos_bound; lia).
  change (2 ^ 2) with 4. rewrite Z.add_0_r. replace (c0 / 4 * 4 + c0 mod 4) with c0 by (rewrite (Z.div_mod c0 4) at 1; lia).
  by apply Z.mod_small.
Qed.

Lemma byte1 c0 c1 c2 : is_byte c0 → is_byte c1 → is_byte c2 →
  Z.lor ((c0 mod 4 * 16 + c1 / 16) mod 16 * 16 mod 256) ((c1 mod 16 * 4 + c2 / 64) / 4) mod 256 = c1.
Proof.
  intros H0 H1 H2. assert (0 <= c1 / 16 < 16) as Hd by (split; [apply Z.div_pos|apply Z.div_lt_upper_bound]; lia).
  rewrite Z.add_comm, Z.mod_add, (Z.mod_small (c1 / 16)) by lia.
  rewrite Z.div_add_l by lia. rewrite (Z.div_small (c2 / 64)) by (split; [apply Z.div_pos|apply Z.div_lt_upper_bound]; lia).
  rewrite Z.add_0_r, (Z.mod_small (c1 / 16 * 16)) by lia.
  change 16 with (2 ^ 4) at 2. rewrite lor_add by (try lia; change (2 ^ 4) with 16; apply Z.mod_pos_bound; lia).
  change (2 ^ 4) with 16. replace (c1 / 16 * 16 + c1 mod 16) with c1 by (rewrite (Z.div_mod c1 16) at 1; lia).
  by apply Z.mod_small.
Qed.

Lemma byte2 c1 c2 : is_byte c1 → is_byte c2 →
  Z.lor ((c1 mod 16 * 4 + c2 / 64) mod 4 * 64 mod 256) (c2 mod 64) mod 256 = c2.
Proof.
  intros H1 H2. assert (0 <= c2 / 64 < 4) as Hd by (split; [apply Z.div_pos|apply Z.div_lt_upper_bound]; lia).
  rewrite Z.add_comm, Z.mod_add, (Z.mod_small (c2 / 64)) by lia. rewrite (Z.mod_small (c2 / 64 * 64)) by lia.
  change 64 with (2 ^ 6) at 2. rewrite lor_add by (try lia; change (2 ^ 6) with 64; apply Z.mod_pos_bound; lia).
  change (2 ^ 6) with 64. replace (c2 / 64 * 64 + c2 mod 64) with c2 by (rewrite (Z.div_mod c2 64) at 1; lia).
  by apply Z.mod_small.
Qed.

Lemma step0 i j x pre t tl :
  i mod 4 = 0 → j = Z.of_nat (length pre) →
  sextet_step i j x (pre ++ t :: tl) = OK (j, pre ++ x * 4 mod 256 :: tl).
Proof.
  intros Hi Hj. unfold sextet_step. rewrite Hi, (bset_at _ _ _ _ _ Hj). ob.
  by destruct (desextets x) as (-> & _).
Qed.

Lemma bset_next pre y t tl v j :
  j = Z.of_nat (length pre) → bset (pre ++ y :: t :: tl) (j + 1) v = OK (pre ++ y :: v mod 256 :: tl).
Proof.
  intros Hj. assert (j + 1 = Z.of_nat (length (pre ++ [y]))) as E by (rewrite length_app; simpl; lia).
  pose proof (bset_at (pre ++ [y]) t tl v (j + 1) E) as Hb. by rewrite <- !app_assoc in Hb.
Qed.

Lemma step1 i j x pre y t tl :
  i mod 4 = 1 → j = Z.of_nat (length pre) →
  sextet_step i j x (pre ++ y :: t :: tl) =
    OK (j + 1, pre ++ Z.lor y (x / 16) mod 256 :: x mod 16 * 16 mod 256 :: tl).
Proof.
  intros Hi Hj. unfold sextet_step. rewrite Hi, (bget_at _ _ _ _ Hj). ob.
  rewrite (bset_at _ _ _ _ _ Hj). ob. rewrite (bset_next _ _ _ _ _ _ Hj). ob.
  by destruct (desextets x) as (_ & -> & -> & _).
Qed.

Lemma step2 i j x pre y t tl :
  i mod 4 = 2 → j = Z.of_nat (length pre) →
  sextet_step i j x (pre ++ y :: t :: tl) =
    OK (j + 1, pre ++ Z.lor y (x / 4) mod 256 :: x mod 4 * 64 mod 256 :: tl).
Proof.
  intros Hi Hj. unfold sextet_step. rewrite Hi, (bget_at _ _ _ _ Hj). ob.
  rewrite (bset_at _ _ _ _ _ Hj). ob. rewrite (bset_next _ _ _ _ _ _ Hj). ob.
  by destruct (desextets x) as (_ & _ & _ & -> & ->).
Qed.

Lemma step3 i j x pre y tl :
  i mod 4 = 3 → j = Z.of_nat (length pre) →
  sextet_step i j x (pre ++ y :: tl) = OK (j + 1, pre ++ Z.lor y x mod 256 :: tl).
Proof.
  intros Hi Hj. unfold sextet_step. rewrite Hi, (bget_at _ _ _ _ Hj). ob. by rewrite (bset_at _ _ _ _ _ Hj).
Qed.

(** The end of the string, and the padding in front of it. *)
Lemma decode_end fuel str strict cur len i j res :
  str !! Z.to_nat cur = Some 0 → decode_loop (S fuel) str strict cur len i j res = OK (Some (0, i, j, res)).
Proof. intros Hs. cbn [decode_loop]. by rewrite Hs. Qed.

Lemma decode_pad fuel str strict cur len i j res c :
  str !! Z.to_nat cur = Some base64_pad → str !! Z.to_nat (cur + 1) = Some c → 0 < len → i mod 4 ≠ 1 →
  c = base64_pad ∨ len = 1 →
  decode_loop (S fuel) str strict cur len i j res = decode_loop fuel str strict (cur + 1) (len - 1) i j res.
Proof.
  intros Hs Hc Hl Hi Hor. cbn [decode_loop]. rewrite Hs. ob. change (base64_pad =? 0) with false.
  change (base64_pad =? base64_pad) with true. rewrite (proj2 (Z.ltb_lt 0 len)) by done. cbn [negb].
  rewrite Hc. ob. rewrite (proj2 (Z.eqb_neq (i mod 4) 1)) by done.
  assert (negb (c =? base64_pad) && (false || strict && (0 <? len - 1)) = false) as ->; [|done].
  destruct Hor as [-> | ->]; [done|]. by rewrite !andb_false_r.
Qed.

Lemma drop_lookup {A} (l : list A) n x l' : drop n l = x :: l' → l !! n = Some x ∧ drop (n + 1) l = l'.
Proof.
  intros E. split.
  - rewrite <- (Nat.add_0_r n), <- lookup_drop, E. done.
  - rewrite <- drop_drop, E. done.
Qed.

Lemma cur_next {A} (l : list A) cur x l' :
  0 <= cur → drop (Z.to_nat cur) l = x :: l' →
  l !! Z.to_nat cur = Some x ∧ drop (Z.to_nat (cur + 1)) l = l'.
Proof. intros Hc E. replace (Z.to_nat (cur + 1)) with (Z.to_nat cur + 1)%nat by lia. by apply drop_lookup. Qed.

Lemma cur_next' {A} (l : list A) cur x l' : drop (Z.to_nat cur) l = x :: l' → 0 <= cur →
  l !! Z.to_nat cur = Some x ∧ drop (Z.to_nat (cur + 1)) l = l'.
Proof. intros E Hc. by apply cur_next. Qed.

Lemma mod4 i r k : i mod 4 = r → 0 <= k → r + k < 4 → 0 <= r → (i + k) mod 4 = r + k.
Proof. intros Hi Hk Hr H0. rewrite Z.add_mod, Hi by lia. rewrite (Z.mod_small k) by lia. apply Z.mod_small. lia. Qed.

Lemma sextet_range c0 c1 c2 : is_byte c0 → is_byte c1 → is_byte c2 →
  0 <= c0 / 4 < 64 ∧ 0 <= c0 mod 4 * 16 + c1 / 16 < 64 ∧ 0 <= c1 mod 16 * 4 + c2 / 64 < 64 ∧ 0 <= c2 mod 64 < 64.
Proof.
  intros. assert (∀ a b, 0 < b → 0 <= a mod b < b) as Hm by (intros; by apply Z.mod_pos_bound).
  pose proof (Hm c0 4 ltac:(lia)). pose proof (Hm c1 16 ltac:(lia)). pose proof (Hm c2 64 ltac:(lia)).
  assert (0 <= c0 / 4 < 64) by (split; [apply Z.div_pos|apply Z.div_lt_upper_bound]; lia).
  assert (0 <= c1 / 16 < 16) by (split; [apply Z.div_pos|apply Z.div_lt_upper_bound]; lia).
  assert (0 <= c2 / 64 < 4) by (split; [apply Z.div_pos|apply Z.div_lt_upper_bound]; lia).
  lia.
Qed.

(** The first two sextets give a byte and the beginning of the next. *)
Lemma decode_two fuel str strict cur len i j pre c0 c1 t0 t1 tl rest :
  is_byte c0 → is_byte c1 → 0 <= cur → i mod 4 = 0 → j = Z.of_nat (length pre) → 2 <= len →
  drop (Z.to_nat cur) str = enc (c0 / 4) :: enc (c0 mod 4 * 16 + c1 / 16) :: rest →
  decode_loop (S (S fuel)) str strict cur len i j (pre ++ t0 :: t1 :: tl) =
    decode_loop fuel str strict (cur + 2) (len - 2) (i + 2) (j + 1)
      (pre ++ c0 :: (c0 mod 4 * 16 + c1 / 16) mod 16 * 16 mod 256 :: tl) ∧
  drop (Z.to_nat (cur + 2)) str = rest.
Proof.
  intros H0 H1 Hc Hi Hj Hl Hd. destruct (sextet_range c0 c1 0 H0 H1 ltac:(lia)) as (R0 & R1 & _).
  destruct (cur_next _ _ _ _ Hc Hd) as [E0 Hd1]. destruct (cur_next' _ _ _ _ Hd1 ltac:(lia)) as [E1 Hd2].
  replace (cur + 1 + 1) with (cur + 2) in * by lia. split; [|done].
  rewrite (decode_char _ _ _ _ _ _ _ _ _ E0 R0) by lia. rewrite (step0 _ _ _ _ _ _ Hi Hj). ob.
  rewrite (decode_char _ _ _ _ _ _ _ _ _ E1 R1) by lia.
  rewrite step1; [|by rewrite (mod4 i 0 1)|done]. ob. rewrite byte0 by done.
  replace (cur + 1 + 1) with (cur + 2) by lia. replace (len - 1 - 1) with (len - 2) by lia.
  by replace (i + 1 + 1) with (i + 2) by lia.
Qed.

Lemma decode_three fuel str strict cur len i j pre c0 c1 c2 y t tl rest :
  is_byte c0 → is_byte c1 → is_byte c2 → 0 <= cur → i mod 4 = 2 → j = Z.of_nat (length pre) → 1 <= len →
  y = (c0 mod 4 * 16 + c1 / 16) mod 16 * 16 mod 256 →
  drop (Z.to_nat cur) str = enc (c1 mod 16 * 4 + c2 / 64) :: rest →
  decode_loop (S fuel) str strict cur len i j (pre ++ y :: t :: tl) =
    decode_loop fuel str strict (cur + 1) (len - 1) (i + 1) (j + 1)
      (pre ++ c1 :: (c1 mod 16 * 4 + c2 / 64) mod 4 * 64 mod 256 :: tl) ∧
  drop (Z.to_nat (cur + 1)) str = rest.
Proof.
  intros H0 H1 H2 Hc Hi Hj Hl -> Hd. destruct (sextet_range c0 c1 c2 H0 H1 H2) as (_ & _ & R2 & _).
  destruct (cur_next _ _ _ _ Hc Hd) as [E2 Hd2]. split; [|done].
  rewrite (decode_char _ _ _ _ _ _ _ _ _ E2 R2) by lia. rewrite (step2 _ _ _ _ _ _ _ Hi Hj). ob.
  by rewrite (byte1 c0 c1 c2).
Qed.

Lemma decode_encoded n s : (length s ≤ n)%nat → Forall (λ c, is_byte c) s →
  ∀ fuel str strict cur i j pre tl,
  0 <= cur → drop (Z.to_nat cur) str = encode_loop s ++ [0] → i mod 4 = 0 → j = Z.of_nat (length pre) →
  (length (encode_loop s) < length tl)%nat → (length (encode_loop s) < fuel)%nat →
  ∃ i' tl', decode_loop fuel str strict cur (Z.of_nat (length (encode_loop s))) i j (pre ++ tl) =
      OK (Some (0, i', j + Z.of_nat (length s), pre ++ s ++ tl')) ∧ tl' ≠ [].
Proof.
  revert s. induction n as [|n IH]; intros s Hn Hb fuel str strict cur i j pre tl Hc Hd Hi Hj Ht Hf.
  { destruct s; [|simpl in Hn; lia]. destruct fuel as [|fuel]; [simpl in Hf; lia|].
    destruct (cur_next _ _ _ _ Hc Hd) as [E _]. rewrite (decode_end _ _ _ _ _ _ _ _ E).
    exists i, tl. simpl. rewrite Z.add_0_r. split; [done|]. by intros ->; simpl in Ht; lia. }
  destruct s as [|c0 [|c1 [|c2 s]]].
  - destruct fuel as [|fuel]; [simpl in Hf; lia|].
    destruct (cur_next _ _ _ _ Hc Hd) as [E _]. rewrite (decode_end _ _ _ _ _ _ _ _ E).
    exists i, tl. simpl. rewrite Z.add_0_r. split; [done|]. by intros ->; simpl in Ht; lia.
  - (* one byte and two pads *)
    apply Forall_cons in Hb as [H0 _]. simpl in Ht, Hf.
    destruct tl as [|t0 [|t1 tl]]; [simpl in Ht; lia..|]. do 5 (destruct fuel as [|fuel]; [lia|]).
    destruct (sextets c0 0 0) as (E1 & E2 & _). cbn [encode_loop length] in *. rewrite E1, E2 in *. simpl app in Hd. change (Z.of_nat 4) with 4.
    destruct (decode_two (S (S (S fuel))) str strict cur 4 i j pre c0 0 t0 t1 tl [base64_pad; base64_pad; 0])
      as [-> Hd2]; try done; try lia; [by rewrite Z.div_0_l, Z.add_0_r by lia|].
    destruct (cur_next' _ _ _ _ Hd2 ltac:(lia)) as [P1 Hd3]. destruct (cur_next' _ _ _ _ Hd3 ltac:(lia)) as [P2 Hd4].
    destruct (cur_next' _ _ _ _ Hd4 ltac:(lia)) as [P3 _].
    assert ((i + 2) mod 4 = 2) as Hi2 by (by rewrite (mod4 i 0 2)).
    rewrite (decode_pad _ _ _ _ _ _ _ _ _ P1 P2); [|lia|lia|by left].
    rewrite (decode_pad _ _ _ _ _ _ _ _ _ P2 P3); [|lia|lia|right; lia].
    rewrite (decode_end _ _ _ _ _ _ _ _ P3). eexists _, _. split; [done|done].
  - (* two bytes and a pad *)
    apply Forall_cons in Hb as [H0 Hb]. apply Forall_cons in Hb as [H1 _]. simpl in Ht, Hf.
    destruct tl as [|t0 [|t1 [|t2 tl]]]; [simpl in Ht; lia..|]. do 5 (destruct fuel as [|fuel]; [lia|]).
    destruct (sextets c0 c1 0) as (E1 & E2 & E3 & E4 & _). cbn [encode_loop length] in *. rewrite E1, E2, E3, E4 in *. simpl app in Hd. change (Z.of_nat 4) with 4.
    destruct (decode_two (S (S (S fuel))) str strict cur 4 i j pre c0 c1 t0 t1 (t2 :: tl) _ H0 H1 Hc Hi Hj ltac:(lia) Hd)
      as [-> Hd2].
    assert ((i + 2) mod 4 = 2) as Hi2 by (by rewrite (mod4 i 0 2)).
    pose proof (decode_three (S (S fuel)) str strict (cur + 2) (4 - 2) (i + 2) (j + 1) (pre ++ [c0]) c0 c1 0 ((c0 mod 4 * 16 + c1 / 16) mod 16 * 16 mod 256) t2 tl
                  [base64_pad; 0] H0 H1 ltac:(lia) ltac:(lia) Hi2) as H3.
    rewrite <- !app_assoc in H3. simpl app in H3. destruct H3 as [-> Hd3];
      [rewrite length_app; simpl; lia|lia|done|by rewrite Z.div_0_l, Z.add_0_r by lia|].
    destruct (cur_next' _ _ _ _ Hd3 ltac:(lia)) as [P1 Hd4]. destruct (cur_next' _ _ _ _ Hd4 ltac:(lia)) as [P2 _].
    assert ((i + 2 + 1) mod 4 = 3) as Hi3 by (by rewrite (mod4 (i + 2) 2 1)).
    rewrite (decode_pad _ _ _ _ _ _ _ _ _ P1 P2); [|lia|lia|right; lia].
    rewrite (decode_end _ _ _ _ _ _ _ _ P2). exists (i + 2 + 1). eexists.
    replace (j + 1 + 1) with (j + Z.of_nat (length [c0; c1])) by (simpl; lia).
    split; [|shelve]. reflexivity. Unshelve. done.
  - (* a full group *)
    apply Forall_cons in Hb as [H0 Hb]. apply Forall_cons in Hb as [H1 Hb]. apply Forall_cons in Hb as [H2 Hb].
    cbn [encode_loop length] in Ht, Hf |- *. destruct tl as [|t0 [|t1 [|t2 tl]]]; [simpl in Ht; lia..|].
    do 4 (destruct fuel as [|fuel]; [lia|]).
    destruct (sextets c0 c1 c2) as (E1 & E2 & E3 & E4 & E5 & E6). cbn [encode_loop] in Hd.
    rewrite E1, E2, E3, E4, E5, E6 in Hd. simpl app in Hd. set (L := length (encode_loop s)) in *.
    set (len := Z.of_nat (S (S (S (S L))))).
    destruct (decode_two (S (S fuel)) str strict cur len i j pre c0 c1 t0 t1 (t2 :: tl) _ H0 H1 Hc Hi Hj ltac:(unfold len; lia) Hd)
      as [-> Hd2].
    assert ((i + 2) mod 4 = 2) as Hi2 by (by rewrite (mod4 i 0 2)).
    pose proof (decode_three (S fuel) str strict (cur + 2) (len - 2) (i + 2) (j + 1) (pre ++ [c0]) c0 c1 c2 _ t2 tl
                  _ H0 H1 H2 ltac:(lia) Hi2 ltac:(rewrite length_app; simpl; lia) ltac:(unfold len; lia) eq_refl Hd2) as [H3 Hd3].
    rewrite <- !app_assoc in H3. simpl app in H3. rewrite H3.
    assert ((i + 2 + 1) mod 4 = 3) as Hi3 by (by rewrite (mod4 (i + 2) 2 1)).
    destruct (cur_next' _ _ _ _ Hd3 ltac:(lia)) as [E7 Hd4]. destruct (sextet_range c0 c1 c2 H0 H1 H2) as (_ & _ & _ & R3).
    rewrite (decode_char _ _ _ _ _ _ _ _ _ E7 R3) by (unfold len; lia).
    pose proof (step3 (i + 2 + 1) (j + 1 + 1) (c2 mod 64) (pre ++ [c0; c1]) ((c1 mod 16 * 4 + c2 / 64) mod 4 * 64 mod 256) tl Hi3
                  ltac:(rewrite length_app; simpl; lia)) as H4.
    rewrite <- !app_assoc in H4. simpl app in H4. rewrite H4. ob. rewrite byte2 by done.
    destruct (IH s ltac:(simpl in Hn; lia) Hb fuel str strict (cur + 2 + 1 + 1) (i + 2 + 1 + 1) (j + 1 + 1 + 1)
                (pre ++ [c0; c1; c2]) tl) as (i' & tl' & Hrun & Hne).
    + lia.
    + done.
    + replace (i + 2 + 1 + 1) with (i + 1 * 4) by lia. by rewrite Z.mod_add.
    + rewrite length_app. simpl. lia.
    + simpl in Ht. lia.
    + lia.
    + exists i', tl'. split; [|done]. rewrite <- !app_assoc in Hrun. simpl app in Hrun.
      replace (len - 2 - 1 - 1) with (Z.of_nat L) by (unfold len; lia). unfold L. rewrite Hrun. simpl app. by replace (j + 1 + 1 + 1 + Z.of_nat (length s)) with (j + Z.of_nat (S (S (S (length s))))) by lia.
Qed.

Lemma encode_length s : length (encode_loop s) = (4 * ((length s + 2) / 3))%nat.
Proof.
  assert (∀ n s, (length s ≤ n)%nat → length (encode_loop s) = (4 * ((length s + 2) / 3))%nat) as Hgen; [|by eapply Hgen].
  induction n as [|n IH]; intros t Ht; (destruct t as [|c0 [|c1 [|c2 t]]]; [done|try (simpl in Ht; lia); try done..]).
  cbn [encode_loop length]. rewrite IH by (simpl in Ht; lia).
  replace (S (S (S (length t))) + 2)%nat with (1 * 3 + (length t + 2))%nat by lia.
  rewrite Nat.div_add_l by lia. lia.
Qed.

(** How many characters an [int] can count. *)
Lemma encoded_size n : let m := Z.of_nat (4 * ((n + 2) / 3))%nat in
  (Z.of_nat n <= 1610612733 → 0 <= m < 2 ^ 31) ∧ (1610612733 < Z.of_nat n < 2 ^ 31 → 2 ^ 31 <= m < 2 ^ 32).
Proof.
  rewrite Nat2Z.inj_mul, Nat2Z.inj_div, Nat2Z.inj_add.
  pose proof (Z.div_mod (Z.of_nat n + 2) 3 ltac:(lia)). pose proof (Z.mod_pos_bound (Z.of_nat n + 2) 3 ltac:(lia)). lia.
Qed.

(** What the encoder returns for a string whose length leaves room for the
    rounding up. *)
Lemma encode_result s : Z.of_nat (length s) + 2 <= INT_MAX →
  php_base64_encode s (Z.of_nat (length s)) = OK (Some (encode_loop s ++ [0], to_int (Z.of_nat (length (encode_loop s))))).
Proof.
  intros Hl. unfold php_base64_encode, INT_MAX in *. rewrite to_int_id by lia.
  rewrite (proj2 (Z.ltb_ge _ 0)), (proj2 (Z.ltb_ge _ (_ + 2))), Z.ltb_irrefl by lia. simpl orb. cbv iota.
  by rewrite Nat2Z.id, firstn_all.
Qed.

(** The decoder on the encoded string, of any length that is an [int]. *)
Lemma base64_roundtrip_ok junk s strict :
  Forall (λ c, is_byte c) s → Z.of_nat (length (encode_loop s)) <= INT_MAX →
  php_base64_decode_ex junk (encode_loop s ++ [0]) (Z.of_nat (length (encode_loop s))) strict = OK (Some s).
Proof.
  intros Hb Hl. unfold php_base64_decode_ex, INT_MAX in *. rewrite to_int_id by lia.
  rewrite (proj2 (Z.ltb_ge _ 0)) by lia. cbv zeta. rewrite Nat2Z.id.
  destruct (decode_encoded (length s) s ltac:(lia) Hb (length (encode_loop s ++ [0]) + 1) (encode_loop s ++ [0]) strict 0 0 0
              [] (replicate (length (encode_loop s) + 1) junk)) as (i' & tl' & Hrun & Hne); try done.
  { rewrite length_replicate. lia. }
  { rewrite length_app. simpl. lia. }
  simpl app in Hrun. rewrite Hrun. ob. change (0 =? base64_pad) with false. cbv iota. ob.
  destruct tl' as [|t tl']; [done|]. rewrite (bset_at s t tl' 0) by lia. ob.
  replace (Z.to_nat (0 + Z.of_nat (length s))) with (length s) by lia. by rewrite take_app_length.
Qed.

(** * Memory safety of the decoder

    On any NUL-terminated string the decoder stays inside the string and
    inside its buffer, and no byte it returns comes from the uninitialised
    buffer: two runs that differ only in what the buffer held agree. *)

Lemma space_safe str fuel cur :
  str !! (length str - 1)%nat = Some 0 → 0 <= cur < Z.of_nat (length str) - 1 →
  (length str - Z.to_nat cur ≤ fuel)%nat →
  ∃ c v, space_loop fuel str cur = OK c ∧ cur < c < Z.of_nat (length str) ∧ str !! Z.to_nat c = Some v.
Proof.
  intros Hz. revert cur. induction fuel as [|fuel IH]; intros cur Hc Hf; [lia|]. cbn [space_loop].
  destruct (lookup_lt_is_Some_2 str (Z.to_nat (cur + 1)) ltac:(lia)) as [c Hs]. rewrite Hs. ob.
  destruct (isspace c) eqn:Esp; [|exists (cur + 1), c; by split_and!; [|lia|lia|]].
  destruct (decide (cur + 1 = Z.of_nat (length str) - 1)) as [He|He].
  { rewrite He in Hs. replace (Z.to_nat (Z.of_nat (length str) - 1)) with (length str - 1)%nat in Hs by lia.
    rewrite Hz in Hs. injection Hs as <-. done. }
  destruct (IH (cur + 1)) as (c' & v & ? & ? & ?); [lia..|]. exists c', v. by split_and!; [|lia|lia|].
Qed.

(** The number of initialised bytes of the buffer. *)
Definition filled (i j : Z) : nat := Z.to_nat (if i mod 4 =? 0 then j else j + 1).

Lemma take_insert_eq (r1 r2 : list Z) n v : (n < length r1)%nat → length r1 = length r2 →
  take n r1 = take n r2 → take (S n) (<[n := v]> r1) = take (S n) (<[n := v]> r2).
Proof.
  intros Hn Hl He. rewrite !(take_S_r _ _ v) by (rewrite list_lookup_insert_eq; [done|lia]).
  f_equal. by rewrite !take_insert_ge by lia.
Qed.

Lemma take_lookup_eq (r1 r2 : list Z) n k : (k < n)%nat → take n r1 = take n r2 → r1 !! k = r2 !! k.
Proof. intros Hk He. rewrite <- (lookup_take_lt r1 n k), <- (lookup_take_lt r2 n k) by lia. by rewrite He. Qed.

Lemma bset_two r1 r2 j v : 0 <= j < Z.of_nat (length r1) → length r1 = length r2 →
  take (Z.to_nat j) r1 = take (Z.to_nat j) r2 →
  ∃ s1 s2, bset r1 j v = OK s1 ∧ bset r2 j v = OK s2 ∧ length s1 = length r1 ∧ length s2 = length s1 ∧
    take (Z.to_nat (j + 1)) s1 = take (Z.to_nat (j + 1)) s2.
Proof.
  intros Hj Hl He. unfold bset. rewrite <- Hl, (proj2 (Z.leb_le 0 j)), (proj2 (Z.ltb_lt j _)) by lia. simpl.
  eexists _, _. split_and!; [done|done|by rewrite length_insert|by rewrite !length_insert|].
  replace (Z.to_nat (j + 1)) with (S (Z.to_nat j)) by lia. apply take_insert_eq; [lia|done..].
Qed.

Lemma bget_two r1 r2 j : 0 <= j < Z.of_nat (length r1) → length r1 = length r2 →
  take (Z.to_nat (j + 1)) r1 = take (Z.to_nat (j + 1)) r2 → ∃ y, bget r1 j = OK y ∧ bget r2 j = OK y.
Proof.
  intros Hj Hl He. unfold bget. rewrite (proj2 (Z.leb_le 0 j)) by lia.
  rewrite <- (take_lookup_eq r1 r2 (Z.to_nat (j + 1))) by (lia || done).
  destruct (lookup_lt_is_Some_2 r1 (Z.to_nat j) ltac:(lia)) as [y ->]. by exists y.
Qed.

Lemma take_mono (r1 r2 : list Z) n k : (k ≤ n)%nat → take n r1 = take n r2 → take k r1 = take k r2.
Proof.
  intros Hk He. replace k with (k `min` n)%nat by lia. by rewrite <- !take_take, He.
Qed.

Lemma step_safe i j x r1 r2 L :
  0 <= j <= i → i < L → Z.of_nat (length r1) = L + 1 → length r1 = length r2 →
  take (filled i j) r1 = take (filled i j) r2 →
  ∃ j' s1 s2, sextet_step i j x r1 = OK (j', s1) ∧ sextet_step i j x r2 = OK (j', s2) ∧ 0 <= j' <= i + 1 ∧
    length s1 = length r1 ∧ length s1 = length s2 ∧ take (filled (i + 1) j') s1 = take (filled (i + 1) j') s2.
Proof.
  intros Hj Hi Hl Hl2 He. unfold filled in *. pose proof (Z.mod_pos_bound i 4 ltac:(lia)).
  assert (i mod 4 = 0 ∨ i mod 4 = 1 ∨ i mod 4 = 2 ∨ i mod 4 = 3) as [Hm|[Hm|[Hm|Hm]]] by lia;
    unfold sextet_step; rewrite Hm in *; simpl in He.
  - rewrite (mod4 i 0 1) by lia. simpl.
    destruct (bset_two r1 r2 j (Z.shiftl x 2)) as (s1 & s2 & -> & -> & ? & ? & ?); [lia|done..|]. ob.
    exists j, s1, s2. by split_and!; [done|done|lia|lia|done|done|].
  - rewrite (mod4 i 1 1) by lia. simpl. destruct (bget_two r1 r2 j) as (y & -> & ->); [lia|done..|]. ob.
    destruct (bset_two r1 r2 j (Z.lor y (Z.shiftr x 4))) as (s1 & s2 & -> & -> & ? & ? & ?);
      [lia|done|by eapply take_mono; [|exact He]; lia|]. ob.
    destruct (bset_two s1 s2 (j + 1) (Z.shiftl (Z.land x 0x0f) 4)) as (t1 & t2 & -> & -> & ? & ? & ?); [lia|done..|]. ob.
    exists (j + 1), t1, t2. split_and!; [done|done|lia|lia|lia|done|done].
  - rewrite (mod4 i 2 1) by lia. simpl. destruct (bget_two r1 r2 j) as (y & -> & ->); [lia|done..|]. ob.
    destruct (bset_two r1 r2 j (Z.lor y (Z.shiftr x 2))) as (s1 & s2 & -> & -> & ? & ? & ?);
      [lia|done|by eapply take_mono; [|exact He]; lia|]. ob.
    destruct (bset_two s1 s2 (j + 1) (Z.shiftl (Z.land x 0x03) 6)) as (t1 & t2 & -> & -> & ? & ? & ?); [lia|done..|]. ob.
    exists (j + 1), t1, t2. split_and!; [done|done|lia|lia|lia|done|done].
  - replace ((i + 1) mod 4) with 0 by (rewrite Z.add_mod, Hm by lia; done). simpl.
    destruct (bget_two r1 r2 j) as (y & -> & ->); [lia|done..|]. ob.
    destruct (bset_two r1 r2 j (Z.lor y x)) as (s1 & s2 & -> & -> & ? & ? & ?);
      [lia|done|by eapply take_mono; [|exact He]; lia|]. ob.
    exists (j + 1), s1, s2. split_and!; [done|done|lia|lia|lia|done|done].
Qed.

(** Two runs of the loop that end alike: both fail, or both stop at the
    same place with the same initialised bytes. *)
Definition same_end (L : Z) (o1 o2 : outcome (option (Z * Z * Z * list Z))) : Prop :=
  (o1 = OK None ∧ o2 = OK None) ∨
  ∃ i j r1 r2, o1 = OK (Some (0, i, j, r1)) ∧ o2 = OK (Some (0, i, j, r2)) ∧ 0 <= j <= L ∧
    Z.of_nat (length r1) = L + 1 ∧ length r1 = length r2 ∧ take (Z.to_nat j) r1 = take (Z.to_nat j) r2.

Lemma same_end_here L i j r1 r2 : 0 <= j <= L → Z.of_nat (length r1) = L + 1 → length r1 = length r2 →
  take (filled i j) r1 = take (filled i j) r2 → same_end L (OK (Some (0, i, j, r1))) (OK (Some (0, i, j, r2))).
Proof.
  intros ???. right. exists i, j, r1, r2. split_and!; try done; try lia.
  eapply take_mono; [|done]. unfold filled. case_match; lia.
Qed.

Lemma decode_safe s strict fuel cur len i j r1 r2 :
  let str := s ++ [0] in let L := Z.of_nat (length s) in
  0 <= cur → cur + len = L → 0 <= len → 0 <= j <= i → i + len <= L →
  Z.of_nat (length r1) = L + 1 → length r1 = length r2 → take (filled i j) r1 = take (filled i j) r2 →
  L - cur < Z.of_nat fuel →
  same_end L (decode_loop fuel str strict cur len i j r1) (decode_loop fuel str strict cur len i j r2).
Proof.
  intros str L. revert cur len i j r1 r2.
  assert (Hlen : length str = S (length s)) by (unfold str; rewrite length_app; simpl; lia).
  assert (Hz : str !! (length str - 1)%nat = Some 0).
  { unfold str. rewrite length_app, lookup_app_r by (simpl; lia). by replace (length s + length [0%Z] - 1 - length s)%nat with 0%nat by (simpl; lia). }
  induction fuel as [|fuel IH]; intros cur len i j r1 r2 Hc Hcl Hl0 Hj Hi Hl Hl2 He Hf; [lia|].
  destruct (lookup_lt_is_Some_2 str (Z.to_nat cur) ltac:(lia)) as [ch Hs].
  destruct (decide (ch = 0)) as [->|Hn0]; [rewrite !decode_end by done; apply same_end_here; [lia|done..]|].
  assert (0 < len) as Hpos.
  { destruct (decide (len = 0)) as [->|]; [|lia]. destruct Hn0. replace (Z.to_nat cur) with (length str - 1)%nat in Hs by lia. congruence. }
  destruct (lookup_lt_is_Some_2 str (Z.to_nat (cur + 1)) ltac:(lia)) as [c Hs1].
  cbn [decode_loop]. rewrite Hs. ob. rewrite (proj2 (Z.eqb_neq ch 0)), (proj2 (Z.ltb_lt 0 len)) by done. cbn [negb].
  assert (same_end L (decode_loop fuel str strict (cur + 1) (len - 1) i j r1) (decode_loop fuel str strict (cur + 1) (len - 1) i j r2))
    as Hskip by (apply IH; lia || done).
  destruct (ch =? base64_pad).
  - rewrite Hs1. ob. destruct (negb (c =? base64_pad) && _) eqn:Eg; [|done].
    destruct (i mod 4 =? 1); [by left|]. cbn [negb orb] in *.
    assert (0 < len - 1) by (apply andb_true_iff in Eg as [_ [_ ?%Z.ltb_lt]%andb_true_iff]; done).
    destruct (space_safe str (length str) (cur + 1)) as (cur' & v & -> & Hc' & Hv); [done|lia|lia|]. ob. rewrite Hv. ob.
    destruct (v =? 0) eqn:Ev; [|by left]. apply Z.eqb_eq in Ev as ->.
    destruct fuel as [|fuel]; [lia|]. rewrite !decode_end by done. apply same_end_here; [lia|done..].
  - case_match; [done|]. case_match; [by left|].
    destruct (step_safe i j (rev_ ch) r1 r2 L) as (j' & s1 & s2 & -> & -> & ? & ? & ? & ?); [lia|lia|done..|]. ob.
    apply IH; lia || done.
Qed.

Lemma base64_decode_total junk1 junk2 s strict : Z.of_nat (length s) <= INT_MAX →
  ∃ o, php_base64_decode_ex junk1 (s ++ [0]) (Z.of_nat (length s)) strict = OK o ∧
    php_base64_decode_ex junk2 (s ++ [0]) (Z.of_nat (length s)) strict = OK o ∧
    match o with Some d => (length d ≤ length s)%nat | None => True end.
Proof.
  intros Hlen. unfold php_base64_decode_ex, INT_MAX in *. rewrite to_int_id by lia.
  rewrite (proj2 (Z.ltb_ge _ 0)) by lia. cbv zeta. rewrite Nat2Z.id.
  destruct (decode_safe s strict (length (s ++ [0]) + 1) 0 (Z.of_nat (length s)) 0 0
              (replicate (length s + 1) junk1) (replicate (length s + 1) junk2))
    as [[-> ->]|(i & j & r1 & r2 & -> & -> & Hj & Hl & Hl2 & He)];
    rewrite ?length_replicate, ?length_app; simpl; try done; try lia; [by exists None|].
  destruct (bset_two r1 r2 j 0) as (s1 & s2 & -> & -> & ? & ? & Ht); [lia|done..|]. ob.
  exists (Some (take (Z.to_nat j) s1)). split; [done|]. split.
  - do 2 f_equal. symmetry. eapply take_mono; [|done]. lia.
  - rewrite length_take. lia.
Qed.

(** * The properties of the string codecs of ext/standard *)

(** C28: [php_base64_encode] gives four characters for every group of up to
    three bytes and a NUL, and reports their number cut down to an [int].
    When that number is an [int] (for strings of up to 1610612733 bytes),
    decoding what was encoded, with the length that was reported, gives the
    string back, in strict and in lenient mode.  Beyond, the length reported
    is wrong: it is negative. *)
Theorem base64_roundtrip junk s strict :
  Forall (λ c, is_byte c) s → Z.of_nat (length s) + 2 <= INT_MAX →
  ∃ e n, php_base64_encode s (Z.of_nat (length s)) = OK (Some (e ++ [0], n)) ∧ length e = (4 * ((length s + 2) / 3))%nat ∧
    if decide (Z.of_nat (length s) <= 1610612733) then
      n = Z.of_nat (length e) ∧
      php_base64_decode_ex junk (e ++ [0]) n strict = OK (Some s) ∧ php_base64_decode junk (e ++ [0]) n = OK (Some s)
    else n < 0.
Proof.
  intros Hs Hl. exists (encode_loop s), (to_int (Z.of_nat (length (encode_loop s)))).
  rewrite encode_result by done. pose proof (encode_length s) as El. split; [done|]. split; [done|].
  pose proof (encoded_size (length s)) as Hsz. cbv zeta in Hsz. rewrite <- El in Hsz. unfold INT_MAX in Hl.
  case_decide as Hd.
  - rewrite to_int_id by lia. split; [done|]. unfold php_base64_decode.
    split; apply base64_roundtrip_ok; unfold INT_MAX; done || lia.
  - rewrite to_int_upper; lia.
Qed.

Lemma base64_roundtrip_witness :
  Forall (λ c, is_byte c) [0; 255; 80; 72] ∧
  ∃ e, php_base64_encode [0; 255; 80; 72] 4 = OK (Some (e ++ [0], 8)) ∧
    php_base64_decode_ex 7 (e ++ [0]) 8 true = OK (Some [0; 255; 80; 72]).
Proof.
  assert (Forall (λ c, is_byte c) [0; 255; 80; 72]) as Hb by (repeat constructor; lia).
  split; [exact Hb|]. destruct (base64_roundtrip 7 [0; 255; 80; 72] true Hb) as (e & n & H1 & Hl & H2); [done|].
  rewrite decide_True in H2 by done. destruct H2 as (Hn & H2 & _). rewrite Hl in Hn. change n with n in Hn.
  assert (n = 8) as -> by exact Hn. exists e. split; [exact H1|exact H2].
Defined.

(** [php_base64_decode_ex] is total and memory safe on every
    NUL-terminated string, whatever its bytes: it reads inside the string,
    writes inside its buffer, and what it returns (at most as long as the
    input) does not depend on what the uninitialised buffer held. *)
Theorem base64_decode_safe junk1 junk2 s strict : Z.of_nat (length s) <= INT_MAX →
  ∃ o, php_base64_decode_ex junk1 (s ++ [0]) (Z.of_nat (length s)) strict = OK o ∧
    php_base64_decode_ex junk2 (s ++ [0]) (Z.of_nat (length s)) strict = OK o ∧
    match o with Some d => (length d ≤ length s)%nat | None => True end.
Proof. apply base64_decode_total. Qed.
