(* ===== verification/SplHeap.v ===== *)
(** The heaps of ext/spl/spl_heap.c: the array heap [spl_ptr_heap] behind
    SplMinHeap, SplMaxHeap and SplPriorityQueue, its comparison functions and
    the methods and iterator functions that use it.

    Elements are addresses of zvals; [zrefs] gives the reference count of
    every live zval, [nodes] the two values of every array a priority queue
    has built.  What destroying any other zval does to the values inside it is
    not modelled.  User code enters through the comparison only; it is a pure
    function here that may throw. *)

From S2P Require Import Prelude.

Definition PTR_HEAP_BLOCK_SIZE : nat := 64.
Definition SPL_HEAP_CORRUPTED : Z := 0x1.
Definition SPL_PQUEUE_EXTR_MASK : Z := 0x3.
Definition SPL_PQUEUE_EXTR_BOTH : Z := 0x3.
Definition SPL_PQUEUE_EXTR_DATA : Z := 0x1.
Definition SPL_PQUEUE_EXTR_PRIORITY : Z := 0x2.

Abbreviation zval := positive.

(** Which of the three comparison functions a heap holds. *)
Inductive spl_ptr_heap_cmp_func :=
  | spl_ptr_heap_zval_max_cmp_f
  | spl_ptr_heap_zval_min_cmp_f
  | spl_ptr_pqueue_zval_cmp_f.

(** [elements] is the whole allocated array, [max_size] cells; the cells from
    [count] on hold nothing meaningful.  [ctor] and [dtor] are always
    [spl_ptr_heap_zval_ctor] and [spl_ptr_heap_zval_dtor]. *)
Record spl_ptr_heap := mkHeap {
  elements : list zval;
  hcmp : spl_ptr_heap_cmp_func;
  count : nat;
  max_size : nat;
  flags : Z;
}.

(** The live zvals with their reference counts, the "data" and "priority" of
    the queue nodes among them, and [EG(exception)]. *)
Record world := mkWorld { zrefs : gmap zval Z; nodes : gmap zval (zval * zval); exc : bool }.

Definition set_elements (h : spl_ptr_heap) es := mkHeap es (hcmp h) (count h) (max_size h) (flags h).
Definition set_hcount (h : spl_ptr_heap) n := mkHeap (elements h) (hcmp h) n (max_size h) (flags h).
Definition set_flags (h : spl_ptr_heap) f := mkHeap (elements h) (hcmp h) (count h) (max_size h) f.
Definition set_zrefs (w : world) r := mkWorld r (nodes w) (exc w).
Definition set_exc (w : world) (b : bool) := mkWorld (zrefs w) (nodes w) b.

(** [Z_ADDREF_P] *)
Definition Z_ADDREF_P (w : world) (z : zval) : outcome world :=
  match zrefs w !! z with Some n => OK (set_zrefs w (<[z := n + 1]> (zrefs w))) | None => UB end.

(** One reference less; the last one frees the zval. *)
Definition drop_ref (w : world) (z : zval) : outcome world :=
  match zrefs w !! z with
  | Some n => OK (set_zrefs w (if n =? 1 then delete z (zrefs w) else <[z := n - 1]> (zrefs w)))
  | None => UB
  end.

(** [zval_ptr_dtor]: a queue node that is freed drops its two values. *)
Definition zval_ptr_dtor (w : world) (z : zval) : outcome world :=
  let* w' := drop_ref w z in
  match zrefs w' !! z, nodes w !! z with
  | None, Some (d, p) =>
      let* w' := drop_ref (mkWorld (zrefs w') (delete z (nodes w')) (exc w')) d in
      drop_ref w' p
  | _, _ => OK w'
  end.

Definition spl_ptr_heap_zval_ctor := Z_ADDREF_P.
Definition spl_ptr_heap_zval_dtor := zval_ptr_dtor.

Section heap.
(** The user's [compare] method, when the class overrides it ([None]: it
    throws); the engine's [compare_function] (its result and whether
    [EG(exception)] is set afterwards). *)
Context (fptr_cmp : option (zval → zval → option Z)).
Context (compare_function : zval → zval → Z * bool).
(** What a fresh array cell holds. *)
Context (junk : zval).

(** [FAILURE] ([None]) when the call leaves an exception. *)
Definition spl_ptr_heap_cmp_cb_helper (f : zval → zval → option Z) (a b : zval) (w : world) : option Z * world :=
  match f a b with
  | None => (None, set_exc w true)
  | Some r => (Some r, w)
  end.

(** The comparison behind all three functions: the user's method if there is
    one and an object is given, [compare_function] otherwise. *)
Definition cmp_values (object : bool) (ua ub ca cb : zval) (w : world) : Z * world :=
  match (if object then fptr_cmp else None) with
  | Some f =>
      match spl_ptr_heap_cmp_cb_helper f ua ub w with
      | (None, w) => (0, w)
      | (Some lval, w) => (to_int lval, w)
      end
  | None => let '(r, e) := compare_function ca cb in (to_int r, set_exc w e)
  end.

Definition spl_ptr_heap_zval_max_cmp (a b : zval) (object : bool) (w : world) : Z * world :=
  if exc w then (0, w) else cmp_values object a b a b w.

Definition spl_ptr_heap_zval_min_cmp (a b : zval) (object : bool) (w : world) : Z * world :=
  if exc w then (0, w) else cmp_values object a b b a w.

(** The lookups of "data" and "priority" in the node. *)
Definition spl_pqueue_extract_helper (w : world) (value : zval) (flags : Z) : option zval :=
  if Z.land flags SPL_PQUEUE_EXTR_BOTH =? SPL_PQUEUE_EXTR_BOTH then Some value
  else if 0 <? Z.land flags SPL_PQUEUE_EXTR_BOTH then
    if Z.land flags SPL_PQUEUE_EXTR_DATA =? SPL_PQUEUE_EXTR_DATA then fst <$> nodes w !! value else snd <$> nodes w !! value
  else None.

(** [E_RECOVERABLE_ERROR] without a user error handler ends the request. *)
Definition spl_ptr_pqueue_zval_cmp (a b : zval) (object : bool) (w : world) : outcome (Z * world) :=
  match spl_pqueue_extract_helper w a SPL_PQUEUE_EXTR_PRIORITY, spl_pqueue_extract_helper w b SPL_PQUEUE_EXTR_PRIORITY with
  | Some pa, Some pb => OK (if exc w then (0, w) else cmp_values object pa pb pa pb w)
  | _, _ => Bailout
  end.

(** [heap->cmp(a, b, cmp_userdata)] *)
Definition heap_cmp (c : spl_ptr_heap_cmp_func) (a b : zval) (w : world) : outcome (Z * world) :=
  match c with
  | spl_ptr_heap_zval_max_cmp_f => OK (spl_ptr_heap_zval_max_cmp a b true w)
  | spl_ptr_heap_zval_min_cmp_f => OK (spl_ptr_heap_zval_min_cmp a b true w)
  | spl_ptr_pqueue_zval_cmp_f => spl_ptr_pqueue_zval_cmp a b true w
  end.

Definition spl_ptr_heap_init (c : spl_ptr_heap_cmp_func) : spl_ptr_heap :=
  {| elements := replicate PTR_HEAP_BLOCK_SIZE junk; hcmp := c; count := 0; max_size := PTR_HEAP_BLOCK_SIZE; flags := 0 |}.

(** [elements[i]] and [elements[i] = x] *)
Definition eget (es : list zval) (i : nat) : outcome zval := rd (es !! i).
Definition eset (es : list zval) (i : nat) (x : zval) : outcome (list zval) :=
  if (i <? length es)%nat then OK (<[i := x]> es) else UB.

Definition parent (i : nat) : nat := ((i - 1) / 2)%nat.

(** The loop that sifts up; its result is the final [i]. *)
Fixpoint sift_up (fuel : nat) (c : spl_ptr_heap_cmp_func) (es : list zval) (elem : zval) (i : nat) (w : world)
    : outcome (nat * list zval * world) :=
  match fuel with
  | O => UB
  | S fuel =>
      if (0 <? i)%nat then
        let* p := eget es (parent i) in
        let* (r, w) := heap_cmp c p elem w in
        if r <? 0 then
          let* p := eget es (parent i) in
          let* es := eset es i p in
          sift_up fuel c es elem (parent i) w
        else OK (i, es, w)
      else OK (i, es, w)
  end.

Definition mark_corrupted (h : spl_ptr_heap) (w : world) : spl_ptr_heap :=
  if exc w then set_flags h (Z.lor (flags h) SPL_HEAP_CORRUPTED) else h.

(** Overflow of the [int] fields is undefined. *)
Definition spl_ptr_heap_insert (h : spl_ptr_heap) (elem : zval) (w : world) : outcome (spl_ptr_heap * world) :=
  if INT_MAX <? Z.of_nat (count h) + 1 then UB else
  let* h :=
    if (max_size h <? count h + 1)%nat then
      if INT_MAX <? Z.of_nat (max_size h) * 2 then UB
      else OK {| elements := elements h ++ replicate (max_size h) junk; hcmp := hcmp h; count := count h;
                 max_size := max_size h * 2; flags := flags h |}
    else OK h in
  let* w := spl_ptr_heap_zval_ctor w elem in
  let* (i, es, w) := sift_up (S (count h)) (hcmp h) (elements h) elem (count h) w in
  let h := set_hcount (set_elements h es) (count h + 1) in
  let h := mark_corrupted h w in
  let* es := eset (elements h) i elem in
  OK (set_elements h es, w).

Definition spl_ptr_heap_top (h : spl_ptr_heap) : outcome (option zval) :=
  if (count h =? 0)%nat then OK None else let* x := eget (elements h) 0 in OK (Some x).

(** The loop that sifts down ([n] is the decremented count). *)
Fixpoint sift_down (fuel : nat) (c : spl_ptr_heap_cmp_func) (es : list zval) (bottom : zval) (limit n i : nat) (w : world)
    : outcome (nat * list zval * world) :=
  match fuel with
  | O => UB
  | S fuel =>
      if (i <? limit)%nat then
        let j := (i * 2 + 1)%nat in
        let* (j, w) :=
          if negb (j =? n)%nat then
            let* b := eget es (j + 1) in
            let* a := eget es j in
            let* (r, w) := heap_cmp c b a w in
            OK (if 0 <? r then (j + 1)%nat else j, w)
          else OK (j, w) in
        let* x := eget es j in
        let* (r, w) := heap_cmp c bottom x w in
        if r <? 0 then
          let* es := eset es i x in
          sift_down fuel c es bottom limit n j w
        else OK (i, es, w)
      else OK (i, es, w)
  end.

(** [limit] is computed before the test for an empty heap; [(0-1)/2] is 0. *)
Definition spl_ptr_heap_delete_top (h : spl_ptr_heap) (w : world) : outcome (option zval * spl_ptr_heap * world) :=
  let limit := ((count h - 1) / 2)%nat in
  if (count h =? 0)%nat then OK (None, h, w) else
  let* top := eget (elements h) 0 in
  let h := set_hcount h (count h - 1) in
  let* bottom := eget (elements h) (count h) in
  let* (i, es, w) := sift_down (S limit) (hcmp h) (elements h) bottom limit (count h) 0 w in
  let h := set_elements h es in
  let h := mark_corrupted h w in
  let* es := eset (elements h) i bottom in
  let h := set_elements h es in
  let* w := spl_ptr_heap_zval_dtor w top in
  OK (Some top, h, w).

(** [for (i=0; i < heap->count; ++i) f(heap->elements[i]);] *)
Fixpoint each_element (f : world → zval → outcome world) (es : list zval) (n i : nat) (w : world) : outcome world :=
  match n with
  | O => OK w
  | S n => let* x := eget es i in let* w := f w x in each_element f es n (i + 1) w
  end.

Definition spl_ptr_heap_clone (from : spl_ptr_heap) (w : world) : outcome (spl_ptr_heap * world) :=
  let heap := {| elements := elements from; hcmp := hcmp from; count := count from; max_size := max_size from;
                 flags := flags from |} in
  let* w := each_element spl_ptr_heap_zval_ctor (elements heap) (count heap) 0 w in
  OK (heap, w).

Definition spl_ptr_heap_destroy (h : spl_ptr_heap) (w : world) : outcome world :=
  each_element spl_ptr_heap_zval_dtor (elements h) (count h) 0 w.

Definition spl_ptr_heap_count (h : spl_ptr_heap) : nat := count h.

(** * The objects *)

(** [intern]: the heap and the extract flags of a queue. *)
Record spl_heap_object := mkObj { heap : spl_ptr_heap; oflags : Z }.
Definition set_heap (o : spl_heap_object) (h : spl_ptr_heap) := mkObj h (oflags o).

(** What a method leaves in [return_value], or the exception it throws. *)
Inductive mret :=
  | RNull
  | RBool (b : bool)
  | RLong (n : Z)
  | RZval (z : zval)
  | RThrow.

Definition corrupted (h : spl_ptr_heap) : bool := negb (Z.land (flags h) SPL_HEAP_CORRUPTED =? 0).

(** [zend_throw_exception] *)
Definition throw {A} (o : A) (w : world) : outcome (mret * A * world) := OK (RThrow, o, set_exc w true).

(** [SEPARATE_ARG_IF_REF]: a copy of a variable that is a reference, one more
    reference to any other. *)
Definition SEPARATE_ARG_IF_REF `{PEMalloc} (w : world) (is_ref : bool) (v : zval) : outcome (zval * world) :=
  if is_ref then
    let p := pemalloc (dom (zrefs w)) in OK (p, set_zrefs w (<[p := 1]> (zrefs w)))
  else let* w := Z_ADDREF_P w v in OK (v, w).

(** The object [spl_heap_object_new_ex] makes for a new instance of a class
    below SplHeap, SplMinHeap, SplMaxHeap or SplPriorityQueue. *)
Inductive spl_class := SplHeap_ce | SplMinHeap_ce | SplMaxHeap_ce | SplPriorityQueue_ce.

Definition class_cmp (c : spl_class) : spl_ptr_heap_cmp_func :=
  match c with
  | SplPriorityQueue_ce => spl_ptr_pqueue_zval_cmp_f
  | SplMinHeap_ce => spl_ptr_heap_zval_min_cmp_f
  | SplMaxHeap_ce | SplHeap_ce => spl_ptr_heap_zval_max_cmp_f
  end.

Definition new_flags (c : spl_class) (f : Z) : Z :=
  match c with SplPriorityQueue_ce => SPL_PQUEUE_EXTR_DATA | _ => f end.

Definition set_cmp (h : spl_ptr_heap) (c : spl_class) : spl_ptr_heap :=
  match c with
  | SplHeap_ce => h
  | _ => mkHeap (elements h) (class_cmp c) (count h) (max_size h) (flags h)
  end.

Definition spl_heap_object_new (c : spl_class) : spl_heap_object :=
  mkObj (set_cmp (spl_ptr_heap_init spl_ptr_heap_zval_max_cmp_f) c) (new_flags c 0).

(** The same function with [clone_orig]: every element gets one reference
    from the clone of the heap and one from the object. *)
Definition spl_heap_object_clone (c : spl_class) (o : spl_heap_object) (w : world) : outcome (spl_heap_object * world) :=
  let* (h, w) := spl_ptr_heap_clone (heap o) w in
  let* w := each_element Z_ADDREF_P (elements h) (count h) 0 w in
  OK (mkObj (set_cmp h c) (new_flags c (oflags o)), w).

Definition spl_heap_object_free_storage (o : spl_heap_object) (w : world) : outcome world :=
  let* w := each_element zval_ptr_dtor (elements (heap o)) (count (heap o)) 0 w in
  spl_ptr_heap_destroy (heap o) w.

Definition SplHeap_count (o : spl_heap_object) : mret := RLong (Z.of_nat (spl_ptr_heap_count (heap o))).
Definition SplHeap_isEmpty (o : spl_heap_object) : mret := RBool (spl_ptr_heap_count (heap o) =? 0)%nat.

Definition SplHeap_insert `{PEMalloc} (o : spl_heap_object) (value : zval) (is_ref : bool) (w : world)
    : outcome (mret * spl_heap_object * world) :=
  if corrupted (heap o) then throw o w else
  let* (value, w) := SEPARATE_ARG_IF_REF w is_ref value in
  let* (h, w) := spl_ptr_heap_insert (heap o) value w in
  OK (RBool true, set_heap o h, w).

(** [RETURN_ZVAL(value, 1, 1)] copies the value and drops the reference. *)
Definition SplHeap_extract (o : spl_heap_object) (w : world) : outcome (mret * spl_heap_object * world) :=
  if corrupted (heap o) then throw o w else
  let* (value, h, w) := spl_ptr_heap_delete_top (heap o) w in
  let o := set_heap o h in
  match value with
  | None => throw o w
  | Some value => let* w := zval_ptr_dtor w value in OK (RZval value, o, w)
  end.

Definition SplHeap_top (o : spl_heap_object) (w : world) : outcome (mret * spl_heap_object * world) :=
  if corrupted (heap o) then throw o w else
  let* value := spl_ptr_heap_top (heap o) in
  match value with
  | None => throw o w
  | Some value => OK (RZval value, o, w)
  end.

(** The node of a queue: [array("data" => $data, "priority" => $priority)],
    which takes over the references to its values. *)
Definition SplPriorityQueue_insert `{PEMalloc} (o : spl_heap_object) (data priority : zval) (ref_d ref_p : bool) (w : world)
    : outcome (mret * spl_heap_object * world) :=
  if corrupted (heap o) then throw o w else
  let* (data, w) := SEPARATE_ARG_IF_REF w ref_d data in
  let* (priority, w) := SEPARATE_ARG_IF_REF w ref_p priority in
  let elem := pemalloc (dom (zrefs w)) in
  let w := mkWorld (<[elem := 1]> (zrefs w)) (<[elem := (data, priority)]> (nodes w)) (exc w) in
  let* (h, w) := spl_ptr_heap_insert (heap o) elem w in
  OK (RBool true, set_heap o h, w).

(** [E_RECOVERABLE_ERROR] without a user error handler ends the request. *)
Definition SplPriorityQueue_extract (o : spl_heap_object) (w : world) : outcome (mret * spl_heap_object * world) :=
  if corrupted (heap o) then throw o w else
  let* (value, h, w) := spl_ptr_heap_delete_top (heap o) w in
  let o := set_heap o h in
  match value with
  | None => throw o w
  | Some value =>
      match spl_pqueue_extract_helper w value (oflags o) with
      | None => Bailout
      | Some value_out =>
          let* w := Z_ADDREF_P w value_out in
          let* w := zval_ptr_dtor w value in
          let* w := zval_ptr_dtor w value_out in
          OK (RZval value_out, o, w)
      end
  end.

Definition SplPriorityQueue_top (o : spl_heap_object) (w : world) : outcome (mret * spl_heap_object * world) :=
  if corrupted (heap o) then throw o w else
  let* value := spl_ptr_heap_top (heap o) in
  match value with
  | None => throw o w
  | Some value =>
      match spl_pqueue_extract_helper w value (oflags o) with
      | None => Bailout
      | Some value_out => OK (RZval value_out, o, w)
      end
  end.

Definition SplPriorityQueue_setExtractFlags (o : spl_heap_object) (value : Z) : mret * spl_heap_object :=
  let f := Z.land value SPL_PQUEUE_EXTR_MASK in (RLong f, mkObj (heap o) f).

Definition SplHeap_recoverFromCorruption (o : spl_heap_object) : mret * spl_heap_object :=
  (RBool true, set_heap o (set_flags (heap o) (Z.land (flags (heap o)) (Z.lnot SPL_HEAP_CORRUPTED)))).

(** * The iterator *)

Definition SplHeap_valid (o : spl_heap_object) : mret := RBool (negb (count (heap o) =? 0)%nat).
Definition SplHeap_key (o : spl_heap_object) : mret := RLong (Z.of_nat (count (heap o)) - 1).

(** [SplHeap::next] deletes the top without a look at the flags. *)
Definition SplHeap_next (o : spl_heap_object) (w : world) : outcome (mret * spl_heap_object * world) :=
  let* (elem, h, w) := spl_ptr_heap_delete_top (heap o) w in
  match elem with
  | None => OK (RNull, set_heap o h, w)
  | Some e => let* w := zval_ptr_dtor w e in OK (RNull, set_heap o h, w)
  end.

Definition SplHeap_current (o : spl_heap_object) : outcome mret :=
  let* element := eget (elements (heap o)) 0 in
  if (count (heap o) =? 0)%nat then OK RNull else OK (RZval element).

(** The engine's iteration ([foreach]): [valid], [current data], [move
    forward]. *)
Definition spl_heap_it_valid (o : spl_heap_object) : zresult := if (count (heap o) =? 0)%nat then FAILURE else SUCCESS.

Definition spl_heap_it_get_current_data (o : spl_heap_object) (w : world) : outcome (option zval * world) :=
  if corrupted (heap o) then OK (None, set_exc w true) else
  if (count (heap o) =? 0)%nat then OK (None, w)
  else let* e := eget (elements (heap o)) 0 in OK (Some e, w).

Definition spl_heap_it_move_forward (o : spl_heap_object) (w : world) : outcome (spl_heap_object * world) :=
  if corrupted (heap o) then OK (o, set_exc w true) else
  let* (elem, h, w) := spl_ptr_heap_delete_top (heap o) w in
  match elem with
  | None => OK (set_heap o h, w)
  | Some e => let* w := zval_ptr_dtor w e in OK (set_heap o h, w)
  end.

End heap.
