(* ===== verification/SplHeapSpec.v ===== *)
(** The heap algorithms of spl_heap.c: sifting permutes the elements whatever
    the comparison does, keeps the heap order when it is a total preorder, and
    the top is then a greatest element. *)

From S2P Require Import Prelude SplHeap.
From Stdlib Require Import Sorting.Sorted.

(** * Arrays ordered as a heap *)

Lemma parent_lt k : (0 < k)%nat → (parent k < k)%nat.
Proof. intros. unfold parent. apply Nat.Div0.div_lt_upper_bound. lia. Qed.

Lemma parent_child k i : (0 < k)%nat → parent k = i ↔ k = (i * 2 + 1)%nat ∨ k = (i * 2 + 2)%nat.
Proof.
  intros Hk. unfold parent. pose proof (Nat.div_mod_eq (k - 1) 2). pose proof (Nat.mod_upper_bound (k - 1) 2). lia.
Qed.

(** A list with two entries exchanged. *)
Lemma swap_perm {A} (l : list A) i j x y :
  l !! i = Some x → l !! j = Some y → <[i := y]> (<[j := x]> l) ≡ₚ l.
Proof.
  intros Hi Hj. destruct (decide (i = j)) as [->|Hne].
  { simplify_eq. rewrite list_insert_insert_eq. by rewrite list_insert_id. }
  apply Permutation_inj. split; [by rewrite !length_insert|].
  exists (λ k, if decide (k = i) then j else if decide (k = j) then i else k). split.
  - intros a b. repeat case_decide; congruence.
  - intros k. pose proof (lookup_lt_Some _ _ _ Hi). pose proof (lookup_lt_Some _ _ _ Hj).
    repeat case_decide; subst.
    + rewrite list_lookup_insert_eq by (rewrite length_insert; lia). done.
    + rewrite list_lookup_insert_ne by done. rewrite list_lookup_insert_eq by lia. done.
    + by rewrite !list_lookup_insert_ne by done.
Qed.

Section order.
Context {A : Type} (k : A → A → Z).
Implicit Types l : list A.

(** [ge a b]: [a] may stand above [b]. *)
Definition ge (a b : A) : Prop := 0 <= k a b.

Definition heap_order l : Prop :=
  ∀ c x p, (0 < c)%nat → l !! c = Some x → l !! parent c = Some p → ge p x.

(** Ordered except between [i] and its parent; the children of [i] are below
    that parent. *)
Definition up_inv (i : nat) l : Prop :=
  (∀ c x p, (0 < c)%nat → c ≠ i → l !! c = Some x → l !! parent c = Some p → ge p x) ∧
  (∀ c x p, (0 < c)%nat → (0 < i)%nat → parent c = i → l !! c = Some x → l !! parent i = Some p → ge p x).

(** Ordered except between [i] and its children, which are below the parent
    of [i]. *)
Definition down_inv (i : nat) l : Prop :=
  (∀ c x p, (0 < c)%nat → parent c ≠ i → l !! c = Some x → l !! parent c = Some p → ge p x) ∧
  (∀ c x p, (0 < c)%nat → (0 < i)%nat → parent c = i → l !! c = Some x → l !! parent i = Some p → ge p x).

Context (k_sym : ∀ x y, k x y <= 0 → 0 <= k y x).
Context (k_trans : ∀ x y z, ge x y → ge y z → ge x z).

Lemma ge_refl x : ge x x.
Proof. unfold ge. destruct (Z.le_ge_cases 0 (k x x)); [done|]. by apply k_sym. Qed.

Lemma up_exit i l x p : up_inv i l → l !! i = Some x →
  (i = 0%nat ∨ l !! parent i = Some p ∧ ge p x) → heap_order l.
Proof.
  intros [H1 _] Hx Hor c y q Hc Hy Hq. destruct (decide (c = i)) as [->|]; [|by eapply H1].
  destruct Hor as [->|[Hp Hge]]; [lia|]. congruence.
Qed.

Lemma up_step i l x p : up_inv i l → (0 < i)%nat → l !! i = Some x → l !! parent i = Some p → ge x p →
  up_inv (parent i) (<[parent i := x]> (<[i := p]> l)).
Proof.
  intros [H1 H2] Hi Hx Hp Hge. pose proof (parent_lt i Hi) as Hlt.
  pose proof (lookup_lt_Some _ _ _ Hx). pose proof (lookup_lt_Some _ _ _ Hp).
  set (l' := <[parent i := x]> (<[i := p]> l)).
  assert (l' !! i = Some p) as Ei.
  { unfold l'. rewrite list_lookup_insert_ne by lia. by rewrite list_lookup_insert_eq. }
  assert (l' !! parent i = Some x) as Ep.
  { unfold l'. by rewrite list_lookup_insert_eq by (rewrite length_insert; lia). }
  assert (∀ m, m ≠ i → m ≠ parent i → l' !! m = l !! m) as Eo.
  { intros. unfold l'. by rewrite !list_lookup_insert_ne by done. }
  split.
  - intros c y q Hc Hne Hy Hq. pose proof (parent_lt c Hc).
    destruct (decide (c = i)) as [->|Hci]; [simplify_eq; done|]. rewrite Eo in Hy by done.
    destruct (decide (parent c = i)) as [Hpi|Hpi]; [rewrite Hpi, Ei in Hq; simplify_eq; by eapply (H2 c)|].
    destruct (decide (parent c = parent i)) as [Hpp|Hpp].
    + rewrite Hpp, Ep in Hq. simplify_eq. apply (k_trans _ p); [done|]. eapply (H1 c); eauto. by rewrite Hpp.
    + rewrite Eo in Hq by done. by eapply (H1 c).
  - intros c y q Hc Hi' Hpc Hy Hq. pose proof (parent_lt (parent i) Hi').
    rewrite Eo in Hq by lia.
    assert (ge q p) as Hqp by (eapply (H1 (parent i)); eauto; lia).
    destruct (decide (c = i)) as [->|Hci]; [simplify_eq; done|].
    rewrite Eo in Hy by (done || (pose proof (parent_lt c Hc); lia)). apply (k_trans _ p); [done|].
    eapply (H1 c); eauto. by rewrite Hpc.
Qed.

Lemma down_exit i l x : down_inv i l → l !! i = Some x →
  (∀ c y, (0 < c)%nat → parent c = i → l !! c = Some y → ge x y) → heap_order l.
Proof.
  intros [H1 _] Hx Hch c y q Hc Hy Hq. destruct (decide (parent c = i)) as [Hpi|]; [|by eapply H1].
  rewrite Hpi in Hq. simplify_eq. by eapply Hch.
Qed.

(** [j] is the greater child of [i]. *)
Lemma down_step i j l x y : down_inv i l → (0 < j)%nat → parent j = i → l !! i = Some x → l !! j = Some y → ge y x →
  (∀ c z, (0 < c)%nat → parent c = i → l !! c = Some z → ge y z) →
  down_inv j (<[j := x]> (<[i := y]> l)).
Proof.
  intros [H1 H2] Hj Hpj Hx Hy Hge Hmax. pose proof (parent_lt j Hj) as Hlt. rewrite Hpj in Hlt.
  pose proof (lookup_lt_Some _ _ _ Hx). pose proof (lookup_lt_Some _ _ _ Hy).
  set (l' := <[j := x]> (<[i := y]> l)).
  assert (l' !! j = Some x) as Ej by (unfold l'; by rewrite list_lookup_insert_eq by (rewrite length_insert; lia)).
  assert (l' !! i = Some y) as Ei.
  { unfold l'. rewrite list_lookup_insert_ne by lia. by rewrite list_lookup_insert_eq. }
  assert (∀ m, m ≠ i → m ≠ j → l' !! m = l !! m) as Eo.
  { intros. unfold l'. by rewrite !list_lookup_insert_ne by done. }
  split.
  - intros c z q Hc Hne Hz Hq. pose proof (parent_lt c Hc).
    destruct (decide (parent c = i)) as [Hpi|Hpi].
    + rewrite Hpi, Ei in Hq. simplify_eq. destruct (decide (c = j)) as [->|Hcj]; [by simplify_eq|].
      rewrite Eo in Hz by (done || lia). by eapply Hmax.
    + rewrite Eo in Hq by done. destruct (decide (c = j)) as [->|Hcj]; [lia|].
      destruct (decide (c = i)) as [->|Hci]; [|rewrite Eo in Hz by done; by eapply (H1 c)].
      simplify_eq. eapply (H2 j); eauto.
  - intros c z q Hc _ Hpc Hz Hq. rewrite Hpj, Ei in Hq. simplify_eq. pose proof (parent_lt c Hc).
    rewrite Eo in Hz by lia. eapply (H1 c); [done|lia|done|done].
Qed.

(** The first element of an ordered heap is a greatest one. *)
Lemma heap_top l t : heap_order l → l !! 0%nat = Some t → ∀ x, x ∈ l → ge t x.
Proof.
  intros Ho Ht x [c Hx]%list_elem_of_lookup. revert x Hx. induction (lt_wf c) as [c _ IH]. intros x Hx.
  destruct (decide (c = 0%nat)) as [->|Hc]; [simplify_eq; apply ge_refl|].
  pose proof (parent_lt c ltac:(lia)). pose proof (lookup_lt_Some _ _ _ Hx).
  destruct (lookup_lt_is_Some_2 l (parent c)) as [p Hp]; [lia|]. apply (k_trans _ p); [by eapply IH|].
  eapply (Ho c); [lia|done|done].
Qed.

End order.

(** * The two loops *)

Section sift.
Context (fptr_cmp : option (zval → zval → option Z)).
Context (compare_function : zval → zval → Z * bool).
Implicit Types (w : world) (c : spl_ptr_heap_cmp_func) (es : list zval).
Abbreviation cmp := (heap_cmp fptr_cmp compare_function).

(** An element the comparison can be applied to: a queue compares nodes. *)
Definition good c w (x : zval) : Prop := c = spl_ptr_pqueue_zval_cmp_f → is_Some (nodes w !! x).

Lemma set_exc_id w : set_exc w (exc w) = w.
Proof. by destruct w. Qed.

Lemma cmp_values_ok o a b a' b' w : ∃ r e, cmp_values fptr_cmp compare_function o a b a' b' w = (r, set_exc w e).
Proof.
  unfold cmp_values, spl_ptr_heap_cmp_cb_helper. destruct (if o then fptr_cmp else None) as [f|].
  - destruct (f a b); [|by eexists _, true]. eexists _, (exc w). by rewrite set_exc_id.
  - destruct (compare_function a' b') as [r e]. by eexists _, _.
Qed.

(** A comparison changes nothing but [EG(exception)], which it does not
    clear. *)
Lemma cmp_ok c w a b : good c w a → good c w b →
  ∃ r e, cmp c a b w = OK (r, set_exc w e) ∧ (exc w = true → e = true).
Proof.
  intros Ha Hb. pose proof (set_exc_id w) as Hid.
  assert (∀ o a b a' b', ∃ r e, (if exc w then (0, w) else cmp_values fptr_cmp compare_function o a b a' b' w) =
    (r, set_exc w e) ∧ (exc w = true → e = true)) as Hv.
  { intros o x y x' y'. destruct (exc w) eqn:E; [by exists 0, true; rewrite Hid|].
    destruct (cmp_values_ok o x y x' y' w) as (r & e & ?). by exists r, e. }
  destruct c; simpl.
  - unfold spl_ptr_heap_zval_max_cmp. destruct (Hv true a b a b) as (r & e & -> & ?). eauto.
  - unfold spl_ptr_heap_zval_min_cmp. destruct (Hv true a b b a) as (r & e & -> & ?). eauto.
  - destruct (Ha eq_refl) as [[d1 p1] H1], (Hb eq_refl) as [[d2 p2] H2].
    unfold spl_ptr_pqueue_zval_cmp, spl_pqueue_extract_helper. simpl. rewrite H1, H2. simpl.
    destruct (Hv true p1 p2 p1 p2) as (r & e & -> & ?). eauto.
Qed.

(** The comparison answers as the function [k], without exceptions. *)
Definition pure_cmp c w (k : zval → zval → Z) : Prop :=
  exc w = false ∧ ∀ a b, good c w a → good c w b → cmp c a b w = OK (k a b, w).

Lemma good_exc c w e x : good c (set_exc w e) x ↔ good c w x.
Proof. done. Qed.

Lemma eset_ok es i x : (i < length es)%nat → eset es i x = OK (<[i := x]> es).
Proof. intros. unfold eset. by rewrite (proj2 (Nat.ltb_lt _ _)). Qed.

(** [es] with the element in the hole [i]. *)
Definition fill (n i : nat) (x : zval) es : list zval := <[i := x]> (take n es).

Lemma fill_at n i x es : (i < n ≤ length es)%nat → fill n i x es !! i = Some x.
Proof. intros. unfold fill. apply list_lookup_insert_eq. rewrite length_take. lia. Qed.

Lemma fill_ne n i x es j : (j < n)%nat → i ≠ j → fill n i x es !! j = es !! j.
Proof. intros. unfold fill. rewrite list_lookup_insert_ne by done. by apply lookup_take_lt. Qed.

(** Moving the entry of [j] into the hole [i] leaves the hole at [j]. *)
Lemma fill_move n i j x y es : (i < n ≤ length es)%nat → (j < n)%nat → i ≠ j →
  fill n j x (<[i := y]> es) = <[j := x]> (<[i := y]> (fill n i x es)).
Proof.
  intros. unfold fill. rewrite list_insert_insert_eq. by rewrite take_insert_lt by lia.
Qed.

Lemma fill_move_perm n i j x y es : (i < n ≤ length es)%nat → (j < n)%nat → i ≠ j → es !! j = Some y →
  fill n j x (<[i := y]> es) ≡ₚ fill n i x es.
Proof.
  intros Hi Hj Hne Hy. rewrite (fill_move n i j) by done. apply swap_perm; [by rewrite fill_ne|by apply fill_at].
Qed.

Lemma good_at c w l i x : Forall (good c w) l → l !! i = Some x → good c w x.
Proof. intros H Hx. by eapply Forall_lookup_1 in H. Qed.

(** What both loops guarantee, from hole [i] in [es] to hole [i'] in [es']. *)
Record sifted c w n x i es i' es' w' : Prop := {
  sf_hole : (i' < length es')%nat;
  sf_len : length es' = length es;
  sf_perm : fill n i' x es' ≡ₚ fill n i x es;
  sf_world : ∃ e, w' = set_exc w e ∧ (exc w = true → e = true);
}.

Lemma sifted_refl c w n x i es : (i < length es)%nat → sifted c w n x i es i es w.
Proof. intros. split; [done..|]. exists (exc w). by rewrite set_exc_id. Qed.

Lemma sift_up_any c fuel w es x i n :
  (i < n ≤ length es)%nat → (i < fuel)%nat → Forall (good c w) (fill n i x es) →
  ∃ i' es' w', sift_up fptr_cmp compare_function fuel c es x i w = OK (i', es', w') ∧ sifted c w n x i es i' es' w'.
Proof.
  revert w es i. induction fuel as [|fuel IH]; intros w es i Hi Hf Hg; [lia|]. cbn [sift_up].
  destruct (Nat.ltb_spec 0 i) as [Hpos|Hz]; [|eexists _, _, _; split; [done|]; apply sifted_refl; lia].
  pose proof (parent_lt i Hpos). destruct (lookup_lt_is_Some_2 es (parent i)) as [p Hp]; [lia|].
  unfold eget. rewrite Hp. ob.
  assert (good c w p) as Gp by (eapply (good_at _ _ _ (parent i)); [done|]; by rewrite fill_ne by lia).
  assert (good c w x) as Gx by (by eapply good_at, (fill_at n i)).
  destruct (cmp_ok c w p x Gp Gx) as (r & e & -> & He). ob.
  destruct (r <? 0).
  - rewrite eset_ok by lia. ob.
    pose proof (fill_move_perm n i (parent i) x p es Hi ltac:(lia) ltac:(lia) Hp) as Hperm.
    destruct (IH (set_exc w e) (<[i := p]> es) (parent i)) as (i' & es' & w' & Hrun & [S1 S2 S3 (e' & -> & He')]).
    + rewrite length_insert. lia.
    + lia.
    + rewrite Hperm. done.
    + eexists _, _, _. split; [done|]. split; [done|by rewrite S2, length_insert|by rewrite S3|].
      exists e'. split; [done|]. eauto.
  - eexists _, _, _. split; [done|]. split; [lia|done|done|]. eauto.
Qed.

Lemma sift_up_ordered c k fuel w es x i n i' es' w' :
  (∀ a b, k a b <= 0 → 0 <= k b a) → (∀ a b d, ge k a b → ge k b d → ge k a d) →
  pure_cmp c w k → (i < n ≤ length es)%nat → Forall (good c w) (fill n i x es) →
  sift_up fptr_cmp compare_function fuel c es x i w = OK (i', es', w') → up_inv k i (fill n i x es) →
  w' = w ∧ heap_order k (fill n i' x es').
Proof.
  intros Ks Kt [Hexc Hpure]. revert es i. induction fuel as [|fuel IH]; intros es i Hi Hg Hrun Hup; [done|].
  cbn [sift_up] in Hrun. destruct (Nat.ltb_spec 0 i) as [Hpos|Hz].
  2:{ simplify_eq. split; [done|]. eapply (up_exit k i' _ x x); [done|by apply fill_at|left; lia]. }
  pose proof (parent_lt i Hpos). destruct (lookup_lt_is_Some_2 es (parent i)) as [p Hp]; [lia|].
  unfold eget in Hrun. rewrite Hp in Hrun. cbn [obind rd] in Hrun.
  assert (fill n i x es !! parent i = Some p) as Fp by (by rewrite fill_ne by lia).
  assert (fill n i x es !! i = Some x) as Fx by (by apply fill_at).
  rewrite Hpure in Hrun by (by eapply good_at). cbn [obind] in Hrun.
  destruct (Z.ltb_spec (k p x) 0) as [Hlt|Hge].
  - rewrite eset_ok in Hrun by lia. cbn [obind] in Hrun.
    pose proof (fill_move_perm n i (parent i) x p es Hi ltac:(lia) ltac:(lia) Hp) as Hperm.
    apply (IH (<[i := p]> es) (parent i)); [rewrite length_insert; lia|by rewrite Hperm|done|].
    rewrite fill_move by lia. apply up_step; try done. apply Ks. lia.
  - simplify_eq. split; [done|]. eapply (up_exit k i' _ x p); [done..|]. by right.
Qed.

(** The cells the loop that sifts down looks at: the children [j], [j+1] of
    the hole, the last of which may be the old last cell, still holding
    [x]. *)
Lemma child_cell n i x es m : (i < m ≤ n)%nat → es !! n = Some x →
  es !! m = if decide (m = n) then Some x else fill n i x es !! m.
Proof. intros ??. case_decide; [by subst|]. by rewrite fill_ne by lia. Qed.

Lemma sift_down_any c fuel w es x i n :
  (i < n)%nat → es !! n = Some x → (n / 2 - i < fuel)%nat → Forall (good c w) (fill n i x es) →
  ∃ i' es' w', sift_down fptr_cmp compare_function fuel c es x (n / 2) n i w = OK (i', es', w') ∧
    sifted c w n x i es i' es' w'.
Proof.
  revert w es i. induction fuel as [|fuel IH]; intros w es i Hi Hn Hf Hg; [lia|]. cbn [sift_down].
  pose proof (lookup_lt_Some _ _ _ Hn) as Hlen. pose proof (Nat.div_mod_eq n 2).
  destruct (Nat.ltb_spec i (n / 2)) as [Hlim|Hz]; [|eexists _, _, _; split; [done|]; apply sifted_refl; lia].
  assert (good c w x) as Gx by (eapply good_at, (fill_at n i); [done|lia]).
  assert (∀ m, (i < m ≤ n)%nat → ∃ y, es !! m = Some y ∧ good c w y) as Hcell.
  { intros m Hm. destruct (lookup_lt_is_Some_2 es m) as [y Hy]; [lia|]. exists y. split; [done|].
    rewrite (child_cell n i x es m Hm Hn) in Hy. case_decide; [by simplify_eq|]. by eapply good_at. }
  destruct (Hcell (i * 2 + 1)%nat) as (a & Ha & Ga); [lia|]. destruct (Hcell (i * 2 + 1 + 1)%nat) as (b & Hb & Gb); [lia|].
  rewrite (proj2 (Nat.eqb_neq _ _)) by lia. cbn [negb]. unfold eget. rewrite Ha, Hb. ob.
  destruct (cmp_ok c w b a Gb Ga) as (r & e & -> & He). ob.
  set (j := if 0 <? r then _ else _). assert (i < j ≤ n)%nat as Hj by (unfold j; destruct (0 <? r); lia).
  destruct (Hcell j Hj) as (y & Hy & Gy). rewrite Hy. ob.
  destruct (cmp_ok c (set_exc w e) x y Gx Gy) as (r2 & e2 & -> & He2). ob.
  destruct (r2 <? 0).
  2:{ eexists _, _, _. split; [done|]. split; [lia|done|done|]. exists e2. eauto. }
  rewrite eset_ok by lia. ob. destruct (decide (j = n)) as [Hjn|Hjn].
  - rewrite Hjn in *. simplify_eq. destruct fuel as [|fuel]; [lia|]. cbn [sift_down].
    rewrite (proj2 (Nat.ltb_ge _ _)) by lia. eexists _, _, _. split; [done|].
    split; [rewrite length_insert; lia|by rewrite length_insert| |exists e2; eauto].
    unfold fill. rewrite list_insert_ge by (rewrite length_take; lia). by rewrite take_insert_lt by lia.
  - pose proof (fill_move_perm n i j x y es ltac:(lia) ltac:(lia) ltac:(lia) Hy) as Hperm.
    destruct (IH (set_exc (set_exc w e) e2) (<[i := y]> es) j) as (i' & es' & w' & Hrun & [S1 S2 S3 (e' & -> & He')]).
    + lia.
    + by rewrite list_lookup_insert_ne by lia.
    + lia.
    + by rewrite Hperm.
    + eexists _, _, _. split; [done|]. split; [done|by rewrite S2, length_insert|by rewrite S3|].
      exists e'. split; [done|]. eauto.
Qed.

Lemma sift_down_ordered c k fuel w es x i n i' es' w' :
  (∀ a b, k a b <= 0 → 0 <= k b a) → (∀ a b d, ge k a b → ge k b d → ge k a d) →
  pure_cmp c w k → (i < n)%nat → es !! n = Some x → Forall (good c w) (fill n i x es) →
  sift_down fptr_cmp compare_function fuel c es x (n / 2) n i w = OK (i', es', w') → down_inv k i (fill n i x es) →
  w' = w ∧ heap_order k (fill n i' x es').
Proof.
  intros Ks Kt [Hexc Hpure]. revert es i. induction fuel as [|fuel IH]; intros es i Hi Hn Hg Hrun Hdn; [done|].
  pose proof (lookup_lt_Some _ _ _ Hn) as Hlen. pose proof (Nat.div_mod_eq n 2).
  pose proof (Nat.mod_upper_bound n 2 ltac:(lia)).
  assert (fill n i x es !! i = Some x) as Fx by (apply fill_at; lia).
  assert (∀ m y, fill n i x es !! m = Some y → (m < n)%nat) as Hbound.
  { intros m y Hm%lookup_lt_Some. unfold fill in Hm. rewrite length_insert, length_take in Hm. lia. }
  cbn [sift_down] in Hrun. destruct (Nat.ltb_spec i (n / 2)) as [Hlim|Hz].
  2:{ simplify_eq. split; [done|]. apply (down_exit k i' _ x); [done..|].
      intros m y Hm Hpm Hy. apply Hbound in Hy. apply parent_child in Hpm; lia. }
  assert (good c w x) as Gx by (by eapply good_at).
  assert (∀ m y, (i < m ≤ n)%nat → es !! m = Some y → good c w y) as Hcell.
  { intros m y Hm Hy. rewrite (child_cell n i x es m Hm Hn) in Hy. case_decide; [by simplify_eq|]. by eapply good_at. }
  set (j0 := (i * 2 + 1)%nat) in *.
  destruct (lookup_lt_is_Some_2 es j0) as [a Ha]; [lia|]. destruct (lookup_lt_is_Some_2 es (j0 + 1)) as [b Hb]; [lia|].
  rewrite (proj2 (Nat.eqb_neq j0 n)) in Hrun by lia. cbn [negb] in Hrun.
  unfold eget in Hrun. rewrite Ha, Hb in Hrun. cbn [obind rd] in Hrun.
  rewrite Hpure in Hrun by (eapply Hcell; [|done]; lia). cbn [obind] in Hrun.
  set (j := if 0 <? k b a then (j0 + 1)%nat else j0) in *.
  assert (∃ y, es !! j = Some y ∧ (i < j ≤ n)%nat ∧ (j = j0 ∨ j = (j0 + 1)%nat) ∧ ge k y a ∧ ge k y b) as
    (y & Hy & Hj & Hjor & Hya & Hyb).
  { unfold j. destruct (Z.ltb_spec 0 (k b a)).
    - exists b. split; [done|]. split; [lia|]. split; [by right|]. split; [unfold ge; lia|by apply ge_refl].
    - exists a. split; [done|]. split; [lia|]. split; [by left|]. split; [by apply ge_refl|by apply Ks]. }
  rewrite Hy in Hrun. cbn [obind rd] in Hrun. rewrite Hpure in Hrun by (done || by eapply Hcell). cbn [obind] in Hrun.
  assert (∀ m z, (0 < m)%nat → parent m = i → fill n i x es !! m = Some z → ge k y z) as Hchild.
  { intros m z Hm Hpm Hz. apply parent_child in Hpm; [|done]. pose proof (Hbound _ _ Hz).
    rewrite fill_ne in Hz by lia. destruct Hpm as [->| ->]; [fold j0 in Hz; by simplify_eq|].
    replace (i * 2 + 2)%nat with (j0 + 1)%nat in Hz by lia. by simplify_eq. }
  destruct (Z.ltb_spec (k x y) 0) as [Hlt|Hge].
  - rewrite eset_ok in Hrun by lia. cbn [obind] in Hrun.
    assert (j ≠ n) as Hjn. { intros Hjn. rewrite Hjn, Hn in Hy. simplify_eq. pose proof (ge_refl k Ks y). unfold ge in *. lia. }
    pose proof (fill_move_perm n i j x y es ltac:(lia) ltac:(lia) ltac:(lia) Hy) as Hperm.
    apply (IH (<[i := y]> es) j); [lia|by rewrite list_lookup_insert_ne by lia|by rewrite Hperm|done|].
    rewrite fill_move by lia. apply (down_step k i j); try done; [lia|apply parent_child; lia|by rewrite fill_ne by lia|apply Ks; lia].
  - simplify_eq. split; [done|]. apply (down_exit k i' _ x); [done..|].
    intros m z Hm Hpm Hz. apply (Kt _ y); [done|]. by eapply Hchild.
Qed.
End sift.

(** * The heap operations *)

(** The heap holds the elements [l], in array order. *)
Record HeapRep (h : spl_ptr_heap) (l : list zval) : Prop := {
  hr_alloc : length (elements h) = max_size h;
  hr_pos : (0 < max_size h)%nat;
  hr_count : (count h ≤ max_size h)%nat;
  hr_list : take (count h) (elements h) = l;
}.

Lemma HeapRep_length h l : HeapRep h l → length l = count h.
Proof. intros [Ha _ Hc <-]. rewrite length_take. lia. Qed.

Section ops.
Context (fptr_cmp : option (zval → zval → option Z)).
Context (compare_function : zval → zval → Z * bool) (junk : zval).
Implicit Types (w : world) (h : spl_ptr_heap).
Abbreviation cmp := (heap_cmp fptr_cmp compare_function).
Abbreviation pure_cmp := (pure_cmp fptr_cmp compare_function).
Abbreviation insert_ := (spl_ptr_heap_insert fptr_cmp compare_function junk).
Abbreviation delete_top := (spl_ptr_heap_delete_top fptr_cmp compare_function).

(** Comparisons do not look at reference counts. *)
Lemma cmp_zrefs c a b w r :
  cmp c a b (set_zrefs w r) =
    match cmp c a b w with OK (x, w') => OK (x, set_zrefs w' r) | Bailout => Bailout | UB => UB end.
Proof.
  assert (∀ o a b a' b', (if exc w then (0, set_zrefs w r) else cmp_values fptr_cmp compare_function o a b a' b' (set_zrefs w r)) =
    let '(x, w') := (if exc w then (0, w) else cmp_values fptr_cmp compare_function o a b a' b' w) in (x, set_zrefs w' r)) as Hv.
  { intros o x y x' y'. destruct (exc w); [done|]. unfold cmp_values, spl_ptr_heap_cmp_cb_helper.
    destruct (if o then fptr_cmp else None) as [f|]; [by destruct (f x y)|]. by destruct (compare_function x' y'). }
  destruct c; simpl.
  - unfold spl_ptr_heap_zval_max_cmp. cbn [set_zrefs exc]. rewrite Hv. by destruct (if exc w then _ else _).
  - unfold spl_ptr_heap_zval_min_cmp. cbn [set_zrefs exc]. rewrite Hv. by destruct (if exc w then _ else _).
  - unfold spl_ptr_pqueue_zval_cmp, spl_pqueue_extract_helper. simpl.
    destruct (nodes w !! a) as [[d1 p1]|], (nodes w !! b) as [[d2 p2]|]; simpl; try done. rewrite Hv. by destruct (if exc w then _ else _).
Qed.

Lemma pure_zrefs c w r k : pure_cmp c w k → pure_cmp c (set_zrefs w r) k.
Proof. intros [He Hp]. split; [done|]. intros a b Ha Hb. rewrite cmp_zrefs. by rewrite Hp. Qed.

(** The world after a run of comparisons: [EG(exception)] may be set. *)
Definition raised w w' : Prop := ∃ e, w' = set_exc w e ∧ (exc w = true → e = true).

(** The flags after an operation that ends with [EG(exception)] [e]. *)
Definition flags_after (e : bool) (f : Z) : Z := if e then Z.lor f SPL_HEAP_CORRUPTED else f.

Record bag_post h w l (w1 : world) h' w' l' : Prop := {
  bp_rep : HeapRep h' l';
  bp_cmp : hcmp h' = hcmp h;
  bp_world : raised w1 w';
  bp_flags : flags h' = flags_after (exc w') (flags h);
  (** with a comparison that is a total preorder, the heap stays ordered *)
  bp_order : ∀ k, (∀ a b, k a b <= 0 → 0 <= k b a) → (∀ a b d, ge k a b → ge k b d → ge k a d) →
    pure_cmp (hcmp h) w k → heap_order k l → w' = w1 ∧ heap_order k l';
}.

Lemma fill_take n i x es : (i < length es)%nat → (n ≤ length es)%nat → take n (<[i := x]> es) = fill n i x es.
Proof.
  intros. unfold fill. destruct (decide (i < n)%nat); [by rewrite take_insert_lt|].
  rewrite take_insert_ge by lia. rewrite list_insert_ge; [done|]. rewrite length_take. lia.
Qed.

Lemma sifted_finish h w c n x i es i' es' w1 w' m :
  sifted c w1 n x i es i' es' w' → length es = m → (0 < m)%nat → (n ≤ m)%nat →
  HeapRep (set_elements (mark_corrupted (mkHeap es' c n m (flags h)) w') (<[i' := x]> es')) (fill n i' x es') ∧
  hcmp (set_elements (mark_corrupted (mkHeap es' c n m (flags h)) w') (<[i' := x]> es')) = c ∧
  flags (set_elements (mark_corrupted (mkHeap es' c n m (flags h)) w') (<[i' := x]> es')) = flags_after (exc w') (flags h).
Proof.
  intros [S1 S2 S3 S4] Hm Hpos Hn. unfold mark_corrupted, flags_after.
  destruct (exc w'); (split; [|done]); (split; simpl; [by rewrite length_insert, S2|done|done|apply fill_take; lia]).
Qed.

(** Growing the array keeps the elements. *)
Lemma heap_insert_spec h w l x r :
  HeapRep h l → Z.of_nat (count h) + 1 <= INT_MAX → Z.of_nat (max_size h) * 2 <= INT_MAX →
  zrefs w !! x = Some r → Forall (good (hcmp h) w) (x :: l) →
  let w1 := set_zrefs w (<[x := r + 1]> (zrefs w)) in
  ∃ h' w' l', insert_ h x w = OK (h', w') ∧ bag_post h w l w1 h' w' l' ∧ l' ≡ₚ x :: l.
Proof.
  intros HR Hc Hms Hx Hg w1. pose proof HR as [Ha Hpos Hcm Hl]. unfold spl_ptr_heap_insert.
  rewrite (proj2 (Z.ltb_ge _ _)) by lia.
  assert (∃ es m, (if (max_size h <? count h + 1)%nat then
      if INT_MAX <? Z.of_nat (max_size h) * 2 then UB
      else OK {| elements := elements h ++ replicate (max_size h) junk; hcmp := hcmp h; count := count h;
                 max_size := max_size h * 2; flags := flags h |}
    else OK h) = OK (mkHeap es (hcmp h) (count h) m (flags h)) ∧ length es = m ∧ (count h < m)%nat ∧
    take (count h) es = l) as (es & m & -> & Hm & Hcnt & Htk).
  { destruct (Nat.ltb_spec (max_size h) (count h + 1)) as [Hgrow|Hfit].
    - rewrite (proj2 (Z.ltb_ge _ _)) by lia. eexists _, _. split; [done|].
      rewrite length_app, length_replicate, take_app_le by lia. split_and!; [lia|lia|done].
    - exists (elements h), (max_size h). split_and!; [by destruct h|done|lia|done]. }
  ob. unfold spl_ptr_heap_zval_ctor, Z_ADDREF_P. rewrite Hx. ob. fold w1. cbn [hcmp elements count].
  assert (fill (count h + 1) (count h) x es = l ++ [x]) as Hfill.
  { rewrite <- fill_take by lia. rewrite Nat.add_1_r. rewrite (take_S_r _ _ x) by (apply list_lookup_insert_eq; lia).
    by rewrite take_insert_ge, Htk by lia. }
  assert (Forall (good (hcmp h) w1) (fill (count h + 1) (count h) x es)) as Hgf.
  { rewrite Hfill. apply Forall_cons in Hg as [G1 G2]. apply Forall_app. split; [exact G2|by constructor]. }
  destruct (sift_up_any fptr_cmp compare_function (hcmp h) (S (count h)) w1 es x (count h) (count h + 1)) as
    (i' & es' & w' & Hrun & HS); [lia|lia|done|]. rewrite Hrun. ob.
  destruct (sifted_finish h w (hcmp h) (count h + 1) x (count h) es i' es' w1 w' m HS Hm ltac:(lia) ltac:(lia)) as (F1 & F2 & F3).
  assert (elements (mark_corrupted (mkHeap es' (hcmp h) (count h + 1) m (flags h)) w') = es') as Hel
    by (unfold mark_corrupted; by destruct (exc w')).
  change (set_hcount _ (count h + 1)) with (mkHeap es' (hcmp h) (count h + 1) m (flags h)).
  rewrite Hel, eset_ok by (destruct HS; lia). ob. eexists _, _, (fill (count h + 1) i' x es'). split; [done|].
  pose proof (sf_perm _ _ _ _ _ _ _ _ _ HS) as Hperm. rewrite Hfill in Hperm. split; [|by rewrite Hperm, Permutation_app_comm].
  split; [exact F1|exact F2|exact (sf_world _ _ _ _ _ _ _ _ _ HS)|exact F3|].
  intros k Ks Kt Hpure Hord. eapply sift_up_ordered; [done|done|by apply pure_zrefs| |exact Hgf|exact Hrun|]; [lia|].
  rewrite Hfill. pose proof (HeapRep_length _ _ HR) as Hlen. split.
  - intros c y p Hc0 Hne Hy Hp. pose proof (parent_lt c Hc0). pose proof (lookup_lt_Some _ _ _ Hy) as Hlt.
    rewrite length_app in Hlt. simpl in Hlt. rewrite lookup_app_l in Hy, Hp by lia. by eapply Hord.
  - intros c y p Hc0 _ Hpc Hy _. apply parent_child in Hpc; [|done]. apply lookup_lt_Some in Hy.
    rewrite length_app in Hy. simpl in Hy. lia.
Qed.

Lemma zval_ptr_dtor_shared w z r : zrefs w !! z = Some r → 1 < r →
  zval_ptr_dtor w z = OK (set_zrefs w (<[z := r - 1]> (zrefs w))).
Proof.
  intros Hz Hr. unfold zval_ptr_dtor, drop_ref. rewrite Hz. ob. rewrite (proj2 (Z.eqb_neq _ _)) by lia.
  cbn [zrefs set_zrefs]. by rewrite lookup_insert_eq.
Qed.

Lemma delete_empty h w : HeapRep h [] → delete_top h w = OK (None, h, w).
Proof. intros HR. unfold spl_ptr_heap_delete_top. by rewrite <- (HeapRep_length _ _ HR). Qed.

(** The array without its first cell, the last one moved into it. *)
Lemma fill_first n t l0 es b : take (S n) es = t :: l0 → es !! n = Some b → (0 < n)%nat →
  ∃ rest, fill n 0 b es = b :: rest ∧ l0 = rest ++ [b].
Proof.
  intros Ht Hb Hn. rewrite (take_S_r _ _ b) in Ht by done. unfold fill.
  destruct (take n es) as [|t' rest] eqn:E.
  { apply lookup_lt_Some in Hb. apply (f_equal length) in E. rewrite length_take in E. simpl in E. lia. }
  simpl in Ht. simplify_eq. by exists rest.
Qed.

Lemma delete_top_spec h w t l0 r :
  HeapRep h (t :: l0) → zrefs w !! t = Some r → 1 < r → Forall (good (hcmp h) w) (t :: l0) →
  let w1 := set_zrefs w (<[t := r - 1]> (zrefs w)) in
  ∃ h' w' l', delete_top h w = OK (Some t, h', w') ∧ bag_post h w (t :: l0) w1 h' w' l' ∧ l' ≡ₚ l0.
Proof.
  intros HR Ht Hr Hg w1. pose proof HR as [Ha Hpos Hcm Hl]. pose proof (HeapRep_length _ _ HR) as Hlen.
  destruct (count h) as [|n] eqn:Ec; [done|]. simpl in Hlen. unfold spl_ptr_heap_delete_top. rewrite Ec.
  replace (S n - 1)%nat with n by lia. cbn [Nat.eqb].
  destruct (lookup_lt_is_Some_2 (elements h) n) as [b Hb]; [lia|].
  assert (elements h !! 0%nat = Some t) as H0 by (by rewrite <- (lookup_take_lt _ (S n)), Hl by lia).
  unfold eget. rewrite H0. ob. cbn [set_hcount elements count hcmp]. rewrite Hb. ob.
  (* the loop *)
  assert (∃ i' es' w', sift_down fptr_cmp compare_function (S (n / 2)) (hcmp h) (elements h) b (n / 2) n 0 w = OK (i', es', w') ∧
    sifted (hcmp h) w n b 0 (elements h) i' es' w' ∧ fill n 0 b (elements h) ≡ₚ l0 ∧
    (∀ k, (∀ a b, k a b <= 0 → 0 <= k b a) → (∀ a b d, ge k a b → ge k b d → ge k a d) →
       pure_cmp (hcmp h) w k → heap_order k (t :: l0) → w' = w ∧ heap_order k (fill n i' b es'))) as
    (i' & es' & w' & Hrun & HS & Hperm0 & Hord).
  { destruct (decide (n = 0%nat)) as [->|Hn0].
    { eexists _, _, _. split; [done|]. split; [apply sifted_refl; lia|]. destruct l0; [|done]. split; [done|].
      intros k _ _ _ _. split; [done|]. intros c x p Hc Hx%lookup_lt_Some.
      unfold fill in Hx. rewrite length_insert, length_take in Hx. lia. }
    destruct (fill_first n t l0 (elements h) b Hl Hb ltac:(lia)) as (rest & Hf & ->).
    assert (Forall (good (hcmp h) w) (fill n 0 b (elements h))) as Hgf.
    { rewrite Hf. apply Forall_cons in Hg as [_ G]. apply Forall_app in G as [G1 G2]. apply Forall_cons_2; [exact (proj1 (Forall_cons_1 _ _ _ G2))|done]. }
    destruct (sift_down_any fptr_cmp compare_function (hcmp h) (S (n / 2)) w (elements h) b 0 n) as (i' & es' & w' & Hrun & HS);
      [lia|done|lia|done|].
    exists i', es', w'. split; [done|]. split; [done|]. split; [by rewrite Hf, Permutation_app_comm|].
    intros k Ks Kt Hpure Hord. eapply sift_down_ordered; [done|done|done| |exact Hb|exact Hgf|exact Hrun|]; [lia|].
    assert (∀ c x, (0 < c)%nat → fill n 0 b (elements h) !! c = Some x → (t :: rest ++ [b]) !! c = Some x) as Hsame.
    { intros c x Hc Hx. rewrite Hf in Hx. destruct c; [lia|]. simpl in *. by apply lookup_app_l_Some. }
    split; [|intros; lia]. intros c x p Hc Hpc Hx Hp. eapply (Hord c); [done|by apply Hsame|].
    apply Hsame; [|done]. destruct (parent c); [done|lia]. }
  rewrite Hrun. ob.
  destruct (sifted_finish h w (hcmp h) n b 0 (elements h) i' es' w w' (max_size h) HS Ha Hpos ltac:(lia)) as (F1 & F2 & F3).
  assert (elements (mark_corrupted (mkHeap es' (hcmp h) n (max_size h) (flags h)) w') = es') as Hel
    by (unfold mark_corrupted; by destruct (exc w')).
  change (set_elements (set_hcount h n) es') with (mkHeap es' (hcmp h) n (max_size h) (flags h)).
  rewrite Hel, eset_ok by (destruct HS; lia). ob.
  destruct (sf_world _ _ _ _ _ _ _ _ _ HS) as (e & -> & He).
  unfold spl_ptr_heap_zval_dtor. rewrite (zval_ptr_dtor_shared _ t r) by done. ob.
  eexists _, _, (fill n i' b es'). split; [done|]. split; [|by rewrite (sf_perm _ _ _ _ _ _ _ _ _ HS)].
  split; [exact F1|exact F2|by exists e|exact F3|].
  intros k Ks Kt Hpure Hordl. destruct (Hord k Ks Kt Hpure Hordl) as [Hw Ho]. split; [|done].
  by rewrite Hw.
Qed.

End ops.

(** * The objects *)

Definition occ (z : zval) (l : list zval) : nat := count_occ (decide_rel eq) l z.

(** Every element is live and each of its places in the heap owns two of its
    references, one from the argument and one from [heap->ctor]. *)
Definition owns (w : world) (l : list zval) : Prop :=
  ∀ z, z ∈ l → ∃ m, zrefs w !! z = Some m ∧ 2 * Z.of_nat (occ z l) <= m.

(** An object whose heap holds [l]; its elements are not queue nodes. *)
Record ObjRep (o : spl_heap_object) (w : world) (l : list zval) : Prop := {
  or_heap : HeapRep (heap o) l;
  or_kind : hcmp (heap o) ≠ spl_ptr_pqueue_zval_cmp_f;
  or_owns : owns w l;
  or_plain : ∀ z, z ∈ l → nodes w !! z = None;
}.

Lemma occ_pos z l : z ∈ l ↔ (0 < occ z l)%nat.
Proof. rewrite list_elem_of_In. unfold occ. apply count_occ_In. Qed.

Lemma occ_cons_eq z l : occ z (z :: l) = S (occ z l).
Proof. by apply count_occ_cons_eq. Qed.

Lemma occ_cons_ne z y l : z ≠ y → occ y (z :: l) = occ y l.
Proof. intros. by apply count_occ_cons_neq. Qed.

Lemma owns_perm w l l' : l ≡ₚ l' → owns w l → owns w l'.
Proof.
  intros Hp Ho z Hz. rewrite <- Hp in Hz. destruct (Ho z Hz) as (m & ? & ?). exists m. split; [done|].
  unfold occ. by rewrite <- (proj1 (Permutation_count_occ (decide_rel eq) _ _) Hp z).
Qed.

Lemma owns_zrefs w w' l : zrefs w' = zrefs w → owns w l → owns w' l.
Proof. intros E Ho z Hz. rewrite E. by apply Ho. Qed.

Lemma owns_push w z l m : owns w l → zrefs w !! z = Some m → 0 <= m →
  owns (set_zrefs w (<[z := m + 2]> (zrefs w))) (z :: l).
Proof.
  intros Ho Hz Hm y Hy. cbn [zrefs set_zrefs]. destruct (decide (z = y)) as [<-|Hne].
  - exists (m + 2). rewrite lookup_insert_eq. split; [done|]. rewrite occ_cons_eq.
    destruct (decide (z ∈ l)) as [Hin|Hnin]; [destruct (Ho z Hin) as (m' & ? & ?); simplify_eq; lia|].
    assert (occ z l = 0%nat) as ->; [|lia]. rewrite occ_pos in Hnin. lia.
  - rewrite lookup_insert_ne by done. rewrite occ_cons_ne by done. apply Ho. set_solver.
Qed.

(** The references after one place of [z] is given up. *)
Definition release (r : gmap zval Z) (z : zval) (m : Z) : gmap zval Z :=
  if m =? 2 then delete z r else <[z := m - 2]> r.

Lemma owns_pop w z l m : owns w (z :: l) → zrefs w !! z = Some m → owns (set_zrefs w (release (zrefs w) z m)) l.
Proof.
  intros Ho Hz y Hy. unfold release. cbn [zrefs set_zrefs]. destruct (Ho y ltac:(set_solver)) as (m' & Hm' & Hle).
  destruct (decide (z = y)) as [<-|Hne].
  - simplify_eq. rewrite occ_cons_eq in Hle. apply occ_pos in Hy.
    rewrite (proj2 (Z.eqb_neq _ _)) by lia. eexists. rewrite lookup_insert_eq. split; [done|lia].
  - rewrite occ_cons_ne in Hle by done. exists m'. case_match; [by rewrite lookup_delete_ne|by rewrite lookup_insert_ne].
Qed.

Lemma good_plain c w l : c ≠ spl_ptr_pqueue_zval_cmp_f → Forall (good c w) l.
Proof. intros Hc. apply Forall_forall. by intros x _ ?. Qed.

Lemma corrupted_after h h' e : corrupted h = false → flags h' = flags_after e (flags h) → corrupted h' = e.
Proof.
  unfold corrupted, flags_after. intros Hc ->. destruct e; [|done].
  rewrite Z.land_lor_distr_l. apply negb_false_iff, Z.eqb_eq in Hc. by rewrite Hc.
Qed.

Section methods.
Context (fptr_cmp : option (zval → zval → option Z)).
Context (compare_function : zval → zval → Z * bool) (junk : zval) `{PEMalloc}.
Implicit Types (w : world) (o : spl_heap_object).
Abbreviation pure_cmp := (pure_cmp fptr_cmp compare_function).

(** The heap order survives, and no exception is raised, when the comparison
    is a total preorder [k]. *)
Definition keeps_order (c : spl_ptr_heap_cmp_func) w l w' l' : Prop :=
  ∀ k, (∀ a b, k a b <= 0 → 0 <= k b a) → (∀ a b d, ge k a b → ge k b d → ge k a d) →
    pure_cmp c w k → heap_order k l → exc w' = false ∧ heap_order k l'.

Lemma SplHeap_insert_spec o w l z m :
  ObjRep o w l → corrupted (heap o) = false → Z.of_nat (count (heap o)) + 1 <= INT_MAX →
  Z.of_nat (max_size (heap o)) * 2 <= INT_MAX → zrefs w !! z = Some m → 0 <= m → nodes w !! z = None →
  ∃ o' w' l', SplHeap_insert fptr_cmp compare_function junk o z false w = OK (RBool true, o', w') ∧
    ObjRep o' w' l' ∧ l' ≡ₚ z :: l ∧ hcmp (heap o') = hcmp (heap o) ∧ corrupted (heap o') = exc w' ∧
    zrefs w' = <[z := m + 2]> (zrefs w) ∧ nodes w' = nodes w ∧ keeps_order (hcmp (heap o)) w l w' l'.
Proof.
  intros [HR Hk Ho Hpl] Hc Hcnt Hms Hz Hm Hnz. unfold SplHeap_insert. rewrite Hc. unfold SEPARATE_ARG_IF_REF, Z_ADDREF_P.
  rewrite Hz. ob. set (w0 := set_zrefs w _).
  destruct (heap_insert_spec fptr_cmp compare_function junk (heap o) w0 l z (m + 1)) as (h' & w' & l' & -> & [B1 B2 B3 B4 B5] & Hp);
    [done|done|done|by unfold w0; simpl; rewrite lookup_insert_eq|by apply good_plain|]. ob.
  destruct B3 as (e & -> & He).
  assert (zrefs (set_exc (set_zrefs w0 (<[z := m + 1 + 1]> (zrefs w0))) e) = <[z := m + 2]> (zrefs w)) as Hzr.
  { simpl. rewrite insert_insert_eq. f_equal. lia. }
  eexists _, _, l'. split; [done|]. split_and!; try done.
  - split; simpl; [done|by rewrite B2| |].
    + apply (owns_perm _ (z :: l)); [done|]. eapply owns_zrefs; [|by apply (owns_push w z l m)]. exact Hzr.
    + intros y Hy. rewrite Hp in Hy. apply elem_of_cons in Hy as [->|Hy]; [done|by apply Hpl].
  - by eapply corrupted_after.
  - intros k Ks Kt Hpure Hord. destruct (B5 k Ks Kt) as [Hw Hl]; [by apply pure_zrefs|done|].
    split; [|done]. rewrite Hw. simpl. by destruct Hpure.
Qed.

Lemma two_drops w z m w' e : zrefs w !! z = Some m → 2 <= m → nodes w !! z = None →
  w' = set_exc (set_zrefs w (<[z := m - 1]> (zrefs w))) e →
  zval_ptr_dtor w' z = OK (set_exc (set_zrefs w (release (zrefs w) z m)) e).
Proof.
  intros Hz Hm Hn ->. unfold zval_ptr_dtor, drop_ref, release. cbn [zrefs set_zrefs set_exc nodes].
  rewrite lookup_insert_eq. ob. rewrite Hn. destruct (Z.eqb_spec m 2) as [->|Hne]; simpl.
  - rewrite delete_insert_eq. by rewrite lookup_delete_eq.
  - rewrite (proj2 (Z.eqb_neq _ _)) by lia. rewrite lookup_insert_eq, insert_insert_eq. by replace (m - 1 - 1) with (m - 2) by lia.
Qed.

Lemma take_top_spec o w t l0 :
  ObjRep o w (t :: l0) → corrupted (heap o) = false →
  ∃ h' w1 w' l', spl_ptr_heap_delete_top fptr_cmp compare_function (heap o) w = OK (Some t, h', w1) ∧
    zval_ptr_dtor w1 t = OK w' ∧ ObjRep (set_heap o h') w' l' ∧ l' ≡ₚ l0 ∧ hcmp h' = hcmp (heap o) ∧
    corrupted h' = exc w' ∧ nodes w' = nodes w ∧ keeps_order (hcmp (heap o)) w (t :: l0) w' l'.
Proof.
  intros [HR Hk Ho Hpl] Hc. destruct (Ho t ltac:(set_solver)) as (m & Ht & Hm).
  rewrite occ_cons_eq in Hm.
  destruct (delete_top_spec fptr_cmp compare_function (heap o) w t l0 m) as (h' & w1 & l' & Hrun & [B1 B2 B3 B4 B5] & Hp);
    [done|done|lia|by apply good_plain|]. destruct B3 as (e & Hw1 & He).
  pose proof (two_drops w t m w1 e Ht ltac:(lia) (Hpl t ltac:(set_solver)) Hw1) as Hd.
  exists h', w1. eexists _, l'. split; [done|]. split; [done|]. split_and!; try done.
  - split; simpl; [done|by rewrite B2| |].
    + apply (owns_perm _ l0); [done|]. eapply owns_zrefs; [|by apply (owns_pop w t l0 m)]. done.
    + intros y Hy. rewrite Hp in Hy. apply Hpl. set_solver.
  - simpl. rewrite Hw1 in B4. by eapply corrupted_after.
  - intros k Ks Kt Hpure Hord. destruct (B5 k Ks Kt Hpure Hord) as [Hw Hl]. split; [|done]. simpl.
    rewrite Hw in Hw1. apply (f_equal exc) in Hw1. simpl in Hw1. rewrite <- Hw1. by destruct Hpure.
Qed.

Lemma SplHeap_extract_spec o w t l0 :
  ObjRep o w (t :: l0) → corrupted (heap o) = false →
  ∃ o' w' l', SplHeap_extract fptr_cmp compare_function o w = OK (RZval t, o', w') ∧
    ObjRep o' w' l' ∧ l' ≡ₚ l0 ∧ hcmp (heap o') = hcmp (heap o) ∧
    corrupted (heap o') = exc w' ∧ nodes w' = nodes w ∧ keeps_order (hcmp (heap o)) w (t :: l0) w' l'.
Proof.
  intros HR Hc. destruct (take_top_spec o w t l0 HR Hc) as (h' & w1 & w' & l' & Hrun & Hd & Hpost).
  exists (set_heap o h'), w', l'. split; [|exact Hpost]. unfold SplHeap_extract. rewrite Hc, Hrun. ob. by rewrite Hd.
Qed.

Lemma SplHeap_top_spec o w t l0 : ObjRep o w (t :: l0) → corrupted (heap o) = false →
  SplHeap_top o w = OK (RZval t, o, w).
Proof.
  intros [HR _ _ _] Hc. unfold SplHeap_top, spl_ptr_heap_top, eget. rewrite Hc. pose proof (HeapRep_length _ _ HR) as Hl.
  simpl in Hl. destruct HR as [_ _ _ Ht]. rewrite <- Hl. cbn [Nat.eqb].
  by rewrite <- (lookup_take_lt _ (count (heap o))), Ht by lia.
Qed.

(** * Iteration *)

(** A [foreach] loop over the heap: the engine asks [valid], fetches the
    current value, runs the body and moves forward until it is not valid or
    an exception is pending.  The result is what the body saw. *)
Fixpoint foreach (fuel : nat) o w : outcome (list zval * spl_heap_object * world) :=
  match fuel with
  | O => UB
  | S fuel =>
      match spl_heap_it_valid o with
      | FAILURE => OK ([], o, w)
      | SUCCESS =>
          let* (d, w) := spl_heap_it_get_current_data o w in
          if exc w then OK ([], o, w) else
          let* (o, w) := spl_heap_it_move_forward fptr_cmp compare_function o w in
          if exc w then OK (option_list d, o, w) else
          let* (xs, o, w) := foreach fuel o w in
          OK (option_list d ++ xs, o, w)
      end
  end.

Lemma pure_world c w w' k : pure_cmp c w k → exc w' = false → nodes w' = nodes w → pure_cmp c w' k.
Proof.
  intros Hp He Hn. replace w' with (set_zrefs w (zrefs w')); [by apply pure_zrefs|].
  destruct w, w', Hp as [? _]. simpl in *. by subst.
Qed.

Lemma foreach_spec k l fuel o w :
  (∀ a b, k a b <= 0 → 0 <= k b a) → (∀ a b d, ge k a b → ge k b d → ge k a d) →
  ObjRep o w l → corrupted (heap o) = false → pure_cmp (hcmp (heap o)) w k → heap_order k l → (length l < fuel)%nat →
  ∃ xs o' w', foreach fuel o w = OK (xs, o', w') ∧ xs ≡ₚ l ∧ StronglySorted (ge k) xs ∧ ObjRep o' w' [] ∧ exc w' = false.
Proof.
  intros Ks Kt. revert l o w. induction fuel as [|fuel IH]; intros l o w HO Hc Hpure Hord Hf; [lia|]. cbn [foreach].
  pose proof (HeapRep_length _ _ (or_heap _ _ _ HO)) as Hlen. unfold spl_heap_it_valid. destruct l as [|t l0].
  { rewrite <- Hlen. cbn [length Nat.eqb]. exists [], o, w. split_and!; try done; [constructor|by destruct Hpure]. }
  unfold spl_heap_it_get_current_data. rewrite Hc, <- Hlen. cbn [length Nat.eqb].
  assert (elements (heap o) !! 0%nat = Some t) as H0.
  { destruct HO as [[_ _ _ Ht] _ _ _]. simpl in Hlen. by rewrite <- (lookup_take_lt _ (count (heap o))), Ht by lia. }
  unfold eget. rewrite H0. ob. rewrite (proj1 Hpure). unfold spl_heap_it_move_forward. rewrite Hc.
  destruct (take_top_spec o w t l0 HO Hc) as (h' & w1 & w' & l' & -> & Hd & HO' & Hp & Hcmp & Hcor & Hn & Hkeep). ob.
  rewrite Hd. ob. destruct (Hkeep k Ks Kt Hpure Hord) as [He Hord']. rewrite He.
  destruct (IH l' (set_heap o h') w') as (xs & o2 & w2 & -> & Hxs & Hs & HO2 & He2); try done.
  { cbn [heap set_heap]. by rewrite Hcor. }
  { cbn [heap set_heap]. rewrite Hcmp. by eapply pure_world. }
  { rewrite Hp. simpl in Hf. lia. }
  ob. eexists _, _, _. split; [done|]. split; [by simpl; rewrite Hxs, Hp|]. split; [|done].
  simpl. constructor; [done|]. apply Forall_forall. intros x Hx. eapply (heap_top k Ks Kt (t :: l0)); [done|done|].
  rewrite <- Hp, <- Hxs. set_solver.
Qed.
End methods.
