(* ===== verification/SplHeapProps.v ===== *)
(** The properties of the SPL heaps. *)

From S2P Require Import Prelude SplHeap SplHeapSpec.
From Stdlib Require Import Sorting.Sorted.

(** The concrete runs of the witnesses: an empty SplMaxHeap whose comparison
    orders zvals by their addresses. *)
Definition ex_compare (a b : zval) : Z * bool :=
  (match Pos.compare a b with Lt => -1 | Eq => 0 | Gt => 1 end, false).
Definition ex_k (a b : zval) : Z := match Pos.compare a b with Lt => -1 | Eq => 0 | Gt => 1 end.
Definition ex_world : world := mkWorld {[ 5%positive := 3; 9%positive := 2 ]} ∅ false.
Definition ex_heap : spl_heap_object :=
  mkObj (mkHeap (9%positive :: replicate 63 1%positive) spl_ptr_heap_zval_max_cmp_f 1 64 0) 0.

Lemma exh_rep : ObjRep ex_heap ex_world [9%positive].
Proof.
  split; [by split; [done|simpl; lia|simpl; lia|]|done| |].
  - intros z ->%list_elem_of_singleton. exists 2. by split.
  - done.
Qed.

Lemma ex_k_sym a b : ex_k a b <= 0 → 0 <= ex_k b a.
Proof. unfold ex_k. rewrite (Pos.compare_antisym a b). destruct (Pos.compare a b); simpl; lia. Qed.

Lemma ex_k_ge a b : ge ex_k a b ↔ (b ≤ a)%positive.
Proof. unfold ge, ex_k. destruct (Pos.compare_spec a b); lia. Qed.

Lemma ex_k_trans a b d : ge ex_k a b → ge ex_k b d → ge ex_k a d.
Proof. rewrite !ex_k_ge. lia. Qed.

Lemma ex_pure w : exc w = false → pure_cmp None ex_compare spl_ptr_heap_zval_max_cmp_f w ex_k.
Proof.
  intros He. split; [done|]. intros a b _ _. simpl. unfold spl_ptr_heap_zval_max_cmp, cmp_values, ex_compare, ex_k.
  rewrite He. destruct w. simpl in *. subst. by destruct (Pos.compare a b).
Qed.

Lemma ex_order (z : zval) : heap_order ex_k [z].
Proof. intros c x p Hc Hx. apply lookup_lt_Some in Hx. simpl in Hx. lia. Qed.

(** C29: With a comparison that is a total preorder, a heap object is a
    priority queue over the bag of its elements: [SplHeap::insert] adds the
    value, [top] and [extract] give a greatest element, [extract] removes
    exactly that one; the heap order is kept and no reference is lost. *)
Theorem heap_refines_bag fptr_cmp compare_function junk `{PEMalloc} k o w l z m :
  (∀ a b, k a b <= 0 → 0 <= k b a) → (∀ a b d, ge k a b → ge k b d → ge k a d) →
  pure_cmp fptr_cmp compare_function (hcmp (heap o)) w k →
  ObjRep o w l → heap_order k l → corrupted (heap o) = false →
  Z.of_nat (count (heap o)) + 1 <= INT_MAX → Z.of_nat (max_size (heap o)) * 2 <= INT_MAX →
  zrefs w !! z = Some m → 0 <= m → nodes w !! z = None →
  (∃ o' w' l', SplHeap_insert fptr_cmp compare_function junk o z false w = OK (RBool true, o', w') ∧
     ObjRep o' w' l' ∧ heap_order k l' ∧ l' ≡ₚ z :: l ∧ corrupted (heap o') = false ∧
     zrefs w' = <[z := m + 2]> (zrefs w)) ∧
  (∀ t l0, l = t :: l0 → ∃ o' w' l',
     SplHeap_top o w = OK (RZval t, o, w) ∧ (∀ x, x ∈ l → ge k t x) ∧
     SplHeap_extract fptr_cmp compare_function o w = OK (RZval t, o', w') ∧
     ObjRep o' w' l' ∧ heap_order k l' ∧ l' ≡ₚ l0 ∧ corrupted (heap o') = false).
Proof.
  intros Ks Kt Hpure HO Hord Hc Hcnt Hms Hz Hm Hn. split.
  - destruct (SplHeap_insert_spec fptr_cmp compare_function junk o w l z m) as
      (o' & w' & l' & ? & ? & ? & ? & Hcor & ? & ? & Hkeep); [done..|].
    destruct (Hkeep k Ks Kt Hpure Hord) as [He ?]. exists o', w', l'. rewrite He in Hcor. done.
  - intros t l0 ->. destruct (SplHeap_extract_spec fptr_cmp compare_function o w t l0 HO Hc) as
      (o' & w' & l' & ? & ? & ? & ? & Hcor & ? & Hkeep).
    destruct (Hkeep k Ks Kt Hpure Hord) as [He ?]. exists o', w', l'. rewrite He in Hcor.
    split; [by eapply SplHeap_top_spec|]. split; [|done]. by eapply heap_top.
Qed.

Lemma heap_refines_bag_witness :
  SplHeap_top ex_heap ex_world = OK (RZval 9%positive, ex_heap, ex_world) ∧ corrupted (heap ex_heap) = false.
Proof.
  destruct (@heap_refines_bag None ex_compare 1%positive bump_malloc ex_k ex_heap ex_world [9%positive] 5%positive 3
    ex_k_sym ex_k_trans (ex_pure ex_world eq_refl) exh_rep (ex_order _) eq_refl ltac:(unfold INT_MAX; simpl; lia)
    ltac:(unfold INT_MAX; simpl; lia) eq_refl ltac:(lia) eq_refl) as [_ Hx].
  destruct (Hx _ _ eq_refl) as (o' & w' & l' & Htop & _). split; [exact Htop|reflexivity].
Defined.




(** A [foreach] over a heap whose comparison is a total preorder visits
    every element exactly once, greatest first, and leaves the heap empty. *)
Theorem heap_foreach_sorted fptr_cmp compare_function k o w l :
  (∀ a b, k a b <= 0 → 0 <= k b a) → (∀ a b d, ge k a b → ge k b d → ge k a d) →
  pure_cmp fptr_cmp compare_function (hcmp (heap o)) w k →
  ObjRep o w l → heap_order k l → corrupted (heap o) = false →
  ∃ xs o' w', foreach fptr_cmp compare_function (S (length l)) o w = OK (xs, o', w') ∧
    xs ≡ₚ l ∧ StronglySorted (λ a b, 0 <= k a b) xs ∧ ObjRep o' w' [].
Proof.
  intros Ks Kt Hpure HO Hord Hc.
  destruct (foreach_spec fptr_cmp compare_function k l (S (length l)) o w) as (xs & o' & w' & ? & ? & ? & ? & _);
    [done..|lia|]. by exists xs, o', w'.
Qed.

Lemma heap_foreach_sorted_witness :
  ∃ xs o' w', foreach None ex_compare 2 ex_heap ex_world = OK (xs, o', w') ∧ xs ≡ₚ [9%positive].
Proof.
  destruct (heap_foreach_sorted None ex_compare ex_k ex_heap ex_world [9%positive]
    ex_k_sym ex_k_trans (ex_pure ex_world eq_refl) exh_rep (ex_order _) eq_refl) as (xs & o' & w' & H1 & H2 & _).
  exists xs, o', w'. split; [exact H1|exact H2].
Defined.
