(* ===== verification/SplIterators.v ===== *)
(** The engine's iterators as ext/spl/spl_iterators.c uses them: the interface
    [zend_object_iterator_funcs], the traversal [spl_iterator_apply] and
    iterator_to_array() and iterator_count() on top of it; what an iterator
    promises, and what the traversals then do. *)

From S2P Require Import Prelude OrderedDict ZendHashDict.

Abbreviation zval := positive.

(** [zend_object_iterator_funcs] for iterators [It] in the world [W] (the object
    and the memory), [EG(exception)] and the reference counts of zvals.  A
    [get_current_data] that gives no value may throw. *)
Class IteratorFuncs (It W : Type) := {
  iter_dtor : It → W → outcome W;
  iter_valid : It → W → zresult;
  iter_get_current_data : It → W → outcome (option zval * W);
  iter_get_current_key : It → W → Z;
  iter_move_forward : It → W → outcome (It * W);
  iter_rewind : It → W → outcome (It * W);
  EG_exception : W → bool;
  iter_addref : zval → W → outcome W;
  iter_zval_ptr_dtor : zval → W → outcome W;
}.

Inductive apply_result := APPLY_KEEP | APPLY_STOP.

(** [return_value], an array: the dictionary of its hash table and the next free
    index. *)
Record zarray := mkArray { items : list (akey * zval); next_free : Z }.
Definition array_init : zarray := mkArray [] 0.

Section apply.
Context {It W : Type} `{IteratorFuncs It W}.

Section puser.
Context {St : Type}.
Implicit Types (it : It) (w : W) (puser : St).
Context (apply_func : It → St → W → outcome (apply_result * St * W)).

(** The loop of spl_iterator_apply; [iter->index] is only counted. *)
Fixpoint apply_loop (fuel : nat) it puser w : outcome (It * St * W) :=
  match fuel with
  | O => UB
  | S fuel =>
      match iter_valid it w with
      | FAILURE => OK (it, puser, w)
      | SUCCESS =>
          if EG_exception w then OK (it, puser, w) else
          let* (r, puser, w) := apply_func it puser w in
          if (match r with APPLY_STOP => true | APPLY_KEEP => false end) || EG_exception w then OK (it, puser, w) else
          let* (it, w) := iter_move_forward it w in
          if EG_exception w then OK (it, puser, w) else apply_loop fuel it puser w
      end
  end.

(** [done:] *)
Definition apply_done (iter : option It) puser w : outcome (zresult * St * W) :=
  let* w := match iter with Some it => iter_dtor it w | None => OK w end in
  OK (if EG_exception w then FAILURE else SUCCESS, puser, w).

Definition spl_iterator_apply (fuel : nat) (get_iterator : W → outcome (option It * W)) puser w : outcome (zresult * St * W) :=
  let* (iter, w) := get_iterator w in
  if EG_exception w then apply_done iter puser w else
  let* it := rd iter in
  let* (it, w) := iter_rewind it w in
  if EG_exception w then apply_done (Some it) puser w else
  let* (it, puser, w) := apply_loop fuel it puser w in
  apply_done (Some it) puser w.
End puser.

(** [zend_hash_index_update] with the array's destructor, then the reference of
    array_set_zval_key; keys are longs. *)
Definition array_set_zval_key (key : Z) (value : zval) (a : zarray) (w : W) : outcome (zarray * W) :=
  let k := KIdx (to_ulong key) in
  let* w := match dlookup k (items a) with Some old => iter_zval_ptr_dtor old w | None => OK w end in
  let* w := iter_addref value w in
  OK (mkArray (dupdate k value (items a)) (if decide (k ∈ (items a).*1) then next_free a else next_index (next_free a) k), w).

Definition spl_iterator_to_array_apply (it : It) (a : zarray) (w : W) : outcome (apply_result * zarray * W) :=
  let* (data, w) := iter_get_current_data it w in
  if EG_exception w then OK (APPLY_STOP, a, w) else
  match data with
  | None => OK (APPLY_STOP, a, w)
  | Some z => let* (a, w) := array_set_zval_key (iter_get_current_key it w) z a w in OK (APPLY_KEEP, a, w)
  end.

(** add_next_index_zval fails on a full array only, whose result is not looked at. *)
Definition spl_iterator_to_values_apply (it : It) (a : zarray) (w : W) : outcome (apply_result * zarray * W) :=
  let* (data, w) := iter_get_current_data it w in
  if EG_exception w then OK (APPLY_STOP, a, w) else
  match data with
  | None => OK (APPLY_STOP, a, w)
  | Some z =>
      let* w := iter_addref z w in
      let k := KIdx (next_free a) in
      OK (APPLY_KEEP, if decide (k ∈ (items a).*1) then a else mkArray (items a ++ [(k, z)]) (next_index (next_free a) k), w)
  end.

Definition spl_iterator_count_apply (it : It) (count : Z) (w : W) : outcome (apply_result * Z * W) :=
  if LONG_MAX <? count + 1 then UB else OK (APPLY_KEEP, count + 1, w).

Fixpoint array_dtor (d : list (akey * zval)) (w : W) : outcome W :=
  match d with [] => OK w | (_, z) :: d => let* w := iter_zval_ptr_dtor z w in array_dtor d w end.

(** [None] is the NULL returned after an exception. *)
Definition iterator_to_array (fuel : nat) (get_iterator : W → outcome (option It * W)) (use_keys : bool) (w : W) : outcome (option zarray * W) :=
  let* (r, a, w) := spl_iterator_apply (if use_keys then spl_iterator_to_array_apply else spl_iterator_to_values_apply) fuel get_iterator array_init w in
  match r with
  | SUCCESS => OK (Some a, w)
  | FAILURE => let* w := array_dtor (items a) w in OK (None, w)
  end.
Definition iterator_count (fuel : nat) (get_iterator : W → outcome (option It * W)) (w : W) : outcome (option Z * W) :=
  let* (r, n, w) := spl_iterator_apply spl_iterator_count_apply fuel get_iterator 0 w in
  OK (match r with SUCCESS => Some n | FAILURE => None end, w).

(** * What an iterator promises

    [at_ e it w es]: the entries [es], keys and values, are still to come; [e]
    counts references to zvals that others hold. *)
Definition more (e : zval → Z) (z : zval) (d : Z) : zval → Z := λ y, e y + (if decide (y = z) then d else 0).

Class IteratorLaws (at_ : (zval → Z) → It → W → list (Z * zval) → Prop) : Prop := {
  at_exception e it w es : at_ e it w es → EG_exception w = false;
  at_nonneg e it w es : at_ e it w es → ∀ z, 0 ≤ e z;
  at_valid e it w es : at_ e it w es → iter_valid it w = match es with [] => FAILURE | _ => SUCCESS end;
  at_data e it w k z es : at_ e it w ((k, z) :: es) → iter_get_current_data it w = OK (Some z, w) ∧ iter_get_current_key it w = k;
  at_forward e it w x es : at_ e it w (x :: es) → ∃ it' w', iter_move_forward it w = OK (it', w') ∧ at_ e it' w' es;
  at_addref e it w k z es : at_ e it w ((k, z) :: es) → ∃ w', iter_addref z w = OK w' ∧ at_ (more e z 1) it w' ((k, z) :: es);
  at_drop e it w z es : at_ (more e z 1) it w es → (∀ y, 0 ≤ e y) → ∃ w', iter_zval_ptr_dtor z w = OK w' ∧ at_ e it w' es;
  at_ext e e' it w es : at_ e it w es → (∀ y, e y = e' y) → at_ e' it w es;
}.

(** * The traversals, for every iterator that keeps its promise *)

Section visits.
Context (at_ : (zval → Z) → It → W → list (Z * zval) → Prop) {L : IteratorLaws at_}.
Context {St : Type} (apply_func : It → St → W → outcome (apply_result * St * W)).
(** [f] is what a call does to its argument, [held] the references in it, [P]
    what the calls need. *)
Context (f : St → Z * zval → St) (held : St → zval → Z) (P : St → list (Z * zval) → Prop).
Hypothesis Hcall : ∀ e it w x es st, (∀ z, 0 ≤ e z) → P st (x :: es) → at_ (λ z, e z + held st z) it w (x :: es) →
  P (f st x) es ∧ ∃ w', apply_func it st w = OK (APPLY_KEEP, f st x, w') ∧ at_ (λ z, e z + held (f st x) z) it w' (x :: es).

Lemma apply_loop_visits e it w es st fuel : (∀ z, 0 ≤ e z) → P st es → at_ (λ z, e z + held st z) it w es → (length es < fuel)%nat →
  ∃ it' w', apply_loop apply_func fuel it st w = OK (it', foldl f st es, w') ∧ at_ (λ z, e z + held (foldl f st es) z) it' w' [].
Proof.
  intros He. revert it w es st. induction fuel as [|fuel IH]; intros it w es st HP Ha Hf; [lia|]. simpl. rewrite (at_valid _ _ _ _ Ha).
  destruct es as [|x es]; [by exists it, w|]. rewrite (at_exception _ _ _ _ Ha).
  destruct (Hcall _ _ _ _ _ _ He HP Ha) as (HP' & w1 & -> & Ha1). cbn [obind]. rewrite (at_exception _ _ _ _ Ha1). simpl orb. cbv iota.
  destruct (at_forward _ _ _ _ _ Ha1) as (it2 & w2 & -> & Ha2). cbn [obind]. rewrite (at_exception _ _ _ _ Ha2).
  apply (IH it2 w2 es (f st x)); [done..|simpl in Hf; lia].
Qed.

Lemma apply_visits e get w it1 w1 it2 w2 es st fuel : get w = OK (Some it1, w1) → EG_exception w1 = false → iter_rewind it1 w1 = OK (it2, w2) →
  (∀ z, 0 ≤ e z) → P st es → at_ (λ z, e z + held st z) it2 w2 es → (length es < fuel)%nat →
  ∃ it' w3, at_ (λ z, e z + held (foldl f st es) z) it' w3 [] ∧
    spl_iterator_apply apply_func fuel get st w =
    let* w := iter_dtor it' w3 in OK (if EG_exception w then FAILURE else SUCCESS, foldl f st es, w).
Proof.
  intros Hg He1 Hr He HP Ha Hf. destruct (apply_loop_visits _ _ _ _ _ _ He HP Ha Hf) as (it' & w3 & Hrun & Ha').
  exists it', w3. split; [done|]. unfold spl_iterator_apply. rewrite Hg. cbn [obind]. rewrite He1. cbn [obind rd]. rewrite Hr. cbn [obind].
  rewrite (at_exception _ _ _ _ Ha), Hrun. done.
Qed.
End visits.

(** The arrays that the traversals build. *)
Definition to_array_step (a : zarray) (x : Z * zval) : zarray :=
  let k := KIdx (to_ulong x.1) in
  mkArray (dupdate k x.2 (items a)) (if decide (k ∈ (items a).*1) then next_free a else next_index (next_free a) k).
Definition to_values_step (a : zarray) (x : Z * zval) : zarray :=
  mkArray (items a ++ [(KIdx (next_free a), x.2)]) (next_index (next_free a) (KIdx (next_free a))).

Fixpoint occurs (z : zval) (vs : list zval) : Z := match vs with [] => 0 | v :: vs => (if decide (z = v) then 1 else 0) + occurs z vs end.
Definition array_refs (a : zarray) (z : zval) : Z := occurs z (items a).*2.

Lemma occurs_app z vs ws : occurs z (vs ++ ws) = occurs z vs + occurs z ws.
Proof. induction vs as [|v vs IH]; simpl; lia. Qed.
Lemma occurs_pos z vs : 0 ≤ occurs z vs.
Proof. induction vs as [|v vs IH]; simpl; [lia|]. case_decide; lia. Qed.

(** What an update does to the references: the old value's goes, the new one
    comes. *)
Lemma occurs_update k v (d : list (akey * zval)) z :
  occurs z (dupdate k v d).*2 + match dlookup k d with Some old => if decide (z = old) then 1 else 0 | None => 0 end =
  occurs z d.*2 + (if decide (z = v) then 1 else 0).
Proof.
  induction d as [|[k' v'] d IH]; csimpl; [lia|]. destruct (decide (k' = k)); csimpl; lia.
Qed.
Lemma occurs_lookup k (d : list (akey * zval)) old z : dlookup k d = Some old → (if decide (z = old) then 1 else 0) ≤ occurs z d.*2.
Proof.
  induction d as [|[k' v'] d IH]; csimpl; [done|]. destruct (decide (k' = k)).
  - intros [= ->]. pose proof (occurs_pos z d.*2). lia.
  - intros Hd. specialize (IH Hd). case_decide; case_decide; lia.
Qed.

(** The keys 0, 1, ... of an array that was only appended to. *)
Definition appended (a : zarray) : Prop := next_free a = Z.of_nat (length (items a)) ∧ ∀ h, KIdx h ∈ (items a).*1 → 0 ≤ h < next_free a.

Lemma appended_init : appended array_init.
Proof. split; [done|]. intros h Hh. by apply not_elem_of_nil in Hh. Qed.
Lemma to_values_next a x : appended a → next_free a < LONG_MAX → next_free (to_values_step a x) = next_free a + 1.
Proof.
  intros [Hn _] Hmax. unfold to_values_step, next_index, to_long, LONG_MAX in *. cbn [next_free].
  rewrite (proj2 (Z.ltb_lt _ (2 ^ 63))), Z.leb_refl, (proj2 (Z.ltb_lt _ _)) by lia. done.
Qed.
Lemma to_values_appended a x : appended a → next_free a < LONG_MAX → appended (to_values_step a x).
Proof.
  intros Ha Hmax. pose proof Ha as [Hn Hk]. pose proof (to_values_next a x Ha Hmax) as Hni. split; [rewrite Hni; unfold to_values_step; cbn [items]; rewrite length_app; simpl; lia|].
  intros h. rewrite Hni. unfold to_values_step. cbn [items]. rewrite fmap_app. intros [Hh|Hh]%elem_of_app; [specialize (Hk h Hh); lia|].
  apply list_elem_of_singleton in Hh. injection Hh as ->. lia.
Qed.

(** The arrays that come out. *)
Lemma to_values_items a es : appended a → next_free a + Z.of_nat (length es) <= LONG_MAX →
  items (foldl to_values_step a es) = items a ++ imap (λ i x, (KIdx (next_free a + Z.of_nat i), x.2)) es.
Proof.
  revert a. induction es as [|x es IH]; intros a Ha Hmax; [by rewrite app_nil_r|]. cbn [length] in Hmax. simpl foldl.
  pose proof (to_values_next a x Ha ltac:(lia)) as Hni. rewrite IH by (apply to_values_appended || idtac; done || lia). rewrite Hni.
  unfold to_values_step. cbn [items]. rewrite <- app_assoc. simpl. rewrite Z.add_0_r. do 2 f_equal. apply imap_ext. intros i y _. simpl. do 2 f_equal. lia.
Qed.

Lemma to_array_items a es : NoDup ((λ x, KIdx (to_ulong x.1)) <$> es) → (∀ x, x ∈ es → KIdx (to_ulong x.1) ∉ (items a).*1) →
  items (foldl to_array_step a es) = items a ++ ((λ x, (KIdx (to_ulong x.1), x.2)) <$> es).
Proof.
  revert a. induction es as [|x es IH]; intros a Hnd Hout; [by rewrite app_nil_r|]. csimpl in Hnd. apply NoDup_cons in Hnd as [Hx Hnd]. simpl foldl.
  assert (items (to_array_step a x) = items a ++ [(KIdx (to_ulong x.1), x.2)]) as Hi by (unfold to_array_step; cbn [items]; apply dupdate_new, Hout; by left).
  rewrite IH; rewrite ?Hi.
  - by rewrite <- app_assoc.
  - done.
  - intros y Hy. rewrite fmap_app. intros [Hin|Hin]%elem_of_app; [by eapply Hout; [by right|]|]. apply list_elem_of_singleton in Hin. simpl in Hin.
    destruct Hx. rewrite <- Hin. apply list_elem_of_fmap. by exists y.
Qed.

Section arrays.
Context (at_ : (zval → Z) → It → W → list (Z * zval) → Prop) {L : IteratorLaws at_}.

Lemma to_array_call e it w x es a : (∀ z, 0 ≤ e z) → at_ (λ z, e z + array_refs a z) it w (x :: es) →
  ∃ w', spl_iterator_to_array_apply it a w = OK (APPLY_KEEP, to_array_step a x, w') ∧ at_ (λ z, e z + array_refs (to_array_step a x) z) it w' (x :: es).
Proof.
  intros He Ha. destruct x as [k z]. destruct (at_data _ _ _ _ _ _ Ha) as [Hd Hk]. unfold spl_iterator_to_array_apply. rewrite Hd. cbn [obind].
  rewrite (at_exception _ _ _ _ Ha), Hk. unfold array_set_zval_key. set (K := KIdx (to_ulong k)).
  set (e1 := λ y, e y + array_refs a y - match dlookup K (items a) with Some old => if decide (y = old) then 1 else 0 | None => 0 end).
  assert (∃ w1, match dlookup K (items a) with Some old => iter_zval_ptr_dtor old w | None => OK w end = OK w1 ∧ at_ e1 it w1 ((k, z) :: es)) as (w1 & -> & Ha1).
  { unfold e1. destruct (dlookup K (items a)) as [old|] eqn:Hl.
    - apply at_drop; [|intros y; specialize (He y); pose proof (occurs_lookup _ _ _ y Hl); unfold array_refs; case_decide; lia].
      eapply at_ext; [exact Ha|]. intros y. unfold more. case_decide; lia.
    - exists w. split; [done|]. eapply at_ext; [exact Ha|]. intros y. simpl. lia. }
  cbn [obind]. destruct (at_addref _ _ _ _ _ _ Ha1) as (w2 & -> & Ha2). cbn [obind]. exists w2. split; [done|].
  eapply at_ext; [exact Ha2|]. intros y. unfold more, e1, to_array_step, array_refs. cbn [fst snd items]. pose proof (occurs_update K z (items a) y). fold K. case_decide; lia.
Qed.

Lemma to_values_call e it w x es a : appended a → next_free a < LONG_MAX → at_ (λ z, e z + array_refs a z) it w (x :: es) →
  appended (to_values_step a x) ∧
  ∃ w', spl_iterator_to_values_apply it a w = OK (APPLY_KEEP, to_values_step a x, w') ∧ at_ (λ z, e z + array_refs (to_values_step a x) z) it w' (x :: es).
Proof.
  intros Hap Hmax Ha. split; [by apply to_values_appended|]. destruct Hap as [Hn Hk]. destruct x as [k z].
  destruct (at_data _ _ _ _ _ _ Ha) as [Hd _]. unfold spl_iterator_to_values_apply. rewrite Hd. cbn [obind].
  rewrite (at_exception _ _ _ _ Ha). destruct (at_addref _ _ _ _ _ _ Ha) as (w2 & -> & Ha2). cbn [obind]. exists w2.
  rewrite decide_False by (intros Hin; specialize (Hk _ Hin); lia). split; [done|].
  eapply at_ext; [exact Ha2|]. intros y. unfold more, to_values_step, array_refs. cbn [items fst snd]. rewrite fmap_app, occurs_app. simpl. lia.
Qed.
End arrays.
End apply.
