(* ===== verification/SplDllist.v ===== *)
(** The doubly linked lists of ext/spl/spl_dllist.c behind SplDoublyLinkedList,
    SplQueue and SplStack: the list [spl_ptr_llist] with its counted elements,
    the methods, the cursor of the object and the iterators of foreach.

    Elements lie in a heap of their own ([eheap]); an element is freed when
    nothing refers to it any more, so it can outlive its membership in the
    list, with the links it had.  Values are addresses of zvals, whose reference
    counts are in [zrefs]; what destroying a zval does to the values inside it
    is not modelled, and no method is overridden by the user. *)

From S2P Require Import Prelude Dll Symtable SplIterators.

Definition SPL_DLLIST_IT_DELETE : Z := 0x1.
Definition SPL_DLLIST_IT_LIFO : Z := 0x2.
Definition SPL_DLLIST_IT_MASK : Z := 0x3.
Definition SPL_DLLIST_IT_FIX : Z := 0x4.

Abbreviation zval := positive.

Record spl_ptr_llist_element := mkElement { e_prev : nptr; e_next : nptr; e_rc : Z; e_data : option zval }.
Record spl_ptr_llist := mkList { l_head : nptr; l_tail : nptr; l_count : Z }.

(** A [traverse_pointer] with its [traverse_position]: an object and an iterator
    have one each. *)
Record cursor := mkCursor { c_ptr : nptr; c_pos : Z }.
Record spl_dllist_object := mkObject { llist : spl_ptr_llist; cur : cursor; flags : Z }.

Record dmem := mkMem { eheap : gmap ptr spl_ptr_llist_element; zrefs : gmap zval Z }.

Definition set_eprev p e := mkElement p (e_next e) (e_rc e) (e_data e).
Definition set_enext n e := mkElement (e_prev e) n (e_rc e) (e_data e).
Definition set_rc r e := mkElement (e_prev e) (e_next e) r (e_data e).
Definition set_edata d e := mkElement (e_prev e) (e_next e) (e_rc e) d.
Definition set_lhead p l := mkList p (l_tail l) (l_count l).
Definition set_ltail p l := mkList (l_head l) p (l_count l).
Definition set_lcount n l := mkList (l_head l) (l_tail l) n.
Definition set_llist l o := mkObject l (cur o) (flags o).
Definition set_cur c o := mkObject (llist o) c (flags o).
Definition set_flags f o := mkObject (llist o) (cur o) f.
Definition set_eheap h m := mkMem h (zrefs m).
Definition set_zrefs r m := mkMem (eheap m) r.

Definition ederef (m : dmem) (p : ptr) : outcome spl_ptr_llist_element := rd (eheap m !! p).
Definition estore (m : dmem) (p : ptr) f : outcome dmem := let* h := store (eheap m) p f in OK (set_eheap h m).
(** [if (p) p->field = ...] *)
Definition estore_opt (m : dmem) (o : nptr) f : outcome dmem :=
  match o with Some p => estore m p f | None => OK m end.

(** ** Reference counts *)

Definition Z_ADDREF_P (z : zval) (m : dmem) : outcome dmem :=
  let* n := rd (zrefs m !! z) in OK (set_zrefs (<[z := n + 1]> (zrefs m)) m).
Definition zval_ptr_dtor (z : zval) (m : dmem) : outcome dmem :=
  let* n := rd (zrefs m !! z) in
  OK (set_zrefs (if n =? 1 then delete z (zrefs m) else <[z := n - 1]> (zrefs m)) m).

(** SPL_LLIST_DELREF, SPL_LLIST_CHECK_DELREF, SPL_LLIST_CHECK_ADDREF *)
Definition SPL_LLIST_DELREF (p : ptr) (m : dmem) : outcome dmem :=
  let* e := ederef m p in
  if e_rc e - 1 =? 0 then OK (set_eheap (delete p (eheap m)) m) else estore m p (set_rc (e_rc e - 1)).
Definition SPL_LLIST_CHECK_DELREF (o : nptr) (m : dmem) : outcome dmem :=
  match o with Some p => SPL_LLIST_DELREF p m | None => OK m end.
Definition SPL_LLIST_CHECK_ADDREF (o : nptr) (m : dmem) : outcome dmem :=
  match o with Some p => let* e := ederef m p in estore m p (set_rc (e_rc e + 1)) | None => OK m end.

(** ** spl_ptr_llist; [ctor] and [dtor] are always the following two. *)

Definition spl_ptr_llist_zval_dtor (p : ptr) (m : dmem) : outcome dmem :=
  let* e := ederef m p in
  match e_data e with Some z => zval_ptr_dtor z m | None => OK m end.
Definition spl_ptr_llist_zval_ctor (p : ptr) (m : dmem) : outcome dmem :=
  let* e := ederef m p in
  let* z := rd (e_data e) in Z_ADDREF_P z m.

Definition spl_ptr_llist_init : spl_ptr_llist := mkList None None 0.
Definition spl_ptr_llist_count (l : spl_ptr_llist) : Z := l_count l.

Fixpoint destroy_loop (fuel : nat) (current : nptr) (m : dmem) : outcome dmem :=
  match current with
  | None => OK m
  | Some p =>
      match fuel with
      | O => UB
      | S fuel =>
          let* e := ederef m p in
          let* m := spl_ptr_llist_zval_dtor p m in
          let* m := SPL_LLIST_DELREF p m in
          destroy_loop fuel (e_next e) m
      end
  end.
Definition lfuel (m : dmem) : nat := S (size (eheap m)).
Definition spl_ptr_llist_destroy (l : spl_ptr_llist) (m : dmem) : outcome dmem := destroy_loop (lfuel m) (l_head l) m.

(** The loop of spl_ptr_llist_offset. *)
Fixpoint offset_loop (fuel : nat) (m : dmem) (backward : bool) (current : nptr) (pos offset : Z) : outcome nptr :=
  match current with
  | None => OK None
  | Some p =>
      if pos <? offset then
        match fuel with
        | O => UB
        | S fuel =>
            let* e := ederef m p in
            offset_loop fuel m backward (if backward then e_prev e else e_next e) (pos + 1) offset
        end
      else OK (Some p)
  end.
Definition spl_ptr_llist_offset (m : dmem) (l : spl_ptr_llist) (offset : Z) (backward : bool) : outcome nptr :=
  offset_loop (lfuel m) m backward (if backward then l_tail l else l_head l) 0 offset.

(** [llist->count++]; overflow of an [int] is undefined. *)
Definition count_up (l : spl_ptr_llist) : outcome spl_ptr_llist :=
  if INT_MAX <? l_count l + 1 then UB else OK (set_lcount (l_count l + 1) l).

Definition spl_ptr_llist_last (m : dmem) (l : spl_ptr_llist) : outcome (option zval) :=
  match l_tail l with None => OK None | Some t => let* e := ederef m t in OK (e_data e) end.
Definition spl_ptr_llist_first (m : dmem) (l : spl_ptr_llist) : outcome (option zval) :=
  match l_head l with None => OK None | Some t => let* e := ederef m t in OK (e_data e) end.

Definition spl_ptr_llist_pop (l : spl_ptr_llist) (m : dmem) : outcome (option zval * spl_ptr_llist * dmem) :=
  match l_tail l with
  | None => OK (None, l, m)
  | Some tail =>
      let* e := ederef m tail in
      let* (l, m) :=
        match e_prev e with
        | Some p => let* m := estore m p (set_enext None) in OK (l, m)
        | None => OK (set_lhead None l, m)
        end in
      let* e := ederef m tail in
      let l := set_ltail (e_prev e) l in
      let l := set_lcount (l_count l - 1) l in
      let* m := spl_ptr_llist_zval_dtor tail m in
      let* m := estore m tail (set_edata None) in
      let* m := SPL_LLIST_DELREF tail m in
      OK (e_data e, l, m)
  end.

Definition spl_ptr_llist_shift (l : spl_ptr_llist) (m : dmem) : outcome (option zval * spl_ptr_llist * dmem) :=
  match l_head l with
  | None => OK (None, l, m)
  | Some head =>
      let* e := ederef m head in
      let* (l, m) :=
        match e_next e with
        | Some n => let* m := estore m n (set_eprev None) in OK (l, m)
        | None => OK (set_ltail None l, m)
        end in
      let* e := ederef m head in
      let l := set_lhead (e_next e) l in
      let l := set_lcount (l_count l - 1) l in
      let* m := spl_ptr_llist_zval_dtor head m in
      let* m := estore m head (set_edata None) in
      let* m := SPL_LLIST_DELREF head m in
      OK (e_data e, l, m)
  end.

Section alloc.
Context `{PEMalloc}.

(** [emalloc] and the writes to the fields of the new element. *)
Definition new_element (p n : nptr) (data : zval) (m : dmem) : dmem * ptr :=
  let elem := pemalloc (dom (eheap m)) in
  (set_eheap (<[elem := mkElement p n 1 (Some data)]> (eheap m)) m, elem).

Definition spl_ptr_llist_unshift (l : spl_ptr_llist) (data : zval) (m : dmem) : outcome (spl_ptr_llist * dmem) :=
  let '(m, elem) := new_element None (l_head l) data m in
  let* (l, m) :=
    match l_head l with
    | Some h => let* m := estore m h (set_eprev (Some elem)) in OK (l, m)
    | None => OK (set_ltail (Some elem) l, m)
    end in
  let* l := count_up (set_lhead (Some elem) l) in
  let* m := spl_ptr_llist_zval_ctor elem m in
  OK (l, m).

Definition spl_ptr_llist_push (l : spl_ptr_llist) (data : zval) (m : dmem) : outcome (spl_ptr_llist * dmem) :=
  let '(m, elem) := new_element (l_tail l) None data m in
  let* (l, m) :=
    match l_tail l with
    | Some t => let* m := estore m t (set_enext (Some elem)) in OK (l, m)
    | None => OK (set_lhead (Some elem) l, m)
    end in
  let* l := count_up (set_ltail (Some elem) l) in
  let* m := spl_ptr_llist_zval_ctor elem m in
  OK (l, m).

(** spl_ptr_llist_copy: the elements of [from] get a reference from the caller
    and, in [to], one from its constructor. *)
Fixpoint copy_loop (fuel : nat) (current : nptr) (to : spl_ptr_llist) (m : dmem) : outcome (spl_ptr_llist * dmem) :=
  match current with
  | None => OK (to, m)
  | Some p =>
      match fuel with
      | O => UB
      | S fuel =>
          let* e := ederef m p in
          let* m := spl_ptr_llist_zval_ctor p m in
          let* data := rd (e_data e) in
          let* (to, m) := spl_ptr_llist_push to data m in
          copy_loop fuel (e_next e) to m
      end
  end.
Definition spl_ptr_llist_copy (from to : spl_ptr_llist) (m : dmem) : outcome (spl_ptr_llist * dmem) :=
  copy_loop (lfuel m) (l_head from) to m.
End alloc.

(** ** Objects *)

(** The class of an object, or the one it extends. *)
Inductive dllist_class := SplDoublyLinkedList_ce | SplQueue_ce | SplStack_ce.

(** The flags the loop over the parents adds. *)
Definition class_flags (c : dllist_class) (f : Z) : Z :=
  match c with
  | SplStack_ce => Z.lor f (Z.lor SPL_DLLIST_IT_FIX SPL_DLLIST_IT_LIFO)
  | SplQueue_ce => Z.lor f SPL_DLLIST_IT_FIX
  | SplDoublyLinkedList_ce => f
  end.

(** spl_dllist_object_new_ex without and with [clone_orig]. *)
Definition spl_dllist_object_new (c : dllist_class) : spl_dllist_object :=
  mkObject spl_ptr_llist_init (mkCursor None 0) (class_flags c 0).
Definition spl_dllist_object_clone `{PEMalloc} (c : dllist_class) (other : spl_dllist_object) (m : dmem)
    : outcome (spl_dllist_object * dmem) :=
  let* (l, m) := spl_ptr_llist_copy (llist other) spl_ptr_llist_init m in
  let* m := SPL_LLIST_CHECK_ADDREF (l_head l) m in
  OK (mkObject l (mkCursor (l_head l) 0) (class_flags c (flags other)), m).

(** [while (intern->llist->count > 0)] *)
Fixpoint pop_all (fuel : nat) (l : spl_ptr_llist) (m : dmem) : outcome (spl_ptr_llist * dmem) :=
  if 0 <? l_count l then
    match fuel with
    | O => UB
    | S fuel =>
        let* (tmp, l, m) := spl_ptr_llist_pop l m in
        let* z := rd tmp in
        let* m := zval_ptr_dtor z m in
        pop_all fuel l m
    end
  else OK (l, m).
Definition spl_dllist_object_free_storage (o : spl_dllist_object) (m : dmem) : outcome dmem :=
  let* (l, m) := pop_all (lfuel m) (llist o) m in
  let* m := spl_ptr_llist_destroy l m in
  SPL_LLIST_CHECK_DELREF (c_ptr (cur o)) m.

(** ** The methods *)

Inductive spl_exception := RuntimeException | OutOfRangeException.

(** What a method leaves in [return_value], or the exception it throws. *)
Inductive dret := RNull | RBool (b : bool) | RLong (n : Z) | RZval (z : zval) | RThrow (e : spl_exception).

Abbreviation dresult := (outcome (dret * spl_dllist_object * dmem)).

Definition lifo (f : Z) : bool := negb (Z.land f SPL_DLLIST_IT_LIFO =? 0).

(** An index as the program writes it; [cast] is what the conversion of the
    double to a long gives. *)
Inductive zoffset :=
  | IS_NULL_offset
  | IS_LONG_offset (n : Z)
  | IS_DOUBLE_offset (cast : Z)
  | IS_STRING_offset (val : list Z) (len : Z)
  | IS_ARRAY_offset.

(** A string that spells no integer, an array, an object or null is -1. *)
Definition spl_offset_convert_to_long (offset : zoffset) : outcome Z :=
  match offset with
  | IS_STRING_offset s len =>
      let* idx := ZEND_HANDLE_NUMERIC_EX s (len + 1) in
      OK (match idx with Some n => to_long n | None => -1 end)
  | IS_DOUBLE_offset d => OK d
  | IS_LONG_offset n => OK n
  | IS_NULL_offset | IS_ARRAY_offset => OK (-1)
  end.

Definition out_of_range (index : Z) (o : spl_dllist_object) : bool := (index <? 0) || (l_count (llist o) <=? index).

Section methods.
Context `{PEMalloc}.
Implicit Types (o : spl_dllist_object) (m : dmem).

(** [SEPARATE_ARG_IF_REF]: a copy of a variable that is a reference, one more
    reference to any other. *)
Definition separate_arg (is_ref : bool) (v : zval) m : outcome (zval * dmem) :=
  if is_ref then let p := pemalloc (dom (zrefs m)) in OK (p, set_zrefs (<[p := 1]> (zrefs m)) m)
  else let* m := Z_ADDREF_P v m in OK (v, m).

Definition SplDoublyLinkedList_push (value : zval) (is_ref : bool) o m : dresult :=
  let* (value, m) := separate_arg is_ref value m in
  let* (l, m) := spl_ptr_llist_push (llist o) value m in
  OK (RBool true, set_llist l o, m).

Definition SplDoublyLinkedList_unshift (value : zval) (is_ref : bool) o m : dresult :=
  let* (value, m) := separate_arg is_ref value m in
  let* (l, m) := spl_ptr_llist_unshift (llist o) value m in
  OK (RBool true, set_llist l o, m).

(** [RETURN_ZVAL(value, 1, 1)] copies the value and drops the reference. *)
Definition return_owned (value : option zval) (l : spl_ptr_llist) o m : dresult :=
  match value with
  | None => OK (RThrow RuntimeException, set_llist l o, m)
  | Some z => let* m := zval_ptr_dtor z m in OK (RZval z, set_llist l o, m)
  end.
Definition SplDoublyLinkedList_pop o m : dresult :=
  let* (value, l, m) := spl_ptr_llist_pop (llist o) m in return_owned value l o m.
Definition SplDoublyLinkedList_shift o m : dresult :=
  let* (value, l, m) := spl_ptr_llist_shift (llist o) m in return_owned value l o m.

Definition SplDoublyLinkedList_top o m : dresult :=
  let* value := spl_ptr_llist_last m (llist o) in
  OK (match value with None => RThrow RuntimeException | Some z => RZval z end, o, m).
Definition SplDoublyLinkedList_bottom o m : dresult :=
  let* value := spl_ptr_llist_first m (llist o) in
  OK (match value with None => RThrow RuntimeException | Some z => RZval z end, o, m).

Definition SplDoublyLinkedList_count o m : dresult := OK (RLong (spl_ptr_llist_count (llist o)), o, m).
Definition SplDoublyLinkedList_isEmpty o m : dresult := OK (RBool (spl_ptr_llist_count (llist o) =? 0), o, m).

Definition SplDoublyLinkedList_setIteratorMode (value : Z) o m : dresult :=
  if negb (Z.land (flags o) SPL_DLLIST_IT_FIX =? 0) &&
     negb (Z.land (flags o) SPL_DLLIST_IT_LIFO =? Z.land value SPL_DLLIST_IT_LIFO)
  then OK (RThrow RuntimeException, o, m)
  else
    let f := to_int (Z.land value SPL_DLLIST_IT_MASK) in
    OK (RLong f, set_flags f o, m).
Definition SplDoublyLinkedList_getIteratorMode o m : dresult := OK (RLong (flags o), o, m).

Definition SplDoublyLinkedList_offsetExists (zindex : zoffset) o m : dresult :=
  let* index := spl_offset_convert_to_long zindex in
  OK (RBool ((0 <=? index) && (index <? l_count (llist o))), o, m).

Definition SplDoublyLinkedList_offsetGet (zindex : zoffset) o m : dresult :=
  let* index := spl_offset_convert_to_long zindex in
  if out_of_range index o then OK (RThrow OutOfRangeException, o, m)
  else
    let* element := spl_ptr_llist_offset m (llist o) index (lifo (flags o)) in
    match element with
    | Some p => let* e := ederef m p in let* z := rd (e_data e) in OK (RZval z, o, m)
    | None => OK (RThrow OutOfRangeException, o, m)
    end.

Definition SplDoublyLinkedList_offsetSet (zindex : zoffset) (value : zval) (is_ref : bool) o m : dresult :=
  let* (value, m) := separate_arg is_ref value m in
  match zindex with
  | IS_NULL_offset =>
      let* (l, m) := spl_ptr_llist_push (llist o) value m in OK (RNull, set_llist l o, m)
  | _ =>
      let* index := spl_offset_convert_to_long zindex in
      if out_of_range index o then
        let* m := zval_ptr_dtor value m in OK (RThrow OutOfRangeException, o, m)
      else
        let* element := spl_ptr_llist_offset m (llist o) index (lifo (flags o)) in
        match element with
        | Some p =>
            let* m := spl_ptr_llist_zval_dtor p m in
            let* e := ederef m p in
            let* old := rd (e_data e) in
            let* m := zval_ptr_dtor old m in
            let* m := estore m p (set_edata (Some value)) in
            let* m := spl_ptr_llist_zval_ctor p m in
            OK (RNull, o, m)
        | None => let* m := zval_ptr_dtor value m in OK (RThrow OutOfRangeException, o, m)
        end
  end.

(** The element leaves the list: its neighbours, head and tail, the count. *)
Definition unset_links (p : ptr) (l : spl_ptr_llist) m : outcome (spl_ptr_llist * dmem) :=
  let* e := ederef m p in
  let* m := estore_opt m (e_prev e) (set_enext (e_next e)) in
  let* e := ederef m p in
  let* m := estore_opt m (e_next e) (set_eprev (e_prev e)) in
  let* e := ederef m p in
  let l := if decide (l_head l = Some p) then set_lhead (e_next e) l else l in
  let l := if decide (l_tail l = Some p) then set_ltail (e_prev e) l else l in
  OK (set_lcount (l_count l - 1) l, m).

Definition SplDoublyLinkedList_offsetUnset (zindex : zoffset) o m : dresult :=
  let* index := spl_offset_convert_to_long zindex in
  if out_of_range index o then OK (RThrow OutOfRangeException, o, m)
  else
    let* element := spl_ptr_llist_offset m (llist o) index (lifo (flags o)) in
    match element with
    | Some p =>
        let* (l, m) := unset_links p (llist o) m in
        let o := set_llist l o in
        let* m := spl_ptr_llist_zval_dtor p m in
        let* (o, m) :=
          if decide (c_ptr (cur o) = Some p) then
            let* m := SPL_LLIST_DELREF p m in OK (set_cur (mkCursor None (c_pos (cur o))) o, m)
          else OK (o, m) in
        let* e := ederef m p in
        let* z := rd (e_data e) in
        let* m := zval_ptr_dtor z m in
        let* m := estore m p (set_edata None) in
        let* m := SPL_LLIST_DELREF p m in
        OK (RNull, o, m)
    | None => OK (RThrow OutOfRangeException, o, m)
    end.

(** The new element goes in front of [element] in the order of the links. *)
Definition insert_before (element : ptr) (value : zval) o m : outcome (spl_dllist_object * dmem) :=
  let '(m, elem) := new_element None None value m in
  let* e := ederef m element in
  let* m := estore m elem (λ x, set_eprev (e_prev e) (set_enext (Some element) x)) in
  let* (l, m) :=
    match e_prev e with
    | None => OK (set_lhead (Some elem) (llist o), m)
    | Some p => let* m := estore m p (set_enext (Some elem)) in OK (llist o, m)
    end in
  let* m := estore m element (set_eprev (Some elem)) in
  let* l := count_up l in
  let* m := spl_ptr_llist_zval_ctor elem m in
  OK (set_llist l o, m).

Definition SplDoublyLinkedList_add (zindex : zoffset) (value : zval) o m : dresult :=
  let* index := spl_offset_convert_to_long zindex in
  if (index <? 0) || (l_count (llist o) <? index) then OK (RThrow OutOfRangeException, o, m)
  else
    let* m := Z_ADDREF_P value m in
    if index =? l_count (llist o) then
      let* (l, m) := spl_ptr_llist_push (llist o) value m in OK (RNull, set_llist l o, m)
    else
      let* element := spl_ptr_llist_offset m (llist o) index (lifo (flags o)) in
      let* element := rd element in
      let* (o, m) := insert_before element value o m in
      OK (RNull, o, m).
End methods.

(** ** Cursors *)

Definition spl_dllist_it_helper_rewind (c : cursor) (l : spl_ptr_llist) (f : Z) (m : dmem) : outcome (cursor * dmem) :=
  let* m := SPL_LLIST_CHECK_DELREF (c_ptr c) m in
  let c := if lifo f then mkCursor (l_tail l) (l_count l - 1) else mkCursor (l_head l) 0 in
  let* m := SPL_LLIST_CHECK_ADDREF (c_ptr c) m in
  OK (c, m).

(** [if (prev) zval_ptr_dtor(&prev)] *)
Definition drop_opt (z : option zval) (m : dmem) : outcome dmem :=
  match z with Some z => zval_ptr_dtor z m | None => OK m end.

Definition spl_dllist_it_helper_move_forward (c : cursor) (l : spl_ptr_llist) (f : Z) (m : dmem)
    : outcome (cursor * spl_ptr_llist * dmem) :=
  match c_ptr c with
  | None => OK (c, l, m)
  | Some old =>
      let* e := ederef m old in
      let delete := negb (Z.land f SPL_DLLIST_IT_DELETE =? 0) in
      let* (c, l, m) :=
        if lifo f then
          let c := mkCursor (e_prev e) (c_pos c - 1) in
          if delete then
            let* (z, l, m) := spl_ptr_llist_pop l m in
            let* m := drop_opt z m in OK (c, l, m)
          else OK (c, l, m)
        else
          if delete then
            let* (z, l, m) := spl_ptr_llist_shift l m in
            let* m := drop_opt z m in OK (mkCursor (e_next e) (c_pos c), l, m)
          else OK (mkCursor (e_next e) (c_pos c + 1), l, m) in
      let* m := SPL_LLIST_DELREF old m in
      let* m := SPL_LLIST_CHECK_ADDREF (c_ptr c) m in
      OK (c, l, m)
  end.

Section iteration.
Implicit Types (o : spl_dllist_object) (m : dmem).

Definition move o (f : Z) m : dresult :=
  let* (c, l, m) := spl_dllist_it_helper_move_forward (cur o) (llist o) f m in
  OK (RNull, set_cur c (set_llist l o), m).
Definition SplDoublyLinkedList_next o m : dresult := move o (flags o) m.
Definition SplDoublyLinkedList_prev o m : dresult := move o (Z.lxor (flags o) SPL_DLLIST_IT_LIFO) m.
Definition SplDoublyLinkedList_rewind o m : dresult :=
  let* (c, m) := spl_dllist_it_helper_rewind (cur o) (llist o) (flags o) m in OK (RNull, set_cur c o, m).
Definition SplDoublyLinkedList_valid o m : dresult := OK (RBool (if c_ptr (cur o) is Some _ then true else false), o, m).
Definition SplDoublyLinkedList_key o m : dresult := OK (RLong (c_pos (cur o)), o, m).

(** The value a cursor stands at, NULL when its element has left the list. *)
Definition cursor_data (c : cursor) m : outcome (option zval) :=
  match c_ptr c with
  | None => OK None
  | Some p => let* e := ederef m p in OK (e_data e)
  end.
Definition SplDoublyLinkedList_current o m : dresult :=
  let* d := cursor_data (cur o) m in
  OK (match d with Some z => RZval z | None => RNull end, o, m).

(** The iterators of foreach: an iterator starts at the object's own position. *)
Definition spl_dllist_get_iterator (by_ref : bool) o m : outcome (option cursor * dmem) :=
  if by_ref then OK (None, m)
  else let* m := SPL_LLIST_CHECK_ADDREF (c_ptr (cur o)) m in OK (Some (cur o), m).
Definition spl_dllist_it_dtor (it : cursor) m : outcome dmem := SPL_LLIST_CHECK_DELREF (c_ptr it) m.
Definition spl_dllist_it_rewind (it : cursor) o m : outcome (cursor * dmem) :=
  spl_dllist_it_helper_rewind it (llist o) (flags o) m.
Definition spl_dllist_it_valid (it : cursor) : zresult := if c_ptr it is Some _ then SUCCESS else FAILURE.
Definition spl_dllist_it_get_current_data (it : cursor) m : outcome (option zval) := cursor_data it m.
Definition spl_dllist_it_get_current_key (it : cursor) : Z := c_pos it.
Definition spl_dllist_it_move_forward (it : cursor) o m : outcome (cursor * spl_dllist_object * dmem) :=
  let* (c, l, m) := spl_dllist_it_helper_move_forward it (llist o) (flags o) m in
  OK (c, set_llist l o, m).
End iteration.

(** spl_dllist_it_funcs: the functions above for spl_iterator_apply; none of
    them throws. *)
#[export] Instance spl_dllist_it_funcs : IteratorFuncs cursor (spl_dllist_object * dmem) := {
  iter_dtor it w := let* m := spl_dllist_it_dtor it w.2 in OK (w.1, m);
  iter_valid it w := spl_dllist_it_valid it;
  iter_get_current_data it w := let* d := spl_dllist_it_get_current_data it w.2 in OK (d, w);
  iter_get_current_key it w := spl_dllist_it_get_current_key it;
  iter_move_forward it w := let* (it, o, m) := spl_dllist_it_move_forward it w.1 w.2 in OK (it, (o, m));
  iter_rewind it w := let* (it, m) := spl_dllist_it_rewind it w.1 w.2 in OK (it, (w.1, m));
  EG_exception w := false;
  iter_addref z w := let* m := Z_ADDREF_P z w.2 in OK (w.1, m);
  iter_zval_ptr_dtor z w := let* m := zval_ptr_dtor z w.2 in OK (w.1, m);
}.
(** The [get_iterator] of the class, by value. *)
Definition dllist_get_iterator (w : spl_dllist_object * dmem) : outcome (option cursor * (spl_dllist_object * dmem)) :=
  let* (it, m) := spl_dllist_get_iterator false w.1 w.2 in OK (it, (w.1, m)).
