(* ===== verification/SplDllistSpec.v ===== *)
(** The lists of ext/spl/spl_dllist.c implement sequences of values: what the
    operations do to the heap of elements and to the reference counts. *)

From S2P Require Import Prelude Dll Symtable SplDllist.

(** ** The counts of the values *)

(** [refs r f]: the counts in [r] are [f]; a zval with count 0 is freed. *)
Definition present (n : Z) : option Z := if n =? 0 then None else Some n.
Definition refs (r : gmap zval Z) (f : zval → Z) : Prop := ∀ z, 0 ≤ f z ∧ r !! z = present (f z).
Definition bump (f : zval → Z) (z : zval) (d : Z) : zval → Z := λ y, f y + (if decide (y = z) then d else 0).

Fixpoint occ (z : zval) (vs : list zval) : Z :=
  match vs with [] => 0 | v :: vs => (if decide (z = v) then 1 else 0) + occ z vs end.

Lemma occ_app z vs ws : occ z (vs ++ ws) = occ z vs + occ z ws.
Proof. induction vs as [|v vs IH]; simpl; lia. Qed.
Lemma occ_nonneg z vs : 0 ≤ occ z vs.
Proof. induction vs as [|v vs IH]; simpl; [lia|]. case_decide; lia. Qed.
Lemma occ_elem z vs : z ∈ vs → 1 ≤ occ z vs.
Proof.
  induction 1 as [z vs|z v vs Hin IH]; simpl; pose proof (occ_nonneg z vs); [rewrite decide_True by done|case_decide]; lia.
Qed.

Lemma refs_ext r f g : (∀ z, f z = g z) → refs r f → refs r g.
Proof. intros E Hr z. rewrite <- E. apply Hr. Qed.
Lemma present_some n : 0 < n → present n = Some n.
Proof. intros. unfold present. by rewrite (proj2 (Z.eqb_neq n 0)) by lia. Qed.
Lemma refs_live r f z : refs r f → is_Some (r !! z) ↔ 1 ≤ f z.
Proof.
  intros Hr. destruct (Hr z) as [Hp ->]. unfold present. destruct (Z.eqb_spec (f z) 0); split; intros; try lia; eauto. by destruct H.
Qed.

Lemma addref_refs m f z : refs (zrefs m) f → 1 ≤ f z →
  ∃ r, Z_ADDREF_P z m = OK (set_zrefs r m) ∧ refs r (bump f z 1).
Proof.
  intros Hr Hz. destruct (Hr z) as [_ E]. rewrite present_some in E by lia. unfold Z_ADDREF_P. rewrite E. ob.
  eexists. split; [reflexivity|]. intros y. unfold bump. destruct (Hr y) as [Hy Ey]. case_decide; subst.
  - rewrite lookup_insert_eq, present_some by lia. split; [lia|done].
  - rewrite lookup_insert_ne, Z.add_0_r by done. done.
Qed.

Lemma dtor_refs m f z : refs (zrefs m) f → 1 ≤ f z →
  ∃ r, zval_ptr_dtor z m = OK (set_zrefs r m) ∧ refs r (bump f z (-1)).
Proof.
  intros Hr Hz. destruct (Hr z) as [_ E]. rewrite present_some in E by lia. unfold zval_ptr_dtor. rewrite E. ob.
  eexists. split; [reflexivity|]. intros y. unfold bump. destruct (Hr y) as [Hy Ey]. unfold present in *. case_decide; subst.
  - split; [lia|]. destruct (Z.eqb_spec (f z) 1) as [->|]; [by rewrite lookup_delete_eq|].
    rewrite lookup_insert_eq, (proj2 (Z.eqb_neq _ _)) by lia. done.
  - rewrite Z.add_0_r. split; [done|]. destruct (_ =? 1); [by rewrite lookup_delete_ne|by rewrite lookup_insert_ne].
Qed.

(** ** The elements *)

Definition dview (h : gmap ptr spl_ptr_llist_element) : view := λ p, (λ e, (e_prev e, e_next e)) <$> h !! p.
Definition ddata (h : gmap ptr spl_ptr_llist_element) (p : ptr) : option (option zval) := e_data <$> h !! p.
Definition member (xs : list ptr) (p : ptr) : Z := if decide (p ∈ xs) then 1 else 0.
Definition plus1 (o : nptr) (K : ptr → Z) : ptr → Z := λ p, K p + (if decide (o = Some p) then 1 else 0).

(** In [h], [l] is the list of the elements [xs] with the values [vs], and [K]
    counts the references to elements from elsewhere; what nothing refers to is
    not there. *)
Record elems (h : gmap ptr spl_ptr_llist_element) (l : spl_ptr_llist) (xs : list ptr) (vs : list zval) (K : ptr → Z) : Prop := {
  el_dll : dll (dview h) xs;
  el_nodup : NoDup xs;
  el_data : Forall2 (λ p v, ddata h p = Some (Some v)) xs vs;
  el_head : l_head l = hd_or xs None;
  el_tail : l_tail l = last_or None xs;
  el_count : l_count l = Z.of_nat (length vs);
  el_max : Z.of_nat (length vs) ≤ INT_MAX;
  el_K : ∀ p, 0 ≤ K p;
  el_rc : ∀ p, e_rc <$> h !! p = present (member xs p + K p);
}.

Definition alter_opt (o : nptr) f (h : gmap ptr spl_ptr_llist_element) := match o with Some p => alter f p h | None => h end.

Lemma dview_next o n h q : dview (alter_opt o (set_enext n) h) q = set_next o n (dview h) q.
Proof.
  unfold dview, alter_opt, set_next. destruct o as [p|]; [|by case_decide]. rewrite lookup_alter.
  do 2 case_decide; simplify_eq; try done. by destruct (h !! q).
Qed.
Lemma dview_prev o n h q : dview (alter_opt o (set_eprev n) h) q = set_prev o n (dview h) q.
Proof.
  unfold dview, alter_opt, set_prev. destruct o as [p|]; [|by case_decide]. rewrite lookup_alter.
  do 2 case_decide; simplify_eq; try done. by destruct (h !! q).
Qed.
Lemma alter_opt_fmap {A} (g : spl_ptr_llist_element → A) o f h q : (∀ e, g (f e) = g e) → g <$> alter_opt o f h !! q = g <$> h !! q.
Proof.
  intros Hg. destruct o as [p|]; [|done]. simpl. rewrite lookup_alter. case_decide; [|done]. subst. destruct (h !! q); simpl; by rewrite ?Hg.
Qed.
Lemma alter_opt_ne o f h q : o ≠ Some q → alter_opt o f h !! q = h !! q.
Proof. destruct o; [|done]. intros Hne. simpl. rewrite lookup_alter_ne; congruence. Qed.
Lemma estore_opt_live m o f : (∀ p, o = Some p → is_Some (eheap m !! p)) →
  match o with Some p => estore m p f | None => OK m end = OK (set_eheap (alter_opt o f (eheap m)) m).
Proof. destruct o as [p|]; intros Hp; [|by destruct m]. unfold estore. rewrite store_alter by auto. done. Qed.
Lemma estore_alive m p f : is_Some (eheap m !! p) → estore m p f = OK (set_eheap (alter f p (eheap m)) m).
Proof. intros Hp. unfold estore. by rewrite store_alter. Qed.

Section elems.
Context (h : gmap ptr spl_ptr_llist_element) (l : spl_ptr_llist) (xs : list ptr) (vs : list zval) (K : ptr → Z).
Hypothesis HE : elems h l xs vs K.

Lemma elems_length : length xs = length vs.
Proof. eapply Forall2_length, (el_data _ _ _ _ _ HE). Qed.
Lemma elems_live p : p ∈ xs → is_Some (h !! p).
Proof. intros Hp. destruct (dseg_live _ _ _ _ p (el_dll _ _ _ _ _ HE) Hp) as [x Hx]. unfold dview in Hx. by destruct (h !! p). Qed.
Lemma elems_live_K p : 1 ≤ K p → is_Some (h !! p).
Proof.
  intros Hp. pose proof (el_rc _ _ _ _ _ HE p) as E. unfold member in E. destruct (h !! p); [eauto|].
  simpl in E. unfold present in E. destruct (_ =? 0) eqn:E0; [|done]. apply Z.eqb_eq in E0. case_decide; lia.
Qed.
Lemma elems_lookup i p : xs !! i = Some p → ∃ v, vs !! i = Some v ∧ ddata h p = Some (Some v).
Proof.
  intros Hi. destruct (Forall2_lookup_l _ _ _ _ _ (el_data _ _ _ _ _ HE) Hi) as (v & ? & ?). eauto.
Qed.
Lemma elems_fuel : (length xs ≤ size h)%nat.
Proof. apply live_length; [apply HE|apply elems_live]. Qed.

(** A removed element, referred to from elsewhere or not. *)
Lemma elems_rc p x : h !! p = Some x → e_rc x = member xs p + K p.
Proof.
  intros Hx. pose proof (el_rc _ _ _ _ _ HE p) as E. rewrite Hx in E. simpl in E. unfold present in E. destruct (_ =? 0); congruence.
Qed.
End elems.

(** ** Removing and inserting an element *)

(** One reference less, [n] left. *)
Definition dropped (p : ptr) (n : Z) (h : gmap ptr spl_ptr_llist_element) :=
  if n =? 0 then delete p h else alter (set_rc n) p h.

Lemma delref_run m p x : eheap m !! p = Some x →
  SPL_LLIST_DELREF p m = OK (set_eheap (dropped p (e_rc x - 1) (eheap m)) m).
Proof.
  intros Hx. unfold SPL_LLIST_DELREF, ederef, dropped. rewrite Hx. ob. destruct (_ =? 0); [done|]. by rewrite estore_alive by (by rewrite Hx).
Qed.
Lemma dropped_ne p n h q : q ≠ p → dropped p n h !! q = h !! q.
Proof. intros Hq. unfold dropped. destruct (_ =? 0); [by rewrite lookup_delete_ne|by rewrite lookup_alter_ne]. Qed.
Lemma dropped_fmap {A} (g : spl_ptr_llist_element → A) p n h : (∀ e, g (set_rc n e) = g e) → n ≠ 0 → g <$> dropped p n h !! p = g <$> h !! p.
Proof. intros Hg Hn. unfold dropped. rewrite (proj2 (Z.eqb_neq _ _)), lookup_alter_eq by done. destruct (h !! p); simpl; by rewrite ?Hg. Qed.
Lemma dropped_rc p n h : is_Some (h !! p) → e_rc <$> dropped p n h !! p = present n.
Proof.
  intros [x Hx]. unfold dropped, present. destruct (_ =? 0); [by rewrite lookup_delete_eq|]. by rewrite lookup_alter_eq, Hx.
Qed.

Lemma member_remove x1 p x2 q : NoDup (x1 ++ p :: x2) →
  member (x1 ++ x2) q = if decide (q = p) then 0 else member (x1 ++ p :: x2) q.
Proof.
  intros (_ & Hd & [Hp _]%NoDup_cons)%NoDup_app. unfold member. destruct (decide (q = p)) as [->|].
  - rewrite decide_False; [done|]. intros [?|?]%elem_of_app; [|done]. eapply Hd; [done|]. by left.
  - do 2 case_decide; set_solver.
Qed.

(** The links around an element that leaves. *)
Definition unlinked (x1 x2 : list ptr) (h : gmap ptr spl_ptr_llist_element) :=
  alter_opt (hd_or x2 None) (set_eprev (last_or None x1)) (alter_opt (last_or None x1) (set_enext (hd_or x2 None)) h).
Definition removed (x1 : list ptr) (p : ptr) (x2 : list ptr) (n : Z) (h : gmap ptr spl_ptr_llist_element) :=
  dropped p n (alter (set_edata None) p (unlinked x1 x2 h)).

Lemma ends_distinct (x1 : list ptr) p x2 : NoDup (x1 ++ p :: x2) → last_or None x1 ≠ Some p ∧ hd_or x2 None ≠ Some p.
Proof.
  intros (_ & Hdis & [Hp _]%NoDup_cons)%NoDup_app.
  split; [intros ?%last_or_elem; set_solver|by intros ?%hd_or_elem].
Qed.
Lemma unlinked_same x1 p x2 h : NoDup (x1 ++ p :: x2) → unlinked x1 x2 h !! p = h !! p.
Proof. intros [? ?]%ends_distinct. unfold unlinked. by rewrite !alter_opt_ne. Qed.
Lemma unlinked_out x1 x2 h q : q ∉ x1 ++ x2 → unlinked x1 x2 h !! q = h !! q.
Proof. intros Hq. unfold unlinked. rewrite !alter_opt_ne; [done|intros ?%last_or_elem|intros ?%hd_or_elem]; set_solver. Qed.
Lemma unlinked_fmap {A} (g : spl_ptr_llist_element → A) x1 x2 h q : (∀ e n, g (set_eprev n e) = g e) → (∀ e n, g (set_enext n e) = g e) →
  g <$> unlinked x1 x2 h !! q = g <$> h !! q.
Proof. intros H1 H2. unfold unlinked. by rewrite !alter_opt_fmap. Qed.
Lemma unlinked_view x1 x2 h q : dview (unlinked x1 x2 h) q =
  set_prev (hd_or x2 None) (last_or None x1) (set_next (last_or None x1) (hd_or x2 None) (dview h)) q.
Proof. unfold unlinked. rewrite dview_prev. unfold set_prev. case_decide; by rewrite dview_next. Qed.
Lemma removed_ne x1 p x2 n h q : q ≠ p → removed x1 p x2 n h !! q = unlinked x1 x2 h !! q.
Proof. intros Hq. unfold removed. by rewrite dropped_ne, lookup_alter_ne. Qed.

Lemma elems_remove h l x1 p x2 v1 v v2 K : elems h l (x1 ++ p :: x2) (v1 ++ v :: v2) K → length x1 = length v1 →
  elems (removed x1 p x2 (K p) h) (mkList (hd_or (x1 ++ x2) None) (last_or None (x1 ++ x2)) (l_count l - 1)) (x1 ++ x2) (v1 ++ v2) K ∧
  (1 ≤ K p → ddata (removed x1 p x2 (K p) h) p = Some None).
Proof.
  intros HE Hlen. pose proof (el_nodup _ _ _ _ _ HE) as Hnd. pose proof (el_K _ _ _ _ _ HE p) as HKp.
  destruct (elems_live _ _ _ _ _ HE p) as [x Hx]; [set_solver|].
  assert (∀ q, ddata (unlinked x1 x2 h) q = ddata h q) as Hda by (intros q; by apply unlinked_fmap).
  split.
  - split; try done.
    + eapply dll_unlink; [exact Hnd|apply HE|]. intros q Hq. rewrite <- unlinked_view. unfold dview. by rewrite removed_ne.
    + apply NoDup_app in Hnd as (? & ? & [? ?]%NoDup_cons). apply NoDup_app. split_and!; [done|set_solver|done].
    + pose proof (el_data _ _ _ _ _ HE) as Hd. apply Forall2_app_inv in Hd as [Hd1 Hd2]; [|done].
      apply Forall2_cons in Hd2 as [_ Hd2]. assert ((p ∉ x1) ∧ (p ∉ x2)) as [Hp1 Hp2].
      { apply NoDup_app in Hnd as (? & Hd & [? ?]%NoDup_cons). split; [intros ?; eapply Hd; [done|by left]|done]. }
      assert (∀ q, q ≠ p → ddata (removed x1 p x2 (K p) h) q = ddata h q) as Hq by (intros q ?; rewrite <- Hda; unfold ddata; by rewrite removed_ne).
      apply Forall2_app.
      * rewrite Forall2_same_length_lookup in *. destruct Hd1 as [? Hd1]. split; [done|]. intros i q w Hi Hw. rewrite Hq; [by eapply Hd1|].
        intros ->. by apply list_elem_of_lookup_2 in Hi.
      * rewrite Forall2_same_length_lookup in *. destruct Hd2 as [? Hd2]. split; [done|]. intros i q w Hi Hw. rewrite Hq; [by eapply Hd2|].
        intros ->. by apply list_elem_of_lookup_2 in Hi.
    + simpl. rewrite (el_count _ _ _ _ _ HE), !length_app. simpl. lia.
    + pose proof (el_max _ _ _ _ _ HE) as Hm. rewrite !length_app in *. simpl in Hm. lia.
    + apply HE.
    + intros q. rewrite (member_remove _ _ _ _ Hnd). case_decide as Hq.
      * subst q. unfold removed. rewrite dropped_rc; [done|]. rewrite lookup_alter_eq, unlinked_same, Hx by done. by eexists.
      * rewrite removed_ne by done. rewrite unlinked_fmap by done. apply HE.
  - intros HK. unfold ddata, removed. rewrite dropped_fmap by (done || lia). rewrite lookup_alter_eq, unlinked_same, Hx by done. done.
Qed.

Definition inserted (x1 : list ptr) (q : ptr) (x2 : list ptr) (v : zval) (h : gmap ptr spl_ptr_llist_element) :=
  alter_opt (hd_or x2 None) (set_eprev (Some q)) (alter_opt (last_or None x1) (set_enext (Some q))
    (<[q := mkElement (last_or None x1) (hd_or x2 None) 1 (Some v)]> h)).

Lemma inserted_new x1 q x2 v h : q ∉ x1 ++ x2 → inserted x1 q x2 v h !! q = Some (mkElement (last_or None x1) (hd_or x2 None) 1 (Some v)).
Proof.
  intros Hq. unfold inserted. rewrite !alter_opt_ne; [apply lookup_insert_eq|intros ?%last_or_elem|intros ?%hd_or_elem]; set_solver.
Qed.
Lemma inserted_out x1 q x2 v h p : p ∉ x1 ++ q :: x2 → inserted x1 q x2 v h !! p = h !! p.
Proof.
  intros Hp. unfold inserted. rewrite !alter_opt_ne; [apply lookup_insert_ne|intros ?%last_or_elem|intros ?%hd_or_elem]; set_solver.
Qed.
Lemma inserted_fmap {A} (g : spl_ptr_llist_element → A) x1 q x2 v h p : (∀ e n, g (set_eprev n e) = g e) → (∀ e n, g (set_enext n e) = g e) →
  p ≠ q → g <$> inserted x1 q x2 v h !! p = g <$> h !! p.
Proof. intros H1 H2 Hp. unfold inserted. by rewrite !alter_opt_fmap, lookup_insert_ne. Qed.

Lemma member_insert x1 q x2 p : member (x1 ++ q :: x2) p = if decide (p = q) then 1 else member (x1 ++ x2) p.
Proof. unfold member. repeat case_decide; set_solver. Qed.

Lemma elems_insert h l x1 q x2 v1 v v2 K : elems h l (x1 ++ x2) (v1 ++ v2) K → length x1 = length v1 → h !! q = None →
  Z.of_nat (length (v1 ++ v2)) + 1 ≤ INT_MAX →
  elems (inserted x1 q x2 v h) (mkList (hd_or (x1 ++ q :: x2) None) (last_or None (x1 ++ q :: x2)) (l_count l + 1)) (x1 ++ q :: x2) (v1 ++ v :: v2) K.
Proof.
  intros HE Hlen Hq Hmax. pose proof (el_rc _ _ _ _ _ HE q) as Hrc. rewrite Hq in Hrc. simpl in Hrc.
  assert (K q = 0 ∧ q ∉ x1 ++ x2) as [HK Hin].
  { pose proof (el_K _ _ _ _ _ HE q). unfold present, member in Hrc. case_decide; destruct (Z.eqb_spec (K q) 0); destruct (_ =? 0) eqn:E; try done;
      apply Z.eqb_eq in E; lia. }
  pose proof (el_nodup _ _ _ _ _ HE) as Hnd.
  assert (∀ p, p ∈ x1 ++ x2 → ddata (inserted x1 q x2 v h) p = ddata h p) as Hda by (intros p Hp; apply inserted_fmap; [done..|congruence]).
  split; try done.
  - eapply dll_link; [exact Hnd|exact Hin|apply HE| |].
    + unfold dview. by rewrite inserted_new.
    + intros p Hp. unfold inserted. rewrite dview_prev. unfold set_prev. case_decide; rewrite dview_next; unfold set_next; case_decide; unfold dview; by rewrite lookup_insert_ne.
  - apply NoDup_app in Hnd as (? & ? & ?). apply NoDup_app. split; [done|]. split; [set_solver|]. apply NoDup_cons. split; [set_solver|done].
  - pose proof (el_data _ _ _ _ _ HE) as Hd. apply Forall2_app_inv in Hd as [Hd1 Hd2]; [|done].
    apply Forall2_app; [|constructor]; [|unfold ddata; by rewrite inserted_new|];
      rewrite Forall2_same_length_lookup in *; split; [apply Hd1| |apply Hd2|]; intros i p w Hi Hw; pose proof (list_elem_of_lookup_2 _ _ _ Hi); rewrite Hda by set_solver;
      [by eapply Hd1|by eapply Hd2].
  - simpl. rewrite (el_count _ _ _ _ _ HE), !length_app. simpl. lia.
  - rewrite !length_app in *. simpl. lia.
  - apply HE.
  - intros p. rewrite member_insert. case_decide as Hp.
    + subst p. rewrite inserted_new, HK by done. done.
    + rewrite inserted_fmap by done. apply HE.
Qed.

(** ** References from cursors *)

Lemma elems_frame h h' l xs vs K K' : elems h l xs vs K → (∀ q, q ∈ xs → dview h' q = dview h q ∧ ddata h' q = ddata h q) →
  (∀ p, 0 ≤ K' p) → (∀ p, e_rc <$> h' !! p = present (member xs p + K' p)) → elems h' l xs vs K'.
Proof.
  intros HE Hq HK Hrc. split; try apply HE; try done.
  - eapply dseg_ext; [|apply HE]. intros x Hx. by apply Hq.
  - pose proof (el_data _ _ _ _ _ HE) as Hd. rewrite Forall2_same_length_lookup in *. destruct Hd as [? Hd]. split; [done|].
    intros i p w Hi Hw. destruct (Hq p) as [_ ->]; [by eapply list_elem_of_lookup_2|]. by eapply Hd.
Qed.

Lemma plus1_same p K : plus1 (Some p) K p = K p + 1.
Proof. unfold plus1. by rewrite decide_True. Qed.
Lemma plus1_ne o p K : o ≠ Some p → plus1 o K p = K p.
Proof. intros Hne. unfold plus1. rewrite decide_False by done. lia. Qed.

Lemma elems_addref h l xs vs K p x : elems h l xs vs K → h !! p = Some x →
  elems (alter (set_rc (e_rc x + 1)) p h) l xs vs (plus1 (Some p) K).
Proof.
  intros HE Hx. apply (elems_frame h _ _ _ _ K); [done| | |].
  - intros q _. unfold dview, ddata. rewrite lookup_alter. case_decide; [|done]. subst. by rewrite Hx.
  - intros q. pose proof (el_K _ _ _ _ _ HE q). unfold plus1. case_decide; lia.
  - intros q. destruct (decide (q = p)) as [->|Hq].
    + rewrite lookup_alter_eq, Hx, plus1_same. simpl. rewrite (elems_rc _ _ _ _ _ HE _ _ Hx). pose proof (el_rc _ _ _ _ _ HE p) as E. rewrite Hx in E.
      simpl in E. pose proof (el_K _ _ _ _ _ HE p). unfold present in E. unfold member in *. destruct (_ =? 0) eqn:E0; [done|]. rewrite present_some; [f_equal; lia|].
      apply Z.eqb_neq in E0. case_decide; lia.
    + rewrite lookup_alter_ne, plus1_ne by congruence. apply HE.
Qed.

Lemma elems_delref h l xs vs K p x : elems h l xs vs (plus1 (Some p) K) → (∀ p, 0 ≤ K p) → h !! p = Some x →
  elems (dropped p (e_rc x - 1) h) l xs vs K.
Proof.
  intros HE HK Hx. pose proof (elems_rc _ _ _ _ _ HE _ _ Hx) as Hrc. rewrite plus1_same in Hrc. apply (elems_frame h _ _ _ _ (plus1 (Some p) K)); [done| |done|].
  - intros q Hq. destruct (decide (q = p)) as [->|]; [|unfold dview, ddata; by rewrite dropped_ne].
    assert (e_rc x - 1 ≠ 0) as Hn by (specialize (HK p); unfold member in Hrc; rewrite decide_True in Hrc by done; lia).
    unfold dview, ddata. by rewrite !dropped_fmap.
  - intros q. destruct (decide (q = p)) as [->|Hq].
    + rewrite dropped_rc by (by rewrite Hx). f_equal. lia.
    + rewrite dropped_ne by done. rewrite (el_rc _ _ _ _ _ HE), plus1_ne by congruence. done.
Qed.

(** ** The operations on the list *)

(** [e] counts the references to values from outside; the list has two to each
    of its values. *)
Definition rep (m : dmem) l xs vs K (e : zval → Z) : Prop :=
  elems (eheap m) l xs vs K ∧ refs (zrefs m) (λ z, e z + 2 * occ z vs) ∧ ∀ z, 0 ≤ e z.

Lemma bump_same f z d : bump f z d z = f z + d.
Proof. unfold bump. by rewrite decide_True. Qed.
Lemma rep_drop m l xs vs K e v : rep m l xs vs K (bump e v 1) → (∀ z, 0 ≤ e z) →
  ∃ r, zval_ptr_dtor v m = OK (set_zrefs r m) ∧ rep (set_zrefs r m) l xs vs K e.
Proof.
  intros (HE & Hr & _) He. destruct (dtor_refs m _ v Hr) as (r & -> & Hr').
  { rewrite bump_same. specialize (He v). pose proof (occ_nonneg v vs). lia. }
  exists r. split; [done|]. split; [done|]. split; [|done]. eapply refs_ext; [|done]. intros z. unfold bump. simpl. case_decide; lia.
Qed.
Lemma rep_addref m l xs vs K e v : rep m l xs vs K e → is_Some (zrefs m !! v) →
  ∃ r, Z_ADDREF_P v m = OK (set_zrefs r m) ∧ rep (set_zrefs r m) l xs vs K (bump e v 1).
Proof.
  intros (HE & Hr & He) Hv. apply (refs_live _ _ _ Hr) in Hv. destruct (addref_refs m _ v Hr Hv) as (r & -> & Hr').
  exists r. split; [done|]. split; [done|]. split; [eapply refs_ext; [|done]|]; intros z; unfold bump; simpl; specialize (He z); case_decide; lia.
Qed.
Lemma rep_refs_live m l xs vs K e v : rep m l xs vs K e → v ∈ vs → is_Some (zrefs m !! v).
Proof.
  intros (_ & Hr & He) Hv. apply (refs_live _ _ _ Hr). specialize (He v). pose proof (occ_elem v vs Hv). lia.
Qed.

(** The end of pop and shift: the element gives up its value and its place. *)
Lemma release_run m p x v f : eheap m !! p = Some x → e_data x = Some v → refs (zrefs m) f → 1 ≤ f v →
  ∃ r, refs r (bump f v (-1)) ∧ ∀ A (k : dmem → outcome A),
    (let* m := spl_ptr_llist_zval_dtor p m in let* m := estore m p (set_edata None) in let* m := SPL_LLIST_DELREF p m in k m) =
    k (mkMem (dropped p (e_rc x - 1) (alter (set_edata None) p (eheap m))) r).
Proof.
  intros Hx Hv Hr Hf. destruct (dtor_refs m f v Hr Hf) as (r & Hd & Hr'). exists r. split; [done|]. intros A k.
  unfold spl_ptr_llist_zval_dtor, ederef. rewrite Hx. ob. rewrite Hv, Hd. ob. rewrite estore_alive by (simpl; by rewrite Hx). ob.
  rewrite (delref_run _ p (set_edata None x)) by (simpl; by rewrite lookup_alter_eq, Hx). done.
Qed.

Lemma elems_element h l x1 p x2 vs K : elems h l (x1 ++ p :: x2) vs K →
  ∃ x, h !! p = Some x ∧ e_prev x = last_or None x1 ∧ e_next x = hd_or x2 None ∧ e_rc x = 1 + K p ∧ ∀ v, vs !! length x1 = Some v → e_data x = Some v.
Proof.
  intros HE. pose proof (dseg_lookup _ _ _ _ _ _ (el_dll _ _ _ _ _ HE)) as Hl. unfold dview in Hl. destruct (h !! p) as [x|] eqn:Hx; [|done].
  injection Hl as H1 H2. exists x. split_and!; try done.
  - rewrite (elems_rc _ _ _ _ _ HE _ _ Hx). unfold member. rewrite decide_True by set_solver. done.
  - intros v Hv. destruct (elems_lookup _ _ _ _ _ HE (length x1) p) as (w & Hw & Hd); [by rewrite list_lookup_middle|].
    unfold ddata in Hd. rewrite Hx in Hd. simpl in Hd. congruence.
Qed.

Lemma remove_refs e vs1 v vs2 z : bump (λ y, e y + 2 * occ y (vs1 ++ v :: vs2)) v (-1) z = bump e v 1 z + 2 * occ z (vs1 ++ vs2).
Proof. unfold bump. rewrite !occ_app. simpl. repeat case_decide; congruence || lia. Qed.
Lemma insert_refs e vs1 v vs2 z : bump (λ y, bump e v 1 y + 2 * occ y (vs1 ++ vs2)) v 1 z = e z + 2 * occ z (vs1 ++ v :: vs2).
Proof. unfold bump. rewrite !occ_app. simpl. repeat case_decide; congruence || lia. Qed.
Lemma bump_nonneg e v : (∀ z, 0 ≤ e z) → ∀ z, 0 ≤ bump e v 1 z.
Proof. intros He z. unfold bump. specialize (He z). case_decide; lia. Qed.
Lemma occ_middle e v vs1 vs2 : (∀ z, 0 ≤ e z) → 1 ≤ e v + 2 * occ v (vs1 ++ v :: vs2).
Proof. intros He. specialize (He v). pose proof (occ_elem v (vs1 ++ v :: vs2) ltac:(set_solver)). lia. Qed.

(** [m'] and [l'] are [m] and its list without the element [p]. *)
Definition without x1 p x2 (m : dmem) vs1 v vs2 K e l' m' : Prop :=
  eheap m' = removed x1 p x2 (K p) (eheap m) ∧ rep m' l' (x1 ++ x2) (vs1 ++ vs2) K (bump e v 1) ∧ (1 ≤ K p → ddata (eheap m') p = Some None).

Lemma dl_pop_spec m l xs p vs v K e : rep m l (xs ++ [p]) (vs ++ [v]) K e →
  ∃ m' l', spl_ptr_llist_pop l m = OK (Some v, l', m') ∧ without xs p [] m vs v [] K e l' m'.
Proof.
  intros (HE & Hr & He). pose proof (elems_length _ _ _ _ _ HE) as Hlen. rewrite !length_app in Hlen. simpl in Hlen.
  destruct (elems_element _ _ _ _ _ _ _ HE) as (x & Hx & Hp & Hn & Hrc & Hd). assert (e_data x = Some v) as Hv by (apply Hd, list_lookup_middle; lia).
  destruct (ends_distinct _ _ _ (el_nodup _ _ _ _ _ HE)) as [Hne _].
  unfold spl_ptr_llist_pop. rewrite (el_tail _ _ _ _ _ HE), last_or_snoc. unfold ederef at 1. rewrite Hx. ob. rewrite Hp.
  set (m1 := set_eheap (unlinked xs [] (eheap m)) m). assert (eheap m1 !! p = Some x) as Hx1 by (simpl; by rewrite unlinked_same by apply HE).
  assert (∃ l1, l_count l1 = l_count l ∧ l_head l1 = hd_or xs None ∧
    match last_or None xs with Some p => let* m := estore m p (set_enext None) in OK (l, m) | None => OK (set_lhead None l, m) end = OK (l1, m1)) as (l1 & Hc & Hh & ->).
  { unfold m1, unlinked. simpl. destruct (last_or None xs) as [y|] eqn:Hy.
    - apply last_or_elem in Hy as Hin. rewrite estore_alive by (eapply elems_live; [exact HE|set_solver]). exists l. split; [done|]. split; [|done].
      rewrite (el_head _ _ _ _ _ HE). by destruct xs.
    - apply last_or_None_nil in Hy as ->. eexists. split; [|split; [|by destruct m]]; done. }
  ob. unfold ederef at 1. rewrite Hx1. ob. rewrite Hv.
  destruct (release_run m1 p x v _ Hx1 Hv Hr) as (r & Hr' & Hk); [by apply occ_middle|]. rewrite Hk.
  replace (e_rc x - 1) with (K p) by lia. destruct (elems_remove _ _ _ _ _ _ _ _ _ HE) as [HE' Hdet]; [lia|]. eexists _, _. split; [reflexivity|].
  split; [done|]. split; [|exact Hdet]. split; [|split; [|by apply bump_nonneg]].
  - rewrite !app_nil_r in *. simpl. unfold set_lcount, set_ltail. cbn [l_head l_tail l_count]. rewrite Hc, Hh, Hp. exact HE'.
  - eapply refs_ext; [|exact Hr']. intros z. apply remove_refs.
Qed.

Lemma shift_spec m l p xs v vs K e : rep m l (p :: xs) (v :: vs) K e →
  ∃ m' l', spl_ptr_llist_shift l m = OK (Some v, l', m') ∧ without [] p xs m [] v vs K e l' m'.
Proof.
  intros (HE & Hr & He). destruct (elems_element _ _ [] _ _ _ _ HE) as (x & Hx & Hp & Hn & Hrc & Hd). assert (e_data x = Some v) as Hv by by apply Hd.
  destruct (ends_distinct [] _ _ (el_nodup _ _ _ _ _ HE)) as [_ Hne].
  unfold spl_ptr_llist_shift. rewrite (el_head _ _ _ _ _ HE). cbn [hd_or]. unfold ederef at 1. rewrite Hx. ob. rewrite Hn.
  set (m1 := set_eheap (unlinked [] xs (eheap m)) m). assert (eheap m1 !! p = Some x) as Hx1 by (simpl; by rewrite (unlinked_same [] p xs) by apply HE).
  assert (∃ l1, l_count l1 = l_count l ∧ l_tail l1 = last_or None xs ∧
    match hd_or xs None with Some p => let* m := estore m p (set_eprev None) in OK (l, m) | None => OK (set_ltail None l, m) end = OK (l1, m1)) as (l1 & Hc & Hh & ->).
  { unfold m1, unlinked. destruct xs as [|y xs]; [eexists; split; [|split; [|by destruct m]]; done|]. cbn [hd_or].
    rewrite estore_alive by (eapply elems_live; [exact HE|set_solver]). exists l. split; [done|]. split; [|done].
    by rewrite (el_tail _ _ _ _ _ HE), !last_or_cons. }
  ob. unfold ederef at 1. rewrite Hx1. ob. rewrite Hv.
  destruct (release_run m1 p x v _ Hx1 Hv Hr) as (r & Hr' & Hk); [by apply (occ_middle _ _ [])|]. rewrite Hk.
  replace (e_rc x - 1) with (K p) by lia. destruct (elems_remove _ _ [] _ _ [] _ _ _ HE) as [HE' Hdet]; [done|]. eexists _, _. split; [reflexivity|].
  split; [done|]. split; [|exact Hdet]. split; [|split; [|by apply bump_nonneg]].
  - unfold set_lcount, set_lhead. cbn [l_head l_tail l_count]. rewrite Hc, Hh, Hn. exact HE'.
  - eapply refs_ext; [|exact Hr']. intros z. apply (remove_refs e []).
Qed.

(** ** Insertion *)

Lemma ctor_run m p x v : eheap m !! p = Some x → e_data x = Some v → spl_ptr_llist_zval_ctor p m = Z_ADDREF_P v m.
Proof. intros Hx Hv. unfold spl_ptr_llist_zval_ctor, ederef. rewrite Hx. ob. by rewrite Hv. Qed.
Lemma count_up_ok l : l_count l < INT_MAX → count_up l = OK (set_lcount (l_count l + 1) l).
Proof. intros Hl. unfold count_up. by rewrite (proj2 (Z.ltb_ge _ _)) by lia. Qed.

(** [m'] and its list are [m] with the new element [q]. *)
Definition with_new x1 q x2 (m : dmem) vs1 v vs2 K e l' m' : Prop :=
  eheap m !! q = None ∧ eheap m' = inserted x1 q x2 v (eheap m) ∧ rep m' l' (x1 ++ q :: x2) (vs1 ++ v :: vs2) K e.

(** The count and the constructor of a new element. *)
Lemma with_new_run m m1 l l1 x1 q x2 vs1 v vs2 K e : rep m l (x1 ++ x2) (vs1 ++ vs2) K (bump e v 1) → (∀ z, 0 ≤ e z) → length x1 = length vs1 →
  eheap m !! q = None → Z.of_nat (length (vs1 ++ vs2)) < INT_MAX →
  m1 = set_eheap (inserted x1 q x2 v (eheap m)) m → l1 = mkList (hd_or (x1 ++ q :: x2) None) (last_or None (x1 ++ q :: x2)) (l_count l) →
  ∃ m' l', (let* l := count_up l1 in let* m := spl_ptr_llist_zval_ctor q m1 in OK (l, m)) = OK (l', m') ∧ with_new x1 q x2 m vs1 v vs2 K e l' m'.
Proof.
  intros (HE & Hr & He') He Hlen Hq Hmax -> ->. pose proof (elems_length _ _ _ _ _ HE) as Hl.
  assert (l_count l = Z.of_nat (length (vs1 ++ vs2))) as Hc by apply HE. rewrite count_up_ok by (simpl; lia). ob.
  assert (q ∉ x1 ++ x2) as Hin by (intros Hin; destruct (elems_live _ _ _ _ _ HE q Hin); congruence).
  rewrite (ctor_run (set_eheap (inserted x1 q x2 v (eheap m)) m) q _ v (inserted_new x1 q x2 v _ Hin)) by done.
  edestruct (addref_refs (set_eheap (inserted x1 q x2 v (eheap m)) m) _ v Hr) as (r & -> & Hr').
  { rewrite bump_same. specialize (He v). pose proof (occ_nonneg v (vs1 ++ vs2)). lia. }
  ob. eexists _, _. split; [reflexivity|]. split; [done|]. split; [done|]. split; [|split; [|done]].
  - apply (elems_insert _ l); [done..|lia].
  - eapply refs_ext; [|exact Hr']. intros z. apply insert_refs.
Qed.

Section alloc.
Context `{PEMalloc}.

Lemma new_fresh (h : gmap ptr spl_ptr_llist_element) : h !! pemalloc (dom h) = None.
Proof. apply not_elem_of_dom, pemalloc_fresh. Qed.

Lemma dl_push_spec m l xs vs v K e : rep m l xs vs K (bump e v 1) → (∀ z, 0 ≤ e z) → Z.of_nat (length vs) < INT_MAX →
  ∃ q m' l', spl_ptr_llist_push l v m = OK (l', m') ∧ with_new xs q [] m vs v [] K e l' m'.
Proof.
  intros HR He Hmax. pose proof HR as (HE & _). pose proof (elems_length _ _ _ _ _ HE) as Hl. exists (pemalloc (dom (eheap m))). set (q := pemalloc _).
  pose proof (new_fresh (eheap m)) as Hq. fold q in Hq.
  unfold spl_ptr_llist_push, new_element. fold q. set (m1 := set_eheap (inserted xs q [] v (eheap m)) m).
  set (l1 := mkList (hd_or (xs ++ [q]) None) (last_or None xs) (l_count l)).
  assert (match l_tail l with Some t => let* m := estore (set_eheap (<[q := mkElement (l_tail l) None 1 (Some v)]> (eheap m)) m) t (set_enext (Some q)) in OK (l, m)
    | None => OK (set_lhead (Some q) l, set_eheap (<[q := mkElement (l_tail l) None 1 (Some v)]> (eheap m)) m) end = OK (l1, m1)) as ->.
  { unfold l1, m1, inserted. rewrite (el_tail _ _ _ _ _ HE). simpl. destruct (last_or None xs) as [t|] eqn:Ht.
    - apply last_or_elem in Ht as Hin. destruct (elems_live _ _ _ _ _ HE t Hin) as [x Hx].
      rewrite estore_alive by (simpl; rewrite lookup_insert_ne by congruence; by rewrite Hx). simpl. rewrite <- Ht, <- (el_tail _ _ _ _ _ HE).
      replace (hd_or (xs ++ [q]) None) with (l_head l); [by destruct l|]. rewrite (el_head _ _ _ _ _ HE). by destruct xs.
    - apply last_or_None_nil in Ht as Hnil. subst xs. unfold set_lhead. simpl. f_equal. f_equal. by rewrite (el_tail _ _ _ _ _ HE). }
  ob. destruct (with_new_run m m1 l (set_ltail (Some q) l1) xs q [] vs v [] K e) as (m' & l' & Hrun & HW); try done; rewrite ?app_nil_r; try done.
  - unfold set_ltail, l1. simpl. by rewrite last_or_snoc.
  - exists m', l'. split; [|done]. exact Hrun.
Qed.

Lemma unshift_spec m l xs vs v K e : rep m l xs vs K (bump e v 1) → (∀ z, 0 ≤ e z) → Z.of_nat (length vs) < INT_MAX →
  ∃ q m' l', spl_ptr_llist_unshift l v m = OK (l', m') ∧ with_new [] q xs m [] v vs K e l' m'.
Proof.
  intros HR He Hmax. pose proof HR as (HE & _). exists (pemalloc (dom (eheap m))). set (q := pemalloc _).
  pose proof (new_fresh (eheap m)) as Hq. fold q in Hq.
  unfold spl_ptr_llist_unshift, new_element. fold q. set (m1 := set_eheap (inserted [] q xs v (eheap m)) m).
  set (l1 := mkList (hd_or xs None) (last_or None (q :: xs)) (l_count l)).
  assert (match l_head l with Some t => let* m := estore (set_eheap (<[q := mkElement None (l_head l) 1 (Some v)]> (eheap m)) m) t (set_eprev (Some q)) in OK (l, m)
    | None => OK (set_ltail (Some q) l, set_eheap (<[q := mkElement None (l_head l) 1 (Some v)]> (eheap m)) m) end = OK (l1, m1)) as ->.
  { unfold l1, m1, inserted. rewrite (el_head _ _ _ _ _ HE). destruct xs as [|t xs].
    - cbn [hd_or alter_opt last_or]. unfold set_ltail. by rewrite (el_head _ _ _ _ _ HE).
    - cbn [hd_or alter_opt]. destruct (elems_live _ _ _ _ _ HE t) as [x Hx]; [by left|].
      rewrite estore_alive by (simpl; rewrite lookup_insert_ne by congruence; by rewrite Hx). cbn [obind]. rewrite !last_or_cons. f_equal. f_equal.
      destruct l as [lh lt lc]. pose proof (el_head _ _ _ _ _ HE) as H1. pose proof (el_tail _ _ _ _ _ HE) as H2. cbn [l_head l_tail] in *. subst. by rewrite last_or_cons. }
  ob. destruct (with_new_run m m1 l (set_lhead (Some q) l1) [] q xs [] v vs K e) as (m' & l' & Hrun & HW); try done. exists m', l'. split; [|done]. exact Hrun.
Qed.
End alloc.

(** ** Finding an element by its index *)

Lemma offset_forward m x1 x2 l vs K i fuel : elems (eheap m) l (x1 ++ x2) vs K → (length x2 ≤ fuel)%nat → Z.of_nat (length x1) ≤ i →
  offset_loop fuel m false (hd_or x2 None) (Z.of_nat (length x1)) i = OK ((x1 ++ x2) !! Z.to_nat i).
Proof.
  revert x1 fuel. induction x2 as [|p x2 IH]; intros x1 fuel HE Hf Hi.
  - rewrite app_nil_r, lookup_ge_None_2 by lia. by destruct fuel.
  - destruct (elems_element _ _ _ _ _ _ _ HE) as (x & Hx & _ & Hn & _). assert (∀ f, offset_loop f m false (hd_or (p :: x2) None) (Z.of_nat (length x1)) i =
      if Z.of_nat (length x1) <? i then match f with O => UB | S f => let* e := ederef m p in offset_loop f m false (e_next e) (Z.of_nat (length x1) + 1) i end else OK (Some p)) as -> by (by intros []).
    destruct (Z.ltb_spec (Z.of_nat (length x1)) i).
    + destruct fuel as [|fuel]; [simpl in Hf; lia|]. unfold ederef. rewrite Hx. ob. rewrite Hn. replace (x1 ++ p :: x2) with ((x1 ++ [p]) ++ x2) in * by by rewrite <- app_assoc.
      replace (Z.of_nat (length x1) + 1) with (Z.of_nat (length (x1 ++ [p]))) by (rewrite length_app; simpl; lia).
      apply IH; [done|simpl in Hf; lia|rewrite length_app; simpl; lia].
    + rewrite list_lookup_middle by lia. done.
Qed.

Lemma offset_backward m x1 x2 l vs K i fuel : elems (eheap m) l (x1 ++ x2) vs K → (length x1 ≤ fuel)%nat → Z.of_nat (length x2) ≤ i →
  offset_loop fuel m true (last_or None x1) (Z.of_nat (length x2)) i = OK (reverse (x1 ++ x2) !! Z.to_nat i).
Proof.
  revert x2 fuel. induction x1 as [|p x1 IH] using rev_ind; intros x2 fuel HE Hf Hi.
  - rewrite lookup_ge_None_2 by (rewrite length_reverse; simpl; lia). by destruct fuel.
  - rewrite <- app_assoc in *. simpl in HE. destruct (elems_element _ _ _ _ _ _ _ HE) as (x & Hx & Hp & _). rewrite last_or_snoc.
    assert (∀ f, offset_loop f m true (Some p) (Z.of_nat (length x2)) i =
      if Z.of_nat (length x2) <? i then match f with O => UB | S f => let* e := ederef m p in offset_loop f m true (e_prev e) (Z.of_nat (length x2) + 1) i end else OK (Some p)) as -> by (by intros []).
    destruct (Z.ltb_spec (Z.of_nat (length x2)) i).
    + destruct fuel as [|fuel]; [rewrite length_app in Hf; simpl in Hf; lia|]. unfold ederef. rewrite Hx. ob. rewrite Hp.
      replace (Z.of_nat (length x2) + 1) with (Z.of_nat (length (p :: x2))) by (simpl; lia).
      rewrite length_app in Hf. simpl in Hf. apply IH; [done|lia|simpl; lia].
    + simpl. rewrite reverse_app, reverse_cons, <- app_assoc. simpl. rewrite list_lookup_middle; [done|]. rewrite length_reverse. lia.
Qed.

Lemma offset_spec m l xs vs K i b : elems (eheap m) l xs vs K → 0 ≤ i →
  spl_ptr_llist_offset m l i b = OK ((if b : bool then reverse xs else xs) !! Z.to_nat i).
Proof.
  intros HE Hi. pose proof (elems_fuel _ _ _ _ _ HE). unfold spl_ptr_llist_offset, lfuel. destruct b.
  - rewrite (el_tail _ _ _ _ _ HE). rewrite <- (app_nil_r xs) at 2. apply (offset_backward m xs [] l vs K); [by rewrite app_nil_r|lia|done].
  - rewrite (el_head _ _ _ _ _ HE). apply (offset_forward m [] xs l vs K); [done|lia|done].
Qed.

(** ** Cursors *)

(** Where a cursor is: past the end, at the [i]-th value, or at an element that
    has left the list since. *)
Inductive acur := ANone | AAt (i : nat) | AGone.
#[export] Instance acur_eq_dec : EqDecision acur.
Proof. solve_decision. Defined.
Definition cur_rel (h : gmap ptr spl_ptr_llist_element) (xs : list ptr) (o : nptr) (a : acur) : Prop :=
  match a, o with
  | ANone, None => True
  | AAt i, Some p => xs !! i = Some p
  | AGone, Some p => (p ∉ xs) ∧ ddata h p = Some None
  | _, _ => False
  end.
(** The cursor, counted in [K], that a pointer belongs to. *)
Definition counted (K : ptr → Z) (o : nptr) : Prop := ∀ p, o = Some p → 1 ≤ K p.

(** How an insertion and a removal at [j] move a cursor. *)
Definition follow_insert (j : nat) (a : acur) : acur :=
  match a with AAt i => AAt (if decide (j ≤ i)%nat then S i else i) | _ => a end.
Definition follow_remove (j : nat) (a : acur) : acur :=
  match a with
  | AAt i => if decide (i = j) then AGone else AAt (if decide (j < i)%nat then i - 1 else i)
  | _ => a
  end.

Lemma plus1_le o K p : K p ≤ plus1 o K p.
Proof. unfold plus1. case_decide; lia. Qed.
Lemma counted_plus1 o o' K : counted K o → counted (plus1 o' K) o.
Proof. intros Hc p Hp. specialize (Hc p Hp). pose proof (plus1_le o' K p). lia. Qed.
Lemma counted_self o K : (∀ p, 0 ≤ K p) → counted (plus1 o K) o.
Proof. intros HK p ->. rewrite plus1_same. specialize (HK p). lia. Qed.

Lemma cur_removed h l x1 p x2 v1 v v2 K o a : elems h l (x1 ++ p :: x2) (v1 ++ v :: v2) K → length x1 = length v1 → counted K o →
  cur_rel h (x1 ++ p :: x2) o a → cur_rel (removed x1 p x2 (K p) h) (x1 ++ x2) o (follow_remove (length x1) a).
Proof.
  intros HE Hlen Hc Ha. pose proof (el_nodup _ _ _ _ _ HE) as Hnd. destruct a as [|i|], o as [q|]; try done; simpl in *.
  - destruct (decide (i = length x1)) as [->|Hne].
    + rewrite list_lookup_middle in Ha by done. injection Ha as <-. split; [|apply (elems_remove _ _ _ _ _ _ _ _ _ HE Hlen), (Hc p eq_refl)].
      pose proof (member_remove _ _ _ p Hnd) as E. unfold member in E. rewrite (decide_True _ _ (eq_refl p)) in E. by case_decide.
    + destruct (decide (length x1 < i)%nat); cbn [cur_rel].
      * rewrite lookup_app_r in * by lia. rewrite lookup_cons_ne_0 in Ha by lia. rewrite <- Ha. f_equal. lia.
      * rewrite lookup_app_l in * by lia. done.
  - destruct Ha as [Hq Hd]. assert (q ≠ p) by set_solver. split; [set_solver|]. unfold ddata. rewrite removed_ne by done. by rewrite unlinked_fmap.
Qed.

Lemma cur_inserted h x1 q x2 v o a : h !! q = None → cur_rel h (x1 ++ x2) o a →
  cur_rel (inserted x1 q x2 v h) (x1 ++ q :: x2) o (follow_insert (length x1) a).
Proof.
  intros Hq Ha. destruct a as [|i|], o as [p|]; try done; simpl in *.
  - case_decide.
    + rewrite lookup_app_r in * by lia. rewrite lookup_cons_ne_0 by lia. rewrite <- Ha. f_equal. lia.
    + rewrite lookup_app_l in * by lia. done.
  - destruct Ha as [Hp Hd]. assert (p ≠ q) by (intros ->; unfold ddata in Hd; by rewrite Hq in Hd). split; [set_solver|].
    unfold ddata. by rewrite inserted_fmap.
Qed.

Lemma dropped_data p n h q : (q = p → n ≠ 0) → ddata (dropped p n h) q = ddata h q.
Proof.
  intros Hn. unfold ddata. destruct (decide (q = p)) as [->|]; [by rewrite dropped_fmap by (done || auto)|by rewrite dropped_ne].
Qed.
Lemma cur_data h h' xs o a : (∀ p, o = Some p → ddata h' p = ddata h p) → cur_rel h xs o a → cur_rel h' xs o a.
Proof. intros Hd. destruct a as [|i|], o as [p|]; try done. simpl. by rewrite (Hd p). Qed.

(** A cursor leaves [o] and goes to [o']. *)
Lemma switch_spec m l xs vs K e o o' : rep m l xs vs (plus1 o K) e → (∀ p, 0 ≤ K p) → (∀ p, o' = Some p → p ∈ xs) →
  ∃ h', (∀ A (k : dmem → outcome A), (let* m := SPL_LLIST_CHECK_DELREF o m in let* m := SPL_LLIST_CHECK_ADDREF o' m in k m) = k (set_eheap h' m)) ∧
    rep (set_eheap h' m) l xs vs (plus1 o' K) e ∧ ∀ p, 1 ≤ K p ∨ p ∈ xs → ddata h' p = ddata (eheap m) p.
Proof.
  intros (HE & Hr & He) HK Ho.
  assert (∃ h1, SPL_LLIST_CHECK_DELREF o m = OK (set_eheap h1 m) ∧ elems h1 l xs vs K ∧ ∀ p, 1 ≤ K p ∨ p ∈ xs → ddata h1 p = ddata (eheap m) p) as (h1 & -> & HE1 & Hd1).
  { destruct o as [p|].
    - assert (is_Some (eheap m !! p)) as [x Hx]. { eapply elems_live_K; [exact HE|]. rewrite plus1_same. specialize (HK p). lia. }
      simpl. rewrite (delref_run _ _ _ Hx). eexists. split; [done|]. split; [by apply elems_delref|].
      intros q Hq. apply dropped_data. intros ->. rewrite (elems_rc _ _ _ _ _ HE _ _ Hx), plus1_same. specialize (HK p). unfold member. case_decide; naive_solver lia.
    - exists (eheap m). split; [by destruct m|]. split; [|done]. apply (elems_frame (eheap m) _ _ _ _ (plus1 None K)); [done..|].
      intros p. rewrite (el_rc _ _ _ _ _ HE), plus1_ne by done. done. }
  ob. destruct o' as [p|]; simpl.
  - destruct (elems_live _ _ _ _ _ HE1 p (Ho p eq_refl)) as [x Hx]. unfold ederef. simpl. eexists. split.
    { intros A k. rewrite Hx. ob. rewrite estore_alive by (simpl; by rewrite Hx). ob. reflexivity. }
    split; [split; [by apply elems_addref|done]|]. intros q Hq. rewrite <- (Hd1 q Hq). unfold ddata. simpl. rewrite lookup_alter. case_decide; [|done]. subst. by rewrite Hx.
  - exists h1. split; [done|]. split; [|done]. split; [|done]. apply (elems_frame h1 _ _ _ _ K); [done..| |].
    + intros p. unfold plus1. rewrite decide_False by done. specialize (HK p). lia.
    + intros p. rewrite (el_rc _ _ _ _ _ HE1), plus1_ne by done. done.
Qed.

(** ** Moving *)

Definition deletes (f : Z) : bool := negb (Z.land f SPL_DLLIST_IT_DELETE =? 0).

(** What moving a cursor that is not at a removed element does: the cursor, its
    position, the values, and how other cursors follow. *)
Definition amove (f : Z) (vs : list zval) (a : acur) (pos : Z) : acur * Z * list zval * (acur → acur) :=
  match a with
  | AAt i =>
      if lifo f then
        let a' := match i with O => ANone | S i => AAt i end in
        if deletes f then (a', pos - 1, take (length vs - 1) vs, follow_remove (length vs - 1)) else (a', pos - 1, vs, id)
      else if deletes f then (if decide (S i < length vs)%nat then AAt i else ANone, pos, drop 1 vs, follow_remove 0)
      else (if decide (S i < length vs)%nat then AAt (S i) else ANone, pos + 1, vs, id)
  | _ => (a, pos, vs, id)
  end.

Lemma elem_around (xs : list ptr) i p : xs !! i = Some p →
  xs = take i xs ++ p :: drop (S i) xs ∧ last_or None (take i xs) = match i with O => None | S i => xs !! i end ∧ hd_or (drop (S i) xs) None = xs !! S i.
Proof.
  intros Hi. split; [by rewrite take_drop_middle|]. split.
  - destruct i as [|i]; [done|]. destruct (lookup_lt_is_Some_2 xs i) as [q Hq]; [apply lookup_lt_Some in Hi; lia|].
    rewrite (take_S_r _ _ _ Hq), last_or_snoc. by rewrite Hq.
  - pose proof (lookup_drop xs (S i) 0) as E. rewrite Nat.add_0_r in E. rewrite <- E. by destruct (drop (S i) xs).
Qed.

(** The two-step removal of the deleting modes. *)
Lemma pop_drop_spec m l xs vs K e : rep m l xs vs K e → vs ≠ [] →
  ∃ m' l', (let* (z, l, m) := spl_ptr_llist_pop l m in let* m := drop_opt z m in OK (l, m)) = OK (l', m') ∧
    rep m' l' (take (length vs - 1) xs) (take (length vs - 1) vs) K e ∧
    ∀ o b, counted K o → cur_rel (eheap m) xs o b → cur_rel (eheap m') (take (length vs - 1) xs) o (follow_remove (length vs - 1) b).
Proof.
  intros HR Hne. pose proof HR as (HE & _ & He). pose proof (elems_length _ _ _ _ _ HE) as Hl.
  destruct vs as [|v vs _] using rev_ind; [done|]. destruct xs as [|p xs _] using rev_ind; [rewrite length_app in Hl; simpl in Hl; lia|].
  rewrite !length_app in Hl. simpl in Hl. destruct (dl_pop_spec _ _ _ _ _ _ _ _ HR) as (m1 & l1 & -> & Hh & HR1 & _). ob. rewrite !app_nil_r in HR1.
  cbn [drop_opt]. destruct (rep_drop _ _ _ _ _ _ _ HR1 He) as (r & -> & HR2). ob. eexists _, _. split; [reflexivity|].
  rewrite length_app. simpl. replace (length vs + 1 - 1)%nat with (length vs) by lia. rewrite (take_app_length' vs) by done. rewrite (take_app_length' xs) by lia.
  split; [done|]. intros o b Hc Hb. simpl. rewrite Hh. replace (length vs) with (length xs) by lia.
  pose proof (cur_removed _ _ xs p [] vs v [] K o b HE ltac:(lia) Hc Hb) as Hcr. by rewrite app_nil_r in Hcr.
Qed.
Lemma shift_drop_spec m l xs vs K e : rep m l xs vs K e → vs ≠ [] →
  ∃ m' l', (let* (z, l, m) := spl_ptr_llist_shift l m in let* m := drop_opt z m in OK (l, m)) = OK (l', m') ∧
    rep m' l' (drop 1 xs) (drop 1 vs) K e ∧
    ∀ o b, counted K o → cur_rel (eheap m) xs o b → cur_rel (eheap m') (drop 1 xs) o (follow_remove 0 b).
Proof.
  intros HR Hne. pose proof HR as (HE & _ & He). pose proof (elems_length _ _ _ _ _ HE) as Hl.
  destruct vs as [|v vs]; [done|]. destruct xs as [|p xs]; [done|]. destruct (shift_spec _ _ _ _ _ _ _ _ HR) as (m1 & l1 & -> & Hh & HR1 & _). ob.
  cbn [drop_opt]. destruct (rep_drop _ _ _ _ _ _ _ HR1 He) as (r & -> & HR2). ob. eexists _, _. split; [reflexivity|]. simpl. rewrite drop_0.
  split; [exact HR2|]. intros o b Hc Hb. rewrite Hh. apply (cur_removed _ _ [] _ _ [] _ _ _ _ _ HE); done.
Qed.

(** Deletion and the move proper, in any of the modes. *)
Lemma move_spec m l xs vs K e c f i : rep m l xs vs (plus1 (c_ptr c) K) e → (∀ p, 0 ≤ K p) → cur_rel (eheap m) xs (c_ptr c) (AAt i) →
  let '(a', pos', vs', fl) := amove f vs (AAt i) (c_pos c) in
  ∃ c' l' m' xs', spl_dllist_it_helper_move_forward c l f m = OK (c', l', m') ∧ rep m' l' xs' vs' (plus1 (c_ptr c') K) e ∧
    cur_rel (eheap m') xs' (c_ptr c') a' ∧ c_pos c' = pos' ∧
    ∀ o b, counted K o → cur_rel (eheap m) xs o b → cur_rel (eheap m') xs' o (fl b).
Proof.
  intros HR HK Ha. destruct (c_ptr c) as [old|] eqn:Hold; [|done]. simpl in Ha. pose proof HR as (HE & _). pose proof (elems_length _ _ _ _ _ HE) as Hl.
  pose proof (lookup_lt_Some _ _ _ Ha) as Hi. destruct (elem_around _ _ _ Ha) as (Hxs & Hprev & Hnext).
  assert (vs ≠ []) as Hne by (intros ->; simpl in Hl; lia). rewrite Hxs in HE. destruct (elems_element _ _ _ _ _ _ _ HE) as (x & Hx & Hp & Hn & _). rewrite <- Hxs in HE.
  rewrite Hprev in Hp. rewrite Hnext in Hn. unfold spl_dllist_it_helper_move_forward. rewrite Hold. unfold ederef at 1. rewrite Hx. ob. rewrite Hp, Hn. fold (deletes f).
  assert (∀ (o' : nptr) pos' l1 m1 xs1 vs1 fl a', rep m1 l1 xs1 vs1 (plus1 (Some old) K) e → cur_rel (eheap m1) xs1 o' a' → a' ≠ AGone →
    (∀ o b, counted (plus1 (Some old) K) o → cur_rel (eheap m) xs o b → cur_rel (eheap m1) xs1 o (fl b)) →
    ∃ c' l' m' xs', (let* m := SPL_LLIST_DELREF old m1 in let* m := SPL_LLIST_CHECK_ADDREF o' m in OK (mkCursor o' pos', l1, m)) = OK (c', l', m') ∧
      rep m' l' xs' vs1 (plus1 (c_ptr c') K) e ∧ cur_rel (eheap m') xs' (c_ptr c') a' ∧ c_pos c' = pos' ∧
      ∀ o b, counted K o → cur_rel (eheap m) xs o b → cur_rel (eheap m') xs' o (fl b)) as Hfin.
  { intros o' pos' l1 m1 xs1 vs1 fl a' HR1 Ha' Hg Hfl. assert (∀ p, o' = Some p → p ∈ xs1) as Hin.
    { intros p ->. destruct a' as [|j|]; [done|simpl in Ha'; by eapply list_elem_of_lookup_2|done]. }
    destruct (switch_spec _ _ _ _ _ _ (Some old) o' HR1 HK Hin) as (h' & Hrun & HR2 & Hd). simpl SPL_LLIST_CHECK_DELREF in Hrun. rewrite (Hrun _ (λ m, OK (mkCursor o' pos', l1, m))).
    eexists _, _, _, xs1. split; [reflexivity|]. split; [done|]. split; [|split; [done|]].
    - eapply cur_data; [|exact Ha']. intros p Hp'. apply Hd. right. by apply Hin.
    - intros o b Hc Hb. eapply cur_data; [|apply Hfl; [by apply counted_plus1|exact Hb]]. intros p Hp'. apply Hd. left. by apply Hc. }
  unfold amove. destruct (lifo f), (deletes f).
  - destruct (pop_drop_spec _ _ _ _ _ _ HR Hne) as (m1 & l1 & Hrun & HR1 & Hfl).
    destruct (spl_ptr_llist_pop l m) as [[[z l2] m2]| |]; cbn [obind] in Hrun |- *; [|done..]. destruct (drop_opt z m2); cbn [obind] in Hrun |- *; [|done..].
    injection Hrun as -> ->. apply (Hfin _ _ _ _ _ _ _ (match i with O => ANone | S i => AAt i end) HR1); [|by destruct i|done].
    destruct i as [|i]; [done|]. simpl. assert (is_Some (xs !! i)) as [q Hq] by (apply lookup_lt_is_Some; lia). rewrite Hq. simpl. rewrite lookup_take_lt by lia. done.
  - apply (Hfin _ _ _ _ _ _ id (match i with O => ANone | S i => AAt i end) HR); [|by destruct i|done].
    destruct i as [|i]; [done|]. simpl. assert (is_Some (xs !! i)) as [q Hq] by (apply lookup_lt_is_Some; lia). by rewrite Hq.
  - destruct (shift_drop_spec _ _ _ _ _ _ HR Hne) as (m1 & l1 & Hrun & HR1 & Hfl).
    destruct (spl_ptr_llist_shift l m) as [[[z l2] m2]| |]; cbn [obind] in Hrun |- *; [|done..]. destruct (drop_opt z m2); cbn [obind] in Hrun |- *; [|done..].
    injection Hrun as -> ->. apply (Hfin _ _ _ _ _ _ _ (if decide (S i < length vs)%nat then AAt i else ANone) HR1); [|by case_decide|done].
    case_decide; [|by rewrite lookup_ge_None_2 by lia]. assert (is_Some (xs !! S i)) as [q Hq] by (apply lookup_lt_is_Some; lia). rewrite Hq. simpl. by rewrite lookup_drop.
  - apply (Hfin _ _ _ _ _ _ id (if decide (S i < length vs)%nat then AAt (S i) else ANone) HR); [|by case_decide|done].
    case_decide; [|by rewrite lookup_ge_None_2 by lia]. assert (is_Some (xs !! S i)) as [q Hq] by (apply lookup_lt_is_Some; lia). by rewrite Hq.
Qed.

(** ** Removal and replacement by index *)

Lemma alter_opt_comm o g f p h : o ≠ Some p → alter_opt o g (alter f p h) = alter f p (alter_opt o g h).
Proof. destruct o as [q|]; [|done]. intros Hne. apply alter_alter_ne. congruence. Qed.
Lemma unlinked_alter x1 p x2 f h : NoDup (x1 ++ p :: x2) → unlinked x1 x2 (alter f p h) = alter f p (unlinked x1 x2 h).
Proof. intros [H1 H2]%ends_distinct. unfold unlinked. by rewrite !alter_opt_comm. Qed.

Lemma hd_middle (x1 : list ptr) p x2 : NoDup (x1 ++ p :: x2) → hd_or (x1 ++ p :: x2) None = Some p ↔ x1 = [].
Proof.
  intros (_ & Hd & _)%NoDup_app. destruct x1 as [|y x1]; [done|]. split; [|done]. intros [= ->]. exfalso. eapply Hd; by left.
Qed.
Lemma last_middle (x1 : list ptr) p x2 : NoDup (x1 ++ p :: x2) → last_or None (x1 ++ p :: x2) = Some p ↔ x2 = [].
Proof.
  intros (_ & _ & [Hp _]%NoDup_cons)%NoDup_app. rewrite last_or_app. split; [|by intros ->]. rewrite last_or_cons. destruct x2 as [|y x2]; [done|].
  rewrite last_or_cons. intros E. destruct Hp. unfold last_or in E. destruct (last x2) as [z|] eqn:Hz; [|injection E as ->; by left].
  injection E as ->. right. apply last_Some in Hz as [k ->]. set_solver.
Qed.

Lemma unset_links_run m l x1 p x2 vs K : elems (eheap m) l (x1 ++ p :: x2) vs K →
  unset_links p l m = OK (mkList (hd_or (x1 ++ x2) None) (last_or None (x1 ++ x2)) (l_count l - 1), set_eheap (unlinked x1 x2 (eheap m)) m).
Proof.
  intros HE. pose proof (el_nodup _ _ _ _ _ HE) as Hnd. destruct (ends_distinct _ _ _ Hnd) as [Hn1 Hn2].
  destruct (elems_element _ _ _ _ _ _ _ HE) as (x & Hx & Hp & Hn & _).
  assert (∀ y, y ∈ x1 ++ x2 → is_Some (eheap m !! y)) as Hlive by (intros y Hy; eapply elems_live; [exact HE|set_solver]).
  unfold unset_links, ederef, estore_opt. rewrite Hx. ob. rewrite Hp, Hn.
  rewrite estore_opt_live by (intros y Hy%last_or_elem; apply Hlive; set_solver). ob. simpl eheap. rewrite alter_opt_ne, Hx by done. ob. rewrite Hp, Hn.
  rewrite estore_opt_live by (intros y Hy%hd_or_elem; simpl; destruct (Hlive y) as [z Hz]; [set_solver|]; apply (fmap_is_Some (λ _, ())); rewrite alter_opt_fmap by done; by rewrite Hz).
  ob. simpl eheap. rewrite !alter_opt_ne, Hx by done. ob. rewrite Hp, Hn. f_equal. f_equal.
  pose proof (el_head _ _ _ _ _ HE) as Hh. pose proof (el_tail _ _ _ _ _ HE) as Ht. destruct l as [lh lt lc]. cbn [l_head l_tail l_count] in *. subst lh lt.
  destruct (decide (hd_or (x1 ++ p :: x2) None = Some p)) as [E1|E1]; cbn [l_head l_tail l_count set_lhead];
    (destruct (decide (last_or None (x1 ++ p :: x2) = Some p)) as [E2|E2]; cbn [l_head l_tail l_count set_lhead set_ltail set_lcount]).
  - apply (hd_middle _ _ _ Hnd) in E1 as ->. apply (last_middle [] _ _ Hnd) in E2 as ->. done.
  - apply (hd_middle _ _ _ Hnd) in E1 as ->. cbn [app] in *. unfold set_lcount. cbn [l_head l_tail l_count]. rewrite last_or_cons. destruct x2; [by destruct E2|]. by rewrite !last_or_cons.
  - apply (last_middle _ _ _ Hnd) in E2 as ->. unfold set_lcount. cbn [l_head l_tail l_count]. rewrite app_nil_r, hd_or_app. destruct x1; [by destruct E1|done].
  - assert (x1 ≠ [] ∧ x2 ≠ []) as [? ?] by (split; intros ->; [by destruct E1|destruct E2; by rewrite last_or_snoc]).
    unfold set_lcount. cbn [l_head l_tail l_count]. rewrite !hd_or_app, !last_or_app, last_or_cons. destruct x1, x2; try done. by rewrite !last_or_cons.
Qed.

Definition unset_cur (c : cursor) (p : ptr) : cursor := if decide (c_ptr c = Some p) then mkCursor None (c_pos c) else c.
(** The part of offsetUnset after the links. *)
Definition unset_rest p (o : spl_dllist_object) (m : dmem) : outcome (dret * spl_dllist_object * dmem) :=
  let* m := spl_ptr_llist_zval_dtor p m in
  let* (o, m) :=
    if decide (c_ptr (cur o) = Some p) then let* m := SPL_LLIST_DELREF p m in OK (set_cur (mkCursor None (c_pos (cur o))) o, m) else OK (o, m) in
  let* e := ederef m p in
  let* z := rd (e_data e) in
  let* m := zval_ptr_dtor z m in
  let* m := estore m p (set_edata None) in
  let* m := SPL_LLIST_DELREF p m in
  OK (RNull, o, m).

(** A reference of the object's cursor to the element goes first. *)
Lemma own_ref h l xs vs K c p : elems h l xs vs (plus1 (c_ptr c) K) → (∀ q, 0 ≤ K q) → p ∈ xs →
  let h0 := if decide (c_ptr c = Some p) then alter (set_rc (1 + K p)) p h else h in
  elems h0 l xs vs (plus1 (c_ptr (unset_cur c p)) K) ∧ plus1 (c_ptr (unset_cur c p)) K p = K p ∧ ∀ q, ddata h0 q = ddata h q.
Proof.
  intros HE HK Hp. unfold unset_cur. case_decide as Hc; simpl.
  - rewrite Hc in HE. destruct (elems_live _ _ _ _ _ HE p Hp) as [x Hx]. pose proof (elems_rc _ _ _ _ _ HE _ _ Hx) as Hrc. rewrite plus1_same in Hrc.
    unfold member in Hrc. rewrite decide_True in Hrc by done. assert (dropped p (e_rc x - 1) h = alter (set_rc (1 + K p)) p h) as E.
    { unfold dropped. specialize (HK p). rewrite (proj2 (Z.eqb_neq _ _)) by lia. f_equal. f_equal. lia. }
    rewrite <- E. split; [|split].
    + apply (elems_frame (dropped p (e_rc x - 1) h) _ _ _ _ K); [by apply elems_delref|done| |].
      * intros q. unfold plus1. rewrite decide_False by done. specialize (HK q). lia.
      * intros q. rewrite plus1_ne by done. by apply (elems_delref _ _ _ _ _ _ _ HE HK Hx).
    + by apply plus1_ne.
    + intros q. apply dropped_data. intros _. specialize (HK p). lia.
  - split; [done|]. split; [by apply plus1_ne|done].
Qed.

Lemma unset_rest_spec m l x1 p x2 v1 v v2 K e o : rep m l (x1 ++ p :: x2) (v1 ++ v :: v2) (plus1 (c_ptr (cur o)) K) e → (∀ q, 0 ≤ K q) → length x1 = length v1 →
  ∃ m', unset_rest p o (set_eheap (unlinked x1 x2 (eheap m)) m) = OK (RNull, set_cur (unset_cur (cur o) p) o, m') ∧
    rep m' (mkList (hd_or (x1 ++ x2) None) (last_or None (x1 ++ x2)) (l_count l - 1)) (x1 ++ x2) (v1 ++ v2) (plus1 (c_ptr (unset_cur (cur o) p)) K) e ∧
    ∀ a b, counted (plus1 (c_ptr (unset_cur (cur o) p)) K) a → cur_rel (eheap m) (x1 ++ p :: x2) a b → cur_rel (eheap m') (x1 ++ x2) a (follow_remove (length x1) b).
Proof.
  intros (HE & Hr & He) HK Hlen. pose proof (el_nodup _ _ _ _ _ HE) as Hnd. destruct (elems_element _ _ _ _ _ _ _ HE) as (x & Hx & _ & _ & Hrc & Hd).
  assert (e_data x = Some v) as Hv by (apply Hd, list_lookup_middle; lia).
  destruct (own_ref _ _ _ _ _ (cur o) p HE HK ltac:(set_solver)) as (HE0 & HKp & Hd0). set (h0 := if decide _ then _ else _) in *.
  assert (∃ x0, h0 !! p = Some x0 ∧ e_data x0 = Some v ∧ e_rc x0 = 1 + K p) as (x0 & Hx0 & Hv0 & Hrc0).
  { subst h0. unfold plus1 in Hrc. case_decide; [|exists x; split_and!; [done..|lia]]. rewrite lookup_alter_eq, Hx. eexists. split; [reflexivity|]. simpl. done. }
  destruct (dtor_refs m _ v Hr) as (r1 & Hdt1 & Hr1); [by apply occ_middle|]. destruct (dtor_refs (set_zrefs r1 m) _ v Hr1) as (r2 & Hdt2 & Hr2).
  { rewrite bump_same, occ_app. simpl. rewrite decide_True by done. specialize (He v). pose proof (occ_nonneg v v1). pose proof (occ_nonneg v v2). lia. }
  assert (∀ h, zval_ptr_dtor v (set_eheap h m) = OK (mkMem h r1)) as Hz1 by (intros h; revert Hdt1; unfold zval_ptr_dtor, set_zrefs, set_eheap; simpl; destruct (rd _); simpl; [|done..]; by intros [= ->]).
  assert (∀ h, zval_ptr_dtor v (mkMem h r1) = OK (mkMem h r2)) as Hz2 by (intros h; revert Hdt2; unfold zval_ptr_dtor, set_zrefs, set_eheap; simpl; destruct (rd _); simpl; [|done..]; by intros [= ->]).
  exists (mkMem (removed x1 p x2 (K p) h0) r2). split; [|split].
  - unfold unset_rest, spl_ptr_llist_zval_dtor, ederef. simpl eheap. rewrite unlinked_same, Hx by done. ob. rewrite Hv, Hz1. ob.
    assert ((if decide (c_ptr (cur o) = Some p) then let* m0 := SPL_LLIST_DELREF p (mkMem (unlinked x1 x2 (eheap m)) r1) in OK (set_cur (mkCursor None (c_pos (cur o))) o, m0)
      else OK (o, mkMem (unlinked x1 x2 (eheap m)) r1)) = OK (set_cur (unset_cur (cur o) p) o, mkMem (unlinked x1 x2 h0) r1)) as ->.
    { unfold unset_cur. subst h0. case_decide as Hc; [|by destruct o]. rewrite (delref_run _ _ x) by (simpl; by rewrite unlinked_same). ob. simpl. f_equal. f_equal.
      unfold dropped, set_eheap. rewrite unlinked_alter by done. rewrite Hc, plus1_same in Hrc. specialize (HK p). rewrite (proj2 (Z.eqb_neq _ _)) by lia.
      replace (e_rc x - 1) with (1 + K p) by lia. done. }
    ob. simpl eheap. rewrite unlinked_same, Hx0 by done. ob. rewrite Hv0. ob. rewrite Hz2. ob. rewrite estore_alive by (simpl; by rewrite unlinked_same, Hx0). ob.
    rewrite (delref_run _ _ (set_edata None x0)) by (simpl; by rewrite lookup_alter_eq, unlinked_same, Hx0). ob. simpl. unfold removed. replace (e_rc x0 - 1) with (K p) by lia. done.
  - split; [|split; [|done]].
    + simpl. rewrite <- HKp. by eapply elems_remove.
    + eapply refs_ext; [|exact Hr2]. intros z. unfold bump. rewrite !occ_app. simpl. repeat case_decide; congruence || lia.
  - intros a b Ha Hb. simpl. rewrite <- HKp. eapply cur_removed; [exact HE0|done|done|]. eapply cur_data; [|exact Hb]. intros q _. apply Hd0.
Qed.

(** The part of offsetSet after the search. *)
Definition set_rest p value (o : spl_dllist_object) (m : dmem) : outcome (dret * spl_dllist_object * dmem) :=
  let* m := spl_ptr_llist_zval_dtor p m in
  let* e := ederef m p in
  let* old := rd (e_data e) in
  let* m := zval_ptr_dtor old m in
  let* m := estore m p (set_edata (Some value)) in
  let* m := spl_ptr_llist_zval_ctor p m in
  OK (RNull, o, m).

Lemma elems_set h l x1 p x2 v1 v v2 w K : elems h l (x1 ++ p :: x2) (v1 ++ v :: v2) K → length x1 = length v1 →
  elems (alter (set_edata (Some w)) p h) l (x1 ++ p :: x2) (v1 ++ w :: v2) K.
Proof.
  intros HE Hlen. pose proof (el_nodup _ _ _ _ _ HE) as Hnd. destruct (elems_live _ _ _ _ _ HE p) as [x Hx]; [set_solver|].
  assert (∀ q, q ≠ p → ddata (alter (set_edata (Some w)) p h) q = ddata h q) as Hne by (intros q Hq; unfold ddata; by rewrite lookup_alter_ne).
  assert ((p ∉ x1) ∧ (p ∉ x2)) as [Hp1 Hp2]. { apply NoDup_app in Hnd as (_ & Hd & [? _]%NoDup_cons). split; [intros ?; eapply Hd; [done|by left]|done]. }
  split; try apply HE.
  - eapply dseg_ext; [|apply HE]. intros q _. unfold dview. rewrite lookup_alter. case_decide; [|done]. subst. by rewrite Hx.
  - pose proof (el_data _ _ _ _ _ HE) as Hd. apply Forall2_app_inv in Hd as [Hd1 Hd2]; [|done]. apply Forall2_cons in Hd2 as [_ Hd2].
    apply Forall2_app; [|constructor; [unfold ddata; by rewrite lookup_alter_eq, Hx|]]; rewrite Forall2_same_length_lookup in *;
      (split; [naive_solver|]); intros i q y Hi Hy; (rewrite Hne; [naive_solver|]); intros ->; apply list_elem_of_lookup_2 in Hi; done.
  - rewrite (el_count _ _ _ _ _ HE), !length_app. done.
  - pose proof (el_max _ _ _ _ _ HE) as Hm. rewrite !length_app in *. done.
  - intros q. rewrite <- (el_rc _ _ _ _ _ HE), lookup_alter. case_decide; [|done]. subst. by rewrite Hx.
Qed.

Lemma set_rest_spec m l x1 p x2 v1 v v2 w K e o : rep m l (x1 ++ p :: x2) (v1 ++ v :: v2) K (bump e w 1) → (∀ z, 0 ≤ e z) → length x1 = length v1 →
  ∃ m', set_rest p w o m = OK (RNull, o, m') ∧ rep m' l (x1 ++ p :: x2) (v1 ++ w :: v2) K e ∧
    ∀ a b, cur_rel (eheap m) (x1 ++ p :: x2) a b → cur_rel (eheap m') (x1 ++ p :: x2) a b.
Proof.
  intros (HE & Hr & He') He Hlen. destruct (elems_element _ _ _ _ _ _ _ HE) as (x & Hx & _ & _ & _ & Hd).
  assert (e_data x = Some v) as Hv by (apply Hd, list_lookup_middle; lia).
  destruct (dtor_refs m _ v Hr) as (r1 & Hd1 & Hr1); [by apply occ_middle|]. destruct (dtor_refs (set_zrefs r1 m) _ v Hr1) as (r2 & Hd2 & Hr2).
  { rewrite bump_same, occ_app. simpl. rewrite decide_True by done. specialize (He' v). pose proof (occ_nonneg v v1). pose proof (occ_nonneg v v2). lia. }
  set (h' := alter (set_edata (Some w)) p (eheap m)).
  destruct (addref_refs (mkMem h' r2) _ w Hr2) as (r3 & Hd3 & Hr3).
  { unfold bump. rewrite !occ_app. simpl. rewrite (decide_True _ _ (eq_refl w)). specialize (He w). pose proof (occ_nonneg w v1). pose proof (occ_nonneg w v2). repeat case_decide; lia. }
  exists (mkMem h' r3). split; [|split].
  - unfold set_rest, spl_ptr_llist_zval_dtor, ederef. rewrite Hx. ob. rewrite Hv, Hd1. ob. simpl eheap. rewrite Hx. ob. rewrite Hv. ob. rewrite Hd2. ob.
    rewrite estore_alive by (simpl; by rewrite Hx). ob. rewrite (ctor_run _ p (set_edata (Some w) x) w) by (simpl; rewrite ?lookup_alter_eq, ?Hx; done).
    change (set_eheap _ _) with (mkMem h' r2). rewrite Hd3. ob. done.
  - split; [by eapply elems_set|]. split; [|done]. eapply refs_ext; [|exact Hr3]. intros z. unfold bump. rewrite !occ_app. simpl. repeat case_decide; congruence || lia.
  - intros a b Hb. destruct a as [q|], b as [|i|]; try done. simpl in *. destruct Hb as [Hq Hdq]. split; [done|].
    unfold h', ddata. rewrite lookup_alter_ne; [done|]. intros ->. set_solver.
Qed.

Lemma insert_before_spec `{PEMalloc} m o x1 p x2 v1 v v2 K e : rep m (llist o) (x1 ++ p :: x2) (v1 ++ v2) K (bump e v 1) → (∀ z, 0 ≤ e z) → length x1 = length v1 →
  Z.of_nat (length (v1 ++ v2)) < INT_MAX →
  ∃ q m' l', insert_before p v o m = OK (set_llist l' o, m') ∧ with_new x1 q (p :: x2) m v1 v v2 K e l' m'.
Proof.
  intros HR He Hlen Hmax. pose proof HR as (HE & _). exists (pemalloc (dom (eheap m))). set (q := pemalloc _).
  pose proof (new_fresh (eheap m)) as Hq. fold q in Hq. destruct (elems_element _ _ _ _ _ _ _ HE) as (x & Hx & Hp & _). assert (q ≠ p) as Hqp by congruence.
  destruct (ends_distinct _ _ _ (el_nodup _ _ _ _ _ HE)) as [Hn1 _].
  unfold insert_before, new_element. fold q. unfold ederef. simpl eheap. rewrite lookup_insert_ne, Hx by done. ob. rewrite Hp.
  rewrite estore_alive by (simpl; by rewrite lookup_insert_eq). ob. simpl set_eheap. unfold set_eheap. cbn [eheap zrefs].
  assert (alter (λ x, set_eprev (last_or None x1) (set_enext (Some p) x)) q (<[q := mkElement None None 1 (Some v)]> (eheap m)) =
    <[q := mkElement (last_or None x1) (Some p) 1 (Some v)]> (eheap m)) as -> by (by rewrite alter_insert_eq).
  set (h1 := <[q := _]> (eheap m)). set (l1 := mkList (hd_or (x1 ++ q :: p :: x2) None) (l_tail (llist o)) (l_count (llist o))).
  assert (match last_or None x1 with None => OK (set_lhead (Some q) (llist o), mkMem h1 (zrefs m)) | Some p => let* m := estore (mkMem h1 (zrefs m)) p (set_enext (Some q)) in OK (llist o, m) end =
    OK (l1, mkMem (alter_opt (last_or None x1) (set_enext (Some q)) h1) (zrefs m))) as ->.
  { unfold l1. destruct (last_or None x1) as [y|] eqn:Hy.
    - apply last_or_elem in Hy as Hin. destruct (elems_live _ _ _ _ _ HE y) as [z Hz]; [set_solver|].
      rewrite estore_alive by (simpl; unfold h1; rewrite lookup_insert_ne by congruence; by rewrite Hz). ob. pose proof (el_head _ _ _ _ _ HE) as Hh. destruct (llist o). simpl in *. subst.
      destruct x1; [done|]. done.
    - apply last_or_None_nil in Hy as ->. done. }
  ob. rewrite estore_alive by (simpl; rewrite alter_opt_ne by done; unfold h1; rewrite lookup_insert_ne by done; by rewrite Hx). ob. simpl set_eheap. unfold set_eheap. cbn [eheap zrefs].
  destruct (with_new_run m (mkMem (inserted x1 q (p :: x2) v (eheap m)) (zrefs m)) (llist o) l1 x1 q (p :: x2) v1 v v2 K e) as (m' & l' & Hrun & HW); try done.
  { unfold l1. f_equal. rewrite (el_tail _ _ _ _ _ HE), !last_or_app, !last_or_cons. done. }
  exists m', l'. split; [|done]. unfold inserted in Hrun. simpl in Hrun. fold h1 in Hrun.
  destruct (count_up l1) as [l2| |]; cbn [obind] in Hrun |- *; [|done..]. destruct (spl_ptr_llist_zval_ctor q _); cbn [obind] in Hrun |- *; [|done..]. injection Hrun as -> ->. done.
Qed.

(** ** Destroying and cloning *)

Lemma pop_all_spec m l xs vs K e fuel : rep m l xs vs K e → (length vs ≤ fuel)%nat →
  ∃ m' l', pop_all fuel l m = OK (l', m') ∧ rep m' l' [] [] K e ∧ ∀ q, q ∉ xs → eheap m' !! q = eheap m !! q.
Proof.
  revert m l xs fuel. induction vs as [|v vs IH] using rev_ind; intros m l xs fuel HR Hf.
  - pose proof HR as (HE & _). exists m, l. pose proof (el_count _ _ _ _ _ HE) as Hc. simpl in Hc.
    assert (xs = []) as -> by (destruct xs; [done|]; by apply elems_length in HE). split; [|done]. by destruct fuel; simpl; rewrite Hc.
  - pose proof HR as (HE & _ & He). pose proof (elems_length _ _ _ _ _ HE) as Hl. rewrite length_app in *. simpl in *.
    destruct xs as [|p xs _] using rev_ind; [simpl in Hl; lia|]. destruct fuel as [|fuel]; [lia|]. simpl.
    rewrite (proj2 (Z.ltb_lt _ _)) by (rewrite (el_count _ _ _ _ _ HE), length_app; simpl; lia).
    destruct (dl_pop_spec _ _ _ _ _ _ _ _ HR) as (m1 & l1 & -> & Hh & HR1 & _). ob. rewrite !app_nil_r in HR1.
    destruct (rep_drop _ _ _ _ _ _ _ HR1 He) as (r & -> & HR2). ob. destruct (IH _ _ _ fuel HR2) as (m' & l' & Hrun & HR' & Hsame); [lia|].
    exists m', l'. split; [done|]. split; [done|]. intros q Hq. rewrite Hsame by set_solver. simpl. rewrite Hh, removed_ne by set_solver.
    apply unlinked_out. rewrite app_nil_r. set_solver.
Qed.

Lemma delref_frame o m m' q : SPL_LLIST_CHECK_DELREF o m = OK m' → o ≠ Some q → eheap m' !! q = eheap m !! q.
Proof.
  destruct o as [p|]; simpl; [|by intros [= ->]]. intros Hrun Hne. destruct (eheap m !! p) as [x|] eqn:Hx.
  - rewrite (delref_run _ _ _ Hx) in Hrun. injection Hrun as <-. apply dropped_ne. congruence.
  - unfold SPL_LLIST_DELREF, ederef in Hrun. by rewrite Hx in Hrun.
Qed.

(** Everything the object held is given back. *)
Lemma free_storage_spec m o xs vs K e : rep m (llist o) xs vs (plus1 (c_ptr (cur o)) K) e → (∀ p, 0 ≤ K p) →
  ∃ m', spl_dllist_object_free_storage o m = OK m' ∧ rep m' spl_ptr_llist_init [] [] K e ∧
    ∀ q, q ∉ xs → c_ptr (cur o) ≠ Some q → eheap m' !! q = eheap m !! q.
Proof.
  intros HR HK. pose proof HR as (HE & _). pose proof (elems_length _ _ _ _ _ HE). pose proof (elems_fuel _ _ _ _ _ HE).
  destruct (pop_all_spec _ _ _ _ _ _ (lfuel m) HR) as (m1 & l1 & Hrun & HR1 & Hsame); [unfold lfuel; lia|]. unfold spl_dllist_object_free_storage. rewrite Hrun. ob.
  pose proof HR1 as (HE1 & _). unfold spl_ptr_llist_destroy, lfuel. rewrite (el_head _ _ _ _ _ HE1). cbn [hd_or destroy_loop obind].
  destruct (switch_spec _ _ _ _ _ _ _ None HR1 HK) as (h' & Hsw & (HE' & Hr' & He') & _); [done|].
  specialize (Hsw _ OK). cbn [SPL_LLIST_CHECK_ADDREF obind] in Hsw. exists (set_eheap h' m1).
  destruct (SPL_LLIST_CHECK_DELREF _ m1) as [m2| |] eqn:Hm2; cbn [obind] in Hsw; [|done..]. split; [done|]. injection Hsw as ->.
  split; [|intros q Hq Hc; rewrite (delref_frame _ _ _ _ Hm2 Hc); by apply Hsame]. split; [|done].
  destruct l1 as [lh lt lc]. pose proof (el_head _ _ _ _ _ HE1) as E1. pose proof (el_tail _ _ _ _ _ HE1) as E2. pose proof (el_count _ _ _ _ _ HE1) as E3.
  simpl in E1, E2, E3. subst. apply (elems_frame h' _ _ _ _ (plus1 None K)); [done..|]. intros p. rewrite (el_rc _ _ _ _ _ HE'), plus1_ne by done. done.
Qed.

(** A clone shares the values and has elements of its own. *)
Definition shared (m : dmem) l1 xs l2 ys vs1 vs2 K e : Prop :=
  rep m l1 xs vs1 (λ p, K p + member ys p) (λ z, e z + 2 * occ z vs2) ∧
  rep m l2 ys vs2 (λ p, K p + member xs p) (λ z, e z + 2 * occ z vs1) ∧ (∀ p, p ∈ xs → p ∉ ys).

Lemma copy_step `{PEMalloc} m from xs to ys vs v ws K e : shared m from xs to ys vs ws K e → (∀ p, 0 ≤ K p) → (∀ z, 0 ≤ e z) → v ∈ vs →
  Z.of_nat (length ws) < INT_MAX →
  ∃ q m' to', (let* m := Z_ADDREF_P v m in spl_ptr_llist_push to v m) = OK (to', m') ∧ shared m' from xs to' (ys ++ [q]) vs (ws ++ [v]) K e ∧
    ∀ p, p ∉ ys → is_Some (eheap m !! p) → (p ∉ ys ++ [q]) ∧ eheap m' !! p = eheap m !! p.
Proof.
  intros (HF & HT & Hd) HK He Hv Hmax. destruct (rep_addref _ _ _ _ _ _ v HT (rep_refs_live _ _ _ _ _ _ _ HF Hv)) as (r & -> & HT1). ob.
  destruct (dl_push_spec _ _ _ _ _ _ _ HT1) as (q & m' & to' & -> & Hq & Hh & HT2); [intros z; specialize (He z); pose proof (occ_nonneg z vs); lia|done|].
  simpl in Hq, Hh. exists q, m', to'. split; [done|]. destruct HF as (HE & Hr & _).
  assert (q ∉ xs) as Hqx by (intros Hin; destruct (elems_live _ _ _ _ _ HE q Hin); congruence).
  assert (∀ p, p ∉ ys → is_Some (eheap m !! p) → (p ∉ ys ++ [q]) ∧ eheap m' !! p = eheap m !! p) as Hframe.
  { intros p Hp [x Hx]. assert (p ∉ ys ++ [q]) as Hpq by (intros [?|E%list_elem_of_singleton]%elem_of_app; [done|congruence]).
    split; [done|]. rewrite Hh. by apply inserted_out. }
  assert (∀ p, p ∈ xs → eheap m' !! p = eheap m !! p) as Hsame by (intros p Hp; apply Hframe; [by apply Hd|by eapply elems_live]).
  split; [|done]. split; [|split; [exact HT2|set_solver]]. split; [|split; [|intros z; specialize (He z); pose proof (occ_nonneg z (ws ++ [v])); lia]].
  - apply (elems_frame (eheap m) _ _ _ _ _ _ HE).
    + intros p Hp. unfold dview, ddata. by rewrite Hsame.
    + intros p. specialize (HK p). unfold member. case_decide; lia.
    + intros p. destruct HT2 as (HE2 & _). rewrite (el_rc _ _ _ _ _ HE2). f_equal. lia.
  - destruct HT2 as (_ & Hr2 & _). eapply refs_ext; [|exact Hr2]. intros z. simpl. lia.
Qed.

Lemma copy_loop_spec `{PEMalloc} m from x1 x2 to ys v1 v2 K e fuel : shared m from (x1 ++ x2) to ys (v1 ++ v2) v1 K e → (∀ p, 0 ≤ K p) → (∀ z, 0 ≤ e z) →
  length x1 = length v1 → (length x2 ≤ fuel)%nat →
  ∃ m' to' ys', copy_loop fuel (hd_or x2 None) to m = OK (to', m') ∧ shared m' from (x1 ++ x2) to' ys' (v1 ++ v2) (v1 ++ v2) K e ∧
    ∀ p, p ∉ ys → is_Some (eheap m !! p) → (p ∉ ys') ∧ eheap m' !! p = eheap m !! p.
Proof.
  revert m x1 to ys v1 v2 fuel. induction x2 as [|p x2 IH]; intros m x1 to ys v1 v2 fuel HS HK He Hlen Hf; pose proof HS as ((HE & _) & _ & _);
    pose proof (elems_length _ _ _ _ _ HE) as Hl; rewrite !length_app in Hl.
  - destruct v2; [|simpl in Hl; lia]. rewrite app_nil_r in HS |- *. exists m, to, ys. split; [by destruct fuel|]. split; [by rewrite app_nil_r in *|done].
  - destruct v2 as [|v v2]; [simpl in Hl; lia|]. destruct fuel as [|fuel]; [simpl in Hf; lia|].
    destruct (elems_element _ _ _ _ _ _ _ HE) as (x & Hx & _ & Hn & _ & Hd). assert (e_data x = Some v) as Hv by (apply Hd, list_lookup_middle; lia).
    pose proof (el_max _ _ _ _ _ HE) as Hmax. rewrite length_app in Hmax. simpl in Hmax.
    destruct (copy_step m from _ to ys _ v v1 K e HS HK He) as (q & m' & to' & Hrun & HS' & Hframe); [set_solver|lia|].
    simpl. unfold ederef. rewrite Hx. ob. rewrite (ctor_run _ _ _ v Hx Hv), Hv. cbn [obind rd].
    destruct (Z_ADDREF_P v m) as [m1| |]; cbn [obind] in Hrun |- *; [|done..]. rewrite Hrun. ob. rewrite Hn.
    replace (x1 ++ p :: x2) with ((x1 ++ [p]) ++ x2) in * by by rewrite <- app_assoc. replace (v1 ++ v :: v2) with ((v1 ++ [v]) ++ v2) in * by by rewrite <- app_assoc.
    destruct (IH m' (x1 ++ [p]) to' (ys ++ [q]) (v1 ++ [v]) v2 fuel HS' HK He) as (m2 & to2 & ys2 & Hrun2 & HS2 & Hframe2); [rewrite !length_app; simpl; lia|simpl in Hf; lia|].
    exists m2, to2, ys2. split; [done|]. split; [done|]. intros y Hy Hlive. destruct (Hframe y Hy Hlive) as [Hy' E]. rewrite <- E in Hlive |- *. by apply Hframe2.
Qed.

Lemma empty_rep m l xs vs K e : rep m l xs vs K e → rep m spl_ptr_llist_init [] [] (λ p, K p + member xs p) (λ z, e z + 2 * occ z vs).
Proof.
  intros (HE & Hr & He). split; [|split].
  - split; try done; [apply NoDup_nil_2| |].
    + intros p. pose proof (el_K _ _ _ _ _ HE p). unfold member. case_decide; lia.
    + intros p. rewrite (el_rc _ _ _ _ _ HE). f_equal. unfold member at 2. simpl. lia.
  - eapply refs_ext; [|exact Hr]. intros z. simpl. lia.
  - intros z. specialize (He z). pose proof (occ_nonneg z vs). lia.
Qed.

Lemma dl_copy_spec `{PEMalloc} m from xs vs K e : rep m from xs vs K e →
  ∃ m' to ys, spl_ptr_llist_copy from spl_ptr_llist_init m = OK (to, m') ∧ shared m' from xs to ys vs vs K e ∧
    ∀ p, is_Some (eheap m !! p) → (p ∉ ys) ∧ eheap m' !! p = eheap m !! p.
Proof.
  intros HR. pose proof HR as (HE & Hr & He). unfold spl_ptr_llist_copy, lfuel. rewrite (el_head _ _ _ _ _ HE).
  pose proof (elems_fuel _ _ _ _ _ HE).
  destruct (copy_loop_spec m from [] xs spl_ptr_llist_init [] [] vs K e (S (size (eheap m)))) as (m' & to & ys & Hrun & HS & Hframe); [|apply HE|done|done|lia|].
  2: { exists m', to, ys. split; [done|]. split; [done|]. intros p Hp. by apply Hframe; [apply not_elem_of_nil|]. }
  split; [|split; [by eapply empty_rep|intros p _; apply not_elem_of_nil]]. split; [|split].
  - apply (elems_frame (eheap m) _ _ _ _ K); [done..| |].
    + intros p. pose proof (el_K _ _ _ _ _ HE p). unfold member. simpl. lia.
    + intros p. rewrite (el_rc _ _ _ _ _ HE). f_equal. unfold member at 3. simpl. lia.
  - eapply refs_ext; [|exact Hr]. intros z. simpl. lia.
  - intros z. specialize (He z). simpl. lia.
Qed.
