(* ===== verification/SplDllistProps.v ===== *)
(** What a SplDoublyLinkedList promises, a sequence of values with a cursor,
    and the theorems that its methods and iterators keep the promise. *)

From S2P Require Import Prelude OrderedDict Dll Symtable ZendHashDict SplIterators SplDllist SplDllistSpec.

(** * The specification *)

Record aseq := mkSeq { a_vals : list zval; a_cur : acur; a_pos : Z; a_flags : Z }.

Inductive dl_op :=
  | Push (v : zval) (is_ref : bool) | Unshift (v : zval) (is_ref : bool) | Pop | Shift | Top | Bottom | Count | IsEmpty
  | SetMode (f : Z) | GetMode
  | Exists (i : zoffset) | Get (i : zoffset) | SetAt (i : zoffset) (v : zval) (is_ref : bool) | Unset (i : zoffset) | AddAt (i : zoffset) (v : zval)
  | Rewind | Next | Prev | Valid | Key | Current.

(** The new values and how cursors follow the change; the own cursor of the
    object follows, too. *)
Definition upd (s : aseq) (vs : list zval) (fl : acur → acur) : aseq := mkSeq vs (fl (a_cur s)) (a_pos s) (a_flags s).
Definition place (s : aseq) (a : acur) (pos : Z) : aseq := mkSeq (a_vals s) a pos (a_flags s).

Definition index_of (i : zoffset) : Z := match spl_offset_convert_to_long i with OK n => n | _ => -1 end.
Definition in_range (i : Z) (vs : list zval) : bool := (0 <=? i) && (i <? Z.of_nat (length vs)).
(** Where the value with index [i] is: a stack counts from its end. *)
Definition at_index (s : aseq) (i : Z) : nat :=
  if lifo (a_flags s) then (length (a_vals s) - 1 - Z.to_nat i)%nat else Z.to_nat i.

Definition insert_at (s : aseq) (j : nat) (w : zval) : aseq * (acur → acur) :=
  (upd s (take j (a_vals s) ++ w :: drop j (a_vals s)) (follow_insert j), follow_insert j).
Definition remove_at (s : aseq) (j : nat) : aseq * (acur → acur) :=
  (upd s (delete j (a_vals s)) (follow_remove j), follow_remove j).

Definition arewind (s : aseq) : aseq :=
  let n := length (a_vals s) in
  if lifo (a_flags s) then place s (match n with O => ANone | S k => AAt k end) (Z.of_nat n - 1)
  else place s (match n with O => ANone | S _ => AAt 0 end) 0.
Definition amove_seq (f : Z) (s : aseq) : aseq * (acur → acur) :=
  let '(a, pos, vs, fl) := amove f (a_vals s) (a_cur s) (a_pos s) in (mkSeq vs a pos (a_flags s), fl).

(** The result of an operation, the sequence after it, and how other cursors
    follow; [w] is what a variable is stored as. *)
Definition dl_spec (op : dl_op) (w : zval) (s : aseq) : dret * aseq * (acur → acur) :=
  let vs := a_vals s in
  let n := length vs in
  let ret r (x : aseq * (acur → acur)) := (r, x.1, x.2) in
  let same r := (r, s, id) in
  let peek o := same (match o with Some v => RZval v | None => RThrow RuntimeException end) in
  match op with
  | Push _ _ => ret (RBool true) (insert_at s n w)
  | Unshift _ _ => ret (RBool true) (insert_at s 0 w)
  | Pop => match last vs with None => same (RThrow RuntimeException) | Some v => ret (RZval v) (remove_at s (n - 1)) end
  | Shift => match head vs with None => same (RThrow RuntimeException) | Some v => ret (RZval v) (remove_at s 0) end
  | Top => peek (last vs)
  | Bottom => peek (head vs)
  | Count => same (RLong (Z.of_nat n))
  | IsEmpty => same (RBool (n =? 0)%nat)
  | SetMode f =>
      if negb (Z.land (a_flags s) SPL_DLLIST_IT_FIX =? 0) && negb (Bool.eqb (lifo (a_flags s)) (lifo f)) then same (RThrow RuntimeException)
      else (RLong (Z.land f SPL_DLLIST_IT_MASK), mkSeq vs (a_cur s) (a_pos s) (Z.land f SPL_DLLIST_IT_MASK), id)
  | GetMode => same (RLong (a_flags s))
  | Exists i => same (RBool (in_range (index_of i) vs))
  | Get i => same (match (if in_range (index_of i) vs then vs !! at_index s (index_of i) else None) with Some v => RZval v | None => RThrow OutOfRangeException end)
  | SetAt i _ _ =>
      match i with
      | IS_NULL_offset => ret RNull (insert_at s n w)
      | _ => if in_range (index_of i) vs then (RNull, upd s (<[at_index s (index_of i) := w]> vs) id, id) else same (RThrow OutOfRangeException)
      end
  | Unset i =>
      if in_range (index_of i) vs then
        let j := at_index s (index_of i) in
        let '(s', fl) := remove_at s j in
        (RNull, place s' (match a_cur s' with AGone => if decide (a_cur s = AAt j) then ANone else AGone | a => a end) (a_pos s'), fl)
      else same (RThrow OutOfRangeException)
  | AddAt i _ =>
      let i := index_of i in
      if i =? Z.of_nat n then ret RNull (insert_at s n w)
      else if in_range i vs then ret RNull (insert_at s (at_index s i) w) else same (RThrow OutOfRangeException)
  | Rewind => (RNull, arewind s, id)
  | Next => ret RNull (amove_seq (a_flags s) s)
  | Prev => ret RNull (amove_seq (Z.lxor (a_flags s) SPL_DLLIST_IT_LIFO) s)
  | Valid => same (RBool (match a_cur s with ANone => false | _ => true end))
  | Key => same (RLong (a_pos s))
  | Current => same (match a_cur s with AAt i => match vs !! i with Some v => RZval v | None => RNull end | _ => RNull end)
  end.



Section refinement.
Context `{PEMalloc}.
Implicit Types (o : spl_dllist_object) (m : dmem) (s : aseq).

Definition dl_do (op : dl_op) o m : outcome (dret * spl_dllist_object * dmem) :=
  match op with
  | Push v r => SplDoublyLinkedList_push v r o m
  | Unshift v r => SplDoublyLinkedList_unshift v r o m
  | Pop => SplDoublyLinkedList_pop o m
  | Shift => SplDoublyLinkedList_shift o m
  | Top => SplDoublyLinkedList_top o m
  | Bottom => SplDoublyLinkedList_bottom o m
  | Count => SplDoublyLinkedList_count o m
  | IsEmpty => SplDoublyLinkedList_isEmpty o m
  | SetMode f => SplDoublyLinkedList_setIteratorMode f o m
  | GetMode => SplDoublyLinkedList_getIteratorMode o m
  | Exists i => SplDoublyLinkedList_offsetExists i o m
  | Get i => SplDoublyLinkedList_offsetGet i o m
  | SetAt i v r => SplDoublyLinkedList_offsetSet i v r o m
  | Unset i => SplDoublyLinkedList_offsetUnset i o m
  | AddAt i v => SplDoublyLinkedList_add i v o m
  | Rewind => SplDoublyLinkedList_rewind o m
  | Next => SplDoublyLinkedList_next o m
  | Prev => SplDoublyLinkedList_prev o m
  | Valid => SplDoublyLinkedList_valid o m
  | Key => SplDoublyLinkedList_key o m
  | Current => SplDoublyLinkedList_current o m
  end.

(** A variable that is a reference is stored as a copy. *)
Definition stored (op : dl_op) (w : zval) m : Prop :=
  match op with
  | Push v r | Unshift v r | SetAt _ v r => if r then zrefs m !! w = None else w = v
  | AddAt _ v => w = v
  | _ => True
  end.
(** Values are live, the number of elements fits an int, strings end in a NUL;
    and a cursor whose element has left the list is not moved (see below). *)
Definition permitted (op : dl_op) s m : Prop :=
  match op with
  | Push v r | Unshift v r => (r = false → is_Some (zrefs m !! v)) ∧ Z.of_nat (length (a_vals s)) < INT_MAX
  | SetAt i v r => (r = false → is_Some (zrefs m !! v)) ∧ Z.of_nat (length (a_vals s)) < INT_MAX ∧ spl_offset_convert_to_long i = OK (index_of i)
  | AddAt i v => is_Some (zrefs m !! v) ∧ Z.of_nat (length (a_vals s)) < INT_MAX ∧ spl_offset_convert_to_long i = OK (index_of i)
  | Exists i | Get i | Unset i => spl_offset_convert_to_long i = OK (index_of i)
  | Next | Prev => a_cur s ≠ AGone
  | _ => True
  end.

(** The object is the sequence [s], its elements are [xs]; [K] counts the other
    references to elements (iterators, elements of other lists), [e] those to
    values. *)
Definition stands m o s xs K e : Prop :=
  rep m (llist o) xs (a_vals s) (plus1 (c_ptr (cur o)) K) e ∧ cur_rel (eheap m) xs (c_ptr (cur o)) (a_cur s) ∧
  c_pos (cur o) = a_pos s ∧ flags o = a_flags s ∧ ∀ p, 0 ≤ K p.

(** What an operation has to do. *)
Definition does (op : dl_op) o m s xs K e : Prop :=
  ∃ w r s' fl o' m' xs', stored op w m ∧ dl_do op o m = OK (r, o', m') ∧ dl_spec op w s = (r, s', fl) ∧ stands m' o' s' xs' K e ∧
    ∀ c a, counted K c → cur_rel (eheap m) xs c a → cur_rel (eheap m') xs' c (fl a).

(** An operation that changes nothing. *)
Lemma does_same op m o s xs K e w r : stands m o s xs K e → stored op w m → dl_do op o m = OK (r, o, m) → dl_spec op w s = (r, s, id) → does op o m s xs K e.
Proof. intros HS Hst Hdo Hsp. by exists w, r, s, id, o, m, xs. Qed.

(** ** Insertion *)

Lemma separate_spec m l xs vs K e is_ref v : rep m l xs vs K e → (is_ref = false → is_Some (zrefs m !! v)) →
  ∃ w r, separate_arg is_ref v m = OK (w, set_zrefs r m) ∧ rep (set_zrefs r m) l xs vs K (bump e w 1) ∧ (if is_ref then zrefs m !! w = None else w = v).
Proof.
  intros HR Hv. destruct is_ref; simpl.
  - destruct HR as (HE & Hr & He). set (p := pemalloc _). assert (zrefs m !! p = None) as Hp by apply not_elem_of_dom, pemalloc_fresh.
    eexists _, _. split; [reflexivity|]. split; [|done]. split; [done|]. split; [|by apply bump_nonneg]. simpl.
    destruct (Hr p) as [Hp0 Hp1]. rewrite Hp in Hp1. unfold present in Hp1. destruct (Z.eqb_spec (e p + 2 * occ p vs) 0) as [E|]; [|done].
    intros z. unfold bump. destruct (Hr z) as [Hz0 Hz1]. case_decide; subst.
    + rewrite lookup_insert_eq, present_some by lia. split; [lia|f_equal; lia].
    + rewrite lookup_insert_ne, Z.add_0_r by done. done.
  - destruct (rep_addref _ _ _ _ _ _ v HR (Hv eq_refl)) as (r & -> & HR'). ob. eexists _, _. done.
Qed.

Lemma stands_insert m m1 o s x1 q x2 v1 w v2 K e l' m' :
  cur_rel (eheap m) (x1 ++ x2) (c_ptr (cur o)) (a_cur s) → c_pos (cur o) = a_pos s → flags o = a_flags s → (∀ p, 0 ≤ K p) → a_vals s = v1 ++ v2 →
  length x1 = length v1 → eheap m1 = eheap m → with_new x1 q x2 m1 v1 w v2 (plus1 (c_ptr (cur o)) K) e l' m' →
  stands m' (set_llist l' o) (insert_at s (length v1) w).1 (x1 ++ q :: x2) K e ∧
  ∀ c a, counted K c → cur_rel (eheap m) (x1 ++ x2) c a → cur_rel (eheap m') (x1 ++ q :: x2) c (follow_insert (length v1) a).
Proof.
  intros Hc Hpos Hfl HK Hvs Hlen Hh (Hq & Hh' & HR). rewrite Hh in Hq, Hh'.
  assert (∀ c a, cur_rel (eheap m) (x1 ++ x2) c a → cur_rel (eheap m') (x1 ++ q :: x2) c (follow_insert (length v1) a)) as Hfol.
  { intros c a Ha. rewrite Hh', <- Hlen. by apply cur_inserted. }
  split; [|auto]. unfold stands, insert_at. simpl. rewrite Hvs, take_app_length, drop_app_length. auto.
Qed.

Lemma push_does m (r : dret) o s xs K e w z : stands m o s xs K e → Z.of_nat (length (a_vals s)) < INT_MAX →
  rep (set_zrefs z m) (llist o) xs (a_vals s) (plus1 (c_ptr (cur o)) K) (bump e w 1) →
  ∃ m' l' xs', (let* (l, m) := spl_ptr_llist_push (llist o) w (set_zrefs z m) in OK (r, set_llist l o, m)) = OK (r, set_llist l' o, m') ∧
    stands m' (set_llist l' o) (insert_at s (length (a_vals s)) w).1 xs' K e ∧
    ∀ c a, counted K c → cur_rel (eheap m) xs c a → cur_rel (eheap m') xs' c (follow_insert (length (a_vals s)) a).
Proof.
  intros ((HE & _ & He) & Hc & Hpos & Hfl & HK) Hmax HR. destruct (dl_push_spec _ _ _ _ _ _ _ HR He Hmax) as (q & m' & l' & -> & HW). ob.
  exists m', l', (xs ++ [q]). split; [done|]. pose proof (elems_length _ _ _ _ _ HE).
  pose proof (stands_insert m (set_zrefs z m) o s xs q [] (a_vals s) w [] K e l' m') as H'. rewrite !app_nil_r in H'. by apply H'.
Qed.

Lemma push_refines m o s xs K e v b : stands m o s xs K e → permitted (Push v b) s m → does (Push v b) o m s xs K e.
Proof.
  intros HS [Hv Hmax]. pose proof HS as (HR & _). destruct (separate_spec _ _ _ _ _ _ _ _ HR Hv) as (w & z & Hsep & HR1 & Hst).
  destruct (push_does m (RBool true) _ _ _ _ _ _ _ HS Hmax HR1) as (m' & l' & xs' & Hrun & HS' & Hfol).
  exists w, (RBool true). simpl dl_spec. simpl dl_do. unfold SplDoublyLinkedList_push. rewrite Hsep. ob. rewrite Hrun.
  do 5 eexists. do 3 (split; [done|]). by split; [exact HS'|].
Qed.

Lemma unshift_refines m o s xs K e v b : stands m o s xs K e → permitted (Unshift v b) s m → does (Unshift v b) o m s xs K e.
Proof.
  intros HS [Hv Hmax]. pose proof HS as (HR & Hc & Hpos & Hfl & HK). destruct (separate_spec _ _ _ _ _ _ _ _ HR Hv) as (w & z & Hsep & HR1 & Hst).
  destruct (unshift_spec _ _ _ _ _ _ _ HR1 (proj2 (proj2 HR)) Hmax) as (q & m' & l' & Hrun & HW).
  destruct (stands_insert m (set_zrefs z m) o s [] q xs [] w (a_vals s) K e l' m' Hc Hpos Hfl HK eq_refl eq_refl eq_refl HW) as [HS' Hfol].
  exists w, (RBool true). simpl dl_spec. simpl dl_do. unfold SplDoublyLinkedList_unshift. rewrite Hsep. ob. rewrite Hrun. ob.
  do 5 eexists. do 3 (split; [done|]). by split; [exact HS'|].
Qed.

(** ** Removal *)

Lemma stands_remove m m' o s x1 p x2 v1 v v2 K e l' : stands m o s (x1 ++ p :: x2) K e → a_vals s = v1 ++ v :: v2 → length x1 = length v1 →
  without x1 p x2 m v1 v v2 (plus1 (c_ptr (cur o)) K) e l' m' →
  ∃ r, zval_ptr_dtor v m' = OK (set_zrefs r m') ∧ stands (set_zrefs r m') (set_llist l' o) (remove_at s (length v1)).1 (x1 ++ x2) K e ∧
    ∀ c a, counted K c → cur_rel (eheap m) (x1 ++ p :: x2) c a → cur_rel (eheap m') (x1 ++ x2) c (follow_remove (length v1) a).
Proof.
  intros (HR & Hc & Hpos & Hfl & HK) Hvs Hlen (Hh & HR1 & _). pose proof HR as (HE & _ & He). rewrite Hvs in HE.
  destruct (rep_drop _ _ _ _ _ _ _ HR1 He) as (r & Hrun & HR2). exists r. split; [done|].
  assert (∀ c a, counted (plus1 (c_ptr (cur o)) K) c → cur_rel (eheap m) (x1 ++ p :: x2) c a → cur_rel (eheap m') (x1 ++ x2) c (follow_remove (length v1) a)) as Hfol.
  { intros c a Hcc Ha. rewrite Hh, <- Hlen. by eapply cur_removed. }
  split; [|intros c a Hcc; by apply Hfol, counted_plus1]. unfold stands, remove_at. simpl. rewrite Hvs, delete_middle. split; [done|].
  split; [by apply Hfol; [apply counted_self|]|done].
Qed.

Lemma pop_refines m o s xs K e : stands m o s xs K e → does Pop o m s xs K e.
Proof.
  intros HS. pose proof HS as ((HE & _) & _). pose proof (elems_length _ _ _ _ _ HE) as Hl.
  destruct (a_vals s) as [|v vs _] eqn:Hvs using rev_ind.
  - destruct xs; [|done]. apply (does_same _ _ _ _ _ _ _ xH (RThrow RuntimeException) HS); [done| |simpl; by rewrite Hvs].
    simpl. unfold SplDoublyLinkedList_pop, spl_ptr_llist_pop. rewrite (el_tail _ _ _ _ _ HE). by destruct o.
  - destruct xs as [|p xs _] using rev_ind; [rewrite length_app in Hl; simpl in Hl; lia|]. rewrite !length_app in Hl. simpl in Hl.
    pose proof HS as (HR & _). rewrite Hvs in HR. destruct (dl_pop_spec _ _ _ _ _ _ _ _ HR) as (m1 & l1 & Hpop & HW).
    destruct (stands_remove _ _ _ _ _ _ _ _ _ _ _ _ _ HS Hvs ltac:(lia) HW) as (r & Hrun & HS' & Hfol). rewrite app_nil_r in *.
    exists xH, (RZval v), (remove_at s (length vs)).1, (follow_remove (length vs)). do 3 eexists. split; [done|]. split; [|split; [|by split]].
    + simpl. unfold SplDoublyLinkedList_pop, return_owned. rewrite Hpop. ob. by rewrite Hrun.
    + simpl. unfold remove_at. rewrite Hvs, last_snoc, length_app. simpl. by rewrite Nat.add_sub.
Qed.

Lemma shift_refines m o s xs K e : stands m o s xs K e → does Shift o m s xs K e.
Proof.
  intros HS. pose proof HS as ((HE & _) & _). pose proof (elems_length _ _ _ _ _ HE) as Hl.
  destruct (a_vals s) as [|v vs] eqn:Hvs.
  - destruct xs; [|done]. apply (does_same _ _ _ _ _ _ _ xH (RThrow RuntimeException) HS); [done| |simpl; by rewrite Hvs].
    simpl. unfold SplDoublyLinkedList_shift, spl_ptr_llist_shift. rewrite (el_head _ _ _ _ _ HE). by destruct o.
  - destruct xs as [|p xs]; [done|].
    pose proof HS as (HR & _). rewrite Hvs in HR. destruct (shift_spec _ _ _ _ _ _ _ _ HR) as (m1 & l1 & Hshift & HW).
    destruct (stands_remove _ _ _ _ [] _ _ [] _ _ _ _ _ HS Hvs eq_refl HW) as (r & Hrun & HS' & Hfol).
    exists xH, (RZval v), (remove_at s 0).1, (follow_remove 0). do 3 eexists. split; [done|]. split; [|split; [|by split]].
    + simpl. unfold SplDoublyLinkedList_shift, return_owned. rewrite Hshift. ob. by rewrite Hrun.
    + simpl. unfold remove_at. by rewrite Hvs.
Qed.

(** ** Inspection *)

Lemma stands_count m o s xs K e : stands m o s xs K e → l_count (llist o) = Z.of_nat (length (a_vals s)).
Proof. intros ((HE & _) & _). apply HE. Qed.
Lemma lifo_mask f : Z.land f SPL_DLLIST_IT_LIFO = if lifo f then 2 else 0.
Proof.
  unfold lifo, SPL_DLLIST_IT_LIFO. assert (Z.land f 2 = if Z.testbit f 1 then 2 else 0) as ->; [|by destruct (Z.testbit f 1)].
  apply Z.bits_inj'. intros n Hn. rewrite Z.land_spec. destruct (decide (n = 1)) as [->|Hne]; [by destruct (Z.testbit f 1)|].
  assert (Z.testbit 2 n = false) as E by (apply (Z.pow2_bits_false 1); lia). rewrite E, andb_false_r. destruct (Z.testbit f 1); [done|by rewrite Z.bits_0].
Qed.
Lemma mask_int f : to_int (Z.land f SPL_DLLIST_IT_MASK) = Z.land f SPL_DLLIST_IT_MASK.
Proof.
  assert (Z.land f SPL_DLLIST_IT_MASK = f mod 4) as -> by (change SPL_DLLIST_IT_MASK with (Z.ones 2); by rewrite Z.land_ones).
  assert (0 ≤ f mod 4 < 4) by (apply Z.mod_pos_bound; lia). unfold to_int. rewrite uint_wrap_id by lia. by rewrite (proj2 (Z.ltb_lt _ _)) by lia.
Qed.

Lemma look_refines op m o s xs K e : stands m o s xs K e →
  match op with Top | Bottom | Count | IsEmpty | GetMode | Valid | Key | Current => True | _ => False end → does op o m s xs K e.
Proof.
  intros HS Hop. pose proof HS as ((HE & _) & Hc & Hpos & Hfl & _). pose proof (stands_count _ _ _ _ _ _ HS) as Hcnt. pose proof (elems_length _ _ _ _ _ HE) as Hl.
  destruct op; try done; (eapply (does_same _ _ _ _ _ _ _ xH _ HS); [done| |reflexivity]); simpl.
  - unfold SplDoublyLinkedList_top, spl_ptr_llist_last. rewrite (el_tail _ _ _ _ _ HE). destruct (a_vals s) as [|v vs _] eqn:Hvs using rev_ind; [by destruct xs|].
    destruct xs as [|p xs _] using rev_ind; rewrite !length_app in Hl; simpl in Hl; [lia|]. rewrite last_or_snoc, last_snoc.
    destruct (elems_element _ _ _ _ _ _ _ HE) as (x & Hx & _ & _ & _ & Hd). unfold ederef. rewrite Hx. ob. rewrite (Hd v); [done|]. apply list_lookup_middle. lia.
  - unfold SplDoublyLinkedList_bottom, spl_ptr_llist_first. rewrite (el_head _ _ _ _ _ HE). destruct (a_vals s) as [|v vs] eqn:Hvs; destruct xs as [|p xs]; try done. cbn [hd_or].
    destruct (elems_element _ _ [] _ _ _ _ HE) as (x & Hx & _ & _ & _ & Hd). unfold ederef. rewrite Hx. ob. by rewrite (Hd v).
  - unfold SplDoublyLinkedList_count, spl_ptr_llist_count. by rewrite Hcnt.
  - unfold SplDoublyLinkedList_isEmpty, spl_ptr_llist_count. rewrite Hcnt. do 4 f_equal. by destruct (length (a_vals s)).
  - unfold SplDoublyLinkedList_getIteratorMode. by rewrite Hfl.
  - unfold SplDoublyLinkedList_valid. destruct (a_cur s), (c_ptr (cur o)); done.
  - unfold SplDoublyLinkedList_key. by rewrite Hpos.
  - unfold SplDoublyLinkedList_current, cursor_data. destruct (a_cur s) as [|i|], (c_ptr (cur o)) as [p|]; try done; simpl in Hc.
    + destruct (elems_lookup _ _ _ _ _ HE _ _ Hc) as (v & -> & Hd). unfold ddata in Hd. unfold ederef. destruct (eheap m !! p); [|done]. injection Hd as Hd. ob. by rewrite Hd.
    + destruct Hc as [_ Hd]. unfold ddata in Hd. unfold ederef. destruct (eheap m !! p); [|done]. injection Hd as Hd. ob. by rewrite Hd.
Qed.

Lemma mode_refines m o s xs K e f : stands m o s xs K e → does (SetMode f) o m s xs K e.
Proof.
  intros HS. pose proof HS as (HR & Hc & Hpos & Hfl & HK). unfold does. simpl dl_spec. simpl dl_do. unfold SplDoublyLinkedList_setIteratorMode.
  rewrite !lifo_mask, Hfl, mask_int. assert (((if lifo (a_flags s) then 2 else 0) =? (if lifo f then 2 else 0)) = eqb (lifo (a_flags s)) (lifo f)) as -> by (by destruct (lifo _), (lifo f)).
  destruct (_ && _).
  - by exists xH, (RThrow RuntimeException), s, id, o, m, xs.
  - eexists xH, _, _, id, _, m, xs. do 3 (split; [reflexivity || done|]). split; [|done]. done.
Qed.

(** ** Access by index *)

Lemma range_count m o s xs K e i : stands m o s xs K e → out_of_range i o = negb (in_range i (a_vals s)).
Proof.
  intros HS. unfold out_of_range, in_range. rewrite (stands_count _ _ _ _ _ _ HS), negb_andb. f_equal; rewrite Z.leb_antisym || rewrite Z.ltb_antisym; by rewrite ?negb_involutive.
Qed.

Lemma dl_find_spec m l xs s K i : elems (eheap m) l xs (a_vals s) K → in_range i (a_vals s) = true →
  ∃ x1 p x2 v1 v v2, xs = x1 ++ p :: x2 ∧ a_vals s = v1 ++ v :: v2 ∧ length x1 = length v1 ∧ at_index s i = length v1 ∧
    spl_ptr_llist_offset m l i (lifo (a_flags s)) = OK (Some p).
Proof.
  intros HE [Hi1%Z.leb_le Hi2%Z.ltb_lt]%andb_true_iff. pose proof (elems_length _ _ _ _ _ HE) as Hl. rewrite (offset_spec _ _ _ _ _ _ _ HE Hi1).
  assert ((if lifo (a_flags s) then reverse xs else xs) !! Z.to_nat i = xs !! at_index s i) as ->.
  { unfold at_index. destruct (lifo _); [|done]. rewrite reverse_lookup by lia. f_equal. lia. }
  assert (at_index s i < length xs)%nat as Hlt by (unfold at_index; destruct (lifo _); lia).
  destruct (lookup_lt_is_Some_2 xs _ Hlt) as [p Hp]. destruct (lookup_lt_is_Some_2 (a_vals s) (at_index s i)) as [v Hv]; [lia|].
  exists (take (at_index s i) xs), p, (drop (S (at_index s i)) xs), (take (at_index s i) (a_vals s)), v, (drop (S (at_index s i)) (a_vals s)).
  rewrite !take_drop_middle, !length_take by done. split_and!; [done..|lia|lia|by rewrite Hp].
Qed.

Lemma exists_refines m o s xs K e i : stands m o s xs K e → permitted (Exists i) s m → does (Exists i) o m s xs K e.
Proof.
  intros HS Hi. apply (does_same _ _ _ _ _ _ _ xH (RBool (in_range (index_of i) (a_vals s))) HS); try done.
  simpl in *. unfold SplDoublyLinkedList_offsetExists. rewrite Hi. ob. unfold in_range. by rewrite (stands_count _ _ _ _ _ _ HS).
Qed.

Lemma get_refines m o s xs K e i : stands m o s xs K e → permitted (Get i) s m → does (Get i) o m s xs K e.
Proof.
  intros HS Hi. pose proof HS as ((HE & _) & _ & _ & Hfl & _). simpl in Hi. eapply (does_same _ _ _ _ _ _ _ xH _ HS); [done| |reflexivity].
  simpl. unfold SplDoublyLinkedList_offsetGet. rewrite Hi. ob. rewrite (range_count _ _ _ _ _ _ _ HS), Hfl. destruct (in_range _ _) eqn:Hr; [|done]. simpl.
  destruct (dl_find_spec _ _ _ _ _ _ HE Hr) as (x1 & p & x2 & v1 & v & v2 & -> & Hvs & Hlen & -> & ->). ob. rewrite Hvs in *.
  destruct (elems_element _ _ _ _ _ _ _ HE) as (x & Hx & _ & _ & _ & Hd). unfold ederef. rewrite Hx. ob.
  rewrite (Hd v), list_lookup_middle by (try apply list_lookup_middle; lia). done.
Qed.

Lemma set_in_range m o s xs K e i v b : stands m o s xs K e → (b = false → is_Some (zrefs m !! v)) → in_range i (a_vals s) = true →
  ∃ w r m' , separate_arg b v m = OK (w, set_zrefs r m) ∧ (if b then zrefs m !! w = None else w = v) ∧
    ∃ p, spl_ptr_llist_offset (set_zrefs r m) (llist o) i (lifo (flags o)) = OK (Some p) ∧ set_rest p w o (set_zrefs r m) = OK (RNull, o, m') ∧
      stands m' o (upd s (<[at_index s i := w]> (a_vals s)) id) xs K e ∧
      ∀ c a, counted K c → cur_rel (eheap m) xs c a → cur_rel (eheap m') xs c a.
Proof.
  intros (HR & Hc & Hpos & Hfl & HK) Hv Hi. destruct (separate_spec _ _ _ _ _ _ _ _ HR Hv) as (w & r & Hsep & HR1 & Hst). pose proof HR1 as (HE & _).
  destruct (dl_find_spec _ _ _ _ _ _ HE Hi) as (x1 & p & x2 & v1 & u & v2 & -> & Hvs & Hlen & Hat & Hoff). rewrite Hvs in HR1.
  destruct (set_rest_spec _ _ _ _ _ _ _ _ _ _ _ o HR1 (proj2 (proj2 HR)) Hlen) as (m' & Hrun & HR2 & Hfol). simpl in Hfol.
  exists w, r, m'. split; [done|]. split; [done|]. exists p. rewrite Hfl. split; [done|]. split; [done|]. split; [|intros c a _; apply Hfol].
  unfold stands, upd. cbn [a_vals a_cur a_pos a_flags id]. rewrite Hat, Hvs, insert_app_r_alt, Nat.sub_diag by lia. simpl. auto.
Qed.

Definition is_null (i : zoffset) : bool := if i is IS_NULL_offset then true else false.
(** offsetSet with an index. *)
Definition set_index (index : Z) (value : zval) o m : outcome (dret * spl_dllist_object * dmem) :=
  if out_of_range index o then let* m := zval_ptr_dtor value m in OK (RThrow OutOfRangeException, o, m)
  else
    let* element := spl_ptr_llist_offset m (llist o) index (lifo (flags o)) in
    match element with
    | Some p => set_rest p value o m
    | None => let* m := zval_ptr_dtor value m in OK (RThrow OutOfRangeException, o, m)
    end.
Lemma offsetSet_cases i v b o m : SplDoublyLinkedList_offsetSet i v b o m =
  let* (value, m) := separate_arg b v m in
  if is_null i then let* (l, m) := spl_ptr_llist_push (llist o) value m in OK (RNull, set_llist l o, m)
  else let* index := spl_offset_convert_to_long i in set_index index value o m.
Proof. by destruct i. Qed.
Lemma set_spec_cases i v b w s : dl_spec (SetAt i v b) w s =
  if is_null i then (RNull, (insert_at s (length (a_vals s)) w).1, (insert_at s (length (a_vals s)) w).2)
  else if in_range (index_of i) (a_vals s) then (RNull, upd s (<[at_index s (index_of i) := w]> (a_vals s)) id, id) else (RThrow OutOfRangeException, s, id).
Proof. by destruct i. Qed.

Lemma setat_refines m o s xs K e i v b : stands m o s xs K e → permitted (SetAt i v b) s m → does (SetAt i v b) o m s xs K e.
Proof.
  intros HS (Hv & Hmax & Hi). pose proof HS as (HR & HS'). unfold does. setoid_rewrite set_spec_cases. simpl dl_do. rewrite offsetSet_cases, Hi.
  destruct (is_null i) eqn:Hn; [|destruct (in_range (index_of i) (a_vals s)) eqn:Hr].
  - destruct (separate_spec _ _ _ _ _ _ _ _ HR Hv) as (w & z & Hsep & HR1 & Hst). destruct (push_does m RNull _ _ _ _ _ _ _ HS Hmax HR1) as (m' & l' & xs' & Hrun & HS1 & Hfol).
    rewrite Hsep. exists w, RNull, (insert_at s (length (a_vals s)) w).1, (follow_insert (length (a_vals s))), (set_llist l' o), m', xs'. split; [done|].
    split; [exact Hrun|by split].
  - destruct (set_in_range _ _ _ _ _ _ _ _ _ HS Hv Hr) as (w & r & m' & Hsep & Hst & p & Hoff & Hrun & HS1 & Hfol). rewrite Hsep. cbn [obind].
    exists w, RNull, (upd s (<[at_index s (index_of i):=w]> (a_vals s)) id), id, o, m', xs. split; [done|]. split; [|by split].
    unfold set_index. rewrite (range_count _ _ _ _ _ _ _ HS), Hr. cbn [negb]. by rewrite Hoff.
  - destruct (separate_spec _ _ _ _ _ _ _ _ HR Hv) as (w & z & Hsep & HR1 & Hst). destruct (rep_drop _ _ _ _ _ _ _ HR1 (proj2 (proj2 HR))) as (r & Hrun & HR2).
    rewrite Hsep. cbn [obind]. unfold set_index. rewrite (range_count _ _ _ _ _ _ _ HS), Hr. cbn [negb]. rewrite Hrun.
    by exists w, (RThrow OutOfRangeException), s, id, o, (set_zrefs r (set_zrefs z m)), xs.
Qed.

Lemma unset_cursor h xs1 p xs2 (o : nptr) (a : acur) : NoDup (xs1 ++ p :: xs2) → cur_rel h (xs1 ++ p :: xs2) o a → o = Some p ↔ a = AAt (length xs1).
Proof.
  intros Hnd Ha. split; intros ->.
  - destruct a as [|i|]; [done| |by destruct Ha; set_solver]. simpl in Ha. f_equal. eapply NoDup_lookup; [exact Hnd|exact Ha|by apply list_lookup_middle].
  - destruct o as [q|]; [|done]. simpl in Ha. rewrite list_lookup_middle in Ha by done. congruence.
Qed.

Lemma unset_refines m o s xs K e i : stands m o s xs K e → permitted (Unset i) s m → does (Unset i) o m s xs K e.
Proof.
  intros HS Hi. pose proof HS as (HR & Hc & Hpos & Hfl & HK). simpl in Hi. destruct (in_range (index_of i) (a_vals s)) eqn:Hr.
  - pose proof HR as (HE & _). destruct (dl_find_spec _ _ _ _ _ _ HE Hr) as (x1 & p & x2 & v1 & v & v2 & -> & Hvs & Hlen & Hat & Hoff). rewrite Hvs in HR, HE.
    destruct (unset_rest_spec _ _ _ _ _ _ _ _ _ _ (set_llist (mkList (hd_or (x1 ++ x2) None) (last_or None (x1 ++ x2)) (l_count (llist o) - 1)) o) HR HK Hlen) as (m' & Hrun & HR' & Hfol).
    eexists xH, RNull, (dl_spec (Unset i) xH s).1.2, (follow_remove (length v1)), _, m', (x1 ++ x2). split; [done|]. split; [|split; [|split]].
    + simpl. unfold SplDoublyLinkedList_offsetUnset. rewrite Hi. cbn [obind]. rewrite (range_count _ _ _ _ _ _ _ HS), Hr, Hfl. cbn [negb]. rewrite Hoff. cbn [obind].
      rewrite (unset_links_run _ _ _ _ _ _ _ HE). cbn [obind]. exact Hrun.
    + simpl. rewrite Hr, Hat. done.
    + cbn [dl_spec]. rewrite Hr, Hat. unfold stands, remove_at, place. cbn [a_vals a_cur a_pos a_flags set_llist set_cur llist cur flags fst snd upd].
      rewrite Hvs, delete_middle. split; [exact HR'|]. split; [|split; [|done]].
      * pose proof (unset_cursor _ _ _ _ _ _ (el_nodup _ _ _ _ _ HE) Hc) as Hpa. unfold unset_cur in *. cbn [set_llist cur] in *. rewrite <- Hlen.
        destruct (decide (c_ptr (cur o) = Some p)) as [Hp|Hp].
        -- apply Hpa in Hp as ->. simpl. rewrite !decide_True by done. done.
        -- assert (a_cur s ≠ AAt (length x1)) as Ha by (by intros ?%Hpa). rewrite (decide_False _ _ Ha).
           assert (counted (plus1 (c_ptr (cur o)) K) (c_ptr (cur o))) as Hself by by apply counted_self.
           pose proof (Hfol _ _ Hself Hc) as Hfo. by destruct (follow_remove _ _).
      * unfold unset_cur. cbn [set_llist cur]. by case_decide.
    + intros c a Hcc Ha. rewrite <- Hlen. apply Hfol; [by apply counted_plus1|done].
  - eapply (does_same _ _ _ _ _ _ _ xH _ HS); [done| |simpl; rewrite Hr; reflexivity].
    simpl. unfold SplDoublyLinkedList_offsetUnset. rewrite Hi. cbn [obind]. by rewrite (range_count _ _ _ _ _ _ _ HS), Hr.
Qed.

Lemma add_refines m o s xs K e i v : stands m o s xs K e → permitted (AddAt i v) s m → does (AddAt i v) o m s xs K e.
Proof.
  intros HS (Hv & Hmax & Hi). pose proof HS as (HR & Hc & Hpos & Hfl & HK). unfold does. simpl dl_spec. simpl dl_do. unfold SplDoublyLinkedList_add. rewrite Hi. cbn [obind].
  rewrite (stands_count _ _ _ _ _ _ HS). destruct (rep_addref _ _ _ _ _ _ v HR Hv) as (r & Hadd & HR1). rewrite Hadd. cbn [obind].
  destruct (Z.eqb_spec (index_of i) (Z.of_nat (length (a_vals s)))) as [Heq|Hne].
  - assert ((index_of i <? 0) || (Z.of_nat (length (a_vals s)) <? index_of i) = false) as -> by (apply orb_false_iff; split; apply Z.ltb_ge; lia).
    destruct (push_does m RNull _ _ _ _ _ _ _ HS Hmax HR1) as (m' & l' & xs' & Hrun & HS1 & Hfol).
    exists v, RNull, (insert_at s (length (a_vals s)) v).1, (follow_insert (length (a_vals s))), (set_llist l' o), m', xs'. split; [done|].
    split; [exact Hrun|by split].
  - destruct (in_range (index_of i) (a_vals s)) eqn:Hr.
    + pose proof Hr as [Hr1%Z.leb_le Hr2%Z.ltb_lt]%andb_true_iff.
      assert ((index_of i <? 0) || (Z.of_nat (length (a_vals s)) <? index_of i) = false) as -> by (apply orb_false_iff; split; apply Z.ltb_ge; lia).
      pose proof HR1 as (HE & _). destruct (dl_find_spec _ _ _ _ _ _ HE Hr) as (x1 & p & x2 & v1 & u & v2 & -> & Hvs & Hlen & Hat & Hoff). rewrite Hfl, Hoff, Hat. cbn [obind rd].
      rewrite Hvs in HR1, Hmax. destruct (insert_before_spec _ _ _ _ _ _ _ _ _ _ HR1 (proj2 (proj2 HR)) Hlen Hmax) as (q & m' & l' & Hrun & HW). rewrite Hrun. cbn [obind].
      destruct (stands_insert m (set_zrefs r m) o s x1 q (p :: x2) v1 v (u :: v2) K e l' m' Hc Hpos Hfl HK Hvs Hlen eq_refl HW) as [HS' Hfol].
      exists v, RNull, (insert_at s (length v1) v).1, (follow_insert (length v1)), (set_llist l' o), m', (x1 ++ q :: p :: x2). do 3 (split; [done|]). by split.
    + assert ((index_of i <? 0) || (Z.of_nat (length (a_vals s)) <? index_of i) = true) as ->.
      { unfold in_range in Hr. apply andb_false_iff in Hr as [Hr%Z.leb_gt|Hr%Z.ltb_ge]; apply orb_true_iff; [left|right]; apply Z.ltb_lt; lia. }
      by exists v, (RThrow OutOfRangeException), s, id, o, m, xs.
Qed.

(** ** The cursor *)

Lemma rewind_spec m l s xs K e c : rep m l xs (a_vals s) (plus1 (c_ptr c) K) e → (∀ p, 0 ≤ K p) →
  ∃ c' h', spl_dllist_it_helper_rewind c l (a_flags s) m = OK (c', set_eheap h' m) ∧ rep (set_eheap h' m) l xs (a_vals s) (plus1 (c_ptr c') K) e ∧
    cur_rel h' xs (c_ptr c') (a_cur (arewind s)) ∧ c_pos c' = a_pos (arewind s) ∧ ∀ p, 1 ≤ K p ∨ p ∈ xs → ddata h' p = ddata (eheap m) p.
Proof.
  intros HR HK. pose proof HR as (HE & _). pose proof (elems_length _ _ _ _ _ HE) as Hl.
  set (c' := if lifo (a_flags s) then mkCursor (l_tail l) (l_count l - 1) else mkCursor (l_head l) 0).
  assert (cur_rel (eheap m) xs (c_ptr c') (a_cur (arewind s)) ∧ c_pos c' = a_pos (arewind s)) as [Hc' Hp'].
  { unfold c', arewind. rewrite (el_head _ _ _ _ _ HE), (el_tail _ _ _ _ _ HE), (el_count _ _ _ _ _ HE), <- Hl. destruct (lifo (a_flags s)); simpl.
    - split; [|done]. destruct xs as [|p xs _] using rev_ind; [done|]. rewrite length_app, Nat.add_comm, last_or_snoc. simpl. by apply list_lookup_middle.
    - split; [|by destruct xs]. by destruct xs. }
  assert (∀ p, c_ptr c' = Some p → p ∈ xs) as Hin.
  { intros p E. rewrite E in Hc'. destruct (a_cur (arewind s)) as [|i|] eqn:Ha; [done|by eapply list_elem_of_lookup_2|].
    unfold arewind in Ha. destruct (lifo (a_flags s)), (length (a_vals s)); simpl in Ha; done. }
  destruct (switch_spec _ _ _ _ _ _ _ (c_ptr c') HR HK Hin) as (h' & Hrun & HR' & Hd). exists c', h'. split; [|split; [done|split; [|done]]].
  - unfold spl_dllist_it_helper_rewind. fold c'. specialize (Hrun _ (λ m, OK (c', m))).
    destruct (SPL_LLIST_CHECK_DELREF _ m); cbn [obind] in *; [|done..]. by rewrite Hrun.
  - eapply cur_data; [|exact Hc']. intros p Ep. apply Hd. right. by apply Hin.
Qed.

Lemma rewind_refines m o s xs K e : stands m o s xs K e → does Rewind o m s xs K e.
Proof.
  intros (HR & Hc & Hpos & Hfl & HK). destruct (rewind_spec _ _ _ _ _ _ _ HR HK) as (c' & h' & Hrun & HR' & Hc' & Hp' & Hd).
  exists xH, RNull, (arewind s), id, (set_cur c' o), (set_eheap h' m), xs. split; [done|]. split; [|split; [done|]].
  - simpl. unfold SplDoublyLinkedList_rewind. by rewrite Hfl, Hrun.
  - split; [|intros c a Hcc Ha; eapply cur_data; [|exact Ha]; intros p ->; apply Hd; left; by apply Hcc].
    assert (a_vals (arewind s) = a_vals s ∧ a_flags (arewind s) = a_flags s) as [Ev Ef] by (unfold arewind; by destruct (lifo (a_flags s))).
    unfold stands. rewrite Ev, Ef. done.
Qed.

Lemma move_refines m o s xs K e f : stands m o s xs K e → a_cur s ≠ AGone →
  ∃ o' m' xs', move o f m = OK (RNull, o', m') ∧ stands m' o' (amove_seq f s).1 xs' K e ∧
    ∀ c a, counted K c → cur_rel (eheap m) xs c a → cur_rel (eheap m') xs' c ((amove_seq f s).2 a).
Proof.
  intros HS Hg. pose proof HS as (HR & Hc & Hpos & Hfl & HK). unfold move. destruct (a_cur s) as [|i|] eqn:Ha; [| |done].
  - unfold spl_dllist_it_helper_move_forward, amove_seq. rewrite Ha. simpl amove. cbn [fst snd]. destruct (c_ptr (cur o)) eqn:Hp; [done|]. cbn [obind]. eexists _, m, xs. split; [reflexivity|]. split; [|done].
    unfold stands. simpl. rewrite Hp in *. auto.
  - pose proof (move_spec _ _ _ _ _ _ _ f _ HR HK Hc) as H'. unfold amove_seq. rewrite Ha, <- Hpos. destruct (amove f (a_vals s) (AAt i) (c_pos (cur o))) as [[[a' pos'] vs'] fl].
    destruct H' as (c' & l' & m' & xs' & -> & HR' & Ha' & Hp' & Hfol). cbn [obind]. eexists _, m', xs'. split; [reflexivity|]. split; [|exact Hfol]. done.
Qed.

(** ** Iteration *)

(** From the cursor [a] with the key [pos], the entries visited, the values that
    are left at the end, and how other cursors follow. *)
Inductive visits (f : Z) : list zval → acur → Z → list (Z * zval) → list zval → (acur → acur) → Prop :=
  | visits_end vs pos : visits f vs ANone pos [] vs id
  | visits_step vs i pos v a' pos' vs' fl es vs'' fl' : vs !! i = Some v → amove f vs (AAt i) pos = (a', pos', vs', fl) →
      visits f vs' a' pos' es vs'' fl' → visits f vs (AAt i) pos ((pos, v) :: es) vs'' (fl' ∘ fl).

(** The iterator [it] over the object in [w] still has the entries [es] to
    visit, and will leave the object as [sfin]. *)
Definition coming (K : ptr → Z) (sfin : aseq) (e : zval → Z) (it : cursor) (w : spl_dllist_object * dmem) (es : list (Z * zval)) : Prop :=
  ∃ s xs a vs fl, stands w.2 w.1 s xs (plus1 (c_ptr it) K) e ∧ (∀ p, 0 ≤ K p) ∧ cur_rel (eheap w.2) xs (c_ptr it) a ∧
    visits (a_flags s) (a_vals s) a (c_pos it) es vs fl ∧ sfin = mkSeq vs (fl (a_cur s)) (a_pos s) (a_flags s).

Lemma rep_K_ext m l xs vs K K' e : rep m l xs vs K e → (∀ p, K p = K' p) → rep m l xs vs K' e.
Proof.
  intros (HE & Hr) Heq. split; [|done]. apply (elems_frame (eheap m) _ _ _ _ K); [done..| |].
  - intros p. rewrite <- Heq. apply HE.
  - intros p. rewrite <- Heq. apply HE.
Qed.
Lemma plus1_swap (o o' : nptr) K p : plus1 o (plus1 o' K) p = plus1 o' (plus1 o K) p.
Proof. unfold plus1. lia. Qed.
Lemma plus1_nonneg (o : nptr) K : (∀ p, 0 ≤ K p) → ∀ p, 0 ≤ plus1 o K p.
Proof. intros HK p. pose proof (plus1_le o K p). specialize (HK p). lia. Qed.

Lemma stands_rep m m' o s xs K e e' : stands m o s xs K e → eheap m' = eheap m → rep m' (llist o) xs (a_vals s) (plus1 (c_ptr (cur o)) K) e' → stands m' o s xs K e'.
Proof. intros (_ & Hc & ?) Hh HR. by split; [|rewrite Hh]. Qed.

Lemma stands_refs_ext m o s xs K e e' : stands m o s xs K e → (∀ z, e z = e' z) → stands m o s xs K e'.
Proof.
  intros HS Heq. pose proof HS as ((HE & Hr & He) & _). eapply stands_rep; [exact HS|done|]. split; [done|]. split; [|by intros z; rewrite <- Heq].
  eapply refs_ext; [|exact Hr]. intros z. simpl. rewrite Heq. lia.
Qed.

Lemma data_spec m o s xs K e c i : stands m o s xs K e → cur_rel (eheap m) xs c (AAt i) → ∀ v, a_vals s !! i = Some v →
  cursor_data (mkCursor c 0) m = OK (Some v).
Proof.
  intros ((HE & _) & _) Ha v Hv. destruct c as [p|]; [|done]. simpl in Ha. destruct (elems_lookup _ _ _ _ _ HE _ _ Ha) as (v' & Hv' & Hd).
  assert (v' = v) as -> by congruence. unfold cursor_data, ederef, ddata in *. simpl. destruct (eheap m !! p); [|done]. injection Hd as Hd. simpl. by rewrite Hd.
Qed.

Lemma coming_forward K sfin e it w x es : coming K sfin e it w (x :: es) →
  ∃ it' w', iter_move_forward it w = OK (it', w') ∧ coming K sfin e it' w' es.
Proof.
  destruct w as [o m]. intros (s & xs & a & vs & fl & HS & HK & Ha & Hv & Hfin). simpl in *. inversion Hv as [|vs0 i pos v a' pos' vs' fl1 es0 vs2 fl2 Hi Hm Hrest]; subst.
  pose proof HS as (HR & Hc & Hpos & Hfl & _). pose proof (move_spec m (llist o) xs (a_vals s) (plus1 (c_ptr (cur o)) K) e it (a_flags s) i) as H'.
  rewrite Hm in H'. destruct H' as (c' & l' & m' & xs' & Hrun & HR' & Ha' & Hp' & Hfol); [|by apply plus1_nonneg|done|].
  { eapply rep_K_ext; [exact HR|]. intros p. apply plus1_swap. }
  exists c', (set_llist l' o, m'). split; [unfold spl_dllist_it_move_forward; by rewrite Hfl, Hrun|].
  exists (mkSeq vs' (fl1 (a_cur s)) (a_pos s) (a_flags s)), xs', a', vs, fl2. simpl. split; [|split; [done|split; [done|split; [by rewrite Hp'|done]]]].
  split; [|split; [|split; [done|split; [done|by apply plus1_nonneg]]]]; simpl.
  - eapply rep_K_ext; [exact HR'|]. intros p. apply plus1_swap.
  - apply Hfol; [by apply counted_self|done].
Qed.

#[export] Instance coming_laws K sfin : IteratorLaws (coming K sfin).
Proof.
  split.
  - done.
  - intros e it w es (s & xs & a & vs & fl & ((_ & _ & He) & _) & _). exact He.
  - intros e it w es (s & xs & a & vs & fl & _ & _ & Ha & Hv & _). simpl. unfold spl_dllist_it_valid. destruct Hv; [|]; destruct (c_ptr it); done.
  - intros e it [o m] k z es (s & xs & a & vs & fl & HS & _ & Ha & Hv & _). simpl in *. inversion Hv as [|vs0 i pos v a' pos' vs' fl1 es0 vs2 fl2 Hi]; subst.
    pose proof (data_spec _ _ _ _ _ _ _ _ HS Ha _ Hi) as Hd. unfold spl_dllist_it_get_current_data, cursor_data in *. simpl in Hd. by rewrite Hd.
  - apply coming_forward.
  - intros e it [o m] k z es (s & xs & a & vs & fl & HS & HK & Ha & Hv & Hfin). simpl in *. pose proof HS as (HR & _).
    assert (z ∈ a_vals s) as Hz by (inversion Hv; subst; by eapply list_elem_of_lookup_2).
    destruct (rep_addref _ _ _ _ _ _ z HR (rep_refs_live _ _ _ _ _ _ _ HR Hz)) as (r & -> & HR'). cbn [obind]. eexists. split; [done|].
    exists s, xs, a, vs, fl. split; [|done]. by apply (stands_rep m _ _ _ _ _ e).
  - intros e it [o m] z es (s & xs & a & vs & fl & HS & HK & Ha & Hv & Hfin) He. simpl in *. pose proof HS as (HR & _).
    destruct (rep_drop _ _ _ _ _ _ _ HR He) as (r & -> & HR'). cbn [obind]. eexists. split; [done|].
    exists s, xs, a, vs, fl. split; [|done]. by apply (stands_rep m _ _ _ _ _ (more e z 1)).
  - intros e e' it w es (s & xs & a & vs & fl & HS & HK & Ha & Hv & Hfin) Heq. exists s, xs, a, vs, fl. split; [|done].
    by eapply stands_refs_ext.
Qed.

(** An iterator that is made and rewound. *)
Lemma start_spec m o s xs K e es vs fl : stands m o s xs K e → visits (a_flags s) (a_vals s) (a_cur (arewind s)) (a_pos (arewind s)) es vs fl →
  ∃ w1 it1 w2 it2, dllist_get_iterator (o, m) = OK (Some it1, w1) ∧ iter_rewind it1 w1 = OK (it2, w2) ∧
    coming K (mkSeq vs (fl (a_cur s)) (a_pos s) (a_flags s)) e it2 w2 es.
Proof.
  intros (HR & Hc & Hpos & Hfl & HK) Hv. pose proof HR as (HE & Hr & He).
  assert (∃ h1, SPL_LLIST_CHECK_ADDREF (c_ptr (cur o)) m = OK (set_eheap h1 m) ∧ elems h1 (llist o) xs (a_vals s) (plus1 (c_ptr (cur o)) (plus1 (c_ptr (cur o)) K)) ∧
    ∀ p, ddata h1 p = ddata (eheap m) p) as (h1 & Hadd & HE1 & Hd1).
  { destruct (c_ptr (cur o)) as [p|]; simpl.
    - assert (is_Some (eheap m !! p)) as [x Hx]. { eapply elems_live_K; [exact HE|]. rewrite plus1_same. specialize (HK p). lia. }
      unfold ederef. rewrite Hx. cbn [obind rd]. rewrite estore_alive by (by rewrite Hx). eexists. split; [done|]. split; [by apply elems_addref|].
      intros q. unfold ddata. rewrite lookup_alter. case_decide; [|done]. subst. by rewrite Hx.
    - exists (eheap m). split; [by destruct m|]. split; [|done]. eapply (elems_frame (eheap m)); [exact HE|done|intros p; by do 2 apply plus1_nonneg|].
      intros p. rewrite (el_rc _ _ _ _ _ HE). f_equal. unfold plus1. simpl. lia. }
  assert (rep (set_eheap h1 m) (llist o) xs (a_vals s) (plus1 (c_ptr (cur o)) (plus1 (c_ptr (cur o)) K)) e) as HR1 by done.
  destruct (rewind_spec _ _ _ _ _ _ _ HR1 (plus1_nonneg _ _ HK)) as (c' & h' & Hrun & HR' & Hc' & Hp' & Hd'). simpl in Hd'.
  eexists _, (cur o), _, c'. split; [unfold dllist_get_iterator, spl_dllist_get_iterator; simpl; by rewrite Hadd|].
  split; [simpl; unfold spl_dllist_it_rewind; by rewrite Hfl, Hrun|].
  exists s, xs, (a_cur (arewind s)), vs, fl. simpl. split; [|split; [done|split; [done|split; [by rewrite Hp'|done]]]].
  split; [|split; [|split; [done|split; [done|by apply plus1_nonneg]]]].
  - eapply rep_K_ext; [exact HR'|]. intros p. apply plus1_swap.
  - simpl. eapply cur_data; [|eapply cur_data; [|exact Hc]].
    + intros p Hp. apply Hd'. left. rewrite Hp, plus1_same. specialize (HK p). lia.
    + intros p _. apply Hd1.
Qed.

(** *** What an iteration visits in each mode *)

Definition numbered (vs : list zval) : list (Z * zval) := imap (λ i v, (Z.of_nat i, v)) vs.
Definition entries (f : Z) (vs : list zval) : list (Z * zval) :=
  if lifo f then reverse (numbered vs) else if deletes f then (λ v, (0, v)) <$> vs else numbered vs.
Definition gone (a : acur) : acur := match a with AAt _ => AGone | _ => a end.
Definition inside (n : nat) (a : acur) : Prop := match a with AAt i => (i < n)%nat | _ => True end.

Lemma foldl_count {A} (l : list A) n : foldl (λ n _, n + 1) n l = n + Z.of_nat (length l).
Proof. revert n. induction l as [|x l IH]; intros n; simpl; [lia|]. rewrite IH. lia. Qed.
Lemma numbered_snoc vs v : numbered (vs ++ [v]) = numbered vs ++ [(Z.of_nat (length vs), v)].
Proof. unfold numbered. rewrite imap_app. simpl. by rewrite Nat.add_0_r. Qed.
Lemma numbered_values vs : (numbered vs).*2 = vs.
Proof. apply list_eq. intros i. unfold numbered. rewrite list_lookup_fmap, list_lookup_imap. by destruct (vs !! i). Qed.

Lemma visits_fifo f v1 v2 : lifo f = false → deletes f = false →
  ∃ fl, visits f (v1 ++ v2) (match v2 with [] => ANone | _ => AAt (length v1) end) (Z.of_nat (length v1)) (imap (λ i v, (Z.of_nat (length v1 + i), v)) v2) (v1 ++ v2) fl ∧
    ∀ a, fl a = a.
Proof.
  intros Hl Hd. revert v1. induction v2 as [|v v2 IH]; intros v1; simpl; [exists id; split; [constructor|done]|].
  destruct (IH (v1 ++ [v])) as (fl & Hv & Hfl). rewrite <- app_assoc in Hv. simpl in Hv.
  exists (fl ∘ id). split; [|intros a; apply Hfl]. replace (Z.of_nat (length v1 + 0), v) with (Z.of_nat (length v1), v) by (f_equal; lia).
  eapply visits_step; [by apply list_lookup_middle|unfold amove; rewrite Hl, Hd; reflexivity|].
  assert (length (v1 ++ [v]) = S (length v1)) as Hlen by (rewrite length_app; simpl; lia). rewrite Hlen in Hv.
  replace (Z.of_nat (S (length v1))) with (Z.of_nat (length v1) + 1) in Hv by lia.
  rewrite (imap_ext _ ((λ i v0, (Z.of_nat (length v1 + i), v0)) ∘ S) v2) in Hv by (intros; simpl; f_equal; lia).
  destruct v2 as [|v' v2].
  - rewrite decide_False by (rewrite length_app; simpl; lia). exact Hv.
  - rewrite decide_True by (rewrite length_app; simpl; lia). exact Hv.
Qed.

Lemma visits_fifo_delete f vs : lifo f = false → deletes f = true →
  ∃ fl, visits f vs (match vs with [] => ANone | _ => AAt 0 end) 0 ((λ v, (0, v)) <$> vs) [] fl ∧ ∀ a, inside (length vs) a → fl a = gone a.
Proof.
  intros Hl Hd. induction vs as [|v vs (fl & Hv & Hfl)]; csimpl.
  - exists id. split; [constructor|]. intros [] Ha; simpl in *; done || lia.
  - exists (fl ∘ follow_remove 0). split.
    + eapply visits_step; [done|unfold amove; rewrite Hl, Hd; reflexivity|]. simpl. rewrite drop_0. by destruct vs.
    + intros a Ha. simpl. rewrite Hfl; destruct a as [|[|i]|]; simpl in *; done || lia.
Qed.

Lemma visits_lifo f v1 v2 : lifo f = true → deletes f = false →
  ∃ fl, visits f (v1 ++ v2) (match length v1 with O => ANone | S k => AAt k end) (Z.of_nat (length v1) - 1) (reverse (numbered v1)) (v1 ++ v2) fl ∧ ∀ a, fl a = a.
Proof.
  intros Hl Hd. revert v2. induction v1 as [|v v1 IH] using rev_ind; intros v2; simpl; [exists id; split; [constructor|done]|].
  destruct (IH (v :: v2)) as (fl & Hv & Hfl). exists (fl ∘ id). split; [|intros a; apply Hfl].
  rewrite numbered_snoc, reverse_snoc, length_app, Nat.add_comm, <- app_assoc. simpl. replace (Z.of_nat (S (length v1)) - 1) with (Z.of_nat (length v1)) by lia.
  eapply visits_step; [by apply list_lookup_middle|unfold amove; rewrite Hl, Hd; reflexivity|]. exact Hv.
Qed.

Lemma visits_lifo_delete f vs : lifo f = true → deletes f = true →
  ∃ fl, visits f vs (match length vs with O => ANone | S k => AAt k end) (Z.of_nat (length vs) - 1) (reverse (numbered vs)) [] fl ∧ ∀ a, inside (length vs) a → fl a = gone a.
Proof.
  intros Hl Hd. induction vs as [|v vs (fl & Hv & Hfl)] using rev_ind.
  - exists id. split; [constructor|]. intros [] Ha; simpl in *; done || lia.
  - exists (fl ∘ follow_remove (length vs)). split.
    + rewrite numbered_snoc, reverse_snoc, length_app, Nat.add_comm. simpl. replace (Z.of_nat (S (length vs)) - 1) with (Z.of_nat (length vs)) by lia.
      eapply visits_step; [by apply list_lookup_middle| |exact Hv]. unfold amove. rewrite Hl, Hd, length_app, Nat.add_sub, take_app_length. reflexivity.
    + intros a Ha. rewrite length_app in Ha. simpl in *. rewrite Hfl; destruct a as [|i|]; simpl in *; try done; repeat case_decide; simpl; done || lia.
Qed.

Lemma entries_length f vs : length (entries f vs) = length vs.
Proof. unfold entries. destruct (lifo f), (deletes f); rewrite ?length_reverse, ?length_fmap; unfold numbered; by rewrite ?length_imap. Qed.

(** The object after an iteration to the end. *)
Definition iterated (s : aseq) : aseq :=
  if deletes (a_flags s) then mkSeq [] (gone (a_cur s)) (a_pos s) (a_flags s) else s.

Lemma visits_all s : inside (length (a_vals s)) (a_cur s) → ∃ fl, visits (a_flags s) (a_vals s) (a_cur (arewind s)) (a_pos (arewind s)) (entries (a_flags s) (a_vals s)) (a_vals (iterated s)) fl ∧
  mkSeq (a_vals (iterated s)) (fl (a_cur s)) (a_pos s) (a_flags s) = iterated s.
Proof.
  unfold arewind, entries, iterated. destruct s as [vs c pos f]. simpl. intros Hin. destruct (lifo f) eqn:Hl, (deletes f) eqn:Hd; simpl.
  - destruct (visits_lifo_delete f vs Hl Hd) as (fl & Hv & Hfl). exists fl. by rewrite (Hfl _ Hin).
  - destruct (visits_lifo f vs [] Hl Hd) as (fl & Hv & Hfl). rewrite app_nil_r in Hv. exists fl. by rewrite Hfl.
  - destruct (visits_fifo_delete f vs Hl Hd) as (fl & Hv & Hfl). exists fl. rewrite (Hfl _ Hin). split; [|done]. by destruct vs.
  - destruct (visits_fifo f [] vs Hl Hd) as (fl & Hv & Hfl). exists fl. rewrite Hfl. split; [|done]. by destruct vs.
Qed.

(** Any traversal of a list by spl_iterator_apply. *)
Lemma apply_dllist {St} (apply_func : cursor → St → spl_dllist_object * dmem → outcome (apply_result * St * (spl_dllist_object * dmem)))
    (f : St → Z * zval → St) (held : St → zval → Z) (P : St → list (Z * zval) → Prop) m o s xs K e st fuel :
  (∀ e it w x es st, (∀ z, 0 ≤ e z) → P st (x :: es) → coming K (iterated s) (λ z, e z + held st z) it w (x :: es) →
    P (f st x) es ∧ ∃ w', apply_func it st w = OK (APPLY_KEEP, f st x, w') ∧ coming K (iterated s) (λ z, e z + held (f st x) z) it w' (x :: es)) →
  stands m o s xs K e → P st (entries (a_flags s) (a_vals s)) → (∀ z, held st z = 0) → (length (a_vals s) < fuel)%nat →
  let st' := foldl f st (entries (a_flags s) (a_vals s)) in
  ∃ m' o' xs', spl_iterator_apply apply_func fuel dllist_get_iterator st (o, m) = OK (SUCCESS, st', (o', m')) ∧
    stands m' o' (iterated s) xs' K (λ z, e z + held st' z).
Proof.
  intros Hcall HS HP Hst Hf st'. pose proof HS as ((HE & _ & He) & Hc & _).
  destruct (visits_all s) as (fl & Hv & Hfin).
  { destruct (a_cur s), (c_ptr (cur o)); try done. simpl in *. rewrite <- (elems_length _ _ _ _ _ HE). by eapply lookup_lt_Some. }
  destruct (start_spec _ _ _ _ _ _ _ _ _ HS Hv) as (w1 & it1 & w2 & it2 & Hget & Hrew & Hcom). rewrite Hfin in Hcom.
  pose proof (entries_length (a_flags s) (a_vals s)) as Hlen.
  assert (EG_exception w1 = false) as Hex by done.
  destruct (apply_visits (coming K (iterated s)) apply_func f held P Hcall e _ _ _ _ _ _ _ st fuel Hget Hex Hrew He HP) as (it' & w3 & Hend & ->).
  - eapply at_ext; [exact Hcom|]. intros z. rewrite Hst. lia.
  - by rewrite Hlen.
  - destruct w3 as [o' m']. destruct Hend as (s' & xs' & a & vs & fl' & HS' & HK & Ha & Hv' & Hfin'). simpl in *. inversion Hv'; subst.
    destruct (c_ptr it') eqn:Hit; [done|]. unfold spl_dllist_it_dtor. rewrite Hit. cbn [SPL_LLIST_CHECK_DELREF obind]. exists m', o', xs'. split; [done|].
    rewrite Hfin'. destruct s' as [v' c' p' f']. simpl in *. destruct HS' as (HR' & HS'). split; [|split; [apply HS'|split; [apply HS'|split; [apply HS'|done]]]].
    eapply rep_K_ext; [exact HR'|]. intros p. rewrite plus1_swap. unfold plus1. simpl. lia.
Qed.

(** ** Cloning and destruction *)

(** Two objects beside each other: each counts the other's references. *)
Definition beside m o s xs o2 s2 ys K e : Prop :=
  stands m o s xs (λ p, plus1 (c_ptr (cur o2)) K p + member ys p) (λ z, e z + 2 * occ z (a_vals s2)) ∧
  stands m o2 s2 ys (λ p, plus1 (c_ptr (cur o)) K p + member xs p) (λ z, e z + 2 * occ z (a_vals s)) ∧
  (∀ p, p ∈ xs → p ∉ ys) ∧ (∀ p, c_ptr (cur o2) = Some p → c_ptr (cur o) ≠ Some p) ∧ (∀ p, 0 ≤ K p) ∧ ∀ z, 0 ≤ e z.

Lemma beside_sym m o s xs o2 s2 ys K e : beside m o s xs o2 s2 ys K e → beside m o2 s2 ys o s xs K e.
Proof. intros (H1 & H2 & Hd & Hc & ?). split; [done|]. split; [done|]. split; [intros p Hp Hq; by apply (Hd p)|]. split; [|done]. intros p Hp Hq. by apply (Hc p). Qed.

(** A cursor is not at an element that belongs to another list. *)
Lemma cur_outside h l ys vs K xs c a q : elems h l ys vs K → cur_rel h xs c a → (∀ p, p ∈ xs → p ∉ ys) → c = Some q → q ∉ ys.
Proof.
  intros HE Ha Hd ->. destruct a as [|i|]; [done| |]; simpl in Ha; [by apply Hd; eapply list_elem_of_lookup_2|].
  destruct Ha as [_ Ha]. intros [j Hj]%list_elem_of_lookup. destruct (elems_lookup _ _ _ _ _ HE _ _ Hj) as (v & _ & Hv). congruence.
Qed.

Lemma free_beside m o s xs o2 s2 ys K e : beside m o s xs o2 s2 ys K e →
  ∃ m', spl_dllist_object_free_storage o2 m = OK m' ∧ stands m' o s xs K e.
Proof.
  intros ((HR & Hc & Hpos & Hfl & _) & (HR2 & Hc2 & _ & _ & HK2) & Hd & Hcc & HK & He). destruct (free_storage_spec _ _ _ _ _ _ HR2 HK2) as (m' & Hrun & (HE' & Hr' & _) & Hframe).
  exists m'. split; [done|]. pose proof HR as (HE & _). pose proof HR2 as (HE2 & _).
  assert (∀ p, p ∈ ys → p ∉ xs) as Hd' by (intros p Hp Hq; by apply (Hd p)).
  assert (∀ q, q ∈ xs → eheap m' !! q = eheap m !! q) as Hx.
  { intros q Hq. apply Hframe; [by apply Hd|]. intros E. by apply (cur_outside _ _ xs _ _ ys _ _ q HE Hc2 Hd' E). }
  split; [split; [|split; [|done]]|split; [|done]].
  - eapply (elems_frame (eheap m)); [exact HE| |by apply plus1_nonneg|].
    + intros q Hq. unfold dview, ddata. by rewrite Hx.
    + intros p. rewrite (el_rc _ _ _ _ _ HE'). unfold member at 1. rewrite decide_False by apply not_elem_of_nil. f_equal. lia.
  - eapply refs_ext; [|exact Hr']. intros z. simpl. lia.
  - eapply cur_data; [|exact Hc]. intros p Hp. unfold ddata. rewrite Hframe; [done| |].
    + by eapply cur_outside; [exact HE2|exact Hc|exact Hd|].
    + intros E. by apply (Hcc p).
Qed.

Definition cloned (c : dllist_class) s : aseq := mkSeq (a_vals s) (match a_vals s with [] => ANone | _ => AAt 0 end) 0 (class_flags c (a_flags s)).

Lemma clone_beside c m o s xs K e : stands m o s xs K e → ∃ o2 m2 ys, spl_dllist_object_clone c o m = OK (o2, m2) ∧ beside m2 o s xs o2 (cloned c s) ys K e.
Proof.
  intros (HR & Hc & Hpos & Hfl & HK). pose proof HR as (HE & _ & He). destruct (dl_copy_spec _ _ _ _ _ _ HR) as (m1 & to & ys & Hrun & (HF & HT & Hd) & Hframe).
  unfold spl_dllist_object_clone. rewrite Hrun. cbn [obind]. pose proof HT as (HTE & _ & _). pose proof HF as (HFE & _ & _).
  assert (∃ h2, SPL_LLIST_CHECK_ADDREF (l_head to) m1 = OK (set_eheap h2 m1) ∧ (∀ p, ddata h2 p = ddata (eheap m1) p) ∧
    ∀ l zs ws Q, elems (eheap m1) l zs ws Q → elems h2 l zs ws (plus1 (l_head to) Q)) as (h2 & Hadd & Hd2 & He2).
  { rewrite (el_head _ _ _ _ _ HTE). destruct ys as [|y ys]; simpl.
    - exists (eheap m1). split; [by destruct m1|]. split; [done|]. intros l zs ws Q HQ. eapply (elems_frame (eheap m1)); [exact HQ|done|apply plus1_nonneg, HQ|].
      intros p. rewrite (el_rc _ _ _ _ _ HQ). f_equal. unfold plus1. simpl. lia.
    - destruct (elems_live _ _ _ _ _ HTE y) as [x Hx]; [by left|]. unfold ederef. rewrite Hx. cbn [obind rd]. rewrite estore_alive by (by rewrite Hx).
      eexists. split; [done|]. split; [|intros l zs ws Q HQ; by apply elems_addref].
      intros p. unfold ddata. rewrite lookup_alter. case_decide; [|done]. subst. by rewrite Hx. }
  rewrite Hadd, Hfl. cbn [obind]. eexists _, _, ys. split; [reflexivity|].
  assert (∀ p, c_ptr (cur o) = Some p → (p ∉ ys) ∧ eheap m1 !! p = eheap m !! p) as Hcur.
  { intros p Hp. apply Hframe. eapply elems_live_K; [exact HE|]. rewrite Hp, plus1_same. specialize (HK p). lia. }
  split; [|split; [|split; [exact Hd|split; [|done]]]].
  - split; [|split; [|split; [done|split; [done|]]]].
    + destruct HF as (_ & Hr & ?). split; [|done]. apply He2 in HFE. eapply (elems_frame h2); [exact HFE|done| |].
      * intros p. pose proof (plus1_nonneg (c_ptr (cur o)) _ (plus1_nonneg (l_head to) _ HK) p) as Hp. unfold plus1 in *. unfold member. simpl. repeat case_decide; lia.
      * intros p. rewrite (el_rc _ _ _ _ _ HFE). f_equal. unfold plus1. simpl. lia.
    + simpl. eapply cur_data; [|exact Hc]. intros p Hp. rewrite Hd2. unfold ddata. by rewrite (proj2 (Hcur p Hp)).
    + intros p. pose proof (plus1_nonneg (l_head to) _ HK p). simpl. unfold member. case_decide; lia.
  - split; [|split; [|split; [done|split; [done|]]]].
    + destruct HT as (_ & Hr & ?). split; [|done]. by apply He2.
    + simpl. rewrite (el_head _ _ _ _ _ HTE). pose proof (elems_length _ _ _ _ _ HTE). by destruct ys, (a_vals s).
    + intros p. pose proof (plus1_nonneg (c_ptr (cur o)) _ HK p). simpl. unfold member. case_decide; lia.
  - simpl. intros p Hp Hq. destruct (Hcur p Hq) as [Hin _]. apply Hin. rewrite (el_head _ _ _ _ _ HTE) in Hp. by apply hd_or_elem.
Qed.

(** *** Arrays from lists *)

(** The array with the keys of the iteration; in a first-in-first-out mode that
    deletes every key is 0, and the array has the last value only. *)
Definition keyed (f : Z) (vs : list zval) : list (akey * zval) :=
  if lifo f then (λ x, (KIdx x.1, x.2)) <$> reverse (numbered vs)
  else if deletes f then match last vs with Some v => [(KIdx 0, v)] | None => [] end
  else (λ x, (KIdx x.1, x.2)) <$> numbered vs.

Lemma to_array_distinct es : NoDup es.*1 → (∀ x, x ∈ es → is_ulong x.1) →
  items (foldl to_array_step array_init es) = (λ x, (KIdx x.1, x.2)) <$> es.
Proof.
  intros Hnd Hr. assert ((λ x : Z * zval, KIdx (to_ulong x.1)) <$> es = KIdx <$> es.*1) as Hk.
  { rewrite <- list_fmap_compose. apply list_fmap_ext. intros i x Hx. simpl. unfold to_ulong. rewrite ulong_wrap_id; [done|]. by eapply Hr, list_elem_of_lookup_2. }
  rewrite to_array_items.
  - simpl. apply list_fmap_ext. intros i x Hx. unfold to_ulong. rewrite ulong_wrap_id; [done|]. by eapply Hr, list_elem_of_lookup_2.
  - rewrite Hk. apply NoDup_fmap_2; [|done]. by intros x y [= ->].
  - intros x _. apply not_elem_of_nil.
Qed.

Lemma to_array_zeros (vs : list zval) a : (items a = [] ∨ ∃ v, items a = [(KIdx 0, v)]) →
  items (foldl to_array_step a ((λ v, (0, v)) <$> vs)) = match last vs with Some v => [(KIdx 0, v)] | None => items a end.
Proof.
  revert a. induction vs as [|v vs IH]; intros a Ha; [done|]. csimpl.
  assert (items (to_array_step a (0, v)) = [(KIdx 0, v)]) as Hi by (unfold to_array_step; cbn [items fst snd]; destruct Ha as [->|[w ->]]; done).
  rewrite IH by (right; eauto). rewrite Hi, last_cons. by destruct (last vs).
Qed.

Lemma numbered_keys vs : NoDup (numbered vs).*1 ∧ ∀ x, x ∈ numbered vs → 0 ≤ x.1 < Z.of_nat (length vs).
Proof.
  assert ((numbered vs).*1 = Z.of_nat <$> seq 0 (length vs)) as Hk.
  { apply list_eq. intros i. unfold numbered. rewrite !list_lookup_fmap, list_lookup_imap. destruct (vs !! i) eqn:Hi.
    - rewrite lookup_seq_lt by by eapply lookup_lt_Some. done.
    - rewrite lookup_seq_ge by by apply lookup_ge_None. done. }
  split; [rewrite Hk; apply NoDup_fmap_2; [apply _|apply NoDup_seq]|].
  intros [k v] [i Hx]%list_elem_of_lookup. unfold numbered in Hx. rewrite list_lookup_imap in Hx. destruct (vs !! i) eqn:Hi; [|done].
  apply lookup_lt_Some in Hi. simpl in Hx. injection Hx as <- _. simpl. lia.
Qed.

Lemma keyed_spec f vs : Z.of_nat (length vs) ≤ INT_MAX → items (foldl to_array_step array_init (entries f vs)) = keyed f vs.
Proof.
  intros Hmax. destruct (numbered_keys vs) as [Hnd Hr]. unfold INT_MAX in Hmax. unfold entries, keyed. destruct (lifo f); [|destruct (deletes f)].
  - apply to_array_distinct; [by rewrite fmap_reverse, reverse_Permutation|]. intros x Hx. rewrite elem_of_reverse in Hx. specialize (Hr x Hx). lia.
  - rewrite to_array_zeros by by left. done.
  - apply to_array_distinct; [done|]. intros x Hx. specialize (Hr x Hx). lia.
Qed.

(** A run of several operations, with their results. *)
Fixpoint dl_run (ops : list dl_op) o m : outcome (list dret * spl_dllist_object * dmem) :=
  match ops with
  | [] => OK ([], o, m)
  | op :: ops => let* (r, o, m) := dl_do op o m in let* (rs, o, m) := dl_run ops o m in OK (r :: rs, o, m)
  end.
End refinement.

(** ** Concrete lists *)

#[local] Existing Instance bump_malloc.
Definition ex_o : spl_dllist_object := spl_dllist_object_new SplDoublyLinkedList_ce.
Definition ex_m : dmem := mkMem ∅ {[ 5%positive := 1; 7%positive := 2; 9%positive := 1 ]}.
Definition ex_e (z : zval) : Z := default 0 (zrefs ex_m !! z).
Definition ex_two : spl_dllist_object * dmem :=
  match dl_run [Push 5 false; Push 7 false] ex_o ex_m with OK (_, o, m) => (o, m) | _ => (ex_o, ex_m) end.

Lemma ex_stands : stands ex_m ex_o (mkSeq [] ANone 0 0) [] (λ _, 0) ex_e.
Proof.
  assert (∀ z, 0 ≤ ex_e z ∧ zrefs ex_m !! z = present (ex_e z)) as He.
  { intros z. unfold ex_e, ex_m. simpl. destruct (decide (z = 5%positive)) as [->|]; [done|]. destruct (decide (z = 7%positive)) as [->|]; [done|].
    destruct (decide (z = 9%positive)) as [->|]; [done|]. rewrite !lookup_insert_ne, lookup_singleton_ne by done. done. }
  split; [|done]. split; [|split; [|apply He]].
  - split; try done. apply NoDup_nil_2.
  - eapply refs_ext; [|exact He]. intros z. simpl. lia.
Qed.

Lemma ex_two_stands : ∃ xs, stands ex_two.2 ex_two.1 (mkSeq [5%positive; 7%positive] ANone 0 0) xs (λ _, 0) ex_e.
Proof.
  destruct (push_refines _ _ _ _ _ _ 5%positive false ex_stands) as (w & r & s1 & fl & o1 & m1 & xs1 & Hw & Hrun & Hsp & HS1 & _); [done|].
  simpl in Hw, Hsp. subst w. injection Hsp as <- <- <-.
  assert (zrefs m1 !! 7%positive = Some 2) as H7. { vm_compute in Hrun. injection Hrun as <- <-. done. }
  destruct (push_refines _ _ _ _ _ _ 7%positive false HS1) as (w & r & s2 & fl & o2 & m2 & xs2 & Hw & Hrun2 & Hsp & HS2 & _); [split; [intros _; by rewrite H7|done]|].
  simpl in Hw, Hsp. subst w. injection Hsp as <- <- <-. exists xs2.
  assert (ex_two = (o2, m2)) as ->; [|exact HS2]. unfold ex_two. cbn [dl_run]. rewrite Hrun. cbn [obind]. by rewrite Hrun2.
Qed.

(** ** The theorems *)

(** C31: An object of SplDoublyLinkedList, SplQueue or SplStack is a sequence of
    values with a cursor: push, unshift, pop, shift, top, bottom, the array
    access by index in both directions, add, the modes and the own iterator do
    what the specification [dl_spec] says on every branch, thrown exceptions
    included; every element and every value keeps exactly the references it
    should, and other cursors (iterators) into the list follow the change.
    What an operation needs is [permitted]: values are live, fewer than INT_MAX
    elements are in the list when one is added, and next and prev are not called
    while the element under the cursor has been removed (there the code can
    follow a dangling pointer, see [dllist_defects]).  The specification of add
    is the code's: in LIFO mode the new value gets the index after the given
    one, although the comment on the method says before. *)
Theorem dllist_refines `{PEMalloc} op m o s xs K e : stands m o s xs K e → permitted op s m → does op o m s xs K e.
Proof.
  intros HS Hp. pose proof HS as (_ & _ & _ & Hfl & _). destruct op; auto using push_refines, unshift_refines, pop_refines, shift_refines, exists_refines, get_refines, setat_refines,
    unset_refines, add_refines, rewind_refines, mode_refines; try by apply look_refines.
  - destruct (move_refines _ _ _ _ _ _ (a_flags s) HS Hp) as (o' & m' & xs' & Hrun & HS' & Hfol).
    exists xH, RNull, (amove_seq (a_flags s) s).1, (amove_seq (a_flags s) s).2, o', m', xs'. split; [done|]. split; [by rewrite <- Hfl in Hrun|done].
  - destruct (move_refines _ _ _ _ _ _ (Z.lxor (a_flags s) SPL_DLLIST_IT_LIFO) HS Hp) as (o' & m' & xs' & Hrun & HS' & Hfol).
    exists xH, RNull, (amove_seq (Z.lxor (a_flags s) SPL_DLLIST_IT_LIFO) s).1, (amove_seq (Z.lxor (a_flags s) SPL_DLLIST_IT_LIFO) s).2, o', m', xs'. split; [done|].
    split; [by rewrite <- Hfl in Hrun|done].
Qed.

Lemma dllist_refines_witness : ∃ xs, stands ex_two.2 ex_two.1 (mkSeq [5%positive; 7%positive] ANone 0 0) xs (λ _, 0) ex_e ∧
  does (Unset (IS_LONG_offset 0)) ex_two.1 ex_two.2 (mkSeq [5%positive; 7%positive] ANone 0 0) xs (λ _, 0) ex_e.
Proof.
  destruct ex_two_stands as [xs HS]. exists xs. split; [exact HS|].
  exact (dllist_refines (Unset (IS_LONG_offset 0)) ex_two.2 ex_two.1 _ xs _ _ HS eq_refl).
Defined.

(** C32: A traversal of a list with its iterator, as iterator_to_array() and
    iterator_count() make it, ends and visits the values in the order of the
    mode, each once: from the head, from the tail, or emptying the list in the
    modes that delete.  The array holds one reference to each of its values; the
    list keeps its own and, unless the mode deletes, is as before. *)
Theorem dllist_traversal `{PEMalloc} m o s xs K e fuel : stands m o s xs K e → (length (a_vals s) < fuel)%nat →
  let vs := entries (a_flags s) (a_vals s) in
  (∃ m' o' xs' a, iterator_to_array fuel dllist_get_iterator false (o, m) = OK (Some a, (o', m')) ∧
    items a = imap (λ i x, (KIdx (Z.of_nat i), x.2)) vs ∧ stands m' o' (iterated s) xs' K (λ z, e z + array_refs a z)) ∧
  (∃ m' o' xs' a, iterator_to_array fuel dllist_get_iterator true (o, m) = OK (Some a, (o', m')) ∧
    items a = keyed (a_flags s) (a_vals s) ∧ stands m' o' (iterated s) xs' K (λ z, e z + array_refs a z)) ∧
  ∃ m' o' xs', iterator_count fuel dllist_get_iterator (o, m) = OK (Some (Z.of_nat (length (a_vals s))), (o', m')) ∧
    stands m' o' (iterated s) xs' K e.
Proof.
  intros HS Hf vs. pose proof HS as ((HE & _) & _). pose proof (el_max _ _ _ _ _ HE) as Hmax. pose proof (entries_length (a_flags s) (a_vals s)) as Hlen.
  assert (Z.of_nat (length vs) < LONG_MAX) as Hlong by (unfold vs; rewrite Hlen; unfold INT_MAX, LONG_MAX in *; lia). split_and!.
  - destruct (apply_dllist spl_iterator_to_values_apply to_values_step array_refs (λ a es, appended a ∧ next_free a + Z.of_nat (length es) <= LONG_MAX)
      m o s xs K e array_init fuel) as (m' & o' & xs' & Hrun & HS'); try done.
    + intros e1 it w x es a He1 [Ha Hn] Hc. cbn [length] in Hn. destruct (to_values_call (coming K (iterated s)) e1 it w x es a) as [Ha' Hw]; [done|lia|done|].
      split; [|exact Hw]. split; [done|]. rewrite to_values_next by (done || lia). lia.
    + split; [apply appended_init|]. simpl. fold vs. lia.
    + eexists m', o', xs', _. split; [unfold iterator_to_array; rewrite Hrun; reflexivity|]. split; [|exact HS'].
      rewrite to_values_items by (apply appended_init || simpl; fold vs; lia). done.
  - destruct (apply_dllist spl_iterator_to_array_apply to_array_step array_refs (λ _ _, True) m o s xs K e array_init fuel) as (m' & o' & xs' & Hrun & HS'); try done.
    + intros e1 it w x es a He1 _ Hc. split; [done|]. by apply (to_array_call (coming K (iterated s))).
    + eexists m', o', xs', _. split; [unfold iterator_to_array; rewrite Hrun; reflexivity|]. split; [|exact HS']. by apply keyed_spec.
  - destruct (apply_dllist spl_iterator_count_apply (λ n _, n + 1) (λ _ _, 0) (λ n es, n + Z.of_nat (length es) <= LONG_MAX) m o s xs K e 0 fuel)
      as (m' & o' & xs' & Hrun & HS'); try done.
    + intros e1 it w x es n He1 Hn Hc. cbn [length] in Hn. split; [lia|]. exists w. unfold spl_iterator_count_apply. by rewrite (proj2 (Z.ltb_ge _ _)) by lia.
    + simpl. fold vs. lia.
    + exists m', o', xs'. split; [|eapply stands_refs_ext; [exact HS'|]; intros z; simpl; lia].
      unfold iterator_count. rewrite Hrun. cbn [obind]. do 3 f_equal. rewrite foldl_count, Hlen. lia.
Qed.

Lemma dllist_traversal_witness : ∃ xs, stands ex_two.2 ex_two.1 (mkSeq [5%positive; 7%positive] ANone 0 0) xs (λ _, 0) ex_e ∧
  ∃ w' a, iterator_to_array 3 dllist_get_iterator true ex_two = OK (Some a, w') ∧ items a = [(KIdx 0, 5%positive); (KIdx 1, 7%positive)].
Proof.
  destruct ex_two_stands as [xs HS]. exists xs. split; [exact HS|].
  destruct (dllist_traversal ex_two.2 ex_two.1 _ xs _ _ 3 HS ltac:(simpl; lia)) as (_ & (m' & o' & xs' & a & Hrun & Ha & _) & _).
  exists (o', m'), a. split; [exact Hrun|exact Ha].
Defined.

(** C33: A clone has elements of its own and shares the values; its cursor is at
    the first one, and its class adds its flags.  Destroying either of the two
    leaves the other one as the only owner, with every reference given back. *)
Theorem dllist_clone_destroy `{PEMalloc} c m o s xs K e : stands m o s xs K e →
  ∃ o2 m2 ys, spl_dllist_object_clone c o m = OK (o2, m2) ∧ beside m2 o s xs o2 (cloned c s) ys K e ∧
    (∃ m3, spl_dllist_object_free_storage o2 m2 = OK m3 ∧ stands m3 o s xs K e) ∧
    (∃ m3, spl_dllist_object_free_storage o m2 = OK m3 ∧ stands m3 o2 (cloned c s) ys K e).
Proof.
  intros HS. destruct (clone_beside c _ _ _ _ _ _ HS) as (o2 & m2 & ys & Hrun & HB). exists o2, m2, ys. split; [done|]. split; [done|].
  split; eapply free_beside; [exact HB|by apply beside_sym].
Qed.

Lemma dllist_clone_destroy_witness : ∃ xs, stands ex_two.2 ex_two.1 (mkSeq [5%positive; 7%positive] ANone 0 0) xs (λ _, 0) ex_e ∧
  ∃ o2 m2, spl_dllist_object_clone SplStack_ce ex_two.1 ex_two.2 = OK (o2, m2).
Proof.
  destruct ex_two_stands as [xs HS]. exists xs. split; [exact HS|].
  destruct (dllist_clone_destroy SplStack_ce ex_two.2 ex_two.1 _ xs _ _ HS) as (o2 & m2 & ys & Hrun & _). exists o2, m2. exact Hrun.
Defined.

(** Concrete runs outside the contract.  A cursor at a removed element whose
    neighbour is removed as well follows a dangling pointer: [rewind], two
    [shift]s and [next] read freed memory.  [setIteratorMode] loses the flag
    that fixes the direction of a stack, so that a second call can change it.
    [add] on a stack puts the new value at the index after the given one. *)
Theorem dllist_defects :
  dl_run [Push 5 false; Push 7 false; Rewind; Shift; Shift; Next] ex_o ex_m = UB ∧
  (let stack := spl_dllist_object_new SplStack_ce in
   (∃ m, dl_run [SetMode 0] stack ex_m = OK ([RThrow RuntimeException], stack, m)) ∧
   (∃ o m, dl_run [SetMode 2; SetMode 0] stack ex_m = OK ([RLong 2; RLong 0], o, m) ∧ flags o = 0) ∧
   ∃ o m, dl_run [Push 5 false; Push 7 false; AddAt (IS_LONG_offset 0) 9; Get (IS_LONG_offset 0); Get (IS_LONG_offset 1)] stack ex_m =
     OK ([RBool true; RBool true; RNull; RZval 7; RZval 9], o, m)).
Proof.
  split; [by vm_compute|]. cbv zeta. split; [eexists; vm_compute; reflexivity|].
  split; [eexists _, _; split; [vm_compute; reflexivity|done]|]. eexists _, _. vm_compute. reflexivity.
Qed.
