(* ===== verification/ZendArith.v ===== *)
(** Integer arithmetic of Zend/zend_operators.c and .h: addition,
    subtraction, multiplication, division, remainder and increment of zvals,
    with the switch to [double] on overflow.

    A zval is a type and a union; the operations read and write zvals in a
    store, so that [result] may be the same zval as an operand, as it is for
    [$a += $b].  [double] is a parameter; so are the paths for operands that
    are not numbers.  A [long] sum, difference or product that does not fit
    wraps around, as on the machines the engine is built for. *)

From S2P Require Import Prelude.

Inductive ztype := IS_NULL | IS_LONG | IS_DOUBLE | IS_BOOL | IS_ARRAY | IS_OBJECT | IS_STRING | IS_RESOURCE.
#[export] Instance ztype_eq_dec : EqDecision ztype.
Proof. solve_decision. Defined.

Definition LONG_SIGN_MASK : Z := - 2 ^ 63.
(** The [long] an arithmetic result wraps around to. *)
Definition long_wrap (z : Z) : Z := to_long (ulong_wrap z).
Abbreviation is_long z := (- 2 ^ 63 <= z < 2 ^ 63).

(** [double]: the operations the code uses. *)
Class Double := {
  double : Type;
  d_of_long : Z → double;
  d_add : double → double → double;
  d_sub : double → double → double;
  d_mul : double → double → double;
  d_div : double → double → double;
  d_is_zero : double → bool;
}.

Section arith.
Context `{Double}.

(** The members of [zvalue_value] arithmetic uses. *)
Inductive uvalue :=
  | ULong (z : Z)
  | UDouble (d : double)
  | UOther.
Record zv := mkZv { ztag : ztype; zu : uvalue }.
Abbreviation store_ := (gmap positive zv).

(** [Z_TYPE_P], [Z_LVAL_P], [Z_DVAL_P] as values and as assignments. *)
Definition Z_TYPE_P (s : store_) (p : positive) : outcome ztype := let* v := rd (s !! p) in OK (ztag v).
Definition Z_LVAL_P (s : store_) (p : positive) : outcome Z :=
  let* v := rd (s !! p) in match zu v with ULong z => OK z | _ => UB end.
Definition Z_DVAL_P (s : store_) (p : positive) : outcome double :=
  let* v := rd (s !! p) in match zu v with UDouble d => OK d | _ => UB end.
Definition set_type (s : store_) (p : positive) (t : ztype) : outcome store_ := store s p (λ v, mkZv t (zu v)).
Definition set_lval (s : store_) (p : positive) (z : Z) : outcome store_ := store s p (λ v, mkZv (ztag v) (ULong z)).
Definition set_dval (s : store_) (p : positive) (d : double) : outcome store_ := store s p (λ v, mkZv (ztag v) (UDouble d)).

(** [ZVAL_LONG], [ZVAL_DOUBLE], [ZVAL_BOOL] *)
Definition ZVAL_LONG s p z : outcome store_ := let* s := set_lval s p z in set_type s p IS_LONG.
Definition ZVAL_DOUBLE s p d : outcome store_ := let* s := set_dval s p d in set_type s p IS_DOUBLE.
Definition ZVAL_BOOL s p (b : bool) : outcome store_ := let* s := set_lval s p (if b then 1 else 0) in set_type s p IS_BOOL.

Definition done_ (s : outcome store_) (r : zresult) : outcome (zresult * store_) := let* s := s in OK (r, s).

Definition sign_of (z : Z) : Z := Z.land z LONG_SIGN_MASK.

(** The binary operators with a conversion loop of their own. *)
Inductive zop := ZEND_ADD | ZEND_SUB | ZEND_MUL | ZEND_DIV | ZEND_MOD.

(** What an operator does with operands that are not both numbers: the
    object handlers, the conversions, the array union, the error. *)
Context (other : zop → store_ → positive → positive → positive → outcome (zresult * store_)).

Implicit Types (s : store_) (result op : positive).

(** The cases with a [double] operand of the addition, subtraction and
    multiplication. *)
Definition mixed (op : zop) (f : double → double → double) s result op1 op2 : outcome (zresult * store_) :=
  let* t1 := Z_TYPE_P s op1 in
  let* t2 := Z_TYPE_P s op2 in
  match t1, t2 with
  | IS_LONG, IS_DOUBLE =>
      let* a := Z_LVAL_P s op1 in let* b := Z_DVAL_P s op2 in done_ (ZVAL_DOUBLE s result (f (d_of_long a) b)) SUCCESS
  | IS_DOUBLE, IS_LONG =>
      let* a := Z_DVAL_P s op1 in let* b := Z_LVAL_P s op2 in done_ (ZVAL_DOUBLE s result (f a (d_of_long b))) SUCCESS
  | IS_DOUBLE, IS_DOUBLE =>
      let* a := Z_DVAL_P s op1 in let* b := Z_DVAL_P s op2 in done_ (ZVAL_DOUBLE s result (f a b)) SUCCESS
  | _, _ => other op s result op1 op2
  end.

(** The test for two [long] operands. *)
Definition both_long s op1 op2 : outcome bool :=
  let* t1 := Z_TYPE_P s op1 in
  let* t2 := Z_TYPE_P s op2 in
  OK (bool_decide (t1 = IS_LONG) && bool_decide (t2 = IS_LONG)).

Definition add_function s result op1 op2 : outcome (zresult * store_) :=
  let* ll := both_long s op1 op2 in
  if ll then
    let* a := Z_LVAL_P s op1 in
    let* b := Z_LVAL_P s op2 in
    let lval := long_wrap (a + b) in
    if (sign_of a =? sign_of b) && negb (sign_of a =? sign_of lval) then
      done_ (ZVAL_DOUBLE s result (d_add (d_of_long a) (d_of_long b))) SUCCESS
    else done_ (ZVAL_LONG s result lval) SUCCESS
  else mixed ZEND_ADD d_add s result op1 op2.

Definition sub_function s result op1 op2 : outcome (zresult * store_) :=
  let* ll := both_long s op1 op2 in
  if ll then
    let* a := Z_LVAL_P s op1 in
    let* b := Z_LVAL_P s op2 in
    let lval := long_wrap (a - b) in
    if negb (sign_of a =? sign_of b) && negb (sign_of a =? sign_of lval) then
      done_ (ZVAL_DOUBLE s result (d_sub (d_of_long a) (d_of_long b))) SUCCESS
    else done_ (ZVAL_LONG s result lval) SUCCESS
  else mixed ZEND_SUB d_sub s result op1 op2.

(** [ZEND_SIGNED_MULTIPLY_LONG] for x86-64: [imul] leaves the low 64 bits and
    sets the carry when they are not the product. *)
Definition ZEND_SIGNED_MULTIPLY_LONG (a b : Z) : Z * bool :=
  let tmp := long_wrap (a * b) in (tmp, negb (tmp =? a * b)).

Definition mul_function s result op1 op2 : outcome (zresult * store_) :=
  let* ll := both_long s op1 op2 in
  if ll then
    let* a := Z_LVAL_P s op1 in
    let* b := Z_LVAL_P s op2 in
    let '(tmp, overflow) := ZEND_SIGNED_MULTIPLY_LONG a b in
    let* s := if overflow : bool then set_dval s result (d_mul (d_of_long a) (d_of_long b)) else set_lval s result tmp in
    done_ (set_type s result (if overflow then IS_DOUBLE else IS_LONG)) SUCCESS
  else mixed ZEND_MUL d_mul s result op1 op2.

Definition div_function s result op1 op2 : outcome (zresult * store_) :=
  let* t1 := Z_TYPE_P s op1 in
  let* t2 := Z_TYPE_P s op2 in
  match t1, t2 with
  | IS_LONG, IS_LONG =>
      let* a := Z_LVAL_P s op1 in
      let* b := Z_LVAL_P s op2 in
      if b =? 0 then done_ (ZVAL_BOOL s result false) FAILURE
      else if (b =? -1) && (a =? LONG_MIN) then
        done_ (ZVAL_DOUBLE s result (d_div (d_of_long LONG_MIN) (d_of_long (-1)))) SUCCESS
      else if Z.rem a b =? 0 then done_ (ZVAL_LONG s result (Z.quot a b)) SUCCESS
      else done_ (ZVAL_DOUBLE s result (d_div (d_of_long a) (d_of_long b))) SUCCESS
  | IS_DOUBLE, IS_LONG =>
      let* b := Z_LVAL_P s op2 in
      if b =? 0 then done_ (ZVAL_BOOL s result false) FAILURE
      else let* a := Z_DVAL_P s op1 in done_ (ZVAL_DOUBLE s result (d_div a (d_of_long b))) SUCCESS
  | IS_LONG, IS_DOUBLE =>
      let* b := Z_DVAL_P s op2 in
      if d_is_zero b then done_ (ZVAL_BOOL s result false) FAILURE
      else let* a := Z_LVAL_P s op1 in done_ (ZVAL_DOUBLE s result (d_div (d_of_long a) b)) SUCCESS
  | IS_DOUBLE, IS_DOUBLE =>
      let* b := Z_DVAL_P s op2 in
      if d_is_zero b then done_ (ZVAL_BOOL s result false) FAILURE
      else let* a := Z_DVAL_P s op1 in done_ (ZVAL_DOUBLE s result (d_div a b)) SUCCESS
  | _, _ => other ZEND_DIV s result op1 op2
  end.

Definition mod_function s result op1 op2 : outcome (zresult * store_) :=
  let* ll := both_long s op1 op2 in
  if ll then
    let* op1_lval := Z_LVAL_P s op1 in
    let* b := Z_LVAL_P s op2 in
    if b =? 0 then done_ (ZVAL_BOOL s result false) FAILURE
    else if b =? -1 then done_ (ZVAL_LONG s result 0) SUCCESS
    else done_ (ZVAL_LONG s result (Z.rem op1_lval b)) SUCCESS
  else other ZEND_MOD s result op1 op2.

(** * The inline versions, without inline assembly *)

(** The two [long]s are read again when the result is stored. *)
Definition fast_add_function s result op1 op2 : outcome (zresult * store_) :=
  let* ll := both_long s op1 op2 in
  if ll then
    let* a := Z_LVAL_P s op1 in
    let* b := Z_LVAL_P s op2 in
    if (sign_of a =? sign_of b) && negb (sign_of a =? sign_of (long_wrap (a + b))) then
      let* s := set_dval s result (d_add (d_of_long a) (d_of_long b)) in
      done_ (set_type s result IS_DOUBLE) SUCCESS
    else
      let* s := set_lval s result (long_wrap (a + b)) in
      done_ (set_type s result IS_LONG) SUCCESS
  else mixed ZEND_ADD d_add s result op1 op2.

(** Here [result] is written before the signs of the operands are read. *)
Definition fast_sub_function s result op1 op2 : outcome (zresult * store_) :=
  let* ll := both_long s op1 op2 in
  if ll then
    let* a := Z_LVAL_P s op1 in
    let* b := Z_LVAL_P s op2 in
    let* s := set_lval s result (long_wrap (a - b)) in
    let* a := Z_LVAL_P s op1 in
    let* b := Z_LVAL_P s op2 in
    let* r := Z_LVAL_P s result in
    if negb (sign_of a =? sign_of b) && negb (sign_of a =? sign_of r) then
      let* s := set_dval s result (d_sub (d_of_long a) (d_of_long b)) in
      done_ (set_type s result IS_DOUBLE) SUCCESS
    else done_ (set_type s result IS_LONG) SUCCESS
  else mixed ZEND_SUB d_sub s result op1 op2.

Definition fast_mul_function s result op1 op2 : outcome (zresult * store_) :=
  let* ll := both_long s op1 op2 in
  if ll then
    let* a := Z_LVAL_P s op1 in
    let* b := Z_LVAL_P s op2 in
    let '(tmp, overflow) := ZEND_SIGNED_MULTIPLY_LONG a b in
    let* s := if overflow : bool then set_dval s result (d_mul (d_of_long a) (d_of_long b)) else set_lval s result tmp in
    done_ (set_type s result (if overflow then IS_DOUBLE else IS_LONG)) SUCCESS
  else mixed ZEND_MUL d_mul s result op1 op2.

Definition fast_div_function s result op1 op2 : outcome (zresult * store_) := div_function s result op1 op2.

Definition fast_mod_function s result op1 op2 : outcome (zresult * store_) :=
  let* ll := both_long s op1 op2 in
  if ll then
    let* b := Z_LVAL_P s op2 in
    if b =? 0 then
      let* s := set_lval s result 0 in done_ (set_type s result IS_BOOL) FAILURE
    else if b =? -1 then
      let* s := set_lval s result 0 in done_ (set_type s result IS_LONG) SUCCESS
    else
      let* a := Z_LVAL_P s op1 in
      let* s := set_lval s result (Z.rem a b) in
      done_ (set_type s result IS_LONG) SUCCESS
  else mod_function s result op1 op2.

(** Increment and decrement of a [long]. *)
Definition fast_increment_long s op1 : outcome store_ :=
  let* a := Z_LVAL_P s op1 in
  if a =? LONG_MAX then
    let* s := set_dval s op1 (d_add (d_of_long LONG_MAX) (d_of_long 1)) in set_type s op1 IS_DOUBLE
  else set_lval s op1 (a + 1).

Definition fast_decrement_long s op1 : outcome store_ :=
  let* a := Z_LVAL_P s op1 in
  if a =? LONG_MIN then
    let* s := set_dval s op1 (d_sub (d_of_long LONG_MIN) (d_of_long 1)) in set_type s op1 IS_DOUBLE
  else set_lval s op1 (a - 1).

End arith.
