(* ===== verification/ArithProps.v ===== *)
(** The arithmetic operators are exact: the result is the [long] when it
    fits and the [double] operation otherwise. *)

From S2P Require Import Prelude ZendArith.

(** * Machine arithmetic *)

Lemma sign_of_spec z : is_long z → sign_of z = if z <? 0 then - 2 ^ 63 else 0.
Proof.
  intros Hz. unfold sign_of, LONG_SIGN_MASK.
  replace (- 2 ^ 63) with (Z.lnot (Z.ones 63)) by done. rewrite <- Z.ldiff_land, Z.ldiff_ones_r by lia.
  rewrite Z.shiftr_div_pow2, Z.shiftl_mul_pow2 by lia. destruct (Z.ltb_spec z 0).
  - replace (z / 2 ^ 63) with (-1); [done|]. apply (Z.div_unique z (2 ^ 63) (-1) (z + 2 ^ 63)); lia.
  - by rewrite Z.div_small by lia.
Qed.

Lemma long_wrap_id z : is_long z → long_wrap z = z.
Proof.
  intros Hz. unfold long_wrap, ulong_wrap, to_long. destruct (decide (0 <= z)).
  - rewrite Z.mod_small by lia. by rewrite (proj2 (Z.ltb_lt _ _)) by lia.
  - rewrite <- (Z.mod_add z 1), Z.mod_small by lia. rewrite (proj2 (Z.ltb_ge _ _)) by lia. lia.
Qed.

Lemma long_wrap_range z : is_long (long_wrap z).
Proof.
  unfold long_wrap, to_long. pose proof (ulong_wrap_range z). destruct (Z.ltb_spec (ulong_wrap z) (2 ^ 63)); lia.
Qed.

Lemma long_wrap_once z : - 2 ^ 64 <= z < 2 ^ 64 →
  long_wrap z = if z <? - 2 ^ 63 then z + 2 ^ 64 else if z <? 2 ^ 63 then z else z - 2 ^ 64.
Proof.
  intros Hz. destruct (Z.ltb_spec z (- 2 ^ 63)); [|destruct (Z.ltb_spec z (2 ^ 63)); [by apply long_wrap_id; lia|]].
  - rewrite <- (long_wrap_id (z + 2 ^ 64)) by lia. unfold long_wrap, ulong_wrap. by rewrite <- (Z.mod_add z 1), Z.mul_1_l by lia.
  - rewrite <- (long_wrap_id (z - 2 ^ 64)) by lia. unfold long_wrap, ulong_wrap.
    by rewrite <- (Z.mod_add (z - 2 ^ 64) 1), Z.mul_1_l, Z.sub_add by lia.
Qed.

Definition fits (z : Z) : bool := (- 2 ^ 63 <=? z) && (z <? 2 ^ 63).

Lemma fits_spec z : fits z = true ↔ is_long z.
Proof. unfold fits. rewrite andb_true_iff, Z.leb_le, Z.ltb_lt. lia. Qed.

(** Decides the comparisons left in a goal about signs. *)
Ltac split_signs :=
  repeat match goal with
  | |- context [?x <? ?y] => destruct (Z.ltb_spec x y)
  | |- context [?x <=? ?y] => destruct (Z.leb_spec x y)
  end; first [reflexivity | exfalso; lia].

(** The sign-bit tests detect exactly the results that do not fit. *)
Lemma add_overflow a b : is_long a → is_long b →
  (sign_of a =? sign_of b) && negb (sign_of a =? sign_of (long_wrap (a + b))) = negb (fits (a + b)).
Proof.
  intros Ha Hb. rewrite !sign_of_spec by (done || apply long_wrap_range). rewrite long_wrap_once by lia. unfold fits.
  destruct (Z.ltb_spec (a + b) (- 2 ^ 63)); [|destruct (Z.ltb_spec (a + b) (2 ^ 63))]; split_signs.
Qed.

Lemma sub_overflow a b : is_long a → is_long b →
  negb (sign_of a =? sign_of b) && negb (sign_of a =? sign_of (long_wrap (a - b))) = negb (fits (a - b)).
Proof.
  intros Ha Hb. rewrite !sign_of_spec by (done || apply long_wrap_range). rewrite long_wrap_once by lia. unfold fits.
  destruct (Z.ltb_spec (a - b) (- 2 ^ 63)); [|destruct (Z.ltb_spec (a - b) (2 ^ 63))]; split_signs.
Qed.

Lemma mul_overflow a b : negb (long_wrap (a * b) =? a * b) = negb (fits (a * b)).
Proof.
  f_equal. destruct (fits (a * b)) eqn:E.
  - apply fits_spec in E. rewrite long_wrap_id by done. apply Z.eqb_refl.
  - apply Z.eqb_neq. intros He. pose proof (long_wrap_range (a * b)) as Hr. rewrite He in Hr.
    apply fits_spec in Hr. congruence.
Qed.

Lemma fits_wrap z : fits z = true → long_wrap z = z.
Proof. intros Hf%fits_spec. by apply long_wrap_id. Qed.

(** * The operators *)

Section ops.
Context `{Double} (other : zop → gmap positive zv → positive → positive → positive → outcome (zresult * gmap positive zv)).
Implicit Types (s : gmap positive zv) (result op : positive).

Definition zlong (z : Z) : zv := mkZv IS_LONG (ULong z).
Definition zdouble (d : double) : zv := mkZv IS_DOUBLE (UDouble d).
(** The value of an integer operation whose exact result is [z] and whose
    [double] result is [d]. *)
Definition num (z : Z) (d : double) : zv := if fits z then zlong z else zdouble d.

Lemma store_insert {B} (m : gmap positive B) p f b : m !! p = Some b → store m p f = OK (<[p := f b]> m).
Proof. intros Hp. unfold store. by rewrite Hp. Qed.

Lemma write_twice s p u t : is_Some (s !! p) →
  (let* s := store s p (λ v, mkZv (ztag v) u) in store s p (λ v, mkZv t (zu v))) = OK (<[p := mkZv t u]> s).
Proof.
  intros [v Hv]. rewrite (store_insert _ _ _ v) by done. ob.
  rewrite (store_insert _ _ _ (mkZv (ztag v) u)) by (by rewrite lookup_insert_eq). by rewrite insert_insert_eq.
Qed.

Lemma ZVAL_LONG_ok s p z : is_Some (s !! p) → ZVAL_LONG s p z = OK (<[p := zlong z]> s).
Proof. apply write_twice. Qed.
Lemma ZVAL_DOUBLE_ok s p d : is_Some (s !! p) → ZVAL_DOUBLE s p d = OK (<[p := zdouble d]> s).
Proof. apply write_twice. Qed.
Lemma ZVAL_BOOL_ok s p b : is_Some (s !! p) → ZVAL_BOOL s p b = OK (<[p := mkZv IS_BOOL (ULong (if b then 1 else 0))]> s).
Proof. apply write_twice. Qed.

Section longs.
Context s result op1 op2 (a b : Z).
Hypothesis Hop1 : s !! op1 = Some (zlong a).
Hypothesis Hop2 : s !! op2 = Some (zlong b).
Hypothesis Hres : is_Some (s !! result).

Lemma both_longs : both_long s op1 op2 = OK true.
Proof. unfold both_long, Z_TYPE_P. rewrite Hop1, Hop2. done. Qed.

Lemma lval1 : Z_LVAL_P s op1 = OK a.
Proof. unfold Z_LVAL_P. by rewrite Hop1. Qed.
Lemma lval2 : Z_LVAL_P s op2 = OK b.
Proof. unfold Z_LVAL_P. by rewrite Hop2. Qed.

Lemma add_ok : is_long a → is_long b →
  add_function other s result op1 op2 = OK (SUCCESS, <[result := num (a + b) (d_add (d_of_long a) (d_of_long b))]> s) ∧
  fast_add_function other s result op1 op2 = add_function other s result op1 op2.
Proof.
  intros Ha Hb. unfold add_function, fast_add_function, num.
  rewrite both_longs. ob. rewrite lval1, lval2. ob. rewrite add_overflow by done.
  destruct (fits (a + b)) eqn:E; cbn [negb]; unfold done_.
  - rewrite ZVAL_LONG_ok, (fits_wrap _ E) by done. split; [done|].
    unfold set_lval, set_type. pose proof (write_twice s result (ULong (a + b)) IS_LONG Hres) as Hw. revert Hw.
    destruct (store s result _) as [s'| |]; simpl; try done. by intros ->.
  - rewrite ZVAL_DOUBLE_ok by done. split; [done|].
    unfold set_dval, set_type.
    pose proof (write_twice s result (UDouble (d_add (d_of_long a) (d_of_long b))) IS_DOUBLE Hres) as Hw. revert Hw.
    destruct (store s result _) as [s'| |]; simpl; try done. by intros ->.
Qed.

Lemma sub_ok : is_long a → is_long b →
  sub_function other s result op1 op2 = OK (SUCCESS, <[result := num (a - b) (d_sub (d_of_long a) (d_of_long b))]> s).
Proof.
  intros Ha Hb. unfold sub_function, num. rewrite both_longs. ob. rewrite lval1, lval2. ob. rewrite sub_overflow by done.
  destruct (fits (a - b)) eqn:E; cbn [negb]; unfold done_.
  - by rewrite ZVAL_LONG_ok, (fits_wrap _ E) by done.
  - by rewrite ZVAL_DOUBLE_ok by done.
Qed.

Lemma mul_ok :
  mul_function other s result op1 op2 = OK (SUCCESS, <[result := num (a * b) (d_mul (d_of_long a) (d_of_long b))]> s) ∧
  fast_mul_function other s result op1 op2 = mul_function other s result op1 op2.
Proof.
  split; [|done]. unfold mul_function, num, ZEND_SIGNED_MULTIPLY_LONG. rewrite both_longs. ob. rewrite lval1, lval2. ob.
  rewrite mul_overflow. destruct (fits (a * b)) eqn:E; cbn [negb]; unfold done_, set_lval, set_dval, set_type.
  - pose proof (write_twice s result (ULong (a * b)) IS_LONG Hres) as Hw. revert Hw. rewrite (fits_wrap _ E).
    destruct (store s result _) as [s'| |]; simpl; try done. by intros ->.
  - pose proof (write_twice s result (UDouble (d_mul (d_of_long a) (d_of_long b))) IS_DOUBLE Hres) as Hw. revert Hw.
    destruct (store s result _) as [s'| |]; simpl; try done. by intros ->.
Qed.

(** Division: an exact quotient is a [long], anything else a [double]; the
    only exact quotient that does not fit is [LONG_MIN / -1]. *)
Lemma div_ok : is_long a → is_long b →
  div_function other s result op1 op2 =
    if b =? 0 then OK (FAILURE, <[result := mkZv IS_BOOL (ULong 0)]> s)
    else OK (SUCCESS, <[result := if (Z.rem a b =? 0) && fits (Z.quot a b) then zlong (Z.quot a b)
                                  else zdouble (d_div (d_of_long a) (d_of_long b))]> s).
Proof.
  intros Ha Hb. unfold div_function, Z_TYPE_P, done_. rewrite Hop1, Hop2. cbn [obind rd ztag zlong]. rewrite lval1, lval2. ob.
  destruct (Z.eqb_spec b 0) as [->|Hb0]; [by rewrite ZVAL_BOOL_ok|].
  destruct (Z.eqb_spec b (-1)) as [->|Hb1]; cbn [andb].
  - assert (Z.rem a (-1) = 0) as -> by (change (-1) with (Z.opp 1); by rewrite Z.rem_opp_r, Z.rem_1_r by lia).
    assert (Z.quot a (-1) = - a) as -> by (change (-1) with (Z.opp 1); by rewrite Z.quot_opp_r, Z.quot_1_r by lia).
    cbn [Z.eqb andb].
    destruct (Z.eqb_spec a LONG_MIN) as [->|Hm]; [by rewrite ZVAL_DOUBLE_ok|].
    rewrite ZVAL_LONG_ok by done. ob. rewrite (proj2 (fits_spec (- a))) by (unfold LONG_MIN in Hm; lia). done.
  - assert (is_long (Z.quot a b)) as Hq.
    { destruct (decide (b = 1)) as [->|]; [by rewrite Z.quot_1_r|].
      pose proof (Z.quot_abs a b Hb0) as Hqa. assert (Z.abs (Z.quot a b) <= 2 ^ 62); [|lia].
      rewrite <- Hqa, Z.quot_div_nonneg by lia. apply Z.div_le_upper_bound; [lia|].
      assert (2 <= Z.abs b) by lia. nia. }
    rewrite (proj2 (fits_spec _) Hq), andb_true_r. destruct (Z.rem a b =? 0); [by rewrite ZVAL_LONG_ok|by rewrite ZVAL_DOUBLE_ok].
Qed.

Lemma write_ok u t : (let* s := store s result (λ v, mkZv (ztag v) u) in done_ (set_type s result t) SUCCESS) =
  OK (SUCCESS, <[result := mkZv t u]> s).
Proof.
  pose proof (write_twice s result u t Hres) as Hw. revert Hw. unfold set_type, done_.
  destruct (store s result _) as [s'| |]; simpl; try done. by intros ->.
Qed.

Lemma mod_ok :
  mod_function other s result op1 op2 =
    (if b =? 0 then OK (FAILURE, <[result := mkZv IS_BOOL (ULong 0)]> s)
     else OK (SUCCESS, <[result := zlong (Z.rem a b)]> s)) ∧
  fast_mod_function other s result op1 op2 = mod_function other s result op1 op2.
Proof.
  unfold mod_function, fast_mod_function. rewrite both_longs. ob. rewrite lval1, lval2. ob.
  unfold set_lval at 2 3. rewrite !write_ok. unfold done_.
  destruct (Z.eqb_spec b 0) as [->|Hb0].
  { rewrite ZVAL_BOOL_ok by done. split; [done|]. pose proof (write_twice s result (ULong 0) IS_BOOL Hres) as Hw. revert Hw.
    unfold set_lval, set_type. destruct (store s result _) as [s'| |]; simpl; try done. by intros ->. }
  destruct (Z.eqb_spec b (-1)) as [->|Hb1].
  - assert (Z.rem a (-1) = 0) as -> by (change (-1) with (Z.opp 1); by rewrite Z.rem_opp_r, Z.rem_1_r by lia).
    by rewrite ZVAL_LONG_ok by done.
  - by rewrite ZVAL_LONG_ok by done.
Qed.

(** [fast_sub_function] agrees with [sub_function] as long as the result is
    neither operand. *)
Lemma fast_sub_distinct : is_long a → is_long b → result ≠ op1 → result ≠ op2 →
  fast_sub_function other s result op1 op2 = sub_function other s result op1 op2.
Proof.
  intros Ha Hb Hn1 Hn2. rewrite sub_ok by done. unfold fast_sub_function, num. rewrite both_longs. ob. rewrite lval1, lval2. ob.
  unfold set_lval. destruct Hres as [v Hv]. rewrite (store_insert _ _ _ v) by done. ob.
  unfold Z_LVAL_P. rewrite !lookup_insert_ne, lookup_insert_eq by done. rewrite Hop1, Hop2. ob. cbn [zu zlong].
  ob. rewrite sub_overflow by done. unfold set_dval, set_type, done_.
  destruct (fits (a - b)) eqn:E; cbn [negb].
  - rewrite (store_insert _ _ _ (mkZv (ztag v) (ULong (long_wrap (a - b))))) by (by rewrite lookup_insert_eq).
    ob. by rewrite insert_insert_eq, (fits_wrap _ E).
  - rewrite (store_insert _ _ _ (mkZv (ztag v) (ULong (long_wrap (a - b))))) by (by rewrite lookup_insert_eq). ob.
    rewrite (store_insert _ _ _ (mkZv (ztag v) (UDouble (d_sub (d_of_long a) (d_of_long b))))) by (by rewrite lookup_insert_eq).
    ob. by rewrite !insert_insert_eq.
Qed.

(** When the result is the first operand, the sign of the operand is read
    back after it was overwritten, and no overflow is ever seen. *)
Lemma fast_sub_aliased : op1 = result → op2 ≠ result →
  fast_sub_function other s result op1 op2 = OK (SUCCESS, <[result := zlong (long_wrap (a - b))]> s).
Proof.
  intros He Hn. unfold fast_sub_function. rewrite both_longs. ob. rewrite lval1, lval2. ob.
  unfold set_lval. rewrite (store_insert _ _ _ (zlong a)) by (by rewrite <- He). ob.
  unfold Z_LVAL_P. rewrite He, lookup_insert_eq. ob. rewrite lookup_insert_ne, Hop2 by done. ob. cbn [zu zlong]. ob.
  rewrite Z.eqb_refl, andb_false_r. unfold set_type, done_.
  rewrite (store_insert _ _ _ (mkZv IS_LONG (ULong (long_wrap (a - b))))) by (by rewrite lookup_insert_eq). ob.
  by rewrite insert_insert_eq.
Qed.
End longs.

Lemma increment_ok s op1 a : s !! op1 = Some (zlong a) → is_long a →
  fast_increment_long s op1 = OK (<[op1 := num (a + 1) (d_add (d_of_long LONG_MAX) (d_of_long 1))]> s) ∧
  fast_decrement_long s op1 = OK (<[op1 := num (a - 1) (d_sub (d_of_long LONG_MIN) (d_of_long 1))]> s).
Proof.
  intros Hs Ha. unfold fast_increment_long, fast_decrement_long, num, Z_LVAL_P. rewrite Hs. cbn [obind rd zu zlong].
  split.
  - destruct (Z.eqb_spec a LONG_MAX) as [->|Hn].
    + apply write_twice. by rewrite Hs.
    + rewrite (proj2 (fits_spec _)) by (unfold LONG_MAX in Hn; lia). unfold set_lval. by rewrite (store_insert _ _ _ (zlong a)).
  - destruct (Z.eqb_spec a LONG_MIN) as [->|Hn].
    + apply write_twice. by rewrite Hs.
    + rewrite (proj2 (fits_spec _)) by (unfold LONG_MIN in Hn; lia). unfold set_lval. by rewrite (store_insert _ _ _ (zlong a)).
Qed.
End ops.

(** A [double] for the witnesses: the exact rationals would do; here a
    [double] is just the integer it was made from. *)
Definition ex_double : Double :=
  {| double := Z; d_of_long := λ z, z; d_add := Z.add; d_sub := Z.sub; d_mul := Z.mul; d_div := Z.quot;
     d_is_zero := λ z, z =? 0 |}.
Definition ex_other : zop → gmap positive (@zv ex_double) → positive → positive → positive →
  outcome (zresult * gmap positive (@zv ex_double)) := λ _ _ _ _ _, Bailout.
Definition ex_store : gmap positive (@zv ex_double) :=
  {[ 1%positive := @zlong ex_double LONG_MIN; 2%positive := @zlong ex_double 1; 3%positive := mkZv IS_NULL UOther ]}.

(** C34: Arithmetic on integers is exact.  For all [long] operands, and
    whichever zvals [result] shares, [+], [-] and [*] store the exact result
    as a [long] when it is one and the [double] operation otherwise; [/] the
    quotient when it is exact and a [long]; [%] the remainder; division by
    zero fails and stores false.  The inline variants of [+], [*] and [%] and
    increment and decrement behave in the same way. *)
Theorem arithmetic_exact `{Double} other s result op1 op2 a b :
  s !! op1 = Some (zlong a) → s !! op2 = Some (zlong b) → is_Some (s !! result) → is_long a → is_long b →
  let ret v := OK (SUCCESS, <[result := v]> s) in
  let failed := OK (FAILURE, <[result := mkZv IS_BOOL (ULong 0)]> s) in
  add_function other s result op1 op2 = ret (num (a + b) (d_add (d_of_long a) (d_of_long b))) ∧
  fast_add_function other s result op1 op2 = add_function other s result op1 op2 ∧
  sub_function other s result op1 op2 = ret (num (a - b) (d_sub (d_of_long a) (d_of_long b))) ∧
  mul_function other s result op1 op2 = ret (num (a * b) (d_mul (d_of_long a) (d_of_long b))) ∧
  fast_mul_function other s result op1 op2 = mul_function other s result op1 op2 ∧
  div_function other s result op1 op2 =
    (if b =? 0 then failed else
     ret (if (Z.rem a b =? 0) && fits (Z.quot a b) then zlong (Z.quot a b) else zdouble (d_div (d_of_long a) (d_of_long b)))) ∧
  mod_function other s result op1 op2 = (if b =? 0 then failed else ret (zlong (Z.rem a b))) ∧
  fast_mod_function other s result op1 op2 = mod_function other s result op1 op2 ∧
  fast_increment_long s op1 = OK (<[op1 := num (a + 1) (d_add (d_of_long LONG_MAX) (d_of_long 1))]> s) ∧
  fast_decrement_long s op1 = OK (<[op1 := num (a - 1) (d_sub (d_of_long LONG_MIN) (d_of_long 1))]> s).
Proof.
  intros H1 H2 Hr Ha Hb ret failed.
  destruct (add_ok other s result op1 op2 a b H1 H2 Hr Ha Hb), (mul_ok other s result op1 op2 a b H1 H2 Hr),
    (mod_ok other s result op1 op2 a b H1 H2 Hr), (increment_ok s op1 a H1 Ha).
  pose proof (sub_ok other s result op1 op2 a b H1 H2 Hr Ha Hb). pose proof (div_ok other s result op1 op2 a b H1 H2 Hr Ha Hb).
  split_and!; done.
Qed.

Lemma arithmetic_exact_witness :
  @sub_function ex_double ex_other ex_store 1 1 2 =
    OK (SUCCESS, <[1%positive := @zdouble ex_double (LONG_MIN - 1)]> ex_store).
Proof.
  destruct (@arithmetic_exact ex_double ex_other ex_store 1 1 2 LONG_MIN 1 eq_refl eq_refl (ex_intro _ _ eq_refl)
              ltac:(unfold LONG_MIN; lia) ltac:(lia)) as (_ & _ & Hs & _).
  exact Hs.
Defined.

(** C35: The inline [fast_sub_function] (its portable code) equals
    [sub_function] when [result] is neither operand, but not when it is the
    first one, which the comment in [fast_add_function] says can happen:
    then a difference that overflows is stored wrapped around, as a
    [long]. *)
Theorem fast_sub_aliasing `{Double} other s result op1 op2 a b :
  s !! op1 = Some (zlong a) → s !! op2 = Some (zlong b) → is_Some (s !! result) → is_long a → is_long b →
  (result ≠ op1 → result ≠ op2 →
     fast_sub_function other s result op1 op2 = sub_function other s result op1 op2) ∧
  (op1 = result → op2 ≠ result → fits (a - b) = false →
     fast_sub_function other s result op1 op2 = OK (SUCCESS, <[result := zlong (long_wrap (a - b))]> s) ∧
     fast_sub_function other s result op1 op2 ≠ sub_function other s result op1 op2).
Proof.
  intros H1 H2 Hr Ha Hb. split; [by apply (fast_sub_distinct other s result op1 op2 a b)|]. intros He Hn Hf.
  pose proof (fast_sub_aliased other s result op1 op2 a b H1 H2 He Hn) as Hs. split; [done|].
  rewrite Hs, (sub_ok other s result op1 op2 a b H1 H2 Hr Ha Hb). unfold num. rewrite Hf.
  intros [= Heq]. apply (f_equal (lookup result)) in Heq. by rewrite !lookup_insert_eq in Heq.
Qed.

Lemma fast_sub_aliasing_witness :
  fits (LONG_MIN - 1) = false ∧
  @fast_sub_function ex_double ex_other ex_store 1 1 2 =
    OK (SUCCESS, <[1%positive := @zlong ex_double (long_wrap (LONG_MIN - 1))]> ex_store).
Proof.
  destruct (@fast_sub_aliasing ex_double ex_other ex_store 1 1 2 LONG_MIN 1 eq_refl eq_refl (ex_intro _ _ eq_refl)
              ltac:(unfold LONG_MIN; lia) ltac:(lia)) as [_ Hx].
  split; [reflexivity|]. exact (proj1 (Hx eq_refl ltac:(discriminate) eq_refl)).
Defined.
