(* ===== verification/ZendStrings.v ===== *)
(** The byte-string routines of Zend/zend_operators.c and .h: ASCII lower
    case, the binary comparisons, substring search and the Perl-style string
    increment.

    A string argument with its length is the list of its bytes; [same] says
    whether the two pointers a comparison gets are equal. *)

From S2P Require Import Prelude.

Definition tolower_map : list Z :=
  [0x00; 0x01; 0x02; 0x03; 0x04; 0x05; 0x06; 0x07; 0x08; 0x09; 0x0a; 0x0b; 0x0c; 0x0d; 0x0e; 0x0f;
   0x10; 0x11; 0x12; 0x13; 0x14; 0x15; 0x16; 0x17; 0x18; 0x19; 0x1a; 0x1b; 0x1c; 0x1d; 0x1e; 0x1f;
   0x20; 0x21; 0x22; 0x23; 0x24; 0x25; 0x26; 0x27; 0x28; 0x29; 0x2a; 0x2b; 0x2c; 0x2d; 0x2e; 0x2f;
   0x30; 0x31; 0x32; 0x33; 0x34; 0x35; 0x36; 0x37; 0x38; 0x39; 0x3a; 0x3b; 0x3c; 0x3d; 0x3e; 0x3f;
   0x40; 0x61; 0x62; 0x63; 0x64; 0x65; 0x66; 0x67; 0x68; 0x69; 0x6a; 0x6b; 0x6c; 0x6d; 0x6e; 0x6f;
   0x70; 0x71; 0x72; 0x73; 0x74; 0x75; 0x76; 0x77; 0x78; 0x79; 0x7a; 0x5b; 0x5c; 0x5d; 0x5e; 0x5f;
   0x60; 0x61; 0x62; 0x63; 0x64; 0x65; 0x66; 0x67; 0x68; 0x69; 0x6a; 0x6b; 0x6c; 0x6d; 0x6e; 0x6f;
   0x70; 0x71; 0x72; 0x73; 0x74; 0x75; 0x76; 0x77; 0x78; 0x79; 0x7a; 0x7b; 0x7c; 0x7d; 0x7e; 0x7f;
   0x80; 0x81; 0x82; 0x83; 0x84; 0x85; 0x86; 0x87; 0x88; 0x89; 0x8a; 0x8b; 0x8c; 0x8d; 0x8e; 0x8f;
   0x90; 0x91; 0x92; 0x93; 0x94; 0x95; 0x96; 0x97; 0x98; 0x99; 0x9a; 0x9b; 0x9c; 0x9d; 0x9e; 0x9f;
   0xa0; 0xa1; 0xa2; 0xa3; 0xa4; 0xa5; 0xa6; 0xa7; 0xa8; 0xa9; 0xaa; 0xab; 0xac; 0xad; 0xae; 0xaf;
   0xb0; 0xb1; 0xb2; 0xb3; 0xb4; 0xb5; 0xb6; 0xb7; 0xb8; 0xb9; 0xba; 0xbb; 0xbc; 0xbd; 0xbe; 0xbf;
   0xc0; 0xc1; 0xc2; 0xc3; 0xc4; 0xc5; 0xc6; 0xc7; 0xc8; 0xc9; 0xca; 0xcb; 0xcc; 0xcd; 0xce; 0xcf;
   0xd0; 0xd1; 0xd2; 0xd3; 0xd4; 0xd5; 0xd6; 0xd7; 0xd8; 0xd9; 0xda; 0xdb; 0xdc; 0xdd; 0xde; 0xdf;
   0xe0; 0xe1; 0xe2; 0xe3; 0xe4; 0xe5; 0xe6; 0xe7; 0xe8; 0xe9; 0xea; 0xeb; 0xec; 0xed; 0xee; 0xef;
   0xf0; 0xf1; 0xf2; 0xf3; 0xf4; 0xf5; 0xf6; 0xf7; 0xf8; 0xf9; 0xfa; 0xfb; 0xfc; 0xfd; 0xfe; 0xff].

Definition zend_tolower_ascii (c : Z) : Z := default 0 (tolower_map !! Z.to_nat c).

Definition zend_str_tolower (str : list Z) : list Z := zend_tolower_ascii <$> str.
(** The copy ends with a NUL. *)
Definition zend_str_tolower_copy (source : list Z) : list Z := (zend_tolower_ascii <$> source) ++ [0].
Definition zend_str_tolower_dup (source : list Z) : list Z := zend_str_tolower_copy source.

(** * Comparisons *)

(** [memcmp]; the C library promises the sign only. *)
Fixpoint memcmp_ (n : nat) (a b : list Z) : Z :=
  match n, a, b with
  | S n, x :: a, y :: b => if x <? y then -1 else if y <? x then 1 else memcmp_ n a b
  | _, _, _ => 0
  end.

Definition len (s : list Z) : Z := Z.of_nat (length s).
(** The [int] a difference of two [uint]s is returned as. *)
Definition len_diff (a b : Z) : Z := to_int (a - b).

Definition zend_binary_strcmp (same : bool) (s1 s2 : list Z) : Z :=
  if same then 0 else
  let retval := memcmp_ (Z.to_nat (Z.min (len s1) (len s2))) s1 s2 in
  if retval =? 0 then len_diff (len s1) (len s2) else retval.

Definition zend_binary_strncmp (same : bool) (s1 s2 : list Z) (length_ : Z) : Z :=
  if same then 0 else
  let retval := memcmp_ (Z.to_nat (Z.min length_ (Z.min (len s1) (len s2)))) s1 s2 in
  if retval =? 0 then len_diff (Z.min length_ (len s1)) (Z.min length_ (len s2)) else retval.

(** [while (len--) ...]: [Some r] when it returns [r], [None] when it runs to
    its end. *)
Fixpoint case_loop (tolower : Z → Z) (n : nat) (s1 s2 : list Z) : outcome (option Z) :=
  match n with
  | O => OK None
  | S n =>
      match s1, s2 with
      | x :: s1, y :: s2 =>
          let c1 := tolower x in
          let c2 := tolower y in
          if c1 =? c2 then case_loop tolower n s1 s2 else OK (Some (c1 - c2))
      | _, _ => UB
      end
  end.

(** [tolower] is [zend_tolower_ascii], or for the [_l] variants the C
    library's function, which follows the locale. *)
Definition strcasecmp_ (tolower : Z → Z) (same : bool) (s1 s2 : list Z) : outcome Z :=
  if same then OK 0 else
  let* r := case_loop tolower (Z.to_nat (Z.min (len s1) (len s2))) s1 s2 in
  OK (match r with Some d => d | None => len_diff (len s1) (len s2) end).
Definition zend_binary_strcasecmp := strcasecmp_ zend_tolower_ascii.
Definition zend_binary_strcasecmp_l := strcasecmp_.

Definition strncasecmp_ (tolower : Z → Z) (same : bool) (s1 s2 : list Z) (length_ : Z) : outcome Z :=
  if same then OK 0 else
  let* r := case_loop tolower (Z.to_nat (Z.min length_ (Z.min (len s1) (len s2)))) s1 s2 in
  OK (match r with Some d => d | None => len_diff (Z.min length_ (len s1)) (Z.min length_ (len s2)) end).
Definition zend_binary_strncasecmp := strncasecmp_ zend_tolower_ascii.
Definition zend_binary_strncasecmp_l := strncasecmp_.

(** * Search *)

(** [memchr(s + p, c, n)]: the position found.  Reading past the end of the
    string is undefined. *)
Fixpoint memchr (s : list Z) (c : Z) (p n : nat) : outcome (option nat) :=
  match n with
  | O => OK None
  | S n => let* x := rd (s !! p) in if x =? c then OK (Some p) else memchr s c (p + 1) n
  end.

(** The loop of [zend_memnstr]; [endp] is the last position where the needle
    still fits. *)
Fixpoint memnstr_loop (fuel : nat) (haystack needle : list Z) (first ne : Z) (endp p : nat) : outcome (option nat) :=
  match fuel with
  | O => UB
  | S fuel =>
      if (p <=? endp)%nat then
        let* q := memchr haystack first p (endp - p + 1) in
        match q with
        | None => OK None
        | Some p =>
            let* x := rd (haystack !! (p + (length needle - 1))%nat) in
            if (ne =? x) && (memcmp_ (length needle - 1) needle (drop p haystack) =? 0) then OK (Some p)
            else memnstr_loop fuel haystack needle first ne endp (p + 1)
        end
      else OK None
  end.

(** [end] is the end of the haystack.  An empty needle makes the function read
    in front of it. *)
Definition zend_memnstr (haystack needle : list Z) : outcome (option nat) :=
  let* ne := if (length needle =? 0)%nat then UB else rd (needle !! (length needle - 1)%nat) in
  let* first := rd (needle !! 0%nat) in
  if (length needle =? 1)%nat then memchr haystack first 0 (length haystack)
  else if (length haystack <? length needle)%nat then OK None
  else memnstr_loop (S (length haystack)) haystack needle first ne (length haystack - length needle) 0.

(** The loop of [zend_memrchr], from [n - 1] down to 0. *)
Fixpoint zend_memrchr (s : list Z) (c : Z) (n : nat) : outcome (option nat) :=
  match n with
  | O => OK None
  | S e => let* x := rd (s !! e) in if x =? c then OK (Some e) else zend_memrchr s c e
  end.

(** * String increment *)

Inductive char_class := NOT_SEEN | LOWER_CASE | UPPER_CASE | NUMERIC.

(** The loop from [pos] (one less than [n]) down: the string, the carry and
    the class of the last character changed. *)
Fixpoint increment_loop (n : nat) (s : list Z) (carry : bool) (last : char_class) : outcome (list Z * bool * char_class) :=
  match n with
  | O => OK (s, carry, last)
  | S pos =>
      let* ch := rd (s !! pos) in
      if (97 <=? ch) && (ch <=? 122) then
        if ch =? 122 then increment_loop pos (<[pos := 97]> s) true LOWER_CASE
        else OK (<[pos := ch + 1]> s, false, LOWER_CASE)
      else if (65 <=? ch) && (ch <=? 90) then
        if ch =? 90 then increment_loop pos (<[pos := 65]> s) true UPPER_CASE
        else OK (<[pos := ch + 1]> s, false, UPPER_CASE)
      else if (48 <=? ch) && (ch <=? 57) then
        if ch =? 57 then increment_loop pos (<[pos := 48]> s) true NUMERIC
        else OK (<[pos := ch + 1]> s, false, NUMERIC)
      else OK (s, false, last)
  end.

(** The new string.  [t[0]] is not set when no class was seen, which cannot
    happen with a carry. *)
Definition increment_string (s : list Z) : outcome (list Z) :=
  if (length s =? 0)%nat then OK [49] else
  let* (s, carry, last) := increment_loop (length s) s false NOT_SEEN in
  if carry : bool then
    match last with
    | NUMERIC => OK (49 :: s)
    | UPPER_CASE => OK (65 :: s)
    | LOWER_CASE => OK (97 :: s)
    | NOT_SEEN => UB
    end
  else OK s.

Example increment_ex : increment_string [65; 122; 57] = OK [66; 97; 48].
Proof. reflexivity. Qed.
