(* ===== verification/StringProps.v ===== *)
(** The properties of the byte-string routines. *)

From S2P Require Import Prelude ZendStrings.

(** * Comparisons *)

(** Lexicographic order on byte strings; a proper prefix is smaller. *)
Fixpoint lex (a b : list Z) : comparison :=
  match a, b with
  | [], [] => Eq
  | [], _ => Lt
  | _, [] => Gt
  | x :: a, y :: b => match x ?= y with Eq => lex a b | c => c end
  end.

Lemma lex_eq a b : lex a b = Eq ↔ a = b.
Proof.
  revert b. induction a as [|x a IH]; intros [|y b]; simpl; try done.
  destruct (Z.compare_spec x y) as [->| |].
  - rewrite IH. split; [by intros ->|by intros [= ->]].
  - split; [done|]. intros [= ->]. lia.
  - split; [done|]. intros [= ->]. lia.
Qed.

Lemma lex_antisym a b : lex b a = CompOpp (lex a b).
Proof.
  revert b. induction a as [|x a IH]; intros [|y b]; simpl; try done.
  rewrite (Z.compare_antisym x y). by destruct (x ?= y); simpl.
Qed.

Lemma lex_trans a b c : lex a b = Lt → lex b c = Lt → lex a c = Lt.
Proof.
  revert b c. induction a as [|x a IH]; intros [|y b] [|z c]; simpl; try done.
  destruct (Z.compare_spec x y), (Z.compare_spec y z), (Z.compare_spec x z); subst; try done; try lia; eauto.
Qed.

Lemma memcmp_lex k a b :
  let r := memcmp_ (Nat.min k (Nat.min (length a) (length b))) a b in
  lex (take k a) (take k b) = if r =? 0 then (Nat.min k (length a) ?= Nat.min k (length b))%nat else (r ?= 0).
Proof.
  revert a b. induction k as [|k IH]; intros a b; [done|].
  destruct a as [|x a], b as [|y b]; try done. cbn [length Nat.min take memcmp_ lex].
  destruct (Z.compare_spec x y) as [->|Hlt|Hgt].
  - by rewrite !Z.ltb_irrefl, IH.
  - by rewrite (proj2 (Z.ltb_lt _ _)).
  - rewrite (proj2 (Z.ltb_ge _ _)) by lia. by rewrite (proj2 (Z.ltb_lt _ _)).
Qed.

Lemma case_lex f k a b :
  ∃ r, case_loop f (Nat.min k (Nat.min (length a) (length b))) a b = OK r ∧
    lex (take k (f <$> a)) (take k (f <$> b)) =
      match r with Some d => d ?= 0 | None => (Nat.min k (length a) ?= Nat.min k (length b))%nat end.
Proof.
  revert a b. induction k as [|k IH]; intros a b; [by exists None|].
  destruct a as [|x a], b as [|y b]; try (by exists None). cbn [length Nat.min fmap list_fmap take case_loop lex].
  destruct (Z.eqb_spec (f x) (f y)) as [->|Hne].
  - rewrite Z.compare_refl. destruct (IH a b) as (r & -> & Hr). exists r. split; [done|]. by rewrite Hr.
  - exists (Some (f x - f y)). split; [done|]. rewrite Z.compare_sub.
    destruct (Z.compare_spec (f x - f y) 0); [lia|done|done].
Qed.

Lemma len_diff_ok a b : 0 <= a < 2 ^ 31 → 0 <= b < 2 ^ 31 → len_diff a b = a - b.
Proof.
  intros Ha Hb. unfold len_diff, to_int, uint_wrap. destruct (decide (0 <= a - b)).
  - rewrite Z.mod_small by lia. by rewrite (proj2 (Z.ltb_lt _ _)) by lia.
  - rewrite <- (Z.mod_add (a - b) 1), Z.mod_small by lia. rewrite (proj2 (Z.ltb_ge _ _)) by lia. lia.
Qed.

Lemma len_diff_sign (m n : nat) : Z.of_nat m < 2 ^ 31 → Z.of_nat n < 2 ^ 31 →
  (len_diff (Z.of_nat m) (Z.of_nat n) ?= 0) = (m ?= n)%nat.
Proof. intros. rewrite len_diff_ok by lia. rewrite <- Nat2Z.inj_compare. symmetry. apply Z.compare_sub. Qed.

Lemma min_nat (n a b : nat) :
  Z.to_nat (Z.min (Z.of_nat n) (Z.min (Z.of_nat a) (Z.of_nat b))) = Nat.min n (Nat.min a b).
Proof. lia. Qed.

Lemma strncmp_lex s1 s2 (n : nat) : len s1 < 2 ^ 31 → len s2 < 2 ^ 31 →
  (zend_binary_strncmp false s1 s2 (Z.of_nat n) ?= 0) = lex (take n s1) (take n s2).
Proof.
  intros H1 H2. unfold zend_binary_strncmp, len in *. rewrite min_nat, memcmp_lex. case_match; [|done].
  rewrite <- !Nat2Z.inj_min. apply len_diff_sign; lia.
Qed.

Lemma strcmp_lex s1 s2 : len s1 < 2 ^ 31 → len s2 < 2 ^ 31 → (zend_binary_strcmp false s1 s2 ?= 0) = lex s1 s2.
Proof.
  intros H1 H2. pose proof (strncmp_lex s1 s2 (length s1 + length s2) H1 H2) as Hn.
  rewrite !firstn_all2 in Hn by lia. rewrite <- Hn. unfold zend_binary_strcmp, zend_binary_strncmp, len.
  by rewrite !(Z.min_r (Z.of_nat (length s1 + length s2))) by lia.
Qed.

Lemma strncasecmp_lex f s1 s2 (n : nat) : len s1 < 2 ^ 31 → len s2 < 2 ^ 31 →
  ∃ r, strncasecmp_ f false s1 s2 (Z.of_nat n) = OK r ∧ (r ?= 0) = lex (take n (f <$> s1)) (take n (f <$> s2)).
Proof.
  intros H1 H2. unfold strncasecmp_, len in *. rewrite min_nat. destruct (case_lex f n s1 s2) as (r & -> & Hr). ob.
  eexists. split; [done|]. rewrite Hr. destruct r; [done|]. rewrite <- !Nat2Z.inj_min. apply len_diff_sign; lia.
Qed.

Lemma strcasecmp_lex f s1 s2 : len s1 < 2 ^ 31 → len s2 < 2 ^ 31 →
  ∃ r, strcasecmp_ f false s1 s2 = OK r ∧ (r ?= 0) = lex (f <$> s1) (f <$> s2).
Proof.
  intros H1 H2. destruct (strncasecmp_lex f s1 s2 (length s1 + length s2) H1 H2) as (r & Hrun & Hr). exists r.
  rewrite !firstn_all2 in Hr by (rewrite length_fmap; lia). split; [|done]. rewrite <- Hrun.
  unfold strcasecmp_, strncasecmp_, len. by rewrite !(Z.min_r (Z.of_nat (length s1 + length s2))) by lia.
Qed.

Lemma tolower_ascii c : is_byte c → zend_tolower_ascii c = if (65 <=? c) && (c <=? 90) then c + 32 else c.
Proof.
  intros Hc. assert (∀ n, (n < 256)%nat → zend_tolower_ascii (Z.of_nat n) =
    if (65 <=? Z.of_nat n) && (Z.of_nat n <=? 90) then Z.of_nat n + 32 else Z.of_nat n) as Hall.
  { intros n Hn. assert (Forall (λ n, zend_tolower_ascii (Z.of_nat n) =
      if (65 <=? Z.of_nat n) && (Z.of_nat n <=? 90) then Z.of_nat n + 32 else Z.of_nat n) (seq 0 256)) as HF.
    { vm_compute. repeat constructor. }
    rewrite Forall_forall in HF. apply HF, elem_of_seq. lia. }
  specialize (Hall (Z.to_nat c) ltac:(lia)). by rewrite Z2Nat.id in Hall by lia.
Qed.

(** The binary comparisons implement lexicographic order on bytes, a
    proper prefix being smaller: [zend_binary_strcmp] of the strings,
    [zend_binary_strncmp] of their first [n] bytes, the case-insensitive
    variants of the strings in ASCII lower case; the result is 0 exactly for
    equal strings. *)
Theorem comparisons_lexicographic s1 s2 (n : nat) :
  len s1 < 2 ^ 31 → len s2 < 2 ^ 31 →
  (zend_binary_strcmp false s1 s2 ?= 0) = lex s1 s2 ∧
  (zend_binary_strcmp false s1 s2 = 0 ↔ s1 = s2) ∧
  (zend_binary_strncmp false s1 s2 (Z.of_nat n) ?= 0) = lex (take n s1) (take n s2) ∧
  (∃ r, zend_binary_strcasecmp false s1 s2 = OK r ∧ (r ?= 0) = lex (zend_str_tolower s1) (zend_str_tolower s2)) ∧
  (∃ r, zend_binary_strncasecmp false s1 s2 (Z.of_nat n) = OK r ∧
     (r ?= 0) = lex (take n (zend_str_tolower s1)) (take n (zend_str_tolower s2))) ∧
  (∀ c, is_byte c → zend_tolower_ascii c = if (65 <=? c) && (c <=? 90) then c + 32 else c).
Proof.
  intros H1 H2. pose proof (strcmp_lex s1 s2 H1 H2) as Hl. split; [done|]. split.
  { rewrite <- (lex_eq s1 s2), <- Hl. by rewrite Z.compare_eq_iff. }
  split; [by apply strncmp_lex|]. split; [by apply strcasecmp_lex|]. split; [by apply strncasecmp_lex|].
  apply tolower_ascii.
Qed.

Lemma comparisons_lexicographic_witness :
  len [97; 66] < 2 ^ 31 ∧ (zend_binary_strcmp false [97; 66] [97; 98] ?= 0) = lex [97; 66] [97; 98].
Proof.
  split; [reflexivity|].
  exact (proj1 (comparisons_lexicographic [97; 66] [97; 98] 1 ltac:(reflexivity) ltac:(reflexivity))).
Defined.

(** * Search *)

Definition occurs (h needle : list Z) (i : nat) : Prop := take (length needle) (drop i h) = needle.

(** The first occurrence, or that there is none. *)
Definition first_occurrence (h needle : list Z) (r : option nat) : Prop :=
  match r with
  | Some i => occurs h needle i ∧ ∀ j, (j < i)%nat → ¬ occurs h needle j
  | None => ∀ j, ¬ occurs h needle j
  end.

Lemma occurs_at h nd i k x : occurs h nd i → nd !! k = Some x → h !! (i + k)%nat = Some x.
Proof.
  intros Ho Hx. rewrite <- Hx, <- Ho at 1. rewrite lookup_take_lt, lookup_drop; [done|]. by eapply lookup_lt_Some.
Qed.

Lemma occurs_fits h nd i : (0 < length nd)%nat → occurs h nd i → (i + length nd ≤ length h)%nat.
Proof. intros Hn Ho. apply (f_equal length) in Ho. rewrite length_take, length_drop in Ho. lia. Qed.

Lemma memcmp_zero k a b : (k ≤ length a)%nat → (k ≤ length b)%nat → memcmp_ k a b = 0 ↔ take k a = take k b.
Proof.
  revert a b. induction k as [|k IH]; intros a b Ha Hb; [done|]. destruct a as [|x a], b as [|y b]; simpl in *; try lia.
  destruct (Z.ltb_spec x y); [split; [done|]; intros [=]; lia|]. destruct (Z.ltb_spec y x); [split; [done|]; intros [=]; lia|].
  assert (x = y) as -> by lia. rewrite IH by lia. split; [by intros ->|by intros [= ->]].
Qed.

Lemma memchr_spec s c p n : (p + n ≤ length s)%nat →
  ∃ r, memchr s c p n = OK r ∧
    match r with
    | Some i => (p ≤ i < p + n)%nat ∧ s !! i = Some c ∧ ∀ j, (p ≤ j < i)%nat → s !! j ≠ Some c
    | None => ∀ j, (p ≤ j < p + n)%nat → s !! j ≠ Some c
    end.
Proof.
  revert p. induction n as [|n IH]; intros p Hp; cbn [memchr]; [exists None; split; [done|]; lia|].
  destruct (lookup_lt_is_Some_2 s p ltac:(lia)) as [x Hx]. rewrite Hx. ob.
  destruct (Z.eqb_spec x c) as [->|Hne].
  { exists (Some p). split; [done|]. split; [lia|]. split; [done|]. lia. }
  destruct (IH (p + 1)%nat ltac:(lia)) as (r & -> & Hr). exists r. split; [done|]. destruct r as [i|].
  - destruct Hr as (H1 & H2 & H3). split; [lia|]. split; [done|]. intros j Hj.
    destruct (decide (j = p)) as [->|]; [congruence|]. apply H3. lia.
  - intros j Hj. destruct (decide (j = p)) as [->|]; [congruence|]. apply Hr. lia.
Qed.

(** The test the loop makes at a position where the first byte matches. *)
Lemma occurs_test h nd ne p x : (0 < length nd)%nat → (p + length nd ≤ length h)%nat →
  nd !! (length nd - 1)%nat = Some ne → h !! (p + (length nd - 1))%nat = Some x →
  (ne =? x) && (memcmp_ (length nd - 1) nd (drop p h) =? 0) = true ↔ occurs h nd p.
Proof.
  intros Hn Hp Hne Hx. rewrite andb_true_iff, !Z.eqb_eq, memcmp_zero by (rewrite ?length_drop; lia). unfold occurs.
  assert (take (length nd) (drop p h) = take (length nd - 1) (drop p h) ++ [x]) as ->.
  { replace (length nd) with (S (length nd - 1)) at 1 by lia. apply take_S_r. by rewrite lookup_drop. }
  assert (nd = take (length nd - 1) nd ++ [ne]) as Hnd.
  { rewrite <- (firstn_all nd) at 1. replace (length nd) with (S (length nd - 1)) at 1 by lia. by apply take_S_r. }
  split.
  - intros [-> Ht]. rewrite Hnd at 2. by rewrite Ht.
  - intros He. rewrite Hnd in He at 2. apply app_inj_tail in He as [Ht ->]. by rewrite Ht.
Qed.

Lemma memnstr_loop_spec fuel h nd first ne p :
  (0 < length nd ≤ length h)%nat → nd !! 0%nat = Some first → nd !! (length nd - 1)%nat = Some ne →
  (length h - length nd + 1 - p < fuel)%nat → (∀ j, (j < p)%nat → ¬ occurs h nd j) →
  ∃ r, memnstr_loop fuel h nd first ne (length h - length nd) p = OK r ∧ first_occurrence h nd r.
Proof.
  intros Hl H0 Hne. revert p. induction fuel as [|fuel IH]; intros p Hf Hbefore; [lia|]. cbn [memnstr_loop].
  destruct (Nat.leb_spec p (length h - length nd)) as [Hle|Hgt].
  2:{ exists None. split; [done|]. intros j Ho. pose proof (occurs_fits h nd j ltac:(lia) Ho). eapply Hbefore; [|done]. lia. }
  destruct (memchr_spec h first p (length h - length nd - p + 1)) as (r & -> & Hr); [lia|]. ob. destruct r as [q|].
  2:{ exists None. split; [done|]. intros j Ho. pose proof (occurs_fits h nd j ltac:(lia) Ho).
      destruct (decide (j < p)%nat); [by eapply Hbefore|]. apply (Hr j); [lia|].
      pose proof (occurs_at h nd j 0 first Ho H0) as Hj. by rewrite Nat.add_0_r in Hj. }
  destruct Hr as (Hq & Hqc & Hnone).
  assert (∀ j, (j < q)%nat → ¬ occurs h nd j) as Hbefore'.
  { intros j Hj Ho. destruct (decide (j < p)%nat); [by eapply Hbefore|]. apply (Hnone j); [lia|].
    pose proof (occurs_at h nd j 0 first Ho H0) as Hj0. by rewrite Nat.add_0_r in Hj0. }
  destruct (lookup_lt_is_Some_2 h (q + (length nd - 1))) as [x Hx]; [lia|]. rewrite Hx. ob.
  pose proof (occurs_test h nd ne q x ltac:(lia) ltac:(lia) Hne Hx) as Ht. destruct ((ne =? x) && _).
  - exists (Some q). split; [done|]. split; [by apply Ht|done].
  - apply IH; [lia|]. intros j Hj. destruct (decide (j = q)) as [->|]; [|apply Hbefore'; lia]. intros Ho. by apply Ht in Ho.
Qed.

Lemma memrchr_spec s c n : (n ≤ length s)%nat →
  ∃ r, zend_memrchr s c n = OK r ∧
    match r with
    | Some i => (i < n)%nat ∧ s !! i = Some c ∧ ∀ j, (i < j < n)%nat → s !! j ≠ Some c
    | None => ∀ j, (j < n)%nat → s !! j ≠ Some c
    end.
Proof.
  induction n as [|n IH]; intros Hn; cbn [zend_memrchr]; [exists None; split; [done|]; lia|].
  destruct (lookup_lt_is_Some_2 s n ltac:(lia)) as [x Hx]. rewrite Hx. ob.
  destruct (Z.eqb_spec x c) as [->|Hne]; [exists (Some n); split_and!; [done|lia|done|lia]|].
  destruct (IH ltac:(lia)) as (r & -> & Hr). exists r. split; [done|]. destruct r as [i|].
  - destruct Hr as (? & ? & H3). split_and!; [lia|done|]. intros j Hj. destruct (decide (j = n)) as [->|]; [congruence|]. apply H3. lia.
  - intros j Hj. destruct (decide (j = n)) as [->|]; [congruence|]. apply Hr. lia.
Qed.

(** [zend_memnstr] reads only inside its arguments and returns the first
    occurrence of a non-empty needle, or NULL when there is none;
    [zend_memrchr] returns the last position of a byte. *)
Theorem memnstr_finds_first haystack needle c :
  (0 < length needle)%nat →
  (∃ r, zend_memnstr haystack needle = OK r ∧ first_occurrence haystack needle r) ∧
  ∃ r, zend_memrchr haystack c (length haystack) = OK r ∧
    match r with
    | Some i => haystack !! i = Some c ∧ ∀ j, (i < j)%nat → haystack !! j ≠ Some c
    | None => ∀ j, haystack !! j ≠ Some c
    end.
Proof.
  intros Hn. split.
  - unfold zend_memnstr. rewrite (proj2 (Nat.eqb_neq _ _)) by lia.
    destruct (lookup_lt_is_Some_2 needle (length needle - 1)) as [ne Hne]; [lia|].
    destruct (lookup_lt_is_Some_2 needle 0) as [first H0]; [lia|]. rewrite Hne, H0. ob.
    destruct (Nat.eqb_spec (length needle) 1) as [H1|H1].
    { destruct needle as [|f0 [|]]; try done. assert (f0 = first) as -> by (simpl in H0; congruence).
      destruct (memchr_spec haystack first 0 (length haystack) ltac:(lia)) as (r & -> & Hr). exists r. split; [done|].
      assert (∀ j, occurs haystack [first] j → haystack !! j = Some first) as Hat.
      { intros j Ho. pose proof (occurs_at _ _ j 0 first Ho eq_refl) as Hj. by rewrite Nat.add_0_r in Hj. }
      destruct r as [i|].
      - destruct Hr as (Hi & Hc & Hb). split; [|intros j Hj Ho%Hat; by apply (Hb j); [lia|]].
        unfold occurs. simpl. by rewrite (drop_S _ first).
      - intros j Ho. pose proof (occurs_fits _ _ _ Hn Ho). simpl in *. apply Hat in Ho. by apply (Hr j); [lia|]. }
    destruct (Nat.ltb_spec (length haystack) (length needle)) as [Hs|Hs].
    { exists None. split; [done|]. intros j Ho. pose proof (occurs_fits _ _ _ Hn Ho). lia. }
    apply memnstr_loop_spec; try done; [lia|]. lia.
  - destruct (memrchr_spec haystack c (length haystack)) as (r & -> & Hr); [done|]. exists r. split; [done|].
    destruct r as [i|].
    + destruct Hr as (? & ? & H3). split; [done|]. intros j Hj Hc. apply (H3 j); [|done]. apply lookup_lt_Some in Hc. lia.
    + intros j Hc. apply (Hr j); [|done]. by eapply lookup_lt_Some.
Qed.

Lemma memnstr_finds_first_witness :
  ∃ r, zend_memnstr [97; 98; 97; 98; 99] [97; 98; 99] = OK r ∧ first_occurrence [97; 98; 97; 98; 99] [97; 98; 99] r.
Proof.
  exact (proj1 (memnstr_finds_first [97; 98; 97; 98; 99] [97; 98; 99] 98 ltac:(simpl; lia))).
Defined.

(** * String increment *)

Definition lower (c : Z) : bool := (97 <=? c) && (c <=? 122).
Definition upper (c : Z) : bool := (65 <=? c) && (c <=? 90).
Definition numeric (c : Z) : bool := (48 <=? c) && (c <=? 57).
Definition alnum (c : Z) : bool := lower c || upper c || numeric c.

(** A letter counts from 1 to 26, a digit from 0 to 9. *)
Definition digit (c : Z) : Z := if lower c then c - 96 else if upper c then c - 64 else c - 48.
Definition radix (c : Z) : Z := if numeric c then 10 else 26.

(** The class of a character. *)
Definition cclass (c : Z) : char_class :=
  if lower c then LOWER_CASE else if upper c then UPPER_CASE else if numeric c then NUMERIC else NOT_SEEN.

(** The number an alphanumeric string stands for, most significant character
    first, every position with the radix of its character; and the weight of
    the position in front of it. *)
Fixpoint weight (s : list Z) : Z := match s with [] => 1 | c :: s => radix c * weight s end.
Fixpoint value (s : list Z) : Z := match s with [] => 0 | c :: s => digit c * weight s + value s end.

Lemma weight_app a b : weight (a ++ b) = weight a * weight b.
Proof. induction a as [|c a IH]; simpl; [lia|]. rewrite IH. lia. Qed.

Lemma value_app a b : value (a ++ b) = value a * weight b + value b.
Proof. induction a as [|c a IH]; simpl; [lia|]. rewrite IH, weight_app. lia. Qed.

(** Evaluates the character tests whose outcome follows from the context. *)
Ltac split_classes :=
  repeat match goal with
  | |- context [?x <=? ?y] =>
      first [rewrite (proj2 (Z.leb_le x y)) by lia | rewrite (proj2 (Z.leb_gt x y)) by lia]
  end; cbn [andb orb].

(** One step of the loop on an alphanumeric character: its successor in its
    class, or the first of the class and a carry. *)
Lemma increment_step pos s c carry last : s !! pos = Some c → alnum c = true →
  (∃ c', cclass c' = cclass c ∧ digit c' = digit c + 1 ∧
     increment_loop (S pos) s carry last = OK (<[pos := c']> s, false, cclass c)) ∨
  (∃ c', cclass c' = cclass c ∧ digit c' + radix c = digit c + 1 ∧
     increment_loop (S pos) s carry last = increment_loop pos (<[pos := c']> s) true (cclass c)).
Proof.
  intros Hs Ha. cbn [increment_loop]. rewrite Hs. ob. unfold alnum, cclass, digit, radix, lower, upper, numeric in *.
  destruct ((97 <=? c) && (c <=? 122)) eqn:El; [|destruct ((65 <=? c) && (c <=? 90)) eqn:Eu];
    [| |destruct ((48 <=? c) && (c <=? 57)) eqn:En; [|done]].
  all: match goal with H : _ && _ = true |- _ => apply andb_true_iff in H as [?%Z.leb_le ?%Z.leb_le] end.
  - destruct (Z.eqb_spec c 122) as [->|Hn]; [right; by exists 97|left; exists (c + 1)].
    split_classes. split_and!; [done|lia|done].
  - destruct (Z.eqb_spec c 90) as [->|Hn]; [right; by exists 65|left; exists (c + 1)].
    split_classes. split_and!; [done|lia|done].
  - destruct (Z.eqb_spec c 57) as [->|Hn]; [right; by exists 48|left; exists (c + 1)].
    split_classes. split_and!; [done|lia|done].
Qed.

Lemma cclass_alnum c : alnum c = true ↔ cclass c ≠ NOT_SEEN.
Proof. unfold alnum, cclass. destruct (lower c), (upper c), (numeric c); done. Qed.

Lemma cclass_radix c : alnum c = true → radix c = match cclass c with NUMERIC => 10 | _ => 26 end.
Proof.
  unfold alnum, radix, cclass, lower, upper, numeric. intros Ha.
  destruct (Z.leb_spec 97 c), (Z.leb_spec c 122), (Z.leb_spec 65 c), (Z.leb_spec c 90), (Z.leb_spec 48 c), (Z.leb_spec c 57);
    simpl in *; try done; lia.
Qed.

(** Strings with the same classes have the same weights. *)
Lemma same_class s s' : cclass <$> s' = cclass <$> s → Forall (λ c, alnum c = true) s →
  Forall (λ c, alnum c = true) s' ∧ weight s' = weight s ∧ length s' = length s.
Proof.
  revert s'. induction s as [|c s IH]; intros [|c' s'] He Ha; try done.
  apply Forall_cons in Ha as [Hc Ha]. rewrite !fmap_cons in He. injection He as Hcc He.
  destruct (IH s' He Ha) as (H1 & H2 & H3). assert (alnum c' = true) as Hc' by (rewrite cclass_alnum, Hcc, <- cclass_alnum; done).
  split; [by constructor|]. simpl. rewrite H2, H3, !cclass_radix, Hcc by done. done.
Qed.

(** The loop over the alphanumeric characters [mid] behind [pre]; a carry that
    leaves [mid] comes with the class of its first character. *)
Lemma increment_mid pre mid suf carry last :
  Forall (λ c, alnum c = true) mid → (mid ≠ [] ∨ carry = true) →
  ∃ mid' over l, cclass <$> mid' = cclass <$> mid ∧
    value mid' + (if over : bool then weight mid else 0) = value mid + 1 ∧
    (over = true → l = from_option cclass last (head mid)) ∧
    increment_loop (length pre + length mid) (pre ++ mid ++ suf) carry last =
      if over then increment_loop (length pre) (pre ++ mid' ++ suf) true l else OK (pre ++ mid' ++ suf, false, l).
Proof.
  revert suf carry last. induction mid as [|c mid IH] using rev_ind; intros suf carry last Ha Hor.
  { destruct Hor as [?|Hct]; [done|]. subst carry. exists [], true, last. split_and!; try done.
    simpl. by rewrite Nat.add_0_r. }
  apply Forall_app in Ha as [Ham Hac]. apply (proj1 (Forall_cons _ _ _)) in Hac as [Hac _].
  rewrite length_app. cbn [length]. replace (length pre + (length mid + 1))%nat with (S (length (pre ++ mid))) by (rewrite length_app; lia).
  set (s := pre ++ (mid ++ [c]) ++ suf).
  assert (∀ c', <[length (pre ++ mid) := c']> s = pre ++ (mid ++ [c']) ++ suf) as Hins.
  { intros c'. unfold s. rewrite <- !(app_assoc mid), !(app_assoc pre). by rewrite insert_app_r_alt, Nat.sub_diag by lia. }
  assert (s !! length (pre ++ mid) = Some c) as Hc.
  { unfold s. rewrite <- (app_assoc mid), (app_assoc pre). by rewrite lookup_app_r, Nat.sub_diag by lia. }
  assert (∀ c', cclass c' = cclass c → radix c' = radix c) as Hrad.
  { intros c' Hcc. rewrite !cclass_radix, Hcc; try done. by rewrite cclass_alnum, Hcc, <- cclass_alnum. }
  destruct (increment_step _ s c carry last Hc Hac) as [(c' & A1 & A2 & ->)|(c' & A1 & A2 & ->)]; rewrite Hins.
  - exists (mid ++ [c']), false, (cclass c). split_and!; [by rewrite !fmap_app, !fmap_cons, A1| |done|done].
    rewrite !value_app. simpl. rewrite A2, (Hrad c' A1). lia.
  - destruct (IH (c' :: suf) true (cclass c) Ham (or_intror eq_refl)) as (mid' & over & l & B1 & B2 & B3 & B4).
    exists (mid' ++ [c']), over, l. split_and!.
    + by rewrite !fmap_app, !fmap_cons, A1, B1.
    + rewrite !value_app, !weight_app. simpl. rewrite (Hrad c' A1). destruct over; nia.
    + intros Ho. rewrite (B3 Ho). by destruct mid.
    + rewrite length_app. rewrite <- !app_assoc. exact B4.
Qed.

(** C36: [increment_string] is the successor function: for a non-empty
    alphanumeric string read as a number with a radix per position (letters
    count 1 to 26, digits 0 to 9) the result is one more; every character
    keeps its class, and when the carry leaves the string a character of the
    class of the first one is put in front.  Behind the last character that
    is not alphanumeric, what precedes it does not change and a carry is
    lost. *)
Theorem increment_string_successor s :
  (∀ c t, s = c :: t → Forall (λ c, alnum c = true) s →
     ∃ s', increment_string s = OK s' ∧ value s' = value s + 1 ∧
       (cclass <$> s' = cclass <$> s ∨ cclass <$> s' = cclass c :: (cclass <$> s))) ∧
  (∀ pre c mid, s = pre ++ c :: mid → alnum c = false → Forall (λ c, alnum c = true) mid → mid ≠ [] →
     ∃ mid' over, increment_string s = OK (pre ++ c :: mid') ∧ cclass <$> mid' = cclass <$> mid ∧
       value mid' + (if over : bool then weight mid else 0) = value mid + 1).
Proof.
  split.
  - intros c0 t -> Ha. set (s := c0 :: t) in *. assert (s ≠ []) as Hne by done. unfold increment_string.
    rewrite (proj2 (Nat.eqb_neq (length s) 0)) by done.
    destruct (increment_mid [] s [] false NOT_SEEN Ha (or_introl Hne)) as (s' & over & l & B1 & B2 & B3 & B4).
    cbn [app Nat.add] in B4. rewrite !app_nil_r in B4. change (length [] + length s)%nat with (length s) in B4. rewrite B4.
    destruct (same_class s s' B1 Ha) as (_ & Hw & _).
    destruct over; cbn [increment_loop length]; ob.
    + specialize (B3 eq_refl). simpl in B3. apply Forall_cons in Ha as [Hc0 _]. apply cclass_alnum in Hc0.
      assert (∀ d, cclass d = cclass c0 → digit d = 1 → (∃ s'', OK (d :: s') = OK s'' ∧ value s'' = value s + 1 ∧
        (cclass <$> s'' = cclass <$> s ∨ cclass <$> s'' = cclass c0 :: (cclass <$> s)))) as Hd.
      { intros d D1 D2. exists (d :: s'). split_and!; [done| |right; by rewrite fmap_cons, D1, B1].
        cbn [value]. rewrite D2, Hw. lia. }
      rewrite <- B3 in Hc0 |- *. rewrite <- B3 in Hd. destruct l; [done|by apply Hd..].
    + exists s'. split_and!; [done|lia|by left].
  - intros pre c mid -> Hc Ha Hne. unfold increment_string.
    rewrite (proj2 (Nat.eqb_neq _ _)) by (rewrite length_app; simpl; lia).
    destruct (increment_mid (pre ++ [c]) mid [] false NOT_SEEN Ha (or_introl Hne)) as (mid' & over & l & B1 & B2 & B3 & B4).
    rewrite !app_nil_r, <- !app_assoc in B4. simpl app in B4.
    replace (length (pre ++ [c]) + length mid)%nat with (length (pre ++ c :: mid)) in B4 by (rewrite !length_app; simpl; lia).
    rewrite B4. exists mid', over. split; [|done]. destruct over; [|done].
    rewrite length_app, Nat.add_1_r. cbn [increment_loop]. rewrite lookup_app_r, Nat.sub_diag by lia.
    change ((c :: mid') !! 0%nat) with (Some c). ob.
    unfold alnum, lower, upper, numeric in Hc. apply orb_false_iff in Hc as [[H1 H2]%orb_false_iff H3]. by rewrite H1, H2, H3.
Qed.

Lemma increment_string_successor_witness :
  ∃ s', increment_string [90; 122; 57] = OK s' ∧ value s' = value [90; 122; 57] + 1.
Proof.
  destruct (proj1 (increment_string_successor [90; 122; 57]) 90 [122; 57] eq_refl ltac:(repeat constructor)) as (s' & H1 & H2 & _).
  exists s'. split; [exact H1|exact H2].
Defined.
