(* ===== verification/ZendNumeric.v ===== *)
(** Numeric strings and the comparison of values, from Zend/zend_operators.h and
    Zend/zend_operators.c: [is_numeric_string_ex] with its jumps,
    [zendi_smart_strcmp], the conversions to a number and to a boolean and
    [compare_function].

    A string is the list of its bytes with the terminating NUL; a pointer is a
    position in it, and a read past the end is undefined.  [double] is a
    parameter, and so is the value [zend_strtod] computes; how far it reads is
    modelled.  Objects, references and the case that [result] is one of the
    operands are not modelled. *)

From S2P Require Import Prelude ZendArith ZendStrings.

(** What the code does with doubles beyond arithmetic: [d], [d == e], [d < e],
    [d <= e], [d > 0], [zend_finite] and the value of a numeric string. *)
Class DoubleCmp `{Double} := {
  d_nonzero : double → bool;
  d_eq : double → double → bool;
  d_lt : double → double → bool;
  d_le : double → double → bool;
  d_pos : double → bool;
  zend_finite : double → bool;
  strtod_value : list Z → double;
}.

Definition MAX_LENGTH_OF_LONG : nat := 20.
(** "9223372036854775808" *)
Definition long_min_digits : list Z := [57; 50; 50; 51; 51; 55; 50; 48; 51; 54; 56; 53; 52; 55; 55; 53; 56; 48; 56; 0].
Definition ZEND_IS_DIGIT (c : Z) : bool := (48 <=? c) && (c <=? 57).
Definition ZEND_IS_XDIGIT (c : Z) : bool := ((65 <=? c) && (c <=? 70)) || ((97 <=? c) && (c <=? 102)).
(** The white space skipped, which is [isspace] in the C locale, too. *)
Definition is_white (c : Z) : bool := (c =? 32) || ((9 <=? c) && (c <=? 13)).
Definition is_sign (c : Z) : bool := (c =? 45) || (c =? 43).
Definition is_e (c : Z) : bool := (c =? 101) || (c =? 69).
Definition is_x (c : Z) : bool := (c =? 120) || (c =? 88).

(** ** The C library *)

Fixpoint strcmp (a b : list Z) : Z :=
  let y := hd 0 b in
  match a with
  | [] => - y
  | x :: a => if x =? y then (if x =? 0 then 0 else strcmp a (tl b)) else x - y
  end.

Definition digit_value (c : Z) : Z := if ZEND_IS_DIGIT c then c - 48 else if c <=? 70 then c - 55 else c - 87.
Definition base_digit (base c : Z) : bool := ZEND_IS_DIGIT c || ((base =? 16) && ZEND_IS_XDIGIT c).
Fixpoint digits_value (base acc : Z) (s : list Z) : Z :=
  match s with
  | c :: s => if base_digit base c then digits_value base (acc * base + digit_value c) s else acc
  | [] => acc
  end.
Fixpoint drop_while (p : Z → bool) (s : list Z) : list Z :=
  match s with c :: s' => if p c then drop_while p s' else s | [] => [] end.
(** [strtol] in bases 10 and 16: out of range it saturates. *)
Definition strtol (s : list Z) (base : Z) : Z :=
  let s := drop_while is_white s in
  let neg := match s with c :: _ => c =? 45 | [] => false end in
  let s := match s with c :: s' => if is_sign c then s' else s | [] => [] end in
  let s := match s with
           | z :: x :: h :: s' => if (base =? 16) && (z =? 48) && is_x x && base_digit 16 h then h :: s' else s
           | _ => s
           end in
  let n := digits_value base 0 s in
  Z.max LONG_MIN (Z.min LONG_MAX (if neg then - n else n)).

Section numeric.
Context (s : list Z).

(** [*ptr] *)
Definition ch (i : nat) : outcome Z := rd (s !! i).

(** [while (p( *i)) i++;] *)
Fixpoint scan (fuel : nat) (p : Z → bool) (i : nat) : outcome nat :=
  match fuel with
  | O => UB
  | S fuel => let* c := ch i in if p c then scan fuel p (S i) else OK i
  end.
Definition skip_while (p : Z → bool) (i : nat) : outcome nat := scan (S (length s)) p i.

(** ** [zend_strtod]: the characters it reads

    The loop over the digits behind the point: the position, [nd] and [nz]. *)
Fixpoint have_dig (fuel : nat) (i nd nz : nat) : outcome (nat * nat * nat) :=
  match fuel with
  | O => UB
  | S fuel =>
      let* c := ch i in
      if ZEND_IS_DIGIT c then (if c =? 48 then have_dig fuel (S i) nd (S nz) else have_dig fuel (S i) (nd + S nz) 0)
      else OK (i, nd, nz)
  end.

(** The exponent, from the [e] at [i]; where it ends, or [i] when there is none. *)
Definition strtod_exponent (i : nat) : outcome nat :=
  let* c := ch (S i) in
  let j := if is_sign c then S (S i) else S i in
  let* c := ch j in
  if ZEND_IS_DIGIT c then
    let* j := skip_while (λ c, c =? 48) j in
    let* c := ch j in
    if (49 <=? c) && (c <=? 57) then skip_while ZEND_IS_DIGIT j else OK j
  else OK i.

(** [dig_done:]; [start] is where the string began. *)
Definition dig_done (start i nd nz : nat) (nz0 : bool) : outcome nat :=
  let none := (nd =? 0)%nat && (nz =? 0)%nat && negb nz0 in
  let* c := ch i in
  if is_e c then (if none then OK start else strtod_exponent i)
  else OK (if none then start else i).

Definition zend_strtod_end (start : nat) : outcome nat :=
  let* i := skip_while is_white start in
  let* c := ch i in
  let i := if is_sign c then S i else i in
  let* c := ch i in
  if c =? 0 then OK start else
  let nz0 := c =? 48 in
  let* i := if nz0 then skip_while (λ c, c =? 48) i else OK i in
  let* c := ch i in
  if nz0 && (c =? 0) then OK i else
  let* j := skip_while ZEND_IS_DIGIT i in
  let nd := (j - i)%nat in
  let* c := ch j in
  if c =? 46 then
    if (nd =? 0)%nat then
      let* k := skip_while (λ c, c =? 48) (S j) in
      let nz := (k - S j)%nat in
      let* c := ch k in
      if (49 <=? c) && (c <=? 57) then
        let* (i, nd, nz) := have_dig (S (length s)) k nd 0 in dig_done start i nd nz nz0
      else dig_done start k nd nz nz0
    else
      let* (i, nd, nz) := have_dig (S (length s)) (S j) nd 0 in dig_done start i nd nz nz0
  else dig_done start j nd 0 nz0.

Section with_double.
Context `{DoubleCmp}.

Definition zend_strtod (start : nat) : outcome (double * nat) :=
  let* e := zend_strtod_end start in OK (strtod_value (drop start s), e).

(** The loop of [zend_hex_strtod] behind the prefix. *)
Fixpoint hex_loop (fuel : nat) (i : nat) (any : bool) (value : double) : outcome (double * nat * bool) :=
  match fuel with
  | O => UB
  | S fuel =>
      let* c := ch i in
      if base_digit 16 c then hex_loop fuel (S i) true (d_add (d_mul value (d_of_long 16)) (d_of_long (digit_value c)))
      else OK (value, i, any)
  end.
(** On a string that begins with 0x. *)
Definition zend_hex_strtod (start : nat) : outcome (double * nat) :=
  let* (d, i, any) := hex_loop (S (length s)) (S (S start)) false (d_of_long 0) in
  OK (d, if any : bool then i else start).

(** ** [is_numeric_string_ex] *)

(** Its result: 0, or the type with the value it stores through [lval] or
    [dval]. *)
Inductive numeric := NotNumeric | NumLong (lval : Z) | NumDouble (dval : option double).

(** The places of the code that it jumps to. *)
Inductive label := loop_test | check_digits | loop_end | process_double.

Section run.
(** [dval != NULL]; [allow_errors]; the start behind the white space; [base]. *)
Context (has_dval : bool) (allow_errors : Z) (str : nat) (base : Z).

(** [*str == '-' ? -1 : 1] *)
Definition oflow_sign : outcome Z := let* c := ch str in OK (if c =? 45 then -1 else 1).

(** From a label to the end of the scan: [ptr], [digits], whether [type] is
    IS_DOUBLE, [local_dval] and [*oflow_info]. *)
Fixpoint go (fuel : nat) (l : label) (ptr digits : nat) (dbl : bool) (dp_or_e oflow : Z)
    : outcome (nat * nat * bool * option double * Z) :=
  match fuel with
  | O => UB
  | S fuel =>
      match l with
      | loop_test =>
          if (MAX_LENGTH_OF_LONG <=? digits)%nat && (has_dval || (allow_errors =? 1)) then go fuel loop_end ptr digits dbl dp_or_e oflow
          else go fuel check_digits ptr digits dbl dp_or_e oflow
      | check_digits =>
          let* c := ch ptr in
          if base_digit base c then go fuel loop_test (S ptr) (S digits) dbl dp_or_e oflow
          else if base =? 10 then
            if (c =? 46) && (dp_or_e <? 1) then go fuel process_double ptr digits dbl dp_or_e oflow
            else if is_e c && (dp_or_e <? 2) then
              let* e := ch (S ptr) in
              let '(ptr, e) := if is_sign e then (S ptr, S (S ptr)) else (ptr, S ptr) in
              let* d := ch e in
              if ZEND_IS_DIGIT d then go fuel process_double ptr digits dbl dp_or_e oflow
              else go fuel loop_end ptr digits dbl dp_or_e oflow
            else go fuel loop_end ptr digits dbl dp_or_e oflow
          else go fuel loop_end ptr digits dbl dp_or_e oflow
      | loop_end =>
          if base =? 10 then
            if (MAX_LENGTH_OF_LONG <=? digits)%nat then
              let* o := oflow_sign in go fuel process_double ptr digits dbl (-1) o
            else OK (ptr, digits, dbl, None, oflow)
          else
            let* small := if (digits <? 16)%nat then OK true
                          else if (digits =? 16)%nat then let* c := ch (ptr - digits) in OK (c <=? 55) else OK false in
            if small : bool then OK (ptr, digits, dbl, None, oflow)
            else if has_dval then let* (d, e) := zend_hex_strtod str in OK (e, digits, true, Some d, 1)
            else OK (ptr, digits, true, None, 1)
      | process_double =>
          if has_dval then let* (d, e) := zend_strtod str in OK (e, digits, true, Some d, oflow)
          else if negb (allow_errors =? 1) && negb (dp_or_e =? -1) then
            let* c := ch ptr in go fuel check_digits (S ptr) digits true (if c =? 46 then 1 else 2) oflow
          else OK (ptr, digits, true, None, oflow)
      end
  end.
End run.

(** Behind the scan: the return value, [*oflow_info], and whether a notice is
    raised; [str] is the start behind the white space. *)
Definition numeric_result (length_ str : nat) (base : Z) (has_dval : bool) (allow_errors : Z) (r : nat * nat * bool * option double * Z)
    : outcome (numeric * Z * bool) :=
  let '(ptr, digits, dbl, local_dval, oflow) := r in
  let full := (ptr =? length_)%nat in
  if negb full && (allow_errors =? 0) then OK (NotNumeric, oflow, false) else
  let notice := negb full && (allow_errors =? -1) in
  if dbl : bool then OK (NumDouble local_dval, oflow, notice)
  else
    let cmp := strcmp (drop (ptr - digits) s) long_min_digits in
    let* c0 := ch str in
    if (digits =? MAX_LENGTH_OF_LONG - 1)%nat && negb ((cmp <? 0) || ((cmp =? 0) && (c0 =? 45))) then
      let* o := oflow_sign str in
      if has_dval then let* (d, _) := zend_strtod str in OK (NumDouble (Some d), o, notice) else OK (NumDouble None, o, notice)
    else OK (NumLong (strtol (drop str s) base), oflow, notice).

Definition is_numeric_string_ex (length_ : nat) (has_dval : bool) (allow_errors : Z) : outcome (numeric * Z * bool) :=
  if (length_ =? 0)%nat then OK (NotNumeric, 0, false) else
  let* str := skip_while is_white 0 in
  let* c0 := ch str in
  let ptr := if is_sign c0 then S str else str in
  let* c := ch ptr in
  let fuel := (2 * length s + 16)%nat in
  if ZEND_IS_DIGIT c then
    let* x := ch (S str) in
    let hex := (2 <? length_ - str)%nat && (c0 =? 48) && is_x x in
    let base := if hex then 16 else 10 in
    let* ptr := skip_while (λ c, c =? 48) (if hex then S (S ptr) else ptr) in
    let* r := go has_dval allow_errors str base fuel loop_test ptr 0 false 0 0 in
    numeric_result length_ str base has_dval allow_errors r
  else if c =? 46 then
    let* d := ch (S ptr) in
    if ZEND_IS_DIGIT d then
      let* r := go has_dval allow_errors str 10 fuel process_double ptr 0 false 0 0 in
      numeric_result length_ str 10 has_dval allow_errors r
    else OK (NotNumeric, 0, false)
  else OK (NotNumeric, 0, false).
End with_double.
End numeric.
