(* ===== verification/ZendNumericSpec.v ===== *)
(** What [is_numeric_string_ex] accepts, and with which value: its scan and the
    one of [zend_strtod] follow one grammar of numbers. *)

From S2P Require Import Prelude ZendArith ZendStrings ZendNumeric.

(** ** The grammar *)

(** The length of the longest prefix of characters in [p]. *)
Fixpoint plen (p : Z → bool) (l : list Z) : nat :=
  match l with c :: l => if p c then S (plen p l) else 0 | [] => 0 end.
Definition sign_len (l : list Z) : nat := match l with c :: _ => if is_sign c then 1 else 0 | [] => 0 end.
(** An exponent at the start of [l]; 0 when there is none. *)
Definition exp_len (l : list Z) : nat :=
  match l with
  | e :: r => if is_e e then (let k := sign_len r in match plen ZEND_IS_DIGIT (drop k r) with O => 0 | n => S (k + n) end) else 0
  | [] => 0
  end.
(** A fraction: a point and the digits behind it. *)
Definition frac_len (l : list Z) : nat := match l with c :: r => if c =? 46 then S (plen ZEND_IS_DIGIT r) else 0 | [] => 0 end.

Lemma plen_le p l : (plen p l ≤ length l)%nat.
Proof. induction l as [|c l IH]; simpl; [lia|]. destruct (p c); lia. Qed.
Lemma plen_app p l c r : p c = false → plen p (l ++ c :: r) = plen p l.
Proof. intros Hc. induction l as [|a l IH]; simpl; [by rewrite Hc|]. by rewrite IH. Qed.
Lemma plen_stop p l : match drop (plen p l) l with c :: _ => p c = false | [] => True end.
Proof. induction l as [|c l IH]; simpl; [done|]. by destruct (p c) eqn:Hc. Qed.
Lemma plen_take p l c i : take (plen p l) l !! i = Some c → p c = true.
Proof.
  revert i. induction l as [|a l IH]; intros i; simpl; [done|]. destruct (p a) eqn:Ha; [|done]. destruct i; [by intros [= ->]|apply IH].
Qed.
Lemma plen_add p q l : (∀ c, p c = true → q c = true) → plen q l = (plen p l + plen q (drop (plen p l) l))%nat.
Proof.
  intros Hpq. induction l as [|c l IH]; [done|]. simpl. destruct (p c) eqn:Hp; [by rewrite (Hpq _ Hp), IH|done].
Qed.
Lemma drop_while_plen p l : drop_while p l = drop (plen p l) l.
Proof. induction l as [|c l IH]; simpl; [done|]. by destruct (p c). Qed.

Section scan.
Context (s : list Z).

Lemma ch_at i c l : drop i s = c :: l → ch s i = OK c.
Proof. intros Hd. unfold ch. pose proof (lookup_drop s i 0) as E. rewrite Hd, Nat.add_0_r in E. simpl in E. by rewrite <- E. Qed.
Lemma drop_next i c l : drop i s = c :: l → drop (S i) s = l.
Proof. intros Hd. change (S i) with (1 + i)%nat. rewrite Nat.add_comm, <- drop_drop, Hd. done. Qed.
Lemma drop_add i k l : drop i s = l → drop (i + k) s = drop k l.
Proof. intros <-. by rewrite drop_drop. Qed.

Lemma scan_run p fuel i l : drop i s = l → (∃ b r, l = b ++ 0 :: r) → p 0 = false → (plen p l < fuel)%nat → scan s fuel p i = OK (i + plen p l)%nat.
Proof.
  revert i l. induction fuel as [|fuel IH]; intros i l Hd (b & r & Hl) Hp Hf; [lia|]. destruct l as [|c l]; [by destruct b|]. simpl.
  rewrite (ch_at _ _ _ Hd). cbn [obind]. simpl in Hf. destruct (p c) eqn:Hc; [|f_equal; lia].
  rewrite (IH (S i) l); [f_equal; lia|by eapply drop_next| |done|lia].
  destruct b as [|c' b]; [injection Hl as -> ->; congruence|]. injection Hl as -> ->. eauto.
Qed.

Definition ends (l : list Z) : Prop := ∃ b r, l = b ++ 0 :: r.
Lemma ends_plen p l : ends l → p 0 = false → ends (drop (plen p l) l).
Proof.
  intros (b & r & ->) Hp. rewrite (plen_app _ _ _ _ Hp). exists (drop (plen p b) b), r. rewrite drop_app_le by apply plen_le. done.
Qed.
Lemma ends_tail c l : ends (c :: l) → c ≠ 0 → ends l.
Proof. intros (b & r & Hl) Hc. destruct b as [|c' b]; injection Hl as -> ->; [done|]. by exists b, r. Qed.
Lemma ends_cons l : ends l → ∃ c r, l = c :: r.
Proof. intros ([|c b] & r & ->); eauto. Qed.

Lemma skip_spec p i l : drop i s = l → ends l → p 0 = false → skip_while s p i = OK (i + plen p l)%nat.
Proof.
  intros Hd He Hp. unfold skip_while. apply scan_run; [done..|]. pose proof (plen_le p l). rewrite <- Hd, length_drop in H. rewrite Hd in *. lia.
Qed.

(** ** [zend_strtod] *)

Lemma have_dig_spec fuel i nd nz l : drop i s = l → ends l → (plen ZEND_IS_DIGIT l < fuel)%nat →
  ∃ nd' nz', have_dig s fuel i nd nz = OK ((i + plen ZEND_IS_DIGIT l)%nat, nd', nz') ∧ (nd' + nz' = nd + nz + plen ZEND_IS_DIGIT l)%nat.
Proof.
  revert i nd nz l. induction fuel as [|fuel IH]; intros i nd nz l Hd He Hf; [lia|]. destruct (ends_cons _ He) as (c & r & ->).
  cbn [have_dig plen] in *. rewrite (ch_at _ _ _ Hd). cbn [obind]. destruct (ZEND_IS_DIGIT c) eqn:Hc.
  - assert (c ≠ 0) as H0 by (intros ->; done). pose proof (ends_tail _ _ He H0) as He'. replace (i + S (plen ZEND_IS_DIGIT r))%nat with (S i + plen ZEND_IS_DIGIT r)%nat by lia.
    destruct (c =? 48).
    + destruct (IH (S i) nd (S nz) r) as (nd' & nz' & -> & Hle); [by eapply drop_next|done|lia|]. exists nd', nz'. split; [done|lia].
    + destruct (IH (S i) (nd + S nz)%nat 0%nat r) as (nd' & nz' & -> & Hle); [by eapply drop_next|done|lia|]. exists nd', nz'. split; [done|lia].
  - rewrite Nat.add_0_r. exists nd, nz. split; [done|lia].
Qed.

Lemma digit_range c : ZEND_IS_DIGIT c = (48 =? c) || ((49 <=? c) && (c <=? 57)).
Proof. unfold ZEND_IS_DIGIT. destruct (Z.eqb_spec 48 c), (Z.leb_spec 48 c), (Z.leb_spec 49 c), (Z.leb_spec c 57); simpl; done || lia. Qed.

Lemma exponent_spec i c l : drop i s = c :: l → ends l → is_e c = true → strtod_exponent s i = OK (i + exp_len (c :: l))%nat.
Proof.
  intros Hd He Hc. pose proof (drop_next _ _ _ Hd) as Hl. destruct (ends_cons _ He) as (c1 & r1 & ->). unfold strtod_exponent. rewrite (ch_at _ _ _ Hl). cbn [obind].
  cbn [exp_len]. rewrite Hc. set (k := sign_len (c1 :: r1)).
  assert ((if is_sign c1 then S (S i) else S i) = (S i + k)%nat) as -> by (unfold k; simpl; destruct (is_sign c1); lia).
  assert (ends (drop k (c1 :: r1))) as Hk.
  { unfold k. simpl. destruct (is_sign c1) eqn:Hs; [|done]. simpl. eapply ends_tail; [done|]. intros ->. done. }
  pose proof (drop_add (S i) k _ Hl) as Hdk. destruct (ends_cons _ Hk) as (d & r & Hr). rewrite Hr in *. rewrite (ch_at _ _ _ Hdk). cbn [obind plen].
  destruct (ZEND_IS_DIGIT d) eqn:Hdig; [|f_equal; lia].
  rewrite (skip_spec (λ c, c =? 48) _ _ Hdk) by done. cbn [obind].
  assert (∀ c, (c =? 48) = true → ZEND_IS_DIGIT c = true) as Hz by (intros x ->%Z.eqb_eq; done).
  pose proof (plen_add _ _ (d :: r) Hz) as Hadd.
  assert (plen ZEND_IS_DIGIT (d :: r) = S (plen ZEND_IS_DIGIT r)) as Hdr by (simpl; by rewrite Hdig). rewrite Hdr in Hadd.
  assert (ends (drop (plen (λ c, c =? 48) (d :: r)) (d :: r))) as Hez by (apply ends_plen; done).
  pose proof (drop_add _ (plen (λ c, c =? 48) (d :: r)) _ Hdk) as Hdz. destruct (ends_cons _ Hez) as (x & t & Hx). rewrite Hx in *.
  pose proof (plen_stop (λ c, c =? 48) (d :: r)) as Hstop. rewrite Hx in Hstop.
  rewrite (ch_at _ _ _ Hdz). cbn [obind]. pose proof (digit_range x) as Hxr. rewrite Z.eqb_sym, Hstop in Hxr. simpl orb in Hxr.
  destruct ((49 <=? x) && (x <=? 57)).
  - rewrite (skip_spec ZEND_IS_DIGIT _ _ Hdz) by done. f_equal. lia.
  - assert (plen ZEND_IS_DIGIT (x :: t) = 0%nat) as Hx0 by (simpl; by rewrite Hxr). f_equal. lia.
Qed.

Lemma dig_done_spec start i nd nz nz0 l : drop i s = l → ends l → (nd =? 0)%nat && (nz =? 0)%nat && negb nz0 = false →
  dig_done s start i nd nz nz0 = OK (i + exp_len l)%nat.
Proof.
  intros Hd He Hn. destruct (ends_cons _ He) as (c & r & ->). unfold dig_done. rewrite Hn, (ch_at _ _ _ Hd). cbn [obind].
  destruct (is_e c) eqn:Hc; [|simpl; rewrite Hc; f_equal; lia]. apply exponent_spec; [done| |done]. eapply ends_tail; [done|]. by intros ->.
Qed.

(** An unsigned number: digits, a fraction, an exponent. *)
Definition float_len (u : list Z) : nat :=
  let n := plen ZEND_IS_DIGIT u in
  let f := frac_len (drop n u) in (n + f + exp_len (drop (n + f) u))%nat.
Definition has_digit (u : list Z) : Prop := (1 ≤ plen ZEND_IS_DIGIT u)%nat ∨ ∃ r, u = 46 :: r ∧ (1 ≤ plen ZEND_IS_DIGIT r)%nat.

Lemma strtod_end_spec start l : drop start s = l → ends l → plen is_white l = 0%nat → has_digit (drop (sign_len l) l) →
  zend_strtod_end s start = OK (start + sign_len l + float_len (drop (sign_len l) l))%nat.
Proof.
  intros Hd He Hw Hdig. unfold zend_strtod_end. rewrite (skip_spec is_white _ _ Hd) by done. rewrite Hw, Nat.add_0_r. cbn [obind].
  destruct (ends_cons _ He) as (c & l' & Hl). rewrite Hl in Hd. rewrite (ch_at _ _ _ Hd). cbn [obind]. rewrite <- Hl in Hd.
  assert ((if is_sign c then S start else start) = (start + sign_len l)%nat) as -> by (rewrite Hl; simpl; destruct (is_sign c); lia).
  pose proof (drop_add _ (sign_len l) _ Hd) as Hu. set (i := (start + sign_len l)%nat) in *. set (u := drop (sign_len l) l) in *.
  assert (ends u) as Heu. { unfold u. rewrite Hl. simpl. destruct (is_sign c) eqn:Hs; [|by rewrite <- Hl]. simpl. rewrite Hl in He. eapply ends_tail; [done|]. by intros ->. }
  clearbody i u. clear l c l' Hl Hd He Hw. destruct (ends_cons _ Heu) as (c1 & u' & Hu1). rewrite Hu1 in Hu. rewrite (ch_at _ _ _ Hu). cbn [obind]. rewrite <- Hu1 in Hu.
  assert (c1 ≠ 0) as Hc0. { intros ->. rewrite Hu1 in Hdig. destruct Hdig as [Hdig|(r & [= ] & _)]. simpl in Hdig. lia. }
  rewrite (proj2 (Z.eqb_neq _ _) Hc0). set (z := plen (λ c, c =? 48) u).
  assert ((if c1 =? 48 then skip_while s (λ c, c =? 48) i else OK i) = OK (i + z)%nat) as ->.
  { unfold z. destruct (c1 =? 48) eqn:E; [by rewrite (skip_spec _ _ _ Hu)|]. rewrite Hu1. simpl. rewrite E. f_equal. lia. }
  cbn [obind]. pose proof (drop_add _ z _ Hu) as Hz. set (u1 := drop z u) in *. assert (ends u1) as He1 by (apply ends_plen; done).
  assert (plen ZEND_IS_DIGIT u = (z + plen ZEND_IS_DIGIT u1)%nat) as Hn by (apply plen_add; intros x ->%Z.eqb_eq; done).
  assert ((1 ≤ z)%nat → (c1 =? 48) = true) as Hz48. { unfold z. rewrite Hu1. simpl. destruct (c1 =? 48); [done|lia]. }
  destruct (ends_cons _ He1) as (c2 & v & Hv). rewrite Hv in Hz. rewrite (ch_at _ _ _ Hz). cbn [obind]. rewrite <- Hv in Hz.
  destruct ((c1 =? 48) && (c2 =? 0)) eqn:Hend.
  { apply andb_true_iff in Hend as [_ Hc2%Z.eqb_eq]. subst c2. assert (plen ZEND_IS_DIGIT u1 = 0%nat) as H0 by by rewrite Hv.
    unfold float_len. rewrite Hn, H0, Nat.add_0_r. fold u1. rewrite Hv. simpl. rewrite !Nat.add_0_r. fold u1. rewrite Hv. simpl. f_equal. lia. }
  rewrite (skip_spec ZEND_IS_DIGIT _ _ Hz) by done. cbn [obind]. set (nd := plen ZEND_IS_DIGIT u1) in *.
  replace (i + z + nd)%nat with (i + (z + nd))%nat by lia. rewrite <- Hn. pose proof (drop_add _ (plen ZEND_IS_DIGIT u) _ Hu) as Hr.
  set (r := drop (plen ZEND_IS_DIGIT u) u) in *. assert (ends r) as Her by (apply ends_plen; done).
  replace (i + plen ZEND_IS_DIGIT u - (i + z))%nat with nd by lia. unfold float_len. fold r.
  destruct (ends_cons _ Her) as (c3 & r' & Hr'). rewrite Hr' in Hr. rewrite (ch_at _ _ _ Hr). cbn [obind]. rewrite <- Hr' in Hr.
  assert (r = drop nd u1) as Hru by (unfold r, u1; rewrite drop_drop, Hn; done).
  destruct (c3 =? 46) eqn:Hpt.
  - apply Z.eqb_eq in Hpt. subst c3. pose proof (drop_next _ _ _ (eq_trans Hr Hr')) as Hr2. set (j := (i + plen ZEND_IS_DIGIT u)%nat) in *.
    assert (ends r') as Her' by (rewrite Hr' in Her; by eapply ends_tail).
    assert (frac_len r = S (plen ZEND_IS_DIGIT r')) as Hf by (rewrite Hr'; done). rewrite Hf.
    assert (∀ k nd' nz' nz0, k = (S j + plen ZEND_IS_DIGIT r')%nat → (nd' =? 0)%nat && (nz' =? 0)%nat && negb nz0 = false →
      dig_done s start k nd' nz' nz0 = OK (i + (plen ZEND_IS_DIGIT u + S (plen ZEND_IS_DIGIT r') + exp_len (drop (plen ZEND_IS_DIGIT u + S (plen ZEND_IS_DIGIT r')) u)))%nat) as Hfin.
    { intros k nd' nz' nz0 -> Hnone. assert (drop (plen ZEND_IS_DIGIT u + S (plen ZEND_IS_DIGIT r')) u = drop (plen ZEND_IS_DIGIT r') r') as ->.
      { rewrite <- drop_drop. fold r. rewrite Hr'. done. }
      rewrite (dig_done_spec _ _ _ _ _ (drop (plen ZEND_IS_DIGIT r') r')); [f_equal; unfold j; lia|by apply drop_add|by apply ends_plen|done]. }
    destruct (Nat.eqb_spec nd 0) as [Hnd|Hnd].
    + rewrite (skip_spec (λ c, c =? 48) _ _ Hr2) by done. cbn [obind]. set (nz := plen (λ c, c =? 48) r').
      replace (S j + nz - S j)%nat with nz by lia. pose proof (drop_add _ nz _ Hr2) as Hr3. assert (ends (drop nz r')) as Her3 by (apply ends_plen; done).
      assert (plen ZEND_IS_DIGIT r' = (nz + plen ZEND_IS_DIGIT (drop nz r'))%nat) as Hadd by (apply plen_add; intros x ->%Z.eqb_eq; done).
      pose proof (plen_stop (λ c, c =? 48) r') as Hstop. fold nz in Hstop. destruct (ends_cons _ Her3) as (x & t & Hx). rewrite Hx in Hstop.
      pose proof (eq_trans Hr3 Hx) as Hr4. rewrite (ch_at _ _ _ Hr4). cbn [obind]. pose proof (digit_range x) as Hxr. rewrite Z.eqb_sym, Hstop in Hxr. simpl orb in Hxr.
      destruct ((49 <=? x) && (x <=? 57)).
      * destruct (have_dig_spec (S (length s)) _ nd 0 _ Hr3 Her3) as (nd' & nz' & -> & Hsum).
        { pose proof (plen_le ZEND_IS_DIGIT (drop nz r')) as Hle. pose proof (f_equal length Hr3) as Hl3. rewrite length_drop in Hl3. lia. }
        cbn [obind]. apply Hfin; [lia|]. rewrite Hx in Hsum. simpl plen in Hsum. rewrite Hxr in Hsum. destruct nd', nz'; simpl; done || lia.
      * rewrite Hx in Hadd. simpl plen in Hadd. rewrite Hxr in Hadd. apply Hfin; [lia|]. rewrite Hnd. simpl.
        destruct Hdig as [Hdig|(q & Hq & Hdig)]; [rewrite Hz48 by lia; apply andb_false_r|].
        assert (nz ≠ 0%nat) as Hnz; [|by destruct nz].
        assert (q = r') as ->; [|lia]. assert (plen ZEND_IS_DIGIT u = 0%nat) as Hu0 by by rewrite Hq. unfold r in Hr'. rewrite Hu0, Hq in Hr'. simpl in Hr'. by injection Hr'.
    + destruct (have_dig_spec (S (length s)) (S j) nd 0 _ Hr2 Her') as (nd' & nz' & -> & Hsum).
      { pose proof (plen_le ZEND_IS_DIGIT r') as Hle. pose proof (f_equal length Hr2) as Hl2. rewrite length_drop in Hl2. lia. }
      cbn [obind]. apply Hfin; [done|]. destruct nd', nz'; simpl; done || lia.
  - assert (frac_len r = 0%nat) as Hf by (rewrite Hr'; simpl; by rewrite Hpt). rewrite Hf, Nat.add_0_r. fold r.
    rewrite (dig_done_spec _ _ _ _ _ r Hr Her); [f_equal; lia|].
    destruct Hdig as [Hdig|(q & Hq & Hdig)].
    + destruct (Nat.eqb_spec nd 0); [|done]. simpl. by rewrite Hz48 by lia.
    + assert (plen ZEND_IS_DIGIT u = 0%nat) as Hu0 by by rewrite Hq. unfold r in Hr'. rewrite Hu0, Hq in Hr'. injection Hr' as <- _. done.
Qed.
End scan.

(** ** Values of digit strings *)

Definition all_digits (base : Z) (t : list Z) : Prop := plen (base_digit base) t = length t.

Lemma all_digits_cons base c t : all_digits base (c :: t) ↔ base_digit base c = true ∧ all_digits base t.
Proof. unfold all_digits. simpl. destruct (base_digit base c); naive_solver. Qed.
Lemma plen_base_10 l : plen (base_digit 10) l = plen ZEND_IS_DIGIT l.
Proof. induction l as [|c l IH]; [done|]. cbn [plen]. rewrite IH. unfold base_digit. by rewrite andb_false_l, orb_false_r. Qed.
Lemma all_digits_plen base l : all_digits base (take (plen (base_digit base) l) l).
Proof.
  unfold all_digits. induction l as [|c l IH]; simpl; [done|]. destruct (base_digit base c) eqn:Hc; simpl; [|done]. by rewrite Hc, IH.
Qed.
Lemma digits_value_take base acc l : digits_value base acc l = digits_value base acc (take (plen (base_digit base) l) l).
Proof. revert acc. induction l as [|c l IH]; intros acc; simpl; [done|]. destruct (base_digit base c) eqn:Hc; simpl; [|done]. by rewrite Hc, IH. Qed.

Lemma base_digit_cases base c : base_digit base c = true →
  (48 <= c <= 57 ∧ digit_value c = c - 48) ∨ (base = 16 ∧ (65 <= c <= 70 ∧ digit_value c = c - 55 ∨ 97 <= c <= 102 ∧ digit_value c = c - 87)).
Proof.
  unfold base_digit, digit_value, ZEND_IS_DIGIT, ZEND_IS_XDIGIT. intros [Hc|[Hb Hc]%andb_true_iff]%orb_true_iff.
  - left. rewrite Hc. apply andb_true_iff in Hc as [?%Z.leb_le ?%Z.leb_le]. lia.
  - right. apply Z.eqb_eq in Hb. split; [done|]. apply orb_true_iff in Hc as [[?%Z.leb_le ?%Z.leb_le]%andb_true_iff|[?%Z.leb_le ?%Z.leb_le]%andb_true_iff].
    + left. rewrite (proj2 (Z.leb_gt c 57)), andb_false_r, (proj2 (Z.leb_le c 70)) by lia. lia.
    + right. rewrite (proj2 (Z.leb_gt c 57)), andb_false_r, (proj2 (Z.leb_gt c 70)) by lia. lia.
Qed.
Lemma digit_value_range base c : base = 10 ∨ base = 16 → base_digit base c = true → 0 ≤ digit_value c < base.
Proof. intros Hb [[? ->]|(-> & [[? ->]|[? ->]])]%base_digit_cases; destruct Hb; lia. Qed.

Lemma digits_value_acc base acc t : all_digits base t → digits_value base acc t = acc * base ^ Z.of_nat (length t) + digits_value base 0 t.
Proof.
  revert acc. induction t as [|c t IH]; intros acc Ht; simpl; [lia|]. apply all_digits_cons in Ht as [Hc Ht]. rewrite Hc, IH by done. rewrite (IH (0 * base + _)) by done.
  rewrite Nat2Z.inj_succ, Z.pow_succ_r by lia. ring.
Qed.
Lemma digits_value_cons base c t : all_digits base (c :: t) → digits_value base 0 (c :: t) = digit_value c * base ^ Z.of_nat (length t) + digits_value base 0 t.
Proof. intros Ht. pose proof Ht as [Hc Ht']%all_digits_cons. simpl. rewrite Hc, digits_value_acc by done. f_equal. Qed.
Lemma digits_value_range base t : base = 10 ∨ base = 16 → all_digits base t → 0 ≤ digits_value base 0 t < base ^ Z.of_nat (length t).
Proof.
  intros Hb. induction t as [|c t IH]; intros Ht; [simpl; lia|]. rewrite digits_value_cons by done. apply all_digits_cons in Ht as [Hc Ht]. specialize (IH Ht).
  pose proof (digit_value_range _ _ Hb Hc). simpl length. rewrite Nat2Z.inj_succ, Z.pow_succ_r by lia. nia.
Qed.
Lemma digits_value_lower base c t : base = 10 ∨ base = 16 → all_digits base (c :: t) → c ≠ 48 → base ^ Z.of_nat (length t) ≤ digits_value base 0 (c :: t).
Proof.
  intros Hb Ht Hc. rewrite digits_value_cons by done. pose proof Ht as [Hd Ht']%all_digits_cons. pose proof (digits_value_range _ _ Hb Ht').
  assert (1 ≤ digit_value c); [|assert (0 ≤ base ^ Z.of_nat (length t)) by (apply Z.pow_nonneg; destruct Hb; lia); nia].
  apply base_digit_cases in Hd as [[? ->]|(-> & [[? ->]|[? ->]])]; lia.
Qed.
Lemma digits_value_zeros base l : digits_value base 0 l = digits_value base 0 (drop (plen (λ c, c =? 48) l) l).
Proof.
  induction l as [|c l IH]; simpl; [done|]. destruct (c =? 48) eqn:E; [|done]. apply Z.eqb_eq in E. subst c. done.
Qed.

(** [strcmp] on digit strings of one length is the comparison of the numbers. *)
Lemma strcmp_digits t t' : all_digits 10 t → all_digits 10 t' → length t = length t' →
  let r := strcmp (t ++ [0]) (t' ++ [0]) in let v := digits_value 10 0 t in let v' := digits_value 10 0 t' in
  (r < 0 ↔ v < v') ∧ (r = 0 ↔ v = v').
Proof.
  revert t'. induction t as [|c t IH]; intros [|c' t'] Ht Ht' Hlen; try done. cbv zeta. rewrite !digits_value_cons by done.
  apply all_digits_cons in Ht as [Hc Ht]. apply all_digits_cons in Ht' as [Hc' Ht']. injection Hlen as Hlen. simpl strcmp.
  assert (∀ x, base_digit 10 x = true → digit_value x = x - 48 ∧ 48 ≤ x ≤ 57) as Hval by (by intros x [[? ?]|[? _]]%base_digit_cases).
  destruct (Hval _ Hc) as [-> Hr], (Hval _ Hc') as [-> Hr']. rewrite Hlen. pose proof (digits_value_range 10 t ltac:(lia) Ht) as Hv. rewrite Hlen in Hv.
  pose proof (digits_value_range 10 t' ltac:(lia) Ht') as Hv'. destruct (Z.eqb_spec c c') as [->|Hne].
  - rewrite (proj2 (Z.eqb_neq c' 0)) by lia. destruct (IH t' Ht Ht' Hlen) as [H1 H2]. split; [rewrite H1|rewrite H2]; lia.
  - assert (c < c' ∨ c' < c) as [Hlt|Hlt] by lia; (split; split; intros; try lia; exfalso; nia) || idtac; split; split; intros; nia.
Qed.

(** With other text behind the digits it still is, if the digits differ. *)
Lemma strcmp_app t t' r r' : length t = length t' → t ≠ t' → 0 ∉ t → strcmp (t ++ r) (t' ++ r') = strcmp (t ++ [0]) (t' ++ [0]).
Proof.
  revert t'. induction t as [|c t IH]; intros [|c' t'] Hl Hne H0; try done. simpl. destruct (Z.eqb_spec c c') as [->|]; [|done].
  rewrite (proj2 (Z.eqb_neq c' 0)) by set_solver. apply IH; [simpl in Hl; lia|congruence|set_solver].
Qed.

Lemma all_digits_nonzero t : all_digits 10 t → 0 ∉ t.
Proof.
  induction t as [|c t IH]; [set_solver|]. intros [Hc Ht]%all_digits_cons. specialize (IH Ht). apply not_elem_of_cons. split; [|done].
  intros <-. done.
Qed.

(** The test of nineteen digits. *)
Definition min_digits : list Z := [57; 50; 50; 51; 51; 55; 50; 48; 51; 54; 56; 53; 52; 55; 55; 53; 56; 48; 56].
Lemma nineteen_digits dg (neg : bool) : all_digits 10 dg → length dg = 19%nat → let cmp := strcmp (dg ++ [0]) long_min_digits in
  let v := (if neg then -1 else 1) * digits_value 10 0 dg in (cmp <? 0) || ((cmp =? 0) && neg) = (LONG_MIN <=? v) && (v <=? LONG_MAX).
Proof.
  intros Hall Hl cmp v. destruct (strcmp_digits dg min_digits) as [H1 H2]; [done|by compute|done|].
  change (min_digits ++ [0]) with long_min_digits in H1, H2. fold cmp in H1, H2.
  change (digits_value 10 0 min_digits) with 9223372036854775808 in H1, H2. pose proof (digits_value_range 10 dg ltac:(by left) Hall).
  unfold v, LONG_MIN, LONG_MAX. apply eq_bool_prop_intro.
  rewrite orb_True, !andb_True, !Is_true_true, !Z.ltb_lt, !Z.eqb_eq, !Z.leb_le. destruct neg; lia.
Qed.

(** ** The scan *)

Section go.
Context `{DoubleCmp} (s : list Z) (str : nat).
Abbreviation go_ hd base := (go s hd 0 str base).

Lemma go_digits hd base k f ptr d dbl dp o l : drop ptr s = l → (k ≤ plen (base_digit base) l)%nat → (hd = true → (d + k ≤ 20)%nat) →
  go_ hd base (2 * k + f) loop_test ptr d dbl dp o = go_ hd base f loop_test (ptr + k) (d + k) dbl dp o.
Proof.
  revert ptr d l. induction k as [|k IH]; intros ptr d l Hd Hk Hcap; [by rewrite !Nat.add_0_r|].
  destruct l as [|c l]; [simpl in Hk; lia|]. simpl plen in Hk. destruct (base_digit base c) eqn:Hc; [|lia].
  replace (2 * S k + f)%nat with (S (S (2 * k + f))) by lia. cbn [go].
  assert ((MAX_LENGTH_OF_LONG <=? d)%nat && (hd || (0 =? 1)) = false) as ->.
  { destruct hd; [|by rewrite andb_false_r]. specialize (Hcap eq_refl). unfold MAX_LENGTH_OF_LONG. by rewrite (proj2 (Nat.leb_gt _ _)) by lia. }
  rewrite (ch_at _ _ _ _ Hd). cbn [obind]. rewrite Hc. rewrite (IH (S ptr) (S d) l); [f_equal; lia|by eapply drop_next|lia|intros Hh; specialize (Hcap Hh); lia].
Qed.

(** Where the scan meets a character that is no digit. *)
Lemma go_nondigit hd f ptr d dbl dp o c l : drop ptr s = c :: l → base_digit 10 c = false → (hd = true → (d < 20)%nat) →
  go_ hd 10 (S (S f)) loop_test ptr d dbl dp o = go_ hd 10 (S f) check_digits ptr d dbl dp o ∧
  (c ≠ 46 ∨ ¬ dp < 1 → is_e c = false ∨ ¬ dp < 2 → go_ hd 10 (S f) check_digits ptr d dbl dp o = go_ hd 10 f loop_end ptr d dbl dp o) ∧
  (c = 46 → dp < 1 → go_ hd 10 (S f) check_digits ptr d dbl dp o = go_ hd 10 f process_double ptr d dbl dp o).
Proof.
  intros Hd Hc Hcap. split; [|split].
  - cbn [go]. assert ((MAX_LENGTH_OF_LONG <=? d)%nat && (hd || (0 =? 1)) = false) as ->; [|done].
    destruct hd; [|by rewrite andb_false_r]. specialize (Hcap eq_refl). unfold MAX_LENGTH_OF_LONG. by rewrite (proj2 (Nat.leb_gt _ _)) by lia.
  - intros H1 H2. cbn [go]. rewrite (ch_at _ _ _ _ Hd). cbn [obind]. rewrite Hc, Z.eqb_refl.
    assert ((c =? 46) && (dp <? 1) = false) as ->. { apply andb_false_iff. rewrite Z.eqb_neq, Z.ltb_ge. lia. }
    assert (is_e c && (dp <? 2) = false) as ->; [|done]. apply andb_false_iff. rewrite Z.ltb_ge. destruct H2; [by left|right; lia].
  - intros -> Hdp. cbn [go]. rewrite (ch_at _ _ _ _ Hd). cbn [obind]. rewrite Hc, Z.eqb_refl. by rewrite (proj2 (Z.ltb_lt dp 1)).
Qed.

(** At an [e]: it goes on with the conversion when an exponent follows. *)
Lemma go_e hd f ptr d dbl dp o c l : drop ptr s = c :: l → ends l → is_e c = true → dp < 2 →
  go_ hd 10 (S f) check_digits ptr d dbl dp o =
  go_ hd 10 f (if (0 <? exp_len (c :: l))%nat then process_double else loop_end) (ptr + sign_len l) d dbl dp o.
Proof.
  intros Hd He Hc Hdp. pose proof (drop_next _ _ _ _ Hd) as Hl. destruct (ends_cons _ He) as (c1 & r1 & ->). cbn [go]. rewrite (ch_at _ _ _ _ Hd). cbn [obind].
  assert (base_digit 10 c = false ∧ c ≠ 46) as [Hnd H46].
  { unfold is_e in Hc. apply orb_true_iff in Hc as [->%Z.eqb_eq | ->%Z.eqb_eq]; done. }
  rewrite Hnd, Z.eqb_refl, (proj2 (Z.eqb_neq _ _) H46), Hc, (proj2 (Z.ltb_lt _ _) Hdp), (ch_at _ _ _ _ Hl). cbn [obind andb exp_len]. rewrite Hc. simpl sign_len.
  destruct (is_sign c1) eqn:Hs; cbn [drop].
  - pose proof (drop_next _ _ _ _ Hl) as Hl2. assert (ends r1) as He1 by (eapply ends_tail; [done|]; by intros ->). destruct (ends_cons _ He1) as (d1 & t & ->).
    rewrite (ch_at _ _ _ _ Hl2), Nat.add_1_r. cbn [obind plen drop]. by destruct (ZEND_IS_DIGIT d1).
  - rewrite (ch_at _ _ _ _ Hl), Nat.add_0_r. cbn [obind plen drop]. by destruct (ZEND_IS_DIGIT c1).
Qed.

Context (c0 : Z) (Hc0 : ch s str = OK c0).
Definition osign : Z := if c0 =? 45 then -1 else 1.

(** The end of the scan without a conversion. *)
Lemma go_end f ptr d dbl dp o : ∃ d' o', go_ false 10 (S (S f)) loop_end ptr d dbl dp o = OK (ptr, d', dbl || (20 <=? d)%nat, None, o') ∧
  ((d < 20)%nat → d' = d ∧ o' = o) ∧ ((20 ≤ d)%nat → o' = osign).
Proof.
  cbn [go]. rewrite Z.eqb_refl. unfold MAX_LENGTH_OF_LONG. destruct (Nat.leb_spec 20 d).
  - unfold oflow_sign. rewrite Hc0. cbn [obind]. rewrite orb_true_r. do 2 eexists. split; [reflexivity|]. split; [lia|done].
  - rewrite orb_false_r. do 2 eexists. split; [reflexivity|]. split; [done|lia].
Qed.

(** The digits of an exponent. *)
Lemma go_tail fuel ptr d o l : drop ptr s = l → ends l → (2 * plen ZEND_IS_DIGIT l + 4 ≤ fuel)%nat →
  ∃ d' o', go_ false 10 fuel loop_test ptr d true 2 o = OK ((ptr + plen ZEND_IS_DIGIT l)%nat, d', true, None, o').
Proof.
  intros Hd He Hf. set (k := plen ZEND_IS_DIGIT l) in *. replace fuel with (2 * k + (S (S (S (S (fuel - 2 * k - 4))))))%nat by lia.
  rewrite (go_digits _ _ _ _ _ _ _ _ _ l Hd) by (rewrite ?plen_base_10; unfold k; done || lia).
  assert (ends (drop k l)) as Hek by (apply ends_plen; done). pose proof (drop_add _ _ k _ Hd) as Hdk. destruct (ends_cons _ Hek) as (c & r & Hc).
  pose proof (plen_stop ZEND_IS_DIGIT l) as Hstop. fold k in Hstop. rewrite Hc in *.
  assert (base_digit 10 c = false) as Hb by (unfold base_digit; by rewrite Hstop).
  destruct (go_nondigit false (S (S (fuel - 2 * k - 4))) (ptr + k) (d + k) true 2 o c r Hdk Hb) as (-> & -> & _); try (right; lia); try done.
  destruct (go_end (fuel - 2 * k - 4) (ptr + k) (d + k) true 2 o) as (d' & o' & -> & _). eauto.
Qed.

Lemma go_exponent fuel ptr d dbl dp o c l : drop ptr s = c :: l → ends l → is_e c = true → 0 <= dp < 2 → (0 < exp_len (c :: l))%nat → (2 * length l + 8 ≤ fuel)%nat →
  ∃ d' o', go_ false 10 fuel check_digits ptr d dbl dp o = OK ((ptr + exp_len (c :: l))%nat, d', true, None, o').
Proof.
  intros Hd He Hc Hdp Hx Hf. replace fuel with (S (S (fuel - 2))) by lia. rewrite (go_e _ _ _ _ _ _ _ _ _ Hd He Hc (proj2 Hdp)), (proj2 (Nat.ltb_lt _ _) Hx).
  cbn [go]. pose proof (drop_next _ _ _ _ Hd) as Hl. set (k := sign_len l).
  assert (∃ c', ch s (ptr + k) = OK c' ∧ (c' =? 46) = false) as (c' & -> & Hc').
  { unfold k. destruct (ends_cons _ He) as (c1 & r & Hr). rewrite Hr in *. simpl. destruct (is_sign c1) eqn:Hs.
    - rewrite Nat.add_1_r, (ch_at _ _ _ _ Hl). exists c1. split; [done|]. unfold is_sign in Hs. apply orb_true_iff in Hs as [->%Z.eqb_eq | ->%Z.eqb_eq]; done.
    - rewrite Nat.add_0_r, (ch_at _ _ _ _ Hd). exists c. split; [done|]. unfold is_e in Hc. apply orb_true_iff in Hc as [->%Z.eqb_eq | ->%Z.eqb_eq]; done. }
  assert ((0 =? 1) = false ∧ (dp =? -1) = false) as [-> ->] by (split; [done|]; apply Z.eqb_neq; lia). cbn [obind negb andb]. rewrite Hc'.
  assert (S (ptr + k) = (S ptr + k)%nat) as -> by lia. pose proof (drop_add _ _ k _ Hl) as Hdk.
  assert (ends (drop k l)) as Hek.
  { unfold k. destruct (ends_cons _ He) as (c1 & r & ->). simpl. destruct (is_sign c1) eqn:Hs; [|done]. simpl. eapply ends_tail; [done|]. by intros ->. }
  assert (exp_len (c :: l) = S (k + plen ZEND_IS_DIGIT (drop k l))) as Hxl.
  { simpl in Hx |- *. rewrite Hc in Hx |- *. fold k in Hx |- *. destruct (plen _ _); [lia|done]. }
  rewrite Hxl. destruct (go_tail (S (fuel - 2)) (S ptr + k) d o _ Hdk Hek) as (d' & o' & Hgo).
  { pose proof (plen_le ZEND_IS_DIGIT (drop k l)) as Hle. rewrite length_drop in Hle. lia. }
  exists d', o'. cbn [go] in Hgo. rewrite andb_false_r in Hgo. rewrite Hgo. do 5 f_equal. lia.
Qed.

(** An e and a sign with no digits behind them: the scan stops at the sign. *)
Definition stray_sign (l : list Z) : Prop := (3 ≤ length l)%nat ∧ ∃ e c r, l = e :: c :: r ∧ is_e e = true ∧ is_sign c = true.

(** What the scan of a decimal finds: [n] digits, a fraction and an exponent
    after them; [slack] more when an e with a sign but no digits follows. *)
Record decimal_scan hd (ptr : nat) (l : list Z) (res : nat * nat * bool * option double * Z) : Prop := {
  ds_n := plen ZEND_IS_DIGIT l;
  ds_f := frac_len (drop ds_n l);
  ds_x := exp_len (drop (ds_n + ds_f) l);
  ds_end : ∃ slack, res.1.1.1.1 = (ptr + ds_n + ds_f + ds_x + slack)%nat ∧ (slack = 0%nat ∨ slack = 1%nat ∧ ds_x = 0%nat ∧ stray_sign (drop (ds_n + ds_f + ds_x) l));
  ds_type : res.1.1.2 = negb ((ds_f + ds_x =? 0)%nat && (ds_n <? 20)%nat);
  ds_value : res.1.2 = if res.1.1.2 && hd then Some (strtod_value (drop str s)) else None;
  ds_digits : res.1.1.2 = false → res.1.1.1.2 = ds_n;
  ds_oflow : (ds_f + ds_x = 0)%nat → res.2 = if (ds_n <? 20)%nat then 0 else osign;
}.


Lemma is_e_nondigit c : is_e c = true → base_digit 10 c = false ∧ c ≠ 46 ∧ c ≠ 0.
Proof. unfold is_e. intros [->%Z.eqb_eq | ->%Z.eqb_eq]%orb_true_iff; done. Qed.
Lemma exp_len_other c l : is_e c = false → exp_len (c :: l) = 0%nat.
Proof. intros Hc. simpl. by rewrite Hc. Qed.
(** An e without an exponent: a sign behind it is skipped, too. *)
Lemma e_slack c l : is_e c = true → ends (c :: l) → sign_len l = 0%nat ∨ sign_len l = 1%nat ∧ stray_sign (c :: l).
Proof.
  intros Hc He. destruct (is_e_nondigit _ Hc) as (_ & _ & Hnz). pose proof (ends_tail _ _ He Hnz) as Hl. destruct (ends_cons _ Hl) as (c1 & r & ->). simpl.
  destruct (is_sign c1) eqn:Hs; [|by left]. right. split; [done|]. assert (ends r) as Hr by (eapply ends_tail; [done|]; by intros ->).
  destruct (ends_cons _ Hr) as (? & ? & ->). simpl. split; [simpl; lia|]. eauto 10.
Qed.

(** From a character that is no digit, and no point that would count. *)
Lemma scan_e fuel ptr d dbl dp o c l : drop ptr s = c :: l → ends (c :: l) → base_digit 10 c = false → (c ≠ 46 ∨ dp = 1) → 0 <= dp < 2 → (2 * length l + 10 ≤ fuel)%nat →
  ∃ d' o' slack, go_ false 10 fuel loop_test ptr d dbl dp o =
      OK ((ptr + exp_len (c :: l) + slack)%nat, d', negb (exp_len (c :: l) =? 0)%nat || dbl || (20 <=? d)%nat, None, o') ∧
    (slack = 0%nat ∨ slack = 1%nat ∧ exp_len (c :: l) = 0%nat ∧ stray_sign (c :: l)) ∧
    (exp_len (c :: l) = 0%nat → ((d < 20)%nat → d' = d ∧ o' = o) ∧ ((20 ≤ d)%nat → o' = osign)).
Proof.
  intros Hd He Hb H46 Hdp Hf. replace fuel with (S (S (S (S (fuel - 4))))) by lia.
  destruct (go_nondigit false (S (S (fuel - 4))) ptr d dbl dp o c l Hd Hb) as (-> & Hstop & _); [done|]. destruct (is_e c) eqn:Hc.
  - destruct (is_e_nondigit _ Hc) as (_ & _ & H0'). pose proof (ends_tail _ _ He H0') as Hl. destruct (decide (0 < exp_len (c :: l))%nat) as [Hx|Hx].
    + destruct (go_exponent (S (S (S (fuel - 4)))) ptr d dbl dp o c l Hd Hl Hc Hdp Hx) as (d' & o' & ->); [lia|]. exists d', o', 0%nat. rewrite Nat.add_0_r.
      rewrite (proj2 (Nat.eqb_neq _ _)) by lia. split; [done|]. split; [by left|lia].
    + rewrite (go_e _ _ _ _ _ _ _ _ _ Hd Hl Hc (proj2 Hdp)), (proj2 (Nat.ltb_nlt _ _) Hx). assert (exp_len (c :: l) = 0%nat) as Hx0 by lia. rewrite Hx0, Nat.add_0_r.
      destruct (go_end (fuel - 4) (ptr + sign_len l) d dbl dp o) as (d' & o' & -> & Ho). exists d', o', (sign_len l). split; [done|]. split; [|done].
      destruct (e_slack _ _ Hc He) as [|[]]; [by left|by right].
  - rewrite (exp_len_other _ _ Hc), Nat.add_0_r. rewrite Hstop by (first [by left|destruct H46; [by left|right; lia]]).
    destruct (go_end (fuel - 4) ptr d dbl dp o) as (d' & o' & -> & Ho). exists d', o', 0%nat. rewrite Nat.add_0_r. split; [done|]. split; [by left|done].
Qed.

Lemma scan_frac fuel ptr d o l : drop ptr s = l → ends l → (2 * length l + 10 ≤ fuel)%nat →
  ∃ d' o' slack, let n := plen ZEND_IS_DIGIT l in let x := exp_len (drop n l) in
    go_ false 10 fuel loop_test ptr d true 1 o = OK ((ptr + n + x + slack)%nat, d', true, None, o') ∧
    (slack = 0%nat ∨ slack = 1%nat ∧ x = 0%nat ∧ stray_sign (drop (n + x) l)).
Proof.
  intros Hd He Hf. cbv zeta. set (n := plen ZEND_IS_DIGIT l). pose proof (plen_le ZEND_IS_DIGIT l) as Hle. fold n in Hle.
  replace fuel with (2 * n + (fuel - 2 * n))%nat by lia. rewrite (go_digits _ _ _ _ _ _ _ _ _ l Hd) by (rewrite ?plen_base_10; unfold n; done || lia).
  pose proof (drop_add _ _ n _ Hd) as Hdn. assert (ends (drop n l)) as Hen by (apply ends_plen; done). pose proof (plen_stop ZEND_IS_DIGIT l) as Hstop. fold n in Hstop.
  pose proof (length_drop l n) as Hln. destruct (ends_cons _ Hen) as (c & r & Hc). rewrite Hc in *. simpl in Hln.
  destruct (scan_e (fuel - 2 * n) (ptr + n) (d + n) true 1 o c r Hdn Hen) as (d' & o' & slack & -> & Hs & _); [unfold base_digit; by rewrite Hstop|by right|lia|lia|].
  exists d', o', slack. rewrite orb_true_r. split; [done|]. destruct Hs as [|(? & Hx & ?)]; [by left|right]. split; [done|]. by rewrite Hx, Nat.add_0_r, Hc.
Qed.

Lemma scan_false fuel ptr l : drop ptr s = l → ends l → (2 * length l + 12 ≤ fuel)%nat →
  ∃ res, go_ false 10 fuel loop_test ptr 0 false 0 0 = OK res ∧ decimal_scan false ptr l res.
Proof.
  intros Hd He Hf. set (n := plen ZEND_IS_DIGIT l). pose proof (plen_le ZEND_IS_DIGIT l) as Hle. fold n in Hle.
  replace fuel with (2 * n + (fuel - 2 * n))%nat by lia. rewrite (go_digits _ _ _ _ _ _ _ _ _ l Hd) by (rewrite ?plen_base_10; unfold n; done || lia).
  pose proof (drop_add _ _ n _ Hd) as Hdn. assert (ends (drop n l)) as Hen by (apply ends_plen; done). pose proof (plen_stop ZEND_IS_DIGIT l) as Hstop. fold n in Hstop.
  pose proof (length_drop l n) as Hln. destruct (ends_cons _ Hen) as (c & r & Hc). rewrite Hc in Hdn, Hen, Hstop, Hln. simpl in Hln.
  assert (base_digit 10 c = false) as Hb by (unfold base_digit; by rewrite Hstop). rewrite Nat.add_0_l. destruct (Z.eqb_spec c 46) as [->|H46].
  - replace (fuel - 2 * n)%nat with (S (S (S (fuel - 2 * n - 3)))) by lia.
    destruct (go_nondigit false (S (fuel - 2 * n - 3)) (ptr + n) n false 0 0 46 r Hdn Hb) as (-> & _ & Hpt); [done|]. rewrite Hpt by done. cbn [go].
    rewrite (ch_at _ _ _ _ Hdn). cbn [obind negb andb Z.eqb Pos.eqb]. pose proof (drop_next _ _ _ _ Hdn) as Hd2. assert (ends r) as Her by by eapply ends_tail.
    destruct (scan_frac (S (fuel - 2 * n - 3)) (S (ptr + n)) n 0 r Hd2 Her) as (d' & o' & slack & Hgo & Hs); [lia|].
    cbn [go] in Hgo. rewrite andb_false_r in Hgo. rewrite Hgo. eexists. split; [reflexivity|].
    assert (frac_len (drop n l) = S (plen ZEND_IS_DIGIT r)) as Hfl by (rewrite Hc; done).
    assert (∀ k, drop (n + S k) l = drop k r) as Hdr by (intros k; rewrite <- drop_drop, Hc; done).
    split; cbv zeta; fold n; cbn [fst snd]; rewrite ?Hfl, ?Hdr; try done.
    exists slack. split; [lia|]. destruct Hs as [|[? Hs]]; [by left|right]. split; [done|].
    rewrite <- Nat.add_assoc, Nat.add_succ_l, Hdr. done.
  - destruct (scan_e (fuel - 2 * n) (ptr + n) n false 0 0 c r Hdn Hen Hb) as (d' & o' & slack & -> & Hs & Ho); [by left|lia|lia|]. eexists. split; [reflexivity|].
    assert (frac_len (drop n l) = 0%nat) as Hfl by (rewrite Hc; simpl; by rewrite (proj2 (Z.eqb_neq _ _) H46)).
    split; cbv zeta; fold n; cbn [fst snd]; rewrite ?Hfl, ?Nat.add_0_r, ?Hc; try done.
    + exists slack. split; [done|]. destruct Hs as [|(? & Hx & ?)]; [by left|right]. split; [done|]. rewrite Hx, Nat.add_0_r, Hc. done.
    + rewrite orb_false_r, Nat.add_0_l, negb_andb. f_equal. apply Nat.leb_antisym.
    + by rewrite andb_false_r.
    + intros [[Hx%negb_false_iff%Nat.eqb_eq _]%orb_false_iff Hn%Nat.leb_gt]%orb_false_iff. by apply (Ho Hx).
    + rewrite Nat.add_0_l. intros Hx. destruct (Ho Hx) as [H1 H2]. destruct (Nat.ltb_spec n 20); [by apply H1|by apply H2].
Qed.

(** With [dval], [zend_strtod] ends the scan of a double. *)
Lemma scan_true fuel ptr l : drop ptr s = l → ends l → (2 * length l + 12 ≤ fuel)%nat →
  (let n := plen ZEND_IS_DIGIT l in let f := frac_len (drop n l) in zend_strtod_end s str = OK (ptr + n + f + exp_len (drop (n + f) l))%nat) →
  ∃ res, go_ true 10 fuel loop_test ptr 0 false 0 0 = OK res ∧ decimal_scan true ptr l res.
Proof.
  intros Hd He Hf. cbv zeta. set (n := plen ZEND_IS_DIGIT l). intros Hend. pose proof (plen_le ZEND_IS_DIGIT l) as Hle. fold n in Hle.
  assert (∀ g p d dp o, go_ true 10 (S g) process_double p d false dp o =
    OK ((ptr + n + frac_len (drop n l) + exp_len (drop (n + frac_len (drop n l)) l))%nat, d, true, Some (strtod_value (drop str s)), o)) as Hpd.
  { intros. cbn [go]. unfold zend_strtod. rewrite Hend. done. }
  destruct (decide (20 ≤ n)%nat) as [H20|H20].
  - replace fuel with (2 * 20 + (S (S (S (fuel - 43)))))%nat by lia.
    rewrite (go_digits _ _ 20 _ _ _ _ _ _ l Hd) by (rewrite ?plen_base_10; fold n; done || lia).
    assert (∀ g p, go_ true 10 (S (S g)) loop_test p (0 + 20) false 0 0 = go_ true 10 g process_double p 20 false (-1) osign) as ->.
    { intros. cbn [go]. unfold oflow_sign. by rewrite Hc0. }
    rewrite Hpd. eexists. split; [reflexivity|].
    split; cbv zeta; fold n; cbn [fst snd]; rewrite ?(proj2 (Nat.ltb_ge n 20) H20), ?andb_false_r; try done.
    exists 0%nat. split; [lia|by left].
  - replace fuel with (2 * n + (S (S (S (S (fuel - 2 * n - 4))))))%nat by lia.
    rewrite (go_digits _ _ _ _ _ _ _ _ _ l Hd) by (rewrite ?plen_base_10; unfold n; done || lia).
    pose proof (drop_add _ _ n _ Hd) as Hdn. assert (ends (drop n l)) as Hen by (apply ends_plen; done). pose proof (plen_stop ZEND_IS_DIGIT l) as Hstop. fold n in Hstop.
    destruct (ends_cons _ Hen) as (c & r & Hc). rewrite Hc in Hdn, Hen, Hstop. rewrite Nat.add_0_l.
    assert (base_digit 10 c = false) as Hb by (unfold base_digit; by rewrite Hstop). assert ((n <? 20)%nat = true) as Hlt by (apply Nat.ltb_lt; lia).
    destruct (go_nondigit true (S (S (fuel - 2 * n - 4))) (ptr + n) n false 0 0 c r Hdn Hb) as (-> & Hnd & Hpt); [lia|].
    assert (∀ g, (frac_len (drop n l) + exp_len (drop (n + frac_len (drop n l)) l) ≠ 0)%nat → ∀ p, ∃ res, go_ true 10 (S g) process_double p n false 0 0 = OK res ∧ decimal_scan true ptr l res) as Hdbl.
    { intros g Hne p. rewrite Hpd. eexists. split; [reflexivity|]. apply Nat.eqb_neq in Hne as Hne'.
      split; cbv zeta; fold n; cbn [fst snd]; rewrite ?Hne', ?Hlt; try done. exists 0%nat. split; [lia|by left]. }
    assert (∀ g p slack, p = (ptr + n + slack)%nat → frac_len (drop n l) = 0%nat → exp_len (c :: r) = 0%nat → (slack = 0%nat ∨ slack = 1%nat ∧ stray_sign (c :: r)) →
      ∃ res, go_ true 10 (S g) loop_end p n false 0 0 = OK res ∧ decimal_scan true ptr l res) as Hint.
    { intros g p slack -> Hfl Hxl Hs. cbn [go]. rewrite Z.eqb_refl. unfold MAX_LENGTH_OF_LONG. rewrite (proj2 (Nat.leb_gt 20 n)) by lia. eexists. split; [reflexivity|].
      split; cbv zeta; fold n; cbn [fst snd]; rewrite ?Hfl, ?Nat.add_0_r, ?Hc, ?Hxl, ?Nat.add_0_r, ?Hlt; try done. exists slack. rewrite Hc. split; [done|]. destruct Hs as [|[]]; [by left|by right]. }
    destruct (Z.eqb_spec c 46) as [->|H46].
    + rewrite Hpt by done. apply Hdbl. rewrite Hc. simpl. lia.
    + assert (frac_len (drop n l) = 0%nat) as Hfl by (rewrite Hc; simpl; by rewrite (proj2 (Z.eqb_neq _ _) H46)). destruct (is_e c) eqn:He'.
      * destruct (is_e_nondigit _ He') as (_ & _ & Hnz). pose proof (ends_tail _ _ Hen Hnz) as Her. rewrite (go_e _ _ _ _ _ _ _ _ _ Hdn Her He') by lia.
        destruct (Nat.ltb_spec 0 (exp_len (c :: r))).
        -- apply Hdbl. rewrite Hfl, Nat.add_0_r, Hc. lia.
        -- apply (Hint _ _ (sign_len r)); [done..|lia|]. by apply e_slack.
      * rewrite Hnd by (by left). apply (Hint _ _ 0%nat); [lia|done|by apply exp_len_other|by left].
Qed.
End go.

(** ** The classification of a string *)

Definition hex_form (t : list Z) : bool := match t with z :: x :: _ :: _ => (z =? 48) && is_x x | _ => false end.
Definition number_sign (t : list Z) : Z := match t with c :: _ => if c =? 45 then -1 else 1 | [] => 1 end.
Definition fits_long (v : Z) : bool := (LONG_MIN <=? v) && (v <=? LONG_MAX).
Definition has_digitb (u : list Z) : bool :=
  match u with
  | c :: r => ZEND_IS_DIGIT c || ((c =? 46) && match r with d :: _ => ZEND_IS_DIGIT d | [] => false end)
  | [] => false
  end.
(** The string without white space, and without its sign. *)
Definition number_text (b : list Z) : list Z := drop_while is_white b.
Definition unsigned_text (t : list Z) : list Z := drop (sign_len t) t.
(** Digits with an optional sign, and their value. *)
Definition integer_form (t : list Z) : bool := let u := unsigned_text t in negb (hex_form t) && has_digitb u && (plen ZEND_IS_DIGIT u =? length u)%nat.
Definition integer_value (t : list Z) : Z := number_sign t * digits_value 10 0 (unsigned_text t).
(** A decimal number with nothing behind it. *)
Definition decimal_form (t : list Z) : bool := let u := unsigned_text t in negb (hex_form t) && has_digitb u && (float_len u =? length u)%nat.

Section classify.
Context `{DoubleCmp}.

Definition hex_double (h : list Z) : double := foldl (λ v c, d_add (d_mul v (d_of_long 16)) (d_of_long (digit_value c))) (d_of_long 0) h.

(** The number a string stands for; the value of a double is stored when the
    caller asks for it. *)
Definition classify (b : list Z) (has_dval : bool) : numeric :=
  let t := number_text b in
  let double_ v := NumDouble (if has_dval then Some v else None) in
  if hex_form t then
    let h := drop 2 t in
    if (plen (base_digit 16) h =? length h)%nat then
      let v := digits_value 16 0 h in if v <=? LONG_MAX then NumLong v else double_ (hex_double h)
    else NotNumeric
  else if decimal_form t then
    if integer_form t && fits_long (integer_value t) then NumLong (integer_value t) else double_ (strtod_value (t ++ [0]))
  else NotNumeric.
End classify.

(** The terminating NUL ends every scan. *)
Lemma plen_nul p l : p 0 = false → plen p (l ++ [0]) = plen p l.
Proof. apply plen_app. Qed.
Lemma exp_len_nul l : exp_len (l ++ [0]) = exp_len l.
Proof.
  destruct l as [|e [|c r]]; try done; cbn [exp_len app sign_len]; destruct (is_e e); try done. rewrite app_comm_cons.
  destruct (is_sign c); cbn [drop app]; rewrite ?drop_0, ?app_comm_cons, plen_nul; done.
Qed.
Lemma frac_len_nul l : frac_len (l ++ [0]) = frac_len l.
Proof. destruct l as [|c l]; simpl; [done|]. by rewrite plen_nul. Qed.
Lemma frac_len_le l : (frac_len l ≤ length l)%nat.
Proof. destruct l as [|c l]; simpl; [lia|]. destruct (c =? 46); [|lia]. pose proof (plen_le ZEND_IS_DIGIT l). lia. Qed.
Lemma exp_len_le l : (exp_len l ≤ length l)%nat.
Proof.
  destruct l as [|e l]; simpl; [lia|]. destruct (is_e e); [|lia]. pose proof (plen_le ZEND_IS_DIGIT (drop (sign_len l) l)) as Hle. rewrite length_drop in Hle.
  assert (sign_len l ≤ length l)%nat by (destruct l as [|c l]; simpl; [lia|destruct (is_sign c); lia]). destruct (plen _ _); lia.
Qed.
Lemma drop_nul k (l : list Z) : (k ≤ length l)%nat → drop k (l ++ [0]) = drop k l ++ [0].
Proof. apply drop_app_le. Qed.
Lemma float_len_parts u : let n := plen ZEND_IS_DIGIT u in let f := frac_len (drop n u) in (n + f ≤ length u)%nat ∧ (float_len u ≤ length u)%nat.
Proof.
  cbv zeta. pose proof (plen_le ZEND_IS_DIGIT u). pose proof (frac_len_le (drop (plen ZEND_IS_DIGIT u) u)) as Hf. rewrite length_drop in Hf. split; [lia|].
  unfold float_len. pose proof (exp_len_le (drop (plen ZEND_IS_DIGIT u + frac_len (drop (plen ZEND_IS_DIGIT u) u)) u)) as Hx. rewrite length_drop in Hx. lia.
Qed.
Lemma float_len_nul u : float_len (u ++ [0]) = float_len u.
Proof.
  destruct (float_len_parts u) as [Hf _]. pose proof (plen_le ZEND_IS_DIGIT u). unfold float_len. rewrite plen_nul by done.
  rewrite !drop_nul, frac_len_nul, drop_nul, exp_len_nul by lia. done.
Qed.
(** Leading zeros are digits. *)
Lemma float_len_zeros u : let z := plen (λ c, c =? 48) u in float_len u = (z + float_len (drop z u))%nat.
Proof.
  cbv zeta. set (z := plen _ u). unfold float_len. rewrite (plen_add (λ c, c =? 48) ZEND_IS_DIGIT u) by (by intros c ->%Z.eqb_eq). fold z.
  set (n := plen ZEND_IS_DIGIT (drop z u)). rewrite !drop_drop, <- !Nat.add_assoc. done.
Qed.

Section result.
Context `{DoubleCmp} (b : list Z) (has_dval : bool).
Let s := b ++ [0].
Let str := plen is_white b.
Let t := number_text b.
Let u := unsigned_text t.
Let ptr := (str + sign_len t)%nat.

Lemma hd_tl (l : list Z) c : hd 0 l = c → c ≠ 0 → l = c :: tl l.
Proof. intros <-. by destruct l. Qed.
Lemma sign_len_le (l : list Z) : (sign_len l ≤ length l)%nat.
Proof. destruct l as [|c l]; simpl; [lia|]. destruct (is_sign c); lia. Qed.
Lemma text_at : drop str s = t ++ [0].
Proof. unfold s, str, t, number_text. rewrite drop_while_plen, drop_nul by apply plen_le. done. Qed.
Lemma unsigned_at : drop ptr s = u ++ [0].
Proof. unfold ptr. rewrite (drop_add _ _ _ _ text_at), drop_nul by apply sign_len_le. done. Qed.
Lemma text_length : length b = (str + length t)%nat ∧ length b = (ptr + length u)%nat.
Proof.
  pose proof (f_equal length text_at) as H1. pose proof (f_equal length unsigned_at) as H2. unfold s in H1, H2. rewrite length_drop, !length_app in H1, H2. simpl in H1, H2.
  pose proof (plen_le is_white b) as Hw. fold str in Hw. pose proof (sign_len_le t). unfold ptr in *. lia.
Qed.
Lemma ends_nul l : ends (l ++ [0]).
Proof. by exists l, []. Qed.
Lemma ch_hd i l : drop i s = l ++ [0] → ch s i = OK (hd 0 l).
Proof. intros Hd. destruct l as [|c l]; by eapply ch_at. Qed.
Lemma text_nowhite : plen is_white (t ++ [0]) = 0%nat.
Proof.
  rewrite plen_nul by done. unfold t, number_text. rewrite drop_while_plen. pose proof (plen_stop is_white b) as Hs. destruct (drop _ b) as [|c r]; [done|]. simpl. by rewrite Hs.
Qed.

(** [strtol] on the whole number. *)
Lemma strtol_decimal : hex_form t = false → strtol (t ++ [0]) 10 = Z.max LONG_MIN (Z.min LONG_MAX (integer_value t)).
Proof.
  intros _. unfold strtol. rewrite drop_while_plen, text_nowhite, drop_0. unfold integer_value, number_sign. do 2 f_equal.
  assert (match match t ++ [0] with c :: s' => if is_sign c then s' else t ++ [0] | [] => [] end with
          | z :: x :: h :: s' => if (10 =? 16) && (z =? 48) && is_x x && base_digit 16 h then h :: s' else match t ++ [0] with c :: s' => if is_sign c then s' else t ++ [0] | [] => [] end
          | _ => match t ++ [0] with c :: s' => if is_sign c then s' else t ++ [0] | [] => [] end end = u ++ [0]) as ->.
  { unfold u, unsigned_text. destruct t as [|c r]; [done|]. cbn [app sign_len]. destruct (is_sign c); cbn [drop]; [|by destruct r as [|x [|h r]]].
    by destruct r as [|x [|h [|q r]]]. }
  assert (digits_value 10 0 (u ++ [0]) = digits_value 10 0 (unsigned_text t)) as ->.
  { rewrite digits_value_take, (digits_value_take _ _ (unsigned_text t)), plen_nul by done. fold u. by rewrite take_app_le by apply plen_le. }
  fold u. destruct t as [|c r]; simpl; [by destruct (digits_value 10 0 u)|]. destruct (c =? 45); lia.
Qed.

Lemma has_digit_nul : has_digitb u = true → has_digit (u ++ [0]).
Proof.
  clear. subst u. intros Hd. destruct (unsigned_text t) as [|c r]; [done|]. simpl in Hd. apply orb_true_iff in Hd as [Hd|[->%Z.eqb_eq Hr]%andb_true_iff].
  - left. simpl. rewrite Hd. lia.
  - right. exists (r ++ [0]). split; [done|]. destruct r as [|d r]; [done|]. simpl. rewrite Hr. lia.
Qed.
Lemma sign_len_nul : sign_len (t ++ [0]) = sign_len t.
Proof. by destruct t. Qed.
Lemma strtod_text : has_digitb u = true → zend_strtod_end s str = OK (ptr + float_len u)%nat.
Proof.
  intros Hd. rewrite (strtod_end_spec s _ _ text_at (ends_nul t) text_nowhite); rewrite sign_len_nul, drop_nul by apply sign_len_le.
  - by rewrite float_len_nul.
  - by apply has_digit_nul.
Qed.

(** The digits behind the leading zeros. *)
Let z := plen (λ c, c =? 48) u.
Let ds := drop z u.
Let n := plen ZEND_IS_DIGIT ds.

Lemma u_digits : plen ZEND_IS_DIGIT u = (z + n)%nat.
Proof. apply plen_add. by intros c ->%Z.eqb_eq. Qed.
Lemma ds_at : drop (ptr + z) s = ds ++ [0].
Proof. rewrite (drop_add _ _ _ _ unsigned_at), drop_nul by apply plen_le. done. Qed.

Lemma integer_bounds : plen ZEND_IS_DIGIT u = length u → let v := digits_value 10 0 u in
  n = length ds ∧ all_digits 10 ds ∧ v = digits_value 10 0 ds ∧ 0 <= v < 10 ^ Z.of_nat n ∧ ((20 <= n)%nat → 10 ^ 19 <= v).
Proof.
  intros Hu v. pose proof u_digits. pose proof (plen_le (λ c, c =? 48) u). assert (n = length ds) as Hn by (unfold ds; rewrite length_drop; unfold z in *; lia).
  assert (all_digits 10 ds) as Hall by (unfold all_digits; by rewrite plen_base_10). assert (v = digits_value 10 0 ds) as Hv by apply digits_value_zeros.
  split; [done|]. split; [done|]. split; [done|]. rewrite Hv, Hn. split; [apply digits_value_range; [by left|done]|]. intros H20.
  pose proof (plen_stop (λ c, c =? 48) u) as Hstop. fold z ds in Hstop. destruct ds as [|c r]; [simpl in H20; lia|].
  etransitivity; [|apply digits_value_lower; [by left|done|by apply Z.eqb_neq]]. apply Z.pow_le_mono_r; simpl in H20; lia.
Qed.

Lemma number_sign_hd : number_sign t = if hd 0 t =? 45 then -1 else 1.
Proof. by destruct t. Qed.

(** A digit string of nineteen characters is out of the range of a long when
    [strcmp] says so. *)
Lemma integer_range : plen ZEND_IS_DIGIT u = length u → (n < 20)%nat → let cmp := strcmp (ds ++ [0]) long_min_digits in
  (n =? 19)%nat && negb ((cmp <? 0) || ((cmp =? 0) && (hd 0 t =? 45))) = negb (fits_long (integer_value t)).
Proof.
  intros Hu Hn cmp. destruct (integer_bounds Hu) as (Hl & Hall & Hv & Hr & _). unfold fits_long, integer_value. rewrite number_sign_hd. fold u.
  set (v := digits_value 10 0 u) in *. destruct (Nat.eqb_spec n 19) as [E|E]; cbn [andb].
  - f_equal. rewrite Hv. unfold cmp. rewrite nineteen_digits by (done || congruence). done.
  - symmetry. apply negb_false_iff, andb_true_iff. rewrite !Z.leb_le. assert (10 ^ Z.of_nat n <= 10 ^ 18) by (apply Z.pow_le_mono_r; lia).
    unfold LONG_MIN, LONG_MAX. destruct (hd 0 t =? 45); lia.
Qed.

(** Where the scan of a decimal ends. *)
Lemma scan_full r : decimal_scan s str (hd 0 t) has_dval (ptr + z) (ds ++ [0]) r →
  (r.1.1.1.1 = length b ↔ float_len u = length u) ∧
  (float_len u = length u → (frac_len (drop n ds) + exp_len (drop (n + frac_len (drop n ds)) ds) = 0)%nat ↔ plen ZEND_IS_DIGIT u = length u).
Proof.
  intros Hr. destruct (ds_end _ _ _ _ _ _ _ Hr) as (slack & Hp & Hs). unfold ds_x, ds_f, ds_n in Hp, Hs. rewrite plen_nul in Hp, Hs by done. fold n in Hp, Hs.
  assert (n ≤ length ds)%nat as Hn by apply plen_le. rewrite (drop_nul n), frac_len_nul in Hp, Hs by done. set (f := frac_len (drop n ds)) in *.
  assert (n + f ≤ length ds)%nat as Hf by (pose proof (frac_len_le (drop n ds)) as Hf; rewrite length_drop in Hf; unfold f in *; lia).
  rewrite (drop_nul (n + f)), exp_len_nul in Hp, Hs by done. set (x := exp_len (drop (n + f) ds)) in *.
  assert (float_len u = (z + (n + f + x))%nat) as Hfl by apply float_len_zeros. assert (z ≤ length u)%nat as Hz by apply plen_le.
  assert (length ds = (length u - z)%nat) as Hds by apply length_drop. destruct text_length as [_ Hlen]. rewrite Hlen, Hp.
  pose proof u_digits. pose proof (proj2 (float_len_parts u)). split; [|lia]. destruct Hs as [->|(-> & _ & Hs & _)]; [lia|].
  rewrite length_drop, length_app in Hs. simpl in Hs. lia.
Qed.

Lemma decimal_result r : hex_form t = false → has_digitb u = true → decimal_scan s str (hd 0 t) has_dval (ptr + z) (ds ++ [0]) r →
  ∃ o, numeric_result s (length b) str 10 has_dval 0 r = OK (classify b has_dval, o, false) ∧
    (integer_form t = true → o = if fits_long (integer_value t) then 0 else number_sign t).
Proof.
  intros Hx Hd Hr. destruct (scan_full _ Hr) as [Hfull Hint]. unfold classify, decimal_form, integer_form. fold t. rewrite Hx. fold u. rewrite Hd. cbn [negb andb].
  destruct r as [[[[p d] dbl] dv] o]. destruct (float_len_parts u) as [_ Hfl]. unfold numeric_result. cbn [fst snd] in Hfull. destruct (Nat.eqb_spec (float_len u) (length u)) as [E|E].
  2:{ rewrite (proj2 (Nat.eqb_neq p (length b))) by tauto. cbn [negb andb Z.eqb]. exists o. split; [done|]. intros Hu%Nat.eqb_eq. exfalso. apply E.
      unfold float_len in Hfl |- *. lia. }
  specialize (Hint E). pose proof (proj2 Hfull E) as Hp. rewrite (proj2 (Nat.eqb_eq p (length b))) by done. cbn [negb andb].
  pose proof (ds_type _ _ _ _ _ _ _ Hr) as Ht. pose proof (ds_value _ _ _ _ _ _ _ Hr) as Hv. pose proof (ds_digits _ _ _ _ _ _ _ Hr) as Hdig. pose proof (ds_oflow _ _ _ _ _ _ _ Hr) as Ho.
  cbn [fst snd] in Ht, Hv, Hdig, Ho. unfold ds_x, ds_f, ds_n in Ht, Hdig, Ho. rewrite plen_nul in Ht, Hdig, Ho by done. fold n in Ht, Hdig, Ho. assert (n ≤ length ds)%nat as Hn by apply plen_le.
  rewrite (drop_nul n), frac_len_nul in Ht, Ho by done. set (f := frac_len (drop n ds)) in *.
  assert (n + f ≤ length ds)%nat as Hf by (pose proof (frac_len_le (drop n ds)) as Hf; rewrite length_drop in Hf; unfold f in *; lia).
  rewrite (drop_nul (n + f)), exp_len_nul in Ht, Ho by done. rewrite text_at in Hv.
  destruct (Nat.eqb_spec (plen ZEND_IS_DIGIT u) (length u)) as [Eu|Eu].
  2:{ rewrite (proj2 (Nat.eqb_neq _ _)) in Ht by tauto. cbn [negb andb] in Ht |- *. subst dbl. rewrite Hv. exists o. split; [|done]. by destruct has_dval. }
  pose proof (proj2 Hint Eu) as Hfx. rewrite Hfx in Ht. specialize (Ho Hfx). cbn [Nat.eqb andb] in Ht |- *. destruct (integer_bounds Eu) as (Hl & Hall & Hval & Hr1 & Hr2).
  destruct (Nat.ltb_spec n 20) as [H20|H20]; cbn [negb] in Ht; subst dbl.
  - rewrite (Hdig eq_refl), (ch_hd _ _ text_at). cbn [obind].
    assert (p - n = ptr + z)%nat as -> by (destruct text_length as [_ Hlen]; pose proof u_digits; lia). rewrite ds_at. change (MAX_LENGTH_OF_LONG - 1)%nat with 19%nat.
    rewrite (integer_range Eu H20). unfold oflow_sign. rewrite (ch_hd _ _ text_at). cbn [obind]. rewrite number_sign_hd. destruct (fits_long (integer_value t)) eqn:Hin; cbn [negb].
    + exists o. split; [|done]. rewrite text_at, strtol_decimal by done. unfold fits_long in Hin. apply andb_true_iff in Hin as [?%Z.leb_le ?%Z.leb_le]. by rewrite Z.min_r, Z.max_r by lia.
    + eexists. unfold zend_strtod. rewrite (strtod_text Hd), text_at. cbn [obind]. split; [|done]. by destruct has_dval.
  - assert (fits_long (integer_value t) = false) as ->.
    { apply not_true_iff_false. unfold fits_long, integer_value. fold u. rewrite number_sign_hd, andb_true_iff, !Z.leb_le. specialize (Hr2 H20). unfold LONG_MIN, LONG_MAX. destruct (hd 0 t =? 45); lia. }
    rewrite Hv. exists o. rewrite number_sign_hd. split; [by destruct has_dval|done].
Qed.

Lemma scan_decimal fuel : has_digitb u = true → (2 * length ds + 14 ≤ fuel)%nat →
  ∃ r, go s has_dval 0 str 10 fuel loop_test (ptr + z) 0 false 0 0 = OK r ∧ decimal_scan s str (hd 0 t) has_dval (ptr + z) (ds ++ [0]) r.
Proof.
  intros Hd Hf. destruct has_dval.
  - apply scan_true; [apply ch_hd, text_at|apply ds_at|apply ends_nul|rewrite length_app; simpl; lia|]. cbv zeta. rewrite (strtod_text Hd), float_len_zeros. fold z ds.
    rewrite <- float_len_nul. unfold float_len. f_equal. lia.
  - apply scan_false; [apply ch_hd, text_at|apply ds_at|apply ends_nul|rewrite length_app; simpl; lia].
Qed.

(** ** Hexadecimal numbers *)

Lemma hex_loop_spec fuel i any v l : drop i s = l ++ [0] → (length l < fuel)%nat → let k := plen (base_digit 16) l in
  hex_loop s fuel i any v = OK (foldl (λ v c, d_add (d_mul v (d_of_long 16)) (d_of_long (digit_value c))) v (take k l), (i + k)%nat, any || (0 <? k)%nat).
Proof.
  revert i any v l. induction fuel as [|fuel IH]; intros i any v l Hi Hf k; [lia|]. cbn [hex_loop]. rewrite (ch_hd _ _ Hi). cbn [obind].
  destruct l as [|c l]; [unfold k; simpl; by rewrite orb_false_r, Nat.add_0_r|]. subst k. simpl. destruct (base_digit 16 c); simpl.
  - rewrite (IH (S i) true _ l); [|by eapply drop_next|simpl in Hf; lia]. rewrite orb_true_r. do 2 f_equal. f_equal. lia.
  - by rewrite orb_false_r, Nat.add_0_r.
Qed.

(** A hexadecimal number of [n] digits behind the zeros fits when it has fewer
    than sixteen, or sixteen and the first is at most 7. *)
Lemma hex_small l : all_digits 16 l → match l with c :: _ => c ≠ 48 | [] => True end →
  (if (length l <? 16)%nat then true else if (length l =? 16)%nat then hd 0 l <=? 55 else false) = (digits_value 16 0 l <=? LONG_MAX).
Proof.
  intros Hl Hz. symmetry. pose proof (digits_value_range 16 l ltac:(by right) Hl) as Hr. destruct (Nat.ltb_spec (length l) 16).
  - apply Z.leb_le. assert (16 ^ Z.of_nat (length l) <= 16 ^ 15) by (apply Z.pow_le_mono_r; lia). unfold LONG_MAX. lia.
  - destruct l as [|c l]; [simpl in *; lia|]. destruct (Nat.eqb_spec (length (c :: l)) 16) as [E|E].
    + rewrite digits_value_cons by done. apply all_digits_cons in Hl as [Hc Hl]. pose proof (digits_value_range 16 l ltac:(by right) Hl) as Hr'.
      injection E as E. rewrite E in *. change (16 ^ Z.of_nat 15) with (2 ^ 60) in *. change LONG_MAX with (8 * 2 ^ 60 - 1). simpl hd.
      apply eq_bool_prop_intro. rewrite !Is_true_true, !Z.leb_le. apply base_digit_cases in Hc as [[? ->]|(_ & [[? ->]|[? ->]])]; lia.
    + apply Z.leb_gt. pose proof (digits_value_lower 16 c l ltac:(by right) Hl Hz). assert (16 ^ 16 <= 16 ^ Z.of_nat (length l)) by (apply Z.pow_le_mono_r; simpl in *; lia).
      unfold LONG_MAX. lia.
Qed.

Lemma go_test16 f p d : go s has_dval 0 str 16 (S f) loop_test p d false 0 0 =
  if (MAX_LENGTH_OF_LONG <=? d)%nat && has_dval then go s has_dval 0 str 16 f loop_end p d false 0 0 else go s has_dval 0 str 16 f check_digits p d false 0 0.
Proof. cbn [go]. by rewrite orb_false_r. Qed.
Lemma go_stop16 f p d c : ch s p = OK c → base_digit 16 c = false →
  go s has_dval 0 str 16 (S f) check_digits p d false 0 0 = go s has_dval 0 str 16 f loop_end p d false 0 0.
Proof. intros Hc Hb. cbn [go]. rewrite Hc. cbn [obind]. by rewrite Hb. Qed.
(** The two ends of the scan in base 16. *)
Lemma go_hex_end f p l d : drop (p - d) s = l → (d ≤ p)%nat → ends l →
  go s has_dval 0 str 16 (S f) loop_end p d false 0 0 =
  (if (if (d <? 16)%nat then true else if (d =? 16)%nat then hd 0 l <=? 55 else false) then OK (p, d, false, None, 0)
   else if has_dval then let* (dv, e) := zend_hex_strtod s str in OK (e, d, true, Some dv, 1) else OK (p, d, true, None, 1)).
Proof.
  intros Hl Hd He. cbn [go]. destruct (d <? 16)%nat; [done|]. destruct (d =? 16)%nat; [|done]. destruct (ends_cons _ He) as (c & r & Hc). rewrite Hc in Hl.
  rewrite (ch_at _ _ _ _ Hl), Hc. done.
Qed.

Section hex.
Context (x : Z) (h : list Z) (Ht : t = 48 :: x :: h) (Hx : is_x x = true) (Hh : h ≠ []).
Let zh := plen (λ c, c =? 48) h.
Let l := drop zh h.
Let m := plen (base_digit 16) l.
Let q := (S (S str) + zh)%nat.

Lemma hex_at : drop (S (S str)) s = h ++ [0] ∧ drop q s = l ++ [0] ∧ length b = (S (S str) + length h)%nat ∧ plen (base_digit 16) h = (zh + m)%nat ∧ (zh + length l = length h)%nat.
Proof.
  pose proof text_at as Hs. rewrite Ht in Hs. assert (drop (S (S str)) s = h ++ [0]) as Hd by (eapply drop_next, drop_next, Hs).
  assert (zh ≤ length h)%nat by apply plen_le. split; [done|]. split; [unfold q; rewrite (drop_add _ _ _ _ Hd), drop_nul by apply plen_le; done|].
  destruct text_length as [Hlen _]. rewrite Ht in Hlen. simpl in Hlen. split; [lia|]. split; [|unfold l; rewrite length_drop; lia].
  apply plen_add. by intros c ->%Z.eqb_eq.
Qed.

Lemma hex_strtol : strtol (t ++ [0]) 16 = Z.min LONG_MAX (digits_value 16 0 h).
Proof.
  assert (digits_value 16 0 (h ++ [0]) = digits_value 16 0 h ∧ 0 ≤ digits_value 16 0 h) as [Hv Hv0].
  { rewrite digits_value_take, (digits_value_take 16 0 h), plen_nul, take_app_le by (done || apply plen_le). split; [done|].
    apply (digits_value_range 16); [by right|apply all_digits_plen]. }
  assert (Z.max LONG_MIN (Z.min LONG_MAX (digits_value 16 0 h)) = Z.min LONG_MAX (digits_value 16 0 h)) as Hc by (unfold LONG_MIN, LONG_MAX; lia).
  unfold strtol. rewrite drop_while_plen, text_nowhite, drop_0, Ht. simpl. rewrite Hx. destruct h as [|c h']; [done|]. cbn [app andb] in *.
  destruct (base_digit 16 c) eqn:Hd; [by rewrite Hv|]. cbn [andb]. rewrite <- Hc. do 2 f_equal. cbn [digits_value]. rewrite Hd.
  assert (base_digit 16 x = false) as ->; [|done]. unfold is_x in Hx. by apply orb_true_iff in Hx as [->%Z.eqb_eq | ->%Z.eqb_eq].
Qed.

Lemma hex_strtod : (0 < m)%nat → zend_hex_strtod s str = OK (hex_double (take (zh + m) h), (S (S str) + (zh + m))%nat).
Proof.
  intros Hm. destruct hex_at as (Hd & _ & Hlen & Hpl & _). unfold zend_hex_strtod. rewrite (hex_loop_spec _ _ _ _ _ Hd); [|unfold s; rewrite length_app; lia]. rewrite Hpl.
  cbn [obind orb]. by rewrite (proj2 (Nat.ltb_lt 0 (zh + m))) by lia.
Qed.

Lemma hex_go fuel : (2 * length s + 16 ≤ fuel)%nat → let small := if (m <? 16)%nat then true else if (m =? 16)%nat then hd 0 l <=? 55 else false in
  ∃ k, go s has_dval 0 str 16 fuel loop_test q 0 false 0 0 =
    OK (if small then ((q + m)%nat, m, false, None, 0) else ((q + m)%nat, k, true, if has_dval then Some (hex_double (take (zh + m) h)) else None, 1)).
Proof.
  intros Hf small. destruct hex_at as (_ & Hq & Hlen & _ & Hzl). assert (m ≤ length l)%nat as Hml by apply plen_le.
  assert (length s = S (length b)) as Hs by (unfold s; rewrite length_app; simpl; lia).
  assert (plen (base_digit 16) (l ++ [0]) = m) as Hpm by (by rewrite plen_nul). destruct (decide (has_dval = true ∧ (20 ≤ m)%nat)) as [[Hd Hm]|Hn].
  - exists 20%nat. replace fuel with (2 * 20 + S (S (fuel - 42)))%nat by lia. rewrite (go_digits _ _ _ _ 20 _ _ _ _ _ _ _ Hq) by lia. rewrite go_test16.
    assert ((MAX_LENGTH_OF_LONG <=? 0 + 20)%nat && has_dval = true) as -> by by rewrite Hd.
    assert (drop (q + 20 - (0 + 20)) s = l ++ [0]) as Hq20 by (replace (q + 20 - (0 + 20))%nat with q by lia; done).
    rewrite (go_hex_end _ _ _ _ Hq20) by (lia || apply ends_nul). cbn [Nat.ltb Nat.leb Nat.eqb].
    subst small. rewrite (proj2 (Nat.ltb_ge m 16)), (proj2 (Nat.eqb_neq m 16)) by lia. rewrite Hd, hex_strtod by lia. cbn [obind].
    by replace (S (S str) + (zh + m))%nat with (q + m)%nat by (unfold q; lia).
  - exists m. replace fuel with (2 * m + S (S (S (fuel - 2 * m - 3))))%nat by lia.
    assert (has_dval = true → (m < 20)%nat) as Hcap by (intros Hd; destruct (decide (20 ≤ m)%nat); [tauto|lia]).
    rewrite (go_digits _ _ _ _ m _ _ _ _ _ _ _ Hq) by (rewrite ?Hpm; try lia; intros Hd; specialize (Hcap Hd); lia).
    pose proof (drop_add _ _ m _ Hq) as Hqm. rewrite drop_nul in Hqm by done. pose proof (plen_stop (base_digit 16) l) as Hstop. fold m in Hstop.
    assert (base_digit 16 (hd 0 (drop m l)) = false) as Hb by (destruct (drop m l); done). rewrite go_test16, Nat.add_0_l.
    assert ((MAX_LENGTH_OF_LONG <=? m)%nat && has_dval = false) as ->.
    { destruct has_dval; [|by rewrite andb_false_r]. specialize (Hcap eq_refl). unfold MAX_LENGTH_OF_LONG. by rewrite (proj2 (Nat.leb_gt _ _)) by lia. }
    rewrite (go_stop16 _ _ _ _ (ch_hd _ _ Hqm) Hb), (go_hex_end _ _ (l ++ [0])); [|by replace (q + m - m)%nat with q by lia|lia|apply ends_nul].
    assert (hd 0 (l ++ [0]) = hd 0 l) as -> by by destruct l.
    fold small. destruct small eqn:Hsm; [done|]. destruct has_dval; [|done]. rewrite hex_strtod; [|subst small; destruct m; [done|lia]]. cbn [obind].
    by replace (S (S str) + (zh + m))%nat with (q + m)%nat by (unfold q; lia).
Qed.

Lemma hex_result k : let small := if (m <? 16)%nat then true else if (m =? 16)%nat then hd 0 l <=? 55 else false in
  ∃ o, numeric_result s (length b) str 16 has_dval 0
    (if small then ((q + m)%nat, m, false, None, 0) else ((q + m)%nat, k, true, if has_dval then Some (hex_double (take (zh + m) h)) else None, 1)) = OK (classify b has_dval, o, false).
Proof.
  intros small. destruct hex_at as (_ & Hq & Hlen & Hpl & Hzl). unfold classify. fold t. assert (hex_form t = true) as ->.
  { rewrite Ht. simpl. rewrite Hx. by destruct h. }
  assert (drop 2 t = h) as -> by (rewrite Ht; apply drop_0). destruct (Nat.eqb_spec (plen (base_digit 16) h) (length h)) as [E|E].
  2:{ assert (((q + m)%nat =? length b)%nat = false) as Hn by (apply Nat.eqb_neq; unfold q; lia). unfold numeric_result. destruct small; rewrite Hn; cbn [negb andb Z.eqb]; eauto. }
  assert (((q + m)%nat =? length b)%nat = true) as Hy by (apply Nat.eqb_eq; unfold q; lia).
  assert (m = length l) as Hm by lia. assert (all_digits 16 l) as Hall by (unfold all_digits; fold m; done).
  assert (small = (digits_value 16 0 h <=? LONG_MAX)) as Hsm.
  { pose proof (plen_stop (λ c, c =? 48) h) as Hstop. fold zh l in Hstop. unfold small. rewrite Hm, hex_small, (digits_value_zeros _ h); [done|done|].
    destruct l as [|c r]; [done|]. by apply Z.eqb_neq. }
  rewrite <- Hsm. unfold numeric_result. destruct small eqn:Hs; rewrite Hy; cbn [negb andb].
  - rewrite (ch_hd _ _ text_at). cbn [obind]. assert ((m =? MAX_LENGTH_OF_LONG - 1)%nat = false) as ->.
    { change (MAX_LENGTH_OF_LONG - 1)%nat with 19%nat. apply Nat.eqb_neq. unfold small in Hs. destruct (Nat.ltb_spec m 16); [lia|]. destruct (Nat.eqb_spec m 16); [lia|done]. }
    cbn [andb]. exists 0. rewrite text_at, hex_strtol. symmetry in Hsm. apply Z.leb_le in Hsm. by rewrite Z.min_r by done.
  - exists 1. rewrite take_ge by lia. by destruct has_dval.
Qed.
End hex.

Lemma has_digitb_spec : has_digitb u = ZEND_IS_DIGIT (hd 0 u) || ((hd 0 u =? 46) && ZEND_IS_DIGIT (hd 0 (tl u))).
Proof. clear. destruct u as [|c [|d r]]; done. Qed.
Lemma sign_ptr : (if is_sign (hd 0 t) then S str else str) = ptr.
Proof. unfold ptr. destruct t as [|c r]; simpl; [|destruct (is_sign c)]; lia. Qed.

(** The hexadecimal prefix. *)
Lemma hex_test : ZEND_IS_DIGIT (hd 0 u) = true → ∃ x, ch s (S str) = OK x ∧ (2 <? length b - str)%nat && (hd 0 t =? 48) && is_x x = hex_form t.
Proof.
  intros Hd. destruct text_length as [Hlen _]. replace (length b - str)%nat with (length t) by lia. pose proof text_at as Hs. unfold u, unsigned_text in Hd.
  destruct t as [|c r]; [done|]. pose proof (drop_next _ _ _ _ Hs) as Hr. exists (hd 0 r). split; [by apply ch_hd|]. by destruct r as [|x [|y r]].
Qed.

Lemma hex_form_inv l : hex_form l = true → ∃ x h, l = 48 :: x :: h ∧ is_x x = true ∧ h ≠ [].
Proof. destruct l as [|c [|x [|y h]]]; try done. intros [->%Z.eqb_eq Hx]%andb_true_iff. by exists x, (y :: h). Qed.

Lemma numeric_classify : ∃ o, is_numeric_string_ex s (length b) has_dval 0 = OK (classify b has_dval, o, false) ∧
  (integer_form t = true → o = if fits_long (integer_value t) then 0 else number_sign t).
Proof.
  unfold is_numeric_string_ex. destruct (Nat.eqb_spec (length b) 0) as [E|E].
  { exists 0. unfold t, classify, number_text. by rewrite (nil_length_inv b E). }
  rewrite (skip_spec s is_white 0 s) by (done || apply ends_nul). assert (plen is_white s = str) as -> by by apply plen_nul. rewrite Nat.add_0_l. cbn [obind].
  rewrite (ch_hd _ _ text_at). cbn [obind]. rewrite sign_ptr, (ch_hd _ _ unsigned_at). cbn [obind]. assert (length s = S (length b)) as Hs by (unfold s; rewrite length_app; simpl; lia).
  assert (length ds ≤ length b)%nat as Hds by (destruct text_length as [_ Hl]; unfold ds; rewrite length_drop; lia).
  destruct (ZEND_IS_DIGIT (hd 0 u)) eqn:Hd.
  - destruct (hex_test Hd) as (x & Hxx & Hxy). rewrite Hxx. cbn [obind]. rewrite !Hxy. destruct (hex_form t) eqn:Hx.
    + destruct (hex_form_inv _ Hx) as (x' & h & Ht & Hx' & Hh). assert (ptr = str) as Hps by (unfold ptr; rewrite Ht; simpl; lia). rewrite Hps.
      destruct (hex_at x' h Ht) as (Hd2 & _ & _). rewrite (skip_spec s (λ c, c =? 48) _ _ Hd2) by (done || apply ends_nul). rewrite plen_nul by done. cbn [obind].
      destruct (hex_go x' h Ht (2 * length s + 16)) as (k & ->); [lia|]. cbn [obind]. destruct (hex_result x' h Ht Hx' Hh k) as (o & ->).
      exists o. split; [done|]. unfold integer_form. by rewrite Hx.
    + rewrite (skip_spec s (λ c, c =? 48) _ _ unsigned_at) by (done || apply ends_nul). rewrite plen_nul by done. fold z. cbn [obind].
      assert (has_digitb u = true) as Hdig by (by rewrite has_digitb_spec, Hd). destruct (scan_decimal (2 * length s + 16) Hdig) as (r & -> & Hr); [lia|]. cbn [obind].
      by apply decimal_result.
  - assert (hex_form t = false) as Hx.
    { apply not_true_iff_false. intros (x & h & Ht & _)%hex_form_inv. unfold u, unsigned_text in Hd. by rewrite Ht in Hd. }
    pose proof has_digitb_spec as Hdig. rewrite Hd in Hdig. cbn [orb] in Hdig.
    assert (has_digitb u = false → ∃ o, OK (NotNumeric, 0, false) = OK (classify b has_dval, o, false) ∧ (integer_form t = true → o = if fits_long (integer_value t) then 0 else number_sign t)) as Hno.
    { intros Hnd. exists 0. unfold classify, decimal_form, integer_form. fold t u. rewrite Hx, Hnd. by cbn [negb andb]. }
    destruct (hd 0 u =? 46) eqn:H46; [|by apply Hno]. cbn [andb] in Hdig.
    apply Z.eqb_eq in H46. pose proof (hd_tl u 46 H46 ltac:(done)) as Hu. pose proof unsigned_at as Hat. rewrite Hu in Hat.
    rewrite (ch_hd _ _ (drop_next _ _ _ _ Hat)). cbn [obind]. destruct (ZEND_IS_DIGIT (hd 0 (tl u))); [|by apply Hno].
    assert (z = 0%nat) as Hz by (unfold z; by rewrite Hu). destruct (scan_decimal (S (S (2 * length s + 16))) Hdig) as (r & Hgo & Hr); [lia|].
    rewrite Hz, Nat.add_0_r in Hgo. destruct (go_nondigit s str has_dval (2 * length s + 16) ptr 0 false 0 0 46 _ Hat) as (Hl & _ & Hp); [done|lia|].
    rewrite Hl, Hp in Hgo by done. rewrite Hgo. cbn [obind]. by apply decimal_result.
Qed.
End result.

(** ** Prefixes: [allow_errors] is 1

    Here the caller wants the number the string begins with. *)

Section prefix.
Context `{DoubleCmp} (b : list Z).
Let s := b ++ [0].
Let str := plen is_white b.
Let t := number_text b.
Let u := unsigned_text t.
Let z := plen (λ c, c =? 48) u.
Let ds := drop z u.
Let n := plen ZEND_IS_DIGIT ds.

Definition numeric_prefix : numeric :=
  if hex_form t then
    let h := drop 2 t in let v := digits_value 16 0 h in
    if v <=? LONG_MAX then NumLong v else NumDouble (Some (hex_double (take (plen (base_digit 16) h) h)))
  else if has_digitb u then
    if (float_len u =? plen ZEND_IS_DIGIT u)%nat && fits_long (integer_value t) then NumLong (integer_value t) else NumDouble (Some (strtod_value (t ++ [0])))
  else NotNumeric.

(** The number of digits behind the leading zeros. *)
Definition integer_digits : nat := n.

(** The text behind the digits, and an e with a sign but without digits at its
    beginning. *)
Definition behind_digits : list Z := drop (plen ZEND_IS_DIGIT u) u.
Definition stray_exponent (x : list Z) : bool :=
  match x with e :: c :: r => is_e e && is_sign c && negb (ZEND_IS_DIGIT (hd 0 r)) | _ => false end.
(** The prefixes of nineteen digits that the check with [strcmp] judges by
    their digits alone. *)
Definition checked_by_digits : Prop :=
  stray_exponent behind_digits = false ∧ (behind_digits = [] ∨ Z.abs (integer_value t) ≠ 2 ^ 63).

Lemma behind_at : behind_digits = drop n ds.
Proof. pose proof (u_digits b) as Hu. fold t u z ds n in Hu. unfold behind_digits. rewrite Hu. unfold ds. by rewrite drop_drop. Qed.

Lemma prefix_range : n = 19%nat → checked_by_digits → let cmp := strcmp (ds ++ [0]) long_min_digits in
  (cmp <? 0) || ((cmp =? 0) && (hd 0 t =? 45)) = fits_long (integer_value t).
Proof.
  intros Hn [_ Hb] cmp. assert (n ≤ length ds)%nat as Hle by apply plen_le. set (dg := take n ds).
  assert (all_digits 10 dg) as Hall by (unfold dg, n; rewrite <- plen_base_10; apply all_digits_plen).
  assert (length dg = 19%nat) as Hl by (unfold dg; rewrite length_take; lia).
  assert (integer_value t = (if hd 0 t =? 45 then -1 else 1) * digits_value 10 0 dg) as Hv.
  { pose proof (number_sign_hd b) as Hsg. fold t in Hsg. unfold integer_value. rewrite Hsg. fold u. f_equal. rewrite digits_value_zeros. fold z ds.
    rewrite digits_value_take, plen_base_10. done. }
  assert (cmp = strcmp (dg ++ [0]) long_min_digits) as ->.
  { unfold cmp. rewrite <- (take_drop n ds). fold dg. rewrite behind_at in Hb. destruct Hb as [->|Hne]; [by rewrite app_nil_r|].
    rewrite <- app_assoc. change long_min_digits with (min_digits ++ [0]) at 1. rewrite strcmp_app; [done|done| |by apply all_digits_nonzero].
    intros E. apply Hne. rewrite Hv, E. by destruct (hd 0 t =? 45). }
  rewrite Hv. by apply nineteen_digits.
Qed.

(** With [dval] the scan does not depend on [allow_errors]. *)
Lemma go_errors fuel l st base p d dbl dp o : go s true 1 st base fuel l p d dbl dp o = go s true 0 st base fuel l p d dbl dp o.
Proof. reflexivity. Qed.

Lemma prefix_bound : let v := digits_value 10 0 u in 0 <= v < 10 ^ Z.of_nat n ∧ ((20 <= n)%nat → 10 ^ 19 <= v).
Proof.
  cbv zeta. rewrite digits_value_zeros. fold z ds. rewrite digits_value_take, plen_base_10. fold n. assert (n ≤ length ds)%nat as Hn by apply plen_le.
  assert (all_digits 10 (take n ds)) as Hall by (unfold n; rewrite <- plen_base_10; apply all_digits_plen). assert (length (take n ds) = n) as Hl by (rewrite length_take; lia). split.
  - rewrite <- Hl at 3. apply digits_value_range; [by left|done].
  - intros H20. pose proof (plen_stop (λ c, c =? 48) u) as Hstop. fold z ds in Hstop. clearbody n ds. destruct ds as [|c r]; [simpl in *; lia|]. destruct n as [|k]; [lia|].
    simpl take in *. simpl length in Hl. etransitivity; [|apply digits_value_lower; [by left|done|by apply Z.eqb_neq]]. apply Z.pow_le_mono_r; lia.
Qed.

(** Where a double comes from. *)
Definition read_double (v : numeric) : Prop :=
  match v with NumDouble (Some d) => (∃ x, d = strtod_value x) ∨ (∃ h, d = hex_double h) | NumDouble None => False | _ => True end.
Lemma read_prefix : read_double numeric_prefix.
Proof. unfold numeric_prefix, read_double. repeat case_match; simplify_eq; eauto. Qed.

#[local] Instance checked_by_digits_dec : Decision checked_by_digits.
Proof. unfold checked_by_digits. apply _. Defined.

(** Where the scan stops when there is neither fraction nor exponent. *)
Lemma scan_at_digits p d dbl dv o : decimal_scan s str (hd 0 t) true (str + sign_len t + z) (ds ++ [0]) (p, d, dbl, dv, o) →
  (frac_len (drop n ds) + exp_len (drop (n + frac_len (drop n ds)) ds) = 0)%nat → stray_exponent behind_digits = false →
  (p - n = str + sign_len t + z)%nat.
Proof.
  intros Hr Hfx Hb. destruct (ds_end _ _ _ _ _ _ _ Hr) as (slack & Hp & Hs). unfold ds_x, ds_f, ds_n in Hp, Hs. rewrite plen_nul in Hp, Hs by done. fold n in Hp, Hs.
  assert (n ≤ length ds)%nat as Hn by apply plen_le. rewrite (drop_nul n), frac_len_nul in Hp, Hs by done.
  assert (frac_len (drop n ds) = 0 ∧ exp_len (drop n ds) = 0)%nat as [Hf Hx].
  { assert (frac_len (drop n ds) = 0)%nat as Hf by lia. rewrite Hf, Nat.add_0_r in Hfx. by rewrite Hf. }
  rewrite Hf in Hp, Hs. assert (n + 0 = n)%nat as Hn0 by lia. rewrite Hn0, (drop_nul n), exp_len_nul, Hx in Hp, Hs by done. cbn [fst snd] in Hp. rewrite <- behind_at in Hx.
  destruct Hs as [->|(-> & _ & Hst)]; [lia|]. exfalso. rewrite Hn0, (drop_nul n), <- behind_at in Hst by done.
  destruct Hst as (Hlen & e & c & r & Heq & He & Hc). destruct behind_digits as [|e' [|c' r']]; [done|simpl in Hlen; lia|].
  injection Heq as -> -> _. simpl in Hb. rewrite He, Hc in Hb. cbn [andb] in Hb. apply negb_false_iff in Hb.
  simpl in Hx. rewrite He, Hc in Hx. simpl in Hx. destruct r' as [|d' r']; [done|]. simpl in Hb, Hx. by rewrite Hb in Hx.
Qed.

Lemma decimal_prefix r : hex_form t = false → has_digitb u = true → decimal_scan s str (hd 0 t) true (str + sign_len t + z) (ds ++ [0]) r →
  ∃ v o, numeric_result s (length b) str 10 true 1 r = OK (v, o, false) ∧ read_double v ∧ (n ≠ 19%nat ∨ checked_by_digits → v = numeric_prefix).
Proof.
  intros Hx Hd Hr. assert (drop str s = t ++ [0]) as Hat by apply (text_at b). pose proof (ch_hd b _ _ Hat) as Hch. pose proof (strtod_text b Hd) as Hend. destruct r as [[[[p d] dbl] dv] o]. unfold numeric_prefix. rewrite Hx, Hd.
  pose proof (ds_type _ _ _ _ _ _ _ Hr) as Ht. pose proof (ds_value _ _ _ _ _ _ _ Hr) as Hv. pose proof (ds_digits _ _ _ _ _ _ _ Hr) as Hdig.
  cbn [fst snd] in Ht, Hv, Hdig. unfold ds_x, ds_f, ds_n in Ht, Hdig. rewrite plen_nul in Ht, Hdig by done. fold n in Ht, Hdig. assert (n ≤ length ds)%nat as Hn by apply plen_le.
  rewrite (drop_nul n), frac_len_nul in Ht by done. set (f := frac_len (drop n ds)) in *.
  assert (n + f ≤ length ds)%nat as Hf by (pose proof (frac_len_le (drop n ds)) as Hf; rewrite length_drop in Hf; unfold f in *; lia).
  rewrite (drop_nul (n + f)), exp_len_nul in Ht by done. rewrite Hat in Hv.
  assert (float_len u = (z + (n + f + exp_len (drop (n + f) ds)))%nat) as Hfl by apply float_len_zeros. pose proof (u_digits b) as Hu. fold t u z ds n in Hu. rewrite Hfl, Hu.
  assert ((z + (n + f + exp_len (drop (n + f) ds)) =? z + n)%nat = (f + exp_len (drop (n + f) ds) =? 0)%nat) as -> by (apply eq_bool_prop_intro; rewrite !Is_true_true, !Nat.eqb_eq; lia).
  unfold numeric_result. assert (negb (p =? length b)%nat && (1 =? 0) = false ∧ negb (p =? length b)%nat && (1 =? -1) = false) as [-> ->] by (by rewrite !andb_false_r).
  destruct prefix_bound as [Hr1 Hr2]. destruct (Nat.eqb_spec (f + exp_len (drop (n + f) ds)) 0) as [E|E]; cbn [andb negb] in *; [|subst dbl; rewrite Hv; do 2 eexists; split; [reflexivity|]; simpl; eauto].
  assert (fits_long (integer_value t) = if (n <? 19)%nat then true else if (n <? 20)%nat then fits_long (integer_value t) else false) as Hin.
  { unfold fits_long, integer_value. assert (number_sign t = if hd 0 t =? 45 then -1 else 1) as -> by apply (number_sign_hd b). fold u. destruct (Nat.ltb_spec n 19); [|destruct (Nat.ltb_spec n 20); [done|]].
    - assert (10 ^ Z.of_nat n <= 10 ^ 18) by (apply Z.pow_le_mono_r; lia). apply andb_true_iff. rewrite !Z.leb_le. unfold LONG_MIN, LONG_MAX. destruct (hd 0 t =? 45); lia.
    - apply not_true_iff_false. rewrite andb_true_iff, !Z.leb_le. specialize (Hr2 ltac:(lia)). unfold LONG_MIN, LONG_MAX. destruct (hd 0 t =? 45); lia. }
  destruct (Nat.ltb_spec n 20) as [H20|H20]; cbn [negb] in Ht; subst dbl.
  - fold s in Hch, Hend. fold str in Hend. rewrite (Hdig eq_refl), Hch, Hat. cbn [obind]. change (MAX_LENGTH_OF_LONG - 1)%nat with 19%nat.
    unfold oflow_sign, zend_strtod. rewrite Hch, Hend. cbn [obind].
    destruct (Nat.eqb_spec n 19) as [E9|E9]; cbn [andb]; [|].
    { destruct (decide checked_by_digits) as [Hc|Hc].
      2:{ match goal with |- context [negb ?c] => destruct (negb c) end; do 2 eexists; (split; [reflexivity|]); (split; [simpl; eauto|tauto]). }
      rewrite (scan_at_digits _ _ _ _ _ Hr E (proj1 Hc)). pose proof (ds_at b) as Hda. fold s t u z ds str in Hda. rewrite Hda. rewrite prefix_range by done.
      destruct (fits_long (integer_value t)) eqn:Hfit; cbn [negb]; do 2 eexists; (split; [reflexivity|]); (split; [simpl; eauto|]); intros _; [|pose proof (text_at b) as Hta; fold s str t in Hta; by rewrite Hta].
      f_equal. pose proof (strtol_decimal b Hx) as Hst. fold t in Hst. rewrite Hst.
      unfold fits_long in Hfit. apply andb_true_iff in Hfit as [?%Z.leb_le ?%Z.leb_le]. by rewrite Z.min_r, Z.max_r by lia. }
    do 2 eexists. split; [reflexivity|]. split; [done|]. intros _. rewrite (proj2 (Nat.ltb_lt n 19)) in Hin by lia. rewrite Hin. pose proof (strtol_decimal b Hx) as Hst. fold t in Hst. rewrite Hst.
    unfold fits_long in Hin. apply andb_true_iff in Hin as [?%Z.leb_le ?%Z.leb_le]. by rewrite Z.min_r, Z.max_r by lia.
  - rewrite (proj2 (Nat.ltb_ge n 19)) in Hin by lia. rewrite Hin, Hv. do 2 eexists. split; [reflexivity|]. simpl. eauto.
Qed.

Lemma hex_prefix x h k : t = 48 :: x :: h → is_x x = true → h ≠ [] → let zh := plen (λ c, c =? 48) h in let l := drop zh h in let m := plen (base_digit 16) l in
  let q := (S (S str) + zh)%nat in let small := if (m <? 16)%nat then true else if (m =? 16)%nat then hd 0 l <=? 55 else false in
  ∃ o, numeric_result s (length b) str 16 true 1
    (if small then ((q + m)%nat, m, false, None, 0) else ((q + m)%nat, k, true, Some (hex_double (take (zh + m) h)), 1)) = OK (numeric_prefix, o, false).
Proof.
  intros Ht Hx Hh zh l m q small. assert (drop str s = t ++ [0]) as Hat by apply (text_at b). pose proof (ch_hd b _ _ Hat) as Hch. fold s in Hch. destruct (hex_at b x h Ht) as (_ & Hq & Hlen & Hpl & Hzl). fold zh l m in Hpl, Hzl. unfold numeric_prefix. assert (hex_form t = true) as ->.
  { rewrite Ht. simpl. rewrite Hx. by destruct h. }
  assert (drop 2 t = h) as -> by (rewrite Ht; apply drop_0). cbv zeta. assert (small = (digits_value 16 0 h <=? LONG_MAX)) as Hsm.
  { assert (m ≤ length l)%nat as Hml by apply plen_le. assert (length (take m l) = m) as Hl by (rewrite length_take; lia). assert (hd 0 l = hd 0 (take m l) ∨ m = 0%nat) as Hhd by (destruct l, m; simpl; auto).
    rewrite digits_value_zeros. fold zh l. rewrite digits_value_take. fold m. rewrite <- (hex_small b); [|apply all_digits_plen|].
    - rewrite Hl. unfold small. destruct (m <? 16)%nat; [done|]. destruct (Nat.eqb_spec m 16); [|done]. destruct Hhd as [->|]; [done|lia].
    - pose proof (plen_stop (λ c, c =? 48) h) as Hstop. fold zh l in Hstop. destruct l as [|c r]; [by rewrite take_nil|]. destruct m; [done|]. by apply Z.eqb_neq. }
  rewrite <- Hsm. unfold numeric_result. set (p := (q + m)%nat). assert (negb (p =? length b)%nat && (1 =? 0) = false ∧ negb (p =? length b)%nat && (1 =? -1) = false) as [Hf1 Hf2] by (by rewrite !andb_false_r).
  destruct small eqn:Hs; rewrite Hf1, Hf2; [|by rewrite Hpl; eauto].
  rewrite Hch. cbn [obind]. assert ((m =? MAX_LENGTH_OF_LONG - 1)%nat = false) as ->.
  { change (MAX_LENGTH_OF_LONG - 1)%nat with 19%nat. apply Nat.eqb_neq. unfold small in Hs. destruct (Nat.ltb_spec m 16); [lia|]. destruct (Nat.eqb_spec m 16); [lia|done]. }
  cbn [andb]. exists 0. pose proof (hex_strtol b x h Ht Hx) as Hst. fold t in Hst. rewrite Hat, Hst by done.
  symmetry in Hsm. apply Z.leb_le in Hsm. by rewrite Z.min_r by done.
Qed.

Lemma prefix_classify : ∃ v o, is_numeric_string_ex s (length b) true 1 = OK (v, o, false) ∧ read_double v ∧ (hex_form t = true ∨ integer_digits ≠ 19%nat ∨ checked_by_digits → v = numeric_prefix).
Proof.
  assert (drop str s = t ++ [0]) as Hat by apply (text_at b). pose proof (ch_hd b _ _ Hat) as Hch. fold s in Hch. pose proof (sign_ptr b) as Hsp. fold t str in Hsp.
  assert (drop (str + sign_len t) s = u ++ [0]) as Hu by apply (unsigned_at b). pose proof (ch_hd b _ _ Hu) as Hcu. fold s in Hcu. pose proof (has_digitb_spec b) as Hdig. fold t u in Hdig.
  unfold is_numeric_string_ex. destruct (Nat.eqb_spec (length b) 0) as [E|E].
  { exists NotNumeric, 0. split; [done|]. split; [done|]. intros _. unfold numeric_prefix, u, t, number_text. by rewrite (nil_length_inv b E). }
  rewrite (skip_spec s is_white 0 s) by (done || apply ends_nul). assert (plen is_white s = str) as -> by by apply plen_nul. rewrite Nat.add_0_l. cbn [obind].
  rewrite Hch. cbn [obind]. rewrite Hsp, Hcu. cbn [obind]. assert (length s = S (length b)) as Hs by (unfold s; rewrite length_app; simpl; lia).
  destruct (text_length b) as [_ Hlen]. fold t str u in Hlen. assert (length ds ≤ length b)%nat as Hds by (unfold ds; rewrite length_drop; lia).
  assert (hex_form t = false → has_digitb u = false → ∃ v o, OK (NotNumeric, 0, false) = OK (v, o, false) ∧ read_double v ∧ (hex_form t = true ∨ integer_digits ≠ 19%nat ∨ checked_by_digits → v = numeric_prefix)) as Hno.
  { intros Hx Hnd. exists NotNumeric, 0. unfold numeric_prefix. by rewrite Hx, Hnd. }
  destruct (ZEND_IS_DIGIT (hd 0 u)) eqn:Hd.
  - destruct (hex_test b Hd) as (x & Hxx & Hxy). fold s str t in Hxx, Hxy. rewrite Hxx. cbn [obind]. rewrite !Hxy. destruct (hex_form t) eqn:Hx.
    + destruct (hex_form_inv _ Hx) as (x' & h & Ht & Hx' & Hh). assert (str + sign_len t = str)%nat as -> by (rewrite Ht; simpl; lia).
      destruct (hex_at b x' h Ht) as (Hd2 & _ & _). fold s str in Hd2. rewrite (skip_spec s (λ c, c =? 48) _ _ Hd2) by (done || apply ends_nul). rewrite plen_nul by done. cbn [obind].
      rewrite go_errors. destruct (hex_go b true x' h Ht (2 * length s + 16)) as (k & Hgo); [fold s; lia|]. fold s str in Hgo. rewrite Hgo. cbn [obind].
      destruct (hex_prefix x' h k Ht Hx' Hh) as (o & Hr). exists numeric_prefix, o. rewrite Hr. split; [done|]. by split; [apply read_prefix|].
    + rewrite (skip_spec s (λ c, c =? 48) _ _ Hu) by (done || apply ends_nul). rewrite plen_nul by done. fold z. cbn [obind orb] in *.
      rewrite go_errors. destruct (scan_decimal b true (2 * length s + 16) Hdig) as (r & Hgo & Hr); [fold t u z ds; lia|]. fold s str t u z in Hgo. rewrite Hgo. cbn [obind].
      destruct (decimal_prefix r Hx Hdig Hr) as (v & o & -> & Hread & Hv). exists v, o. split; [done|]. split; [done|]. intros [|Hn]; [done|by apply Hv].
  - assert (hex_form t = false) as Hx.
    { apply not_true_iff_false. intros (x & h & Ht & _)%hex_form_inv. unfold u, unsigned_text in Hd. by rewrite Ht in Hd. }
    cbn [orb] in Hdig. destruct (hd 0 u =? 46) eqn:H46; [|by apply Hno]. cbn [andb] in Hdig.
    apply Z.eqb_eq in H46. pose proof (hd_tl u 46 H46 ltac:(done)) as Hu1. pose proof Hu as Hu2. rewrite Hu1 in Hu2.
    pose proof (ch_hd b _ _ (drop_next _ _ _ _ Hu2)) as Hnx. fold s in Hnx. rewrite Hnx. cbn [obind]. destruct (ZEND_IS_DIGIT (hd 0 (tl u))); [|by apply Hno].
    assert (z = 0%nat) as Hz by (unfold z; by rewrite Hu1). destruct (scan_decimal b true (S (S (2 * length s + 16))) Hdig) as (r & Hgo & Hr); [fold t u z ds; lia|].
    fold s str t u z in Hgo. rewrite Hz, Nat.add_0_r in Hgo. destruct (go_nondigit s str true (2 * length s + 16) (str + sign_len t) 0 false 0 0 46 _ Hu2) as (Hl & _ & Hp); [done|lia|].
    rewrite Hl, Hp in Hgo by done. rewrite go_errors, Hgo. cbn [obind].
    destruct (decimal_prefix r Hx Hdig Hr) as (v & o & -> & Hread & Hv). exists v, o. split; [done|]. split; [done|]. intros [|Hn]; [by rewrite Hx in *|by apply Hv].
Qed.
End prefix.
