(* ===== verification/ZendCompare.v ===== *)
(** Comparison of values, from Zend/zend_operators.c: [zendi_smart_strcmp],
    the conversions of operands to a number and to a boolean,
    [compare_function], [is_identical_function] and the relational operators.

    A value is null, a boolean, a long, a double, a string, an array or a
    resource: an array is the address of its table with the dictionary the
    table stands for, as OrderedDict has it and ZendHashIter proves for
    [zend_hash_compare].  Objects, and [result] being one of the operands,
    are not modelled. *)

From S2P Require Import Prelude OrderedDict ZendArith ZendStrings ZendNumeric.

Section compare.
Context `{DoubleCmp}.

(** [Z_TYPE_P] with the member of the union it selects. *)
Inductive value :=
  | VNull
  | VBool (lval : bool)
  | VLong (lval : Z)
  | VDouble (dval : double)
  | VString (val : list Z)
  | VArray (ht : positive) (elements : list (akey * value))
  | VResource (handle : Z).

Definition ZEND_NORMALIZE_BOOL (n : Z) : Z := if n =? 0 then 0 else if 0 <? n then 1 else -1.
(** [ZEND_NORMALIZE_BOOL] on a [double] *)
Definition normalize_double (d : double) : Z := if d_nonzero d then if d_pos d then 1 else -1 else 0.

(** * Strings *)

(** [dval1], [dval2]: 0.0 unless the string is a double. *)
Definition stored_double (n : numeric) : double := match n with NumDouble (Some d) => d | _ => d_of_long 0 end.

Definition zend_binary_zval_strcmp (s1 s2 : list Z) : Z := zend_binary_strcmp false s1 s2.

Definition zendi_smart_strcmp (s1 s2 : list Z) : outcome Z :=
  let string_cmp := ZEND_NORMALIZE_BOOL (zend_binary_zval_strcmp s1 s2) in
  let* (ret1, oflow1, _) := is_numeric_string_ex (s1 ++ [0]) (length s1) true 0 in
  match ret1 with
  | NotNumeric => OK string_cmp
  | _ =>
      let* (ret2, oflow2, _) := is_numeric_string_ex (s2 ++ [0]) (length s2) true 0 in
      match ret2 with
      | NotNumeric => OK string_cmp
      | _ =>
          let dval1 := stored_double ret1 in
          let dval2 := stored_double ret2 in
          if negb (oflow1 =? 0) && (oflow1 =? oflow2) && negb (d_nonzero (d_sub dval1 dval2)) then OK string_cmp
          else
            match ret1, ret2 with
            | NumLong lval1, NumLong lval2 => OK (if lval2 <? lval1 then 1 else if lval1 <? lval2 then -1 else 0)
            | NumLong lval1, _ =>
                if negb (oflow2 =? 0) then OK (-1 * oflow2) else OK (normalize_double (d_sub (d_of_long lval1) dval2))
            | _, NumLong lval2 =>
                if negb (oflow1 =? 0) then OK oflow1 else OK (normalize_double (d_sub dval1 (d_of_long lval2)))
            | _, _ =>
                if d_eq dval1 dval2 && negb (zend_finite dval1) then OK string_cmp else OK (normalize_double (d_sub dval1 dval2))
            end
      end
  end.

(** * Conversions *)

Definition long_of_bool (b : bool) : Z := if b then 1 else 0.

Definition zendi_convert_scalar_to_number (op : value) : outcome value :=
  match op with
  | VString s =>
      let* (type, _, _) := is_numeric_string_ex (s ++ [0]) (length s) true 1 in
      match type with
      | NotNumeric => OK (VLong 0)
      | NumLong lval => OK (VLong lval)
      | NumDouble dval => OK (VDouble (default (d_of_long 0) dval))
      end
  | VBool lval => OK (VLong (long_of_bool lval))
  | VResource handle => OK (VLong handle)
  | VNull => OK (VLong 0)
  | _ => OK op
  end.

(** [i_zend_is_true], and the value of [zendi_convert_to_boolean]. *)
Definition i_zend_is_true (op : value) : bool :=
  match op with
  | VNull => false
  | VBool lval => lval
  | VLong lval | VResource lval => negb (lval =? 0)
  | VDouble dval => d_nonzero dval
  | VString s => negb ((length s =? 0)%nat || ((length s =? 1)%nat && (hd 0 s =? 48)))
  | VArray _ elements => negb (length elements =? 0)%nat
  end.
Definition zendi_convert_to_boolean (op : value) : Z := long_of_bool (i_zend_is_true op).

(** * [compare_function] *)

(** The pairs of types with a case of their own, the arrays apart. *)
Definition compare_pair (op1 op2 : value) : option (outcome (zresult * Z)) :=
  let ret z := Some (OK (SUCCESS, z)) in
  match op1, op2 with
  | VLong a, VLong b => ret (if b <? a then 1 else if a <? b then -1 else 0)
  | VDouble d, VLong b => ret (normalize_double (d_sub d (d_of_long b)))
  | VLong a, VDouble e => ret (normalize_double (d_sub (d_of_long a) e))
  | VDouble d, VDouble e => ret (if d_eq d e then 0 else normalize_double (d_sub d e))
  | VNull, VNull => ret 0
  | VNull, VBool b => ret (if b then -1 else 0)
  | VBool a, VNull => ret (if a then 1 else 0)
  | VBool a, VBool b => ret (ZEND_NORMALIZE_BOOL (long_of_bool a - long_of_bool b))
  | VString s1, VString s2 => Some (let* r := zendi_smart_strcmp s1 s2 in OK (SUCCESS, r))
  | VNull, VString s2 => ret (zend_binary_strcmp false [] s2)
  | VString s1, VNull => ret (zend_binary_strcmp false s1 [])
  | _, _ => None
  end.

(** The default case, before and after the operands are [converted]. *)
Definition compare_converted (op1 op2 : value) : outcome (zresult * Z) :=
  match compare_pair op1 op2 with
  | Some r => r
  | None =>
      match op1, op2 with
      | VArray _ _, _ => OK (SUCCESS, 1)
      | _, VArray _ _ => OK (SUCCESS, -1)
      | _, _ => OK (FAILURE, 0)
      end
  end.
Definition compare_default (op1 op2 : value) : outcome (zresult * Z) :=
  match op1, op2 with
  | VNull, _ => OK (SUCCESS, if zendi_convert_to_boolean op2 =? 0 then 0 else -1)
  | _, VNull => OK (SUCCESS, if zendi_convert_to_boolean op1 =? 0 then 0 else 1)
  | VBool a, _ => OK (SUCCESS, ZEND_NORMALIZE_BOOL (long_of_bool a - zendi_convert_to_boolean op2))
  | _, VBool b => OK (SUCCESS, ZEND_NORMALIZE_BOOL (zendi_convert_to_boolean op1 - long_of_bool b))
  | _, _ =>
      let* op1 := zendi_convert_scalar_to_number op1 in
      let* op2 := zendi_convert_scalar_to_number op2 in
      compare_converted op1 op2
  end.

(** [hash_zval_compare_function] *)
Definition hash_zval_compare_function (compare : value → value → outcome (zresult * Z)) (z1 z2 : value) : outcome Z :=
  let* (st, r) := compare z1 z2 in OK (match st with FAILURE => 1 | SUCCESS => r end).

Fixpoint compare_function (op1 op2 : value) {struct op1} : outcome (zresult * Z) :=
  match op1, op2 with
  | VArray ht1 d1, VArray ht2 d2 =>
      (* zend_compare_arrays, zend_compare_symbol_tables *)
      if decide (ht1 = ht2) then OK (SUCCESS, 0)
      else let* r := dcompare (λ v w, hash_zval_compare_function compare_function v w) false d1 d2 in OK (SUCCESS, r)
  | _, _ => match compare_pair op1 op2 with Some r => r | None => compare_default op1 op2 end
  end.

(** * Identity *)

Definition hash_zval_identical_function (identical : value → value → outcome bool) (z1 z2 : value) : outcome Z :=
  let* r := identical z1 z2 in OK (long_of_bool (negb r)).

Fixpoint is_identical_function (op1 op2 : value) {struct op1} : outcome bool :=
  match op1, op2 with
  | VNull, VNull => OK true
  | VBool a, VBool b => OK (Bool.eqb a b)
  | VLong a, VLong b | VResource a, VResource b => OK (a =? b)
  | VDouble d, VDouble e => OK (d_eq d e)
  | VString s1, VString s2 => OK ((length s1 =? length s2)%nat && (memcmp_ (length s1) s1 s2 =? 0))
  | VArray ht1 d1, VArray ht2 d2 =>
      if decide (ht1 = ht2) then OK true
      else let* r := dcompare (λ v w, hash_zval_identical_function is_identical_function v w) true d1 d2 in OK (r =? 0)
  | _, _ => OK false
  end.
Definition is_not_identical_function (op1 op2 : value) : outcome bool := let* r := is_identical_function op1 op2 in OK (negb r).

(** * The relational operators *)

Definition relation (test : Z → bool) (op1 op2 : value) : outcome (zresult * bool) :=
  let* (st, r) := compare_function op1 op2 in
  match st with FAILURE => OK (FAILURE, false) | SUCCESS => OK (SUCCESS, test r) end.
Definition is_equal_function := relation (λ r, r =? 0).
Definition is_not_equal_function := relation (λ r, negb (r =? 0)).
Definition is_smaller_function := relation (λ r, r <? 0).
Definition is_smaller_or_equal_function := relation (λ r, r <=? 0).

(** ** The inline variants of Zend/zend_operators.h

    They compare numbers themselves and ignore the status of
    [compare_function]. *)
Definition fast_compare (on_long : Z → Z → bool) (on_double : double → double → bool) (test : Z → bool) (op1 op2 : value) : outcome bool :=
  match op1, op2 with
  | VLong a, VLong b => OK (on_long a b)
  | VLong a, VDouble e => OK (on_double (d_of_long a) e)
  | VDouble d, VDouble e => OK (on_double d e)
  | VDouble d, VLong b => OK (on_double d (d_of_long b))
  | _, _ => let* (_, r) := compare_function op1 op2 in OK (test r)
  end.
Definition fast_equal_function := fast_compare Z.eqb d_eq (λ r, r =? 0).
Definition fast_not_equal_function := fast_compare (λ a b, negb (a =? b)) (λ d e, negb (d_eq d e)) (λ r, negb (r =? 0)).
Definition fast_is_smaller_function := fast_compare Z.ltb d_lt (λ r, r <? 0).
Definition fast_is_smaller_or_equal_function := fast_compare Z.leb d_le (λ r, r <=? 0).
End compare.
