(* ===== verification/CompareProps.v ===== *)
(** What the comparison of values promises: the numbers strings stand for, the
    comparison of numeric strings, [compare_function] on every pair of types
    and the identity of values. *)

From Stdlib Require Import Floats.SpecFloat String Ascii.
From S2P Require Import Prelude Dll OrderedDict ZendHash ZendHashInv ZendHashOps ZendHashDict ZendHashExt ZendHashLife ZendHashIter.
From S2P Require Import ZendArith ZendStrings StringProps ZendNumeric ZendNumericSpec ZendCompare.

Section compare.
Context `{DoubleCmp}.

(** The induction that reaches the elements of arrays. *)
Lemma value_induction (P : value → Prop) :
  P VNull → (∀ b, P (VBool b)) → (∀ z, P (VLong z)) → (∀ d, P (VDouble d)) → (∀ s, P (VString s)) → (∀ z, P (VResource z)) →
  (∀ ht d, Forall (λ p, P p.2) d → P (VArray ht d)) → ∀ v, P v.
Proof.
  intros H1 H2 H3 H4 H5 H6 H7. fix IH 1. intros [| | | | |ht d|]; [done..| |done]. apply H7. induction d as [|[k v] d IHd]; constructor; [apply IH|apply IHd].
Qed.

(** ** Numeric strings *)

Lemma numeric_full s : ∃ o, is_numeric_string_ex (s ++ [0]) (length s) true 0 = OK (classify s true, o, false) ∧
  (integer_form (number_text s) = true → o = if fits_long (integer_value (number_text s)) then 0 else number_sign (number_text s)).
Proof. apply numeric_classify. Qed.

Lemma integer_decimal t : integer_form t = true → hex_form t = false ∧ decimal_form t = true.
Proof.
  unfold integer_form, decimal_form. intros [[Hx Hd]%andb_true_iff Hp%Nat.eqb_eq]%andb_true_iff. split; [by destruct (hex_form t)|].
  rewrite Hx, Hd. apply Nat.eqb_eq. pose proof (proj2 (float_len_parts (unsigned_text t))). unfold float_len in *. lia.
Qed.

Lemma integer_classify s b : let t := number_text s in integer_form t = true →
  classify s b = if fits_long (integer_value t) then NumLong (integer_value t) else NumDouble (if b then Some (strtod_value (t ++ [0])) else None).
Proof.
  intros t Hi. destruct (integer_decimal _ Hi) as [Hx Hd]. unfold classify. fold t. rewrite Hx, Hd, Hi. by destruct (fits_long _).
Qed.

(** An integer that does not fit has the sign of the string. *)
Lemma overflow_sign t : fits_long (integer_value t) = false →
  number_sign t = 1 ∧ LONG_MAX < integer_value t ∨ number_sign t = -1 ∧ integer_value t < LONG_MIN.
Proof.
  unfold fits_long, integer_value. set (v := digits_value 10 0 (unsigned_text t)).
  assert (0 <= v) as Hv.
  { unfold v. rewrite digits_value_take. apply (digits_value_range 10); [by left|apply all_digits_plen]. }
  assert (number_sign t = 1 ∨ number_sign t = -1) as [-> | ->] by (unfold number_sign; destruct t as [|c r]; [auto|destruct (c =? 45); auto]);
    intros [?%Z.leb_gt|?%Z.leb_gt]%andb_false_iff; unfold LONG_MIN, LONG_MAX in *; lia.
Qed.

Lemma long_cmp_sgn a b : (if b <? a then 1 else if a <? b then -1 else 0) = Z.sgn (a - b).
Proof. destruct (Z.ltb_spec b a), (Z.ltb_spec a b); lia. Qed.
Lemma normalize_sgn n : ZEND_NORMALIZE_BOOL n = Z.sgn n.
Proof. unfold ZEND_NORMALIZE_BOOL. destruct (Z.eqb_spec n 0), (Z.ltb_spec 0 n); lia. Qed.

(** Two integers in strings, at least one of them in the range of a long. *)
Lemma smart_integers s1 s2 : let t1 := number_text s1 in let t2 := number_text s2 in
  integer_form t1 = true → integer_form t2 = true → fits_long (integer_value t1) || fits_long (integer_value t2) = true →
  zendi_smart_strcmp s1 s2 = OK (Z.sgn (integer_value t1 - integer_value t2)).
Proof.
  intros t1 t2 H1 H2 Hl. unfold zendi_smart_strcmp. destruct (numeric_full s1) as (o1 & -> & Ho1), (numeric_full s2) as (o2 & -> & Ho2).
  rewrite (Ho1 H1), (Ho2 H2), !integer_classify by done. fold t1 t2. cbn [obind]. pose proof (overflow_sign t1) as Hs1. pose proof (overflow_sign t2) as Hs2.
  destruct (fits_long (integer_value t1)) eqn:E1, (fits_long (integer_value t2)) eqn:E2; try done; cbn [obind Z.eqb negb andb orb].
  - by rewrite long_cmp_sgn.
  - unfold fits_long in E1. apply andb_true_iff in E1 as [?%Z.leb_le ?%Z.leb_le]. destruct Hs2 as [[-> ?]|[-> ?]]; [done|..]; cbn [Z.eqb negb]; f_equal; lia.
  - unfold fits_long in E2. apply andb_true_iff in E2 as [?%Z.leb_le ?%Z.leb_le]. destruct Hs1 as [[-> ?]|[-> ?]]; [done|..]; cbn [Z.eqb negb andb]; f_equal; lia.
Qed.

(** A string that is no number is compared byte by byte. *)
Lemma smart_bytes s1 s2 : classify s1 true = NotNumeric ∨ classify s2 true = NotNumeric → zendi_smart_strcmp s1 s2 = OK (Z.sgn (zend_binary_strcmp false s1 s2)).
Proof.
  intros Hn. unfold zendi_smart_strcmp, zend_binary_zval_strcmp. rewrite normalize_sgn. destruct (numeric_full s1) as (o1 & -> & _). cbn [obind].
  destruct (numeric_full s2) as (o2 & -> & _). cbn [obind]. destruct Hn as [-> | ->]; [done|]. by destruct (classify s1 true).
Qed.

Lemma smart_total s1 s2 : ∃ r, zendi_smart_strcmp s1 s2 = OK r.
Proof.
  unfold zendi_smart_strcmp. destruct (numeric_full s1) as (o1 & -> & _). cbn [obind]. destruct (classify s1 true); eauto;
    (destruct (numeric_full s2) as (o2 & -> & _); cbn [obind]; destruct (classify s2 true); repeat case_match; eauto).
Qed.

(** ** [compare_function] is total *)

Definition is_number (v : value) : Prop := match v with VLong _ | VDouble _ => True | _ => False end.

Lemma convert_total v : ∃ w, zendi_convert_scalar_to_number v = OK w ∧ match v with VArray _ _ => w = v | _ => is_number w end.
Proof.
  destruct v as [| | | |s| |]; simpl; try (eexists; split; [reflexivity|done]). destruct (prefix_classify s) as (v & o & -> & _ & _). cbn [obind]. destruct v; eexists; (split; [reflexivity|done]).
Qed.

Lemma delems_total {V W} (compar : V → W → outcome Z) b d1 d2 : Forall (λ p, ∀ w, ∃ r, compar p.2 w = OK r) d1 → ∃ r, delems_compare compar b d1 d2 = OK r.
Proof.
  intros Hd. revert d2. induction Hd as [|[k v] d1 Hv Hd IH]; intros d2; cbn [delems_compare]; [eauto|]. simpl in Hv.
  match goal with |- ∃ r, obind ?o _ = _ => assert (∃ r, o = OK r) as [r ->] end.
  { destruct b; [destruct d2 as [|[k2 w] d2]; [eauto|]; cbv zeta; case_match; eauto|]. destruct (dlookup k d2); eauto. }
  cbn [obind]. destruct (r =? 0); [apply IH|eauto].
Qed.
Lemma dcompare_total {V W} (compar : V → W → outcome Z) b d1 d2 : Forall (λ p, ∀ w, ∃ r, compar p.2 w = OK r) d1 → ∃ r, dcompare compar b d1 d2 = OK r.
Proof. intros Hd. unfold dcompare. cbv zeta. case_match; [by apply delems_total|eauto]. Qed.

Lemma pair_numbers v w : is_number v → is_number w → ∃ r, compare_pair v w = Some (OK (SUCCESS, r)).
Proof. destruct v, w; try done; simpl; eauto. Qed.

Lemma default_total v w : (match v, w with VArray _ _, VArray _ _ => False | _, _ => True end) → ∃ r, compare_default v w = OK (SUCCESS, r).
Proof.
  intros Hvw. assert (∃ r, (let* v := zendi_convert_scalar_to_number v in let* w := zendi_convert_scalar_to_number w in compare_converted v w) = OK (SUCCESS, r)) as Hc.
  { destruct (convert_total v) as (v' & -> & Hv), (convert_total w) as (w' & -> & Hw). cbn [obind].
    destruct v; try (subst v'; destruct w; try done; destruct w'; try done; simpl; eauto).
    all: destruct w; try (subst w'; destruct v'; try done; simpl; eauto); destruct (pair_numbers _ _ Hv Hw) as [r E]; unfold compare_converted; rewrite E; eauto. }
  destruct v, w; try done; cbn [compare_default]; eauto.
Qed.

Lemma compare_scalar v w : (match v, w with VArray _ _, VArray _ _ => False | _, _ => True end) →
  compare_function v w = match compare_pair v w with Some r => r | None => compare_default v w end.
Proof. destruct v, w; done. Qed.

Lemma compare_total v : ∀ w, ∃ r, compare_function v w = OK (SUCCESS, r).
Proof.
  assert (∀ v w, (match v, w with VArray _ _, VArray _ _ => False | _, _ => True end) → ∃ r, compare_function v w = OK (SUCCESS, r)) as Hs.
  { intros x w Hvw. rewrite compare_scalar by done. destruct (compare_pair x w) as [o|] eqn:E; [|by apply default_total].
    destruct x, w; simpl in E; try done; injection E as <-; eauto. destruct (smart_total val val0) as [r ->]. simpl. eauto. }
  induction v as [| | | | | |ht d IH] using value_induction; intros w; [by apply Hs..|]. destruct w as [| | | | |ht' d'|]; try by apply Hs.
  cbn [compare_function]. case_decide; [eauto|]. destruct (dcompare_total (λ v w, hash_zval_compare_function compare_function v w) false d d') as [r Hr]; [|rewrite Hr; simpl; eauto].
  eapply Forall_impl; [exact IH|]. intros [k v] Hv w. destruct (Hv w) as [r E]. unfold hash_zval_compare_function. simpl in *. rewrite E. simpl. eauto.
Qed.
End compare.

(** ** Exchanging the operands

    What is needed of doubles that are no NaN: a difference changes its sign
    when the operands change places, and it has the sign of the comparison,
    unless both are the same infinity. *)
Class DoubleOrder `{DoubleCmp} := {
  is_nan : double → bool;
  nan_long : ∀ z, is_nan (d_of_long z) = false;
  nan_strtod : ∀ s, is_nan (strtod_value s) = false;
  nan_hex : ∀ h, is_nan (hex_double h) = false;
  finite_long : ∀ z, zend_finite (d_of_long z) = true;
  eq_finite : ∀ d e, d_eq d e = true → zend_finite d = zend_finite e;
  eq_sym : ∀ d e, d_eq d e = d_eq e d;
  sub_zero : ∀ d e, is_nan d = false → is_nan e = false → d_nonzero (d_sub d e) = d_nonzero (d_sub e d);
  sub_sign : ∀ d e, is_nan d = false → is_nan e = false → d_eq d e = false ∨ zend_finite d = true ∨ zend_finite e = true →
    normalize_double (d_sub d e) = - normalize_double (d_sub e d);
  eq_sub : ∀ d e, is_nan d = false → is_nan e = false → zend_finite d = true ∨ zend_finite e = true → d_eq d e = negb (d_nonzero (d_sub d e));
  eq_nonzero : ∀ d e, is_nan d = false → is_nan e = false → d_eq d e = false → d_nonzero (d_sub d e) = true;
  lt_sub : ∀ d e, is_nan d = false → is_nan e = false → d_lt d e = negb (d_eq d e) && (normalize_double (d_sub d e) <? 0);
  le_sub : ∀ d e, is_nan d = false → is_nan e = false → d_le d e = d_eq d e || (normalize_double (d_sub d e) <? 0);
}.

Section order.
Context `{DoubleOrder}.

Lemma memcmp_anti n a b : memcmp_ n b a = - memcmp_ n a b.
Proof.
  revert a b. induction n as [|n IH]; intros [|x a] [|y b]; try done. simpl. destruct (Z.ltb_spec x y), (Z.ltb_spec y x); try done; lia || apply IH.
Qed.
Lemma diff_anti x y : 0 <= x < 2 ^ 31 → 0 <= y < 2 ^ 31 → len_diff y x = - len_diff x y.
Proof.
  intros Hx Hy. assert (∀ z, - 2 ^ 31 < z < 2 ^ 31 → to_int z = z) as Hz.
  { intros z Hz. unfold to_int, uint_wrap. destruct (Z.leb_spec 0 z); [rewrite Z.mod_small by lia; destruct (Z.ltb_spec z (2 ^ 31)); lia|].
    assert (z mod 2 ^ 32 = z + 2 ^ 32) as -> by (symmetry; apply (Z.mod_unique_pos _ _ (-1)); lia). destruct (Z.ltb_spec (z + 2 ^ 32) (2 ^ 31)); lia. }
  unfold len_diff. rewrite !Hz by lia. lia.
Qed.
Definition short (s : list Z) : Prop := len s < 2 ^ 31.
Lemma strcmp_anti s1 s2 : short s1 → short s2 → zend_binary_strcmp false s2 s1 = - zend_binary_strcmp false s1 s2.
Proof.
  intros Hs1 Hs2. unfold zend_binary_strcmp. rewrite Z.min_comm, memcmp_anti. set (r := memcmp_ _ s1 s2). destruct (Z.eqb_spec r 0) as [E|E].
  - rewrite E. simpl. unfold short, len in *. apply diff_anti; lia.
  - rewrite (proj2 (Z.eqb_neq _ _)) by lia. done.
Qed.

Lemma stored_ordered s : is_nan (stored_double (classify s true)) = false.
Proof.
  unfold classify. repeat case_match; simpl; auto using nan_long, nan_strtod, nan_hex.
Qed.

Lemma smart_anti s1 s2 : short s1 → short s2 → ∃ r, zendi_smart_strcmp s1 s2 = OK r ∧ zendi_smart_strcmp s2 s1 = OK (- r).
Proof.
  intros Hs1 Hs2. destruct (numeric_full s1) as (o1 & E1 & _), (numeric_full s2) as (o2 & E2 & _).
  assert (ZEND_NORMALIZE_BOOL (zend_binary_zval_strcmp s2 s1) = - ZEND_NORMALIZE_BOOL (zend_binary_zval_strcmp s1 s2)) as Hb.
  { unfold zend_binary_zval_strcmp. rewrite !normalize_sgn, strcmp_anti by done. lia. }
  pose proof (stored_ordered s1) as Hn1. pose proof (stored_ordered s2) as Hn2. unfold zendi_smart_strcmp. rewrite E1, E2. cbn [obind]. clear E1 E2.
  set (d1 := stored_double (classify s1 true)) in *. set (d2 := stored_double (classify s2 true)) in *. clearbody d1 d2.
  assert (negb (o2 =? 0) && (o2 =? o1) && negb (d_nonzero (d_sub d2 d1)) = negb (o1 =? 0) && (o1 =? o2) && negb (d_nonzero (d_sub d1 d2))) as Hc.
  { rewrite (sub_zero d2 d1) by done. destruct (Z.eqb_spec o2 o1) as [->|Hne]; [by rewrite Z.eqb_refl|]. by rewrite (proj2 (Z.eqb_neq o1 o2)), !andb_false_r by congruence. }
  rewrite Hb, Hc. destruct (classify s1 true) as [|l1|dv1], (classify s2 true) as [|l2|dv2]; try (eexists; split; [reflexivity|done]);
    (destruct (negb (o1 =? 0) && (o1 =? o2) && negb (d_nonzero (d_sub d1 d2))); [eexists; split; [reflexivity|done]|]).
  - rewrite !long_cmp_sgn. eexists. split; [reflexivity|]. f_equal. lia.
  - destruct (o2 =? 0); cbn [negb]; eexists; (split; [reflexivity|]); f_equal; [|lia]. apply sub_sign; auto using nan_long, finite_long.
  - destruct (o1 =? 0); cbn [negb]; eexists; (split; [reflexivity|]); f_equal; try lia. apply sub_sign; auto using nan_long, finite_long.
  - assert (d_eq d2 d1 && negb (zend_finite d2) = d_eq d1 d2 && negb (zend_finite d1)) as ->.
    { rewrite (eq_sym d2 d1). destruct (d_eq d1 d2) eqn:E; [|done]. by rewrite (eq_finite _ _ E). }
    destruct (d_eq d1 d2) eqn:E; cbn [andb].
    + destruct (zend_finite d1) eqn:Ef; cbn [negb]; eexists; (split; [reflexivity|]); [|done]. f_equal. apply sub_sign; auto.
    + eexists. split; [reflexivity|]. f_equal. apply sub_sign; auto. left. by rewrite eq_sym.
Qed.

(** ** The other pairs *)

Definition ordered (v : value) : Prop :=
  match v with VDouble d => is_nan d = false | VString s => short s | _ => True end.

Lemma convert_ordered v w : zendi_convert_scalar_to_number v = OK w → ordered v → match v with VArray _ _ => w = v | _ => is_number w ∧ ordered w end.
Proof.
  intros Hv Ho. destruct v as [| | | |s| |]; simpl in Hv; try (injection Hv as <-; done). destruct (prefix_classify s) as (v & o & E & Hr & _). rewrite E in Hv. cbn [obind] in Hv.
  destruct v as [|l|[d|]]; injection Hv as <-; try done. split; [done|]. simpl. destruct Hr as [[x ->]|[h ->]]; [apply nan_strtod|apply nan_hex].
Qed.

Lemma numbers_anti v w : is_number v → is_number w → ordered v → ordered w →
  ∃ r, compare_pair v w = Some (OK (SUCCESS, r)) ∧ compare_pair w v = Some (OK (SUCCESS, - r)).
Proof.
  intros Hv Hw Ho Ho'. destruct v as [| |a|d| | |], w as [| |b|e| | |]; try done; simpl in *; rewrite ?long_cmp_sgn;
    eexists; (split; [reflexivity|]); do 3 f_equal; [lia|apply sub_sign; auto using nan_long, finite_long..|].
  rewrite (eq_sym e d). destruct (d_eq d e) eqn:E; [done|]. apply sub_sign; auto. left. by rewrite eq_sym.
Qed.

Lemma default_anti v w : ordered v → ordered w → (match v, w with VArray _ _, VArray _ _ => False | _, _ => True end) → compare_pair v w = None →
  ∃ r, compare_default v w = OK (SUCCESS, r) ∧ compare_default w v = OK (SUCCESS, - r).
Proof.
  intros Hv Hw Hvw Hp.
  assert (∃ r, (let* v := zendi_convert_scalar_to_number v in let* w := zendi_convert_scalar_to_number w in compare_converted v w) = OK (SUCCESS, r) ∧
    (let* w := zendi_convert_scalar_to_number w in let* v := zendi_convert_scalar_to_number v in compare_converted w v) = OK (SUCCESS, - r)) as Hc.
  { destruct (convert_total v) as (v' & Ev & _), (convert_total w) as (w' & Ew & _). pose proof (convert_ordered _ _ Ev Hv) as Hv'. pose proof (convert_ordered _ _ Ew Hw) as Hw'.
    rewrite Ev, Ew. cbn [obind].
    assert (is_number v' ∧ ordered v' → is_number w' ∧ ordered w' → ∃ r, compare_converted v' w' = OK (SUCCESS, r) ∧ compare_converted w' v' = OK (SUCCESS, - r)) as Hn.
    { intros [] []. destruct (numbers_anti v' w') as (r & E1 & E2); [done..|]. exists r. unfold compare_converted. by rewrite E1, E2. }
    clear Ev Ew Hv Hw Hp. destruct v, w; try done; try (by apply Hn); subst.
    all: (destruct Hv' as [Hv' _] || destruct Hw' as [Hw' _]). all: try destruct v'; try destruct w'; try done; eexists; (split; [reflexivity|done]). }
  destruct v, w; try done; cbn [compare_default]; try exact Hc; eexists; (split; [reflexivity|]); do 2 f_equal; rewrite ?normalize_sgn; try lia; by destruct (_ =? 0).
Qed.

Lemma compare_anti v w : ordered v → ordered w → (match v, w with VArray _ _, VArray _ _ => False | _, _ => True end) →
  ∃ r, compare_function v w = OK (SUCCESS, r) ∧ compare_function w v = OK (SUCCESS, - r).
Proof.
  intros Hv Hw Hvw. rewrite !compare_scalar by (destruct v, w; done). destruct (compare_pair v w) as [o|] eqn:E.
  - assert (is_number v → is_number w → ∃ r, o = OK (SUCCESS, r) ∧ compare_pair w v = Some (OK (SUCCESS, - r))) as Hn.
    { intros Nv Nw. destruct (numbers_anti v w) as (r & E1 & E2); [done..|]. exists r. rewrite E1 in E. by injection E as <-. }
    destruct v as [|a|?|?|s1| |], w as [|a'|?|?|s2| |]; try done; try (destruct Hn as (r & -> & E2); [done..|rewrite E2; by exists r]); clear Hn;
      cbn [compare_pair] in E |- *; injection E as <-.
    1-5: (eexists; split; [reflexivity|]; do 2 f_equal).
    + by destruct a'.
    + by apply (strcmp_anti [] s2).
    + by destruct a.
    + by destruct a, a'.
    + eexists. split; [reflexivity|]. do 2 f_equal. by apply (strcmp_anti s1 []).
    + destruct (smart_anti s1 s2 Hv Hw) as (r & -> & ->). by exists r.
  - assert (compare_pair w v = None) as -> by (destruct v, w; done). by apply default_anti.
Qed.

(** The inline operators are the relational operators. *)
Lemma normalize_zero d : (normalize_double d =? 0) = negb (d_nonzero d).
Proof. unfold normalize_double. destruct (d_nonzero d), (d_pos d); done. Qed.
Lemma normalize_le d : (normalize_double d <=? 0) = negb (d_nonzero d) || (normalize_double d <? 0).
Proof. unfold normalize_double. destruct (d_nonzero d), (d_pos d); done. Qed.

Lemma fast_spec on_long on_double test v w : ordered v → ordered w →
  (∀ a b, on_long a b = test (Z.sgn (a - b))) →
  (∀ d e, is_nan d = false → is_nan e = false → on_double d e = test (if d_eq d e then 0 else normalize_double (d_sub d e))) →
  ∃ b, fast_compare on_long on_double test v w = OK b ∧ relation test v w = OK (SUCCESS, b).
Proof.
  intros Hv Hw Hl Hd. destruct (compare_total v w) as [r Hr]. unfold relation. rewrite Hr. cbn [obind]. exists (test r). split; [|done].
  assert (∀ d e, is_nan d = false → is_nan e = false → zend_finite d = true ∨ zend_finite e = true →
    (if d_eq d e then 0 else normalize_double (d_sub d e)) = normalize_double (d_sub d e)) as Hn.
  { intros d e Nd Ne Hf. destruct (d_eq d e) eqn:E; [|done]. pose proof (eq_sub d e Nd Ne Hf) as Hs. rewrite E in Hs. unfold normalize_double. by destruct (d_nonzero _). }
  destruct v as [| |a|d| | |], w as [| |b|e| | |]; cbn [fast_compare]; rewrite ?Hr; try done; cbn [compare_function compare_pair] in Hr; injection Hr as <-; f_equal.
  - by rewrite Hl, long_cmp_sgn.
  - rewrite Hd, Hn; auto using nan_long, finite_long.
  - rewrite Hd, Hn; auto using nan_long, finite_long.
  - by rewrite Hd.
Qed.
End order.

(** ** Identity *)

Section identity.
Context `{DoubleCmp}.

(** [===]: the same type and contents; arrays with the same keys in the same
    order and identical elements. *)
Inductive identical : value → value → Prop :=
  | id_null : identical VNull VNull
  | id_bool b : identical (VBool b) (VBool b)
  | id_long z : identical (VLong z) (VLong z)
  | id_double d e : d_eq d e = true → identical (VDouble d) (VDouble e)
  | id_string s : identical (VString s) (VString s)
  | id_resource z : identical (VResource z) (VResource z)
  | id_table ht d d' : identical (VArray ht d) (VArray ht d')
  | id_array ht ht' d d' : Forall2 (λ p q, p.1 = q.1 ∧ identical p.2 q.2) d d' → identical (VArray ht d) (VArray ht' d').

(** What a table can hold. *)
Inductive sized : value → Prop :=
  | sized_array ht d : Z.of_nat (length d) < 2 ^ 32 → Forall (λ p, key_sized p.1 ∧ sized p.2) d → sized (VArray ht d)
  | sized_other v : (match v with VArray _ _ => False | _ => True end) → sized v.

Lemma sized_elements ht d : sized (VArray ht d) → Z.of_nat (length d) < 2 ^ 32 ∧ Forall (λ p, key_sized p.1 ∧ sized p.2) d.
Proof. inversion 1; subst; [done|contradiction]. Qed.

Lemma elements_identical d d' :
  Forall (λ p, ∀ w, sized p.2 → sized w → ∃ r, is_identical_function p.2 w = OK r ∧ (r = true ↔ identical p.2 w)) d →
  Forall (λ p, key_sized p.1 ∧ sized p.2) d → Forall (λ p, key_sized p.1 ∧ sized p.2) d' → length d = length d' →
  ∃ r, delems_compare (λ v w, hash_zval_identical_function is_identical_function v w) true d d' = OK r ∧
    (r = 0 ↔ Forall2 (λ p q, p.1 = q.1 ∧ identical p.2 q.2) d d').
Proof.
  intros HI. revert d'. induction HI as [|[k v] d Hv HI IH]; intros [|[k' v'] d'] Hd Hd' Hl; try done; cbn [delems_compare].
  { exists 0. split; [done|]. split; [constructor|done]. }
  apply Forall_cons in Hd as [[Hk Hsv] Hd], Hd' as [[Hk' Hsv'] Hd']. simpl in *. destruct (Hv v' Hsv Hsv') as (r & Er & Hr). pose proof (key_order_zero k k' Hk Hk') as Hko.
  destruct (Z.eqb_spec (key_order k k') 0) as [E|E].
  - unfold hash_zval_identical_function at 1. rewrite Er. cbn [obind]. destruct r; cbn [negb long_of_bool Z.eqb].
    + destruct (IH d' Hd Hd') as (r' & -> & Hr'); [lia|]. exists r'. split; [done|]. rewrite Hr', Forall2_cons. simpl. tauto.
    + exists 1. split; [done|]. rewrite Forall2_cons. simpl. split; [done|]. intros [[_ Hid] _]. by apply Hr in Hid.
  - cbn [obind]. rewrite (proj2 (Z.eqb_neq _ _) E). exists (key_order k k'). split; [done|]. rewrite Forall2_cons. simpl. tauto.
Qed.

Lemma identical_total v : ∀ w, ∃ r, is_identical_function v w = OK r.
Proof.
  induction v as [| | | | | |ht d IH] using value_induction; intros w; [by destruct w; eexists..|].
  destruct w as [| | | | |ht' d'|]; try by eexists. cbn [is_identical_function]. case_decide; [eauto|].
  destruct (dcompare_total (λ v w, hash_zval_identical_function is_identical_function v w) true d d') as [r Hr]; [|rewrite Hr; simpl; eauto].
  eapply Forall_impl; [exact IH|]. intros [k v] Hv w. destruct (Hv w) as [r E]. unfold hash_zval_identical_function. simpl in *. rewrite E. simpl. eauto.
Qed.

Lemma identical_spec v : ∀ w, sized v → sized w → ∃ r, is_identical_function v w = OK r ∧ (r = true ↔ identical v w).
Proof.
  induction v as [| | | | | |ht d IH] using value_induction; intros w Hv Hw.
  1-6: destruct w; cbn [is_identical_function]; eexists; (split; [reflexivity|]).
  all: try (split; [done|by inversion 1]).
  - split; [intros _; constructor|done].
  - rewrite eqb_true_iff. split; [intros ->; constructor|by inversion 1].
  - rewrite Z.eqb_eq. split; [intros ->; constructor|by inversion 1].
  - split; [by constructor|by inversion 1].
  - rewrite andb_true_iff, Nat.eqb_eq, Z.eqb_eq. split; [|inversion 1; subst; split; [done|by apply memcmp_zero]].
    intros [Hl Hm]. apply memcmp_zero in Hm; [|lia..]. rewrite !take_ge in Hm by lia. subst. constructor.
  - rewrite Z.eqb_eq. split; [intros ->; constructor|by inversion 1].
  - destruct w as [| | | | |ht' d'|]; cbn [is_identical_function]; try (exists false; split; [done|split; [done|by inversion 1]]).
    apply sized_elements in Hv as [Hl Hv], Hw as [Hl' Hw]. case_decide as Hht; [subst ht'; exists true; split; [done|]; split; [intros _; apply id_table|done]|].
    assert (∃ r, dcompare (λ v w, hash_zval_identical_function is_identical_function v w) true d d' = OK r ∧
      (r = 0 ↔ Forall2 (λ p q, p.1 = q.1 ∧ identical p.2 q.2) d d')) as (r & -> & Hr).
    { unfold dcompare. destruct (Z.eqb_spec (to_int (Z.of_nat (length d) - Z.of_nat (length d'))) 0) as [E|E].
      - apply to_int_zero in E; [|lia]. apply elements_identical; [|done..|lia]. eapply Forall_impl; [exact IH|]. naive_solver.
      - eexists. split; [reflexivity|]. split; [done|]. intros Hf%Forall2_length. by rewrite Hf, Z.sub_diag in E. }
    cbn [obind]. eexists. split; [reflexivity|]. rewrite Z.eqb_eq, Hr. split; [apply id_array|]. by inversion 1.
Qed.
End identity.

(** * The properties *)

(** C37: [is_numeric_string_ex] reads a string to its end without leaving it and
    accepts exactly the numbers of the grammar: white space, then 0x with
    hexadecimal digits, or a sign, digits, a fraction and an exponent; an
    integer is a long with its exact value when it fits, with [oflow_info]
    saying on which side it does not, and a double otherwise; the type is the
    same whether the caller asks for the double or not.  When errors are
    allowed and the caller asks for the double, the number is the one the string
    begins with, with two exceptions, both of 19 digits behind the leading
    zeros: an e with a sign but no digits behind them, and the digits
    9223372036854775808 with text behind them (see [numeric_defects]). *)
Theorem numeric_string_exact `{DoubleCmp} (b : list Z) (has_dval : bool) :
  (∃ oflow, is_numeric_string_ex (b ++ [0]) (length b) has_dval 0 = OK (classify b has_dval, oflow, false) ∧
    (integer_form (number_text b) = true → oflow = if fits_long (integer_value (number_text b)) then 0 else number_sign (number_text b))) ∧
  ∃ v oflow, is_numeric_string_ex (b ++ [0]) (length b) true 1 = OK (v, oflow, false) ∧
    (hex_form (number_text b) = true ∨ integer_digits b ≠ 19%nat ∨
     (stray_exponent (behind_digits b) = false ∧ (behind_digits b = [] ∨ Z.abs (integer_value (number_text b)) ≠ 2 ^ 63)) →
     v = numeric_prefix b).
Proof. split; [apply numeric_classify|]. destruct (prefix_classify b) as (v & o & Hr & _ & Hv). by exists v, o. Qed.

(** C38: [compare_function] returns SUCCESS on every two values.  Exchanging the
    operands changes the sign of the result, unless both are arrays or one is
    a NaN or a string of 2^31 bytes or more.  Strings that are integers, one of them in the range of a long,
    compare as integers, and a string that is no number compares bytewise.  The
    inline comparisons agree with the functions where no operand is a NaN. *)
Theorem compare_function_correct `{DoubleOrder} (v w : value) :
  (∃ r, compare_function v w = OK (SUCCESS, r)) ∧
  (ordered v → ordered w → (match v, w with VArray _ _, VArray _ _ => False | _, _ => True end) →
    ∃ r, compare_function v w = OK (SUCCESS, r) ∧ compare_function w v = OK (SUCCESS, - r)) ∧
  (∀ s1 s2, let t1 := number_text s1 in let t2 := number_text s2 in v = VString s1 → w = VString s2 →
    (integer_form t1 = true → integer_form t2 = true → fits_long (integer_value t1) || fits_long (integer_value t2) = true →
      compare_function v w = OK (SUCCESS, Z.sgn (integer_value t1 - integer_value t2))) ∧
    (classify s1 true = NotNumeric ∨ classify s2 true = NotNumeric →
      compare_function v w = OK (SUCCESS, Z.sgn (zend_binary_strcmp false s1 s2)))) ∧
  (ordered v → ordered w →
    (∃ b, fast_equal_function v w = OK b ∧ is_equal_function v w = OK (SUCCESS, b)) ∧
    (∃ b, fast_not_equal_function v w = OK b ∧ is_not_equal_function v w = OK (SUCCESS, b)) ∧
    (∃ b, fast_is_smaller_function v w = OK b ∧ is_smaller_function v w = OK (SUCCESS, b)) ∧
    (∃ b, fast_is_smaller_or_equal_function v w = OK b ∧ is_smaller_or_equal_function v w = OK (SUCCESS, b))).
Proof.
  split; [apply compare_total|]. split; [apply compare_anti|]. split.
  - intros s1 s2 t1 t2 -> ->. cbn [compare_function compare_pair]. split; intros; [by rewrite (smart_integers s1 s2)|by rewrite smart_bytes].
  - intros Hv Hw. split_and!; apply fast_spec; try done.
    + intros a b. destruct (Z.eqb_spec a b), (Z.eqb_spec (Z.sgn (a - b)) 0); lia.
    + intros d e Nd Ne. destruct (d_eq d e) eqn:E; [done|]. by rewrite normalize_zero, eq_nonzero.
    + intros a b. destruct (Z.eqb_spec a b), (Z.eqb_spec (Z.sgn (a - b)) 0); simpl; lia.
    + intros d e Nd Ne. destruct (d_eq d e) eqn:E; [done|]. by rewrite normalize_zero, eq_nonzero.
    + intros a b. destruct (Z.ltb_spec a b), (Z.ltb_spec (Z.sgn (a - b)) 0); lia.
    + intros d e Nd Ne. rewrite lt_sub by done. by destruct (d_eq d e).
    + intros a b. destruct (Z.leb_spec a b), (Z.leb_spec (Z.sgn (a - b)) 0); lia.
    + intros d e Nd Ne. rewrite le_sub by done. destruct (d_eq d e) eqn:E; [done|]. by rewrite normalize_le, eq_nonzero.
Qed.

(** C40: [is_identical_function] decides identity: the same type and contents,
    for arrays the same keys in the same order with identical elements, or
    the same table. *)
Theorem identical_exact `{DoubleCmp} (v w : value) : sized v → sized w → ∃ r, is_identical_function v w = OK r ∧ (r = true ↔ identical v w).
Proof. apply identical_spec. Qed.

(** The [int] of a comparison callback. *)
Definition int_of (o : outcome Z) : Z := match o with OK r => r | _ => 0 end.

Section tables.
Context `{DoubleCmp} `{PEMalloc} (pool : positive → list Z).

Lemma delems_ext {V W} (f g : V → W → outcome Z) b d1 d2 : (∀ v w, f v w = g v w) → delems_compare f b d1 d2 = delems_compare g b d1 d2.
Proof.
  intros Hfg. revert d2. induction d1 as [|[k v] d1 IH]; intros d2; [done|]. cbn [delems_compare]. destruct b.
  - destruct d2 as [|[k2 w] d2]; [done|]. rewrite Hfg. cbv zeta. destruct (if key_order k k2 =? 0 then _ else _) as [r| |]; [|done..]. cbn [obind tl]. by rewrite IH.
  - destruct (dlookup k d2) as [w|]; [|done]. rewrite Hfg. destruct (g v w) as [r| |]; [|done..]. cbn [obind]. by rewrite IH.
Qed.

(** C39: On two arrays [compare_function] and [is_identical_function] are
    [zend_hash_compare] on their tables, whatever collides in them, with the
    function itself comparing the elements: first the number of elements,
    then element by element, under the same key or at the same place. *)
Theorem arrays_compare_refine (m : mem value) ht1 ht2 l1 d1 l2 d2 a1 a2 :
  Rep pool m ht1 l1 d1 → Rep pool m ht2 l2 d2 → a1 ≠ a2 →
  0 <= nApplyCount ht1 < 3 → 0 <= nApplyCount ht2 < 3 →
  (∃ r, zend_hash_compare m ht1 ht2 (λ v w, int_of (hash_zval_compare_function compare_function v w)) false = OK (r, ht1, ht2) ∧
    compare_function (VArray a1 d1) (VArray a2 d2) = OK (SUCCESS, r)) ∧
  (∃ r, zend_hash_compare m ht1 ht2 (λ v w, int_of (hash_zval_identical_function is_identical_function v w)) true = OK (r, ht1, ht2) ∧
    is_identical_function (VArray a1 d1) (VArray a2 d2) = OK (r =? 0)).
Proof.
  intros HR1 HR2 Ha Hn1 Hn2.
  assert (∀ (f : value → value → outcome Z) ordered, (∀ v w, ∃ r, f v w = OK r) →
    ∃ r, zend_hash_compare m ht1 ht2 (λ v w, int_of (f v w)) ordered = OK (r, ht1, ht2) ∧ dcompare f ordered d1 d2 = OK r) as Hcmp.
  { intros f o Hf. rewrite (hash_compare_spec pool _ o _ _ _ _ _ _ _ HR1 HR2) by lia.
    assert (too_deep ht1 || too_deep ht2 = false) as -> by (unfold too_deep; rewrite (proj2 (Z.leb_gt 3 (nApplyCount ht1))), (proj2 (Z.leb_gt 3 (nApplyCount ht2))), !andb_false_r by lia; done).
    destruct (dcompare_total f o d1 d2) as [r Hr]; [by apply Forall_true; intros [k v]; apply Hf|]. exists r. split; [|done].
    assert (dcompare (λ v w, OK (int_of (f v w))) o d1 d2 = OK r) as ->; [|done]. rewrite <- Hr. unfold dcompare. cbv zeta. destruct (_ =? 0); [|done].
    apply delems_ext. intros v w. by destruct (Hf v w) as [r' ->]. }
  split.
  - destruct (Hcmp (hash_zval_compare_function compare_function) false) as (r & Hz & Hd).
    { intros v w. unfold hash_zval_compare_function. destruct (compare_total v w) as [r ->]. simpl. eauto. }
    exists r. split; [done|]. cbn [compare_function]. rewrite decide_False by done.
    by rewrite (Hd : dcompare (λ v w, hash_zval_compare_function compare_function v w) false d1 d2 = OK r).
  - destruct (Hcmp (hash_zval_identical_function is_identical_function) true) as (r & Hz & Hd).
    { intros v w. unfold hash_zval_identical_function. destruct (identical_total v w) as [r ->]. simpl. eauto. }
    exists r. split; [done|]. cbn [is_identical_function]. rewrite decide_False by done.
    by rewrite (Hd : dcompare (λ v w, hash_zval_identical_function is_identical_function v w) true d1 d2 = OK r).
Qed.
End tables.

(** * Examples *)

Definition bytes (s : string) : list Z := map (λ c, Z.of_nat (nat_of_ascii c)) (list_ascii_of_string s).

(** Integers for doubles: every law of [DoubleOrder] holds. *)
Definition int_double : Double :=
  {| double := Z; d_of_long z := z; d_add := Z.add; d_sub := Z.sub; d_mul := Z.mul; d_div := Z.quot; d_is_zero z := z =? 0 |}.
Definition int_cmp : @DoubleCmp int_double :=
  @Build_DoubleCmp int_double (λ z : Z, negb (z =? 0)) Z.eqb Z.ltb Z.leb (λ z, 0 <? z) (λ _, true) (λ s, integer_value (number_text s)).
Definition int_order : @DoubleOrder int_double int_cmp.
Proof.
  refine (@Build_DoubleOrder int_double int_cmp (λ _, false) _ _ _ _ _ _ _ _ _ _ _ _); try done.
  - intros d e. apply Z.eqb_sym.
  - intros d e _ _. simpl. destruct (Z.eqb_spec (d - e) 0), (Z.eqb_spec (e - d) 0); done || lia.
  - intros d e _ _ _. unfold normalize_double. simpl. destruct (Z.eqb_spec (d - e) 0), (Z.eqb_spec (e - d) 0), (Z.ltb_spec 0 (d - e)), (Z.ltb_spec 0 (e - d)); simpl; lia.
  - intros d e _ _ _. simpl. destruct (Z.eqb_spec d e), (Z.eqb_spec (d - e) 0); done || lia.
  - intros d e _ _. simpl. intros ?%Z.eqb_neq. destruct (Z.eqb_spec (d - e) 0); [lia|done].
  - intros d e _ _. unfold normalize_double. simpl. destruct (Z.eqb_spec d e), (Z.eqb_spec (d - e) 0), (Z.ltb_spec 0 (d - e)), (Z.ltb_spec d e); simpl; done || lia.
  - intros d e _ _. unfold normalize_double. simpl. destruct (Z.eqb_spec d e), (Z.eqb_spec (d - e) 0), (Z.ltb_spec 0 (d - e)), (Z.leb_spec d e); simpl; done || lia.
Defined.

(** Binary64, with the nearest double for a string that begins with an
    integer. *)
Definition binary64 : Double :=
  {| double := spec_float; d_of_long z := binary_normalize 53 1024 z 0 false; d_add := SFadd 53 1024; d_sub := SFsub 53 1024;
     d_mul := SFmul 53 1024; d_div := SFdiv 53 1024; d_is_zero d := match d with S754_zero _ => true | _ => false end |}.
Definition binary64_cmp : @DoubleCmp binary64 :=
  @Build_DoubleCmp binary64 (λ d : spec_float, match d with S754_zero _ => false | _ => true end) SFeqb SFltb SFleb
    (λ d, match d with S754_finite false _ _ | S754_infinity false => true | _ => false end)
    (λ d, match d with S754_infinity _ | S754_nan => false | _ => true end)
    (λ s, binary_normalize 53 1024 (integer_value (number_text s)) 0 (number_sign (number_text s) =? -1)).

Section binary64.
#[local] Existing Instance binary64.
#[local] Existing Instance binary64_cmp.
(** The type found, with the value of a long, and [oflow_info]. *)
Inductive reading := NoNumber | ALong (lval : Z) | ADouble.
Definition read (s : string) (has_dval : bool) (allow_errors : Z) : outcome (reading * Z) :=
  let* (v, oflow, _) := is_numeric_string_ex (bytes s ++ [0]) (length (bytes s)) has_dval allow_errors in
  OK (match v with NotNumeric => NoNumber | NumLong lval => ALong lval | NumDouble _ => ADouble end, oflow).

(** Numbers that do not fit a long, and text behind a number.  Negative
    integers below LONG_MIN with the same double compare in the wrong order,
    equal ones written with and without a leading zero, or equal decimals, as
    different.  With [allow_errors] the e of an invalid exponent with a sign
    moves the 19 digits that are checked by one, so that 9.3e18 is cut to
    LONG_MAX and a number that fits becomes a double; so does LONG_MIN with
    text behind it.  [oflow_info] is set for a decimal that is no integer,
    and differs with and without [dval].  A NaN is smaller than any number and
    any number smaller than it for [compare_function], but not inline. *)
Theorem numeric_defects :
  zendi_smart_strcmp (bytes "-9223372036854775810") (bytes "-9223372036854775809") = OK 1 ∧
  zendi_smart_strcmp (bytes "9223372036854775808") (bytes "09223372036854775808") = OK 1 ∧
  zendi_smart_strcmp (bytes "12345678901234567890.5") (bytes "12345678901234567890.50") = OK (-1) ∧
  read "9300000000000000000e-x" true 1 = OK (ALong LONG_MAX, 0) ∧
  read "1922337203685477580e-x" true 1 = OK (ADouble, 1) ∧
  read "1922337203685477580e" true 1 = OK (ALong 1922337203685477580, 0) ∧
  read "-9223372036854775808x" true 1 = OK (ADouble, -1) ∧
  read "-9223372036854775808" true 1 = OK (ALong LONG_MIN, 0) ∧
  read "1.2345678901234567890123" true 0 = OK (ADouble, 0) ∧
  read "1.2345678901234567890123" false 0 = OK (ADouble, 1) ∧
  fast_is_smaller_function (VDouble S754_nan) (VLong 1) = OK false ∧
  is_smaller_function (VDouble S754_nan) (VLong 1) = OK (SUCCESS, true) ∧ is_smaller_function (VLong 1) (VDouble S754_nan) = OK (SUCCESS, true).
Proof. vm_compute. repeat split. Qed.
End binary64.

Section witnesses.
#[local] Existing Instance int_double.
#[local] Existing Instance int_cmp.
#[local] Existing Instance int_order.

Lemma numeric_string_exact_witness :
  is_numeric_string_ex (bytes " -0012" ++ [0]) 6 true 0 = OK (NumLong (-12), 0, false) ∧
  (∃ o, is_numeric_string_ex (bytes "42 apples" ++ [0]) 9 true 1 = OK (NumLong 42, o, false)) ∧
  ∃ o, is_numeric_string_ex (bytes "-9223372036854775807 apples" ++ [0]) 27 true 1 = OK (NumLong (-9223372036854775807), o, false).
Proof.
  destruct (numeric_string_exact (bytes " -0012") true) as ((o & Hr & Ho) & _).
  destruct (numeric_string_exact (bytes "42 apples") true) as (_ & v & o' & Hr' & Hv).
  destruct (numeric_string_exact (bytes "-9223372036854775807 apples") true) as (_ & v2 & o2 & Hr2 & Hv2). split; [|split].
  - rewrite Ho in Hr by reflexivity. exact Hr.
  - exists o'. rewrite Hv in Hr' by (right; left; vm_compute; discriminate). exact Hr'.
  - exists o2. rewrite Hv2 in Hr2 by (right; right; split; [reflexivity|right; vm_compute; discriminate]). exact Hr2.
Defined.

Lemma compare_function_correct_witness :
  compare_function (VString (bytes "10")) (VString (bytes "9")) = OK (SUCCESS, 1) ∧
  ∃ r, compare_function (VString (bytes "1e1")) (VLong 7) = OK (SUCCESS, r) ∧
    compare_function (VLong 7) (VString (bytes "1e1")) = OK (SUCCESS, - r).
Proof.
  split.
  - destruct (compare_function_correct (VString (bytes "10")) (VString (bytes "9"))) as (_ & _ & Hs & _).
    destruct (Hs _ _ eq_refl eq_refl) as [Hi _]. exact (Hi eq_refl eq_refl eq_refl).
  - destruct (compare_function_correct (VString (bytes "1e1")) (VLong 7)) as (_ & Ha & _).
    apply Ha; [vm_compute; reflexivity|exact I|exact I].
Defined.

Lemma identical_exact_witness :
  let v := VArray 1 [(KStr [97; 0], VString (bytes "1")); (KIdx 5, VNull)] in
  let w := VArray 2 [(KStr [97; 0], VString (bytes "1")); (KIdx 5, VNull)] in
  ∃ r, is_identical_function v w = OK r ∧ (r = true ↔ identical v w).
Proof.
  assert (∀ a, sized (VArray a [(KStr [97; 0], VString (bytes "1")); (KIdx 5, VNull)])) as Hs.
  { intros a. constructor; [reflexivity|]. repeat constructor. }
  exact (identical_exact _ _ (Hs 1%positive) (Hs 2%positive)).
Defined.
End witnesses.

Section table.
#[local] Existing Instance int_double.
#[local] Existing Instance int_cmp.
#[local] Existing Instance bump_malloc.

(** [["a" => "1"]] and the empty array. *)
Definition ex_empty : HashTable := zend_hash_init 0 true false.
Definition ex_key : zstr := ZStr (Foreign 1) [97; 0].
Definition ex_dict : list (akey * value) := [(KStr [97; 0], VString [49])].
Definition ex_table : outcome (mem value * HashTable) :=
  let* (_, _, m, ht) := _zend_hash_add_or_update (mkMem ∅ []) ex_empty ex_key 2 (VString [49]) 8 HASH_ADD in OK (m, ht).

Lemma ex_table_rep pool : ∃ m ht l, ex_table = OK (m, ht) ∧ Rep pool m ht l ex_dict ∧ Rep pool m ex_empty [] [].
Proof.
  assert (∀ m : mem value, Rep pool m ex_empty [] []) as HR by (intros m; by apply init_spec).
  pose proof (add_or_update_spec pool (mkMem ∅ []) ex_empty [] [] ex_key 2 (VString [49]) 8 HASH_ADD (HR _)) as Hins.
  destruct Hins as (p & m & ht & l & Hr & _ & Hu); [by split_and!|done|]. exists m, ht, l. unfold ex_table. rewrite Hr. split; [done|]. split; [apply Hu|apply HR].
Qed.

Lemma arrays_compare_refine_witness :
  ∃ m ht1 ht2 r, ex_table = OK (m, ht1) ∧
    zend_hash_compare m ht1 ht2 (λ v w, int_of (hash_zval_compare_function compare_function v w)) false = OK (r, ht1, ht2) ∧
    compare_function (VArray 1 ex_dict) (VArray 2 []) = OK (SUCCESS, r).
Proof.
  destruct (ex_table_rep (λ _, [])) as (m & ht & l & Hrun & HR & HE). exists m, ht, ex_empty.
  assert (nApplyCount ht = 0) as Hn by (vm_compute in Hrun; injection Hrun as <- <-; reflexivity).
  destruct (arrays_compare_refine (λ _, []) m ht ex_empty l ex_dict [] [] 1 2 HR HE) as [(r & Hz & Hc) _]; [discriminate|lia|vm_compute; split; congruence|].
  exists r. split; [exact Hrun|]. split; [exact Hz|exact Hc].
Defined.
End table.
