(* ===== verification/TrialDeletion.v ===== *)
(** Trial deletion, the algorithm of Zend/zend_gc.c, on any graph with
    reference counts: marking grey, scanning, and collecting white, each as an
    inductive relation between the states before and after.  The relations
    leave open how the state is stored; ZendGc runs them on zvals, objects and
    hash tables.

    Reference counts are 32-bit: the relations and their specifications are
    stated modulo 2^32, and become exact where the counts are known to fit. *)

From stdpp Require Import relations.
From S2P Require Import Prelude.

(** GC_BLACK: in use; GC_WHITE: garbage; GC_GREY: counted; GC_PURPLE: in the
    buffer of possible roots. *)
Inductive gc_color := GC_BLACK | GC_WHITE | GC_GREY | GC_PURPLE.
#[export] Instance gc_color_eq_dec : EqDecision gc_color.
Proof. solve_decision. Defined.

(** Equality of machine words. *)
Definition eqm (a b : Z) : Prop := uint_wrap a = uint_wrap b.

Lemma eqm_refl a : eqm a a.
Proof. done. Qed.
Lemma eqm_wrap a : eqm (uint_wrap a) a.
Proof. unfold eqm, uint_wrap. by rewrite Z.mod_mod by lia. Qed.
Lemma eqm_exact a b : is_uint a → is_uint b → eqm a b → a = b.
Proof. intros Ha Hb He. unfold eqm in He. by rewrite !uint_wrap_id in He. Qed.

#[export] Instance eqm_equiv : Equivalence eqm.
Proof. unfold eqm. split; congruence. Qed.
#[export] Instance eqm_add : Proper (eqm ==> eqm ==> eqm) Z.add.
Proof.
  intros a a' Ha b b' Hb. unfold eqm, uint_wrap in *. by rewrite Z.add_mod, Ha, Hb, <- Z.add_mod by lia.
Qed.
#[export] Instance eqm_sub : Proper (eqm ==> eqm ==> eqm) Z.sub.
Proof. intros a a' Ha b b' Hb. unfold eqm, uint_wrap in *. by rewrite Zminus_mod, Ha, Hb, <- Zminus_mod. Qed.

Lemma eqm_step a b c : eqm a b → b = c → eqm a c.
Proof. by intros ? ->. Qed.

(** * Edges *)

Section edges.
Context {N : Type} `{EqDecision N} (succ : N → list N).
Implicit Types (x y n : N) (l ns : list N).

(** How often [x] occurs among the successors of the nodes [ns]. *)
Fixpoint occs x l : Z := match l with [] => 0 | y :: l => (if decide (x = y) then 1 else 0) + occs x l end.
Fixpoint edges ns x : Z := match ns with [] => 0 | n :: ns => occs x (succ n) + edges ns x end.

Lemma occs_nonneg x l : 0 <= occs x l.
Proof. induction l; simpl; [lia|case_decide; lia]. Qed.

Lemma occs_app x l1 l2 : occs x (l1 ++ l2) = occs x l1 + occs x l2.
Proof. induction l1; simpl; lia. Qed.

Lemma occs_pos x l : 0 < occs x l ↔ x ∈ l.
Proof.
  induction l as [|y l IH]; simpl; [split; [lia|by intros ?%not_elem_of_nil]|].
  rewrite elem_of_cons, <- IH. pose proof (occs_nonneg x l). case_decide; split; intros; try lia; naive_solver lia.
Qed.

Lemma edges_nonneg ns x : 0 <= edges ns x.
Proof. induction ns; simpl; [lia|]. pose proof (occs_nonneg x (succ a)). lia. Qed.

Lemma edges_app ns1 ns2 x : edges (ns1 ++ ns2) x = edges ns1 x + edges ns2 x.
Proof. induction ns1; simpl; lia. Qed.

Lemma edges_pos ns x : 0 < edges ns x ↔ ∃ n, n ∈ ns ∧ x ∈ succ n.
Proof.
  induction ns as [|n ns IH]; simpl; [split; [lia|by intros (?&?%not_elem_of_nil&?)]|].
  pose proof (occs_nonneg x (succ n)). pose proof (edges_nonneg ns x). split.
  - intros Hp. destruct (decide (0 < occs x (succ n))) as [Ho|Ho].
    + exists n. rewrite occs_pos in Ho. set_solver.
    + destruct (proj1 IH ltac:(lia)) as (m & ? & ?). exists m. set_solver.
  - intros (m & [->|Hm]%elem_of_cons & Hx); [apply occs_pos in Hx; lia|]. assert (0 < edges ns x); [|lia]. apply IH. eauto.
Qed.

Lemma edges_zero ns x : edges ns x = 0 → ∀ n, n ∈ ns → x ∉ succ n.
Proof. intros He n Hn Hx. assert (0 < edges ns x); [|lia]. apply edges_pos. eauto. Qed.

#[export] Instance edges_perm : Proper ((≡ₚ) ==> eq ==> eq) edges.
Proof. intros l1 l2 Hp x ? <-. induction Hp; simpl; lia. Qed.

(** The edges that leave those nodes of [ns] that satisfy [P]. *)
Lemma edges_filter (P : N → Prop) `{∀ n, Decision (P n)} ns x :
  edges ns x = edges (filter P ns) x + edges (filter (λ n, ¬ P n) ns) x.
Proof.
  induction ns as [|n ns IH]; [done|]. rewrite !filter_cons. simpl. destruct (decide (P n)), (decide (¬ P n)); simpl; try done; lia.
Qed.

Lemma edges_filter_add (P Q : N → Prop) `{∀ n, Decision (P n)} `{∀ n, Decision (Q n)} G bs x :
  NoDup G → NoDup bs → (∀ n, n ∈ bs → n ∈ G ∨ succ n = []) → (∀ n, n ∈ bs → ¬ P n) →
  (∀ n, n ∈ G → Q n ↔ P n ∨ n ∈ bs) →
  edges (filter Q G) x = edges (filter P G) x + edges bs x.
Proof.
  intros HG Hbs Hsub Hnew HQ.
  assert (edges bs x = edges (filter (λ n, n ∈ G) bs) x) as ->.
  { clear Hbs Hnew HQ. induction bs as [|n bs IH]; [done|]. rewrite filter_cons. simpl.
    rewrite IH by set_solver. case_decide; simpl; [done|]. destruct (Hsub n ltac:(set_solver)) as [?| ->]; [done|]. done. }
  rewrite <- edges_app. apply edges_perm; [|done]. apply NoDup_Permutation.
  - by apply NoDup_filter.
  - apply NoDup_app. split; [by apply NoDup_filter|]. split; [|by apply NoDup_filter].
    intros n [? ?]%list_elem_of_filter [? ?]%list_elem_of_filter. naive_solver.
  - intros n. rewrite elem_of_app, !list_elem_of_filter. specialize (HQ n). naive_solver.
Qed.

(** Reachability. *)
Definition step n m : Prop := m ∈ succ n.
Abbreviation reach := (rtc step).

(** A property of [x] that holds further along every edge holds wherever one
    can get from [x]. *)
Lemma reach_closed (P : N → Prop) x y : (∀ a b, P a → b ∈ succ a → P b) → P x → reach x y → P y.
Proof. intros Hc Hx Hr. induction Hr as [|a b c Hs _ IH]; [done|]. apply IH. by eapply Hc. Qed.
End edges.

(** * The three traversals as relations *)

Section relations.
Context {N S : Type} `{EqDecision N}.
(** The graph: fixed while the collector runs.  A pinned node (the symbol
    table) is never counted and has no successors of its own. *)
Context (succ : N → list N) (pinned : N → bool).
(** What a state says of a node: its reference count and its colour. *)
Context (rc : S → N → Z) (col : S → N → gc_color).
Implicit Types (s : S) (n m x y : N) (ns : list N).

Abbreviation edges := (edges succ).
Abbreviation reach := (rtc (step succ)).

(** [n] gets the colour [c]. *)
Definition recolor n c s s' : Prop :=
  (∀ x, rc s' x = rc s x) ∧ (∀ x, col s' x = if decide (x = n) then c else col s x).

(** The count of [n] changes by [d], unless [n] is pinned. *)
Definition count n (d : Z) s s' : Prop :=
  (∀ x, rc s' x = if decide (x = n) then (if pinned n then rc s x else uint_wrap (rc s x + d)) else rc s x) ∧
  (∀ x, col s' x = col s x).

(** Marking: [ns] are the nodes that turn grey. *)
Inductive mark : N → S → list N → S → Prop :=
  | mark_grey n s : col s n = GC_GREY → mark n s [] s
  | mark_pinned n s s' : col s n ≠ GC_GREY → pinned n = true → recolor n GC_BLACK s s' → mark n s [] s'
  | mark_new n s s0 ns s' :
      col s n ≠ GC_GREY → pinned n = false → recolor n GC_GREY s s0 → mark_list (succ n) s0 ns s' →
      mark n s (n :: ns) s'
with mark_list : list N → S → list N → S → Prop :=
  | mark_nil s : mark_list [] s [] s
  | mark_cons m l s s1 ns1 s2 ns2 s3 :
      count m (-1) s s1 → mark m s1 ns1 s2 → mark_list l s2 ns2 s3 → mark_list (m :: l) s (ns1 ++ ns2) s3.

Scheme mark_mut := Induction for mark Sort Prop
  with mark_list_mut := Induction for mark_list Sort Prop.
Combined Scheme mark_both from mark_mut, mark_list_mut.

(** Scanning black: [ns] are the nodes that turn black. *)
Inductive sblack : N → S → list N → S → Prop :=
  | sblack_node n s s0 ns s' :
      col s n ≠ GC_BLACK → recolor n GC_BLACK s s0 → sblack_list (succ n) s0 ns s' → sblack n s (n :: ns) s'
with sblack_list : list N → S → list N → S → Prop :=
  | sblack_nil s : sblack_list [] s [] s
  | sblack_old m l s s1 ns s2 :
      count m 1 s s1 → col s1 m = GC_BLACK → sblack_list l s1 ns s2 → sblack_list (m :: l) s ns s2
  | sblack_cons m l s s1 ns1 s2 ns2 s3 :
      count m 1 s s1 → sblack m s1 ns1 s2 → sblack_list l s2 ns2 s3 → sblack_list (m :: l) s (ns1 ++ ns2) s3.

Scheme sblack_mut := Induction for sblack Sort Prop
  with sblack_list_mut := Induction for sblack_list Sort Prop.
Combined Scheme sblack_both from sblack_mut, sblack_list_mut.

(** Scanning. *)
Inductive scan : N → S → S → Prop :=
  | scan_done n s : col s n ≠ GC_GREY → scan n s s
  | scan_live n s ns s' : col s n = GC_GREY → 0 < rc s n → sblack n s ns s' → scan n s s'
  | scan_white n s s0 s' :
      col s n = GC_GREY → rc s n <= 0 → recolor n GC_WHITE s s0 → scan_list (succ n) s0 s' → scan n s s'
with scan_list : list N → S → S → Prop :=
  | scan_nil s : scan_list [] s s
  | scan_cons m l s s1 s2 : scan m s s1 → scan_list l s1 s2 → scan_list (m :: l) s s2.

Scheme scan_mut := Induction for scan Sort Prop
  with scan_list_mut := Induction for scan_list Sort Prop.
Combined Scheme scan_both from scan_mut, scan_list_mut.

(** ** Marking *)

(** What marking [ns] has done. *)
Record marked ns (es : N → Z) s s' : Prop := {
  mk_nodup : NoDup ns;
  mk_fresh : ∀ x, x ∈ ns → col s x ≠ GC_GREY ∧ pinned x = false;
  mk_col : ∀ x, pinned x = false → col s' x = if decide (x ∈ ns) then GC_GREY else col s x;
  mk_pin : ∀ x, pinned x = true → col s' x = col s x ∨ col s' x = GC_BLACK;
  mk_rc : ∀ x, pinned x = false → eqm (rc s' x) (rc s x - es x);
  mk_pin_rc : ∀ x, pinned x = true → rc s' x = rc s x;
}.

Lemma marked_keeps ns es s s' x : marked ns es s s' → pinned x = false → col s x = GC_GREY → col s' x = GC_GREY.
Proof. intros [] Hp Hx. rewrite mk_col0 by done. by case_decide. Qed.

Lemma count_rc m d s s1 x : count m d s s1 → pinned x = false →
  eqm (rc s1 x) (rc s x + (if decide (x = m) then d else 0)).
Proof.
  intros [Hr _] Hp. rewrite Hr. case_decide as He; [|by rewrite Z.add_0_r]. rewrite <- He, Hp. apply eqm_wrap.
Qed.

Lemma count_pin m d s s1 x : count m d s s1 → pinned x = true → rc s1 x = rc s x.
Proof. intros [Hr _] Hp. rewrite Hr. case_decide; [|done]. subst. by rewrite Hp. Qed.

Lemma marked_app ns1 ns2 s1 s2 s3 :
  marked ns1 (edges ns1) s1 s2 → marked ns2 (edges ns2) s2 s3 → marked (ns1 ++ ns2) (edges (ns1 ++ ns2)) s1 s3.
Proof.
  intros M M'.
  assert (∀ x, x ∈ ns1 → x ∉ ns2) as Hdisj.
  { intros x Hx1 Hx2. destruct (mk_fresh _ _ _ _ M' x Hx2) as [Hg Hp]. rewrite (mk_col _ _ _ _ M) in Hg by done.
    by rewrite decide_True in Hg. }
  destruct M as [M1 M2 M3 M4 M5 M6], M' as [M1' M2' M3' M4' M5' M6']. split.
  - apply NoDup_app. split_and!; [done|set_solver|done].
  - intros x [Hx|Hx]%elem_of_app; [by apply M2|].
    destruct (M2' x Hx) as [Hg Hp]. rewrite M3 in Hg by done. by rewrite decide_False in Hg by set_solver.
  - intros x Hx. rewrite M3', M3 by done. repeat case_decide; set_solver.
  - intros x Hx. destruct (M4' x Hx) as [E|]; [|by right]. rewrite E. auto.
  - intros x Hx. rewrite M5', M5 by done. rewrite edges_app. apply eq_subrelation; [apply _|]. lia.
  - intros x Hx. by rewrite M6', M6.
Qed.

Lemma mark_spec :
  (∀ n s ns s', mark n s ns s' →
     marked ns (edges ns) s s' ∧ (pinned n = false → col s' n = GC_GREY) ∧
     (∀ x, x ∈ ns → reach n x) ∧
     (∀ x y, x ∈ ns → y ∈ succ x → pinned y = false → col s' y = GC_GREY)) ∧
  (∀ l s ns s', mark_list l s ns s' →
     marked ns (λ x, occs x l + edges ns x) s s' ∧ (∀ y, y ∈ l → pinned y = false → col s' y = GC_GREY) ∧
     (∀ x, x ∈ ns → ∃ y, y ∈ l ∧ reach y x) ∧
     (∀ x y, x ∈ ns → y ∈ succ x → pinned y = false → col s' y = GC_GREY)).
Proof.
  apply mark_both.
  - intros n s Hc. split_and!; try done; [|set_solver..].
    split; try done; [constructor|set_solver|by left|]. intros x _. simpl. by rewrite Z.sub_0_r.
  - intros n s s' Hc Hp [Hr Hcol]. split_and!; try (intros; set_solver); [|by rewrite Hp].
    split; [constructor|set_solver| | |intros x _; simpl; by rewrite Hr, Z.sub_0_r|done].
    + intros x Hx. rewrite Hcol. by case_decide as He; [subst; congruence|].
    + intros x _. rewrite Hcol. case_decide; auto.
  - intros n s s0 ns s' Hc Hp [Hr Hcol] _ ([M1 M2 M3 M4 M5 M6] & Hl & Hreach & Hsucc).
    assert (n ∉ ns) as Hn. { intros [Hg _]%M2. rewrite Hcol in Hg. by rewrite decide_True in Hg. }
    split_and!.
    + split.
      * by constructor.
      * intros x [->|Hx]%elem_of_cons; [done|]. destruct (M2 x Hx) as [Hg ?]. rewrite Hcol in Hg. by case_decide.
      * intros x Hx. rewrite M3, Hcol by done. repeat case_decide; set_solver.
      * intros x Hx. specialize (M4 x Hx). rewrite Hcol in M4. case_decide as He; [subst; congruence|done].
      * intros x Hx. rewrite M5, Hr by done. simpl. by rewrite <- Hr.
      * intros x Hx. by rewrite M6, Hr.
    + intros _. rewrite M3, Hcol by done. rewrite decide_False, decide_True by done. done.
    + intros x [->|Hx]%elem_of_cons; [done|]. destruct (Hreach x Hx) as (y & Hy & Hyx). by eapply rtc_l.
    + intros x y [->|Hx]%elem_of_cons Hy Hpy; [by apply Hl|by eapply Hsucc].
  - intros s. split_and!; try set_solver. split; try done; [constructor|set_solver|by left|].
    intros x _. simpl. by rewrite Z.sub_0_r.
  - intros m l s s1 ns1 s2 ns2 s3 Hcnt _ (M & Hm & Hr1 & Hs1) _ (M' & Hl & Hr2 & Hs2).
    pose proof Hcnt as [_ Hcc].
    assert (∀ x, x ∈ ns1 → x ∉ ns2) as Hdisj.
    { intros x Hx1 Hx2. destruct (mk_fresh _ _ _ _ M' x Hx2) as [Hg Hp]. rewrite (mk_col _ _ _ _ M) in Hg by done.
      by rewrite decide_True in Hg. }
    split_and!.
    + destruct M as [M1 M2 M3 M4 M5 M6], M' as [M1' M2' M3' M4' M5' M6']. split.
      * apply NoDup_app. split_and!; [done|set_solver|done].
      * intros x [Hx|Hx]%elem_of_app; [destruct (M2 x Hx); by rewrite <- Hcc|].
        destruct (M2' x Hx) as [Hg Hp]. rewrite M3 in Hg by done. rewrite decide_False in Hg by set_solver. by rewrite <- Hcc.
      * intros x Hx. rewrite M3', M3, Hcc by done. repeat case_decide; set_solver.
      * intros x Hx. destruct (M4' x Hx) as [E|]; [|by right]. rewrite E. specialize (M4 x Hx). by rewrite Hcc in M4.
      * intros x Hx. rewrite M5', M5, count_rc by done. simpl. rewrite edges_app. apply eq_subrelation; [apply _|].
        case_decide; lia.
      * intros x Hx. rewrite M6', M6 by done. by eapply count_pin.
    + intros y [->|Hy]%elem_of_cons Hp; [|by apply Hl]. by eapply marked_keeps; [..|apply Hm].
    + intros x [Hx|Hx]%elem_of_app; [exists m; split; [set_solver|by apply Hr1]|].
      destruct (Hr2 x Hx) as (y & ? & ?). exists y. set_solver.
    + intros x y [Hx|Hx]%elem_of_app Hy Hp; [|by eapply Hs2]. by eapply marked_keeps; [..|eapply Hs1].
Qed.

(** ** Scanning black *)

Record blackened ns (es : N → Z) s s' : Prop := {
  bl_nodup : NoDup ns;
  bl_fresh : ∀ x, x ∈ ns → col s x ≠ GC_BLACK;
  bl_col : ∀ x, col s' x = if decide (x ∈ ns) then GC_BLACK else col s x;
  bl_rc : ∀ x, pinned x = false → eqm (rc s' x) (rc s x + es x);
  bl_pin_rc : ∀ x, pinned x = true → rc s' x = rc s x;
}.

Lemma blackened_keeps ns es s s' x : blackened ns es s s' → col s x = GC_BLACK → col s' x = GC_BLACK.
Proof. intros [] Hx. rewrite bl_col0. by case_decide. Qed.

Lemma sblack_spec :
  (∀ n s ns s', sblack n s ns s' →
     blackened ns (edges ns) s s' ∧ n ∈ ns ∧ (∀ x, x ∈ ns → reach n x) ∧
     (∀ x y, x ∈ ns → y ∈ succ x → col s' y = GC_BLACK)) ∧
  (∀ l s ns s', sblack_list l s ns s' →
     blackened ns (λ x, occs x l + edges ns x) s s' ∧ (∀ y, y ∈ l → col s' y = GC_BLACK) ∧
     (∀ x, x ∈ ns → ∃ y, y ∈ l ∧ reach y x) ∧
     (∀ x y, x ∈ ns → y ∈ succ x → col s' y = GC_BLACK)).
Proof.
  apply sblack_both.
  - intros n s s0 ns s' Hc [Hr Hcol] _ ([M1 M2 M3 M4 M5] & Hl & Hreach & Hsucc).
    assert (n ∉ ns) as Hn. { intros Hg%M2. rewrite Hcol in Hg. by rewrite decide_True in Hg. }
    split_and!.
    + split.
      * by constructor.
      * intros x [->|Hx]%elem_of_cons; [done|]. specialize (M2 x Hx). rewrite Hcol in M2. by case_decide.
      * intros x. rewrite M3, Hcol. repeat case_decide; set_solver.
      * intros x Hx. rewrite M4, Hr by done. done.
      * intros x Hx. by rewrite M5, Hr.
    + set_solver.
    + intros x [->|Hx]%elem_of_cons; [done|]. destruct (Hreach x Hx) as (y & Hy & Hyx). by eapply rtc_l.
    + intros x y [->|Hx]%elem_of_cons Hy; [by apply Hl|by eapply Hsucc].
  - intros s. split_and!; try set_solver. split; try done; [constructor|set_solver|].
    intros x _. simpl. by rewrite Z.add_0_r.
  - intros m l s s1 ns s2 Hcnt Hm _ ([M1 M2 M3 M4 M5] & Hl & Hreach & Hsucc). pose proof Hcnt as [_ Hcc].
    split_and!.
    + split.
      * done.
      * intros x Hx. rewrite <- Hcc. by apply M2.
      * intros x. by rewrite M3, Hcc.
      * intros x Hx. rewrite M4, count_rc by done. simpl. apply eq_subrelation; [apply _|]. case_decide; lia.
      * intros x Hx. rewrite M5 by done. by eapply count_pin.
    + intros y [->|Hy]%elem_of_cons; [|by apply Hl]. rewrite M3. by case_decide.
    + intros x Hx. destruct (Hreach x Hx) as (y & ? & ?). exists y. set_solver.
    + done.
  - intros m l s s1 ns1 s2 ns2 s3 Hcnt _ (M & Hm & Hr1 & Hs1) _ (M' & Hl & Hr2 & Hs2). pose proof Hcnt as [_ Hcc].
    assert (∀ x, x ∈ ns1 → x ∉ ns2) as Hdisj.
    { intros x Hx1 Hx2. pose proof (bl_fresh _ _ _ _ M' x Hx2) as Hg. rewrite (bl_col _ _ _ _ M) in Hg.
      by rewrite decide_True in Hg. }
    split_and!.
    + destruct M as [M1 M2 M3 M4 M5], M' as [M1' M2' M3' M4' M5']. split.
      * apply NoDup_app. split_and!; [done|set_solver|done].
      * intros x [Hx|Hx]%elem_of_app; [rewrite <- Hcc; by apply M2|].
        specialize (M2' x Hx). rewrite M3 in M2'. rewrite decide_False in M2' by set_solver. by rewrite <- Hcc.
      * intros x. rewrite M3', M3, Hcc. repeat case_decide; set_solver.
      * intros x Hx. rewrite M4', M4, count_rc by done. simpl. rewrite edges_app. apply eq_subrelation; [apply _|].
        case_decide; lia.
      * intros x Hx. rewrite M5', M5 by done. by eapply count_pin.
    + intros y [->|Hy]%elem_of_cons; [|by apply Hl]. eapply blackened_keeps; [done|].
      rewrite (bl_col _ _ _ _ M). by rewrite decide_True.
    + intros x [Hx|Hx]%elem_of_app; [exists m; split; [set_solver|by apply Hr1]|].
      destruct (Hr2 x Hx) as (y & ? & ?). exists y. set_solver.
    + intros x y [Hx|Hx]%elem_of_app Hy; [|by eapply Hs2]. by eapply blackened_keeps; [..|eapply Hs1].
Qed.
End relations.
