(* ===== verification/TrialScan.v ===== *)
(** The second phase of trial deletion: what scanning the grey nodes does.

    [G] are the nodes that marking turned grey and [ext x] is the number of
    references to [x] that do not come from [G].  Scanning splits [G] into the
    black nodes, which some external reference reaches, and the white ones,
    which none does. *)

From stdpp Require Import relations.
From S2P Require Import Prelude TrialDeletion.

Section uint.
Context {N S : Type} `{EqDecision N} (succ : N → list N) (pinned : N → bool).
Context (rc : S → N → Z) (col : S → N → gc_color).

(** The counts are machine words, and stay so. *)
Definition uints (s : S) : Prop := ∀ x, is_uint (rc s x).

Lemma recolor_uints n c s s' : recolor rc col n c s s' → uints s → uints s'.
Proof. intros [Hr _] Hu x. rewrite Hr. apply Hu. Qed.

Lemma count_uints n d s s' : count pinned rc col n d s s' → uints s → uints s'.
Proof. intros [Hr _] Hu x. rewrite Hr. repeat case_match; try apply Hu. apply uint_wrap_range. Qed.

Lemma mark_uints :
  (∀ n s ns s', mark succ pinned rc col n s ns s' → uints s → uints s') ∧
  (∀ l s ns s', mark_list succ pinned rc col l s ns s' → uints s → uints s').
Proof. apply mark_both; eauto using recolor_uints, count_uints. Qed.

Lemma sblack_uints :
  (∀ n s ns s', sblack succ pinned rc col n s ns s' → uints s → uints s') ∧
  (∀ l s ns s', sblack_list succ pinned rc col l s ns s' → uints s → uints s').
Proof. apply sblack_both; eauto using recolor_uints, count_uints. Qed.

Lemma scan_uints :
  (∀ n s s', scan succ pinned rc col n s s' → uints s → uints s') ∧
  (∀ l s s', scan_list succ pinned rc col l s s' → uints s → uints s').
Proof. apply scan_both; eauto using recolor_uints. intros. by eapply (proj1 sblack_uints). Qed.
End uint.

Section scan.
Context {N S : Type} `{EqDecision N} (succ : N → list N) (pinned : N → bool).
Context (rc : S → N → Z) (col : S → N → gc_color).
Implicit Types (s : S) (n x y : N).

Abbreviation edges := (edges succ).
Abbreviation reach := (rtc (step succ)).
Abbreviation black G s := (filter (λ n, col s n = GC_BLACK) G).

(** What marking leaves: a set of unpinned nodes closed under the edges. *)
Record grey_set (G : list N) (ext : N → Z) : Prop := {
  gs_nodup : NoDup G;
  gs_pin : ∀ x, x ∈ G → pinned x = false;
  gs_succ : ∀ x y, x ∈ G → y ∈ succ x → pinned y = true ∨ y ∈ G;
  gs_ext : ∀ x, x ∈ G → is_uint (ext x);
}.

Context (G : list N) (ext : N → Z) (HG : grey_set G ext).
Context (pinned_leaf : ∀ x, pinned x = true → succ x = []).

(** The invariant of scanning. *)
Record scanning s : Prop := {
  sc_uint : uints rc s;
  sc_out : ∀ x, x ∉ G → col s x ≠ GC_GREY;
  sc_col : ∀ x, x ∈ G → col s x = GC_GREY ∨ col s x = GC_WHITE ∨ col s x = GC_BLACK;
  sc_rc : ∀ x, x ∈ G → eqm (rc s x) (ext x + edges (black G s) x);
  sc_black : ∀ x y, x ∈ G → col s x = GC_BLACK → y ∈ succ x → pinned y = false → col s y = GC_BLACK;
  sc_white : ∀ x, x ∈ G → col s x = GC_WHITE → ext x = 0;
  sc_live : ∀ x, x ∈ G → col s x = GC_BLACK → ∃ y, y ∈ G ∧ 0 < ext y ∧ reach y x;
}.

(** What scanning leaves alone. *)
Definition frame s s' : Prop :=
  ∀ x, x ∉ G → rc s' x = rc s x ∧
    (col s' x = col s x ∨ pinned x = true ∧ col s' x = GC_BLACK).

#[local] Instance frame_po : PreOrder frame.
Proof.
  split; [intros s x _; auto|]. intros s1 s2 s3 H1 H2 x Hx. destruct (H1 x Hx) as [? H1'], (H2 x Hx) as [? H2'].
  split; [congruence|]. destruct H2' as [->|?]; auto.
Qed.

Lemma in_G_reach n x : n ∈ G → reach n x → x ∈ G ∨ pinned x = true.
Proof.
  intros Hn. apply (reach_closed succ (λ x, x ∈ G ∨ pinned x = true)); [|by left].
  intros a b [Ha|Ha] Hb; [destruct (gs_succ _ _ HG a b Ha Hb); auto|].
  rewrite pinned_leaf in Hb by done. set_solver.
Qed.

(** A node that is not black has no black predecessor. *)
Lemma not_black_ext s x : scanning s → x ∈ G → col s x ≠ GC_BLACK → eqm (rc s x) (ext x).
Proof.
  intros Hs Hx Hc. eapply eqm_step; [by apply (sc_rc s Hs)|].
  destruct (decide (0 < edges (black G s) x)) as [Hp|]; [|pose proof (edges_nonneg succ (black G s) x); lia].
  apply edges_pos in Hp as (m & [Hm1 Hm2]%list_elem_of_filter & Hx').
  destruct Hc. eapply (sc_black s Hs m x); eauto. by apply (gs_pin _ _ HG).
Qed.

Lemma not_black_exact s x : scanning s → x ∈ G → col s x ≠ GC_BLACK → rc s x = ext x.
Proof.
  intros Hs Hx Hc. apply eqm_exact; [by apply sc_uint|by apply (gs_ext _ _ HG)|by apply not_black_ext].
Qed.

Lemma scanning_recolor n s s0 : scanning s → col s n = GC_GREY → rc s n <= 0 →
  recolor rc col n GC_WHITE s s0 → scanning s0 ∧ frame s s0.
Proof.
  intros Hs Hn Hrc Hrec. pose proof Hrec as [Hr Hc].
  assert (n ∈ G) as HnG. { destruct (decide (n ∈ G)); [done|]. by destruct (sc_out s Hs n). }
  assert (∀ x, col s0 x = GC_BLACK ↔ col s x = GC_BLACK) as Hb.
  { intros x. rewrite Hc. case_decide; [subst; split; congruence|done]. }
  pose proof (not_black_exact s n Hs HnG ltac:(congruence)) as Hext.
  destruct Hs as [H1 H2 H3 H4 H5 H6 H7]. split; [split|].
  - by eapply recolor_uints.
  - intros x Hx. rewrite Hc. case_decide; [done|auto].
  - intros x Hx. rewrite Hc. case_decide; auto.
  - intros x Hx. rewrite Hr. eapply eqm_step; [by apply H4|]. f_equal. f_equal.
    apply list_filter_iff. intros. by rewrite Hb.
  - intros x y Hx. rewrite !Hb. eauto.
  - intros x Hx. rewrite Hc. case_decide as He; [subst|auto]. intros _.
    pose proof (H1 n). lia.
  - intros x Hx. rewrite Hb. eauto.
  - intros x Hx. rewrite Hr, Hc. split; [done|]. left. case_decide; [by subst|done].
Qed.

(** Scanning black from a node with references to spare. *)
Lemma scanning_sblack n s ns s' : scanning s → col s n = GC_GREY → 0 < rc s n →
  sblack succ pinned rc col n s ns s' →
  scanning s' ∧ frame s s' ∧ ∀ x, col s' x = col s x ∨ col s' x = GC_BLACK.
Proof.
  intros Hs Hn Hrc Hsb.
  assert (n ∈ G) as HnG. { destruct (decide (n ∈ G)); [done|]. by destruct (sc_out s Hs n). }
  destruct (proj1 (sblack_spec succ pinned rc col) _ _ _ _ Hsb) as ([B1 B2 B3 B4 B5] & Hin & Hreach & Hblk).
  assert (∀ x, x ∈ ns → x ∈ G ∨ pinned x = true) as Hns by eauto using in_G_reach.
  assert (0 < ext n) as Hext by (rewrite <- (not_black_exact s n); [done..|congruence]).
  assert (∀ x, col s' x = col s x ∨ col s' x = GC_BLACK) as Hcol.
  { intros x. rewrite B3. case_decide; auto. }
  split_and!; [split|..|done].
  - by eapply (proj1 (sblack_uints succ pinned rc col)), (sc_uint s Hs).
  - intros x Hx. rewrite B3. case_decide; [done|by apply (sc_out s Hs)].
  - intros x Hx. destruct (Hcol x) as [->| ->]; [by apply (sc_col s Hs)|auto].
  - intros x Hx. rewrite B4 by by apply (gs_pin _ _ HG). rewrite (sc_rc s Hs) by done.
    apply eq_subrelation; [apply _|].
    rewrite (edges_filter_add succ (λ n, col s n = GC_BLACK) (λ n, col s' n = GC_BLACK) G ns); [lia| | |..].
    + apply (gs_nodup _ _ HG).
    + done.
    + intros m Hm. destruct (Hns m Hm); auto.
    + done.
    + intros m Hm. rewrite B3. case_decide; naive_solver.
  - intros x y Hx. rewrite B3. case_decide as Hd; [intros _ Hy _; by eapply Hblk|].
    intros Hb Hy Hp. rewrite B3. case_decide; [done|]. by eapply (sc_black s Hs).
  - intros x Hx. rewrite B3. case_decide; [done|by apply (sc_white s Hs)].
  - intros x Hx. rewrite B3. case_decide; [eauto|by apply (sc_live s Hs)].
  - intros x Hx. split.
    + destruct (pinned x) eqn:Hp; [by apply B5|].
      apply eqm_exact; [by eapply (proj1 (sblack_uints succ pinned rc col)), (sc_uint s Hs)|by apply (sc_uint s Hs)|].
      rewrite B4 by done. apply eq_subrelation; [apply _|].
      destruct (decide (0 < edges ns x)) as [Hpos|]; [|pose proof (edges_nonneg succ ns x); lia].
      apply edges_pos in Hpos as (m & Hm & Hxm). destruct (Hns m Hm) as [HmG|Hmp].
      * destruct (gs_succ _ _ HG m x); congruence.
      * rewrite pinned_leaf in Hxm by done. set_solver.
    + rewrite B3. case_decide as Hd; [|auto]. destruct (Hns x Hd); auto.
Qed.

(** What scanning [l] achieves: its nodes are no longer grey, and neither are
    the successors of any node it whitened. *)
Record scanned (l : list N) s s' : Prop := {
  sd_inv : scanning s';
  sd_frame : frame s s';
  sd_done : ∀ x, x ∈ l → col s' x ≠ GC_GREY;
  sd_mono : ∀ x, col s x ≠ GC_GREY → col s' x ≠ GC_GREY;
  sd_white : ∀ x, x ∈ G → col s' x = GC_WHITE → col s x ≠ GC_WHITE → ∀ y, y ∈ succ x → col s' y ≠ GC_GREY;
}.

Lemma scanned_nil s : scanning s → scanned [] s s.
Proof. intros Hs. split; [done|done|set_solver|done|done]. Qed.

Lemma scanned_app l1 l2 s1 s2 s3 : scanned l1 s1 s2 → scanned l2 s2 s3 → scanned (l1 ++ l2) s1 s3.
Proof.
  intros [A1 A2 A3 A4 A5] [B1 B2 B3 B4 B5]. split; [done|by etrans|set_solver|auto|].
  intros x Hx Hw Hn. destruct (decide (col s2 x = GC_WHITE)) as [He|He]; [|by apply B5].
  intros y Hy. apply B4. by eapply A5.
Qed.

Lemma scan_spec :
  (∀ n s s', scan succ pinned rc col n s s' → scanning s → scanned [n] s s') ∧
  (∀ l s s', scan_list succ pinned rc col l s s' → scanning s → scanned l s s').
Proof.
  apply scan_both.
  - intros n s Hc Hs. split; [done|done|set_solver|done|done].
  - intros n s ns s' Hc Hrc Hsb Hs. destruct (scanning_sblack n s ns s' Hs Hc Hrc Hsb) as (? & ? & Hcol).
    destruct (proj1 (sblack_spec succ pinned rc col) _ _ _ _ Hsb) as ([_ _ B3 _ _] & Hin & _ & _).
    split; [done|done|..].
    + intros x ->%list_elem_of_singleton. rewrite B3. by rewrite decide_True.
    + intros x Hx. by destruct (Hcol x) as [->| ->].
    + intros x _ Hw Hnw. destruct (Hcol x); congruence.
  - intros n s s0 s' Hc Hrc Hrec _ IH Hs. destruct (scanning_recolor n s s0 Hs Hc Hrc Hrec) as [Hs0 Hf].
    destruct (IH Hs0) as [A1 A2 A3 A4 A5]. pose proof Hrec as [_ Hcol]. split; [done|by etrans|..].
    + intros x ->%list_elem_of_singleton. apply A4. rewrite Hcol. by rewrite decide_True.
    + intros x Hx. apply A4. rewrite Hcol. by case_decide.
    + intros x Hx Hw Hnw y Hy. destruct (decide (x = n)) as [->|Hne]; [by apply A3|].
      eapply A5; [done..| |done]. rewrite Hcol. by rewrite decide_False.
  - intros s Hs. by apply scanned_nil.
  - intros m l s s1 s2 _ IH1 _ IH2 Hs. specialize (IH1 Hs). apply (scanned_app [m]) with (s2 := s1); [done|].
    apply IH2. by apply (sd_inv _ _ _ IH1).
Qed.

(** After scanning roots from which all of [G] can be reached, nothing is
    grey; the nodes some external reference reaches are black, and the rest
    are white with a count of zero. *)
Lemma scan_result rs s s' :
  scan_list succ pinned rc col rs s s' → scanning s → (∀ x, x ∈ G → col s x = GC_GREY) →
  (∀ x, x ∈ G → ∃ r, r ∈ rs ∧ r ∈ G ∧ reach r x) →
  scanning s' ∧ frame s s' ∧
  ∀ x, x ∈ G →
    (col s' x = GC_BLACK ∧ ∃ y, y ∈ G ∧ 0 < ext y ∧ reach y x) ∨
    (col s' x = GC_WHITE ∧ rc s' x = 0 ∧ ∀ y, y ∈ G → 0 < ext y → ¬ reach y x).
Proof.
  intros Hsc Hs Hgrey Hroots. destruct (proj2 scan_spec _ _ _ Hsc Hs) as [A1 A2 A3 A4 A5].
  assert (∀ x, x ∈ G → col s' x ≠ GC_GREY) as Hng.
  { intros x Hx. destruct (Hroots x Hx) as (r & Hr & HrG & Hreach).
    cut (pinned x = true ∨ x ∈ G ∧ col s' x ≠ GC_GREY). { intros [Hp|[_ ?]]; [|done]. by rewrite (gs_pin _ _ HG) in Hp. }
    revert Hreach. apply (reach_closed succ (λ x, pinned x = true ∨ x ∈ G ∧ col s' x ≠ GC_GREY)); [|auto].
    intros a b [Ha|[Ha Hna]] Hb; [rewrite pinned_leaf in Hb by done; set_solver|].
    destruct (gs_succ _ _ HG a b Ha Hb) as [?|HbG]; [auto|]. right. split; [done|].
    destruct (sc_col s' A1 a Ha) as [?|[Hw|Hbl]]; [done| |].
    - eapply (A5 a); [done|done| |done]. rewrite Hgrey; [done|done].
    - rewrite (sc_black s' A1 a b Ha Hbl Hb (gs_pin _ _ HG b HbG)). done. }
  split_and!; [done|done|]. intros x Hx. destruct (sc_col s' A1 x Hx) as [Hg|[Hw|Hb]].
  - by destruct (Hng x Hx).
  - right. split_and!; [done| |].
    + rewrite (not_black_exact s' x A1 Hx) by congruence. by apply (sc_white s' A1).
    + intros y Hy He Hr.
      assert (col s' y = GC_BLACK) as Hyb.
      { destruct (sc_col s' A1 y Hy) as [Hg|[Hyw|?]]; [by destruct (Hng y Hy)| |done].
        pose proof (sc_white s' A1 y Hy Hyw). lia. }
      cut (pinned x = true ∨ x ∈ G ∧ col s' x = GC_BLACK).
      { intros [Hp|[_ ?]]; [|congruence]. by rewrite (gs_pin _ _ HG) in Hp. }
      revert Hr. apply (reach_closed succ (λ x, pinned x = true ∨ x ∈ G ∧ col s' x = GC_BLACK)); [|auto].
      intros a b [Ha|[Ha Hab]] Hb; [rewrite pinned_leaf in Hb by done; set_solver|].
      destruct (gs_succ _ _ HG a b Ha Hb) as [?|HbG]; [auto|]. right. split; [done|].
      apply (sc_black s' A1 a b); auto. by apply (gs_pin _ _ HG).
  - left. split; [done|]. by apply (sc_live s' A1).
Qed.
End scan.
