(* ===== verification/TrialCollect.v ===== *)
(** The third phase of trial deletion, and the three phases together: what a
    whole collection takes off the graph. *)

From stdpp Require Import relations.
From S2P Require Import Prelude TrialDeletion TrialScan.

Section relations.
Context {N S : Type} `{EqDecision N} (succ : N → list N) (pinned : N → bool).
(** [listed s n]: how often [n] stands on the list of nodes to free, which
    itself holds a reference. *)
Context (rc : S → N → Z) (col : S → N → gc_color) (listed : S → N → Z).
(** [rooted s n]: the node knows its place in the root buffer. *)
Context (rooted : S → N → bool).
(** Only the counts of some nodes are restored: those of zvals, not those of
    objects. *)
Context (restored : N → bool).
Implicit Types (s : S) (n m x y : N) (ns rs : list N).

(** The count of [n] without the list's own reference. *)
Definition net s x : Z := rc s x - listed s x.

(** Nothing a collection looks at changes. *)
Definition same s s' : Prop :=
  ∀ x, eqm (net s' x) (net s x) ∧ col s' x = col s x ∧ rooted s' x = rooted s x.

(** [n] is taken: its colour is no longer white. *)
Definition taken n s s' : Prop :=
  ∀ x, eqm (net s' x) (net s x) ∧ rooted s' x = rooted s x ∧
    (if decide (x = n) then col s' x = GC_BLACK ∨ col s' x = GC_PURPLE else col s' x = col s x).

(** The reference to [m] that a taken node holds is counted again. *)
Definition restore m s s' : Prop :=
  ∀ x, col s' x = col s x ∧ rooted s' x = rooted s x ∧
    eqm (net s' x) (net s x + (if decide (x = m ∧ pinned x = false ∧ restored x = true) then 1 else 0)).

(** A node leaves the root buffer. *)
Definition unroot n s s' : Prop :=
  ∀ x, eqm (net s' x) (net s x) ∧ col s' x = col s x ∧ rooted s' x = (if decide (x = n) then false else rooted s x).

(** Collecting white: [ns] are the nodes taken.  A white node that is still
    in the root buffer is left for its turn as a root. *)
Inductive collect : N → S → list N → S → Prop :=
  | collect_skip n s s' : col s n ≠ GC_WHITE ∨ rooted s n = true → same s s' → collect n s [] s'
  | collect_new n s s0 ns s' :
      col s n = GC_WHITE → rooted s n = false → taken n s s0 → collect_list (succ n) s0 ns s' →
      collect n s (n :: ns) s'
with collect_list : list N → S → list N → S → Prop :=
  | collect_nil s s' : same s s' → collect_list [] s [] s'
  | collect_cons m l s s1 ns1 s2 ns2 s3 :
      restore m s s1 → collect m s1 ns1 s2 → collect_list l s2 ns2 s3 →
      collect_list (m :: l) s (ns1 ++ ns2) s3.

Scheme collect_mut := Induction for collect Sort Prop
  with collect_list_mut := Induction for collect_list Sort Prop.
Combined Scheme collect_both from collect_mut, collect_list_mut.

Inductive collect_roots : list N → S → list N → S → Prop :=
  | collect_roots_nil s s' : same s s' → collect_roots [] s [] s'
  | collect_roots_cons r rs s s0 ns1 s1 ns2 s2 :
      unroot r s s0 → collect r s0 ns1 s1 → collect_roots rs s1 ns2 s2 →
      collect_roots (r :: rs) s (ns1 ++ ns2) s2.

(** Marking from the roots that are still purple when their turn comes; the
    others leave the buffer.  [ks] are the roots kept. *)
Inductive mark_roots : list N → S → list N → list N → S → Prop :=
  | mark_roots_nil s : mark_roots [] s [] [] s
  | mark_roots_purple r rs s ns1 s1 ns2 ks s2 :
      col s r = GC_PURPLE → mark succ pinned rc col r s ns1 s1 → (∀ x, rooted s1 x = rooted s x) →
      mark_roots rs s1 ns2 ks s2 → mark_roots (r :: rs) s (ns1 ++ ns2) (r :: ks) s2
  | mark_roots_other r rs s s1 ns ks s2 :
      col s r ≠ GC_PURPLE →
      (∀ x, rc s1 x = rc s x ∧ col s1 x = col s x ∧ rooted s1 x = (if decide (x = r) then false else rooted s x)) →
      mark_roots rs s1 ns ks s2 → mark_roots (r :: rs) s ns ks s2.
End relations.

Section collect.
Context {N S : Type} `{EqDecision N} (succ : N → list N) (pinned : N → bool).
Context (rc : S → N → Z) (col : S → N → gc_color) (listed : S → N → Z) (rooted : S → N → bool) (restored : N → bool).
Implicit Types (s : S) (n m x y : N) (ns rs : list N).

Abbreviation edges := (edges succ).
Abbreviation reach := (rtc (step succ)).
Abbreviation net := (net rc listed).
Abbreviation white s x := (col s x = GC_WHITE).

(** What taking [ns] off the graph has done. *)
Record collected ns (es : N → Z) s s' : Prop := {
  cl_nodup : NoDup ns;
  cl_white : ∀ x, x ∈ ns → white s x;
  cl_col : ∀ x, if decide (x ∈ ns) then col s' x = GC_BLACK ∨ col s' x = GC_PURPLE else col s' x = col s x;
  cl_net : ∀ x, pinned x = false → restored x = true → eqm (net s' x) (net s x + es x);
  cl_net_not : ∀ x, pinned x = true ∨ restored x = false → eqm (net s' x) (net s x);
}.

Lemma collected_same ns es s0 s s' : same rc col listed rooted s s' → collected ns es s0 s → collected ns es s0 s'.
Proof.
  intros Hs [C1 C2 C3 C4 C5]. split; [done|done|intros x; destruct (Hs x) as (H1 & H2 & H3)..].
  - rewrite H2. apply C3.
  - intros Hp Hr. by rewrite H1, C4.
  - intros Hx. by rewrite H1, C5.
Qed.

Lemma collected_nil es s s' : (∀ x, es x = 0) → same rc col listed rooted s s' → collected [] es s s'.
Proof.
  intros He Hs. eapply collected_same; [done|]. split; try done; [constructor|set_solver|].
  intros x _ _. by rewrite He, Z.add_0_r.
Qed.

Lemma collected_mono ns es s s' x : collected ns es s s' → col s x ≠ GC_WHITE → col s' x ≠ GC_WHITE.
Proof. intros [_ _ C _ _] Hx. specialize (C x). case_decide; [by destruct C as [-> | ->]|congruence]. Qed.

Lemma collected_app ns1 ns2 es1 es2 s1 s2 s3 :
  collected ns1 es1 s1 s2 → collected ns2 es2 s2 s3 → collected (ns1 ++ ns2) (λ x, es1 x + es2 x) s1 s3.
Proof.
  intros M1 M2.
  assert (∀ x, x ∈ ns1 → x ∉ ns2) as Hdisj.
  { intros x Hx1 Hx2. pose proof (cl_white _ _ _ _ M2 x Hx2) as Hw. pose proof (cl_col _ _ _ _ M1 x) as Hc.
    rewrite decide_True in Hc by done. destruct Hc; congruence. }
  destruct M1 as [A1 A2 A3 A4 A5], M2 as [B1 B2 B3 B4 B5]. split.
  - apply NoDup_app. auto.
  - intros x [Hx|Hx]%elem_of_app; [auto|]. specialize (A3 x). rewrite decide_False in A3 by naive_solver.
    rewrite <- A3. auto.
  - intros x. specialize (A3 x). specialize (B3 x). rewrite (decide_ext _ (x ∈ ns1 ∨ x ∈ ns2)) by apply elem_of_app.
    repeat case_decide; try tauto; rewrite ?B3; tauto || done.
  - intros x Hp Hr. rewrite (B4 x Hp Hr), (A4 x Hp Hr). by rewrite Z.add_assoc.
  - intros x Hx. by rewrite (B5 x Hx), (A5 x Hx).
Qed.

Lemma collected_es ns es es' s s' : (∀ x, es x = es' x) → collected ns es s s' → collected ns es' s s'.
Proof. intros He [? ? ? H4 ?]. split; try done. intros x. rewrite <- He. auto. Qed.

Lemma collected_taken n ns es s s0 s' : white s n →
  taken rc col listed rooted n s s0 → collected ns es s0 s' → collected (n :: ns) es s s'.
Proof.
  intros Hw Ht [C1 C2 C3 C4 C5].
  assert (n ∉ ns) as Hn.
  { intros Hn%C2. destruct (Ht n) as (_ & _ & H). rewrite decide_True in H by done. destruct H; congruence. }
  split.
  - by constructor.
  - intros x [->|Hx]%elem_of_cons; [done|]. specialize (C2 x Hx). destruct (Ht x) as (_ & _ & H).
    case_decide; [destruct H; congruence|congruence].
  - intros x. specialize (C3 x). destruct (Ht x) as (_ & _ & H).
    rewrite (decide_ext _ (x = n ∨ x ∈ ns)) by apply elem_of_cons.
    repeat case_decide; try tauto; rewrite ?C3; tauto || done.
  - intros x Hp Hr. rewrite (C4 x Hp Hr). by destruct (Ht x) as (-> & _).
  - intros x Hx. rewrite (C5 x Hx). by destruct (Ht x) as (-> & _).
Qed.

Lemma collected_restore m ns es s s1 s' :
  restore pinned rc col listed rooted restored m s s1 → collected ns es s1 s' →
  collected ns (λ x, (if decide (x = m) then 1 else 0) + es x) s s'.
Proof.
  intros Ht [C1 C2 C3 C4 C5]. split; [done|..].
  - intros x Hx. destruct (Ht x) as (<- & _). auto.
  - intros x. specialize (C3 x). by destruct (Ht x) as (<- & _).
  - intros x Hp Hr. rewrite (C4 x Hp Hr). destruct (Ht x) as (_ & _ & ->).
    rewrite (decide_ext _ (x = m)) by tauto. by rewrite Z.add_assoc.
  - intros x Hx. rewrite (C5 x Hx). destruct (Ht x) as (_ & _ & ->).
    rewrite decide_False by (destruct Hx; naive_solver congruence). by rewrite Z.add_0_r.
Qed.

(** The same places in the root buffer before and after. *)
Abbreviation rooted_same s s' := (∀ x, rooted s' x = rooted s x).
(** No [collect] is owed to a node: it is not white, or it will have its turn. *)
Abbreviation settled s x := (col s x ≠ GC_WHITE ∨ rooted s x = true).

Lemma settled_mono ns es s s' x : collected ns es s s' → rooted_same s s' → settled s x → settled s' x.
Proof. intros Hc Hr [?|?]; [left; by eapply collected_mono|right; by rewrite Hr]. Qed.

Lemma collect_spec :
  (∀ n s ns s', collect succ pinned rc col listed rooted restored n s ns s' →
     collected ns (edges ns) s s' ∧ rooted_same s s' ∧ settled s' n ∧
     (∀ x, x ∈ ns → reach n x) ∧ (∀ x y, x ∈ ns → y ∈ succ x → settled s' y)) ∧
  (∀ l s ns s', collect_list succ pinned rc col listed rooted restored l s ns s' →
     collected ns (λ x, occs x l + edges ns x) s s' ∧ rooted_same s s' ∧ (∀ y, y ∈ l → settled s' y) ∧
     (∀ x, x ∈ ns → ∃ y, y ∈ l ∧ reach y x) ∧ (∀ x y, x ∈ ns → y ∈ succ x → settled s' y)).
Proof.
  apply collect_both.
  - intros n s s' Hc Hs. split_and!; try (intros; exfalso; eapply not_elem_of_nil; eassumption).
    + by apply collected_nil.
    + intros x. by destruct (Hs x) as (_ & _ & ->).
    + destruct (Hs n) as (_ & -> & ->). done.
  - intros n s s0 ns s' Hw Hro Ht _ (M & Hrs & Hl & Hreach & Hsucc). split_and!.
    + eapply collected_taken; [done..|]. by eapply collected_es; [|done].
    + intros x. rewrite Hrs. by destruct (Ht x) as (_ & -> & _).
    + left. eapply collected_mono; [done|]. destruct (Ht n) as (_ & _ & H). rewrite decide_True in H by done.
      destruct H; congruence.
    + intros x [->|Hx]%elem_of_cons; [done|]. destruct (Hreach x Hx) as (y & Hy & Hyx). by eapply rtc_l.
    + intros x y [->|Hx]%elem_of_cons Hy; [by apply Hl|by eapply Hsucc].
  - intros s s' Hs. split_and!; try (intros; exfalso; eapply not_elem_of_nil; eassumption).
    + by apply collected_nil.
    + intros x. by destruct (Hs x) as (_ & _ & ->).
  - intros m l s s1 ns1 s2 ns2 s3 Hm _ (M & Hrs1 & Hm1 & Hr1 & Hs1) _ (M' & Hrs2 & Hl & Hr2 & Hs2). split_and!.
    + eapply collected_es; [|eapply collected_restore; [done|by eapply collected_app]].
      intros x. simpl. rewrite edges_app. lia.
    + intros x. rewrite Hrs2, Hrs1. by destruct (Hm x) as (_ & -> & _).
    + intros y [->|Hy]%elem_of_cons; [by eapply settled_mono|by apply Hl].
    + intros x [Hx|Hx]%elem_of_app; [exists m; split; [set_solver|by apply Hr1]|].
      destruct (Hr2 x Hx) as (y & ? & ?). exists y. set_solver.
    + intros x y [Hx|Hx]%elem_of_app Hy; [eapply settled_mono; [done..|]; by eapply Hs1|by eapply Hs2].
Qed.

Lemma collect_roots_spec rs s ns s' :
  collect_roots succ pinned rc col listed rooted restored rs s ns s' →
  collected ns (edges ns) s s' ∧ (∀ x, rooted s' x = true ↔ rooted s x = true ∧ x ∉ rs) ∧
  (∀ r, r ∈ rs → col s' r ≠ GC_WHITE) ∧ (∀ x y, x ∈ ns → y ∈ succ x → settled s' y).
Proof.
  induction 1 as [s s' Hs|r rs s s0 ns1 s1 ns2 s2 Hu Hc _ (M2 & Hr2 & Hd2 & Hs2)].
  - split_and!; try (intros; exfalso; eapply not_elem_of_nil; eassumption).
    + by apply collected_nil.
    + intros x. destruct (Hs x) as (_ & _ & ->). set_solver.
  - destruct (proj1 collect_spec _ _ _ _ Hc) as (M1 & Hrs1 & Hn & _ & Hs1).
    assert (collected ns1 (edges ns1) s s1) as M.
    { destruct M1 as [C1 C2 C3 C4 C5]. split; [done|intros x; destruct (Hu x) as (H1 & H2 & _)..].
      - rewrite <- H2. auto.
      - rewrite <- H2. apply C3.
      - intros. rewrite C4 by done. by rewrite H1.
      - intros. rewrite C5 by done. by rewrite H1. }
    assert (∀ x, rooted s1 x = if decide (x = r) then false else rooted s x) as Hr1.
    { intros x. rewrite Hrs1. by destruct (Hu x) as (_ & _ & ->). }
    assert (col s1 r ≠ GC_WHITE) as Hrw. { destruct Hn as [?|Hn]; [done|]. rewrite Hr1, decide_True in Hn; done. }
    split_and!.
    + eapply collected_es; [|by eapply collected_app]. intros x. simpl. by rewrite edges_app.
    + intros x. rewrite Hr2, Hr1, not_elem_of_cons. case_decide; naive_solver.
    + intros x [->|Hx]%elem_of_cons; [by eapply collected_mono|auto].
    + intros x y [Hx|Hx]%elem_of_app Hy; [|by eapply Hs2].
      destruct (Hs1 x y Hx Hy) as [?|Hy1]; [left; by eapply collected_mono|].
      destruct (decide (y ∈ rs)) as [Hrs|Hrs]; [left; by apply Hd2|]. right. by apply Hr2.
Qed.

Lemma mark_roots_uints rs s ns ks s' : mark_roots succ pinned rc col rooted rs s ns ks s' → uints rc s → uints rc s'.
Proof.
  induction 1 as [|? ? ? ? ? ? ? ? ? Hm|? ? ? ? ? ? ? ? Hd]; intros Hu; [done| |].
  - apply IHmark_roots. by eapply (proj1 (mark_uints succ pinned rc col)).
  - apply IHmark_roots. intros x. destruct (Hd x) as (-> & _). apply Hu.
Qed.

(** Marking from the roots. *)
Lemma mark_roots_spec rs s ns ks s' :
  mark_roots succ pinned rc col rooted rs s ns ks s' →
  marked pinned rc col ns (edges ns) s s' ∧
  (∀ x y, x ∈ ns → y ∈ succ x → pinned y = false → col s' y = GC_GREY) ∧
  (∀ x, x ∈ ns → ∃ k, k ∈ ks ∧ reach k x) ∧
  (∀ k, k ∈ ks → k ∈ rs ∧ col s k = GC_PURPLE ∧ (pinned k = false → col s' k = GC_GREY)) ∧
  (∀ r, r ∈ rs → pinned r = false → col s r = GC_PURPLE → col s' r = GC_GREY) ∧
  (∀ x, rooted s' x = true → rooted s x = true ∧ (x ∈ rs → x ∈ ks)).
Proof.
  induction 1 as [s|r rs s ns1 s1 ns2 ks s2 Hp Hm Hro _ (M2 & Hs2 & Hr2 & Hk2 & Hg2 & Hro2)
    |r rs s s1 ns ks s2 Hp Hd _ (M2 & Hs2 & Hr2 & Hk2 & Hg2 & Hro2)].
  - split_and!; try (intros; exfalso; eapply not_elem_of_nil; eassumption); [|set_solver]. split; try done; [constructor|set_solver|by left|].
    intros x _. simpl. by rewrite Z.sub_0_r.
  - destruct (proj1 (mark_spec succ pinned rc col) _ _ _ _ Hm) as (M1 & Hr & Hreach & Hs1).
    assert (∀ x, pinned x = false → col s1 x = GC_GREY ∨ col s1 x = col s x) as Hc1.
    { intros x Hx. rewrite (mk_col _ _ _ _ _ _ _ M1) by done. case_decide; auto. }
    split_and!.
    + by eapply marked_app.
    + intros x y [Hx|Hx]%elem_of_app Hy Hpy; [|by eapply Hs2]. eapply marked_keeps; [exact M2|done|by eapply Hs1].
    + intros x [Hx|Hx]%elem_of_app; [exists r; set_solver|]. destruct (Hr2 x Hx) as (k & ? & ?). exists k. set_solver.
    + intros k [->|Hk]%elem_of_cons.
      * split_and!; [set_solver|done|]. intros Hpr. eapply marked_keeps; [exact M2|done|auto].
      * destruct (Hk2 k Hk) as (? & Hkp & ?). split_and!; [set_solver| |done].
        destruct (pinned k) eqn:Hpk.
        -- destruct (mk_pin _ _ _ _ _ _ _ M1 k Hpk); congruence.
        -- destruct (Hc1 k Hpk); congruence.
    + intros x [->|Hx]%elem_of_cons Hpx Hpur; [eapply marked_keeps; [exact M2|done|auto]|].
      destruct (Hc1 x Hpx) as [Hg|Hg]; [eapply marked_keeps; [exact M2|done|done]|]. apply Hg2; congruence.
    + intros x Hx. destruct (Hro2 x Hx) as [Hx1 Hx2]. rewrite Hro in Hx1. split; [done|]. set_solver.
  - assert (∀ x, rc s1 x = rc s x ∧ col s1 x = col s x) as Hsame by (intros x; by destruct (Hd x) as (? & ? & ?)).
    assert (∀ x, col s1 x = col s x) as Hc by apply Hsame.
    split_and!; try done.
    + destruct M2 as [A1 A2 A3 A4 A5 A6]. split; try done; intros x; destruct (Hsame x) as [Ha Hb]; rewrite <- ?Ha, <- ?Hb; auto.
    + intros k Hk. destruct (Hk2 k Hk) as (? & ? & ?). rewrite <- Hc. set_solver.
    + intros x [->|Hx]%elem_of_cons Hpx Hpur; [done|]. apply Hg2; [done..|by rewrite Hc].
    + intros x Hx. destruct (Hro2 x Hx) as [Hx1 Hx2]. destruct (Hd x) as (_ & _ & Hr). rewrite Hr in Hx1.
      case_decide; [done|]. split; [done|]. set_solver.
Qed.
End collect.
