(* ===== verification/TrialGarbage.v ===== *)
(** A whole collection: the nodes it takes are exactly the garbage that can
    be reached from the purple roots. *)

From stdpp Require Import relations.
From S2P Require Import Prelude TrialDeletion TrialScan TrialCollect.

Section garbage.
Context {N S : Type} `{EqDecision N} (succ : N → list N) (pinned : N → bool).
Context (rc : S → N → Z) (col : S → N → gc_color) (listed : S → N → Z) (rooted : S → N → bool) (restored : N → bool).
Context (pinned_leaf : ∀ x, pinned x = true → succ x = []).
Implicit Types (s : S) (x y : N) (rs ns D : list N).

Abbreviation edges := (edges succ).
Abbreviation reach := (rtc (step succ)).
Abbreviation net := (net rc listed).

(** Between collections no node is grey or white. *)
Definition clean s : Prop := ∀ x, col s x = GC_BLACK ∨ col s x = GC_PURPLE.

(** Every reference is counted: a count is never below the number of edges
    that arrive at the node. *)
Definition counted s : Prop := ∀ L x, NoDup L → pinned x = false → edges L x <= rc s x.

(** [D] is garbage: its nodes are referenced from [D] only. *)
Record garbage_set s D : Prop := {
  gb_nodup : NoDup D;
  gb_pin : ∀ x, x ∈ D → pinned x = false;
  gb_rc : ∀ x, x ∈ D → rc s x = edges D x;
}.

(** [D] can be reached from the purple nodes among [rs]. *)
Definition from_roots rs s D : Prop := ∀ x, x ∈ D → ∃ r, r ∈ rs ∧ col s r = GC_PURPLE ∧ reach r x.

(** What refers to garbage is garbage. *)
Lemma garbage_pred s D n x : counted s → garbage_set s D → x ∈ D → x ∈ succ n → n ∈ D.
Proof using Type.
  intros Hc [Hnd Hp Hrc] Hx Hn. destruct (decide (n ∈ D)) as [|Hout]; [done|exfalso].
  pose proof (Hc (n :: D) x (NoDup_cons_2 _ _ Hout Hnd) (Hp x Hx)) as Hle. rewrite Hrc in Hle by done. simpl in Hle.
  pose proof (proj2 (occs_pos succ x (succ n)) Hn). lia.
Qed.

Lemma garbage_back s D n x : counted s → garbage_set s D → x ∈ D → reach n x → n ∈ D.
Proof using Type.
  intros Hc HD Hx Hr. induction Hr as [x|n m x Hstep _ IH]; [done|].
  by apply (garbage_pred s D n m); [..|apply IH|exact Hstep].
Qed.

(** On a finite graph it is enough to count the references once. *)
Lemma counted_finite s U : NoDup U → (∀ n, n ∉ U → succ n = []) → (∀ x, 0 <= rc s x) →
  (∀ x, x ∈ mjoin (succ <$> U) → pinned x = false → edges U x <= rc s x) → counted s.
Proof using Type.
  clear col listed rooted restored. intros HU Hout H0 HUx L x HL Hp. transitivity (edges U x).
  - transitivity (edges (filter (λ n, n ∈ U) L) x).
    + rewrite (edges_filter succ (λ n, n ∈ U) L x).
      destruct (decide (0 < edges (filter (λ n, ¬ n ∈ U) L) x)) as [He|]; [|lia].
      apply (edges_pos succ) in He as (n & [Hn _]%list_elem_of_filter & Hx). rewrite Hout in Hx by done. by apply elem_of_nil in Hx.
    + rewrite (edges_filter succ (λ n, n ∈ L) U x). pose proof (edges_nonneg succ (filter (λ n, ¬ n ∈ L) U) x).
      assert (edges (filter (λ n, n ∈ U) L) x = edges (filter (λ n, n ∈ L) U) x); [|lia].
      apply edges_perm; [|done]. apply NoDup_Permutation; [by apply NoDup_filter..|].
      intros n. rewrite !list_elem_of_filter. tauto.
  - destruct (decide (0 < edges U x)) as [He|He]; [|specialize (H0 x); lia]. apply HUx; [|done].
    apply (edges_pos succ) in He as (n & Hn & Hx). apply list_elem_of_join. eauto using list_elem_of_fmap_2.
Qed.

Record collection rs s0 G ks s1 s2 ns s3 : Prop := {
  cn_mark : mark_roots succ pinned rc col rooted rs s0 G ks s1;
  cn_scan : scan_list succ pinned rc col ks s1 s2;
  cn_rooted : ∀ x, rooted s2 x = rooted s1 x;
  cn_listed : ∀ x, listed s2 x = 0;
  cn_collect : collect_roots succ pinned rc col listed rooted restored ks s2 ns s3;
}.

Context rs s0 G ks s1 s2 ns s3 (C : collection rs s0 G ks s1 s2 ns s3).
Context (Huint : uints rc s0) (Hclean : clean s0) (Hcount : counted s0).

Abbreviation ext := (λ x, rc s0 x - edges G x).

(** ** After marking *)

Let M := mark_roots_spec succ pinned rc col listed rooted restored rs s0 G ks s1 (cn_mark _ _ _ _ _ _ _ _ C).

Lemma marked_set : grey_set succ pinned G ext.
Proof.
  destruct M as ([M1 M2 M3 M4 M5 M6] & Hs & _). split; [done| | |].
  - intros x Hx. by apply M2.
  - intros x y Hx Hy. destruct (pinned y) eqn:Hp; [auto|]. right.
    specialize (Hs x y Hx Hy Hp). rewrite M3 in Hs by done. case_decide; [done|].
    destruct (Hclean y); congruence.
  - intros x Hx. pose proof (Hcount G x M1 ltac:(by apply M2)). pose proof (Huint x).
    pose proof (edges_nonneg succ G x). lia.
Qed.

Lemma marked_grey x : x ∈ G → col s1 x = GC_GREY.
Proof.
  destruct M as ([M1 M2 M3 M4 M5 M6] & _). intros Hx. rewrite M3 by by apply M2. by rewrite decide_True.
Qed.

Lemma marked_out x : x ∉ G → col s1 x = GC_BLACK ∨ col s1 x = GC_PURPLE.
Proof.
  destruct M as ([M1 M2 M3 M4 M5 M6] & _). intros Hx. destruct (pinned x) eqn:Hp.
  - destruct (M4 x Hp) as [->|?]; auto.
  - rewrite M3 by done. rewrite decide_False by done. apply Hclean.
Qed.

Lemma marked_kept x : x ∈ G → ∃ k, k ∈ ks ∧ k ∈ G ∧ reach k x.
Proof.
  destruct M as ([M1 M2 M3 M4 M5 M6] & _ & Hr & Hk & _). intros Hx. destruct (Hr x Hx) as (k & Hk' & Hreach).
  exists k. split_and!; [done| |done]. destruct (Hk k Hk') as (_ & Hp & Hg).
  destruct (pinned k) eqn:Hpk.
  - destruct (M2 x Hx) as [_ Hpx]. inversion Hreach as [|? y ? Hst]; subst; [congruence|].
    unfold step in Hst. rewrite pinned_leaf in Hst by done. set_solver.
  - specialize (Hg eq_refl). rewrite M3 in Hg by done. case_decide; congruence.
Qed.

(** A node that a purple root reaches has been marked. *)
Lemma marked_reach r x : r ∈ rs → col s0 r = GC_PURPLE → reach r x → pinned x = true ∨ x ∈ G.
Proof.
  destruct M as ([M1 M2 M3 M4 M5 M6] & _ & _ & _ & Hg & _). intros Hr Hp.
  apply (reach_closed succ (λ x, pinned x = true ∨ x ∈ G)).
  - intros a b [Ha|Ha] Hb; [rewrite pinned_leaf in Hb by done; set_solver|by apply (gs_succ _ _ _ _ marked_set a)].
  - destruct (pinned r) eqn:Hpr; [auto|]. right. specialize (Hg r Hr Hpr Hp). rewrite M3 in Hg by done.
    case_decide; congruence.
Qed.

Lemma marked_scanning : scanning succ pinned rc col G ext s1.
Proof.
  destruct M as (Mk & _). pose proof Mk as [M1 M2 M3 M4 M5 M6].
  pose proof (mark_roots_uints succ pinned rc col rooted rs s0 G ks s1 (cn_mark _ _ _ _ _ _ _ _ C) Huint) as Hu.
  split; try (intros x Hx; pose proof (marked_grey x Hx) as Hg; intros; congruence).
  - done.
  - intros x Hx Hg. destruct (marked_out x Hx); congruence.
  - intros x Hx. left. by apply marked_grey.
  - intros x Hx. rewrite M5 by by apply M2. apply eq_subrelation; [apply _|].
    assert (filter (λ n, col s1 n = GC_BLACK) G = []) as ->; [|simpl; lia].
    apply elem_of_nil_inv. intros y [Hb Hy]%list_elem_of_filter. by rewrite marked_grey in Hb.
  - intros x y Hx. by rewrite marked_grey.
Qed.

(** ** After scanning *)

Let R := scan_result succ pinned rc col G ext marked_set pinned_leaf ks s1 s2
  (cn_scan _ _ _ _ _ _ _ _ C) marked_scanning marked_grey marked_kept.

Lemma scanned_rc x : pinned x = false → eqm (rc s2 x) (rc s0 x - edges (filter (λ n, col s2 n ≠ GC_BLACK) G) x).
Proof.
  destruct R as (Hs & Hf & _). intros Hp. destruct (decide (x ∈ G)) as [Hx|Hx].
  - rewrite (sc_rc _ _ _ _ _ _ _ Hs x Hx). apply eq_subrelation; [apply _|].
    rewrite (edges_filter succ (λ n, col s2 n = GC_BLACK) G x). lia.
  - destruct (Hf x Hx) as [-> _]. destruct M as ([M1 M2 M3 M4 M5 M6] & _). rewrite M5 by done.
    apply eq_subrelation; [apply _|].
    assert (∀ P `{∀ n, Decision (P n)}, edges (filter P G) x = 0) as Hz.
    { intros P ?. destruct (decide (0 < edges (filter P G) x)) as [Hpos|]; [|pose proof (edges_nonneg succ (filter P G) x); lia].
      apply edges_pos in Hpos as (m & [_ Hm]%list_elem_of_filter & Hxm).
      destruct (gs_succ _ _ _ _ marked_set m x Hm Hxm); congruence. }
    rewrite Hz. rewrite (edges_filter succ (λ n, col s2 n = GC_BLACK) G x), !Hz. lia.
Qed.

Lemma scanned_white x : col s2 x = GC_WHITE ↔ x ∈ G ∧ col s2 x ≠ GC_BLACK.
Proof.
  destruct R as (Hs & Hf & Hr). split.
  - intros Hw. destruct (decide (x ∈ G)) as [|Hx]; [split; congruence|].
    destruct (Hf x Hx) as [_ [Hc|[_ Hc]]]; [|congruence]. destruct (marked_out x Hx); congruence.
  - intros [Hx Hb]. destruct (Hr x Hx) as [[? _]|[? _]]; [done|done].
Qed.

(** A black node of [G] only leads to black nodes and pinned ones. *)
Lemma scanned_black a b : a ∈ G → col s2 a = GC_BLACK → b ∈ succ a → pinned b = true ∨ b ∈ G ∧ col s2 b = GC_BLACK.
Proof.
  destruct R as (Hs & _). intros Ha Hc Hb. destruct (gs_succ _ _ _ _ marked_set a b Ha Hb) as [?|HbG]; [auto|].
  right. split; [done|]. apply (sc_black _ _ _ _ _ _ _ Hs a b); [done..|]. by apply (gs_pin _ _ _ _ marked_set).
Qed.

(** ** After collecting *)

Let K := collect_roots_spec succ pinned rc col listed rooted restored ks s2 ns s3 (cn_collect _ _ _ _ _ _ _ _ C).

Context (Hrooted : ∀ x, rooted s0 x = true → x ∈ rs).

Lemma collected_unrooted x : rooted s3 x = false.
Proof.
  destruct M as (_ & _ & _ & _ & _ & Hro). destruct K as (_ & Hr & _). destruct (rooted s3 x) eqn:E; [|done].
  apply Hr in E as [E Hks]. rewrite (cn_rooted _ _ _ _ _ _ _ _ C) in E. destruct (Hro x E) as [E' Hk]. by destruct Hks; auto.
Qed.

Lemma collected_white x : x ∈ ns ↔ col s2 x = GC_WHITE.
Proof.
  destruct K as ([C1 C2 C3 C4 C5] & Hr & Hd & Hs). split; [auto|]. intros Hw.
  assert (∀ y, col s2 y = GC_WHITE → col s3 y ≠ GC_WHITE → y ∈ ns) as Htaken.
  { intros y Hy Hn. specialize (C3 y). case_decide; [done|congruence]. }
  destruct (proj1 (scanned_white x) Hw) as [HxG _]. destruct (marked_kept x HxG) as (k & Hk & HkG & Hreach).
  cut (pinned x = true ∨ x ∈ ns ∨ x ∈ G ∧ col s2 x = GC_BLACK).
  { intros [Hp|[?|[_ ?]]]; [|done|congruence]. by rewrite (gs_pin _ _ _ _ marked_set) in Hp. }
  revert Hreach. apply (reach_closed succ (λ x, pinned x = true ∨ x ∈ ns ∨ x ∈ G ∧ col s2 x = GC_BLACK)).
  - intros a b [Ha|[Ha|[Ha Hab]]] Hb.
    + rewrite pinned_leaf in Hb by done. set_solver.
    + pose proof (proj1 (scanned_white a) (C2 a Ha)) as [HaG _].
      destruct (gs_succ _ _ _ _ marked_set a b HaG Hb) as [?|HbG]; [auto|]. right.
      destruct (decide (col s2 b = GC_BLACK)) as [|Hnb]; [auto|]. left. apply Htaken; [by apply scanned_white|].
      destruct (Hs a b Ha Hb) as [?|Hro]; [done|]. by rewrite collected_unrooted in Hro.
    + destruct (scanned_black a b Ha Hab Hb); auto.
  - destruct (decide (col s2 k = GC_BLACK)); [auto|]. right. left. apply Htaken; [by apply scanned_white|auto].
Qed.

Lemma collected_edges x : edges (filter (λ n, col s2 n ≠ GC_BLACK) G) x = edges ns x.
Proof.
  destruct M as ([M1 _ _ _ _ _] & _). destruct K as ([C1 _ _ _ _] & _). apply edges_perm; [|done].
  apply NoDup_Permutation; [by apply NoDup_filter|done|]. intros y.
  rewrite collected_white, scanned_white, list_elem_of_filter. tauto.
Qed.

Lemma collected_ext x : x ∈ ns → x ∈ G ∧ ext x = 0 ∧ ∀ m, m ∈ G → x ∈ succ m → m ∈ ns.
Proof.
  destruct R as (Hs & _ & Hr). intros [HxG Hnb]%collected_white%scanned_white.
  assert (pinned x = false) as Hp by by apply (gs_pin _ _ _ _ marked_set).
  destruct (Hr x HxG) as [[? _]|(Hw & Hz & Hu)]; [done|]. split_and!; [done| |].
  - by apply (sc_white _ _ _ _ _ _ _ Hs).
  - intros m Hm Hx. apply collected_white, scanned_white. split; [done|]. intros Hb.
    destruct (scanned_black m x Hm Hb Hx) as [?|[_ ?]]; congruence.
Qed.

(** What the collection takes is garbage. *)
Lemma collection_sound : garbage_set s0 ns ∧ from_roots rs s0 ns.
Proof.
  destruct K as ([C1 C2 C3 C4 C5] & _). split; [split; [done|..]|].
  - intros x [Hx _]%collected_ext. by apply (gs_pin _ _ _ _ marked_set).
  - intros x Hx. destruct (collected_ext x Hx) as (HxG & He & Hpred). pose proof He as He'.
    rewrite <- collected_edges.
    rewrite (edges_filter succ (λ n, col s2 n = GC_BLACK) G x) in He'.
    destruct (decide (0 < edges (filter (λ n, col s2 n = GC_BLACK) G) x)) as [Hpos|];
      [|pose proof (edges_nonneg succ (filter (λ n, col s2 n = GC_BLACK) G) x); lia].
    apply edges_pos in Hpos as (m & [Hb Hm]%list_elem_of_filter & Hxm).
    pose proof (Hpred m Hm Hxm) as [_ ?]%collected_white%scanned_white. done.
  - intros x [Hx _]%collected_ext. destruct M as (_ & _ & Hr & Hk & _). destruct (Hr x Hx) as (k & Hks & ?).
    destruct (Hk k Hks) as (? & ? & _). eauto.
Qed.

(** What is garbage and can be reached from the purple roots is taken. *)
Lemma collection_complete D x : garbage_set s0 D → from_roots rs s0 D → x ∈ D → x ∈ ns.
Proof.
  intros [D1 D2 D3] Hfr Hx.
  assert (∀ y, y ∈ D → y ∈ G) as HDG.
  { intros y Hy. destruct (Hfr y Hy) as (r & Hr & Hp & Hreach). destruct (marked_reach r y Hr Hp Hreach) as [Hpy|]; [|done].
    by rewrite D2 in Hpy. }
  assert (∀ a b, b ∈ D → b ∈ succ a → a ∈ D) as Hpred.
  { intros a b Hb Hab. destruct (decide (a ∈ D)) as [|Ha]; [done|]. exfalso.
    assert (NoDup (a :: D)) as Hnd by by constructor.
    pose proof (Hcount (a :: D) b Hnd (D2 b Hb)) as Hc. rewrite D3 in Hc by done. simpl in Hc.
    apply (occs_pos succ) in Hab. pose proof (edges_nonneg succ D b). lia. }
  apply collected_white. destruct R as (_ & _ & Hr). destruct (Hr x (HDG x Hx)) as [[_ (y & HyG & Hext & Hreach)]|[? _]]; [|done].
  exfalso. assert (y ∈ D) as Hy. { clear -Hreach Hx Hpred. induction Hreach as [|a b c Hab _ IH]; [done|]. eapply Hpred; [by apply IH|done]. }
  rewrite D3 in Hext by done. assert (edges D y <= edges G y); [|lia].
  destruct M as ([M1 _ _ _ _ _] & _). pose proof (edges_filter succ (λ n, n ∈ D) G y) as Hsplit.
  assert (edges (filter (λ n, n ∈ D) G) y = edges D y) as He; [|rewrite Hsplit, He; pose proof (edges_nonneg succ (filter (λ n, ¬ n ∈ D) G) y); lia]. apply edges_perm; [|done].
  apply NoDup_Permutation; [by apply NoDup_filter|done|]. intros z. rewrite list_elem_of_filter. naive_solver.
Qed.

(** The counts afterwards: those of zvals are what they were, the list's own
    reference apart; objects have lost the references that garbage held. *)
Lemma collection_counts x : pinned x = false →
  eqm (net s3 x) (if restored x then rc s0 x else rc s0 x - edges ns x).
Proof.
  destruct K as ([C1 C2 C3 C4 C5] & _). intros Hp.
  assert (eqm (net s2 x) (rc s0 x - edges ns x)) as Hn.
  { unfold TrialCollect.net. rewrite (cn_listed _ _ _ _ _ _ _ _ C), Z.sub_0_r, <- collected_edges. by apply scanned_rc. }
  destruct (restored x) eqn:Hr.
  - etrans; [by apply C4|]. rewrite Hn. apply eq_subrelation; [apply _|]. lia.
  - by rewrite C5 by auto.
Qed.

Lemma collection_clean : clean s3.
Proof.
  destruct K as ([C1 C2 C3 C4 C5] & _). destruct R as (Hs & Hf & Hr). intros x. specialize (C3 x). case_decide as Hx; [done|].
  rewrite C3. destruct (decide (x ∈ G)) as [HxG|HxG].
  - destruct (Hr x HxG) as [[-> _]|[Hw _]]; [auto|]. by rewrite collected_white in Hx.
  - destruct (Hf x HxG) as [_ [->|[_ ->]]]; [by apply marked_out|auto].
Qed.
End garbage.
