(* ===== verification/ZendGcHeap.v ===== *)
(** The memory the cycle collector and the object store work on: zvals with
    their collector word (Zend/zend.h, Zend/zend_gc.h), the object buckets
    (Zend/zend_objects_API.h), the root buffer and the collector's globals.

    A hash table is seen here as the list of zvals that [pListHead] and
    [pListNext] run through, which is how the collector reads it. *)

From S2P Require Import Prelude Dll TrialDeletion.

(** * The collector word

    The last two bits of the [buffered] pointer hold the colour; the rest is
    the address of an entry of the root buffer or, in a zval on the list of
    zvals to free, the next one. *)

Inductive gc_addr := ANull | ARoot (r : ptr) | AZval (z : ptr) | AEnd.
#[export] Instance gc_addr_eq_dec : EqDecision gc_addr.
Proof. solve_decision. Defined.

Record gc_word := GcWord { gc_address : gc_addr; gc_get_color : gc_color }.
#[export] Instance gc_word_eq_dec : EqDecision gc_word.
Proof. solve_decision. Defined.

Definition FREE_LIST_END : gc_addr := AEnd.
Definition gc_set_address (v : gc_word) (a : gc_addr) : gc_word := GcWord a (gc_get_color v).
Definition gc_set_color (v : gc_word) (c : gc_color) : gc_word := GcWord (gc_address v) c.
Definition gc_set_black (v : gc_word) : gc_word := GcWord (gc_address v) GC_BLACK.
Definition gc_set_purple (v : gc_word) : gc_word := GcWord (gc_address v) GC_PURPLE.
(** [buffered = NULL] and the comparison with [(gc_root_buffer* ) GC_WHITE]. *)
Definition gc_null : gc_word := GcWord ANull GC_BLACK.
Definition gc_is_white (v : gc_word) : bool := bool_decide (v = GcWord ANull GC_WHITE).
(** [u.next = p]: a pointer to a zval has its last bits clear. *)
Definition gc_next (p : gc_addr) : gc_word := GcWord p GC_BLACK.

(** * Values *)

(** What the collector distinguishes of a value. *)
Inductive zvalue :=
  | IS_SCALAR
  | IS_ARRAY (ht : ptr)
  | IS_OBJECT (handle : Z) (handlers : ptr).
#[export] Instance zvalue_eq_dec : EqDecision zvalue.
Proof. solve_decision. Defined.

Record zval_gc_info := { z_value : zvalue; refcount__gc : Z; u_buffered : gc_word }.

(** * Object buckets *)

(** The first word of the bucket's union: the object, or the next free
    handle. *)
Inductive store_word := SObject (object : nptr) | SNext (next : Z).

Record zend_object_store_bucket := {
  destructor_called : bool;
  valid : bool;
  apply_count : Z;
  obj_object : store_word;
  obj_dtor : nptr;
  obj_free_storage : nptr;
  obj_clone : nptr;
  obj_handlers : nptr;
  obj_refcount : Z;
  obj_buffered : gc_word;
}.

(** [object_buckets] holds the slots that have been written; [os_block] tells
    one allocation of the array from the next, so that a pointer into an array
    that has been reallocated can be seen to dangle. *)
Record zend_objects_store := {
  object_buckets : option (gmap Z zend_object_store_bucket);
  os_block : positive;
  top : Z;
  os_size : Z;
  free_list_head : Z;
}.

(** * Globals *)

Inductive root_u := u_pz (pz : ptr) | u_handlers (handlers : ptr).

Record gc_root_buffer := { rb_prev : nptr; rb_next : nptr; rb_handle : Z; rb_u : option root_u }.

(** [&GC_G(roots)] and [&GC_G(buf)[0]], as addresses. *)
Definition GC_ROOTS : ptr := 1%positive.
Definition GC_BUF : ptr := 2%positive.

(** [root_mem] holds the sentinel [GC_G(roots)] and the entries of [GC_G(buf)]
    that have been written. *)
Record zend_gc_globals := {
  gc_enabled : bool;
  gc_active : bool;
  buf : nptr;
  root_mem : gmap ptr gc_root_buffer;
  unused : nptr;
  first_unused : nptr;
  last_unused : nptr;
  zval_to_free : gc_addr;
  free_list : gc_addr;
  next_to_free : gc_addr;
  gc_runs : Z;
  gc_collected : Z;
}.

(** * The world

    What an object refers to is known to its [get_gc] handler only: it returns
    an array of zvals (with [NULL] holes) and maybe a hash table.  [mem] is
    the memory such handlers read. *)
Class Handlers := {
  mem : Type;
  get_gc : ptr → option (mem → Z → list nptr * nptr);
}.

Record world `{Handlers} := {
  zvals : gmap ptr zval_gc_info;
  tables : gmap ptr (list ptr);
  symbol_table : ptr;
  objects_store : zend_objects_store;
  gc_globals : zend_gc_globals;
  memory : mem;
}.

Section access.
Context `{Handlers}.
Implicit Types (w : world) (z : ptr) (h : Z).

Definition set_zvals w m : world :=
  {| zvals := m; tables := tables w; symbol_table := symbol_table w; objects_store := objects_store w;
     gc_globals := gc_globals w; memory := memory w |}.
Definition set_store w s : world :=
  {| zvals := zvals w; tables := tables w; symbol_table := symbol_table w; objects_store := s;
     gc_globals := gc_globals w; memory := memory w |}.
Definition set_globals w g : world :=
  {| zvals := zvals w; tables := tables w; symbol_table := symbol_table w; objects_store := objects_store w;
     gc_globals := g; memory := memory w |}.

(** [*pz] *)
Definition zv w z : outcome zval_gc_info := rd (zvals w !! z).
(** [pz->field = ...] *)
Definition zv_upd w z (f : zval_gc_info → zval_gc_info) : outcome world :=
  let* m := store (zvals w) z f in OK (set_zvals w m).

Definition zv_set_refcount (f : Z → Z) (x : zval_gc_info) : zval_gc_info :=
  {| z_value := z_value x; refcount__gc := uint_wrap (f (refcount__gc x)); u_buffered := u_buffered x |}.
Definition zv_set_u (f : gc_word → gc_word) (x : zval_gc_info) : zval_gc_info :=
  {| z_value := z_value x; refcount__gc := refcount__gc x; u_buffered := f (u_buffered x) |}.
Definition zv_set_value (v : zvalue) (x : zval_gc_info) : zval_gc_info :=
  {| z_value := v; refcount__gc := refcount__gc x; u_buffered := u_buffered x |}.

(** [EG(objects_store).object_buckets[handle]]; undefined when the array is
    not there or the slot has not been written. *)
Definition bucket w h : outcome zend_object_store_bucket :=
  let* bs := rd (object_buckets (objects_store w)) in rd (bs !! h).

Definition set_buckets (s : zend_objects_store) bs : zend_objects_store :=
  {| object_buckets := bs; os_block := os_block s; top := top s; os_size := os_size s;
     free_list_head := free_list_head s |}.

Definition bucket_upd w h (f : zend_object_store_bucket → zend_object_store_bucket) : outcome world :=
  let* bs := rd (object_buckets (objects_store w)) in
  let* b := rd (bs !! h) in
  OK (set_store w (set_buckets (objects_store w) (Some (<[h := f b]> bs)))).

Definition obj_set_refcount (f : Z → Z) (b : zend_object_store_bucket) : zend_object_store_bucket :=
  {| destructor_called := destructor_called b; valid := valid b; apply_count := apply_count b;
     obj_object := obj_object b; obj_dtor := obj_dtor b; obj_free_storage := obj_free_storage b;
     obj_clone := obj_clone b; obj_handlers := obj_handlers b;
     obj_refcount := uint_wrap (f (obj_refcount b)); obj_buffered := obj_buffered b |}.
Definition obj_set_buffered (f : gc_word → gc_word) (b : zend_object_store_bucket) : zend_object_store_bucket :=
  {| destructor_called := destructor_called b; valid := valid b; apply_count := apply_count b;
     obj_object := obj_object b; obj_dtor := obj_dtor b; obj_free_storage := obj_free_storage b;
     obj_clone := obj_clone b; obj_handlers := obj_handlers b;
     obj_refcount := obj_refcount b; obj_buffered := f (obj_buffered b) |}.
Definition bk_set_flags (called vld : bool) (b : zend_object_store_bucket) : zend_object_store_bucket :=
  {| destructor_called := called; valid := vld; apply_count := apply_count b;
     obj_object := obj_object b; obj_dtor := obj_dtor b; obj_free_storage := obj_free_storage b;
     obj_clone := obj_clone b; obj_handlers := obj_handlers b;
     obj_refcount := obj_refcount b; obj_buffered := obj_buffered b |}.
Definition obj_set_object (o : store_word) (hd : nptr) (b : zend_object_store_bucket) : zend_object_store_bucket :=
  {| destructor_called := destructor_called b; valid := valid b; apply_count := apply_count b;
     obj_object := o; obj_dtor := obj_dtor b; obj_free_storage := obj_free_storage b;
     obj_clone := obj_clone b; obj_handlers := hd;
     obj_refcount := obj_refcount b; obj_buffered := obj_buffered b |}.

(** [EG(objects_store).object_buckets != NULL] *)
Definition has_store w : bool := bool_decide (is_Some (object_buckets (objects_store w))).

(** [Z_TYPE_P(pz) == IS_ARRAY && Z_ARRVAL_P(pz) == &EG(symbol_table)] *)
Definition is_symbol_table w (v : zvalue) : bool :=
  match v with IS_ARRAY ht => bool_decide (ht = symbol_table w) | _ => false end.
End access.

(** * The standard handlers

    [zend_std_get_gc]: an object whose [get_properties] is not the standard one
    answers with what that handler returns; otherwise it either has its
    property table or the fixed array of its declared properties. *)
Record zend_object := { properties : nptr; properties_table : list nptr }.

Definition zend_std_get_gc (get_properties : option (gmap Z zend_object → Z → nptr))
    (objs : gmap Z zend_object) (handle : Z) : list nptr * nptr :=
  match get_properties with
  | Some f => ([], f objs handle)
  | None =>
      match objs !! handle with
      | Some zobj =>
          match properties zobj with
          | Some ht => ([], Some ht)
          | None => (properties_table zobj, None)
          end
      | None => ([], None)
      end
  end.

(** The address of [std_object_handlers]; the proxy handlers, like any other
    here, have no [get_gc]. *)
Definition std_object_handlers : ptr := 1%positive.

Definition std_handlers : Handlers := {|
  mem := gmap Z zend_object;
  get_gc hd := if bool_decide (hd = std_object_handlers) then Some (zend_std_get_gc None) else None;
|}.
