(* ===== verification/ZendGc.v ===== *)
(** The three traversals of Zend/zend_gc.c: marking grey, scanning, collecting
    white.

    [goto tail_call] on the last element of a list is the call it replaces.
    The recursion takes fuel; [gc_fuel] is one more than the number of zvals,
    and ZendGcSim shows that this is enough. *)

From S2P Require Import Prelude Dll TrialDeletion ZendGcHeap.

Section gc.
Context `{Handlers}.
Implicit Types (w : world) (z pz : ptr) (h : Z).

Definition gc_fuel w : nat := S (size (zvals w)).

(** [if (Z_TYPE_P(pz) != IS_ARRAY || Z_ARRVAL_P(pz) != &EG(symbol_table))
    pz->refcount__gc += d] *)
Definition count_ref (d : Z) pz w : outcome world :=
  let* x := zv w pz in
  if is_symbol_table w (z_value x) then OK w
  else zv_upd w pz (zv_set_refcount (λ r, r + d)).

(** [for (i = 0; i < n; i++) if (table[i]) ...], and the loop over a hash
    table from [pListHead]. *)
Fixpoint each (f : ptr → world → outcome world) (table : list nptr) w : outcome world :=
  match table with
  | [] => OK w
  | None :: table => each f table w
  | Some pz :: table => let* w := f pz w in each f table w
  end.
Definition each_in (f : ptr → world → outcome world) (ht : ptr) w : outcome world :=
  let* l := rd (tables w !! ht) in each f (Some <$> l) w.
Definition each_prop (f : ptr → world → outcome world) (props : nptr) w : outcome world :=
  match props with None => OK w | Some ht => each_in f ht w end.

(** [valid && (get_gc = Z_OBJ_HANDLER_P(pz, get_gc)) != NULL], and then the
    result of the call. *)
Definition object_gc h (hd : ptr) w : outcome (option (list nptr * nptr)) :=
  let* b := bucket w h in
  OK (if valid b then match get_gc hd with Some g => Some (g (memory w) h) | None => None end else None).

(** The zvals of an object, those of the array first. *)
Definition each_of_object (f : ptr → world → outcome world) h hd w : outcome world :=
  let* r := object_gc h hd w in
  match r with
  | None => OK w
  | Some (table, props) => let* w := each f table w in each_prop f props w
  end.

(** ** Marking grey *)

Fixpoint zval_mark_grey (fuel : nat) pz w : outcome world :=
  match fuel with
  | O => UB
  | S fuel =>
      let* x := zv w pz in
      if decide (gc_get_color (u_buffered x) = GC_GREY) then OK w
      else
        let visit z w := let* w := count_ref (-1) z w in zval_mark_grey fuel z w in
        let* w := zv_upd w pz (zv_set_u (λ v, gc_set_color v GC_GREY)) in
        match z_value x with
        | IS_OBJECT h hd =>
            if has_store w then
              let* w := bucket_upd w h (obj_set_refcount (λ r, r - 1)) in
              let* b := bucket w h in
              if decide (gc_get_color (obj_buffered b) = GC_GREY) then OK w
              else
                let* w := bucket_upd w h (obj_set_buffered (λ v, gc_set_color v GC_GREY)) in
                each_of_object visit h hd w
            else OK w
        | IS_ARRAY ht =>
            if bool_decide (ht = symbol_table w) then zv_upd w pz (zv_set_u gc_set_black)
            else each_in visit ht w
        | IS_SCALAR => OK w
        end
  end.

Definition zobj_mark_grey h hd w : outcome world :=
  let fuel := gc_fuel w in
  let visit z w := let* w := count_ref (-1) z w in zval_mark_grey fuel z w in
  let* b := bucket w h in
  if decide (gc_get_color (obj_buffered b) = GC_GREY) then OK w
  else
    let* w := bucket_upd w h (obj_set_buffered (λ v, gc_set_color v GC_GREY)) in
    each_of_object visit h hd w.

(** ** Scanning *)

(** The reference to [z] is counted again; [scan] goes on with [z] unless it
    is black. *)
Definition visit_black (scan_black : ptr → world → outcome world) z w : outcome world :=
  let* w := count_ref 1 z w in
  let* x := zv w z in
  if decide (gc_get_color (u_buffered x) = GC_BLACK) then OK w else scan_black z w.

Fixpoint zval_scan_black (fuel : nat) pz w : outcome world :=
  match fuel with
  | O => UB
  | S fuel =>
      let visit := visit_black (zval_scan_black fuel) in
      let* x := zv w pz in
      let* w := zv_upd w pz (zv_set_u gc_set_black) in
      match z_value x with
      | IS_OBJECT h hd =>
          if has_store w then
            let* w := bucket_upd w h (obj_set_refcount (λ r, r + 1)) in
            let* b := bucket w h in
            if decide (gc_get_color (obj_buffered b) = GC_BLACK) then OK w
            else
              let* w := bucket_upd w h (obj_set_buffered gc_set_black) in
              each_of_object visit h hd w
          else OK w
      | IS_ARRAY ht => if bool_decide (ht = symbol_table w) then OK w else each_in visit ht w
      | IS_SCALAR => OK w
      end
  end.

Definition zobj_scan_black h hd w : outcome world :=
  let visit := visit_black (zval_scan_black (gc_fuel w)) in
  let* w := bucket_upd w h (obj_set_buffered gc_set_black) in
  each_of_object visit h hd w.

Fixpoint zval_scan (fuel : nat) pz w : outcome world :=
  match fuel with
  | O => UB
  | S fuel =>
      let* x := zv w pz in
      if decide (gc_get_color (u_buffered x) = GC_GREY) then
        if decide (0 < refcount__gc x) then zval_scan_black (gc_fuel w) pz w
        else
          let* w := zv_upd w pz (zv_set_u (λ v, gc_set_color v GC_WHITE)) in
          match z_value x with
          | IS_OBJECT h hd =>
              if has_store w then
                let* b := bucket w h in
                if decide (gc_get_color (obj_buffered b) = GC_GREY) then
                  if decide (0 < obj_refcount b) then zobj_scan_black h hd w
                  else
                    let* w := bucket_upd w h (obj_set_buffered (λ v, gc_set_color v GC_WHITE)) in
                    each_of_object (zval_scan fuel) h hd w
                else OK w
              else OK w
          | IS_ARRAY ht =>
              if bool_decide (ht = symbol_table w) then zv_upd w pz (zv_set_u gc_set_black)
              else each_in (zval_scan fuel) ht w
          | IS_SCALAR => OK w
          end
      else OK w
  end.

Definition zobj_scan h hd w : outcome world :=
  let fuel := gc_fuel w in
  if has_store w then
    let* b := bucket w h in
    if decide (gc_get_color (obj_buffered b) = GC_GREY) then
      if decide (0 < obj_refcount b) then zobj_scan_black h hd w
      else
        let* w := bucket_upd w h (obj_set_buffered (λ v, gc_set_color v GC_WHITE)) in
        each_of_object (zval_scan fuel) h hd w
    else OK w
  else OK w.

(** ** Collecting white *)

Definition set_zval_to_free (p : gc_addr) (g : zend_gc_globals) : zend_gc_globals :=
  {| gc_enabled := gc_enabled g; gc_active := gc_active g; buf := buf g; root_mem := root_mem g;
     unused := unused g; first_unused := first_unused g; last_unused := last_unused g;
     zval_to_free := p; free_list := free_list g; next_to_free := next_to_free g;
     gc_runs := gc_runs g; gc_collected := gc_collected g |}.

(** "restore refcount and put into list to free" *)
Definition put_to_free pz w : outcome world :=
  let* w := zv_upd w pz (zv_set_refcount (λ r, r + 1)) in
  let* w := zv_upd w pz (zv_set_u (λ _, gc_next (zval_to_free (gc_globals w)))) in
  OK (set_globals w (set_zval_to_free (AZval pz) (gc_globals w))).

Fixpoint zval_collect_white (fuel : nat) pz w : outcome world :=
  match fuel with
  | O => UB
  | S fuel =>
      let visit z w := let* w := count_ref 1 z w in zval_collect_white fuel z w in
      let* x := zv w pz in
      if gc_is_white (u_buffered x) then
        let* w := zv_upd w pz (zv_set_u gc_set_black) in
        match z_value x with
        | IS_OBJECT h hd =>
            if has_store w then
              let* b := bucket w h in
              if gc_is_white (obj_buffered b) then
                let* w := bucket_upd w h (obj_set_buffered gc_set_purple) in
                let* r := object_gc h hd w in
                match r with
                | Some (table, None) => let* w := put_to_free pz w in each visit table w
                | Some (table, Some ht) =>
                    let* w := each visit table w in
                    let* w := put_to_free pz w in each_in visit ht w
                | None => put_to_free pz w
                end
              else put_to_free pz w
            else put_to_free pz w
        | IS_ARRAY ht => let* w := put_to_free pz w in each_in visit ht w
        | IS_SCALAR => put_to_free pz w
        end
      else OK w
  end.

Definition zobj_collect_white h hd w : outcome world :=
  let fuel := gc_fuel w in
  let visit z w := let* w := count_ref 1 z w in zval_collect_white fuel z w in
  if has_store w then
    let* b := bucket w h in
    if gc_is_white (obj_buffered b) then
      let* w := bucket_upd w h (obj_set_buffered gc_set_purple) in
      each_of_object visit h hd w
    else OK w
  else OK w.
End gc.
