(* ===== verification/ZendGcSim.v ===== *)
(** The traversals of ZendGc are the relations of TrialDeletion on the graph
    of zvals and objects, they change nothing else, and they end. *)

From Stdlib Require Import FunctionalExtensionality.
From stdpp Require Import relations.
From S2P Require Import Prelude Dll TrialDeletion ZendGcHeap ZendGc.

(** * The graph *)

Inductive node := Zv (z : ptr) | Ob (h : Z).
#[export] Instance node_eq_dec : EqDecision node.
Proof. solve_decision. Defined.

#[export] Instance Zv_inj : Inj (=) (=) Zv.
Proof. by intros ?? [= ->]. Qed.

Section graph.
Context `{Handlers}.
Implicit Types (w : world) (z : ptr) (h : Z) (n : node).

Definition buckets w : gmap Z zend_object_store_bucket := default ∅ (object_buckets (objects_store w)).

(** The handlers of each object. *)
Context (hd_of : Z → ptr).

(** What a zval and an object refer to. *)
Definition succ w n : list node :=
  match n with
  | Zv z =>
      match z_value <$> zvals w !! z with
      | Some (IS_ARRAY ht) => if bool_decide (ht = symbol_table w) then [] else Zv <$> default [] (tables w !! ht)
      | Some (IS_OBJECT h _) => if has_store w then [Ob h] else []
      | _ => []
      end
  | Ob h =>
      match valid <$> buckets w !! h, get_gc (hd_of h) with
      | Some true, Some g =>
          let (table, props) := g (memory w) h in
          Zv <$> omap id table ++ match props with Some ht => default [] (tables w !! ht) | None => [] end
      | _, _ => []
      end
  end.

Definition pinned w n : bool :=
  match n with
  | Zv z => match zvals w !! z with Some x => is_symbol_table w (z_value x) | None => false end
  | Ob _ => false
  end.

Definition refcount w n : Z :=
  match n with
  | Zv z => default 0 (refcount__gc <$> zvals w !! z)
  | Ob h => default 0 (obj_refcount <$> buckets w !! h)
  end.
Definition word w n : gc_word :=
  match n with
  | Zv z => default gc_null (u_buffered <$> zvals w !! z)
  | Ob h => default gc_null (obj_buffered <$> buckets w !! h)
  end.
Definition color w n : gc_color := gc_get_color (word w n).

(** The world without its counts, colours and list of zvals to free: what no
    traversal changes.  The address in a zval is kept when it points into the
    root buffer. *)
Definition erase_word (v : gc_word) : gc_word :=
  match gc_address v with ARoot r => GcWord (ARoot r) GC_BLACK | _ => gc_null end.
Definition erase_zval (x : zval_gc_info) : zval_gc_info :=
  {| z_value := z_value x; refcount__gc := 0; u_buffered := erase_word (u_buffered x) |}.
Definition erase_bucket (b : zend_object_store_bucket) : zend_object_store_bucket :=
  obj_set_buffered erase_word (obj_set_refcount (λ _, 0) b).
Definition erase_slots (bs : gmap Z zend_object_store_bucket) : gmap Z zend_object_store_bucket := erase_bucket <$> bs.
Definition erase w : world :=
  set_globals
    (set_store (set_zvals w (erase_zval <$> zvals w))
       (set_buckets (objects_store w) (erase_slots <$> object_buckets (objects_store w))))
    (set_zval_to_free ANull (gc_globals w)).

(** The world without its counts and collector words altogether, and without
    the globals: what the edges depend on. *)
Definition shape_zval (x : zval_gc_info) : zval_gc_info :=
  {| z_value := z_value x; refcount__gc := 0; u_buffered := gc_null |}.
Definition shape_bucket (b : zend_object_store_bucket) : zend_object_store_bucket :=
  obj_set_buffered (λ _, gc_null) (obj_set_refcount (λ _, 0) b).
Definition shape_slots (bs : gmap Z zend_object_store_bucket) : gmap Z zend_object_store_bucket := shape_bucket <$> bs.
Definition no_globals : zend_gc_globals :=
  {| gc_enabled := false; gc_active := false; buf := None; root_mem := ∅; unused := None; first_unused := None;
     last_unused := None; zval_to_free := ANull; free_list := ANull; next_to_free := ANull; gc_runs := 0; gc_collected := 0 |}.
Definition shape w : world :=
  set_globals
    (set_store (set_zvals w (shape_zval <$> zvals w))
       (set_buckets (objects_store w) (shape_slots <$> object_buckets (objects_store w))))
    no_globals.

Lemma erase_shape w w' : erase w' = erase w → shape w' = shape w.
Proof.
  intros He.
  assert (∀ w, shape (erase w) = shape w) as Hs.
  { clear. intros w.
    assert (shape_zval <$> (erase_zval <$> zvals w) = shape_zval <$> zvals w) as H1.
    { rewrite <- map_fmap_compose. by apply map_fmap_ext. }
    assert (∀ bs, shape_slots (erase_slots bs) = shape_slots bs) as H2.
    { intros bs. unfold shape_slots, erase_slots. rewrite <- map_fmap_compose. by apply map_fmap_ext. }
    unfold shape, erase. simpl. rewrite H1. destruct (object_buckets (objects_store w)) as [bs|]; simpl; [by rewrite H2|done]. }
  by rewrite <- (Hs w'), He, Hs.
Qed.

(** ** What the shape fixes *)

Section shape.
Context w w' (Hs : shape w' = shape w).

Lemma shape_tables : tables w' = tables w.
Proof. exact (f_equal tables Hs). Qed.
Lemma shape_symbol : symbol_table w' = symbol_table w.
Proof. exact (f_equal symbol_table Hs). Qed.
Lemma shape_memory : memory w' = memory w.
Proof. exact (f_equal memory Hs). Qed.

Lemma shape_zval_at z : shape_zval <$> zvals w' !! z = shape_zval <$> zvals w !! z.
Proof. rewrite <- !lookup_fmap. exact (f_equal (λ w, zvals w !! z) Hs). Qed.

Lemma shape_buckets :
  shape_slots <$> object_buckets (objects_store w') = shape_slots <$> object_buckets (objects_store w).
Proof. exact (f_equal (λ w, object_buckets (objects_store w)) Hs). Qed.

Lemma shape_bucket_at h : shape_bucket <$> buckets w' !! h = shape_bucket <$> buckets w !! h.
Proof.
  pose proof shape_buckets as Hb. unfold buckets.
  destruct (object_buckets (objects_store w')), (object_buckets (objects_store w)); simplify_eq/=; try done.
  rewrite <- !lookup_fmap. by f_equal.
Qed.

Lemma shape_has_store : has_store w' = has_store w.
Proof.
  unfold has_store. apply bool_decide_ext. rewrite <- (fmap_is_Some shape_slots), shape_buckets. by rewrite fmap_is_Some.
Qed.

Lemma shape_value z : z_value <$> zvals w' !! z = z_value <$> zvals w !! z.
Proof.
  pose proof (shape_zval_at z) as He. destruct (zvals w' !! z) as [x|], (zvals w !! z) as [y|]; simplify_eq/=; congruence.
Qed.

Lemma shape_is_Some z : is_Some (zvals w' !! z) ↔ is_Some (zvals w !! z).
Proof. rewrite <- (fmap_is_Some shape_zval), shape_zval_at. by rewrite fmap_is_Some. Qed.

Lemma shape_bucket_is_Some h : is_Some (buckets w' !! h) ↔ is_Some (buckets w !! h).
Proof. rewrite <- (fmap_is_Some shape_bucket), shape_bucket_at. by rewrite fmap_is_Some. Qed.

Lemma shape_valid h : valid <$> buckets w' !! h = valid <$> buckets w !! h.
Proof.
  pose proof (shape_bucket_at h) as He. destruct (buckets w' !! h) as [x|], (buckets w !! h) as [y|]; simplify_eq/=; congruence.
Qed.

Lemma shape_dom : dom (zvals w') = dom (zvals w).
Proof. apply set_eq. intros z. rewrite !elem_of_dom. apply shape_is_Some. Qed.

Lemma shape_fuel : gc_fuel w' = gc_fuel w.
Proof. unfold gc_fuel. by rewrite <- !size_dom, shape_dom. Qed.

Lemma shape_succ_at n : succ w' n = succ w n.
Proof.
  destruct n as [z|h]; simpl.
  - by rewrite shape_value, shape_has_store, shape_tables, shape_symbol.
  - by rewrite shape_valid, shape_tables, shape_memory.
Qed.

Lemma shape_pinned_at n : pinned w' n = pinned w n.
Proof.
  destruct n as [z|h]; simpl; [|done]. pose proof (shape_value z) as Hv.
  unfold is_symbol_table. rewrite shape_symbol. destruct (zvals w' !! z), (zvals w !! z); simplify_eq/=; [by rewrite Hv|done].
Qed.

(** The graph as a whole. *)
Lemma shape_succ : succ w' = succ w.
Proof. apply functional_extensionality, shape_succ_at. Qed.
Lemma shape_pinned : pinned w' = pinned w.
Proof. apply functional_extensionality, shape_pinned_at. Qed.
End shape.

(** ** What [erase] fixes *)

Section erase.
Context w w' (He : erase w' = erase w).
Let Hs : shape w' = shape w := erase_shape w w' He.

Lemma erase_zvals z : erase_zval <$> zvals w' !! z = erase_zval <$> zvals w !! z.
Proof. rewrite <- !lookup_fmap. exact (f_equal (λ w, zvals w !! z) He). Qed.

Lemma erase_buckets :
  erase_slots <$> object_buckets (objects_store w') = erase_slots <$> object_buckets (objects_store w).
Proof. exact (f_equal (λ w, object_buckets (objects_store w)) He). Qed.

Lemma erase_bucket_at h : erase_bucket <$> buckets w' !! h = erase_bucket <$> buckets w !! h.
Proof.
  pose proof erase_buckets as Hb. unfold buckets.
  destruct (object_buckets (objects_store w')), (object_buckets (objects_store w)); simplify_eq/=; try done.
  rewrite <- !lookup_fmap. by f_equal.
Qed.

Lemma erase_has_store : has_store w' = has_store w.
Proof. by apply shape_has_store. Qed.
Lemma erase_tables : tables w' = tables w.
Proof. by apply shape_tables. Qed.
Lemma erase_symbol : symbol_table w' = symbol_table w.
Proof. by apply shape_symbol. Qed.
Lemma erase_value z : z_value <$> zvals w' !! z = z_value <$> zvals w !! z.
Proof. by apply shape_value. Qed.
Lemma erase_is_Some z : is_Some (zvals w' !! z) ↔ is_Some (zvals w !! z).
Proof. by apply shape_is_Some. Qed.
Lemma erase_succ n : succ w' n = succ w n.
Proof. by apply shape_succ_at. Qed.
Lemma erase_pinned n : pinned w' n = pinned w n.
Proof. by apply shape_pinned_at. Qed.
Lemma erase_dom : dom (zvals w') = dom (zvals w).
Proof. by apply shape_dom. Qed.
Lemma erase_fuel : gc_fuel w' = gc_fuel w.
Proof. by apply shape_fuel. Qed.

Lemma erase_word_at n : erase_word (word w' n) = erase_word (word w n).
Proof.
  destruct n as [z|h]; simpl.
  - pose proof (erase_zvals z). destruct (zvals w' !! z), (zvals w !! z); simplify_eq/=; congruence.
  - pose proof (erase_bucket_at h). destruct (buckets w' !! h), (buckets w !! h); simplify_eq/=; congruence.
Qed.

Lemma erase_rooted n r : gc_address (word w' n) = ARoot r ↔ gc_address (word w n) = ARoot r.
Proof.
  pose proof (erase_word_at n) as Hw. unfold erase_word in Hw.
  destruct (gc_address (word w' n)), (gc_address (word w n)); simplify_eq/=; naive_solver.
Qed.
End erase.

(** ** Well-formed graphs: nothing dangles *)

Record wf_graph w : Prop := {
  wg_array : ∀ z x ht, zvals w !! z = Some x → z_value x = IS_ARRAY ht → is_Some (tables w !! ht);
  wg_object : ∀ z x h hd, zvals w !! z = Some x → z_value x = IS_OBJECT h hd → has_store w = true →
    is_Some (buckets w !! h) ∧ hd = hd_of h;
  wg_table : ∀ ht l z, tables w !! ht = Some l → z ∈ l → is_Some (zvals w !! z);
  wg_get_gc : ∀ h g, is_Some (buckets w !! h) → get_gc (hd_of h) = Some g →
    (∀ z, Some z ∈ (g (memory w) h).1 → is_Some (zvals w !! z)) ∧
    (∀ ht, (g (memory w) h).2 = Some ht → is_Some (tables w !! ht));
}.

Lemma shape_wf w w' : shape w' = shape w → wf_graph w → wf_graph w'.
Proof.
  intros Hs [W1 W2 W3 W4].
  assert (∀ z x, zvals w' !! z = Some x → ∃ y, zvals w !! z = Some y ∧ z_value y = z_value x) as Hv.
  { intros z x Hx. pose proof (shape_value w w' Hs z) as Hz. rewrite Hx in Hz.
    destruct (zvals w !! z) as [y|]; simplify_eq/=. eauto. }
  split.
  - intros z x ht Hx E. destruct (Hv z x Hx) as (y & Hy & Ey). rewrite (shape_tables w w') by done. eapply W1; [done|congruence].
  - intros z x h hd Hx E Hst. destruct (Hv z x Hx) as (y & Hy & Ey). rewrite (shape_bucket_is_Some w w') by done.
    rewrite (shape_has_store w w') in Hst by done. eapply W2; [done|congruence|done].
  - intros ht l z. rewrite (shape_tables w w'), (shape_is_Some w w') by done. apply W3.
  - intros h g Hh Hg. rewrite (shape_memory w w') by done. rewrite (shape_bucket_is_Some w w') in Hh by done.
    destruct (W4 h g Hh Hg) as [H1 H2].
    split; [intros z Hz; rewrite (shape_is_Some w w') by done; auto|].
    intros ht Hht. rewrite (shape_tables w w') by done. auto.
Qed.

Lemma erase_wf w w' : erase w' = erase w → wf_graph w → wf_graph w'.
Proof. intros He. by apply shape_wf, erase_shape. Qed.
End graph.

(** * The elementary steps *)

Section steps.
Context `{Handlers}.
Implicit Types (w : world) (z : ptr) (h : Z) (n : node).

(** Nothing but counts and colours has changed. *)
Definition still w w' : Prop :=
  erase w' = erase w ∧ gc_globals w' = gc_globals w ∧ ∀ n, gc_address (word w' n) = gc_address (word w n).

#[export] Instance still_po : PreOrder still.
Proof. unfold still. split; [done|]. intros ??? (? & ? & Ha) (? & ? & Hb). split_and!; [congruence..|]. intros n. by rewrite Hb, Ha. Qed.

Lemma still_globals w w' : still w w' → gc_globals w' = gc_globals w.
Proof. by intros (_ & ? & _). Qed.
Lemma still_erase w w' : still w w' → erase w' = erase w.
Proof. by intros []. Qed.

Definition upd_zval w z x : world := set_zvals w (<[z := x]> (zvals w)).
Definition upd_slot w h b : world :=
  set_store w (set_buckets (objects_store w) (Some (<[h := b]> (buckets w)))).

Lemma buckets_upd_slot w h b : buckets (upd_slot w h b) = <[h := b]> (buckets w).
Proof. done. Qed.

Lemma zv_ok w z x : zvals w !! z = Some x → zv w z = OK x.
Proof. unfold zv. by intros ->. Qed.

Lemma zv_upd_ok w z f x : zvals w !! z = Some x → zv_upd w z f = OK (upd_zval w z (f x)).
Proof. intros Hx. unfold zv_upd, store. by rewrite Hx. Qed.

Lemma buckets_Some w h b : buckets w !! h = Some b → object_buckets (objects_store w) = Some (buckets w).
Proof. unfold buckets. by destruct (object_buckets _). Qed.

Lemma bucket_ok w h b : buckets w !! h = Some b → bucket w h = OK b.
Proof. intros Hb. unfold bucket. rewrite (buckets_Some w h b) by done. simpl. by rewrite Hb. Qed.

Lemma bucket_upd_ok w h f b : buckets w !! h = Some b → bucket_upd w h f = OK (upd_slot w h (f b)).
Proof. intros Hb. unfold bucket_upd. rewrite (buckets_Some w h b) by done. simpl. by rewrite Hb. Qed.

Lemma erase_upd_zval w z x y : zvals w !! z = Some x → erase_zval y = erase_zval x → erase (upd_zval w z y) = erase w.
Proof.
  intros Hx He.
  assert (erase_zval <$> <[z := y]> (zvals w) = erase_zval <$> zvals w) as Hm.
  { rewrite fmap_insert, He. apply insert_id. by rewrite lookup_fmap, Hx. }
  unfold erase, upd_zval. simpl. by rewrite Hm.
Qed.

Lemma erase_upd_slot w h b b' : buckets w !! h = Some b → erase_bucket b' = erase_bucket b → erase (upd_slot w h b') = erase w.
Proof.
  intros Hb He.
  assert (erase_slots (<[h := b']> (buckets w)) = erase_slots (buckets w)) as Hm.
  { unfold erase_slots. rewrite fmap_insert, He. apply insert_id. by rewrite lookup_fmap, Hb. }
  unfold erase, upd_slot. simpl. rewrite (buckets_Some w h b) by done. simpl. by rewrite Hm.
Qed.

Lemma shape_upd_zval w z x y : zvals w !! z = Some x → shape_zval y = shape_zval x → shape (upd_zval w z y) = shape w.
Proof.
  intros Hx He.
  assert (shape_zval <$> <[z := y]> (zvals w) = shape_zval <$> zvals w) as Hm.
  { rewrite fmap_insert, He. apply insert_id. by rewrite lookup_fmap, Hx. }
  unfold shape, upd_zval. simpl. by rewrite Hm.
Qed.

Lemma shape_upd_slot w h b b' : buckets w !! h = Some b → shape_bucket b' = shape_bucket b → shape (upd_slot w h b') = shape w.
Proof.
  intros Hb He.
  assert (shape_slots (<[h := b']> (buckets w)) = shape_slots (buckets w)) as Hm.
  { unfold shape_slots. rewrite fmap_insert, He. apply insert_id. by rewrite lookup_fmap, Hb. }
  unfold shape, upd_slot. simpl. rewrite (buckets_Some w h b) by done. simpl. by rewrite Hm.
Qed.

Lemma word_upd_zval w z x n : word (upd_zval w z x) n = if decide (n = Zv z) then u_buffered x else word w n.
Proof.
  destruct n as [z'|h]; simpl; [|done]. destruct (decide (z' = z)) as [->|Hz].
  - by rewrite lookup_insert_eq, decide_True.
  - by rewrite lookup_insert_ne, decide_False by congruence.
Qed.
Lemma refcount_upd_zval w z x n : refcount (upd_zval w z x) n = if decide (n = Zv z) then refcount__gc x else refcount w n.
Proof.
  destruct n as [z'|h]; simpl; [|done]. destruct (decide (z' = z)) as [->|Hz].
  - by rewrite lookup_insert_eq, decide_True.
  - by rewrite lookup_insert_ne, decide_False by congruence.
Qed.
Lemma word_upd_slot w h b n : word (upd_slot w h b) n = if decide (n = Ob h) then obj_buffered b else word w n.
Proof.
  destruct n as [z'|h']; simpl; [done|]. rewrite buckets_upd_slot. destruct (decide (h' = h)) as [->|Hz].
  - by rewrite lookup_insert_eq, decide_True.
  - by rewrite lookup_insert_ne, decide_False by congruence.
Qed.
Lemma refcount_upd_slot w h b n : refcount (upd_slot w h b) n = if decide (n = Ob h) then obj_refcount b else refcount w n.
Proof.
  destruct n as [z'|h']; simpl; [done|]. rewrite buckets_upd_slot. destruct (decide (h' = h)) as [->|Hz].
  - by rewrite lookup_insert_eq, decide_True.
  - by rewrite lookup_insert_ne, decide_False by congruence.
Qed.

Lemma still_upd_zval w z x y : zvals w !! z = Some x → erase_zval y = erase_zval x →
  gc_address (u_buffered y) = gc_address (u_buffered x) → still w (upd_zval w z y).
Proof.
  intros Hx He Ha. split_and!; [by eapply erase_upd_zval|done|]. intros n. rewrite word_upd_zval.
  case_decide; [subst; simpl; by rewrite Hx|done].
Qed.
Lemma still_upd_slot w h b b' : buckets w !! h = Some b → erase_bucket b' = erase_bucket b →
  gc_address (obj_buffered b') = gc_address (obj_buffered b) → still w (upd_slot w h b').
Proof.
  intros Hb He Ha. split_and!; [by eapply erase_upd_slot|done|]. intros n. rewrite word_upd_slot.
  case_decide; [subst; simpl; by rewrite Hb|done].
Qed.

Abbreviation recolors := (recolor refcount color).

Lemma zv_recolor w z x c : zvals w !! z = Some x →
  ∃ w', zv_upd w z (zv_set_u (λ v, gc_set_color v c)) = OK w' ∧ recolors (Zv z) c w w' ∧ still w w' ∧
    zvals w' !! z = Some (zv_set_u (λ v, gc_set_color v c) x).
Proof.
  intros Hx. rewrite (zv_upd_ok _ _ _ _ Hx). eexists. split; [done|]. split_and!.
  - split; intros n.
    + rewrite refcount_upd_zval. case_decide; [subst; simpl; by rewrite Hx|done].
    + unfold color. rewrite word_upd_zval. by case_decide.
  - by eapply still_upd_zval.
  - apply lookup_insert_eq.
Qed.

Lemma obj_recolor w h b c : buckets w !! h = Some b →
  ∃ w', bucket_upd w h (obj_set_buffered (λ v, gc_set_color v c)) = OK w' ∧ recolors (Ob h) c w w' ∧ still w w'.
Proof.
  intros Hb. rewrite (bucket_upd_ok _ _ _ _ Hb). eexists. split; [done|]. split_and!.
  - split; intros n.
    + rewrite refcount_upd_slot. case_decide; [subst; simpl; by rewrite Hb|done].
    + unfold color. rewrite word_upd_slot. by case_decide.
  - by eapply still_upd_slot.
Qed.

Lemma obj_count w h b d : buckets w !! h = Some b →
  ∃ w', bucket_upd w h (obj_set_refcount (λ r, r + d)) = OK w' ∧
    count (pinned w) refcount color (Ob h) d w w' ∧ still w w' ∧
    buckets w' !! h = Some (obj_set_refcount (λ r, r + d) b).
Proof.
  intros Hb. rewrite (bucket_upd_ok _ _ _ _ Hb). eexists. split; [done|]. split_and!.
  - split; intros n.
    + rewrite refcount_upd_slot. case_decide; [subst; simpl; by rewrite Hb|done].
    + unfold color. rewrite word_upd_slot. case_decide; [subst; simpl; by rewrite Hb|done].
  - by eapply still_upd_slot.
  - apply lookup_insert_eq.
Qed.

Lemma count_ref_ok w z d : is_Some (zvals w !! z) →
  ∃ w', count_ref d z w = OK w' ∧ count (pinned w) refcount color (Zv z) d w w' ∧ still w w' ∧
    ∀ n, word w' n = word w n.
Proof.
  intros [x Hx]. unfold count_ref. rewrite (zv_ok _ _ _ Hx). ob.
  destruct (is_symbol_table w (z_value x)) eqn:Hsym.
  - eexists. split; [done|]. split_and!; try done. split; [|done]. intros n. case_decide; [subst|done]. simpl. by rewrite Hx, Hsym.
  - rewrite (zv_upd_ok _ _ _ _ Hx). eexists. split; [done|].
    assert (∀ n, word (upd_zval w z (zv_set_refcount (λ r, r + d) x)) n = word w n) as Hw.
    { intros n. rewrite word_upd_zval. case_decide; [subst; simpl; by rewrite Hx|done]. }
    split_and!; [|by eapply still_upd_zval|done]. split; intros n.
    + rewrite refcount_upd_zval. case_decide; [subst; simpl; by rewrite Hx, Hsym|done].
    + unfold color. by rewrite Hw.
Qed.

End steps.

(** * Loops over the elements *)

Lemma omap_id_Some {A} (l : list A) : omap id (Some <$> l) = l.
Proof. induction l as [|x l IH]; [done|]. cbn. f_equal. exact IH. Qed.

Section loops.
Context `{Handlers}.
(** A relation between the state before visiting some nodes, in order, and the
    state after, with the nodes affected. *)
Context (R : list node → world → list node → world → Prop).
Implicit Types (w : world) (ns : list node).

(** Whatever is visited afterwards, [l] has been visited first. *)
Definition ext l w ns w' : Prop := ∀ l' ns' w'', R l' w' ns' w'' → R (l ++ l') w (ns ++ ns') w''.

Lemma ext_nil w : ext [] w [] w.
Proof. by intros l' ns' w''. Qed.
Lemma ext_app l1 l2 w1 ns1 w2 ns2 w3 : ext l1 w1 ns1 w2 → ext l2 w2 ns2 w3 → ext (l1 ++ l2) w1 (ns1 ++ ns2) w3.
Proof. intros H1 H2 l' ns' w'' HR. rewrite <- !app_assoc. by apply H1, H2. Qed.

Lemma each_sim (I : world → Prop) f table w :
  (∀ z w, Some z ∈ table → I w → ∃ ns w', f z w = OK w' ∧ ext [Zv z] w ns w' ∧ I w') → I w →
  ∃ ns w', each f table w = OK w' ∧ ext (Zv <$> omap id table) w ns w' ∧ I w'.
Proof.
  revert w. induction table as [|[z|] table IH]; intros w Hf Hw; simpl.
  - exists [], w. eauto using ext_nil.
  - destruct (Hf z w ltac:(set_solver) Hw) as (ns & w1 & Hz & Hext & Hw1). rewrite Hz. ob.
    destruct (IH w1) as (ns' & w2 & Hr & Hext' & Hw2); [|done|].
    { intros z' w' ?. apply Hf. set_solver. }
    exists (ns ++ ns'), w2. split; [done|]. split; [|done]. by apply (ext_app [Zv z]) with (w2 := w1).
  - apply IH; [|done]. intros z' w' ?. apply Hf. set_solver.
Qed.

Lemma each_in_sim (I : world → Prop) f ht l w :
  tables w !! ht = Some l →
  (∀ z w, z ∈ l → I w → ∃ ns w', f z w = OK w' ∧ ext [Zv z] w ns w' ∧ I w') → I w →
  ∃ ns w', each_in f ht w = OK w' ∧ ext (Zv <$> l) w ns w' ∧ I w'.
Proof.
  intros Hl Hf Hw. unfold each_in. rewrite Hl. ob.
  destruct (each_sim I f (Some <$> l) w) as (ns & w' & H1 & H2 & H3); [|done|].
  - intros z w1 (z' & [= <-] & Hz)%list_elem_of_fmap. by apply Hf.
  - exists ns, w'. split; [done|]. split; [|done]. by rewrite omap_id_Some in H2.
Qed.

Lemma each_of_object_sim hd_of (I : world → Prop) f h w :
  wf_graph hd_of w → is_Some (buckets w !! h) → (∀ w', I w' → erase w' = erase w) →
  (∀ z w, is_Some (zvals w !! z) → I w → ∃ ns w', f z w = OK w' ∧ ext [Zv z] w ns w' ∧ I w') → I w →
  ∃ ns w', each_of_object f h (hd_of h) w = OK w' ∧ ext (succ hd_of w (Ob h)) w ns w' ∧ I w'.
Proof.
  intros Hwf [b Hb] HI Hf Hw. unfold each_of_object, object_gc. rewrite (bucket_ok _ _ _ Hb). ob. simpl. rewrite Hb. simpl.
  destruct (valid b); [|exists [], w; eauto using ext_nil].
  destruct (get_gc (hd_of h)) as [g|] eqn:Hg; [|exists [], w; eauto using ext_nil].
  destruct (wg_get_gc _ _ Hwf h g ltac:(eauto) Hg) as [Ht Hp]. destruct (g (memory w) h) as [table props]. simpl in *.
  destruct (each_sim I f table w) as (ns & w1 & Hr1 & Hx1 & Hw1); [|done|].
  { intros z w' Hz Hw'. apply Hf; [|done]. rewrite (erase_is_Some w w') by auto. auto. }
  rewrite Hr1. ob. destruct props as [ht|]; simpl.
  - pose proof (HI w1 Hw1) as He. destruct (Hp ht eq_refl) as [l Hl].
    destruct (each_in_sim I f ht l w1) as (ns' & w2 & Hr2 & Hx2 & Hw2); [by rewrite (erase_tables w w1)| |done|].
    { intros z w' Hz Hw'. apply Hf; [|done]. rewrite (erase_is_Some w w') by auto. by eapply wg_table. }
    exists (ns ++ ns'), w2. split; [done|]. split; [|done]. rewrite Hl. simpl. rewrite fmap_app. by eapply ext_app.
  - exists ns, w1. split; [done|]. rewrite app_nil_r. done.
Qed.
End loops.
