(* ===== verification/ZendGcMark.v ===== *)
(** zval_mark_grey and zval_scan follow the relations of TrialDeletion. *)

From stdpp Require Import relations.
From S2P Require Import Prelude Dll TrialDeletion TrialScan ZendGcHeap ZendGc ZendGcSim.

(** * Marking and scanning, simulated *)

Section phases.
Context `{Handlers} (hd_of : Z → ptr) (w0 : world) (Hwf : wf_graph hd_of w0).
Implicit Types (w : world) (z pz : ptr) (h : Z) (n : node) (X : gset ptr) (ns : list node).

Abbreviation succ0 := (succ hd_of w0).
Abbreviation pin0 := (pinned w0).
Abbreviation dom0 := (dom (zvals w0)).
Abbreviation live z := (is_Some (zvals w0 !! z)).

(** The zvals not yet in [X] bound the depth of the recursion. *)
Lemma room_enter X z (fuel : nat) :
  live z → z ∉ X → (size (dom0 ∖ X) < S fuel)%nat → (size (dom0 ∖ ({[z]} ∪ X)) < fuel)%nat.
Proof.
  clear hd_of Hwf. intros Hz HX Hf. apply elem_of_dom in Hz.
  assert (size (dom0 ∖ ({[z]} ∪ X)) < size (dom0 ∖ X))%nat; [|lia].
  apply subset_size. set_solver.
Qed.

Lemma room_start w : still w0 w → (size (dom0 ∖ ∅) < gc_fuel w)%nat.
Proof.
  clear hd_of Hwf. intros He%still_erase. rewrite (erase_fuel w0 w) by done. unfold gc_fuel. rewrite <- size_dom.
  replace (dom0 ∖ ∅) with dom0 by set_solver. lia.
Qed.

Section still.
Context (w : world) (Hs : erase w = erase w0).

Lemma st_live z : live z → ∃ x, zvals w !! z = Some x ∧ z_value <$> zvals w0 !! z = Some (z_value x).
Proof.
  intros Hz. apply (erase_is_Some w0 w) in Hz as [x Hx]; [|apply Hs]. exists x. split; [done|].
  rewrite <- (erase_value w0 w) by apply Hs. by rewrite Hx.
Qed.

Lemma st_bucket h : is_Some (buckets w0 !! h) → is_Some (buckets w !! h).
Proof.
  intros Hh. rewrite <- (fmap_is_Some erase_bucket), (erase_bucket_at w0 w) by apply Hs. by apply fmap_is_Some.
Qed.

Lemma st_wf : wf_graph hd_of w.
Proof. eapply erase_wf; [apply Hs|done]. Qed.

Lemma st_succ n : succ hd_of w n = succ0 n.
Proof. apply erase_succ, Hs. Qed.

Lemma st_count n d w' : count (pinned w) refcount color n d w w' → count pin0 refcount color n d w w'.
Proof. unfold count. by rewrite (erase_pinned w0 w) by apply Hs. Qed.

(** What a zval is, and what it refers to. *)
Lemma st_array pz x ht : zvals w !! pz = Some x → z_value x = IS_ARRAY ht →
  symbol_table w = symbol_table w0 ∧ pin0 (Zv pz) = bool_decide (ht = symbol_table w0) ∧
  ∃ l, tables w !! ht = Some l ∧ (∀ z, z ∈ l → live z) ∧ (ht ≠ symbol_table w0 → succ0 (Zv pz) = Zv <$> l).
Proof.
  intros Hx Hv. pose proof (erase_symbol w0 w ltac:(apply Hs)) as Hsym. split_and!; [done|..].
  - rewrite <- (erase_pinned w0 w) by apply Hs. simpl. rewrite Hx. simpl. by rewrite Hv, <- Hsym.
  - pose proof st_wf as Hw. destruct (wg_array _ _ Hw pz x ht Hx Hv) as [l Hl]. exists l. split_and!; [done|..].
    + intros z Hz. rewrite <- (erase_is_Some w0 w) by apply Hs. by eapply wg_table.
    + intros Hne. rewrite <- st_succ. simpl. rewrite Hx. simpl. rewrite Hv, bool_decide_false by congruence. by rewrite Hl.
Qed.

Lemma st_object pz x h hd : zvals w !! pz = Some x → z_value x = IS_OBJECT h hd → has_store w = true →
  pin0 (Zv pz) = false ∧ hd = hd_of h ∧ is_Some (buckets w0 !! h) ∧ succ0 (Zv pz) = [Ob h].
Proof.
  intros Hx Hv Hst. destruct (wg_object _ _ st_wf pz x h hd Hx Hv Hst) as [Hb ->]. split_and!.
  - rewrite <- (erase_pinned w0 w) by apply Hs. simpl. rewrite Hx. simpl. by rewrite Hv.
  - done.
  - rewrite <- (fmap_is_Some erase_bucket), <- (erase_bucket_at w0 w) by apply Hs. by apply fmap_is_Some.
  - rewrite <- st_succ. simpl. rewrite Hx. simpl. by rewrite Hv, Hst.
Qed.

Lemma st_leaf pz x : zvals w !! pz = Some x →
  z_value x = IS_SCALAR ∨ (∃ h hd, z_value x = IS_OBJECT h hd ∧ has_store w = false) →
  pin0 (Zv pz) = false ∧ succ0 (Zv pz) = [].
Proof.
  intros Hx Hv. rewrite <- (erase_pinned w0 w) by apply Hs. rewrite <- st_succ. simpl. rewrite Hx. simpl.
  destruct Hv as [->|(h & hd & -> & ->)]; done.
Qed.

(** What [object_gc] answers. *)
Lemma st_object_gc h : is_Some (buckets w0 !! h) → ∃ r, object_gc h (hd_of h) w = OK r ∧
  match r with
  | None => succ0 (Ob h) = []
  | Some (table, props) =>
      (∀ z, Some z ∈ table → live z) ∧
      match props with
      | None => succ0 (Ob h) = Zv <$> omap id table
      | Some ht => ∃ l, tables w0 !! ht = Some l ∧ (∀ z, z ∈ l → live z) ∧
          succ0 (Ob h) = (Zv <$> omap id table) ++ (Zv <$> l)
      end
  end.
Proof.
  intros Hh. destruct (st_bucket h Hh) as [b Hb]. unfold object_gc. rewrite (bucket_ok _ _ _ Hb). ob. eexists. split; [done|].
  rewrite <- st_succ. pose proof st_wf as Hw. simpl. rewrite Hb. simpl. destruct (valid b); [|done].
  destruct (get_gc (hd_of h)) as [g|] eqn:Hg; [|done]. destruct (wg_get_gc _ _ Hw h g ltac:(eauto) Hg) as [H1 H2].
  destruct (g (memory w) h) as [table props]. simpl in *.
  split; [intros z Hz; rewrite <- (erase_is_Some w0 w) by done; auto|].
  destruct props as [ht|]; [|by rewrite app_nil_r]. destruct (H2 ht eq_refl) as [l Hl].
  exists l. rewrite (erase_tables w0 w) in Hl by done. split; [done|]. split.
  - intros z Hz. by eapply (wg_table _ _ Hwf).
  - rewrite (erase_tables w0 w), Hl by done. simpl. by rewrite fmap_app.
Qed.

Lemma st_has_store w' : still w w' → has_store w' = has_store w.
Proof. intros He. apply erase_has_store, He. Qed.
End still.

(** ** Marking *)

Abbreviation marks := (mark succ0 pin0 refcount color).
Abbreviation marks_list := (mark_list succ0 pin0 refcount color).

(** The zvals of [X] are grey, and will stay so. *)
Definition mark_I X w : Prop := still w0 w ∧ ∀ z, z ∈ X → pin0 (Zv z) = false ∧ color w (Zv z) = GC_GREY.

Lemma mark_I_keep X n w ns w' : mark_I X w → marks n w ns w' → still w0 w' → mark_I X w'.
Proof.
  intros [_ HX] Hm Hs. split; [done|]. intros z Hz. destruct (HX z Hz) as [Hp Hg]. split; [done|].
  destruct (proj1 (mark_spec succ0 pin0 refcount color) _ _ _ _ Hm) as [M _]. eapply marked_keeps; eauto.
Qed.

Definition mark_ok (fuel : nat) X : Prop := ∀ z w, mark_I X w → live z →
  ∃ ns w', zval_mark_grey fuel z w = OK w' ∧ marks (Zv z) w ns w' ∧ still w0 w'.

Lemma mark_visit fuel X : mark_ok fuel X → ∀ z w, live z → mark_I X w →
  ∃ ns w', (let* w := count_ref (-1) z w in zval_mark_grey fuel z w) = OK w' ∧ ext marks_list [Zv z] w ns w' ∧ mark_I X w'.
Proof.
  intros Hok z w Hz [Hs HX]. destruct (st_live w (proj1 Hs) z Hz) as (x & Hx & _).
  destruct (count_ref_ok w z (-1)) as (w1 & -> & Hc & Hs1 & Hword); [eauto|]. ob. apply st_count in Hc; [|apply Hs].
  assert (mark_I X w1) as HI1. { split; [by etrans|]. intros z' Hz'. unfold color. rewrite Hword. by apply HX. }
  destruct (Hok z w1 HI1 Hz) as (ns & w2 & -> & Hm & Hs2). exists ns, w2. split; [done|].
  split; [|by eapply mark_I_keep]. intros l' ns' w'' Hl. by eapply mark_cons.
Qed.

(** An object that is not grey yet. *)
Lemma mark_object fuel X h w b : mark_ok fuel X → mark_I X w → buckets w !! h = Some b →
  gc_get_color (obj_buffered b) ≠ GC_GREY →
  ∃ ns w', (let* w := bucket_upd w h (obj_set_buffered (λ v, gc_set_color v GC_GREY)) in
            each_of_object (λ z w, let* w := count_ref (-1) z w in zval_mark_grey fuel z w) h (hd_of h) w) = OK w' ∧
    marks (Ob h) w ns w' ∧ mark_I X w'.
Proof.
  intros Hok HI Hb Hc. pose proof HI as [Hs HX].
  destruct (obj_recolor w h b GC_GREY Hb) as (w1 & -> & Hrec & Hs1). ob.
  assert (still w0 w1) as Hs01 by by etrans.
  assert (mark_I X w1) as HI1.
  { split; [done|]. intros z Hz. destruct Hrec as [_ Hcol]. rewrite Hcol, decide_False by done. by apply HX. }
  destruct (each_of_object_sim marks_list hd_of (mark_I X) (λ z w, let* w := count_ref (-1) z w in zval_mark_grey fuel z w) h w1)
    as (ns & w2 & -> & Hext & HI2).
  - apply st_wf, Hs01.
  - apply st_bucket; [apply Hs01|]. rewrite <- (fmap_is_Some erase_bucket), <- (erase_bucket_at w0 w) by apply Hs.
    apply fmap_is_Some. eauto.
  - intros w' [Hw' _]. apply still_erase in Hw', Hs01. congruence.
  - intros z w' Hz HI'. apply mark_visit; [done| |done]. by rewrite <- (erase_is_Some w0 w') by apply HI'.
  - done.
  - rewrite st_succ in Hext by apply Hs01. exists (Ob h :: ns), w2. split; [done|]. split; [|done].
    eapply mark_new; [|done|done|].
    + unfold color. simpl. by rewrite Hb.
    + specialize (Hext [] [] w2 (mark_nil _ _ _ _ _)). by rewrite !app_nil_r in Hext.
Qed.

Lemma mark_all fuel X : (size (dom0 ∖ X) < fuel)%nat → mark_ok fuel X.
Proof.
  revert X. induction fuel as [|fuel IH]; intros X Hf z w HI Hz; [lia|]. pose proof HI as [Hs HX].
  destruct (st_live w (proj1 Hs) z Hz) as (x & Hx & Hv). simpl. rewrite (zv_ok _ _ _ Hx). ob.
  assert (color w (Zv z) = gc_get_color (u_buffered x)) as Hcol by (unfold color; simpl; by rewrite Hx).
  destruct (decide (gc_get_color (u_buffered x) = GC_GREY)) as [Hg|Hg].
  { exists [], w. split; [done|]. split; [|done]. apply mark_grey. by rewrite Hcol. }
  destruct (zv_recolor w z x GC_GREY Hx) as (w1 & -> & Hrec & Hs1 & Hx1). ob.
  assert (still w0 w1) as Hs01 by by etrans.
  assert (mark_I X w1) as HI1.
  { split; [done|]. intros z' Hz'. pose proof (HX z' Hz') as [? ?]. destruct Hrec as [_ Hc]. rewrite Hc. case_decide; done. }
  assert (pin0 (Zv z) = false → mark_ok fuel ({[z]} ∪ X) ∧ mark_I ({[z]} ∪ X) w1) as Hin.
  { intros Hp. split.
    - apply IH. apply room_enter; [done| |done]. intros [_ Hzg]%HX. congruence.
    - split; [done|]. intros z' [->%elem_of_singleton|Hz']%elem_of_union; [|by apply HI1].
      split; [done|]. destruct Hrec as [_ Hc]. by rewrite Hc, decide_True. }
  assert (∀ ns w', pin0 (Zv z) = false → marks_list (succ0 (Zv z)) w1 ns w' → marks (Zv z) w (Zv z :: ns) w') as Hnew.
  { intros ns w' Hp Hl. eapply mark_new; [by rewrite Hcol|done..]. }
  destruct (z_value x) as [|ht|h hd] eqn:Ev.
  - destruct (st_leaf w (proj1 Hs) z x Hx) as [Hp Hsucc]; [auto|]. exists [Zv z], w1. split; [done|]. split; [|done].
    apply Hnew; [done|]. rewrite Hsucc. constructor.
  - destruct (st_array w (proj1 Hs) z x ht Hx Ev) as (Hsym & Hp & l & Hl & Hlive & Hsucc).
    rewrite (erase_symbol w w1), Hsym by apply Hs1. rewrite <- Hp. destruct (pin0 (Zv z)) eqn:Hpin.
    + destruct (zv_recolor w1 z _ GC_BLACK Hx1) as (w2 & Hw2 & Hrec2 & Hs2 & _).
      exists [], w2. split; [exact Hw2|]. split; [|by etrans]. apply mark_pinned; [by rewrite Hcol|done|].
      destruct Hrec as [R1 R2], Hrec2 as [R3 R4]. split; [congruence|]. intros n. rewrite R4, R2. by repeat case_decide.
    + destruct (Hin eq_refl) as [Hok HI1']. symmetry in Hp. apply bool_decide_eq_false in Hp.
      destruct (each_in_sim marks_list (mark_I ({[z]} ∪ X)) (λ z w, let* w := count_ref (-1) z w in zval_mark_grey fuel z w) ht l w1)
        as (ns & w2 & -> & Hext & HI2); [by rewrite (erase_tables w w1) by apply Hs1| |done|].
      { intros z' w' Hz' HI'. apply (mark_visit fuel _ Hok); [by apply Hlive|done]. }
      exists (Zv z :: ns), w2. split; [done|]. split; [|by apply HI2]. apply Hnew; [done|]. rewrite Hsucc by done.
      specialize (Hext [] [] w2 (mark_nil _ _ _ _ _)). by rewrite !app_nil_r in Hext.
  - rewrite (st_has_store w w1) by done. destruct (has_store w) eqn:Hst.
    + destruct (st_object w (proj1 Hs) z x h hd Hx Ev Hst) as (Hp & -> & Hb & Hsucc). destruct (Hin Hp) as [Hok HI1'].
      destruct (st_bucket w1 (proj1 Hs01) h Hb) as [b Hb1].
      destruct (obj_count w1 h b (-1) Hb1) as (w2 & Hw2 & Hcnt & Hs2 & Hb2). apply st_count in Hcnt; [|apply Hs01].
      change (λ r, r + -1) with (λ r, r - 1) in Hw2. rewrite Hw2. ob. rewrite (bucket_ok _ _ _ Hb2). ob.
      assert (mark_I ({[z]} ∪ X) w2) as HI2.
      { split; [by etrans|]. intros z' Hz'. destruct (proj2 HI1' z' Hz') as [? Hg']. destruct Hcnt as [_ Hc]. by rewrite Hc. }
      destruct (decide (gc_get_color (obj_buffered (obj_set_refcount (λ r, r + -1) b)) = GC_GREY)) as [Hbg|Hbg].
      * exists [Zv z], w2. split; [done|]. split; [|by apply HI2]. apply Hnew; [done|]. rewrite Hsucc.
        apply (mark_cons _ _ _ _ _ _ _ w2 [] w2 []); [done|apply mark_grey|constructor].
        unfold color. simpl. by rewrite Hb2.
      * destruct (mark_object fuel _ h w2 _ Hok HI2 Hb2 Hbg) as (ns & w3 & -> & Hm & HI3).
        exists (Zv z :: ns), w3. split; [done|]. split; [|by apply HI3]. apply Hnew; [done|]. rewrite Hsucc.
        rewrite <- (app_nil_r ns). by eapply mark_cons; [..|constructor].
    + destruct (st_leaf w (proj1 Hs) z x Hx) as [Hp Hsucc]; [eauto|]. exists [Zv z], w1. split; [done|]. split; [|done].
      apply Hnew; [done|]. rewrite Hsucc. constructor.
Qed.

Lemma zval_mark_grey_sim z w : still w0 w → live z →
  ∃ ns w', zval_mark_grey (gc_fuel w) z w = OK w' ∧ marks (Zv z) w ns w' ∧ still w0 w'.
Proof.
  intros Hs Hz. apply (mark_all (gc_fuel w) ∅); [by apply room_start|split; [done|set_solver]|done].
Qed.

Lemma zobj_mark_grey_sim h w : still w0 w → is_Some (buckets w0 !! h) →
  ∃ ns w', zobj_mark_grey h (hd_of h) w = OK w' ∧ marks (Ob h) w ns w' ∧ still w0 w'.
Proof.
  intros Hs Hh. destruct (st_bucket w (proj1 Hs) h Hh) as [b Hb]. unfold zobj_mark_grey. rewrite (bucket_ok _ _ _ Hb). ob.
  destruct (decide (gc_get_color (obj_buffered b) = GC_GREY)) as [Hg|Hg].
  - exists [], w. split; [done|]. split; [|done]. apply mark_grey. unfold color. simpl. by rewrite Hb.
  - destruct (mark_object (gc_fuel w) ∅ h w b) as (ns & w1 & -> & Hm & HI); eauto.
    + by apply mark_all, room_start.
    + split; [done|set_solver].
    + exists ns, w1. split; [done|]. split; [done|apply HI].
Qed.

(** ** Scanning black *)

Abbreviation sblacks := (sblack succ0 pin0 refcount color).
Abbreviation sblacks_list := (sblack_list succ0 pin0 refcount color).

Definition black_I X w : Prop := still w0 w ∧ ∀ z, z ∈ X → color w (Zv z) = GC_BLACK.

Lemma black_I_keep X n w ns w' : black_I X w → sblacks n w ns w' → still w0 w' → black_I X w'.
Proof.
  intros [_ HX] Hm Hs. split; [done|]. intros z Hz.
  destruct (proj1 (sblack_spec succ0 pin0 refcount color) _ _ _ _ Hm) as [M _]. eapply blackened_keeps; eauto.
Qed.

Definition black_ok (fuel : nat) X : Prop := ∀ z w, black_I X w → live z → color w (Zv z) ≠ GC_BLACK →
  ∃ ns w', zval_scan_black fuel z w = OK w' ∧ sblacks (Zv z) w ns w' ∧ still w0 w'.

Lemma black_visit fuel X : black_ok fuel X → ∀ z w, live z → black_I X w →
  ∃ ns w', visit_black (zval_scan_black fuel) z w = OK w' ∧ ext sblacks_list [Zv z] w ns w' ∧ black_I X w'.
Proof.
  intros Hok z w Hz [Hs HX]. destruct (st_live w (proj1 Hs) z Hz) as (x & Hx & _). unfold visit_black.
  destruct (count_ref_ok w z 1) as (w1 & -> & Hc & Hs1 & Hword); [eauto|]. ob. apply st_count in Hc; [|apply Hs].
  assert (still w0 w1) as Hs01 by by etrans.
  assert (black_I X w1) as HI1. { split; [done|]. intros z' Hz'. unfold color. rewrite Hword. by apply HX. }
  destruct (st_live w1 (proj1 Hs01) z Hz) as (x1 & Hx1 & _). rewrite (zv_ok _ _ _ Hx1). ob.
  assert (color w1 (Zv z) = gc_get_color (u_buffered x1)) as Hcol by (unfold color; simpl; by rewrite Hx1).
  case_decide as Hb.
  - exists [], w1. split; [done|]. split; [|done]. intros l' ns' w'' Hl. eapply sblack_old; [done|by rewrite Hcol|done].
  - destruct (Hok z w1 HI1 Hz) as (ns & w2 & -> & Hm & Hs2); [by rewrite Hcol|]. exists ns, w2. split; [done|].
    split; [|by eapply black_I_keep]. intros l' ns' w'' Hl. by eapply sblack_cons.
Qed.

Lemma black_object fuel X h w b : black_ok fuel X → black_I X w → buckets w !! h = Some b →
  gc_get_color (obj_buffered b) ≠ GC_BLACK →
  ∃ ns w', (let* w := bucket_upd w h (obj_set_buffered gc_set_black) in
            each_of_object (visit_black (zval_scan_black fuel)) h (hd_of h) w) = OK w' ∧
    sblacks (Ob h) w ns w' ∧ black_I X w'.
Proof.
  intros Hok HI Hb Hc. pose proof HI as [Hs HX].
  destruct (obj_recolor w h b GC_BLACK Hb) as (w1 & Hw1 & Hrec & Hs1).
  change (λ v, gc_set_color v GC_BLACK) with gc_set_black in Hw1. rewrite Hw1. ob.
  assert (still w0 w1) as Hs01 by by etrans.
  assert (black_I X w1) as HI1.
  { split; [done|]. intros z Hz. destruct Hrec as [_ Hcol]. rewrite Hcol, decide_False by done. by apply HX. }
  destruct (each_of_object_sim sblacks_list hd_of (black_I X) (visit_black (zval_scan_black fuel)) h w1)
    as (ns & w2 & -> & Hext & HI2).
  - apply st_wf, Hs01.
  - apply st_bucket; [apply Hs01|]. rewrite <- (fmap_is_Some erase_bucket), <- (erase_bucket_at w0 w) by apply Hs.
    apply fmap_is_Some. eauto.
  - intros w' [Hw' _]. apply still_erase in Hw', Hs01. congruence.
  - intros z w' Hz HI'. apply black_visit; [done| |done]. by rewrite <- (erase_is_Some w0 w') by apply HI'.
  - done.
  - rewrite st_succ in Hext by apply Hs01. exists (Ob h :: ns), w2. split; [done|]. split; [|done].
    eapply sblack_node; [|done|].
    + unfold color. simpl. by rewrite Hb.
    + specialize (Hext [] [] w2 (sblack_nil _ _ _ _ _)). by rewrite !app_nil_r in Hext.
Qed.

Lemma black_all fuel X : (size (dom0 ∖ X) < fuel)%nat → black_ok fuel X.
Proof.
  revert X. induction fuel as [|fuel IH]; intros X Hf z w HI Hz Hnb; [lia|]. pose proof HI as [Hs HX].
  destruct (st_live w (proj1 Hs) z Hz) as (x & Hx & Hv). simpl. rewrite (zv_ok _ _ _ Hx). ob.
  destruct (zv_recolor w z x GC_BLACK Hx) as (w1 & Hw1 & Hrec & Hs1 & Hx1).
  change (λ v, gc_set_color v GC_BLACK) with gc_set_black in Hw1. rewrite Hw1. ob.
  assert (still w0 w1) as Hs01 by by etrans.
  assert (black_I ({[z]} ∪ X) w1) as HI1.
  { split; [done|]. destruct Hrec as [_ Hc]. intros z' [->%elem_of_singleton|Hz']%elem_of_union; rewrite Hc;
      [by rewrite decide_True|]. case_decide; [done|auto]. }
  assert (black_ok fuel ({[z]} ∪ X)) as Hok. { apply IH, room_enter; [done| |done]. intros Hzb%HX. congruence. }
  assert (∀ ns w', sblacks_list (succ0 (Zv z)) w1 ns w' → sblacks (Zv z) w (Zv z :: ns) w') as Hnew.
  { intros ns w' Hl. by eapply sblack_node. }
  assert (succ0 (Zv z) = [] → ∃ ns w', OK w1 = OK w' ∧ sblacks (Zv z) w ns w' ∧ still w0 w') as Hleaf.
  { intros Hsucc. exists [Zv z], w1. split; [done|]. split; [|done]. apply Hnew. rewrite Hsucc. constructor. }
  destruct (z_value x) as [|ht|h hd] eqn:Ev.
  - apply Hleaf. by apply (st_leaf w (proj1 Hs) z x Hx); auto.
  - destruct (st_array w (proj1 Hs) z x ht Hx Ev) as (Hsym & Hp & l & Hl & Hlive & Hsucc).
    rewrite (erase_symbol w w1), Hsym by apply Hs1. case_bool_decide as Hht.
    + apply Hleaf. simpl. rewrite Hv. by rewrite bool_decide_true.
    + destruct (each_in_sim sblacks_list (black_I ({[z]} ∪ X)) (visit_black (zval_scan_black fuel)) ht l w1)
        as (ns & w2 & -> & Hext & HI2); [by rewrite (erase_tables w w1) by apply Hs1| |done|].
      { intros z' w' Hz' HI'. apply (black_visit fuel _ Hok); [by apply Hlive|done]. }
      exists (Zv z :: ns), w2. split; [done|]. split; [|by apply HI2]. apply Hnew. rewrite Hsucc by done.
      specialize (Hext [] [] w2 (sblack_nil _ _ _ _ _)). by rewrite !app_nil_r in Hext.
  - rewrite (st_has_store w w1) by done. destruct (has_store w) eqn:Hst.
    + destruct (st_object w (proj1 Hs) z x h hd Hx Ev Hst) as (Hp & -> & Hb & Hsucc).
      destruct (st_bucket w1 (proj1 Hs01) h Hb) as [b Hb1].
      destruct (obj_count w1 h b 1 Hb1) as (w2 & Hw2 & Hcnt & Hs2 & Hb2). apply st_count in Hcnt; [|apply Hs01].
      rewrite Hw2. ob. rewrite (bucket_ok _ _ _ Hb2). ob.
      assert (black_I ({[z]} ∪ X) w2) as HI2.
      { split; [by etrans|]. intros z' Hz'. pose proof (proj2 HI1 z' Hz') as Hg'. destruct Hcnt as [_ Hc]. by rewrite Hc. }
      destruct (decide (gc_get_color (obj_buffered (obj_set_refcount (λ r, r + 1) b)) = GC_BLACK)) as [Hbg|Hbg].
      * exists [Zv z], w2. split; [done|]. split; [|by apply HI2]. apply Hnew. rewrite Hsucc.
        eapply sblack_old; [done| |constructor]. unfold color. simpl. by rewrite Hb2.
      * destruct (black_object fuel _ h w2 _ Hok HI2 Hb2 Hbg) as (ns & w3 & -> & Hm & HI3).
        exists (Zv z :: ns), w3. split; [done|]. split; [|by apply HI3]. apply Hnew. rewrite Hsucc.
        rewrite <- (app_nil_r ns). by eapply sblack_cons; [..|constructor].
    + apply Hleaf. by apply (st_leaf w (proj1 Hs) z x Hx); eauto.
Qed.
End phases.

(** * Scanning, simulated *)

(** A node that is not grey keeps its colour while scanning, or turns black. *)
Lemma scan_keep {N S : Type} `{EqDecision N} (succ : N → list N) (pinned : N → bool) (rc : S → N → Z) (col : S → N → gc_color) :
  (∀ n s s', scan succ pinned rc col n s s' → ∀ x, col s x ≠ GC_GREY → col s' x = col s x ∨ col s' x = GC_BLACK) ∧
  (∀ l s s', scan_list succ pinned rc col l s s' → ∀ x, col s x ≠ GC_GREY → col s' x = col s x ∨ col s' x = GC_BLACK).
Proof.
  apply scan_both; auto.
  - intros n s ns s' _ _ Hb x Hx. destruct (proj1 (sblack_spec _ _ _ _) _ _ _ _ Hb) as [[_ _ Hc _ _] _].
    rewrite Hc. case_decide; auto.
  - intros n s s0 s' Hn _ [_ Hc] _ IH x Hx. specialize (IH x). rewrite Hc in IH. case_decide; [congruence|auto].
  - intros m l s s1 s2 _ IH1 _ IH2 x Hx. specialize (IH2 x). destruct (IH1 x Hx) as [E|E]; rewrite E in IH2; auto.
    destruct IH2; auto.
Qed.

Lemma scan_mono {N S : Type} `{EqDecision N} (succ : N → list N) (pinned : N → bool) (rc : S → N → Z) (col : S → N → gc_color)
  n s s' x : scan succ pinned rc col n s s' → col s x ≠ GC_GREY → col s' x ≠ GC_GREY.
Proof. intros Hs Hx. destruct (proj1 (scan_keep succ pinned rc col) _ _ _ Hs x Hx) as [->|]; congruence. Qed.

Section phases.
Context `{Handlers} (hd_of : Z → ptr) (w0 : world) (Hwf : wf_graph hd_of w0).
Implicit Types (w : world) (z pz : ptr) (h : Z) (n : node) (X : gset ptr) (ns : list node).

Abbreviation succ0 := (succ hd_of w0).
Abbreviation pin0 := (pinned w0).
Abbreviation dom0 := (dom (zvals w0)).
Abbreviation live z := (is_Some (zvals w0 !! z)).
Abbreviation scans := (scan succ0 pin0 refcount color).
Abbreviation scans_list := (scan_list succ0 pin0 refcount color).
Abbreviation sblacks := (sblack succ0 pin0 refcount color).
(** The nodes scanned are not recorded. *)
Abbreviation R := (λ l w (ns : list node) w', scans_list l w w').

(** The symbol table is not grey; the zvals of [X] are not grey any more. *)
Definition scan_I X w : Prop :=
  still w0 w ∧ (∀ z, z ∈ X → color w (Zv z) ≠ GC_GREY) ∧ (∀ n, pin0 n = true → color w n ≠ GC_GREY).

Lemma scan_I_keep X n w w' : scan_I X w → scans n w w' → still w0 w' → scan_I X w'.
Proof. intros (_ & H1 & H2) Hm Hs. split; [done|]. split; intros; eapply scan_mono; eauto. Qed.

Definition scan_ok (fuel : nat) X : Prop := ∀ z w, scan_I X w → live z →
  ∃ w', zval_scan fuel z w = OK w' ∧ scans (Zv z) w w' ∧ still w0 w'.

Lemma scan_visit fuel X : scan_ok fuel X → ∀ z w, live z → scan_I X w →
  ∃ ns w', zval_scan fuel z w = OK w' ∧ ext R [Zv z] w ns w' ∧ scan_I X w'.
Proof.
  intros Hok z w Hz HI. destruct (Hok z w HI Hz) as (w' & Hr & Hsc & Hs). exists [], w'. split; [done|].
  split; [|by eapply scan_I_keep]. intros l' ns' w'' Hl. by eapply scan_cons.
Qed.

Lemma scan_black z w : still w0 w → live z → color w (Zv z) ≠ GC_BLACK →
  ∃ ns w', zval_scan_black (gc_fuel w) z w = OK w' ∧ sblacks (Zv z) w ns w' ∧ still w0 w'.
Proof.
  intros Hs Hz Hc. apply (black_all hd_of w0 Hwf (gc_fuel w) ∅); [by apply (room_start w0)|split; [done|set_solver]|done..].
Qed.

(** An object that is grey. *)
Lemma scan_object fuel X h w b : scan_ok fuel X → scan_I X w → buckets w !! h = Some b →
  gc_get_color (obj_buffered b) = GC_GREY →
  ∃ w', (if decide (0 < obj_refcount b) then zobj_scan_black h (hd_of h) w
         else let* w := bucket_upd w h (obj_set_buffered (λ v, gc_set_color v GC_WHITE)) in
              each_of_object (zval_scan fuel) h (hd_of h) w) = OK w' ∧
    scans (Ob h) w w' ∧ scan_I X w'.
Proof.
  intros Hok HI Hb Hc. pose proof HI as (Hs & HX & Hpin).
  assert (color w (Ob h) = GC_GREY) as Hcol by (unfold color; simpl; by rewrite Hb).
  assert (refcount w (Ob h) = obj_refcount b) as Hrc by (simpl; by rewrite Hb).
  case_decide as Hpos.
  - destruct (black_object hd_of w0 Hwf (gc_fuel w) ∅ h w b) as (ns & w1 & Hw1 & Hsb & HI1).
    + by apply black_all, (room_start w0).
    + split; [done|set_solver].
    + done.
    + congruence.
    + exists w1. split; [exact Hw1|]. assert (scans (Ob h) w w1) as Hsc.
      { eapply scan_live; [done| |done]. by rewrite Hrc. }
      split; [done|]. eapply scan_I_keep; [done..|apply HI1].
  - destruct (obj_recolor w h b GC_WHITE Hb) as (w1 & -> & Hrec & Hs1). ob.
    assert (still w0 w1) as Hs01 by by etrans.
    assert (scan_I X w1) as HI1.
    { destruct Hrec as [_ Hc']. split; [done|]. split; intros; rewrite Hc'; case_decide; auto. }
    destruct (each_of_object_sim R hd_of (scan_I X) (zval_scan fuel) h w1) as (ns & w2 & -> & Hext & HI2).
    + apply (st_wf hd_of w0 Hwf), Hs01.
    + apply (st_bucket w0); [apply Hs01|]. rewrite <- (fmap_is_Some erase_bucket), <- (erase_bucket_at w0 w) by apply Hs.
      apply fmap_is_Some. eauto.
    + intros w' [Hw' _]. apply still_erase in Hw', Hs01. congruence.
    + intros z w' Hz HI'. apply scan_visit; [done| |done]. by rewrite <- (erase_is_Some w0 w') by apply HI'.
    + done.
    + rewrite (st_succ hd_of w0) in Hext by apply Hs01. exists w2. split; [done|]. split; [|done].
      eapply scan_white; [done|lia|done|].
      specialize (Hext [] [] w2 (scan_nil _ _ _ _ _)). by rewrite app_nil_r in Hext.
Qed.

Lemma scan_all fuel X : (size (dom0 ∖ X) < fuel)%nat → scan_ok fuel X.
Proof.
  revert X. induction fuel as [|fuel IH]; intros X Hf z w HI Hz; [lia|]. pose proof HI as (Hs & HX & Hpin).
  destruct (st_live w0 w (proj1 Hs) z Hz) as (x & Hx & Hv). cbn [zval_scan]. rewrite (zv_ok _ _ _ Hx). ob.
  assert (color w (Zv z) = gc_get_color (u_buffered x)) as Hcol by (unfold color; simpl; by rewrite Hx).
  assert (refcount w (Zv z) = refcount__gc x) as Hrc by (simpl; by rewrite Hx).
  destruct (decide (gc_get_color (u_buffered x) = GC_GREY)) as [Hg|Hg].
  2:{ exists w. split; [done|]. split; [|done]. apply scan_done. by rewrite Hcol. }
  case_decide as Hpos.
  { destruct (scan_black z w Hs Hz) as (ns & w1 & -> & Hsb & Hs1); [congruence|]. exists w1. split; [done|].
    split; [|done]. eapply scan_live; [congruence|by rewrite Hrc|done]. }
  destruct (zv_recolor w z x GC_WHITE Hx) as (w1 & -> & Hrec & Hs1 & Hx1). ob.
  assert (still w0 w1) as Hs01 by by etrans.
  assert (scan_I ({[z]} ∪ X) w1) as HI1.
  { destruct Hrec as [_ Hc]. split; [done|]. split; [|intros; rewrite Hc; case_decide; auto].
    intros z' [->%elem_of_singleton|Hz']%elem_of_union; rewrite Hc; [by rewrite decide_True|]. case_decide; [done|auto]. }
  assert (scan_ok fuel ({[z]} ∪ X)) as Hok. { apply IH, (room_enter w0); [done| |done]. intros Hzg%HX. congruence. }
  assert (∀ w', scans_list (succ0 (Zv z)) w1 w' → scans (Zv z) w w') as Hnew.
  { intros w' Hl. eapply scan_white; [congruence|lia|done..]. }
  assert (succ0 (Zv z) = [] → ∃ w', OK w1 = OK w' ∧ scans (Zv z) w w' ∧ still w0 w') as Hleaf.
  { intros Hsucc. exists w1. split; [done|]. split; [|done]. apply Hnew. rewrite Hsucc. constructor. }
  destruct (z_value x) as [|ht|h hd] eqn:Ev.
  - apply Hleaf. by apply (st_leaf hd_of w0 w (proj1 Hs) z x Hx); auto.
  - destruct (st_array hd_of w0 Hwf w (proj1 Hs) z x ht Hx Ev) as (Hsym & Hp & l & Hl & Hlive & Hsucc).
    rewrite (erase_symbol w w1), Hsym by apply Hs1. case_bool_decide as Hht; [exfalso; apply (Hpin (Zv z)); congruence|].
    destruct (each_in_sim R (scan_I ({[z]} ∪ X)) (zval_scan fuel) ht l w1) as (ns & w2 & -> & Hext & HI2);
      [by rewrite (erase_tables w w1) by apply Hs1| |done|].
    { intros z' w' Hz' HI'. apply (scan_visit fuel _ Hok); [by apply Hlive|done]. }
    exists w2. split; [done|]. split; [|by apply HI2]. apply Hnew. rewrite Hsucc by done.
    specialize (Hext [] [] w2 (scan_nil _ _ _ _ _)). by rewrite app_nil_r in Hext.
  - rewrite (st_has_store w w1) by done. destruct (has_store w) eqn:Hst.
    + destruct (st_object hd_of w0 Hwf w (proj1 Hs) z x h hd Hx Ev Hst) as (Hp & -> & Hb & Hsucc).
      destruct (st_bucket w0 w1 (proj1 Hs01) h Hb) as [b Hb1]. rewrite (bucket_ok _ _ _ Hb1). ob.
      assert (∀ w', scans (Ob h) w1 w' → scans (Zv z) w w') as Hob.
      { intros w' Hsc. apply Hnew. rewrite Hsucc. eapply scan_cons; [done|constructor]. }
      case_decide as Hbg.
      * destruct (scan_object fuel _ h w1 b Hok HI1 Hb1 Hbg) as (w2 & -> & Hsc & HI2).
        exists w2. split; [done|]. split; [auto|apply HI2].
      * exists w1. split; [done|]. split; [|done]. apply Hob, scan_done. unfold color. simpl. by rewrite Hb1.
    + apply Hleaf. by apply (st_leaf hd_of w0 w (proj1 Hs) z x Hx); eauto.
Qed.

Lemma zval_scan_sim z w : scan_I ∅ w → live z →
  ∃ w', zval_scan (gc_fuel w) z w = OK w' ∧ scans (Zv z) w w' ∧ still w0 w'.
Proof. intros HI Hz. apply (scan_all (gc_fuel w) ∅); [apply room_start, HI|done|done]. Qed.

Lemma zobj_scan_sim h w : scan_I ∅ w → is_Some (buckets w0 !! h) →
  ∃ w', zobj_scan h (hd_of h) w = OK w' ∧ scans (Ob h) w w' ∧ still w0 w'.
Proof.
  intros HI Hh. pose proof HI as (Hs & _). destruct (st_bucket w0 w (proj1 Hs) h Hh) as [b Hb]. unfold zobj_scan.
  assert (has_store w = true) as ->.
  { unfold has_store. apply bool_decide_true. rewrite (buckets_Some w h b) by done. eauto. }
  rewrite (bucket_ok _ _ _ Hb). ob. case_decide as Hg.
  - destruct (scan_object (gc_fuel w) ∅ h w b) as (w1 & -> & Hm & HI1); [apply scan_all, room_start, Hs|done..|].
    exists w1. split; [done|]. split; [done|apply HI1].
  - exists w. split; [done|]. split; [|done]. apply scan_done. unfold color. simpl. by rewrite Hb.
Qed.
End phases.
