(* ===== verification/ZendGcCollect.v ===== *)
(** Collecting white, simulated; and the list of zvals to free. *)

From stdpp Require Import relations.
From S2P Require Import Prelude Dll TrialDeletion TrialScan TrialCollect ZendGcHeap ZendGc ZendGcSim ZendGcMark.

(** ** The list of zvals to free *)

Section lists.
Context `{Handlers}.
Implicit Types (w : world) (z : ptr) (n : node) (l : list ptr).

(** The zvals linked from [p] through [u.next]. *)
Fixpoint chain (fuel : nat) w (p : gc_addr) : list ptr :=
  match fuel, p with
  | S fuel, AZval z => z :: chain fuel w (gc_address (word w (Zv z)))
  | _, _ => []
  end.
Definition to_free w : list ptr := chain (size (zvals w)) w (zval_to_free (gc_globals w)).

Fixpoint on_list w (p : gc_addr) l : Prop :=
  match l with
  | [] => p = FREE_LIST_END
  | z :: l => p = AZval z ∧ ∃ q, word w (Zv z) = gc_next q ∧ on_list w q l
  end.

Lemma chain_on_list fuel w p l : on_list w p l → (length l ≤ fuel)%nat → chain fuel w p = l.
Proof.
  revert fuel p. induction l as [|z l IH]; intros fuel p Hl Hn; simpl in *; [by subst; destruct fuel|].
  destruct Hl as (-> & q & Hq & Hl). destruct fuel as [|fuel]; [lia|]. simpl. rewrite Hq. simpl. f_equal. apply IH; [done|lia].
Qed.

Lemma on_list_black w p l z : on_list w p l → z ∈ l → color w (Zv z) = GC_BLACK ∧ ∀ r, gc_address (word w (Zv z)) ≠ ARoot r.
Proof.
  revert p. induction l as [|z' l IH]; intros p Hl Hz; [set_solver|]. destruct Hl as (-> & q & Hq & Hl).
  apply elem_of_cons in Hz as [->|Hz]; [|by eapply IH]. unfold color. rewrite Hq. split; [done|]. simpl. intros r ->.
  destruct l as [|y l]; simpl in Hl; [done|]. by destruct Hl.
Qed.

Lemma on_list_words w w' p l : on_list w p l → (∀ z, z ∈ l → word w' (Zv z) = word w (Zv z)) → on_list w' p l.
Proof.
  revert p. induction l as [|z l IH]; intros p Hl Hw; [done|]. destruct Hl as (-> & q & Hq & Hl). split; [done|].
  exists q. rewrite Hw by set_solver. split; [done|]. apply IH; [done|]. set_solver.
Qed.

Record free_ok w : Prop := {
  fo_list : on_list w (zval_to_free (gc_globals w)) (to_free w);
  fo_nodup : NoDup (to_free w);
  fo_live : ∀ z, z ∈ to_free w → is_Some (zvals w !! z);
}.

Lemma free_intro w l : on_list w (zval_to_free (gc_globals w)) l → NoDup l → (∀ z, z ∈ l → is_Some (zvals w !! z)) →
  to_free w = l ∧ free_ok w.
Proof.
  intros Hl Hnd Hlive.
  assert (to_free w = l) as He. { apply chain_on_list; [done|]. by apply live_length. }
  split; [done|]. split; by rewrite He.
Qed.

Lemma free_ok_ext w w' : shape w' = shape w → zval_to_free (gc_globals w') = zval_to_free (gc_globals w) → free_ok w →
  (∀ z, z ∈ to_free w → word w' (Zv z) = word w (Zv z)) → to_free w' = to_free w ∧ free_ok w'.
Proof.
  intros Hs Hg [F1 F2 F3] Hw. apply free_intro; [rewrite Hg; by eapply on_list_words|done|].
  intros z Hz. rewrite (shape_is_Some w w') by done. auto.
Qed.

(** The projections of the relation [collect]. *)
Definition listed w n : Z := match n with Zv z => if decide (z ∈ to_free w) then 1 else 0 | Ob _ => 0 end.
Definition rooted w n : bool := match gc_address (word w n) with ARoot _ => true | _ => false end.
Definition restored n : bool := match n with Zv _ => true | Ob _ => false end.

(** An address a word has outside the list. *)
Definition addr_ok (v : gc_word) : Prop := gc_address v = ANull ∨ ∃ r, gc_address v = ARoot r.

Lemma gc_is_white_spec v : gc_is_white v = true ↔ v = GcWord ANull GC_WHITE.
Proof. unfold gc_is_white. by rewrite bool_decide_eq_true. Qed.
End lists.

Section collect.
Context `{Handlers} (hd_of : Z → ptr) (w0 : world) (Hwf : wf_graph hd_of w0).
Implicit Types (w : world) (z pz : ptr) (h : Z) (n : node) (X Y Z : gset ptr) (ns : list node).

Abbreviation succ0 := (succ hd_of w0).
Abbreviation pin0 := (pinned w0).
Abbreviation dom0 := (dom (zvals w0)).
Abbreviation live z := (is_Some (zvals w0 !! z)).
Abbreviation collects := (collect succ0 pin0 refcount color listed rooted restored).
Abbreviation collects_list := (collect_list succ0 pin0 refcount color listed rooted restored).
Abbreviation sames := (same refcount color listed rooted).
Abbreviation takes := (taken refcount color listed rooted).
Abbreviation restores := (restore pin0 refcount color listed rooted restored).

(** The invariant: [X] are zvals already visited, [Y] those among them that
    are not on the list yet. *)
Record coll_I X Y w : Prop := {
  ci_erase : erase w = erase w0;
  ci_uint : uints refcount w;
  ci_free : free_ok w;
  ci_addr : ∀ n, addr_ok (word w n) ∨ ∃ z, n = Zv z ∧ z ∈ to_free w;
  ci_pin : ∀ n, pin0 n = true → color w n ≠ GC_WHITE;
  ci_seen : ∀ z, z ∈ X → color w (Zv z) ≠ GC_WHITE;
  ci_off : ∀ z, z ∈ Y → (z ∉ to_free w) ∧ word w (Zv z) = GcWord ANull GC_BLACK;
}.

Lemma ci_mono X X' Y Y' w : X ⊆ X' → Y ⊆ Y' → coll_I X' Y' w → coll_I X Y w.
Proof. intros HX HY [? ? ? ? ? ? ?]. split; auto. Qed.

Lemma same_to_free w w' : erase w' = erase w → gc_globals w' = gc_globals w → free_ok w →
  (∀ z, z ∈ to_free w → word w' (Zv z) = word w (Zv z)) → to_free w' = to_free w ∧ free_ok w'.
Proof. intros He Hg. apply free_ok_ext; [by apply erase_shape|by rewrite Hg]. Qed.

(** Counting a reference changes no word. *)
Lemma ci_words X Y w w' : coll_I X Y w → uints refcount w' → erase w' = erase w → gc_globals w' = gc_globals w →
  (∀ n, word w' n = word w n) → coll_I X Y w' ∧ to_free w' = to_free w.
Proof.
  intros [I1 I0 I2 I3 I4 I5 I6] Hu He Hg Hw. destruct (same_to_free w w' He Hg I2) as [Hf Hok]; [auto|].
  assert (∀ n, color w' n = color w n) as Hc by (intros n; unfold color; by rewrite Hw).
  split; [|done]. split; [congruence|done|done|..].
  - intros n. rewrite Hw, Hf. apply I3.
  - intros n. rewrite Hc. apply I4.
  - intros z. rewrite Hc. apply I5.
  - intros z. rewrite Hf, Hw. apply I6.
Qed.

(** A white node is taken. *)
Lemma ci_take X Y w w' n c : coll_I X Y w → still w w' → word w n = GcWord ANull GC_WHITE →
  recolor refcount color n c w w' → (∀ n', word w' n' = if decide (n' = n) then GcWord ANull c else word w n') →
  c = GC_BLACK ∨ c = GC_PURPLE → coll_I X Y w' ∧ to_free w' = to_free w ∧ takes n w w'.
Proof.
  intros [I1 I0 I2 I3 I4 I5 I6] (He & Hg & _) Hn [Hr Hc] Hw Hcc.
  assert (∀ z, z ∈ to_free w → Zv z ≠ n) as Hne.
  { intros z Hz <-. destruct (on_list_black _ _ _ z (fo_list _ I2) Hz) as [Hb _]. unfold color in Hb. by rewrite Hn in Hb. }
  destruct (same_to_free w w' He Hg I2) as [Hf Hok]. { intros z Hz. rewrite Hw, decide_False by auto. done. }
  split_and!; [|done|].
  - split; [congruence|intros n'; rewrite Hr; apply I0|done|..].
    + intros n'. rewrite Hw, Hf. case_decide; [left; by left|]. apply I3.
    + intros n' Hp. rewrite Hc. case_decide; [by destruct Hcc as [-> | ->]|by apply I4].
    + intros z Hz. rewrite Hc. case_decide; [by destruct Hcc as [-> | ->]|by apply I5].
    + intros z Hz. destruct (I6 z Hz) as [Hz1 Hz2]. rewrite Hf, Hw, decide_False; [done|]. intros <-. by rewrite Hz2 in Hn.
  - intros n'. unfold net. rewrite Hr. split_and!.
    + apply eq_subrelation; [apply _|]. f_equal. unfold listed. by rewrite Hf.
    + unfold rooted. rewrite Hw. case_decide; [subst; by rewrite Hn|done].
    + rewrite Hc. by case_decide.
Qed.

Lemma ci_push X Y w z : coll_I X ({[z]} ∪ Y) w → live z → z ∉ Y →
  ∃ w', put_to_free z w = OK w' ∧ coll_I X Y w' ∧ to_free w' = z :: to_free w ∧ sames w w'.
Proof.
  intros [I1 I0 I2 I3 I4 I5 I6] Hzl HzY. destruct (I6 z ltac:(set_solver)) as [Hz Hwz].
  apply (erase_is_Some w0 w) in Hzl as [x Hx]; [|done].
  assert (u_buffered x = GcWord ANull GC_BLACK) as Hu by (simpl in Hwz; by rewrite Hx in Hwz).
  unfold put_to_free. rewrite (zv_upd_ok _ _ _ _ Hx). ob.
  set (w1 := upd_zval w z (zv_set_refcount (λ r, r + 1) x)).
  assert (zvals w1 !! z = Some (zv_set_refcount (λ r, r + 1) x)) as Hx1 by apply lookup_insert_eq.
  rewrite (zv_upd_ok _ _ _ _ Hx1). ob. eexists. split; [done|]. set (w2 := set_globals _ _).
  assert (still w w1) as Hs1 by by eapply still_upd_zval.
  assert (erase w2 = erase w) as He.
  { transitivity (erase w1); [|apply Hs1]. refine (_ (erase_upd_zval w1 z _ (zv_set_u (λ _, gc_next (zval_to_free (gc_globals w1))) (zv_set_refcount (λ r, r + 1) x)) Hx1 _)).
    - intros He. exact He.
    - unfold erase_zval. simpl. rewrite Hu. f_equal.
      pose proof (fo_list _ I2) as Hl. destruct (to_free w) as [|y l]; simpl in Hl; [by rewrite Hl|]. by destruct Hl as [-> _]. }
  assert (∀ n, word w2 n = if decide (n = Zv z) then gc_next (zval_to_free (gc_globals w)) else word w n) as Hw.
  { intros n. transitivity (word (upd_zval w1 z (zv_set_u (λ _, gc_next (zval_to_free (gc_globals w1))) (zv_set_refcount (λ r, r + 1) x))) n); [done|].
    rewrite word_upd_zval. case_decide; [done|]. unfold w1. by rewrite word_upd_zval, decide_False. }
  assert (∀ n, refcount w2 n = if decide (n = Zv z) then uint_wrap (refcount w n + 1) else refcount w n) as Hr.
  { intros n. transitivity (refcount (upd_zval w1 z (zv_set_u (λ _, gc_next (zval_to_free (gc_globals w1))) (zv_set_refcount (λ r, r + 1) x))) n); [done|].
    rewrite refcount_upd_zval. case_decide; [subst; simpl; by rewrite Hx|]. unfold w1. by rewrite refcount_upd_zval, decide_False. }
  destruct (free_intro w2 (z :: to_free w)) as [Hf Hok].
  { refine (conj eq_refl (ex_intro _ (zval_to_free (gc_globals w)) (conj _ _))).
    - rewrite Hw. by rewrite decide_True.
    - eapply on_list_words; [apply (fo_list _ I2)|]. intros y Hy. rewrite Hw, decide_False; [done|]. intros [= ->]. done. }
  { constructor; [done|apply (fo_nodup _ I2)]. }
  { intros y Hy. rewrite (erase_is_Some w w2) by done. apply elem_of_cons in Hy as [->|Hy]; [eauto|by apply (fo_live _ I2)]. }
  assert (∀ n, color w2 n = color w n) as Hc.
  { intros n. unfold color. rewrite Hw. case_decide; [subst; by rewrite Hwz|done]. }
  clearbody w2. split_and!; [|done|].
  - split; [congruence|intros n; rewrite Hr; case_decide; [apply uint_wrap_range|apply I0]|done|..].
    + intros n. rewrite Hw, Hf. case_decide as Hn; [subst; right; exists z; set_solver|]. destruct (I3 n) as [?|(y & -> & Hy)]; [auto|].
      right. exists y. set_solver.
    + intros n Hp. rewrite Hc. auto.
    + intros y Hy. rewrite Hc. auto.
    + intros y Hy. destruct (I6 y ltac:(set_solver)) as [Hy1 Hy2]. rewrite Hf, Hw, decide_False by congruence.
      split; [|done]. set_solver.
  - intros n. unfold net. rewrite Hc, Hr. split_and!; [|done|].
    + destruct n as [y|h]; simpl; [|done]. rewrite Hf. destruct (decide (y = z)) as [->|Hy].
      * rewrite (decide_True (P := Zv z = Zv z)), (decide_True (P := z ∈ z :: to_free w)) by set_solver.
        rewrite (decide_False (P := z ∈ to_free w)), eqm_wrap by done. apply eq_subrelation; [apply _|]. lia.
      * rewrite (decide_False (P := Zv y = Zv z)) by congruence. apply eq_subrelation; [apply _|]. f_equal. apply decide_ext. set_solver.
    + unfold rooted. rewrite Hw. case_decide; [|done]. subst. rewrite Hwz. simpl.
      pose proof (fo_list _ I2) as Hl. destruct (to_free w) as [|y l]; simpl in Hl; [by rewrite Hl|]. by destruct Hl as [-> _].
Qed.

Lemma zv_take X Y w z : coll_I X Y w → live z → word w (Zv z) = GcWord ANull GC_WHITE →
  ∃ w', zv_upd w z (zv_set_u gc_set_black) = OK w' ∧ coll_I ({[z]} ∪ X) ({[z]} ∪ Y) w' ∧
    to_free w' = to_free w ∧ takes (Zv z) w w' ∧ still w w'.
Proof.
  intros HI Hz Hw. apply (erase_is_Some w0 w) in Hz as [x Hx]; [|apply HI].
  assert (u_buffered x = GcWord ANull GC_WHITE) as Hu by (simpl in Hw; by rewrite Hx in Hw).
  destruct (zv_recolor w z x GC_BLACK Hx) as (w1 & Hw1 & Hrec & Hs & Hx1). exists w1. split; [exact Hw1|].
  rewrite (zv_upd_ok _ _ _ _ Hx) in Hw1. injection Hw1 as Hw1.
  assert (∀ n, word w1 n = if decide (n = Zv z) then GcWord ANull GC_BLACK else word w n) as Hwd.
  { intros n. rewrite <- Hw1, word_upd_zval. simpl. by rewrite Hu. }
  destruct (ci_take X Y w w1 (Zv z) GC_BLACK HI Hs Hw Hrec Hwd) as (HI1 & Hf & Ht); [auto|].
  split_and!; [|done..]. destruct HI1 as [I1 I0 I2 I3 I4 I5 I6]. split; [done..| |].
  - intros y [->%elem_of_singleton|Hy]%elem_of_union; [|auto]. unfold color. by rewrite Hwd, decide_True.
  - intros y [->%elem_of_singleton|Hy]%elem_of_union; [|auto]. rewrite Hwd, decide_True by done. split; [|done].
    rewrite Hf. intros Hin. destruct (on_list_black _ _ _ z (fo_list _ (ci_free _ _ _ HI)) Hin) as [Hb _].
    unfold color in Hb. by rewrite Hw in Hb.
Qed.

Lemma obj_take X Y w h : coll_I X Y w → is_Some (buckets w0 !! h) → word w (Ob h) = GcWord ANull GC_WHITE →
  ∃ w', bucket_upd w h (obj_set_buffered gc_set_purple) = OK w' ∧ coll_I X Y w' ∧
    to_free w' = to_free w ∧ takes (Ob h) w w' ∧ still w w'.
Proof.
  intros HI Hh Hw. rewrite <- (fmap_is_Some erase_bucket), <- (erase_bucket_at w0 w) in Hh by apply HI.
  apply fmap_is_Some in Hh as [b Hb].
  assert (obj_buffered b = GcWord ANull GC_WHITE) as Hu by (simpl in Hw; by rewrite Hb in Hw).
  destruct (obj_recolor w h b GC_PURPLE Hb) as (w1 & Hw1 & Hrec & Hs). exists w1. split; [exact Hw1|].
  rewrite (bucket_upd_ok _ _ _ _ Hb) in Hw1. injection Hw1 as Hw1.
  assert (∀ n, word w1 n = if decide (n = Ob h) then GcWord ANull GC_PURPLE else word w n) as Hwd.
  { intros n. rewrite <- Hw1, word_upd_slot. simpl. by rewrite Hu. }
  destruct (ci_take X Y w w1 (Ob h) GC_PURPLE HI Hs Hw Hrec Hwd) as (HI1 & Hf & Ht); [auto|]. done.
Qed.

(** The list grows by the zvals among the nodes taken, and maybe those of
    [Z]. *)
Definition added Z ns w w' : Prop := ∀ z, z ∉ Z → (z ∈ to_free w' ↔ z ∈ to_free w ∨ Zv z ∈ ns).

Lemma added_app Z ns1 ns2 w1 w2 w3 : added Z ns1 w1 w2 → added Z ns2 w2 w3 → added Z (ns1 ++ ns2) w1 w3.
Proof. intros H1 H2 z Hz. rewrite (H2 z Hz), (H1 z Hz), elem_of_app. tauto. Qed.
Lemma added_same Z ns w1 w1' w2 : to_free w1' = to_free w1 → added Z ns w1' w2 → added Z ns w1 w2.
Proof. intros He Ha z Hz. by rewrite (Ha z Hz), He. Qed.

Lemma collect_list_same l w w' ns w'' : sames w w' → collects_list l w' ns w'' → collects_list l w ns w''.
Proof.
  intros Hs Hc. destruct Hc as [w' w'' Hs'|m l w' w1 ns1 w2 ns2 w3 Hr Hc Hl].
  - constructor. intros x. destruct (Hs x) as (H1 & H2 & H3), (Hs' x) as (H4 & H5 & H6). by rewrite H4, H5, H6.
  - eapply collect_cons; [|done..]. intros x. destruct (Hs x) as (H1 & H2 & H3), (Hr x) as (H4 & H5 & H6).
    by rewrite H6, H1, H4, H5.
Qed.

Lemma collect_list_snoc l w ns w' w'' : collects_list l w ns w' → sames w' w'' → collects_list l w ns w''.
Proof.
  intros Hc Hs. induction Hc as [w w' Hs'|m l w w1 ns1 w2 ns2 w3 Hr Hc Hl IH].
  - constructor. intros x. destruct (Hs x) as (H1 & H2 & H3), (Hs' x) as (H4 & H5 & H6). by rewrite H1, H2, H3.
  - eapply collect_cons; eauto.
Qed.

Abbreviation R Z := (λ l w ns w', collects_list l w ns w' ∧ added Z ns w w').

Definition collect_ok (fuel : nat) X Y : Prop := ∀ z w, coll_I X Y w → live z →
  ∃ ns w', zval_collect_white fuel z w = OK w' ∧ collects (Zv z) w ns w' ∧ added ∅ ns w w' ∧ coll_I X Y w'.

(** Visiting a zval a taken node refers to. *)
Lemma collect_visit fuel X Y Z : collect_ok fuel X Y → ∀ z w, live z → coll_I X Y w →
  ∃ ns w', (let* w := count_ref 1 z w in zval_collect_white fuel z w) = OK w' ∧ ext (R Z) [Zv z] w ns w' ∧ coll_I X Y w'.
Proof.
  intros Hok z w Hz HI. destruct (st_live w0 w (ci_erase _ _ _ HI) z Hz) as (x & Hx & _).
  destruct (count_ref_ok w z 1) as (w1 & -> & Hc & (He & Hg & _) & Hword); [eauto|]. ob.
  apply (st_count w0) in Hc; [|apply HI].
  destruct (ci_words X Y w w1 HI (count_uints _ _ _ _ _ _ _ Hc (ci_uint _ _ _ HI)) He Hg Hword) as [HI1 Hf].
  destruct (Hok z w1 HI1 Hz) as (ns & w2 & -> & Hm & Ha & HI2). exists ns, w2. split; [done|]. split; [|done].
  intros l' ns' w'' [Hl Ha']. split.
  - eapply collect_cons; [|done..]. intros n. unfold net, color, rooted, listed. rewrite Hword, Hf. split_and!; [done..|].
    destruct Hc as [Hr _]. rewrite Hr. destruct (decide (n = Zv z)) as [->|Hn].
    + destruct (pin0 (Zv z)) eqn:Hp; [rewrite (decide_False (P := _ ∧ _)) by (intros (_ & ? & _); done); by rewrite Z.add_0_r|].
      rewrite (decide_True (P := _ ∧ _)), eqm_wrap by done. apply eq_subrelation; [apply _|]. lia.
    + rewrite (decide_False (P := _ ∧ _)) by tauto. by rewrite Z.add_0_r.
  - eapply added_app; [|done]. eapply added_same; [done|]. intros y _. apply Ha. set_solver.
Qed.

Lemma ext_R Z l w ns w' : ext (R Z) l w ns w' → collects_list l w ns w' ∧ added Z ns w w'.
Proof.
  intros Hext. destruct (Hext [] [] w') as [H1 H2]; [split; [by constructor|intros z; set_solver]|].
  rewrite !app_nil_r in H1. rewrite app_nil_r in H2. exact (conj H1 H2).
Qed.

(** A node that is not taken now. *)
Lemma ci_skip X Y w n : coll_I X Y w → word w n ≠ GcWord ANull GC_WHITE → color w n ≠ GC_WHITE ∨ rooted w n = true.
Proof.
  intros [I1 I0 I2 I3 I4 I5 I6] Hn. unfold color, rooted. destruct (I3 n) as [[Ha|[r Ha]]|(z & -> & Hz)].
  - left. intros Hc. destruct (word w n); simpl in *; congruence.
  - right. by rewrite Ha.
  - left. destruct (on_list_black _ _ _ z (fo_list _ I2) Hz) as [Hb _]. unfold color in Hb. by rewrite Hb.
Qed.

(** What the loops over the elements of a taken node do. *)
Section loops.
Context (fuel : nat) X Y Z (Hok : collect_ok fuel X Y).
Abbreviation visit := (λ z w, let* w := count_ref 1 z w in zval_collect_white fuel z w).

Lemma collect_each table w : coll_I X Y w → (∀ z, Some z ∈ table → live z) →
  ∃ ns w', each visit table w = OK w' ∧ ext (R Z) (Zv <$> omap id table) w ns w' ∧ coll_I X Y w'.
Proof.
  intros HI Hlive. apply (each_sim (R Z) (coll_I X Y)); [|done]. intros z w' Hz HI'.
  by apply (collect_visit fuel X Y Z Hok); [apply Hlive|].
Qed.

Lemma collect_each_in ht l w : coll_I X Y w → tables w0 !! ht = Some l → (∀ z, z ∈ l → live z) →
  ∃ ns w', each_in visit ht w = OK w' ∧ ext (R Z) (Zv <$> l) w ns w' ∧ coll_I X Y w'.
Proof.
  intros HI Hl Hlive. apply (each_in_sim (R Z) (coll_I X Y)); [by rewrite (erase_tables w0 w) by apply HI| |done].
  intros z w' Hz HI'. by apply (collect_visit fuel X Y Z Hok); [apply Hlive|].
Qed.
End loops.

(** A white object, visited through the zval [z], which is put on the list
    before its elements or between those of the array and those of the table. *)
Lemma collect_object fuel X Y h z w : (∀ Y, collect_ok fuel X Y) →
  coll_I X ({[z]} ∪ Y) w → live z → z ∉ Y → is_Some (buckets w0 !! h) → word w (Ob h) = GcWord ANull GC_WHITE →
  ∃ ns w', (let* w := bucket_upd w h (obj_set_buffered gc_set_purple) in
            let* r := object_gc h (hd_of h) w in
            match r with
            | Some (table, None) =>
                let* w := put_to_free z w in each (λ z w, let* w := count_ref 1 z w in zval_collect_white fuel z w) table w
            | Some (table, Some ht) =>
                let* w := each (λ z w, let* w := count_ref 1 z w in zval_collect_white fuel z w) table w in
                let* w := put_to_free z w in
                each_in (λ z w, let* w := count_ref 1 z w in zval_collect_white fuel z w) ht w
            | None => put_to_free z w
            end) = OK w' ∧
    collects (Ob h) w (Ob h :: ns) w' ∧ added ∅ (Zv z :: ns) w w' ∧ coll_I X Y w'.
Proof.
  intros Hok HI Hz HzY Hh Hw.
  destruct (obj_take _ _ w h HI Hh Hw) as (w1 & -> & HI1 & Hf1 & Ht & _). ob.
  destruct (st_object_gc hd_of w0 Hwf w1 (ci_erase _ _ _ HI1) h Hh) as (r & -> & Hr). ob.
  assert (∀ ns w', collects_list (succ0 (Ob h)) w1 ns w' → collects (Ob h) w (Ob h :: ns) w') as Hnew.
  { intros ns w' Hl. eapply collect_new; [..|done]; [unfold color|unfold rooted|done]; by rewrite Hw. }
  destruct r as [[table [ht|]]|].
  - destruct Hr as (Hlive & l & Hl & Hlive' & Hsucc).
    destruct (collect_each fuel X ({[z]} ∪ Y) {[z]} (Hok _) table w1 HI1 Hlive) as (ns1 & w2 & -> & Hx1 & HI2). ob.
    destruct (ci_push X Y w2 z HI2 Hz HzY) as (w3 & -> & HI3 & Hf3 & Hs3). ob.
    destruct (collect_each_in fuel X Y ∅ (Hok _) ht l w3 HI3 Hl Hlive') as (ns2 & w4 & -> & Hx2 & HI4).
    exists (ns1 ++ ns2), w4. split; [done|]. apply ext_R in Hx2 as [Hc2 Ha2].
    assert (∀ y, y ∈ to_free w4 ↔ y = z ∨ y ∈ to_free w2 ∨ Zv y ∈ ns2) as Ha.
    { intros y. rewrite (Ha2 y), Hf3 by set_solver. set_solver. }
    destruct (Hx1 (Zv <$> l) ns2 w4) as [Hc1 _].
    { split; [by eapply collect_list_same|]. intros y Hy. rewrite Ha. set_solver. }
    apply ext_R in Hx1 as [_ Ha1]. split_and!; [apply Hnew; by rewrite Hsucc| |done].
    intros y _. rewrite Ha, <- Hf1. destruct (decide (y = z)) as [->|Hy]; [set_solver|].
    rewrite (Ha1 y) by set_solver. set_solver.
  - destruct Hr as (Hlive & Hsucc).
    destruct (ci_push X Y w1 z HI1 Hz HzY) as (w2 & -> & HI2 & Hf2 & Hs2). ob.
    destruct (collect_each fuel X Y ∅ (Hok _) table w2 HI2 Hlive) as (ns & w3 & -> & Hx & HI3).
    apply ext_R in Hx as [Hc Ha]. exists ns, w3. split; [done|]. split_and!; [|intros y Hy; rewrite (Ha y Hy), Hf2, Hf1; set_solver|done].
    apply Hnew. rewrite Hsucc. by eapply collect_list_same.
  - destruct (ci_push X Y w1 z HI1 Hz HzY) as (w2 & -> & HI2 & Hf2 & Hs2). exists [], w2. split; [done|].
    split_and!; [apply Hnew; rewrite Hr; by constructor|intros y _; rewrite Hf2, Hf1; set_solver|done].
Qed.

Lemma collect_all fuel X Y : (size (dom0 ∖ X) < fuel)%nat → collect_ok fuel X Y.
Proof.
  revert X Y. induction fuel as [|fuel IH]; intros X Y Hf z w HI Hz; [lia|].
  destruct (st_live w0 w (ci_erase _ _ _ HI) z Hz) as (x & Hx & Hv). cbn [zval_collect_white]. rewrite (zv_ok _ _ _ Hx). ob.
  assert (word w (Zv z) = u_buffered x) as Hwx by (simpl; by rewrite Hx).
  destruct (gc_is_white (u_buffered x)) eqn:Hwhite.
  2:{ exists [], w. split; [done|]. split_and!; [|intros y; set_solver|done]. apply collect_skip; [|done].
      eapply ci_skip; [done|]. rewrite Hwx. intros Hu%gc_is_white_spec. congruence. }
  apply gc_is_white_spec in Hwhite. rewrite <- Hwx in Hwhite.
  assert (color w (Zv z) = GC_WHITE) as Hcol by (unfold color; by rewrite Hwhite).
  assert (z ∉ Y) as HzY. { intros HzY. destruct (ci_off _ _ _ HI z HzY). congruence. }
  assert (z ∉ X) as HzX. { intros HzX. by destruct (ci_seen _ _ _ HI z HzX). }
  assert (∀ Y', collect_ok fuel ({[z]} ∪ X) Y') as Hok. { intros Y'. apply IH, (room_enter w0); done. }
  destruct (zv_take X Y w z HI Hz Hwhite) as (w1 & -> & HI1 & Hf1 & Ht & Hs1). ob.
  assert (∀ ns w', collects_list (succ0 (Zv z)) w1 ns w' → collects (Zv z) w (Zv z :: ns) w') as Hnew.
  { intros ns w' Hl. eapply collect_new; [..|done]; [done|unfold rooted; by rewrite Hwhite|done]. }
  assert (∀ w', coll_I ({[z]} ∪ X) Y w' → coll_I X Y w') as Hweak. { intros w'. apply ci_mono; set_solver. }
  destruct (ci_push _ Y w1 z HI1 Hz HzY) as (w2 & Hpush & HI2 & Hf2 & Hs2).
  assert (∀ ns, collects_list (succ0 (Zv z)) w1 ns w2 → (∀ y, Zv y ∉ ns) →
    ∃ ns w', put_to_free z w1 = OK w' ∧ collects (Zv z) w ns w' ∧ added ∅ ns w w' ∧ coll_I X Y w') as Hleaf.
  { intros ns Hl Hns. exists (Zv z :: ns), w2. split; [done|]. split_and!; [by apply Hnew| |auto].
    intros y _. rewrite Hf2, Hf1. specialize (Hns y). set_solver. }
  destruct (z_value x) as [|ht|h hd] eqn:Ev.
  - destruct (st_leaf hd_of w0 w (ci_erase _ _ _ HI) z x Hx) as [_ Hsucc]; [auto|].
    apply (Hleaf []); [rewrite Hsucc; by constructor|set_solver].
  - destruct (st_array hd_of w0 Hwf w (ci_erase _ _ _ HI) z x ht Hx Ev) as (_ & Hp & l & Hl & Hlive & Hsucc).
    rewrite Hpush. ob. rewrite (erase_tables w0 w) in Hl by apply HI.
    destruct (collect_each_in fuel _ Y ∅ (Hok Y) ht l w2 HI2 Hl Hlive) as (ns & w3 & -> & Hx2 & HI3).
    apply ext_R in Hx2 as [Hc Ha]. exists (Zv z :: ns), w3. split; [done|]. split_and!; [|intros y Hy; rewrite (Ha y Hy), Hf2, Hf1; set_solver|auto].
    apply Hnew. rewrite Hsucc; [by eapply collect_list_same|]. intros ->. apply (ci_pin _ _ _ HI (Zv z)); [|done].
    rewrite Hp. by apply bool_decide_true.
  - rewrite (st_has_store w w1) by done. destruct (has_store w) eqn:Hst.
    + destruct (st_object hd_of w0 Hwf w (ci_erase _ _ _ HI) z x h hd Hx Ev Hst) as (Hp & -> & Hb & Hsucc).
      destruct (st_bucket w0 w1 (ci_erase _ _ _ HI1) h Hb) as [b Hb1]. rewrite (bucket_ok _ _ _ Hb1). ob.
      assert (word w1 (Ob h) = obj_buffered b) as Hwb by (simpl; by rewrite Hb1).
      assert (∀ ns w', collects (Ob h) w1 ns w' → collects_list (succ0 (Zv z)) w1 ns w') as Hob.
      { intros ns w' Hc. rewrite Hsucc, <- (app_nil_r ns). eapply collect_cons; [|done|by constructor].
        intros n. split_and!; [done..|]. rewrite (decide_False (P := _ ∧ _)) by (intros (-> & _ & ?); done). by rewrite Z.add_0_r. }
      destruct (gc_is_white (obj_buffered b)) eqn:Hbw.
      * apply gc_is_white_spec in Hbw.
        destruct (collect_object fuel _ Y h z w1 Hok HI1 Hz HzY Hb) as (ns & w3 & -> & Hc & Ha & HI3); [congruence|].
        exists (Zv z :: Ob h :: ns), w3. split; [done|]. split_and!; [by apply Hnew, Hob| |auto].
        intros y Hy. rewrite (Ha y Hy), Hf1. set_solver.
      * apply (Hleaf []); [|set_solver]. apply Hob, collect_skip; [|done].
        eapply ci_skip; [exact HI1|]. rewrite Hwb. intros Hu%gc_is_white_spec. congruence.
    + destruct (st_leaf hd_of w0 w (ci_erase _ _ _ HI) z x Hx) as [_ Hsucc]; [eauto|].
      apply (Hleaf []); [rewrite Hsucc; by constructor|set_solver].
Qed.

Lemma zval_collect_white_sim z w : coll_I ∅ ∅ w → live z →
  ∃ ns w', zval_collect_white (gc_fuel w) z w = OK w' ∧ collects (Zv z) w ns w' ∧ added ∅ ns w w' ∧ coll_I ∅ ∅ w'.
Proof.
  intros HI Hz. apply (collect_all (gc_fuel w) ∅ ∅); [|done..]. unfold gc_fuel. rewrite <- size_dom.
  rewrite (erase_dom w0 w) by apply HI. replace (dom0 ∖ ∅) with dom0 by set_solver. lia.
Qed.

(** A white object that is a root itself. *)
Lemma zobj_collect_white_sim h w : coll_I ∅ ∅ w → is_Some (buckets w0 !! h) →
  ∃ ns w', zobj_collect_white h (hd_of h) w = OK w' ∧ collects (Ob h) w ns w' ∧ added ∅ ns w w' ∧ coll_I ∅ ∅ w'.
Proof.
  intros HI Hh. destruct (st_bucket w0 w (ci_erase _ _ _ HI) h Hh) as [b Hb]. unfold zobj_collect_white.
  assert (has_store w = true) as ->.
  { unfold has_store. apply bool_decide_true. rewrite (buckets_Some w h b) by done. eauto. }
  rewrite (bucket_ok _ _ _ Hb). ob. assert (word w (Ob h) = obj_buffered b) as Hwb by (simpl; by rewrite Hb).
  destruct (gc_is_white (obj_buffered b)) eqn:Hw.
  2:{ exists [], w. split; [done|]. split_and!; [|intros y; set_solver|done]. apply collect_skip; [|done].
      eapply ci_skip; [done|]. rewrite Hwb. intros Hu%gc_is_white_spec. congruence. }
  apply gc_is_white_spec in Hw. rewrite <- Hwb in Hw.
  assert (collect_ok (gc_fuel w) ∅ ∅) as Hok.
  { apply collect_all. unfold gc_fuel. rewrite <- size_dom, (erase_dom w0 w) by apply HI.
    replace (dom0 ∖ ∅) with dom0 by set_solver. lia. }
  destruct (obj_take _ _ w h HI Hh Hw) as (w1 & -> & HI1 & Hf1 & Ht & _). ob.
  assert (∀ ns w', collects_list (succ0 (Ob h)) w1 ns w' → collects (Ob h) w (Ob h :: ns) w') as Hnew.
  { intros ns w' Hl. eapply collect_new; [..|done]; [unfold color|unfold rooted|done]; by rewrite Hw. }
  unfold each_of_object. destruct (st_object_gc hd_of w0 Hwf w1 (ci_erase _ _ _ HI1) h Hh) as (r & -> & Hr). ob.
  destruct r as [[table props]|].
  2:{ exists [Ob h], w1. split; [done|]. split_and!; [apply Hnew; rewrite Hr; by constructor|intros y _; rewrite Hf1; set_solver|done]. }
  destruct Hr as (Hlive & Hr). destruct (collect_each (gc_fuel w) ∅ ∅ ∅ Hok table w1 HI1 Hlive) as (ns1 & w2 & -> & Hx1 & HI2). ob.
  destruct props as [ht|]; cbn [each_prop].
  - destruct Hr as (l & Hl & Hlive' & Hsucc).
    destruct (collect_each_in (gc_fuel w) ∅ ∅ ∅ Hok ht l w2 HI2 Hl Hlive') as (ns2 & w3 & -> & Hx2 & HI3).
    exists (Ob h :: ns1 ++ ns2), w3. split; [done|].
    destruct (ext_R _ _ _ _ _ (ext_app _ _ _ _ _ _ _ _ Hx1 Hx2)) as [Hc Ha]. split_and!; [apply Hnew; by rewrite Hsucc| |done].
    intros y Hy. rewrite (Ha y Hy), Hf1. set_solver.
  - exists (Ob h :: ns1), w2. split; [done|]. apply ext_R in Hx1 as [Hc Ha]. split_and!; [apply Hnew; by rewrite Hr| |done].
    intros y Hy. rewrite (Ha y Hy), Hf1. set_solver.
Qed.
End collect.
