(* ===== verification/ZendGcRoots.v ===== *)
(** The root buffer of Zend/zend_gc.c and the three passes over it.

    The buffer is a circular list through the sentinel [GC_G(roots)]; entries
    no longer used are chained through [prev] from [unused]; the entries from
    [first_unused] on have never been used. *)

From S2P Require Import Prelude Dll TrialDeletion ZendGcHeap ZendGc.

(** * The buffer *)

Definition rb_set_prev (p : nptr) (e : gc_root_buffer) : gc_root_buffer :=
  {| rb_prev := p; rb_next := rb_next e; rb_handle := rb_handle e; rb_u := rb_u e |}.
Definition rb_set_next (n : nptr) (e : gc_root_buffer) : gc_root_buffer :=
  {| rb_prev := rb_prev e; rb_next := n; rb_handle := rb_handle e; rb_u := rb_u e |}.

Definition set_root_mem (m : gmap ptr gc_root_buffer) (g : zend_gc_globals) : zend_gc_globals :=
  {| gc_enabled := gc_enabled g; gc_active := gc_active g; buf := buf g; root_mem := m;
     unused := unused g; first_unused := first_unused g; last_unused := last_unused g;
     zval_to_free := zval_to_free g; free_list := free_list g; next_to_free := next_to_free g;
     gc_runs := gc_runs g; gc_collected := gc_collected g |}.
Definition set_unused (u f : nptr) (g : zend_gc_globals) : zend_gc_globals :=
  {| gc_enabled := gc_enabled g; gc_active := gc_active g; buf := buf g; root_mem := root_mem g;
     unused := u; first_unused := f; last_unused := last_unused g;
     zval_to_free := zval_to_free g; free_list := free_list g; next_to_free := next_to_free g;
     gc_runs := gc_runs g; gc_collected := gc_collected g |}.

Definition GC_ROOT_BUFFER_MAX_ENTRIES : positive := 10000%positive.

(** [roots.next = roots.prev = &roots] *)
Definition empty_roots : gc_root_buffer :=
  {| rb_prev := Some GC_ROOTS; rb_next := Some GC_ROOTS; rb_handle := 0; rb_u := None |}.

Definition gc_globals_ctor_ex : zend_gc_globals :=
  {| gc_enabled := false; gc_active := false; buf := None; root_mem := {[GC_ROOTS := empty_roots]};
     unused := None; first_unused := None; last_unused := None;
     zval_to_free := ANull; free_list := ANull; next_to_free := ANull; gc_runs := 0; gc_collected := 0 |}.

(** The roots are dropped as they are: the entries keep pointing to their
    zvals, and these keep pointing into the buffer. *)
Definition gc_reset (g : zend_gc_globals) : zend_gc_globals :=
  {| gc_enabled := gc_enabled g; gc_active := gc_active g; buf := buf g;
     root_mem := <[GC_ROOTS := empty_roots]> (root_mem g);
     unused := None; first_unused := buf g;
     last_unused := match buf g with Some _ => last_unused g | None => None end;
     zval_to_free := match buf g with Some _ => ANull | None => zval_to_free g end;
     free_list := free_list g; next_to_free := next_to_free g; gc_runs := 0; gc_collected := 0 |}.

Definition gc_init (g : zend_gc_globals) : zend_gc_globals :=
  if bool_decide (buf g = None) && gc_enabled g then
    gc_reset {| gc_enabled := gc_enabled g; gc_active := gc_active g; buf := Some GC_BUF; root_mem := root_mem g;
      unused := unused g; first_unused := first_unused g;
      last_unused := Some (GC_BUF + GC_ROOT_BUFFER_MAX_ENTRIES)%positive;
      zval_to_free := zval_to_free g; free_list := free_list g; next_to_free := next_to_free g;
      gc_runs := gc_runs g; gc_collected := gc_collected g |}
  else g.

(** [free(gc_globals->buf)]: only the sentinel, which is no part of the array,
    is left. *)
Definition root_buffer_dtor (g : zend_gc_globals) : zend_gc_globals :=
  match buf g with
  | None => g
  | Some _ =>
      {| gc_enabled := gc_enabled g; gc_active := gc_active g; buf := None;
         root_mem := match root_mem g !! GC_ROOTS with Some s => {[GC_ROOTS := s]} | None => ∅ end;
         unused := unused g; first_unused := first_unused g; last_unused := last_unused g;
         zval_to_free := zval_to_free g; free_list := free_list g; next_to_free := next_to_free g;
         gc_runs := gc_runs g; gc_collected := gc_collected g |}
  end.

(** [GC_REMOVE_FROM_BUFFER] *)
Definition gc_remove_from_buffer (root : ptr) (g : zend_gc_globals) : outcome zend_gc_globals :=
  let m := root_mem g in
  let* e := rd (m !! root) in
  let* n := rd (rb_next e) in
  let* m := store m n (rb_set_prev (rb_prev e)) in
  let* e := rd (m !! root) in
  let* p := rd (rb_prev e) in
  let* m := store m p (rb_set_next (rb_next e)) in
  let* m := store m root (rb_set_prev (unused g)) in
  OK (set_unused (Some root) (first_unused g) (set_root_mem m g)).

(** The entry for a new root: an unused one, or the next that was never
    used; [None] when the buffer is full. *)
Definition gc_take_entry (g : zend_gc_globals) : outcome (option (ptr * zend_gc_globals)) :=
  match unused g with
  | Some newRoot =>
      let* e := rd (root_mem g !! newRoot) in
      OK (Some (newRoot, set_unused (rb_prev e) (first_unused g) g))
  | None =>
      if bool_decide (first_unused g = last_unused g) then OK None
      else
        let* newRoot := rd (first_unused g) in
        OK (Some (newRoot, set_unused (unused g) (Some (Pos.succ newRoot)) g))
  end.

(** [newRoot] goes to the front of the roots; all its fields are written. *)
Definition gc_link_root (newRoot : ptr) (handle : Z) (u : root_u) (g : zend_gc_globals) : outcome zend_gc_globals :=
  let* s := rd (root_mem g !! GC_ROOTS) in
  let m := <[newRoot := {| rb_prev := Some GC_ROOTS; rb_next := rb_next s; rb_handle := handle; rb_u := Some u |}]> (root_mem g) in
  let* n := rd (rb_next s) in
  let* m := store m n (rb_set_prev (Some newRoot)) in
  let* m := store m GC_ROOTS (rb_set_next (Some newRoot)) in
  OK (set_root_mem m g).

Section roots.
Context `{Handlers}.
Implicit Types (w : world) (root current z : ptr) (h : Z).

Definition remove_root root w : outcome world :=
  let* g := gc_remove_from_buffer root (gc_globals w) in OK (set_globals w g).

Definition root_fuel w : nat := S (size (root_mem (gc_globals w))).

(** ** The loops over the roots *)

(** [current->u.pz], [current->u.handlers] *)
Definition root_pz (e : gc_root_buffer) : outcome ptr :=
  match rb_u e with Some (u_pz z) => OK z | _ => UB end.
Definition root_handlers (e : gc_root_buffer) : outcome ptr :=
  match rb_u e with Some (u_handlers hd) => OK hd | _ => UB end.

(** [while (current != &GC_G(roots)) { ...; current = current->next; }] *)
Fixpoint each_root (fuel : nat) (body : ptr → world → outcome world) current w : outcome world :=
  if decide (current = GC_ROOTS) then OK w
  else match fuel with
  | O => UB
  | S fuel =>
      let* w := body current w in
      let* e := rd (root_mem (gc_globals w) !! current) in
      let* next := rd (rb_next e) in
      each_root fuel body next w
  end.
Definition over_roots (body : ptr → world → outcome world) w : outcome world :=
  let* s := rd (root_mem (gc_globals w) !! GC_ROOTS) in
  let* first := rd (rb_next s) in
  each_root (root_fuel w) body first w.

Definition mark_root current w : outcome world :=
  let* e := rd (root_mem (gc_globals w) !! current) in
  if decide (rb_handle e = 0) then
    let* z := root_pz e in
    let* x := zv w z in
    if decide (gc_get_color (u_buffered x) = GC_PURPLE) then zval_mark_grey (gc_fuel w) z w
    else
      let* w := zv_upd w z (zv_set_u (λ v, gc_set_address v ANull)) in
      remove_root current w
  else if has_store w then
    let* b := bucket w (rb_handle e) in
    if decide (gc_get_color (obj_buffered b) = GC_PURPLE) then
      let* hd := root_handlers e in zobj_mark_grey (rb_handle e) hd w
    else
      let* w := bucket_upd w (rb_handle e) (obj_set_buffered (λ v, gc_set_address v ANull)) in
      remove_root current w
  else OK w.
Definition gc_mark_roots w : outcome world := over_roots mark_root w.

Definition scan_root current w : outcome world :=
  let* e := rd (root_mem (gc_globals w) !! current) in
  if decide (rb_handle e = 0) then
    let* z := root_pz e in zval_scan (gc_fuel w) z w
  else
    let* hd := root_handlers e in zobj_scan (rb_handle e) hd w.
Definition gc_scan_roots w : outcome world := over_roots scan_root w.

Definition collect_root current w : outcome world :=
  let* e := rd (root_mem (gc_globals w) !! current) in
  let* w :=
    if decide (rb_handle e = 0) then
      let* z := root_pz e in
      let* w := zv_upd w z (zv_set_u (λ v, gc_set_address v ANull)) in
      zval_collect_white (gc_fuel w) z w
    else if has_store w then
      let* w := bucket_upd w (rb_handle e) (obj_set_buffered (λ v, gc_set_address v ANull)) in
      let* hd := root_handlers e in
      zobj_collect_white (rb_handle e) hd w
    else OK w in
  remove_root current w.
Definition gc_collect_roots w : outcome world := over_roots collect_root w.

(** ** Entering a root *)

(** The address of a word is one of the buffer's entries, or of nothing. *)
Definition outside_buf (a : gc_addr) (g : zend_gc_globals) : bool :=
  match a with
  | ANull => true
  | ARoot r => match buf g, last_unused g with
               | Some b, Some l => bool_decide (r < b ∨ l ≤ r)%positive
               | _, _ => true
               end
  | AZval _ | AEnd => true
  end.

(** "The given zval is a garbage that is going to be deleted by currently
    running GC" *)
Definition being_freed (v : gc_word) (g : zend_gc_globals) : bool :=
  bool_decide (free_list g ≠ ANull) && bool_decide (gc_get_color v = GC_BLACK) && outside_buf (gc_address v) g.

Definition gc_remove_zval_from_buffer z w : outcome world :=
  let* x := zv w z in
  let g := gc_globals w in
  if being_freed (u_buffered x) g then
    if decide (next_to_free g = AZval z) then
      OK (set_globals w {| gc_enabled := gc_enabled g; gc_active := gc_active g; buf := buf g; root_mem := root_mem g;
            unused := unused g; first_unused := first_unused g; last_unused := last_unused g;
            zval_to_free := zval_to_free g; free_list := free_list g; next_to_free := gc_address (u_buffered x);
            gc_runs := gc_runs g; gc_collected := gc_collected g |})
    else OK w
  else
    match gc_address (u_buffered x) with
    | ARoot root =>
        let* w := remove_root root w in
        zv_upd w z (zv_set_u (λ _, gc_null))
    | _ => UB
    end.

(** [GC_REMOVE_ZVAL_FROM_BUFFER] *)
Definition GC_REMOVE_ZVAL_FROM_BUFFER z w : outcome world :=
  let* x := zv w z in
  if decide (gc_address (u_buffered x) = ANull) then OK w else gc_remove_zval_from_buffer z w.

(** [FREE_ZVAL_EX] and [FREE_ZVAL] *)
Definition FREE_ZVAL_EX z w : outcome world :=
  let* _ := zv w z in OK (set_zvals w (delete z (zvals w))).
Definition FREE_ZVAL z w : outcome world :=
  let* w := GC_REMOVE_ZVAL_FROM_BUFFER z w in FREE_ZVAL_EX z w.

(** [GC_REMOVE_ZOBJ_FROM_BUFFER] *)
Definition GC_REMOVE_ZOBJ_FROM_BUFFER h w : outcome world :=
  let* b := bucket w h in
  match gc_address (obj_buffered b) with
  | ANull => OK w
  | ARoot root =>
      if gc_active (gc_globals w) then OK w
      else
        let* w := remove_root root w in
        bucket_upd w h (obj_set_buffered (λ _, gc_null))
  | _ => UB
  end.
End roots.
