(* ===== verification/ZendGcBuffer.v ===== *)
(** The root buffer as a ring: removing and entering roots. *)

From S2P Require Import Prelude Dll TrialDeletion ZendGcHeap ZendGc ZendGcRoots.

Implicit Types (m : gmap ptr gc_root_buffer) (l : list ptr) (x r : ptr) (e : gc_root_buffer).

(** The links of the entries. *)
Definition lks m : view := λ r, (λ e, (rb_prev e, rb_next e)) <$> m !! r.
(** What an entry holds besides its links. *)
Definition load m r : option (Z * option root_u) := (λ e, (rb_handle e, rb_u e)) <$> m !! r.

Lemma lks_prev m n p q : lks (alter (rb_set_prev p) n m) q = set_prev (Some n) p (lks m) q.
Proof.
  unfold lks, set_prev. rewrite lookup_alter. destruct (decide (n = q)) as [->|Hn].
  - rewrite decide_True by done. by destruct (m !! q).
  - by rewrite decide_False by congruence.
Qed.
Lemma lks_next m n p q : lks (alter (rb_set_next p) n m) q = set_next (Some n) p (lks m) q.
Proof.
  unfold lks, set_next. rewrite lookup_alter. destruct (decide (n = q)) as [->|Hn].
  - rewrite decide_True by done. by destruct (m !! q).
  - by rewrite decide_False by congruence.
Qed.
Lemma load_alter m f n r : (∀ e, rb_handle (f e) = rb_handle e ∧ rb_u (f e) = rb_u e) → load (alter f n m) r = load m r.
Proof.
  intros Hf. unfold load. rewrite lookup_alter. case_decide; [|done]. subst. destruct (m !! r) as [e|]; [|done]. simpl.
  destruct (Hf e). congruence.
Qed.
Lemma set_prev_next_comm o p o' n lk q : set_next o' n (set_prev o p lk) q = set_prev o p (set_next o' n lk) q.
Proof. unfold set_prev, set_next. repeat case_decide; [|done..]. by destruct (lk q). Qed.

Lemma lks_Some m r a : lks m r = Some a → ∃ e, m !! r = Some e ∧ rb_prev e = a.1 ∧ rb_next e = a.2.
Proof. unfold lks. destruct (m !! r) as [e|]; [|done]. intros [= <-]. eauto. Qed.

Lemma ring_live m l r : ring GC_ROOTS (lks m) l → r ∈ GC_ROOTS :: l → is_Some (m !! r).
Proof.
  intros [_ _ H3 H4] [->|Hr]%elem_of_cons.
  - destruct (lks_Some _ _ _ H3) as (e & -> & _). eauto.
  - destruct (H4 r Hr) as (p & n & H). destruct (lks_Some _ _ _ H) as (e & -> & _). eauto.
Qed.

(** Removing an entry: the ring loses it, the other entries keep what they
    hold, and the entry itself still leads to its successor. *)
Lemma gc_remove_spec g l1 x l2 : ring GC_ROOTS (lks (root_mem g)) (l1 ++ x :: l2) →
  ∃ m, gc_remove_from_buffer x g = OK (set_unused (Some x) (first_unused g) (set_root_mem m g)) ∧
    ring GC_ROOTS (lks m) (l1 ++ l2) ∧ (∀ r, load m r = load (root_mem g) r) ∧
    (∀ r, is_Some (m !! r) ↔ is_Some (root_mem g !! r)) ∧
    lks m x = Some (unused g, hd_or l2 (Some GC_ROOTS)) ∧
    (∀ r, r ∉ GC_ROOTS :: l1 ++ x :: l2 → m !! r = root_mem g !! r).
Proof.
  intros Hr. pose proof (ring_lookup _ _ _ _ _ Hr) as Hx. destruct (lks_Some _ _ _ Hx) as (e & He & Hp & Hn). simpl in Hp, Hn.
  destruct (last_or_Some GC_ROOTS l1) as [p Hp'], (hd_or_Some GC_ROOTS l2) as [n Hn'].
  rewrite Hp' in Hp. rewrite Hn' in Hn. rewrite Hp', Hn' in Hx.
  pose proof (rg_nodup _ _ _ Hr) as [Hs Hnd]%NoDup_cons.
  apply NoDup_app in Hnd as (Hnd1 & Hd & [Hx2 Hnd2]%NoDup_cons).
  assert (n ≠ x ∧ n ∈ GC_ROOTS :: l2) as [Hnx Hnl].
  { destruct l2 as [|y l2]; injection Hn' as <-; set_solver. }
  assert (p ≠ x ∧ p ∈ GC_ROOTS :: l1) as [Hpx Hpl].
  { destruct l1 as [|y l1 _] using rev_ind; [injection Hp' as <-; set_solver|]. rewrite last_or_snoc in Hp'. injection Hp' as <-. set_solver. }
  unfold gc_remove_from_buffer. rewrite He. ob. rewrite Hn. ob.
  rewrite store_alter by (apply (ring_live _ _ _ Hr); set_solver). ob.
  rewrite lookup_alter_ne by done. rewrite He. ob. rewrite Hp. ob.
  rewrite store_alter by (rewrite is_Some_alter; apply (ring_live _ _ _ Hr); set_solver). ob.
  rewrite store_alter by (rewrite !is_Some_alter; eauto). ob.
  eexists. split; [done|]. rewrite Hn. split_and!.
  - eapply ring_unlink; [exact Hr|]. intros q Hq. rewrite lks_prev. unfold set_prev at 1.
    rewrite decide_False by congruence. rewrite lks_next. rewrite Hp', Hn'.
    transitivity (set_next (Some p) (Some n) (set_prev (Some n) (Some p) (lks (root_mem g))) q); [|apply set_prev_next_comm].
    unfold set_next. by rewrite !lks_prev.
  - intros r. by rewrite !load_alter.
  - intros r. by rewrite !is_Some_alter.
  - rewrite lks_prev. unfold set_prev. rewrite decide_True, lks_next by done. unfold set_next.
    rewrite decide_False by congruence. rewrite lks_prev. unfold set_prev. rewrite decide_False by congruence. by rewrite Hx, Hn'.
  - intros r Hr'. rewrite !lookup_alter_ne; [done|set_solver..].
Qed.

(** Entering a root. *)
Lemma gc_link_spec g l x h u : ring GC_ROOTS (lks (root_mem g)) l → x ∉ GC_ROOTS :: l →
  ∃ m, gc_link_root x h u g = OK (set_root_mem m g) ∧ ring GC_ROOTS (lks m) (x :: l) ∧
    (∀ r, load m r = if decide (r = x) then Some (h, Some u) else load (root_mem g) r) ∧
    (∀ r, r ∉ GC_ROOTS :: x :: l → m !! r = root_mem g !! r).
Proof.
  intros Hr Hx. pose proof (rg_sentinel _ _ _ Hr) as Hs. destruct (lks_Some _ _ _ Hs) as (e & He & Hp & Hn). simpl in Hp, Hn.
  destruct (hd_or_Some GC_ROOTS l) as [n Hn']. rewrite Hn' in Hn.
  assert (n ≠ x ∧ n ∈ GC_ROOTS :: l) as [Hnx Hnl]. { destruct l as [|y l]; injection Hn' as <-; set_solver. }
  assert (x ≠ GC_ROOTS) as Hxs by set_solver.
  unfold gc_link_root. rewrite He. ob. rewrite Hn. ob.
  set (e' := {| rb_prev := Some GC_ROOTS; rb_next := Some n; rb_handle := h; rb_u := Some u |}).
  rewrite store_alter by (rewrite lookup_insert_ne by done; apply (ring_live _ _ _ Hr); set_solver). ob.
  rewrite store_alter by (rewrite is_Some_alter, lookup_insert_ne by done; eauto). ob.
  eexists. split; [done|]. split_and!.
  - eapply ring_push; [exact Hr|done| |].
    + rewrite lks_next. unfold set_next. rewrite decide_False by congruence. rewrite lks_prev. unfold set_prev.
      rewrite decide_False by congruence. unfold lks. rewrite lookup_insert_eq. by rewrite Hn'.
    + intros q Hq. rewrite lks_next, Hn'.
      transitivity (set_next (Some GC_ROOTS) (Some x) (set_prev (Some n) (Some x) (lks (root_mem g))) q); [|apply set_prev_next_comm].
      unfold set_next. rewrite !lks_prev. unfold set_prev, lks. by rewrite !lookup_insert_ne by done.
  - intros r. rewrite !load_alter by done. unfold load. destruct (decide (r = x)) as [->|Hrx].
    + by rewrite lookup_insert_eq.
    + by rewrite lookup_insert_ne.
  - intros r Hr'. rewrite !lookup_alter_ne, lookup_insert_ne; [done|set_solver..].
Qed.

(** * The invariant of the buffer

    [l] are the roots in use, [u] the entries given back, in the order in
    which they will be used again; together they are the entries below
    [first_unused]. *)

(** The chain of [unused] entries, through [prev]. *)
Fixpoint unused_chain m (p : nptr) (u : list ptr) : Prop :=
  match u with
  | [] => p = None
  | r :: u => p = Some r ∧ ∃ e, m !! r = Some e ∧ unused_chain m (rb_prev e) u
  end.

Record buf_ok (g : zend_gc_globals) l u (first : ptr) : Prop := {
  bo_buf : buf g = Some GC_BUF;
  bo_first : first_unused g = Some first;
  bo_last : last_unused g = Some (GC_BUF + GC_ROOT_BUFFER_MAX_ENTRIES)%positive;
  bo_range : (GC_BUF ≤ first ≤ GC_BUF + GC_ROOT_BUFFER_MAX_ENTRIES)%positive;
  bo_ring : ring GC_ROOTS (lks (root_mem g)) l;
  bo_unused : unused_chain (root_mem g) (unused g) u;
  bo_nodup : NoDup (GC_ROOTS :: l ++ u);
  bo_entries : ∀ r, r ∈ l ++ u ↔ (GC_BUF ≤ r < first)%positive;
}.

Lemma unused_chain_ext m m' p u : (∀ r, r ∈ u → m' !! r = m !! r) → unused_chain m p u → unused_chain m' p u.
Proof.
  revert p. induction u as [|r u IH]; intros p He; [done|]. intros (-> & e & Hr & Hu). split; [done|].
  exists e. rewrite He by set_solver. split; [done|]. apply IH; [|done]. intros r' ?. apply He. set_solver.
Qed.

(** [gc_reset] and [gc_init] empty the buffer. *)
Lemma gc_reset_ok g : buf g = Some GC_BUF → last_unused g = Some (GC_BUF + GC_ROOT_BUFFER_MAX_ENTRIES)%positive →
  buf_ok (gc_reset g) [] [] GC_BUF.
Proof.
  intros Hb Hl. split; simpl; rewrite ?Hb; try done.
  - split; [by apply NoDup_singleton|done| |set_solver]. unfold lks. by rewrite lookup_insert_eq.
  - by apply NoDup_singleton.
  - intros r. split; [set_solver|]. intros. lia.
Qed.

Lemma gc_init_ok g : buf g = None → gc_enabled g = true → buf_ok (gc_init g) [] [] GC_BUF.
Proof. intros Hb He. unfold gc_init. rewrite bool_decide_true, He by done. by apply gc_reset_ok. Qed.

(** A root removed is the next entry to be used. *)
Lemma gc_remove_buf_ok g l1 x l2 u first : buf_ok g (l1 ++ x :: l2) u first →
  ∃ g', gc_remove_from_buffer x g = OK g' ∧ buf_ok g' (l1 ++ l2) (x :: u) first.
Proof.
  intros [B1 B2 B3 B4 B5 B6 B7 B8]. destruct (gc_remove_spec g l1 x l2 B5) as (m & -> & Hr & _ & _ & Hx & Hout).
  eexists. split; [done|]. pose proof B7 as [Hs Hnd]%NoDup_cons.
  assert ((l1 ++ l2) ++ x :: u ≡ₚ (l1 ++ x :: l2) ++ u) as Hp.
  { rewrite <- !app_assoc. f_equiv. by rewrite <- app_comm_cons, <- Permutation_middle. }
  split; try done.
  - destruct (lks_Some _ _ _ Hx) as (e & He & Hp' & _). simpl in Hp'. split; [done|]. exists e. split; [exact He|]. rewrite Hp'.
    eapply unused_chain_ext; [|exact B6]. intros r Hr'. apply Hout.
    rewrite <- Permutation_middle in Hnd. apply NoDup_app in Hnd as (_ & Hd & _). specialize (Hd r). set_solver.
  - by rewrite Hp.
  - intros r. rewrite <- B8. by rewrite Hp.
Qed.

(** An entry for a new root: there is none only when all entries are in use. *)
Lemma gc_take_entry_ok g l u first : buf_ok g l u first →
  (∃ x g' u' first', gc_take_entry g = OK (Some (x, g')) ∧ (x ∉ GC_ROOTS :: l) ∧
     root_mem g' = root_mem g ∧ (∀ m, ring GC_ROOTS (lks m) (x :: l) → (∀ r, r ∉ GC_ROOTS :: x :: l → m !! r = root_mem g !! r) →
       buf_ok (set_root_mem m g') (x :: l) u' first')) ∨
  (gc_take_entry g = OK None ∧ u = [] ∧ ∀ r, r ∈ l ↔ (GC_BUF ≤ r < GC_BUF + GC_ROOT_BUFFER_MAX_ENTRIES)%positive).
Proof.
  intros [B1 B2 B3 B4 B5 B6 B7 B8]. unfold gc_take_entry. destruct u as [|x u].
  - simpl in B6. rewrite B6. case_bool_decide as Hf.
    + right. split_and!; [done..|]. intros r. rewrite B2, B3 in Hf. injection Hf as ->. rewrite <- B8. by rewrite app_nil_r.
    + left. rewrite B2. ob. exists first, (set_unused None (Some (Pos.succ first)) g), [], (Pos.succ first).
      rewrite B2, B3 in Hf. assert (first ≠ (GC_BUF + GC_ROOT_BUFFER_MAX_ENTRIES)%positive) as Hne by congruence.
      rewrite app_nil_r in *. split_and!; [done| |done|].
      { intros [->|Hin]%elem_of_cons; [unfold GC_ROOTS, GC_BUF in *; lia|]. apply B8 in Hin. lia. }
      intros m Hr Hm. split; try done.
      * simpl. unfold GC_BUF in *. lia.
      * rewrite app_nil_r. apply Hr.
      * intros r. rewrite app_nil_r, elem_of_cons, B8. unfold GC_BUF in *. lia.
  - destruct B6 as (-> & e & He & Hu). rewrite He. ob. left.
    exists x, (set_unused (rb_prev e) (first_unused g) g), u, first. pose proof B7 as [Hs Hnd]%NoDup_cons.
    apply NoDup_app in Hnd as (Hnd1 & Hd & [Hxu Hnd2]%NoDup_cons). split_and!; [done|set_solver|done|].
    intros m Hr Hm. split; try done.
    + simpl. eapply unused_chain_ext; [|exact Hu]. intros r Hr'. apply Hm. set_solver.
    + simpl. rewrite app_comm_cons. constructor; [set_solver|]. simpl. constructor; [set_solver|]. apply NoDup_app. set_solver.
    + intros r. rewrite <- B8. simpl. rewrite !elem_of_cons, !elem_of_app, elem_of_cons. tauto.
Qed.

(** The addresses of the first [N] entries. *)
Definition entry_addrs (N : positive) : list ptr := (λ i : nat, (GC_BUF + Pos.of_succ_nat i - 1)%positive) <$> seq 0 (Pos.to_nat N).

Lemma entry_addrs_length N : length (entry_addrs N) = Pos.to_nat N.
Proof. unfold entry_addrs. by rewrite length_fmap, length_seq. Qed.
Lemma entry_addrs_nodup N : NoDup (entry_addrs N).
Proof. apply NoDup_fmap_2_strong; [|apply NoDup_seq]. intros i j _ _ He. unfold GC_BUF in He. lia. Qed.
Lemma elem_of_entry_addrs N r : r ∈ entry_addrs N ↔ (GC_BUF ≤ r < GC_BUF + N)%positive.
Proof.
  unfold entry_addrs, GC_BUF. rewrite list_elem_of_fmap. setoid_rewrite elem_of_seq. split; [intros (i & -> & Hi); lia|].
  intros Hr. exists (Pos.to_nat r - 2)%nat. lia.
Qed.

Lemma nodup_incl_length (k l : list ptr) : NoDup k → (∀ r, r ∈ k → r ∈ l) → (length k ≤ length l)%nat.
Proof. intros Hk Hsub. apply submseteq_length, NoDup_submseteq; done. Qed.

Lemma buf_length g l u first : buf_ok g l u first → (length l ≤ Pos.to_nat GC_ROOT_BUFFER_MAX_ENTRIES)%nat.
Proof.
  intros [B1 B2 B3 B4 B5 B6 B7 B8]. rewrite <- entry_addrs_length. apply NoDup_cons in B7 as [_ Hl].
  apply NoDup_app in Hl as [Hl _]. apply nodup_incl_length; [done|]. intros r Hr. apply elem_of_entry_addrs.
  assert (GC_BUF ≤ r < first)%positive; [|lia]. apply B8. set_solver.
Qed.

(** With fewer roots than entries there is an entry left. *)
Lemma buf_room g l u first : buf_ok g l u first → (length l < Pos.to_nat GC_ROOT_BUFFER_MAX_ENTRIES)%nat →
  gc_take_entry g ≠ OK None.
Proof.
  intros Hb Hlen Hn. destruct (gc_take_entry_ok _ _ _ _ Hb) as [(x & g' & u' & f' & Ht & _)|(_ & _ & Hl)]; [congruence|].
  assert (Pos.to_nat GC_ROOT_BUFFER_MAX_ENTRIES ≤ length l)%nat; [|lia].
  rewrite <- entry_addrs_length. apply nodup_incl_length; [apply entry_addrs_nodup|].
  intros r Hr%elem_of_entry_addrs. by apply Hl.
Qed.

(** An entry is taken and linked, unless all are in use. *)
Lemma gc_enter_ok g l u first h v : buf_ok g l u first →
  if decide (length l = Pos.to_nat GC_ROOT_BUFFER_MAX_ENTRIES) then gc_take_entry g = OK None
  else ∃ r g1 g2 u' first', gc_take_entry g = OK (Some (r, g1)) ∧ (r ∉ l) ∧ gc_link_root r h v g1 = OK g2 ∧ buf_ok g2 (r :: l) u' first'.
Proof.
  intros Hb. pose proof (buf_length _ _ _ _ Hb). case_decide as Hlen.
  - destruct (gc_take_entry_ok _ _ _ _ Hb) as [(x & g1 & u1 & f1 & Ht & Hx & Hm & Hok)|[]]; [|done]. exfalso.
    destruct (gc_link_spec g1 l x h v) as (m & _ & Hring & _ & Hout); [rewrite Hm; apply Hb|done|].
    assert (buf_ok (set_root_mem m g1) (x :: l) u1 f1) as Hb1%buf_length; [|cbn [length] in Hb1; lia].
    apply Hok; [done|]. intros r Hr. by rewrite Hout, Hm.
  - destruct (gc_take_entry_ok _ _ _ _ Hb) as [(x & g1 & u1 & f1 & Ht & Hx & Hm & Hok)|[Hn _]].
    2:{ exfalso. eapply buf_room; [done| |done]. lia. }
    destruct (gc_link_spec g1 l x h v) as (m & Hlk & Hring & _ & Hout); [rewrite Hm; apply Hb|done|].
    exists x, g1, (set_root_mem m g1), u1, f1. split_and!; [done|set_solver|done|].
    apply Hok; [done|]. intros r Hr. by rewrite Hout, Hm.
Qed.

(** The lives of the buffer: [l] are the roots in use. *)
Inductive buffer_run : zend_gc_globals → list ptr → Prop :=
  | run_init g : buf g = None → gc_enabled g = true → buffer_run (gc_init g) []
  | run_enter g l r h v g1 g2 : buffer_run g l →
      gc_take_entry g = OK (Some (r, g1)) → gc_link_root r h v g1 = OK g2 → buffer_run g2 (r :: l)
  | run_remove g l1 r l2 g' : buffer_run g (l1 ++ r :: l2) → gc_remove_from_buffer r g = OK g' → buffer_run g' (l1 ++ l2)
  | run_reset g l : buffer_run g l → buffer_run (gc_reset g) [].

Lemma buffer_run_ok g l : buffer_run g l → ∃ u first, buf_ok g l u first.
Proof.
  induction 1 as [g Hb He|g l r h v g1 g2 _ (u & first & IH) Ht Hlk|g l1 r l2 g' _ (u & first & IH) Hr|g l _ (u & first & IH)].
  - eauto using gc_init_ok.
  - pose proof (gc_enter_ok g l u first h v IH) as Hok. case_decide; [congruence|].
    destruct Hok as (r' & g1' & g2' & u' & first' & Ht' & _ & Hl' & Hok). rewrite Ht in Ht'. injection Ht' as <- <-.
    rewrite Hlk in Hl'. injection Hl' as <-. eauto.
  - destruct (gc_remove_buf_ok _ _ _ _ _ _ IH) as (g2 & Hr' & Hok). rewrite Hr in Hr'. injection Hr' as <-. eauto.
  - exists [], GC_BUF. apply gc_reset_ok; [apply (bo_buf _ _ _ _ IH)|apply (bo_last _ _ _ _ IH)].
Qed.
