(* ===== verification/ZendGcRun.v ===== *)
(** The passes over the root buffer, simulated. *)

From stdpp Require Import relations.
From S2P Require Import Prelude Dll TrialDeletion TrialScan TrialCollect TrialGarbage.
From S2P Require Import ZendGcHeap ZendGc ZendGcSim ZendGcMark ZendGcCollect ZendGcRoots ZendGcBuffer.

Section run.
Context `{Handlers} (hd_of : Z → ptr).
Implicit Types (w : world) (z r : ptr) (h : Z) (n : node) (l : list ptr) (rs ns : list node).

Abbreviation roots_mem w := (root_mem (gc_globals w)).

(** An entry stands for a live zval, or for an object. *)
Definition entry_ok w (r : ptr) n : Prop :=
  match n with
  | Zv z => load (roots_mem w) r = Some (0, Some (u_pz z)) ∧ is_Some (zvals w !! z)
  | Ob h => load (roots_mem w) r = Some (h, Some (u_handlers (hd_of h))) ∧ h ≠ 0 ∧ is_Some (buckets w !! h)
  end.

(** The buffer: [l] are the entries, [rs] the nodes they stand for; a node
    points into the buffer just when one of the entries is its own. *)
Record roots_ok w l rs : Prop := {
  rk_ring : ring GC_ROOTS (lks (roots_mem w)) l;
  rk_nodes : Forall2 (entry_ok w) l rs;
  rk_addr : ∀ n r, gc_address (word w n) = ARoot r ↔ (r, n) ∈ zip l rs;
}.

Lemma entry_ok_ext w w' r n : shape w' = shape w → load (roots_mem w') r = load (roots_mem w) r →
  entry_ok w r n → entry_ok w' r n.
Proof.
  intros Hs Hl. unfold entry_ok. rewrite Hl. destruct n as [z|h].
  - by rewrite (shape_is_Some w w').
  - by rewrite (shape_bucket_is_Some w w').
Qed.

(** A node that does not point into the buffer is no root. *)
Lemma unrooted w l rs n : roots_ok w l rs → gc_address (word w n) = ANull → n ∉ rs.
Proof.
  intros [_ R2 R3] Hn [i Hi]%list_elem_of_lookup_1. pose proof (Forall2_length _ _ _ R2) as Hlen.
  destruct (lookup_lt_is_Some_2 l i) as [r Hr]; [rewrite Hlen; by eapply lookup_lt_Some|].
  assert ((r, n) ∈ zip l rs) as Hin%R3; [|congruence].
  apply (list_elem_of_lookup_2 _ i). rewrite lookup_zip_with, Hr, Hi. done.
Qed.

(** What does not touch the buffer or the addresses into it. *)
Lemma roots_ok_ext w w' l rs : shape w' = shape w → roots_mem w' = roots_mem w →
  (∀ n r, gc_address (word w' n) = ARoot r ↔ gc_address (word w n) = ARoot r) → roots_ok w l rs → roots_ok w' l rs.
Proof.
  intros Hs Hm Ha [H1 H2 H3]. split; [by rewrite Hm| |].
  - eapply Forall2_impl; [exact H2|]. intros r n. apply entry_ok_ext; [done|by rewrite Hm].
  - intros n r. by rewrite Ha.
Qed.

Lemma roots_ok_erase w w' l rs : erase w' = erase w → roots_ok w l rs → roots_ok w' l rs.
Proof.
  intros He. apply roots_ok_ext; [by apply erase_shape| |intros n r; by apply erase_rooted].
  exact (f_equal (λ w, roots_mem w) He).
Qed.

Lemma erase_set_globals w g : zval_to_free g = zval_to_free (gc_globals w) → shape (set_globals w g) = shape w.
Proof. done. Qed.

Lemma word_set_globals w g n : word (set_globals w g) n = word w n.
Proof. by destruct n. Qed.
Lemma refcount_set_globals w g n : refcount (set_globals w g) n = refcount w n.
Proof. by destruct n. Qed.

(** The entry [x] of node [n] leaves the buffer; the node has let go of it. *)
Lemma remove_root_ok w l1 x l2 rs1 n rs2 :
  roots_ok w (l1 ++ x :: l2) (rs1 ++ n :: rs2) → length l1 = length rs1 →
  ∀ w1, shape w1 = shape w → roots_mem w1 = roots_mem w →
  (∀ n' r, gc_address (word w1 n') = ARoot r ↔ n' ≠ n ∧ gc_address (word w n') = ARoot r) →
  ∃ w2, remove_root x w1 = OK w2 ∧ roots_ok w2 (l1 ++ l2) (rs1 ++ rs2) ∧ shape w2 = shape w ∧
    (∀ n', word w2 n' = word w1 n' ∧ refcount w2 n' = refcount w1 n') ∧
    gc_globals w2 = set_unused (Some x) (first_unused (gc_globals w1)) (set_root_mem (roots_mem w2) (gc_globals w1)) ∧
    ∃ p, lks (roots_mem w2) x = Some (p, hd_or l2 (Some GC_ROOTS)).
Proof.
  intros [H1 H2 H3] Hlen w1 Hs Hg Hw. unfold remove_root. rewrite <- Hg in H1.
  destruct (gc_remove_spec (gc_globals w1) l1 x l2 H1) as (m & -> & Hr & Hload & _ & Hx & _). ob.
  eexists. split; [done|]. split_and!; [|by rewrite <- Hs|by intros n'; rewrite word_set_globals, refcount_set_globals|done|eauto].
  apply Forall2_app_inv in H2 as [H2a [Hn H2b]%Forall2_cons_1]; [|done].
  split; [done| |].
  - apply Forall2_app; eapply Forall2_impl; [exact H2a| |exact H2b|]; intros r n'; apply entry_ok_ext;
      [by rewrite <- Hs|by rewrite <- Hg; apply Hload|by rewrite <- Hs|by rewrite <- Hg; apply Hload].
  - intros n' r. rewrite word_set_globals, Hw. rewrite zip_with_app, elem_of_app by done.
    assert (∀ n' r, gc_address (word w n') = ARoot r ↔ (r, n') ∈ zip l1 rs1 ∨ (r = x ∧ n' = n) ∨ (r, n') ∈ zip l2 rs2) as H3'.
    { intros n1 r1. rewrite H3, zip_with_app, elem_of_app by done. simpl. rewrite elem_of_cons, pair_eq. tauto. }
    pose proof (rg_nodup _ _ _ H1) as [_ Hnd]%NoDup_cons. apply NoDup_app in Hnd as (_ & Hd & [Hx2 _]%NoDup_cons).
    assert (gc_address (word w n) = ARoot x) as Hnx by (apply H3'; auto).
    destruct (decide (n' = n)) as [->|Hn'].
    + split; [tauto|]. intros Hin.
      assert (gc_address (word w n) = ARoot r) as Hnr by (apply H3'; tauto). assert (r = x) as -> by congruence.
      destruct Hin as [Hin|Hin]; apply elem_of_zip_l in Hin; set_solver.
    + rewrite H3'. tauto.
Qed.

(** [GC_SET_ADDRESS(..., NULL)] *)
Definition let_go w n w1 : Prop :=
  shape w1 = shape w ∧ gc_globals w1 = gc_globals w ∧
  (∀ n', word w1 n' = if decide (n' = n) then gc_set_address (word w n) ANull else word w n') ∧
  (∀ n', refcount w1 n' = refcount w n').

Lemma zv_let_go w z x : zvals w !! z = Some x →
  ∃ w1, zv_upd w z (zv_set_u (λ v, gc_set_address v ANull)) = OK w1 ∧ let_go w (Zv z) w1.
Proof.
  intros Hx. rewrite (zv_upd_ok _ _ _ _ Hx). eexists. split; [done|]. split_and!.
  - by eapply shape_upd_zval.
  - done.
  - intros n'. rewrite word_upd_zval. case_decide; [|done]. simpl. by rewrite Hx.
  - intros n'. rewrite refcount_upd_zval. case_decide; [subst; simpl; by rewrite Hx|done].
Qed.
Lemma obj_let_go w h b : buckets w !! h = Some b →
  ∃ w1, bucket_upd w h (obj_set_buffered (λ v, gc_set_address v ANull)) = OK w1 ∧ let_go w (Ob h) w1.
Proof.
  intros Hb. rewrite (bucket_upd_ok _ _ _ _ Hb). eexists. split; [done|]. split_and!.
  - by eapply shape_upd_slot.
  - done.
  - intros n'. rewrite word_upd_slot. case_decide; [|done]. simpl. by rewrite Hb.
  - intros n'. rewrite refcount_upd_slot. case_decide; [subst; simpl; by rewrite Hb|done].
Qed.

Lemma let_go_color w n w1 y : let_go w n w1 →
  color w1 y = color w y ∧ rooted w1 y = (if decide (y = n) then false else rooted w y).
Proof. intros (_ & _ & Hw & _). unfold color, rooted. rewrite Hw. by case_decide; subst. Qed.

Lemma let_go_addr w n w1 : let_go w n w1 →
  ∀ n' r, gc_address (word w1 n') = ARoot r ↔ n' ≠ n ∧ gc_address (word w n') = ARoot r.
Proof. intros (_ & _ & Hw & _) n' r. rewrite Hw. case_decide; simpl; [|tauto]. split; [done|tauto]. Qed.

Lemma let_go_removed w l1 x l2 rs1 n rs2 w1 :
  roots_ok w (l1 ++ x :: l2) (rs1 ++ n :: rs2) → length l1 = length rs1 → let_go w n w1 →
  ∃ w2, remove_root x w1 = OK w2 ∧ roots_ok w2 (l1 ++ l2) (rs1 ++ rs2) ∧ shape w2 = shape w ∧
    (∀ n', word w2 n' = word w1 n' ∧ refcount w2 n' = refcount w1 n') ∧
    zval_to_free (gc_globals w2) = zval_to_free (gc_globals w) ∧
    ∃ p, lks (roots_mem w2) x = Some (p, hd_or l2 (Some GC_ROOTS)).
Proof.
  intros Hro Hlen Hl. pose proof Hl as (Hs & Hg & _).
  destruct (remove_root_ok w l1 x l2 rs1 n rs2 Hro Hlen w1) as (w2 & Hr & Hro2 & Hs2 & Hw2 & Hg2 & Hx2);
    [done|by rewrite Hg|by apply let_go_addr|].
  exists w2. split_and!; [done..|by rewrite Hg2, Hg|done].
Qed.

(** The entry of a node, as the passes read it. *)
Lemma root_entry_lookup w r n : entry_ok w r n → ∃ e, roots_mem w !! r = Some e ∧
  match n with
  | Zv z => rb_handle e = 0 ∧ root_pz e = OK z ∧ is_Some (zvals w !! z)
  | Ob h => rb_handle e = h ∧ h ≠ 0 ∧ root_handlers e = OK (hd_of h) ∧ ∃ b, buckets w !! h = Some b ∧ has_store w = true
  end.
Proof.
  unfold entry_ok, load, root_pz, root_handlers. destruct (roots_mem w !! r) as [e|]; simpl; [|destruct n; naive_solver].
  intros Hn. exists e. split; [done|]. destruct n as [z|h].
  - destruct Hn as [[= -> ->] ?]. done.
  - destruct Hn as ([= -> ->] & ? & [b Hb]). split_and!; [done..|]. exists b. split; [done|].
    unfold has_store. apply bool_decide_true. rewrite (buckets_Some w h b) by done. eauto.
Qed.

Lemma roots_entry w l1 x l2 rs1 n rs2 : roots_ok w (l1 ++ x :: l2) (rs1 ++ n :: rs2) → length l1 = length rs1 →
  entry_ok w x n.
Proof. intros [_ H2 _] Hlen. by apply Forall2_app_inv in H2 as [_ [Hn _]%Forall2_cons_1]. Qed.

(** ** Marking the roots *)

Section mark.
Context w0 (Hwf : wf_graph hd_of w0).
Abbreviation succ0 := (succ hd_of w0).
Abbreviation pin0 := (pinned w0).

(** One root, marked. *)
Definition root_marked w n l rs w' : Prop :=
  ∃ ns, color w n = GC_PURPLE ∧ mark succ0 pin0 refcount color n w ns w' ∧ still w w' ∧ roots_ok w' l rs.

Lemma mark_root_purple w l rs n (run : outcome world) : shape w = shape w0 → roots_ok w l rs → color w n = GC_PURPLE →
  (∃ ns w', run = OK w' ∧ mark (succ hd_of w) (pinned w) refcount color n w ns w' ∧ still w w') →
  ∃ w', run = OK w' ∧ root_marked w n l rs w'.
Proof.
  intros Hs Hro Hc (ns & w' & Hr & Hm & Hst). exists w'. split; [done|]. exists ns. split_and!; [done| |done|].
  - by rewrite (shape_succ hd_of w0 w Hs), (shape_pinned w0 w Hs) in Hm.
  - eapply roots_ok_erase; [apply Hst|done].
Qed.

(** One root: marked, or dropped. *)
Lemma mark_root_ok w l1 x l2 rs1 n rs2 :
  shape w = shape w0 → roots_ok w (l1 ++ x :: l2) (rs1 ++ n :: rs2) → length l1 = length rs1 →
  ∃ w', mark_root x w = OK w' ∧
    (root_marked w n (l1 ++ x :: l2) (rs1 ++ n :: rs2) w' ∨
     ∃ w1, color w n ≠ GC_PURPLE ∧ let_go w n w1 ∧ remove_root x w1 = OK w').
Proof.
  intros Hs Hro Hlen. assert (wf_graph hd_of w) as Hwfw by by eapply shape_wf.
  destruct (root_entry_lookup w x n) as (e & He & Hn); [by eapply roots_entry|]. unfold mark_root. rewrite He. ob.
  destruct n as [z|h].
  - destruct Hn as (-> & -> & [v Hv]). rewrite decide_True by done. ob. rewrite (zv_ok _ _ _ Hv). ob.
    assert (color w (Zv z) = gc_get_color (u_buffered v)) as Hcol by (unfold color; simpl; by rewrite Hv). rewrite <- Hcol.
    case_decide as Hc.
    + destruct (mark_root_purple w (l1 ++ x :: l2) (rs1 ++ Zv z :: rs2) (Zv z) (zval_mark_grey (gc_fuel w) z w)) as (w' & ? & ?);
        [done..|by apply zval_mark_grey_sim; eauto|exists w'; auto].
    + destruct (zv_let_go w z v Hv) as (w1 & -> & Hl). ob.
      destruct (let_go_removed w l1 x l2 rs1 (Zv z) rs2 w1 Hro Hlen Hl) as (w2 & Hw2 & _). exists w2. split; [done|]. eauto.
  - destruct Hn as (-> & Hh & -> & b & Hb & ->). rewrite decide_False by done. rewrite (bucket_ok _ _ _ Hb). ob.
    assert (color w (Ob h) = gc_get_color (obj_buffered b)) as Hcol by (unfold color; simpl; by rewrite Hb). rewrite <- Hcol.
    case_decide as Hc.
    + destruct (mark_root_purple w (l1 ++ x :: l2) (rs1 ++ Ob h :: rs2) (Ob h) (zobj_mark_grey h (hd_of h) w)) as (w' & ? & ?);
        [done..|by apply zobj_mark_grey_sim; eauto|exists w'; auto].
    + destruct (obj_let_go w h b Hb) as (w1 & -> & Hl). ob.
      destruct (let_go_removed w l1 x l2 rs1 (Ob h) rs2 w1 Hro Hlen Hl) as (w2 & Hw2 & _). exists w2. split; [done|]. eauto.
Qed.

(** [current = current->next] after a pass over [x]. *)
Lemma root_next_ok w x p l2 : lks (roots_mem w) x = Some (p, hd_or l2 (Some GC_ROOTS)) →
  ∃ e c, roots_mem w !! x = Some e ∧ rb_next e = Some c ∧ hd_or l2 (Some GC_ROOTS) = Some c.
Proof.
  intros Hx. destruct (hd_or_Some GC_ROOTS l2) as [c Hc]. destruct (lks_Some _ _ _ Hx) as (e & He & _ & Hn).
  exists e, c. split_and!; [done| |done]. by rewrite Hn.
Qed.

Lemma roots_next w l1 x l2 rs : roots_ok w (l1 ++ x :: l2) rs →
  x ≠ GC_ROOTS ∧ ∃ p, lks (roots_mem w) x = Some (p, hd_or l2 (Some GC_ROOTS)).
Proof.
  intros [H1 _ _]. split; [|rewrite (ring_lookup _ _ _ _ _ H1); eauto].
  pose proof (rg_nodup _ _ _ H1) as [Hs _]%NoDup_cons. intros ->. set_solver.
Qed.

Lemma mark_loop todo : ∀ nt kept nk c w fuel, shape w = shape w0 → roots_ok w (kept ++ todo) (nk ++ nt) →
  length kept = length nk → (length todo ≤ fuel)%nat → hd_or todo (Some GC_ROOTS) = Some c →
  ∃ ns ks lk w', each_root fuel mark_root c w = OK w' ∧ mark_roots succ0 pin0 refcount color rooted nt w ns ks w' ∧
    roots_ok w' (kept ++ lk) (nk ++ ks) ∧ shape w' = shape w0 ∧
    zval_to_free (gc_globals w') = zval_to_free (gc_globals w) ∧ ((∀ n, addr_ok (word w n)) → ∀ n, addr_ok (word w' n)).
Proof.
  induction todo as [|x todo IH]; intros nt kept nk c w fuel Hs Hro Hlen Hf Hc.
  - injection Hc as <-. assert (nt = []) as ->.
    { destruct Hro as [_ H2 _]. apply Forall2_length in H2. rewrite !length_app in H2. destruct nt; simpl in *; [done|lia]. }
    exists [], [], [], w. split; [by destruct fuel|]. split; [constructor|done].
  - injection Hc as <-. destruct fuel as [|fuel]; simpl in Hf; [lia|]. destruct (roots_next _ _ _ _ _ Hro) as [Hx Hnext].
    destruct nt as [|n nt].
    { destruct Hro as [_ H2 _]. apply Forall2_length in H2. rewrite !length_app in H2. simpl in *. lia. }
    simpl. rewrite decide_False by done.
    destruct (mark_root_ok w kept x todo nk n nt Hs Hro Hlen) as (w1 & -> & [(ns & Hcol & Hm & Hst & Hro1)|(w1' & Hcol & Hl & Hrm)]).
    + ob. assert (roots_mem w1 = roots_mem w) as Hmem by (by rewrite (still_globals _ _ Hst)).
      destruct Hnext as [p Hp]. rewrite <- Hmem in Hp. destruct (root_next_ok _ _ _ _ Hp) as (e & c & He & Hn & Hc).
      rewrite He. ob. rewrite Hn. ob. rewrite !cons_middle, !app_assoc in Hro1.
      destruct (IH nt (kept ++ [x]) (nk ++ [n]) c w1 fuel) as (ns' & ks & lk & w2 & -> & Hmr & Hro2 & Hs2 & Hz & Ha).
      { etrans; [apply erase_shape, Hst|done]. }
      { done. }
      { rewrite !length_app. simpl. lia. }
      { lia. }
      { done. }
      exists (ns ++ ns'), (n :: ks), (x :: lk), w2. rewrite <- !app_assoc in Hro2. split_and!; [done| |done|done| |].
      * eapply mark_roots_purple; [done|done| |done]. intros y. unfold rooted.
        pose proof (erase_rooted w w1 (proj1 Hst) y) as Hr.
        destruct (gc_address (word w1 y)) eqn:E1, (gc_address (word w y)) eqn:E2; naive_solver.
      * rewrite Hz. by rewrite (still_globals _ _ Hst).
      * intros Hok. apply Ha. intros y. unfold addr_ok. destruct Hst as (_ & _ & Hy). rewrite Hy. apply Hok.
    + ob. destruct (let_go_removed w kept x todo nk n nt w1' Hro Hlen Hl) as (w2 & Hrm' & Hro2 & Hs2 & Hwr & Hg2 & p & Hx2).
      rewrite Hrm in Hrm'. injection Hrm' as <-. destruct (root_next_ok _ _ _ _ Hx2) as (e & c & He & Hn & Hc).
      rewrite He. ob. rewrite Hn. ob.
      destruct (IH nt kept nk c w1 fuel) as (ns' & ks & lk & w3 & -> & Hmr & Hro3 & Hs3 & Hz & Ha); [by rewrite Hs2|done|done|lia|done|].
      exists ns', ks, lk, w3. split_and!; [done| |done|done| |].
      * eapply mark_roots_other; [done| |done]. intros y. destruct (Hwr y) as [Hw1 Hr1].
        destruct (let_go_color w n w1' y Hl) as [H1 H2]. rewrite Hr1. destruct Hl as (_ & _ & _ & ->).
        rewrite <- H1, <- H2. unfold color, rooted. by rewrite Hw1.
      * by rewrite Hz, Hg2.
      * intros Hok. apply Ha. intros y. destruct (Hwr y) as [-> _]. destruct Hl as (_ & _ & -> & _). case_decide; [by left|done].
Qed.

(** The loop over the whole buffer. *)
Lemma over_roots_ok (body : ptr → world → outcome world) w l rs (P : world → Prop) : roots_ok w l rs →
  (∀ c fuel, (length l ≤ fuel)%nat → hd_or l (Some GC_ROOTS) = Some c → ∃ w', each_root fuel body c w = OK w' ∧ P w') →
  ∃ w', over_roots body w = OK w' ∧ P w'.
Proof.
  intros [H1 _ _] Hb. unfold over_roots. pose proof (rg_sentinel _ _ _ H1) as Hs.
  destruct (lks_Some _ _ _ Hs) as (e & -> & _ & Hn). ob. destruct (hd_or_Some GC_ROOTS l) as [c Hc].
  simpl in Hn. rewrite Hn, Hc. ob. apply Hb; [|done]. unfold root_fuel.
  pose proof (live_length (roots_mem w) (GC_ROOTS :: l) (rg_nodup _ _ _ H1) ltac:(intros r Hr; by apply (ring_live _ _ _ H1))) as Hlen.
  simpl in Hlen. lia.
Qed.

Lemma gc_mark_roots_ok w l rs : shape w = shape w0 → roots_ok w l rs →
  ∃ w', gc_mark_roots w = OK w' ∧ ∃ ns ks lk, mark_roots succ0 pin0 refcount color rooted rs w ns ks w' ∧
    roots_ok w' lk ks ∧ shape w' = shape w0 ∧ zval_to_free (gc_globals w') = zval_to_free (gc_globals w) ∧
    ((∀ n, addr_ok (word w n)) → ∀ n, addr_ok (word w' n)).
Proof.
  intros Hs Hro. eapply over_roots_ok; [done|]. intros c fuel Hf Hc.
  destruct (mark_loop l rs [] [] c w fuel) as (ns & ks & lk & w' & ? & ? & ? & ? & ? & ?); [done..|].
  exists w'. split; [done|]. exists ns, ks, lk. done.
Qed.

(** ** Scanning the roots *)

Lemma scan_root_ok w l1 x l2 rs1 n rs2 : scan_I w0 ∅ w →
  roots_ok w (l1 ++ x :: l2) (rs1 ++ n :: rs2) → length l1 = length rs1 →
  ∃ w', scan_root x w = OK w' ∧ scan succ0 pin0 refcount color n w w' ∧ still w w'.
Proof.
  intros HI Hro Hlen. pose proof HI as ((He & Hg & _) & _ & Hp).
  assert (wf_graph hd_of w) as Hwfw by (eapply erase_wf; [exact He|done]).
  assert (scan_I w ∅ w) as HI'.
  { split; [done|]. split; [set_solver|]. intros y. rewrite (erase_pinned w0 w He). apply Hp. }
  destruct (root_entry_lookup w x n) as (e & Hx & Hn); [by eapply roots_entry|]. unfold scan_root. rewrite Hx. ob.
  pose proof (shape_succ hd_of w0 w (erase_shape w0 w He)) as Hsu. pose proof (shape_pinned w0 w (erase_shape w0 w He)) as Hpi.
  destruct n as [z|h].
  - destruct Hn as (-> & -> & Hv). rewrite decide_True by done. ob.
    destruct (zval_scan_sim hd_of w Hwfw z w HI' Hv) as (w' & -> & Hsc & Hst). rewrite Hsu, Hpi in Hsc. eauto.
  - destruct Hn as (-> & Hh & -> & b & Hb & _). rewrite decide_False by done. ob.
    destruct (zobj_scan_sim hd_of w Hwfw h w HI') as (w' & -> & Hsc & Hst); [eauto|]. rewrite Hsu, Hpi in Hsc. eauto.
Qed.

Lemma scan_loop l rs todo : ∀ nt dn nd c w fuel, scan_I w0 ∅ w → roots_ok w l rs → l = dn ++ todo → rs = nd ++ nt →
  length dn = length nd → (length todo ≤ fuel)%nat → hd_or todo (Some GC_ROOTS) = Some c →
  ∃ w', each_root fuel scan_root c w = OK w' ∧ scan_list succ0 pin0 refcount color nt w w' ∧ still w w'.
Proof.
  induction todo as [|x todo IH]; intros nt dn nd c w fuel HI Hro -> -> Hlen Hf Hc.
  - injection Hc as <-. assert (nt = []) as ->.
    { destruct Hro as [_ H2 _]. apply Forall2_length in H2. rewrite !length_app in H2. destruct nt; simpl in *; [done|lia]. }
    exists w. split; [by destruct fuel|]. split; [constructor|done].
  - injection Hc as <-. destruct fuel as [|fuel]; simpl in Hf; [lia|]. destruct (roots_next _ _ _ _ _ Hro) as [Hx [p Hp]].
    destruct nt as [|n nt].
    { destruct Hro as [_ H2 _]. apply Forall2_length in H2. rewrite !length_app in H2. simpl in *. lia. }
    simpl. rewrite decide_False by done.
    destruct (scan_root_ok w dn x todo nd n nt HI Hro Hlen) as (w1 & -> & Hsc & Hst). ob.
    assert (roots_mem w1 = roots_mem w) as Hmem by (by rewrite (still_globals _ _ Hst)).
    rewrite <- Hmem in Hp. destruct (root_next_ok _ _ _ _ Hp) as (e & c & He & Hn & Hc).
    rewrite He. ob. rewrite Hn. ob.
    destruct (IH nt (dn ++ [x]) (nd ++ [n]) c w1 fuel) as (w2 & -> & Hsl & Hst2).
    + eapply scan_I_keep; [done|done|]. etrans; [apply HI|done].
    + eapply roots_ok_erase; [apply Hst|done].
    + by rewrite <- app_assoc.
    + by rewrite <- app_assoc.
    + rewrite !length_app. simpl. lia.
    + lia.
    + done.
    + exists w2. split; [done|]. split; [by eapply scan_cons|by etrans].
Qed.

Lemma gc_scan_roots_ok w l rs : scan_I w0 ∅ w → roots_ok w l rs →
  ∃ w', gc_scan_roots w = OK w' ∧ scan_list succ0 pin0 refcount color rs w w' ∧ still w w'.
Proof.
  intros HI Hro. eapply over_roots_ok; [done|]. intros c fuel Hf Hc. by eapply (scan_loop l rs l rs [] []).
Qed.

(** ** Collecting from the roots *)

(** The invariant of ZendGcCollect, whatever the root buffer holds. *)
Record free_inv w : Prop := {
  fi_uint : uints refcount w;
  fi_free : free_ok w;
  fi_addr : ∀ n, addr_ok (word w n) ∨ ∃ z, n = Zv z ∧ z ∈ to_free w;
  fi_pin : ∀ n, pinned w n = true → color w n ≠ GC_WHITE;
}.

Lemma free_inv_coll w : free_inv w → coll_I w ∅ ∅ w.
Proof. intros [F1 F2 F3 F4]. split; done || set_solver. Qed.
Lemma coll_free_inv w w' : coll_I w ∅ ∅ w' → free_inv w'.
Proof.
  intros [I1 I0 I2 I3 I4 _ _]. split; [done..|]. intros n. rewrite (shape_pinned_at w w' (erase_shape _ _ I1)). apply I4.
Qed.

(** The same words and counts, up to an address let go of. *)
Lemma free_inv_ext w w' : shape w' = shape w → zval_to_free (gc_globals w') = zval_to_free (gc_globals w) →
  (∀ n, refcount w' n = refcount w n) → (∀ n, word w' n = word w n ∨ (∃ r, gc_address (word w n) = ARoot r) ∧ word w' n = gc_set_address (word w n) ANull) →
  free_inv w → to_free w' = to_free w ∧ free_inv w'.
Proof.
  intros Hs Hz Hr Hw [F1 F2 F3 F4]. destruct (free_ok_ext w w' Hs Hz F2) as [Hf Hok].
  { intros z Hin. destruct (Hw (Zv z)) as [?|[[r Ha] _]]; [done|].
    destruct (on_list_black _ _ _ z (fo_list _ F2) Hin) as [_ Hna]. by destruct (Hna r). }
  assert (∀ n, color w' n = color w n) as Hc. { intros n. unfold color. by destruct (Hw n) as [->|[_ ->]]. }
  split; [done|]. split; [intros n; rewrite Hr; apply F1|done|..].
  - intros n. rewrite Hf. destruct (Hw n) as [->|[_ ->]]; [apply F3|]. left. by left.
  - intros n. rewrite (shape_pinned_at w w' Hs), Hc. apply F4.
Qed.

Abbreviation collects := (collect succ0 pin0 refcount color listed rooted restored).
Abbreviation collects_roots := (collect_roots succ0 pin0 refcount color listed rooted restored).

Lemma collect_roots_same rs w w' ns w'' : same refcount color listed rooted w w' →
  collects_roots rs w' ns w'' → collects_roots rs w ns w''.
Proof.
  intros Hs Hc. destruct Hc as [w' w'' Hs'|r rs w' w1 ns1 w2 ns2 w3 Hu Hc Hl].
  - constructor. intros x. destruct (Hs x) as (H1 & H2 & H3), (Hs' x) as (H4 & H5 & H6). by rewrite H4, H5, H6.
  - eapply collect_roots_cons; [|done..]. intros x. destruct (Hs x) as (H1 & H2 & H3), (Hu x) as (H4 & H5 & H6).
    by rewrite H5, H6, H4, H1, H2, H3.
Qed.

(** One root: it lets go of its entry, is collected if it is white, and the
    entry is removed. *)
Lemma collect_root_ok w x l2 n rs2 : shape w = shape w0 → free_inv w → roots_ok w (x :: l2) (n :: rs2) →
  ∃ ns w1 w2 w3, collect_root x w = OK w3 ∧ unroot refcount color listed rooted n w w1 ∧ collects n w1 ns w2 ∧
    same refcount color listed rooted w2 w3 ∧ added ∅ ns w w3 ∧ free_inv w3 ∧ roots_ok w3 l2 rs2 ∧ shape w3 = shape w0 ∧
    ∃ p, lks (roots_mem w3) x = Some (p, hd_or l2 (Some GC_ROOTS)).
Proof.
  intros Hs HF Hro. assert (wf_graph hd_of w) as Hwfw by by eapply shape_wf.
  destruct (root_entry_lookup w x n) as (e & He & Hn); [by eapply (roots_entry w [] x l2 [])|].
  assert (gc_address (word w n) = ARoot x) as Haddr. { apply (rk_addr _ _ _ Hro). simpl. set_solver. }
  assert (∃ w1 (run : world → outcome world), let_go w n w1 ∧
    collect_root x w = (let* w := run w1 in remove_root x w) ∧
    (wf_graph hd_of w1 → coll_I w1 ∅ ∅ w1 → ∃ ns w2, run w1 = OK w2 ∧
       collect (succ hd_of w1) (pinned w1) refcount color listed rooted restored n w1 ns w2 ∧ added ∅ ns w1 w2 ∧ coll_I w1 ∅ ∅ w2))
    as (w1 & run & Hl & -> & Hrun).
  { unfold collect_root. rewrite He. ob. destruct n as [z|h].
    - destruct Hn as (-> & -> & [v Hv]). destruct (zv_let_go w z v Hv) as (w1 & Hw1 & Hl).
      exists w1, (λ w, zval_collect_white (gc_fuel w) z w). split; [done|]. split.
      + rewrite decide_True by done. ob. rewrite Hw1. done.
      + intros Hwf1 HI. apply zval_collect_white_sim; [done..|]. destruct Hl as (Hs1 & _). rewrite (shape_is_Some w w1) by done. eauto.
    - destruct Hn as (-> & Hh & -> & b & Hb & ->). destruct (obj_let_go w h b Hb) as (w1 & Hw1 & Hl).
      exists w1, (λ w, zobj_collect_white h (hd_of h) w). split; [done|]. split.
      + rewrite decide_False by done. rewrite Hw1. done.
      + intros Hwf1 HI. apply zobj_collect_white_sim; [done..|]. destruct Hl as (Hs1 & _). rewrite (shape_bucket_is_Some w w1) by done. eauto. }
  pose proof Hl as (Hs1 & Hg1 & Hw1 & Hr1).
  destruct (free_inv_ext w w1) as [Hf1 HF1]; [done|by rewrite Hg1|done| |done|].
  { intros n'. rewrite Hw1. case_decide; [subst; right; eauto|by left]. }
  destruct Hrun as (ns & w2 & -> & Hc & Ha & HI2); [by eapply shape_wf|by apply free_inv_coll|]. ob.
  pose proof (erase_shape _ _ (ci_erase _ _ _ _ HI2)) as Hs2.
  destruct (remove_root_ok w [] x l2 [] n rs2 Hro eq_refl w2) as (w3 & Hw3 & Hro3 & Hs3 & Hwr & Hg3 & Hx3).
  { by rewrite Hs2. }
  { rewrite <- Hg1. exact (f_equal (λ w, roots_mem w) (ci_erase _ _ _ _ HI2)). }
  { intros n' r. rewrite (erase_rooted w1 w2) by apply HI2. by apply let_go_addr. }
  destruct (free_inv_ext w2 w3) as [Hf3 HF3]; [by rewrite Hs3, Hs2|by rewrite Hg3|apply Hwr|left; apply Hwr|by eapply coll_free_inv|].
  rewrite (shape_succ hd_of w0 w1), (shape_pinned w0 w1) in Hc by by rewrite Hs1.
  exists ns, w1, w2, w3. split_and!; [done| |done| | |done|done|by rewrite Hs3|done].
  - intros y. destruct (let_go_color w n w1 y Hl) as [-> ->]. split_and!; [|done..]. unfold net, listed. by rewrite Hr1, Hf1.
  - intros y. destruct (Hwr y) as [Hw Hr]. unfold net, listed, color, rooted. by rewrite Hw, Hr, Hf3.
  - intros y Hy. rewrite Hf3, (Ha y Hy), Hf1. done.
Qed.

Lemma roots_collect_loop todo : ∀ nt c w fuel, shape w = shape w0 → free_inv w → roots_ok w todo nt →
  (length todo ≤ fuel)%nat → hd_or todo (Some GC_ROOTS) = Some c →
  ∃ ns w', each_root fuel collect_root c w = OK w' ∧ collects_roots nt w ns w' ∧ added ∅ ns w w' ∧ free_inv w' ∧
    roots_ok w' [] [] ∧ shape w' = shape w0.
Proof.
  induction todo as [|x todo IH]; intros nt c w fuel Hs HF Hro Hf Hc.
  - injection Hc as <-. assert (nt = []) as ->. { destruct Hro as [_ H2 _]. by apply Forall2_nil_inv_l in H2. }
    exists [], w. split; [by destruct fuel|]. split_and!; [by constructor|intros z; set_solver|done..].
  - injection Hc as <-. destruct fuel as [|fuel]; simpl in Hf; [lia|]. destruct (roots_next w [] x todo _ Hro) as [Hx _].
    destruct nt as [|n nt]; [destruct Hro as [_ H2 _]; inversion H2|].
    simpl. rewrite decide_False by done.
    destruct (collect_root_ok w x todo n nt Hs HF Hro) as (ns & w1 & w2 & w3 & -> & Hu & Hcl & Hsm & Ha & HF3 & Hro3 & Hs3 & p & Hp). ob.
    destruct (root_next_ok _ _ _ _ Hp) as (e & c & He & Hn & Hc). rewrite He. ob. rewrite Hn. ob.
    destruct (IH nt c w3 fuel Hs3 HF3 Hro3) as (ns' & w4 & -> & Hcr & Ha' & HF4 & Hro4 & Hs4); [lia|done|].
    exists (ns ++ ns'), w4. split_and!; [done| |by eapply added_app|done..].
    eapply collect_roots_cons; [done|done|by eapply collect_roots_same].
Qed.

Lemma gc_collect_roots_ok w l rs : shape w = shape w0 → free_inv w → roots_ok w l rs →
  ∃ w', gc_collect_roots w = OK w' ∧ ∃ ns, collects_roots rs w ns w' ∧ added ∅ ns w w' ∧ free_inv w' ∧
    roots_ok w' [] [] ∧ shape w' = shape w0.
Proof.
  intros Hs HF Hro. eapply over_roots_ok; [done|]. intros c fuel Hf Hc.
  destruct (roots_collect_loop l rs c w fuel Hs HF Hro Hf Hc) as (ns & w' & ? & ?). eauto.
Qed.
End mark.
End run.
