(* ===== verification/ZendObjectsStore.v ===== *)
(** The object store, Zend/zend_objects_API.c: objects by handle, with a free
    list through the slots given up, reference counts, and the destructors and
    storage functions the store calls back.

    Callbacks run user code: they may do anything to the world, and may bail
    out.  A pointer to a bucket is only good while the array is where it was
    when the pointer was taken; using it later is undefined. *)

From S2P Require Import Prelude Dll TrialDeletion ZendGcHeap ZendGc ZendGcRoots.

(** The callbacks, by address: each gives the world it leaves and whether it
    bailed out. *)
Class Callbacks `{Handlers} := {
  call_dtor : ptr → store_word → Z → world → world * bool;
  call_free_storage : ptr → store_word → world → world * bool;
  call_clone : ptr → store_word → world → ptr * world;
  (** the address of the default destructor *)
  zend_objects_destroy_object : ptr;
}.

Section store.
Context `{Handlers}.
Implicit Types (w : world) (h handle : Z).

(** [&EG(objects_store).object_buckets[handle].bucket.obj]: a handle and the
    array it points into. *)
Definition obj_ptr : Type := positive * Z.
Definition get_obj handle w : obj_ptr := (os_block (objects_store w), handle).
Definition obj_read (obj : obj_ptr) w : outcome zend_object_store_bucket :=
  if decide (obj.1 = os_block (objects_store w)) then bucket w obj.2 else UB.
Definition obj_write (obj : obj_ptr) (f : zend_object_store_bucket → zend_object_store_bucket) w : outcome world :=
  if decide (obj.1 = os_block (objects_store w)) then bucket_upd w obj.2 f else UB.

(** ** Life of the store *)

(** [memset(&object_buckets[0], 0, ...)] *)
Definition zero_bucket : zend_object_store_bucket :=
  {| destructor_called := false; valid := false; apply_count := 0; obj_object := SObject None; obj_dtor := None;
     obj_free_storage := None; obj_clone := None; obj_handlers := None; obj_refcount := 0; obj_buffered := gc_null |}.

(** [blk] tells the new array from every earlier one. *)
Definition zend_objects_store_init (blk : positive) (init_size : Z) : zend_objects_store :=
  {| object_buckets := Some {[0 := zero_bucket]}; os_block := blk; top := 1; os_size := init_size; free_list_head := -1 |}.

Definition zend_objects_store_destroy (s : zend_objects_store) : zend_objects_store := set_buckets s None.

(** ** Entering and leaving *)

Definition set_free_list_head (s : zend_objects_store) n : zend_objects_store :=
  {| object_buckets := object_buckets s; os_block := os_block s; top := top s; os_size := os_size s; free_list_head := n |}.
Definition set_top (s : zend_objects_store) n : zend_objects_store :=
  {| object_buckets := object_buckets s; os_block := os_block s; top := n; os_size := os_size s;
     free_list_head := free_list_head s |}.

(** [size <<= 1] and [erealloc]: the slots are copied to a new array. *)
Definition grow (s : zend_objects_store) : zend_objects_store :=
  {| object_buckets := object_buckets s; os_block := Pos.succ (os_block s); top := top s;
     os_size := uint_wrap (Z.shiftl (os_size s) 1); free_list_head := free_list_head s |}.

(** The handle the next object gets. *)
Definition take_handle (s : zend_objects_store) : outcome (Z * zend_objects_store) :=
  if decide (free_list_head s = -1) then
    let s := if decide (top s = os_size s) then grow s else s in
    OK (top s, set_top s (uint_wrap (top s + 1)))
  else
    let handle := free_list_head s in
    let* bs := rd (object_buckets s) in
    let* b := rd (bs !! handle) in
    match obj_object b with
    | SNext n => OK (handle, set_free_list_head s n)
    | SObject _ => UB
    end.

(** Every field of the slot is written, so its earlier contents do not matter. *)
Definition zend_objects_store_put `{!Callbacks} (object : nptr) (dtor free_storage clone : nptr) w : outcome (Z * world) :=
  let* (handle, s) := take_handle (objects_store w) in
  let* bs := rd (object_buckets s) in
  if decide (0 <= handle < os_size s) then
    let b := {| destructor_called := false; valid := true; apply_count := 0;
                obj_object := SObject object;
                obj_dtor := match dtor with Some _ => dtor | None => Some zend_objects_destroy_object end;
                obj_free_storage := free_storage; obj_clone := clone; obj_handlers := None;
                obj_refcount := 1; obj_buffered := gc_null |} in
    OK (handle, set_store w (set_buckets s (Some (<[handle := b]> bs))))
  else UB.

Definition zend_objects_store_get_refcount handle w : outcome Z :=
  let* b := bucket w handle in OK (obj_refcount b).

Definition zend_objects_store_add_ref_by_handle handle w : outcome world :=
  bucket_upd w handle (obj_set_refcount (λ r, r + 1)).
Definition zend_objects_store_add_ref handle w : outcome world :=
  bucket_upd w handle (obj_set_refcount (λ r, r + 1)).

(** [ZEND_OBJECTS_STORE_ADD_TO_FREE_LIST] *)
Definition add_to_free_list handle w : outcome world :=
  let* b := bucket w handle in
  let* w := bucket_upd w handle (obj_set_object (SNext (free_list_head (objects_store w))) (obj_handlers b)) in
  let w := set_store w (set_free_list_head (objects_store w) (to_int handle)) in
  let* b := bucket w handle in
  bucket_upd w handle (bk_set_flags (destructor_called b) false).

Section callbacks.
Context `{!Callbacks}.

(** The destructor call on the way to the last reference, within [zend_try]. *)
Definition del_ref_dtor handle (handlers : nptr) w : outcome (world * bool) :=
  let* b := bucket w handle in
  if destructor_called b then OK (w, false)
  else
    let* w := bucket_upd w handle (bk_set_flags true (valid b)) in
    match obj_dtor b with
    | None => OK (w, false)
    | Some dtor =>
        let* w :=
          match handlers, obj_handlers b with
          | Some _, None => bucket_upd w handle (obj_set_object (obj_object b) handlers)
          | _, _ => OK w
          end in
        OK (call_dtor dtor (obj_object b) handle w)
    end.

(** The storage is freed and the slot goes to the free list. *)
Definition del_ref_free handle w : outcome (world * bool) :=
  let* w := GC_REMOVE_ZOBJ_FROM_BUFFER handle w in
  let* b := bucket w handle in
  let (w, failure) :=
    match obj_free_storage b with Some f => call_free_storage f (obj_object b) w | None => (w, false) end in
  let* w := add_to_free_list handle w in
  OK (w, failure).

(** The world left, and whether the function bails out at its end.  [obj] is
    read again after the destructor, but not after the storage function. *)
Definition zend_objects_store_del_ref_by_handle_ex handle (handlers : nptr) w : outcome (world * bool) :=
  if negb (has_store w) then OK (w, false)
  else
    let obj := get_obj handle w in
    let* b := bucket w handle in
    let* (obj, w, failure) :=
      if valid b && bool_decide (obj_refcount b = 1) then
        let* (w, failure) := del_ref_dtor handle handlers w in
        let obj := get_obj handle w in
        let* b := obj_read obj w in
        if decide (obj_refcount b = 1) then
          let* (w, failure') := del_ref_free handle w in OK (obj, w, failure || failure')
        else OK (obj, w, failure)
      else OK (obj, w, false) in
    let* w := obj_write obj (obj_set_refcount (λ r, r - 1)) w in
    OK (w, failure).

(** ** Shutdown *)

(** [for (i = 1; i < objects->top; i++)], [top] being read again each time. *)
Fixpoint for_handles (fuel : nat) (i : Z) (body : Z → world → outcome world) w : outcome world :=
  if decide (i < top (objects_store w)) then
    match fuel with
    | O => UB
    | S fuel => let* w := body i w in for_handles fuel (i + 1) body w
    end
  else OK w.

Definition call_destructor i w : outcome world :=
  let* b := bucket w i in
  if valid b && negb (destructor_called b) then
    let* w := bucket_upd w i (bk_set_flags true true) in
    match obj_dtor b, obj_object b with
    | Some dtor, SObject None => OK w
    | Some dtor, object =>
        let* w := bucket_upd w i (obj_set_refcount (λ r, r + 1)) in
        let (w, failure) := call_dtor dtor object i w in
        if failure then Bailout
        else
          let* w := bucket_upd w i (obj_set_refcount (λ r, r - 1)) in
          let* b := bucket w i in
          if decide (obj_refcount b = 0) then GC_REMOVE_ZOBJ_FROM_BUFFER i w else OK w
    | None, _ => OK w
    end
  else OK w.
Definition zend_objects_store_call_destructors (fuel : nat) w : outcome world := for_handles fuel 1 call_destructor w.

Definition mark_destructed i w : outcome world :=
  let* b := bucket w i in
  if valid b then bucket_upd w i (bk_set_flags true true) else OK w.
Definition zend_objects_store_mark_destructed w : outcome world :=
  if has_store w then for_handles (Z.to_nat (top (objects_store w))) 1 mark_destructed w else OK w.

Definition free_object i w : outcome world :=
  let* b := bucket w i in
  if valid b then
    let* w := GC_REMOVE_ZOBJ_FROM_BUFFER i w in
    let* w := bucket_upd w i (bk_set_flags (destructor_called b) false) in
    match obj_free_storage b with
    | Some f => let (w, failure) := call_free_storage f (obj_object b) w in if failure then Bailout else OK w
    | None => OK w
    end
  else OK w.
Definition zend_objects_store_free_object_storage (fuel : nat) w : outcome world := for_handles fuel 1 free_object w.

(** ** Objects by handle *)

(** Cloning an object without [clone] handler is a core error, which ends the
    request. *)
Definition zend_objects_store_clone_obj handle (handlers : ptr) w : outcome (Z * world) :=
  let* b := bucket w handle in
  match obj_clone b with
  | None => Bailout
  | Some clone =>
      let (new_object, w) := call_clone clone (obj_object b) w in
      let* b := bucket w handle in
      let* (h, w) := zend_objects_store_put (Some new_object) (obj_dtor b) (obj_free_storage b) (obj_clone b) w in
      let* b := bucket w handle in
      let* w := bucket_upd w handle (obj_set_object (obj_object b) (Some handlers)) in
      OK (h, w)
  end.

Definition zend_object_store_get_object handle w : outcome store_word :=
  let* b := bucket w handle in OK (obj_object b).

Definition zend_object_store_set_object handle (object : nptr) w : outcome world :=
  let* b := bucket w handle in bucket_upd w handle (obj_set_object (SObject object) (obj_handlers b)).

Definition zend_object_store_ctor_failed handle (handlers : ptr) w : outcome world :=
  let* b := bucket w handle in
  let* w := bucket_upd w handle (obj_set_object (obj_object b) (Some handlers)) in
  bucket_upd w handle (bk_set_flags true (valid b)).
End callbacks.
End store.
