(* ===== verification/ZendGcCycles.v ===== *)
(** [gc_collect_cycles] and its callers: the three passes over the root
    buffer, the destruction of what they put on the list, and the entering of
    possible roots, which collects when the buffer is full (Zend/zend_gc.c);
    and [zend_objects_store_del_ref], which enters one. *)

From S2P Require Import Prelude Dll TrialDeletion ZendGcHeap ZendGc ZendGcRoots ZendObjectsStore.

(** What runs when the value of a collected zval is destroyed:
    [zend_hash_destroy] and [FREE_HASHTABLE] on its array, which call the
    table's element destructor and so run user code, and [zval_dtor] on the
    other types. *)
Class Destroyers `{Handlers} := {
  destroy_array : ptr → world → outcome world;
  zval_dtor : ptr → world → outcome world;
}.

Section cycles.
Context `{Handlers}.
Implicit Types (w : world) (z : ptr) (h : Z) (p : gc_addr).

Definition set_active (active : bool) (g : zend_gc_globals) : zend_gc_globals :=
  {| gc_enabled := gc_enabled g; gc_active := active; buf := buf g; root_mem := root_mem g;
     unused := unused g; first_unused := first_unused g; last_unused := last_unused g;
     zval_to_free := zval_to_free g; free_list := free_list g; next_to_free := next_to_free g;
     gc_runs := gc_runs g; gc_collected := gc_collected g |}.
Definition set_lists (fl ntf : gc_addr) (g : zend_gc_globals) : zend_gc_globals :=
  {| gc_enabled := gc_enabled g; gc_active := gc_active g; buf := buf g; root_mem := root_mem g;
     unused := unused g; first_unused := first_unused g; last_unused := last_unused g;
     zval_to_free := zval_to_free g; free_list := fl; next_to_free := ntf;
     gc_runs := gc_runs g; gc_collected := gc_collected g |}.
Definition set_stats (runs collected : Z) (g : zend_gc_globals) : zend_gc_globals :=
  {| gc_enabled := gc_enabled g; gc_active := gc_active g; buf := buf g; root_mem := root_mem g;
     unused := unused g; first_unused := first_unused g; last_unused := last_unused g;
     zval_to_free := zval_to_free g; free_list := free_list g; next_to_free := next_to_free g;
     gc_runs := uint_wrap runs; gc_collected := uint_wrap collected |}.
Definition on_globals (f : zend_gc_globals → zend_gc_globals) w : world := set_globals w (f (gc_globals w)).

(** ** Finding the garbage *)

Definition gc_start w : world :=
  on_globals (λ g, set_active true (set_zval_to_free FREE_LIST_END (set_stats (gc_runs g + 1) (gc_collected g) g))) w.

Definition gc_trace w : outcome world :=
  let* w := gc_mark_roots (gc_start w) in
  let* w := gc_scan_roots w in
  gc_collect_roots w.

(** ** Destroying it *)

(** [p->u.next]; a pointer with a colour in its last bits is not one. *)
Definition next_of z w : outcome gc_addr :=
  let* x := zv w z in
  if decide (gc_get_color (u_buffered x) = GC_BLACK) then OK (gc_address (u_buffered x)) else UB.

(** "First call destructors": the number of zvals passed. *)
Fixpoint call_list_dtors (body : ptr → world → outcome world) (fuel : nat) p w : outcome (Z * world) :=
  match fuel, p with
  | _, AEnd => OK (0, w)
  | S fuel, AZval z =>
      let* w := body z w in
      let* q := next_of z w in
      let* (count, w) := call_list_dtors body fuel q w in
      OK (1 + count, w)
  | _, _ => UB
  end.

(** "Destroy zvals": [next_to_free] is read before the value is destroyed, and
    followed after it. *)
Fixpoint destroy_list (body : ptr → world → outcome world) (fuel : nat) p w : outcome world :=
  match fuel, p with
  | _, AEnd => OK w
  | S fuel, AZval z =>
      let* q := next_of z w in
      let* w := body z (on_globals (λ g, set_lists (free_list g) q g) w) in
      destroy_list body fuel (next_to_free (gc_globals w)) w
  | _, _ => UB
  end.

(** "Free zvals" *)
Fixpoint free_zvals (fuel : nat) p w : outcome world :=
  match fuel, p with
  | _, AEnd => OK w
  | S fuel, AZval z =>
      let* q := next_of z w in
      let* w := FREE_ZVAL_EX z w in free_zvals fuel q w
  | _, _ => UB
  end.

Section callbacks.
Context `{!Callbacks} `{!Destroyers}.

Definition list_dtor z w : outcome world :=
  let* x := zv w z in
  match z_value x with
  | IS_OBJECT h _ =>
      if has_store w then
        let* b := bucket w h in
        match valid b && bool_decide (obj_refcount b <= 0), obj_dtor b, destructor_called b with
        | true, Some dtor, false =>
            let* w := bucket_upd w h (bk_set_flags true true) in
            let* w := bucket_upd w h (obj_set_refcount (λ r, r + 1)) in
            let (w, failure) := call_dtor dtor (obj_object b) h w in
            if failure then Bailout else bucket_upd w h (obj_set_refcount (λ r, r - 1))
        | _, _, _ => OK w
        end
      else OK w
  | _ => OK w
  end.

Definition list_destroy z w : outcome world :=
  let* x := zv w z in
  match z_value x with
  | IS_OBJECT h hd =>
      if has_store w then
        let* b := bucket w h in
        if valid b && bool_decide (obj_refcount b <= 0) then
          let* w := bucket_upd w h (obj_set_refcount (λ _, 1)) in
          let* w := zv_upd w z (zv_set_value IS_SCALAR) in
          let* (w, failure) := zend_objects_store_del_ref_by_handle_ex h (Some hd) w in
          if failure then Bailout else OK w
        else OK w
      else OK w
  | IS_ARRAY ht =>
      let* w := zv_upd w z (zv_set_value IS_SCALAR) in
      destroy_array ht w
  | IS_SCALAR =>
      let* w := zval_dtor z w in
      zv_upd w z (zv_set_value IS_SCALAR)
  end.

Definition gc_collect_cycles w : outcome (Z * world) :=
  let* s := rd (root_mem (gc_globals w) !! GC_ROOTS) in
  if decide (rb_next s = Some GC_ROOTS) then OK (0, w)
  else if gc_active (gc_globals w) then OK (0, w)
  else
    let* w := gc_trace w in
    let orig_free_list := free_list (gc_globals w) in
    let orig_next_to_free := next_to_free (gc_globals w) in
    let p := zval_to_free (gc_globals w) in
    let w := on_globals (λ g, set_active false (set_zval_to_free ANull (set_lists p (next_to_free g) g))) w in
    let* (count, w) := call_list_dtors list_dtor (gc_fuel w) p w in
    let* w := destroy_list list_destroy (gc_fuel w) (free_list (gc_globals w)) w in
    let* w := free_zvals (gc_fuel w) (free_list (gc_globals w)) w in
    OK (count, on_globals (λ g, set_lists orig_free_list orig_next_to_free
                                  (set_stats (gc_runs g) (gc_collected g + count) g)) w).

(** ** Possible roots *)

(** The buffer is full: [zv] is kept alive over a collection, which may have
    freed an entry. *)
Definition entry_by_collecting z w : outcome (option (ptr * world)) :=
  if gc_enabled (gc_globals w) then
    let* w := zv_upd w z (zv_set_refcount (λ r, r + 1)) in
    let* (_, w) := gc_collect_cycles w in
    let* w := zv_upd w z (zv_set_refcount (λ r, r - 1)) in
    match unused (gc_globals w) with
    | None => OK None
    | Some newRoot =>
        let* e := rd (root_mem (gc_globals w) !! newRoot) in
        OK (Some (newRoot, on_globals (λ g, set_unused (rb_prev e) (first_unused g) g) w))
    end
  else OK None.

Definition new_entry z w : outcome (option (ptr * world)) :=
  let* r := gc_take_entry (gc_globals w) in
  match r with
  | Some (newRoot, g) => OK (Some (newRoot, set_globals w g))
  | None => entry_by_collecting z w
  end.

Definition link_root newRoot h u w : outcome world :=
  let* g := gc_link_root newRoot h u (gc_globals w) in OK (set_globals w g).

Definition gc_zobj_possible_root z h hd w : outcome world :=
  match get_gc hd with
  | None => OK w
  | Some _ =>
      if has_store w then
        let* b := bucket w h in
        if decide (gc_get_color (obj_buffered b) = GC_PURPLE) then OK w
        else if decide (gc_address (obj_buffered b) = ANull) then
          let* r := new_entry z w in
          match r with
          | None => OK w
          | Some (newRoot, w) =>
              let* w := bucket_upd w h (obj_set_buffered gc_set_purple) in
              let* w := link_root newRoot h (u_handlers hd) w in
              bucket_upd w h (obj_set_buffered (λ v, gc_set_address v (ARoot newRoot)))
          end
        else OK w
      else OK w
  end.

(** [GC_ZOBJ_CHECK_POSSIBLE_ROOT] *)
Definition GC_ZOBJ_CHECK_POSSIBLE_ROOT z h hd w : outcome world :=
  if has_store w then
    let* b := bucket w h in
    if valid b then gc_zobj_possible_root z h hd w else OK w
  else OK w.

Definition gc_zval_possible_root z w : outcome world :=
  let* x := zv w z in
  if bool_decide (gc_address (u_buffered x) ≠ ANull) && being_freed (u_buffered x) (gc_globals w) then OK w
  else
    match z_value x with
    | IS_OBJECT h hd => GC_ZOBJ_CHECK_POSSIBLE_ROOT z h hd w
    | _ =>
        if decide (gc_get_color (u_buffered x) = GC_PURPLE) then OK w
        else if decide (gc_address (u_buffered x) = ANull) then
          let* r := new_entry z w in
          match r with
          | None => OK w
          | Some (newRoot, w) =>
              let* w := zv_upd w z (zv_set_u gc_set_purple) in
              let* w := link_root newRoot 0 (u_pz z) w in
              zv_upd w z (zv_set_u (λ v, gc_set_address v (ARoot newRoot)))
          end
        else OK w
    end.

(** [GC_ZVAL_CHECK_POSSIBLE_ROOT] *)
Definition gc_zval_check_possible_root z w : outcome world :=
  let* x := zv w z in
  match z_value x with IS_SCALAR => OK w | _ => gc_zval_possible_root z w end.

Definition zend_objects_store_del_ref z w : outcome world :=
  let* x := zv w z in
  match z_value x with
  | IS_OBJECT h hd =>
      let* w := zv_upd w z (zv_set_refcount (λ r, r + 1)) in
      let* (w, failure) := zend_objects_store_del_ref_by_handle_ex h (Some hd) w in
      if failure then Bailout
      else
        let* w := zv_upd w z (zv_set_refcount (λ r, r - 1)) in
        GC_ZOBJ_CHECK_POSSIBLE_ROOT z h hd w
  | _ => UB
  end.
End callbacks.
End cycles.
