(* ===== verification/ZendGcSpec.v ===== *)
(** What a collection finds: the theorem of TrialGarbage for the passes of
    [gc_collect_cycles]. *)

From stdpp Require Import relations.
From S2P Require Import Prelude Dll TrialDeletion TrialScan TrialCollect TrialGarbage.
From S2P Require Import ZendGcHeap ZendGc ZendGcSim ZendGcMark ZendGcCollect ZendGcRoots ZendGcBuffer ZendGcRun.
From S2P Require Import ZendObjectsStore ZendGcCycles.

Section spec.
Context `{Handlers} (hd_of : Z → ptr).
Implicit Types (w : world) (z r : ptr) (h : Z) (n : node) (l : list ptr) (rs ns D : list node).

(** A world in which the collector can be started: nothing dangles, the root
    buffer is consistent, every reference is counted, no node is grey or
    white, and no list of zvals to free is around. *)
Record gc_ready w l rs : Prop := {
  gd_wf : wf_graph hd_of w;
  gd_roots : roots_ok hd_of w l rs;
  gd_uint : uints refcount w;
  gd_counted : counted (succ hd_of w) (pinned w) refcount w;
  gd_clean : clean color w;
  gd_addr : ∀ n, addr_ok (word w n);
}.

(** Garbage: zvals and objects that are only referenced from one another, all
    reachable from purple roots. *)
Definition garbage w rs D : Prop :=
  garbage_set (succ hd_of w) (pinned w) refcount w D ∧ from_roots (succ hd_of w) color rs w D.

Lemma symbol_table_leaf w n : pinned w n = true → succ hd_of w n = [].
Proof.
  destruct n as [z|h]; simpl; [|done]. destruct (zvals w !! z) as [x|]; [|done]. unfold is_symbol_table. simpl.
  by destruct (z_value x) as [|ht|]; [|intros ->|].
Qed.

Lemma occs_object h (l : list ptr) : occs (Ob h) (Zv <$> l) = 0.
Proof. induction l as [|z l IH]; [done|]. cbn. rewrite IH. by rewrite decide_False. Qed.

(** The references objects get from a set of nodes come from its zvals. *)
Lemma edges_to_object w ns (l : list ptr) h : NoDup ns → NoDup l → (∀ z, z ∈ l ↔ Zv z ∈ ns) →
  edges (succ hd_of w) ns (Ob h) = edges (succ hd_of w) (Zv <$> l) (Ob h).
Proof.
  intros Hns Hl Hz.
  assert (∀ ns, edges (succ hd_of w) ns (Ob h) = edges (succ hd_of w) (filter (λ n, restored n = true) ns) (Ob h)) as ->.
  { clear. induction ns as [|n ns IH]; [done|]. rewrite filter_cons. simpl. destruct n as [z|h']; simpl; [by rewrite IH|].
    rewrite IH. assert (occs (Ob h) (succ hd_of w (Ob h')) = 0) as Ho; [|simpl in Ho; rewrite Ho; lia].
    simpl. destruct (valid <$> buckets w !! h') as [[]|]; [|done..]. destruct (get_gc (hd_of h')) as [g|]; [|done].
    destruct (g (memory w) h') as [t p]. apply occs_object. }
  apply edges_perm; [|done]. apply NoDup_Permutation; [by apply NoDup_filter|by apply NoDup_fmap; [apply _|]|].
  intros n. rewrite list_elem_of_filter, list_elem_of_fmap. split.
  - intros [Hr Hn]. destruct n as [z|]; [|done]. exists z. by rewrite Hz.
  - intros (z & -> & ?%Hz). done.
Qed.

Lemma gc_trace_spec w l rs : gc_ready w l rs → ∃ w' ns,
  gc_trace w = OK w' ∧
  (* the nodes taken are the garbage, and the zvals among them are on the list *)
  (∀ n, n ∈ ns ↔ ∃ D, garbage w rs D ∧ n ∈ D) ∧ NoDup ns ∧ (∀ z, z ∈ to_free w' ↔ Zv z ∈ ns) ∧
  (* the counts are what they were, but for the list's own reference and
     the references of collected zvals to objects *)
  (∀ z, pinned w (Zv z) = false → refcount w' (Zv z) = uint_wrap (refcount w (Zv z) + (if decide (z ∈ to_free w') then 1 else 0))) ∧
  (∀ h, refcount w' (Ob h) = refcount w (Ob h) - edges (succ hd_of w) (Zv <$> to_free w') (Ob h)) ∧
  (* the collector is back where it can be started *)
  shape w' = shape w ∧ clean color w' ∧ free_inv w' ∧ roots_ok hd_of w' [] [].
Proof.
  intros [Hwf Hro Hu Hcnt Hcl Ha]. unfold gc_trace. set (w0 := gc_start w).
  assert (shape w0 = shape w) as Hs0 by done.
  assert (∀ n, word w0 n = word w n ∧ refcount w0 n = refcount w n) as Hw0.
  { intros n. unfold w0, gc_start, on_globals. by rewrite word_set_globals, refcount_set_globals. }
  assert (wf_graph hd_of w0) as Hwf0 by by eapply shape_wf.
  assert (roots_ok hd_of w0 l rs) as Hro0.
  { eapply (roots_ok_ext hd_of w w0); [done|done| |done]. intros n r. by destruct (Hw0 n) as [-> _]. }
  rewrite <- (shape_succ hd_of w w0 Hs0), <- (shape_pinned w w0 Hs0) in *.
  assert (uints refcount w0) as Hu0. { intros n. destruct (Hw0 n) as [_ ->]. apply Hu. }
  assert (clean color w0) as Hcl0. { intros n. unfold color. destruct (Hw0 n) as [-> _]. apply Hcl. }
  assert (counted (succ hd_of w0) (pinned w0) refcount w0) as Hcnt0.
  { intros L n HL Hp. destruct (Hw0 n) as [_ ->]. by apply Hcnt. }
  assert (∀ D, garbage w rs D ↔ garbage w0 rs D) as Hgarb.
  { intros D. unfold garbage. rewrite (shape_succ hd_of w w0 Hs0), (shape_pinned w w0 Hs0).
    assert (∀ n, color w0 n = color w n) as Hc by (intros n; unfold color; by destruct (Hw0 n) as [-> _]).
    split; intros [[D1 D2 D3] HD]; (split; [split; [done..|]|]).
    - intros x Hx. destruct (Hw0 x) as [_ ->]. auto.
    - intros x Hx. destruct (HD x Hx) as (r & ? & ? & ?). exists r. by rewrite Hc.
    - intros x Hx. destruct (Hw0 x) as [_ <-]. auto.
    - intros x Hx. destruct (HD x Hx) as (r & ? & ? & ?). exists r. by rewrite <- Hc. }
  (* marking *)
  destruct (gc_mark_roots_ok hd_of w0 Hwf0 w0 l rs eq_refl Hro0) as (w1 & -> & G & ks & lk & Hmark & Hro1 & Hs1 & Hz1 & Ha1). ob.
  pose proof (mark_roots_spec _ _ _ _ listed _ restored _ _ _ _ _ Hmark) as ([_ _ _ Hpin _ _] & _).
  assert (scan_I w1 ∅ w1) as HI1.
  { split; [done|]. split; [set_solver|]. intros n. rewrite (shape_pinned_at w0 w1 Hs1). intros Hp Hg.
    destruct (Hpin n Hp) as [Hc|Hc]; [destruct (Hcl0 n)|]; congruence. }
  (* scanning *)
  destruct (gc_scan_roots_ok hd_of w1 (shape_wf hd_of w0 w1 Hs1 Hwf0) w1 lk ks HI1 Hro1) as (w2 & -> & Hscan & Hst2). ob.
  rewrite (shape_succ hd_of w0 w1 Hs1), (shape_pinned w0 w1 Hs1) in Hscan.
  assert (shape w2 = shape w0) as Hs2. { rewrite <- Hs1. apply erase_shape, Hst2. }
  assert (zval_to_free (gc_globals w2) = FREE_LIST_END) as Hz2. { rewrite (still_globals _ _ Hst2), Hz1. done. }
  destruct (free_intro w2 []) as [Hf2 Hok2]; [done|constructor|set_solver|].
  assert (free_inv w2) as HF2.
  { split; [|done| |].
    - eapply (proj2 (scan_uints _ _ _ _)), mark_roots_uints; [done..|]. done.
    - intros n. left. unfold addr_ok. destruct Hst2 as (_ & _ & ->). apply Ha1. intros n'. destruct (Hw0 n') as [-> _]. apply Ha.
    - intros n. rewrite (shape_pinned_at w0 w2 Hs2). intros Hp. destruct HI1 as (_ & _ & Hng).
      specialize (Hng n). rewrite (shape_pinned_at w0 w1 Hs1) in Hng.
      destruct (proj2 (scan_keep _ _ _ _) _ _ _ Hscan n (Hng Hp)) as [->| ->]; [|done].
      destruct (Hpin n Hp) as [->| ->]; [|done]. destruct (Hcl0 n) as [-> | ->]; done. }
  assert (roots_ok hd_of w2 lk ks) as Hro2 by (eapply roots_ok_erase; [apply Hst2|done]).
  (* collecting *)
  destruct (gc_collect_roots_ok hd_of w0 Hwf0 w2 lk ks Hs2 HF2 Hro2) as (w3 & -> & ns & Hcoll & Hadd & HF3 & Hro3 & Hs3).
  assert (collection (succ hd_of w0) (pinned w0) refcount color listed rooted restored rs w0 G ks w1 w2 ns w3) as C.
  { split; [done|done| |intros n|done].
    - intros n. unfold rooted. destruct Hst2 as (_ & _ & ->). done.
    - destruct n; simpl; [|done]. by rewrite Hf2. }
  assert (∀ n, rooted w0 n = true → n ∈ rs) as Hrooted.
  { intros n. unfold rooted. destruct (gc_address (word w0 n)) as [|r| |] eqn:E; try done. intros _.
    apply (rk_addr _ _ _ _ Hro0) in E. by apply elem_of_zip_r in E. }
  pose proof (collection_sound _ _ _ _ _ _ _ (symbol_table_leaf w0) _ _ _ _ _ _ _ _ C Hu0 Hcl0 Hcnt0 Hrooted) as [Hg Hfr].
  pose proof (collection_counts _ _ _ _ _ _ _ (symbol_table_leaf w0) _ _ _ _ _ _ _ _ C Hu0 Hcl0 Hcnt0 Hrooted) as Hcounts.
  assert (∀ z, z ∈ to_free w3 ↔ Zv z ∈ ns) as Hlist. { intros z. rewrite (Hadd z), Hf2 by set_solver. set_solver. }
  pose proof (gb_nodup _ _ _ _ _ Hg) as Hnd.
  exists w3, ns. split_and!; [done| |done|done| | |by rewrite Hs3| |done|done].
  - intros n. split; [intros Hn; exists ns; by rewrite Hgarb|]. intros (D & [HD HDr]%Hgarb & Hn).
    by eapply (collection_complete _ _ _ _ _ _ _ (symbol_table_leaf w0) _ _ _ _ _ _ _ _ C Hu0 Hcl0 Hcnt0 Hrooted D).
  - intros z Hp. specialize (Hcounts (Zv z) Hp). simpl restored in Hcounts. unfold net, listed in Hcounts.
    destruct (Hw0 (Zv z)) as [_ <-]. rewrite <- (uint_wrap_id (refcount w3 (Zv z))) by apply HF3.
    change (eqm (refcount w3 (Zv z)) (refcount w0 (Zv z) + (if decide (z ∈ to_free w3) then 1 else 0))).
    rewrite <- Hcounts. apply eq_subrelation; [apply _|]. lia.
  - intros h. specialize (Hcounts (Ob h) eq_refl). simpl restored in Hcounts. unfold net, listed in Hcounts. rewrite Z.sub_0_r in Hcounts.
    destruct (Hw0 (Ob h)) as [_ <-]. rewrite <- (edges_to_object w0 ns) by (done || apply HF3).
    apply eqm_exact; [apply HF3| |done]. pose proof (Hcnt0 ns (Ob h) Hnd eq_refl). pose proof (Hu0 (Ob h)).
    pose proof (edges_nonneg (succ hd_of w0) ns (Ob h)). lia.
  - apply (collection_clean _ _ _ _ _ _ _ (symbol_table_leaf w0) _ _ _ _ _ _ _ _ C Hu0 Hcl0 Hcnt0 Hrooted).
Qed.
End spec.
