(* ===== verification/ZendObjectsStoreSpec.v ===== *)
(** What the object store promises: a finite map from handles to objects.

    The slots given up form an acyclic list through their first word; put
    takes from it or grows the array; a handle given out is not in use. *)

From stdpp Require Import relations.
From S2P Require Import Prelude Dll TrialDeletion ZendGcHeap ZendGc ZendGcSim ZendGcRoots ZendGcBuffer ZendGcRun.
From S2P Require Import ZendObjectsStore.

Implicit Types (s : zend_objects_store) (h : Z) (b : zend_object_store_bucket) (fl : list Z).

(** The slots linked from handle [p], -1 ending the list. *)
Fixpoint free_chain (bs : gmap Z zend_object_store_bucket) (p : Z) fl : Prop :=
  match fl with
  | [] => p = -1
  | h :: fl => p = h ∧ ∃ b n, bs !! h = Some b ∧ obj_object b = SNext n ∧ free_chain bs n fl
  end.

Definition slots s : gmap Z zend_object_store_bucket := default ∅ (object_buckets s).

(** The invariant of the store, with its free list [fl]. *)
Record store_ok s fl : Prop := {
  so_here : object_buckets s = Some (slots s);
  so_top : 1 <= top s <= os_size s;
  so_size : os_size s < 2 ^ 31;
  so_dom : ∀ h, is_Some (slots s !! h) ↔ 0 <= h < top s;
  so_chain : free_chain (slots s) (free_list_head s) fl;
  so_nodup : NoDup fl;
  so_free : ∀ h, h ∈ fl → 1 <= h < top s ∧ valid <$> slots s !! h = Some false;
  so_zero : valid <$> slots s !! 0 = Some false;
}.

(** The objects of the store, by handle. *)
Definition objects s : gmap Z zend_object_store_bucket := filter (λ hb, valid hb.2 = true) (slots s).

Lemma objects_lookup s h b : objects s !! h = Some b ↔ slots s !! h = Some b ∧ valid b = true.
Proof. unfold objects. by rewrite map_lookup_filter_Some. Qed.

Lemma objects_insert_valid s bs h b : slots s = <[h := b]> bs → valid b = true →
  objects s = <[h := b]> (filter (λ hb, valid hb.2 = true) bs).
Proof. intros Hs Hv. unfold objects. rewrite Hs. by rewrite map_filter_insert_True. Qed.

Lemma objects_insert_invalid s bs h b : slots s = <[h := b]> bs → valid b = false →
  objects s = delete h (filter (λ hb, valid hb.2 = true) bs).
Proof.
  intros Hs Hv. unfold objects. rewrite Hs. rewrite map_filter_insert_False by (simpl; congruence).
  by rewrite map_filter_delete.
Qed.

Lemma free_chain_ext bs bs' p fl : (∀ h, h ∈ fl → bs' !! h = bs !! h) → free_chain bs p fl → free_chain bs' p fl.
Proof.
  revert p. induction fl as [|h fl IH]; intros p He; [done|]. intros (-> & b & n & Hb & Hn & Hc). split; [done|].
  exists b, n. rewrite He by set_solver. split_and!; [done..|]. apply IH; [|done]. intros h' ?. apply He. set_solver.
Qed.

(** ** The start *)

Lemma store_init_ok blk n : 1 <= n < 2 ^ 31 → store_ok (zend_objects_store_init blk n) [] ∧ objects (zend_objects_store_init blk n) = ∅.
Proof.
  intros Hn. split.
  - split; simpl; try done; try lia; [|constructor|set_solver].
    intros h. unfold slots. simpl. destruct (decide (h = 0)) as [->|Hh].
    + rewrite lookup_singleton_eq. split; [lia|eauto].
    + rewrite lookup_singleton_ne by congruence. split; [by intros []|lia].
  - apply map_eq. intros h. rewrite lookup_empty. apply option_eq. intros b. rewrite objects_lookup. unfold slots. simpl.
    destruct (decide (h = 0)) as [->|Hh]; [rewrite lookup_singleton_eq|rewrite lookup_singleton_ne by congruence]; naive_solver.
Qed.

(** ** Entering *)

Section put.
Context `{Handlers} `{!Callbacks}.
Implicit Types (w : world).

Definition new_bucket (object dtor free_storage clone : nptr) : zend_object_store_bucket :=
  {| destructor_called := false; valid := true; apply_count := 0; obj_object := SObject object;
     obj_dtor := match dtor with Some _ => dtor | None => Some zend_objects_destroy_object end;
     obj_free_storage := free_storage; obj_clone := clone; obj_handlers := None;
     obj_refcount := 1; obj_buffered := gc_null |}.

(** The handle: the head of the free list, or the next slot never used. *)
Lemma take_handle_spec s fl : store_ok s fl → top s < 2 ^ 30 →
  ∃ h s' fl', take_handle s = OK (h, s') ∧ slots s' = slots s ∧ object_buckets s' = object_buckets s ∧
    1 <= top s' <= os_size s' ∧ os_size s' < 2 ^ 31 ∧ 1 <= h < top s' ∧ (∀ h', 0 <= h' < top s' ↔ h' = h ∨ 0 <= h' < top s) ∧
    objects s !! h = None ∧ free_chain (slots s) (free_list_head s') fl' ∧ (h :: fl' = fl ∨ h = top s ∧ fl = [] ∧ fl' = []).
Proof.
  intros [S1 S2 S3 S4 S5 S6 S7 S8] Ht. unfold take_handle. destruct fl as [|h fl]; simpl in S5.
  - rewrite S5, decide_True by done.
    assert (objects s !! top s = None) as Hnone.
    { apply eq_None_not_Some. intros [b [Hb _]%objects_lookup]. pose proof (proj1 (S4 (top s))) as Hd. rewrite Hb in Hd.
      specialize (Hd ltac:(eauto)). lia. }
    case_decide as Hg.
    + exists (top s), (set_top (grow s) (top s + 1)), []. unfold grow. simpl.
      rewrite (uint_wrap_id (top s + 1)), Z.shiftl_mul_pow2, uint_wrap_id by lia.
      split_and!; try done; try lia; first [by intros; lia|by right].
    + exists (top s), (set_top s (top s + 1)), []. simpl. rewrite (uint_wrap_id (top s + 1)) by lia.
      split_and!; try done; try lia; first [by intros; lia|by right].
  - destruct S5 as (-> & b & n & Hb & Hn & Hc). destruct (S7 h) as [Hh Hv]; [set_solver|].
    rewrite decide_False by lia. rewrite S1. ob. rewrite Hb. ob. rewrite Hn.
    exists h, (set_free_list_head s n), fl. split_and!; try done; try lia; first [by intros; simpl; lia|by left|idtac].
    apply eq_None_not_Some. intros [b' [Hb' ?]%objects_lookup]. rewrite Hb' in Hv. simpl in Hv. congruence.
Qed.

(** A new object gets a handle that is not in use, and nothing else changes. *)
Lemma store_put_spec object dtor fs cl w fl : store_ok (objects_store w) fl → top (objects_store w) < 2 ^ 30 →
  ∃ h w' fl', zend_objects_store_put object dtor fs cl w = OK (h, w') ∧ 1 <= h ∧ objects (objects_store w) !! h = None ∧
    objects (objects_store w') = <[h := new_bucket object dtor fs cl]> (objects (objects_store w)) ∧
    store_ok (objects_store w') fl' ∧ (h :: fl' = fl ∨ h = top (objects_store w) ∧ fl = [] ∧ fl' = []).
Proof.
  intros Hok Ht. destruct (take_handle_spec _ _ Hok Ht) as (h & s' & fl' & Htk & Hsl & Hbs & Htop & Hsz & Hh & Hdom & Hnone & Hc & Hfl).
  destruct Hok as [S1 S2 S3 S4 S5 S6 S7 S8]. unfold zend_objects_store_put. rewrite Htk. ob. rewrite Hbs, S1. ob.
  rewrite decide_True by lia. eexists h, _, fl'. split; [done|].
  match goal with |- context[objects_store (set_store w ?x)] => set (s1 := objects_store (set_store w x)) end.
  assert (slots s1 = <[h := new_bucket object dtor fs cl]> (slots (objects_store w))) as Hs1 by done.
  assert (top s1 = top s' ∧ os_size s1 = os_size s' ∧ free_list_head s1 = free_list_head s') as (Ht1 & Hz1 & Hf1) by done.
  assert (object_buckets s1 = Some (slots s1)) as Hb1 by done. clearbody s1.
  assert (NoDup fl' ∧ (∀ h', h' ∈ fl' → h' ≠ h ∧ h' ∈ fl)) as [Hnd' Hin'].
  { destruct Hfl as [<-|(-> & -> & ->)]; [|split; [constructor|set_solver]]. apply NoDup_cons in S6 as [? ?]. set_solver. }
  split_and!; [lia|done|by apply objects_insert_valid| |done].
  split; [done|by rewrite Ht1, Hz1|by rewrite Hz1| | |done| |].
  - intros h'. rewrite Hs1, Ht1, Hdom, <- S4.
    destruct (decide (h' = h)) as [->|Hne]; [rewrite lookup_insert_eq; naive_solver|rewrite lookup_insert_ne by done; naive_solver].
  - rewrite Hf1. eapply free_chain_ext; [|exact Hc]. intros h' Hh'. rewrite Hs1, lookup_insert_ne; [done|].
    destruct (Hin' h' Hh'); congruence.
  - intros h' Hh'. destruct (Hin' h' Hh') as [Hne Hin]. destruct (S7 h' Hin) as [Hr Hv].
    rewrite Ht1, Hs1, lookup_insert_ne by done. split; [|done]. pose proof (proj2 (Hdom h')) as Hd. lia.
  - rewrite Hs1, lookup_insert_ne by lia. done.
Qed.
End put.

(** ** Changing a slot *)

Section slots.
Context `{Handlers}.
Implicit Types (w : world).

Lemma slots_buckets w : slots (objects_store w) = buckets w.
Proof. done. Qed.

Lemma objects_bucket w h b : objects (objects_store w) !! h = Some b → buckets w !! h = Some b ∧ valid b = true.
Proof. rewrite objects_lookup. done. Qed.

(** A slot in use stays in use, whatever becomes of its fields. *)
Lemma store_upd_valid w h b b' fl : store_ok (objects_store w) fl → objects (objects_store w) !! h = Some b → valid b' = true →
  store_ok (objects_store (upd_slot w h b')) fl ∧
  objects (objects_store (upd_slot w h b')) = <[h := b']> (objects (objects_store w)).
Proof.
  intros [S1 S2 S3 S4 S5 S6 S7 S8] [Hb Hv]%objects_lookup Hv'.
  assert (slots (objects_store (upd_slot w h b')) = <[h := b']> (slots (objects_store w))) as Hs by done.
  assert (∀ h', valid <$> slots (objects_store w) !! h' = Some false → h' ≠ h) as Hne.
  { intros h' Hf ->. rewrite Hb in Hf. simpl in Hf. congruence. }
  split; [|by apply objects_insert_valid]. split; try done.
  - intros h'. rewrite Hs, lookup_insert_is_Some'. rewrite <- S4. naive_solver.
  - eapply free_chain_ext; [|exact S5]. intros h' Hh'. rewrite Hs, lookup_insert_ne; [done|]. by apply not_eq_sym, Hne, S7.
  - intros h' Hh'. destruct (S7 h' Hh') as [Hr Hf]. split; [done|]. rewrite Hs, lookup_insert_ne; [done|]. by apply not_eq_sym, Hne.
  - rewrite Hs, lookup_insert_ne; [done|]. by apply not_eq_sym, Hne.
Qed.

Lemma store_ok_handle w h b fl : store_ok (objects_store w) fl → objects (objects_store w) !! h = Some b →
  1 <= h < 2 ^ 31 ∧ h ∉ fl.
Proof.
  intros [S1 S2 S3 S4 S5 S6 S7 S8] [Hb Hv]%objects_lookup. pose proof (proj1 (S4 h) ltac:(eauto)) as Hr.
  split; [|intros Hin; destruct (S7 h Hin) as [_ Hf]; rewrite Hb in Hf; simpl in Hf; congruence].
  destruct (decide (h = 0)) as [->|]; [rewrite Hb in S8; simpl in S8; congruence|lia].
Qed.

(** A slot given up is the first to be used again. *)
Lemma add_to_free_list_spec w h b fl : store_ok (objects_store w) fl → objects (objects_store w) !! h = Some b →
  ∃ w' b', add_to_free_list h w = OK w' ∧ store_ok (objects_store w') (h :: fl) ∧
    objects (objects_store w') = delete h (objects (objects_store w)) ∧
    w' = set_store w (objects_store w') ∧ os_block (objects_store w') = os_block (objects_store w) ∧
    buckets w' !! h = Some b' ∧ valid b' = false ∧ obj_refcount b' = obj_refcount b.
Proof.
  intros Hok Hh. destruct (store_ok_handle _ _ _ _ Hok Hh) as [Hr Hfl]. pose proof (objects_bucket _ _ _ Hh) as [Hb Hv].
  unfold add_to_free_list. rewrite (bucket_ok _ _ _ Hb). ob. rewrite (bucket_upd_ok _ _ _ _ Hb). ob.
  set (b1 := obj_set_object (SNext (free_list_head (objects_store w))) (obj_handlers b) b).
  match goal with |- context[bucket ?w h] => set (w1 := w) end.
  assert (buckets w1 !! h = Some b1) as Hb1 by (apply lookup_insert_eq).
  rewrite (bucket_ok _ _ _ Hb1). ob. rewrite (bucket_upd_ok _ _ _ _ Hb1).
  set (b2 := bk_set_flags (destructor_called b1) false b1). exists (upd_slot w1 h b2), b2. split; [done|].
  assert (slots (objects_store (upd_slot w1 h b2)) = <[h := b2]> (slots (objects_store w))) as Hs.
  { change (<[h := b2]> (<[h := b1]> (slots (objects_store w))) = <[h := b2]> (slots (objects_store w))). by rewrite insert_insert_eq. }
  assert (free_list_head (objects_store (upd_slot w1 h b2)) = h) as Hf.
  { change (to_int h = h). unfold to_int. rewrite uint_wrap_id by lia. case_match; lia. }
  assert (objects (objects_store (upd_slot w1 h b2)) = delete h (objects (objects_store w))) as Ho.
  { by apply objects_insert_invalid with (b := b2). }
  split_and!; [|done|done|done| |done|done].
  - destruct Hok as [S1 S2 S3 S4 S5 S6 S7 S8]. split; try done; try (by constructor).
    + intros h'. change (is_Some (slots (objects_store (upd_slot w1 h b2)) !! h') ↔ 0 <= h' < top (objects_store w)).
      rewrite Hs, lookup_insert_is_Some', <- S4, slots_buckets. naive_solver.
    + rewrite Hf, Hs. split; [done|]. exists b2, (free_list_head (objects_store w)). rewrite lookup_insert_eq.
      split_and!; [done..|]. eapply free_chain_ext; [|exact S5]. intros h' Hh'. rewrite lookup_insert_ne; [done|]. set_solver.
    + intros h' [->|Hh']%elem_of_cons; rewrite Hs.
      * rewrite lookup_insert_eq. split; [|done]. pose proof (proj1 (S4 h) ltac:(eauto)) as Ht. change (1 <= h < top (objects_store w)). lia.
      * rewrite lookup_insert_ne by set_solver. by apply S7.
    + rewrite Hs, lookup_insert_ne by lia. done.
  - rewrite <- slots_buckets, Hs, lookup_insert_eq. done.
Qed.
End slots.

(** ** Giving up a reference *)

Section del_ref.
Context `{Handlers} `{!Callbacks}.
Implicit Types (w : world).

Lemma obj_write_ok h f b w : buckets w !! h = Some b → obj_write (get_obj h w) f w = OK (upd_slot w h (f b)).
Proof. intros Hb. unfold obj_write, get_obj. simpl. rewrite decide_True by done. by apply bucket_upd_ok. Qed.

Lemma has_store_bucket w h b : buckets w !! h = Some b → has_store w = true.
Proof. intros Hb. unfold has_store. apply bool_decide_true. rewrite (buckets_Some w h b) by done. eauto. Qed.

(** One of several references: only the count changes. *)
Lemma del_ref_shared h handlers b w fl : store_ok (objects_store w) fl → objects (objects_store w) !! h = Some b →
  obj_refcount b ≠ 1 →
  ∃ w', zend_objects_store_del_ref_by_handle_ex h handlers w = OK (w', false) ∧ store_ok (objects_store w') fl ∧
    objects (objects_store w') = <[h := obj_set_refcount (λ r, r - 1) b]> (objects (objects_store w)).
Proof.
  intros Hok Hh Hr. pose proof (objects_bucket _ _ _ Hh) as [Hb Hv].
  unfold zend_objects_store_del_ref_by_handle_ex. rewrite (has_store_bucket _ _ _ Hb). simpl.
  rewrite (bucket_ok _ _ _ Hb). ob. rewrite Hv, bool_decide_false by done. simpl.
  rewrite (obj_write_ok _ _ _ _ Hb). simpl. eexists. split; [done|]. by eapply store_upd_valid.
Qed.

(** The object [b] of the slot [h] leaves the root buffer [rs]: [w1] is [w] but
    for its collector word, which points nowhere, and the buffer, which loses
    [h] and nothing else. *)
Definition unbuffered (hd_of : Z → ptr) (rs : list node) h b w w1 : Prop := ∃ v l' rs',
  w1 = set_globals (upd_slot w h (obj_set_buffered (λ _, v) b)) (gc_globals w1) ∧ gc_address v = ANull ∧
  roots_ok hd_of w1 l' rs' ∧ (∀ n, n ∈ rs' ↔ n ∈ rs ∧ n ≠ Ob h).

Lemma gc_remove_zobj_spec hd_of w l rs h b : roots_ok hd_of w l rs → buckets w !! h = Some b → gc_active (gc_globals w) = false →
  gc_address (obj_buffered b) = ANull ∨ (∃ r, gc_address (obj_buffered b) = ARoot r) →
  ∃ w1, GC_REMOVE_ZOBJ_FROM_BUFFER h w = OK w1 ∧ unbuffered hd_of rs h b w w1.
Proof.
  intros Hro Hb Hact Ha. unfold GC_REMOVE_ZOBJ_FROM_BUFFER. rewrite (bucket_ok _ _ _ Hb). ob.
  assert (word w (Ob h) = obj_buffered b) as Hw by (simpl; by rewrite Hb).
  destruct Ha as [Ha|[r Ha]]; rewrite Ha.
  - exists w. split; [done|]. exists (obj_buffered b), l, rs. split_and!; [|done|done|].
    + assert (obj_set_buffered (λ _, obj_buffered b) b = b) as -> by by destruct b.
      pose proof (buckets_Some _ _ _ Hb) as Hs. unfold upd_slot. rewrite insert_id by done. rewrite <- Hs.
      destruct w as [? ? ? [] ? ?]. done.
    + intros n. split; [|tauto]. intros Hn. split; [done|]. intros ->. revert Hn. eapply unrooted; [done|]. by rewrite Hw.
  - rewrite Hact. set (b' := obj_set_buffered (λ _, gc_null) b).
    assert ((r, Ob h) ∈ zip l rs) as Hin by (apply (rk_addr _ _ _ _ Hro); by rewrite Hw).
    destruct (zip_split _ _ _ _ Hin) as (l1 & l2 & k1 & k2 & -> & -> & Hlen).
    destruct (remove_root_ok hd_of w l1 r l2 k1 (Ob h) k2 Hro Hlen (upd_slot w h b')) as (w2 & Hr & Hro2 & _).
    + by eapply shape_upd_slot.
    + done.
    + intros n' r'. rewrite word_upd_slot. case_decide; [|tauto]. simpl. split; [done|tauto].
    + unfold remove_root in *. change (gc_globals (upd_slot w h b')) with (gc_globals w) in Hr.
      destruct (gc_remove_from_buffer r (gc_globals w)) as [g| |]; [|done..]. simpl in Hr. injection Hr as <-. ob.
      rewrite (bucket_upd_ok _ _ _ b) by done. eexists. split; [done|].
      exists gc_null, (l1 ++ l2), (k1 ++ k2). split_and!; [done|done|exact Hro2|].
      assert (Ob h ∉ k1 ++ k2) as Hout.
      { eapply unrooted; [exact Hro2|]. rewrite word_set_globals, word_upd_slot, decide_True by done. done. }
      intros n. rewrite !elem_of_app, elem_of_cons in *. split; [|tauto]. intros Hn. split; [tauto|]. intros ->. tauto.
Qed.

(** What a callback has to respect for the slot [h]: the store is in order,
    and the slot is still in use. *)
Definition slot_kept h b w : Prop := objects (objects_store w) !! h = Some b ∧ ∃ fl, store_ok (objects_store w) fl.

Definition free_storage_world h b w : world * bool :=
  match obj_free_storage b with Some f => call_free_storage f (obj_object b) w | None => (w, false) end.

(** The destructor's part: it is called unless it has been called before, with
    the slot marked and, when the caller brings handlers and the object has
    none, the handlers stored. *)
Definition destructor_world h (handlers : nptr) b w : world * bool :=
  if destructor_called b then (w, false)
  else
    let marked := bk_set_flags true (valid b) b in
    match obj_dtor b with
    | None => (upd_slot w h marked, false)
    | Some dtor =>
        let hd := match obj_handlers b with Some _ => obj_handlers b | None => handlers end in
        call_dtor dtor (obj_object b) h (upd_slot w h (obj_set_object (obj_object b) hd marked))
    end.

Lemma del_ref_dtor_spec h handlers b w : buckets w !! h = Some b →
  del_ref_dtor h handlers w = OK (destructor_world h handlers b w).
Proof.
  intros Hb. unfold del_ref_dtor, destructor_world. rewrite (bucket_ok _ _ _ Hb). ob.
  destruct (destructor_called b); [done|]. rewrite (bucket_upd_ok _ _ _ _ Hb). ob. fold (upd_slot w h (bk_set_flags true (valid b) b)).
  destruct (obj_dtor b) as [dtor|]; [|done]. set (marked := bk_set_flags true (valid b) b).
  assert (buckets (upd_slot w h marked) !! h = Some marked) as Hm by (apply lookup_insert_eq).
  destruct handlers as [hd|], (obj_handlers b) as [hd'|] eqn:Ehd; ob;
    try (assert (obj_set_object (obj_object b) (obj_handlers b) marked = marked) as Hsame by by destruct b);
    rewrite ?Ehd in Hsame; rewrite ?Hsame; try done.
  rewrite (bucket_upd_ok _ _ _ _ Hm). ob. do 2 f_equal. unfold upd_slot at 1. rewrite buckets_upd_slot, insert_insert_eq. done.
Qed.

(** The last reference, after the destructor has had its say: the storage is
    freed and the handle given up; [w1] is the world the storage function is
    called in. *)
Lemma del_ref_free_spec hd_of l rs h b w : roots_ok hd_of w l rs → gc_active (gc_globals w) = false →
  gc_address (obj_buffered b) = ANull ∨ (∃ r, gc_address (obj_buffered b) = ARoot r) → slot_kept h b w →
  ∃ w1, unbuffered hd_of rs h b w w1 ∧
    ∀ w2 failure b2, free_storage_world h b w1 = (w2, failure) → slot_kept h b2 w2 →
    ∃ s b3 fl, del_ref_free h w = OK (set_store w2 s, failure) ∧ store_ok s (h :: fl) ∧
      objects s = delete h (objects (objects_store w2)) ∧
      os_block s = os_block (objects_store w2) ∧ slots s !! h = Some b3 ∧ valid b3 = false.
Proof.
  intros Hro Hact Ha [Hh [fl Hok]]. pose proof (objects_bucket _ _ _ Hh) as [Hb Hv].
  destruct (gc_remove_zobj_spec _ _ _ _ _ _ Hro Hb Hact Ha) as (w1 & Hrm & Hun). exists w1. split; [done|].
  destruct Hun as (v & _ & _ & Hw1 & _). set (b1 := obj_set_buffered (λ _, v) b) in *.
  intros w2 failure b2 Hfs [Hh2 [fl2 Hok2]]. unfold del_ref_free. rewrite Hrm. ob.
  assert (buckets w1 !! h = Some b1) as Hb1. { rewrite Hw1. apply lookup_insert_eq. }
  rewrite (bucket_ok _ _ _ Hb1). ob. unfold free_storage_world in Hfs.
  change (obj_free_storage b1) with (obj_free_storage b). change (obj_object b1) with (obj_object b). rewrite Hfs.
  destruct (add_to_free_list_spec w2 h b2 fl2 Hok2 Hh2) as (w3 & b3 & -> & Hok3 & Ho3 & Hw3 & Hblk & Hb3 & Hv3 & _). ob.
  exists (objects_store w3), b3, fl2. rewrite <- Hw3. split_and!; done.
Qed.

(** Slots not in use may change their counts. *)
Lemma store_upd_free w h b fl : store_ok (objects_store w) (h :: fl) → buckets w !! h = Some b → valid b = false →
  store_ok (objects_store (upd_slot w h (obj_set_refcount (λ r, r - 1) b))) (h :: fl) ∧
  objects (objects_store (upd_slot w h (obj_set_refcount (λ r, r - 1) b))) = objects (objects_store w).
Proof.
  intros [S1 S2 S3 S4 S5 S6 S7 S8] Hb Hv. set (b' := obj_set_refcount (λ r, r - 1) b).
  assert (slots (objects_store (upd_slot w h b')) = <[h := b']> (slots (objects_store w))) as Hs by done.
  assert (objects (objects_store (upd_slot w h b')) = objects (objects_store w)) as Ho.
  { rewrite (objects_insert_invalid _ _ _ _ Hs) by done. apply delete_id. apply eq_None_not_Some.
    intros [b0 [Hb0 ?]%objects_lookup]. rewrite slots_buckets in Hb0. congruence. }
  split; [|done]. split; try done.
  - intros h'. rewrite Hs, lookup_insert_is_Some', <- (S4 h'), slots_buckets. naive_solver.
  - simpl in S5. destruct S5 as (Hh & b0 & n & Hb0 & Hn & Hc). rewrite slots_buckets in Hb0. split; [done|].
    exists b', n. rewrite Hs, lookup_insert_eq. split_and!; [done|by simplify_eq|].
    eapply free_chain_ext; [|exact Hc]. intros h' Hh'. rewrite lookup_insert_ne; [done|]. apply NoDup_cons in S6 as [? _]. set_solver.
  - intros h' Hh'. destruct (S7 h' Hh') as [Hr Hf]. split; [done|]. rewrite Hs. destruct (decide (h' = h)) as [->|].
    + rewrite lookup_insert_eq. simpl. by rewrite Hv.
    + by rewrite lookup_insert_ne.
  - rewrite Hs. destruct (decide (0 = h)) as [<-|]; [rewrite lookup_insert_eq; simpl; by rewrite Hv|by rewrite lookup_insert_ne].
Qed.

(** [zend_objects_store_del_ref_by_handle_ex] on the last reference.  The
    destructor leaves [w1], in which the object is [b1]:
    - if it has been referenced again, only the count changes;
    - otherwise its storage is freed, and its handle is the next to be used. *)
Lemma del_ref_last hd_of l rs h handlers b w w1 f1 b1 :
  objects (objects_store w) !! h = Some b → obj_refcount b = 1 →
  destructor_world h handlers b w = (w1, f1) → slot_kept h b1 w1 →
  if decide (obj_refcount b1 = 1) then
    roots_ok hd_of w1 l rs → gc_active (gc_globals w1) = false →
    gc_address (obj_buffered b1) = ANull ∨ (∃ r, gc_address (obj_buffered b1) = ARoot r) →
    ∃ w2, unbuffered hd_of rs h b1 w1 w2 ∧
    ∀ w3 f2 b3, free_storage_world h b1 w2 = (w3, f2) → slot_kept h b3 w3 →
      if decide (os_block (objects_store w3) = os_block (objects_store w1)) then
        ∃ s fl, zend_objects_store_del_ref_by_handle_ex h handlers w = OK (set_store w3 s, f1 || f2) ∧
          objects s = delete h (objects (objects_store w3)) ∧ store_ok s (h :: fl)
      else zend_objects_store_del_ref_by_handle_ex h handlers w = UB
  else
    ∃ w' fl, zend_objects_store_del_ref_by_handle_ex h handlers w = OK (w', f1) ∧
      w' = upd_slot w1 h (obj_set_refcount (λ r, r - 1) b1) ∧ store_ok (objects_store w') fl ∧
      objects (objects_store w') = <[h := obj_set_refcount (λ r, r - 1) b1]> (objects (objects_store w1)).
Proof.
  intros Hh Hr Hd Hk1. pose proof (objects_bucket _ _ _ Hh) as [Hb Hv]. pose proof Hk1 as [Hh1 [fl1 Hok1]].
  pose proof (objects_bucket _ _ _ Hh1) as [Hb1 Hv1].
  unfold zend_objects_store_del_ref_by_handle_ex. rewrite (has_store_bucket _ _ _ Hb). cbn [negb].
  rewrite (bucket_ok _ _ _ Hb). ob. rewrite Hv, bool_decide_true by done. cbn [andb].
  rewrite (del_ref_dtor_spec _ _ _ _ Hb), Hd. ob.
  assert (obj_read (get_obj h w1) w1 = OK b1) as ->.
  { unfold obj_read, get_obj. cbn. rewrite decide_True by done. by apply bucket_ok. }
  ob. destruct (decide (obj_refcount b1 = 1)) as [Hr1|Hr1].
  - intros Hro Hact Ha. destruct (del_ref_free_spec _ _ _ _ _ _ Hro Hact Ha Hk1) as (w2 & Hun & Hfree).
    exists w2. split; [done|]. intros w3 f2 b3 Hfs Hk3.
    destruct (Hfree w3 f2 b3 Hfs Hk3) as (s4 & b4 & fl & -> & Hok4 & Ho4 & Hblk4 & Hb4 & Hv4). ob.
    rewrite <- Hblk4. set (w4 := set_store w3 s4). assert (buckets w4 !! h = Some b4) as Hb4' by done.
    assert (s4 = objects_store w4) as Hs4 by done. rewrite Hs4 in Hok4, Ho4 |- *. case_decide as Hblk.
    + unfold obj_write, get_obj. cbn [fst snd]. rewrite decide_True by done. rewrite (bucket_upd_ok _ _ _ _ Hb4'). ob.
      destruct (store_upd_free _ _ _ _ Hok4 Hb4' Hv4) as [Hok5 Ho5].
      exists (objects_store (upd_slot w4 h (obj_set_refcount (λ r, r - 1) b4))), fl.
      split; [done|]. split; [by rewrite Ho5|done].
    + unfold obj_write, get_obj. cbn [fst snd]. by rewrite decide_False.
  - unfold obj_write, get_obj. cbn. rewrite decide_True by done. rewrite (bucket_upd_ok _ _ _ _ Hb1). ob.
    destruct (store_upd_valid w1 h b1 (obj_set_refcount (λ r, r - 1) b1) fl1) as [Hok2 Ho2]; [done..|].
    eexists _, fl1. split_and!; done.
Qed.
End del_ref.

(** ** Shutdown *)

Section shutdown.
Context `{Handlers} `{!Callbacks}.
Implicit Types (w : world) (i j : Z).

Lemma for_handles_ok (I : Z → world → Prop) body n fuel : ∀ i w, I i w → top (objects_store w) = n → n - i <= Z.of_nat fuel →
  (∀ j w, I j w → i <= j < n → top (objects_store w) = n → ∃ w', body j w = OK w' ∧ I (j + 1) w' ∧ top (objects_store w') = n) →
  i <= n → ∃ w', for_handles fuel i body w = OK w' ∧ I n w' ∧ top (objects_store w') = n.
Proof.
  induction fuel as [|fuel IH]; intros i w HI Ht Hf Hb Hi; simpl; rewrite Ht.
  - rewrite decide_False by lia. exists w. assert (i = n) as -> by lia. done.
  - case_decide as Hlt; [|exists w; by assert (i = n) as -> by lia].
    destruct (Hb i w HI) as (w1 & -> & HI1 & Ht1); [lia|done|]. ob. apply IH; [done|done|lia| |lia].
    intros j w' ? ? ?. apply Hb; [done|lia|done].
Qed.

(** [zend_objects_store_mark_destructed]: no destructor will be called any
    more; nothing else changes. *)
Lemma mark_destructed_spec w fl : store_ok (objects_store w) fl →
  ∃ w', zend_objects_store_mark_destructed w = OK w' ∧ store_ok (objects_store w') fl ∧
    (∀ h, objects (objects_store w') !! h = bk_set_flags true true <$> objects (objects_store w) !! h) ∧
    top (objects_store w') = top (objects_store w).
Proof.
  intros Hok. pose proof Hok as [S1 S2 S3 S4 S5 S6 S7 S8]. unfold zend_objects_store_mark_destructed.
  assert (has_store w = true) as ->. { unfold has_store. apply bool_decide_true. rewrite S1. eauto. }
  destruct (for_handles_ok (λ i w', store_ok (objects_store w') fl ∧ ∀ h, objects (objects_store w') !! h =
      (if decide (h < i) then bk_set_flags true true else id) <$> objects (objects_store w) !! h) mark_destructed
      (top (objects_store w)) (Z.to_nat (top (objects_store w))) 1 w) as (w' & Hw' & (Hok' & Hobj) & Htop); [|done|lia| |lia|].
  - split; [done|]. intros h. case_decide as Hh; [|by rewrite option_fmap_id].
    destruct (objects (objects_store w) !! h) as [b|] eqn:E; [|done]. destruct (store_ok_handle w h b fl Hok E). lia.
  - intros j w1 [Hok1 Ho1] Hj Ht1. destruct (proj2 (so_dom _ _ Hok1 j)) as [b Hb]; [lia|]. rewrite slots_buckets in Hb.
    unfold mark_destructed. rewrite (bucket_ok _ _ _ Hb). ob. destruct (valid b) eqn:Hv.
    + rewrite (bucket_upd_ok _ _ _ _ Hb). eexists. split; [done|]. assert (objects (objects_store w1) !! j = Some b) as Hj1.
      { by apply objects_lookup. }
      destruct (store_upd_valid w1 j b (bk_set_flags true true b) fl Hok1 Hj1) as [Hok2 Ho2]; [done|].
      split; [|done]. split; [done|]. intros h. rewrite Ho2. destruct (decide (h = j)) as [->|Hh].
      * rewrite lookup_insert_eq. rewrite Ho1 in Hj1. rewrite decide_False in Hj1 by lia. rewrite decide_True by lia.
        destruct (objects (objects_store w) !! j); simplify_eq/=; done.
      * rewrite lookup_insert_ne, Ho1 by done. repeat case_decide; done || lia.
    + eexists. split; [done|]. split; [|done]. split; [done|]. intros h. rewrite Ho1. destruct (decide (h = j)) as [->|Hh].
      * assert (objects (objects_store w1) !! j = None) as Hn.
        { apply eq_None_not_Some. intros [b' [Hb' ?]%objects_lookup]. rewrite slots_buckets in Hb'. congruence. }
        rewrite Ho1 in Hn. apply fmap_None in Hn. by rewrite Hn.
      * repeat case_decide; done || lia.
  - exists w'. split_and!; [done|done| |done]. intros h. rewrite Hobj. case_decide as Hh; [done|].
    destruct (objects (objects_store w) !! h) as [b|] eqn:E; [|done]. apply objects_lookup in E as [E _].
    pose proof (proj1 (S4 h) ltac:(eauto)). lia.
Qed.

(** Where every destructor has been called or marked as called,
    [zend_objects_store_call_destructors] does nothing. *)
Lemma call_destructors_none w fl fuel : store_ok (objects_store w) fl →
  (∀ h b, objects (objects_store w) !! h = Some b → destructor_called b = true) →
  top (objects_store w) <= Z.of_nat fuel → zend_objects_store_call_destructors fuel w = OK w.
Proof.
  intros Hok Hd Hf. unfold zend_objects_store_call_destructors. pose proof (so_top _ _ Hok).
  destruct (for_handles_ok (λ _ w', w' = w) call_destructor (top (objects_store w)) fuel 1 w) as (w' & -> & -> & _); [done|done|lia| |lia|done].
  intros j w1 -> Hj Ht. exists w. split; [|done]. destruct (proj2 (so_dom _ _ Hok j)) as [b Hb]; [lia|].
  unfold call_destructor. rewrite slots_buckets in Hb. rewrite (bucket_ok _ _ _ Hb). ob.
  destruct (valid b) eqn:Hv; [|done]. rewrite (Hd j b); [done|]. by apply objects_lookup.
Qed.
End shutdown.
