(* ===== verification/ZendGcPossible.v ===== *)
(** Entering possible roots; the destruction of the garbage. *)

From stdpp Require Import relations.
From S2P Require Import Prelude Dll TrialDeletion ZendGcHeap ZendGc ZendGcSim ZendGcCollect ZendGcRoots ZendGcBuffer ZendGcRun ZendObjectsStore ZendGcCycles ZendGcSpec.

(** * Possible roots *)

Section possible.
Context `{Handlers} `{!Callbacks} `{!Destroyers} (hd_of : Z → ptr).
Implicit Types (w : world) (z r : ptr) (h : Z) (n : node) (l u : list ptr) (rs : list node).

(** The buffer and the nodes that point into it. *)
Record buffer_ok w l rs u first : Prop := {
  bf_roots : roots_ok hd_of w l rs;
  bf_buf : buf_ok (gc_globals w) l u first;
}.

(** [n] has become the first root; no count, and the word of no other node,
    has changed. *)
Definition entered w n l rs w' : Prop :=
  ∃ r u first, buffer_ok w' (r :: l) (n :: rs) u first ∧ shape w' = shape w ∧
    (∀ x, refcount w' x = refcount w x) ∧
    ∀ x, word w' x = if decide (x = n) then GcWord (ARoot r) GC_PURPLE else word w x.

Lemma enter_ok w l rs u first n w' m x g' u' first' :
  buffer_ok w l rs u first → gc_address (word w n) = ANull →
  shape w' = shape w → gc_globals w' = set_root_mem m g' → ring GC_ROOTS (lks m) (x :: l) → buf_ok (set_root_mem m g') (x :: l) u' first' →
  (∀ r, r ≠ x → load m r = load (root_mem (gc_globals w)) r) → entry_ok hd_of w' x n → x ∉ l →
  (∀ y, refcount w' y = refcount w y) →
  (∀ y, word w' y = if decide (y = n) then GcWord (ARoot x) GC_PURPLE else word w y) →
  entered w n l rs w'.
Proof.
  intros [[R1 R2 R3] Hb] Hn Hs Hg Hr Hbuf Hload He Hx Hrc Hw. exists x, u', first'. split_and!; [|done..].
  split; [|by rewrite Hg]. split; [by rewrite Hg| |].
  - constructor; [done|]. apply Forall2_same_length_lookup in R2 as [Hlen R2]. apply Forall2_same_length_lookup. split; [done|].
    intros i r y Hi Hy. apply (entry_ok_ext hd_of w w'); [done| |by eapply R2]. rewrite Hg. simpl. apply Hload.
    intros ->. apply Hx. by eapply list_elem_of_lookup_2.
  - intros y r. simpl. rewrite elem_of_cons, pair_eq, Hw. case_decide as Hy.
    + subst. simpl. split; [intros [= ->]; auto|]. intros [[-> _]|Hin]; [done|]. apply R3 in Hin. congruence.
    + rewrite R3. tauto.
Qed.

(** An entry is taken and linked. *)
Lemma take_link w l rs u first h v : buffer_ok w l rs u first → (length l < Pos.to_nat GC_ROOT_BUFFER_MAX_ENTRIES)%nat →
  ∃ r g' m u' first', gc_take_entry (gc_globals w) = OK (Some (r, g')) ∧ (r ∉ l) ∧
    gc_link_root r h v g' = OK (set_root_mem m g') ∧ ring GC_ROOTS (lks m) (r :: l) ∧ buf_ok (set_root_mem m g') (r :: l) u' first' ∧
    load m r = Some (h, Some v) ∧ (∀ q, q ≠ r → load m q = load (root_mem (gc_globals w)) q).
Proof.
  intros [Hro Hb] Hroom. pose proof (buf_room _ _ _ _ Hb Hroom) as Hnone.
  destruct (gc_take_entry_ok _ _ _ _ Hb) as [(r & g' & u' & first' & Ht & Hr & Hmem & Hbuf)|[Hn _]]; [|done].
  destruct (gc_link_spec g' l r h v) as (m & Hl & Hring & Hload & Hout); [rewrite Hmem; apply Hro|done|].
  exists r, g', m, u', first'. split_and!; [done|set_solver|done|done| | |].
  - apply Hbuf; [done|]. intros q Hq. rewrite Hout, Hmem; done.
  - by rewrite Hload, decide_True.
  - intros q Hq. by rewrite Hload, decide_False, Hmem.
Qed.

(** A zval that is no object and is not in the buffer. *)
Lemma zval_possible_root_enters w l rs u first z x :
  buffer_ok w l rs u first → (length l < Pos.to_nat GC_ROOT_BUFFER_MAX_ENTRIES)%nat →
  zvals w !! z = Some x → (∀ h hd, z_value x ≠ IS_OBJECT h hd) →
  gc_address (u_buffered x) = ANull → gc_get_color (u_buffered x) ≠ GC_PURPLE →
  ∃ w', gc_zval_possible_root z w = OK w' ∧ entered w (Zv z) l rs w'.
Proof.
  intros Hok Hroom Hx Hv Ha Hc. unfold gc_zval_possible_root. rewrite (zv_ok _ _ _ Hx). ob.
  rewrite bool_decide_false by tauto. cbn [andb].
  assert (∀ (f : Z → ptr → outcome world) (B : outcome world), match z_value x with IS_OBJECT h hd => f h hd | _ => B end = B) as Hm.
  { intros f B. destruct (z_value x) as [|ht|h hd]; [done..|]. by destruct (Hv h hd). }
  destruct (take_link w l rs u first 0 (u_pz z) Hok Hroom) as (r & g' & m & u' & first' & Ht & Hr & Hl & Hring & Hbuf & Hlr & Hlo).
  rewrite Hm, decide_False, decide_True by done. unfold new_entry. rewrite Ht. ob.
  rewrite (zv_upd_ok _ _ _ x) by done. ob. unfold link_root. change (gc_globals (upd_zval _ _ _)) with g'. rewrite Hl. ob.
  rewrite (zv_upd_ok _ _ _ (zv_set_u gc_set_purple x)) by (apply lookup_insert_eq).
  eexists. split; [done|]. apply (enter_ok w l rs u first (Zv z) _ m r g' u' first'); [done|by simpl; rewrite Hx| |done|done|done|done| |done| |].
  - etrans; [eapply shape_upd_zval; [apply lookup_insert_eq|done]|]. transitivity (shape (upd_zval (set_globals w g') z (zv_set_u gc_set_purple x))); [done|].
    by rewrite (shape_upd_zval (set_globals w g') z x).
  - split; [exact Hlr|]. simpl. rewrite lookup_insert_eq. eauto.
  - intros y. rewrite refcount_upd_zval. case_decide; [subst; simpl; by rewrite Hx|].
    rewrite refcount_set_globals, refcount_upd_zval. by rewrite decide_False, refcount_set_globals.
  - intros y. rewrite word_upd_zval. case_decide; [done|].
    rewrite word_set_globals, word_upd_zval. by rewrite decide_False, word_set_globals.
Qed.

(** A zval that is purple already. *)
Lemma zval_possible_root_purple w z x : zvals w !! z = Some x → (∀ h hd, z_value x ≠ IS_OBJECT h hd) →
  gc_get_color (u_buffered x) = GC_PURPLE → gc_zval_possible_root z w = OK w.
Proof.
  intros Hx Hv Hc. unfold gc_zval_possible_root. rewrite (zv_ok _ _ _ Hx). ob.
  destruct (_ && _); [done|]. destruct (z_value x) as [| |h hd]; [by rewrite decide_True..|by destruct (Hv h hd)].
Qed.

(** A live object with a [get_gc] handler that is not in the buffer. *)
Lemma zobj_possible_root_enters w l rs u first z h b :
  buffer_ok w l rs u first → (length l < Pos.to_nat GC_ROOT_BUFFER_MAX_ENTRIES)%nat →
  buckets w !! h = Some b → valid b = true → h ≠ 0 → is_Some (get_gc (hd_of h)) →
  gc_address (obj_buffered b) = ANull → gc_get_color (obj_buffered b) ≠ GC_PURPLE →
  ∃ w', GC_ZOBJ_CHECK_POSSIBLE_ROOT z h (hd_of h) w = OK w' ∧ entered w (Ob h) l rs w'.
Proof.
  intros Hok Hroom Hb Hv Hh [g Hg] Ha Hc. unfold GC_ZOBJ_CHECK_POSSIBLE_ROOT, gc_zobj_possible_root.
  assert (has_store w = true) as ->. { unfold has_store. apply bool_decide_true. rewrite (buckets_Some w h b) by done. eauto. }
  rewrite (bucket_ok _ _ _ Hb). ob. rewrite Hv, Hg, decide_False, decide_True by done.
  destruct (take_link w l rs u first h (u_handlers (hd_of h)) Hok Hroom) as (r & g' & m & u' & first' & Ht & Hr & Hl & Hring & Hbuf & Hlr & Hlo).
  unfold new_entry. rewrite Ht. ob.
  rewrite (bucket_upd_ok _ _ _ b) by done. ob. unfold link_root. change (gc_globals (upd_slot _ _ _)) with g'. rewrite Hl. ob.
  rewrite (bucket_upd_ok _ _ _ (obj_set_buffered gc_set_purple b)) by (apply lookup_insert_eq).
  eexists. split; [done|]. apply (enter_ok w l rs u first (Ob h) _ m r g' u' first'); [done|by simpl; rewrite Hb| |done|done|done|done| |done| |].
  - etrans; [eapply shape_upd_slot; [apply lookup_insert_eq|done]|]. transitivity (shape (upd_slot (set_globals w g') h (obj_set_buffered gc_set_purple b))); [done|].
    by rewrite (shape_upd_slot (set_globals w g') h b).
  - split_and!; [exact Hlr|done|]. rewrite buckets_upd_slot, lookup_insert_eq. eauto.
  - intros y. rewrite refcount_upd_slot. case_decide; [subst; simpl; by rewrite Hb|].
    rewrite refcount_set_globals, refcount_upd_slot. by rewrite decide_False, refcount_set_globals.
  - intros y. rewrite word_upd_slot. case_decide; [done|].
    rewrite word_set_globals, word_upd_slot. by rewrite decide_False, word_set_globals.
Qed.

(** ** Freeing a zval *)

(** A zval that no root stands for can go. *)
Lemma roots_ok_delete w l rs z : roots_ok hd_of w l rs → Zv z ∉ rs → roots_ok hd_of (set_zvals w (delete z (zvals w))) l rs.
Proof.
  intros [R1 R2 R3] Hz. split; [done| |].
  - apply Forall2_same_length_lookup in R2 as [Hlen R2]. apply Forall2_same_length_lookup. split; [done|].
    intros i r n Hi Hn. specialize (R2 i r n Hi Hn). destruct n as [y|]; [|done]. destruct R2 as [? ?]. split; [done|].
    simpl. rewrite lookup_delete_ne; [done|]. intros ->. apply Hz. by eapply list_elem_of_lookup_2.
  - intros n r. rewrite <- R3. destruct n as [y|]; [|done]. simpl. destruct (decide (y = z)) as [->|]; [|by rewrite lookup_delete_ne].
    rewrite lookup_delete_eq. simpl. split; [done|]. intros Hr. exfalso. apply Hz. apply (elem_of_zip_r r _ l), R3. exact Hr.
Qed.

(** [FREE_ZVAL] outside a collection: the zval's entry leaves the buffer, so
    that no root dangles. *)
Lemma free_zval_ok w l rs u first z x :
  buffer_ok w l rs u first → zvals w !! z = Some x →
  free_list (gc_globals w) = ANull → gc_address (u_buffered x) = ANull ∨ (∃ r, gc_address (u_buffered x) = ARoot r) →
  ∃ w' l' rs' u', FREE_ZVAL z w = OK w' ∧ zvals w' = delete z (zvals w) ∧ (Zv z ∉ rs') ∧ buffer_ok w' l' rs' u' first.
Proof.
  intros [Hro Hb] Hx Hf Ha. unfold FREE_ZVAL, GC_REMOVE_ZVAL_FROM_BUFFER, FREE_ZVAL_EX. rewrite (zv_ok _ _ _ Hx). ob.
  assert (word w (Zv z) = u_buffered x) as Hw by (simpl; by rewrite Hx).
  destruct Ha as [Ha|[r Ha]].
  - rewrite decide_True by done. ob. rewrite (zv_ok _ _ _ Hx). ob.
    assert (Zv z ∉ rs) as Hz by (eapply unrooted; [done|by rewrite Hw]).
    exists (set_zvals w (delete z (zvals w))), l, rs, u. split_and!; [done|done|done|]. split; [by apply roots_ok_delete|done].
  - rewrite decide_False by congruence. unfold gc_remove_zval_from_buffer. rewrite (zv_ok _ _ _ Hx). ob.
    unfold being_freed. rewrite bool_decide_false by (rewrite Hf; tauto). cbn [andb]. rewrite Ha.
    set (x' := zv_set_u (λ _, gc_null) x).
    assert ((r, Zv z) ∈ zip l rs) as Hin by (apply (rk_addr _ _ _ _ Hro); by rewrite Hw).
    destruct (zip_split _ _ _ _ Hin) as (l1 & l2 & k1 & k2 & -> & -> & Hlen).
    destruct (remove_root_ok hd_of w l1 r l2 k1 (Zv z) k2 Hro Hlen (upd_zval w z x')) as (w2 & Hr & Hro2 & _).
    + by eapply shape_upd_zval.
    + done.
    + intros n' r'. rewrite word_upd_zval. case_decide; [|tauto]. simpl. split; [done|tauto].
    + destruct (gc_remove_buf_ok _ _ _ _ _ _ Hb) as (g & Hg & Hb2).
      unfold remove_root in *. change (gc_globals (upd_zval w z x')) with (gc_globals w) in Hr.
      rewrite Hg in *. simpl in Hr. injection Hr as <-. ob. rewrite (zv_upd_ok _ _ _ x) by done. ob.
      match goal with |- context[zv ?w z] => set (w3 := w) in * end.
      rewrite (zv_ok w3 z x') by apply lookup_insert_eq. ob.
      eexists _, (l1 ++ l2), (k1 ++ k2), (r :: u). split_and!; [done|apply delete_insert_eq| |].
      * eapply unrooted; [exact Hro2|]. simpl. by rewrite lookup_insert_eq.
      * split; [|exact Hb2]. apply (roots_ok_delete w3); [exact Hro2|]. eapply unrooted; [exact Hro2|]. simpl. by rewrite lookup_insert_eq.
Qed.
End possible.

(** * The second half of [gc_collect_cycles] *)

Section walks.
Context `{Handlers}.
Implicit Types (w : world) (z : ptr) (p q : gc_addr) (l L : list ptr).

Lemma next_of_ok w z q : is_Some (zvals w !! z) → word w (Zv z) = gc_next q → next_of z w = OK q.
Proof.
  intros [x Hx] Hw. unfold next_of. rewrite (zv_ok _ _ _ Hx). ob. simpl in Hw. rewrite Hx in Hw. simpl in Hw. rewrite Hw.
  by rewrite decide_True.
Qed.

(** The list [L] of the world [w3] is still there. *)
Definition intact L w3 w : Prop := ∀ z, z ∈ L → is_Some (zvals w !! z) ∧ word w (Zv z) = word w3 (Zv z).

Lemma call_list_dtors_ok (J : world → Prop) body L w3 : (∀ w, J w → intact L w3 w) →
  (∀ z w, z ∈ L → J w → ∃ w', body z w = OK w' ∧ J w') →
  ∀ l p w fuel, on_list w3 p l → l ⊆ L → (length l ≤ fuel)%nat → J w →
  ∃ w', call_list_dtors body fuel p w = OK (Z.of_nat (length l), w') ∧ J w'.
Proof.
  intros HJ Hb. induction l as [|z l IH]; intros p w fuel Hl Hsub Hf Hw; simpl in Hl.
  - subst. exists w. by destruct fuel.
  - destruct Hl as (-> & q & Hq & Hl). destruct fuel as [|fuel]; simpl in Hf; [lia|]. simpl.
    destruct (Hb z w ltac:(set_solver) Hw) as (w1 & -> & Hw1). ob.
    destruct (HJ w1 Hw1 z ltac:(set_solver)) as [Hz Hwd]. rewrite (next_of_ok _ _ q) by first [done|by rewrite Hwd]. ob.
    destruct (IH q w1 fuel Hl ltac:(set_solver) ltac:(lia) Hw1) as (w2 & -> & Hw2). ob. exists w2. split; [|done].
    do 2 f_equal. lia.
Qed.

Lemma destroy_list_ok (J : world → Prop) body L w3 : (∀ w, J w → intact L w3 w) →
  (∀ q w, J w → J (on_globals (λ g, set_lists (free_list g) q g) w)) →
  (∀ z w, z ∈ L → J w → ∃ w', body z w = OK w' ∧ J w' ∧ next_to_free (gc_globals w') = next_to_free (gc_globals w)) →
  ∀ l p w fuel, on_list w3 p l → l ⊆ L → (length l ≤ fuel)%nat → J w →
  ∃ w', destroy_list body fuel p w = OK w' ∧ J w'.
Proof.
  intros HJ Hn Hb. induction l as [|z l IH]; intros p w fuel Hl Hsub Hf Hw; simpl in Hl.
  - subst. exists w. by destruct fuel.
  - destruct Hl as (-> & q & Hq & Hl). destruct fuel as [|fuel]; simpl in Hf; [lia|]. simpl.
    destruct (HJ w Hw z ltac:(set_solver)) as [Hz Hwd]. rewrite (next_of_ok _ _ q) by first [done|by rewrite Hwd]. ob.
    destruct (Hb z _ ltac:(set_solver) (Hn q w Hw)) as (w1 & -> & Hw1 & Hnext). ob. rewrite Hnext.
    apply (IH q w1 fuel); [done|set_solver|lia|done].
Qed.

Lemma free_zvals_ok l : ∀ p w fuel, on_list w p l → NoDup l → (∀ z, z ∈ l → is_Some (zvals w !! z)) → (length l ≤ fuel)%nat →
  ∃ w', free_zvals fuel p w = OK w' ∧ gc_globals w' = gc_globals w ∧
    ∀ z, zvals w' !! z = if decide (z ∈ l) then None else zvals w !! z.
Proof.
  induction l as [|z l IH]; intros p w fuel Hl Hnd Hlive Hf; simpl in Hl.
  - subst. exists w. split_and!; [by destruct fuel|done|]. intros z. rewrite decide_False by set_solver. done.
  - destruct Hl as (-> & q & Hq & Hl). apply NoDup_cons in Hnd as [Hz Hnd]. destruct fuel as [|fuel]; simpl in Hf; [lia|]. simpl.
    rewrite (next_of_ok _ _ q); [|apply Hlive; set_solver|done]. ob.
    destruct (Hlive z ltac:(set_solver)) as [x Hx]. unfold FREE_ZVAL_EX. rewrite (zv_ok _ _ _ Hx). ob.
    set (w1 := set_zvals w (delete z (zvals w))).
    assert (∀ y, zvals w1 !! y = if decide (y = z) then None else zvals w !! y) as Hw1.
    { intros y. unfold w1. simpl. case_decide; [subst; apply lookup_delete_eq|by apply lookup_delete_ne]. }
    destruct (IH q w1 fuel) as (w2 & -> & Hg & Hzs); [|done| |lia|].
    + eapply on_list_words; [exact Hl|]. intros y Hy. simpl. rewrite lookup_delete_ne; [done|]. set_solver.
    + intros y Hy. rewrite Hw1, decide_False by set_solver. apply Hlive. set_solver.
    + exists w2. split_and!; [done|done|]. intros y. rewrite Hzs, Hw1. repeat case_decide; set_solver.
Qed.
End walks.

Section free.
Context `{Handlers} `{!Callbacks} `{!Destroyers} (hd_of : Z → ptr).
Implicit Types (w : world) (z : ptr) (l L : list ptr) (rs D : list node).

(** The world the first destructor is called in. *)
Definition hand_over w3 : world :=
  on_globals (λ g, set_active false (set_zval_to_free ANull (set_lists (zval_to_free (gc_globals w3)) (next_to_free g) g))) w3.

(** What is asked of the destructors: there is an invariant under which the
    steps of both walks succeed, and they leave the list alone. *)
Record harmless (J : world → Prop) L w3 : Prop := {
  hm_start : J (hand_over w3);
  hm_intact : ∀ w, J w → free_list (gc_globals w) = zval_to_free (gc_globals w3) ∧ intact L w3 w;
  hm_next : ∀ q w, J w → J (on_globals (λ g, set_lists (free_list g) q g) w);
  hm_dtor : ∀ z w, z ∈ L → J w → ∃ w', list_dtor z w = OK w' ∧ J w';
  hm_destroy : ∀ z w, z ∈ L → J w →
    ∃ w', list_destroy z w = OK w' ∧ J w' ∧ next_to_free (gc_globals w') = next_to_free (gc_globals w);
}.

Lemma gc_collect_cycles_spec w l rs : gc_ready hd_of w l rs → l ≠ [] → gc_active (gc_globals w) = false →
  ∃ w3, gc_trace w = OK w3 ∧ NoDup (to_free w3) ∧ (∀ z, z ∈ to_free w3 ↔ ∃ D, garbage hd_of w rs D ∧ Zv z ∈ D) ∧
    ∀ J, harmless J (to_free w3) w3 →
    ∃ w', gc_collect_cycles w = OK (Z.of_nat (length (to_free w3)), w') ∧ (∀ z, z ∈ to_free w3 → zvals w' !! z = None).
Proof.
  intros Hready Hl Hact. destruct (gc_trace_spec hd_of w l rs Hready) as (w3 & ns & Ht & Hns & _ & Hlist & _ & _ & _ & _ & HF & _).
  exists w3. split; [done|]. split; [apply HF|]. split; [intros z; by rewrite Hlist, Hns|].
  intros J [J1 J2 J3 J4 J5]. pose proof (fi_free _ HF) as [F1 F2 F3].
  assert (∀ w, J w → (length (to_free w3) ≤ gc_fuel w)%nat) as Hfuel.
  { intros w1 Hw1. unfold gc_fuel. apply Nat.le_le_succ_r. apply live_length; [done|]. intros z Hz. by apply (J2 w1 Hw1). }
  unfold gc_collect_cycles.
  pose proof (rk_ring _ _ _ _ (gd_roots _ _ _ _ Hready)) as Hring. pose proof (rg_sentinel _ _ _ Hring) as Hs.
  destruct (lks_Some _ _ _ Hs) as (e & -> & _ & Hn). ob. simpl in Hn. rewrite Hn.
  rewrite decide_False.
  2:{ destruct l as [|x l]; [done|]. simpl. intros [= ->]. pose proof (rg_nodup _ _ _ Hring) as [Hx _]%NoDup_cons. set_solver. }
  rewrite Hact, Ht. ob. change (on_globals _ w3) with (hand_over w3).
  destruct (call_list_dtors_ok J list_dtor _ w3 (λ w Hw, proj2 (J2 w Hw)) J4 (to_free w3) (zval_to_free (gc_globals w3)) (hand_over w3)
    (gc_fuel (hand_over w3))) as (w4 & -> & Hw4); [done|done|by apply Hfuel|done|]. ob.
  destruct (J2 w4 Hw4) as [-> Hi4].
  destruct (destroy_list_ok J list_destroy _ w3 (λ w Hw, proj2 (J2 w Hw)) J3 J5 (to_free w3) (zval_to_free (gc_globals w3)) w4
    (gc_fuel w4)) as (w5 & -> & Hw5); [done|done|by apply Hfuel|done|]. ob.
  destruct (J2 w5 Hw5) as [-> Hi5].
  destruct (free_zvals_ok (to_free w3) (zval_to_free (gc_globals w3)) w5 (gc_fuel w5)) as (w6 & -> & Hg6 & Hz6);
    [|done|apply Hi5|by apply Hfuel|].
  { eapply on_list_words; [exact F1|]. intros z Hz. by apply Hi5. }
  ob. eexists. split; [done|]. intros z Hz. simpl. rewrite Hz6. by rewrite decide_True.
Qed.
End free.
