(* ===== verification/GcExamples.v ===== *)
(** The concrete worlds of the witnesses of GcProps. *)

From stdpp Require Import relations.
From S2P Require Import Prelude Dll TrialDeletion TrialScan TrialCollect TrialGarbage.
From S2P Require Import ZendGcHeap ZendGc ZendGcSim ZendGcCollect ZendGcRoots ZendGcBuffer ZendGcRun.
From S2P Require Import ZendObjectsStore ZendGcCycles ZendGcSpec ZendObjectsStoreSpec ZendGcPossible.

#[local] Existing Instance std_handlers.

(** * A cycle and a live array

    The array zval 1 holds zval 2, which is the object 1, whose declared
    property is zval 1 again; the array zval 3 holds itself and is also
    referenced from elsewhere.  Zvals 1 and 3 are possible roots.  The symbol
    table is table 9, zval 4 refers to it. *)
Module Cycle.
Definition hd_of (_ : Z) : ptr := std_object_handlers.

Definition zval_of (v : zvalue) (r : Z) (u : gc_word) : zval_gc_info :=
  {| z_value := v; refcount__gc := r; u_buffered := u |}.
Definition purple_root (r : ptr) : gc_word := GcWord (ARoot r) GC_PURPLE.

Definition object_1 : zend_object_store_bucket :=
  {| destructor_called := true; valid := true; apply_count := 0; obj_object := SObject (Some 7%positive);
     obj_dtor := Some 5%positive; obj_free_storage := None; obj_clone := None; obj_handlers := Some std_object_handlers;
     obj_refcount := 1; obj_buffered := gc_null |}.

Definition the_store : zend_objects_store :=
  {| object_buckets := Some {[0 := zero_bucket; 1 := object_1]}; os_block := 1; top := 2; os_size := 1024;
     free_list_head := -1 |}.

Definition sentinel : gc_root_buffer := {| rb_prev := Some 3%positive; rb_next := Some 2%positive; rb_handle := 0; rb_u := None |}.
Definition entry (p n : ptr) (z : ptr) : gc_root_buffer :=
  {| rb_prev := Some p; rb_next := Some n; rb_handle := 0; rb_u := Some (u_pz z) |}.

Definition the_globals : zend_gc_globals :=
  {| gc_enabled := true; gc_active := false; buf := Some GC_BUF;
     root_mem := {[GC_ROOTS := sentinel; 2%positive := entry GC_ROOTS 3 1; 3%positive := entry 2 GC_ROOTS 3]};
     unused := None; first_unused := Some 4%positive; last_unused := Some (GC_BUF + GC_ROOT_BUFFER_MAX_ENTRIES)%positive;
     zval_to_free := ANull; free_list := ANull; next_to_free := ANull; gc_runs := 0; gc_collected := 0 |}.

Definition start : world := {|
  zvals := {[1%positive := zval_of (IS_ARRAY 1) 1 (purple_root 2); 2%positive := zval_of (IS_OBJECT 1 std_object_handlers) 1 gc_null;
             3%positive := zval_of (IS_ARRAY 2) 2 (purple_root 3); 4%positive := zval_of (IS_ARRAY 9) 1 gc_null]};
  tables := {[1%positive := [2%positive]; 2%positive := [3%positive]; 9%positive := [3%positive]]};
  symbol_table := 9%positive;
  objects_store := the_store;
  gc_globals := the_globals;
  memory := {[1 := {| properties := None; properties_table := [Some 1%positive; None] |}]} : mem;
|}.

(** A look-up in a map given by its elements is one of them. *)
Ltac entries H :=
  repeat match type of H with
  | <[_ := _]> _ !! _ = Some _ => apply lookup_insert_Some in H as [[<- <-]|[_ H]]
  | {[_ := _]} !! _ = Some _ => apply lookup_singleton_Some in H as [<- <-]
  end.

Lemma zval_entries z x : zvals start !! z = Some x → z ∈ [1; 2; 3; 4]%positive.
Proof. intros Hz. cbn in Hz. entries Hz; set_solver. Qed.
Lemma bucket_entries h b : buckets start !! h = Some b → h ∈ [0; 1].
Proof. intros Hh. cbn in Hh. entries Hh; set_solver. Qed.

(** A statement about all nodes is one about six of them and those that do
    not exist. *)
Definition nodes : list node := [Zv 1; Zv 2; Zv 3; Zv 4; Ob 0; Ob 1].
Lemma other_node n : n ∉ nodes →
  succ hd_of start n = [] ∧ refcount start n = 0 ∧ word start n = gc_null.
Proof.
  intros Hn. destruct n as [z|h]; cbn [succ refcount word].
  - destruct (zvals start !! z) as [x|] eqn:Hz; [|done]. apply zval_entries in Hz. unfold nodes in Hn. set_solver.
  - destruct (buckets start !! h) as [b|] eqn:Hh; [|done]. apply bucket_entries in Hh. unfold nodes in Hn. set_solver.
Qed.

Lemma every_node (P : node → Prop) : Forall P nodes → (∀ n, n ∉ nodes → P n) → ∀ n, P n.
Proof. intros HF Ho n. destruct (decide (n ∈ nodes)) as [Hn|]; [|auto]. by eapply Forall_forall in HF. Qed.

Ltac all_nodes tac := apply every_node; [repeat (apply List.Forall_cons; [tac|]); apply List.Forall_nil|intros n (Hns & Hnr & Hnw)%other_node].

Lemma start_wf : wf_graph hd_of start.
Proof.
  split.
  - intros z x ht Hz Hv. cbn in Hz. entries Hz; simplify_eq/=; vm_compute; eauto.
  - intros z x h hd Hz Hv _. cbn in Hz. entries Hz; simplify_eq/=; vm_compute; eauto.
  - intros ht l z Ht Hz. cbn in Ht. entries Ht; apply list_elem_of_singleton in Hz as ->; vm_compute; eauto.
  - intros h g [b Hb] [= <-]. cbn in Hb. entries Hb; (split; [intros z Hz|intros ht Ht]); vm_compute in Hz || vm_compute in Ht; try done.
    + by apply elem_of_nil in Hz.
    + apply elem_of_cons in Hz as [[= ->]|Hz]; [vm_compute; eauto|]. by apply list_elem_of_singleton in Hz.
Qed.

Lemma start_ring : ring GC_ROOTS (lks (root_mem (gc_globals start))) [2; 3]%positive.
Proof.
  split; [by apply (bool_decide_unpack _)|vm_compute; naive_solver|done|].
  intros x Hx. repeat (apply elem_of_cons in Hx as [->|Hx]); [eauto..|by apply elem_of_nil in Hx].
Qed.

Lemma start_ready : gc_ready hd_of start [2; 3]%positive [Zv 1; Zv 3].
Proof.
  split; [apply start_wf| | | | |].
  - split; [apply start_ring|repeat constructor; vm_compute; eauto|].
    intros n r. destruct (decide (n ∈ nodes)) as [Hn|Hn].
    + unfold nodes in Hn. repeat (apply elem_of_cons in Hn as [->|Hn]); [..|by apply elem_of_nil in Hn].
      all: match goal with |- context[gc_address ?a] => let v := eval vm_compute in (gc_address a) in change (gc_address a) with v end.
      all: cbn [zip zip_with]; rewrite !elem_of_cons, elem_of_nil; naive_solver.
    + destruct (other_node n Hn) as (_ & _ & ->). cbn [zip zip_with]. unfold nodes in Hn. split; [done|]. set_solver.
  - unfold uints. all_nodes ltac:(by vm_compute). by rewrite Hnr.
  - apply (counted_finite _ _ _ _ nodes); [by apply (bool_decide_unpack _)|by intros n (-> & _)%other_node| |].
    + all_nodes ltac:(by vm_compute). by rewrite Hnr.
    + intros x Hx Hp. vm_compute in Hx. repeat (apply elem_of_cons in Hx as [->|Hx]); [by vm_compute..|by apply elem_of_nil in Hx].
  - unfold clean, color. all_nodes ltac:(vm_compute; eauto). rewrite Hnw. by left.
  - unfold addr_ok. all_nodes ltac:(vm_compute; eauto). rewrite Hnw. by left.
Qed.

(** Zval 3 is also referenced by the symbol table, which is outside the graph. *)
Lemma live_held L : NoDup L → edges (succ hd_of start) L (Zv 3) < refcount start (Zv 3).
Proof.
  intros HL. pose proof (counted_finite (succ hd_of start) (λ _, false) (λ _ n, if decide (n = Zv 3) then 1 else 5) start nodes) as Hc.
  enough (edges (succ hd_of start) L (Zv 3) <= 1) by by apply (Z.le_lt_trans _ 1).
  apply Hc; try done; [by apply (bool_decide_unpack _)|by intros n (-> & _)%other_node|intros x; by case_decide|].
  intros x Hx _. vm_compute in Hx. repeat (apply elem_of_cons in Hx as [->|Hx]); [by vm_compute..|by apply elem_of_nil in Hx].
Qed.

(** The garbage of this world. *)
Definition cycle : list node := [Zv 1; Zv 2; Ob 1].
Lemma cycle_garbage : garbage hd_of start [Zv 1; Zv 3] cycle.
Proof.
  split; [split|].
  - by apply (bool_decide_unpack _).
  - apply Forall_forall. repeat constructor.
  - apply Forall_forall. repeat constructor; by vm_compute.
  - intros x Hx. exists (Zv 1). split; [set_solver|]. split; [done|].
    assert (step (succ hd_of start) (Zv 1) (Zv 2) ∧ step (succ hd_of start) (Zv 2) (Ob 1)) as [H1 H2].
    { unfold step. vm_compute. set_solver. }
    unfold cycle in Hx. repeat (apply elem_of_cons in Hx as [->|Hx]); [done|by apply rtc_once|by eapply rtc_l, rtc_once|by apply elem_of_nil in Hx].
Qed.
Lemma cycle_found : ∃ D, garbage hd_of start [Zv 1; Zv 3] D ∧ Zv 1 ∈ D.
Proof. exists cycle. split; [apply cycle_garbage|by left]. Qed.

Lemma start_buf : buf_ok (gc_globals start) [2; 3]%positive [] 4.
Proof.
  split; [done..|vm_compute; done|apply start_ring|done|by apply (bool_decide_unpack _)|].
  intros r. rewrite app_nil_r, elem_of_cons, list_elem_of_singleton. unfold GC_BUF. lia.
Qed.
Lemma start_buffer : buffer_ok hd_of start [2; 3]%positive [Zv 1; Zv 3] [] 4.
Proof. split; [apply start_ready|apply start_buf]. Qed.

Lemma start_store : store_ok (objects_store start) [].
Proof.
  split; try done; [|constructor|set_solver].
  - intros h. split; [intros [b Hb]; cbn in Hb; entries Hb; done|].
    intros Hh. assert (h = 0 ∨ h = 1) as [-> | ->] by (cbn in Hh; lia); vm_compute; eauto.
Qed.

(** ** Callbacks that do nothing, arrays freed at once *)

#[local] Instance quiet : Callbacks := {|
  call_dtor _ _ _ w := (w, false);
  call_free_storage _ _ w := (w, false);
  call_clone p _ w := (p, w);
  zend_objects_destroy_object := 5%positive;
|}.
#[local] Instance plain : Destroyers := {|
  destroy_array ht w := OK {| zvals := zvals w; tables := delete ht (tables w); symbol_table := symbol_table w;
    objects_store := objects_store w; gc_globals := gc_globals w; memory := memory w |};
  zval_dtor _ w := OK w;
|}.

(** The world after the passes. *)
Definition traced : world := match gc_trace start with OK w => w | _ => start end.
Lemma trace_start : gc_trace start = OK traced.
Proof. by vm_compute. Qed.
Lemma traced_list : to_free traced = [2; 1]%positive.
Proof. by vm_compute. Qed.

(** The worlds between the destructors: zval 1 and zval 2 destroyed or not. *)
Definition destroyed (b : bool) z w : world :=
  if b then match list_destroy z w with OK w => w | _ => w end else w.
Definition between (b1 b2 : bool) q : world :=
  on_globals (λ g, set_lists (free_list g) q g) (destroyed b1 1%positive (destroyed b2 2%positive (hand_over traced))).
Definition some_between w : Prop := ∃ b1 b2 q, w = between b1 b2 q.

Lemma traced_harmless : harmless some_between (to_free traced) traced.
Proof.
  rewrite traced_list. split.
  - exists false, false, ANull. by vm_compute.
  - intros w (b1 & b2 & q & ->). split; [by destruct b1, b2; vm_compute|].
    intros z Hz. repeat (apply elem_of_cons in Hz as [->|Hz]); [..|by apply elem_of_nil in Hz]; destruct b1, b2; vm_compute; eauto.
  - intros q w (b1 & b2 & q' & ->). by exists b1, b2, q.
  - intros z w Hz (b1 & b2 & q & ->). exists (between b1 b2 q). split; [|by exists b1, b2, q].
    repeat (apply elem_of_cons in Hz as [->|Hz]); [..|by apply elem_of_nil in Hz]; destruct b1, b2; by vm_compute.
  - intros z w Hz (b1 & b2 & q & ->). repeat (apply elem_of_cons in Hz as [->|Hz]); [..|by apply elem_of_nil in Hz].
    + exists (between b1 true q). split_and!; [by destruct b1, b2; vm_compute|by exists b1, true, q|by destruct b1, b2; vm_compute].
    + exists (between true b2 q). split_and!; [by destruct b1, b2; vm_compute|by exists true, b2, q|by destruct b1, b2; vm_compute].
Qed.
End Cycle.

(** * A storage function that creates an object

    The array of buckets is full; freeing the storage of object 1 creates
    another one, for which the array grows. *)
Module Grow.
Definition object_1 : zend_object_store_bucket :=
  {| destructor_called := true; valid := true; apply_count := 0; obj_object := SObject (Some 7%positive);
     obj_dtor := None; obj_free_storage := Some 6%positive; obj_clone := None; obj_handlers := None;
     obj_refcount := 1; obj_buffered := gc_null |}.

Definition start : world :=
  set_store Cycle.start
    {| object_buckets := Some {[0 := zero_bucket; 1 := object_1]}; os_block := 1; top := 2; os_size := 2; free_list_head := -1 |}.

Definition growing : Callbacks := {|
  call_dtor _ _ _ w := (w, false);
  call_free_storage _ _ w :=
    match zend_objects_store_put (H0 := Cycle.quiet) (Some 8%positive) None None None w with
    | OK (_, w) => (w, false)
    | _ => (w, true)
    end;
  call_clone p _ w := (p, w);
  zend_objects_destroy_object := 5%positive;
|}.
End Grow.

(** * A destructor that bails out

    Object 1 is in the root buffer, its destructor has not been called, and it
    has no handlers yet. *)

Module Last.
Definition object_1 : zend_object_store_bucket :=
  {| destructor_called := false; valid := true; apply_count := 0; obj_object := SObject (Some 7%positive);
     obj_dtor := Some 5%positive; obj_free_storage := None; obj_clone := None; obj_handlers := None;
     obj_refcount := 1; obj_buffered := GcWord (ARoot 2) GC_PURPLE |}.
Definition called : zend_object_store_bucket :=
  obj_set_object (obj_object object_1) (Some std_object_handlers) (bk_set_flags true true object_1).

Definition the_globals : zend_gc_globals :=
  {| gc_enabled := true; gc_active := false; buf := Some GC_BUF;
     root_mem := {[GC_ROOTS := {| rb_prev := Some 2%positive; rb_next := Some 2%positive; rb_handle := 0; rb_u := None |};
                   2%positive := {| rb_prev := Some GC_ROOTS; rb_next := Some GC_ROOTS; rb_handle := 1;
                                    rb_u := Some (u_handlers std_object_handlers) |}]};
     unused := None; first_unused := Some 3%positive; last_unused := Some (GC_BUF + GC_ROOT_BUFFER_MAX_ENTRIES)%positive;
     zval_to_free := ANull; free_list := ANull; next_to_free := ANull; gc_runs := 0; gc_collected := 0 |}.
Definition world_of (b : zend_object_store_bucket) (m : mem) : world := {|
  zvals := ∅; tables := ∅; symbol_table := 9%positive;
  objects_store := {| object_buckets := Some {[0 := zero_bucket; 1 := b]}; os_block := 1; top := 2; os_size := 1024; free_list_head := -1 |};
  gc_globals := the_globals; memory := m |}.

(** The destructor empties the memory and bails out. *)
Definition loud : Callbacks := {|
  call_dtor _ _ _ w := ({| zvals := zvals w; tables := tables w; symbol_table := symbol_table w; objects_store := objects_store w;
                           gc_globals := gc_globals w; memory := ∅ |}, true);
  call_free_storage _ _ w := (w, false);
  call_clone p _ w := (p, w);
  zend_objects_destroy_object := 5%positive;
|}.
Definition start : world := world_of object_1 {[1 := {| properties := None; properties_table := [None] |}]}.
Definition destructed : world := world_of called ∅.

Lemma destructed_store : store_ok (objects_store destructed) [].
Proof.
  split; try done; [|constructor|set_solver].
  intros h. split; [intros [b Hb]; cbn in Hb; Cycle.entries Hb; done|].
  intros Hh. assert (h = 0 ∨ h = 1) as [-> | ->] by (cbn in Hh; lia); vm_compute; eauto.
Qed.

Lemma destructed_roots : roots_ok Cycle.hd_of destructed [2%positive] [Ob 1].
Proof.
  split.
  - split; [by apply (bool_decide_unpack _)|vm_compute; naive_solver|done|].
    intros x Hx. repeat (apply elem_of_cons in Hx as [->|Hx]); [eauto..|by apply elem_of_nil in Hx].
  - repeat constructor; try done; vm_compute; eauto.
  - intros n r. cbn [zip zip_with]. rewrite list_elem_of_singleton. destruct n as [z|h]; [cbn; rewrite lookup_empty; split; done|].
    destruct (buckets destructed !! h) as [b|] eqn:Hh.
    + cbn in Hh. Cycle.entries Hh; vm_compute; naive_solver.
    + simpl. rewrite Hh. simpl. split; [done|]. intros [= -> ->]. by vm_compute in Hh.
Qed.

(** Object 1 out of the buffer is still there. *)
Lemma after_removal v g :
  slot_kept 1 (obj_set_buffered (λ _, v) called) (set_globals (upd_slot destructed 1 (obj_set_buffered (λ _, v) called)) g).
Proof.
  destruct (store_upd_valid destructed 1 called (obj_set_buffered (λ _, v) called) [] destructed_store) as [Hok Ho]; [by vm_compute|done|].
  split; [|by exists []]. change (objects (objects_store (upd_slot destructed 1 (obj_set_buffered (λ _, v) called))) !! 1 = Some (obj_set_buffered (λ _, v) called)).
  rewrite Ho. apply lookup_insert_eq.
Qed.
End Last.
