(* ===== verification/GcProps.v ===== *)
(** The properties of the cycle collector and of the object store. *)

From stdpp Require Import relations.
From S2P Require Import Prelude Dll TrialDeletion TrialScan TrialCollect TrialGarbage.
From S2P Require Import ZendGcHeap ZendGc ZendGcSim ZendGcCollect ZendGcRoots ZendGcBuffer ZendGcRun.
From S2P Require Import ZendObjectsStore ZendGcCycles ZendGcSpec ZendObjectsStoreSpec ZendGcPossible GcExamples.

(** * The collector *)

Section collector.
Context `{Handlers} (hd_of : Z → ptr).
Implicit Types (w : world) (z : ptr) (h : Z) (n : node) (rs D : list node).

(** C19: The three passes of [gc_collect_cycles] end, on any graph with cycles
    and sharing, and find exactly the garbage: the zvals on the list to free
    are those of the sets of nodes that are referenced from themselves only and
    hang on a purple root.  The reference counts they decrement are restored,
    but for the reference the list holds and those that garbage holds to
    objects; no other field changes, no node stays grey or white, and the root
    buffer is empty. *)
Theorem collector_exact w l rs : gc_ready hd_of w l rs → ∃ w',
  gc_trace w = OK w' ∧
  NoDup (to_free w') ∧ (∀ z, z ∈ to_free w' ↔ ∃ D, garbage hd_of w rs D ∧ Zv z ∈ D) ∧
  (∀ z, pinned w (Zv z) = false →
     refcount w' (Zv z) = uint_wrap (refcount w (Zv z) + (if decide (z ∈ to_free w') then 1 else 0))) ∧
  (∀ h, refcount w' (Ob h) = refcount w (Ob h) - edges (succ hd_of w) (Zv <$> to_free w') (Ob h)) ∧
  shape w' = shape w ∧ clean color w' ∧ roots_ok hd_of w' [] [].
Proof.
  intros Hr. destruct (gc_trace_spec hd_of w l rs Hr) as (w' & ns & Ht & Hns & _ & Hl & Hz & Ho & Hs & Hc & HF & Hro).
  exists w'. split_and!; try done; [apply HF|]. intros z. by rewrite Hl, Hns.
Qed.

(** A node that is referenced from outside the graph: its count is above the
    number of edges that arrive, from whatever nodes. *)
Definition held w n : Prop := ∀ L, NoDup L → edges (succ hd_of w) L n < refcount w n.

(** What is in use survives a collection: a zval that can be reached from
    one that the symbol table stands for or that is referenced from outside the
    graph (a variable, a VM temporary, the C stack) is not put on the list of
    zvals to free. *)
Theorem collector_keeps_reachable w l rs n z : gc_ready hd_of w l rs →
  pinned w n = true ∨ held w n → rtc (step (succ hd_of w)) n (Zv z) →
  ∃ w', gc_trace w = OK w' ∧ z ∉ to_free w'.
Proof.
  intros Hr Hn Hreach. destruct (gc_trace_spec hd_of w l rs Hr) as (w' & ns & Ht & Hns & _ & Hl & _).
  exists w'. split; [done|]. intros (D & [HD _] & Hz)%Hl%Hns.
  pose proof (garbage_back _ _ _ _ _ _ _ (gd_counted _ _ _ _ Hr) HD Hz Hreach) as HnD. destruct Hn as [Hp|Hh].
  - rewrite (gb_pin _ _ _ _ _ HD n HnD) in Hp. done.
  - specialize (Hh D (gb_nodup _ _ _ _ _ HD)). rewrite (gb_rc _ _ _ _ _ HD n HnD) in Hh. lia.
Qed.

(** C20: A collection makes progress: it ends, and every zval of the garbage
    that hangs on a purple root is freed and counted in the result, when the
    destructors it runs are harmless ([harmless]: some invariant of theirs
    makes their steps succeed and leaves the list of zvals to free alone). *)
Theorem collector_frees_garbage `{!Callbacks} `{!Destroyers} w l rs (J : world → Prop) :
  gc_ready hd_of w l rs → l ≠ [] → gc_active (gc_globals w) = false →
  (∀ w3, gc_trace w = OK w3 → harmless J (to_free w3) w3) →
  ∃ L w', gc_collect_cycles w = OK (Z.of_nat (length L), w') ∧ NoDup L ∧
    (∀ z, z ∈ L ↔ ∃ D, garbage hd_of w rs D ∧ Zv z ∈ D) ∧ ∀ z, z ∈ L → zvals w' !! z = None.
Proof.
  intros Hr Hl Ha HJ. destruct (gc_collect_cycles_spec hd_of w l rs Hr Hl Ha) as (w3 & Ht & Hnd & HL & Hfree).
  destruct (Hfree J (HJ w3 Ht)) as (w' & Hrun & Hz). by exists (to_free w3), w'.
Qed.
End collector.

(** * The root buffer *)

(** C21: Whatever roots are entered and removed after [gc_init], the buffer is
    consistent: the roots in use form a doubly linked ring through [roots], are
    distinct entries of the array, and no more than it has; any of them can be
    removed, and there is an entry for one more unless all are in use. *)
Theorem root_buffer_invariant g l : buffer_run g l →
  ring GC_ROOTS (lks (root_mem g)) l ∧ NoDup l ∧
  (∀ r, r ∈ l → (GC_BUF ≤ r < GC_BUF + GC_ROOT_BUFFER_MAX_ENTRIES)%positive) ∧
  (length l ≤ Pos.to_nat GC_ROOT_BUFFER_MAX_ENTRIES)%nat ∧
  (∀ r, r ∈ l → ∃ g', gc_remove_from_buffer r g = OK g') ∧
  (∀ h v, if decide (length l = Pos.to_nat GC_ROOT_BUFFER_MAX_ENTRIES) then gc_take_entry g = OK None
          else ∃ r g1 g2, gc_take_entry g = OK (Some (r, g1)) ∧ (r ∉ l) ∧ gc_link_root r h v g1 = OK g2).
Proof.
  intros (u & first & Hb)%buffer_run_ok. pose proof (bo_nodup _ _ _ _ Hb) as [_ [Hnd _]%NoDup_app]%NoDup_cons.
  split_and!; [apply Hb|done| |by eapply buf_length| |].
  - intros r Hr. pose proof (proj1 (bo_entries _ _ _ _ Hb r)) as Hin. pose proof (bo_range _ _ _ _ Hb). set_solver by lia.
  - intros r (l1 & l2 & ->)%list_elem_of_split. destruct (gc_remove_buf_ok _ _ _ _ _ _ Hb) as (g' & ? & _). eauto.
  - intros h v. pose proof (gc_enter_ok g l u first h v Hb) as He. case_decide; [done|]. naive_solver.
Qed.

Section possible.
Context `{Handlers} `{!Callbacks} `{!Destroyers} (hd_of : Z → ptr).
Implicit Types (w : world) (z : ptr) (h : Z) (rs : list node).

(** A word not yet in the buffer. *)
Definition fresh_word (v : gc_word) : Prop := gc_address v = ANull ∧ gc_get_color v ≠ GC_PURPLE.

(** A value whose count has been decremented becomes the first root: while
    the buffer has room, [gc_zval_possible_root] of a zval that is no object,
    and the check of an object with a [get_gc] handler, make it purple, link
    an entry of its own for it, and leave every other count, colour and edge
    as it is; one that is purple already is left alone.  [FREE_ZVAL] outside a
    collection takes the zval out of the buffer, so that no root dangles. *)
Theorem possible_root_entered w l rs u first :
  buffer_ok hd_of w l rs u first → (length l < Pos.to_nat GC_ROOT_BUFFER_MAX_ENTRIES)%nat →
  (∀ z x, zvals w !! z = Some x → (∀ h hd, z_value x ≠ IS_OBJECT h hd) → fresh_word (u_buffered x) →
     ∃ w', gc_zval_possible_root z w = OK w' ∧ entered hd_of w (Zv z) l rs w') ∧
  (∀ z h b, buckets w !! h = Some b → valid b = true → h ≠ 0 → is_Some (get_gc (hd_of h)) → fresh_word (obj_buffered b) →
     ∃ w', GC_ZOBJ_CHECK_POSSIBLE_ROOT z h (hd_of h) w = OK w' ∧ entered hd_of w (Ob h) l rs w') ∧
  (∀ z x, zvals w !! z = Some x → (∀ h hd, z_value x ≠ IS_OBJECT h hd) → gc_get_color (u_buffered x) = GC_PURPLE →
     gc_zval_possible_root z w = OK w) ∧
  (∀ z x, zvals w !! z = Some x → free_list (gc_globals w) = ANull →
     gc_address (u_buffered x) = ANull ∨ (∃ r, gc_address (u_buffered x) = ARoot r) →
     ∃ w' l' rs' u', FREE_ZVAL z w = OK w' ∧ zvals w' = delete z (zvals w) ∧ (Zv z ∉ rs') ∧ buffer_ok hd_of w' l' rs' u' first).
Proof.
  intros Hok Hl. split_and!; last by (intros; by apply (free_zval_ok hd_of w l rs u first z x)).
  - intros z x Hx Hv [Ha Hc]. by apply (zval_possible_root_enters hd_of w l rs u first z x).
  - intros z h b Hb Hv Hh Hg [Ha Hc]. by apply (zobj_possible_root_enters hd_of w l rs u first z h b).
  - intros z x Hx Hv Hc. by eapply zval_possible_root_purple.
Qed.
End possible.

(** * The object store *)

Section store.
Context `{Handlers} `{!Callbacks}.
Implicit Types (w : world) (h : Z) (fl : list Z).

(** C22: The object store implements a finite map from handles to objects:
    [zend_objects_store_init] is the empty map, [zend_objects_store_put] enters
    the object under a handle that is positive and not in use, the last one
    given up when there is one, with one reference; references are added,
    read and, while there is another, given up without any other effect. *)
Theorem object_store_refines :
  (∀ blk n, 1 <= n < 2 ^ 31 →
     store_ok (zend_objects_store_init blk n) [] ∧ objects (zend_objects_store_init blk n) = ∅) ∧
  (∀ object dtor fs cl w fl, store_ok (objects_store w) fl → top (objects_store w) < 2 ^ 30 →
     ∃ h w' fl', zend_objects_store_put object dtor fs cl w = OK (h, w') ∧
       1 <= h ∧ objects (objects_store w) !! h = None ∧
       objects (objects_store w') = <[h := new_bucket object dtor fs cl]> (objects (objects_store w)) ∧
       store_ok (objects_store w') fl' ∧ (h :: fl' = fl ∨ h = top (objects_store w) ∧ fl = [] ∧ fl' = [])) ∧
  (∀ h b w fl, store_ok (objects_store w) fl → objects (objects_store w) !! h = Some b →
     zend_objects_store_get_refcount h w = OK (obj_refcount b) ∧
     (∃ w', zend_objects_store_add_ref_by_handle h w = OK w' ∧ zend_objects_store_add_ref h w = OK w' ∧ store_ok (objects_store w') fl ∧
       objects (objects_store w') = <[h := obj_set_refcount (λ r, r + 1) b]> (objects (objects_store w))) ∧
     (∀ handlers, obj_refcount b ≠ 1 →
       ∃ w', zend_objects_store_del_ref_by_handle_ex h handlers w = OK (w', false) ∧ store_ok (objects_store w') fl ∧
       objects (objects_store w') = <[h := obj_set_refcount (λ r, r - 1) b]> (objects (objects_store w)))).
Proof.
  split_and!; [apply store_init_ok|intros; by apply store_put_spec|]. intros h b w fl Hok Hh. pose proof (objects_bucket _ _ _ Hh) as [Hb Hv].
  split_and!.
  - unfold zend_objects_store_get_refcount. by rewrite (bucket_ok _ _ _ Hb).
  - unfold zend_objects_store_add_ref_by_handle, zend_objects_store_add_ref. rewrite (bucket_upd_ok _ _ _ _ Hb).
    eexists. split_and!; [done..| |]; by eapply store_upd_valid.
  - intros. by apply del_ref_shared.
Qed.

(** C23: Giving up the last reference of an object.  The destructor is called
    unless it has been called before, with the slot marked and the handlers
    stored; it leaves the world [w1], in which the object is [b1].  If the
    destructor has stored a new reference, the object stays, and only its count
    changes.  Otherwise the object, and nothing else, leaves the root buffer,
    the storage function is called, the object is gone, its handle is the next
    to be used, and the bail-outs of both callbacks are handed on.  But when
    the storage function has made the array of buckets grow, the last decrement
    goes through a pointer into the old array: undefined behaviour.  The
    callbacks may do anything that keeps the store in order and the slot in
    use; no collection is running. *)
Theorem last_reference hd_of l rs h handlers b w w1 f1 b1 :
  objects (objects_store w) !! h = Some b → obj_refcount b = 1 →
  (w1, f1) = (if destructor_called b then (w, false) else
    let marked := bk_set_flags true (valid b) b in
    match obj_dtor b with
    | None => (upd_slot w h marked, false)
    | Some dtor =>
        let hd := match obj_handlers b with Some _ => obj_handlers b | None => handlers end in
        call_dtor dtor (obj_object b) h (upd_slot w h (obj_set_object (obj_object b) hd marked))
    end) →
  slot_kept h b1 w1 →
  if decide (obj_refcount b1 = 1) then
    roots_ok hd_of w1 l rs → gc_active (gc_globals w1) = false →
    gc_address (obj_buffered b1) = ANull ∨ (∃ r, gc_address (obj_buffered b1) = ARoot r) →
    ∃ w2, unbuffered hd_of rs h b1 w1 w2 ∧
    ∀ w3 f2 b3, free_storage_world h b1 w2 = (w3, f2) → slot_kept h b3 w3 →
      if decide (os_block (objects_store w3) = os_block (objects_store w1)) then
        ∃ s fl, zend_objects_store_del_ref_by_handle_ex h handlers w = OK (set_store w3 s, f1 || f2) ∧
          objects s = delete h (objects (objects_store w3)) ∧ store_ok s (h :: fl)
      else zend_objects_store_del_ref_by_handle_ex h handlers w = UB
  else
    ∃ w' fl, zend_objects_store_del_ref_by_handle_ex h handlers w = OK (w', f1) ∧
      w' = upd_slot w1 h (obj_set_refcount (λ r, r - 1) b1) ∧ store_ok (objects_store w') fl ∧
      objects (objects_store w') = <[h := obj_set_refcount (λ r, r - 1) b1]> (objects (objects_store w1)).
Proof. intros Hh Hr Hd. apply (del_ref_last hd_of l rs h handlers b w w1 f1 b1 Hh Hr). by rewrite Hd. Qed.

(** After [zend_objects_store_mark_destructed], at the end of a request
    that bailed out, every object is still there and
    [zend_objects_store_call_destructors] calls no destructor and changes
    nothing. *)
Theorem no_destructors_after_mark w fl fuel : store_ok (objects_store w) fl → top (objects_store w) <= Z.of_nat fuel →
  ∃ w', zend_objects_store_mark_destructed w = OK w' ∧
    (∀ h, objects (objects_store w') !! h = bk_set_flags true true <$> objects (objects_store w) !! h) ∧
    zend_objects_store_call_destructors fuel w' = OK w'.
Proof.
  intros Hok Hf. destruct (mark_destructed_spec w fl Hok) as (w' & Hm & Hok' & Ho & Htop).
  exists w'. split_and!; [done..|]. apply (call_destructors_none w' fl); [done| |by rewrite Htop].
  intros h b Hb. rewrite Ho in Hb. destruct (objects (objects_store w) !! h); by simplify_eq/=.
Qed.
End store.

(** The storage function of object 1 creates an object and the array grows:
    the last decrement writes to the old array. *)
Lemma free_storage_reallocates :
  zend_objects_store_del_ref_by_handle_ex (H := std_handlers) (H0 := Grow.growing) 1 None Grow.start = UB.
Proof. by vm_compute. Qed.

(** * Witnesses *)

#[local] Existing Instance std_handlers.
#[local] Existing Instance Cycle.quiet.
#[local] Existing Instance Cycle.plain.

Lemma collector_exact_witness :
  gc_ready Cycle.hd_of Cycle.start [2; 3]%positive [Zv 1; Zv 3] ∧
  ∃ w', gc_trace Cycle.start = OK w' ∧ 1%positive ∈ to_free w' ∧ refcount w' (Ob 1) = 0 ∧ clean color w'.
Proof.
  split; [apply Cycle.start_ready|].
  destruct (collector_exact Cycle.hd_of Cycle.start [2; 3]%positive [Zv 1; Zv 3] Cycle.start_ready)
    as (w' & Ht & _ & Hl & _ & Ho & _ & Hc & _).
  exists w'. split; [exact Ht|]. split; [exact (proj2 (Hl _) Cycle.cycle_found)|].
  split; [|exact Hc]. rewrite Ho. rewrite Cycle.trace_start in Ht. apply (inj OK) in Ht. rewrite <- Ht. by vm_compute.
Defined.

Lemma collector_keeps_reachable_witness :
  held Cycle.hd_of Cycle.start (Zv 3) ∧ ∃ w', gc_trace Cycle.start = OK w' ∧ 3%positive ∉ to_free w'.
Proof.
  assert (held Cycle.hd_of Cycle.start (Zv 3)) as Hh by exact Cycle.live_held. split; [exact Hh|].
  exact (collector_keeps_reachable Cycle.hd_of Cycle.start [2; 3]%positive [Zv 1; Zv 3] (Zv 3) 3%positive Cycle.start_ready
    (or_intror Hh) (rtc_refl _ _)).
Defined.

Lemma collector_frees_garbage_witness :
  ∃ L w', gc_collect_cycles Cycle.start = OK (Z.of_nat (length L), w') ∧ 1%positive ∈ L ∧ zvals w' !! 1%positive = None.
Proof.
  destruct (collector_frees_garbage Cycle.hd_of Cycle.start [2; 3]%positive [Zv 1; Zv 3] Cycle.some_between Cycle.start_ready)
    as (L & w' & Hrun & _ & HL & Hz); [done|done| |].
  - intros w3 Ht. rewrite Cycle.trace_start in Ht. apply (inj OK) in Ht. rewrite <- Ht. exact Cycle.traced_harmless.
  - assert (1%positive ∈ L) as Hin by exact (proj2 (HL _) Cycle.cycle_found).
    exists L, w'. split; [exact Hrun|]. split; [exact Hin|]. exact (Hz _ Hin).
Defined.

Lemma root_buffer_invariant_witness : ∃ g l, buffer_run g l ∧ length l = 1%nat ∧ ∀ r, r ∈ l → ∃ g', gc_remove_from_buffer r g = OK g'.
Proof.
  set (g0 := gc_init {| gc_enabled := true; gc_active := false; buf := None; root_mem := {[GC_ROOTS := empty_roots]};
     unused := None; first_unused := None; last_unused := None; zval_to_free := ANull; free_list := ANull; next_to_free := ANull;
     gc_runs := 0; gc_collected := 0 |}).
  assert (buffer_run g0 []) as H0 by by apply run_init.
  destruct (proj2 (proj2 (proj2 (proj2 (proj2 (root_buffer_invariant g0 [] H0))))) 0 (u_pz 1)) as (r & g1 & g2 & Ht & _ & Hl).
  assert (buffer_run g2 [r]) as H1 by by eapply run_enter.
  exists g2, [r]. split; [exact H1|]. split; [done|]. exact (proj1 (proj2 (proj2 (proj2 (proj2 (root_buffer_invariant g2 [r] H1)))))).
Defined.

Lemma possible_root_entered_witness :
  (∃ w', gc_zval_possible_root 4 Cycle.start = OK w' ∧ entered Cycle.hd_of Cycle.start (Zv 4) [2; 3]%positive [Zv 1; Zv 3] w') ∧
  (∃ w', GC_ZOBJ_CHECK_POSSIBLE_ROOT 2 1 std_object_handlers Cycle.start = OK w' ∧
     entered Cycle.hd_of Cycle.start (Ob 1) [2; 3]%positive [Zv 1; Zv 3] w').
Proof.
  destruct (possible_root_entered Cycle.hd_of Cycle.start [2; 3]%positive [Zv 1; Zv 3] [] 4 Cycle.start_buffer) as (Hz & Ho & _).
  - unfold GC_ROOT_BUFFER_MAX_ENTRIES. simpl. lia.
  - split.
    + eapply Hz; [by vm_compute|done|by split].
    + eapply (Ho 2%positive 1); [by vm_compute|done|done|by eexists|by split].
Defined.

Lemma last_reference_witness : ∃ w',
  zend_objects_store_del_ref_by_handle_ex (H0 := Last.loud) 1 (Some std_object_handlers) Last.start = OK (w', true) ∧
  objects (objects_store w') = ∅ ∧ ring GC_ROOTS (lks (root_mem (gc_globals w'))) [] ∧ memory w' = ∅.
Proof.
  assert (slot_kept 1 Last.called Last.destructed) as Hk by (split; [by vm_compute|exists []; apply Last.destructed_store]).
  destruct (last_reference (H0 := Last.loud) Cycle.hd_of [2]%positive [Ob 1] 1 (Some std_object_handlers) Last.object_1 Last.start
    Last.destructed true Last.called) as (w2 & Hun & Hfree); [by vm_compute|done|by vm_compute|exact Hk|apply Last.destructed_roots|done|by right; exists 2%positive|].
  destruct Hun as (v & l' & rs' & Hw2 & Ha & Hro & Hrs).
  assert (rs' = []) as ->. { apply elem_of_nil_inv. intros n [Hn Hne]%Hrs. by apply list_elem_of_singleton in Hn. }
  assert (l' = []) as ->. { pose proof (Forall2_length _ _ _ (rk_nodes _ _ _ _ Hro)) as Hl. by apply nil_length_inv. }
  assert (slot_kept 1 (obj_set_buffered (λ _, v) Last.called) w2) as Hk2 by (rewrite Hw2; apply Last.after_removal).
  specialize (Hfree w2 false _ eq_refl Hk2). rewrite decide_True in Hfree by (by rewrite Hw2).
  destruct Hfree as (s & fl & Hrun & Hobj & _). exists (set_store w2 s). split; [exact Hrun|].
  split; [|split; [exact (rk_ring _ _ _ _ Hro)|by rewrite Hw2]].
  change (objects s = ∅). rewrite Hobj, Hw2. by vm_compute.
Defined.

Lemma no_destructors_after_mark_witness : ∃ w', zend_objects_store_mark_destructed Cycle.start = OK w' ∧
  zend_objects_store_call_destructors 2 w' = OK w'.
Proof.
  destruct (no_destructors_after_mark Cycle.start [] 2 Cycle.start_store) as (w' & Hm & _ & Hc); [done|]. exists w'. exact (conj Hm Hc).
Defined.

Lemma object_store_refines_witness : ∃ h w', zend_objects_store_put (Some 8%positive) None None None Cycle.start = OK (h, w') ∧
  h ≠ 1 ∧ objects (objects_store w') !! 1 = Some Cycle.object_1 ∧ zend_objects_store_get_refcount 1 Cycle.start = OK 1.
Proof.
  destruct object_store_refines as (_ & Hput & Hrefs).
  destruct (Hput (Some 8%positive) None None None Cycle.start [] Cycle.start_store) as (h & w' & fl' & Hrun & _ & Hfree & Ho & _); [done|].
  destruct (Hrefs 1 Cycle.object_1 Cycle.start [] Cycle.start_store) as (Hget & _); [by vm_compute|].
  assert (h ≠ 1) as Hh by (intros ->; by vm_compute in Hfree).
  exists h, w'. split; [exact Hrun|]. split; [exact Hh|]. split; [|exact Hget]. rewrite Ho, lookup_insert_ne by done. by vm_compute.
Defined.
