(* ===== verification/Cyc.v ===== *)
(** Circular doubly linked lists whose nodes are of any countable type, with
    no distinguished first node: the rings of the memory manager's free
    blocks. *)

From S2P Require Import Prelude.

Section cyc.
Context `{Countable K}.
Implicit Types (pf nf : gmap K K) (l : list K) (x y z a b s : K).

(** [x], the nodes of [l], [y], each linked to the next. *)
Fixpoint seg pf nf x l y : Prop :=
  match l with
  | [] => nf !! x = Some y ∧ pf !! y = Some x
  | z :: l => (nf !! x = Some z ∧ pf !! z = Some x) ∧ seg pf nf z l y
  end.

Definition cyc pf nf l : Prop :=
  match l with [] => True | s :: l' => NoDup (s :: l') ∧ seg pf nf s l' s end.

Lemma seg_app pf nf x l1 z l2 y : seg pf nf x (l1 ++ z :: l2) y ↔ seg pf nf x l1 z ∧ seg pf nf z l2 y.
Proof. revert x. induction l1 as [|w l1 IH]; intros x; simpl; [done|]. rewrite IH. tauto. Qed.

Lemma seg_frame pf nf pf' nf' x l y : (∀ k, k ∈ x :: l → nf' !! k = nf !! k) → (∀ k, k ∈ l ++ [y] → pf' !! k = pf !! k) →
  seg pf nf x l y → seg pf' nf' x l y.
Proof.
  revert x. induction l as [|z l IH]; intros x Hn Hp; simpl.
  - rewrite Hn, Hp by set_solver. done.
  - rewrite Hn, Hp by set_solver. intros [? ?]. split; [done|]. apply IH; [|intros; apply Hp|done]; set_solver.
Qed.
Lemma cyc_frame pf nf pf' nf' l : (∀ k, k ∈ l → nf' !! k = nf !! k ∧ pf' !! k = pf !! k) → cyc pf nf l → cyc pf' nf' l.
Proof.
  destruct l as [|s l]; [done|]. intros Hk [? Hs]. split; [done|]. revert Hs. apply seg_frame; intros k ?; apply Hk; set_solver.
Qed.

Lemma cyc_nodup pf nf l : cyc pf nf l → NoDup l.
Proof. destruct l; [constructor|]. by intros [? _]. Qed.

Lemma cyc_rot pf nf l1 l2 : cyc pf nf (l1 ++ l2) → cyc pf nf (l2 ++ l1).
Proof.
  destruct l1 as [|a l1]; simpl; [by rewrite app_nil_r|]. destruct l2 as [|b l2]; simpl; [by rewrite app_nil_r|].
  intros [Hnd Hs]. split; [by rewrite (Permutation_app_comm (b :: l2) (a :: l1))|].
  rewrite seg_app in Hs. apply seg_app. tauto.
Qed.

Lemma cyc_links pf nf a l : cyc pf nf (a :: l) →
  nf !! a = Some (default a (head l)) ∧ pf !! a = Some (default a (last l)).
Proof.
  intros [_ Hs]. split.
  - destruct l; simpl in *; tauto.
  - destruct l as [|z l _] using rev_ind; simpl in *; [tauto|]. rewrite seg_app in Hs. simpl in Hs. rewrite last_snoc. simpl. tauto.
Qed.

(** The neighbours of [a] point back at it. *)
Lemma cyc_back pf nf a l : cyc pf nf (a :: l) →
  nf !! default a (last l) = Some a ∧ pf !! default a (head l) = Some a.
Proof.
  intros [_ Hs]. split.
  - destruct l as [|z l _] using rev_ind; simpl in *; [tauto|]. rewrite seg_app in Hs. simpl in Hs. rewrite last_snoc. simpl. tauto.
  - destruct l; simpl in *; tauto.
Qed.

Lemma cyc_remove pf nf a l p n : cyc pf nf (a :: l) → l ≠ [] → last l = Some p → head l = Some n →
  cyc (<[n := p]> pf) (<[p := n]> nf) l.
Proof.
  intros [[Ha Hnd]%NoDup_cons Hs] Hl Hp Hn. destruct l as [|x l]; [done|]. simpl in Hn, Hs. injection Hn as <-.
  destruct Hs as [_ Hs]. split; [done|]. destruct l as [|q l _] using rev_ind.
  - simpl in Hp |- *. injection Hp as <-. by simplify_map_eq.
  - rewrite app_comm_cons, last_snoc in Hp. injection Hp as ->.
    apply seg_app in Hs as [Hs _]. apply seg_app. simpl. simplify_map_eq. split; [|done].
    apply NoDup_cons in Hnd as [Hx Hnd]. apply NoDup_app in Hnd as (_ & Hd & _).
    revert Hs. apply seg_frame; intros k Hk; apply lookup_insert_ne; [|set_solver].
    intros <-. apply elem_of_cons in Hk as [->|Hk]; [set_solver|]. apply (Hd p Hk). set_solver.
Qed.

Lemma cyc_insert pf nf s l b n : cyc pf nf (s :: l) → b ∉ s :: l → n = default s (head l) →
  cyc (<[n := b]> (<[b := s]> pf)) (<[s := b]> (<[b := n]> nf)) (s :: b :: l).
Proof.
  intros [Hnd Hs] Hb ->. split.
  { apply NoDup_cons in Hnd as [? ?]. apply NoDup_cons. split; [set_solver|]. apply NoDup_cons. set_solver. }
  apply NoDup_cons in Hnd as [Hsl Hnd]. simpl. destruct l as [|x l]; simpl in *.
  - assert (s ≠ b) by set_solver. by simplify_map_eq.
  - assert (s ≠ b ∧ b ≠ x) as [? ?] by set_solver. simplify_map_eq. split; [done|]. split; [done|].
    destruct Hs as [_ Hs]. revert Hs. apply NoDup_cons in Hnd as [Hx _]. apply seg_frame; intros k Hk.
    + rewrite !lookup_insert_ne; set_solver.
    + rewrite !lookup_insert_ne; [done|set_solver|set_solver].
Qed.

Lemma cyc_single pf nf b : cyc (<[b := b]> pf) (<[b := b]> nf) [b].
Proof. split; [apply NoDup_singleton|]. simpl. by simplify_map_eq. Qed.
End cyc.

#[global] Arguments cyc : simpl never.
