(* ===== verification/ZendMmTypes.v ===== *)
(** The data of the memory manager, Zend/zend_alloc.c: block headers and their
    tags, segments, the free lists, and the memory they are laid out in.

    The configuration is the one of a release build on x86-64: ZEND_DEBUG,
    ZEND_MM_HEAP_PROTECTION and ZEND_MM_COOKIES are 0, ZEND_MM_SAFE_UNLINKING
    and ZEND_MM_CACHE are 1, ZEND_MM_ALIGNMENT is 8.  Addresses are integers,
    and every field of a C structure is a finite map from the address of the
    structure to the contents of the field; a field that has not been written
    since its memory was obtained is absent, and reading it is undefined. *)

From S2P Require Import Prelude.

(** * Sizes *)

Abbreviation ZEND_MM_ALIGNMENT := 8.
Abbreviation ZEND_MM_ALIGNMENT_LOG2 := 3.
Abbreviation ZEND_MM_NUM_BUCKETS := 64.
Abbreviation ZEND_MM_CACHE_SIZE := (ZEND_MM_NUM_BUCKETS * 4 * 1024).
Abbreviation ZEND_MM_MAX_REST_BLOCKS := 16.

(** [sizeof(zend_mm_block)], [sizeof(zend_mm_small_free_block)] and
    [sizeof(zend_mm_segment)], aligned. *)
Abbreviation ZEND_MM_ALIGNED_HEADER_SIZE := 16.
Abbreviation ZEND_MM_ALIGNED_MIN_HEADER_SIZE := 32.
Abbreviation ZEND_MM_ALIGNED_SEGMENT_SIZE := 16.
Abbreviation ZEND_MM_MIN_SIZE := (ZEND_MM_ALIGNED_MIN_HEADER_SIZE - ZEND_MM_ALIGNED_HEADER_SIZE).
Abbreviation ZEND_MM_MAX_SMALL_SIZE := (ZEND_MM_NUM_BUCKETS * 8 + ZEND_MM_ALIGNED_MIN_HEADER_SIZE).

(** [(size + 7) & ~7] on a size_t. *)
Definition ZEND_MM_ALIGNED_SIZE (size : Z) : Z :=
  Z.land (ulong_wrap (size + ZEND_MM_ALIGNMENT - 1)) (Z.lnot (ZEND_MM_ALIGNMENT - 1)).

Definition ZEND_MM_TRUE_SIZE (size : Z) : Z :=
  if size <? ZEND_MM_MIN_SIZE then ZEND_MM_ALIGNED_MIN_HEADER_SIZE
  else ZEND_MM_ALIGNED_SIZE (ulong_wrap (size + ZEND_MM_ALIGNED_HEADER_SIZE)).

Definition ZEND_MM_BUCKET_INDEX (true_size : Z) : Z :=
  ulong_wrap (Z.shiftr true_size ZEND_MM_ALIGNMENT_LOG2
              - Z.shiftr ZEND_MM_ALIGNED_MIN_HEADER_SIZE ZEND_MM_ALIGNMENT_LOG2).

Definition ZEND_MM_SMALL_SIZE (true_size : Z) : bool := true_size <? ZEND_MM_MAX_SMALL_SIZE.

(** [while (_size != 0) { _size >>= 1; n++; } return n - 1;] *)
Fixpoint high_bit_loop (fuel : nat) (size n : Z) : Z :=
  match fuel with
  | O => n - 1
  | S fuel => if size =? 0 then n - 1 else high_bit_loop fuel (Z.shiftr size 1) (n + 1)
  end.
Definition zend_mm_high_bit (size : Z) : Z := high_bit_loop 64 size 0.

(** The table [offset] of the four-bit steps, and the loop over them.  The
    loop has no end on 0, which its callers never pass. *)
Definition low_bit_offset (nibble : Z) : Z :=
  nth (Z.to_nat nibble) [4; 0; 1; 0; 2; 0; 1; 0; 3; 0; 1; 0; 2; 0; 1; 0] 0.
Fixpoint low_bit_loop (fuel : nat) (size index : Z) : Z :=
  let n := low_bit_offset (Z.land size 15) in
  match fuel with
  | O => index + n
  | S fuel => if n =? 4 then low_bit_loop fuel (Z.shiftr size 4) (index + n) else index + n
  end.
Definition zend_mm_low_bit (size : Z) : Z := low_bit_loop 15 size 0.

Definition ZEND_MM_LARGE_BUCKET_INDEX (S : Z) : Z := zend_mm_high_bit S.

(** * Block tags: the two low bits of [info._size] and [info._prev] *)

Abbreviation ZEND_MM_TYPE_MASK := 3.
Abbreviation ZEND_MM_FREE_BLOCK := 0.
Abbreviation ZEND_MM_USED_BLOCK := 1.
Abbreviation ZEND_MM_GUARD_BLOCK := 3.

(** * Pointers *)

(** A [zend_mm_free_block *] as the prev/next fields hold it: besides real
    blocks, the fake blocks ZEND_MM_SMALL_FREE_BUCKET and ZEND_MM_REST_BUCKET,
    whose two link fields are the entries of [free_buckets] and
    [rest_buckets]. *)
Inductive fptr := Null | Small (i : Z) | Rest | Blk (a : Z).

(** The cells a [zend_mm_free_block **] may point to: an entry of
    [large_free_buckets], or a [child] field of a block. *)
Inductive cell := Bucket (i : Z) | Child (a : Z) (k : bool).

(** The [parent] field: [NULL], ZEND_MM_REST_BLOCK, or a cell. *)
Inductive pptr := PNull | PRest | PCell (c : cell).

#[export] Instance fptr_eq_dec : EqDecision fptr.
Proof. solve_decision. Defined.
#[export] Instance cell_eq_dec : EqDecision cell.
Proof. solve_decision. Defined.
#[export] Instance pptr_eq_dec : EqDecision pptr.
Proof. solve_decision. Defined.
#[export] Instance fptr_countable : Countable fptr.
Proof.
  apply (inj_countable' (λ p, match p with Null => inl true | Rest => inl false | Small i => inr (inl i) | Blk a => inr (inr a) end)
    (λ s : bool + (Z + Z), match s with inl true => Null | inl false => Rest | inr (inl i) => Small i | inr (inr a) => Blk a end)).
  by intros [].
Defined.
#[export] Instance cell_countable : Countable cell.
Proof.
  apply (inj_countable' (λ c, match c with Bucket i => inl i | Child a k => inr (a, k) end)
    (λ s : Z + Z * bool, match s with inl i => Bucket i | inr (a, k) => Child a k end)).
  by intros [].
Defined.

(** * The free lists *)

(** The part of [struct _zend_mm_heap] the free-list functions work on, with
    the link fields of the blocks.  A NULL child or bucket is 0. *)
Record mm_lists := MkLists {
  free_bitmap : Z;
  large_free_bitmap : Z;
  rest_count : Z;
  prev_free_block : gmap fptr fptr;
  next_free_block : gmap fptr fptr;
  parent : gmap Z pptr;
  cells : gmap cell Z;
}.

Definition set_free_bitmap v L := MkLists v (large_free_bitmap L) (rest_count L) (prev_free_block L) (next_free_block L) (parent L) (cells L).
Definition set_large_free_bitmap v L := MkLists (free_bitmap L) v (rest_count L) (prev_free_block L) (next_free_block L) (parent L) (cells L).
Definition set_rest_count v L := MkLists (free_bitmap L) (large_free_bitmap L) v (prev_free_block L) (next_free_block L) (parent L) (cells L).
Definition put_prev x y L := MkLists (free_bitmap L) (large_free_bitmap L) (rest_count L) (<[x := y]> (prev_free_block L)) (next_free_block L) (parent L) (cells L).
Definition put_next x y L := MkLists (free_bitmap L) (large_free_bitmap L) (rest_count L) (prev_free_block L) (<[x := y]> (next_free_block L)) (parent L) (cells L).
Definition put_parent a p L := MkLists (free_bitmap L) (large_free_bitmap L) (rest_count L) (prev_free_block L) (next_free_block L) (<[a := p]> (parent L)) (cells L).
Definition put_cell c a L := MkLists (free_bitmap L) (large_free_bitmap L) (rest_count L) (prev_free_block L) (next_free_block L) (parent L) (<[c := a]> (cells L)).

(** Stores through a pointer that was read from memory: undefined unless the
    field is one that exists. *)
Definition store_prev x y L : outcome mm_lists :=
  if decide (is_Some (prev_free_block L !! x)) then OK (put_prev x y L) else UB.
Definition store_next x y L : outcome mm_lists :=
  if decide (is_Some (next_free_block L !! x)) then OK (put_next x y L) else UB.
Definition store_parent a p L : outcome mm_lists :=
  if decide (is_Some (parent L !! a)) then OK (put_parent a p L) else UB.
Definition store_cell c a L : outcome mm_lists :=
  if decide (is_Some (cells L !! c)) then OK (put_cell c a L) else UB.

(** The block a link points to; a fake block is no block. *)
Definition as_block (p : fptr) : outcome Z :=
  match p with Blk a => OK a | _ => UB end.
(** The cell a [parent] field points to. *)
Definition as_cell (p : pptr) : outcome cell :=
  match p with PCell c => OK c | _ => UB end.

(** * Segments and block headers *)

(** The memory obtained from the storage layer ([regions]: address and
    length), the headers of the segments and blocks in it, and the bytes the
    program has stored in its blocks. *)
Record mm_store := MkStore {
  regions : gmap Z Z;
  seg_size : gmap Z Z;
  seg_next : gmap Z Z;
  info_size : gmap Z Z;
  info_prev : gmap Z Z;
  data : gmap Z Z;
}.

Definition put_seg_size a v S := MkStore (regions S) (<[a := v]> (seg_size S)) (seg_next S) (info_size S) (info_prev S) (data S).
Definition put_seg_next a v S := MkStore (regions S) (seg_size S) (<[a := v]> (seg_next S)) (info_size S) (info_prev S) (data S).
Definition put_size a v S := MkStore (regions S) (seg_size S) (seg_next S) (<[a := v]> (info_size S)) (info_prev S) (data S).
Definition put_info_prev a v S := MkStore (regions S) (seg_size S) (seg_next S) (info_size S) (<[a := v]> (info_prev S)) (data S).
Definition set_data v S := MkStore (regions S) (seg_size S) (seg_next S) (info_size S) (info_prev S) v.
Definition set_regions v S := MkStore v (seg_size S) (seg_next S) (info_size S) (info_prev S) (data S).

(** [a .. a + 16) lies in a region. *)
Definition mapped (S : mm_store) (a : Z) : Prop :=
  map_Exists (λ r n, r ≤ a ∧ a + ZEND_MM_ALIGNED_HEADER_SIZE ≤ r + n) (regions S).
#[export] Instance mapped_dec S a : Decision (mapped S a).
Proof. unfold mapped. apply _. Defined.

Definition store_size a v S : outcome mm_store := if decide (mapped S a) then OK (put_size a v S) else UB.
Definition store_info_prev a v S : outcome mm_store := if decide (mapped S a) then OK (put_info_prev a v S) else UB.

(** ZEND_MM_BLOCK_SIZE, ZEND_MM_FREE_BLOCK_SIZE, ZEND_MM_IS_FREE_BLOCK,
    ZEND_MM_IS_GUARD_BLOCK, ZEND_MM_PREV_BLOCK_IS_FREE, ZEND_MM_PREV_BLOCK,
    ZEND_MM_IS_FIRST_BLOCK *)
Definition ZEND_MM_BLOCK_SIZE S b : outcome Z :=
  let* s := rd (info_size S !! b) in OK (Z.land s (Z.lnot ZEND_MM_TYPE_MASK)).
Definition ZEND_MM_FREE_BLOCK_SIZE S b : outcome Z := rd (info_size S !! b).
Definition ZEND_MM_IS_FREE_BLOCK S b : outcome bool :=
  let* s := rd (info_size S !! b) in OK (Z.land s ZEND_MM_USED_BLOCK =? 0).
Definition ZEND_MM_IS_GUARD_BLOCK S b : outcome bool :=
  let* s := rd (info_size S !! b) in OK (Z.land s ZEND_MM_TYPE_MASK =? ZEND_MM_GUARD_BLOCK).
Definition ZEND_MM_PREV_BLOCK_IS_FREE S b : outcome bool :=
  let* p := rd (info_prev S !! b) in OK (Z.land p ZEND_MM_USED_BLOCK =? 0).
Definition ZEND_MM_PREV_BLOCK S b : outcome Z :=
  let* p := rd (info_prev S !! b) in OK (b - Z.land p (Z.lnot ZEND_MM_TYPE_MASK)).
Definition ZEND_MM_IS_FIRST_BLOCK S b : outcome bool :=
  let* p := rd (info_prev S !! b) in OK (p =? ZEND_MM_GUARD_BLOCK).

(** The size, with the tag, goes to the block and to the one behind it. *)
Definition ZEND_MM_BLOCK b type size S : outcome mm_store :=
  let* S := store_size b (Z.lor type size) S in
  store_info_prev (b + size) (Z.lor type size) S.
Definition ZEND_MM_LAST_BLOCK b S : outcome mm_store :=
  store_size b (Z.lor ZEND_MM_GUARD_BLOCK ZEND_MM_ALIGNED_HEADER_SIZE) S.
Definition ZEND_MM_MARK_FIRST_BLOCK b S : outcome mm_store := store_info_prev b ZEND_MM_GUARD_BLOCK S.

(** [size], [_prev] and the neighbours agree. *)
Definition ZEND_MM_CHECK_BLOCK_LINKAGE S b : outcome unit :=
  let* s := rd (info_size S !! b) in
  let* np := rd (info_prev S !! (b + s)) in
  if negb (s =? np) then Bailout
  else
    let* first := ZEND_MM_IS_FIRST_BLOCK S b in
    if first then OK tt
    else
      let* q := ZEND_MM_PREV_BLOCK S b in
      let* qs := rd (info_size S !! q) in
      let* p := rd (info_prev S !! b) in
      if qs =? p then OK tt else Bailout.

(** * The storage layer *)

(** The handlers of zend_mm_storage (malloc, realloc and free of the C library,
    or mmap): given the regions handed out so far, a new region or NULL.  A
    region is aligned, lies in the address space and overlaps no other. *)
Definition region_ok (R : gmap Z Z) (p n : Z) : Prop :=
  0 < p ∧ (ZEND_MM_ALIGNMENT | p) ∧ p + n ≤ 2 ^ 64 ∧ map_Forall (λ q m, p + n ≤ q ∨ q + m ≤ p) R.

Class MMStorage := {
  storage_alloc : gmap Z Z → Z → option Z;
  storage_alloc_ok R n p : 0 < n → storage_alloc R n = Some p → region_ok R p n;
  storage_realloc : gmap Z Z → Z → Z → option Z;
  storage_realloc_ok R q m n p : 0 < n → R !! q = Some m →
    storage_realloc R q n = Some p → region_ok (delete q R) p n;
}.

(** What a region's memory held is gone once it is freed. *)
Definition outside (p n a : Z) : Prop := a < p ∨ p + n ≤ a.
Abbreviation wipe p n := (filter (λ kv, outside p n kv.1)).
Definition fptr_outside p n (x : fptr) : Prop := match x with Blk a => outside p n a | _ => True end.
Definition cell_outside p n (c : cell) : Prop := match c with Child a _ => outside p n a | Bucket _ => True end.
#[export] Instance outside_dec p n a : Decision (outside p n a).
Proof. unfold outside. apply _. Defined.
#[export] Instance fptr_outside_dec p n x : Decision (fptr_outside p n x).
Proof. destruct x; simpl; apply _. Defined.
#[export] Instance cell_outside_dec p n c : Decision (cell_outside p n c).
Proof. destruct c; simpl; apply _. Defined.

Definition wipe_lists p n L : mm_lists :=
  MkLists (free_bitmap L) (large_free_bitmap L) (rest_count L)
    (filter (λ kv, fptr_outside p n kv.1) (prev_free_block L)) (filter (λ kv, fptr_outside p n kv.1) (next_free_block L))
    (wipe p n (parent L)) (filter (λ kv, cell_outside p n kv.1) (cells L)).
Definition wipe_store p n S : mm_store :=
  MkStore (delete p (regions S)) (wipe p n (seg_size S)) (wipe p n (seg_next S))
    (wipe p n (info_size S)) (wipe p n (info_prev S)) (wipe p n (data S)).

(** A region of [m] bytes at [p] becomes one of [n] bytes at [q], with the
    contents of the bytes they share. *)
Definition relocate {A} p m q n (M : gmap Z A) : gmap Z A :=
  kmap (Z.add (q - p)) (filter (λ kv, ¬ outside p (Z.min m n) kv.1) M) ∪ wipe p m M.
Definition relocate_store p m q n S : mm_store :=
  MkStore (<[q := n]> (delete p (regions S))) (relocate p m q n (seg_size S)) (relocate p m q n (seg_next S))
    (relocate p m q n (info_size S)) (relocate p m q n (info_prev S)) (relocate p m q n (data S)).

(** [memcpy] on the program's bytes. *)
Definition mm_memcpy (dst src n : Z) (D : gmap Z Z) : gmap Z Z :=
  foldr (λ i D', match D !! (src + i) with Some v => <[dst + i := v]> D' | None => delete (dst + i) D' end) D (seqZ 0 n).
