(* ===== verification/MmBits.v ===== *)
(** Sizes, bitmaps and bit scans of the memory manager. *)

From S2P Require Import Prelude ZendMmTypes.

(** * The portable loops of zend_mm_high_bit and zend_mm_low_bit *)

Lemma high_bit_loop_log2 fuel s n : 0 < s < 2 ^ Z.of_nat fuel → high_bit_loop fuel s n = n + Z.log2 s.
Proof.
  revert s n. induction fuel as [|fuel IH]; intros s n Hs; [lia|]. simpl.
  destruct (Z.eqb_spec s 0); [lia|]. rewrite Z.shiftr_div_pow2 by lia. change (2 ^ 1) with 2.
  destruct (decide (s = 1)) as [->|]; [by destruct fuel; simpl; lia|].
  rewrite Nat2Z.inj_succ, Z.pow_succ_r in Hs by lia.
  assert (1 ≤ s / 2) by (apply Z.div_le_lower_bound; lia).
  assert (s / 2 < 2 ^ Z.of_nat fuel) by (apply Z.div_lt_upper_bound; lia).
  rewrite IH by lia.
  replace (s / 2) with (Z.shiftr s 1) by (by rewrite Z.shiftr_div_pow2).
  rewrite Z.log2_shiftr by lia. assert (1 ≤ Z.log2 s) by (apply Z.log2_le_pow2; lia). lia.
Qed.
Lemma zend_mm_high_bit_log2 s : 0 < s < 2 ^ 64 → zend_mm_high_bit s = Z.log2 s.
Proof. intros Hs. unfold zend_mm_high_bit. rewrite high_bit_loop_log2; [lia|exact Hs]. Qed.

Definition is_low_bit (s n : Z) : Prop := 0 ≤ n ∧ Z.testbit s n = true ∧ ∀ j, j < n → Z.testbit s j = false.

Lemma land15_testbit s j : 0 ≤ j < 4 → Z.testbit (Z.land s 15) j = Z.testbit s j.
Proof. intros Hj. change 15 with (Z.ones 4). rewrite Z.land_spec, Z.ones_spec_low by lia. by rewrite andb_true_r. Qed.

Lemma low_bit_offset_table x : 0 < x < 16 →
  low_bit_offset x < 4 ∧ 0 ≤ low_bit_offset x ∧ Z.testbit x (low_bit_offset x) = true ∧
  ∀ j, 0 ≤ j < low_bit_offset x → Z.testbit x j = false.
Proof.
  intros Hx. assert (x ∈ seqZ 1 15) as Hin by (apply elem_of_seqZ; lia). clear Hx. revert x Hin.
  assert (Forall (λ x, low_bit_offset x < 4 ∧ 0 ≤ low_bit_offset x ∧ Z.testbit x (low_bit_offset x) = true ∧
    Forall (λ j, Z.testbit x j = false) (seqZ 0 (low_bit_offset x))) (seqZ 1 15)) as Hall.
  { apply (bool_decide_unpack _). by vm_compute. }
  rewrite Forall_forall in Hall. intros x Hx. destruct (Hall x Hx) as (? & ? & ? & Hf). split_and!; try done.
  intros j Hj. rewrite Forall_forall in Hf. apply Hf, elem_of_seqZ. lia.
Qed.
Lemma low_bit_offset_spec s : let n := low_bit_offset (Z.land s 15) in
  (n = 4 ∧ Z.land s 15 = 0) ∨ (n < 4 ∧ is_low_bit s n).
Proof.
  assert (0 ≤ Z.land s 15 < 16) as Hr. { change 15 with (Z.ones 4). rewrite Z.land_ones by lia. apply Z.mod_pos_bound. lia. }
  intros n. destruct (decide (Z.land s 15 = 0)) as [H0|H0]; [left; unfold n; by rewrite H0|right].
  destruct (low_bit_offset_table (Z.land s 15)) as (Hn & ? & Ht & Hj); [lia|].
  split; [done|]. split; [done|]. split; [by rewrite <- (land15_testbit s) by lia|].
  intros j Hlt. destruct (decide (j < 0)); [by apply Z.testbit_neg_r|].
  rewrite <- (land15_testbit s) by lia. apply Hj. lia.
Qed.

Lemma low_bit_loop_spec fuel s index : 0 < s < 2 ^ (4 * Z.of_nat (S fuel)) →
  ∃ n, low_bit_loop fuel s index = index + n ∧ is_low_bit s n.
Proof.
  revert s index. induction fuel as [|fuel IH]; intros s index Hs; simpl; pose proof (low_bit_offset_spec s) as Ho; simpl in Ho.
  - exists (low_bit_offset (Z.land s 15)). split; [done|]. destruct Ho as [[_ H0]|[_ Ho]]; [|done].
    change 15 with (Z.ones 4) in H0. rewrite Z.land_ones in H0 by lia.
    change (2 ^ (4 * Z.of_nat 1)) with 16 in Hs. rewrite Z.mod_small in H0; change (2 ^ 4) with 16; lia.
  - destruct Ho as [[Hn H0]|[Hn Ho]].
    + rewrite Hn. simpl. change 15 with (Z.ones 4) in H0. rewrite Z.land_ones in H0 by lia.
      assert (s = 2 ^ 4 * (s / 2 ^ 4)) as Hs'. { rewrite (Z.div_mod s (2 ^ 4)) at 1; lia. }
      assert (0 < s / 2 ^ 4) by nia.
      assert (s / 2 ^ 4 < 2 ^ (4 * Z.of_nat (S fuel))) as Hlt.
      { apply Z.div_lt_upper_bound; [lia|]. rewrite <- Z.pow_add_r by lia. replace (4 + 4 * Z.of_nat (S fuel)) with (4 * Z.of_nat (S (S fuel))) by lia. lia. }
      rewrite Z.shiftr_div_pow2 by lia. destruct (IH (s / 2 ^ 4) (index + 4) ltac:(lia)) as (n & -> & Hn0 & Ht & Hj).
      exists (4 + n). split; [lia|]. split; [lia|]. split.
      * rewrite Z.div_pow2_bits in Ht by lia. by rewrite Z.add_comm.
      * intros j Hj'. destruct (decide (j < 0)); [by apply Z.testbit_neg_r|].
        destruct (decide (j < 4)) as [Hj4|Hj4].
        { rewrite Hs', Z.mul_comm. by apply Z.mul_pow2_bits_low. }
        specialize (Hj (j - 4) ltac:(lia)). rewrite Z.div_pow2_bits in Hj by lia. by replace (j - 4 + 4) with j in Hj by lia.
    + destruct (Z.eqb_spec (low_bit_offset (Z.land s 15)) 4); [lia|]. eauto.
Qed.
Lemma zend_mm_low_bit_spec s : 0 < s < 2 ^ 64 → is_low_bit s (zend_mm_low_bit s).
Proof.
  intros Hs. destruct (low_bit_loop_spec 15 s 0) as (n & Hn & Hl); [exact Hs|].
  unfold zend_mm_low_bit. rewrite Hn. done.
Qed.

(** The first bit of a bitmap from [i] on. *)
Lemma shiftr_low_bit bm i : 0 ≤ bm < 2 ^ 64 → 0 ≤ i → Z.shiftr bm i ≠ 0 →
  let j := i + zend_mm_low_bit (Z.shiftr bm i) in
  i ≤ j < 64 ∧ Z.testbit bm j = true ∧ ∀ k, i ≤ k < j → Z.testbit bm k = false.
Proof.
  intros Hbm Hi Hne. assert (0 ≤ Z.shiftr bm i) by (apply Z.shiftr_nonneg; lia).
  assert (Z.shiftr bm i ≤ bm). { rewrite Z.shiftr_div_pow2 by done. apply Z.div_le_upper_bound; [lia|]. nia. }
  destruct (zend_mm_low_bit_spec (Z.shiftr bm i)) as (Hp0 & Ht & Hj); [lia|]. intros j.
  rewrite Z.shiftr_spec in Ht by done. split_and!; [lia| |by unfold j; rewrite Z.add_comm|].
  - destruct (decide (j < 64)); [done|]. unfold j in *. rewrite Z.add_comm, Z.bits_above_log2 in Ht; [done|lia|].
    destruct (decide (bm = 0)) as [->|]; [simpl; lia|]. apply Z.log2_lt_pow2; [lia|].
    eapply Z.lt_le_trans; [exact (proj2 Hbm)|]. apply Z.pow_le_mono_r; lia.
  - intros k Hk. specialize (Hj (k - i) ltac:(lia)). rewrite Z.shiftr_spec in Hj by lia. by replace (k - i + i) with k in Hj by lia.
Qed.

(** * Setting and clearing a bit of a bitmap *)

Definition bitmap_ok (bm : Z) : Prop := 0 ≤ bm < 2 ^ 64.

Lemma bits_bound bm : 0 ≤ bm → (∀ j, 64 ≤ j → Z.testbit bm j = false) → bm < 2 ^ 64.
Proof.
  intros H0 Hj. destruct (decide (bm = 0)) as [->|]; [lia|]. apply Z.log2_lt_pow2; [lia|].
  destruct (decide (Z.log2 bm < 64)); [done|]. specialize (Hj (Z.log2 bm) ltac:(lia)).
  rewrite Z.bit_log2 in Hj by lia. done.
Qed.
Lemma bits_high bm j : bitmap_ok bm → 64 ≤ j → Z.testbit bm j = false.
Proof.
  intros Hbm Hj. destruct (decide (bm = 0)) as [->|]; [apply Z.testbit_0_l|]. unfold bitmap_ok in Hbm.
  apply Z.bits_above_log2; [lia|]. assert (Z.log2 bm < 64) by (apply Z.log2_lt_pow2; lia). lia.
Qed.

Lemma testbit_one_shl i j : 0 ≤ i < 64 → Z.testbit (ulong_wrap (Z.shiftl 1 i)) j = bool_decide (i = j).
Proof.
  intros Hi. rewrite Z.shiftl_1_l, ulong_wrap_id by (split; [lia|apply Z.pow_lt_mono_r; lia]).
  case_bool_decide as Hd; [subst; apply Z.pow2_bits_true; lia|by apply Z.pow2_bits_false; lia].
Qed.
Lemma bit_set_ok bm i : bitmap_ok bm → 0 ≤ i < 64 → bitmap_ok (Z.lor bm (ulong_wrap (Z.shiftl 1 i))).
Proof.
  intros Hbm Hi. assert (0 ≤ ulong_wrap (Z.shiftl 1 i)) by apply ulong_wrap_range. assert (0 ≤ bm) by apply Hbm.
  assert (0 ≤ Z.lor bm (ulong_wrap (Z.shiftl 1 i))) by (apply Z.lor_nonneg; lia). split; [done|].
  apply bits_bound; [done|]. intros j Hj. rewrite Z.lor_spec, testbit_one_shl, bits_high by done.
  rewrite bool_decide_false by lia. done.
Qed.
Lemma bit_set_spec bm i j : bitmap_ok bm → 0 ≤ i < 64 →
  Z.testbit (Z.lor bm (ulong_wrap (Z.shiftl 1 i))) j = Z.testbit bm j || bool_decide (i = j).
Proof. intros. by rewrite Z.lor_spec, testbit_one_shl. Qed.
Lemma bit_clear_ok bm m : bitmap_ok bm → bitmap_ok (Z.land bm (ulong_wrap m)).
Proof.
  intros Hbm. assert (0 ≤ Z.land bm (ulong_wrap m)) by (apply Z.land_nonneg; left; apply Hbm). split; [done|].
  apply bits_bound; [done|]. intros j Hj. rewrite Z.land_spec, bits_high; done.
Qed.
Lemma bit_clear_spec bm i j : bitmap_ok bm → 0 ≤ i < 64 →
  Z.testbit (Z.land bm (ulong_wrap (Z.lnot (Z.shiftl 1 i)))) j = Z.testbit bm j && negb (bool_decide (i = j)).
Proof.
  intros Hbm Hi. rewrite Z.land_spec. destruct (decide (j < 0)); [by rewrite !Z.testbit_neg_r|].
  destruct (decide (64 ≤ j)); [by rewrite bits_high|]. f_equal. unfold ulong_wrap.
  rewrite Z.mod_pow2_bits_low, Z.lnot_spec, Z.shiftl_1_l by lia. f_equal.
  case_bool_decide as Hd; [subst; apply Z.pow2_bits_true; lia|by apply Z.pow2_bits_false; lia].
Qed.

(** * Sizes *)

Lemma land_lnot_mask z k : 0 ≤ k → Z.land z (Z.lnot (2 ^ k - 1)) = 2 ^ k * (z / 2 ^ k).
Proof.
  intros Hk. replace (2 ^ k - 1) with (Z.ones k) by (rewrite Z.ones_equiv; lia).
  rewrite <- Z.ldiff_land, Z.ldiff_ones_r by done. rewrite Z.shiftl_mul_pow2, Z.shiftr_div_pow2 by done. lia.
Qed.
Lemma aligned_size_spec size : is_ulong size →
  ZEND_MM_ALIGNED_SIZE size = if size + 7 <? 2 ^ 64 then 8 * ((size + 7) / 8) else 0.
Proof.
  intros Hs. unfold ZEND_MM_ALIGNED_SIZE. change (8 - 1) with (2 ^ 3 - 1). rewrite land_lnot_mask by lia. change (2 ^ 3) with 8.
  replace (size + 8 - 1) with (size + 7) by lia. destruct (Z.ltb_spec (size + 7) (2 ^ 64)); [by rewrite ulong_wrap_id by lia|].
  unfold ulong_wrap. replace (size + 7) with (size + 7 - 2 ^ 64 + 1 * 2 ^ 64) by lia. rewrite Z.mod_add, Z.mod_small by lia.
  rewrite Z.div_small by lia. done.
Qed.

(** The size of the block for a request: enough for header and contents, or
    less than the request when the sum overflows. *)
Lemma true_size_spec size : is_ulong size →
  (8 | ZEND_MM_TRUE_SIZE size) ∧
  ((ZEND_MM_TRUE_SIZE size < size ∧ ZEND_MM_TRUE_SIZE size < 32 ∧ 2 ^ 64 - 32 < size) ∨
   (32 ≤ ZEND_MM_TRUE_SIZE size < 2 ^ 64 ∧ size + 16 ≤ ZEND_MM_TRUE_SIZE size ∧
    (ZEND_MM_TRUE_SIZE size = 32 ∨ ZEND_MM_TRUE_SIZE size < size + 24))).
Proof.
  intros Hs. unfold ZEND_MM_TRUE_SIZE. change (32 - 16) with 16. destruct (Z.ltb_spec size 16) as [Hlt|Hge].
  { split; [by exists 4|]. right. lia. }
  rewrite aligned_size_spec by apply ulong_wrap_range.
  assert (ulong_wrap (size + 16) = if size + 16 <? 2 ^ 64 then size + 16 else size + 16 - 2 ^ 64) as ->.
  { unfold ulong_wrap. destruct (Z.ltb_spec (size + 16) (2 ^ 64)); [by rewrite Z.mod_small by lia|].
    replace (size + 16) with (size + 16 - 2 ^ 64 + 1 * 2 ^ 64) at 1 by lia. rewrite Z.mod_add, Z.mod_small by lia. done. }
  destruct (Z.ltb_spec (size + 16) (2 ^ 64)).
  - destruct (Z.ltb_spec (size + 16 + 7) (2 ^ 64)); [|split; [by exists 0|left; lia]].
    split; [apply Z.divide_factor_l|]. right.
    pose proof (Z.div_mod (size + 16 + 7) 8). pose proof (Z.mod_pos_bound (size + 16 + 7) 8). lia.
  - destruct (Z.ltb_spec (size + 16 - 2 ^ 64 + 7) (2 ^ 64)); [|split; [by exists 0|left; lia]].
    split; [apply Z.divide_factor_l|]. left.
    pose proof (Z.div_mod (size + 16 - 2 ^ 64 + 7) 8). pose proof (Z.mod_pos_bound (size + 16 - 2 ^ 64 + 7) 8). lia.
Qed.

(** The bucket of a small block. *)
Lemma bucket_index_spec ts : 32 ≤ ts < 544 → ZEND_MM_BUCKET_INDEX ts = ts / 8 - 4.
Proof.
  intros Hts. unfold ZEND_MM_BUCKET_INDEX. rewrite !Z.shiftr_div_pow2 by lia. change (2 ^ 3) with 8. change (32 / 8) with 4.
  assert (4 ≤ ts / 8) by (apply Z.div_le_lower_bound; lia). assert (ts / 8 < 68) by (apply Z.div_lt_upper_bound; lia).
  rewrite ulong_wrap_id by lia. done.
Qed.
Lemma bucket_index_range ts : 32 ≤ ts < 544 → 0 ≤ ZEND_MM_BUCKET_INDEX ts < 64.
Proof.
  intros Hts. rewrite bucket_index_spec by done.
  assert (4 ≤ ts / 8) by (apply Z.div_le_lower_bound; lia). assert (ts / 8 < 68) by (apply Z.div_lt_upper_bound; lia). lia.
Qed.
Lemma bucket_index_size ts i : 32 ≤ ts < 544 → (8 | ts) → ZEND_MM_BUCKET_INDEX ts = i → ts = 8 * (i + 4).
Proof. intros Hts [k ->] <-. rewrite bucket_index_spec by done. rewrite Z.div_mul by lia. lia. Qed.

(** * Tags *)

Definition tag (sz : Z) (used : bool) : Z := if used then sz + 1 else sz.

Lemma land_div8 sz k : (8 | sz) → 0 ≤ k < 8 → ∀ m, 0 ≤ m < 8 → Z.land (sz + k) m = Z.land k m.
Proof.
  intros [q ->] Hk m Hm. apply Z.bits_inj'. intros j Hj. rewrite !Z.land_spec.
  destruct (decide (j < 3)).
  - f_equal. rewrite <- (Z.mod_pow2_bits_low (q * 8 + k) 3 j), <- (Z.mod_pow2_bits_low k 3 j) by lia.
    f_equal. change (2 ^ 3) with 8. rewrite Z.add_comm, Z.mod_add by lia. done.
  - assert (Z.testbit m j = false) as ->.
    { destruct (decide (m = 0)) as [->|]; [apply Z.testbit_0_l|]. apply Z.bits_above_log2; [lia|].
      assert (Z.log2 m < 3) by (apply Z.log2_lt_pow2; lia). lia. }
    by rewrite !andb_false_r.
Qed.
Lemma lor_tag sz t : (8 | sz) → 0 ≤ t < 8 → Z.lor t sz = sz + t.
Proof.
  intros Hd Ht. rewrite Z.lor_comm. pose proof (land_div8 sz 0 Hd ltac:(lia) t Ht) as Hl.
  rewrite Z.add_0_r, Z.land_0_l in Hl. rewrite <- Z.lxor_lor by done. by rewrite Z.add_nocarry_lxor.
Qed.
Lemma lor_used sz : (8 | sz) → Z.lor 1 sz = tag sz true.
Proof. intros. by rewrite lor_tag by (done || lia). Qed.
Lemma lor_free sz : (8 | sz) → Z.lor 0 sz = tag sz false.
Proof. intros. rewrite lor_tag by (done || lia). simpl. lia. Qed.
Lemma tag_size sz t : (8 | sz) → 0 ≤ t < 4 → Z.land (sz + t) (Z.lnot 3) = sz.
Proof.
  intros [q ->] Ht. change 3 with (2 ^ 2 - 1). rewrite land_lnot_mask by lia. change (2 ^ 2) with 4.
  replace (q * 8 + t) with (t + (2 * q) * 4) by lia. rewrite Z.div_add, Z.div_small by lia. lia.
Qed.
Lemma tag_block_size sz u : (8 | sz) → Z.land (tag sz u) (Z.lnot 3) = sz.
Proof. intros Hd. destruct u; simpl; [by apply tag_size; [|lia]|]. rewrite <- (Z.add_0_r sz) at 1. apply tag_size; [done|lia]. Qed.
Lemma tag_is_free sz u : (8 | sz) → (Z.land (tag sz u) 1 =? 0) = negb u.
Proof. intros Hd. destruct u; simpl; [by rewrite land_div8 by (done || lia)|]. rewrite <- (Z.add_0_r sz). by rewrite land_div8 by (done || lia). Qed.
Lemma tag_is_guard sz u : (8 | sz) → (Z.land (tag sz u) 3 =? 3) = false.
Proof. intros Hd. destruct u; simpl; [by rewrite land_div8 by (done || lia)|]. rewrite <- (Z.add_0_r sz). by rewrite land_div8 by (done || lia). Qed.
Lemma tag_not_first sz u : (8 | sz) → tag sz u ≠ 3.
Proof. intros [q ->]. destruct u; simpl; lia. Qed.
Lemma tag_inj s1 u1 s2 u2 : (8 | s1) → (8 | s2) → tag s1 u1 = tag s2 u2 → s1 = s2 ∧ u1 = u2.
Proof. intros [q ->] [r ->]. destruct u1, u2; simpl; split; (lia || done || (exfalso; lia)). Qed.
