(* ===== verification/ZendMmFree.v ===== *)
(** The free lists of Zend/zend_alloc.c: the buckets of small free blocks, the
    bitwise tries of large ones, and the list of rest blocks. *)

From S2P Require Import Prelude ZendMmTypes.

Section free_lists.
(** The [info._size] fields, which the functions here only read. *)
Context (S : mm_store).
Implicit Types (L : mm_lists) (b p : Z).

(** A size is spelled by at most 64 bits, so no path in a trie is longer. *)
Definition tree_fuel : nat := 65.

(** ** zend_mm_add_to_free_list *)

(** [prev->next_free_block = next->prev_free_block = mm_block], with
    the links of [mm_block] to its neighbours. *)
Definition link_after (prev next : fptr) b L : outcome mm_lists :=
  let L := put_next (Blk b) next (put_prev (Blk b) prev L) in
  let* L := store_prev next (Blk b) L in
  store_next prev (Blk b) L.

(** The walk down the trie of blocks with the same highest bit: [m] holds the
    remaining bits of the size, the next one on top. *)
Fixpoint add_walk (fuel : nat) (size b m p : Z) L : outcome mm_lists :=
  match fuel with
  | O => UB
  | Datatypes.S fuel =>
      let prev := p in
      let* psize := ZEND_MM_FREE_BLOCK_SIZE S prev in
      if negb (psize =? size) then
        let c := Child prev (negb (Z.land (Z.shiftr m (ZEND_MM_NUM_BUCKETS - 1)) 1 =? 0)) in
        let* q := rd (cells L !! c) in
        if q =? 0 then
          let L := put_parent b (PCell c) (put_cell c b L) in
          OK (put_next (Blk b) (Blk b) (put_prev (Blk b) (Blk b) L))
        else add_walk fuel size b (ulong_wrap (Z.shiftl m 1)) q L
      else
        let* next := rd (next_free_block L !! Blk prev) in
        let* L := link_after (Blk prev) next b L in
        OK (put_parent b PNull L)
  end.

Definition zend_mm_add_to_free_list b L : outcome mm_lists :=
  let* size := ZEND_MM_FREE_BLOCK_SIZE S b in
  if negb (ZEND_MM_SMALL_SIZE size) then
    let index := ZEND_MM_LARGE_BUCKET_INDEX size in
    let L := put_cell (Child b false) 0 (put_cell (Child b true) 0 L) in
    let* p := rd (cells L !! Bucket index) in
    if p =? 0 then
      let L := put_parent b (PCell (Bucket index)) (put_cell (Bucket index) b L) in
      let L := put_next (Blk b) (Blk b) (put_prev (Blk b) (Blk b) L) in
      OK (set_large_free_bitmap (Z.lor (large_free_bitmap L) (ulong_wrap (Z.shiftl 1 index))) L)
    else add_walk tree_fuel size b (ulong_wrap (Z.shiftl size (ZEND_MM_NUM_BUCKETS - index))) p L
  else
    let index := ZEND_MM_BUCKET_INDEX size in
    let prev := Small index in
    let* pp := rd (prev_free_block L !! prev) in
    let L := if decide (pp = prev)
             then set_free_bitmap (Z.lor (free_bitmap L) (ulong_wrap (Z.shiftl 1 index))) L else L in
    let* next := rd (next_free_block L !! prev) in
    link_after prev next b L.

(** ** zend_mm_remove_from_free_list *)

(** ZEND_MM_CHECK_TREE *)
Definition ZEND_MM_CHECK_TREE b L : outcome unit :=
  let* c := rd (parent L !! b) in
  let* c := as_cell c in
  let* q := rd (cells L !! c) in
  if q =? b then OK tt else Bailout.

(** One child of the block that takes the place of [b]. *)
Definition subst_child (b prev : Z) (k : bool) L : outcome mm_lists :=
  let* q := rd (cells L !! Child b k) in
  let L := put_cell (Child prev k) q L in
  if q =? 0 then OK L
  else
    let* _ := ZEND_MM_CHECK_TREE q L in
    store_parent q (PCell (Child prev k)) L.

(** The label [subst_block]: [prev] takes the place of [b] in the trie. *)
Definition subst_block (b prev : Z) L : outcome mm_lists :=
  let* _ := ZEND_MM_CHECK_TREE b L in
  let* pp := rd (parent L !! b) in
  let* c := as_cell pp in
  let* L := store_cell c prev L in
  let* L := store_parent prev pp L in
  let* L := subst_child b prev false L in
  subst_child b prev true L.

(** [&prev->child[prev->child[1] != NULL]] *)
Definition deep_child (p : Z) L : outcome cell :=
  let* r := rd (cells L !! Child p true) in OK (Child p (negb (r =? 0))).

(** The walk from [prev], found in cell [rp], down to a leaf. *)
Fixpoint leaf_walk (fuel : nat) (rp : cell) (prev : Z) L : outcome (cell * Z) :=
  match fuel with
  | O => UB
  | Datatypes.S fuel =>
      let* cp := deep_child prev L in
      let* q := rd (cells L !! cp) in
      if q =? 0 then OK (rp, prev) else leaf_walk fuel cp q L
  end.

Definition zend_mm_remove_from_free_list b L : outcome mm_lists :=
  let* prev := rd (prev_free_block L !! Blk b) in
  let* next := rd (next_free_block L !! Blk b) in
  let* size := ZEND_MM_FREE_BLOCK_SIZE S b in
  if decide (prev = Blk b) then
    if decide (next ≠ Blk b) then Bailout
    else
      let* rp := deep_child b L in
      let* prev := rd (cells L !! rp) in
      if prev =? 0 then
        let index := ZEND_MM_LARGE_BUCKET_INDEX size in
        let* _ := ZEND_MM_CHECK_TREE b L in
        let* pp := rd (parent L !! b) in
        let* c := as_cell pp in
        let* L := store_cell c 0 L in
        if decide (c = Bucket index)
        then OK (set_large_free_bitmap (Z.land (large_free_bitmap L) (ulong_wrap (Z.lnot (Z.shiftl 1 index)))) L)
        else OK L
      else
        let* r := leaf_walk tree_fuel rp prev L in
        let L := put_cell r.1 0 L in
        subst_block b r.2 L
  else
    let* pn := rd (next_free_block L !! prev) in
    let* np := rd (prev_free_block L !! next) in
    if decide (pn ≠ Blk b ∨ np ≠ Blk b) then Bailout
    else
      let* L := store_next prev next L in
      let* L := store_prev next prev L in
      if ZEND_MM_SMALL_SIZE size then
        if decide (prev = next) then
          let index := ZEND_MM_BUCKET_INDEX size in
          let* fp := rd (prev_free_block L !! Small index) in
          let* fn := rd (next_free_block L !! Small index) in
          if decide (fp = fn)
          then OK (set_free_bitmap (Z.land (free_bitmap L) (ulong_wrap (Z.lnot (Z.shiftl 1 index)))) L)
          else OK L
        else OK L
      else
        let* pp := rd (parent L !! b) in
        if decide (pp = PRest) then OK (set_rest_count (rest_count L - 1) L)
        else if decide (pp ≠ PNull) then
          let* q := as_block prev in subst_block b q L
        else OK L.

(** ** zend_mm_add_to_rest_list *)

(** While there are too many large blocks in the list, its oldest block moves
    to the free lists. *)
Fixpoint rest_evict (fuel : nat) L : outcome mm_lists :=
  if ZEND_MM_MAX_REST_BLOCKS <=? rest_count L then
    match fuel with
    | O => UB
    | Datatypes.S fuel =>
        let* oldest := rd (next_free_block L !! Rest) in
        let* p := as_block oldest in
        let* size := ZEND_MM_FREE_BLOCK_SIZE S p in
        let L := if negb (ZEND_MM_SMALL_SIZE size) then set_rest_count (rest_count L - 1) L else L in
        let* prev := rd (prev_free_block L !! Blk p) in
        let* next := rd (next_free_block L !! Blk p) in
        let* L := store_next prev next L in
        let* L := store_prev next prev L in
        let* L := zend_mm_add_to_free_list p L in
        rest_evict fuel L
    end
  else OK L.

Definition zend_mm_add_to_rest_list b L : outcome mm_lists :=
  let* L := rest_evict (size (next_free_block L)) L in
  let* sz := ZEND_MM_FREE_BLOCK_SIZE S b in
  let L := if negb (ZEND_MM_SMALL_SIZE sz) then set_rest_count (rest_count L + 1) (put_parent b PRest L) else L in
  let* prev := rd (prev_free_block L !! Rest) in
  let* next := rd (next_free_block L !! prev) in
  link_after prev next b L.

(** ** zend_mm_search_large_block *)

(** [best_fit->next_free_block] *)
Definition next_in_ring p L : outcome Z :=
  let* q := rd (next_free_block L !! Blk p) in as_block q.

(** The first loop.  It returns a block of the exact size, or the best block
    on the path (NULL and (size_t) -1 if there is none) and the last right
    subtree it passed by. *)
Fixpoint search_path (fuel : nat) L (true_size m p best_fit best_size rst : Z) : outcome (Z + Z * Z * Z) :=
  match fuel with
  | O => UB
  | Datatypes.S fuel =>
      let* size := ZEND_MM_FREE_BLOCK_SIZE S p in
      if size =? true_size then let* q := next_in_ring p L in OK (inl q)
      else
        let '(best_fit, best_size) :=
          if (true_size <=? size) && (size <? best_size) then (p, size) else (best_fit, best_size) in
        let* l := rd (cells L !! Child p false) in
        let* r := rd (cells L !! Child p true) in
        let m' := ulong_wrap (Z.shiftl m 1) in
        if Z.land m (Z.shiftl 1 (ZEND_MM_NUM_BUCKETS - 1)) =? 0 then
          let rst := if r =? 0 then rst else r in
          if l =? 0 then OK (inr (best_fit, best_size, rst))
          else search_path fuel L true_size m' l best_fit best_size rst
        else if r =? 0 then OK (inr (best_fit, best_size, rst))
        else search_path fuel L true_size m' r best_fit best_size rst
  end.

(** [p->child[p->child[0] != NULL]] *)
Definition shallow_child (p : Z) L : outcome Z :=
  let* l := rd (cells L !! Child p false) in rd (cells L !! Child p (negb (l =? 0))).

(** The second loop, over the subtree that was passed by. *)
Fixpoint search_rst (fuel : nat) L (true_size p best_fit best_size : Z) : outcome (Z + Z) :=
  if p =? 0 then OK (inr best_fit)
  else
    match fuel with
    | O => UB
    | Datatypes.S fuel =>
        let* size := ZEND_MM_FREE_BLOCK_SIZE S p in
        if size =? true_size then let* q := next_in_ring p L in OK (inl q)
        else
          let '(best_fit, best_size) :=
            if (true_size <? size) && (size <? best_size) then (p, size) else (best_fit, best_size) in
          let* q := shallow_child p L in
          search_rst fuel L true_size q best_fit best_size
    end.

(** The last loop, over a bucket all blocks of which are big enough. *)
Fixpoint search_smallest (fuel : nat) L (p best_fit : Z) : outcome Z :=
  match fuel with
  | O => UB
  | Datatypes.S fuel =>
      let* p := shallow_child p L in
      if p =? 0 then OK best_fit
      else
        let* size := ZEND_MM_FREE_BLOCK_SIZE S p in
        let* best_size := ZEND_MM_FREE_BLOCK_SIZE S best_fit in
        search_smallest fuel L p (if size <? best_size then p else best_fit)
  end.

(** "Search for smallest large free block", from [index] on. *)
Definition search_higher L (index bitmap : Z) : outcome (option Z) :=
  let* p := rd (cells L !! Bucket (index + zend_mm_low_bit bitmap)) in
  let* best_fit := search_smallest tree_fuel L p p in
  let* q := next_in_ring best_fit L in
  OK (Some q).

Definition zend_mm_search_large_block (true_size : Z) L : outcome (option Z) :=
  let index := ZEND_MM_LARGE_BUCKET_INDEX true_size in
  let bitmap := Z.shiftr (large_free_bitmap L) index in
  if bitmap =? 0 then OK None
  else if negb (Z.land bitmap 1 =? 0) then
    let* p := rd (cells L !! Bucket index) in
    let* r := search_path tree_fuel L true_size (ulong_wrap (Z.shiftl true_size (ZEND_MM_NUM_BUCKETS - index)))
                p 0 ULONG_MAX 0 in
    match r with
    | inl q => OK (Some q)
    | inr (best_fit, best_size, rst) =>
        let* r := search_rst tree_fuel L true_size rst best_fit best_size in
        match r with
        | inl q => OK (Some q)
        | inr best_fit =>
            if negb (best_fit =? 0) then let* q := next_in_ring best_fit L in OK (Some q)
            else
              let bitmap := Z.shiftr bitmap 1 in
              if bitmap =? 0 then OK None else search_higher L (index + 1) bitmap
        end
    end
  else search_higher L index bitmap.

(** The scan of the rest list in [_zend_mm_alloc_int], from its newest block
    to its oldest; the result is 0 when no block is big enough. *)
Fixpoint search_rest (fuel : nat) L (true_size : Z) (p : fptr) (best_fit best_size : Z) : outcome Z :=
  if decide (p = Rest) then OK best_fit
  else
    match fuel with
    | O => UB
    | Datatypes.S fuel =>
        let* a := as_block p in
        let* size := ZEND_MM_FREE_BLOCK_SIZE S a in
        if size =? true_size then OK a
        else
          let '(best_fit, best_size) :=
            if (true_size <? size) && (size <? best_size) then (a, size) else (best_fit, best_size) in
          let* q := rd (prev_free_block L !! p) in
          search_rest fuel L true_size q best_fit best_size
    end.
End free_lists.

(** ** zend_mm_init: the part on the free lists *)

Definition init_lists (L : mm_lists) : mm_lists :=
  let L := foldr (λ i L, put_cell (Bucket i) 0 (put_prev (Small i) (Small i) (put_next (Small i) (Small i) L)))
             (set_large_free_bitmap 0 (set_free_bitmap 0 L)) (seqZ 0 ZEND_MM_NUM_BUCKETS) in
  set_rest_count 0 (put_prev Rest Rest (put_next Rest Rest L)).
