(* ===== verification/MmTrie.v ===== *)
(** The tries of large free blocks: their shape, how they lie in memory, and
    the entering of a block. *)

From S2P Require Import Prelude ZendMmTypes MmBits ZendMmFree Cyc.

(** A node is a block, with the other blocks of the same size, and the
    subtrees [child[0]] and [child[1]]. *)
Inductive trie := Leaf | Node (a : Z) (os : list Z) (l r : trie).

#[export] Instance trie_eq_dec : EqDecision trie.
Proof. solve_decision. Defined.

Abbreviation blks l := (@fmap list list_fmap Z fptr Blk l).

Fixpoint elems (t : trie) : list Z :=
  match t with Leaf => [] | Node a os l r => a :: os ++ elems l ++ elems r end.

Definition troot (t : trie) : Z := match t with Leaf => 0 | Node a _ _ _ => a end.

(** The trie as the code sees it, hung in the cell [c]. *)
Fixpoint trep (L : mm_lists) (c : cell) (t : trie) : Prop :=
  match t with
  | Leaf => cells L !! c = Some 0
  | Node a os l r =>
      cells L !! c = Some a ∧ a ≠ 0 ∧ parent L !! a = Some (PCell c) ∧
      cyc (prev_free_block L) (next_free_block L) (blks (a :: os)) ∧
      (∀ o, o ∈ os → parent L !! o = Some PNull) ∧
      trep L (Child a false) l ∧ trep L (Child a true) r
  end.

(** All sizes in a subtree [n] levels above the last agree, without their [n]
    low bits; the next bit tells the subtrees apart. *)
Fixpoint tok (F : gmap Z Z) (n : nat) (pfx : Z) (t : trie) {struct t} : Prop :=
  match t with
  | Leaf => True
  | Node a os l r =>
      (∃ s, (∀ x, x ∈ a :: os → F !! x = Some s) ∧ 0 ≤ s ∧ s / 2 ^ Z.of_nat n = pfx) ∧
      match n with
      | O => l = Leaf ∧ r = Leaf
      | S n => tok F n (2 * pfx) l ∧ tok F n (2 * pfx + 1) r
      end
  end.

Lemma tok_node F n pfx a os l r : tok F n pfx (Node a os l r) ↔
  (∃ s, (∀ x, x ∈ a :: os → F !! x = Some s) ∧ 0 ≤ s ∧ s / 2 ^ Z.of_nat n = pfx) ∧
  match n with
  | O => l = Leaf ∧ r = Leaf
  | S n => tok F n (2 * pfx) l ∧ tok F n (2 * pfx + 1) r
  end.
Proof. reflexivity. Qed.

(** * Prefixes and the shifted size [m] of the walks *)

Lemma prefix_step s n : 0 ≤ n → s / 2 ^ n = 2 * (s / 2 ^ (n + 1)) + Z.b2z (Z.testbit s n).
Proof.
  intros Hn. rewrite Z.testbit_spec' by done. rewrite Z.pow_add_r, <- Z.div_div by lia. change (2 ^ 1) with 2.
  apply Z.div_mod. lia.
Qed.
Lemma prefix_up s n pfx k : 0 ≤ n → s / 2 ^ n = 2 * pfx + Z.b2z k → s / 2 ^ (n + 1) = pfx.
Proof. intros Hn Hs. rewrite prefix_step in Hs by done. destruct k, (Z.testbit s n); simpl in Hs; lia. Qed.
Lemma prefix_bit s n pfx k : 0 ≤ n → s / 2 ^ n = 2 * pfx + Z.b2z k → Z.testbit s n = k.
Proof. intros Hn Hs. rewrite prefix_step in Hs by done. destruct k, (Z.testbit s n); simpl in Hs; lia || done. Qed.

#[local] Arguments Z.shiftl : simpl never.
#[local] Arguments Z.shiftr : simpl never.
#[local] Arguments ulong_wrap : simpl never.

Definition mask_m (size : Z) (n : nat) : Z := ulong_wrap (Z.shiftl size (64 - Z.of_nat n)).
Lemma mask_m_step size n : (n < 64)%nat → ulong_wrap (Z.shiftl (mask_m size (S n)) 1) = mask_m size n.
Proof.
  intros Hn. unfold mask_m, ulong_wrap. rewrite !Z.shiftl_mul_pow2 by lia. rewrite Z.mul_mod_idemp_l by lia.
  rewrite <- Z.mul_assoc, <- Z.pow_add_r by lia. f_equal. f_equal. f_equal. lia.
Qed.
Lemma mask_m_bit size n : (n < 64)%nat → Z.testbit (mask_m size (S n)) 63 = Z.testbit size (Z.of_nat n).
Proof.
  intros Hn. unfold mask_m, ulong_wrap. rewrite Z.mod_pow2_bits_low, Z.shiftl_spec by lia. f_equal. lia.
Qed.
Lemma land_shiftr_bit m k : 0 ≤ k → (Z.land (Z.shiftr m k) 1 =? 0) = negb (Z.testbit m k).
Proof.
  intros Hk. change 1 with (Z.ones 1) at 1. rewrite Z.land_ones by lia. change (2 ^ 1) with 2.
  rewrite <- Z.bit0_mod, Z.shiftr_spec by lia. rewrite Z.add_0_l. by destruct (Z.testbit m k).
Qed.
Lemma land_top_bit m : (Z.land m (Z.shiftl 1 63) =? 0) = negb (Z.testbit m 63).
Proof.
  rewrite Z.shiftl_1_l. destruct (Z.testbit m 63) eqn:Ht; simpl.
  - apply Z.eqb_neq. intros H0. assert (Z.testbit (Z.land m (2 ^ 63)) 63 = true) as Hb; [|by rewrite H0 in Hb].
    by rewrite Z.land_spec, Ht, Z.pow2_bits_true by lia.
  - apply Z.eqb_eq, Z.bits_inj'. intros j Hj. rewrite Z.land_spec, Z.bits_0. destruct (decide (j = 63)) as [->|]; [by rewrite Ht|].
    by rewrite Z.pow2_bits_false, andb_false_r by lia.
Qed.

(** * Frames *)

Definition cell_out (X : list Z) (c : cell) : Prop := match c with Child x _ => x ∉ X | Bucket _ => True end.

(** [L'] differs from [L] only in the fields of the blocks [X] and in [c]. *)
Record tframe (X : list Z) (c : cell) L L' : Prop := {
  tf_prev : ∀ k, (∀ x, x ∈ X → k ≠ Blk x) → prev_free_block L' !! k = prev_free_block L !! k;
  tf_next : ∀ k, (∀ x, x ∈ X → k ≠ Blk x) → next_free_block L' !! k = next_free_block L !! k;
  tf_parent : ∀ x, x ∉ X → parent L' !! x = parent L !! x;
  tf_cells : ∀ c', c' ≠ c → cell_out X c' → cells L' !! c' = cells L !! c';
}.
Lemma tframe_refl X c L : tframe X c L L.
Proof. by split. Qed.
Lemma tframe_trans X c L1 L2 L3 : tframe X c L1 L2 → tframe X c L2 L3 → tframe X c L1 L3.
Proof.
  intros [P1 N1 A1 C1] [P2 N2 A2 C2]. split; intros.
  - by rewrite P2, P1. - by rewrite N2, N1. - by rewrite A2, A1. - by rewrite C2, C1.
Qed.
Lemma tframe_weaken X c X' c' L L' : X ⊆ X' → c = c' ∨ ¬ cell_out X' c → tframe X c L L' → tframe X' c' L L'.
Proof.
  intros HX Hc [P1 N1 A1 C1]. split; intros.
  - apply P1. eauto. - apply N1. eauto. - apply A1. set_solver.
  - apply C1; [destruct Hc as [->|Hc]; [done|by intros ->]|]. destruct c'0; simpl in *; [done|set_solver].
Qed.

(** The fields of one block. *)
Definition same_at L L' a : Prop :=
  prev_free_block L' !! Blk a = prev_free_block L !! Blk a ∧ next_free_block L' !! Blk a = next_free_block L !! Blk a ∧
  parent L' !! a = parent L !! a ∧ ∀ k, cells L' !! Child a k = cells L !! Child a k.

Lemma tframe_same X c L L' a : tframe X c L L' → a ∉ X → (∀ k, c ≠ Child a k) → same_at L L' a.
Proof.
  intros [P1 N1 A1 C1] Ha Hc. split_and!.
  - apply P1. intros x Hx [= ->]. done. - apply N1. intros x Hx [= ->]. done. - by apply A1.
  - intros k. apply C1; [by intros <-; eapply Hc|done].
Qed.

Lemma cyc_blk_same L L' (l : list Z) : (∀ a, a ∈ l → same_at L L' a) →
  cyc (prev_free_block L) (next_free_block L) (blks l) → cyc (prev_free_block L') (next_free_block L') (blks l).
Proof. intros Hs. apply cyc_frame. intros k (x & -> & Hx)%list_elem_of_fmap. by destruct (Hs x Hx) as (? & ? & _). Qed.

Lemma trep_frame L L' c t : (∀ a, a ∈ elems t → same_at L L' a) → cells L' !! c = cells L !! c → trep L c t → trep L' c t.
Proof.
  revert c. induction t as [|a os l IHl r IHr]; intros c Hs Hc; simpl in *; [by rewrite Hc|].
  destruct (Hs a ltac:(set_solver)) as (_ & _ & Hpa & Hch). intros (H1 & H2 & H3 & H4 & H5 & H6 & H7).
  rewrite Hc, Hpa. split_and!; [done..| | |apply IHl|apply IHr]; try done.
  - revert H4. apply (cyc_blk_same L L' (a :: os)). set_solver.
  - intros o Ho. destruct (Hs o ltac:(set_solver)) as (_ & _ & -> & _). auto.
  - set_solver. - set_solver.
Qed.

Lemma trep_root L c t : trep L c t → cells L !! c = Some (troot t).
Proof. destruct t; simpl; tauto. Qed.
Lemma trep_root_zero L c t : trep L c t → (troot t =? 0) = bool_decide (t = Leaf).
Proof.
  destruct t; simpl; [done|]. intros (_ & ? & _). by apply Z.eqb_neq.
Qed.

(** * Sizes in a trie *)

Lemma tok_elems F n pfx t x : tok F n pfx t → x ∈ elems t → ∃ s, F !! x = Some s ∧ 0 ≤ s ∧ s / 2 ^ Z.of_nat n = pfx.
Proof.
  revert n pfx. induction t as [|a os l IHl r IHr]; intros n pfx; simpl; [set_solver|].
  intros [(s & Hs & ? & ?) Hc] Hx. rewrite !elem_of_cons, !elem_of_app in Hx.
  destruct n as [|n]; simpl in Hc; [destruct Hc as [-> ->]; simpl in Hx; exists s; set_solver|].
  destruct Hc as [Hl Hr]. destruct Hx as [->|[Hx|[Hx|Hx]]]; [exists s; set_solver..| |].
  - destruct (IHl _ _ Hl Hx) as (s' & ? & ? & Hp). exists s'. split_and!; [done..|].
    rewrite Nat2Z.inj_succ. apply (prefix_up _ _ _ false); [lia|]. simpl. lia.
  - destruct (IHr _ _ Hr Hx) as (s' & ? & ? & Hp). exists s'. split_and!; [done..|].
    rewrite Nat2Z.inj_succ. apply (prefix_up _ _ _ true); [lia|]. simpl. lia.
Qed.
Lemma tok_frame F F' n pfx t : (∀ x, x ∈ elems t → F' !! x = F !! x) → tok F n pfx t → tok F' n pfx t.
Proof.
  revert n pfx. induction t as [|a os l IHl r IHr]; intros n pfx HF; simpl in *; [done|].
  intros [(s & Hs & ? & ?) Hc]. split; [exists s; split_and!; [|done..]; intros x Hx; rewrite HF; [auto|set_solver]|].
  destruct n; [done|]. destruct Hc. split; [apply IHl|apply IHr]; [set_solver|done|set_solver|done].
Qed.

(** * The calls of zend_mm_add_to_free_list in a trie *)

Definition scalars L : Z * Z * Z := (free_bitmap L, large_free_bitmap L, rest_count L).

Lemma link_after_OK prev next b L : is_Some (prev_free_block L !! next) → is_Some (next_free_block L !! prev) →
  link_after prev next b L = OK (put_next prev (Blk b) (put_prev next (Blk b) (put_next (Blk b) next (put_prev (Blk b) prev L)))).
Proof.
  intros Hp Hn. unfold link_after, store_prev, store_next. simpl.
  rewrite decide_True by (by rewrite lookup_insert_is_Some; destruct (decide (Blk b = next)); auto). simpl.
  rewrite decide_True by (by rewrite lookup_insert_is_Some; destruct (decide (Blk b = prev)); auto). done.
Qed.

(** Entering [b] behind [s] in a ring. *)
Lemma link_after_cyc L s l b : cyc (prev_free_block L) (next_free_block L) (s :: l) → Blk b ∉ s :: l →
  ∃ L', link_after s (default s (head l)) b L = OK L' ∧ cyc (prev_free_block L') (next_free_block L') (s :: Blk b :: l) ∧
    parent L' = parent L ∧ cells L' = cells L ∧ scalars L' = scalars L ∧
    (∀ k, k ∉ s :: Blk b :: l → prev_free_block L' !! k = prev_free_block L !! k ∧ next_free_block L' !! k = next_free_block L !! k).
Proof.
  intros Hc Hb. destruct (cyc_back _ _ _ _ Hc) as [_ Hp]. destruct (cyc_links _ _ _ _ Hc) as [Hn _].
  eexists. split; [apply link_after_OK; eauto|]. split_and!; [|done..|].
  - simpl. by apply cyc_insert.
  - intros k Hk. simpl. assert (default s (head l) ∈ s :: l) by (destruct l; set_solver).
    rewrite !lookup_insert_ne; set_solver.
Qed.

Section trie.
Context (S : mm_store) (F : gmap Z Z) (HF : ∀ a s, F !! a = Some s → info_size S !! a = Some s ∧ a ≠ 0).

Lemma add_walk_spec t n pfx c fuel size b L :
  (n < fuel)%nat → (n ≤ 64)%nat → t ≠ Leaf → trep L c t → tok F n pfx t → NoDup (elems t) → cell_out (b :: elems t) c →
  0 ≤ size → size / 2 ^ Z.of_nat n = pfx → b ∉ elems t → b ≠ 0 →
  (∀ k, cells L !! Child b k = Some 0) →
  ∃ L' t', add_walk S fuel size b (mask_m size n) (troot t) L = OK L' ∧ trep L' c t' ∧ tok (<[b := size]> F) n pfx t' ∧
    t' ≠ Leaf ∧ elems t' ≡ₚ b :: elems t ∧ tframe (b :: elems t) c L L' ∧ scalars L' = scalars L.
Proof using HF.
  revert n pfx c fuel L. induction t as [|p os l IHl r IHr]; intros n pfx c fuel L Hfuel Hn Ht Hrep Htok Hnd Hout H0 Hpfx Hb Hb0 Hch; [done|].
  clear Ht. destruct fuel as [|fuel]; [lia|]. cbn [add_walk troot]. pose proof Hrep as Hrep0.
  destruct Hrep as (Hc & Hp0 & Hpar & Hcyc & Hos & Hl & Hr). pose proof Htok as Htok0. apply tok_node in Htok as [(s & Hs & Hs0 & Hsp) Hsub].
  destruct (HF p s) as [Hsz _]; [set_solver|]. unfold ZEND_MM_FREE_BLOCK_SIZE. rewrite Hsz. ob.
  simpl in Hnd, Hb, Hout. apply NoDup_cons in Hnd as [Hnp Hnd].
  assert (NoDup (elems l) ∧ NoDup (elems r) ∧ (∀ x, x ∈ elems l → x ∉ elems r) ∧ (∀ x, x ∈ os → x ∉ elems l ++ elems r)) as (Hndl & Hndr & Hdlr & Hdos).
  { apply NoDup_app in Hnd as (_ & Hd & Hlr). apply NoDup_app in Hlr as (? & ? & ?). naive_solver. }
  destruct (Z.eqb_spec s size) as [->|Hne]; cbn [negb].
  - (* a block of the same size: into its ring *)
    destruct (link_after_cyc L (Blk p) (blks os) b Hcyc) as (L1 & HL1 & Hcyc1 & Hpa & Hce & Hsc & Hfr).
    { set_solver. }
    destruct (cyc_links _ _ (Blk p) (blks os) Hcyc) as [Hnx _]. rewrite Hnx. ob. rewrite HL1. ob.
    exists (put_parent b PNull L1), (Node p (b :: os) l r).
    assert (∀ a, a ∉ p :: b :: os → same_at L (put_parent b PNull L1) a) as Hsame.
    { intros a Ha. destruct (Hfr (Blk a)) as [Hf1 Hf2]; [set_solver|]. split_and!; simpl; [done|done| |by rewrite Hce].
      rewrite lookup_insert_ne by set_solver. by rewrite Hpa. }
    split; [done|]. split; [|split; [|split; [done|split; [|split]]]].
    + simpl. rewrite Hce, lookup_insert_ne, Hpa by set_solver. split_and!; try done.
      * intros o Ho. destruct (decide (o = b)) as [->|]; [by rewrite lookup_insert_eq|].
        rewrite lookup_insert_ne by done. apply Hos. set_solver.
      * revert Hl. apply trep_frame; [intros a Ha; apply Hsame; set_solver|simpl; by rewrite Hce].
      * revert Hr. apply trep_frame; [intros a Ha; apply Hsame; set_solver|simpl; by rewrite Hce].
    + apply (tok_frame F (<[b := size]> F)) in Htok0; [|intros x Hx; rewrite lookup_insert_ne; set_solver].
      apply tok_node. apply tok_node in Htok0 as [(s' & Hs' & Hs0' & Hsp') ?]. split; [|done]. exists size. split_and!; [|done..].
      intros x Hx. destruct (decide (x = b)) as [->|]; [by rewrite lookup_insert_eq|]. rewrite lookup_insert_ne by done. apply Hs. set_solver.
    + simpl. solve_Permutation.
    + split; simpl.
      * intros k Hk. apply Hfr. rewrite !elem_of_cons, list_elem_of_fmap. intros [->|[->|(x & -> & ?)]]; eapply Hk; eauto; set_solver.
      * intros k Hk. apply Hfr. rewrite !elem_of_cons, list_elem_of_fmap. intros [->|[->|(x & -> & ?)]]; eapply Hk; eauto; set_solver.
      * intros x Hx. rewrite lookup_insert_ne by set_solver. by rewrite Hpa.
      * intros. by rewrite Hce.
    + exact Hsc.
  - (* down the trie *)
    destruct n as [|n].
    { exfalso. rewrite Z.pow_0_r, Z.div_1_r in Hsp, Hpfx. lia. }
    rewrite land_shiftr_bit, negb_involutive, mask_m_bit by lia.
    set (k := Z.testbit size (Z.of_nat n)). set (u := if k then r else l).
    assert (trep L (Child p k) u) as Hu by (unfold u; destruct k; done).
    assert (size / 2 ^ Z.of_nat n = 2 * pfx + Z.b2z k) as Hpk.
    { rewrite prefix_step by lia. fold k. rewrite Nat2Z.inj_succ in Hpfx. rewrite <- Z.add_1_r in Hpfx. by rewrite Hpfx. }
    assert (tok F n (2 * pfx + Z.b2z k) u) as Hku.
    { unfold u. destruct Hsub, k; simpl; [done|by rewrite Z.add_0_r]. }
    assert (elems u ⊆ elems l ++ elems r) as Hue by (unfold u; destruct k; set_solver).
    assert (∀ L' u', trep L' (Child p k) u' → tframe (b :: elems u) (Child p k) L L' → tok (<[b:=size]> F) n (2 * pfx + Z.b2z k) u' →
      elems u' ≡ₚ b :: elems u → let t' := if k then Node p os l u' else Node p os u' r in
      trep L' c t' ∧ tok (<[b:=size]> F) (Datatypes.S n) pfx t' ∧ t' ≠ Leaf ∧ elems t' ≡ₚ b :: elems (Node p os l r) ∧
      tframe (b :: elems (Node p os l r)) c L L') as Hbuild.
    { intros L' u' Hrep' Hfr Htok' Hel.
      assert (∀ x, x ∈ os ++ elems (if k then l else r) → same_at L L' x) as Hsame.
      { intros x Hx. eapply tframe_same; [exact Hfr| |].
        - unfold u. destruct k; set_solver.
        - intros k' [= <- _]. unfold u in Hue. destruct k; set_solver. }
      assert (cells L' !! c = Some p) as Hc'.
      { rewrite (tf_cells _ _ _ _ Hfr); [done| |].
        - intros ->. simpl in Hout. set_solver.
        - destruct c; simpl in *; [done|]. set_solver. }
      assert (parent L' !! p = Some (PCell c)) as Hpar' by (rewrite (tf_parent _ _ _ _ Hfr); [done|set_solver]).
      assert (cyc (prev_free_block L') (next_free_block L') (blks (p :: os))) as Hcyc'.
      { revert Hcyc. apply cyc_frame. intros z (x & -> & Hx)%list_elem_of_fmap. split.
        - apply (tf_next _ _ _ _ Hfr). intros y Hy [= <-]. set_solver.
        - apply (tf_prev _ _ _ _ Hfr). intros y Hy [= <-]. set_solver. }
      assert (∀ o, o ∈ os → parent L' !! o = Some PNull) as Hos'.
      { intros o Ho. rewrite (tf_parent _ _ _ _ Hfr); [auto|]. set_solver. }
      assert (trep L' (Child p (negb k)) (if k then l else r)) as Hoth.
      { assert (trep L (Child p (negb k)) (if k then l else r)) as Ho by (destruct k; done).
        revert Ho. apply trep_frame; [intros x Hx; apply Hsame; set_solver|].
        apply (tf_cells _ _ _ _ Hfr); [by destruct k|simpl; set_solver]. }
      assert (tok (<[b:=size]> F) n (2 * pfx + Z.b2z (negb k)) (if k then l else r)) as Hotok.
      { apply (tok_frame F); [intros x Hx; rewrite lookup_insert_ne; [done|destruct k; set_solver]|].
        destruct Hsub, k; simpl; [by rewrite Z.add_0_r|done]. }
      assert (∃ s0, (∀ x, x ∈ p :: os → <[b:=size]> F !! x = Some s0) ∧ 0 ≤ s0 ∧ s0 / 2 ^ Z.of_nat (Datatypes.S n) = pfx) as Hsz'.
      { exists s. split_and!; [|done..]. intros x Hx. rewrite lookup_insert_ne by set_solver. auto. }
      split_and!.
      - destruct k; simpl; split_and!; done.
      - destruct k; simpl in *; rewrite ?Z.add_0_r in *; split; (split || idtac); done.
      - by destruct k.
      - unfold u in Hel. destruct k; simpl; rewrite Hel; solve_Permutation.
      - revert Hfr. apply tframe_weaken; [set_solver|]. right. simpl. intros Hn'. apply Hn'. set_solver. }
    rewrite (trep_root _ _ _ Hu). ob. rewrite (trep_root_zero _ _ _ Hu). case_bool_decide as Hleaf.
    + (* the empty subtree *)
      clearbody u. subst u. eexists _, _. split; [reflexivity|].
      match goal with |- trep ?L1 _ _ ∧ _ => set (L' := L1) end.
      destruct (Hbuild L' (Node b [] Leaf Leaf)) as (? & ? & ? & ? & ?); [..|by split_and!]; unfold L'; clear L' Hbuild; simpl.
      * assert (p ≠ b) by set_solver. rewrite !lookup_insert_eq. rewrite !lookup_insert_ne by congruence. rewrite !Hch. split_and!; try done; [apply cyc_single|set_solver].
      * split; simpl.
        -- intros z Hz. rewrite lookup_insert_ne; [done|]. intros <-. eapply Hz; [|done]. set_solver.
        -- intros z Hz. rewrite lookup_insert_ne; [done|]. intros <-. eapply Hz; [|done]. set_solver.
        -- intros x Hx. rewrite lookup_insert_ne; [done|]. set_solver.
        -- intros c' Hc' _. by rewrite lookup_insert_ne.
      * split; [|by destruct n]. exists size. split_and!; [|done..]. intros x ->%list_elem_of_singleton. by rewrite lookup_insert_eq.
      * done.
    + (* a subtree to walk through *)
      rewrite mask_m_step by lia.
      assert (∃ L' u', add_walk S fuel size b (mask_m size n) (troot u) L = OK L' ∧ trep L' (Child p k) u' ∧
        tok (<[b:=size]> F) n (2 * pfx + Z.b2z k) u' ∧ u' ≠ Leaf ∧ elems u' ≡ₚ b :: elems u ∧ tframe (b :: elems u) (Child p k) L L' ∧ scalars L' = scalars L) as IH.
      { assert (NoDup (elems u)) by (unfold u; destruct k; done).
        assert (cell_out (b :: elems u) (Child p k)) by (simpl; set_solver).
        unfold u in *. destruct k; [apply IHr|apply IHl]; try done; try lia; set_solver. }
      destruct IH as (L' & u' & -> & Hrep' & Htok' & Hnl & Hel & Hfr & Hsc).
      destruct (Hbuild L' u') as (? & ? & ? & ? & ?); [done..|]. eexists _, _. by split_and!.
Qed.
End trie.
