(* ===== verification/MmTrieDel.v ===== *)
(** Taking a block out of a trie of large free blocks. *)

From S2P Require Import Prelude ZendMmTypes MmBits ZendMmFree Cyc MmTrie.

Lemma check_tree_OK L b c : parent L !! b = Some (PCell c) → cells L !! c = Some b → ZEND_MM_CHECK_TREE b L = OK tt.
Proof. intros Hp Hc. unfold ZEND_MM_CHECK_TREE. rewrite Hp. ob. cbn [as_cell]. ob. rewrite Hc. ob. by rewrite Z.eqb_refl. Qed.

(** Only the cell of a subtree and the [parent] of its root say where it hangs. *)
Lemma trep_move L L' c c' t :
  trep L c t → cells L' !! c' = Some (troot t) → (t ≠ Leaf → parent L' !! troot t = Some (PCell c')) →
  (∀ k, prev_free_block L' !! k = prev_free_block L !! k) → (∀ k, next_free_block L' !! k = next_free_block L !! k) →
  (∀ x, x ∈ elems t → x ≠ troot t → parent L' !! x = parent L !! x) → NoDup (elems t) →
  (∀ x k, x ∈ elems t → cells L' !! Child x k = cells L !! Child x k) → trep L' c' t.
Proof.
  destruct t as [|a os l r]; simpl; [done|]. intros (H1 & H2 & H3 & H4 & H5 & H6 & H7) Hc Hp Hpf Hnf Hpar [Ha Hnd]%NoDup_cons Hch.
  assert (∀ x, x ∈ os ++ elems l ++ elems r → same_at L L' x) as Hsame.
  { intros x Hx. split_and!; [auto|auto| |intros k; apply Hch; set_solver]. apply Hpar; [set_solver|]. intros ->. done. }
  split_and!; try done.
  - by apply Hp.
  - revert H4. apply cyc_frame. intros k Hk. by rewrite Hpf, Hnf.
  - intros o Ho. rewrite Hpar; [auto|set_solver|]. intros ->. set_solver.
  - revert H6. apply trep_frame; [intros x Hx; apply Hsame; set_solver|]. apply Hch. set_solver.
  - revert H7. apply trep_frame; [intros x Hx; apply Hsame; set_solver|]. apply Hch. set_solver.
Qed.

(** The child of [b] on side [k] becomes the one of [q]. *)
Lemma subst_child_spec L b q k t : trep L (Child b k) t → q ≠ b →
  ∃ L', subst_child b q k L = OK L' ∧
    prev_free_block L' = prev_free_block L ∧ next_free_block L' = next_free_block L ∧ scalars L' = scalars L ∧
    cells L' = <[Child q k := troot t]> (cells L) ∧
    (∀ x, x ≠ troot t ∨ t = Leaf → parent L' !! x = parent L !! x) ∧
    (t ≠ Leaf → parent L' !! troot t = Some (PCell (Child q k))).
Proof.
  intros Ht Hq. unfold subst_child. rewrite (trep_root _ _ _ Ht). ob. rewrite (trep_root_zero _ _ _ Ht).
  destruct (decide (t = Leaf)) as [->|Hl]; [rewrite bool_decide_true by done; eexists; split; [done|by split_and!]|].
  rewrite bool_decide_false by done. destruct t as [|a os l r]; [done|]. destruct Ht as (H1 & H2 & H3 & _).
  rewrite (check_tree_OK _ _ (Child b k)); [|done|by simpl; rewrite lookup_insert_ne by congruence]. ob.
  unfold store_parent. simpl. rewrite decide_True by eauto. eexists. split; [done|split_and!; try done; simpl].
  - intros x [Hx|?]; [by rewrite lookup_insert_ne|done].
  - intros _. by rewrite lookup_insert_eq.
Qed.

Lemma troot_elem t : t ≠ Leaf → troot t ∈ elems t.
Proof. destruct t; simpl; [done|set_solver]. Qed.
Lemma troot_ne t x : x ∉ elems t → x ≠ troot t ∨ t = Leaf.
Proof. destruct (decide (t = Leaf)); [by right|left]. intros ->. by apply H, troot_elem. Qed.

Lemma subst_block_spec L b q c l r :
  cells L !! c = Some b → parent L !! b = Some (PCell c) → is_Some (parent L !! q) →
  trep L (Child b false) l → trep L (Child b true) r → NoDup (q :: b :: elems l ++ elems r) → cell_out (q :: b :: elems l ++ elems r) c →
  ∃ L', subst_block b q L = OK L' ∧ cells L' !! c = Some q ∧ parent L' !! q = Some (PCell c) ∧
    trep L' (Child q false) l ∧ trep L' (Child q true) r ∧
    prev_free_block L' = prev_free_block L ∧ next_free_block L' = next_free_block L ∧ scalars L' = scalars L ∧
    (∀ x, x ∉ q :: elems l ++ elems r → parent L' !! x = parent L !! x) ∧
    (∀ c', c' ≠ c → cell_out [q] c' → cells L' !! c' = cells L !! c').
Proof.
  intros Hc Hb Hq Hl Hr Hnd Hout. unfold subst_block. rewrite (check_tree_OK _ _ c) by done. ob. rewrite Hb. ob. cbn [as_cell]. ob.
  unfold store_cell. rewrite decide_True by eauto. ob. unfold store_parent at 1. simpl. rewrite decide_True by done. ob.
  apply NoDup_cons in Hnd as [Hq1 [Hb1 Hnd]%NoDup_cons]. apply NoDup_app in Hnd as (Hndl & Hd & Hndr).
  set (L1 := put_parent q (PCell c) (put_cell c q L)).
  assert (q ≠ b) as Hqb by set_solver.
  assert (∀ x, x ∈ elems l ++ elems r → same_at L L1 x) as Hs1.
  { intros x Hx. split_and!; [done..|unfold L1; simpl; by rewrite lookup_insert_ne by set_solver|].
    intros k. unfold L1. simpl. rewrite lookup_insert_ne; [done|]. intros ->. simpl in Hout. set_solver. }
  assert (∀ k, cells L1 !! Child b k = cells L !! Child b k) as Hb2.
  { intros k. unfold L1. simpl. rewrite lookup_insert_ne; [done|]. intros ->. simpl in Hout. set_solver. }
  assert (trep L1 (Child b false) l) as Hl1 by (revert Hl; apply trep_frame; [intros; apply Hs1; set_solver|auto]).
  assert (trep L1 (Child b true) r) as Hr1 by (revert Hr; apply trep_frame; [intros; apply Hs1; set_solver|auto]).
  destruct (subst_child_spec L1 b q false l Hl1 Hqb) as (L2 & -> & Hp2 & Hn2 & Hs2 & Hc2 & Ha2 & Ha2'). ob.
  assert (∀ x, x ∈ elems r → same_at L1 L2 x) as Hs3.
  { intros x Hx. split_and!; [by rewrite Hp2|by rewrite Hn2| |].
    - apply Ha2, troot_ne. intros ?. by apply (Hd x).
    - intros k. rewrite Hc2, lookup_insert_ne; [done|]. intros [= -> <-]. set_solver. }
  assert (trep L2 (Child b true) r) as Hr2.
  { revert Hr1. apply trep_frame; [done|]. rewrite Hc2. by rewrite lookup_insert_ne by congruence. }
  destruct (subst_child_spec L2 b q true r Hr2 Hqb) as (L3 & -> & Hp3 & Hn3 & Hs4 & Hc3 & Ha3 & Ha3').
  assert (∀ x, x ≠ q → parent L1 !! x = parent L !! x) as Ha1 by (intros; unfold L1; simpl; by rewrite lookup_insert_ne).
  assert (∀ x, x ∉ q :: elems l ++ elems r → parent L3 !! x = parent L !! x) as Hpar.
  { intros x Hx. rewrite Ha3, Ha2, Ha1; [done|set_solver|apply troot_ne; set_solver|apply troot_ne; set_solver]. }
  exists L3. split; [done|]. split_and!.
  - rewrite Hc3, Hc2, !lookup_insert_ne by (intros <-; simpl in Hout; set_solver). unfold L1. simpl. by rewrite lookup_insert_eq.
  - rewrite Ha3, Ha2 by (apply troot_ne; set_solver). unfold L1. simpl. by rewrite lookup_insert_eq.
  - apply (trep_move L1 L3 (Child b false)); [done|..].
    + rewrite Hc3, lookup_insert_ne, Hc2 by congruence. by rewrite lookup_insert_eq.
    + intros Hne. rewrite Ha3; [by apply Ha2'|]. apply troot_ne. intros ?. apply (Hd (troot l)); [by apply troot_elem|done].
    + intros k. by rewrite Hp3, Hp2.
    + intros k. by rewrite Hn3, Hn2.
    + intros x Hx Hne. rewrite Ha3, Ha2; [done|by left|apply troot_ne, Hd, Hx].
    + done.
    + intros x k Hx. rewrite Hc3, Hc2, !lookup_insert_ne by (intros [= -> _]; set_solver). done.
  - apply (trep_move L2 L3 (Child b true)); [done|..].
    + rewrite Hc3. by rewrite lookup_insert_eq.
    + exact Ha3'.
    + intros k. by rewrite Hp3.
    + intros k. by rewrite Hn3.
    + intros x Hx Hne. apply Ha3. by left.
    + done.
    + intros x k Hx. rewrite Hc3, !lookup_insert_ne by (intros [= -> _]; set_solver). done.
  - by rewrite Hp3, Hp2.
  - by rewrite Hn3, Hn2.
  - by rewrite Hs4, Hs2.
  - exact Hpar.
  - intros c' Hne Ho. rewrite Hc3, Hc2, !lookup_insert_ne by (intros <-; simpl in Ho; set_solver). unfold L1. simpl. by rewrite lookup_insert_ne by congruence.
Qed.

(** * Taking a node out of a ring *)

Definition unlinked (p n : fptr) L : mm_lists := put_prev n p (put_next p n L).

Lemma unlink_cyc L x l : cyc (prev_free_block L) (next_free_block L) (x :: l) → l ≠ [] →
  ∃ p n, last l = Some p ∧ head l = Some n ∧ p ≠ x ∧
    prev_free_block L !! x = Some p ∧ next_free_block L !! x = Some n ∧
    next_free_block L !! p = Some x ∧ prev_free_block L !! n = Some x ∧
    store_next p n L = OK (put_next p n L) ∧ store_prev n p (put_next p n L) = OK (unlinked p n L) ∧
    cyc (prev_free_block (unlinked p n L)) (next_free_block (unlinked p n L)) l ∧
    (∀ k, k ∉ l → prev_free_block (unlinked p n L) !! k = prev_free_block L !! k ∧ next_free_block (unlinked p n L) !! k = next_free_block L !! k).
Proof.
  intros Hc Hl. destruct (cyc_links _ _ _ _ Hc) as [Hn Hp], (cyc_back _ _ _ _ Hc) as [Hbn Hbp].
  destruct (last l) as [p|] eqn:Hlast; [|by apply last_None in Hlast]. destruct (head l) as [n|] eqn:Hhead; [|by destruct l]. simpl in *.
  assert (p ∈ l) as Hpl. { rewrite last_lookup in Hlast. by eapply list_elem_of_lookup_2. }
  assert (n ∈ l) as Hnl. { destruct l; [done|]. injection Hhead as <-. set_solver. }
  exists p, n. pose proof (cyc_nodup _ _ _ Hc) as [Hx _]%NoDup_cons. split_and!; try done.
  - by intros ->.
  - unfold store_next. by rewrite decide_True by eauto.
  - unfold store_prev. simpl. by rewrite decide_True by eauto.
  - simpl. by eapply cyc_remove.
  - intros k Hk. simpl. by rewrite !lookup_insert_ne by (by intros ->).
Qed.

(** * The walk to a leaf *)

Lemma put_cell_same c v L x : cell_out [x] c → same_at L (put_cell c v L) x.
Proof.
  intros Hc. split_and!; [done..|]. intros k. simpl. rewrite lookup_insert_ne; [done|]. intros ->. simpl in Hc. set_solver.
Qed.

Section trie.
Context (S : mm_store) (F : gmap Z Z) (HF : ∀ a s, F !! a = Some s → info_size S !! a = Some s ∧ a ≠ 0).

Lemma NoDup_node a os l r : NoDup (elems (Node a os l r)) →
  (a ∉ os) ∧ (a ∉ elems l) ∧ (a ∉ elems r) ∧ NoDup os ∧ NoDup (elems l) ∧ NoDup (elems r) ∧
  (∀ x, x ∈ os → (x ∉ elems l) ∧ x ∉ elems r) ∧ (∀ x, x ∈ elems l → x ∉ elems r).
Proof.
  simpl. rewrite NoDup_cons, !not_elem_of_app. intros [(?&?&?) Hnd]. apply NoDup_app in Hnd as (? & Hd & Hlr).
  apply NoDup_app in Hlr as (? & ? & ?). split_and!; try done. intros x Hx%Hd. set_solver.
Qed.

Lemma leaf_walk_spec t n pfx rp fuel L : (n < fuel)%nat → t ≠ Leaf → trep L rp t → tok F n pfx t →
  NoDup (elems t) → cell_out (elems t) rp →
  ∃ c q qos t', leaf_walk fuel rp (troot t) L = OK (c, q) ∧ elems t ≡ₚ q :: qos ++ elems t' ∧
    (c = rp ∨ ∃ x k, c = Child x k ∧ x ∈ elems t') ∧ cyc (prev_free_block L) (next_free_block L) (blks (q :: qos)) ∧
    (∀ o, o ∈ qos → parent L !! o = Some PNull) ∧ is_Some (parent L !! q) ∧ q ≠ 0 ∧
    trep (put_cell c 0 L) rp t' ∧ tok F n pfx t' ∧ ∃ s, ∀ x, x ∈ q :: qos → F !! x = Some s.
Proof using HF.
  revert n pfx rp fuel. induction t as [|a os l IHl r IHr]; intros n pfx rp fuel Hfuel Hne Hrep Htok Hnd Hout; [done|]. clear Hne.
  destruct fuel as [|fuel]; [lia|]. cbn [leaf_walk troot].
  pose proof Hrep as Hrep0. destruct Hrep as (Hc & Hp0 & Hpar & Hcyc & Hos & Hl & Hr). pose proof Htok as Htok0.
  apply tok_node in Htok as [(s & Hs & Hs0 & Hsp) Hsub].
  destruct (NoDup_node _ _ _ _ Hnd) as (Ha1 & Ha2 & Ha3 & _ & Hndl & Hndr & Hdo & Hdlr).
  unfold deep_child. rewrite (trep_root _ _ _ Hr). ob. rewrite (trep_root_zero _ _ _ Hr).
  set (k := negb (bool_decide (r = Leaf))). set (u := if k then r else l).
  assert (trep L (Child a k) u) as Hu by (unfold u; destruct k; done).
  rewrite (trep_root _ _ _ Hu). ob. rewrite (trep_root_zero _ _ _ Hu). case_bool_decide as Hleaf.
  - (* a leaf *)
    assert (l = Leaf ∧ r = Leaf) as [-> ->].
    { unfold u, k in Hleaf. case_bool_decide; simpl in Hleaf; [by subst|done]. }
    exists rp, a, os, Leaf. split; [done|]. split_and!; eauto; simpl; [by rewrite lookup_insert_eq|done].
  - (* down *)
    destruct n as [|n].
    { exfalso. destruct Hsub as [-> ->]. unfold u in Hleaf. by destruct k. }
    assert (tok F n (2 * pfx + Z.b2z k) u) as Hku. { unfold u. destruct Hsub, k; simpl; [done|by rewrite Z.add_0_r]. }
    assert (∃ c q qos t', leaf_walk fuel (Child a k) (troot u) L = OK (c, q) ∧ elems u ≡ₚ q :: qos ++ elems t' ∧
      (c = Child a k ∨ ∃ x k', c = Child x k' ∧ x ∈ elems t') ∧ cyc (prev_free_block L) (next_free_block L) (blks (q :: qos)) ∧
      (∀ o, o ∈ qos → parent L !! o = Some PNull) ∧ is_Some (parent L !! q) ∧ q ≠ 0 ∧
      trep (put_cell c 0 L) (Child a k) t' ∧ tok F n (2 * pfx + Z.b2z k) t' ∧ ∃ s, ∀ x, x ∈ q :: qos → F !! x = Some s) as IH.
    { clear Hsub. unfold u in *. destruct k; [apply IHr|apply IHl]; done || lia. }
    clear IHl IHr. destruct IH as (c & q & qos & t' & Hw & Hel & Hwh & Hqc & Hqo & Hqp & Hq0 & Hrep' & Htok' & Hqs).
    set (t'' := if k then Node a os l t' else Node a os t' r).
    assert (elems t' ⊆ elems u) as Ht'u by (rewrite Hel; set_solver).
    assert (elems u ⊆ elems l ++ elems r) as Hue by (unfold u; destruct k; set_solver).
    assert (cell_out (os ++ elems (if k then l else r)) c ∧ c ≠ rp ∧ c ≠ Child a (negb k)) as (Hco & Hcr & Hck).
    { destruct Hwh as [->|(x & k' & -> & Hx)]; simpl.
      - split_and!; [destruct k; set_solver| |by destruct k]. intros <-. simpl in Hout. set_solver.
      - assert (x ∈ elems u) as Hxu by auto. assert (x ≠ a ∧ x ∈ elems (Node a os l r)) as [? ?] by (simpl; set_solver).
        split_and!; [|intros <-; by simpl in Hout|congruence]. unfold u in Hxu. destruct k; set_solver. }
    assert (∀ x, x ∈ os ++ elems (if k then l else r) → same_at L (put_cell c 0 L) x) as Hsame.
    { intros x Hx. apply put_cell_same. destruct c; simpl in *; [done|set_solver]. }
    exists c, q, qos, t''. split; [done|]. split_and!; try done.
    + unfold t'', u in *. destruct k; simpl; rewrite Hel; solve_Permutation.
    + right. destruct Hwh as [->|(x & k' & -> & Hx)].
      * exists a, k. split; [done|]. unfold t''. destruct k; simpl; set_solver.
      * exists x, k'. split; [done|]. unfold t''. destruct k; simpl; set_solver.
    + assert (trep (put_cell c 0 L) (Child a (negb k)) (if k then l else r)) as Hoth.
      { assert (trep L (Child a (negb k)) (if k then l else r)) as Ho by (destruct k; done).
        revert Ho. apply trep_frame; [intros x Hx; apply Hsame; set_solver|]. simpl. by rewrite lookup_insert_ne. }
      clearbody k. unfold t''. destruct k; simpl; rewrite lookup_insert_ne by done; done.
    + assert (tok F n (2 * pfx + Z.b2z (negb k)) (if k then l else r)) as Ho.
      { destruct Hsub, k; simpl; [by rewrite Z.add_0_r|done]. }
      clearbody k. unfold t''. destruct k; apply tok_node; simpl in *; rewrite ?Z.add_0_r in *; (split; [by exists s|done]).
Qed.

(** * zend_mm_remove_from_free_list on a block of a trie *)

(** What the call does: [a] is gone, and the bucket's bit is cleared when the
    bucket is empty. *)
Definition removed n pfx (c : cell) t a s L : Prop :=
  ∃ L' t', zend_mm_remove_from_free_list S a L = OK L' ∧ trep L' c t' ∧ tok F n pfx t' ∧ elems t ≡ₚ a :: elems t' ∧
    tframe (elems t) c L L' ∧ free_bitmap L' = free_bitmap L ∧ rest_count L' = rest_count L ∧
    large_free_bitmap L' = if decide (t' = Leaf ∧ c = Bucket (ZEND_MM_LARGE_BUCKET_INDEX s))
      then Z.land (large_free_bitmap L) (ulong_wrap (Z.lnot (Z.shiftl 1 (ZEND_MM_LARGE_BUCKET_INDEX s)))) else large_free_bitmap L.

(** The block [q], with its ring, takes the place of [a]. *)
Lemma subst_trep n pfx c a os l r q qos l' r' s L L1 :
  trep L c (Node a os l r) → tok F n pfx (Node a os l r) → NoDup (elems (Node a os l r)) → cell_out (elems (Node a os l r)) c →
  NoDup (q :: a :: elems l' ++ elems r') → q ∈ elems (Node a os l r) → (∀ x, x ∈ qos → x ∈ elems (Node a os l r)) →
  elems l' ++ elems r' ⊆ elems (Node a os l r) → (∀ x, x ∈ q :: qos → x ∉ a :: elems l' ++ elems r') → NoDup (q :: qos) →
  cells L1 !! c = Some a → parent L1 !! a = Some (PCell c) → is_Some (parent L1 !! q) → q ≠ 0 →
  trep L1 (Child a false) l' → trep L1 (Child a true) r' → cyc (prev_free_block L1) (next_free_block L1) (blks (q :: qos)) →
  (∀ o, o ∈ qos → parent L1 !! o = Some PNull) → (∀ x, x ∈ q :: qos → F !! x = Some s) →
  match n with O => l' = Leaf ∧ r' = Leaf | Datatypes.S n => tok F n (2 * pfx) l' ∧ tok F n (2 * pfx + 1) r' end →
  tframe (elems (Node a os l r)) c L L1 → scalars L1 = scalars L →
  ∃ L', subst_block a q L1 = OK L' ∧ trep L' c (Node q qos l' r') ∧ tok F n pfx (Node q qos l' r') ∧
    tframe (elems (Node a os l r)) c L L' ∧ scalars L' = scalars L.
Proof using HF.
  intros Hrep Htok Hnd Hout Hnd' Hq Hqos Hsub Hdis Hndq Hc Ha Hqp Hq0 Hl Hr Hcyc Ho Hs Hch Hfr Hsc.
  pose proof (tok_elems _ _ _ _ _ Htok Hq) as (s' & Hs' & Hs0 & Hsp).
  destruct (subst_block_spec L1 a q c l' r') as (L' & -> & Hc' & Hp' & Hl' & Hr' & Hpf & Hnf & Hsc' & Hpar & Hce); try done.
  { destruct c as [|x k]; simpl in *; [done|]. set_solver. }
  exists L'. split; [done|]. split_and!.
  - simpl. rewrite Hpf, Hnf. split_and!; try done. intros o Hoq. rewrite Hpar; [auto|]. apply NoDup_cons in Hndq. set_solver.
  - apply tok_node. split; [|done]. rewrite (Hs q) in Hs' by set_solver. injection Hs' as <-. by exists s.
  - eapply tframe_trans; [exact Hfr|]. split.
    + intros. by rewrite Hpf.
    + intros. by rewrite Hnf.
    + intros x Hx. apply Hpar. set_solver.
    + intros c' Hne Hoc. apply Hce; [done|]. destruct c'; simpl in *; [done|set_solver].
  - by rewrite Hsc'.
Qed.

Lemma blks_ne o l : o ∉ l → Blk o ∉ blks l.
Proof. intros Ho (x & [= ->] & ?)%list_elem_of_fmap. done. Qed.

(** The blocks of a node [a] once [q], with its ring, has left the subtree on
    side [k]. *)
Lemma hole_sets a l r (k : bool) q qos u' : NoDup (elems (Node a [] l r)) →
  elems (if k then r else l) ≡ₚ q :: qos ++ elems u' →
  let l' := if k then l else u' in let r' := if k then u' else r in
  NoDup (q :: a :: elems l' ++ elems r') ∧ q ∈ elems (Node a [] l r) ∧ (∀ x, x ∈ qos → x ∈ elems (Node a [] l r)) ∧
  elems l' ++ elems r' ⊆ elems (Node a [] l r) ∧ (∀ x, x ∈ q :: qos → x ∉ a :: elems l' ++ elems r') ∧ NoDup (q :: qos).
Proof using Type.
  clear S F HF. intros Hnd Hel l' r'.
  assert (elems (Node a [] l r) ≡ₚ (q :: qos) ++ a :: elems l' ++ elems r') as He.
  { unfold l', r'. destruct k; simpl; rewrite Hel; solve_Permutation. }
  rewrite He in Hnd. pose proof Hnd as (H1 & H2 & H3)%NoDup_app. split_and!; try done.
  - constructor; [apply H2; set_solver|done].
  - rewrite He. set_solver.
  - intros x Hx. rewrite He. set_solver.
  - rewrite He. set_solver.
Qed.

(** A block with no other of its size. *)
Lemma remove_lone n pfx c a l r s L : (n ≤ 64)%nat →
  trep L c (Node a [] l r) → tok F n pfx (Node a [] l r) → NoDup (elems (Node a [] l r)) → cell_out (elems (Node a [] l r)) c →
  F !! a = Some s → removed n pfx c (Node a [] l r) a s L.
Proof using HF.
  intros Hn Hrep Htok Hnd Hout Hs. pose proof Hrep as (Hc & Ha0 & Ha & Hcyc & _ & Hl & Hr). pose proof Htok as [_ Hsub]%tok_node.
  destruct (cyc_links _ _ (Blk a) [] Hcyc) as [Hnx Hpv]. simpl in Hnx, Hpv.
  unfold removed, zend_mm_remove_from_free_list, ZEND_MM_FREE_BLOCK_SIZE. rewrite Hpv. ob. rewrite Hnx. ob.
  destruct (HF a s Hs) as [-> _]. ob. rewrite decide_True, decide_False by (done || tauto).
  unfold deep_child. rewrite (trep_root _ _ _ Hr). ob. rewrite (trep_root_zero _ _ _ Hr).
  set (k := negb (bool_decide (r = Leaf))). set (u := if k then r else l).
  assert (trep L (Child a k) u) as Hu by (unfold u; destruct k; done).
  rewrite (trep_root _ _ _ Hu). ob. rewrite (trep_root_zero _ _ _ Hu). case_bool_decide as Hleaf.
  - (* no children *)
    assert (l = Leaf ∧ r = Leaf) as [-> ->].
    { unfold u, k in Hleaf. case_bool_decide; simpl in Hleaf; [by subst|done]. }
    rewrite (check_tree_OK _ _ c) by done. ob. rewrite Ha. ob. cbn [as_cell]. ob. unfold store_cell. rewrite decide_True by eauto. ob.
    assert (trep (put_cell c 0 L) c Leaf) as Hr0 by (simpl; by rewrite lookup_insert_eq).
    assert (tframe (elems (Node a [] Leaf Leaf)) c L (put_cell c 0 L)) as Hfr.
    { split; [done..|]. intros c' Hne _. simpl. by rewrite lookup_insert_ne. }
    case_decide as Hb; eexists _, Leaf; (split; [reflexivity|]); split_and!; try done;
      [by destruct Hfr; split|rewrite decide_True; done|rewrite decide_False; [done|tauto]].
  - (* the deepest leaf takes its place *)
    destruct n as [|n]; [exfalso; destruct Hsub as [-> ->]; unfold u in Hleaf; by destruct k|].
    destruct (NoDup_node _ _ _ _ Hnd) as (_ & Ha2 & Ha3 & _ & Hndl & Hndr & _ & Hdlr).
    destruct (leaf_walk_spec u n (2 * pfx + Z.b2z k) (Child a k) tree_fuel L)
      as (c' & q & qos & u' & -> & Hel & Hwh & Hqc & Hqo & Hqp & Hq0 & Hrep' & Htok' & sq & Hsq).
    { unfold tree_fuel. lia. } { done. } { done. } { unfold u. destruct Hsub, k; simpl; [done|by rewrite Z.add_0_r]. }
    { unfold u. by destruct k. } { unfold u. destruct k; simpl; set_solver. }
    ob. cbn [fst snd]. set (L1 := put_cell c' 0 L).
    assert (elems u ⊆ elems (Node a [] l r)) as Hue by (unfold u; destruct k; simpl; set_solver).
    assert (NoDup (q :: qos ++ elems u')) as Hnu by (rewrite <- Hel; unfold u; by destruct k).
    assert (c' = Child a k ∨ ∃ x k', c' = Child x k' ∧ x ∈ elems u) as Hwh' by (destruct Hwh as [?|(x & k' & ? & ?)]; [by left|right; exists x, k'; rewrite Hel; set_solver]).
    assert (c' ≠ c ∧ ¬ cell_out (elems (Node a [] l r)) c' ∧ cell_out (elems (if k then l else r)) c' ∧ c' ≠ Child a (negb k)) as (Hcc & Hco & Hco2 & Hcn).
    { assert (a ∈ elems (Node a [] l r)) by (simpl; set_solver).
      destruct Hwh' as [->|(x & k' & -> & Hx)]; simpl.
      - split_and!; [intros <-; by simpl in Hout|tauto|destruct k; done|by destruct k].
      - assert (x ∈ elems (Node a [] l r)) by auto. split_and!; [intros <-; by simpl in Hout|tauto| |].
        + unfold u in Hx. destruct k; [intros ?; by apply (Hdlr x)|by apply Hdlr].
        + intros [= -> _]. unfold u in Hx. by destruct k. }
    assert (trep L1 (Child a (negb k)) (if k then l else r)) as Hoth.
    { assert (trep L (Child a (negb k)) (if k then l else r)) as Ho by (destruct k; done).
      revert Ho. apply trep_frame; [intros x Hx; apply put_cell_same; destruct c'; simpl in *; [done|set_solver]|].
      unfold L1. simpl. by rewrite lookup_insert_ne. }
    destruct (hole_sets a l r k q qos u' Hnd Hel) as (Hh1 & Hh2 & Hh3 & Hh4 & Hh5 & Hh6).
    destruct (subst_trep (Datatypes.S n) pfx c a [] l r q qos (if k then l else u') (if k then u' else r) sq L L1) as (L' & HL' & Hrep2 & Htok2 & Hfr2 & Hsc2); try done.
    + unfold L1. simpl. by rewrite lookup_insert_ne.
    + destruct k; [exact Hoth|exact Hrep'].
    + destruct k; [exact Hrep'|exact Hoth].
    + destruct Hsub, k; simpl in Htok'; rewrite ?Z.add_0_r in Htok'; done.
    + split; [done..|]. intros c0 Hne Ho. unfold L1. simpl. rewrite lookup_insert_ne; [done|]. by intros ->.
    + exists L', (Node q qos (if k then l else u') (if k then u' else r)). split_and!; try done.
      * clear -Hel. unfold u in Hel. destruct k; simpl; rewrite Hel; solve_Permutation.
      * unfold scalars in Hsc2. by injection Hsc2.
      * unfold scalars in Hsc2. by injection Hsc2.
      * rewrite decide_False by naive_solver. unfold scalars in Hsc2. by injection Hsc2.
Qed.

(** What happens to a block in a ring with others, after it is unlinked. *)
Definition remove_rest (s a : Z) (p n : fptr) L : outcome mm_lists :=
  if ZEND_MM_SMALL_SIZE s then
    if decide (p = n) then
      let* fp := rd (prev_free_block L !! Small (ZEND_MM_BUCKET_INDEX s)) in
      let* fn := rd (next_free_block L !! Small (ZEND_MM_BUCKET_INDEX s)) in
      if decide (fp = fn)
      then OK (set_free_bitmap (Z.land (free_bitmap L) (ulong_wrap (Z.lnot (Z.shiftl 1 (ZEND_MM_BUCKET_INDEX s))))) L)
      else OK L
    else OK L
  else
    let* pp := rd (parent L !! a) in
    if decide (pp = PRest) then OK (set_rest_count (rest_count L - 1) L)
    else if decide (pp ≠ PNull) then let* q := as_block p in subst_block a q L
    else OK L.

Lemma remove_start a l s L : F !! a = Some s → cyc (prev_free_block L) (next_free_block L) (Blk a :: l) → l ≠ [] →
  ∃ p n, last l = Some p ∧ head l = Some n ∧ p ≠ Blk a ∧
    cyc (prev_free_block (unlinked p n L)) (next_free_block (unlinked p n L)) l ∧
    (∀ k, k ∉ l → prev_free_block (unlinked p n L) !! k = prev_free_block L !! k ∧
      next_free_block (unlinked p n L) !! k = next_free_block L !! k) ∧
    zend_mm_remove_from_free_list S a L = remove_rest s a p n (unlinked p n L).
Proof using HF.
  intros Ha Hcyc Hl. destruct (unlink_cyc _ _ _ Hcyc Hl) as (p & n & Hp & Hn & Hne & Hpv & Hnx & Hpn & Hnp & Hst1 & Hst2 & Hc & Hfr).
  exists p, n. split_and!; [done..|].
  unfold zend_mm_remove_from_free_list, ZEND_MM_FREE_BLOCK_SIZE. rewrite Hpv. ob. rewrite Hnx. ob.
  destruct (HF a s Ha) as [-> _]. ob. rewrite decide_False by done. rewrite Hpn. ob. rewrite Hnp. ob. rewrite decide_False by tauto.
  rewrite Hst1. ob. rewrite Hst2. ob. done.
Qed.

(** The case of a large block, among blocks only. *)
Lemma remove_ring_start a l s L : 544 ≤ s → F !! a = Some s → cyc (prev_free_block L) (next_free_block L) (Blk a :: blks l) → l ≠ [] →
  ∃ p n, last l = Some p ∧ cyc (prev_free_block (unlinked (Blk p) n L)) (next_free_block (unlinked (Blk p) n L)) (blks l) ∧
    (∀ k, k ∉ blks l → prev_free_block (unlinked (Blk p) n L) !! k = prev_free_block L !! k ∧
      next_free_block (unlinked (Blk p) n L) !! k = next_free_block L !! k) ∧
    zend_mm_remove_from_free_list S a L =
      (let* pp := rd (parent L !! a) in
       if decide (pp = PRest) then OK (set_rest_count (rest_count L - 1) (unlinked (Blk p) n L))
       else if decide (pp ≠ PNull) then subst_block a p (unlinked (Blk p) n L)
       else OK (unlinked (Blk p) n L)).
Proof using HF.
  intros Hs Ha Hcyc Hl. destruct (remove_start a (blks l) s L) as (p & n & Hp & _ & _ & Hc & Hfr & ->); [done..|by destruct l|].
  rewrite fmap_last in Hp. destruct (last l) as [p'|] eqn:Hlast; [|done]. injection Hp as <-.
  exists p', n. split_and!; [done..|]. unfold remove_rest, ZEND_MM_SMALL_SIZE. destruct (Z.ltb_spec s (64 * 8 + 32)); [lia|]. done.
Qed.

(** The first block of a ring of several. *)
Lemma remove_head n pfx c a os l r s L : os ≠ [] → 544 ≤ s →
  trep L c (Node a os l r) → tok F n pfx (Node a os l r) → NoDup (elems (Node a os l r)) → cell_out (elems (Node a os l r)) c →
  F !! a = Some s → removed n pfx c (Node a os l r) a s L.
Proof using HF.
  intros Hos Hs544 Hrep Htok Hnd Hout Hs. pose proof Hrep as (Hc & Ha0 & Ha & Hcyc & Ho & Hl & Hr).
  pose proof Htok as [(s' & Hs' & Hs0 & Hsp) Hsub]%tok_node.
  destruct (remove_ring_start a os s L) as (q & nx & Hq & Hc1 & Hfr1 & Hrm); [done..|].
  apply last_Some in Hq as [os' ->]. destruct (NoDup_node _ _ _ _ Hnd) as (Ha1 & Ha2 & Ha3 & Hndo & Hndl & Hndr & Hdo & Hdlr).
  set (L1 := unlinked (Blk q) nx L) in *.
  assert (∀ x, x ∉ os' ++ [q] → same_at L L1 x) as Hsame.
  { intros x Hx. destruct (Hfr1 (Blk x)); [by apply blks_ne|]. by split_and!. }
  assert (trep L1 (Child a false) l ∧ trep L1 (Child a true) r) as [Hl1 Hr1].
  { split; [revert Hl|revert Hr]; (apply trep_frame; [intros x Hx; apply Hsame; intros Hx'; by apply (Hdo x) in Hx' as [? ?]|done]). }
  assert (elems (Node a (os' ++ [q]) l r) ≡ₚ (q :: os') ++ a :: elems l ++ elems r) as He by (simpl; solve_Permutation).
  pose proof Hnd as Hnd2. rewrite He in Hnd2. apply NoDup_app in Hnd2 as (Hnq & Hdq & Hndlr).
  destruct (subst_trep n pfx c a (os' ++ [q]) l r q os' l r s L L1) as (L' & HL' & Hrep2 & Htok2 & Hfr2 & Hsc2); try done.
  - constructor; [apply Hdq; set_solver|done].
  - rewrite He. set_solver.
  - intros x Hx. rewrite He. set_solver.
  - rewrite He. set_solver.
  - exists PNull. unfold L1. simpl. apply Ho. set_solver.
  - apply (HF q s'). apply Hs'. set_solver.
  - unfold blks. rewrite fmap_app in Hc1. by apply cyc_rot in Hc1.
  - intros o Hoq. unfold L1. simpl. apply Ho. set_solver.
  - intros x Hx. rewrite (Hs' a) in Hs by set_solver. injection Hs as <-. apply Hs'. set_solver.
  - split; [intros k Hk|intros k Hk|done|done].
    + apply Hfr1. intros (x & -> & Hx)%list_elem_of_fmap. apply (Hk x); [|done]. rewrite He. set_solver.
    + apply Hfr1. intros (x & -> & Hx)%list_elem_of_fmap. apply (Hk x); [|done]. rewrite He. set_solver.
  - exists L', (Node q os' l r). rewrite Hrm, Ha. ob. rewrite decide_False, decide_True by done. unfold scalars in Hsc2. injection Hsc2 as -> -> ->.
    split_and!; try done. simpl. solve_Permutation.
Qed.

(** Another block of a ring. *)
Lemma remove_member n pfx c h a os l r s L : a ∈ os → 544 ≤ s →
  trep L c (Node h os l r) → tok F n pfx (Node h os l r) → NoDup (elems (Node h os l r)) → cell_out (elems (Node h os l r)) c →
  F !! a = Some s → removed n pfx c (Node h os l r) a s L.
Proof using HF.
  intros [o1 [o2 ->]]%list_elem_of_split Hs544 Hrep Htok Hnd Hout Hs. pose proof Hrep as (Hc & Hh0 & Hh & Hcyc & Ho & Hl & Hr).
  pose proof Htok as [(s' & Hs' & Hs0 & Hsp) Hsub]%tok_node.
  destruct (remove_ring_start a (o2 ++ h :: o1) s L) as (q & nx & Hq & Hc1 & Hfr1 & Hrm); [done..| |by destruct o2|].
  { replace (blks (h :: o1 ++ a :: o2)) with (blks (h :: o1) ++ blks (a :: o2)) in Hcyc by (by rewrite <- fmap_app).
    apply cyc_rot in Hcyc. by rewrite fmap_app. }
  set (L1 := unlinked (Blk q) nx L) in *.
  assert (elems (Node h (o1 ++ a :: o2) l r) ≡ₚ (a :: h :: o1 ++ o2) ++ elems l ++ elems r) as He by (simpl; solve_Permutation).
  assert (NoDup ((a :: h :: o1 ++ o2) ++ elems l ++ elems r)) as (Hn1 & Hn2 & Hn3)%NoDup_app by (by rewrite <- He).
  assert (∀ x, x ∉ h :: o1 ++ o2 → same_at L L1 x) as Hsame.
  { intros x Hx. destruct (Hfr1 (Blk x)); [apply blks_ne; set_solver|]. by split_and!. }
  assert (trep L1 (Child h false) l ∧ trep L1 (Child h true) r) as [Hl1 Hr1].
  { split; [revert Hl|revert Hr]; (apply trep_frame; [intros x Hx; apply Hsame; intros Hx'; apply (Hn2 x); set_solver|done]). }
  exists L1, (Node h (o1 ++ o2) l r). rewrite Hrm, Ho by set_solver. ob. rewrite decide_False by done. rewrite decide_False by (intros Hn; by apply Hn). split_and!; try done.
  - simpl. split_and!; try done; [|intros; apply Ho; set_solver].
    rewrite fmap_app in Hc1. apply cyc_rot in Hc1. simpl in Hc1. rewrite fmap_app. exact Hc1.
  - apply tok_node. split; [|done]. exists s'. split_and!; try done. intros x Hx. apply Hs'. set_solver.
  - split; [intros k Hk|intros k Hk|done|done].
    + apply Hfr1. intros (x & -> & Hx)%list_elem_of_fmap. apply (Hk x); [|done]. rewrite He. set_solver.
    + apply Hfr1. intros (x & -> & Hx)%list_elem_of_fmap. apply (Hk x); [|done]. rewrite He. set_solver.
Qed.

Lemma removed_sub n pfx c h os l r (k : bool) a s L : let u := if k then r else l in
  trep L c (Node h os l r) → tok F (Datatypes.S n) pfx (Node h os l r) → NoDup (elems (Node h os l r)) → cell_out (elems (Node h os l r)) c →
  removed n (2 * pfx + Z.b2z k) (Child h k) u a s L → removed (Datatypes.S n) pfx c (Node h os l r) a s L.
Proof using HF.
  intros u Hrep Htok Hnd Hout (L' & u' & Hrm & Hrep' & Htok' & Hel & Hfr & Hf1 & Hf2 & Hf3).
  pose proof Hrep as (Hc & Hh0 & Hh & Hcyc & Ho & Hl & Hr). pose proof Htok as [Hsz Hsub]%tok_node.
  assert (elems (Node h os l r) ≡ₚ elems u ++ (h :: os ++ elems (if k then l else r))) as He by (unfold u; destruct k; simpl; solve_Permutation).
  assert (NoDup (elems u ++ (h :: os ++ elems (if k then l else r)))) as (Hn1 & Hn2 & Hn3)%NoDup_app by (by rewrite <- He).
  assert (h ∉ os ++ elems (if k then l else r)) as Hhn by (by apply NoDup_cons in Hn3 as [? _]).
  assert (∀ x, x ∈ os ++ elems (if k then l else r) → same_at L L' x) as Hsame.
  { intros x Hx. eapply tframe_same; [exact Hfr| |].
    - intros Hx'. apply (Hn2 x Hx'). set_solver. - intros k' [= <- _]. done. }
  assert (h ∉ elems u) as Hhu by (intros Hx; apply (Hn2 h Hx); set_solver).
  assert (cells L' !! c = Some h) as Hc'.
  { rewrite (tf_cells _ _ _ _ Hfr); [done|intros ->; apply Hout; rewrite He; set_solver|].
    destruct c; simpl in *; [done|]. rewrite He in Hout. set_solver. }
  assert (trep L' (Child h (negb k)) (if k then l else r)) as Hoth.
  { assert (trep L (Child h (negb k)) (if k then l else r)) as Ht by (by destruct k).
    revert Ht. apply trep_frame; [intros x Hx; apply Hsame; set_solver|]. apply (tf_cells _ _ _ _ Hfr); [by destruct k|done]. }
  assert (parent L' !! h = Some (PCell c)) as Hh' by (by rewrite (tf_parent _ _ _ _ Hfr)).
  assert (∀ o, o ∈ os → parent L' !! o = Some PNull) as Ho'.
  { intros o Hoo. destruct (Hsame o) as (_ & _ & -> & _); [set_solver|auto]. }
  assert (cyc (prev_free_block L') (next_free_block L') (blks (h :: os))) as Hcyc'.
  { revert Hcyc. apply cyc_frame. intros z (x & -> & Hx)%list_elem_of_fmap.
    split; [apply (tf_next _ _ _ _ Hfr)|apply (tf_prev _ _ _ _ Hfr)]; intros y Hy [= <-]; apply (Hn2 x Hy); set_solver. }
  assert (tok F n (2 * pfx + Z.b2z (negb k)) (if k then l else r)) as Hotok.
  { destruct Hsub, k; simpl; [by rewrite Z.add_0_r|done]. }
  exists L', (if k then Node h os l u' else Node h os u' r). split; [done|]. split_and!; try done.
  - destruct k; simpl; split_and!; done.
  - destruct k; apply tok_node; simpl in *; rewrite ?Z.add_0_r in *; done.
  - rewrite He, Hel. destruct k; simpl; solve_Permutation.
  - revert Hfr. apply tframe_weaken; [intros x Hx; rewrite He; set_solver|]. right. simpl. intros Hn. apply Hn. rewrite He. set_solver.
  - rewrite Hf3, !decide_False; [done|by destruct k; intros [? _]|by intros [_ ?]].
Qed.

Lemma trie_remove t n pfx c a s L : (n ≤ 64)%nat → 544 ≤ s → trep L c t → tok F n pfx t → NoDup (elems t) → cell_out (elems t) c →
  a ∈ elems t → F !! a = Some s → removed n pfx c t a s L.
Proof using HF.
  revert n pfx c. induction t as [|h os l IHl r IHr]; intros n pfx c Hn Hs Hrep Htok Hnd Hout Ha HFa; [by apply elem_of_nil in Ha|].
  destruct (decide (a = h)) as [->|Hne].
  { destruct (decide (os = [])) as [->|]; [by apply remove_lone|by apply remove_head]. }
  destruct (decide (a ∈ os)); [by apply remove_member|].
  pose proof Hrep as (_ & _ & _ & _ & _ & Hl & Hr). pose proof Htok as [_ Hsub]%tok_node.
  destruct (NoDup_node _ _ _ _ Hnd) as (_ & Ha2 & Ha3 & _ & Hndl & Hndr & _ & _).
  simpl in Ha. rewrite elem_of_cons, !elem_of_app in Ha. destruct n as [|n].
  { exfalso. destruct Hsub as [-> ->]. simpl in Ha. set_solver. }
  destruct Hsub as [Hsl Hsr]. destruct Ha as [?|[?|[Ha|Ha]]]; [done..| |].
  - apply (removed_sub n pfx c h os l r false); try done. simpl. rewrite Z.add_0_r. by apply IHl; try done; lia.
  - apply (removed_sub n pfx c h os l r true); try done. simpl. by apply IHr; try done; lia.
Qed.
End trie.
