(* ===== verification/MmLists.v ===== *)
(** The invariant of the free lists, and that entering and removing blocks, also
    through the list of rest blocks, maintains it. *)

From stdpp Require Import functions.
From S2P Require Import Prelude Cyc ZendMmTypes MmBits ZendMmFree MmTrie MmTrieDel.

(** * The invariant of the free lists, and that entering and removing blocks maintains it *)

Definition large_in (F : gmap Z Z) (a : Z) : Prop := 544 ≤ default 0 (F !! a).
#[export] Instance large_in_dec F a : Decision (large_in F a).
Proof. unfold large_in. apply _. Defined.

(** The free lists hold the blocks [F] (addresses with sizes): small ones in
    [sm], by size; large ones in the tries [tr], by their highest bit; and
    [rs] is the list of rest blocks, oldest first.  A set bit in the bitmap of
    small buckets means a non-empty bucket (the converse need not hold). *)
Record flists (S : mm_store) (F : gmap Z Z) (sm : Z → list Z) (rs : list Z) (tr : Z → trie) (L : mm_lists) : Prop := {
  fl_blk : ∀ a s, F !! a = Some s → info_size S !! a = Some s ∧ a ≠ 0 ∧ 32 ≤ s < 2 ^ 64 ∧ (8 | s);
  fl_small : ∀ i, 0 ≤ i < 64 → cyc (prev_free_block L) (next_free_block L) (Small i :: blks (sm i));
  fl_rest : cyc (prev_free_block L) (next_free_block L) (Rest :: blks rs);
  fl_trie : ∀ i, 0 ≤ i < 64 → trep L (Bucket i) (tr i);
  fl_tok : ∀ i, 0 ≤ i < 64 → tok F (Z.to_nat i) 1 (tr i);
  fl_nodup : ∀ i, 0 ≤ i < 64 → NoDup (elems (tr i));
  fl_in_small : ∀ i a, 0 ≤ i < 64 → a ∈ sm i ↔ ∃ s, F !! a = Some s ∧ (a ∉ rs) ∧ s < 544 ∧ ZEND_MM_BUCKET_INDEX s = i;
  fl_in_trie : ∀ i a, 0 ≤ i < 64 → a ∈ elems (tr i) ↔ ∃ s, F !! a = Some s ∧ (a ∉ rs) ∧ 544 ≤ s ∧ Z.log2 s = i;
  fl_in_rest : ∀ a, a ∈ rs → ∃ s, F !! a = Some s ∧ (544 ≤ s → parent L !! a = Some PRest);
  fl_count : rest_count L = Z.of_nat (length (filter (large_in F) rs));
  fl_bitmap_ok : bitmap_ok (free_bitmap L);
  fl_bitmap : ∀ i, Z.testbit (free_bitmap L) i = true → 0 ≤ i < 64 ∧ sm i ≠ [];
  fl_large_ok : bitmap_ok (large_free_bitmap L);
  fl_large : ∀ i, 0 ≤ i < 64 → Z.testbit (large_free_bitmap L) i = bool_decide (tr i ≠ Leaf);
}.

Lemma count_kept F F' b (rs : list Z) : (∀ a, a ≠ b → F' !! a = F !! a) → b ∉ rs →
  filter (large_in F') rs = filter (large_in F) rs.
Proof.
  intros HF. induction rs as [|x l IH]; [done|]. intros [Hx Hl]%not_elem_of_cons. rewrite !filter_cons, IH by done.
  rewrite (decide_ext (large_in F' x) (large_in F x)); [done|]. unfold large_in. by rewrite HF.
Qed.

(** Other blocks' fields may change. *)
Lemma flists_frame S S' F sm rs tr L L' :
  (∀ a s, F !! a = Some s → info_size S' !! a = info_size S !! a) →
  (∀ a s, F !! a = Some s → same_at L L' a) → (∀ i, cells L' !! Bucket i = cells L !! Bucket i) →
  (∀ k, (∀ a, k ≠ Blk a) → prev_free_block L' !! k = prev_free_block L !! k ∧ next_free_block L' !! k = next_free_block L !! k) →
  scalars L' = scalars L → flists S F sm rs tr L → flists S' F sm rs tr L'.
Proof.
  intros HS Hs Hb Hk Hsc [Hblk Hsm Hrs Htr Htok Hnd His Hit Hir Hc Hb1 Hb2 Hb3 Hb4]. unfold scalars in Hsc. injection Hsc as E1 E2 E3.
  split; try done; rewrite ?E1, ?E2, ?E3; try done.
  - intros a s Ha. rewrite (HS a s Ha). by apply Hblk.
  - intros i Hi. specialize (Hsm i Hi). revert Hsm. apply cyc_frame. intros k [->|(x & -> & Hx)%list_elem_of_fmap]%elem_of_cons.
    { destruct (Hk (Small i)); done. }
    apply His in Hx as (s & Hx & _); [|done]. by destruct (Hs _ _ Hx) as (? & ? & _).
  - revert Hrs. apply cyc_frame. intros k [->|(x & -> & Hx)%list_elem_of_fmap]%elem_of_cons; [destruct (Hk Rest); done|].
    apply Hir in Hx as (s & Hx & _). by destruct (Hs _ _ Hx) as (? & ? & _).
  - intros i Hi. specialize (Htr i Hi). revert Htr. apply trep_frame; [|auto]. intros a Ha.
    apply Hit in Ha as (s & Ha & _); [|done]. eauto.
  - intros a Ha. destruct (Hir a Ha) as (s & HF & Hp). exists s. split; [done|]. destruct (Hs _ _ HF) as (_ & _ & -> & _). done.
Qed.

Section fl.
Context (S : mm_store) (F F' : gmap Z Z) (sm : Z → list Z) (rs : list Z) (tr : Z → trie) (L L' : mm_lists) (b : Z).
Context (Hfl : flists S F sm rs tr L).
Context (HF : ∀ a, a ≠ b → F' !! a = F !! a).
Context (Hblk : ∀ s, F' !! b = Some s → info_size S !! b = Some s ∧ b ≠ 0 ∧ 32 ≤ s < 2 ^ 64 ∧ (8 | s)).

Local Lemma blk' a s : F' !! a = Some s → info_size S !! a = Some s ∧ a ≠ 0 ∧ 32 ≤ s < 2 ^ 64 ∧ (8 | s).
Proof using Hfl HF Hblk. destruct (decide (a = b)) as [->|Hne]; [auto|]. rewrite HF by done. apply (fl_blk _ _ _ _ _ _ Hfl). Qed.

(** One bucket of small blocks changes: the block [b] comes or goes. *)
Lemma fl_update_small i l' : 0 ≤ i < 64 → b ∉ rs →
  (∀ s, F !! b = Some s ∨ F' !! b = Some s → s < 544 ∧ ZEND_MM_BUCKET_INDEX s = i) →
  (∀ a, a ≠ b → a ∈ l' ↔ a ∈ sm i) → (b ∈ l' ↔ is_Some (F' !! b)) →
  cyc (prev_free_block L') (next_free_block L') (Small i :: blks l') →
  (∀ k, k ≠ Small i → (∀ x, k = Blk x → x ≠ b ∧ x ∉ sm i) →
    prev_free_block L' !! k = prev_free_block L !! k ∧ next_free_block L' !! k = next_free_block L !! k) →
  (∀ x, x ≠ b → parent L' !! x = parent L !! x) → (∀ c, cell_out [b] c → cells L' !! c = cells L !! c) →
  rest_count L' = rest_count L → large_free_bitmap L' = large_free_bitmap L → bitmap_ok (free_bitmap L') →
  (∀ j, j ≠ i → Z.testbit (free_bitmap L') j = Z.testbit (free_bitmap L) j) → (Z.testbit (free_bitmap L') i = true → l' ≠ []) →
  flists S F' (<[i := l']> sm) rs tr L'.
Proof using Hfl HF Hblk.
  intros Hi Hbr Hbs Hl' Hbl Hcyc Hfr Hpar Hce Hrc Hlb Hok Hbit Hbiti. pose proof Hfl as [Hblk0 Hsm Hrs Htr Htok Hnd His Hit Hir Hc Hb1 Hb2 Hb3 Hb4].
  assert (∀ j a, 0 ≤ j < 64 → a ∈ elems (tr j) → a ≠ b ∧ a ∉ sm i) as Htrb.
  { intros j a Hj Ha. apply Hit in Ha as (s & Ha & _ & Hs & _); [|done]. split.
    - intros ->. destruct (Hbs s); [by left|lia]. - intros (s' & Ha' & _ & Hs' & _)%His; [|done]. simplify_eq. lia. }
  assert (∀ a, a ∈ rs → a ≠ b ∧ a ∉ sm i) as Hrsb.
  { intros a Ha. split; [by intros ->|]. intros (? & _ & ? & _)%His; done. }
  split.
  - exact blk'.
  - intros j Hj. destruct (decide (i = j)) as [<-|Hne]; [by rewrite fn_lookup_insert|]. rewrite fn_lookup_insert_ne by done.
    specialize (Hsm j Hj). revert Hsm. apply cyc_frame. intros k Hk. assert (k ≠ Small i ∧ ∀ x, k = Blk x → x ≠ b ∧ x ∉ sm i) as [Hk1 Hk2].
    { apply elem_of_cons in Hk as [->|(x & -> & Hx)%list_elem_of_fmap]; (split; [congruence|]); [done|]. intros x' [= <-].
      apply His in Hx as (s & Hx & _ & Hs & Hj'); [|done]. split.
      - intros ->. destruct (Hbs s); [by left|congruence]. - intros (s' & Hx' & _ & _ & ?)%His; [|done]. simplify_eq. }
    destruct (Hfr k Hk1 Hk2). done.
  - revert Hrs. apply cyc_frame. intros k Hk. assert (k ≠ Small i ∧ ∀ x, k = Blk x → x ≠ b ∧ x ∉ sm i) as [Hk1 Hk2].
    { apply elem_of_cons in Hk as [->|(x & -> & Hx)%list_elem_of_fmap]; (split; [done|]); [done|]. intros x' [= <-]. auto. }
    destruct (Hfr k Hk1 Hk2). done.
  - intros j Hj. specialize (Htr j Hj). revert Htr. apply trep_frame; [|by apply Hce]. intros a Ha. destruct (Htrb j a Hj Ha) as [? ?].
    destruct (Hfr (Blk a)); [done|by intros x [= <-]|]. split_and!; [done..|by apply Hpar|intros k; apply Hce; simpl; set_solver].
  - intros j Hj. specialize (Htok j Hj). revert Htok. apply tok_frame. intros x Hx. apply HF. by eapply Htrb.
  - done.
  - intros j a Hj. destruct (decide (i = j)) as [<-|Hne].
    + rewrite fn_lookup_insert. destruct (decide (a = b)) as [->|Ha].
      * rewrite Hbl. split; [|intros (s & ? & _); eauto]. intros [s Hs]. destruct (Hbs s); [by right|]. exists s. done.
      * rewrite Hl', His, HF; done.
    + rewrite fn_lookup_insert_ne, His by done. destruct (decide (a = b)) as [->|Ha]; [|by rewrite HF].
      split; intros (s & Hs & _ & _ & ?); (destruct (Hbs s); [by auto|congruence]).
  - intros j a Hj. rewrite Hit by done. destruct (decide (a = b)) as [->|Ha]; [|by rewrite HF].
    split; intros (s & Hs & _ & ? & ?); (destruct (Hbs s); [by auto|lia]).
  - intros a Ha. destruct (Hir a Ha) as (s & Hs & Hp). destruct (Hrsb a Ha). exists s. rewrite HF, Hpar by done. done.
  - rewrite Hrc, Hc. by rewrite (count_kept F F' b).
  - done.
  - intros j Hj. destruct (decide (i = j)) as [<-|Hne]; [rewrite fn_lookup_insert; auto|].
    rewrite fn_lookup_insert_ne by done. apply Hb2. by rewrite <- Hbit by congruence.
  - by rewrite Hlb.
  - by rewrite Hlb.
Qed.

(** The list of rest blocks changes. *)
Lemma fl_update_rest rs' : (∀ a, a ≠ b → a ∈ rs' ↔ a ∈ rs) → (b ∈ rs ↔ is_Some (F !! b)) → (b ∈ rs' ↔ is_Some (F' !! b)) →
  cyc (prev_free_block L') (next_free_block L') (Rest :: blks rs') →
  (∀ k, k ≠ Rest → (∀ x, k = Blk x → x ≠ b ∧ x ∉ rs) →
    prev_free_block L' !! k = prev_free_block L !! k ∧ next_free_block L' !! k = next_free_block L !! k) →
  (∀ x, x ≠ b → parent L' !! x = parent L !! x) → (∀ c, cell_out [b] c → cells L' !! c = cells L !! c) →
  (∀ s, F' !! b = Some s → 544 ≤ s → parent L' !! b = Some PRest) →
  rest_count L' = Z.of_nat (length (filter (large_in F') rs')) → large_free_bitmap L' = large_free_bitmap L →
  bitmap_ok (free_bitmap L') → (∀ j, Z.testbit (free_bitmap L') j = true → Z.testbit (free_bitmap L) j = true) →
  flists S F' sm rs' tr L'.
Proof using Hfl HF Hblk.
  intros Hrs' Hbr Hbr' Hcyc Hfr Hpar Hce Hbp Hrc Hlb Hok Hbit. pose proof Hfl as [Hblk0 Hsm Hrs Htr Htok Hnd His Hit Hir Hc Hb1 Hb2 Hb3 Hb4].
  assert (∀ j a, 0 ≤ j < 64 → a ∈ elems (tr j) → a ≠ b ∧ a ∉ rs) as Htrb.
  { intros j a Hj (s & Ha & ? & _)%Hit; [|done]. split; [|done]. intros ->. apply H, Hbr. eauto. }
  assert (∀ j a, 0 ≤ j < 64 → a ∈ sm j → a ≠ b ∧ a ∉ rs) as Hsmb.
  { intros j a Hj (s & Ha & ? & _)%His; [|done]. split; [|done]. intros ->. apply H, Hbr. eauto. }
  split; try done.
  - exact blk'.
  - intros j Hj. specialize (Hsm j Hj). revert Hsm. apply cyc_frame. intros k Hk. destruct (Hfr k) as [? ?]; [| |done].
    + by apply elem_of_cons in Hk as [->|(x & -> & Hx)%list_elem_of_fmap].
    + intros x ->. apply elem_of_cons in Hk as [?|(x' & [= <-] & Hx)%list_elem_of_fmap]; [done|eauto].
  - intros j Hj. specialize (Htr j Hj). revert Htr. apply trep_frame; [|by apply Hce]. intros a Ha. destruct (Htrb j a Hj Ha) as [? ?].
    destruct (Hfr (Blk a)); [done|by intros x [= <-]|]. split_and!; [done..|by apply Hpar|intros k; apply Hce; simpl; set_solver].
  - intros j Hj. specialize (Htok j Hj). revert Htok. apply tok_frame. intros x Hx. apply HF. by eapply Htrb.
  - intros j a Hj. rewrite His by done. destruct (decide (a = b)) as [->|Ha]; [|rewrite HF by done; by setoid_rewrite (Hrs' a Ha)].
    split; intros (s & Hs & Hn & _); exfalso; apply Hn; [apply Hbr|apply Hbr']; eauto.
  - intros j a Hj. rewrite Hit by done. destruct (decide (a = b)) as [->|Ha]; [|rewrite HF by done; by setoid_rewrite (Hrs' a Ha)].
    split; intros (s & Hs & Hn & _); exfalso; apply Hn; [apply Hbr|apply Hbr']; eauto.
  - intros a Ha. destruct (decide (a = b)) as [->|Hne].
    + apply Hbr' in Ha as [s Hs]. exists s. split; [done|]. by apply Hbp.
    + apply Hrs' in Ha; [|done]. destruct (Hir a Ha) as (s & Hs & Hp). exists s. by rewrite HF, Hpar.
  - intros j Hj. by apply Hb2, Hbit.
  - by rewrite Hlb.
  - by rewrite Hlb.
Qed.

(** One trie changes. *)
Lemma fl_update_trie i t' : 0 ≤ i < 64 → b ∉ rs →
  (∀ s, F !! b = Some s ∨ F' !! b = Some s → 544 ≤ s ∧ Z.log2 s = i) →
  (∀ a, a ≠ b → a ∈ elems t' ↔ a ∈ elems (tr i)) → (b ∈ elems t' ↔ is_Some (F' !! b)) →
  trep L' (Bucket i) t' → tok F' (Z.to_nat i) 1 t' → NoDup (elems t') → tframe (b :: elems (tr i)) (Bucket i) L L' →
  free_bitmap L' = free_bitmap L → rest_count L' = rest_count L → bitmap_ok (large_free_bitmap L') →
  (∀ j, j ≠ i → Z.testbit (large_free_bitmap L') j = Z.testbit (large_free_bitmap L) j) →
  Z.testbit (large_free_bitmap L') i = bool_decide (t' ≠ Leaf) →
  flists S F' sm rs (<[i := t']> tr) L'.
Proof using Hfl HF Hblk.
  intros Hi Hbr Hbs Ht' Hbt Hrep Htok' Hnd' Hfr Hfb Hrc Hok Hbit Hbiti.
  pose proof Hfl as [Hblk0 Hsm Hrs Htr Htok Hnd His Hit Hir Hc Hb1 Hb2 Hb3 Hb4].
  assert (∀ j a, 0 ≤ j < 64 → a ∈ sm j → a ∉ b :: elems (tr i)) as Hsmb.
  { intros j a Hj (s & Ha & _ & Hs & _)%His; [|done]. apply not_elem_of_cons. split.
    - intros ->. destruct (Hbs s); [by left|lia]. - intros (s' & Ha' & _ & Hs' & _)%Hit; [|done]. simplify_eq. lia. }
  assert (∀ a, a ∈ rs → a ∉ b :: elems (tr i)) as Hrsb.
  { intros a Ha. apply not_elem_of_cons. split; [by intros ->|]. intros (? & _ & ? & _)%Hit; done. }
  assert (∀ k, (∀ x, k = Blk x → x ∉ b :: elems (tr i)) →
    next_free_block L' !! k = next_free_block L !! k ∧ prev_free_block L' !! k = prev_free_block L !! k) as Hln.
  { intros k Hk. split; [apply (tf_next _ _ _ _ Hfr)|apply (tf_prev _ _ _ _ Hfr)]; intros x Hx ->; by apply (Hk x). }
  split; rewrite ?Hfb, ?Hrc; try done.
  - exact blk'.
  - intros j Hj. specialize (Hsm j Hj). revert Hsm. apply cyc_frame. intros k Hk. apply Hln. intros x ->.
    apply elem_of_cons in Hk as [?|(x' & [= <-] & Hx)%list_elem_of_fmap]; [done|eauto].
  - revert Hrs. apply cyc_frame. intros k Hk. apply Hln. intros x ->.
    apply elem_of_cons in Hk as [?|(x' & [= <-] & Hx)%list_elem_of_fmap]; [done|eauto].
  - intros j Hj. destruct (decide (i = j)) as [<-|Hne]; [by rewrite fn_lookup_insert|]. rewrite fn_lookup_insert_ne by done.
    specialize (Htr j Hj). revert Htr. apply trep_frame; [|apply (tf_cells _ _ _ _ Hfr); [congruence|done]].
    intros a Ha. eapply tframe_same; [exact Hfr| |done]. apply Hit in Ha as (s & Ha & _ & _ & Hl); [|done].
    apply not_elem_of_cons. split.
    + intros ->. destruct (Hbs s); [by left|congruence].
    + intros (s' & Ha' & _ & _ & ?)%Hit; [|done]. simplify_eq.
  - intros j Hj. destruct (decide (i = j)) as [<-|Hne]; [by rewrite fn_lookup_insert|]. rewrite fn_lookup_insert_ne by done.
    specialize (Htok j Hj). revert Htok. apply tok_frame. intros x Hx. apply HF. intros ->.
    apply Hit in Hx as (s & Ha & _ & _ & Hl); [|done]. destruct (Hbs s); [by left|congruence].
  - intros j Hj. destruct (decide (i = j)) as [<-|Hne]; [by rewrite fn_lookup_insert|]. rewrite fn_lookup_insert_ne by done. auto.
  - intros j a Hj. rewrite His by done. destruct (decide (a = b)) as [->|Ha]; [|by rewrite HF].
    split; intros (s & Hs & _ & ? & ?); (destruct (Hbs s); [by auto|lia]).
  - intros j a Hj. destruct (decide (i = j)) as [<-|Hne].
    + rewrite fn_lookup_insert. destruct (decide (a = b)) as [->|Ha].
      * rewrite Hbt. split; [|intros (s & ? & _); eauto]. intros [s Hs]. destruct (Hbs s); [by right|]. exists s. done.
      * rewrite Ht', Hit, HF; done.
    + rewrite fn_lookup_insert_ne, Hit by done. destruct (decide (a = b)) as [->|Ha]; [|by rewrite HF].
      split; intros (s & Hs & _ & _ & ?); (destruct (Hbs s); [by auto|congruence]).
  - intros a Ha. destruct (Hir a Ha) as (s & Hs & Hp). pose proof (Hrsb a Ha). exists s.
    rewrite HF, (tf_parent _ _ _ _ Hfr); [done|done|]. intros ->. set_solver.
  - by rewrite (count_kept F F' b).
  - intros j Hj. destruct (decide (i = j)) as [<-|Hne]; [by rewrite fn_lookup_insert|].
    rewrite fn_lookup_insert_ne, Hbit by congruence. auto.
Qed.
End fl.

(** * The operations on the free lists maintain their invariant *)

(** The free lists hold exactly the blocks [F]. *)
Definition fl S F L : Prop := ∃ sm rs tr, flists S F sm rs tr L.

(** The link fields of blocks that are not in the lists stay. *)
Definition prev_kept (F : gmap Z Z) b L L' : Prop :=
  ∀ a, F !! a = None → a ≠ b → prev_free_block L' !! Blk a = prev_free_block L !! Blk a.

Section lists.
Context (S : mm_store).
Implicit Types (F : gmap Z Z) (L : mm_lists) (sm : Z → list Z) (rs : list Z) (tr : Z → trie).

Lemma fl_HF F sm rs tr L : flists S F sm rs tr L → ∀ a s, F !! a = Some s → info_size S !! a = Some s ∧ a ≠ 0.
Proof. intros Hfl a s Ha. by destruct (fl_blk _ _ _ _ _ _ Hfl a s Ha) as (? & ? & _). Qed.

Lemma delete_ne F b a : a ≠ b → delete b F !! a = F !! a.
Proof. intros. by rewrite lookup_delete_ne. Qed.
Lemma insert_ne F b s a : a ≠ b → <[b := s]> F !! a = F !! a.
Proof. intros. by rewrite lookup_insert_ne. Qed.

Lemma blks_elem x (l : list Z) : Blk x ∈ blks l ↔ x ∈ l.
Proof. rewrite list_elem_of_fmap. naive_solver. Qed.

Definition good_block b s : Prop := info_size S !! b = Some s ∧ b ≠ 0 ∧ 32 ≤ s < 2 ^ 64 ∧ (8 | s).

Lemma fl_not_in F sm rs tr L b : flists S F sm rs tr L → F !! b = None →
  (b ∉ rs) ∧ (∀ i, 0 ≤ i < 64 → b ∉ sm i) ∧ (∀ i, 0 ≤ i < 64 → b ∉ elems (tr i)).
Proof.
  intros Hfl Hb. split_and!.
  - intros (? & ? & _)%(fl_in_rest _ _ _ _ _ _ Hfl). congruence.
  - intros i Hi (? & ? & _)%(fl_in_small _ _ _ _ _ _ Hfl); [congruence|done].
  - intros i Hi (? & ? & _)%(fl_in_trie _ _ _ _ _ _ Hfl); [congruence|done].
Qed.

(** ** zend_mm_add_to_free_list *)

Lemma add_small F sm rs tr L b s : flists S F sm rs tr L → F !! b = None → good_block b s → s < 544 →
  ∃ L' sm', zend_mm_add_to_free_list S b L = OK L' ∧ flists S (<[b := s]> F) sm' rs tr L' ∧ prev_kept F b L L'.
Proof.
  intros Hfl Hb (Hs & Hb0 & Hr & H8) Hlt. set (i := ZEND_MM_BUCKET_INDEX s).
  assert (0 ≤ i < 64) as Hi by (apply bucket_index_range; lia). destruct (fl_not_in _ _ _ _ _ _ Hfl Hb) as (Hbr & Hbs & _).
  unfold zend_mm_add_to_free_list, ZEND_MM_FREE_BLOCK_SIZE. rewrite Hs. ob. unfold ZEND_MM_SMALL_SIZE.
  destruct (Z.ltb_spec s (64 * 8 + 32)); [|lia]. cbn [negb]. fold i.
  pose proof (fl_small _ _ _ _ _ _ Hfl i Hi) as Hcyc. destruct (cyc_links _ _ (Small i) (blks (sm i)) Hcyc) as [Hnx Hpv].
  rewrite Hpv. ob. set (L1 := if decide _ then _ else L).
  assert (prev_free_block L1 = prev_free_block L ∧ next_free_block L1 = next_free_block L ∧ parent L1 = parent L ∧ cells L1 = cells L ∧
    rest_count L1 = rest_count L ∧ large_free_bitmap L1 = large_free_bitmap L ∧ bitmap_ok (free_bitmap L1) ∧
    ∀ j, j ≠ i → Z.testbit (free_bitmap L1) j = Z.testbit (free_bitmap L) j) as (E1 & E2 & E3 & E4 & E5 & E6 & E7 & E8).
  { pose proof (fl_bitmap_ok _ _ _ _ _ _ Hfl). unfold L1. case_decide; split_and!; try done; [by apply bit_set_ok|].
    intros j Hj. simpl. rewrite bit_set_spec by done. rewrite bool_decide_false by done. by rewrite orb_false_r. }
  rewrite <- E1, <- E2 in Hcyc. rewrite E2, Hnx. ob.
  destruct (link_after_cyc L1 (Small i) (blks (sm i)) b Hcyc) as (L' & HL' & Hc & Hp & Hce & Hsc & Hfr).
  { apply not_elem_of_cons. split; [done|]. rewrite blks_elem. by apply Hbs. }
  unfold scalars in Hsc. injection Hsc as F1 F2 F3.
  assert (∀ k, k ≠ Small i → (∀ x, k = Blk x → x ≠ b ∧ x ∉ sm i) →
    prev_free_block L' !! k = prev_free_block L !! k ∧ next_free_block L' !! k = next_free_block L !! k) as Hfr'.
  { intros k Hk1 Hk2. rewrite <- E1, <- E2. apply Hfr. rewrite !elem_of_cons. intros [?|[->|(x & -> & Hx)%list_elem_of_fmap]]; [done|by destruct (Hk2 b)|by destruct (Hk2 x)]. }
  exists L', (<[i := b :: sm i]> sm). split; [exact HL'|]. split.
  - apply (fl_update_small S F _ sm rs tr L L' b); try done.
    + intros a Ha. by apply insert_ne.
    + intros s'. rewrite lookup_insert_eq. by intros [= <-].
    + intros s'. rewrite lookup_insert_eq. intros [?|[= <-]]; [congruence|]. done.
    + intros a Ha. set_solver.
    + rewrite lookup_insert_eq. split; [eauto|set_solver].
    + intros x _. by rewrite Hp, E3.
    + intros c _. by rewrite Hce, E4.
    + by rewrite F3.
    + by rewrite F2.
    + by rewrite F1.
    + intros j Hj. rewrite F1. auto.
  - intros a Ha Hne. apply Hfr'; [done|]. intros x [= <-]. split; [done|]. by apply (fl_not_in _ _ _ _ _ _ Hfl Ha).
Qed.

Lemma log2_prefix s : 0 < s → s / 2 ^ Z.log2 s = 1.
Proof.
  intros Hs. pose proof (Z.log2_spec s Hs) as [H1 H2]. rewrite Z.pow_succ_r in H2 by apply Z.log2_nonneg.
  symmetry. apply (Z.div_unique _ _ 1 (s - 2 ^ Z.log2 s)); lia.
Qed.

Lemma add_large F sm rs tr L b s : flists S F sm rs tr L → F !! b = None → good_block b s → 544 ≤ s →
  ∃ L' tr', zend_mm_add_to_free_list S b L = OK L' ∧ flists S (<[b := s]> F) sm rs tr' L' ∧ prev_kept F b L L'.
Proof.
  intros Hfl Hb (Hs & Hb0 & Hr & H8) Hge. set (i := Z.log2 s).
  assert (0 ≤ i < 64) as Hi by (split; [apply Z.log2_nonneg|apply Z.log2_lt_pow2; lia]).
  destruct (fl_not_in _ _ _ _ _ _ Hfl Hb) as (Hbr & _ & Hbt). specialize (Hbt i Hi).
  unfold zend_mm_add_to_free_list, ZEND_MM_FREE_BLOCK_SIZE. rewrite Hs. ob. unfold ZEND_MM_SMALL_SIZE.
  destruct (Z.ltb_spec s (64 * 8 + 32)); [lia|]. cbn [negb]. unfold ZEND_MM_LARGE_BUCKET_INDEX. rewrite zend_mm_high_bit_log2 by lia. fold i.
  set (L0 := put_cell (Child b false) 0 (put_cell (Child b true) 0 L)).
  pose proof (fl_trie _ _ _ _ _ _ Hfl i Hi) as Ht.
  assert (tframe [b] (Bucket i) L L0) as Hfr0.
  { split; [done..|]. intros c _ Hc. unfold L0. simpl. rewrite !lookup_insert_ne; [done|intros <-; apply Hc; set_solver..]. }
  assert ([b] ⊆ b :: elems (tr i)) as Hsub by (intros x ->%list_elem_of_singleton; by left).
  assert (trep L0 (Bucket i) (tr i)) as Ht0.
  { revert Ht. apply trep_frame; [|unfold L0; simpl; by rewrite !lookup_insert_ne]. intros a Ha. eapply tframe_same; [exact Hfr0|set_solver|done]. }
  assert (∀ L' t', trep L' (Bucket i) t' → tok (<[b := s]> F) (Z.to_nat i) 1 t' → elems t' ≡ₚ b :: elems (tr i) → t' ≠ Leaf →
    tframe (b :: elems (tr i)) (Bucket i) L L' → free_bitmap L' = free_bitmap L → rest_count L' = rest_count L →
    bitmap_ok (large_free_bitmap L') → (∀ j, j ≠ i → Z.testbit (large_free_bitmap L') j = Z.testbit (large_free_bitmap L) j) →
    Z.testbit (large_free_bitmap L') i = true →
    flists S (<[b := s]> F) sm rs (<[i := t']> tr) L' ∧ prev_kept F b L L') as Hdone.
  { intros L' t' Hrep Htok Hel Hne Hfr Hf1 Hf2 Hf3 Hf4 Hf5. split.
    - apply (fl_update_trie S F _ sm rs tr L L' b); try done.
      + intros a Ha. by apply insert_ne.
      + intros s'. rewrite lookup_insert_eq. by intros [= <-].
      + intros s'. rewrite lookup_insert_eq. intros [?|[= <-]]; [congruence|]. done.
      + intros a Ha. rewrite Hel. set_solver.
      + rewrite lookup_insert_eq, Hel. split; [eauto|set_solver].
      + rewrite Hel. constructor; [done|]. by apply (fl_nodup _ _ _ _ _ _ Hfl).
      + by rewrite bool_decide_true.
    - intros a Ha Hne'. apply (tf_prev _ _ _ _ Hfr). intros x Hx [= <-]. apply elem_of_cons in Hx as [?|Hx]; [done|].
      by apply (fl_not_in _ _ _ _ _ _ Hfl Ha) in Hx. }
  rewrite (trep_root _ _ _ Ht0). ob. rewrite (trep_root_zero _ _ _ Ht0). case_bool_decide as Hl.
  - eexists _, (<[i := Node b [] Leaf Leaf]> tr). split; [reflexivity|]. apply Hdone; try done; simpl.
    + rewrite !lookup_insert_eq. rewrite !(lookup_insert_ne _ (Bucket i)) by done. rewrite !lookup_insert_eq.
      rewrite !(lookup_insert_ne _ (Child b false)) by done. rewrite !lookup_insert_eq. split_and!; try done; [apply cyc_single|set_solver].
    + split; [|by destruct (Z.to_nat i)]. exists s. split_and!; [|lia|].
      * intros x ->%list_elem_of_singleton. by rewrite lookup_insert_eq.
      * rewrite Z2Nat.id by lia. apply log2_prefix. lia.
    + by rewrite Hl.
    + eapply tframe_trans; [eapply tframe_weaken; [exact Hsub|by left|exact Hfr0]|]. split; simpl.
      * intros k Hk. rewrite lookup_insert_ne; [done|]. intros <-. eapply Hk; [|done]. set_solver.
      * intros k Hk. rewrite lookup_insert_ne; [done|]. intros <-. eapply Hk; [|done]. set_solver.
      * intros x Hx. rewrite lookup_insert_ne; [done|]. set_solver.
      * intros c Hc _. by rewrite lookup_insert_ne.
    + apply bit_set_ok; [|done]. apply (fl_large_ok _ _ _ _ _ _ Hfl).
    + intros j Hj. rewrite bit_set_spec, bool_decide_false, orb_false_r; [done|done|apply (fl_large_ok _ _ _ _ _ _ Hfl)|done].
    + rewrite bit_set_spec, bool_decide_true, orb_true_r; [done|done|apply (fl_large_ok _ _ _ _ _ _ Hfl)|done].
  - destruct (add_walk_spec S F (fl_HF _ _ _ _ _ Hfl) (tr i) (Z.to_nat i) 1 (Bucket i) tree_fuel s b L0)
      as (L' & t' & HL' & Hrep & Htok & Hne & Hel & Hfr & Hsc); try done.
    + unfold tree_fuel. lia.
    + lia.
    + by apply (fl_tok _ _ _ _ _ _ Hfl).
    + by apply (fl_nodup _ _ _ _ _ _ Hfl).
    + lia.
    + rewrite Z2Nat.id by lia. apply log2_prefix. lia.
    + intros []; unfold L0; simpl; [rewrite lookup_insert_ne by done|]; by rewrite lookup_insert_eq.
    + unfold mask_m in HL'. rewrite Z2Nat.id in HL' by lia. exists L', (<[i := t']> tr). split; [exact HL'|].
      unfold scalars in Hsc. injection Hsc as F1 F2 F3. apply Hdone; try done.
      * eapply tframe_trans; [|exact Hfr]. by eapply tframe_weaken; [exact Hsub|left|exact Hfr0].
      * rewrite F2. apply (fl_large_ok _ _ _ _ _ _ Hfl).
      * intros j _. by rewrite F2.
      * rewrite F2. unfold L0. simpl. rewrite (fl_large _ _ _ _ _ _ Hfl) by done. by rewrite bool_decide_true.
Qed.

Lemma mm_add_to_free_list_spec F sm rs tr L b s : flists S F sm rs tr L → F !! b = None → good_block b s →
  ∃ L' sm' tr', zend_mm_add_to_free_list S b L = OK L' ∧ flists S (<[b := s]> F) sm' rs tr' L' ∧ prev_kept F b L L'.
Proof.
  intros Hfl Hb Hg. destruct (decide (s < 544)).
  - destruct (add_small _ _ _ _ _ _ _ Hfl Hb Hg) as (L' & sm' & ? & ? & ?); eauto 10.
  - destruct (add_large _ _ _ _ _ _ _ Hfl Hb Hg) as (L' & tr' & ? & ? & ?); [lia|]. eauto 10.
Qed.

(** ** zend_mm_remove_from_free_list *)

Lemma remove_rest_block F sm rs tr L b s : flists S F sm rs tr L → F !! b = Some s → b ∈ rs →
  ∃ L' rs', zend_mm_remove_from_free_list S b L = OK L' ∧ flists S (delete b F) sm rs' tr L' ∧ prev_kept F b L L'.
Proof.
  intros Hfl Hb [r1 [r2 Hrs]]%list_elem_of_split. destruct (fl_blk _ _ _ _ _ _ Hfl b s Hb) as (_ & _ & Hr & H8).
  pose proof (fl_rest _ _ _ _ _ _ Hfl) as Hcyc. pose proof (cyc_nodup _ _ _ Hcyc) as [_ Hnd]%NoDup_cons.
  apply NoDup_fmap_1 in Hnd. rewrite Hrs in Hcyc, Hnd.
  assert (b ∉ r1 ++ r2) as Hbr. { rewrite <- Permutation_middle in Hnd. by apply NoDup_cons in Hnd as [? _]. }
  replace (Rest :: blks (r1 ++ b :: r2)) with ((Rest :: blks r1) ++ (Blk b :: blks r2)) in Hcyc by (simpl; by rewrite fmap_app).
  apply cyc_rot in Hcyc. simpl in Hcyc.
  destruct (remove_start S F (fl_HF _ _ _ _ _ Hfl) b _ s L Hb Hcyc) as (p & n & Hp & Hn & Hne & Hc1 & Hfr1 & ->); [by destruct r2|].
  set (L1 := unlinked p n L) in *. apply cyc_rot in Hc1. simpl in Hc1. rewrite <- fmap_app in Hc1.
  assert (∀ k, k ≠ Rest → (∀ x, k = Blk x → x ≠ b ∧ x ∉ rs) →
    prev_free_block L1 !! k = prev_free_block L !! k ∧ next_free_block L1 !! k = next_free_block L !! k) as Hfr.
  { intros k Hk1 Hk2. apply Hfr1. rewrite elem_of_app, elem_of_cons, !list_elem_of_fmap. intros [(x & -> & Hx)|[?|(x & -> & Hx)]];
      [|done|]; apply (Hk2 x); try done; rewrite Hrs; set_solver. }
  assert (∀ L', prev_free_block L' = prev_free_block L1 → next_free_block L' = next_free_block L1 → parent L' = parent L → cells L' = cells L →
    rest_count L' = (if decide (large_in F b) then rest_count L - 1 else rest_count L) → large_free_bitmap L' = large_free_bitmap L →
    bitmap_ok (free_bitmap L') → (∀ j, Z.testbit (free_bitmap L') j = true → Z.testbit (free_bitmap L) j = true) →
    flists S (delete b F) sm (r1 ++ r2) tr L' ∧ prev_kept F b L L') as Hdone.
  { intros L' E1 E2 E3 E4 E5 E6 E7 E8. split.
    - apply (fl_update_rest S F _ sm rs tr L L' b); rewrite ?E1, ?E2; try done.
      + intros a Ha. by apply delete_ne.
      + intros s'. by rewrite lookup_delete_eq.
      + intros a Ha. rewrite Hrs. set_solver.
      + rewrite Hrs, Hb. split; [eauto|set_solver].
      + rewrite lookup_delete_eq. split; [done|]. by intros [? ?].
      + intros x _. by rewrite E3.
      + intros c _. by rewrite E4.
      + intros s'. by rewrite lookup_delete_eq.
      + rewrite E5, (fl_count _ _ _ _ _ _ Hfl), Hrs, (count_kept F (delete b F) b), !filter_app, filter_cons by (done || by intros; apply delete_ne).
        rewrite !length_app. case_decide; simpl; lia.
    - intros a Ha Hab. rewrite E1. apply Hfr; [done|]. intros x [= <-]. split; [done|]. by apply (fl_not_in _ _ _ _ _ _ Hfl Ha). }
  unfold remove_rest, ZEND_MM_SMALL_SIZE. destruct (Z.ltb_spec s (64 * 8 + 32)).
  - assert (¬ large_in F b) as Hnl by (unfold large_in; rewrite Hb; simpl; lia). rewrite decide_False in Hdone by done.
    pose proof (fl_bitmap_ok _ _ _ _ _ _ Hfl) as Hbm. assert (0 ≤ ZEND_MM_BUCKET_INDEX s < 64) as Hi by (apply bucket_index_range; lia).
    destruct (decide (p = n)); [|exists L1, (r1 ++ r2); split; [done|by apply Hdone]].
    destruct (Hfr (Small (ZEND_MM_BUCKET_INDEX s))) as [-> ->]; [done..|].
    destruct (cyc_links _ _ _ _ (fl_small _ _ _ _ _ _ Hfl _ Hi)) as [-> ->]. ob.
    case_decide; (eexists _, (r1 ++ r2); split; [reflexivity|]); apply Hdone; try done; simpl; [by apply bit_clear_ok|].
    intros j. rewrite bit_clear_spec by done. by intros [? _]%andb_true_iff.
  - assert (large_in F b) as Hl by (unfold large_in; rewrite Hb; simpl; lia). rewrite decide_True in Hdone by done.
    destruct (fl_in_rest _ _ _ _ _ _ Hfl b) as (s' & Hs' & Hpr); [rewrite Hrs; set_solver|]. simplify_eq.
    change (parent L1) with (parent L). rewrite Hpr by lia. ob. rewrite decide_True by done.
    eexists _, (r1 ++ r2). split; [reflexivity|]. apply Hdone; try done. simpl. apply (fl_bitmap_ok _ _ _ _ _ _ Hfl).
Qed.

Lemma remove_small_block F sm rs tr L b s : flists S F sm rs tr L → F !! b = Some s → b ∉ rs → s < 544 →
  ∃ L' sm', zend_mm_remove_from_free_list S b L = OK L' ∧ flists S (delete b F) sm' rs tr L' ∧ prev_kept F b L L'.
Proof.
  intros Hfl Hb Hbr Hlt. destruct (fl_blk _ _ _ _ _ _ Hfl b s Hb) as (_ & _ & Hr & H8). set (i := ZEND_MM_BUCKET_INDEX s).
  assert (0 ≤ i < 64) as Hi by (apply bucket_index_range; lia).
  assert (b ∈ sm i) as Hbi by (apply (fl_in_small _ _ _ _ _ _ Hfl); eauto 10).
  pose proof Hbi as [r1 [r2 Hsm]]%list_elem_of_split. pose proof (fl_small _ _ _ _ _ _ Hfl i Hi) as Hcyc.
  pose proof (cyc_nodup _ _ _ Hcyc) as [_ Hnd]%NoDup_cons. apply NoDup_fmap_1 in Hnd. rewrite Hsm in Hcyc, Hnd.
  assert (b ∉ r1 ++ r2) as Hbn. { rewrite <- Permutation_middle in Hnd. by apply NoDup_cons in Hnd as [? _]. }
  replace (Small i :: blks (r1 ++ b :: r2)) with ((Small i :: blks r1) ++ (Blk b :: blks r2)) in Hcyc by (simpl; by rewrite fmap_app).
  apply cyc_rot in Hcyc. simpl in Hcyc.
  destruct (remove_start S F (fl_HF _ _ _ _ _ Hfl) b _ s L Hb Hcyc) as (p & n & Hp & Hn & Hne & Hc1 & Hfr1 & ->); [by destruct r2|].
  set (L1 := unlinked p n L) in *. apply cyc_rot in Hc1. simpl in Hc1. rewrite <- fmap_app in Hc1.
  assert (∀ k, k ≠ Small i → (∀ x, k = Blk x → x ≠ b ∧ x ∉ sm i) →
    prev_free_block L1 !! k = prev_free_block L !! k ∧ next_free_block L1 !! k = next_free_block L !! k) as Hfr.
  { intros k Hk1 Hk2. apply Hfr1. rewrite elem_of_app, elem_of_cons, !list_elem_of_fmap. intros [(x & -> & Hx)|[?|(x & -> & Hx)]];
      [|done|]; apply (Hk2 x); try done; rewrite Hsm; set_solver. }
  pose proof (fl_bitmap_ok _ _ _ _ _ _ Hfl) as Hbm.
  assert (∀ L', prev_free_block L' = prev_free_block L1 → next_free_block L' = next_free_block L1 → parent L' = parent L → cells L' = cells L →
    rest_count L' = rest_count L → large_free_bitmap L' = large_free_bitmap L → bitmap_ok (free_bitmap L') →
    (∀ j, j ≠ i → Z.testbit (free_bitmap L') j = Z.testbit (free_bitmap L) j) → (Z.testbit (free_bitmap L') i = true → r1 ++ r2 ≠ []) →
    flists S (delete b F) (<[i := r1 ++ r2]> sm) rs tr L' ∧ prev_kept F b L L') as Hdone.
  { intros L' E1 E2 E3 E4 E5 E6 E7 E8 E9. split.
    - apply (fl_update_small S F _ sm rs tr L L' b); rewrite ?E1, ?E2; try done.
      + intros a Ha. by apply delete_ne.
      + intros s'. by rewrite lookup_delete_eq.
      + intros s'. rewrite lookup_delete_eq. intros [?|?]; [|done]. by simplify_eq.
      + intros a Ha. rewrite Hsm. set_solver.
      + rewrite lookup_delete_eq. split; [done|]. by intros [? ?].
      + intros x _. by rewrite E3.
      + intros c _. by rewrite E4.
    - intros a Ha Hab. rewrite E1. apply Hfr; [done|]. intros x [= <-]. split; [done|]. by apply (fl_not_in _ _ _ _ _ _ Hfl Ha). }
  pose proof (cyc_links (prev_free_block L1) (next_free_block L1) (Small i) (blks (r1 ++ r2)) Hc1) as [Hl1 Hl2].
  unfold remove_rest, ZEND_MM_SMALL_SIZE. destruct (Z.ltb_spec s (64 * 8 + 32)); [|lia]. fold i.
  rewrite Hl1, Hl2. ob. destruct (decide (p = n)) as [Heq|Hpn].
  - case_decide as Hd; (eexists _, (<[i := r1 ++ r2]> sm); split; [reflexivity|]); apply Hdone; try done; simpl.
    + by apply bit_clear_ok.
    + intros j Hj. rewrite bit_clear_spec by done. rewrite bool_decide_false by done. by rewrite andb_true_r.
    + rewrite bit_clear_spec by done. by rewrite bool_decide_true, andb_false_r by done.
    + intros _ Hnil. rewrite Hnil in Hd. done.
  - eexists _, (<[i := r1 ++ r2]> sm); split; [reflexivity|]. apply Hdone; try done. intros _ Hnil.
    apply app_nil in Hnil as [-> ->]. simpl in Hp, Hn. congruence.
Qed.

Lemma remove_large_block F sm rs tr L b s : flists S F sm rs tr L → F !! b = Some s → b ∉ rs → 544 ≤ s →
  ∃ L' tr', zend_mm_remove_from_free_list S b L = OK L' ∧ flists S (delete b F) sm rs tr' L' ∧ prev_kept F b L L'.
Proof.
  intros Hfl Hb Hbr Hge. destruct (fl_blk _ _ _ _ _ _ Hfl b s Hb) as (_ & _ & Hr & H8). set (i := Z.log2 s).
  assert (0 ≤ i < 64) as Hi by (split; [apply Z.log2_nonneg|apply Z.log2_lt_pow2; lia]).
  assert (b ∈ elems (tr i)) as Hbi by (apply (fl_in_trie _ _ _ _ _ _ Hfl); eauto 10).
  destruct (trie_remove S F (fl_HF _ _ _ _ _ Hfl) (tr i) (Z.to_nat i) 1 (Bucket i) b s L)
    as (L' & t' & HL' & Hrep & Htok & Hel & Hfr & Hf1 & Hf2 & Hf3); try done.
  { lia. } { by apply (fl_trie _ _ _ _ _ _ Hfl). } { by apply (fl_tok _ _ _ _ _ _ Hfl). } { by apply (fl_nodup _ _ _ _ _ _ Hfl). }
  pose proof (fl_nodup _ _ _ _ _ _ Hfl i Hi) as Hnd. rewrite Hel in Hnd. apply NoDup_cons in Hnd as [Hbt Hnd].
  pose proof (fl_large_ok _ _ _ _ _ _ Hfl) as Hbm. unfold ZEND_MM_LARGE_BUCKET_INDEX in Hf3. rewrite zend_mm_high_bit_log2 in Hf3 by lia. fold i in Hf3.
  exists L', (<[i := t']> tr). split; [exact HL'|]. split.
  - apply (fl_update_trie S F _ sm rs tr L L' b); try done.
    + intros a Ha. by apply delete_ne.
    + intros s'. by rewrite lookup_delete_eq.
    + intros s'. rewrite lookup_delete_eq. intros [?|?]; [|done]. by simplify_eq.
    + intros a Ha. rewrite Hel. set_solver.
    + rewrite lookup_delete_eq. split; [done|]. by intros [? ?].
    + revert Htok. apply tok_frame. intros x Hx. apply delete_ne. by intros ->.
    + revert Hfr. apply tframe_weaken; [set_solver|by left].
    + rewrite Hf3. case_decide; [by apply bit_clear_ok|done].
    + intros j Hj. rewrite Hf3. case_decide; [|done]. rewrite bit_clear_spec by done. rewrite bool_decide_false by done. by rewrite andb_true_r.
    + rewrite Hf3. destruct (decide (t' = Leaf)) as [->|Hne].
      * rewrite decide_True by done. rewrite bit_clear_spec by done. by rewrite !bool_decide_true, andb_false_r by done.
      * rewrite decide_False by tauto. rewrite (fl_large _ _ _ _ _ _ Hfl) by done. rewrite !bool_decide_true; [done|done|].
        intros Hn. rewrite Hn in Hbi. by apply elem_of_nil in Hbi.
  - intros a Ha Hab. apply (tf_prev _ _ _ _ Hfr). intros x Hx [= <-]. by apply (fl_not_in _ _ _ _ _ _ Hfl Ha) in Hx.
Qed.

Lemma remove_from_free_list_spec F L b s : fl S F L → F !! b = Some s →
  ∃ L', zend_mm_remove_from_free_list S b L = OK L' ∧ fl S (delete b F) L' ∧ prev_kept F b L L'.
Proof.
  intros (sm & rs & tr & Hfl) Hb. destruct (decide (b ∈ rs)).
  - destruct (remove_rest_block _ _ _ _ _ _ _ Hfl Hb) as (L' & rs' & ? & ? & ?); [done|]. exists L'. split_and!; [done| |done]. by exists sm, rs', tr.
  - destruct (decide (s < 544)).
    + destruct (remove_small_block _ _ _ _ _ _ _ Hfl Hb) as (L' & sm' & ? & ? & ?); [done..|]. exists L'. split_and!; [done| |done]. by exists sm', rs, tr.
    + destruct (remove_large_block _ _ _ _ _ _ _ Hfl Hb) as (L' & tr' & ? & ? & ?); [done|lia|]. exists L'. split_and!; [done| |done]. by exists sm, rs, tr'.
Qed.
End lists.

(** * The list of rest blocks *)

Section rest.
Context (S : mm_store).
Implicit Types (F : gmap Z Z) (L : mm_lists) (sm : Z → list Z) (rs : list Z) (tr : Z → trie).

(** Every rest block has its entry among the links, so the links bound the
    number of evictions. *)
Lemma rest_length F sm rs tr L : flists S F sm rs tr L → (length rs ≤ size (next_free_block L))%nat.
Proof.
  intros Hfl. pose proof (fl_rest _ _ _ _ _ _ Hfl) as Hcyc. pose proof (cyc_nodup _ _ _ Hcyc) as Hnd.
  apply NoDup_cons in Hnd as [_ Hnd]. rewrite <- (length_fmap Blk rs), <- size_dom.
  rewrite <- (size_list_to_set (C := gset fptr) _ Hnd). apply subseteq_size. intros k Hk%elem_of_list_to_set.
  apply elem_of_dom. pose proof Hk as [l1 [l2 Hl]]%list_elem_of_split. rewrite Hl in Hcyc.
  change (Rest :: l1 ++ k :: l2) with ((Rest :: l1) ++ k :: l2) in Hcyc. apply cyc_rot in Hcyc. simpl in Hcyc.
  apply cyc_links in Hcyc as [-> _]. eauto.
Qed.

(** The oldest block leaves the list. *)
Lemma evict_unlink F sm p rs tr L s : flists S F sm (p :: rs) tr L → F !! p = Some s →
  let L0 := if negb (ZEND_MM_SMALL_SIZE s) then set_rest_count (rest_count L - 1) L else L in
  ∃ q, prev_free_block L0 !! Blk p = Some q ∧ ∃ n, next_free_block L0 !! Blk p = Some n ∧
    store_next q n L0 = OK (put_next q n L0) ∧ store_prev n q (put_next q n L0) = OK (unlinked q n L0) ∧
    flists S (delete p F) sm rs tr (unlinked q n L0) ∧ prev_kept F p L (unlinked q n L0).
Proof.
  intros Hfl Hp L0. pose proof (fl_rest _ _ _ _ _ _ Hfl) as Hcyc. pose proof (cyc_nodup _ _ _ Hcyc) as [_ Hnd]%NoDup_cons.
  apply NoDup_fmap_1, NoDup_cons in Hnd as [Hpr _].
  assert (cyc (prev_free_block L0) (next_free_block L0) (Rest :: Blk p :: blks rs)) as Hc0.
  { unfold L0. by destruct (negb _). }
  change (Rest :: Blk p :: blks rs) with ([Rest] ++ (Blk p :: blks rs)) in Hc0. apply cyc_rot in Hc0. simpl in Hc0.
  destruct (unlink_cyc _ _ _ Hc0) as (q & n & Hq & Hn & Hne & Hpv & Hnx & _ & _ & H1 & H2 & Hc1 & Hfr); [by destruct rs|].
  exists q. split; [done|]. exists n. split_and!; try done.
  - apply cyc_rot in Hc1. simpl in Hc1.
    assert (∀ k, k ≠ Rest → (∀ x, k = Blk x → x ≠ p ∧ x ∉ p :: rs) →
      prev_free_block (unlinked q n L0) !! k = prev_free_block L !! k ∧ next_free_block (unlinked q n L0) !! k = next_free_block L !! k) as Hfr'.
    { intros k Hk1 Hk2. destruct (Hfr k) as [-> ->]; [|unfold L0; by destruct (negb _)].
      rewrite elem_of_app, list_elem_of_singleton, list_elem_of_fmap. intros [(x & -> & Hx)|?]; [|done].
      destruct (Hk2 x) as [? Hn2]; [done|]. apply Hn2. by right. }
    apply (fl_update_rest S F _ sm (p :: rs) tr L _ p); try done.
    + intros a Ha. by apply delete_ne.
    + intros s'. by rewrite lookup_delete_eq.
    + intros a Ha. rewrite elem_of_cons. naive_solver.
    + rewrite Hp. split; [eauto|intros _; by left].
    + rewrite lookup_delete_eq. split; [done|]. by intros [? ?].
    + intros x _. unfold L0. by destruct (negb _).
    + intros c _. unfold L0. by destruct (negb _).
    + intros s'. by rewrite lookup_delete_eq.
    + rewrite (count_kept F (delete p F) p) by (done || by intros; apply delete_ne).
      pose proof (fl_count _ _ _ _ _ _ Hfl) as Hc. rewrite filter_cons in Hc.
      assert (large_in F p ↔ 544 ≤ s) as Hlp by (unfold large_in; by rewrite Hp).
      unfold L0, ZEND_MM_SMALL_SIZE. destruct (Z.ltb_spec s (64 * 8 + 32)); simpl in *.
      * rewrite decide_False in Hc by (rewrite Hlp; lia). done.
      * rewrite decide_True in Hc by (rewrite Hlp; lia). simpl in Hc. lia.
    + unfold L0. by destruct (negb _).
    + unfold L0. destruct (negb _); apply (fl_bitmap_ok _ _ _ _ _ _ Hfl).
    + unfold L0. by destruct (negb _).
  - intros a Ha Hap. destruct (Hfr (Blk a)) as [-> _]; [|unfold L0; by destruct (negb _)].
    rewrite elem_of_app, list_elem_of_singleton, blks_elem. intros [Hx|?]; [|done].
    apply (fl_not_in _ _ _ _ _ _ _ Hfl) in Ha as [Ha _]. apply Ha. by right.
Qed.

Lemma rest_evict_spec fuel F sm rs tr L : flists S F sm rs tr L → (length rs ≤ fuel)%nat →
  ∃ L' sm' rs' tr', rest_evict S fuel L = OK L' ∧ flists S F sm' rs' tr' L' ∧ rest_count L' < ZEND_MM_MAX_REST_BLOCKS ∧
    ∀ a, F !! a = None → prev_free_block L' !! Blk a = prev_free_block L !! Blk a.
Proof.
  revert sm rs tr L. induction fuel as [|fuel IH]; intros sm rs tr L Hfl Hf; cbn [rest_evict];
    pose proof (fl_count _ _ _ _ _ _ Hfl) as Hc; pose proof (length_filter (large_in F) rs) as Hle;
    destruct (Z.leb_spec ZEND_MM_MAX_REST_BLOCKS (rest_count L)).
  - lia.
  - exists L, sm, rs, tr. done.
  - destruct rs as [|p rs]; [simpl in Hc; lia|]. clear Hle Hc.
    destruct (fl_in_rest _ _ _ _ _ _ Hfl p) as (s & Hp & _); [by left|].
    pose proof (fl_blk _ _ _ _ _ _ Hfl p s Hp) as Hg.
    pose proof (cyc_links _ _ Rest (blks (p :: rs)) (fl_rest _ _ _ _ _ _ Hfl)) as [Hnx _]. rewrite Hnx. ob. cbn [default as_block head]. ob.
    unfold ZEND_MM_FREE_BLOCK_SIZE. simpl. rewrite (proj1 Hg). ob.
    destruct (evict_unlink _ _ _ _ _ _ _ Hfl Hp) as (q & Hq & n & Hn & H1 & H2 & Hfl1 & Hk1).
    rewrite Hq. ob. rewrite Hn. ob. rewrite H1. ob. rewrite H2. ob.
    destruct (mm_add_to_free_list_spec S _ _ _ _ _ p s Hfl1) as (L2 & sm2 & tr2 & -> & Hfl2 & Hk2); [by rewrite lookup_delete_eq|done|].
    ob. rewrite insert_delete_eq, insert_id in Hfl2 by done.
    destruct (IH _ _ _ _ Hfl2) as (L' & sm' & rs' & tr' & HL' & Hfl' & Hlt & Hk3); [simpl in Hf; lia|].
    exists L', sm', rs', tr'. split_and!; try done. intros a Ha. assert (a ≠ p) by congruence.
    rewrite Hk3, Hk2, Hk1; try done. by rewrite delete_ne.
  - exists L, sm, rs, tr. done.
Qed.

Lemma add_to_rest_list_spec F L b s : fl S F L → F !! b = None → good_block S b s →
  ∃ L', zend_mm_add_to_rest_list S b L = OK L' ∧ fl S (<[b := s]> F) L' ∧ prev_kept F b L L'.
Proof.
  intros (sm0 & rs0 & tr0 & Hfl0) Hb Hg. unfold zend_mm_add_to_rest_list.
  destruct (rest_evict_spec (size (next_free_block L)) _ _ _ _ _ Hfl0) as (L0 & sm & rs & tr & -> & Hfl & _ & Hk0); [by eapply rest_length|].
  ob. unfold ZEND_MM_FREE_BLOCK_SIZE. rewrite (proj1 Hg). ob. clear Hfl0.
  destruct (fl_not_in _ _ _ _ _ _ _ Hfl Hb) as (Hbr & _ & _).
  set (L1 := if negb _ then _ else L0).
  assert (prev_free_block L1 = prev_free_block L0 ∧ next_free_block L1 = next_free_block L0 ∧ cells L1 = cells L0 ∧
    (∀ x, x ≠ b → parent L1 !! x = parent L0 !! x) ∧ (544 ≤ s → parent L1 !! b = Some PRest) ∧
    rest_count L1 = (if decide (544 ≤ s) then rest_count L0 + 1 else rest_count L0) ∧
    free_bitmap L1 = free_bitmap L0 ∧ large_free_bitmap L1 = large_free_bitmap L0) as (E1 & E2 & E3 & E4 & E5 & E6 & E7 & E8).
  { unfold L1, ZEND_MM_SMALL_SIZE. destruct (Z.ltb_spec s (64 * 8 + 32)); simpl; [rewrite decide_False by lia|rewrite decide_True by lia];
      split_and!; try done; [lia|intros; by rewrite lookup_insert_ne|intros; by rewrite lookup_insert_eq]. }
  clearbody L1. pose proof (fl_rest _ _ _ _ _ _ Hfl) as Hcyc. rewrite <- E1, <- E2 in Hcyc.
  pose proof (cyc_links _ _ Rest (blks rs) Hcyc) as [_ Hpv]. rewrite Hpv. ob.
  assert (∃ pv r, cyc (prev_free_block L1) (next_free_block L1) (pv :: r) ∧ pv = default Rest (last (blks rs)) ∧
    (∀ k, k ∈ pv :: r ↔ k ∈ Rest :: blks rs) ∧ ∀ L', cyc (prev_free_block L') (next_free_block L') (pv :: Blk b :: r) →
    cyc (prev_free_block L') (next_free_block L') (Rest :: blks (rs ++ [b]))) as (pv & r & Hc & Hpvr & Hin & Hback).
  { destruct rs as [|x rs' _] using rev_ind; [exists Rest, []; done|]. rewrite fmap_app; change (blks [x]) with [Blk x]; rewrite last_snoc; cbn [default].
    exists (Blk x), (Rest :: blks rs'). split_and!; [|done| |].
    - rewrite fmap_app in Hcyc. change (blks [x]) with [Blk x] in Hcyc. apply (cyc_rot _ _ (Rest :: blks rs') [Blk x]) in Hcyc. done.
    - intros k. rewrite !elem_of_cons, elem_of_app, elem_of_cons. simpl. rewrite elem_of_nil. tauto.
    - intros L' Hc'. apply (cyc_rot _ _ [Blk x; Blk b]) in Hc'. simpl in Hc'. by rewrite !fmap_app, <- app_assoc. }
  rewrite <- Hpvr. pose proof (cyc_links _ _ pv r Hc) as [Hnx _]. rewrite Hnx. ob.
  destruct (link_after_cyc L1 pv r b Hc) as (L' & -> & Hc' & Hp & Hce & Hsc & Hfr).
  { rewrite Hin, elem_of_cons, blks_elem. intros [?|?]; done. }
  unfold scalars in Hsc. injection Hsc as F1 F2 F3. exists L'. split; [done|].
  assert (∀ k, k ∉ Rest :: Blk b :: blks rs → prev_free_block L' !! k = prev_free_block L0 !! k ∧ next_free_block L' !! k = next_free_block L0 !! k) as Hfr'.
  { intros k Hk. rewrite <- E1, <- E2. apply Hfr. intros Hk'. apply Hk. apply elem_of_cons in Hk' as [->|Hk'].
    - assert (pv ∈ pv :: r) as Hx by (by left). apply Hin in Hx. rewrite !elem_of_cons in *. tauto.
    - apply elem_of_cons in Hk' as [->|Hk']; [right; by left|]. assert (k ∈ pv :: r) as Hx by (by right). apply Hin in Hx. rewrite !elem_of_cons in *. tauto. }
  split.
  - exists sm, (rs ++ [b]), tr. apply (fl_update_rest S F _ sm rs tr L0 L' b); try done.
    + intros a Ha. by apply insert_ne.
    + intros s'. rewrite lookup_insert_eq. by intros [= <-].
    + intros a Ha. rewrite elem_of_app, list_elem_of_singleton. tauto.
    + rewrite Hb. split; [done|]. by intros [? ?].
    + rewrite lookup_insert_eq. split; [eauto|intros _]. apply elem_of_app. right. by left.
    + by apply Hback.
    + intros k Hk1 Hk2. apply Hfr'. rewrite !elem_of_cons, list_elem_of_fmap. intros [?|[->|(x & -> & Hx)]]; [done|by destruct (Hk2 b)|by destruct (Hk2 x)].
    + intros x Hx. by rewrite Hp, E4.
    + intros c _. by rewrite Hce, E3.
    + intros s'. rewrite lookup_insert_eq. intros [= <-] Hs. by rewrite Hp, E5.
    + rewrite F3, E6, (fl_count _ _ _ _ _ _ Hfl), filter_app, length_app, (count_kept F (<[b := s]> F) b), filter_cons
        by (done || by intros; apply insert_ne).
      assert (large_in (<[b := s]> F) b ↔ 544 ≤ s) as Hlb by (unfold large_in; by rewrite lookup_insert_eq).
      rewrite (decide_ext _ _ _ _ Hlb). case_decide; simpl; lia.
    + by rewrite F2, E8.
    + rewrite F1, E7. apply (fl_bitmap_ok _ _ _ _ _ _ Hfl).
    + intros j. by rewrite F1, E7.
  - intros a Ha Hne. rewrite <- Hk0 by done. apply Hfr'. rewrite !elem_of_cons, blks_elem. intros [?|[[= ->]|?]]; [done..|].
    by apply (fl_not_in _ _ _ _ _ _ _ Hfl Ha).
Qed.
End rest.
