(* ===== verification/MmSearch.v ===== *)
(** The search for a large free block: it finds a block exactly when there is
    one, and an exact fit when there is one. *)

From stdpp Require Import functions.
From S2P Require Import Prelude ZendMmTypes MmBits ZendMmFree Cyc MmTrie MmTrieDel MmLists.

Fixpoint heads (t : trie) : list Z :=
  match t with Leaf => [] | Node a _ l r => a :: heads l ++ heads r end.

Lemma heads_elems t a : a ∈ heads t → a ∈ elems t.
Proof.
  induction t as [|h os l IHl r IHr]; simpl; [done|]. rewrite !elem_of_cons, !elem_of_app. tauto.
Qed.

Lemma div_lt_inv a b n : 0 ≤ n → a / 2 ^ n < b / 2 ^ n → a < b.
Proof.
  intros Hn Hlt. destruct (Z.lt_ge_cases a b); [done|].
  assert (b / 2 ^ n ≤ a / 2 ^ n) by (apply Z.div_le_mono; lia). lia.
Qed.

Section search.
Context (S : mm_store) (F : gmap Z Z) (L : mm_lists) (HF : ∀ a s, F !! a = Some s → info_size S !! a = Some s ∧ a ≠ 0).
Context (Hmax : ∀ a s, F !! a = Some s → s < ULONG_MAX).

(** The block next in the ring of a head has the same size. *)
Lemma head_next c t n pfx a : trep L c t → tok F n pfx t → a ∈ heads t →
  ∃ q s, next_in_ring a L = OK q ∧ q ∈ elems t ∧ F !! a = Some s ∧ F !! q = Some s.
Proof using Type.
  revert c n pfx. induction t as [|h os l IHl r IHr]; intros c n pfx Hrep Htok Ha; [by apply elem_of_nil in Ha|].
  destruct Hrep as (_ & _ & _ & Hcyc & _ & Hl & Hr). apply tok_node in Htok as [(s & Hs & _ & _) Hsub].
  simpl in Ha. rewrite elem_of_cons, elem_of_app in Ha. destruct Ha as [->|Ha].
  - destruct (cyc_links _ _ (Blk h) (blks os) Hcyc) as [Hnx _]. unfold next_in_ring. rewrite Hnx.
    destruct os as [|o os]; simpl; [exists h, s; split_and!; [done|by left|apply Hs; by left..]|].
    exists o, s. split_and!; [done|right; by left|apply Hs; by left|apply Hs; right; by left].
  - destruct n as [|n]; [destruct Hsub as [-> ->]; simpl in Ha; destruct Ha as [Ha|Ha]; by apply elem_of_nil in Ha|]. destruct Hsub as [Htl Htr].
    destruct Ha as [Ha|Ha]; [destruct (IHl _ _ _ Hl Htl Ha) as (q & s' & ? & Hq & ?)|destruct (IHr _ _ _ Hr Htr Ha) as (q & s' & ? & Hq & ?)];
      exists q, s'; simpl; rewrite elem_of_cons, !elem_of_app; tauto.
Qed.

Section size.
Context (ts : Z) (X : trie) (Hts : 0 ≤ ts).

(** The best block so far: none, or a head of [X] that is big enough. *)
Definition best_ok (bf bs : Z) : Prop :=
  (bf = 0 ∧ bs = ULONG_MAX) ∨ (bf ∈ heads X ∧ F !! bf = Some bs ∧ ts ≤ bs).

(** A subtree all of whose blocks are too big: the one passed by last. *)
Definition rst_ok (rst : Z) : Prop :=
  rst = 0 ∨ ∃ u c n pfx, rst = troot u ∧ u ≠ Leaf ∧ trep L c u ∧ tok F n pfx u ∧ (n ≤ 64)%nat ∧ heads u ⊆ heads X ∧
    ∀ x s, x ∈ elems u → F !! x = Some s → ts < s.

Lemma search_path_spec fuel t n pfx c bf bs rst :
  (n < fuel)%nat → (n ≤ 64)%nat → t ≠ Leaf → trep L c t → tok F n pfx t → ts / 2 ^ Z.of_nat n = pfx →
  heads t ⊆ heads X → elems t ⊆ elems X → best_ok bf bs → rst_ok rst →
  (∃ q, search_path S fuel L ts (mask_m ts n) (troot t) bf bs rst = OK (inl q) ∧ q ∈ elems t ∧ F !! q = Some ts) ∨
  (∃ bf' bs' rst', search_path S fuel L ts (mask_m ts n) (troot t) bf bs rst = OK (inr (bf', bs', rst')) ∧
     best_ok bf' bs' ∧ rst_ok rst' ∧ (∀ x, x ∈ elems t → F !! x ≠ Some ts) ∧
     (bf' = 0 → rst' = 0 → bf = 0 ∧ rst = 0 ∧ ∀ x s, x ∈ elems t → F !! x = Some s → s < ts)).
Proof using HF Hmax Hts.
  revert n pfx c fuel bf bs rst. induction t as [|p os l IHl r IHr]; intros n pfx c fuel bf bs rst Hfuel Hn Hne Hrep Htok Hpfx HhX HeX Hbf Hrst; [done|]. clear Hne.
  destruct fuel as [|fuel]; [lia|]. cbn [search_path troot]. pose proof Hrep as Hrep0. pose proof Htok as Htok0.
  destruct Hrep as (Hc & Hp0 & Hpar & Hcyc & Hos & Hl & Hr). apply tok_node in Htok as [(s & Hs & Hs0 & Hsp) Hsub].
  destruct (HF p s) as [Hsz _]; [apply Hs; by left|]. unfold ZEND_MM_FREE_BLOCK_SIZE. rewrite Hsz. ob.
  assert (p ∈ heads X) as HpX by (apply HhX; by left).
  destruct (Z.eqb_spec s ts) as [->|Hne].
  { left. destruct (head_next _ _ _ _ p Hrep0 Htok0) as (q & s' & -> & Hq & Hp1 & Hq1); [by left|]. ob.
    rewrite Hs in Hp1 by (by left). simplify_eq. eauto. }
  destruct n as [|n]; [exfalso; rewrite Z.pow_0_r, Z.div_1_r in *; lia|].
  assert (∃ bf1 bs1, (if (ts <=? s) && (s <? bs) then (p, s) else (bf, bs)) = (bf1, bs1) ∧ best_ok bf1 bs1 ∧ (bf1 = 0 → bf = 0 ∧ s < ts))
    as (bf1 & bs1 & -> & Hb1 & Hb1').
  { assert (F !! p = Some s) as Hps by (apply Hs; by left).
    destruct (Z.leb_spec ts s); simpl; [|exists bf, bs; split_and!; [done..|]; intros ->; split; [done|lia]].
    destruct (Z.ltb_spec s bs); [exists p, s; split_and!; [done|by right|done]|].
    exists bf, bs. split_and!; [done..|]. intros ->. destruct Hbf as [[_ ->]|(_ & Hb & _)]; [pose proof (Hmax p s Hps); lia|].
    by apply HF in Hb as [_ ?]. }
  rewrite (trep_root _ _ _ Hl). ob. rewrite (trep_root _ _ _ Hr). ob. rewrite land_top_bit, mask_m_bit, mask_m_step by lia.
  rewrite (trep_root_zero _ _ _ Hl), (trep_root_zero _ _ _ Hr). destruct Hsub as [Htl Htr].
  assert (ts / 2 ^ Z.of_nat n = 2 * pfx + Z.b2z (Z.testbit ts (Z.of_nat n))) as Hpk.
  { rewrite prefix_step by lia. rewrite Nat2Z.inj_succ, <- Z.add_1_r in Hpfx. by rewrite Hpfx. }
  assert (∀ x s, x ∈ elems l → F !! x = Some s → s / 2 ^ Z.of_nat n = 2 * pfx) as Hel.
  { intros x s' Hx Hx'. destruct (tok_elems _ _ _ _ _ Htl Hx) as (s2 & ? & _ & ?). by simplify_eq. }
  assert (∀ x s, x ∈ elems r → F !! x = Some s → s / 2 ^ Z.of_nat n = 2 * pfx + 1) as Her.
  { intros x s' Hx Hx'. destruct (tok_elems _ _ _ _ _ Htr Hx) as (s2 & ? & _ & ?). by simplify_eq. }
  assert (∀ x s', x = p ∨ x ∈ os → F !! x = Some s' → s' = s) as Hself
    by (intros x s' Hx Hx'; rewrite Hs in Hx' by (by apply elem_of_cons); by simplify_eq).
  simpl in HhX, HeX.
  destruct (Z.testbit ts (Z.of_nat n)) eqn:Hbit; cbn [negb].
  - (* to the right: everything on the left is too small *)
    assert (∀ x s, x ∈ elems l → F !! x = Some s → s < ts) as Hsml.
    { intros x s' Hx Hx'. apply (div_lt_inv _ _ (Z.of_nat n)); [lia|]. rewrite (Hel _ _ Hx Hx'), Hpk. simpl. lia. }
    case_bool_decide as Hleaf.
    + subst r. right. exists bf1, bs1, rst. split_and!; try done.
      * intros x Hx Hx'. simpl in Hx. rewrite app_nil_r, elem_of_cons, elem_of_app in Hx.
        destruct Hx as [Hx|[Hx|Hx]]; [apply Hne; symmetry; apply (Hself x); [by left|done]|apply Hne; symmetry; apply (Hself x); [by right|done]|].
        pose proof (Hsml _ _ Hx Hx'). lia.
      * intros H1 H2. destruct (Hb1' H1) as [H3 H4]. split_and!; try done. intros x s' Hx Hx'. simpl in Hx. rewrite app_nil_r, elem_of_cons, elem_of_app in Hx.
        destruct Hx as [Hx|[Hx|Hx]]; [rewrite (Hself x s'); [done|by left|done]|rewrite (Hself x s'); [done|by right|done]|eauto].
    + destruct (IHr n (2 * pfx + 1) (Child p true) fuel bf1 bs1 rst) as [(q & -> & Hq & HFq)|(bf' & bs' & rst' & -> & H1 & H2 & H3 & H4)]; try done; try lia.
      { intros x Hx. apply HhX. right. apply elem_of_app. by right. }
      { intros x Hx. apply HeX. right. apply elem_of_app. right. apply elem_of_app. by right. }
      * left. exists q. split_and!; try done. simpl. rewrite elem_of_cons, !elem_of_app. tauto.
      * right. exists bf', bs', rst'. split_and!; try done.
        -- intros x Hx Hx'. simpl in Hx. rewrite elem_of_cons, !elem_of_app in Hx.
           destruct Hx as [Hx|[Hx|[Hx|Hx]]]; [apply Hne; symmetry; apply (Hself x); [by left|done]|apply Hne; symmetry; apply (Hself x); [by right|done]| |by apply (H3 x)].
           pose proof (Hsml _ _ Hx Hx'). lia.
        -- intros E1 E2. destruct (H4 E1 E2) as (E3 & E4 & E5). destruct (Hb1' E3) as [E6 E7]. split_and!; try done. intros x s' Hx Hx'.
           simpl in Hx. rewrite elem_of_cons, !elem_of_app in Hx.
           destruct Hx as [Hx|[Hx|[Hx|Hx]]]; [rewrite (Hself x s'); [done|by left|done]|rewrite (Hself x s'); [done|by right|done]|eauto|eauto].
  - (* to the left: everything on the right is too big *)
    simpl in Hpk. rewrite Z.add_0_r in Hpk.
    assert (∀ x s, x ∈ elems r → F !! x = Some s → ts < s) as Hbig.
    { intros x s' Hx Hx'. apply (div_lt_inv _ _ (Z.of_nat n)); [lia|]. rewrite (Her _ _ Hx Hx'), Hpk. lia. }
    assert (∃ rst1, (if bool_decide (r = Leaf) then rst else troot r) = rst1 ∧ rst_ok rst1 ∧ (rst1 = 0 → r = Leaf ∧ rst = 0)) as (rst1 & -> & Hr1 & Hr1').
    { case_bool_decide as Hrl; [by exists rst|]. exists (troot r). split_and!; [done| |].
      - right. exists r, (Child p true), n, (2 * pfx + 1). split_and!; try done; [lia|].
        intros x Hx. apply HhX. right. apply elem_of_app. by right.
      - intros E. pose proof (trep_root_zero _ _ _ Hr) as Hz. rewrite E in Hz. by rewrite bool_decide_false in Hz. }
    case_bool_decide as Hleaf.
    + subst l. right. exists bf1, bs1, rst1. split_and!; try done.
      * intros x Hx Hx'. simpl in Hx. rewrite elem_of_cons, elem_of_app in Hx.
        destruct Hx as [Hx|[Hx|Hx]]; [apply Hne; symmetry; apply (Hself x); [by left|done]|apply Hne; symmetry; apply (Hself x); [by right|done]|].
        pose proof (Hbig _ _ Hx Hx'). lia.
      * intros E1 E2. destruct (Hb1' E1) as [E3 E4], (Hr1' E2) as [-> E5]. split_and!; try done. intros x s' Hx Hx'. simpl in Hx. rewrite app_nil_r, elem_of_cons in Hx.
        destruct Hx as [Hx|Hx]; [rewrite (Hself x s'); [done|by left|done]|rewrite (Hself x s'); [done|by right|done]].
    + destruct (IHl n (2 * pfx) (Child p false) fuel bf1 bs1 rst1) as [(q & -> & Hq & HFq)|(bf' & bs' & rst' & -> & H1 & H2 & H3 & H4)]; try done; try lia.
      { intros x Hx. apply HhX. right. apply elem_of_app. by left. }
      { intros x Hx. apply HeX. right. apply elem_of_app. right. apply elem_of_app. by left. }
      * left. exists q. split_and!; try done. simpl. rewrite elem_of_cons, !elem_of_app. tauto.
      * right. exists bf', bs', rst'. split_and!; try done.
        -- intros x Hx Hx'. simpl in Hx. rewrite elem_of_cons, !elem_of_app in Hx.
           destruct Hx as [Hx|[Hx|[Hx|Hx]]]; [apply Hne; symmetry; apply (Hself x); [by left|done]|apply Hne; symmetry; apply (Hself x); [by right|done]|by apply (H3 x)|].
           pose proof (Hbig _ _ Hx Hx'). lia.
        -- intros E1 E2. destruct (H4 E1 E2) as (E3 & E4 & E5). destruct (Hb1' E3) as [E6 E7], (Hr1' E4) as [-> E8]. split_and!; try done.
           intros x s' Hx Hx'. simpl in Hx. rewrite elem_of_cons, !elem_of_app in Hx.
           destruct Hx as [Hx|[Hx|[Hx|Hx]]]; [rewrite (Hself x s'); [done|by left|done]|rewrite (Hself x s'); [done|by right|done]|eauto|by apply elem_of_nil in Hx].
Qed.

(** The walk over the subtree passed by: it ends, and it improves on nothing. *)
Lemma search_rst_spec fuel u n pfx c bf bs : (n < fuel)%nat ∨ u = Leaf → trep L c u → tok F n pfx u → heads u ⊆ heads X →
  (∀ x s, x ∈ elems u → F !! x = Some s → ts < s) → best_ok bf bs →
  ∃ bf' bs', search_rst S fuel L ts (troot u) bf bs = OK (inr bf') ∧ best_ok bf' bs' ∧ (bf' = 0 → bf = 0 ∧ u = Leaf).
Proof using HF Hmax.
  revert u n pfx c bf bs. induction fuel as [|fuel IH]; intros u n pfx c bf bs Hf Hrep Htok Hh Hbig Hb; cbn [search_rst];
    rewrite (trep_root_zero _ _ _ Hrep); case_bool_decide as Hl; try (exists bf, bs; done).
  { destruct Hf; [lia|done]. }
  destruct u as [|p os l r]; [done|]. pose proof Hrep as (Hc & Hp0 & _ & _ & _ & Hrl & Hrr). pose proof Htok as [(s & Hs & _) Hsub]%tok_node.
  assert (F !! p = Some s) as Hps by (apply Hs; by left). cbn [troot]. unfold ZEND_MM_FREE_BLOCK_SIZE. destruct (HF p s Hps) as [-> _]. ob.
  assert (ts < s) as Hlt by (apply (Hbig p); [by left|done]). destruct (Z.eqb_spec s ts); [lia|]. destruct (Z.ltb_spec ts s); [|lia]. cbn [andb].
  assert (∃ bf1 bs1, (if s <? bs then (p, s) else (bf, bs)) = (bf1, bs1) ∧ best_ok bf1 bs1 ∧ bf1 ≠ 0) as (bf1 & bs1 & -> & Hb1 & Hn0).
  { destruct (Z.ltb_spec s bs).
    - exists p, s. split_and!; [done| |done]. right. split_and!; [apply Hh; by left|done|lia].
    - exists bf, bs. split_and!; [done..|]. destruct Hb as [[_ ->]|(_ & Hb & _)]; [pose proof (Hmax p s Hps); lia|]. by apply HF in Hb as [_ ?]. }
  unfold shallow_child. rewrite (trep_root _ _ _ Hrl). ob. rewrite (trep_root_zero _ _ _ Hrl).
  set (k := negb (bool_decide (l = Leaf))). set (u := if k then r else l).
  assert (trep L (Child p k) u) as Hu by (unfold u; by destruct k). rewrite (trep_root _ _ _ Hu). ob.
  assert (∃ n' pfx', tok F n' pfx' u ∧ ((n' < fuel)%nat ∨ u = Leaf)) as (n' & pfx' & Htok' & Hf').
  { destruct n as [|n]; [destruct Hsub as [-> ->]; exists O, 0; unfold u; destruct k; (split; [done|by right])|].
    destruct Hf as [Hf|?]; [|done]. destruct Hsub as [H1 H2]. unfold u. destruct k; eexists n, _; (split; [done|left; lia]). }
  destruct (IH u n' pfx' (Child p k) bf1 bs1) as (bf' & bs' & -> & H1 & H2); try done.
  - intros x Hx. apply Hh. simpl. right. apply elem_of_app. unfold u in Hx. destruct k; tauto.
  - intros x s' Hx. apply Hbig. simpl. rewrite elem_of_cons, !elem_of_app. unfold u in Hx. destruct k; tauto.
  - exists bf', bs'. split_and!; [done..|]. intros E. by destruct (H2 E).
Qed.
End size.

Lemma search_smallest_spec fuel t n pfx c bf X : (n < fuel)%nat → t ≠ Leaf → trep L c t → tok F n pfx t → heads t ⊆ heads X →
  bf ∈ heads X → (∀ x, x ∈ heads X → is_Some (F !! x)) →
  ∃ q, search_smallest S fuel L (troot t) bf = OK q ∧ q ∈ heads X.
Proof using HF.
  revert t n pfx c bf. induction fuel as [|fuel IH]; intros t n pfx c bf Hf Hne Hrep Htok Hh Hb HX; [lia|]. cbn [search_smallest].
  destruct t as [|p os l r]; [done|]. pose proof Hrep as (Hc & Hp0 & _ & _ & _ & Hrl & Hrr). pose proof Htok as [_ Hsub]%tok_node.
  unfold shallow_child. cbn [troot]. rewrite (trep_root _ _ _ Hrl). ob. rewrite (trep_root_zero _ _ _ Hrl).
  set (k := negb (bool_decide (l = Leaf))). set (u := if k then r else l).
  assert (trep L (Child p k) u) as Hu by (unfold u; by destruct k). rewrite (trep_root _ _ _ Hu). ob.
  rewrite (trep_root_zero _ _ _ Hu). case_bool_decide as Hul; [by exists bf|].
  assert (heads u ⊆ heads X) as HuX. { intros x Hx. apply Hh. simpl. right. apply elem_of_app. unfold u in Hx. destruct k; tauto. }
  assert (troot u ∈ heads X) as HrX by (apply HuX; clear -Hul; clearbody u; destruct u; [done|by left]).
  destruct (HX _ HrX) as [s Hs], (HX _ Hb) as [sb Hsb]. unfold ZEND_MM_FREE_BLOCK_SIZE. destruct (HF _ _ Hs) as [-> _]. ob. destruct (HF _ _ Hsb) as [-> _]. ob.
  destruct n as [|n]; [exfalso; destruct Hsub as [-> ->]; apply Hul; unfold u; by destruct k|]. destruct Hsub as [H1 H2].
  assert (∃ pfx', tok F n pfx' u) as [pfx' Hu'] by (unfold u; destruct k; eauto).
  apply (IH u n pfx' (Child p k)); try done; [lia|]. by destruct (s <? sb).
Qed.
End search.

(** * zend_mm_search_large_block *)

Lemma shiftr_zero_bits bm i j : Z.shiftr bm i = 0 → 0 ≤ i ≤ j → Z.testbit bm j = false.
Proof.
  intros H0 Hij. assert (Z.testbit (Z.shiftr bm i) (j - i) = false) as Hb by (rewrite H0; apply Z.testbit_0_l).
  rewrite Z.shiftr_spec in Hb by lia. by replace (j - i + i) with j in Hb by lia.
Qed.

Section large.
Context (S : mm_store) (F : gmap Z Z) (sm : Z → list Z) (rs : list Z) (tr : Z → trie) (L : mm_lists).
Context (Hfl : flists S F sm rs tr L).

Local Lemma HFl : ∀ a s, F !! a = Some s → info_size S !! a = Some s ∧ a ≠ 0.
Proof using Hfl. exact (fl_HF S _ _ _ _ _ Hfl). Qed.
Local Lemma Hmaxl : ∀ a s, F !! a = Some s → s < ULONG_MAX.
Proof using Hfl.
  intros a s Ha. destruct (fl_blk _ _ _ _ _ _ Hfl a s Ha) as (_ & _ & Hs & [k ->]). unfold ULONG_MAX.
  change (2 ^ 64) with (8 * 2 ^ 61) in *. lia.
Qed.

Lemma log2_range s : 0 < s < 2 ^ 64 → 0 ≤ Z.log2 s < 64.
Proof. intros Hs. split; [apply Z.log2_nonneg|apply Z.log2_lt_pow2; lia]. Qed.

(** The blocks of one trie. *)
Lemma trie_sizes i a : 0 ≤ i < 64 → a ∈ elems (tr i) → ∃ s, F !! a = Some s ∧ (a ∉ rs) ∧ 544 ≤ s < 2 ^ 64 ∧ Z.log2 s = i.
Proof using Hfl.
  intros Hi Ha. apply (fl_in_trie _ _ _ _ _ _ Hfl) in Ha as (s & Hs & ? & ? & ?); [|done].
  destruct (fl_blk _ _ _ _ _ _ Hfl a s Hs) as (_ & _ & ? & _). exists s. split_and!; done || lia.
Qed.

Definition large_block (a s : Z) : Prop := F !! a = Some s ∧ (a ∉ rs) ∧ 544 ≤ s.

Lemma search_higher_spec ts index : 0 < ts < 2 ^ 64 → Z.log2 ts ≤ index → Z.testbit (large_free_bitmap L) (Z.log2 ts) = false ∨ Z.log2 ts < index →
  Z.shiftr (large_free_bitmap L) index ≠ 0 →
  ∃ q s, search_higher S L index (Z.shiftr (large_free_bitmap L) index) = OK (Some q) ∧ large_block q s ∧ ts < s.
Proof using Hfl.
  intros Hts Hi Hlow Hne. pose proof (log2_range ts Hts) as Hr.
  destruct (shiftr_low_bit (large_free_bitmap L) index) as (Hj & Hbit & _); [apply (fl_large_ok _ _ _ _ _ _ Hfl)|lia|done|].
  unfold search_higher. set (j := index + zend_mm_low_bit (Z.shiftr (large_free_bitmap L) index)) in *.
  assert (0 ≤ j < 64) as Hj' by lia. pose proof (fl_trie _ _ _ _ _ _ Hfl j Hj') as Hrep.
  rewrite (fl_large _ _ _ _ _ _ Hfl) in Hbit by done. apply bool_decide_eq_true in Hbit.
  rewrite (trep_root _ _ _ Hrep). ob. pose proof (fl_tok _ _ _ _ _ _ Hfl j Hj') as Htok.
  assert (∀ x, x ∈ heads (tr j) → is_Some (F !! x)) as Hheads.
  { intros x Hx%heads_elems. destruct (trie_sizes j x Hj' Hx) as (s & ? & _). eauto. }
  destruct (search_smallest_spec S F L HFl tree_fuel (tr j) (Z.to_nat j) 1 (Bucket j) (troot (tr j)) (tr j)) as (q0 & -> & Hq0); try done.
  { unfold tree_fuel. lia. } { destruct (tr j); [done|by left]. }
  ob. destruct (head_next F L _ _ _ _ q0 Hrep Htok Hq0) as (q & s & -> & Hq & _ & HFq). ob.
  destruct (trie_sizes j q Hj' Hq) as (s' & HFq' & Hqr & Hs' & Hl). assert (s' = s) as -> by congruence. exists q, s. split; [done|]. split; [split_and!; [done|done|lia]|].
  apply Z.log2_lt_cancel. rewrite Hl. destruct Hlow as [Hlow|?]; [|lia].
  assert (j ≠ Z.log2 ts); [|lia]. intros E. rewrite <- E, (fl_large _ _ _ _ _ _ Hfl), bool_decide_eq_false in Hlow by done. done.
Qed.

Lemma no_large_above ts i : 0 < ts → i ≤ Z.log2 ts + 1 → 0 ≤ i → Z.shiftr (large_free_bitmap L) i = 0 →
  (∀ a s, a ∈ elems (tr (Z.log2 ts)) → F !! a = Some s → s < ts) ∨ i ≤ Z.log2 ts →
  ∀ a s, large_block a s → s < ts.
Proof using Hfl.
  intros Hts Hi H0 Hz Hown a s (Ha & Har & Hs). destruct (fl_blk _ _ _ _ _ _ Hfl a s Ha) as (_ & _ & Hr & _).
  pose proof (log2_range s ltac:(lia)) as Hj. assert (a ∈ elems (tr (Z.log2 s))) as Hin by (apply (fl_in_trie _ _ _ _ _ _ Hfl); eauto 10).
  destruct (Z.lt_ge_cases (Z.log2 s) (Z.log2 ts)); [by apply Z.log2_lt_cancel|].
  destruct (decide (Z.log2 s = Z.log2 ts ∧ i = Z.log2 ts + 1)) as [[E ->]|Hn].
  - destruct Hown as [Hown|?]; [|lia]. apply (Hown a); [by rewrite <- E|done].
  - exfalso. assert (Z.testbit (large_free_bitmap L) (Z.log2 s) = false) as Hb by (apply (shiftr_zero_bits _ i); [done|lia]).
    rewrite (fl_large _ _ _ _ _ _ Hfl), bool_decide_eq_false in Hb by done. apply Hb. intros E. rewrite E in Hin. by apply elem_of_nil in Hin.
Qed.

Lemma search_large_spec ts : 32 ≤ ts < 2 ^ 64 →
  ∃ r, zend_mm_search_large_block S ts L = OK r ∧
    match r with
    | Some q => ∃ s, large_block q s ∧ ts ≤ s ∧ ((∃ a, large_block a ts) → s = ts)
    | None => ∀ a s, large_block a s → s < ts
    end.
Proof using Hfl.
  intros Hts. unfold zend_mm_search_large_block, ZEND_MM_LARGE_BUCKET_INDEX. rewrite zend_mm_high_bit_log2 by lia.
  set (i := Z.log2 ts). pose proof (log2_range ts ltac:(lia)) as Hi. fold i in Hi.
  destruct (Z.eqb_spec (Z.shiftr (large_free_bitmap L) i) 0) as [Hz|Hnz].
  { exists None. split; [done|]. apply (no_large_above ts i); unfold i; first [done|lia|right; lia]. }
  rewrite land_shiftr_bit, negb_involutive by lia. pose proof (fl_large _ _ _ _ _ _ Hfl i Hi) as Hbit.
  destruct (Z.testbit (large_free_bitmap L) i) eqn:Hb.
  - symmetry in Hbit. apply bool_decide_eq_true in Hbit. pose proof (fl_trie _ _ _ _ _ _ Hfl i Hi) as Hrep.
    pose proof (fl_tok _ _ _ _ _ _ Hfl i Hi) as Htok. rewrite (trep_root _ _ _ Hrep). ob.
    replace (ulong_wrap (Z.shiftl ts (64 - i))) with (mask_m ts (Z.to_nat i)) by (unfold mask_m; by rewrite Z2Nat.id by lia).
    destruct (search_path_spec S F L HFl Hmaxl ts (tr i) ltac:(lia) tree_fuel (tr i) (Z.to_nat i) 1 (Bucket i) 0 ULONG_MAX 0)
      as [(q & -> & Hq & HFq)|(bf & bs & rst & -> & Hbf & Hrst & Hex & Hno)]; try done.
    { unfold tree_fuel. lia. } { lia. } { rewrite Z2Nat.id by lia. apply log2_prefix. lia. } { by left. } { by left. }
    + ob. exists (Some q). split; [done|]. destruct (trie_sizes i q Hi Hq) as (s & HFq' & ? & ? & _). assert (s = ts) as -> by congruence. exists ts. split; [split_and!; [done|done|lia]|done].
    + ob. assert (¬ ∃ a, large_block a ts) as Hnoex.
      { intros (a & Ha & Har & H544). apply (Hex a); [|done]. apply (fl_in_trie _ _ _ _ _ _ Hfl); eauto 10. }
      assert (∃ bf' bs', search_rst S tree_fuel L ts rst bf bs = OK (inr bf') ∧ best_ok F ts (tr i) bf' bs' ∧ (bf' = 0 → bf = 0 ∧ rst = 0))
        as (bf' & bs' & -> & Hbf' & Hz').
      { destruct Hrst as [->|(u & c & n & pfx & -> & Hu & Hrepu & Htoku & Hn & Hhu & Hbig)]; [by exists bf, bs|].
        destruct (search_rst_spec S F L HFl Hmaxl ts (tr i) tree_fuel u n pfx c bf bs) as (bf' & bs' & -> & H1 & H2); try done.
        { left. unfold tree_fuel. lia. }
        exists bf', bs'. split_and!; [done..|]. intros E. by destruct (H2 E). }
      ob. destruct (Z.eqb_spec bf' 0) as [E|E]; cbn [negb].
      * destruct (Hz' E) as [E1 E2]. destruct (Hno E1 E2) as (_ & _ & Hall).
        rewrite Z.shiftr_shiftr by lia. destruct (Z.eqb_spec (Z.shiftr (large_free_bitmap L) (i + 1)) 0) as [Hz1|Hnz1].
        -- exists None. split; [done|]. apply (no_large_above ts (i + 1)); try done; try (unfold i; lia). left. exact Hall.
        -- destruct (search_higher_spec ts (i + 1)) as (q & s & -> & Hq & Hlt); [lia|unfold i; lia|right; unfold i; lia|done|].
           exists (Some q). split; [done|]. exists s. split; [done|]. split; [lia|]. intros ?. by destruct Hnoex.
      * destruct Hbf' as [[? _]|(Hh & HFb & Hle)]; [done|].
        destruct (head_next F L _ _ _ _ bf' Hrep Htok Hh) as (q & s & -> & Hq & HFb' & HFq). ob.
        exists (Some q). split; [done|]. destruct (trie_sizes i q Hi Hq) as (s' & HFq' & ? & ? & _). assert (s' = s) as -> by congruence. assert (bs' = s) as -> by congruence.
        exists s. split; [split_and!; [done|done|lia]|]. split; [lia|]. intros ?. by destruct Hnoex.
  - destruct (search_higher_spec ts i) as (q & s & -> & Hq & Hlt); [lia|unfold i; lia|by left|done|].
    exists (Some q). split; [done|]. exists s. split; [done|]. split; [lia|]. intros (a & Ha & Har & H544). exfalso.
    symmetry in Hbit. apply bool_decide_eq_false in Hbit. apply Hbit. intros E.
    assert (a ∈ elems (tr i)) as Hin by (apply (fl_in_trie _ _ _ _ _ _ Hfl); eauto 10). rewrite E in Hin. by apply elem_of_nil in Hin.
Qed.
End large.

(** * The other searches *)

Section other.
Context (S : mm_store) (F : gmap Z Z) (sm : Z → list Z) (rs : list Z) (tr : Z → trie) (L : mm_lists).
Context (Hfl : flists S F sm rs tr L).

(** The scan of the rest blocks [r1], from the last to the first. *)
Lemma search_rest_spec fuel ts r1 r2 bf bs : rs = r1 ++ r2 → (length r1 ≤ fuel)%nat → best_ok F ts (Node bf [] Leaf Leaf) bf bs →
  ∃ q, search_rest S fuel L ts (default Rest (last (blks r1))) bf bs = OK q ∧
    (q = 0 ∧ bf = 0 ∧ (∀ x s, x ∈ r1 → F !! x = Some s → s < ts) ∨ ∃ s, F !! q = Some s ∧ ts ≤ s).
Proof using Hfl.
  intros Hrs. revert r2 fuel bf bs Hrs. induction r1 as [|x r1 IH] using rev_ind; intros r2 fuel bf bs Hrs Hf Hb.
  - exists bf. split; [by destruct fuel|]. destruct Hb as [[-> _]|(_ & HFb & Hle)]; [left; split_and!; [done..|]; intros x s Hx; by apply elem_of_nil in Hx|eauto].
  - rewrite fmap_app. change (blks [x]) with [Blk x]. rewrite last_snoc. change (default Rest (Some (Blk x))) with (Blk x). rewrite length_app in Hf. simpl in Hf. destruct fuel as [|fuel]; [lia|].
    cbn [search_rest]. rewrite decide_False by done. cbn [as_block]. ob.
    destruct (fl_in_rest _ _ _ _ _ _ Hfl x) as (s & Hs & _); [rewrite Hrs, !elem_of_app; left; right; by left|].
    unfold ZEND_MM_FREE_BLOCK_SIZE. destruct (fl_HF S _ _ _ _ _ Hfl x s Hs) as [-> Hx0]. ob.
    destruct (Z.eqb_spec s ts) as [->|Hne]; [exists x; split; [done|right; eauto with lia]|].
    assert (∃ bf1 bs1, (if (ts <? s) && (s <? bs) then (x, s) else (bf, bs)) = (bf1, bs1) ∧ best_ok F ts (Node bf1 [] Leaf Leaf) bf1 bs1 ∧
      (bf1 = 0 → bf = 0 ∧ s < ts)) as (bf1 & bs1 & -> & Hb1 & Hb1').
    { destruct (Z.ltb_spec ts s); simpl; [|exists bf, bs; split_and!; [done..|]; intros ->; split; [done|lia]].
      destruct (Z.ltb_spec s bs); [exists x, s; split_and!; [done| |done]; right; split_and!; [by left|done|lia]|].
      exists bf, bs. split_and!; [done..|]. intros ->. destruct Hb as [[_ ->]|(_ & HFb & _)].
      - pose proof (Hmaxl S F sm rs tr L Hfl x s Hs). lia.
      - by apply (fl_HF S _ _ _ _ _ Hfl) in HFb as [_ ?]. }
    pose proof (fl_rest _ _ _ _ _ _ Hfl) as Hcyc. rewrite Hrs, <- app_assoc, fmap_app in Hcyc.
    apply (cyc_rot _ _ (Rest :: blks r1) (Blk x :: blks r2)) in Hcyc. simpl in Hcyc.
    pose proof (cyc_links _ _ (Blk x) (blks r2 ++ Rest :: blks r1) Hcyc) as [_ Hpv]. rewrite Hpv. ob.
    replace (default (Blk x) (last (blks r2 ++ Rest :: blks r1))) with (default Rest (last (blks r1))).
    2:{ destruct r1 as [|y r1 _] using rev_ind; [change (blks []) with (@nil fptr); by rewrite last_snoc|]. rewrite fmap_app. change (blks [y]) with [Blk y].
        rewrite app_comm_cons, app_assoc, !last_snoc. done. }
    destruct (IH (x :: r2) fuel bf1 bs1) as (q & -> & Hq); [by rewrite Hrs, <- app_assoc|lia|done|].
    exists q. split; [done|]. destruct Hq as [(-> & E & Hall)|?]; [|by right]. left. destruct (Hb1' E) as [E1 E2]. split_and!; try done.
    intros y s' [Hy|Hy]%elem_of_app HFy; [eauto|]. apply list_elem_of_singleton in Hy as ->. congruence.
Qed.

Lemma search_rest_all ts : ∃ p q, prev_free_block L !! Rest = Some p ∧
  search_rest S (Datatypes.S (size (prev_free_block L))) L ts p 0 ULONG_MAX = OK q ∧
  (q = 0 ∧ (∀ x s, x ∈ rs → F !! x = Some s → s < ts) ∨ ∃ s, F !! q = Some s ∧ ts ≤ s).
Proof using Hfl.
  pose proof (fl_rest _ _ _ _ _ _ Hfl) as Hcyc. pose proof (cyc_links _ _ Rest (blks rs) Hcyc) as [_ Hpv]. rewrite Hpv.
  destruct (search_rest_spec (Datatypes.S (size (prev_free_block L))) ts rs [] 0 ULONG_MAX) as (q & Hq & Hr); [by rewrite app_nil_r| |by left|].
  { pose proof (cyc_nodup _ _ _ Hcyc) as Hnd. rewrite <- (length_fmap Blk rs). apply NoDup_cons in Hnd as [_ Hnd].
    rewrite <- (size_list_to_set (C := gset fptr) _ Hnd), <- size_dom. apply le_S. apply subseteq_size. intros k Hk%elem_of_list_to_set.
    apply elem_of_dom. pose proof Hk as [l1 [l2 Hl]]%list_elem_of_split. rewrite Hl in Hcyc.
    apply (cyc_rot _ _ (Rest :: l1) (k :: l2)), cyc_links in Hcyc as [_ ->]. eauto. }
  eexists _, q. split; [done|]. split; [exact Hq|]. naive_solver.
Qed.

(** The small buckets from [index] on. *)
Lemma find_small_spec ts : 32 ≤ ts < 544 → (8 | ts) → let index := ZEND_MM_BUCKET_INDEX ts in
  Z.shiftr (free_bitmap L) index ≠ 0 →
  ∃ b s, prev_free_block L !! Small (index + zend_mm_low_bit (Z.shiftr (free_bitmap L) index)) = Some (Blk b) ∧ F !! b = Some s ∧ ts ≤ s.
Proof using Hfl.
  intros Hts H8 index Hnz. pose proof (bucket_index_range ts Hts) as Hi. fold index in Hi.
  destruct (shiftr_low_bit (free_bitmap L) index) as (Hj & Hbit & _); [apply (fl_bitmap_ok _ _ _ _ _ _ Hfl)|lia|done|].
  set (j := index + zend_mm_low_bit (Z.shiftr (free_bitmap L) index)) in *.
  destruct (fl_bitmap _ _ _ _ _ _ Hfl j Hbit) as [Hj' Hne].
  pose proof (cyc_links _ _ (Small j) (blks (sm j)) (fl_small _ _ _ _ _ _ Hfl j Hj')) as [_ Hpv]. rewrite Hpv.
  destruct (sm j) as [|b l _] eqn:Hsm using rev_ind; [done|]. rewrite fmap_app. change (blks [b]) with [Blk b]. rewrite last_snoc.
  assert (b ∈ sm j) as Hb by (rewrite Hsm; apply elem_of_app; right; by left).
  apply (fl_in_small _ _ _ _ _ _ Hfl) in Hb as (s & Hs & _ & Hlt & Hbi); [|done].
  destruct (fl_blk _ _ _ _ _ _ Hfl b s Hs) as (_ & _ & Hr & H8s). exists b, s. split_and!; [done..|].
  pose proof (bucket_index_size s j ltac:(lia) H8s Hbi). pose proof (bucket_index_size ts index Hts H8 eq_refl). lia.
Qed.
End other.
