(* ===== verification/MmGeo.v ===== *)
(** How blocks tile the segments: the geometry of blocks, and the boundary
    tags that record it in memory. *)

From S2P Require Import Prelude ZendMmTypes MmBits.

(** * How blocks tile the segments *)

(** The blocks of a heap: address, size, and whether the block is used. *)
Abbreviation blocks := (gmap Z (Z * bool)).

Definition guard_at (R : gmap Z Z) (g : Z) : Prop := ∃ r n, R !! r = Some n ∧ g = r + n - 16.
Definition first_at (R : gmap Z Z) (a : Z) : Prop := ∃ r n, R !! r = Some n ∧ a = r + 16.

(** The regions the storage layer has handed out. *)
Record regions_wf (R : gmap Z Z) : Prop := {
  rw_pos : ∀ r n, R !! r = Some n → 0 < r ∧ (8 | r) ∧ 32 ≤ n ∧ (8 | n) ∧ r + n ≤ 2 ^ 64;
  rw_disj : ∀ r n r' n', R !! r = Some n → R !! r' = Some n' → r ≠ r' → r + n ≤ r' ∨ r' + n' ≤ r;
}.

(** Between the header and the guard of each segment lie blocks, without gaps
    and without overlap. *)
Record geo (R : gmap Z Z) (B : blocks) : Prop := {
  g_reg : regions_wf R;
  g_al : ∀ a s u, B !! a = Some (s, u) → (8 | a) ∧ 32 ≤ s ∧ (8 | s);
  g_next : ∀ a s u, B !! a = Some (s, u) → is_Some (B !! (a + s)) ∨ guard_at R (a + s);
  g_first : ∀ a, is_Some (B !! a) → first_at R a ∨ ∃ p s u, B !! p = Some (s, u) ∧ p + s = a;
  g_in : ∀ a s u, B !! a = Some (s, u) → ∃ r n, R !! r = Some n ∧ r + 16 ≤ a ∧ a + s ≤ r + n - 16;
  g_disj : ∀ a s u b t v, B !! a = Some (s, u) → B !! b = Some (t, v) → a ≠ b → a + s ≤ b ∨ b + t ≤ a;
  g_start : ∀ r n, R !! r = Some n → is_Some (B !! (r + 16));
}.

(** No two free blocks are neighbours. *)
Definition coalesced (B : blocks) : Prop :=
  ∀ a s t u, B !! a = Some (s, false) → B !! (a + s) = Some (t, u) → u = true.

(** The tags of the blocks [B], and those of the ends of the segments. *)
Record tagged (S : mm_store) (B : blocks) : Prop := {
  t_size : ∀ a s u, B !! a = Some (s, u) → info_size S !! a = Some (tag s u);
  t_prev : ∀ a s u, B !! a = Some (s, u) → info_prev S !! (a + s) = Some (tag s u);
  t_first : ∀ r n, regions S !! r = Some n → info_prev S !! (r + 16) = Some 3;
  t_guard : ∀ r n, regions S !! r = Some n → info_size S !! (r + n - 16) = Some 19;
}.

Section geo.
Context {R : gmap Z Z} {B : blocks} (HG : geo R B).

Lemma geo_pos a s u : B !! a = Some (s, u) → 0 < a ∧ a + s + 16 ≤ 2 ^ 64 ∧ 32 ≤ s < 2 ^ 64 ∧ (8 | a) ∧ (8 | s).
Proof using HG.
  intros Ha. destruct (g_in _ _ HG _ _ _ Ha) as (r & n & Hr & H1 & H2).
  destruct (rw_pos _ (g_reg _ _ HG) _ _ Hr) as (? & ? & ? & ? & ?). destruct (g_al _ _ HG _ _ _ Ha) as (? & ? & ?).
  split_and!; done || lia.
Qed.

(** A point of a segment's inside lies in no other segment. *)
Lemma region_of x r n r' n' : R !! r = Some n → R !! r' = Some n' → r ≤ x < r + n → r' ≤ x < r' + n' → r = r'.
Proof using HG.
  intros H1 H2 Hx Hx'. destruct (decide (r = r')); [done|]. destruct (rw_disj _ (g_reg _ _ HG) _ _ _ _ H1 H2); done || lia.
Qed.

Lemma end_not_first a s u r n : B !! a = Some (s, u) → R !! r = Some n → a + s ≠ r + 16.
Proof using HG.
  intros Ha Hr E. destruct (g_in _ _ HG _ _ _ Ha) as (r' & n' & Hr' & H1 & H2). destruct (geo_pos _ _ _ Ha) as (_ & _ & ? & _).
  destruct (rw_pos _ (g_reg _ _ HG) _ _ Hr) as (_ & _ & ? & _).
  assert (r = r') as -> by (eapply (region_of (a + s - 16)); eauto; lia). lia.
Qed.
Lemma block_not_guard a s u r n : B !! a = Some (s, u) → R !! r = Some n → r + n - 16 ≠ a.
Proof using HG.
  intros Ha Hr E. destruct (g_in _ _ HG _ _ _ Ha) as (r' & n' & Hr' & H1 & H2). destruct (geo_pos _ _ _ Ha) as (_ & _ & ? & _).
  destruct (rw_pos _ (g_reg _ _ HG) _ _ Hr) as (_ & _ & ? & _).
  assert (r = r') as -> by (eapply (region_of a); eauto; lia). simplify_eq. lia.
Qed.
(** No block starts inside another. *)
Lemma no_block_inside a s u x : B !! a = Some (s, u) → a < x < a + s → B !! x = None.
Proof using HG.
  intros Ha Hx. destruct (B !! x) as [[t v]|] eqn:E; [|done]. destruct (geo_pos _ _ _ E) as (_ & _ & ? & _).
  destruct (g_disj _ _ HG _ _ _ _ _ _ Ha E); lia.
Qed.
Lemma geo_same_end a s u b t v : B !! a = Some (s, u) → B !! b = Some (t, v) → a + s = b + t → a = b.
Proof using HG.
  intros Ha Hb E. destruct (decide (a = b)); [done|]. destruct (geo_pos _ _ _ Ha) as (_ & _ & ? & _), (geo_pos _ _ _ Hb) as (_ & _ & ? & _).
  destruct (g_disj _ _ HG _ _ _ _ _ _ Ha Hb); done || lia.
Qed.

(** Only the state of a block changes. *)
Lemma geo_retag b s u v : B !! b = Some (s, u) → geo R (<[b := (s, v)]> B).
Proof using HG.
  intros Hb. assert (∀ x t w, <[b := (s, v)]> B !! x = Some (t, w) → ∃ w', B !! x = Some (t, w')) as Hback.
  { intros x t w. destruct (decide (b = x)) as [<-|]; [rewrite lookup_insert_eq; intros [= <- <-]; eauto|rewrite lookup_insert_ne by done; eauto]. }
  assert (∀ x, is_Some (B !! x) → is_Some (<[b := (s, v)]> B !! x)) as Hfwd.
  { intros x Hx. apply lookup_insert_is_Some. destruct (decide (b = x)); auto. }
  split; [apply HG|..].
  - intros a t w (w' & Ha)%Hback. by apply (g_al _ _ HG _ _ _ Ha).
  - intros a t w (w' & Ha)%Hback. destruct (g_next _ _ HG _ _ _ Ha); [left; auto|by right].
  - intros a [[t w] (w' & Ha)%Hback]. destruct (g_first _ _ HG a) as [?|(p & ps & pu & Hp & <-)]; [eauto|by left|right].
    destruct (decide (b = p)) as [<-|]; [exists b, s, v; rewrite lookup_insert_eq; by simplify_eq|].
    exists p, ps, pu. by rewrite lookup_insert_ne.
  - intros a t w (w' & Ha)%Hback. by apply (g_in _ _ HG _ _ _ Ha).
  - intros a t w c t' w2 (w' & Ha)%Hback (w'' & Hc)%Hback. by apply (g_disj _ _ HG _ _ _ _ _ _ Ha Hc).
  - intros r n Hr. apply Hfwd, (g_start _ _ HG _ _ Hr).
Qed.

(** A block and the one behind it become one. *)
Lemma geo_merge a s1 u1 s2 u2 v : B !! a = Some (s1, u1) → B !! (a + s1) = Some (s2, u2) →
  geo R (<[a := (s1 + s2, v)]> (delete (a + s1) B)).
Proof using HG.
  intros Ha Hb. destruct (geo_pos _ _ _ Ha) as (_ & _ & ? & _), (geo_pos _ _ _ Hb) as (_ & _ & ? & _).
  assert (∀ x t w, <[a := (s1 + s2, v)]> (delete (a + s1) B) !! x = Some (t, w) →
    (x = a ∧ t = s1 + s2 ∧ w = v) ∨ (x ≠ a ∧ x ≠ a + s1 ∧ B !! x = Some (t, w))) as Hback.
  { intros x t w. destruct (decide (a = x)) as [<-|]; [rewrite lookup_insert_eq; intros [= <- <-]; by left|rewrite lookup_insert_ne by done].
    destruct (decide (a + s1 = x)) as [<-|]; [by rewrite lookup_delete_eq|rewrite lookup_delete_ne by done]. by right. }
  assert (∀ x, x ≠ a + s1 → is_Some (B !! x) → is_Some (<[a := (s1 + s2, v)]> (delete (a + s1) B) !! x)) as Hfwd.
  { intros x Hne Hx. apply lookup_insert_is_Some. destruct (decide (a = x)); [by left|right]. by rewrite lookup_delete_ne. }
  split; [apply HG|..].
  - intros x t w [(-> & -> & ->)|(_ & _ & Hx)]%Hback; [|by apply (g_al _ _ HG _ _ _ Hx)].
    destruct (g_al _ _ HG _ _ _ Ha) as (? & ? & ?), (g_al _ _ HG _ _ _ Hb) as (? & ? & ?). split_and!; [done|lia|by apply Z.divide_add_r].
  - intros x t w [(-> & -> & ->)|(Hxa & Hxb & Hx)]%Hback.
    + rewrite Z.add_assoc. destruct (g_next _ _ HG _ _ _ Hb); [left; apply Hfwd; [lia|done]|by right].
    + destruct (g_next _ _ HG _ _ _ Hx); [left; apply Hfwd; [|done]|by right]. intros E. apply Hxa. by eapply geo_same_end.
  - intros x [[t w] [(-> & -> & ->)|(Hxa & Hxb & Hx)]%Hback].
    + destruct (g_first _ _ HG a) as [?|(p & ps & pu & Hp & E)]; [eauto|by left|right]. exists p, ps, pu. split; [|done].
      destruct (geo_pos _ _ _ Hp) as (_ & _ & ? & _). rewrite lookup_insert_ne, lookup_delete_ne by lia. done.
    + destruct (g_first _ _ HG x) as [?|(p & ps & pu & Hp & E)]; [eauto|by left|right].
      destruct (decide (p = a + s1)) as [->|]; [exists a, (s1 + s2), v; rewrite lookup_insert_eq; simplify_eq; split; [done|lia]|].
      destruct (decide (p = a)) as [->|]; [exfalso; simplify_eq; done|].
      exists p, ps, pu. by rewrite lookup_insert_ne, lookup_delete_ne by done.
  - intros x t w [(-> & -> & ->)|(_ & _ & Hx)]%Hback; [|by apply (g_in _ _ HG _ _ _ Hx)].
    destruct (g_in _ _ HG _ _ _ Ha) as (r & n & Hr & H1 & H2), (g_in _ _ HG _ _ _ Hb) as (r' & n' & Hr' & H3 & H4).
    pose proof (rw_pos _ (g_reg _ _ HG) _ _ Hr). assert (r = r') as -> by (eapply (region_of (a + s1)); eauto; lia). simplify_eq. exists r', n. split_and!; [done|lia..].
  - intros x t w y t' w' [(-> & -> & ->)|(Hxa & Hxb & Hx)]%Hback [(-> & -> & ->)|(Hya & Hyb & Hy)]%Hback Hne; [done|..].
    + destruct (geo_pos _ _ _ Hy) as (_ & _ & ? & _). destruct (g_disj _ _ HG _ _ _ _ _ _ Ha Hy), (g_disj _ _ HG _ _ _ _ _ _ Hb Hy); done || lia.
    + destruct (geo_pos _ _ _ Hx) as (_ & _ & ? & _). destruct (g_disj _ _ HG _ _ _ _ _ _ Hx Ha), (g_disj _ _ HG _ _ _ _ _ _ Hx Hb); done || lia.
    + by apply (g_disj _ _ HG _ _ _ _ _ _ Hx Hy).
  - intros r n Hr. apply Hfwd, (g_start _ _ HG _ _ Hr). intros E. symmetry in E. by eapply end_not_first in E.
Qed.

(** A block is cut in two. *)
Lemma geo_split b s u t v w : B !! b = Some (s, u) → 32 ≤ t → 32 ≤ s - t → (8 | t) →
  geo R (<[b + t := (s - t, w)]> (<[b := (t, v)]> B)).
Proof using HG.
  intros Hb Ht Hst H8. destruct (geo_pos _ _ _ Hb) as (_ & _ & ? & H8b & H8s).
  assert (∀ x c d, <[b + t := (s - t, w)]> (<[b := (t, v)]> B) !! x = Some (c, d) →
    (x = b + t ∧ c = s - t ∧ d = w) ∨ (x = b ∧ c = t ∧ d = v) ∨ (x ≠ b ∧ x ≠ b + t ∧ B !! x = Some (c, d))) as Hback.
  { intros x c d. destruct (decide (b + t = x)) as [<-|]; [rewrite lookup_insert_eq; intros [= <- <-]; by left|rewrite lookup_insert_ne by done].
    destruct (decide (b = x)) as [<-|]; [rewrite lookup_insert_eq; intros [= <- <-]; auto|rewrite lookup_insert_ne by done]. auto 6. }
  assert (∀ x, is_Some (B !! x) → is_Some (<[b + t := (s - t, w)]> (<[b := (t, v)]> B) !! x)) as Hfwd.
  { intros x Hx. rewrite !lookup_insert_is_Some. destruct (decide (b + t = x)), (decide (b = x)); auto. }
  split; [apply HG|..].
  - intros x c d [(-> & -> & ->)|[(-> & -> & ->)|(_ & _ & Hx)]]%Hback; [|done|by apply (g_al _ _ HG _ _ _ Hx)].
    split_and!; [by apply Z.divide_add_r|lia|by apply Z.divide_sub_r].
  - intros x c d [(-> & -> & ->)|[(-> & -> & ->)|(_ & _ & Hx)]]%Hback.
    + replace (b + t + (s - t)) with (b + s) by lia. destruct (g_next _ _ HG _ _ _ Hb); [left; auto|by right].
    + left. rewrite lookup_insert_eq. eauto.
    + destruct (g_next _ _ HG _ _ _ Hx); [left; auto|by right].
  - intros x [[c d] [(-> & -> & ->)|[(-> & -> & ->)|(Hxb & Hxt & Hx)]]%Hback].
    + right. exists b, t, v. rewrite lookup_insert_ne, lookup_insert_eq by lia. done.
    + destruct (g_first _ _ HG b) as [?|(p & ps & pu & Hp & E)]; [eauto|by left|right]. exists p, ps, pu. split; [|done].
      destruct (geo_pos _ _ _ Hp) as (_ & _ & ? & _). by rewrite !lookup_insert_ne by lia.
    + destruct (g_first _ _ HG x) as [?|(p & ps & pu & Hp & E)]; [eauto|by left|right].
      destruct (decide (p = b)) as [->|]; [exists (b + t), (s - t), w; rewrite lookup_insert_eq; simplify_eq; split; [done|lia]|].
      exists p, ps, pu. split; [|done]. rewrite !lookup_insert_ne; [done|done|]. intros <-. rewrite (no_block_inside _ _ _ _ Hb) in Hp by lia. done.
  - destruct (g_in _ _ HG _ _ _ Hb) as (r & n & Hr & H1 & H2).
    intros x c d [(-> & -> & ->)|[(-> & -> & ->)|(_ & _ & Hx)]]%Hback; [exists r, n; split_and!; [done|lia..]..|by apply (g_in _ _ HG _ _ _ Hx)].
  - intros x c d y c' d' [(-> & -> & ->)|[(-> & -> & ->)|(Hxb & Hxt & Hx)]]%Hback [(-> & -> & ->)|[(-> & -> & ->)|(Hyb & Hyt & Hy)]]%Hback Hne; try lia.
    + destruct (g_disj _ _ HG _ _ _ _ _ _ Hb Hy); done || lia.
    + destruct (g_disj _ _ HG _ _ _ _ _ _ Hb Hy); done || lia.
    + destruct (g_disj _ _ HG _ _ _ _ _ _ Hb Hx); done || lia.
    + destruct (g_disj _ _ HG _ _ _ _ _ _ Hb Hx); done || lia.
    + by apply (g_disj _ _ HG _ _ _ _ _ _ Hx Hy).
  - intros r n Hr. apply Hfwd, (g_start _ _ HG _ _ Hr).
Qed.

(** A new segment, with one block. *)
Lemma geo_new p n v : region_ok R p n → 64 ≤ n → (8 | n) → geo (<[p := n]> R) (<[p + 16 := (n - 32, v)]> B).
Proof using HG.
  intros (Hp & Hp8 & Hend & Hdis) Hn Hn8.
  assert (∀ r m, R !! r = Some m → p + n ≤ r ∨ r + m ≤ p) as Hd by (intros r m Hr; by apply Hdis in Hr).
  assert (R !! p = None) as HRp. { destruct (R !! p) as [m|] eqn:E; [|done]. destruct (rw_pos _ (g_reg _ _ HG) _ _ E) as (_ & _ & ? & _). destruct (Hd _ _ E); lia. }
  assert (∀ x c d, B !! x = Some (c, d) → p + n ≤ x ∨ x + c + 16 ≤ p) as HB.
  { intros x c d Hx. destruct (g_in _ _ HG _ _ _ Hx) as (r & m & Hr & H1 & H2). destruct (Hd _ _ Hr); [left|right]; lia. }
  assert (B !! (p + 16) = None) as HBp.
  { destruct (B !! (p + 16)) as [[c d]|] eqn:E; [|done]. destruct (geo_pos _ _ _ E) as (_ & _ & ? & _). destruct (HB _ _ _ E); lia. }
  assert (∀ x c d, <[p + 16 := (n - 32, v)]> B !! x = Some (c, d) → (x = p + 16 ∧ c = n - 32 ∧ d = v) ∨ (x ≠ p + 16 ∧ B !! x = Some (c, d))) as Hback.
  { intros x c d. destruct (decide (p + 16 = x)) as [<-|]; [rewrite lookup_insert_eq; intros [= <- <-]; by left|rewrite lookup_insert_ne by done]. auto. }
  assert (∀ x, is_Some (B !! x) → is_Some (<[p + 16 := (n - 32, v)]> B !! x)) as Hfwd.
  { intros x Hx. rewrite !lookup_insert_is_Some. destruct (decide (p + 16 = x)); auto. }
  assert (∀ r m, R !! r = Some m → <[p := n]> R !! r = Some m) as HR.
  { intros r m Hr. rewrite lookup_insert_ne; [done|]. intros <-. congruence. }
  split.
  - split.
    + intros r m. rewrite lookup_insert_Some. intros [[<- <-]|[_ Hr]]; [split_and!; done || lia|by apply (g_reg _ _ HG)].
    + intros r m r' m'. rewrite !lookup_insert_Some. intros [[<- <-]|[_ Hr]] [[<- <-]|[_ Hr']] Hne; [done|by apply Hd| |by eapply (g_reg _ _ HG)].
      destruct (Hd _ _ Hr); [by right|by left].
  - intros x c d [(-> & -> & ->)|(_ & Hx)]%Hback; [|by apply (g_al _ _ HG _ _ _ Hx)].
    split_and!; [apply Z.divide_add_r; [done|by exists 2]|lia|apply Z.divide_sub_r; [done|by exists 4]].
  - intros x c d [(-> & -> & ->)|(_ & Hx)]%Hback.
    + right. exists p, n. rewrite lookup_insert_eq. split; [done|lia].
    + destruct (g_next _ _ HG _ _ _ Hx) as [?|(r & m & Hr & E)]; [left; auto|right; exists r, m; auto].
  - intros x [[c d] [(-> & -> & ->)|(_ & Hx)]%Hback].
    + left. exists p, n. by rewrite lookup_insert_eq.
    + destruct (g_first _ _ HG x) as [(r & m & Hr & E)|(q & qs & qu & Hq & E)]; [eauto|left; exists r, m; auto|right].
      exists q, qs, qu. split; [|done]. rewrite lookup_insert_ne; [done|]. intros <-. congruence.
  - intros x c d [(-> & -> & ->)|(_ & Hx)]%Hback.
    + exists p, n. rewrite lookup_insert_eq. split_and!; [done|lia..].
    + destruct (g_in _ _ HG _ _ _ Hx) as (r & m & Hr & H1 & H2). exists r, m. auto.
  - intros x c d y c' d' [(-> & -> & ->)|(_ & Hx)]%Hback [(-> & -> & ->)|(_ & Hy)]%Hback Hne; [done|..].
    + destruct (HB _ _ _ Hy); lia.
    + destruct (HB _ _ _ Hx); lia.
    + by apply (g_disj _ _ HG _ _ _ _ _ _ Hx Hy).
  - intros r m. rewrite lookup_insert_Some. intros [[<- <-]|[_ Hr]]; [rewrite lookup_insert_eq; eauto|]. apply Hfwd, (g_start _ _ HG _ _ Hr).
Qed.

(** A segment with a single block goes. *)
Lemma geo_del r n s u : R !! r = Some n → B !! (r + 16) = Some (s, u) → s = n - 32 → geo (delete r R) (delete (r + 16) B).
Proof using HG.
  intros Hr Hb ->. assert (∀ x, x ≠ r + 16 → is_Some (B !! x) → is_Some (delete (r + 16) B !! x)) as Hfwd by (intros x ? ?; by rewrite lookup_delete_ne).
  pose proof (rw_pos _ (g_reg _ _ HG) _ _ Hr) as Hrp.
  assert (∀ x c d, x ≠ r + 16 → B !! x = Some (c, d) → ∃ r' n', R !! r' = Some n' ∧ r' ≠ r ∧ r' + 16 ≤ x ∧ x + c ≤ r' + n' - 16) as Hout.
  { intros x c d Hne Hx. destruct (g_in _ _ HG _ _ _ Hx) as (r' & n' & Hr' & H1 & H2). exists r', n'. split_and!; try done. intros ->. simplify_eq.
    destruct (geo_pos _ _ _ Hx) as (_ & _ & ? & _). destruct (g_disj _ _ HG _ _ _ _ _ _ Hb Hx); done || lia. }
  split.
  - split.
    + intros r' m. rewrite lookup_delete_Some. intros [_ Hr']. by apply (g_reg _ _ HG).
    + intros r' m r'' m'. rewrite !lookup_delete_Some. intros [_ H1] [_ H2]. by apply (g_reg _ _ HG).
  - intros x c d. rewrite lookup_delete_Some. intros [_ Hx]. by apply (g_al _ _ HG _ _ _ Hx).
  - intros x c d. rewrite lookup_delete_Some. intros [Hne Hx]. destruct (Hout x c d) as (r' & n' & Hr' & Hrr & H1 & H2); [done..|].
    pose proof (rw_pos _ (g_reg _ _ HG) _ _ Hr') as Hrp'. destruct (geo_pos _ _ _ Hx) as (_ & _ & ? & _).
    destruct (g_next _ _ HG _ _ _ Hx) as [?|(r2 & m & Hr2 & E)].
    + left. apply Hfwd; [|done]. intros E. by eapply end_not_first in E.
    + right. exists r2, m. split; [|done]. rewrite lookup_delete_ne; [done|]. intros <-. simplify_eq. apply Hrr.
      symmetry. eapply (region_of (x + c)); eauto; lia.
  - intros x. rewrite lookup_delete_is_Some. intros [Hne Hx]. destruct (g_first _ _ HG x Hx) as [(r' & m & Hr' & E)|(q & qs & qu & Hq & E)].
    + left. exists r', m. split; [|done]. rewrite lookup_delete_ne; [done|]. intros <-. simplify_eq.
    + right. exists q, qs, qu. split; [|done]. rewrite lookup_delete_ne; [done|]. intros <-. simplify_eq.
      destruct Hx as [[c d] Hx]. destruct (Hout (r + 16 + (n - 32)) c d) as (r' & n' & Hr' & Hrr & H1 & H2); [lia|done|].
      destruct (geo_pos _ _ _ Hx) as (_ & _ & ? & _). apply Hrr. symmetry. eapply (region_of (r + 16 + (n - 32))); eauto; lia.
  - intros x c d. rewrite lookup_delete_Some. intros [Hne Hx]. destruct (Hout x c d) as (r' & n' & Hr' & Hrr & H1 & H2); [done..|].
    exists r', n'. by rewrite lookup_delete_ne.
  - intros x c d y c' d'. rewrite !lookup_delete_Some. intros [_ Hx] [_ Hy]. by apply (g_disj _ _ HG _ _ _ _ _ _ Hx Hy).
  - intros r' m. rewrite lookup_delete_Some. intros [Hne Hr']. apply Hfwd; [|by apply (g_start _ _ HG _ _ Hr')]. lia.
Qed.
End geo.

(** * Reading and writing the boundary tags *)

(** What ZEND_MM_BLOCK leaves in memory. *)
Definition write_tag (b sz : Z) (u : bool) (S : mm_store) : mm_store :=
  put_info_prev (b + sz) (tag sz u) (put_size b (tag sz u) S).

(** Everything in the store but block headers. *)
Definition same_rest (S S' : mm_store) : Prop :=
  regions S' = regions S ∧ seg_size S' = seg_size S ∧ seg_next S' = seg_next S ∧ data S' = data S.
#[export] Instance same_rest_refl : Reflexive same_rest.
Proof. done. Qed.
#[export] Instance same_rest_trans : Transitive same_rest.
Proof. intros S1 S2 S3 (? & ? & ? & ?) (? & ? & ? & ?). split_and!; congruence. Qed.
Lemma write_tag_rest b sz u S : same_rest S (write_tag b sz u S).
Proof. done. Qed.

Lemma tagged_sub S B B0 : B0 ⊆ B → tagged S B → tagged S B0.
Proof.
  intros Hsub [H1 H2 H3 H4]. split; try done; intros a s u Ha; [apply H1|apply H2]; by eapply lookup_weaken.
Qed.

Lemma tagged_rest S S' B : info_size S' = info_size S → info_prev S' = info_prev S → regions S' = regions S → tagged S B → tagged S' B.
Proof. intros E1 E2 E3 [H1 H2 H3 H4]. split; rewrite ?E1, ?E2, ?E3; done. Qed.

Section tags.
Context {S : mm_store} {B : blocks} (HG : geo (regions S) B).

Lemma mapped_block b s u : B !! b = Some (s, u) → mapped S b ∧ mapped S (b + s).
Proof using HG.
  intros Hb. destruct (g_in _ _ HG _ _ _ Hb) as (r & n & Hr & H1 & H2). destruct (geo_pos HG _ _ _ Hb) as (_ & _ & ? & _).
  split; exists r, n; (split; [done|]); simpl; lia.
Qed.
Lemma mapped_within b s u t : B !! b = Some (s, u) → 0 ≤ t ≤ s → mapped S (b + t).
Proof using HG.
  intros Hb Ht. destruct (g_in _ _ HG _ _ _ Hb) as (r & n & Hr & H1 & H2). exists r, n. split; [done|]. simpl. lia.
Qed.

(** ** Writing *)

Lemma block_write b sz (u : bool) : mapped S b → mapped S (b + sz) → (8 | sz) →
  ZEND_MM_BLOCK b (if u then ZEND_MM_USED_BLOCK else ZEND_MM_FREE_BLOCK) sz S = OK (write_tag b sz u S).
Proof using Type.
  intros H1 H2 H8. unfold ZEND_MM_BLOCK, store_size. rewrite decide_True by done. ob. unfold store_info_prev.
  rewrite decide_True by done. unfold write_tag. destruct u; [by rewrite lor_used|by rewrite lor_free].
Qed.

Lemma tagged_write_gen B' b sz u : tagged S B → B' !! b = Some (sz, u) → (∀ x v, x ≠ b → B' !! x = Some v → B !! x = Some v) →
  (∀ x c d, x ≠ b → B' !! x = Some (c, d) → x + c ≠ b + sz) → (∀ r n, regions S !! r = Some n → b + sz ≠ r + 16) →
  (∀ r n, regions S !! r = Some n → r + n - 16 ≠ b) → tagged (write_tag b sz u S) B'.
Proof using Type.
  intros [H1 H2 H3 H4] Hb Hsub Hend Hf Hg. split; simpl.
  - intros x c d Hx. destruct (decide (b = x)) as [<-|Hne]; [rewrite lookup_insert_eq; by simplify_eq|].
    rewrite lookup_insert_ne by done. apply (H1 _ _ _ (Hsub x _ ltac:(congruence) Hx)).
  - intros x c d Hx. destruct (decide (b = x)) as [<-|Hne]; [simplify_eq; by rewrite lookup_insert_eq|].
    rewrite lookup_insert_ne by (intros E; by apply (Hend x c d)). apply (H2 _ _ _ (Hsub x _ ltac:(congruence) Hx)).
  - intros r n Hr. rewrite lookup_insert_ne by (intros E; by eapply Hf). by eapply H3.
  - intros r n Hr. rewrite lookup_insert_ne by (intros E; by eapply Hg). by eapply H4.
Qed.

Lemma tagged_write B0 b sz u : tagged S B0 → B !! b = Some (sz, u) → (∀ x v, x ≠ b → B !! x = Some v → B0 !! x = Some v) →
  tagged (write_tag b sz u S) B.
Proof using HG.
  intros HT Hb Hsub. destruct HT as [H1 H2 H3 H4]. split; simpl.
  - intros x c d Hx. destruct (decide (b = x)) as [<-|Hne]; [rewrite lookup_insert_eq; by simplify_eq|].
    rewrite lookup_insert_ne by done. apply (H1 _ _ _ (Hsub x _ ltac:(congruence) Hx)).
  - intros x c d Hx. destruct (decide (b = x)) as [<-|Hne]; [simplify_eq; by rewrite lookup_insert_eq|].
    rewrite lookup_insert_ne by (intros E; apply Hne; by eapply geo_same_end). apply (H2 _ _ _ (Hsub x _ ltac:(congruence) Hx)).
  - intros r n Hr. rewrite lookup_insert_ne by (by eapply end_not_first). by eapply H3.
  - intros r n Hr. rewrite lookup_insert_ne by (intros E; eapply block_not_guard; eauto). by eapply H4.
Qed.

(** ** Reading *)

(** The tags around a block, which may itself have none at the moment. *)
Section around.
Context (b : Z) (HT : tagged S (delete b B)).

(** Whether there is a free block at [x]. *)
Definition free_at (x : Z) : bool := match B !! x with Some (_, false) => true | _ => false end.

Lemma read_guard g : guard_at (regions S) g → B !! g = None ∧ info_size S !! g = Some 19.
Proof using HG HT.
  intros (r & n & Hr & ->). split; [|by apply (t_guard _ _ HT)]. destruct (B !! (r + n - 16)) as [[s u]|] eqn:E; [|done].
  by eapply (block_not_guard HG) in E.
Qed.
Lemma read_tag a s u : a ≠ b → B !! a = Some (s, u) → info_size S !! a = Some (tag s u).
Proof using HT. intros Hne Ha. apply (t_size _ _ HT). by rewrite lookup_delete_ne. Qed.

Lemma next_ne s u : B !! b = Some (s, u) → b + s ≠ b.
Proof using HG. intros Hb. destruct (geo_pos HG _ _ _ Hb) as (_ & _ & ? & _). lia. Qed.

Lemma read_next_free s u : B !! b = Some (s, u) → ZEND_MM_IS_FREE_BLOCK S (b + s) = OK (free_at (b + s)).
Proof using HG HT.
  intros Hb. destruct (g_next _ _ HG _ _ _ Hb) as [[[t v] Ht]|Hg].
  - unfold ZEND_MM_IS_FREE_BLOCK, free_at. rewrite (read_tag _ _ _ (next_ne _ _ Hb) Ht), Ht. ob.
    rewrite tag_is_free by (by apply (g_al _ _ HG _ _ _ Ht)). by destruct v.
  - destruct (read_guard _ Hg) as [Hn Hi]. unfold free_at, ZEND_MM_IS_FREE_BLOCK. by rewrite Hn, Hi.
Qed.
Lemma read_next_guard s u : B !! b = Some (s, u) → ∃ g : bool, ZEND_MM_IS_GUARD_BLOCK S (b + s) = OK g ∧
  if g then guard_at (regions S) (b + s) else is_Some (B !! (b + s)).
Proof using HG HT.
  intros Hb. destruct (g_next _ _ HG _ _ _ Hb) as [[[t v] Ht]|Hg].
  - exists false. unfold ZEND_MM_IS_GUARD_BLOCK. rewrite (read_tag _ _ _ (next_ne _ _ Hb) Ht). ob.
    rewrite tag_is_guard by (by apply (g_al _ _ HG _ _ _ Ht)). eauto.
  - exists true. destruct (read_guard _ Hg) as [Hn Hi]. unfold ZEND_MM_IS_GUARD_BLOCK. by rewrite Hi.
Qed.

(** What lies before a block. *)
Lemma read_prev : is_Some (B !! b) →
  (first_at (regions S) b ∧ ZEND_MM_PREV_BLOCK_IS_FREE S b = OK false ∧ ZEND_MM_IS_FIRST_BLOCK S b = OK true) ∨
  (∃ p ps pu, B !! p = Some (ps, pu) ∧ p + ps = b ∧ p ≠ b ∧ ZEND_MM_PREV_BLOCK_IS_FREE S b = OK (negb pu) ∧
     ZEND_MM_PREV_BLOCK S b = OK p ∧ ZEND_MM_IS_FIRST_BLOCK S b = OK false ∧ info_prev S !! b = Some (tag ps pu)).
Proof using HG HT.
  intros Hb. destruct (g_first _ _ HG b Hb) as [Hf|(p & ps & pu & Hp & E)].
  - left. split; [done|]. destruct Hf as (r & n & Hr & ->). unfold ZEND_MM_PREV_BLOCK_IS_FREE, ZEND_MM_IS_FIRST_BLOCK.
    by rewrite (t_first _ _ HT _ _ Hr).
  - right. exists p, ps, pu. destruct (geo_pos HG _ _ _ Hp) as (_ & _ & ? & _ & H8).
    assert (info_prev S !! (p + ps) = Some (tag ps pu)) as Ht. { apply (t_prev _ _ HT). rewrite lookup_delete_ne by lia. done. }
    rewrite E in Ht. unfold ZEND_MM_PREV_BLOCK_IS_FREE, ZEND_MM_PREV_BLOCK, ZEND_MM_IS_FIRST_BLOCK. rewrite Ht. ob.
    rewrite tag_is_free, tag_block_size by done. split_and!; try done; [lia|f_equal; lia|].
    f_equal. apply Z.eqb_neq. by apply tag_not_first.
Qed.
End around.

Context (HT : tagged S B).

Lemma read_size b s u : B !! b = Some (s, u) → ZEND_MM_BLOCK_SIZE S b = OK s.
Proof using HG HT.
  intros Hb. unfold ZEND_MM_BLOCK_SIZE. rewrite (t_size _ _ HT _ _ _ Hb). ob. rewrite tag_block_size; [done|]. by apply (g_al _ _ HG _ _ _ Hb).
Qed.
Lemma read_free_size b s : B !! b = Some (s, false) → ZEND_MM_FREE_BLOCK_SIZE S b = OK s.
Proof using HT. intros Hb. unfold ZEND_MM_FREE_BLOCK_SIZE. by rewrite (t_size _ _ HT _ _ _ Hb). Qed.

Lemma check_linkage_OK b s : B !! b = Some (s, false) → ZEND_MM_CHECK_BLOCK_LINKAGE S b = OK tt.
Proof using HG HT.
  intros Hb. unfold ZEND_MM_CHECK_BLOCK_LINKAGE. rewrite (t_size _ _ HT _ _ _ Hb). ob. cbn [tag].
  rewrite (t_prev _ _ HT _ _ _ Hb). ob. cbn [tag]. rewrite Z.eqb_refl. cbn [negb].
  assert (tagged S (delete b B)) as HT' by (eapply tagged_sub; [apply delete_subseteq|exact HT]).
  destruct (read_prev b HT') as [(_ & _ & ->)|(p & ps & pu & Hp & E & _ & _ & -> & -> & Hpp)]; [eauto|done|]. ob.
  rewrite (t_size _ _ HT _ _ _ Hp), Hpp. ob. by rewrite Z.eqb_refl.
Qed.
End tags.
