(* ===== verification/ZendAlloc.v ===== *)
(** The heap of the memory manager, Zend/zend_alloc.c: allocation, freeing and
    reallocation, the cache of freed blocks, segments, the memory limit, start
    and end of a request, and the engine's allocation functions on top. *)

From S2P Require Import Prelude ZendMmTypes ZendMmFree.

(** [struct _zend_mm_heap], with the memory it manages: [hstore] are the
    segments and their blocks, [hlists] its free lists.  [heap_size] is the C
    field [size].  The heap with [use_zend_alloc] = 0, which passes every
    request to the C library, is not modelled. *)
Record zend_mm_heap := MkHeap {
  hstore : mm_store;
  hlists : mm_lists;
  cache : gmap Z fptr;
  cached : Z;
  segments_list : Z;
  block_size : Z;
  real_size : Z;
  real_peak : Z;
  limit : Z;
  heap_size : Z;
  peak : Z;
  reserve_size : Z;
  reserve : Z;
  overflow : Z;
}.

Definition set_hstore v h := MkHeap v (hlists h) (cache h) (cached h) (segments_list h) (block_size h) (real_size h) (real_peak h) (limit h) (heap_size h) (peak h) (reserve_size h) (reserve h) (overflow h).
Definition set_hlists v h := MkHeap (hstore h) v (cache h) (cached h) (segments_list h) (block_size h) (real_size h) (real_peak h) (limit h) (heap_size h) (peak h) (reserve_size h) (reserve h) (overflow h).
Definition set_cache v h := MkHeap (hstore h) (hlists h) v (cached h) (segments_list h) (block_size h) (real_size h) (real_peak h) (limit h) (heap_size h) (peak h) (reserve_size h) (reserve h) (overflow h).
Definition set_cached v h := MkHeap (hstore h) (hlists h) (cache h) v (segments_list h) (block_size h) (real_size h) (real_peak h) (limit h) (heap_size h) (peak h) (reserve_size h) (reserve h) (overflow h).
Definition set_segments_list v h := MkHeap (hstore h) (hlists h) (cache h) (cached h) v (block_size h) (real_size h) (real_peak h) (limit h) (heap_size h) (peak h) (reserve_size h) (reserve h) (overflow h).
Definition set_block_size v h := MkHeap (hstore h) (hlists h) (cache h) (cached h) (segments_list h) v (real_size h) (real_peak h) (limit h) (heap_size h) (peak h) (reserve_size h) (reserve h) (overflow h).
Definition set_real_size v h := MkHeap (hstore h) (hlists h) (cache h) (cached h) (segments_list h) (block_size h) v (real_peak h) (limit h) (heap_size h) (peak h) (reserve_size h) (reserve h) (overflow h).
Definition set_real_peak v h := MkHeap (hstore h) (hlists h) (cache h) (cached h) (segments_list h) (block_size h) (real_size h) v (limit h) (heap_size h) (peak h) (reserve_size h) (reserve h) (overflow h).
Definition set_limit v h := MkHeap (hstore h) (hlists h) (cache h) (cached h) (segments_list h) (block_size h) (real_size h) (real_peak h) v (heap_size h) (peak h) (reserve_size h) (reserve h) (overflow h).
Definition set_heap_size v h := MkHeap (hstore h) (hlists h) (cache h) (cached h) (segments_list h) (block_size h) (real_size h) (real_peak h) (limit h) v (peak h) (reserve_size h) (reserve h) (overflow h).
Definition set_peak v h := MkHeap (hstore h) (hlists h) (cache h) (cached h) (segments_list h) (block_size h) (real_size h) (real_peak h) (limit h) (heap_size h) v (reserve_size h) (reserve h) (overflow h).
Definition set_reserve_size v h := MkHeap (hstore h) (hlists h) (cache h) (cached h) (segments_list h) (block_size h) (real_size h) (real_peak h) (limit h) (heap_size h) (peak h) v (reserve h) (overflow h).
Definition set_reserve v h := MkHeap (hstore h) (hlists h) (cache h) (cached h) (segments_list h) (block_size h) (real_size h) (real_peak h) (limit h) (heap_size h) (peak h) (reserve_size h) v (overflow h).
Definition set_overflow v h := MkHeap (hstore h) (hlists h) (cache h) (cached h) (segments_list h) (block_size h) (real_size h) (real_peak h) (limit h) (heap_size h) (peak h) (reserve_size h) (reserve h) v.

(** Computations on the store or on the lists, as computations on the heap. *)
Definition on_store (f : mm_store → outcome mm_store) h : outcome zend_mm_heap :=
  let* St := f (hstore h) in OK (set_hstore St h).
Definition on_lists (f : mm_store → mm_lists → outcome mm_lists) h : outcome zend_mm_heap :=
  let* L := f (hstore h) (hlists h) in OK (set_hlists L h).

Abbreviation add_to_free_list b := (on_lists (λ St L, zend_mm_add_to_free_list St b L)).
Abbreviation remove_from_free_list b := (on_lists (λ St L, zend_mm_remove_from_free_list St b L)).
Abbreviation add_to_rest_list b := (on_lists (λ St L, zend_mm_add_to_rest_list St b L)).

(** What an allocation ends in: a pointer, or one of the two fatal errors of
    zend_mm_safe_error, which unwind the request by a longjmp and leave the
    heap as it is then. *)
Inductive mm_result := Ptr (p : Z) | Limit_exhausted | Out_of_memory.
#[export] Instance mm_result_eq_dec : EqDecision mm_result.
Proof. solve_decision. Defined.

(** [heap->peak], [heap->real_peak] *)
Definition raise_peak h := if peak h <? heap_size h then set_peak (heap_size h) h else h.
Definition raise_real_peak h := if real_peak h <? real_size h then set_real_peak (real_size h) h else h.

(** ** Segments *)

(** The walk [while ( *p != segment) p = &( *p)->next_segment]: [slot] is the
    address of the segment whose [next_segment] is [*p], or 0 for
    [heap->segments_list]. *)
Definition segment_at (slot : Z) h : outcome Z :=
  if slot =? 0 then OK (segments_list h) else rd (seg_next (hstore h) !! slot).
Definition set_segment_at (slot v : Z) h : zend_mm_heap :=
  if slot =? 0 then set_segments_list v h else set_hstore (put_seg_next slot v (hstore h)) h.
Fixpoint find_segment (fuel : nat) (segment slot : Z) h : outcome Z :=
  match fuel with
  | O => UB
  | S fuel =>
      let* s := segment_at slot h in
      if s =? segment then OK slot
      else if s =? 0 then UB else find_segment fuel segment s h
  end.

Definition storage_free (segment : Z) h : outcome zend_mm_heap :=
  let* n := rd (regions (hstore h) !! segment) in
  OK (set_hlists (wipe_lists segment n (hlists h)) (set_hstore (wipe_store segment n (hstore h)) h)).

Definition zend_mm_del_segment (segment : Z) h : outcome zend_mm_heap :=
  let* slot := find_segment (S (size (regions (hstore h)))) segment 0 h in
  let* next := rd (seg_next (hstore h) !! segment) in
  let h := set_segment_at slot next h in
  let* n := rd (seg_size (hstore h) !! segment) in
  let h := set_real_size (ulong_wrap (real_size h - n)) h in
  storage_free segment h.

(** ** zend_mm_free_cache and _zend_mm_free_int *)

(** Whether the block [b], which ends at [e], is the only one of its segment:
    ZEND_MM_IS_FIRST_BLOCK(b) && ZEND_MM_IS_GUARD_BLOCK(e). *)
Definition only_block (b e : Z) (St : mm_store) : outcome bool :=
  let* first := ZEND_MM_IS_FIRST_BLOCK St b in
  if first : bool then ZEND_MM_IS_GUARD_BLOCK St e else OK false.

(** A block that lies in no list and is not cached: its segment is freed if
    there is nothing else in it, otherwise the block is entered in the lists. *)
Definition release_block b h : outcome zend_mm_heap :=
  let* size := ZEND_MM_BLOCK_SIZE (hstore h) b in
  let* only := only_block b (b + size) (hstore h) in
  if only : bool then zend_mm_del_segment (b - ZEND_MM_ALIGNED_SEGMENT_SIZE) h
  else add_to_free_list b h.

(** One block of the cache. *)
Definition uncache_block b h : outcome zend_mm_heap :=
  let* size := ZEND_MM_BLOCK_SIZE (hstore h) b in
  let next_block := b + size in
  let h := set_cached (uint_wrap (cached h - size)) h in
  let* prev_free := ZEND_MM_PREV_BLOCK_IS_FREE (hstore h) b in
  let* r :=
    (if prev_free : bool then
       let* p := ZEND_MM_PREV_BLOCK (hstore h) b in
       let* psize := ZEND_MM_FREE_BLOCK_SIZE (hstore h) p in
       let* h := remove_from_free_list p h in
       OK (p, size + psize, h)
     else OK (b, size, h)) in
  let '(b, size, h) := r in
  let* r :=
    (let* next_free := ZEND_MM_IS_FREE_BLOCK (hstore h) next_block in
     if next_free : bool then
       let* nsize := ZEND_MM_FREE_BLOCK_SIZE (hstore h) next_block in
       let* h := remove_from_free_list next_block h in
       OK (size + nsize, h)
     else OK (size, h)) in
  let '(size, h) := r in
  let* h := on_store (ZEND_MM_BLOCK b ZEND_MM_FREE_BLOCK size) h in
  release_block b h.

(** The blocks of one cache bucket: [q] is read before the block goes. *)
Fixpoint uncache_blocks (fuel : nat) (b : fptr) h : outcome zend_mm_heap :=
  match b with
  | Null => OK h
  | _ =>
      match fuel with
      | O => UB
      | S fuel =>
          let* a := as_block b in
          let* q := rd (prev_free_block (hlists h) !! b) in
          let* h := uncache_block a h in
          uncache_blocks fuel q h
      end
  end.

Fixpoint free_cache_from (n : nat) (i : Z) h : outcome zend_mm_heap :=
  match n with
  | O => OK h
  | S n =>
      let* c := rd (cache h !! i) in
      let* h := uncache_blocks (size (info_size (hstore h))) c h in
      free_cache_from n (i + 1) (set_cache (<[i := Null]> (cache h)) h)
  end.
Definition zend_mm_free_cache h : outcome zend_mm_heap := free_cache_from (Z.to_nat ZEND_MM_NUM_BUCKETS) 0 h.

(** Whether [block] is free; if it is, it leaves the lists.  The result is its
    size, or 0. *)
Definition absorb block h : outcome (Z * zend_mm_heap) :=
  let* free := ZEND_MM_IS_FREE_BLOCK (hstore h) block in
  if free : bool then
    let* h := remove_from_free_list block h in
    let* size := ZEND_MM_FREE_BLOCK_SIZE (hstore h) block in
    OK (size, h)
  else OK (0, h).

Definition _zend_mm_free_int (p : Z) h : outcome zend_mm_heap :=
  if p =? 0 then OK h
  else
    let mm_block := p - ZEND_MM_ALIGNED_HEADER_SIZE in
    let* size := ZEND_MM_BLOCK_SIZE (hstore h) mm_block in
    if ZEND_MM_SMALL_SIZE size && (cached h <? ZEND_MM_CACHE_SIZE) then
      let index := ZEND_MM_BUCKET_INDEX size in
      let* c := rd (cache h !! index) in
      let h := set_hlists (put_prev (Blk mm_block) c (hlists h)) h in
      let h := set_cache (<[index := Blk mm_block]> (cache h)) h in
      OK (set_cached (uint_wrap (cached h + size)) h)
    else
      let h := set_heap_size (ulong_wrap (heap_size h - size)) h in
      let* r := absorb (mm_block + size) h in
      let '(nsize, h) := r in
      let size := size + nsize in
      let* prev_free := ZEND_MM_PREV_BLOCK_IS_FREE (hstore h) mm_block in
      let* r :=
        (if prev_free : bool then
           let* q := ZEND_MM_PREV_BLOCK (hstore h) mm_block in
           let* h := remove_from_free_list q h in
           let* qsize := ZEND_MM_FREE_BLOCK_SIZE (hstore h) q in
           OK (q, size + qsize, h)
         else OK (mm_block, size, h)) in
      let '(mm_block, size, h) := r in
      let* only := only_block mm_block (mm_block + size) (hstore h) in
      if only : bool then zend_mm_del_segment (mm_block - ZEND_MM_ALIGNED_SEGMENT_SIZE) h
      else
        let* h := on_store (ZEND_MM_BLOCK mm_block ZEND_MM_FREE_BLOCK size) h in
        add_to_free_list mm_block h.

(** ** zend_mm_safe_error *)

(** Up to the point where zend_error_noreturn or zend_bailout is called. *)
Definition zend_mm_safe_error (err : mm_result) h : outcome (mm_result * zend_mm_heap) :=
  let* h :=
    (if reserve h =? 0 then OK h
     else let* h := _zend_mm_free_int (reserve h) h in OK (set_reserve 0 h)) in
  OK (err, set_overflow (if overflow h =? 0 then 1 else 2) h).

(** The limit, or the storage layer, refuses: the cache is freed first. *)
Definition exhausted (err : mm_result) h : outcome (mm_result * zend_mm_heap) :=
  let* h := zend_mm_free_cache h in zend_mm_safe_error err h.

(** ** _zend_mm_alloc_int *)

Section storage.
Context `{MMStorage}.

(** The length of a segment that can hold a block of [true_size]; the flag says
    that it is an oversized one ([keep_rest]). *)
Definition segment_size_for (true_size : Z) h : Z * bool :=
  if ulong_wrap (block_size h - (ZEND_MM_ALIGNED_SEGMENT_SIZE + ZEND_MM_ALIGNED_HEADER_SIZE)) <? true_size then
    let segment_size := ulong_wrap (true_size + ZEND_MM_ALIGNED_SEGMENT_SIZE + ZEND_MM_ALIGNED_HEADER_SIZE) in
    (Z.land (ulong_wrap (segment_size + (block_size h - 1))) (Z.lnot (block_size h - 1)), true)
  else (block_size h, false).

(** The search of a free block: the small buckets, the large ones, and the
    rest list when the memory limit is near. *)
Definition find_block (true_size : Z) h : outcome (option Z) :=
  let L := hlists h in
  let index := ZEND_MM_BUCKET_INDEX true_size in
  let bitmap := if ZEND_MM_SMALL_SIZE true_size then Z.shiftr (free_bitmap L) index else 0 in
  if negb (bitmap =? 0) then
    let* p := rd (prev_free_block L !! Small (index + zend_mm_low_bit bitmap)) in
    let* b := as_block p in OK (Some b)
  else
    let* best_fit := zend_mm_search_large_block (hstore h) true_size L in
    match best_fit with
    | Some b => OK (Some b)
    | None =>
        if ulong_wrap (limit h - block_size h) <=? real_size h then
          let* p := rd (prev_free_block L !! Rest) in
          let* b := search_rest (hstore h) (S (size (prev_free_block L))) L true_size p 0 ULONG_MAX in
          OK (if b =? 0 then None else Some b)
        else OK None
    end.

(** A found block leaves the free lists. *)
Definition take_block b h : outcome (Z * zend_mm_heap) :=
  let* _ := ZEND_MM_CHECK_BLOCK_LINKAGE (hstore h) b in
  let* h := remove_from_free_list b h in
  let* size := ZEND_MM_FREE_BLOCK_SIZE (hstore h) b in
  OK (size, h).

(** A new segment of [segment_size] bytes, entered at the head of the list of
    segments, with its first block and its guard. *)
Definition enter_segment (segment segment_size : Z) h : outcome (Z * zend_mm_heap) :=
  let h := raise_real_peak (set_real_size (ulong_wrap (real_size h + segment_size)) h) in
  let St := set_regions (<[segment := segment_size]> (regions (hstore h))) (hstore h) in
  let St := put_seg_next segment (segments_list h) (put_seg_size segment segment_size St) in
  let h := set_segments_list segment (set_hstore St h) in
  let best_fit := segment + ZEND_MM_ALIGNED_SEGMENT_SIZE in
  let block_size := segment_size - ZEND_MM_ALIGNED_SEGMENT_SIZE - ZEND_MM_ALIGNED_HEADER_SIZE in
  let* h := on_store (ZEND_MM_MARK_FIRST_BLOCK best_fit) h in
  let* h := on_store (ZEND_MM_LAST_BLOCK (best_fit + block_size)) h in
  OK (block_size, h).

(** The block [b] of [block_size] bytes becomes a used one of [true_size]
    bytes; what remains goes to a free list, unless it is too small.  The
    result is the size the block really gets. *)
Definition place_block b block_size true_size (keep_rest : mm_store → outcome bool) h : outcome (Z * zend_mm_heap) :=
  let remaining_size := ulong_wrap (block_size - true_size) in
  if remaining_size <? ZEND_MM_ALIGNED_MIN_HEADER_SIZE then
    let* h := on_store (ZEND_MM_BLOCK b ZEND_MM_USED_BLOCK block_size) h in
    OK (block_size, h)
  else
    let* h := on_store (ZEND_MM_BLOCK b ZEND_MM_USED_BLOCK true_size) h in
    let new_free_block := b + true_size in
    let* h := on_store (ZEND_MM_BLOCK new_free_block ZEND_MM_FREE_BLOCK remaining_size) h in
    let* keep := keep_rest (hstore h) in
    let* h := (if keep : bool then add_to_rest_list new_free_block h else add_to_free_list new_free_block h) in
    OK (true_size, h).

(** The end of the function: the block is carved and accounted for. *)
Definition finish_alloc b block_size true_size keep_rest h : outcome (mm_result * zend_mm_heap) :=
  let* r := place_block b block_size true_size (λ _, OK keep_rest) h in
  let '(true_size, h) := r in
  let h := raise_peak (set_heap_size (ulong_wrap (heap_size h + true_size)) h) in
  OK (Ptr (b + ZEND_MM_ALIGNED_HEADER_SIZE), h).

(** From the search on. *)
Definition alloc_uncached (true_size : Z) h : outcome (mm_result * zend_mm_heap) :=
  let* best_fit := find_block true_size h in
  match best_fit with
  | Some b =>
      let* r := take_block b h in
      let '(block_size, h) := r in
      finish_alloc b block_size true_size false h
  | None =>
      let '(segment_size, keep_rest) := segment_size_for true_size h in
      if (segment_size <? true_size) || (limit h <? ulong_wrap (real_size h + segment_size))
      then exhausted Limit_exhausted h
      else
        match storage_alloc (regions (hstore h)) segment_size with
        | None => exhausted Out_of_memory h
        | Some segment =>
            let* r := enter_segment segment segment_size h in
            let '(block_size, h) := r in
            finish_alloc (segment + ZEND_MM_ALIGNED_SEGMENT_SIZE) block_size true_size keep_rest h
        end
  end.

(** A block of the right size from the cache. *)
Definition alloc_cached (index true_size : Z) h : outcome (mm_result * zend_mm_heap) :=
  let* c := rd (cache h !! index) in
  let* best_fit := as_block c in
  let* next := rd (prev_free_block (hlists h) !! c) in
  let h := set_cached (uint_wrap (cached h - true_size)) (set_cache (<[index := next]> (cache h)) h) in
  OK (Ptr (best_fit + ZEND_MM_ALIGNED_HEADER_SIZE), h).

Definition _zend_mm_alloc_int (size : Z) h : outcome (mm_result * zend_mm_heap) :=
  let true_size := ZEND_MM_TRUE_SIZE size in
  if ZEND_MM_SMALL_SIZE true_size then
    let index := ZEND_MM_BUCKET_INDEX true_size in
    if true_size <? size then zend_mm_safe_error Out_of_memory h
    else
      let* c := rd (cache h !! index) in
      if decide (c = Null) then alloc_uncached true_size h else alloc_cached index true_size h
  else alloc_uncached true_size h.

(** ** _zend_mm_realloc_int *)

(** The block shrinks in place; the rest becomes a free block, with the free
    block behind it if there is one. *)
Definition realloc_shrink b orig_size true_size h : outcome (mm_result * zend_mm_heap) :=
  let remaining_size := orig_size - true_size in
  let p := b + ZEND_MM_ALIGNED_HEADER_SIZE in
  if remaining_size <? ZEND_MM_ALIGNED_MIN_HEADER_SIZE then OK (Ptr p, h)
  else
    let* r :=
      (let* free := ZEND_MM_IS_FREE_BLOCK (hstore h) (b + orig_size) in
       if free : bool then
         let* nsize := ZEND_MM_FREE_BLOCK_SIZE (hstore h) (b + orig_size) in
         let* h := remove_from_free_list (b + orig_size) h in
         OK (remaining_size + nsize, h)
       else OK (remaining_size, h)) in
    let '(remaining_size, h) := r in
    let* h := on_store (ZEND_MM_BLOCK b ZEND_MM_USED_BLOCK true_size) h in
    let* h := on_store (ZEND_MM_BLOCK (b + true_size) ZEND_MM_FREE_BLOCK remaining_size) h in
    let* h := add_to_free_list (b + true_size) h in
    OK (Ptr p, set_heap_size (ulong_wrap (heap_size h + (true_size - orig_size))) h).

(** The contents move to a block from the cache, and the old block goes to the
    cache. *)
Definition realloc_cached b orig_size true_size (c : fptr) h : outcome (mm_result * zend_mm_heap) :=
  let index := ZEND_MM_BUCKET_INDEX true_size in
  let* best_fit := as_block c in
  let* next := rd (prev_free_block (hlists h) !! c) in
  let h := set_cache (<[index := next]> (cache h)) h in
  let ptr := best_fit + ZEND_MM_ALIGNED_HEADER_SIZE in
  let D := mm_memcpy ptr (b + ZEND_MM_ALIGNED_HEADER_SIZE) (orig_size - ZEND_MM_ALIGNED_HEADER_SIZE) (data (hstore h)) in
  let h := set_hstore (set_data D (hstore h)) h in
  let h := set_cached (uint_wrap (cached h - (true_size - orig_size))) h in
  let index := ZEND_MM_BUCKET_INDEX orig_size in
  let* c := rd (cache h !! index) in
  let h := set_hlists (put_prev (Blk b) c (hlists h)) h in
  OK (Ptr ptr, set_cache (<[index := Blk b]> (cache h)) h).

(** [heap->size = heap->size + true_size - orig_size], and the peak. *)
Definition resize_heap true_size orig_size h :=
  raise_peak (set_heap_size (ulong_wrap (ulong_wrap (heap_size h + true_size) - orig_size)) h).

(** The block grows into the free block behind it. *)
Definition realloc_extend b orig_size nsize true_size h : outcome (mm_result * zend_mm_heap) :=
  let block_size := orig_size + nsize in
  let* h := remove_from_free_list (b + orig_size) h in
  let* r := place_block b block_size true_size (only_block b (b + block_size)) h in
  let '(true_size, h) := r in
  OK (Ptr (b + ZEND_MM_ALIGNED_HEADER_SIZE), resize_heap true_size orig_size h).

(** The segment at [segment_copy], [region] bytes long, has become the one at
    [segment]: its size, the link to it, the first block and the guard. *)
Definition move_segment (segment_copy region segment segment_size : Z) h : outcome zend_mm_heap :=
  let h := set_hstore (relocate_store segment_copy region segment segment_size (hstore h)) h in
  let h := set_hlists (wipe_lists segment_copy region (hlists h)) h in
  let* old_size := rd (seg_size (hstore h) !! segment) in
  let h := raise_real_peak (set_real_size (ulong_wrap (real_size h + ulong_wrap (segment_size - old_size))) h) in
  let h := set_hstore (put_seg_size segment segment_size (hstore h)) h in
  let b := segment + ZEND_MM_ALIGNED_SEGMENT_SIZE in
  let* h :=
    (if segment =? segment_copy then OK h
     else
       let* slot := find_segment (S (size (regions (hstore h)))) segment_copy 0 h in
       on_store (ZEND_MM_MARK_FIRST_BLOCK b) (set_segment_at slot segment h)) in
  let block_size := segment_size - ZEND_MM_ALIGNED_SEGMENT_SIZE - ZEND_MM_ALIGNED_HEADER_SIZE in
  on_store (ZEND_MM_LAST_BLOCK (b + block_size)) h.

(** The label [realloc_segment]: the block, with the block behind it if that is
    free, is all of its segment, and the segment is reallocated. *)
Definition realloc_segment b orig_size true_size h : outcome (mm_result * zend_mm_heap) :=
  let '(segment_size, _) := segment_size_for true_size h in
  let segment_copy := b - ZEND_MM_ALIGNED_SEGMENT_SIZE in
  let* old_size := rd (seg_size (hstore h) !! segment_copy) in
  if (segment_size <? true_size) || (limit h <? ulong_wrap (ulong_wrap (real_size h + segment_size) - old_size)) then
    let* h :=
      (let* free := ZEND_MM_IS_FREE_BLOCK (hstore h) (b + orig_size) in
       if free : bool then add_to_free_list (b + orig_size) h else OK h) in
    exhausted Limit_exhausted h
  else
    let* region := rd (regions (hstore h) !! segment_copy) in
    match storage_realloc (regions (hstore h)) segment_copy segment_size with
    | None => exhausted Out_of_memory h
    | Some segment =>
        let* h := move_segment segment_copy region segment segment_size h in
        let b := segment + ZEND_MM_ALIGNED_SEGMENT_SIZE in
        let block_size := segment_size - ZEND_MM_ALIGNED_SEGMENT_SIZE - ZEND_MM_ALIGNED_HEADER_SIZE in
        let* r := place_block b block_size true_size (λ _, OK true) h in
        let '(true_size, h) := r in
        OK (Ptr (b + ZEND_MM_ALIGNED_HEADER_SIZE), resize_heap true_size orig_size h)
    end.

(** A new block, a copy, and the old block is freed. *)
Definition realloc_move b orig_size size h : outcome (mm_result * zend_mm_heap) :=
  let* r := _zend_mm_alloc_int size h in
  match r with
  | (Ptr ptr, h) =>
      let D := mm_memcpy ptr (b + ZEND_MM_ALIGNED_HEADER_SIZE) (orig_size - ZEND_MM_ALIGNED_HEADER_SIZE) (data (hstore h)) in
      let* h := _zend_mm_free_int (b + ZEND_MM_ALIGNED_HEADER_SIZE) (set_hstore (set_data D (hstore h)) h) in
      OK (Ptr ptr, h)
  | r => OK r
  end.

(** From the look at the next block on. *)
Definition realloc_grow b orig_size true_size size h : outcome (mm_result * zend_mm_heap) :=
  let next_block := b + orig_size in
  let* free := ZEND_MM_IS_FREE_BLOCK (hstore h) next_block in
  if free : bool then
    let* _ := ZEND_MM_CHECK_BLOCK_LINKAGE (hstore h) next_block in
    let* nsize := ZEND_MM_FREE_BLOCK_SIZE (hstore h) next_block in
    if true_size <=? orig_size + nsize then realloc_extend b orig_size nsize true_size h
    else
      let* only := only_block b (next_block + nsize) (hstore h) in
      if only : bool then
        let* h := remove_from_free_list next_block h in
        realloc_segment b orig_size true_size h
      else realloc_move b orig_size size h
  else
    let* only := only_block b next_block (hstore h) in
    if only : bool then realloc_segment b orig_size true_size h
    else realloc_move b orig_size size h.

Definition _zend_mm_realloc_int (p size : Z) h : outcome (mm_result * zend_mm_heap) :=
  if p =? 0 then _zend_mm_alloc_int size h
  else
    let b := p - ZEND_MM_ALIGNED_HEADER_SIZE in
    let true_size := ZEND_MM_TRUE_SIZE size in
    let* orig_size := ZEND_MM_BLOCK_SIZE (hstore h) b in
    if true_size <? size then zend_mm_safe_error Out_of_memory h
    else if true_size <=? orig_size then realloc_shrink b orig_size true_size h
    else if ZEND_MM_SMALL_SIZE true_size then
      let* c := rd (cache h !! ZEND_MM_BUCKET_INDEX true_size) in
      if decide (c = Null) then realloc_grow b orig_size true_size size h
      else realloc_cached b orig_size true_size c h
    else realloc_grow b orig_size true_size size h.

Definition _zend_mm_block_size (p : Z) h : outcome Z :=
  if p =? 0 then OK 0 else ZEND_MM_BLOCK_SIZE (hstore h) (p - ZEND_MM_ALIGNED_HEADER_SIZE).

(** ** Start and end *)

(** zend_mm_init *)
Definition zend_mm_init h : zend_mm_heap :=
  set_hlists (init_lists (hlists h))
    (set_cached 0 (set_cache (foldr (λ i M, <[i := Null]> M) (cache h) (seqZ 0 ZEND_MM_NUM_BUCKETS)) h)).

Definition empty_lists : mm_lists := MkLists 0 0 0 ∅ ∅ ∅ ∅.
Definition empty_store : mm_store := MkStore ∅ ∅ ∅ ∅ ∅ ∅.

(** An allocation the reserve is made of. *)
Definition alloc_reserve (n : Z) h : outcome (mm_result * zend_mm_heap) :=
  let* r := _zend_mm_alloc_int n h in
  match r with
  | (Ptr p, h) => OK (Ptr p, set_reserve p h)
  | r => OK r
  end.

(** zend_mm_startup_ex for [internal] = 0; the process exits when [block_size]
    is not a power of two. *)
Definition zend_mm_startup_ex (block_size reserve_size : Z) : outcome (mm_result * zend_mm_heap) :=
  if negb (zend_mm_low_bit block_size =? zend_mm_high_bit block_size) then Bailout
  else
    let h := zend_mm_init (MkHeap empty_store empty_lists ∅ 0 0 block_size 0 0 (Z.shiftl 1 (ZEND_MM_NUM_BUCKETS - 2)) 0 0 reserve_size 0 0) in
    if 0 <? reserve_size then alloc_reserve reserve_size h else OK (Ptr 0, h).

(** The segments from [segment] on are given back; with [keep_last], all but
    the last, which is the result. *)
Fixpoint free_segments (fuel : nat) (keep_last : bool) (segment : Z) h : outcome (Z * zend_mm_heap) :=
  if segment =? 0 then OK (0, h)
  else
    match fuel with
    | O => UB
    | S fuel =>
        let* next := rd (seg_next (hstore h) !! segment) in
        if keep_last && (next =? 0) then OK (segment, h)
        else
          let* h := storage_free segment h in
          free_segments fuel keep_last next h
    end.

(** The segment that survives a request becomes one free block. *)
Definition recycle_segment (segment : Z) h : outcome zend_mm_heap :=
  let* n := rd (seg_size (hstore h) !! segment) in
  let b := segment + ZEND_MM_ALIGNED_SEGMENT_SIZE in
  let block_size := n - ZEND_MM_ALIGNED_SEGMENT_SIZE - ZEND_MM_ALIGNED_HEADER_SIZE in
  let* h := on_store (ZEND_MM_MARK_FIRST_BLOCK b) h in
  let* h := on_store (ZEND_MM_LAST_BLOCK (b + block_size)) h in
  let* h := on_store (ZEND_MM_BLOCK b ZEND_MM_FREE_BLOCK block_size) h in
  add_to_free_list b h.

(** zend_mm_shutdown; after a full shutdown the heap itself is freed. *)
Definition zend_mm_shutdown (full_shutdown : bool) h : outcome (mm_result * zend_mm_heap) :=
  let h := set_reserve 0 h in
  let fuel := S (size (regions (hstore h))) in
  if full_shutdown then
    let* r := free_segments fuel false (segments_list h) h in
    OK (Ptr 0, set_segments_list 0 r.2)
  else
    let* r := free_segments fuel (negb (reserve_size h =? 0)) (segments_list h) h in
    let h := zend_mm_init (set_segments_list r.1 r.2) in
    let* n := (if segments_list h =? 0 then OK 0 else rd (seg_size (hstore h) !! segments_list h)) in
    let h := set_peak 0 (set_heap_size 0 (set_real_peak n (set_real_size n h))) in
    let* h := (if segments_list h =? 0 then OK h else recycle_segment (segments_list h) h) in
    let* r := (if reserve_size h =? 0 then OK (Ptr 0, h) else alloc_reserve (reserve_size h) h) in
    OK (r.1, set_overflow 0 r.2).

(** ** The engine's functions *)

(** [safe_address] on x86-64: [mul], [add], [adc]. *)
Definition safe_address (nmemb size offset : Z) : outcome Z :=
  let lo := ulong_wrap (nmemb * size) in
  let hi := ulong_wrap (nmemb * size / 2 ^ 64) in
  let res := ulong_wrap (lo + offset) in
  let overflow := ulong_wrap (hi + (lo + offset) / 2 ^ 64) in
  if negb (overflow =? 0) then Bailout else OK res.

Definition _safe_emalloc (nmemb size offset : Z) h : outcome (mm_result * zend_mm_heap) :=
  let* n := safe_address nmemb size offset in _zend_mm_alloc_int n h.
Definition _safe_erealloc (p nmemb size offset : Z) h : outcome (mm_result * zend_mm_heap) :=
  let* n := safe_address nmemb size offset in _zend_mm_realloc_int p n h.

(** [memset(p, 0, n)] *)
Definition mm_memset0 (p n : Z) (D : gmap Z Z) : gmap Z Z := foldr (λ i D, <[p + i := 0]> D) D (seqZ 0 n).

Definition _ecalloc (nmemb size : Z) h : outcome (mm_result * zend_mm_heap) :=
  let* r := _safe_emalloc nmemb size 0 h in
  match r with
  | (Ptr p, h) => OK (Ptr p, set_hstore (set_data (mm_memset0 p (ulong_wrap (size * nmemb)) (data (hstore h))) (hstore h)) h)
  | r => OK r
  end.

(** [strlen(s)]: all bytes up to the NUL must have been written. *)
Fixpoint mm_strlen (fuel : nat) (s : Z) (D : gmap Z Z) : outcome Z :=
  match fuel with
  | O => UB
  | S fuel =>
      let* c := rd (D !! s) in
      if c =? 0 then OK 0 else let* n := mm_strlen fuel (s + 1) D in OK (n + 1)
  end.

Definition _estrdup (s : Z) h : outcome (mm_result * zend_mm_heap) :=
  let* length := mm_strlen (size (data (hstore h))) s (data (hstore h)) in
  let* n := safe_address length 1 1 in
  let* r := _zend_mm_alloc_int n h in
  match r with
  | (Ptr p, h) => OK (Ptr p, set_hstore (set_data (mm_memcpy p s (length + 1) (data (hstore h))) (hstore h)) h)
  | r => OK r
  end.

(** _estrndup: [length] bytes from [s], and a NUL. *)
Definition _estrndup (s length : Z) h : outcome (mm_result * zend_mm_heap) :=
  let* n := safe_address length 1 1 in
  let* r := _zend_mm_alloc_int n h in
  match r with
  | (Ptr p, h) =>
      let D := mm_memcpy p s length (data (hstore h)) in
      OK (Ptr p, set_hstore (set_data (<[p + length := 0]> D) (hstore h)) h)
  | r => OK r
  end.

Definition zend_set_memory_limit (memory_limit : Z) h : zend_mm_heap :=
  set_limit (if block_size h <=? memory_limit then memory_limit else block_size h) h.
Definition zend_memory_usage (real_usage : bool) h : Z :=
  if real_usage then real_size h else ulong_wrap (heap_size h - cached h).
Definition zend_memory_peak_usage (real_usage : bool) h : Z :=
  if real_usage then real_peak h else peak h.
End storage.
