(* ===== verification/MmWf.v ===== *)
(** The invariant of blocks, tags and free lists, and how the elementary steps
    of the allocator's operations (taking a block from the lists, joining
    blocks, cutting one, entering it) act on it. *)

From S2P Require Import Prelude ZendMmTypes MmBits ZendMmFree MmTrie MmLists MmGeo.

(** The free blocks and their sizes. *)
Definition free_map (B : blocks) : gmap Z Z := omap (λ x, if x.2 : bool then None else Some x.1) B.

Lemma free_map_Some B a s : free_map B !! a = Some s ↔ B !! a = Some (s, false).
Proof.
  unfold free_map. rewrite lookup_omap_Some. split; [|intros; by exists (s, false)].
  intros ([t []] & ? & ?); simpl in *; [done|congruence].
Qed.
Lemma free_map_None B a : free_map B !! a = None ↔ ∀ s, B !! a ≠ Some (s, false).
Proof.
  destruct (free_map B !! a) as [s|] eqn:E.
  - apply free_map_Some in E. split; [done|]. intros H. by destruct (H s).
  - split; [|done]. intros _ s Hs%free_map_Some. congruence.
Qed.
Lemma free_map_delete B b : free_map (delete b B) = delete b (free_map B).
Proof. unfold free_map. by rewrite omap_delete. Qed.
Lemma free_map_insert_used B b s : free_map (<[b := (s, true)]> B) = delete b (free_map B).
Proof.
  apply map_eq. intros x. destruct (decide (b = x)) as [<-|Hne].
  - rewrite lookup_delete_eq. apply free_map_None. intros t. by rewrite lookup_insert_eq.
  - rewrite lookup_delete_ne by done. unfold free_map. by rewrite !lookup_omap, lookup_insert_ne.
Qed.
Lemma free_map_insert_free B b s : free_map (<[b := (s, false)]> B) = <[b := s]> (free_map B).
Proof. unfold free_map. by rewrite (omap_insert_Some _ _ _ _ s). Qed.
Lemma free_map_used B b : (∀ s, B !! b ≠ Some (s, false)) → free_map (delete b B) = free_map B.
Proof. intros Hb. rewrite free_map_delete. apply delete_id. by apply free_map_None. Qed.

(** A used block has no say in it. *)
Lemma coalesced_used B b s : coalesced (delete b B) → coalesced (<[b := (s, true)]> B).
Proof.
  intros Hc a c d v. destruct (decide (b = a)) as [<-|Ha]; [by rewrite lookup_insert_eq|rewrite lookup_insert_ne by done; intros Hac].
  destruct (decide (b = a + c)) as [<-|Hd]; [rewrite lookup_insert_eq; congruence|rewrite lookup_insert_ne by done; intros Had].
  eapply (Hc a c d); by rewrite lookup_delete_ne.
Qed.
Lemma coalesced_sub B B0 : B0 ⊆ B → coalesced B → coalesced B0.
Proof. intros Hs Hc a s t u Ha Ht. eapply Hc; by eapply lookup_weaken. Qed.

(** The invariant, and the invariant but for one block [b], the state and tags
    of which are not settled and which is in no list. *)
Record core (St : mm_store) (L : mm_lists) (B : blocks) : Prop := {
  co_geo : geo (regions St) B;
  co_tag : tagged St B;
  co_fl : fl St (free_map B) L;
  co_coal : coalesced B;
}.
Record core_but (b : Z) (St : mm_store) (L : mm_lists) (B : blocks) : Prop := {
  cb_geo : geo (regions St) B;
  cb_tag : tagged St (delete b B);
  cb_fl : fl St (free_map (delete b B)) L;
  cb_coal : coalesced (delete b B);
}.

(** The free lists only read the sizes of their own blocks. *)
Lemma fl_frame St St' F L : (∀ a s, F !! a = Some s → info_size St' !! a = info_size St !! a) → fl St F L → fl St' F L.
Proof.
  intros HS (sm & rs & tr & Hfl). exists sm, rs, tr. eapply flists_frame; try done.
Qed.
(** A function that enters the free block [b] in the lists. *)
Definition adds St b (f : mm_lists → outcome mm_lists) : Prop := ∀ F L s, fl St F L → F !! b = None → good_block St b s →
  ∃ L', f L = OK L' ∧ fl St (<[b := s]> F) L' ∧ prev_kept F b L L'.
Lemma adds_free St b : adds St b (zend_mm_add_to_free_list St b).
Proof.
  intros F L s (sm & rs & tr & Hf) Hb Hg. destruct (mm_add_to_free_list_spec _ _ _ _ _ _ b s Hf Hb Hg) as (L' & sm' & tr' & ? & ? & ?).
  exists L'. split_and!; [done| |done]. by exists sm', rs, tr'.
Qed.
Lemma adds_rest St b : adds St b (zend_mm_add_to_rest_list St b).
Proof. intros F L s. apply add_to_rest_list_spec. Qed.

Lemma prev_kept_trans F b F' b' L1 L2 L3 : prev_kept F b L1 L2 → prev_kept F' b' L2 L3 →
  ∀ a, F !! a = None → F' !! a = None → a ≠ b → a ≠ b' → prev_free_block L3 !! Blk a = prev_free_block L1 !! Blk a.
Proof. intros H1 H2 a ????. rewrite H2, H1; done. Qed.

Lemma core_core_but b St L B s : core St L B → B !! b = Some (s, true) → core_but b St L B.
Proof.
  intros [HG HT Hf Hc] Hb. assert (delete b B ⊆ B) by apply delete_subseteq. split; [done|by eapply tagged_sub| |by eapply coalesced_sub].
  rewrite free_map_used; [done|]. congruence.
Qed.

(** A free block leaves the lists. *)
Lemma core_take b St L B s : core St L B → B !! b = Some (s, false) →
  ∃ L', zend_mm_remove_from_free_list St b L = OK L' ∧ core_but b St L' B ∧ prev_kept (free_map B) b L L'.
Proof.
  intros [HG HT Hf Hc] Hb. assert (delete b B ⊆ B) by apply delete_subseteq.
  destruct (remove_from_free_list_spec _ _ _ b s Hf) as (L' & ? & ? & ?); [by apply free_map_Some|].
  exists L'. split_and!; try done. split; [done|by eapply tagged_sub| |by eapply coalesced_sub]. by rewrite free_map_delete.
Qed.

Section but.
Context (b : Z) (St : mm_store) (L : mm_lists) (B : blocks) (HC : core_but b St L B).
Context (s : Z) (u : bool) (Hb : B !! b = Some (s, u)).

Lemma but_good : b ≠ 0 ∧ 32 ≤ s < 2 ^ 64 ∧ (8 | s).
Proof using HC Hb. destruct (geo_pos (cb_geo _ _ _ _ HC) _ _ _ Hb) as (? & _ & ? & _ & ?). split_and!; done || lia. Qed.

(** The free block behind [b] joins it. *)
Lemma but_absorb_next t : B !! (b + s) = Some (t, false) →
  ∃ L', zend_mm_remove_from_free_list St (b + s) L = OK L' ∧ core_but b St L' (<[b := (s + t, u)]> (delete (b + s) B)) ∧
    prev_kept (free_map (delete b B)) (b + s) L L'.
Proof using HC Hb.
  intros Ht. destruct HC as [HG HT Hf Hc]. destruct but_good as (_ & ? & _).
  destruct (remove_from_free_list_spec _ _ _ (b + s) t Hf) as (L' & ? & Hf' & ?).
  { apply free_map_Some. rewrite lookup_delete_ne by lia. done. }
  exists L'. split_and!; try done.
  assert (delete b (<[b := (s + t, u)]> (delete (b + s) B)) = delete (b + s) (delete b B)) as E by (rewrite delete_insert_eq; apply delete_delete).
  assert (delete (b + s) (delete b B) ⊆ delete b B) by apply delete_subseteq.
  split; rewrite ?E; [by eapply geo_merge|by eapply tagged_sub| |by eapply coalesced_sub]. by rewrite free_map_delete.
Qed.

(** [b] joins the free block before it. *)
Lemma but_absorb_prev p t : B !! p = Some (t, false) → p + t = b →
  ∃ L', zend_mm_remove_from_free_list St p L = OK L' ∧ core_but p St L' (<[p := (t + s, u)]> (delete b B)) ∧
    prev_kept (free_map (delete b B)) p L L'.
Proof using HC Hb.
  intros Ht E. destruct HC as [HG HT Hf Hc]. destruct (geo_pos HG _ _ _ Ht) as (_ & _ & ? & _).
  destruct (remove_from_free_list_spec _ _ _ p t Hf) as (L' & ? & Hf' & ?).
  { apply free_map_Some. rewrite lookup_delete_ne by lia. done. }
  exists L'. split_and!; try done. rewrite <- E in Hb |- *.
  assert (delete p (<[p := (t + s, u)]> (delete (p + t) B)) = delete p (delete (p + t) B)) as Ed by apply delete_insert_eq.
  assert (delete p (delete (p + t) B) ⊆ delete (p + t) B) by apply delete_subseteq. rewrite <- E in HT, Hf, Hf', Hc.
  split; rewrite ?Ed; [by eapply geo_merge|by eapply tagged_sub| |by eapply coalesced_sub]. by rewrite free_map_delete.
Qed.

Lemma but_write (v : bool) : ZEND_MM_BLOCK b (if v then ZEND_MM_USED_BLOCK else ZEND_MM_FREE_BLOCK) s St = OK (write_tag b s v St).
Proof using HC Hb. destruct (mapped_block (cb_geo _ _ _ _ HC) _ _ _ Hb). apply block_write; [done..|]. apply but_good. Qed.

Lemma but_write_tagged (v : bool) : tagged (write_tag b s v St) (<[b := (s, v)]> B).
Proof using HC Hb.
  destruct HC as [HG HT Hf Hc]. eapply (tagged_write (geo_retag HG _ _ _ v Hb)); [exact HT|by rewrite lookup_insert_eq|].
  intros x w Hx. rewrite lookup_insert_ne, lookup_delete_ne by done. done.
Qed.
Lemma but_write_fl (v : bool) : fl (write_tag b s v St) (free_map (delete b B)) L.
Proof using HC.
  eapply fl_frame; [|exact (cb_fl _ _ _ _ HC)]. intros a t Ha. simpl. rewrite lookup_insert_ne; [done|].
  intros <-. rewrite free_map_delete, lookup_delete_eq in Ha. done.
Qed.

(** [b] becomes a used block. *)
Lemma but_used : core (write_tag b s true St) L (<[b := (s, true)]> B).
Proof using HC Hb.
  split; [simpl; eapply geo_retag; [apply HC|exact Hb]|apply but_write_tagged| |].
  - rewrite free_map_insert_used, <- free_map_delete. apply but_write_fl.
  - by apply coalesced_used, HC.
Qed.

(** [b] becomes a free block: it has no free neighbours. *)
Definition alone : Prop := (∀ p t, B !! p = Some (t, false) → p ≠ b → p + t ≠ b) ∧ ∀ t, B !! (b + s) ≠ Some (t, false).

Lemma but_free f : adds (write_tag b s false St) b f → alone → ∃ L', f L = OK L' ∧
  core (write_tag b s false St) L' (<[b := (s, false)]> B) ∧ prev_kept (free_map (delete b B)) b L L'.
Proof using HC Hb.
  intros Hf [Hp Hn]. destruct but_good as (? & ? & ?).
  destruct (Hf _ _ s (but_write_fl false)) as (L' & ? & Hf' & ?).
  { by rewrite free_map_delete, lookup_delete_eq. } { split; [simpl; by rewrite lookup_insert_eq|done]. }
  exists L'. split_and!; try done. split; [simpl; eapply geo_retag; [apply HC|exact Hb]|apply but_write_tagged| |].
  - rewrite free_map_insert_free. by rewrite free_map_delete, insert_delete_eq in Hf'.
  - intros a c d v. destruct (decide (b = a)) as [<-|Ha].
    + rewrite lookup_insert_eq. intros [= <-]. rewrite lookup_insert_ne by lia. destruct v; [done|]. by intros ?%Hn.
    + rewrite lookup_insert_ne by done. intros Hac. destruct (decide (b = a + c)) as [E|Hd]; [exfalso; by apply (Hp a c Hac); congruence|].
      rewrite lookup_insert_ne by done. intros Had. eapply (cb_coal _ _ _ _ HC a c d); by rewrite lookup_delete_ne.
Qed.

End but.

Section split.
Context (b : Z) (St : mm_store) (L : mm_lists) (B : blocks) (HC : core_but b St L B).
Context (s : Z) (u : bool) (Hb : B !! b = Some (s, u)).

(** [b] is cut: its first [t] bytes become a used block, the rest a free one. *)
Lemma split_facts t : 0 < t < s → B !! (b + t) = None ∧ (∀ x c d, x ≠ b → B !! x = Some (c, d) → x + c ≠ b + t) ∧
  (∀ r n, regions St !! r = Some n → b + t ≠ r + 16).
Proof using HC Hb.
  intros Ht. pose proof (cb_geo _ _ _ _ HC) as HG. split_and!; [eapply no_block_inside; eauto; lia|..].
  - intros x c d Hne Hx. destruct (geo_pos HG _ _ _ Hx) as (_ & _ & ? & _). destruct (g_disj _ _ HG _ _ _ _ _ _ Hx Hb); done || lia.
  - intros r n Hr E. destruct (g_in _ _ HG _ _ _ Hb) as (r' & n' & Hr' & ? & ?). pose proof (rw_pos _ (g_reg _ _ HG) _ _ Hr).
    assert (r = r') as -> by (eapply (region_of HG (b + t)); eauto; lia). lia.
Qed.

Lemma but_split_first t : 32 ≤ t → 32 ≤ s - t → (8 | t) →
  ZEND_MM_BLOCK b ZEND_MM_USED_BLOCK t St = OK (write_tag b t true St) ∧
  core_but (b + t) (write_tag b t true St) L (<[b + t := (s - t, false)]> (<[b := (t, true)]> B)).
Proof using HC Hb.
  intros Ht Hst H8. pose proof (cb_geo _ _ _ _ HC) as HG. destruct (split_facts t) as (Hn & Hend & Hfirst); [lia|]. split.
  { apply (block_write b t true); [by eapply mapped_block|eapply mapped_within; eauto; lia|done]. }
  assert (delete (b + t) (<[b + t := (s - t, false)]> (<[b := (t, true)]> B)) = <[b := (t, true)]> B) as E.
  { rewrite delete_insert_eq. apply delete_id. rewrite lookup_insert_ne by lia. done. }
  split; rewrite ?E; [by eapply geo_split| | |by apply coalesced_used, HC].
  - eapply tagged_write_gen; [exact (cb_tag _ _ _ _ HC)|by rewrite lookup_insert_eq|..|exact Hfirst|].
    + intros x v Hx. by rewrite lookup_insert_ne, lookup_delete_ne.
    + intros x c d Hx. rewrite lookup_insert_ne by done. by apply Hend.
    + intros r n Hr. by eapply (block_not_guard HG).
  - rewrite free_map_insert_used, <- free_map_delete. eapply fl_frame; [|exact (cb_fl _ _ _ _ HC)]. intros a c Ha. simpl.
    rewrite lookup_insert_ne; [done|]. intros <-. rewrite free_map_delete, lookup_delete_eq in Ha. done.
Qed.

Lemma but_split t : 32 ≤ t → 32 ≤ s - t → (8 | t) → (∀ c, B !! (b + s) ≠ Some (c, false)) →
  let St1 := write_tag b t true St in let St2 := write_tag (b + t) (s - t) false St1 in
  let B' := <[b + t := (s - t, false)]> (<[b := (t, true)]> B) in
  ZEND_MM_BLOCK b ZEND_MM_USED_BLOCK t St = OK St1 ∧ ZEND_MM_BLOCK (b + t) ZEND_MM_FREE_BLOCK (s - t) St1 = OK St2 ∧
  ∀ f, adds St2 (b + t) f → ∃ L', f L = OK L' ∧ core St2 L' B' ∧ prev_kept (free_map (delete b B)) (b + t) L L'.
Proof using HC Hb.
  intros Ht Hst H8 Hn St1 St2 B'. destruct (but_split_first t) as [HS1 HC1]; [done..|]. split; [done|]. fold St1 B' in HC1.
  destruct (split_facts t) as (HBt & Hend & _); [lia|].
  assert (B' !! (b + t) = Some (s - t, false)) as HB' by apply lookup_insert_eq. 
  assert (free_map (delete (b + t) B') = free_map (delete b B)) as E.
  { unfold B'. rewrite delete_insert_eq, delete_id by (rewrite lookup_insert_ne by lia; done). by rewrite free_map_insert_used, free_map_delete. }
  split; [exact (but_write _ _ _ _ HC1 _ _ HB' false)|]. intros f Hf.
  destruct (but_free _ _ _ _ HC1 _ _ HB' f Hf) as (L' & ? & Hc & Hk).
  - split.
    + intros p c. unfold B'. destruct (decide (b = p)) as [<-|]; [rewrite lookup_insert_ne, lookup_insert_eq by lia; congruence|].
      intros Hp Hne. rewrite !lookup_insert_ne in Hp by done. by eapply Hend.
    + intros c. replace (b + t + (s - t)) with (b + s) by lia. unfold B'. rewrite !lookup_insert_ne by lia. apply Hn.
  - exists L'. rewrite E in Hk. split_and!; [done| |done]. unfold B' in Hc. by rewrite insert_insert_eq in Hc.
Qed.
End split.

