(* ===== verification/MmSegs.v ===== *)
(** Segments: the list of segments, and how the invariant of blocks changes
    when a segment is entered, given back or reallocated. *)

From S2P Require Import Prelude ZendMmTypes MmBits ZendMmFree MmTrie MmLists MmGeo MmWf.

(** * New, freed and moved segments *)

(** Blocks stay clear of memory that is no region's. *)
Lemma clear_of R B p n a s u : geo R B → region_ok R p n → B !! a = Some (s, u) → a + s + 16 ≤ p ∨ p + n ≤ a.
Proof.
  intros HG (_ & _ & _ & Hd) Ha. destruct (g_in _ _ HG _ _ _ Ha) as (r & m & Hr & ? & ?).
  pose proof (Hd _ _ Hr) as [?|?]; simpl in *; lia.
Qed.

(** Tags and free lists do not depend on what lies outside the regions. *)
Lemma tagged_frame R B St St' p n : geo R B → region_ok R p n →
  (∀ x, x < p ∨ p + n ≤ x → info_size St' !! x = info_size St !! x) →
  (∀ x, x < p ∨ p + n ≤ x → info_prev St' !! x = info_prev St !! x) →
  tagged (set_regions R St) B → tagged (set_regions R St') B.
Proof.
  intros HG Hok H1 H2 [T1 T2 T3 T4]. pose proof Hok as (_ & _ & _ & Hd). split; simpl in *.
  - intros a s u Ha. destruct (geo_pos HG _ _ _ Ha) as (_ & _ & ? & _). rewrite H1 by (destruct (clear_of _ _ _ _ _ _ _ HG Hok Ha); lia). by apply T1.
  - intros a s u Ha. destruct (geo_pos HG _ _ _ Ha) as (_ & _ & ? & _). rewrite H2 by (destruct (clear_of _ _ _ _ _ _ _ HG Hok Ha); lia). by apply T2.
  - intros r m Hr. destruct (rw_pos _ (g_reg _ _ HG) _ _ Hr) as (_ & _ & ? & _). rewrite H2 by (pose proof (Hd _ _ Hr) as [?|?]; simpl in *; lia). by eapply T3.
  - intros r m Hr. destruct (rw_pos _ (g_reg _ _ HG) _ _ Hr) as (_ & _ & ? & _). rewrite H1 by (pose proof (Hd _ _ Hr) as [?|?]; simpl in *; lia). by eapply T4.
Qed.
Lemma fl_clear R B St St' L p n : geo R B → region_ok R p n →
  (∀ x, x < p ∨ p + n ≤ x → info_size St' !! x = info_size St !! x) → fl St (free_map B) L → fl St' (free_map B) L.
Proof.
  intros HG Hok H1. apply fl_frame. intros a s Ha%free_map_Some. destruct (geo_pos HG _ _ _ Ha) as (_ & _ & ? & _).
  apply H1. destruct (clear_of _ _ _ _ _ _ _ HG Hok Ha); lia.
Qed.

(** A region becomes a segment with one block, which belongs to nobody yet. *)
Lemma segment_entered R B St L p n : geo R B → region_ok R p n → 64 ≤ n → (8 | n) →
  tagged (set_regions R St) B → fl St (free_map B) L → coalesced B → regions St = <[p := n]> R →
  info_prev St !! (p + 16) = Some 3 → info_size St !! (p + n - 16) = Some 19 →
  core_but (p + 16) St L (<[p + 16 := (n - 32, true)]> B).
Proof.
  intros HG Hok Hn H8 [T1 T2 T3 T4] Hf Hc HR Hp Hg.
  assert (B !! (p + 16) = None) as HB.
  { destruct (B !! (p + 16)) as [[s u]|] eqn:E; [|done]. destruct (geo_pos HG _ _ _ E) as (_ & _ & ? & _). destruct (clear_of _ _ _ _ _ _ _ HG Hok E); lia. }
  split; rewrite ?HR, ?delete_insert_id by done; try done; [by apply geo_new|].
  split; try done; simpl in *; rewrite HR; intros r m; rewrite lookup_insert_Some; intros [[<- <-]|[_ Hr]]; eauto.
Qed.

(** A segment with a single block is given back. *)
Lemma segment_freed St St' L B r n u : core_but (r + 16) St L B → B !! (r + 16) = Some (n - 32, u) → regions St !! r = Some n →
  regions St' = regions St → info_size St' = info_size St → info_prev St' = info_prev St →
  core (wipe_store r n St') (wipe_lists r n L) (delete (r + 16) B) ∧
  ∀ a t v, delete (r + 16) B !! a = Some (t, v) → prev_free_block (wipe_lists r n L) !! Blk a = prev_free_block L !! Blk a.
Proof.
  intros [HG [T1 T2 T3 T4] Hf Hc] Hb Hr E1 E2 E3. pose proof (geo_del HG r n _ _ Hr Hb eq_refl) as HG'.
  pose proof (rw_pos _ (g_reg _ _ HG) _ _ Hr) as Hrp.
  assert (∀ r' m, delete r (regions St) !! r' = Some m → r + n ≤ r' ∨ r' + m ≤ r) as Hd.
  { intros r' m. rewrite lookup_delete_Some. intros [? Hr']. by apply (rw_disj _ (g_reg _ _ HG) _ _ _ _ Hr Hr'). }
  assert (∀ a t v, delete (r + 16) B !! a = Some (t, v) → (r + n ≤ a ∨ a + t + 16 ≤ r) ∧ 32 ≤ t) as Hclear.
  { intros a t v Ha. destruct (g_in _ _ HG' _ _ _ Ha) as (r' & m & Hr' & ? & ?). destruct (geo_pos HG' _ _ _ Ha) as (_ & _ & ? & _).
    destruct (Hd _ _ Hr'); lia. }
  assert (∀ A (M : gmap Z A) x, x < r ∨ r + n ≤ x → wipe r n M !! x = M !! x) as Hw.
  { intros A M x Hx. apply option_eq. intros v. rewrite map_lookup_filter_Some. unfold outside. simpl. naive_solver. }
  assert (∀ x, fptr_outside r n x → ∀ M : gmap fptr fptr, filter (λ kv, fptr_outside r n kv.1) M !! x = M !! x) as Hwf.
  { intros x Hx M. apply option_eq. intros v. rewrite map_lookup_filter_Some. naive_solver. }
  assert (∀ x, cell_outside r n x → ∀ M : gmap cell Z, filter (λ kv, cell_outside r n kv.1) M !! x = M !! x) as Hwc.
  { intros x Hx M. apply option_eq. intros v. rewrite map_lookup_filter_Some. naive_solver. }
  split.
  2:{ intros a t v Ha. simpl. apply Hwf. simpl. unfold outside. pose proof (Hclear _ _ _ Ha). lia. }
  split; [simpl; by rewrite E1| | |done].
  - split; simpl; rewrite ?E1, ?E2, ?E3.
    + intros a s v Ha. rewrite Hw by (pose proof (Hclear _ _ _ Ha); lia). by apply T1.
    + intros a s v Ha. rewrite Hw by (pose proof (Hclear _ _ _ Ha); lia). by apply T2.
    + intros r' m Hr'. pose proof (Hd _ _ Hr'). pose proof (rw_pos _ (g_reg _ _ HG') _ _ Hr'). rewrite Hw by lia. apply lookup_delete_Some in Hr' as [_ Hr']. by eapply T3.
    + intros r' m Hr'. pose proof (Hd _ _ Hr'). pose proof (rw_pos _ (g_reg _ _ HG') _ _ Hr'). rewrite Hw by lia. apply lookup_delete_Some in Hr' as [_ Hr']. by eapply T4.
  - destruct Hf as (sm & rs & tr & Hf). exists sm, rs, tr. eapply flists_frame; [..|exact Hf]; try done.
    + intros a s Ha%free_map_Some. simpl. rewrite E2. apply Hw. pose proof (Hclear _ _ _ Ha). lia.
    + intros a s Ha%free_map_Some. pose proof (Hclear _ _ _ Ha). assert (outside r n a) by (unfold outside; lia).
      unfold same_at. simpl. split_and!; [by apply Hwf|by apply Hwf|by apply Hw|intros k; by apply Hwc].
    + intros i. simpl. by apply Hwc.
    + intros k Hk. assert (fptr_outside r n k) by (destruct k; try done; by destruct (Hk a)). split; by apply Hwf.
Qed.

(** ** realloc of a region *)

#[export] Instance add_inj k : Inj (=) (=) (Z.add k).
Proof. intros x y. lia. Qed.

Lemma relocate_out {A} p m q n (M : gmap Z A) x : x < q ∨ q + Z.min m n ≤ x → relocate p m q n M !! x = wipe p m M !! x.
Proof.
  intros Hx. unfold relocate. apply lookup_union_r. apply lookup_kmap_None; [apply _|]. intros i ->.
  apply map_lookup_filter_None. right. intros v _ Hv. apply Hv. unfold outside. simpl. lia.
Qed.
Lemma relocate_in {A} p m q n (M : gmap Z A) x v : q ≤ x < q + Z.min m n → M !! (x - q + p) = Some v →
  relocate p m q n M !! x = Some v.
Proof.
  intros Hx Hv. unfold relocate. apply lookup_union_Some_l. apply lookup_kmap_Some; [apply _|].
  exists (x - q + p). split; [lia|]. apply map_lookup_filter_Some. split; [done|]. unfold outside. simpl. lia.
Qed.

(** A segment with a single block is reallocated. *)
Lemma segment_moved St St' L B p m q n u : core_but (p + 16) St L B → B !! (p + 16) = Some (m - 32, u) → regions St !! p = Some m →
  region_ok (delete p (regions St)) q n → 64 ≤ n → (8 | n) → regions St' = <[q := n]> (delete p (regions St)) →
  (∀ x, x < q ∨ q + n ≤ x → info_size St' !! x = relocate p m q n (info_size St) !! x) →
  (∀ x, x < q ∨ q + n ≤ x → info_prev St' !! x = relocate p m q n (info_prev St) !! x) →
  info_prev St' !! (q + 16) = Some 3 → info_size St' !! (q + n - 16) = Some 19 →
  core_but (q + 16) St' (wipe_lists p m L) (<[q + 16 := (n - 32, true)]> (delete (p + 16) B)).
Proof.
  intros HC Hb Hp Hok Hn H8 HR H1 H2 Hf Hg.
  destruct (segment_freed _ St _ _ _ _ _ HC Hb Hp) as ([HG HT Hfl Hc] & _); [done..|]. simpl in HG.
  apply (segment_entered (delete p (regions St))); try done.
  - eapply (tagged_frame _ _ (wipe_store p m St) _ q n); try done; intros x Hx; simpl.
    + rewrite H1 by done. apply relocate_out. lia.
    + rewrite H2 by done. apply relocate_out. lia.
  - eapply (fl_clear _ _ (wipe_store p m St) _ _ q n); try done. intros x Hx. simpl. rewrite H1 by done. apply relocate_out. lia.
Qed.

(** * The list of segments *)

(** The links, with the head of the list as the link of 0. *)
Abbreviation links x St := (<[0 := x]> (seg_next St)).
Fixpoint seg_path (M : gmap Z Z) (slot : Z) (l : list Z) : Prop :=
  match l with
  | [] => M !! slot = Some 0
  | r :: l => M !! slot = Some r ∧ seg_path M r l
  end.

(** [l] are the segments, in the order of the list that starts at [x]. *)
Record segs (St : mm_store) (x : Z) (l : list Z) : Prop := {
  sg_path : seg_path (links x St) 0 l;
  sg_nodup : NoDup l;
  sg_dom : ∀ r, r ∈ l ↔ is_Some (regions St !! r);
  sg_size : ∀ r, r ∈ l → seg_size St !! r = regions St !! r;
}.

(** The segment before [r] in the list [l] behind [slot]. *)
Fixpoint seg_before (slot : Z) (l : list Z) (r : Z) : Z :=
  match l with
  | [] => slot
  | q :: l => if decide (q = r) then slot else seg_before q l r
  end.
Lemma seg_before_in slot l r : seg_before slot l r ∈ slot :: l.
Proof.
  revert slot. induction l as [|q l IH]; intros slot; simpl; [by left|]. destruct (decide (q = r)); [by left|]. right. apply IH.
Qed.

Lemma seg_path_frame M M' slot l : (∀ q, q ∈ slot :: l → M' !! q = M !! q) → seg_path M slot l → seg_path M' slot l.
Proof.
  revert slot. induction l as [|r l IH]; intros slot Hq; simpl; [rewrite Hq; [done|by left]|]. intros [? ?].
  split; [rewrite Hq; [done|by left]|]. apply IH; [|done]. intros q ?. apply Hq. by right.
Qed.
Lemma seg_path_live M slot l q : seg_path M slot l → q ∈ slot :: l → is_Some (M !! q).
Proof.
  revert slot. induction l as [|r l IH]; intros slot; simpl.
  - intros H ->%list_elem_of_singleton. eauto.
  - intros [? ?] [->|?]%elem_of_cons; eauto.
Qed.

(** [*p = segment->next_segment] *)
Lemma seg_path_unlink M slot l r y : seg_path M slot l → NoDup (slot :: l) → r ∈ l → M !! r = Some y →
  seg_path (<[seg_before slot l r := y]> M) slot (filter (.≠ r) l).
Proof.
  revert slot. induction l as [|q l IH]; intros slot; [by intros _ _ ?%elem_of_nil|]. simpl. intros [Hq Hl] [Hs Hnd]%NoDup_cons Hr Hy.
  pose proof Hnd as [Hql _]%NoDup_cons. rewrite filter_cons. destruct (decide (q = r)) as [->|Hne].
  - rewrite decide_False by (intros H; by apply H).
    assert (filter (.≠ r) l = l) as ->. { clear -Hql. induction l as [|z l IH]; [done|]. apply not_elem_of_cons in Hql as [? ?]. rewrite filter_cons, decide_True by done. f_equal. auto. }
    destruct l as [|z l]; simpl in *; [rewrite lookup_insert_eq; congruence|]. destruct Hl as [? Hl]. rewrite lookup_insert_eq. split; [congruence|].
    eapply seg_path_frame; [|exact Hl]. intros w Hw. rewrite lookup_insert_ne; [done|]. intros ->. apply Hs. by right.
  - rewrite decide_True by done. apply elem_of_cons in Hr as [?|Hr]; [done|]. simpl. split; [|by apply IH].
    rewrite lookup_insert_ne; [done|]. intros E. pose proof (seg_before_in q l r) as Hin. rewrite E in Hin. done.
Qed.
(** [*p = segment] for a segment that has moved from [r] to [r']. *)
Lemma seg_path_replace M M' slot l r r' : seg_path M slot l → NoDup (slot :: l) → r ∈ l → (r' ∉ slot :: filter (.≠ r) l) → M' !! r' = M !! r →
  (∀ q, q ∈ slot :: l → q ≠ r → M' !! q = M !! q) →
  seg_path (<[seg_before slot l r := r']> M') slot (map (λ q, if decide (q = r) then r' else q) l).
Proof.
  revert slot. induction l as [|q l IH]; intros slot; [by intros _ _ ?%elem_of_nil|]. simpl. intros [Hq Hl] [Hs Hnd]%NoDup_cons Hr Hr' HM Hfr.
  pose proof Hnd as [Hql _]%NoDup_cons. rewrite filter_cons in Hr'. destruct (decide (q = r)) as [->|Hne].
  - rewrite decide_False in Hr' by (intros H; by apply H). rewrite lookup_insert_eq. split; [done|].
    assert (filter (.≠ r) l = l ∧ map (λ q, if decide (q = r) then r' else q) l = l) as [E1 E2].
    { clear -Hql. induction l as [|z l IH]; [done|]. apply not_elem_of_cons in Hql as [? ?]. destruct IH as [IH1 IH2]; [done|].
      rewrite filter_cons, decide_True by done. simpl. rewrite decide_False by done. split; f_equal; done. }
    rewrite E1 in Hr'. rewrite E2. apply not_elem_of_cons in Hr' as [? ?].
    assert (∀ w, w ∈ l → <[slot := r']> M' !! w = M !! w) as Hw.
    { intros w Hw. rewrite lookup_insert_ne by (intros ->; apply Hs; by right). apply Hfr; [right; by right|]. by intros ->. }
    destruct l as [|z l]; simpl in *; rewrite lookup_insert_ne by done; [congruence|]. destruct Hl. split; [congruence|].
    eapply seg_path_frame; [|done]. intros w ?. by apply Hw.
  - rewrite decide_True in Hr' by done. apply elem_of_cons in Hr as [?|Hr]; [done|]. apply not_elem_of_cons in Hr' as [? Hr']. split.
    + rewrite lookup_insert_ne; [rewrite Hfr; [done|by left|]|]; [intros ->; apply Hs; by right|].
      intros E. pose proof (seg_before_in q l r) as Hin. rewrite E in Hin. done.
    + apply IH; try done. intros w Hw. apply Hfr. by right.
Qed.

(** A new segment comes to the head of the list. *)
Lemma segs_entered St St' x l p n : segs St x l → 0 ∉ l → regions St !! p = None → 0 < p → regions St' = <[p := n]> (regions St) →
  seg_size St' = <[p := n]> (seg_size St) → seg_next St' = <[p := x]> (seg_next St) → segs St' p (p :: l).
Proof.
  intros [Hp Hnd Hd Hs] H0 HR Hpos E1 E2 E3. assert (p ∉ l) as Hpl by (rewrite Hd, HR; by intros [? ?]).
  assert (∀ z, z ∈ l → links p St' !! z = links x St !! z) as Hl.
  { intros z Hz. rewrite E3, !lookup_insert_ne; [done|by intros <-..]. }
  split.
  - simpl. rewrite lookup_insert_eq. split; [done|]. destruct l as [|q l]; simpl in *.
    + rewrite E3, lookup_insert_ne, lookup_insert_eq by lia. by rewrite lookup_insert_eq in Hp.
    + destruct Hp as [Hq Hp]. rewrite lookup_insert_eq in Hq. rewrite E3, lookup_insert_ne, lookup_insert_eq by lia. split; [done|].
      rewrite <- E3. eapply seg_path_frame; [|exact Hp]. apply Hl.
  - by apply NoDup_cons.
  - intros r. rewrite elem_of_cons, Hd, E1, lookup_insert_is_Some. destruct (decide (p = r)); naive_solver.
  - intros r. rewrite elem_of_cons, E1, E2. intros [->|Hr]; [by rewrite !lookup_insert_eq|]. rewrite !lookup_insert_ne by (by intros <-). by apply Hs.
Qed.

Lemma wipe_elsewhere (R : gmap Z Z) (M : gmap Z Z) r n q m : regions_wf R → R !! r = Some n → R !! q = Some m → q ≠ r → ∀ x, q ≤ x < q + m →
  wipe r n M !! x = M !! x.
Proof.
  intros HR Hr Hq Hne x Hx. apply option_eq. intros v. rewrite map_lookup_filter_Some. simpl. split; [by intros [? _]|]. intros Hv. split; [done|].
  destruct (rw_disj _ HR _ _ _ _ Hr Hq); [done|unfold outside; lia..].
Qed.
(** The list of segments without the one that is freed. *)
Lemma segs_freed St St1 x x1 l r n : regions_wf (regions St) → segs St x l → regions St !! r = Some n →
  seg_path (links x1 St1) 0 (filter (.≠ r) l) → seg_size St1 = seg_size St → regions St1 = regions St →
  segs (wipe_store r n St1) x1 (filter (.≠ r) l).
Proof.
  intros HR Hsl Hr Hpath E1 E2.
  assert (∀ q, q ∈ filter (.≠ r) l → ∀ M : gmap Z Z, wipe r n M !! q = M !! q) as Hw.
  { intros q [? [m Hm]%(sg_dom _ _ _ Hsl)]%list_elem_of_filter M. pose proof (rw_pos _ HR _ _ Hm). eapply (wipe_elsewhere (regions St) M); try done. lia. }
  split.
  - eapply seg_path_frame; [|exact Hpath]. intros q Hq. simpl. destruct (decide (0 = q)) as [<-|]; [by rewrite !lookup_insert_eq|].
    rewrite !lookup_insert_ne by done. apply Hw. by apply elem_of_cons in Hq as [?|?].
  - apply NoDup_filter, Hsl.
  - intros q. rewrite list_elem_of_filter. simpl. rewrite E2, lookup_delete_is_Some, (sg_dom _ _ _ Hsl). naive_solver.
  - intros q Hq. simpl. rewrite Hw, E1, E2 by done. apply list_elem_of_filter in Hq as [? ?]. by rewrite lookup_delete_ne, (sg_size _ _ _ Hsl).
Qed.
