(* ===== verification/MmInv.v ===== *)
(** The invariant of a heap of the memory manager, and the elementary steps on
    blocks as steps on heaps. *)

From S2P Require Import Prelude ZendMmTypes MmBits ZendMmFree MmTrie MmLists MmGeo MmWf MmSegs ZendAlloc.

(** The chain of a cache bucket, through the [prev_free_block] fields. *)
Fixpoint cchain (pf : gmap fptr fptr) (x : fptr) (l : list Z) : Prop :=
  match l with
  | [] => x = Null
  | b :: l => x = Blk b ∧ ∃ y, pf !! Blk b = Some y ∧ cchain pf y l
  end.
Lemma cchain_frame pf pf' x l : (∀ b, b ∈ l → pf' !! Blk b = pf !! Blk b) → cchain pf x l → cchain pf' x l.
Proof.
  revert x. induction l as [|b l IH]; intros x Hb; simpl; [done|]. intros (-> & y & Hy & Hl). split; [done|].
  exists y. rewrite Hb by by left. split; [done|]. apply IH; [|done]. intros c ?. apply Hb. by right.
Qed.

(** The bytes obtained from the storage layer. *)
Definition total (R : gmap Z Z) : Z := map_fold (λ _ n t, n + t) 0 R.
Lemma total_insert R p n : R !! p = None → total (<[p := n]> R) = n + total R.
Proof. intros Hp. apply (map_fold_insert_L (λ _ n t, n + t) 0 p n R); [|done]. intros. lia. Qed.
Lemma total_delete R p n : R !! p = Some n → total R = n + total (delete p R).
Proof. intros Hp. rewrite <- (total_insert (delete p R) p n) by apply lookup_delete_eq. by rewrite insert_delete_eq, insert_id. Qed.
Lemma total_empty : total ∅ = 0.
Proof. done. Qed.

(** [C i] are the blocks in the cache bucket [i], newest first, and [K i] is the
    head of its chain: [heap->cache[i]], except while zend_mm_free_cache empties
    the bucket. *)
Definition in_cache (C : Z → list Z) (b : Z) : Prop := ∃ i, 0 ≤ i < 64 ∧ b ∈ C i.

Record mm_side (h : zend_mm_heap) (B : blocks) (C : Z → list Z) (K : gmap Z fptr) : Prop := {
  ms_segs : ∃ sl, segs (hstore h) (segments_list h) sl;
  ms_cache : ∀ i, 0 ≤ i < 64 → ∃ x, K !! i = Some x ∧ cchain (prev_free_block (hlists h)) x (C i);
  ms_cached : ∀ i b, 0 ≤ i < 64 → b ∈ C i → ∃ s, B !! b = Some (s, true) ∧ s < 544 ∧ ZEND_MM_BUCKET_INDEX s = i;
  ms_nodup : ∀ i, 0 ≤ i < 64 → NoDup (C i);
  ms_bs : ∃ k, 5 ≤ k ≤ 62 ∧ block_size h = 2 ^ k;
  ms_real : real_size h = ulong_wrap (total (regions (hstore h)));
}.
Record mm_inv (h : zend_mm_heap) (B : blocks) (C : Z → list Z) (K : gmap Z fptr) : Prop := {
  mi_core : core (hstore h) (hlists h) B;
  mi_side : mm_side h B C K;
}.
(** The same, but for a block that is in nobody's hands. *)
Record mm_but (b : Z) (h : zend_mm_heap) (B : blocks) (C : Z → list Z) (K : gmap Z fptr) : Prop := {
  mb_core : core_but b (hstore h) (hlists h) B;
  mb_side : mm_side h B C K;
  mb_out : ¬ in_cache C b;
}.

(** The fields the elementary steps leave alone. *)
Definition fields h := (segments_list h, block_size h, real_size h).

Lemma side_frame h h' B B' C K : mm_side h B C K → same_rest (hstore h) (hstore h') → fields h' = fields h →
  (∀ a s, in_cache C a → B !! a = Some (s, true) → B' !! a = Some (s, true) ∧ prev_free_block (hlists h') !! Blk a = prev_free_block (hlists h) !! Blk a) →
  mm_side h' B' C K.
Proof.
  intros [(sl & [Hp Hn Hd Hs]) Hc Hcd Hnd Hk Hr] (E1 & E2 & E3 & _) F Ha. unfold fields in F. injection F as F2 F3 F4.
  split; rewrite ?F3, ?F4, ?E1; try done.
  - exists sl. split; rewrite ?F2, ?E1, ?E2, ?E3; done.
  - intros i Hi. destruct (Hc i Hi) as (x & Hx & Hch). exists x. split; [done|]. eapply cchain_frame; [|exact Hch].
    intros b Hb. destruct (Hcd i b Hi Hb) as (s & HB & _). apply (Ha b s); [by exists i|done].
  - intros i b Hi Hb. destruct (Hcd i b Hi Hb) as (s & HB & ? & ?). exists s. split; [|done]. apply Ha; [by exists i|done].
Qed.

(** A step on the lists. *)
Lemma side_lists h L' F b B B' C K : mm_side h B C K → prev_kept F b (hlists h) L' →
  (∀ a s, in_cache C a → B !! a = Some (s, true) → F !! a = None ∧ a ≠ b ∧ B' !! a = Some (s, true)) → mm_side (set_hlists L' h) B' C K.
Proof.
  intros Hs Hk Ha. eapply side_frame; [exact Hs|done|done|]. intros a s Hc HB. destruct (Ha a s Hc HB) as (? & ? & ?).
  split; [done|]. simpl. by apply Hk.
Qed.

(** The invariant does not depend on the other fields. *)
Lemma inv_frame h h' B C K : hstore h' = hstore h → hlists h' = hlists h → fields h' = fields h → mm_inv h B C K → mm_inv h' B C K.
Proof.
  intros E1 E2 F [Hc Hs]. split; [by rewrite E1, E2|]. eapply side_frame; [exact Hs|by rewrite E1|done|]. by rewrite E2.
Qed.

Lemma on_lists_OK f h L' : f (hstore h) (hlists h) = OK L' → on_lists f h = OK (set_hlists L' h).
Proof. intros E. unfold on_lists. by rewrite E. Qed.
Lemma on_store_OK f h St' : f (hstore h) = OK St' → on_store f h = OK (set_hstore St' h).
Proof. intros E. unfold on_store. by rewrite E. Qed.

Section steps.
Context (b : Z) (h : zend_mm_heap) (B : blocks) (C : Z → list Z) (K : gmap Z fptr).

Lemma mm_take s : mm_inv h B C K → B !! b = Some (s, false) →
  ∃ L', remove_from_free_list b h = OK (set_hlists L' h) ∧ mm_but b (set_hlists L' h) B C K.
Proof.
  intros [Hc Hs] Hb. destruct (core_take _ _ _ _ _ Hc Hb) as (L' & HL & Hc' & Hk). exists L'.
  split; [by apply on_lists_OK|]. split; [done| |].
  - eapply side_lists; [exact Hs|exact Hk|]. intros a t _ Ha. split_and!; [|congruence|done]. apply free_map_None. congruence.
  - intros (i & Hi & Hbi). destruct (ms_cached _ _ _ _ Hs _ _ Hi Hbi) as (? & ? & _). congruence.
Qed.
Lemma mm_open s : mm_inv h B C K → B !! b = Some (s, true) → ¬ in_cache C b → mm_but b h B C K.
Proof. intros [Hc Hs] Hb Hn. split; [by eapply core_core_but|done|done]. Qed.

Context (HC : mm_but b h B C K) (s : Z) (u : bool) (Hb : B !! b = Some (s, u)).

(** The cached blocks are used ones, and not [b]. *)
Lemma but_cached a t : in_cache C a → a ≠ b ∧ (B !! a = Some (t, true) → free_map (delete b B) !! a = None).
Proof using HC.
  intros Ha. split; [by intros ->; apply (mb_out _ _ _ _ _ HC)|]. intros HB. apply free_map_None. intros s' Hs'.
  rewrite lookup_delete_Some in Hs'. destruct Hs' as [_ Hs']. congruence.
Qed.

Lemma mm_absorb_next t : B !! (b + s) = Some (t, false) →
  ∃ L', remove_from_free_list (b + s) h = OK (set_hlists L' h) ∧
    mm_but b (set_hlists L' h) (<[b := (s + t, u)]> (delete (b + s) B)) C K.
Proof using HC Hb.
  intros Ht. destruct HC as [Hc Hs Hn]. destruct (but_absorb_next _ _ _ _ Hc _ _ Hb _ Ht) as (L' & HL & Hc' & Hk). exists L'.
  split; [by apply on_lists_OK|]. split; [done| |done]. eapply side_lists; [exact Hs|exact Hk|]. intros a c Ha HB.
  destruct (but_cached _ c Ha) as [Hne Hf]. assert (a ≠ b + s) by congruence. split_and!; [by apply Hf|done|].
  by rewrite lookup_insert_ne, lookup_delete_ne by done.
Qed.
Lemma mm_absorb_prev p t : B !! p = Some (t, false) → p + t = b →
  ∃ L', remove_from_free_list p h = OK (set_hlists L' h) ∧ mm_but p (set_hlists L' h) (<[p := (t + s, u)]> (delete b B)) C K.
Proof using HC Hb.
  intros Ht E. destruct HC as [Hc Hs Hn]. destruct (but_absorb_prev _ _ _ _ Hc _ _ Hb _ _ Ht E) as (L' & HL & Hc' & Hk). exists L'.
  split; [by apply on_lists_OK|]. split; [done| |].
  - eapply side_lists; [exact Hs|exact Hk|]. intros a c Ha HB.
    destruct (but_cached _ c Ha) as [Hne Hf]. assert (a ≠ p) by congruence. split_and!; [by apply Hf|done|].
    by rewrite lookup_insert_ne, lookup_delete_ne by done.
  - intros (i & Hi & Hpi). destruct (ms_cached _ _ _ _ Hs _ _ Hi Hpi) as (? & ? & _). congruence.
Qed.

Lemma mm_rewrite v : mm_but b (set_hstore (write_tag b s v (hstore h)) h) B C K.
Proof using HC Hb.
  destruct HC as [Hc Hs Hn]. split; [|eapply side_frame; [exact Hs|done..|auto]|done]. simpl. split; [apply Hc| | |apply Hc].
  - eapply tagged_sub; [|exact (but_write_tagged _ _ _ _ Hc _ _ Hb v)]. apply map_subseteq_spec. intros x w [? ?]%lookup_delete_Some.
    by rewrite lookup_insert_ne.
  - apply (but_write_fl _ _ _ _ Hc).
Qed.

(** [b] becomes a used block. *)
Lemma mm_used : on_store (ZEND_MM_BLOCK b ZEND_MM_USED_BLOCK s) h = OK (set_hstore (write_tag b s true (hstore h)) h) ∧
  mm_inv (set_hstore (write_tag b s true (hstore h)) h) (<[b := (s, true)]> B) C K.
Proof using HC Hb.
  destruct HC as [Hc Hs Hn]. split; [apply on_store_OK, (but_write _ _ _ _ Hc _ _ Hb true)|]. split; [by eapply but_used|].
  eapply side_frame; [exact Hs|done|done|]. intros a c Ha HB. destruct (but_cached _ c Ha) as [Hne _]. split; [|done]. by rewrite lookup_insert_ne.
Qed.

(** [b] becomes a free block. *)
Lemma mm_free : alone b B s →
  let h1 := set_hstore (write_tag b s false (hstore h)) h in
  on_store (ZEND_MM_BLOCK b ZEND_MM_FREE_BLOCK s) h = OK h1 ∧
  ∃ L', add_to_free_list b h1 = OK (set_hlists L' h1) ∧ mm_inv (set_hlists L' h1) (<[b := (s, false)]> B) C K.
Proof using HC Hb.
  intros Hal. destruct HC as [Hc Hs Hn]. split; [apply on_store_OK, (but_write _ _ _ _ Hc _ _ Hb false)|].
  destruct (but_free _ _ _ _ Hc _ _ Hb _ (adds_free _ _) Hal) as (L' & HL & Hc' & Hk). exists L'. split; [by apply on_lists_OK|].
  split; [done|]. eapply (side_frame h); [exact Hs|done|done|]. intros a c Ha HB. destruct (but_cached _ c Ha) as [Hne Hf].
  split; [by rewrite lookup_insert_ne|]. simpl. apply Hk; [by apply Hf|done].
Qed.

(** [b] is cut; the rest goes to the free lists or to the rest list. *)
Lemma mm_split t (f : mm_store → mm_lists → outcome mm_lists) : 32 ≤ t → 32 ≤ s - t → (8 | t) → (∀ c, B !! (b + s) ≠ Some (c, false)) →
  (∀ St, adds St (b + t) (f St)) →
  let h1 := set_hstore (write_tag b t true (hstore h)) h in
  let h2 := set_hstore (write_tag (b + t) (s - t) false (hstore h1)) h1 in
  on_store (ZEND_MM_BLOCK b ZEND_MM_USED_BLOCK t) h = OK h1 ∧ on_store (ZEND_MM_BLOCK (b + t) ZEND_MM_FREE_BLOCK (s - t)) h1 = OK h2 ∧
  ∃ L', on_lists f h2 = OK (set_hlists L' h2) ∧ mm_inv (set_hlists L' h2) (<[b + t := (s - t, false)]> (<[b := (t, true)]> B)) C K.
Proof using HC Hb.
  intros Ht Hst H8 Hn Hf. destruct HC as [Hc Hs Hno]. destruct (but_split _ _ _ _ Hc _ _ Hb t) as (H1 & H2 & H3); [done..|].
  split; [by apply on_store_OK|]. split; [by apply on_store_OK|]. destruct (H3 _ (Hf _)) as (L' & HL & Hc' & Hk). exists L'.
  split; [by apply on_lists_OK|]. split; [done|]. eapply (side_frame h); [exact Hs|done|done|]. intros a c Ha HB.
  destruct (but_cached _ c Ha) as [Hne Hfm]. destruct (split_facts _ _ _ _ Hc _ _ Hb t) as (Hnone & _); [lia|]. assert (a ≠ b + t) by congruence.
  split; [by rewrite !lookup_insert_ne|]. simpl. apply Hk; [by apply Hfm|done].
Qed.

(** Whether [b] is the only block of its segment. *)
Lemma only_block_spec : ∃ o : bool, only_block b (b + s) (hstore h) = OK o ∧
  if o then ∃ r n, regions (hstore h) !! r = Some n ∧ b = r + 16 ∧ s = n - 32 else True.
Proof using HC Hb.
  destruct HC as [[HG HT _ _] _ _]. unfold only_block.
  destruct (read_prev HG b HT) as [(Hf & _ & ->)|(p & ps & pu & _ & _ & _ & _ & _ & -> & _)]; [eauto| |by exists false]. ob.
  destruct (read_next_guard HG b HT _ _ Hb) as (g & -> & Hg). exists g. split; [done|]. destruct g; [|done].
  destruct Hf as (r & n & Hr & E1), Hg as (r' & n' & Hr' & E2). exists r, n. split_and!; [done..|].
  destruct (g_in _ _ HG _ _ _ Hb) as (r2 & n2 & Hr2 & ? & ?). destruct (geo_pos HG _ _ _ Hb) as (_ & _ & ? & _).
  pose proof (rw_pos _ (g_reg _ _ HG) _ _ Hr). pose proof (rw_pos _ (g_reg _ _ HG) _ _ Hr').
  assert (r = r2) as -> by (eapply (region_of HG b); eauto; lia). assert (r' = r2) as -> by (eapply (region_of HG (b + s)); eauto; lia).
  simplify_eq. lia.
Qed.

Lemma only_block_write St v : s ≠ 0 → only_block b (b + s) (write_tag b s v St) = only_block b (b + s) St.
Proof using Type.
  intros Hs. unfold only_block, ZEND_MM_IS_FIRST_BLOCK, ZEND_MM_IS_GUARD_BLOCK. simpl.
  by rewrite lookup_insert_ne, lookup_insert_ne by lia.
Qed.
End steps.
