(* ===== verification/MmRelease.v ===== *)
(** Giving a block back: joining it with its free neighbours, entering it in
    the lists, and returning its segment when nothing else is in it. *)

From S2P Require Import Prelude ZendMmTypes MmBits ZendMmFree MmTrie MmLists MmGeo MmWf MmSegs ZendAlloc MmInv.

(** The used blocks other than [b]. *)
Definition others (b : Z) (B : blocks) (a s : Z) : Prop := a ≠ b ∧ B !! a = Some (s, true).
Definition no_prev (b : Z) (B : blocks) : Prop := ∀ p t, B !! p = Some (t, false) → p ≠ b → p + t ≠ b.
Definition no_next (b s : Z) (B : blocks) : Prop := ∀ t, B !! (b + s) ≠ Some (t, false).

Lemma others_next b s t u B a c : B !! (b + s) = Some (t, false) → others b (<[b := (s + t, u)]> (delete (b + s) B)) a c ↔ others b B a c.
Proof.
  intros Ht. unfold others. destruct (decide (b = a)) as [->|Hne]; [naive_solver|]. rewrite lookup_insert_ne by done.
  destruct (decide (b + s = a)) as [<-|]; [rewrite lookup_delete_eq; naive_solver|]. by rewrite lookup_delete_ne.
Qed.
Lemma others_prev b p s t u B a c : B !! p = Some (t, false) → p ≠ b → others p (<[p := (t + s, u)]> (delete b B)) a c ↔ others b B a c.
Proof.
  intros Ht Hpb. unfold others. destruct (decide (p = a)) as [<-|Hne]; [rewrite lookup_insert_eq; naive_solver|]. rewrite lookup_insert_ne by done.
  destruct (decide (b = a)) as [<-|]; [rewrite lookup_delete_eq; naive_solver|]. rewrite lookup_delete_ne by done. naive_solver.
Qed.
Lemma others_free b s B a c : <[b := (s, false)]> B !! a = Some (c, true) ↔ others b B a c.
Proof. unfold others. rewrite lookup_insert_Some. naive_solver. Qed.
Lemma others_delete b B a c : delete b B !! a = Some (c, true) ↔ others b B a c.
Proof. unfold others. rewrite lookup_delete_Some. naive_solver. Qed.

Section release.
Context (C : Z → list Z) (K : gmap Z fptr).
Implicit Types (h : zend_mm_heap) (B : blocks).

(** ** Joining *)

Lemma absorb_spec b h B s u : mm_but b h B C K → B !! b = Some (s, u) →
  ∃ t L' B', absorb (b + s) h = OK (t, set_hlists L' h) ∧ mm_but b (set_hlists L' h) B' C K ∧ B' !! b = Some (s + t, u) ∧ 0 ≤ t ∧
    (∀ a c, others b B' a c ↔ others b B a c) ∧ no_next b (s + t) B' ∧ (no_prev b B → no_prev b B').
Proof.
  intros HC Hb. pose proof (mb_core _ _ _ _ _ HC) as [HG HT _ Hco]. pose proof (geo_pos HG _ _ _ Hb) as (_ & _ & ? & _).
  unfold absorb. rewrite (read_next_free HG b HT _ _ Hb). ob. unfold free_at. destruct (B !! (b + s)) as [[t [|]]|] eqn:Ht.
  - exists 0, (hlists h), B. rewrite Z.add_0_r. destruct h. split_and!; try done; try lia. unfold no_next. congruence.
  - destruct (mm_absorb_next _ _ _ _ _ HC _ _ Hb _ Ht) as (L' & -> & HC'). ob. unfold ZEND_MM_FREE_BLOCK_SIZE. cbn [hstore set_hlists].
    rewrite (t_size _ _ HT (b + s) t false) by (rewrite lookup_delete_ne by lia; done). ob.
    pose proof (geo_pos HG _ _ _ Ht) as (_ & _ & ? & _).
    exists t, L', (<[b := (s + t, u)]> (delete (b + s) B)). split_and!; [done|done|apply lookup_insert_eq|lia| | |].
    + intros a c. by apply others_next.
    + intros c. rewrite lookup_insert_ne, lookup_delete_ne by lia. rewrite Z.add_assoc. intros Hc.
      assert (false = true); [|done]. eapply (Hco (b + s) t c); by rewrite lookup_delete_ne by lia.
    + intros Hp p c. destruct (decide (b = p)) as [->|]; [done|]. rewrite lookup_insert_ne by done. intros [_ Hpc]%lookup_delete_Some. by apply Hp.
  - exists 0, (hlists h), B. rewrite Z.add_0_r. destruct h. split_and!; try done; try lia. unfold no_next. congruence.
Qed.

Lemma absorb_prev_spec b h B s u : mm_but b h B C K → B !! b = Some (s, u) →
  (ZEND_MM_PREV_BLOCK_IS_FREE (hstore h) b = OK false ∧ no_prev b B) ∨
  ∃ p t L' B', ZEND_MM_PREV_BLOCK_IS_FREE (hstore h) b = OK true ∧ ZEND_MM_PREV_BLOCK (hstore h) b = OK p ∧
    ZEND_MM_FREE_BLOCK_SIZE (hstore h) p = OK t ∧ remove_from_free_list p h = OK (set_hlists L' h) ∧ p + t = b ∧
    mm_but p (set_hlists L' h) B' C K ∧ B' !! p = Some (t + s, u) ∧
    (∀ a c, others p B' a c ↔ others b B a c) ∧ no_prev p B' ∧ (no_next b s B → no_next p (t + s) B') ∧
    (∀ x, x ≠ p → x ≠ b → B' !! x = B !! x).
Proof.
  intros HC Hb. pose proof (mb_core _ _ _ _ _ HC) as [HG HT _ Hco].
  destruct (read_prev HG b HT) as [(Hf & Hp & _)|(p & t & [|] & Ht & E & Hne & Hp & Hpp & _)]; [eauto|..].
  - left. split; [done|]. intros p t Ht _ E. destruct Hf as (r & n & Hr & ->). by eapply (end_not_first HG) in E.
  - left. split; [done|]. intros q c Hc Hq E'. assert (q = p) as -> by (eapply (geo_same_end HG); eauto; lia). congruence.
  - right. destruct (mm_absorb_prev _ _ _ _ _ HC _ _ Hb _ _ Ht E) as (L' & HL & HC'). exists p, t, L', (<[p := (t + s, u)]> (delete b B)).
    pose proof (geo_pos HG _ _ _ Ht) as (_ & _ & ? & _). pose proof (geo_pos HG _ _ _ Hb) as (_ & _ & ? & _).
    split_and!; try done; [|apply lookup_insert_eq|..].
    + unfold ZEND_MM_FREE_BLOCK_SIZE. by rewrite (t_size _ _ HT p t false) by (rewrite lookup_delete_ne by done; done).
    + intros a c. by apply others_prev.
    + intros q c. destruct (decide (p = q)) as [->|]; [done|]. rewrite lookup_insert_ne by done. intros [Hqb Hq]%lookup_delete_Some _ E'.
      assert (false = true); [|done]. eapply (Hco q c t); rewrite lookup_delete_ne by lia; [done|]. rewrite E'. done.
    + intros Hn c. rewrite lookup_insert_ne, lookup_delete_ne by lia. replace (p + (t + s)) with (b + s) by lia. apply Hn.
    + intros x ? ?. by rewrite lookup_insert_ne, lookup_delete_ne.
Qed.

(** Reading the size of the block behind before it is taken out is as good. *)
Lemma absorb_early x z h :
  (let* free := ZEND_MM_IS_FREE_BLOCK (hstore h) x in
   if free : bool then
     let* n := ZEND_MM_FREE_BLOCK_SIZE (hstore h) x in
     let* h := remove_from_free_list x h in
     OK (z + n, h)
   else OK (z, h)) = let* r := absorb x h in OK (z + r.1, r.2).
Proof.
  unfold absorb, ZEND_MM_IS_FREE_BLOCK, ZEND_MM_FREE_BLOCK_SIZE. destruct (info_size (hstore h) !! x) as [t|] eqn:E; [|done]. ob.
  destruct (_ =? 0); [|simpl; by rewrite Z.add_0_r]. unfold on_lists. destruct (zend_mm_remove_from_free_list _ _ _); try done. ob. cbn [hstore set_hlists]. by rewrite E.
Qed.

(** ** Segments *)

(** What giving blocks back leaves alone: the settings of the heap, and the
    contents of the blocks that remain. *)
Definition settings h := (block_size h, limit h, reserve_size h, reserve h, overflow h, cache h).
Definition kept_data (B : blocks) h h' : Prop :=
  ∀ a s x, B !! a = Some (s, true) → a ≤ x < a + s → data (hstore h') !! x = data (hstore h) !! x.

(** [M] are the links as far as [r]. *)
Lemma find_segment_spec M fuel h slot l r : seg_path M slot l → (r ∈ l) → (0 ∉ l) → slot ≠ r →
  (∀ q, q ∈ slot :: l → q ≠ r → links (segments_list h) (hstore h) !! q = M !! q) →
  (length l ≤ fuel)%nat → find_segment fuel r slot h = OK (seg_before slot l r).
Proof.
  revert fuel slot. induction l as [|q l IH]; intros fuel slot; [by intros _ ?%elem_of_nil|]. simpl. intros [Hq Hl] Hr H0 Hs HM Hf.
  destruct fuel as [|fuel]; [lia|]. cbn [find_segment]. rewrite <- HM in Hq by (by left || done).
  assert (segment_at slot h = OK q) as ->.
  { unfold segment_at. destruct (Z.eqb_spec slot 0) as [->|]; [rewrite lookup_insert_eq in Hq; congruence|]. rewrite lookup_insert_ne in Hq by done. by rewrite Hq. }
  ob. apply not_elem_of_cons in H0 as [? ?]. apply elem_of_cons in Hr as [->|Hr]; [rewrite Z.eqb_refl, decide_True by done; done|].
  destruct (Z.eqb_spec q r) as [->|]; [by rewrite decide_True|]. rewrite decide_False by done.
  destruct (Z.eqb_spec q 0); [congruence|]. apply IH; [done..| |lia]. intros z Hz. apply HM. by right.
Qed.
Lemma segs_length St x l : segs St x l → (length l ≤ size (regions St))%nat.
Proof.
  intros [_ Hnd Hd _]. rewrite <- (size_list_to_set (C := gset Z) _ Hnd), <- size_dom. apply subseteq_size.
  intros r Hr%elem_of_list_to_set. by apply elem_of_dom, Hd.
Qed.
Lemma segs_pos h B l : geo (regions (hstore h)) B → segs (hstore h) (segments_list h) l → 0 ∉ l.
Proof. intros HG Hs [n Hn]%(sg_dom _ _ _ Hs). destruct (rw_pos _ (g_reg _ _ HG) _ _ Hn). lia. Qed.
Lemma set_segment_links slot v h : links (segments_list (set_segment_at slot v h)) (hstore (set_segment_at slot v h)) = <[slot := v]> (links (segments_list h) (hstore h)).
Proof.
  unfold set_segment_at. destruct (Z.eqb_spec slot 0) as [->|]; simpl; [by rewrite insert_insert_eq|]. by rewrite insert_insert_ne.
Qed.

Lemma del_segment_spec b h B s u r n : mm_but b h B C K → B !! b = Some (s, u) → regions (hstore h) !! r = Some n → b = r + 16 → s = n - 32 →
  ∃ h', zend_mm_del_segment (b - ZEND_MM_ALIGNED_SEGMENT_SIZE) h = OK h' ∧ mm_inv h' (delete b B) C K ∧
    settings h' = settings h ∧ kept_data (delete b B) h h'.
Proof.
  intros [Hc Hs Hn] Hb Hr -> ->. destruct (ms_segs _ _ _ _ Hs) as (sl & Hsl). pose proof (cb_geo _ _ _ _ Hc) as HG.
  pose proof (segs_pos _ _ _ HG Hsl) as H0. assert (r ∈ sl) as Hrsl by (apply (sg_dom _ _ _ Hsl); eauto).
  unfold zend_mm_del_segment. replace (r + 16 - ZEND_MM_ALIGNED_SEGMENT_SIZE) with r by lia.
  erewrite find_segment_spec; [|apply Hsl|done|done|by intros <-|done|apply le_S; by eapply segs_length]. ob.
  destruct (seg_path_live _ _ _ r (sg_path _ _ _ Hsl)) as [y Hy]; [by right|].
  assert (r ≠ 0) as Hr0 by congruence. pose proof Hy as Hy'. rewrite lookup_insert_ne in Hy' by done. rewrite Hy'. ob.
  set (h1 := set_segment_at _ y h).
  assert (seg_size (hstore h1) = seg_size (hstore h) ∧ regions (hstore h1) = regions (hstore h) ∧ info_size (hstore h1) = info_size (hstore h) ∧
    info_prev (hstore h1) = info_prev (hstore h) ∧ data (hstore h1) = data (hstore h) ∧ hlists h1 = hlists h ∧ cache h1 = cache h ∧
    real_size h1 = real_size h ∧ settings h1 = settings h) as (E1 & E2 & E3 & E4 & E5 & E6 & E7 & E8 & E9).
  { unfold h1, set_segment_at. by destruct (_ =? 0). }
  rewrite E1, (sg_size _ _ _ Hsl r Hrsl), Hr. ob. unfold storage_free. cbn [set_real_size hstore hlists]. rewrite E2, Hr. ob. rewrite E6.
  eexists. split; [reflexivity|]. destruct (segment_freed _ (hstore h1) _ _ _ _ _ Hc Hb Hr) as [Hcore Hprev]; [done..|].
  assert (seg_path (links (segments_list h1) (hstore h1)) 0 (filter (.≠ r) sl)) as Hpath.
  { unfold h1. rewrite set_segment_links. apply seg_path_unlink; [apply Hsl| |done|done]. apply NoDup_cons. split; [done|apply Hsl]. }
  split_and!; [|done|].
  - split; [done|]. split; cbn [hstore hlists cache segments_list block_size real_size set_hlists set_hstore set_real_size].
    + exists (filter (.≠ r) sl). eapply (segs_freed (hstore h)); [apply HG|done..].
    + intros i Hi. destruct (ms_cache _ _ _ _ Hs i Hi) as (x & Hx & Hch). exists x. split; [done|]. eapply cchain_frame; [|exact Hch].
      intros a Ha. destruct (ms_cached _ _ _ _ Hs i a Hi Ha) as (c & Hac & _). eapply (Hprev a). rewrite lookup_delete_ne; [done|].
      intros <-. apply Hn. by exists i.
    + intros i a Hi Ha. destruct (ms_cached _ _ _ _ Hs i a Hi Ha) as (c & Hac & ? & ?). exists c. split; [|done]. rewrite lookup_delete_ne; [done|].
      intros <-. apply Hn. by exists i.
    + apply Hs.
    + unfold settings in E9. injection E9 as -> _ _ _ _ _. apply Hs.
    + simpl. rewrite E8, E2, (ms_real _ _ _ _ Hs), (total_delete _ _ _ Hr). unfold ulong_wrap.
      rewrite Zminus_mod_idemp_l. f_equal. lia.
  - intros a c x Ha Hx. simpl. rewrite E5. destruct (g_in _ _ (co_geo _ _ _ Hcore) _ _ _ Ha) as (q & m & Hq & ? & ?).
    simpl in Hq. rewrite E2 in Hq. apply lookup_delete_Some in Hq as [Hne Hq]. eapply (wipe_elsewhere (regions (hstore h))); [apply HG|done..|lia].
Qed.
(** ** The block is given back *)

(** The heap [h'], with blocks [B'], is [h] with the block [b] given back. *)
Definition gave b h B h' B' : Prop :=
  mm_inv h' B' C K ∧ (∀ a c, B' !! a = Some (c, true) ↔ others b B a c) ∧ settings h' = settings h ∧
  (∀ a c x, others b B a c → a ≤ x < a + c → data (hstore h') !! x = data (hstore h) !! x).

Lemma discard_spec b h B s u : mm_but b h B C K → B !! b = Some (s, u) → no_prev b B → no_next b s B →
  ∃ h' B', (let* only := only_block b (b + s) (hstore h) in
            if only : bool then zend_mm_del_segment (b - ZEND_MM_ALIGNED_SEGMENT_SIZE) h
            else let* h := on_store (ZEND_MM_BLOCK b ZEND_MM_FREE_BLOCK s) h in add_to_free_list b h) = OK h' ∧ gave b h B h' B'.
Proof.
  intros HC Hb Hp Hn. destruct (only_block_spec _ _ _ _ _ HC _ _ Hb) as (o & -> & Ho). ob. destruct o.
  - destruct Ho as (r & n & Hr & E1 & E2). destruct (del_segment_spec _ _ _ _ _ _ _ HC Hb Hr E1 E2) as (h' & -> & Hi & Hs & Hk).
    exists h', (delete b B). split; [done|]. split_and!; [done|apply others_delete|done|]. intros a c x Ha. apply (Hk a c x). by apply others_delete.
  - destruct (mm_free _ _ _ _ _ HC _ _ Hb (conj Hp Hn)) as (-> & L' & HL & Hi). ob. rewrite HL.
    eexists _, _. split; [reflexivity|]. split_and!; [exact Hi|apply others_free|done|done].
Qed.

Lemma release_block_spec b h B s u : mm_but b h B C K → B !! b = Some (s, u) → no_prev b B → no_next b s B →
  ∃ h' B', (let* h := on_store (ZEND_MM_BLOCK b ZEND_MM_FREE_BLOCK s) h in release_block b h) = OK h' ∧ gave b h B h' B'.
Proof.
  intros HC Hb Hp Hn. destruct (mm_free _ _ _ _ _ HC _ _ Hb (conj Hp Hn)) as (-> & L' & HL & Hi). ob.
  destruct (but_good _ _ _ _ (mb_core _ _ _ _ _ HC) _ _ Hb) as (_ & ? & ?).
  unfold release_block, ZEND_MM_BLOCK_SIZE. cbn [hstore set_hstore write_tag put_info_prev put_size info_size].
  rewrite lookup_insert_eq. ob. rewrite tag_block_size by done. fold (put_size b (tag s false) (hstore h)).
  fold (put_info_prev (b + s) (tag s false) (put_size b (tag s false) (hstore h))). fold (write_tag b s false (hstore h)).
  rewrite only_block_write by lia. destruct (only_block_spec _ _ _ _ _ HC _ _ Hb) as (o & -> & Ho). ob. destruct o.
  - destruct Ho as (r & n & Hr & E1 & E2).
    destruct (del_segment_spec _ _ _ _ _ r n (mm_rewrite _ _ _ _ _ HC _ _ Hb false) Hb) as (h' & -> & Hi' & Hs & Hk); [done..|].
    exists h', (delete b B). split; [done|]. split_and!; [done|apply others_delete|done|]. intros a c x Ha. apply (Hk a c x). by apply others_delete.
  - rewrite HL. eexists _, _. split; [reflexivity|]. split_and!; [exact Hi|apply others_free|done|done].
Qed.

(** What a heap has given back counts from before the joining. *)
Lemma gave_from b b0 h h0 B B0 h' B' : settings h = settings h0 → data (hstore h) = data (hstore h0) →
  (∀ a c, others b B a c ↔ others b0 B0 a c) → gave b h B h' B' → gave b0 h0 B0 h' B'.
Proof.
  intros E1 E2 Ho (Hi & Hu & Hs & Hk). split_and!; [done|intros a c; by rewrite Hu|congruence|].
  intros a c x Ha Hx. rewrite <- E2. eapply Hk; [by apply Ho|done].
Qed.

Lemma uncache_block_spec b h B s : mm_inv h B C K → B !! b = Some (s, true) → ¬ in_cache C b →
  ∃ h' B', uncache_block b h = OK h' ∧ gave b h B h' B'.
Proof.
  intros HI Hb Hn. unfold uncache_block. rewrite (read_size (co_geo _ _ _ (mi_core _ _ _ _ HI)) (co_tag _ _ _ (mi_core _ _ _ _ HI)) _ _ _ Hb). ob.
  set (h1 := set_cached _ h). assert (mm_but b h1 B C K) as HC by (eapply mm_open; [eapply (inv_frame h); done|done..]).
  cut (∀ p z h2 B2 nx, p + z = nx → mm_but p h2 B2 C K → B2 !! p = Some (z, true) → no_prev p B2 → (∀ a c, others p B2 a c ↔ others b B a c) →
    settings h2 = settings h → data (hstore h2) = data (hstore h) → ∃ h' B',
      (let* r :=
         (let* next_free := ZEND_MM_IS_FREE_BLOCK (hstore h2) nx in
          if next_free : bool then
            let* nsize := ZEND_MM_FREE_BLOCK_SIZE (hstore h2) nx in
            let* h := remove_from_free_list nx h2 in
            OK (z + nsize, h)
          else OK (z, h2)) in
       let '(size, h) := r in
       let* h := on_store (ZEND_MM_BLOCK p ZEND_MM_FREE_BLOCK size) h in
       release_block p h) = OK h' ∧ gave b h B h' B').
  { intros Hcut. change (hstore h) with (hstore h1). destruct (absorb_prev_spec _ _ _ _ _ HC Hb) as [[-> Hp]|(p & t & L' & B' & -> & R1 & R2 & HL & E & HC' & Hb' & Ho & Hp & _)]; ob.
    - by apply (Hcut b s h1 B).
    - rewrite R1. ob. rewrite R2. ob. rewrite HL. ob. apply (Hcut p (s + t) (set_hlists L' h1) B'); try done; [lia|]. by rewrite (Z.add_comm s). }
  intros p z h2 B2 nx <- HC2 Hb2 Hp2 Ho2 Hs2 Hd2. pose proof (mb_core _ _ _ _ _ HC2) as [HG HT _ _].
  destruct (absorb_spec _ _ _ _ _ HC2 Hb2) as (t & L' & B3 & Habs & HC3 & Hb3 & _ & Ho3 & Hn3 & Hp3).
  rewrite absorb_early, Habs. ob. cbn [fst snd].
  destruct (release_block_spec _ _ _ _ _ HC3 Hb3 (Hp3 Hp2) Hn3) as (h' & B' & Hr & Hg). exists h', B'. split; [exact Hr|].
  eapply gave_from; [..|exact Hg]; [done..|]. intros a c. by rewrite Ho3.
Qed.
End release.
