(* ===== verification/MmFree.v ===== *)
(** The cache of freed blocks, _zend_mm_free_int and zend_mm_safe_error: first
    on the invariant, then on the level of the program's blocks. *)

From stdpp Require Import functions.
From S2P Require Import Prelude ZendMmTypes MmBits ZendMmFree MmTrie MmLists MmGeo ZendAlloc MmWf MmSegs MmInv MmRelease.

(** * The cache of freed blocks and _zend_mm_free_int; zend_mm_safe_error *)

(** [h'] and [B'] are [h] and [B] with the blocks in [P] given back. *)
Definition config h := (block_size h, limit h, reserve_size h, reserve h, overflow h).
Definition without (P : Z → Prop) h (B : blocks) h' (B' : blocks) : Prop :=
  (∀ a c, B' !! a = Some (c, true) ↔ ¬ P a ∧ B !! a = Some (c, true)) ∧ config h' = config h ∧
  (∀ a c x, B' !! a = Some (c, true) → a ≤ x < a + c → data (hstore h') !! x = data (hstore h) !! x).

Lemma without_trans P Q h1 B1 h2 B2 h3 B3 : without P h1 B1 h2 B2 → without Q h2 B2 h3 B3 → without (λ a, P a ∨ Q a) h1 B1 h3 B3.
Proof.
  intros (U1 & C1 & D1) (U2 & C2 & D2). split_and!; [intros a c; rewrite U2, U1; tauto|congruence|].
  intros a c x Ha Hx. rewrite (D2 a c x Ha Hx). apply U2 in Ha as [_ Ha]. by apply (D1 a c x).
Qed.
Lemma without_ext P Q h B h' B' : (∀ a, P a ↔ Q a) → without P h B h' B' → without Q h B h' B'.
Proof. intros E (U & Hc & D). split_and!; [intros a c; by rewrite U, E|done..]. Qed.
Lemma gave_without C K b h B h' B' : gave C K b h B h' B' → without (.= b) h B h' B'.
Proof.
  intros (_ & U & Hs & D). split_and!; [apply U| |intros a c x Ha; apply (D a c x); by apply U].
  unfold settings in Hs. unfold config. congruence.
Qed.

Section cache.
Implicit Types (h : zend_mm_heap) (B : blocks) (C : Z → list Z) (K : gmap Z fptr).

Lemma inv_ext h B C C' K : (∀ i, C' i = C i) → mm_inv h B C K → mm_inv h B C' K.
Proof.
  intros E [Hc [S1 S2 S3 S4 S5 S6]]. split; [done|]. split; try done; [intros j Hj; rewrite E; by apply S2|intros j a Hj; rewrite E; by apply S3|].
  intros j. rewrite E. apply S4.
Qed.

(** A cached block lies in one bucket only. *)
Lemma cache_bucket h B C K i j b : mm_inv h B C K → 0 ≤ i < 64 → 0 ≤ j < 64 → b ∈ C i → b ∈ C j → i = j.
Proof.
  intros [_ Hs] Hi Hj Hbi Hbj. destruct (ms_cached _ _ _ _ Hs i b Hi Hbi) as (s & E & _ & <-).
  destruct (ms_cached _ _ _ _ Hs j b Hj Hbj) as (t & E' & _ & <-). congruence.
Qed.

(** The newest block of a bucket leaves the cache. *)
Lemma cache_pop h B C K i b l : mm_inv h B C K → 0 ≤ i < 64 → C i = b :: l →
  ∃ q s, K !! i = Some (Blk b) ∧ prev_free_block (hlists h) !! Blk b = Some q ∧ B !! b = Some (s, true) ∧ s < 544 ∧ ZEND_MM_BUCKET_INDEX s = i ∧
    mm_inv h B (<[i := l]> C) (<[i := q]> K) ∧ ¬ in_cache (<[i := l]> C) b ∧ ∀ a, in_cache C a ↔ a = b ∨ in_cache (<[i := l]> C) a.
Proof.
  intros HI Hi Hl. pose proof HI as [Hc [S1 S2 S3 S4 S5 S6]]. destruct (S2 i Hi) as (x & Hx & Hch). rewrite Hl in Hch. destruct Hch as (-> & q & Hq & Hch).
  destruct (S3 i b Hi) as (s & HB & Hs & Hix); [rewrite Hl; by left|]. pose proof (S4 i Hi) as Hnd. rewrite Hl in Hnd. apply NoDup_cons in Hnd as [Hbl Hnd].
  exists q, s. split_and!; try done.
  - split; [done|]. split; try done.
    + intros j Hj. destruct (decide (i = j)) as [<-|]; [rewrite fn_lookup_insert, lookup_insert_eq; eauto|].
      rewrite fn_lookup_insert_ne, lookup_insert_ne by done. by apply S2.
    + intros j a Hj. destruct (decide (i = j)) as [<-|]; [rewrite fn_lookup_insert|rewrite fn_lookup_insert_ne by done; by apply S3].
      intros Ha. apply S3; [done|]. rewrite Hl. by right.
    + intros j Hj. destruct (decide (i = j)) as [<-|]; [by rewrite fn_lookup_insert|rewrite fn_lookup_insert_ne by done; by apply S4].
  - intros (j & Hj & Hbj). destruct (decide (i = j)) as [<-|Hne]; [by rewrite fn_lookup_insert in Hbj|rewrite fn_lookup_insert_ne in Hbj by done].
    apply Hne. eapply (cache_bucket _ _ _ _ i j b HI); [done..| |done]. rewrite Hl. by left.
  - intros a. split.
    + intros (j & Hj & Ha). destruct (decide (i = j)) as [<-|Hne].
      * rewrite Hl in Ha. apply elem_of_cons in Ha as [?|?]; [by left|right]. exists i. by rewrite fn_lookup_insert.
      * right. exists j. by rewrite fn_lookup_insert_ne.
    + intros [->|(j & Hj & Ha)]; [exists i; rewrite Hl; split; [done|by left]|]. exists j. split; [done|].
      destruct (decide (i = j)) as [<-|]; [rewrite fn_lookup_insert in Ha; rewrite Hl; by right|by rewrite fn_lookup_insert_ne in Ha].
Qed.

Lemma uncache_blocks_spec fuel x h B C K i : mm_inv h B C K → 0 ≤ i < 64 → K !! i = Some x → (length (C i) ≤ fuel)%nat →
  ∃ h' B', uncache_blocks fuel x h = OK h' ∧ mm_inv h' B' (<[i := []]> C) (<[i := Null]> K) ∧ without (.∈ C i) h B h' B' ∧ cache h' = cache h.
Proof.
  remember (C i) as l eqn:Hl. symmetry in Hl. revert fuel x h B C K Hl. induction l as [|b l IH]; intros fuel x h B C K Hl HI Hi Hx Hf.
  - destruct (ms_cache _ _ _ _ (mi_side _ _ _ _ HI) i Hi) as (y & Hy & Hch). rewrite Hl in Hch. simpl in Hch. assert (x = Null) as -> by congruence.
    exists h, B. split; [by destruct fuel|]. split; [|split; [|done]]; [|split; [intros a c; rewrite elem_of_nil; tauto|done]].
    rewrite insert_id by done. eapply inv_ext; [|exact HI]. intros j.
    destruct (decide (i = j)) as [<-|]; [by rewrite fn_lookup_insert|by rewrite fn_lookup_insert_ne].
  - destruct (cache_pop _ _ _ _ _ _ _ HI Hi Hl) as (q & s & Hb & Hq & HB & _ & _ & HI1 & Hn & _). assert (x = Blk b) as -> by congruence.
    destruct fuel as [|fuel]; [simpl in Hf; lia|]. cbn [uncache_blocks as_block]. ob. rewrite Hq. ob.
    destruct (uncache_block_spec _ _ b h B s HI1 HB Hn) as (h1 & B1 & -> & Hg). ob. pose proof (gave_without _ _ _ _ _ _ _ Hg) as Hw1.
    destruct Hg as (HI2 & _ & Hs & _). destruct (IH fuel q h1 B1 _ _ (fn_lookup_insert C i l) HI2 Hi) as (h2 & B2 & HOK & HI3 & Hw2 & Hc2).
    { by rewrite lookup_insert_eq. } { simpl in Hf. lia. }
    rewrite insert_insert_eq in HI3. exists h2, B2. split; [done|]. split; [|split].
    + eapply inv_ext; [|exact HI3]. intros j.
      destruct (decide (i = j)) as [<-|]; [by rewrite !fn_lookup_insert|by rewrite !fn_lookup_insert_ne].
    + eapply without_ext; [|by eapply without_trans]. intros a. simpl. by rewrite elem_of_cons.
    + rewrite Hc2. unfold settings in Hs. congruence.
Qed.

(** All blocks of the cache, bucket by bucket. *)
Lemma free_cache_from_spec n h B C i : mm_inv h B C (cache h) → 0 ≤ i → i + Z.of_nat n = 64 → (∀ j, 0 ≤ j < i → C j = []) →
  ∃ h' B' C', free_cache_from n i h = OK h' ∧ mm_inv h' B' C' (cache h') ∧ (∀ j, 0 ≤ j < 64 → C' j = []) ∧ without (in_cache C) h B h' B'.
Proof.
  revert h B C i. induction n as [|n IH]; intros h B C i HI Hi Hn Hlow.
  - exists h, B, C. split; [done|]. split; [done|]. split; [intros j ?; apply Hlow; lia|]. split; [|done]. intros a c. split; [|tauto].
    intros Ha. split; [|done]. intros (j & Hj & Hja). rewrite Hlow in Hja by lia. by apply elem_of_nil in Hja.
  - cbn [free_cache_from]. destruct (ms_cache _ _ _ _ (mi_side _ _ _ _ HI) i) as (x & Hx & _); [lia|]. rewrite Hx. ob.
    destruct (uncache_blocks_spec (size (info_size (hstore h))) x h B C (cache h) i HI) as (h1 & B1 & -> & HI1 & Hw1 & Hc1); [lia|done| |].
    { rewrite <- (size_list_to_set (C := gset Z) (C i)), <- size_dom by (apply (ms_nodup _ _ _ _ (mi_side _ _ _ _ HI)); lia).
      apply subseteq_size. intros b Hb%elem_of_list_to_set. apply elem_of_dom.
      destruct (ms_cached _ _ _ _ (mi_side _ _ _ _ HI) i b) as (s & HB & _); [lia|done|].
      rewrite (t_size _ _ (co_tag _ _ _ (mi_core _ _ _ _ HI)) _ _ _ HB). eauto. }
    ob. destruct (IH (set_cache (<[i := Null]> (cache h1)) h1) B1 (<[i := []]> C) (i + 1)) as (h2 & B2 & C2 & HOK & HI2 & Hnil & Hw2); [|lia..| |].
    + rewrite <- Hc1 in HI1. eapply (inv_frame h1); done.
    + intros j Hj. destruct (decide (i = j)) as [<-|]; [by rewrite fn_lookup_insert|]. rewrite fn_lookup_insert_ne by done. apply Hlow. lia.
    + exists h2, B2, C2. do 3 (split; [done|]). assert (without (.∈ C i) h B (set_cache (<[i := Null]> (cache h1)) h1) B1) as Hw1' by done.
      eapply without_ext; [|exact (without_trans _ _ _ _ _ _ _ _ Hw1' Hw2)]. intros a. simpl. split.
      * intros [?|(j & Hj & Ha)]; [exists i; split; [lia|done]|]. exists j. split; [done|].
        destruct (decide (i = j)) as [<-|]; [rewrite fn_lookup_insert in Ha; by apply elem_of_nil in Ha|by rewrite fn_lookup_insert_ne in Ha].
      * intros (j & Hj & Ha). destruct (decide (i = j)) as [<-|]; [by left|right; exists j; by rewrite fn_lookup_insert_ne].
Qed.
Lemma free_cache_spec h B C : mm_inv h B C (cache h) →
  ∃ h' B' C', zend_mm_free_cache h = OK h' ∧ mm_inv h' B' C' (cache h') ∧ (∀ j, 0 ≤ j < 64 → C' j = []) ∧ without (in_cache C) h B h' B'.
Proof. intros HI. apply free_cache_from_spec; [done|lia|done|lia]. Qed.
End cache.

(** * _zend_mm_free_int and zend_mm_safe_error, on the level of the program's blocks *)

(** The heap [h] is well formed, and [U] are the blocks the program has
    allocated and not freed: addresses of their headers, with their sizes. *)
Definition live (B : blocks) (C : Z → list Z) (a s : Z) : Prop := B !! a = Some (s, true) ∧ ¬ in_cache C a.
Definition mm_heap (h : zend_mm_heap) (U : gmap Z Z) : Prop :=
  ∃ B C, mm_inv h B C (cache h) ∧ ∀ a s, U !! a = Some s ↔ live B C a s.
(** The reserve, if there is one, is such a block too. *)
Definition mm_wf (h : zend_mm_heap) (U : gmap Z Z) : Prop :=
  mm_heap h U ∧ (reserve h = 0 ∨ is_Some (U !! (reserve h - 16))).

(** The contents of the blocks [U] stay. *)
Definition same_data (U : gmap Z Z) h h' : Prop :=
  ∀ a s x, U !! a = Some s → a ≤ x < a + s → data (hstore h') !! x = data (hstore h) !! x.
Lemma same_data_trans U U' h1 h2 h3 : U' ⊆ U → same_data U h1 h2 → same_data U' h2 h3 → same_data U' h1 h3.
Proof. intros Hs H1 H2 a s x Ha Hx. rewrite (H2 a s x), (H1 a s x); [done|by eapply lookup_weaken|done..]. Qed.

(** Changes of the fields the invariant does not speak of. *)
Lemma heap_frame h h' U : hstore h' = hstore h → hlists h' = hlists h → cache h' = cache h → fields h' = fields h → mm_heap h U → mm_heap h' U.
Proof. intros E1 E2 E3 F (B & C & HI & HU). exists B, C. split; [|done]. rewrite E3. by eapply inv_frame. Qed.

Lemma heap_block h U b s : mm_heap h U → U !! b = Some s → 0 < b ∧ 32 ≤ s < 2 ^ 64 ∧ (8 | b) ∧ (8 | s) ∧ b + s + 16 ≤ 2 ^ 64.
Proof.
  intros (B & C & HI & HU) [Hb _]%HU. destruct (geo_pos (co_geo _ _ _ (mi_core _ _ _ _ HI)) _ _ _ Hb) as (? & ? & ? & ? & ?). split_and!; done || lia.
Qed.
Lemma heap_disjoint h U a s b t : mm_heap h U → U !! a = Some s → U !! b = Some t → a ≠ b → a + s ≤ b ∨ b + t ≤ a.
Proof.
  intros (B & C & HI & HU) [Ha _]%HU [Hb _]%HU. by apply (g_disj _ _ (co_geo _ _ _ (mi_core _ _ _ _ HI)) _ _ _ _ _ _ Ha Hb).
Qed.

(** ** Into the cache *)

Lemma cache_push h B C K b s i c : mm_inv h B C K → B !! b = Some (s, true) → ¬ in_cache C b → s < 544 → ZEND_MM_BUCKET_INDEX s = i → 
  K !! i = Some c → mm_inv (set_hlists (put_prev (Blk b) c (hlists h)) h) B (<[i := b :: C i]> C) (<[i := Blk b]> K).
Proof.
  intros [[HG HT Hf Hco] [S1 S2 S3 S4 S5 S6]] Hb Hn Hs Hi Hc.
  assert (0 ≤ i < 64) as Hi64 by (rewrite <- Hi; apply bucket_index_range; destruct (geo_pos HG _ _ _ Hb) as (_ & _ & ? & _); lia).
  split; [split; try done|].
  - destruct Hf as (sm & rs & tr & Hf). exists sm, rs, tr. eapply flists_frame; [..|exact Hf]; try done.
    + intros a t Ha%free_map_Some. assert (a ≠ b) by congruence. unfold same_at. simpl. split_and!; try done. rewrite lookup_insert_ne; [done|congruence].
    + intros k Hk. simpl. rewrite lookup_insert_ne; [done|]. by intros <-; eapply Hk.
  - split; try done.
    + intros j Hj. simpl. destruct (decide (i = j)) as [<-|].
      * rewrite fn_lookup_insert, lookup_insert_eq. exists (Blk b). split; [done|]. split; [done|]. exists c. rewrite lookup_insert_eq. split; [done|].
        destruct (S2 i Hj) as (x & Hx & Hch). assert (x = c) as -> by congruence. eapply cchain_frame; [|exact Hch].
        intros a Ha. rewrite lookup_insert_ne; [done|]. intros [= <-]. apply Hn. by exists i.
      * rewrite fn_lookup_insert_ne, lookup_insert_ne by done. destruct (S2 j Hj) as (x & Hx & Hch). exists x. split; [done|]. eapply cchain_frame; [|exact Hch].
        intros a Ha. rewrite lookup_insert_ne; [done|]. intros [= <-]. apply Hn. by exists j.
    + intros j a Hj. destruct (decide (i = j)) as [<-|]; [rewrite fn_lookup_insert|rewrite fn_lookup_insert_ne by done; by apply S3].
      intros [->|Ha]%elem_of_cons; [by exists s|by apply S3].
    + intros j Hj. destruct (decide (i = j)) as [<-|]; [rewrite fn_lookup_insert|rewrite fn_lookup_insert_ne by done; by apply S4].
      apply NoDup_cons. split; [|by apply S4]. intros Hbi. apply Hn. by exists i.
Qed.
Lemma in_cache_push C i b a : 0 ≤ i < 64 → in_cache (<[i := b :: C i]> C) a ↔ a = b ∨ in_cache C a.
Proof.
  intros Hi. split.
  - intros (j & Hj & Ha). destruct (decide (i = j)) as [<-|]; [rewrite fn_lookup_insert in Ha|rewrite fn_lookup_insert_ne in Ha by done; right; by exists j].
    apply elem_of_cons in Ha as [?|?]; [by left|right; by exists i].
  - intros [->|(j & Hj & Ha)]; [exists i; rewrite fn_lookup_insert; split; [done|by left]|]. exists j. split; [done|].
    destruct (decide (i = j)) as [<-|]; [rewrite fn_lookup_insert; by right|by rewrite fn_lookup_insert_ne].
Qed.

Lemma cache_push_heap h U b s c : mm_heap h U → U !! b = Some s → s < 544 → cache h !! ZEND_MM_BUCKET_INDEX s = Some c →
  mm_heap (set_cache (<[ZEND_MM_BUCKET_INDEX s := Blk b]> (cache h)) (set_hlists (put_prev (Blk b) c (hlists h)) h)) (delete b U).
Proof.
  intros HH HUb Hsm Hc. destruct (heap_block _ _ _ _ HH HUb) as (_ & Hs & _). destruct HH as (B & C & HI & HU). pose proof HUb as [Hb Hn]%HU.
  pose proof (bucket_index_range s ltac:(lia)) as Hi. set (i := ZEND_MM_BUCKET_INDEX s) in *. exists B, (<[i := b :: C i]> C). split.
  - eapply (inv_frame (set_hlists (put_prev (Blk b) c (hlists h)) h)); try done. by eapply cache_push.
  - intros a t. unfold live. rewrite in_cache_push, lookup_delete_Some, HU by done. unfold live. naive_solver.
Qed.

(** ** Into the lists *)

(** The part of _zend_mm_free_int past the cache. *)
Definition free_tail (mm_block size : Z) h : outcome zend_mm_heap :=
  let* r := absorb (mm_block + size) h in
  let '(nsize, h) := r in
  let size := size + nsize in
  let* prev_free := ZEND_MM_PREV_BLOCK_IS_FREE (hstore h) mm_block in
  let* r :=
    (if prev_free : bool then
       let* q := ZEND_MM_PREV_BLOCK (hstore h) mm_block in
       let* h := remove_from_free_list q h in
       let* qsize := ZEND_MM_FREE_BLOCK_SIZE (hstore h) q in
       OK (q, size + qsize, h)
     else OK (mm_block, size, h)) in
  let '(mm_block, size, h) := r in
  let* only := only_block mm_block (mm_block + size) (hstore h) in
  if only : bool then zend_mm_del_segment (mm_block - ZEND_MM_ALIGNED_SEGMENT_SIZE) h
  else
    let* h := on_store (ZEND_MM_BLOCK mm_block ZEND_MM_FREE_BLOCK size) h in
    add_to_free_list mm_block h.

Lemma free_tail_spec h B C K b s : mm_inv h B C K → B !! b = Some (s, true) → ¬ in_cache C b →
  ∃ h' B', free_tail b s h = OK h' ∧ gave C K b h B h' B'.
Proof.
  intros HI Hb Hn. pose proof (mm_open _ _ _ _ _ _ HI Hb Hn) as HC. unfold free_tail.
  destruct (absorb_spec _ _ _ _ _ _ _ HC Hb) as (t & L' & B1 & -> & HC1 & Hb1 & _ & Ho1 & Hn1 & _). ob.
  destruct (absorb_prev_spec _ _ _ _ _ _ _ HC1 Hb1) as [[-> Hp1]|(q & qt & L2 & B2 & -> & Hq & Hqs & HL2 & E & HC2 & Hb2 & Ho2 & Hp2 & Hn2 & _)]; ob.
  - destruct (discard_spec _ _ _ _ _ _ _ HC1 Hb1 Hp1 Hn1) as (h' & B' & HOK & Hg). exists h', B'. split; [exact HOK|].
    eapply gave_from; [..|exact Hg]; done.
  - rewrite Hq. ob. rewrite HL2. ob. unfold ZEND_MM_FREE_BLOCK_SIZE in *. cbn [hstore set_hlists] in *. rewrite Hqs. ob.
    rewrite (Z.add_comm (s + t)). destruct (discard_spec _ _ _ _ _ _ _ HC2 Hb2 Hp2 (Hn2 Hn1)) as (h' & B' & HOK & Hg). exists h', B'. split; [exact HOK|].
    eapply gave_from; [..|exact Hg]; [done|done|]. intros a c. by rewrite Ho2, Ho1.
Qed.

(** ** The whole function *)

Lemma free_int_spec h U b s : mm_heap h U → U !! b = Some s →
  ∃ h', _zend_mm_free_int (b + 16) h = OK h' ∧ mm_heap h' (delete b U) ∧ config h' = config h ∧ same_data (delete b U) h h'.
Proof.
  intros HH HUb. destruct (heap_block _ _ _ _ HH HUb) as (Hb0 & Hs & _ & H8 & _). destruct HH as (B & C & HI & HU). apply HU in HUb as [Hb Hn].
  unfold _zend_mm_free_int. destruct (Z.eqb_spec (b + 16) 0); [lia|]. replace (b + 16 - ZEND_MM_ALIGNED_HEADER_SIZE) with b by lia.
  rewrite (read_size (co_geo _ _ _ (mi_core _ _ _ _ HI)) (co_tag _ _ _ (mi_core _ _ _ _ HI)) _ _ _ Hb). ob.
  destruct (ZEND_MM_SMALL_SIZE s && (cached h <? ZEND_MM_CACHE_SIZE)) eqn:Hsm.
  - apply andb_true_iff in Hsm as [Hsm _]. unfold ZEND_MM_SMALL_SIZE in Hsm. apply Z.ltb_lt in Hsm.
    destruct (ms_cache _ _ _ _ (mi_side _ _ _ _ HI) (ZEND_MM_BUCKET_INDEX s)) as (c & Hc & _); [apply bucket_index_range; lia|]. rewrite Hc. ob.
    eexists. split; [reflexivity|]. split; [|done].
    apply (heap_frame (set_cache (<[ZEND_MM_BUCKET_INDEX s := Blk b]> (cache h)) (set_hlists (put_prev (Blk b) c (hlists h)) h))); [done..|].
    apply cache_push_heap; try done; [exists B, C; by split|by apply HU].
  - set (h1 := set_heap_size _ h). destruct (free_tail_spec h1 B C (cache h) b s) as (h' & B' & HOK & Hg); [by eapply (inv_frame h)|done..|].
    exists h'. split; [exact HOK|]. pose proof (gave_without _ _ _ _ _ _ _ Hg) as (Hu & Hcf & Hd). destruct Hg as (HI' & _ & Hset & _).
    split; [|split; [done|]].
    + exists B', C. split; [unfold settings in Hset; injection Hset as _ _ _ _ _ ->; exact HI'|]. intros a t. unfold live. rewrite lookup_delete_Some, HU, Hu. unfold live. naive_solver.
    + intros a t x Ha Hx. apply (Hd a t x); [|done]. apply lookup_delete_Some in Ha as [? [? _]%HU]. by apply Hu.
Qed.

Lemma free_cache_heap h U : mm_heap h U →
  ∃ h', zend_mm_free_cache h = OK h' ∧ mm_heap h' U ∧ config h' = config h ∧ same_data U h h'.
Proof.
  intros (B & C & HI & HU). destruct (free_cache_spec _ _ _ HI) as (h' & B' & C' & HOK & HI' & Hnil & Hu & Hcf & Hd).
  assert (∀ a s, U !! a = Some s ↔ B' !! a = Some (s, true)) as HU' by (intros a s; rewrite Hu, HU; unfold live; tauto).
  exists h'. split; [done|]. split; [|split; [done|]].
  - exists B', C'. split; [done|]. intros a s. unfold live. rewrite HU'. split; [|tauto]. intros ?. split; [done|].
    intros (j & Hj & Ha). rewrite Hnil in Ha by done. by apply elem_of_nil in Ha.
  - intros a s x Ha. apply (Hd a s x). by apply HU'.
Qed.

(** ** zend_mm_safe_error *)

(** The program's blocks after an error: the reserve has been freed. *)
Definition after_error h (U : gmap Z Z) : gmap Z Z := if reserve h =? 0 then U else delete (reserve h - 16) U.
Lemma after_error_sub h U : after_error h U ⊆ U.
Proof. unfold after_error. destruct (_ =? 0); [done|apply delete_subseteq]. Qed.

Definition failed h U h' : Prop := mm_wf h' (after_error h U) ∧ reserve h' = 0 ∧ same_data (after_error h U) h h'.

Lemma safe_error_spec err h U : mm_wf h U → ∃ h', zend_mm_safe_error err h = OK (err, h') ∧ failed h U h'.
Proof.
  intros [HH Hr]. unfold zend_mm_safe_error, failed, after_error. destruct (Z.eqb_spec (reserve h) 0) as [E|E].
  - ob. eexists. split; [reflexivity|]. split_and!; [|done|done]. split; [|by left]. by apply (heap_frame h).
  - destruct Hr as [?|[s Hs]]; [done|]. destruct (free_int_spec _ _ _ _ HH Hs) as (h' & HOK & HH' & Hc & Hd).
    replace (reserve h - 16 + 16) with (reserve h) in HOK by lia. rewrite HOK. ob.
    eexists. split; [reflexivity|]. split_and!; [|done|done]. split; [|by left]. by apply (heap_frame h').
Qed.

Lemma exhausted_spec err h U : mm_wf h U → ∃ h', exhausted err h = OK (err, h') ∧ failed h U h'.
Proof.
  intros [HH Hr]. unfold exhausted. destruct (free_cache_heap _ _ HH) as (h1 & -> & HH1 & Hc & Hd). ob.
  assert (reserve h1 = reserve h) as E by (unfold config in Hc; congruence).
  destruct (safe_error_spec err h1 U) as (h' & HOK & Hw & Hr' & Hd'); [split; [done|by rewrite E]|]. exists h'. split; [done|].
  assert (after_error h1 U = after_error h U) as Ea by (unfold after_error; by rewrite E). unfold failed. rewrite Ea in *.
  split_and!; [done..|]. eapply same_data_trans; [apply after_error_sub|done..].
Qed.
