(* ===== verification/MmAlloc.v ===== *)
(** _zend_mm_alloc_int: what every call returns, and what it does to the blocks
    of the program. *)

From stdpp Require Import functions.
From S2P Require Import Prelude ZendMmTypes MmBits ZendMmFree MmTrie MmLists MmSearch MmGeo MmWf MmSegs ZendAlloc MmInv MmRelease MmFree.

Section alloc.
Context `{MMStorage}.
Implicit Types (h : zend_mm_heap) (B : blocks) (C : Z → list Z) (K : gmap Z fptr).

(** ** Searching *)

Lemma find_block_spec h B C K ts : mm_inv h B C K → 32 ≤ ts < 2 ^ 64 → (8 | ts) →
  ∃ r, find_block ts h = OK r ∧ match r with Some b => ∃ s, B !! b = Some (s, false) ∧ ts ≤ s | None => True end.
Proof.
  intros HI Hts H8. destruct (co_fl _ _ _ (mi_core _ _ _ _ HI)) as (sm & rs & tr & Hf). unfold find_block.
  destruct (negb _) eqn:Hnz.
  - apply negb_true_iff, Z.eqb_neq in Hnz. destruct (ZEND_MM_SMALL_SIZE ts) eqn:Hsm; [|done]. unfold ZEND_MM_SMALL_SIZE in Hsm. apply Z.ltb_lt in Hsm.
    destruct (find_small_spec _ _ _ _ _ _ Hf ts ltac:(lia) H8 Hnz) as (b & s & -> & Hb & Hle). ob. exists (Some b). split; [done|].
    exists s. split; [by apply free_map_Some|done].
  - clear Hnz. destruct (search_large_spec _ _ _ _ _ _ Hf ts Hts) as (r & -> & Hr). ob. destruct r as [b|].
    + destruct Hr as (s & (Hb & _ & _) & Hle & _). exists (Some b). split; [done|]. exists s. split; [by apply free_map_Some|done].
    + destruct (_ <=? _); [|by exists None]. destruct (search_rest_all _ _ _ _ _ _ Hf ts) as (p & q & -> & Hq & Hcase). ob. rewrite Hq. ob.
      destruct (Z.eqb_spec q 0) as [->|]; [by exists None|]. exists (Some q). split; [done|].
      destruct Hcase as [[? _]|(s & Hs & ?)]; [done|]. exists s. split; [by apply free_map_Some|done].
Qed.

Lemma take_block_spec b h B C K s : mm_inv h B C K → B !! b = Some (s, false) →
  ∃ L', take_block b h = OK (s, set_hlists L' h) ∧ mm_but b (set_hlists L' h) B C K.
Proof.
  intros HI Hb. pose proof (mi_core _ _ _ _ HI) as [HG HT _ _]. unfold take_block. rewrite (check_linkage_OK HG HT _ _ Hb). ob.
  destruct (mm_take _ _ _ _ _ _ HI Hb) as (L' & -> & HC). ob. cbn [hstore set_hlists]. rewrite (read_free_size HT _ _ Hb). ob. eauto.
Qed.

(** ** Carving *)

(** [h'] with blocks [B'] is [h] with [b] used, [sz] bytes of it. *)
Definition placed b sz h B h' B' C K : Prop :=
  mm_inv h' B' C K ∧ B' !! b = Some (sz, true) ∧ (∀ a c, a ≠ b → B' !! a = Some (c, true) ↔ B !! a = Some (c, true)) ∧
  settings h' = settings h ∧ data (hstore h') = data (hstore h) ∧ heap_size h' = heap_size h ∧ real_size h' = real_size h.

Lemma place_block_spec b h B C K s u ts keep_rest : mm_but b h B C K → B !! b = Some (s, u) → no_next b s B → 32 ≤ ts ≤ s → (8 | ts) →
  (∀ St, only_block b (b + s) St = only_block b (b + s) (hstore h) → ∃ k, keep_rest St = OK k) →
  ∃ sz h' B', place_block b s ts keep_rest h = OK (sz, h') ∧ ts ≤ sz ≤ s ∧ placed b sz h B h' B' C K.
Proof.
  intros HC Hb Hn Hts H8 Hkr. destruct (but_good _ _ _ _ (mb_core _ _ _ _ _ HC) _ _ Hb) as (_ & Hs & H8s).
  unfold place_block. rewrite ulong_wrap_id by lia. destruct (Z.ltb_spec (s - ts) ZEND_MM_ALIGNED_MIN_HEADER_SIZE) as [Hlt|Hge].
  - destruct (mm_used _ _ _ _ _ HC _ _ Hb) as [-> HI]. ob. eexists s, _, _. split; [reflexivity|]. split; [lia|].
    split_and!; [exact HI|apply lookup_insert_eq|intros a c Ha; by rewrite lookup_insert_ne|done..].
  - assert (∀ St v, only_block b (b + s) (write_tag (b + ts) (s - ts) v (write_tag b ts true St)) = only_block b (b + s) St) as Hob.
    { intros St v. unfold only_block, ZEND_MM_IS_FIRST_BLOCK, ZEND_MM_IS_GUARD_BLOCK. simpl. by rewrite !lookup_insert_ne by lia. }
    assert (∃ k, keep_rest (write_tag (b + ts) (s - ts) false (write_tag b ts true (hstore h))) = OK k) as [k Hk] by (apply Hkr, Hob).
    destruct (mm_split _ _ _ _ _ HC _ _ Hb ts (λ St L, if k then zend_mm_add_to_rest_list St (b + ts) L else zend_mm_add_to_free_list St (b + ts) L))
      as (-> & HB & L' & HL & HI); [lia..|done|exact Hn|intros St; destruct k; [apply adds_rest|apply adds_free]|].
    ob. rewrite HB. ob. set (h2 := set_hstore (write_tag (b + ts) _ _ _) _) in *. assert (keep_rest (hstore h2) = OK k) as -> by exact Hk. ob.
    destruct (split_facts _ _ _ _ (mb_core _ _ _ _ _ HC) _ _ Hb ts) as (HBn & _ & _); [lia|].
    destruct k; cbv beta iota in HL; rewrite HL; ob; eexists ts, _, _; (split; [reflexivity|]); (split; [lia|]);
      (split_and!; [exact HI|rewrite lookup_insert_ne by lia; apply lookup_insert_eq| |done..]);
      intros a c Ha; (destruct (decide (b + ts = a)) as [<-|]; [rewrite lookup_insert_eq, HBn; by split|by rewrite !lookup_insert_ne]).
Qed.

(** ** A new segment *)

Lemma segment_size_spec ts h B C K : mm_side h B C K → 32 ≤ ts < 2 ^ 64 → (8 | ts) →
  ∃ n keep, segment_size_for ts h = (n, keep) ∧ (n < ts ∨ (ts + 32 ≤ n < 2 ^ 64 ∧ (8 | n))).
Proof.
  intros Hs Hts H8. destruct (ms_bs _ _ _ _ Hs) as (k & Hk & Hbs). unfold segment_size_for.
  assert (32 ≤ 2 ^ k ≤ 2 ^ 62) as Hp by (split; [change 32 with (2 ^ 5)|]; apply Z.pow_le_mono_r; lia).
  assert (8 | 2 ^ k) as H8k. { exists (2 ^ (k - 3)). change 8 with (2 ^ 3). rewrite <- Z.pow_add_r by lia. f_equal. lia. }
  rewrite Hbs, !(ulong_wrap_id (2 ^ k - _)) by lia.
  destruct (Z.ltb_spec (2 ^ k - (ZEND_MM_ALIGNED_SEGMENT_SIZE + ZEND_MM_ALIGNED_HEADER_SIZE)) ts).
  2:{ exists (2 ^ k), false. split; [done|]. right. split; [lia|done]. }
  eexists _, true. split; [reflexivity|]. rewrite land_lnot_mask by lia.
  replace (ts + ZEND_MM_ALIGNED_SEGMENT_SIZE + ZEND_MM_ALIGNED_HEADER_SIZE) with (ts + 32) by lia.
  set (x := ulong_wrap (ulong_wrap _ + _)). assert (2 ^ k * (x / 2 ^ k) ≤ x) by (apply Z.mul_div_le; lia).
  assert (x < 2 ^ k * (x / 2 ^ k) + 2 ^ k) by (pose proof (Z.mod_pos_bound x (2 ^ k) ltac:(lia)); pose proof (Z.div_mod x (2 ^ k) ltac:(lia)); lia).
  assert (8 | 2 ^ k * (x / 2 ^ k)) by (by apply Z.divide_mul_l).
  pose proof (ulong_wrap_range (ts + 32)) as Hw.
  destruct (decide (ts + 32 < 2 ^ 64)) as [Hlt|].
  - destruct (decide (ts + 32 + (2 ^ k - 1) < 2 ^ 64)).
    + right. assert (x = ts + 32 + (2 ^ k - 1)) as E by (unfold x; rewrite (ulong_wrap_id (ts + 32)), ulong_wrap_id by lia; done). split; [lia|done].
    + left. assert (x = ts + 32 + (2 ^ k - 1) - 2 ^ 64) as E.
      { unfold x. rewrite (ulong_wrap_id (ts + 32)) by lia. unfold ulong_wrap. symmetry. apply (Z.mod_unique _ _ 1); lia. }
      assert (x / 2 ^ k = 0) as -> by (apply Z.div_small; lia). lia.
  - left. assert (ulong_wrap (ts + 32) = ts + 32 - 2 ^ 64) as E by (unfold ulong_wrap; symmetry; apply (Z.mod_unique _ _ 1); lia).
    assert (x = ts + 32 - 2 ^ 64 + (2 ^ k - 1)) as E' by (unfold x; rewrite E, ulong_wrap_id by lia; done). lia.
Qed.

Lemma region_fresh R p n : regions_wf R → region_ok R p n → 0 < n → R !! p = None.
Proof.
  intros HR (_ & _ & _ & Hd) Hn. destruct (R !! p) as [m|] eqn:E; [|done]. destruct (rw_pos _ HR _ _ E) as (_ & _ & ? & _).
  pose proof (Hd _ _ E) as [?|?]; simpl in *; lia.
Qed.

Lemma entered_core St St' L B p n : core St L B → region_ok (regions St) p n → 64 ≤ n → (8 | n) → regions St' = <[p := n]> (regions St) →
  info_prev St' = <[p + 16 := 3]> (info_prev St) → info_size St' = <[p + n - 16 := 19]> (info_size St) →
  core_but (p + 16) St' L (<[p + 16 := (n - 32, true)]> B).
Proof.
  intros [HG HT Hf Hco] Hok Hn H8 E1 E2 E3.
  assert (∀ x, x < p ∨ p + n ≤ x → info_size St' !! x = info_size St !! x) as HE by (intros x Hx; rewrite E3, lookup_insert_ne by lia; done).
  apply (segment_entered (regions St)); try done; [|by eapply fl_clear|by rewrite E2, lookup_insert_eq|by rewrite E3, lookup_insert_eq].
  apply (tagged_frame _ _ St _ p n HG Hok HE); [intros x Hx; rewrite E2, lookup_insert_ne by lia; done|]. by apply (tagged_rest St).
Qed.

Lemma enter_segment_spec h B C K p n : mm_inv h B C K → region_ok (regions (hstore h)) p n → 64 ≤ n < 2 ^ 64 → (8 | n) →
  ∃ h', enter_segment p n h = OK (n - 32, h') ∧ mm_but (p + 16) h' (<[p + 16 := (n - 32, true)]> B) C K ∧
    B !! (p + 16) = None ∧ guard_at (regions (hstore h')) (p + n - 16) ∧
    settings h' = settings h ∧ data (hstore h') = data (hstore h) ∧ heap_size h' = heap_size h ∧ real_size h' = ulong_wrap (real_size h + n).
Proof.
  intros [[HG HT Hf Hco] Hs] Hok Hn H8. set (R := regions (hstore h)) in *.
  assert (B !! (p + 16) = None) as HB.
  { destruct (B !! (p + 16)) as [[s u]|] eqn:E; [|done]. destruct (geo_pos HG _ _ _ E) as (_ & _ & ? & _). destruct (clear_of _ _ _ _ _ _ _ HG Hok E); lia. }
  unfold enter_segment. set (h0 := raise_real_peak _).
  assert (hstore h0 = hstore h ∧ hlists h0 = hlists h ∧ settings h0 = settings h ∧ heap_size h0 = heap_size h ∧ segments_list h0 = segments_list h ∧
    block_size h0 = block_size h ∧ real_size h0 = ulong_wrap (real_size h + n)) as (E1 & E2 & E3 & E4 & E5 & E6 & E7) by (unfold h0, raise_real_peak; by destruct (_ <? _)).
  clearbody h0. rewrite E1, E5. fold R.
  set (St1 := put_seg_next p (segments_list h) (put_seg_size p n (set_regions (<[p := n]> R) (hstore h)))).
  set (h1 := set_segments_list p (set_hstore St1 h0)).
  assert (∀ x, p ≤ x → x + 16 ≤ p + n → ∀ St, regions St = <[p := n]> R → mapped St x) as Hmap.
  { intros x ?? St HSt. unfold mapped. rewrite HSt. exists p, n. rewrite lookup_insert_eq. done. }
  set (St2 := put_info_prev (p + 16) 3 St1). set (St3 := put_size (p + n - 16) 19 St2).
  rewrite (on_store_OK _ h1 St2) by (unfold ZEND_MM_MARK_FIRST_BLOCK, store_info_prev; rewrite decide_True by (apply Hmap; done || lia); done). ob.
  rewrite (on_store_OK _ (set_hstore St2 h1) St3).
  2:{ unfold ZEND_MM_LAST_BLOCK, store_size. replace (p + ZEND_MM_ALIGNED_SEGMENT_SIZE + (n - ZEND_MM_ALIGNED_SEGMENT_SIZE - ZEND_MM_ALIGNED_HEADER_SIZE)) with (p + n - 16) by lia.
      rewrite decide_True by (apply Hmap; done || lia). done. }
  ob. replace (n - ZEND_MM_ALIGNED_SEGMENT_SIZE - ZEND_MM_ALIGNED_HEADER_SIZE) with (n - 32) by lia.
  eexists. split; [reflexivity|]. split; [|split; [done|]; split; [exists p, n; simpl; by rewrite lookup_insert_eq|done]].
  pose proof (g_reg _ _ HG) as HRw. pose proof Hok as (Hp0 & _). split.
  - simpl. rewrite E2. apply (entered_core (hstore h)); done || lia.
  - destruct Hs as [(sl & Hsl) S2 S3 S4 S5 S6]. split; try done.
    + exists (p :: sl). eapply (segs_entered (hstore h)); try done; [by eapply segs_pos|exact (region_fresh R p n HRw Hok ltac:(lia))].
    + intros i Hi. simpl. rewrite E2. by apply S2.
    + intros i a Hi Ha. destruct (S3 i a Hi Ha) as (c & Hc & ?). exists c. split; [|done]. rewrite lookup_insert_ne; [done|]. intros <-. congruence.
    + simpl. by rewrite E6.
    + simpl. rewrite E7, S6, total_insert by exact (region_fresh R p n HRw Hok ltac:(lia)). unfold ulong_wrap. rewrite Zplus_mod_idemp_l. fold R. f_equal. apply Z.add_comm.
  - intros (i & Hi & Ha). destruct (ms_cached _ _ _ _ Hs i _ Hi Ha) as (c & Hc & _). congruence.
Qed.

(** ** The whole function *)

(** What an allocation of [size] bytes does. *)
Definition allocated (size : Z) h (U : gmap Z Z) (r : mm_result) h' : Prop :=
  match r with
  | Ptr p => ∃ s, U !! (p - 16) = None ∧ size + 16 ≤ s ∧ mm_wf h' (<[p - 16 := s]> U) ∧ config h' = config h ∧
      (real_size h' = real_size h ∨ real_size h' ≤ limit h) ∧ same_data U h h'
  | Limit_exhausted | Out_of_memory => failed h U h'
  end.

(** The program's blocks, while [b] is in nobody's hands. *)
Definition owned b B C (U : gmap Z Z) : Prop := ∀ a c, U !! a = Some c ↔ others b B a c ∧ ¬ in_cache C a.

Lemma finish_alloc_spec b h B C s u ts keep U : mm_but b h B C (cache h) → B !! b = Some (s, u) → no_next b s B → 32 ≤ ts ≤ s → (8 | ts) →
  owned b B C U → ∃ sz h', finish_alloc b s ts keep h = OK (Ptr (b + 16), h') ∧ ts ≤ sz ∧ mm_heap h' (<[b := sz]> U) ∧
    U !! b = None ∧ config h' = config h ∧ real_size h' = real_size h ∧ same_data U h h'.
Proof.
  intros HC Hb Hn Hts H8 HU. unfold owned in HU. unfold finish_alloc.
  destruct (place_block_spec b h B C (cache h) s u ts (λ _, OK keep) HC Hb Hn Hts H8) as (sz & h1 & B1 & -> & Hsz & HI & Hb1 & Ho & Hset & Hd & Hhs & Hrs); [eauto|].
  ob. eexists sz, _. split; [reflexivity|]. split; [lia|]. set (h2 := raise_peak _).
  assert (hstore h2 = hstore h1 ∧ hlists h2 = hlists h1 ∧ cache h2 = cache h1 ∧ fields h2 = fields h1 ∧ config h2 = config h1) as (E1 & E2 & E3 & E4 & E5)
    by (unfold h2, raise_peak; by destruct (_ <? _)).
  unfold settings in Hset. injection Hset as Q1 Q2 Q3 Q4 Q5 Q6.
  assert (¬ in_cache C b) as Hbc by apply HC. split.
  - apply (heap_frame h1); try done. exists B1, C. split; [by rewrite Q6|]. intros a c. unfold live.
    destruct (decide (b = a)) as [<-|Hne]; [rewrite lookup_insert_eq, Hb1; naive_solver|].
    rewrite lookup_insert_ne, HU, Ho by done. unfold others. naive_solver.
  - split_and!; [| | |].
    + destruct (U !! b) as [c|] eqn:E; [|done]. apply HU in E as [[? _] _]. done.
    + rewrite E5. unfold config. congruence.
    + unfold fields in E4. congruence.
    + intros a c x _ _. by rewrite E1, Hd.
Qed.

Lemma no_next_of_free B b s : coalesced B → B !! b = Some (s, false) → no_next b s B.
Proof. intros Hc Hb t Ht. by specialize (Hc b s t false Hb Ht). Qed.

Lemma wf_insert h' U b sz R : mm_heap h' (<[b := sz]> U) → reserve h' = R → (R = 0 ∨ is_Some (U !! (R - 16))) → mm_wf h' (<[b := sz]> U).
Proof.
  intros HH <- Hr. split; [done|]. destruct Hr as [?|Hr]; [by left|right]. apply lookup_insert_is_Some. destruct (decide (b = reserve h' - 16)); auto.
Qed.

Lemma alloc_uncached_spec size ts h U : mm_wf h U → 32 ≤ ts < 2 ^ 64 → (8 | ts) → size + 16 ≤ ts →
  ∃ r h', alloc_uncached ts h = OK (r, h') ∧ allocated size h U r h'.
Proof.
  intros Hwf Hts H8 Hsize. pose proof Hwf as [(B & C & HI & HU) Hres]. unfold alloc_uncached.
  destruct (find_block_spec _ _ _ _ ts HI Hts H8) as (r & -> & Hr). ob. destruct r as [b|].
  - destruct Hr as (s & Hb & Hle). destruct (take_block_spec _ _ _ _ _ _ HI Hb) as (L' & -> & HC). ob.
    destruct (finish_alloc_spec b (set_hlists L' h) B C s false ts false U) as (sz & h' & -> & Hsz & HH & Hn & Hcf & Hrs & Hd); try done; [|lia| |].
    + apply no_next_of_free; [apply (mi_core _ _ _ _ HI)|done].
    + intros a c. rewrite HU. unfold live, others. naive_solver.
    + exists (Ptr (b + 16)), h'. split; [done|]. unfold allocated. replace (b + 16 - 16) with b by lia. exists sz.
      split_and!; [done|lia| |done|by left|done]. eapply wf_insert; [done| |exact Hres]. unfold config in Hcf. by injection Hcf.
  - destruct (segment_size_spec ts h B C _ (mi_side _ _ _ _ HI) Hts H8) as (n & keep & -> & Hn).
    destruct ((n <? ts) || (limit h <? ulong_wrap (real_size h + n))) eqn:Hlim.
    { destruct (exhausted_spec Limit_exhausted h U Hwf) as (h' & -> & Hf). by exists Limit_exhausted, h'. }
    apply orb_false_iff in Hlim as [Hlim1 Hlim2]. apply Z.ltb_ge in Hlim1, Hlim2. destruct Hn as [?|[Hn Hn8]]; [lia|].
    destruct (storage_alloc _ n) as [p|] eqn:Hp.
    2:{ destruct (exhausted_spec Out_of_memory h U Hwf) as (h' & -> & Hf). by exists Out_of_memory, h'. }
    apply storage_alloc_ok in Hp; [|lia].
    destruct (enter_segment_spec h B C (cache h) p n HI Hp) as (h1 & -> & HC1 & HBn & Hg & Hset & Hd & _ & Hrs); [lia|done|]. ob.
    pose proof (mb_core _ _ _ _ _ HC1) as [HG1 _ _ _].
    destruct (finish_alloc_spec (p + 16) h1 (<[p + 16 := (n - 32, true)]> B) C (n - 32) true ts keep U) as (sz & h' & Hfin & Hsz & HH & HUn & Hcf & Hrs' & Hd').
    + unfold settings in Hset. injection Hset as _ _ _ _ _ ->. done.
    + apply lookup_insert_eq.
    + intros t Ht. destruct Hg as (r & m & Hrm & E). apply (block_not_guard HG1 _ _ _ _ _ Ht Hrm). lia.
    + lia.
    + done.
    + intros a c. rewrite HU. unfold live, others. destruct (decide (p + 16 = a)) as [<-|]; [rewrite lookup_insert_eq; naive_solver congruence|rewrite lookup_insert_ne by done; naive_solver].
    + exists (Ptr (p + 16 + 16)), h'. split; [exact Hfin|]. unfold allocated. replace (p + 16 + 16 - 16) with (p + 16) by lia. exists sz.
      assert (config h1 = config h) as Hc1 by (unfold settings in Hset; unfold config; congruence).
      split_and!; [done|lia| |congruence|right; by rewrite Hrs', Hrs|].
      * eapply wf_insert; [done| |exact Hres]. unfold config in Hcf, Hc1. congruence.
      * intros a c x Ha Hx. by rewrite (Hd' a c x), Hd.
Qed.

Lemma alloc_cached_spec size ts h U c : mm_wf h U → 32 ≤ ts < 544 → (8 | ts) → size + 16 ≤ ts →
  cache h !! ZEND_MM_BUCKET_INDEX ts = Some c → c ≠ Null →
  ∃ r h', alloc_cached (ZEND_MM_BUCKET_INDEX ts) ts h = OK (r, h') ∧ allocated size h U r h'.
Proof.
  intros [(B & C & HI & HU) Hres] Hts H8 Hsize Hc Hnull. set (i := ZEND_MM_BUCKET_INDEX ts) in *.
  assert (0 ≤ i < 64) as Hi by by apply bucket_index_range.
  destruct (ms_cache _ _ _ _ (mi_side _ _ _ _ HI) i Hi) as (x & Hx & Hch). assert (x = c) as -> by congruence.
  destruct (C i) as [|b l] eqn:Hl; [done|]. destruct (cache_pop _ _ _ _ _ _ _ HI Hi Hl) as (q & s & Hb & Hq & HB & Hs & His & HI' & Hn & Hcase).
  assert (c = Blk b) as -> by congruence. unfold alloc_cached. rewrite Hc. cbn [obind rd as_block]. rewrite Hq. ob.
  assert (s = ts) as ->.
  { destruct (geo_pos (co_geo _ _ _ (mi_core _ _ _ _ HI)) _ _ _ HB) as (_ & _ & ? & _ & H8s).
    rewrite (bucket_index_size s i) by (done || lia). by rewrite (bucket_index_size ts i). }
  eexists (Ptr (b + 16)), _. split; [reflexivity|]. unfold allocated. replace (b + 16 - 16) with b by lia. exists ts.
  assert (U !! b = None) as HUb.
  { destruct (U !! b) as [t|] eqn:E; [|done]. apply HU in E as [_ E]. destruct E. apply Hcase. by left. }
  split_and!; [done|lia| |done|by left|done]. eapply wf_insert; [|done|exact Hres].
  exists B, (<[i := l]> C). split; [by eapply (inv_frame h)|]. intros a t. unfold live. destruct (decide (b = a)) as [<-|Hne].
  - rewrite lookup_insert_eq, HB. naive_solver.
  - rewrite lookup_insert_ne, HU by done. unfold live. rewrite Hcase. naive_solver.
Qed.

Lemma alloc_int_spec size h U : mm_wf h U → is_ulong size →
  ∃ r h', _zend_mm_alloc_int size h = OK (r, h') ∧ allocated size h U r h'.
Proof.
  intros Hwf Hsz. pose proof Hwf as [(B & C & HI & HU) Hres]. unfold _zend_mm_alloc_int.
  destruct (true_size_spec size Hsz) as [H8 [(Hlt & Hlow & _)|(Hts & Hle & _)]].
  - unfold ZEND_MM_SMALL_SIZE. rewrite (proj2 (Z.ltb_lt _ _)) by lia. rewrite (proj2 (Z.ltb_lt (ZEND_MM_TRUE_SIZE size) size)) by done.
    destruct (safe_error_spec Out_of_memory h U Hwf) as (h' & -> & Hf). by exists Out_of_memory, h'.
  - destruct (ZEND_MM_SMALL_SIZE (ZEND_MM_TRUE_SIZE size)) eqn:Hsm; [|by apply alloc_uncached_spec].
    unfold ZEND_MM_SMALL_SIZE in Hsm. apply Z.ltb_lt in Hsm. destruct (Z.ltb_spec (ZEND_MM_TRUE_SIZE size) size); [lia|].
    destruct (ms_cache _ _ _ _ (mi_side _ _ _ _ HI) (ZEND_MM_BUCKET_INDEX (ZEND_MM_TRUE_SIZE size))) as (c & Hc & _); [apply bucket_index_range; lia|].
    rewrite Hc. ob. destruct (decide (c = Null)); [by apply alloc_uncached_spec|]. eapply alloc_cached_spec; done || lia.
Qed.

(** ** When an allocation fails *)

(** Why a request of [size] bytes ends in the error [err]: the size wraps
    around; or no large free block is long enough, and a new segment would
    exceed the limit or the storage layer has no memory for it. *)
Definition refused (err : mm_result) (size : Z) h : Prop :=
  let ts := ZEND_MM_TRUE_SIZE size in
  let n := (segment_size_for ts h).1 in
  err = Out_of_memory ∧ ts < size ∨
  (∀ F sm rs tr a s, flists (hstore h) F sm rs tr (hlists h) → large_block F rs a s → s < ts) ∧
  (err = Limit_exhausted ∧ (n < ts ∨ limit h < ulong_wrap (real_size h + n)) ∨
   err = Out_of_memory ∧ storage_alloc (regions (hstore h)) n = None).

Lemma find_block_none h ts : 32 ≤ ts < 2 ^ 64 → find_block ts h = OK None →
  ∀ F sm rs tr a s, flists (hstore h) F sm rs tr (hlists h) → large_block F rs a s → s < ts.
Proof.
  intros Hts HOK F sm rs tr a s Hf. unfold find_block in HOK. destruct (negb _).
  - apply obind_OK in HOK as (p & _ & HOK). by apply obind_OK in HOK as (b & _ & ?).
  - destruct (search_large_spec _ _ _ _ _ _ Hf ts Hts) as (r & E & Hr). rewrite E in HOK. cbn [obind] in HOK. destruct r as [b|]; [done|]. apply Hr.
Qed.

Lemma exhausted_result err h r h' : exhausted err h = OK (r, h') → r = err.
Proof.
  intros (h1 & _ & (h2 & _ & [= <- _])%obind_OK)%obind_OK. done.
Qed.

Lemma alloc_uncached_refused size h r h' : 32 ≤ ZEND_MM_TRUE_SIZE size < 2 ^ 64 →
  alloc_uncached (ZEND_MM_TRUE_SIZE size) h = OK (r, h') → match r with Ptr _ => True | _ => refused r size h end.
Proof.
  intros Hts (b & Hfb & HOK)%obind_OK. unfold finish_alloc in HOK. destruct b as [b|].
  - apply obind_OK in HOK as ([] & _ & HOK). by apply obind_OK in HOK as ([] & _ & [= <- _]).
  - pose proof (find_block_none _ _ Hts Hfb) as Hno. unfold refused. destruct (segment_size_for _ h) as [n keep]. cbn [fst].
    destruct (_ || _) eqn:Hlim; [|destruct (storage_alloc _ n) as [p|] eqn:Hp].
    + apply exhausted_result in HOK as ->. right. split; [done|]. left. split; [done|].
      apply orb_true_iff in Hlim as [Hlim|Hlim]; apply Z.ltb_lt in Hlim; auto.
    + apply obind_OK in HOK as ([] & _ & HOK). by apply obind_OK in HOK as ([] & _ & [= <- _]).
    + apply exhausted_result in HOK as ->. right. split; [done|]. by right.
Qed.

Lemma alloc_int_refused size h r h' : is_ulong size →
  _zend_mm_alloc_int size h = OK (r, h') → match r with Ptr _ => True | _ => refused r size h end.
Proof.
  intros Hsz. unfold _zend_mm_alloc_int. destruct (true_size_spec size Hsz) as [_ [(Hlt & Hlow & _)|(Hts & Hle & _)]].
  - unfold ZEND_MM_SMALL_SIZE. rewrite (proj2 (Z.ltb_lt _ _)) by lia. rewrite (proj2 (Z.ltb_lt (ZEND_MM_TRUE_SIZE size) size)) by done.
    intros (h1 & _ & [= <- _])%obind_OK. by left.
  - destruct (ZEND_MM_SMALL_SIZE _); [|by apply alloc_uncached_refused]. destruct (Z.ltb_spec (ZEND_MM_TRUE_SIZE size) size); [lia|].
    intros (c & _ & HOK)%obind_OK. destruct (decide (c = Null)); [by apply alloc_uncached_refused in HOK|].
    apply obind_OK in HOK as (x & _ & HOK). apply obind_OK in HOK as (y & _ & HOK). by apply obind_OK in HOK as (z & _ & [= <- _]).
Qed.
End alloc.
