(* ===== verification/MmRealloc.v ===== *)
(** _zend_mm_realloc_int: every way a block can be resized. *)

From stdpp Require Import functions.
From S2P Require Import Prelude ZendMmTypes MmBits ZendMmFree MmTrie MmLists MmGeo ZendAlloc MmWf MmSegs MmInv MmRelease MmFree MmAlloc.

(** * Reallocation of a whole segment *)

(** * The block behind is put back *)

(** A free block that was taken out of the lists, and nothing else was done. *)
Lemma core_restore b St L B s : core_but b St L B → tagged St B → B !! b = Some (s, false) → coalesced B →
  ∃ L', zend_mm_add_to_free_list St b L = OK L' ∧ core St L' B ∧ prev_kept (free_map (delete b B)) b L L'.
Proof.
  intros HC HT Hb Hco. destruct (but_good _ _ _ _ HC _ _ Hb) as (? & ? & ?).
  destruct (adds_free St b _ _ s (cb_fl _ _ _ _ HC)) as (L' & ? & Hf & ?).
  { by rewrite free_map_delete, lookup_delete_eq. } { split; [exact (t_size _ _ HT _ _ _ Hb)|done]. }
  exists L'. split_and!; [done| |done]. split; try done; [apply HC|].
  rewrite free_map_delete, insert_delete_eq, insert_id in Hf by (by apply free_map_Some). done.
Qed.

Lemma mm_restore b h L' B C K s : mm_inv h B C K → B !! b = Some (s, false) → mm_but b (set_hlists L' h) B C K →
  ∃ L2, add_to_free_list b (set_hlists L' h) = OK (set_hlists L2 h) ∧ mm_inv (set_hlists L2 h) B C K.
Proof.
  intros [[HG HT Hf Hco] _] Hb [Hc Hs Hn]. destruct (core_restore _ _ _ _ _ Hc HT Hb Hco) as (L2 & HL & Hc2 & Hk).
  exists L2. split; [unfold on_lists; cbn [hstore hlists set_hlists] in *; by rewrite HL|]. split; [done|].
  eapply (side_frame (set_hlists L' h)); [exact Hs|done|done|]. intros a c (i & Hi & Ha) HB. split; [done|]. simpl. apply Hk.
  - apply free_map_None. intros t [? ?]%lookup_delete_Some. congruence.
  - intros ->. by apply Hn; exists i.
Qed.

Lemma put_back_spec b s t h h1 B C K : mm_inv h B C K → B !! b = Some (s, true) → absorb (b + s) h = OK (t, h1) →
  ∃ L2, (let* free := ZEND_MM_IS_FREE_BLOCK (hstore h1) (b + s) in
         if free : bool then add_to_free_list (b + s) h1 else OK h1) = OK (set_hlists L2 h) ∧ mm_inv (set_hlists L2 h) B C K.
Proof.
  intros HI Hb Habs. pose proof (mi_core _ _ _ _ HI) as [HG HT _ _].
  assert (tagged (hstore h) (delete b B)) as HT' by (eapply tagged_sub; [apply delete_subseteq|done]).
  pose proof (read_next_free HG b HT' _ _ Hb) as Hfree. unfold absorb in Habs. rewrite Hfree in Habs. cbn [obind] in Habs. unfold free_at in *.
  destruct (B !! (b + s)) as [[c [|]]|] eqn:Hn.
  - injection Habs as _ <-. rewrite Hfree. ob. exists (hlists h). by destruct h.
  - destruct (mm_take _ _ _ _ _ _ HI Hn) as (L' & HL & HC). rewrite HL in Habs. cbn [obind] in Habs. apply obind_OK in Habs as (? & _ & [= _ <-]).
    cbn [hstore set_hlists]. rewrite Hfree. ob. by apply mm_restore with (s := c).
  - injection Habs as _ <-. rewrite Hfree. ob. exists (hlists h). by destruct h.
Qed.

(** * The segment moves *)

Lemma total_move R p n q m : R !! p = Some n → delete p R !! q = None → total (<[q := m]> (delete p R)) = total R + (m - n).
Proof. intros Hp Hq. rewrite total_insert by done. rewrite (total_delete R p n Hp). lia. Qed.

(** The list of segments with the new address in the place of the old one. *)
Lemma segs_moved St St' x x' l p m q n : regions_wf (regions St) → segs St x l → regions St !! p = Some m → 
  delete p (regions St) !! q = None → 0 < q → regions St' = <[q := n]> (delete p (regions St)) →
  seg_path (links x' St') 0 (map (λ r, if decide (r = p) then q else r) l) →
  seg_size St' !! q = Some n → (∀ r, r ≠ p → is_Some (regions St !! r) → seg_size St' !! r = seg_size St !! r) →
  segs St' x' (map (λ r, if decide (r = p) then q else r) l).
Proof.
  intros HR [_ Hnd Hd Hs] Hp Hq Hpos E Hpath Hqs Hrs.
  assert (∀ r, r ∈ l → r ≠ p → r ≠ q) as Hne.
  { intros r [k Hk]%Hd Hrp ->. by rewrite lookup_delete_ne, Hk in Hq by done. }
  assert (∀ r, r ∈ map (λ r, if decide (r = p) then q else r) l ↔ (r = q ∧ p ∈ l) ∨ (r ≠ p ∧ r ∈ l)) as Hin.
  { intros r. rewrite list_elem_of_In, in_map_iff. setoid_rewrite <- list_elem_of_In. split.
    - intros (z & Hz & Hzl). destruct (decide (z = p)) as [->|]; [left|right]; by subst.
    - intros [[-> Hpl]|[Hrp Hrl]]; [exists p; by rewrite decide_True|exists r; by rewrite decide_False]. }
  assert (p ∈ l) as Hpl by (apply Hd; eauto). split; [done| | |].
  - clear -Hnd Hne. induction l as [|r l IH]; simpl; [constructor|]. apply NoDup_cons in Hnd as [Hr Hnd].
    apply NoDup_cons. split; [|apply IH; [done|intros z ?; apply Hne; by right]].
    intros (z & Hz & Hzl%list_elem_of_In)%list_elem_of_In%in_map_iff. destruct (decide (r = p)) as [->|], (decide (z = p)) as [->|]; try done.
    + eapply (Hne z); [by right|done..].
    + by eapply (Hne r); [by left|..].
    + congruence.
  - intros r. rewrite Hin, E, lookup_insert_is_Some, lookup_delete_is_Some, Hd. destruct (decide (q = r)); naive_solver.
  - intros r [[-> _]|[Hrp Hrl]]%Hin; rewrite E; [by rewrite lookup_insert_eq|].
    pose proof (Hne r Hrl Hrp). rewrite lookup_insert_ne, lookup_delete_ne, <- Hs by done. apply Hrs; [done|by apply Hd].
Qed.

Section move.
Context (R : gmap Z Z) (p m q n : Z) (HR : regions_wf R) (Hp : R !! p = Some m) (Hok : region_ok (delete p R) q n) (Hn : 64 ≤ n < 2 ^ 64).

(** What lies in the other segments stays where it is. *)
Lemma relocate_elsewhere (M : gmap Z Z) r k x : R !! r = Some k → r ≠ p → r ≤ x < r + k → relocate p m q n M !! x = M !! x.
Proof using HR Hp Hok.
  intros Hr Hne Hx. destruct Hok as (_ & _ & _ & Hd).
  assert (q + n ≤ r ∨ r + k ≤ q) by (apply (Hd r k); by rewrite lookup_delete_ne).
  rewrite relocate_out by lia. by eapply (wipe_elsewhere R).
Qed.
Lemma moved_fresh : delete p R !! q = None.
Proof using HR Hok Hn.
  destruct Hok as (_ & _ & _ & Hd). destruct (delete p R !! q) as [k|] eqn:E; [|done]. pose proof (Hd _ _ E) as Hd'. simpl in Hd'.
  apply lookup_delete_Some in E as [_ E]. destruct (rw_pos _ HR _ _ E) as (_ & _ & ? & _). lia.
Qed.
Lemma old_length : 32 ≤ m.
Proof using HR Hp. by destruct (rw_pos _ HR _ _ Hp) as (_ & _ & ? & _). Qed.

(** The link to the segment is set to its new address. *)
Lemma relink_spec h h3 sl : regions (hstore h) = R → segs (hstore h) (segments_list h) sl → 0 ∉ sl →
  regions (hstore h3) = <[q := n]> (delete p R) → seg_next (hstore h3) = relocate p m q n (seg_next (hstore h)) →
  seg_size (hstore h3) = <[q := n]> (relocate p m q n (seg_size (hstore h))) → segments_list h3 = segments_list h →
  info_prev (hstore h3) !! (p + 16) = Some 3 ∨ q ≠ p →
  ∃ h4 sl', (if q =? p then OK h3
         else
           let* slot := find_segment (Datatypes.S (size (regions (hstore h3)))) p 0 h3 in
           on_store (ZEND_MM_MARK_FIRST_BLOCK (q + ZEND_MM_ALIGNED_SEGMENT_SIZE)) (set_segment_at slot q h3)) = OK h4 ∧
    segs (hstore h4) (segments_list h4) sl' ∧ info_prev (hstore h4) !! (q + 16) = Some 3 ∧
    (∀ x, x ≠ q + 16 → info_prev (hstore h4) !! x = info_prev (hstore h3) !! x) ∧ info_size (hstore h4) = info_size (hstore h3) ∧
    regions (hstore h4) = regions (hstore h3) ∧ data (hstore h4) = data (hstore h3) ∧ hlists h4 = hlists h3 ∧ settings h4 = settings h3 ∧
    real_size h4 = real_size h3.
Proof using HR Hp Hok Hn.
  intros ER Hsl H0 E1 E2 E3 E4 Hfirst. pose proof Hok as (Hq0 & _). pose proof moved_fresh as Hfresh. pose proof old_length as Hm.
  assert (p ∈ sl) as Hpsl by (apply (sg_dom _ _ _ Hsl); rewrite ER; eauto).
  destruct (seg_path_live _ _ _ p (sg_path _ _ _ Hsl)) as [y Hy]; [by right|]. assert (p ≠ 0) as Hp0 by congruence.
  rewrite lookup_insert_ne in Hy by done.
  assert (∀ z, z ∈ 0 :: sl → z ≠ p → links (segments_list h3) (hstore h3) !! z = links (segments_list h) (hstore h) !! z) as Hlk.
  { intros z Hz Hzp. rewrite E4. destruct (decide (0 = z)) as [<-|]; [by rewrite !lookup_insert_eq|]. rewrite !lookup_insert_ne, E2 by done.
    apply elem_of_cons in Hz as [?|Hz]; [congruence|]. apply (sg_dom _ _ _ Hsl) in Hz as [k Hz]. rewrite ER in Hz.
    destruct (rw_pos _ HR _ _ Hz) as (_ & _ & ? & _). eapply relocate_elsewhere; [done..|lia]. }
  assert (seg_next (hstore h3) !! q = Some y) as Hqy by (rewrite E2; apply relocate_in; [lia|by replace (q - q + p) with p by lia]).
  assert (q ∉ 0 :: filter (.≠ p) sl) as Hqf.
  { intros [?|[Hqp Hqs%(sg_dom _ _ _ Hsl)]%list_elem_of_filter]%elem_of_cons; [lia|]. rewrite ER in Hqs. destruct Hqs as [k Hk].
    by rewrite lookup_delete_ne, Hk in Hfresh by done. }
  assert (seg_path (<[seg_before 0 sl p := q]> (links (segments_list h3) (hstore h3))) 0 (map (λ r, if decide (r = p) then q else r) sl)) as Hpath.
  { eapply (seg_path_replace (links (segments_list h) (hstore h))); [apply Hsl| |done|done| |exact Hlk].
    - apply NoDup_cons. split; [done|apply Hsl].
    - rewrite !lookup_insert_ne by lia. by rewrite Hqy, Hy. }
  assert (∀ St x, regions St = regions (hstore h3) → seg_size St = seg_size (hstore h3) →
    seg_path (links x St) 0 (map (λ r, if decide (r = p) then q else r) sl) → segs St x (map (λ r, if decide (r = p) then q else r) sl)) as Hsegs.
  { intros St x Er Es Hpth. eapply (segs_moved (hstore h)); rewrite ?ER, ?Er, ?Es, ?E3; try done.
    - by rewrite lookup_insert_eq.
    - intros r Hrp [k Hk]. assert (q ≠ r) by (intros <-; by rewrite lookup_delete_ne, Hk in Hfresh by done).
      rewrite lookup_insert_ne by done. destruct (rw_pos _ HR _ _ Hk) as (_ & _ & ? & _). eapply relocate_elsewhere; [done..|lia]. }
  destruct (Z.eqb_spec q p) as [->|Hqp].
  - exists h3, (map (λ r, if decide (r = p) then p else r) sl). split; [done|]. destruct Hfirst as [Hfirst|?]; [|done].
    split_and!; try done. apply Hsegs; [done..|].
    replace (map (λ r, if decide (r = p) then p else r) sl) with sl by (clear; induction sl as [|r sl IH]; simpl; [done|]; rewrite <- IH; by destruct (decide (r = p)) as [->|]).
    eapply seg_path_frame; [|apply Hsl]. intros z Hz. destruct (decide (z = p)) as [->|]; [|by apply Hlk]. rewrite !lookup_insert_ne by done. by rewrite Hqy, Hy.
  - assert (length sl ≤ Datatypes.S (size (regions (hstore h3))))%nat as Hfuel.
    { pose proof (segs_length _ _ _ Hsl) as Hl. rewrite ER in Hl. rewrite E1, map_size_insert_None, map_size_delete_Some by eauto. lia. }
    assert (0 ≠ p) as Hp0' by done.
    rewrite (find_segment_spec (links (segments_list h) (hstore h)) _ h3 0 sl p (sg_path _ _ _ Hsl) Hpsl H0 Hp0' Hlk Hfuel). ob.
    set (slot := seg_before 0 sl p) in *. set (h4 := set_segment_at slot q h3).
    assert (hlists h4 = hlists h3 ∧ settings h4 = settings h3 ∧ real_size h4 = real_size h3 ∧ regions (hstore h4) = regions (hstore h3) ∧
      seg_size (hstore h4) = seg_size (hstore h3) ∧ info_size (hstore h4) = info_size (hstore h3) ∧ info_prev (hstore h4) = info_prev (hstore h3) ∧
      data (hstore h4) = data (hstore h3)) as (F1 & F2 & F3 & F4 & F5 & F6 & F7 & F8) by (unfold h4, set_segment_at; by destruct (_ =? 0)).
    pose proof (set_segment_links slot q h3) as Hset. fold h4 in Hset. clearbody h4.
    rewrite (on_store_OK _ h4 (put_info_prev (q + 16) 3 (hstore h4))).
    2:{ unfold ZEND_MM_MARK_FIRST_BLOCK, store_info_prev. rewrite decide_True; [done|]. unfold mapped. rewrite F4, E1. exists q, n.
        rewrite lookup_insert_eq. split; [done|]. simpl. lia. }
    eexists _, (map (λ r, if decide (r = p) then q else r) sl). split; [reflexivity|]. split_and!; try done.
    + apply Hsegs; [done..|]. simpl. by rewrite Hset.
    + simpl. by rewrite lookup_insert_eq.
    + intros x Hx. simpl. by rewrite lookup_insert_ne, F7 by done.
Qed.

Lemma move_segment_spec h B C K u : regions (hstore h) = R → mm_but (p + 16) h B C K → B !! (p + 16) = Some (m - 32, u) → (8 | n) →
  ∃ h', move_segment p m q n h = OK h' ∧ mm_but (q + 16) h' (<[q + 16 := (n - 32, true)]> (delete (p + 16) B)) C K ∧
    delete (p + 16) B !! (q + 16) = None ∧ guard_at (regions (hstore h')) (q + n - 16) ∧ settings h' = settings h ∧
    (∀ a c x, others (p + 16) B a c → a ≤ x < a + c → data (hstore h') !! x = data (hstore h) !! x) ∧
    (∀ i v, 0 ≤ i < Z.min m n → data (hstore h) !! (p + i) = Some v → data (hstore h') !! (q + i) = Some v).
Proof using HR Hp Hok Hn.
  intros ER HC Hb H8. pose proof HC as [Hc Hs Ho]. pose proof Hc as [HG HT _ _]. pose proof old_length as Hm. pose proof Hok as (Hq0 & _).
  destruct (ms_segs _ _ _ _ Hs) as (sl & Hsl). pose proof (segs_pos _ _ _ HG Hsl) as H0. pose proof Hp as Hp'. rewrite <- ER in Hp'.
  unfold move_segment. cbn [hstore hlists set_hlists set_hstore]. set (St := relocate_store p m q n (hstore h)).
  assert (seg_size St !! q = Some m) as ->.
  { simpl. apply relocate_in; [lia|]. replace (q - q + p) with p by lia. rewrite (sg_size _ _ _ Hsl); [done|]. apply (sg_dom _ _ _ Hsl). eauto. }
  ob. set (h2 := raise_real_peak _).
  assert (hstore h2 = St ∧ hlists h2 = wipe_lists p m (hlists h) ∧ settings h2 = settings h ∧ segments_list h2 = segments_list h ∧
    real_size h2 = ulong_wrap (real_size h + ulong_wrap (n - m))) as (D1 & D2 & D3 & D4 & D5) by (unfold h2, raise_real_peak; by destruct (_ <? _)).
  clearbody h2. rewrite D1. set (h3 := set_hstore (put_seg_size q n St) h2).
  change (regions (put_seg_size q n St)) with (regions (hstore h3)).
  destruct (relink_spec h h3 sl ER Hsl H0) as (h4 & sl' & -> & Hsl' & Hq16 & F1 & F2 & F3 & F4 & F5 & F6 & F7); [simpl; by rewrite ER|done..| |].
  { destruct (decide (q = p)) as [->|]; [left|by right]. simpl. apply relocate_in; [lia|].
    replace (p + 16 - p + p) with (p + 16) by lia. exact (t_first _ _ HT _ _ Hp'). }
  ob. replace (q + ZEND_MM_ALIGNED_SEGMENT_SIZE + (n - ZEND_MM_ALIGNED_SEGMENT_SIZE - ZEND_MM_ALIGNED_HEADER_SIZE)) with (q + n - 16) by lia.
  assert (regions (hstore h4) = <[q := n]> (delete p R)) as E4 by (rewrite F3, <- ER; done).
  rewrite (on_store_OK _ h4 (put_size (q + n - 16) 19 (hstore h4))).
  2:{ unfold ZEND_MM_LAST_BLOCK, store_size. rewrite decide_True; [done|]. unfold mapped. rewrite E4. exists q, n.
      rewrite lookup_insert_eq. split; [done|]. simpl. lia. }
  eexists. split; [reflexivity|]. set (h5 := set_hstore _ h4). destruct (segment_freed _ (hstore h) _ _ _ _ _ Hc Hb Hp') as [Hwiped Hprev]; [done..|].
  assert (delete (p + 16) B !! (q + 16) = None) as HBq.
  { destruct (delete (p + 16) B !! (q + 16)) as [[c v]|] eqn:E; [|done]. pose proof (co_geo _ _ _ Hwiped) as HGw. simpl in HGw. rewrite ER in HGw.
    destruct (geo_pos HGw _ _ _ E) as (_ & _ & ? & _). destruct (clear_of _ _ _ _ _ _ _ HGw Hok E); lia. }
  assert (core_but (q + 16) (hstore h5) (hlists h5) (<[q + 16 := (n - 32, true)]> (delete (p + 16) B))) as Hcore.
  { replace (hlists h5) with (wipe_lists p m (hlists h)) by (simpl; by rewrite F5, <- D2).
    apply (segment_moved (hstore h) (hstore h5) (hlists h) B p m q n u); simpl; rewrite ?ER; try done; [lia|..].
    - intros x Hx. rewrite lookup_insert_ne, F2 by lia. done.
    - intros x Hx. rewrite F1 by lia. done.
    - by rewrite lookup_insert_eq. }
  assert (∀ a c, in_cache C a → B !! a = Some (c, true) → delete (p + 16) B !! a = Some (c, true) ∧ a ≠ q + 16) as Hca.
  { intros a c Ha HB. assert (a ≠ p + 16) by (by intros ->). split; [by rewrite lookup_delete_ne|]. intros ->. by rewrite lookup_delete_ne, HB in HBq. }
  split; [|split; [done|]; split; [exists q, n; simpl; by rewrite E4, lookup_insert_eq|]; split; [by rewrite <- D3|split]].
  - split; [exact Hcore| |].
    + destruct Hs as [_ S2 S3 S4 S5 S6]. split; try done.
      * exists sl'. destruct Hsl' as [P1 P2 P3 P4]. by split.
      * intros i Hi. destruct (S2 i Hi) as (x & Hx & Hch). exists x. split; [done|]. eapply cchain_frame; [|exact Hch]. intros a Ha.
        destruct (S3 i a Hi Ha) as (c & Hac & _). simpl. rewrite F5. change (hlists h3) with (hlists h2). rewrite D2.
        eapply Hprev. apply (Hca a c); [by exists i|done].
      * intros i a Hi Ha. destruct (S3 i a Hi Ha) as (c & Hac & ?). exists c. split; [|done].
        destruct (Hca a c) as [? ?]; [by exists i|done|]. by rewrite lookup_insert_ne.
      * unfold settings in D3, F6. replace (block_size h5) with (block_size h) by (simpl in *; congruence). done.
      * simpl. rewrite F7, E4, (total_move R p m q n Hp moved_fresh). change (real_size h3) with (real_size h2). rewrite D5, S6, ER.
        unfold ulong_wrap. rewrite Zplus_mod_idemp_l, Zplus_mod_idemp_r. done.
    + intros (i & Hi & Ha). destruct (ms_cached _ _ _ _ Hs i _ Hi Ha) as (c & Hac & _). destruct (Hca _ _ (ex_intro _ i (conj Hi Ha)) Hac). done.
  - intros a c x [Hane Ha] Hx. simpl. rewrite F4. simpl. destruct (g_in _ _ HG _ _ _ Ha) as (r & k & Hr & ? & ?). rewrite ER in Hr.
    eapply relocate_elsewhere; [exact Hr| |lia]. intros ->. assert (k = m) as -> by congruence. destruct (geo_pos HG _ _ _ Ha) as (_ & _ & ? & _).
    destruct (g_disj _ _ HG _ _ _ _ _ _ Hb Ha); lia || done.
  - intros i v Hi Hv. simpl. rewrite F4. simpl. apply relocate_in; [lia|]. replace (q + i - q + p) with (p + i) by lia. done.
Qed.
End move.

(** * _zend_mm_realloc_int *)

(** * memcpy *)

Lemma memcpy_foldr dst src l (D : gmap Z Z) x :
  foldr (λ i D', match D !! (src + i) with Some v => <[dst + i := v]> D' | None => delete (dst + i) D' end) D l !! x =
  if decide (x - dst ∈ l) then D !! (src + (x - dst)) else D !! x.
Proof.
  induction l as [|i l IH]; [destruct (decide (x - dst ∈ [])) as [Hin|]; [by apply elem_of_nil in Hin|done]|]. cbn [foldr].
  destruct (decide (x - dst = i)) as [<-|Hne].
  - rewrite decide_True by by left. replace (dst + (x - dst)) with x by lia.
    destruct (D !! (src + (x - dst))); [by rewrite lookup_insert_eq|by rewrite lookup_delete_eq].
  - rewrite (decide_ext (x - dst ∈ i :: l) (x - dst ∈ l)), <- IH by (rewrite elem_of_cons; tauto).
    destruct (D !! (src + i)); [rewrite lookup_insert_ne by lia|rewrite lookup_delete_ne by lia]; done.
Qed.
Lemma memcpy_spec dst src n (D : gmap Z Z) x :
  mm_memcpy dst src n D !! x = if decide (dst ≤ x < dst + n) then D !! (src + (x - dst)) else D !! x.
Proof.
  unfold mm_memcpy. rewrite memcpy_foldr.
  rewrite (decide_ext (x - dst ∈ seqZ 0 n) (dst ≤ x < dst + n)); [done|]. rewrite elem_of_seqZ. lia.
Qed.

Section realloc.
Context `{MMStorage}.
Implicit Types (h : zend_mm_heap) (B : blocks) (C : Z → list Z) (K : gmap Z fptr) (U : gmap Z Z).

(** What resizing the block [b] of [s] bytes does. *)
Definition reallocated (b s size : Z) h U (r : mm_result) h' : Prop :=
  match r with
  | Ptr p => ∃ s', delete b U !! (p - 16) = None ∧ size + 16 ≤ s' ∧ mm_wf h' (<[p - 16 := s']> (delete b U)) ∧ config h' = config h ∧
      same_data (delete b U) h h' ∧
      ∀ i v, 0 ≤ i < Z.min s s' - 16 → data (hstore h) !! (b + 16 + i) = Some v → data (hstore h') !! (p + i) = Some v
  | Limit_exhausted | Out_of_memory => failed h U h'
  end.

(** What the program writes to its blocks is of no concern to the heap. *)
Lemma inv_data D h B C K : mm_inv h B C K → mm_inv (set_hstore (set_data D (hstore h)) h) B C K.
Proof.
  intros [[HG HT Hf Hc] [(sl & [? ? ? ?]) ? ? ? ? ?]]. split; [split; try done|split; try done].
  - by apply (tagged_rest (hstore h)).
  - by apply (fl_frame (hstore h)).
  - by exists sl.
Qed.
Lemma heap_data D h U : mm_heap h U → mm_heap (set_hstore (set_data D (hstore h)) h) U.
Proof. intros (B & C & HI & HU). exists B, C. split; [by apply inv_data|done]. Qed.

Lemma wf_replace h h' U b q sz : mm_wf h U → reserve h ≠ b + 16 → config h' = config h → mm_heap h' (<[q := sz]> (delete b U)) →
  mm_wf h' (<[q := sz]> (delete b U)).
Proof.
  intros [_ Hr] Hb Hc HH. eapply wf_insert; [done|done|]. unfold config in Hc. injection Hc as _ _ _ -> _.
  destruct Hr as [?|Hr]; [by left|right]. rewrite lookup_delete_ne by lia. done.
Qed.

(** ** In place *)

Lemma realloc_shrink_spec h U b s size ts : mm_wf h U → U !! b = Some s → reserve h ≠ b + 16 → size + 16 ≤ ts → 32 ≤ ts ≤ s → (8 | ts) →
  ∃ r h', realloc_shrink b s ts h = OK (r, h') ∧ reallocated b s size h U r h'.
Proof.
  intros Hwf Hb Hres Hsize Hts H8. unfold realloc_shrink. destruct (Z.ltb_spec (s - ts) ZEND_MM_ALIGNED_MIN_HEADER_SIZE).
  - eexists (Ptr (b + 16)), h. split; [done|]. unfold reallocated. replace (b + 16 - 16) with b by lia. exists s.
    rewrite lookup_delete_eq, insert_delete_eq, insert_id by done. split_and!; try done; lia.
  - pose proof Hwf as [(B & C & HI & HU) _]. pose proof Hb as [HB HC]%HU.
    rewrite absorb_early. destruct (absorb_spec _ _ _ _ _ _ _ (mm_open _ _ _ _ _ _ HI HB HC) HB) as (t & L' & B1 & -> & HC1 & HB1 & Ht & Ho & Hn & _).
    ob. cbn [fst snd]. destruct (mm_split _ _ _ _ _ HC1 _ _ HB1 ts (λ St L, zend_mm_add_to_free_list St (b + ts) L)) as (-> & HB2 & L2 & HL2 & HI2);
      [lia..|done|exact Hn|intros St; apply adds_free|]. ob.
    replace (s - ts + t) with (s + t - ts) by lia. rewrite HB2. ob. rewrite HL2. ob. eexists (Ptr (b + 16)), _. split; [reflexivity|].
    destruct (split_facts _ _ _ _ (mb_core _ _ _ _ _ HC1) _ _ HB1 ts) as (HBn & _ & _); [lia|].
    unfold reallocated. replace (b + 16 - 16) with b by lia. exists ts. rewrite lookup_delete_eq. split_and!; try done.
    apply (wf_replace h); try done. match type of HI2 with mm_inv ?x _ _ _ => apply (heap_frame x); [done..|] end. rewrite insert_delete_eq. eexists _, C. split; [exact HI2|].
    intros a c. unfold live. destruct (decide (b = a)) as [<-|Hne].
    + rewrite lookup_insert_eq, lookup_insert_ne, lookup_insert_eq by lia. naive_solver.
    + specialize (Ho a c). unfold others in Ho. rewrite lookup_insert_ne, HU by done. unfold live.
      destruct (decide (b + ts = a)) as [<-|]; [rewrite lookup_insert_eq; naive_solver congruence|]. rewrite !lookup_insert_ne by done. naive_solver.
Qed.

Lemma realloc_extend_spec h U b s size ts t : mm_wf h U → U !! b = Some s → reserve h ≠ b + 16 → size + 16 ≤ ts → s ≤ ts ≤ s + t → (8 | ts) →
  ZEND_MM_IS_FREE_BLOCK (hstore h) (b + s) = OK true → ZEND_MM_FREE_BLOCK_SIZE (hstore h) (b + s) = OK t →
  ∃ r h', realloc_extend b s t ts h = OK (r, h') ∧ reallocated b s size h U r h'.
Proof.
  intros Hwf Hb Hres Hsize Hts H8 Hfree Hsz. destruct (heap_block _ _ _ _ (proj1 Hwf) Hb) as (_ & Hs & _ & _ & _).
  pose proof Hwf as [(B & C & HI & HU) _]. pose proof Hb as [HB HC]%HU.
  destruct (absorb_spec _ _ _ _ _ _ _ (mm_open _ _ _ _ _ _ HI HB HC) HB) as (t' & L' & B1 & Habs & HC1 & HB1 & Ht & Ho & Hn & _).
  unfold absorb in Habs. rewrite Hfree in Habs. cbn [obind] in Habs. apply obind_OK in Habs as (h1 & Hrem & Habs).
  apply obind_OK in Habs as (t'' & Hsz' & [= -> ->]). unfold realloc_extend. rewrite Hrem. ob.
  cbn [hstore set_hlists] in Hsz'. rewrite Hsz in Hsz'. injection Hsz' as <-.
  destruct (place_block_spec b (set_hlists L' h) B1 C _ _ _ ts (only_block b (b + (s + t))) HC1 HB1 Hn) as (sz & h2 & B2 & Hpl & Hsz2 & HI2 & HB2 & Ho2 & Hset & Hd & _ & Hrs);
    [lia|done| |].
  { intros St ->. destruct (only_block_spec _ _ _ _ _ HC1 _ _ HB1) as (o & -> & _). eauto. }
  replace (b + s + t) with (b + (s + t)) by lia. rewrite Hpl. ob. eexists (Ptr (b + 16)), _. split; [reflexivity|].
  set (h3 := resize_heap sz s h2).
  assert (hstore h3 = hstore h2 ∧ hlists h3 = hlists h2 ∧ cache h3 = cache h2 ∧ fields h3 = fields h2 ∧ config h3 = config h2) as (E1 & E2 & E3 & E4 & E5)
    by (unfold h3, resize_heap, raise_peak; by destruct (_ <? _)).
  unfold settings in Hset. injection Hset as Q1 Q2 Q3 Q4 Q5 Q6. unfold reallocated. replace (b + 16 - 16) with b by lia. exists sz.
  assert (config h3 = config h) as Hcf by (rewrite E5; unfold config; simpl in *; congruence).
  rewrite E1, Hd, lookup_delete_eq.
  split_and!; try done; [lia| |intros a c x _ _; by rewrite E1, Hd].
  apply (wf_replace h); try done. apply (heap_frame h2); try done. exists B2, C. rewrite insert_delete_eq. simpl in Q6. split; [by rewrite Q6|].
  intros a c. unfold live. destruct (decide (b = a)) as [<-|Hne]; [rewrite lookup_insert_eq, HB2; naive_solver|].
  rewrite lookup_insert_ne, HU, Ho2 by done. specialize (Ho a c). unfold others in Ho. unfold live. naive_solver.
Qed.

(** ** Through the cache *)

Lemma realloc_cached_spec h U b s size ts c : mm_wf h U → U !! b = Some s → reserve h ≠ b + 16 → size + 16 ≤ ts → s ≤ size + 16 → s < ts < 544 → (8 | ts) →
  cache h !! ZEND_MM_BUCKET_INDEX ts = Some c → c ≠ Null →
  ∃ r h', realloc_cached b s ts c h = OK (r, h') ∧ reallocated b s size h U r h'.
Proof.
  intros Hwf Hb Hres Hsize Hgrow Hts H8 Hc Hnull. destruct (heap_block _ _ _ _ (proj1 Hwf) Hb) as (_ & Hs & _ & H8s & _).
  destruct (alloc_cached_spec size ts h U c Hwf) as (r & h1 & Hal & Hpost); [lia|done..|].
  unfold alloc_cached in Hal. rewrite Hc in Hal. cbn [obind rd] in Hal. apply obind_OK in Hal as (bf & Hbf & Hal).
  apply obind_OK in Hal as (next & Hnext & [= <- <-]). destruct Hpost as (s' & HUb & Hs' & [HH1 _] & _ & _ & _).
  replace (bf + ZEND_MM_ALIGNED_HEADER_SIZE - 16) with bf in * by lia. assert (bf ≠ b) as Hne by congruence.
  unfold realloc_cached. rewrite Hbf. ob. rewrite Hnext. ob. set (D := mm_memcpy _ _ _ _).
  set (h2 := set_cached _ (set_hstore _ _)).
  assert (mm_heap h2 (<[bf := s']> U)) as HH2 by (eapply heap_frame; [..|exact (heap_data D _ _ HH1)]; done).
  assert (<[bf := s']> U !! b = Some s) as Hb2 by (by rewrite lookup_insert_ne).
  pose proof HH2 as (B & C & HI & _). destruct (ms_cache _ _ _ _ (mi_side _ _ _ _ HI) (ZEND_MM_BUCKET_INDEX s)) as (c2 & Hc2 & _); [apply bucket_index_range; lia|].
  pose proof (cache_push_heap h2 _ b s c2 HH2 Hb2 ltac:(lia) Hc2) as HH3.
  rewrite Hc2. ob.
  eexists (Ptr _), _. split; [reflexivity|]. unfold reallocated. replace (bf + ZEND_MM_ALIGNED_HEADER_SIZE - 16) with bf by lia. exists s'.
  rewrite delete_insert_ne in HH3 by done.
  assert (∀ a c x, <[bf := s']> (delete b U) !! a = Some c → a ≠ bf → a ≤ x < a + c → D !! x = data (hstore h) !! x) as HD.
  { intros a c' x Ha Hne' Hx. unfold D. rewrite memcpy_spec, decide_False; [done|]. rewrite lookup_insert_ne, lookup_delete_Some in Ha by done. destruct Ha as [_ Ha].
    destruct (heap_disjoint _ _ bf s' a c' HH1); [by rewrite lookup_insert_eq|by rewrite lookup_insert_ne|done|lia..]. }
  split_and!; try done.
  - by rewrite lookup_delete_ne.
  - apply (wf_replace h); try done.
  - intros a c' x Ha Hx. simpl. apply (HD a c' x); [|by intros ->; rewrite lookup_delete_ne in Ha by done; congruence|done].
    rewrite lookup_insert_ne; [done|]. intros <-. rewrite lookup_delete_ne in Ha by done. congruence.
  - intros i v Hi Hv. simpl. unfold D. rewrite memcpy_spec, decide_True by lia. rewrite <- Hv. f_equal. lia.
Qed.

(** ** By a new block *)

Lemma realloc_move_spec h U b s size : mm_wf h U → U !! b = Some s → reserve h ≠ b + 16 → is_ulong size → s ≤ size + 16 →
  ∃ r h', realloc_move b s size h = OK (r, h') ∧ reallocated b s size h U r h'.
Proof.
  intros Hwf Hb Hres Hsz Hle. unfold realloc_move. destruct (alloc_int_spec size h U Hwf Hsz) as (r & h1 & -> & Hpost). ob.
  destruct r as [p| |]; [|by eexists _, h1..]. destruct Hpost as (s' & HUp & Hs' & Hwf1 & Hcf & Hlim & Hd).
  assert (p - 16 ≠ b) as Hne by congruence. set (D := mm_memcpy _ _ _ _). set (h2 := set_hstore _ h1).
  assert (mm_heap h2 (<[p - 16 := s']> U)) as HH2 by (apply heap_data, Hwf1).
  destruct (free_int_spec h2 _ b s HH2) as (h' & HOK & HH' & Hcf' & Hd'); [by rewrite lookup_insert_ne|].
  replace (b + ZEND_MM_ALIGNED_HEADER_SIZE) with (b + 16) by lia. rewrite HOK. ob. eexists (Ptr p), h'. split; [done|].
  rewrite delete_insert_ne in HH', Hd' by done. exists s'.
  assert (∀ a c x, <[p - 16 := s']> (delete b U) !! a = Some c → a ≠ p - 16 → a ≤ x < a + c → D !! x = data (hstore h1) !! x) as HD.
  { intros a c' x Ha Hne' Hx. unfold D. rewrite memcpy_spec, decide_False; [done|]. rewrite lookup_insert_ne, lookup_delete_Some in Ha by done. destruct Ha as [_ Ha].
    destruct (heap_disjoint _ _ (p - 16) s' a c' HH2); [by rewrite lookup_insert_eq|by rewrite lookup_insert_ne|done|lia..]. }
  assert (config h' = config h) as Hc by (rewrite Hcf'; exact Hcf). split_and!; try done.
  - by rewrite lookup_delete_ne.
  - by apply (wf_replace h).
  - intros a c x Ha Hx. assert (a ≠ p - 16) by (intros ->; rewrite lookup_delete_Some in Ha; destruct Ha; congruence).
    rewrite (Hd' a c x) by (done || by rewrite lookup_insert_ne). change (data (hstore h2)) with D.
    rewrite (HD a c x) by (done || by rewrite lookup_insert_ne). apply (Hd a c x); [|done]. by apply lookup_delete_Some in Ha as [_ ?].
  - intros i v Hi Hv. rewrite (Hd' (p - 16) s' (p + i)) by (rewrite ?lookup_insert_eq; done || lia).
    simpl. unfold D. rewrite memcpy_spec, decide_True by lia. replace (b + ZEND_MM_ALIGNED_HEADER_SIZE + (p + i - p)) with (b + 16 + i) by lia.
    by rewrite (Hd b s) by (done || lia).
Qed.

(** ** With its segment *)

(** If [b] begins a segment, the storage layer can reallocate that segment to the
    length needed for [ts] bytes. *)
Definition can_grow b ts h : Prop :=
  is_Some (regions (hstore h) !! (b - 16)) → is_Some (storage_realloc (regions (hstore h)) (b - 16) (segment_size_for ts h).1).

Lemma failed_from h h2 U h' : config h2 = config h → data (hstore h2) = data (hstore h) → failed h2 U h' → failed h U h'.
Proof.
  intros Hc Hd (Hw & Hr & Hs). unfold config in Hc. injection Hc as _ _ _ Q _. unfold failed, after_error, same_data in *. rewrite Q, Hd in *. done.
Qed.

Lemma realloc_segment_spec h U b s size ts t h1 : mm_wf h U → U !! b = Some s → reserve h ≠ b + 16 → size + 16 ≤ ts → s < ts < 2 ^ 64 → (8 | ts) →
  absorb (b + s) h = OK (t, h1) → only_block b (b + (s + t)) (hstore h) = OK true → can_grow b ts h →
  ∃ r h', realloc_segment b s ts h1 = OK (r, h') ∧ reallocated b s size h U r h'.
Proof.
  intros Hwf Hb Hres Hsize Hts H8 Habs Honly Hcan. destruct (heap_block _ _ _ _ (proj1 Hwf) Hb) as (_ & Hs & _ & _ & _).
  pose proof Hwf as [(B & C & HI & HU) Hr]. pose proof Hb as [HB HC]%HU.
  destruct (put_back_spec _ _ _ _ _ _ _ _ HI HB Habs) as (L2 & Hback & HI2).
  destruct (absorb_spec _ _ _ _ _ _ _ (mm_open _ _ _ _ _ _ HI HB HC) HB) as (t' & L' & B1 & Habs' & HC1 & HB1 & Ht & Ho & _ & _).
  rewrite Habs in Habs'. injection Habs' as <- ->.
  destruct (only_block_spec _ _ _ _ _ HC1 _ _ HB1) as (o & Ho' & Hseg). cbn [hstore set_hlists] in Ho'. rewrite Honly in Ho'. injection Ho' as <-.
  destruct Hseg as (r & n & Hrn & Ebr & Esn). cbn [hstore set_hlists] in Hrn. pose proof (mb_core _ _ _ _ _ HC1) as [HG1 _ _ _].
  unfold realloc_segment. change (segment_size_for ts (set_hlists L' h)) with (segment_size_for ts h).
  destruct (segment_size_spec ts h B C _ (mi_side _ _ _ _ HI)) as (n' & keep & Hssf & Hn'); [lia|done|]. unfold can_grow in Hcan. rewrite Hssf in Hcan |- *.
  cbn [fst] in Hcan. replace (b - ZEND_MM_ALIGNED_SEGMENT_SIZE) with r by lia. replace (b - 16) with r in Hcan by lia. cbn [hstore set_hlists].
  destruct (ms_segs _ _ _ _ (mi_side _ _ _ _ HI)) as (sl & Hsl). rewrite (sg_size _ _ _ Hsl r), Hrn by (apply (sg_dom _ _ _ Hsl); eauto). ob.
  destruct (_ || _) eqn:Hlim.
  - cbn [hstore set_hlists] in Hback. rewrite Hback. ob.
    destruct (exhausted_spec Limit_exhausted (set_hlists L2 h) U) as (h' & -> & Hf); [split; [by exists B, C|done]|].
    exists Limit_exhausted, h'. split; [done|]. by eapply (failed_from h (set_hlists L2 h)).
  - apply orb_false_iff in Hlim as [Hlim _]. apply Z.ltb_ge in Hlim. destruct Hn' as [?|[Hn' Hn8]]; [lia|].
    destruct (Hcan (ex_intro _ n Hrn)) as [q Hq]. rewrite Hq. apply storage_realloc_ok with (m := n) in Hq; [|lia|done].
    rewrite Ebr in HC1, HB1. rewrite Esn in HB1.
    destruct (move_segment_spec (regions (hstore h)) r n q n' (g_reg _ _ HG1) Hrn Hq ltac:(lia) (set_hlists L' h) B1 C (cache h) true eq_refl HC1 HB1 Hn8)
      as (h2 & -> & HC2 & HBq & Hg & Hset & Hd & Hcopy). ob.
    replace (q + ZEND_MM_ALIGNED_SEGMENT_SIZE) with (q + 16) by lia. replace (n' - ZEND_MM_ALIGNED_SEGMENT_SIZE - ZEND_MM_ALIGNED_HEADER_SIZE) with (n' - 32) by lia.
    pose proof (mb_core _ _ _ _ _ HC2) as [HG2 _ _ _].
    destruct (place_block_spec (q + 16) h2 _ C _ (n' - 32) true ts (λ _, OK true) HC2 (lookup_insert_eq _ _ _)) as (sz & h3 & B3 & -> & Hsz & HI3 & HB3 & Ho3 & Hset3 & Hd3 & _ & _);
      [|lia|done|eauto|].
    { intros c Hc. destruct Hg as (r2 & m2 & Hr2 & E2). apply (block_not_guard HG2 _ _ _ _ _ Hc Hr2). lia. }
    ob. set (h4 := resize_heap sz s h3).
    assert (hstore h4 = hstore h3 ∧ hlists h4 = hlists h3 ∧ cache h4 = cache h3 ∧ fields h4 = fields h3 ∧ config h4 = config h3) as (E1 & E2 & E3 & E4 & E5)
      by (unfold h4, resize_heap, raise_peak; by destruct (_ <? _)).
    unfold settings in Hset, Hset3. cbn in Hset. injection Hset as Q1 Q2 Q3 Q4 Q5 Q6. injection Hset3 as W1 W2 W3 W4 W5 W6.
    eexists (Ptr (q + 16 + 16)), h4. split; [done|]. unfold reallocated. replace (q + 16 + 16 - 16) with (q + 16) by lia. exists sz.
    assert (∀ a c, delete b U !! a = Some c ↔ others b B1 a c ∧ ¬ in_cache C a) as HUo.
    { intros a c. rewrite lookup_delete_Some, HU. specialize (Ho a c). unfold live, others in *. naive_solver. }
    split_and!; [|lia| |rewrite E5; unfold config; congruence| |].
    + destruct (delete b U !! (q + 16)) as [c|] eqn:E; [|done]. apply HUo in E as [[? ?] _]. rewrite lookup_delete_ne in HBq by lia. congruence.
    + apply (wf_replace h); try done; [rewrite E5; unfold config; congruence|]. apply (heap_frame h3); try done. exists B3, C.
      split; [by rewrite W6, Q6|]. intros a c. unfold live. destruct (decide (q + 16 = a)) as [<-|Hne].
      * rewrite lookup_insert_eq, HB3. split; [intros [= <-]; split; [done|apply HC2]|naive_solver].
      * rewrite lookup_insert_ne, Ho3, lookup_insert_ne, HUo by done. rewrite <- Ebr. unfold others. rewrite lookup_delete_Some. naive_solver.
    + intros a c x Ha Hx. rewrite E1, Hd3. apply HUo in Ha as [Ha _]. rewrite <- Ebr in Hd. by apply (Hd a c x).
    + intros i v Hi Hv. rewrite E1, Hd3. replace (q + 16 + 16 + i) with (q + (32 + i)) by lia. apply Hcopy; [lia|].
      cbn [hstore set_hlists]. rewrite <- Hv. f_equal. lia.
Qed.

(** ** The whole function *)

Lemma realloc_grow_spec h U b s size ts : mm_wf h U → U !! b = Some s → reserve h ≠ b + 16 → is_ulong size → size + 16 ≤ ts → s ≤ size + 16 →
  s < ts < 2 ^ 64 → (8 | ts) → can_grow b ts h → ∃ r h', realloc_grow b s ts size h = OK (r, h') ∧ reallocated b s size h U r h'.
Proof.
  intros Hwf Hb Hres Hul Hsize Hgrow Hts H8 Hcan. pose proof Hwf as [(B & C & HI & HU) Hr]. pose proof Hb as [HB HC]%HU.
  pose proof (mm_open _ _ _ _ _ _ HI HB HC) as HO. pose proof (mi_core _ _ _ _ HI) as [HG HT _ _]. pose proof (mb_core _ _ _ _ _ HO) as [_ HT' _ _].
  destruct (absorb_spec _ _ _ _ _ _ _ HO HB) as (t & L' & B1 & Habs & HC1 & HB1 & _ & _ & _ & _).
  destruct (only_block_spec _ _ _ _ _ HC1 _ _ HB1) as (o & Honly & _). cbn [hstore set_hlists] in Honly.
  unfold realloc_grow. pose proof Habs as Habs0. unfold absorb in Habs0. rewrite (read_next_free HG b HT' _ _ HB) in Habs0 |- *. cbn [obind] in *.
  unfold free_at in *. destruct (B !! (b + s)) as [[c [|]]|] eqn:Hn; cbn beta iota in *.
  - injection Habs0 as <- Eh. rewrite Z.add_0_r in Honly. rewrite Honly. ob. destruct o; [|by apply realloc_move_spec].
    eapply realloc_segment_spec; try done; [by rewrite Habs, <- Eh|by rewrite Z.add_0_r].
  - rewrite (check_linkage_OK HG HT _ _ Hn). ob. rewrite (read_free_size HT _ _ Hn). ob.
    apply obind_OK in Habs0 as (h1 & Hrem & Habs0). apply obind_OK in Habs0 as (c' & Hc' & [= -> ->]).
    cbn [hstore set_hlists] in Hc'. rewrite (read_free_size HT _ _ Hn) in Hc'. injection Hc' as <-.
    destruct (Z.leb_spec ts (s + c)).
    + eapply realloc_extend_spec; try done; [lia| |by apply (read_free_size HT)].
      rewrite (read_next_free HG b HT' _ _ HB). unfold free_at. by rewrite Hn.
    + replace (b + s + c) with (b + (s + c)) by lia. rewrite Honly. ob. destruct o; [|by apply realloc_move_spec].
      rewrite Hrem. ob. by eapply realloc_segment_spec.
  - injection Habs0 as <- Eh. rewrite Z.add_0_r in Honly. rewrite Honly. ob. destruct o; [|by apply realloc_move_spec].
    eapply realloc_segment_spec; try done; [by rewrite Habs, <- Eh|by rewrite Z.add_0_r].
Qed.

Lemma realloc_int_spec h U b s size : mm_wf h U → U !! b = Some s → reserve h ≠ b + 16 → is_ulong size → can_grow b (ZEND_MM_TRUE_SIZE size) h →
  ∃ r h', _zend_mm_realloc_int (b + 16) size h = OK (r, h') ∧ reallocated b s size h U r h'.
Proof.
  intros Hwf Hb Hres Hsz Hcan. destruct (heap_block _ _ _ _ (proj1 Hwf) Hb) as (Hb0 & Hs & _ & H8s & _). pose proof Hwf as [(B & C & HI & HU) _].
  pose proof Hb as [HB _]%HU. unfold _zend_mm_realloc_int. destruct (Z.eqb_spec (b + 16) 0); [lia|].
  replace (b + 16 - ZEND_MM_ALIGNED_HEADER_SIZE) with b by lia.
  rewrite (read_size (co_geo _ _ _ (mi_core _ _ _ _ HI)) (co_tag _ _ _ (mi_core _ _ _ _ HI)) _ _ _ HB). ob.
  destruct (true_size_spec size Hsz) as [H8 [(Hlt & _ & _)|(Hts & Hle & Hbound)]].
  { rewrite (proj2 (Z.ltb_lt _ _)) by done. destruct (safe_error_spec Out_of_memory h U Hwf) as (h' & -> & Hf). by exists Out_of_memory, h'. }
  set (ts := ZEND_MM_TRUE_SIZE size) in *. destruct (Z.ltb_spec ts size); [lia|].
  destruct (Z.leb_spec ts s); [apply realloc_shrink_spec; done || lia|].
  assert (s ≤ size + 16) as Hgrow by (destruct H8 as [x ?], H8s as [y ?]; lia).
  destruct (ZEND_MM_SMALL_SIZE ts) eqn:Hsm; [|apply realloc_grow_spec; done || lia].
  unfold ZEND_MM_SMALL_SIZE in Hsm. apply Z.ltb_lt in Hsm.
  destruct (ms_cache _ _ _ _ (mi_side _ _ _ _ HI) (ZEND_MM_BUCKET_INDEX ts)) as (c & Hc & _); [apply bucket_index_range; lia|].
  rewrite Hc. ob. destruct (decide (c = Null)); [apply realloc_grow_spec; done || lia|apply realloc_cached_spec; done || lia].
Qed.
End realloc.
