(* ===== verification/MmLife.v ===== *)
(** Start and end of a request, and the engine's allocation functions. *)

From stdpp Require Import functions.
From S2P Require Import Prelude Cyc ZendMmTypes MmBits ZendMmFree MmTrie MmLists MmGeo ZendAlloc MmWf MmSegs MmInv MmRelease MmFree MmAlloc MmRealloc.

(** * Start and end of a request *)

(** * zend_mm_init *)

Lemma init_buckets_foldr L0 l : let L := foldr (λ i L, put_cell (Bucket i) 0 (put_prev (Small i) (Small i) (put_next (Small i) (Small i) L))) L0 l in
  scalars L = scalars L0 ∧ ∀ i, i ∈ l → prev_free_block L !! Small i = Some (Small i) ∧ next_free_block L !! Small i = Some (Small i) ∧ cells L !! Bucket i = Some 0.
Proof.
  induction l as [|j l [IH1 IH2]]; simpl; [split; [done|by intros i ?%elem_of_nil]|]. split; [done|]. intros i Hi.
  destruct (decide (i = j)) as [->|Hne]; [by rewrite !lookup_insert_eq|].
  apply elem_of_cons in Hi as [?|Hi]; [done|]. rewrite !lookup_insert_ne by congruence. by apply IH2.
Qed.

Lemma init_buckets_fl St L0 l : free_bitmap L0 = 0 → large_free_bitmap L0 = 0 → (∀ i, 0 ≤ i < 64 → i ∈ l) →
  fl St ∅ (set_rest_count 0 (put_prev Rest Rest (put_next Rest Rest
    (foldr (λ i L, put_cell (Bucket i) 0 (put_prev (Small i) (Small i) (put_next (Small i) (Small i) L))) L0 l)))).
Proof.
  intros HE1 HE2 Hin. destruct (init_buckets_foldr L0 l) as [Hsc Hb].
  set (L1 := foldr _ _ _) in *. clearbody L1. unfold scalars in Hsc. injection Hsc as E1 E2 _. rewrite HE1 in E1. rewrite HE2 in E2. exists (λ _, []), [], (λ _, Leaf).
  split; simpl; try done.
  - intros i Hi. destruct (Hb i (Hin i Hi)) as (H1 & H2 & _). split; [apply NoDup_singleton|]. simpl. by rewrite !lookup_insert_ne.
  - split; [apply NoDup_singleton|]. simpl. by rewrite !lookup_insert_eq.
  - intros i Hi. by destruct (Hb i (Hin i Hi)) as (_ & _ & H3).
  - intros i Hi. constructor.
  - intros i a _. split; [by intros ?%elem_of_nil|by intros (s & ? & _)].
  - intros i a _. split; [by intros ?%elem_of_nil|by intros (s & ? & _)].
  - by intros a ?%elem_of_nil.
  - by rewrite E1.
  - intros i. by rewrite E1, Z.testbit_0_l.
  - by rewrite E2.
  - intros i Hi. by rewrite E2, Z.testbit_0_l.
Qed.

(** All buckets are empty. *)
Lemma fl_init St L : fl St ∅ (init_lists L).
Proof. apply init_buckets_fl; [done..|]. intros i Hi. apply elem_of_seqZ. lia. Qed.

Lemma init_cache_foldr l (M : gmap Z fptr) i : i ∈ l → foldr (λ i M, <[i := Null]> M) M l !! i = Some Null.
Proof.
  induction l as [|j l IH]; [by intros ?%elem_of_nil|]. simpl. destruct (decide (j = i)) as [->|]; [by rewrite lookup_insert_eq|].
  intros [?|?]%elem_of_cons; [done|]. rewrite lookup_insert_ne by done. by apply IH.
Qed.
Lemma init_side h B sl : segs (hstore h) (segments_list h) sl → (∃ k, 5 ≤ k ≤ 62 ∧ block_size h = 2 ^ k) →
  real_size h = ulong_wrap (total (regions (hstore h))) → mm_side (zend_mm_init h) B (λ _, []) (cache (zend_mm_init h)).
Proof.
  intros Hsl Hk Hr. split; try done.
  - by exists sl.
  - intros i Hi. exists Null. split; [|done]. apply init_cache_foldr, elem_of_seqZ. lia.
  - intros i b _ ?%elem_of_nil. done.
  - intros i _. constructor.
Qed.
Lemma no_cache b : ¬ in_cache (λ _, []) b.
Proof. by intros (i & _ & ?%elem_of_nil). Qed.

Lemma geo_empty : geo ∅ ∅.
Proof. split; try done. by intros a [? ?]. Qed.

(** A heap without segments. *)
Lemma init_wf h : regions (hstore h) = ∅ → segments_list h = 0 → (∃ k, 5 ≤ k ≤ 62 ∧ block_size h = 2 ^ k) → real_size h = 0 →
  reserve h = 0 → mm_wf (zend_mm_init h) ∅.
Proof.
  intros HR Hsl Hk Hr Hres. split; [|by left]. exists ∅, (λ _, []). split; [split; [split|]|].
  - simpl. rewrite HR. apply geo_empty.
  - split; try done; simpl; rewrite HR; done.
  - apply fl_init.
  - done.
  - apply (init_side _ _ []); try done; [|by rewrite Hr, HR]. rewrite Hsl. split; [simpl; by rewrite lookup_insert_eq|constructor| |by intros r ?%elem_of_nil].
    intros r. rewrite HR, lookup_empty, elem_of_nil. split; [done|by intros [? ?]].
  - intros a s. unfold live. rewrite !lookup_empty. naive_solver.
Qed.

(** * zend_mm_startup_ex *)

Lemma low_high_pow2 z : 0 < z < 2 ^ 64 → zend_mm_low_bit z = zend_mm_high_bit z → z = 2 ^ Z.log2 z.
Proof.
  intros Hz E. rewrite (zend_mm_high_bit_log2 z Hz) in E. destruct (zend_mm_low_bit_spec z Hz) as (_ & _ & Hlow). rewrite E in Hlow.
  apply Z.bits_inj'. intros j Hj. destruct (Z.lt_trichotomy j (Z.log2 z)) as [?|[->|?]].
  - by rewrite Hlow, Z.pow2_bits_false by lia.
  - by rewrite Z.bit_log2, Z.pow2_bits_true by (lia || apply Z.log2_nonneg).
  - by rewrite Z.bits_above_log2, Z.pow2_bits_false by lia.
Qed.

Section life.
Context `{MMStorage}.
Implicit Types (h : zend_mm_heap).

(** The reserve is all there is. *)
Definition fresh_heap h (r : mm_result) : Prop :=
  match r with
  | Ptr p => (p = 0 ∧ mm_wf h ∅) ∨ ∃ s, reserve_size h + 16 ≤ s ∧ reserve h = p ∧ mm_wf h {[p - 16 := s]}
  | _ => mm_wf h ∅
  end.

Lemma alloc_reserve_spec n h : mm_wf h ∅ → is_ulong n → reserve h = 0 → reserve_size h = n →
  ∃ r h', alloc_reserve n h = OK (r, h') ∧ fresh_heap h' r.
Proof.
  intros Hwf Hn Hres Hrs. unfold alloc_reserve. destruct (alloc_int_spec n h ∅ Hwf Hn) as (r & h' & -> & Hpost). ob.
  assert (after_error h ∅ = ∅) as Ea by (unfold after_error; by rewrite Hres).
  destruct r as [p| |]; [|eexists _, h'; split; [done|]; destruct Hpost as (Hw & _); by rewrite Ea in Hw..].
  destruct Hpost as (s & _ & Hs & [HH _] & Hc & _). eexists (Ptr p), _. split; [reflexivity|]. right. exists s.
  assert (reserve_size h' = n) as Hrs' by (unfold config in Hc; congruence). rewrite insert_empty in HH.
  split_and!; [simpl; lia|done|]. split; [by apply (heap_frame h')|]. right. simpl. rewrite lookup_singleton_eq. eauto.
Qed.

Lemma startup_spec bs rs : is_ulong rs → (∃ k, 5 ≤ k ≤ 62 ∧ bs = 2 ^ k) →
  ∃ r h, zend_mm_startup_ex bs rs = OK (r, h) ∧ fresh_heap h r.
Proof.
  intros Hrs (k & Hk & Hbs). assert (0 < 2 ^ k < 2 ^ 64) as Hpow by (split; [apply Z.pow_pos_nonneg|apply Z.pow_lt_mono_r]; lia).
  unfold zend_mm_startup_ex. assert (zend_mm_low_bit bs = zend_mm_high_bit bs) as ->.
  { subst bs. rewrite zend_mm_high_bit_log2, Z.log2_pow2 by lia. destruct (zend_mm_low_bit_spec (2 ^ k) Hpow) as (H0 & H1 & _).
    rewrite Z.pow2_bits_eqb in H1 by lia. by apply Z.eqb_eq in H1. }
  rewrite Z.eqb_refl. cbn [negb]. set (h0 := zend_mm_init _).
  assert (mm_wf h0 ∅) as Hwf by (apply init_wf; try done; by exists k).
  destruct (Z.ltb_spec 0 rs); [by apply alloc_reserve_spec|]. exists (Ptr 0), h0. split; [done|]. by left.
Qed.

(** * zend_mm_shutdown *)

Lemma seg_path_head M slot l y : seg_path M slot l → M !! slot = Some y → y = default 0 (head l).
Proof. destruct l; simpl; [congruence|]. intros [? _]. congruence. Qed.

(** The first segment of the list is given back. *)
Lemma free_first h x r l : segs (hstore h) x (r :: l) → regions_wf (regions (hstore h)) →
  ∃ y h', x = r ∧ r ≠ 0 ∧ seg_next (hstore h) !! r = Some y ∧ (y = 0 ↔ l = []) ∧ storage_free r h = OK h' ∧ segs (hstore h') y l ∧
    regions (hstore h') = delete r (regions (hstore h)) ∧ config h' = config h.
Proof.
  intros Hsl HR. pose proof Hsl as [Hp Hnd Hd Hs]. simpl in Hp. rewrite lookup_insert_eq in Hp. destruct Hp as [[= ->] Hp].
  destruct (Hd r) as [[n Hn] _]; [by left|]. pose proof (rw_pos _ HR _ _ Hn) as (Hr0 & _).
  assert (0 ∉ l) as H0. { intros Hl. destruct (Hd 0) as [[m Hm] _]; [by right|]. destruct (rw_pos _ HR _ _ Hm). lia. }
  destruct (seg_path_live _ _ _ r Hp) as [y Hy]; [by left|]. pose proof Hy as Hy'. rewrite lookup_insert_ne in Hy' by lia.
  apply NoDup_cons in Hnd as [Hrl Hnd]. pose proof (seg_path_head _ _ _ _ Hp Hy) as Hhead.
  unfold storage_free. rewrite Hn. ob. eexists y, _. do 3 (split; [done || lia|]). split; [|split; [reflexivity|split; [|done]]].
  - rewrite Hhead. destruct l as [|z l]; simpl; [done|]. split; [|done]. intros ->. destruct H0. by left.
  - assert (filter (.≠ r) (r :: l) = l) as E.
    { rewrite filter_cons, decide_False by (intros H'; by apply H'). clear -Hrl. induction l as [|z l IH]; [done|].
      apply not_elem_of_cons in Hrl as [? ?]. rewrite filter_cons, decide_True by done. f_equal. auto. }
    rewrite <- E. simpl. eapply (segs_freed (hstore h)); try done. rewrite E. destruct l as [|z l]; simpl in *.
    + rewrite lookup_insert_eq. congruence.
    + rewrite lookup_insert_eq. split; [congruence|]. destruct Hp as [_ Hp]. eapply seg_path_frame; [|exact Hp].
      intros w Hw. rewrite !lookup_insert_ne; [done|by intros <-..].
Qed.

Lemma regions_wf_delete R r : regions_wf R → regions_wf (delete r R).
Proof.
  intros [H1 H2]. split; [intros q n [_ Hq]%lookup_delete_Some; by apply H1|].
  intros q n q' n' [_ ?]%lookup_delete_Some [_ ?]%lookup_delete_Some. by apply H2.
Qed.

Lemma free_segments_spec fuel kl x h l : segs (hstore h) x l → regions_wf (regions (hstore h)) → (length l ≤ fuel)%nat →
  ∃ y h' l', free_segments fuel kl x h = OK (y, h') ∧ segs (hstore h') y l' ∧ regions (hstore h') ⊆ regions (hstore h) ∧
    config h' = config h ∧ (length l' ≤ if kl then 1 else 0)%nat.
Proof.
  revert fuel x h. induction l as [|r l IH]; intros fuel x h Hsl HR Hf.
  - pose proof (sg_path _ _ _ Hsl) as Hp. simpl in Hp. rewrite lookup_insert_eq in Hp. injection Hp as ->.
    exists 0, h, []. split; [by destruct fuel|]. split_and!; try done. simpl. lia.
  - destruct fuel as [|fuel]; [simpl in Hf; lia|]. destruct (free_first h x r l Hsl HR) as (y & h1 & -> & Hr0 & Hy & Hy0 & Hfr & Hsl1 & HR1 & Hc1).
    cbn [free_segments]. destruct (Z.eqb_spec r 0); [done|]. rewrite Hy. ob. destruct (kl && (y =? 0)) eqn:Hk.
    + apply andb_true_iff in Hk as [-> Hk]. apply Z.eqb_eq in Hk. apply Hy0 in Hk as ->. exists r, h, [r]. done.
    + rewrite Hfr. ob. destruct (IH fuel y h1 Hsl1) as (z & h' & l' & HOK & ? & HR' & ? & ?).
      { rewrite HR1. by apply regions_wf_delete. } { simpl in Hf. lia. }
      exists z, h', l'. split_and!; try done; [|congruence]. etrans; [exact HR'|]. rewrite HR1. apply delete_subseteq.
Qed.

(** The segment that is kept becomes one free block. *)
Lemma recycle_spec h r n : regions (hstore h) = {[r := n]} → regions_wf (regions (hstore h)) → 64 ≤ n → segs (hstore h) (segments_list h) [r] →
  (∃ k, 5 ≤ k ≤ 62 ∧ block_size h = 2 ^ k) → real_size h = n →
  ∃ h', recycle_segment r (zend_mm_init h) = OK h' ∧ mm_heap h' ∅ ∧ config h' = config h.
Proof.
  intros HR HRw Hn64 Hsl Hk Hreal. pose proof (rw_pos _ HRw r n) as Hrn. rewrite HR, lookup_singleton_eq in Hrn. destruct Hrn as (Hr0 & Hr8 & _ & Hn8 & Hend); [done|].
  assert (region_ok ∅ r n) as Hok by done. set (h0 := zend_mm_init h). unfold recycle_segment.
  change (hstore h0) with (hstore h). rewrite (sg_size _ _ _ Hsl r), HR, lookup_singleton_eq by by left. ob.
  assert (∀ x, r ≤ x → x + 16 ≤ r + n → ∀ St, regions St = {[r := n]} → mapped St x) as Hmap.
  { intros x ?? St HSt. unfold mapped. rewrite HSt. exists r, n. by rewrite lookup_singleton_eq. }
  replace (r + ZEND_MM_ALIGNED_SEGMENT_SIZE) with (r + 16) by lia. replace (n - ZEND_MM_ALIGNED_SEGMENT_SIZE - ZEND_MM_ALIGNED_HEADER_SIZE) with (n - 32) by lia.
  set (St2 := put_info_prev (r + 16) 3 (hstore h)). set (St3 := put_size (r + n - 16) 19 St2). set (h3 := set_hstore St3 (set_hstore St2 h0)).
  rewrite (on_store_OK _ h0 St2) by (unfold ZEND_MM_MARK_FIRST_BLOCK, store_info_prev; rewrite decide_True by (apply Hmap; done || lia); done). ob.
  rewrite (on_store_OK _ (set_hstore St2 h0) St3).
  2:{ unfold ZEND_MM_LAST_BLOCK, store_size. replace (r + 16 + (n - 32)) with (r + n - 16) by lia. rewrite decide_True by (apply Hmap; done || lia). done. }
  ob. fold h3. set (B := <[r + 16 := (n - 32, true)]> (∅ : blocks)).
  assert (mm_but (r + 16) h3 B (λ _, []) (cache h0)) as HC.
  { split; [|apply (side_frame h0 h3 B); try done|by apply no_cache].
    - apply (segment_entered ∅ ∅ St3 _ r n); [apply geo_empty|done..|by split|exact (fl_init St3 (hlists h))|done|exact HR|apply lookup_insert_eq|apply lookup_insert_eq].
    - apply (init_side h B [r] Hsl Hk). rewrite HR. rewrite Hreal. symmetry. rewrite <- insert_empty, (total_insert ∅ r n), total_empty, Z.add_0_r by done. apply ulong_wrap_id. lia. }
  assert (config h3 = config h) as Hcf by done. assert (cache h3 = cache h0) as Hca by done. assert (B !! (r + 16) = Some (n - 32, true)) as HB by apply lookup_insert_eq.
  clearbody h3. clear St2 St3. rewrite <- Hca in HC. clear Hca. clearbody h0.
  destruct (mm_free _ _ _ _ _ HC (n - 32) true HB) as (-> & L' & HL & HI).
  { split; unfold B; intros a; [intros t|]; rewrite lookup_insert_Some, lookup_empty; [naive_solver|intros [[? ?]|[_ ?]]; [lia|done]]. }
  ob. rewrite HL. eexists. split; [reflexivity|]. split; [|done]. eexists _, (λ _, []). split; [exact HI|]. intros a s. unfold live, B.
  rewrite insert_insert_eq, lookup_insert_Some, !lookup_empty. naive_solver.
Qed.

Lemma finish_shutdown h : mm_wf h ∅ → is_ulong (reserve_size h) → reserve h = 0 →
  ∃ r h', (let* r := (if reserve_size h =? 0 then OK (Ptr 0, h) else alloc_reserve (reserve_size h) h) in OK (r.1, set_overflow 0 r.2)) = OK (r, h') ∧
    fresh_heap h' r.
Proof.
  intros Hwf Hrs Hres. assert (∀ h' r, fresh_heap h' r → fresh_heap (set_overflow 0 h') r) as Hov.
  { assert (∀ h' U, mm_wf h' U → mm_wf (set_overflow 0 h') U) as Hw by (intros h' U [? ?]; split; [by apply (heap_frame h')|done]).
    intros h' [p| |]; unfold fresh_heap; [|apply Hw..]. intros [[? ?]|(s & ? & ? & ?)]; [left; split; auto|right; exists s; split_and!; auto]. }
  destruct (Z.eqb_spec (reserve_size h) 0).
  - exists (Ptr 0), (set_overflow 0 h). split; [done|]. apply Hov. by left.
  - destruct (alloc_reserve_spec (reserve_size h) h Hwf Hrs Hres eq_refl) as (r & h' & -> & Hf). exists r, (set_overflow 0 h'). split; [done|]. by apply Hov.
Qed.

Lemma segment_length R B r n : geo R B → R !! r = Some n → 64 ≤ n.
Proof.
  intros HG Hr. destruct (g_start _ _ HG _ _ Hr) as [[s u] Hs]. destruct (geo_pos HG _ _ _ Hs) as (_ & _ & ? & _).
  destruct (g_in _ _ HG _ _ _ Hs) as (q & m & Hq & ? & ?). pose proof (rw_pos _ (g_reg _ _ HG) _ _ Hr). pose proof (rw_pos _ (g_reg _ _ HG) _ _ Hq).
  assert (q = r) as -> by (eapply (region_of HG (r + 16)); eauto; lia). simplify_eq. lia.
Qed.

Lemma shutdown_spec h U : mm_wf h U → is_ulong (reserve_size h) →
  ∃ r h', zend_mm_shutdown false h = OK (r, h') ∧ fresh_heap h' r.
Proof.
  intros [(B & C & [[HG _ _ _] Hs] & _) _] Hrs. destruct (ms_segs _ _ _ _ Hs) as (sl & Hsl). pose proof (ms_bs _ _ _ _ Hs) as Hk.
  unfold zend_mm_shutdown. set (h0 := set_reserve 0 h). change (reserve_size h0) with (reserve_size h).
  destruct (free_segments_spec (Datatypes.S (size (regions (hstore h0)))) (negb (reserve_size h =? 0)) (segments_list h0) h0 sl)
    as (y & h1 & l' & -> & Hsl1 & Hsub & Hc1 & Hlen); [done|apply HG|apply le_S; by eapply segs_length|]. ob. cbn [fst snd].
  unfold config in Hc1. cbn in Hc1. injection Hc1 as Q1 Q2 Q3 Q4 Q5.
  assert (length l' ≤ 1)%nat as Hlen' by (destruct (negb _); lia). destruct l' as [|r [|]]; [..|simpl in Hlen'; lia].
  - pose proof (sg_path _ _ _ Hsl1) as Hp. simpl in Hp. rewrite lookup_insert_eq in Hp. injection Hp as ->.
    assert (regions (hstore h1) = ∅) as HR1.
    { apply map_eq. intros x. rewrite lookup_empty. destruct (regions (hstore h1) !! x) eqn:E; [|done]. assert (x ∈ []) as []%elem_of_nil by (apply (sg_dom _ _ _ Hsl1); eauto). }
    change (segments_list (zend_mm_init (set_segments_list 0 h1))) with 0. rewrite Z.eqb_refl. cbn [obind]. set (h2 := set_peak 0 _).
    change (segments_list h2) with 0. rewrite Z.eqb_refl. cbn [obind].
    assert (mm_wf h2 ∅) as Hwf by (apply (init_wf (set_peak 0 (set_heap_size 0 (set_real_peak 0 (set_real_size 0 (set_segments_list 0 h1)))))); simpl; rewrite ?Q1; done).
    destruct (finish_shutdown h2) as (r & h' & HOK & Hf); [done|simpl; by rewrite Q3|done|]. exists r, h'. split; [exact HOK|done].
  - pose proof (sg_path _ _ _ Hsl1) as Hp. simpl in Hp. rewrite lookup_insert_eq in Hp. destruct Hp as [[= ->] _].
    destruct (proj1 (sg_dom _ _ _ Hsl1 r)) as [n Hn]; [by left|]. pose proof (segment_length _ _ r n HG (lookup_weaken _ _ _ _ Hn Hsub)) as Hn64.
    assert (regions (hstore h1) = {[r := n]}) as HR1.
    { apply map_eq. intros x. destruct (decide (r = x)) as [<-|Hx]; [by rewrite Hn, lookup_singleton_eq|]. rewrite lookup_singleton_ne by done.
      destruct (regions (hstore h1) !! x) eqn:E; [|done]. assert (x ∈ [r]) as ->%list_elem_of_singleton by (apply (sg_dom _ _ _ Hsl1); eauto). done. }
    assert (regions_wf (regions (hstore h1))) as HRw.
    { destruct (g_reg _ _ HG) as [W1 W2]. split; [intros q m Hq; apply W1; by eapply lookup_weaken|]. intros q m q' m' Hq Hq'. apply W2; by eapply lookup_weaken. }
    change (segments_list (zend_mm_init (set_segments_list r h1))) with r. pose proof (rw_pos _ HRw _ _ Hn).
    destruct (Z.eqb_spec r 0); [lia|]. change (hstore (zend_mm_init (set_segments_list r h1))) with (hstore h1).
    rewrite (sg_size _ _ _ Hsl1 r), Hn by by left. ob. set (h2 := set_peak 0 _). change (segments_list h2) with r. destruct (Z.eqb_spec r 0); [lia|].
    destruct (recycle_spec (set_peak 0 (set_heap_size 0 (set_real_peak n (set_real_size n (set_segments_list r h1))))) r n)
      as (h3 & Hrec & HH3 & Hc3); simpl; try done; [by rewrite Q1|]. change (recycle_segment r h2) with (recycle_segment r h2) in Hrec. 
    change (zend_mm_init (set_peak 0 (set_heap_size 0 (set_real_peak n (set_real_size n (set_segments_list r h1)))))) with h2 in Hrec. rewrite Hrec. ob.
    unfold config in Hc3. cbn in Hc3. injection Hc3 as W1 W2 W3 W4 W5.
    apply finish_shutdown; [split; [done|left; by rewrite W4, Q4]|by rewrite W3, Q3|by rewrite W4, Q4].
Qed.

(** A full shutdown returns everything to the storage layer. *)
Lemma full_shutdown_spec h U : mm_wf h U → ∃ h', zend_mm_shutdown true h = OK (Ptr 0, h') ∧ regions (hstore h') = ∅.
Proof.
  intros [(B & C & [[HG _ _ _] Hs] & _) _]. destruct (ms_segs _ _ _ _ Hs) as (sl & Hsl).
  unfold zend_mm_shutdown. set (h0 := set_reserve 0 h).
  destruct (free_segments_spec (Datatypes.S (size (regions (hstore h0)))) false (segments_list h0) h0 sl)
    as (y & h1 & l' & -> & Hsl1 & _ & _ & Hlen); [done|apply HG|apply le_S; by eapply segs_length|]. ob.
  eexists. split; [reflexivity|]. simpl. destruct l'; [|simpl in Hlen; lia]. apply map_eq. intros x. rewrite lookup_empty.
  destruct (regions (hstore h1) !! x) eqn:E; [|done]. assert (x ∈ []) as []%elem_of_nil by (apply (sg_dom _ _ _ Hsl1); eauto).
Qed.
End life.

(** * The engine's allocation functions *)

(** The multiplication and addition are exact, or the request ends. *)
Lemma safe_address_exact nmemb size offset : is_ulong nmemb → is_ulong size → is_ulong offset →
  safe_address nmemb size offset = if nmemb * size + offset <? 2 ^ 64 then OK (nmemb * size + offset) else Bailout.
Proof.
  intros Hn Hs Ho. unfold safe_address. set (x := nmemb * size). assert (0 ≤ x) as Hx by (unfold x; nia).
  assert (x < 2 ^ 64 * 2 ^ 64) as Hx2 by (unfold x; nia).
  assert (0 ≤ x / 2 ^ 64 < 2 ^ 64) as Hq by (split; [apply Z.div_pos; lia|apply Z.div_lt_upper_bound; lia]).
  pose proof (Z.div_mod x (2 ^ 64) ltac:(lia)) as Hdm. pose proof (Z.mod_pos_bound x (2 ^ 64) ltac:(lia)) as Hm.
  fold x. rewrite (ulong_wrap_id (x / 2 ^ 64)) by done. change (ulong_wrap x) with (x mod 2 ^ 64).
  set (q := x / 2 ^ 64) in *. set (lo := x mod 2 ^ 64) in *.
  assert (0 ≤ (lo + offset) / 2 ^ 64 < 2) as Hc by (split; [apply Z.div_pos; lia|apply Z.div_lt_upper_bound; lia]).
  pose proof (Z.div_mod (lo + offset) (2 ^ 64) ltac:(lia)) as Hd2. pose proof (Z.mod_pos_bound (lo + offset) (2 ^ 64) ltac:(lia)) as Hm2.
  assert (q + (lo + offset) / 2 ^ 64 < 2 ^ 64) as Hov.
  { assert (q ≤ 2 ^ 64 - 2); [|lia]. assert (x ≤ (2 ^ 64 - 1) * (2 ^ 64 - 1)) by (unfold x; nia).
    assert (q < 2 ^ 64 - 1); [apply Z.div_lt_upper_bound; lia|lia]. }
  rewrite (ulong_wrap_id (q + _)) by lia. set (c := (lo + offset) / 2 ^ 64) in *.
  destruct (Z.ltb_spec (x + offset) (2 ^ 64)).
  - assert (q = 0 ∧ c = 0) as [-> ->] by nia. cbn [negb Z.add Z.eqb]. rewrite ulong_wrap_id by lia. f_equal. lia.
  - destruct (Z.eqb_spec (q + c) 0); [|done]. assert (q = 0 ∧ c = 0) as [E1 E2] by lia. nia.
Qed.

Section api.
Context `{MMStorage}.
Implicit Types (h : zend_mm_heap) (U : gmap Z Z).

Lemma safe_emalloc_spec nmemb size offset h U : mm_wf h U → is_ulong nmemb → is_ulong size → is_ulong offset →
  if nmemb * size + offset <? 2 ^ 64
  then ∃ r h', _safe_emalloc nmemb size offset h = OK (r, h') ∧ allocated (nmemb * size + offset) h U r h'
  else _safe_emalloc nmemb size offset h = Bailout.
Proof.
  intros Hwf Hn Hs Ho. unfold _safe_emalloc. rewrite safe_address_exact by done.
  destruct (Z.ltb_spec (nmemb * size + offset) (2 ^ 64)); [|done]. ob. apply alloc_int_spec; [done|nia].
Qed.

Lemma safe_erealloc_spec b s nmemb size offset h U : mm_wf h U → U !! b = Some s → reserve h ≠ b + 16 →
  is_ulong nmemb → is_ulong size → is_ulong offset → can_grow b (ZEND_MM_TRUE_SIZE (nmemb * size + offset)) h →
  if nmemb * size + offset <? 2 ^ 64
  then ∃ r h', _safe_erealloc (b + 16) nmemb size offset h = OK (r, h') ∧ reallocated b s (nmemb * size + offset) h U r h'
  else _safe_erealloc (b + 16) nmemb size offset h = Bailout.
Proof.
  intros Hwf Hb Hr Hn Hs Ho Hc. unfold _safe_erealloc. rewrite safe_address_exact by done.
  destruct (Z.ltb_spec (nmemb * size + offset) (2 ^ 64)); [|done]. ob. apply realloc_int_spec; try done. nia.
Qed.

(** Writing into one's own block. *)
Lemma write_own h U b s D : mm_wf h U → U !! b = Some s →
  (∀ x, x < b + 16 ∨ b + s ≤ x → D !! x = data (hstore h) !! x) →
  mm_wf (set_hstore (set_data D (hstore h)) h) U ∧ same_data (delete b U) h (set_hstore (set_data D (hstore h)) h).
Proof.
  intros [HH Hr] Hb HD. split; [split; [by apply heap_data|done]|]. intros a c x [Hne Ha]%lookup_delete_Some Hx. simpl. apply HD.
  destruct (heap_disjoint h U b s a c HH Hb Ha Hne); lia.
Qed.

Lemma memset0_spec p n (D : gmap Z Z) x : mm_memset0 p n D !! x = if decide (p ≤ x < p + n) then Some 0 else D !! x.
Proof.
  unfold mm_memset0. transitivity (if decide (x - p ∈ seqZ 0 n) then Some 0 else D !! x).
  - induction (seqZ 0 n) as [|i l IH]; [destruct (decide (x - p ∈ [])) as [Hin|]; [by apply elem_of_nil in Hin|done]|]. cbn [foldr].
    destruct (decide (p + i = x)) as [E|Hne].
    + rewrite E, lookup_insert_eq, decide_True; [done|]. apply elem_of_cons. left. lia.
    + rewrite lookup_insert_ne, IH by done. rewrite (decide_ext (x - p ∈ i :: l) (x - p ∈ l)); [done|]. rewrite elem_of_cons. split; [intros [?|?]; [lia|done]|auto].
  - rewrite (decide_ext (x - p ∈ seqZ 0 n) (p ≤ x < p + n)); [done|]. rewrite elem_of_seqZ. lia.
Qed.

(** A new block that is filled by its caller. *)
Lemma fill_new n h U p h1 D : allocated n h U (Ptr p) h1 → (∀ x, x < p ∨ p + n ≤ x → D !! x = data (hstore h1) !! x) →
  allocated n h U (Ptr p) (set_hstore (set_data D (hstore h1)) h1).
Proof.
  intros (s & Hnone & Hsz & Hwf1 & Hc & Hr & Hd) HD.
  destruct (write_own h1 _ (p - 16) s D Hwf1) as [Hwf2 Hd2]; [apply lookup_insert_eq|intros x Hx; apply HD; lia|].
  rewrite delete_insert_id in Hd2 by done. exists s. split_and!; try done. intros a c x Ha Hx. by rewrite (Hd2 a c x), (Hd a c x).
Qed.

(** _ecalloc: the block is zeroed, the others keep their contents. *)
Lemma ecalloc_spec nmemb size h U : mm_wf h U → is_ulong nmemb → is_ulong size →
  if nmemb * size <? 2 ^ 64
  then ∃ r h', _ecalloc nmemb size h = OK (r, h') ∧ allocated (nmemb * size) h U r h' ∧
    (∀ p i, r = Ptr p → 0 ≤ i < nmemb * size → data (hstore h') !! (p + i) = Some 0)
  else _ecalloc nmemb size h = Bailout.
Proof.
  intros Hwf Hn Hs. pose proof (safe_emalloc_spec nmemb size 0 h U Hwf Hn Hs ltac:(lia)) as Hsafe. rewrite Z.add_0_r in Hsafe. unfold _ecalloc.
  destruct (Z.ltb_spec (nmemb * size) (2 ^ 64)); [|by rewrite Hsafe]. destruct Hsafe as (r & h1 & -> & Hpost). ob.
  destruct r as [p| |]; [|eexists _, h1; done..]. rewrite ulong_wrap_id by nia. rewrite (Z.mul_comm size).
  eexists (Ptr p), _. split; [reflexivity|]. split.
  - apply fill_new; [done|]. intros x Hx. rewrite memset0_spec, decide_False by lia. done.
  - intros p' i [= <-] Hi. simpl. rewrite memset0_spec, decide_True by lia. done.
Qed.

(** _estrndup: a string inside one of the program's blocks is copied. *)
Lemma estrndup_spec s len h U a c : mm_wf h U → is_uint len → U !! a = Some c → a ≤ s → s + len ≤ a + c →
  ∃ r h', _estrndup s len h = OK (r, h') ∧ allocated (len + 1) h U r h' ∧
    ∀ p, r = Ptr p → data (hstore h') !! (p + len) = Some 0 ∧ ∀ i, 0 ≤ i < len → data (hstore h') !! (p + i) = data (hstore h) !! (s + i).
Proof.
  intros Hwf Hlen Ha Hs1 Hs2. unfold _estrndup. rewrite safe_address_exact by lia. rewrite Z.mul_1_r, (proj2 (Z.ltb_lt _ _)) by lia. ob.
  destruct (alloc_int_spec (len + 1) h U Hwf ltac:(lia)) as (r & h1 & -> & Hpost). ob. destruct r as [p| |]; [|eexists _, h1; done..].
  eexists (Ptr p), _. split; [reflexivity|]. split.
  - apply fill_new; [done|]. intros x Hx. rewrite lookup_insert_ne, memcpy_spec, decide_False by lia. done.
  - intros p' [= <-]. simpl. split; [by rewrite lookup_insert_eq|]. intros i Hi. rewrite lookup_insert_ne, memcpy_spec, decide_True by lia.
    destruct Hpost as (s' & _ & _ & _ & _ & _ & Hd). replace (s + (p + i - p)) with (s + i) by lia. apply (Hd a c); [done|lia].
Qed.

Lemma strlen_spec (D : gmap Z Z) n fuel s : 0 ≤ n → (∀ i, 0 ≤ i < n → ∃ c, D !! (s + i) = Some c ∧ c ≠ 0) → D !! (s + n) = Some 0 → n < Z.of_nat fuel →
  mm_strlen fuel s D = OK n.
Proof.
  intros Hn. revert s fuel. pattern n. apply natlike_ind; [..|exact Hn]; clear n Hn.
  - intros s [|fuel] _ H0 Hf; [lia|]. simpl. rewrite Z.add_0_r in H0. by rewrite H0.
  - intros n Hn IH s [|fuel] Hc H0 Hf; [lia|]. cbn [mm_strlen]. destruct (Hc 0 ltac:(lia)) as (c & Hc0 & Hne). rewrite Z.add_0_r in Hc0. rewrite Hc0. ob.
    destruct (Z.eqb_spec c 0); [done|]. rewrite (IH (s + 1) fuel); [done| | |lia].
    + intros i Hi. destruct (Hc (i + 1) ltac:(lia)) as (c' & ? & ?). exists c'. by replace (s + 1 + i) with (s + (i + 1)) by lia.
    + rewrite <- H0. f_equal. lia.
Qed.

(** _estrdup: a NUL-terminated string inside one of the program's blocks. *)
Lemma estrdup_spec s n h U a c : mm_wf h U → 0 ≤ n → U !! a = Some c → a ≤ s → s + n < a + c →
  (∀ i, 0 ≤ i < n → ∃ c, data (hstore h) !! (s + i) = Some c ∧ c ≠ 0) → data (hstore h) !! (s + n) = Some 0 →
  ∃ r h', _estrdup s h = OK (r, h') ∧ allocated (n + 1) h U r h' ∧
    ∀ p, r = Ptr p → ∀ i, 0 ≤ i ≤ n → data (hstore h') !! (p + i) = data (hstore h) !! (s + i).
Proof.
  intros Hwf Hn Ha Hs1 Hs2 Hstr H0. destruct (heap_block _ _ _ _ (proj1 Hwf) Ha) as (_ & Hc & _). unfold _estrdup.
  rewrite (strlen_spec _ n); [|done..|].
  2:{ assert (list_to_set ((Z.add s) <$> seqZ 0 (n + 1)) ⊆ dom (data (hstore h))) as Hsub%subseteq_size.
      { intros x (i & -> & Hi%elem_of_seqZ)%elem_of_list_to_set%list_elem_of_fmap. apply elem_of_dom.
        destruct (decide (i = n)) as [->|]; [by rewrite H0|]. destruct (Hstr i ltac:(lia)) as (? & -> & _). done. }
      rewrite size_list_to_set, length_fmap, length_seqZ, size_dom in Hsub by (apply NoDup_fmap_2; [intros x y; lia|apply NoDup_seqZ]). lia. }
  ob. rewrite safe_address_exact by lia. rewrite Z.mul_1_r, (proj2 (Z.ltb_lt _ _)) by lia. ob.
  destruct (alloc_int_spec (n + 1) h U Hwf ltac:(lia)) as (r & h1 & -> & Hpost). ob. destruct r as [p| |]; [|eexists _, h1; done..].
  eexists (Ptr p), _. split; [reflexivity|]. split.
  - apply fill_new; [done|]. intros x Hx. rewrite memcpy_spec, decide_False by lia. done.
  - intros p' [= <-] i Hi. simpl. rewrite memcpy_spec, decide_True by lia. destruct Hpost as (s' & _ & _ & _ & _ & _ & Hd).
    replace (s + (p + i - p)) with (s + i) by lia. apply (Hd a c); [done|lia].
Qed.

(** zend_set_memory_limit: not below the size of a segment. *)
Lemma set_limit_wf m h U : mm_wf h U → mm_wf (zend_set_memory_limit m h) U ∧ block_size h ≤ limit (zend_set_memory_limit m h).
Proof.
  intros [HH Hr]. split; [split; [by apply (heap_frame h)|done]|]. unfold zend_set_memory_limit. simpl. destruct (Z.leb_spec (block_size h) m); lia.
Qed.
End api.
