(* ===== verification/MmSpec.v ===== *)
(** What the memory manager promises its clients: it hands out disjoint
    arrays of bytes.  The specification knows nothing of segments, free lists,
    the cache or tags; every operation of the heap is one of its steps. *)

From S2P Require Import Prelude ZendMmTypes MmBits MmGeo MmSegs ZendAlloc MmInv MmFree MmAlloc MmRealloc MmLife.

(** The blocks of the program, by the address of their header (16 bytes before
    the pointer the program holds) with their length, header included, and what
    the program has stored in them. *)
Record arrays := MkArrays { lengths : gmap Z Z; bytes : gmap Z Z }.

(** Blocks are aligned, lie in the address space and do not overlap. *)
Definition well_spaced (U : gmap Z Z) : Prop :=
  ∀ a s, U !! a = Some s → 0 < a ∧ (8 | a) ∧ 32 ≤ s ∧ a + s ≤ 2 ^ 64 ∧
    ∀ b t, U !! b = Some t → a ≠ b → a + s ≤ b ∨ b + t ≤ a.

Inductive mm_op := Malloc (size : Z) | Free (p : Z) | Realloc (p size : Z) | Poke (x v : Z).

Inductive spec_step : arrays → mm_op → mm_result → arrays → Prop :=
  | spec_malloc U M size p s : U !! (p - 16) = None → size ≤ s - 16 → well_spaced (<[p - 16 := s]> U) →
      spec_step (MkArrays U M) (Malloc size) (Ptr p) (MkArrays (<[p - 16 := s]> U) M)
  | spec_free_null A : spec_step A (Free 0) (Ptr 0) A
  | spec_free U M p s : U !! (p - 16) = Some s →
      spec_step (MkArrays U M) (Free p) (Ptr 0) (MkArrays (delete (p - 16) U) (wipe p (s - 16) M))
  | spec_realloc_null A size r A' : spec_step A (Malloc size) r A' → spec_step A (Realloc 0 size) r A'
  | spec_realloc U M p s size q t : U !! (p - 16) = Some s → delete (p - 16) U !! (q - 16) = None → size ≤ t - 16 →
      well_spaced (<[q - 16 := t]> (delete (p - 16) U)) →
      spec_step (MkArrays U M) (Realloc p size) (Ptr q)
        (MkArrays (<[q - 16 := t]> (delete (p - 16) U)) (relocate p (s - 16) q (t - 16) M))
  | spec_poke U M b s x v : U !! b = Some s → b + 16 ≤ x < b + s →
      spec_step (MkArrays U M) (Poke x v) (Ptr 0) (MkArrays U (<[x := v]> M))
  | spec_fail_malloc A size r : r = Limit_exhausted ∨ r = Out_of_memory → spec_step A (Malloc size) r A
  | spec_fail_realloc A p size r : r = Limit_exhausted ∨ r = Out_of_memory → spec_step A (Realloc p size) r A.

Section refinement.
Context `{MMStorage}.
Implicit Types (h : zend_mm_heap) (U M : gmap Z Z).

Definition mm_do (op : mm_op) h : outcome (mm_result * zend_mm_heap) :=
  match op with
  | Malloc size => _zend_mm_alloc_int size h
  | Free p => let* h := _zend_mm_free_int p h in OK (Ptr 0, h)
  | Realloc p size => _zend_mm_realloc_int p size h
  | Poke x v => OK (Ptr 0, set_hstore (set_data (<[x := v]> (data (hstore h))) (hstore h)) h)
  end.

(** What a client must observe: only its own blocks are freed, resized and
    written to.  That the storage layer can resize a segment is needed because
    of a defect of _zend_mm_realloc_int. *)
Definition permitted (op : mm_op) (U : gmap Z Z) h : Prop :=
  match op with
  | Malloc size => is_ulong size
  | Free p => p = 0 ∨ is_Some (U !! (p - 16))
  | Realloc p size => is_ulong size ∧ (p = 0 ∨ (is_Some (U !! (p - 16)) ∧ can_grow (p - 16) (ZEND_MM_TRUE_SIZE size) h))
  | Poke x v => ∃ b s, U !! b = Some s ∧ b + 16 ≤ x < b + s
  end.

(** The heap [h] stands for [A]: the reserve is not the program's. *)
Definition stands_for h (A : arrays) : Prop :=
  ∃ U, mm_wf h U ∧ lengths A = after_error h U ∧
    ∀ x v, bytes A !! x = Some v → data (hstore h) !! x = Some v ∧ ∃ b s, lengths A !! b = Some s ∧ b + 16 ≤ x < b + s.

Lemma wf_spaced h U V : mm_heap h U → V ⊆ U → well_spaced V.
Proof.
  intros HH HV a s Ha. pose proof (lookup_weaken _ _ _ _ Ha HV) as Ha'. destruct (heap_block _ _ _ _ HH Ha') as (? & ? & ? & ? & ?). split_and!; try done; [lia..|].
  intros b t Hb. pose proof (lookup_weaken _ _ _ _ Hb HV) as Hb'. by apply (heap_disjoint _ _ _ _ _ _ HH).
Qed.

Lemma owned_lookup h U b s : after_error h U !! b = Some s → U !! b = Some s ∧ (reserve h = 0 ∨ reserve h ≠ b + 16).
Proof.
  unfold after_error. destruct (Z.eqb_spec (reserve h) 0); [auto|]. intros [Hne ?]%lookup_delete_Some. split; [done|right; lia].
Qed.
Lemma owned_insert h U b s : U !! b = Some s → reserve h ≠ b + 16 → after_error h U !! b = Some s.
Proof. intros Hb Hr. unfold after_error. destruct (_ =? 0); [done|]. rewrite lookup_delete_ne by lia. done. Qed.
(** The reserve is none of the blocks that come and go. *)
Lemma after_insert h h' U b s : config h' = config h → (reserve h = 0 ∨ reserve h ≠ b + 16) →
  after_error h' (<[b := s]> U) = <[b := s]> (after_error h U).
Proof.
  intros Hc Hb. unfold config in Hc. injection Hc as _ _ _ E _. unfold after_error. rewrite E.
  destruct (Z.eqb_spec (reserve h) 0); [done|]. rewrite delete_insert_ne; [done|]. destruct Hb; lia.
Qed.
Lemma after_delete h h' U b : config h' = config h → after_error h' (delete b U) = delete b (after_error h U).
Proof.
  intros Hc. unfold config in Hc. injection Hc as _ _ _ E _. unfold after_error. rewrite E. destruct (_ =? 0); [done|apply delete_delete].
Qed.

(** Errors: the program keeps its blocks. *)
Lemma failed_stands h U A h' : lengths A = after_error h U → failed h U h' →
  (∀ x v, bytes A !! x = Some v → data (hstore h) !! x = Some v ∧ ∃ b s, lengths A !! b = Some s ∧ b + 16 ≤ x < b + s) → stands_for h' A.
Proof.
  intros HA (Hwf & Hr & Hd) HM. exists (after_error h U). split; [done|]. split; [rewrite HA; unfold after_error at 2; by rewrite Hr|].
  intros x v Hx. destruct (HM x v Hx) as (Hv & b & s & Hb & Hxb). split; [|eauto]. rewrite (Hd b s x); [done|by rewrite <- HA|lia].
Qed.

Lemma malloc_refines h A size : stands_for h A → is_ulong size →
  ∃ r h' A', mm_do (Malloc size) h = OK (r, h') ∧ spec_step A (Malloc size) r A' ∧ stands_for h' A'.
Proof.
  intros (U & Hwf & HA & HM) Hsz. simpl. destruct (alloc_int_spec size h U Hwf Hsz) as (r & h' & -> & Hpost).
  destruct r as [p| |]; [|eexists _, h', A; split; [done|]; split; [apply spec_fail_malloc; auto|by eapply failed_stands]..].
  destruct Hpost as (s & Hnone & Hs & Hwf' & Hc & _ & Hd). eexists _, h', (MkArrays (<[p - 16 := s]> (lengths A)) (bytes A)). split; [done|].
  assert (lengths A !! (p - 16) = None) as HAn. { rewrite HA. eapply lookup_weaken_None; [done|apply after_error_sub]. }
  assert (after_error h' (<[p - 16 := s]> U) = <[p - 16 := s]> (lengths A)) as HA'.
  { rewrite HA. apply after_insert; [done|]. destruct Hwf as [_ [?|[t Ht]]]; [by left|right]. intros E. replace (reserve h - 16) with (p - 16) in Ht by lia. congruence. }
  split.
  - destruct A as [L M]. apply spec_malloc; [done|lia|]. eapply wf_spaced; [apply Hwf'|]. rewrite <- HA'. apply after_error_sub.
  - exists (<[p - 16 := s]> U). split; [done|]. split; [done|]. intros x v Hx. destruct (HM x v Hx) as (Hv & b & c & Hb & Hxb). split.
    + rewrite (Hd b c x); [done| |lia]. rewrite HA in Hb. eapply lookup_weaken; [exact Hb|apply after_error_sub].
    + exists b, c. split; [|done]. simpl. rewrite lookup_insert_ne; [done|]. intros <-. congruence.
Qed.

Lemma free_refines h A p : stands_for h A → permitted (Free p) (lengths A) h →
  ∃ r h' A', mm_do (Free p) h = OK (r, h') ∧ spec_step A (Free p) r A' ∧ stands_for h' A'.
Proof.
  intros HS [->|[s Hs]]; [exists (Ptr 0), h, A; split_and!; [done|constructor|done]|]. destruct HS as (U & Hwf & HA & HM).
  simpl. pose proof Hs as Hs'. rewrite HA in Hs'. apply owned_lookup in Hs' as [HUs Hres].
  destruct (free_int_spec h U (p - 16) s (proj1 Hwf) HUs) as (h' & HOK & HH' & Hc & Hd). replace (p - 16 + 16) with p in HOK by lia. rewrite HOK. ob.
  eexists _, h', (MkArrays (delete (p - 16) (lengths A)) (wipe p (s - 16) (bytes A))). split; [done|]. split; [destruct A; by apply spec_free|].
  assert (reserve h' = reserve h) as Er by (unfold config in Hc; congruence).
  exists (delete (p - 16) U). split; [split; [done|]|split].
  - rewrite Er. destruct Hwf as [_ [?|Hr]]; [by left|]. destruct Hres; [by left|right]. by rewrite lookup_delete_ne by lia.
  - simpl. by rewrite (after_delete h), HA.
  - intros x v [Hx Hout]%map_lookup_filter_Some. unfold outside in Hout. simpl in Hout. destruct (HM x v Hx) as (Hv & b & c & Hb & Hxb).
    assert (b ≠ p - 16) by (intros ->; assert (c = s) as -> by congruence; lia). split.
    + rewrite (Hd b c x); [done| |lia]. rewrite HA in Hb. apply owned_lookup in Hb as [? _]. by rewrite lookup_delete_ne.
    + exists b, c. simpl. by rewrite lookup_delete_ne.
Qed.

Lemma realloc_refines h A p size : stands_for h A → permitted (Realloc p size) (lengths A) h →
  ∃ r h' A', mm_do (Realloc p size) h = OK (r, h') ∧ spec_step A (Realloc p size) r A' ∧ stands_for h' A'.
Proof.
  intros HS [Hsz [->|[[s Hs] Hcan]]].
  { destruct (malloc_refines h A size HS Hsz) as (r & h' & A' & HOK & Hst & HS'). exists r, h', A'. split_and!; [exact HOK|by constructor|done]. }
  destruct HS as (U & Hwf & HA & HM). simpl. pose proof Hs as Hs'. rewrite HA in Hs'. apply owned_lookup in Hs' as [HUs Hres].
  destruct (heap_block _ _ _ _ (proj1 Hwf) HUs) as (Hp0 & Hs32 & _).
  assert (reserve h ≠ p - 16 + 16) as Hne by (destruct Hres; lia).
  destruct (realloc_int_spec h U (p - 16) s size Hwf HUs Hne Hsz Hcan) as (r & h' & HOK & Hpost). replace (p - 16 + 16) with p in * by lia. rewrite HOK.
  destruct r as [q| |]; [|eexists _, h', A; split; [done|]; split; [apply spec_fail_realloc; auto|by eapply failed_stands]..].
  destruct Hpost as (t & Hnone & Ht & Hwf' & Hc & Hd & Hcopy). eexists _, h', (MkArrays (<[q - 16 := t]> (delete (p - 16) (lengths A))) (relocate p (s - 16) q (t - 16) (bytes A))).
  split; [done|]. assert (delete (p - 16) (lengths A) !! (q - 16) = None) as HAn.
  { eapply lookup_weaken_None; [exact Hnone|]. apply delete_mono. rewrite HA. apply after_error_sub. }
  assert (after_error h' (<[q - 16 := t]> (delete (p - 16) U)) = <[q - 16 := t]> (delete (p - 16) (lengths A))) as HA'.
  { rewrite HA, <- (after_delete h h) by done. apply after_insert; [done|]. destruct Hwf as [_ [?|[c Hr]]]; [by left|right]. intros E.
    replace (reserve h - 16) with (q - 16) in Hr by lia. rewrite lookup_delete_ne in Hnone by lia. congruence. }
  split; [destruct A; apply spec_realloc with (s := s); [done..|lia|]; eapply wf_spaced; [apply Hwf'|]; simpl in *; rewrite <- HA'; apply after_error_sub|].
  eexists. split; [exact Hwf'|]. split; [done|]. intros x v Hx. cbn [lengths bytes] in *.
  apply lookup_union_Some_raw in Hx as [Hx|[_ Hx]].
  - apply lookup_kmap_Some in Hx as (y & -> & [Hy Hin]%map_lookup_filter_Some); [|apply _]. unfold outside in Hin. simpl in Hin.
    destruct (HM y v Hy) as (Hv & _). replace (q - p + y) with (q + (y - p)) by lia. split.
    + apply Hcopy; [lia|]. by replace (p - 16 + 16 + (y - p)) with y by lia.
    + exists (q - 16), t. rewrite lookup_insert_eq. split; [done|lia].
  - apply map_lookup_filter_Some in Hx as [Hx Hout]. unfold outside in Hout. simpl in Hout. destruct (HM x v Hx) as (Hv & b & c & Hb & Hxb).
    assert (b ≠ p - 16) by (intros ->; assert (c = s) as -> by congruence; lia). split.
    + rewrite (Hd b c x); [done| |lia]. rewrite HA in Hb. apply owned_lookup in Hb as [? _]. by rewrite lookup_delete_ne.
    + exists b, c. split; [|done]. rewrite lookup_insert_ne, lookup_delete_ne by (done || intros <-; by rewrite lookup_delete_ne, Hb in HAn). done.
Qed.

Lemma poke_refines h A x v : stands_for h A → permitted (Poke x v) (lengths A) h →
  ∃ r h' A', mm_do (Poke x v) h = OK (r, h') ∧ spec_step A (Poke x v) r A' ∧ stands_for h' A'.
Proof.
  intros (U & [HH Hr] & HA & HM) (b & s & Hb & Hx). eexists _, _, (MkArrays (lengths A) (<[x := v]> (bytes A))). split; [done|].
  split; [destruct A; by eapply spec_poke|]. exists U. split; [split; [by apply heap_data|done]|]. split; [done|].
  intros y w. simpl. rewrite !lookup_insert_Some. intros [[<- <-]|[Hne Hy]]; [eauto 10|]. destruct (HM y w Hy) as (? & ?). auto.
Qed.

(** A heap at the start of a program, which has stored nothing yet. *)
Lemma stands_init h U : mm_wf h U → stands_for h (MkArrays (after_error h U) ∅).
Proof. intros Hwf. exists U. split; [done|]. split; [done|]. intros x v Hx. cbn [bytes] in Hx. by apply lookup_empty_Some in Hx. Qed.
Lemma permitted_realloc h U b s n : U !! b = Some s → reserve h ≠ b + 16 → is_ulong n → can_grow b (ZEND_MM_TRUE_SIZE n) h →
  permitted (Realloc (b + 16) n) (after_error h U) h.
Proof.
  intros Hb Hr Hn Hc. split; [done|]. right. replace (b + 16 - 16) with b by lia. split; [|done]. exists s. by apply owned_insert.
Qed.
End refinement.
