(* ===== verification/MmProps.v ===== *)
(** The theorems about the memory manager, and the concrete heaps of their
    witnesses. *)

From S2P Require Import Prelude ZendMmTypes MmBits ZendMmFree MmTrie MmLists MmSearch MmGeo ZendAlloc MmWf MmSegs MmInv MmRelease MmFree MmAlloc MmRealloc MmLife MmSpec.

(** * A storage layer for concrete runs of the memory manager, and the heaps the witnesses of its theorems are about *)

(** Regions are laid out one behind the other, 64 KB apart, and no request
    beyond 1 GB is served. *)
Definition region_end (R : gmap Z Z) : Z := map_fold (λ p n e, Z.max e (p + n)) 65536 R.
Definition bump_region (R : gmap Z Z) (n : Z) : option Z :=
  let p := (region_end R / 65536 + 1) * 65536 in
  if (p + n <=? 2 ^ 40) && (n <=? 2 ^ 30) then Some p else None.

Lemma region_end_max R : 65536 ≤ region_end R ∧ ∀ p n, R !! p = Some n → p + n ≤ region_end R.
Proof.
  unfold region_end. apply (map_fold_weak_ind (λ e R, 65536 ≤ e ∧ ∀ p n, R !! p = Some n → p + n ≤ e)); [split; [done|by intros p n ?]|].
  intros p n R' e Hp [He HR]. split; [lia|]. intros q m. rewrite lookup_insert_Some. intros [[<- <-]|[_ Hq]]; [lia|]. specialize (HR _ _ Hq). lia.
Qed.
Lemma bump_region_ok R n p : 0 < n → bump_region R n = Some p → region_ok R p n.
Proof.
  intros Hn. unfold bump_region. destruct (_ && _) eqn:E; [|done]. intros [= <-]. apply andb_true_iff in E as [E _]. apply Z.leb_le in E.
  destruct (region_end_max R) as [Hmin Hmax]. pose proof (Z.div_mod (region_end R) 65536 ltac:(lia)). pose proof (Z.mod_pos_bound (region_end R) 65536 ltac:(lia)).
  assert (0 ≤ region_end R / 65536) by (apply Z.div_pos; lia). split_and!; [lia| |lia|].
  - apply Z.divide_mul_r. by exists 8192.
  - intros q m Hq. right. specialize (Hmax _ _ Hq). lia.
Qed.

(** realloc moves to where a new region would go. *)
#[export] Instance bump_storage : MMStorage.
Proof.
  refine {| storage_alloc := bump_region; storage_realloc R q n := bump_region (delete q R) n |}.
  - apply bump_region_ok.
  - intros R q m n p Hn _. by apply bump_region_ok.
Defined.
(** The same, but realloc always fails. *)
Definition stingy_storage : MMStorage.
Proof.
  refine {| storage_alloc := bump_region; storage_realloc _ _ _ := None |}.
  - apply bump_region_ok.
  - done.
Defined.

(** The heap of an outcome, and its result. *)
Definition heap_of (o : outcome (mm_result * zend_mm_heap)) (h : zend_mm_heap) : zend_mm_heap := match o with OK (_, h') => h' | _ => h end.
Definition result_of (o : outcome (mm_result * zend_mm_heap)) : mm_result := match o with OK (r, _) => r | _ => Out_of_memory end.
Definition no_heap : zend_mm_heap := MkHeap empty_store empty_lists ∅ 0 0 0 0 0 0 0 0 0 0 0.

(** The default settings: segments of 256 KB, a reserve of 8 KB. *)
Definition ex0 : zend_mm_heap := heap_of (zend_mm_startup_ex 262144 8192) no_heap.

Definition malloc (n : Z) (h : zend_mm_heap) : zend_mm_heap := heap_of (_zend_mm_alloc_int n h) h.
Definition mfree (p : Z) (h : zend_mm_heap) : zend_mm_heap := match _zend_mm_free_int p h with OK h' => h' | _ => h end.
Definition pointer (r : mm_result) : Z := match r with Ptr p => p | _ => 0 end.

(** A block of 1000 bytes, and where it is. *)
Definition ex_p : Z := 139312.
Definition ex1 : zend_mm_heap := malloc 1000 ex0.

Lemma ex0_wf : ∃ U, mm_wf ex0 U.
Proof.
  destruct (startup_spec 262144 8192) as (r & h & HOK & Hf); [done|by exists 18|].
  assert (ex0 = h) as E by (unfold ex0; rewrite HOK; exact eq_refl). rewrite E.
  destruct r as [p| |]; [destruct Hf as [[_ ?]|(s & _ & _ & ?)]; eauto|eauto..].
Qed.
Lemma ex1_wf : ∃ U s, mm_wf ex1 U ∧ U !! (ex_p - 16) = Some s ∧ reserve ex1 ≠ ex_p - 16 + 16.
Proof.
  destruct ex0_wf as [U HU]. destruct (alloc_int_spec 1000 ex0 U HU) as (r & h & HOK & Hpost); [done|].
  assert (result_of (_zend_mm_alloc_int 1000 ex0) = Ptr ex_p) as Er by (vm_compute; reflexivity). rewrite HOK in Er. simpl in Er. subst r.
  assert (ex1 = h) as HE by (unfold ex1, malloc; rewrite HOK; exact eq_refl). destruct Hpost as (s & Hn & _ & Hwf & _). exists (<[ex_p - 16 := s]> U), s.
  rewrite HE. split; [exact Hwf|]. split; [apply lookup_insert_eq|]. rewrite <- HE. intros E.
  assert ((reserve ex1 =? ex_p - 16 + 16) = false) as E' by (vm_compute; reflexivity). rewrite E, Z.eqb_refl in E'. discriminate E'.
Qed.

Lemma ex1_can_grow : can_grow (ex_p - 16) (ZEND_MM_TRUE_SIZE 2000) ex1.
Proof. intros _. eexists. vm_compute. reflexivity. Qed.

(** ** Where the code does not do what it means to *)

(** [ex_lost] has two free blocks of 96 bytes, one in its bucket and one in the
    rest list. *)
Definition ex_lost : zend_mm_heap :=
  malloc 524144 (malloc 262000 (heap_of (zend_mm_startup_ex 262144 0) no_heap)).
(** Taking the only rest block clears the bit of a bucket that holds one block:
    later requests do not find it, and a new segment is fetched. *)
Lemma small_block_lost :
  next_free_block (hlists ex_lost) !! Rest = Some (Blk 982928) ∧
  result_of (_zend_mm_alloc_int 80 ex_lost) = Ptr (393104 + 16) ∧
  let h := mfree 458784 ex_lost in
  next_free_block (hlists h) !! Small 8 = Some (Blk 393104) ∧ free_bitmap (hlists h) = 0 ∧
  result_of (_zend_mm_alloc_int 80 h) = Ptr 458784 ∧ real_size (malloc 80 h) = real_size h + 262144.
Proof. vm_compute. repeat split. Qed.

(** [ex_fit] has free blocks of 1536 and of 1032 bytes in one bucket. *)
Definition ex_fit : zend_mm_heap :=
  mfree 133256 (mfree 131104 (malloc 600 (malloc 1016 (malloc 600 (malloc 1520 (heap_of (zend_mm_startup_ex 262144 0) no_heap)))))).
(** The walk down child[child[0] != NULL] stops at the root, so the larger one is taken. *)
Lemma not_smallest_fit :
  info_size (hstore ex_fit) !! 131088 = Some 1536 ∧ info_size (hstore ex_fit) !! 133240 = Some 1032 ∧
  zend_mm_search_large_block (hstore ex_fit) 608 (hlists ex_fit) = OK (Some 131088).
Proof. vm_compute. repeat split. Qed.

(** A cached block counts as used once the cache has been emptied, and its
    segment with it. *)
Lemma usage_after_free_cache :
  let h := mfree 131104 (malloc 100 (heap_of (zend_mm_startup_ex 262144 0) no_heap)) in
  zend_memory_usage false h = 0 ∧
  match zend_mm_free_cache h with OK h' => real_size h' = 0 ∧ zend_memory_usage false h' = 120 | _ => False end.
Proof. vm_compute. repeat split. Qed.

(** The sum in the check of the limit wraps around. *)
Lemma limit_check_wraps :
  let h := malloc 100 (heap_of (zend_mm_startup_ex 262144 0) no_heap) in
  result_of (_zend_mm_alloc_int (2 ^ 63) h) = Limit_exhausted ∧ result_of (_zend_mm_alloc_int (2 ^ 64 - 2 ^ 18 - 48) h) = Out_of_memory.
Proof. vm_compute. repeat split. Qed.

(** * The theorems about the memory manager *)

(** * Clients *)

(** C11: the memory manager implements disjoint arrays of bytes.  Whatever a
    client does with its blocks (allocate, free, resize, write), no step goes
    wrong, and it is a step of the specification: a new block overlaps no
    other, lies aligned in the address space and is large enough; resizing
    keeps the contents up to the smaller length; freeing and failing leave all
    other blocks as they are. *)
Theorem heap_refines_arrays `{MMStorage} h A op : stands_for h A → permitted op (lengths A) h →
  ∃ r h' A', mm_do op h = OK (r, h') ∧ spec_step A op r A' ∧ stands_for h' A'.
Proof.
  intros HS Hop. destruct op; [by apply malloc_refines|by apply free_refines|by apply realloc_refines|by apply poke_refines].
Qed.

Lemma heap_refines_arrays_witness : ∃ A op, (stands_for ex1 A ∧ permitted op (lengths A) ex1) ∧
  ∃ r h' A', mm_do op ex1 = OK (r, h') ∧ spec_step A op r A' ∧ stands_for h' A'.
Proof.
  destruct ex1_wf as (U & s & Hwf & Hs & Hr). pose proof (stands_init ex1 U Hwf) as HA.
  pose proof (permitted_realloc ex1 U (ex_p - 16) s 2000 Hs Hr ltac:(lia) ex1_can_grow) as Hp.
  exists (MkArrays (after_error ex1 U) ∅), (Realloc (ex_p - 16 + 16) 2000). split; [exact (conj HA Hp)|].
  exact (heap_refines_arrays ex1 _ _ HA Hp).
Defined.

(** C12: the invariant of the heap (blocks tile the segments without gaps and
    with matching tags at both ends, no two free blocks are neighbours, the
    free lists hold exactly the free blocks, the cache only used ones, the list
    of segments exactly the regions obtained) holds after start-up.  Allocating,
    freeing, emptying the cache, setting the limit and shutting down keep it
    whatever the storage layer answers, also when they end in an error.
    Reallocating keeps it, too, with one exception: if the block begins a
    segment, the storage layer has to be able to enlarge that segment
    ([can_grow]); where it refuses, the code leaves the heap corrupted (see
    [allocator_defects]).  A full shutdown gives back all memory. *)
Theorem heap_well_formed `{MMStorage} :
  (∀ bs rs, is_ulong rs → (∃ k, 5 ≤ k ≤ 62 ∧ bs = 2 ^ k) → ∃ r h U, zend_mm_startup_ex bs rs = OK (r, h) ∧ mm_wf h U) ∧
  ∀ h U, mm_wf h U →
    (∀ n, is_ulong n → ∃ r h' U', _zend_mm_alloc_int n h = OK (r, h') ∧ mm_wf h' U') ∧
    (∀ b s, U !! b = Some s → reserve h ≠ b + 16 →
       (∃ h', _zend_mm_free_int (b + 16) h = OK h' ∧ mm_wf h' (delete b U)) ∧
       ∀ n, is_ulong n → can_grow b (ZEND_MM_TRUE_SIZE n) h →
         ∃ r h' U', _zend_mm_realloc_int (b + 16) n h = OK (r, h') ∧ mm_wf h' U') ∧
    (∃ h', zend_mm_free_cache h = OK h' ∧ mm_wf h' U) ∧
    (∀ m, mm_wf (zend_set_memory_limit m h) U) ∧
    (is_ulong (reserve_size h) → ∃ r h' U', zend_mm_shutdown false h = OK (r, h') ∧ mm_wf h' U') ∧
    (∃ h', zend_mm_shutdown true h = OK (Ptr 0, h') ∧ regions (hstore h') = ∅).
Proof.
  assert (∀ h r, fresh_heap h r → ∃ U, mm_wf h U) as Hfresh by (intros h [p| |]; [intros [[_ ?]|(s & _ & _ & ?)]; eauto|eauto..]).
  assert (∀ h h' U V, mm_wf h U → config h' = config h → mm_heap h' V → (reserve h = 0 ∨ is_Some (V !! (reserve h - 16))) → mm_wf h' V) as Hwf.
  { intros h h' U V _ Hc HH Hr. split; [done|]. unfold config in Hc. by injection Hc as _ _ _ -> _. }
  split.
  { intros bs rs Hrs Hbs. destruct (startup_spec bs rs Hrs Hbs) as (r & h & ? & Hf). destruct (Hfresh h r Hf) as [U ?]. by exists r, h, U. }
  intros h U HU. pose proof HU as [HH Hr]. repeat split.
  - intros n Hn. destruct (alloc_int_spec n h U HU Hn) as (r & h' & ? & Hpost). exists r, h'. destruct r; [destruct Hpost as (? & _ & _ & ? & _)|destruct Hpost..]; eauto.
  - destruct (free_int_spec h U b s HH) as (h' & ? & ? & ? & _); [done|]. exists h'. split; [done|]. eapply (Hwf h); try done.
    destruct Hr as [?|?]; [by left|right]. by rewrite lookup_delete_ne by lia.
  - intros n Hn Hg. destruct (realloc_int_spec h U b s n) as (r & h' & ? & Hpost); try done. exists r, h'. destruct r; [destruct Hpost as (? & _ & _ & ? & _)|destruct Hpost..]; eauto.
  - destruct (free_cache_heap h U HH) as (h' & ? & ? & ? & _). exists h'. split; [done|]. by eapply (Hwf h).
  - by apply set_limit_wf.
  - apply (set_limit_wf m h U HU).
  - intros Hrs. destruct (shutdown_spec h U HU Hrs) as (r & h' & ? & Hf). destruct (Hfresh h' r Hf) as [V ?]. by exists r, h', V.
  - by eapply full_shutdown_spec.
Qed.

Lemma heap_well_formed_witness : (∃ r h U, zend_mm_startup_ex 262144 8192 = OK (r, h) ∧ mm_wf h U) ∧
  ∃ U, mm_wf ex1 U ∧ ∃ h', zend_mm_shutdown true ex1 = OK (Ptr 0, h') ∧ regions (hstore h') = ∅.
Proof.
  destruct heap_well_formed as [Hstart Hkeep]. split.
  - apply Hstart; [lia|]. exists 18. split; [lia|reflexivity].
  - destruct ex1_wf as (U & s & Hwf & _). exists U. split; [exact Hwf|]. exact (proj2 (proj2 (proj2 (proj2 (proj2 (Hkeep ex1 U Hwf)))))).
Defined.

(** * The functions *)

(** C13: _zend_mm_alloc_int, on every branch (cache, small buckets, large
    buckets, rest list, a new segment, the three errors): a block that was not
    in use, overlaps no block in use and is long enough, or an error, for one
    of the reasons there are (the size wraps around; no large free block is
    long enough, and the limit or the storage layer refuses a segment), after
    which the heap is well formed and the reserve is spent.  The memory taken
    from the storage layer is the sum of the segments, and grows only within
    the limit. *)
Theorem alloc_correct `{MMStorage} h U size : mm_wf h U → is_ulong size →
  ∃ r h', _zend_mm_alloc_int size h = OK (r, h') ∧ real_size h' = ulong_wrap (total (regions (hstore h'))) ∧
  match r with
  | Ptr p => ∃ s, U !! (p - 16) = None ∧ size ≤ s - 16 ∧ (8 | p) ∧ 0 < p ∧ p - 16 + s ≤ 2 ^ 64 ∧
      (∀ b t, U !! b = Some t → p - 16 + s ≤ b ∨ b + t ≤ p - 16) ∧ mm_wf h' (<[p - 16 := s]> U) ∧
      (real_size h' = real_size h ∨ real_size h' ≤ limit h) ∧ same_data U h h'
  | _ => mm_wf h' (after_error h U) ∧ reserve h' = 0 ∧ same_data (after_error h U) h h' ∧ refused r size h
  end.
Proof.
  intros Hwf Hsz. destruct (alloc_int_spec size h U Hwf Hsz) as (r & h' & HOK & Hpost). exists r, h'. split; [done|]. pose proof (alloc_int_refused _ _ _ _ Hsz HOK) as Href.
  assert (∀ V, mm_wf h' V → real_size h' = ulong_wrap (total (regions (hstore h')))) as Hreal by (intros V [(B & C & [_ Hs] & _) _]; apply Hs).
  destruct r as [p| |]; [|destruct Hpost as (Hw & ? & ?); split; [by eapply Hreal|split_and!; done]..].
  destruct Hpost as (s & Hn & Hs & Hwf' & _ & Hr & Hd). split; [by eapply Hreal|]. exists s.
  assert (<[p - 16 := s]> U !! (p - 16) = Some s) as Hp by apply lookup_insert_eq.
  destruct (heap_block _ _ _ _ (proj1 Hwf') Hp) as (? & ? & [k Hk] & _ & ?). split_and!; try done; try lia; [by exists (k + 2); lia|].
  intros b t Hb. assert (p - 16 ≠ b) by congruence. eapply (heap_disjoint _ _ _ _ _ _ (proj1 Hwf') Hp); [|done]. by rewrite lookup_insert_ne.
Qed.

Lemma alloc_correct_witness : ∃ U, (mm_wf ex1 U ∧ is_ulong 50000) ∧ ∃ r h', _zend_mm_alloc_int 50000 ex1 = OK (r, h') ∧
  real_size h' = ulong_wrap (total (regions (hstore h'))).
Proof.
  destruct ex1_wf as (U & s & Hwf & _). exists U. split; [split; [exact Hwf|lia]|].
  destruct (alloc_correct ex1 U 50000 Hwf) as (r & h' & HOK & Hr & _); [lia|]. exists r, h'. split; [exact HOK|exact Hr].
Defined.

(** C14: _zend_mm_realloc_int, when it shrinks in place, takes a cached block,
    grows into the next block, resizes the segment or moves: the bytes up to
    the smaller length are those of before, and so are those of all other
    blocks; NULL is an allocation; after an error (the limit is exceeded, or no
    memory is left to move the block) the block is still there.  One branch is
    excepted ([can_grow]): the block begins a segment and the storage layer
    refuses to enlarge that segment; there the code corrupts the heap (see
    [allocator_defects]). *)
Theorem realloc_correct `{MMStorage} h U size : mm_wf h U → is_ulong size →
  _zend_mm_realloc_int 0 size h = _zend_mm_alloc_int size h ∧
  ∀ b s, U !! b = Some s → reserve h ≠ b + 16 → can_grow b (ZEND_MM_TRUE_SIZE size) h →
    ∃ r h', _zend_mm_realloc_int (b + 16) size h = OK (r, h') ∧
    match r with
    | Ptr p => ∃ s', delete b U !! (p - 16) = None ∧ size ≤ s' - 16 ∧ mm_wf h' (<[p - 16 := s']> (delete b U)) ∧ same_data (delete b U) h h' ∧
        ∀ i v, 0 ≤ i < Z.min s s' - 16 → data (hstore h) !! (b + 16 + i) = Some v → data (hstore h') !! (p + i) = Some v
    | _ => mm_wf h' (after_error h U) ∧ after_error h U !! b = Some s ∧ same_data (after_error h U) h h'
    end.
Proof.
  intros Hwf Hsz. split; [done|]. intros b s Hb Hr Hc. destruct (realloc_int_spec h U b s size Hwf Hb Hr Hsz Hc) as (r & h' & HOK & Hpost).
  exists r, h'. split; [done|]. destruct r as [p| |].
  - destruct Hpost as (s' & ? & ? & ? & _ & ? & ?). exists s'. split_and!; done || lia.
  - destruct Hpost as (? & _ & ?). split_and!; [done|by apply owned_insert|done].
  - destruct Hpost as (? & _ & ?). split_and!; [done|by apply owned_insert|done].
Qed.

Lemma realloc_correct_witness : ∃ U s, (mm_wf ex1 U ∧ is_ulong 2000 ∧ U !! (ex_p - 16) = Some s ∧ can_grow (ex_p - 16) (ZEND_MM_TRUE_SIZE 2000) ex1) ∧
  ∃ r h', _zend_mm_realloc_int (ex_p - 16 + 16) 2000 ex1 = OK (r, h').
Proof.
  destruct ex1_wf as (U & s & Hwf & Hs & Hr). assert (is_ulong 2000) as Hn by lia. exists U, s.
  split; [exact (conj Hwf (conj Hn (conj Hs ex1_can_grow)))|].
  destruct (proj2 (realloc_correct ex1 U 2000 Hwf Hn) _ _ Hs Hr ex1_can_grow) as (r & h' & HOK & _). exists r, h'. exact HOK.
Defined.

(** C15: _zend_mm_free_int gives back exactly one block, and NULL is ignored;
    the other blocks keep their contents.  A small block goes to the cache
    while there is room, and the next request of its size gets it back. *)
Theorem free_correct `{MMStorage} h U : mm_heap h U →
  _zend_mm_free_int 0 h = OK h ∧
  ∀ b s, U !! b = Some s →
    ∃ h', _zend_mm_free_int (b + 16) h = OK h' ∧ mm_heap h' (delete b U) ∧ config h' = config h ∧ same_data (delete b U) h h' ∧
    ∀ n, s < 544 → cached h < ZEND_MM_CACHE_SIZE → n ≤ s → ZEND_MM_TRUE_SIZE n = s → ∃ h2, _zend_mm_alloc_int n h' = OK (Ptr (b + 16), h2).
Proof.
  intros HH. split; [done|]. intros b s Hb. destruct (free_int_spec h U b s HH Hb) as (h' & HOK & HH' & Hc & Hd). exists h'. do 4 (split; [done|]).
  intros n Hs Hca Hns Hts. destruct (heap_block _ _ _ _ HH Hb) as (Hb0 & _). destruct HH as (B & C & HI & HU). apply HU in Hb as [Hb _].
  unfold _zend_mm_free_int in HOK. destruct (Z.eqb_spec (b + 16) 0); [lia|]. replace (b + 16 - ZEND_MM_ALIGNED_HEADER_SIZE) with b in HOK by lia.
  rewrite (read_size (co_geo _ _ _ (mi_core _ _ _ _ HI)) (co_tag _ _ _ (mi_core _ _ _ _ HI)) _ _ _ Hb) in HOK. cbn [obind] in HOK.
  assert (ZEND_MM_SMALL_SIZE s = true) as Hsm by by apply Z.ltb_lt. rewrite Hsm, (proj2 (Z.ltb_lt _ _) Hca) in HOK. cbn [andb] in HOK.
  apply obind_OK in HOK as (c & Hcc & [= <-]). unfold _zend_mm_alloc_int. rewrite Hts, Hsm. destruct (Z.ltb_spec s n); [lia|].
  cbn [cache set_cached set_cache set_hlists]. rewrite lookup_insert_eq. ob. rewrite decide_False by done. unfold alloc_cached.
  cbn [cache set_cached set_cache set_hlists hlists put_prev prev_free_block]. rewrite lookup_insert_eq. cbn [obind rd as_block].
  rewrite lookup_insert_eq. ob. eauto.
Qed.

Lemma free_correct_witness : ∃ U s, (mm_heap ex1 U ∧ U !! (ex_p - 16) = Some s) ∧
  ∃ h', _zend_mm_free_int (ex_p - 16 + 16) ex1 = OK h' ∧ mm_heap h' (delete (ex_p - 16) U).
Proof.
  destruct ex1_wf as (U & s & Hwf & Hs & _). exists U, s. split; [exact (conj (proj1 Hwf) Hs)|].
  destruct (proj2 (free_correct ex1 U (proj1 Hwf)) _ _ Hs) as (h' & HOK & HH & _). exists h'. exact (conj HOK HH).
Defined.

(** * The free lists *)

(** C16: the free lists (size buckets, bitwise tries and rest list, with their
    bitmaps and the doubly linked rings) are a finite map from blocks to
    sizes: empty at first, adding enters a block, removing takes one out, the
    eviction of old rest blocks changes nothing. *)
Theorem free_lists_are_a_map S F L : fl S F L →
  fl S ∅ (init_lists L) ∧
  (∀ b s, F !! b = None → info_size S !! b = Some s → b ≠ 0 → 32 ≤ s < 2 ^ 64 → (8 | s) →
     (∃ L', zend_mm_add_to_free_list S b L = OK L' ∧ fl S (<[b := s]> F) L') ∧
     (∃ L', zend_mm_add_to_rest_list S b L = OK L' ∧ fl S (<[b := s]> F) L')) ∧
  (∀ b s, F !! b = Some s → ∃ L', zend_mm_remove_from_free_list S b L = OK L' ∧ fl S (delete b F) L').
Proof.
  intros Hf. split; [apply fl_init|]. split.
  - intros b s Hb Hs Hb0 Hr H8. assert (good_block S b s) as Hg by done.
    destruct (adds_free S b F L s Hf Hb Hg) as (L1 & ? & ? & _), (adds_rest S b F L s Hf Hb Hg) as (L2 & ? & ? & _). eauto 10.
  - intros b s Hb. destruct (remove_from_free_list_spec S F L b s Hf Hb) as (L' & ? & ? & _). eauto.
Qed.

Lemma free_lists_are_a_map_witness : fl (hstore ex1) ∅ (init_lists empty_lists) ∧
  ∃ L', zend_mm_add_to_free_list (put_size 4096 800 empty_store) 4096 (init_lists empty_lists) = OK L' ∧
    fl (put_size 4096 800 empty_store) {[4096 := 800]} L'.
Proof.
  split; [exact (fl_init _ _)|].
  destruct (free_lists_are_a_map (put_size 4096 800 empty_store) ∅ (init_lists empty_lists) (fl_init _ _)) as (_ & Hadd & _).
  destruct (Hadd 4096 800) as [(L' & HL & Hf) _]; [reflexivity|reflexivity|lia|lia|exists 100; reflexivity|].
  exists L'. exact (conj HL Hf).
Defined.

(** C17: zend_mm_search_large_block finds a block in the large buckets whenever
    one is big enough, one of exactly the right size if there is one, and
    changes nothing. *)
Theorem large_search_finds S F sm rs tr L ts : flists S F sm rs tr L → 32 ≤ ts < 2 ^ 64 →
  ∃ r, zend_mm_search_large_block S ts L = OK r ∧
  match r with
  | Some q => ∃ s, large_block F rs q s ∧ ts ≤ s ∧ ((∃ a, large_block F rs a ts) → s = ts)
  | None => ∀ a s, large_block F rs a s → s < ts
  end.
Proof. intros Hf Hts. exact (search_large_spec _ _ _ _ _ _ Hf ts Hts). Qed.

Lemma large_search_finds_witness : ∃ F sm rs tr, flists (hstore ex1) F sm rs tr (hlists ex1) ∧
  ∃ r, zend_mm_search_large_block (hstore ex1) 100000 (hlists ex1) = OK r.
Proof.
  destruct ex1_wf as (U & s & [(B & C & HI & _) _] & _). destruct (co_fl _ _ _ (mi_core _ _ _ _ HI)) as (sm & rs & tr & Hf).
  exists (free_map B), sm, rs, tr. split; [exact Hf|].
  destruct (large_search_finds _ _ _ _ _ _ 100000 Hf) as (r & HOK & _); [lia|]. exists r. exact HOK.
Defined.

(** * Sizes *)

(** C18: no request is served with a block that is too small because a size
    wrapped around: rounding up is exact, or the result is smaller than the
    request, which the functions test; [nmemb * size + offset] is exact, or
    the request ends in a fatal error. *)
Theorem sizes_exact `{MMStorage} : 
  (∀ size, is_ulong size → (8 | ZEND_MM_TRUE_SIZE size) ∧
     (ZEND_MM_TRUE_SIZE size < size ∧ 2 ^ 64 - 32 < size ∨
      size + 16 ≤ ZEND_MM_TRUE_SIZE size < 2 ^ 64 ∧ (ZEND_MM_TRUE_SIZE size = 32 ∨ ZEND_MM_TRUE_SIZE size < size + 24))) ∧
  (∀ size h, is_ulong size → ZEND_MM_TRUE_SIZE size < size → _zend_mm_alloc_int size h = zend_mm_safe_error Out_of_memory h) ∧
  ∀ nmemb size offset, is_ulong nmemb → is_ulong size → is_ulong offset →
    (safe_address nmemb size offset = if nmemb * size + offset <? 2 ^ 64 then OK (nmemb * size + offset) else Bailout) ∧
    (2 ^ 64 ≤ nmemb * size + offset → ∀ h p, _safe_emalloc nmemb size offset h = Bailout ∧ _safe_erealloc p nmemb size offset h = Bailout) ∧
    (2 ^ 64 ≤ nmemb * size → ∀ h, _ecalloc nmemb size h = Bailout).
Proof.
  split; [|split].
  - intros size Hs. destruct (true_size_spec size Hs) as [H8 [(? & ? & ?)|(? & ? & ?)]]; (split; [done|]); [left|right]; lia.
  - intros size h Hs Hlt. unfold _zend_mm_alloc_int. destruct (true_size_spec size Hs) as [_ [(_ & Hlow & _)|(? & ? & _)]]; [|lia].
    assert (ZEND_MM_SMALL_SIZE (ZEND_MM_TRUE_SIZE size) = true) as -> by (apply Z.ltb_lt; lia). by rewrite (proj2 (Z.ltb_lt _ _) Hlt).
  - intros n s o Hn Hs Ho. pose proof (safe_address_exact n s o Hn Hs Ho) as Hx. split; [done|]. split.
    + intros Hov h p. unfold _safe_emalloc, _safe_erealloc. rewrite Hx, (proj2 (Z.ltb_ge _ _)) by done. done.
    + intros Hov h. unfold _ecalloc, _safe_emalloc. rewrite safe_address_exact, (proj2 (Z.ltb_ge _ _)) by lia. done.
Qed.

Lemma sizes_exact_witness : ZEND_MM_TRUE_SIZE (2 ^ 64 - 1) < 2 ^ 64 - 1 ∧ _ecalloc (2 ^ 32) (2 ^ 32) ex1 = Bailout.
Proof.
  destruct sizes_exact as (Ht & _ & Hs). split.
  - destruct (Ht (2 ^ 64 - 1)) as [_ [Hx|Hx]]; [lia|exact (proj1 Hx)|lia].
  - apply (proj2 (proj2 (Hs (2 ^ 32) (2 ^ 32) 0 ltac:(lia) ltac:(lia) ltac:(lia)))). lia.
Defined.

(** * Defects *)

Lemma failed_realloc_corrupts :
  let h := malloc 262000 (heap_of (zend_mm_startup_ex 262144 0) no_heap) in
  result_of (_zend_mm_alloc_int 262000 (heap_of (zend_mm_startup_ex 262144 0) no_heap)) = Ptr 131104 ∧
  (∃ h', _zend_mm_free_int 131104 h = OK h') ∧
  let r := @_zend_mm_realloc_int stingy_storage 131104 300000 h in
  result_of r = Out_of_memory ∧ _zend_mm_free_int 131104 (heap_of r h) = Bailout.
Proof.
  split; [vm_compute; reflexivity|]. split; [|split; vm_compute; reflexivity].
  set (o := _zend_mm_free_int _ _). assert (match o with OK _ => true | _ => false end = true) as E by (vm_compute; reflexivity).
  destruct o as [h'| |]; [by exists h'|done..].
Qed.

(** Five concrete runs in which the memory manager does not do what it
    means to.  When realloc of a segment fails in the storage layer, the free
    block behind the program's block has left the free lists and is not put
    back, and freeing the block, which the program still owns, finds the heap
    corrupted.  Taking the only small block from the rest list clears the bit
    of a bucket that holds one block, which is not found any more.  The search
    for the smallest large block returns one of 1536 bytes although one of 1032
    would do.  Emptying the cache makes the memory usage grow.  A request close
    to 2^64 bytes passes the check of the memory limit. *)
Theorem allocator_defects :
  (let h := malloc 262000 (heap_of (zend_mm_startup_ex 262144 0) no_heap) in
   result_of (_zend_mm_alloc_int 262000 (heap_of (zend_mm_startup_ex 262144 0) no_heap)) = Ptr 131104 ∧
   (∃ h', _zend_mm_free_int 131104 h = OK h') ∧
   let r := @_zend_mm_realloc_int stingy_storage 131104 300000 h in
   result_of r = Out_of_memory ∧ _zend_mm_free_int 131104 (heap_of r h) = Bailout) ∧
  (next_free_block (hlists ex_lost) !! Rest = Some (Blk 982928) ∧
   result_of (_zend_mm_alloc_int 80 ex_lost) = Ptr (393104 + 16) ∧
   let h := mfree 458784 ex_lost in
   next_free_block (hlists h) !! Small 8 = Some (Blk 393104) ∧ free_bitmap (hlists h) = 0 ∧
   result_of (_zend_mm_alloc_int 80 h) = Ptr 458784 ∧ real_size (malloc 80 h) = real_size h + 262144) ∧
  (info_size (hstore ex_fit) !! 131088 = Some 1536 ∧ info_size (hstore ex_fit) !! 133240 = Some 1032 ∧
   zend_mm_search_large_block (hstore ex_fit) 608 (hlists ex_fit) = OK (Some 131088)) ∧
  (let h := mfree 131104 (malloc 100 (heap_of (zend_mm_startup_ex 262144 0) no_heap)) in
   zend_memory_usage false h = 0 ∧
   match zend_mm_free_cache h with OK h' => real_size h' = 0 ∧ zend_memory_usage false h' = 120 | _ => False end) ∧
  (let h := malloc 100 (heap_of (zend_mm_startup_ex 262144 0) no_heap) in
   result_of (_zend_mm_alloc_int (2 ^ 63) h) = Limit_exhausted ∧ result_of (_zend_mm_alloc_int (2 ^ 64 - 2 ^ 18 - 48) h) = Out_of_memory).
Proof.
  exact (conj failed_realloc_corrupts (conj small_block_lost (conj not_smallest_fit (conj usage_after_free_cache limit_check_wraps)))).
Qed.
